(* ===== verification/_CoqProject ===== *)
-Q . S2P
Prelude.v
PktDecoder.v
PktVectors.v
PktBounds.v
PtStack.v
Float64.v
PtState.v
PtTime.v
PtReader.v
PktStream.v
PktTheorems.v
PtWalk.v
PtTrace.v
PtVmTime.v
PtDecode.v
PtSafe.v
PtSafeReader.v
PtSafeWalk.v
PtExample.v
PtTotal.v
PtTnt.v
PtScan.v
InsnAttr.v
InsnDecoder.v
PtInsn.v
InsnSafe.v
InsnExample.v
InsnPrefix.v
InsnTheorems.v
AuxCache.v
AuxHeap.v
AuxHeapTheorems.v
PtSession.v
PtCode.v
PtCodeTheorems.v
PtCodeClaims.v
PtTimeRange.v
PtTimeRangeTheorems.v
AuxQueues.v
PtBatch.v
PtBatchInput.v
PtBatchWorkers.v
PtBatchClaims.v
RbTree.v
RbTreeTheorems.v
CallPath.v
Bitmap.v
BitmapTheorems.v
ListSort.v
ListSortTheorems.v
CallPathTheorems.v
Symbols.v
SymbolTheorems.v
OrderedEvents.v
OrderedTheorems.v
OrderedClaims.v
ThreadStack.v
ThreadSample.v
ThreadCalls.v
ThreadSafe.v
ThreadSteps.v
ThreadTheorems.v
ThreadRuns.v
ThreadEvents.v
ThreadClaims.v
PtConfig.v
PtSynth.v
PtPebs.v
PtFilter.v
PtSample.v
PtQueues.v
PtEvents.v
PtMerge.v
PtMergeExample.v
PtMergeClaims.v
PtFilterClaims.v
PtSwitchClaims.v
PtTimeTheorems.v
PtWalkTheorems.v
PtTheorems.v
