(* ===== verification/Prelude.v ===== *)
(** * Verification of the Intel PT decoder of pt_perf

    pt_perf measures function latencies from Intel Processor Trace (PT).  Its
    C++ driver (src/src) runs a vendored copy of the Linux perf tool
    (src/tools/perf), and all it reports rests on perf's reconstruction of the
    control flow and of time from the compressed trace.  This library models
    that reconstruction, the C code from bytes of trace to selected samples, and
    proves what makes it right.  Paths below are relative to
    src/tools/perf/util unless they start with another directory.

    ** How the program is put together

    The kernel writes trace into ring buffers that perf stores, one queue of
    buffers per CPU or thread.  A heap orders the queues by the time each has
    been decoded to (auxtrace.c); the session (intel-pt.c) decodes the earliest
    queue up to the time of the next, or several processes share the trace out
    among themselves.  A decoder (intel-pt-decoder/
    intel-pt-decoder.c) asks the session for buffers, decodes packets
    (intel-pt-pkt-decoder.c), and between two packets walks the code of the
    traced process, which it asks the session for: the session finds the map
    and the file of an address, decodes instructions (intel-pt-insn-decoder.c
    over tools/arch/x86/lib/insn.c) up to the next branch and remembers the walk
    in a cache of the file.  Each call of [intel_pt_decode] returns one sample,
    which the session keeps if its time is in a range the user asked for.  From
    the branches of a thread thread-stack.c keeps its stack of calls, for call
    chains and for records of calls with their time, and ordered-events.c puts
    the events of all queues in order; with the events of context switches among
    them the session knows which thread a CPU runs.

    ** Files

    Shared.
    - Prelude: C integers of a fixed width, bytes and buffers, record update,
      arrays, and the lemmas about them.  Float64: C [double].

    Packets, intel-pt-pkt-decoder.c.
    - PktDecoder: the packet decoder, a definition per C function; a read
      outside the buffer is [None].  PktVectors: the repository's own table of
      tests (arch/x86/tests/intel-pt-test.c), run on it.
    - PktBounds, PktStream: bounds of reads and values, prefix code; an encoder
      and its inverse, streams with padding.
      PktTheorems: the claims.

    The decoder, intel-pt-decoder.c.
    - PtStack: the return stack, as blocks of 1024 addresses.
    - PtState: the structures, field by field, and the monad of the decoder.
    - PtTime: construction, addresses, time stamps.  PtReader: buffers, packets
      and PSBs split between buffers, looking ahead, the scan for a PSB.
      PtWalk: instruction, FUP, TIP and TNT walks, loop detection, emulated
      PTWRITE.  PtTrace: the packet walks, PSB+, hop mode.  PtVmTime: VM time
      correlation.  PtDecode: [intel_pt_decode], fast forward, overlap of
      buffers.
    - PtSafe, PtSafeReader, PtSafeWalk: memory safety, function by function.
      PtTotal, PtTnt, PtScan: termination and loops, payloads and branch
      outcomes, finite traces and the scan.  PtExample: concrete parameters for
      witnesses.  PtTimeTheorems (with the lemmas on clocks), PtWalkTheorems,
      PtTheorems: the claims.

    Instructions.
    - InsnAttr, InsnDecoder: inat.c and insn.c of tools/arch/x86/lib with their
      headers.  PtInsn: intel-pt-insn-decoder.c.
    - InsnSafe, InsnPrefix: safety and independence of what follows.
      InsnExample: some rows of the opcode map, for witnesses.  InsnTheorems:
      the claims.

    The session, intel-pt.c and auxtrace.c.
    - AuxHeap, AuxHeapTheorems: the heap of queues.  AuxCache: the hash table
      behind the cache of walks.
    - PtSession: machine, thread and map of an address, filter regions.  PtCode:
      [intel_pt_walk_next_insn], its cache, and [intel_pt_text_poke].
      PtCodeTheorems, PtCodeClaims: lemmas and claims on them.
    - PtTimeRange, PtTimeRangeTheorems: time ranges and their selection (with
      tsc.c).
    - AuxQueues: the queues of buffers.  PtBatch: parallel decoding, the batches
      of a trace by CPU and thread and the callbacks that respect them.
      PtBatchInput, PtBatchWorkers: the shares and the input of the workers, and
      their index.  PtBatchClaims: the claims.
    - OrderedEvents, OrderedTheorems, OrderedClaims: ordered-events.c, which
      brings the events of all queues into one order.
    - PtConfig: the configuration and what follows from it for the decoders.
      PtSynth, PtPebs: the state of the session, its monad [SM], and the samples
      of each kind.  PtFilter: the filter by function that pt_perf adds.
      PtSample: [intel_pt_sample], the thread of a queue, branches to the
      switch of threads.  PtQueues: setting up queues, [intel_pt_run_decoder],
      [intel_pt_process_queues].  PtEvents: context switches,
      [intel_pt_process_event] and [intel_pt_flush].
    - PtMerge (first what a function of [SM] yields, and relations it keeps to),
      PtMergeExample, PtMergeClaims: the order of samples, an interface
      and one queue, an instance, the claim.
      PtFilterClaims, PtSwitchClaims: claims on the filter and on switches.

    Calls and returns.
    - RbTree, RbTreeTheorems: red-black trees (tools/lib/rbtree.c).  CallPath,
      CallPathTheorems: the tree of chains of calls, call-path.c.
    - ThreadStack, ThreadSample, ThreadCalls: thread-stack.c, first the stacks of
      return addresses and buffers of branches, then the samples made of them,
      then the calls and returns given to a callback.
    - ThreadSafe, ThreadSteps, ThreadTheorems: validity of stacks, operation by
      operation.  ThreadRuns: samples that nest and what is reported
      of them.  ThreadEvents: the history behind a sample.  ThreadClaims: the
      claims.

    Symbols.
    - Symbols, SymbolTheorems: the symbols of a file and of the kernel, symbol.c.

    Shared by perf's tools (tools/lib).
    - Bitmap, BitmapTheorems: sets of CPUs and nodes, find_bit.c, hweight.c and
      bitmap.c.  ListSort, ListSortTheorems: the sort of linked lists, list_sort.c.

    ** How the code is modelled

    Integers are [Z], with [u8] to [u64] and [swrap] where C wraps or casts.
    Structures are records of the C fields, enums inductive types.  A function
    of the decoder is a term of [M D], which passes the decoder and the data of
    the callbacks, and can end in [Fault], a bad access or a use C leaves
    undefined, or in [OutOfFuel].  Callbacks are the class [Callbacks]: the
    session's side of the decoder is a parameter of it, and so are the host's
    word size and out-of-range conversions ([Platform]), the opcode tables, which
    the build generates ([InatTables]), and what the session asks of the rest of
    perf ([PerfEnv]).  A function of the session is a term of [SM], which passes
    [session], with a [ptq] by the number of its queue; the rest of perf is the
    class [SessionEnv] over a type [E] of its state, the decoder of a queue the
    class [Decoders], of which [pt_decoders] is the model of the decoder, and the
    tables of events [EventEnv].  An allocation that can fail takes the outcome as an
    argument.

    Hypotheses on these parameters are classes too: [TraceEnv] (buffers have the
    length they claim, at least 32 bytes, and consist of bytes), [FiniteTrace]
    (the trace ends), [TablesOk] (the tables have the documented ranges),
    [CodeOk] (maps cover what they say, and the code does not change),
    [ObservedEnv] (what a decoder has returned and what has been delivered can be
    observed, decoders end, and deliveries succeed).  Each has an
    instance that the witnesses use.

    ** Fuel

    Loops over a buffer are bounded by its length and are total; loops that end
    for arithmetic reasons have a bound in their definition, and a theorem that
    it is enough.  The loops whose length depends on trace still to come
    ([intel_pt_get_next_packet], the walks) take the class [Fuel]; safety
    theorems hold for every fuel, termination theorems say how much is enough:
    the bytes of the trace for the reader, the outcomes of a TNT packet for its
    walk, the instructions of a block for a walk of code, the starts and ends of
    the ranges for the time filter, the calls the decoders need in all and the
    queues on the heap for the loop over the queues, and [2 ^ time_shift / time_mult + 4] for the
    conversion of times, which steps over the ticks of a single unit of time.

    ** Theorems

    - Safety: no bad access in any run of the decoder, by the packet decoder, by
      the instruction decoder (decode_memory_safe, get_packet_safe,
      insn_decode_safe); what breaks when a buffer is too short, or when offsets
      exceed the 32-bit keys of the cache (PtTheorems.split_psb_overrun,
      PtCodeClaims.far_offsets_collide).
    - Formats: packets round-trip through an encoder, in streams with padding and both
      forms of TNT packets;
      packets and instructions are prefix codes; compressed addresses and time
      stamps are recovered (packet_stream_roundtrip, packet_prefix_code,
      insn_prefix_code, ip_compression_roundtrip).
    - Control flow: TNT outcomes are followed one by one, loops are reported
      soundly and in time, FUP and TIP walks end, payloads are gathered
      (walk_tnt_follows, loop_report_sound, loop_reported,
      PtWalkTheorems.walk_fup_ends, walk_tip_ends, emulated_ptwrite_payload).
    - Time: ticks are recovered from MTC packets, time never goes back, time
      ranges are translated and selected exactly (mtc_time, cyc_time,
      time_ranges_exact, time_filter_selects).
    - Structures: the return stack is a stack, the heap a priority queue, the
      cache of walks transparent and invalidated by changes of code
      (stack_refines_list, heap_is_priority_queue, walk_cache_transparent,
      text_poke_invalidates); red-black trees stay balanced and in order, and a
      chain of calls has one call path (rbtree_ordered, call_path_interned).
    - Symbols: an address of the kernel is given the right symbol
      (kallsyms_lookup, for kernel and modules), one best symbol is kept at each address
      (fixup_duplicate_exact), and functions are found by name
      (find_by_name_exact).
    - Bitmaps are sets: searches, weights, operations and printing
      (find_bit_exact, bitmap_ops_exact, BitmapTheorems.bitmap_print_exact).  Linked lists are
      sorted in place, safely and stably (list_sort_stable).
    - Parallel decoding: every part of the trace is in the share of one worker,
      and the shares add up to the trace (parallel_batches,
      parallel_covers_trace).
    - Order: events queued with the flushes perf makes are delivered in order of
      time, all of them and once (rounds_sorted), and queues stay valid whatever
      is queued and whichever allocations fail (ordered_events_kept).
    - The session: the branches of all queues are delivered without loss, in the order
      of time as far as each queue's time does not go back (queues_merged); the filter by function keeps just the branches
      asked for (function_filter_exact); a switch of threads takes effect once,
      whether its event or its branch comes first (switch_either_order).
    - Calls: the stack of calls makes no bad access and stays valid whatever it
      is given (calls_safe); calls that nest are reported, each with its chain,
      times and counts (calls_reported); call chains and branch stacks show the
      history of the trace (event_samples).

    Each theorem's comment says under what conditions it holds.  The most important:
    buffers of a trace hold at least 32 bytes, if any (decode_memory_safe,
    scan_finds_first_psb, next_packet_ends); forks succeed and no PSB is split between
    two buffers of a parallel run (parallel_batches, parallel_covers_trace); deliveries
    succeed (ordered_events_kept, rounds_sorted, queues_merged); intervals of time begin
    after [time_zero] (time_ranges_exact); a branch stack has room for the whole ring, or
    the ring is not full (event_samples).  Where the code goes wrong without such a
    condition an example or a remark next to the theorem shows it.

    ** Not modelled

    - The printing of packets and instructions and the debug log: no effect on
      decoding.
    - Of intel-pt.c: reading the configuration from the auxtrace_info event,
      making the events to synthesise, the tables of TSC offsets of guests, the
      printing of dumps, and freeing.  The session takes its configuration as a
      record; what it asks of evsels, threads and maps is a parameter.
    - The recording side (auxtrace.c, builtin-record.c, ring buffers): system
      calls and shared memory with the kernel.
    - The rest of perf (ELF files, maps, user interfaces), libbpf and the other
      tools libraries: not part of the reconstruction, apart from the parts the
      parameters above stand for.
    - The C++ driver of src/src: it runs perf and parses its text output. *)
From Stdlib Require Import ZArith Lia List Bool.
From Stdlib Require Export Strings.Byte.
From stdpp Require Export base numbers list option.

Declare Scope c_scope.
Delimit Scope c_scope with C.
Open Scope Z_scope.

(** ** C integer arithmetic

    A C integer of width [w] is a [Z] kept in range by the wrap functions
    below.  The notations of [c_scope] write the bit operators the way the C
    source does. *)
Notation "a .& b" := (Z.land a b) (at level 42, left associativity) : c_scope.
Notation "a .| b" := (Z.lor a b) (at level 46, left associativity) : c_scope.
Notation "a .<< b" := (Z.shiftl a b) (at level 39, left associativity) : c_scope.
Notation "a .>> b" := (Z.shiftr a b) (at level 39, left associativity) : c_scope.
Notation ".~ a" := (Z.lnot a) (at level 35, right associativity) : c_scope.

(** Conversion to an unsigned type of [w] bits: reduction modulo [2^w]. *)
Definition wrap (w z : Z) : Z := Z.land z (Z.ones w).
Abbreviation u8 := (wrap 8).
Abbreviation u16 := (wrap 16).
Abbreviation u32 := (wrap 32).
Abbreviation u64 := (wrap 64).

(** Conversion to a signed type of [w] bits (two's complement). *)
Definition swrap (w z : Z) : Z :=
  let m := wrap w z in
  if Z.testbit m (w - 1) then m - 2 ^ w else m.
Abbreviation s16 := (swrap 16).
Abbreviation s32 := (swrap 32).

Lemma wrap_mod w z : 0 <= w -> wrap w z = z mod 2 ^ w.
Proof. intros. by apply Z.land_ones. Qed.

Lemma wrap_range w z : 0 <= w -> 0 <= wrap w z < 2 ^ w.
Proof. intros. rewrite wrap_mod by done. apply Z.mod_pos_bound. lia. Qed.

Lemma wrap_small w z : 0 <= w -> 0 <= z < 2 ^ w -> wrap w z = z.
Proof. intros. rewrite wrap_mod by done. by apply Z.mod_small. Qed.

Lemma wrap_idemp w z : 0 <= w -> wrap w (wrap w z) = wrap w z.
Proof. intros. apply wrap_small; [done|]. by apply wrap_range. Qed.

Lemma u64_range z : 0 <= u64 z < 2 ^ 64.
Proof. by apply wrap_range. Qed.

Lemma u64_small z : 0 <= z < 2 ^ 64 -> u64 z = z.
Proof. by apply wrap_small. Qed.

Lemma u64_mod z : u64 z = z mod 2 ^ 64.
Proof. by apply wrap_mod. Qed.

Lemma u64_add_l a b : u64 (u64 a + b) = u64 (a + b).
Proof. by rewrite !u64_mod, Zplus_mod_idemp_l. Qed.

Lemma u32_range z : 0 <= u32 z < 2 ^ 32.
Proof. by apply wrap_range. Qed.

Lemma u32_add_l a b : u32 (u32 a + b) = u32 (a + b).
Proof. by rewrite !wrap_mod, Zplus_mod_idemp_l. Qed.

Lemma u32_sub_l a b : u32 (u32 a - b) = u32 (a - b).
Proof. by rewrite !wrap_mod, Zminus_mod_idemp_l. Qed.

Lemma u64_sub_l a b : u64 (u64 a - b) = u64 (a - b).
Proof. by rewrite !wrap_mod, Zminus_mod_idemp_l. Qed.

Lemma u32_small z : 0 <= z < 2 ^ 32 -> u32 z = z.
Proof. by apply wrap_small. Qed.

Lemma s32_small z : 0 <= z < 2 ^ 31 -> s32 z = z.
Proof.
  intros. unfold swrap. rewrite u32_small by lia.
  assert (Z.testbit z (32 - 1) = false) as ->; [|done].
  destruct (Z.eq_dec z 0) as [->|]; [apply Z.testbit_0_l|].
  apply Z.bits_above_log2; [lia|]. apply Z.log2_lt_pow2; lia.
Qed.

(** ** Bytes and little-endian loads *)

Definition bz (b : byte) : Z := Z.of_N (Byte.to_N b).

Definition zb (z : Z) : byte :=
  match Byte.of_N (Z.to_N (u8 z)) with Some b => b | None => x00 end.

Lemma bz_range b : 0 <= bz b < 256.
Proof. unfold bz. pose proof (Byte.to_N_bounded b). lia. Qed.

Lemma bz_zb z : bz (zb z) = u8 z.
Proof.
  unfold zb, bz. pose proof (wrap_range 8 z ltac:(lia)).
  destruct (Byte.of_N (Z.to_N (u8 z))) as [b|] eqn:E.
  - apply Byte.to_of_N in E. rewrite E. lia.
  - apply Byte.of_N_None_iff in E. lia.
Qed.

Lemma bz_inj a b : bz a = bz b -> a = b.
Proof.
  unfold bz. intros H.
  assert (Byte.of_N (Byte.to_N a) = Byte.of_N (Byte.to_N b)) as E by (f_equal; lia).
  rewrite !Byte.of_to_N in E. congruence.
Qed.

Lemma zb_bz b : zb (bz b) = b.
Proof.
  apply bz_inj. rewrite bz_zb. apply wrap_small; [lia|]. apply bz_range.
Qed.

#[export] Instance byte_eq_dec : EqDecision byte.
Proof. intros a b. unfold Decision. apply Byte.byte_eq_dec. Defined.

(** The integer stored by a list of bytes, least significant byte first. *)
Fixpoint le_val (bs : list byte) : Z :=
  match bs with
  | [] => 0
  | b :: bs' => bz b + 256 * le_val bs'
  end.

(** The [n] low bytes of [z], least significant first. *)
Fixpoint le_bytes (n : nat) (z : Z) : list byte :=
  match n with
  | O => []
  | S n' => zb z :: le_bytes n' (z / 256)
  end.

Lemma length_le_bytes n z : length (le_bytes n z) = n.
Proof. revert z. induction n as [|n IH]; intros z; simpl; [done|]. by rewrite IH. Qed.

Lemma le_val_range bs : 0 <= le_val bs < 256 ^ Z.of_nat (length bs).
Proof.
  induction bs as [|b bs IH]; [simpl; lia|].
  cbn [le_val length]. rewrite Nat2Z.inj_succ, Z.pow_succ_r by lia.
  pose proof (bz_range b). nia.
Qed.

Lemma le_val_le_bytes n z : le_val (le_bytes n z) = z mod 256 ^ Z.of_nat n.
Proof.
  revert z. induction n as [|n IH]; intros z.
  - simpl. by rewrite Z.mod_1_r.
  - cbn [le_bytes le_val]. rewrite IH, bz_zb, wrap_mod by lia.
    rewrite Nat2Z.inj_succ, Z.pow_succ_r by lia.
    change (2 ^ 8) with 256. rewrite Z.rem_mul_r by lia. lia.
Qed.

Lemma le_bytes_le_val bs : le_bytes (length bs) (le_val bs) = bs.
Proof.
  induction bs as [|b bs IH]; [done|]. cbn [length le_bytes le_val]. f_equal.
  - apply bz_inj. rewrite bz_zb, wrap_mod by lia. change (2 ^ 8) with 256.
    pose proof (bz_range b). rewrite (Z.mul_comm 256), Z.mod_add by lia.
    by apply Z.mod_small.
  - pose proof (bz_range b). rewrite (Z.mul_comm 256), Z.div_add by lia.
    by rewrite Z.div_small by lia.
Qed.

(** Memory reads through a pointer [buf]: [None] is an access past the end of
    the object. *)
Definition rd (buf : list byte) (i : Z) : option Z :=
  if i <? 0 then None else bz <$> buf !! Z.to_nat i.

(** Little-endian load of [n] bytes at [buf + off]. *)
Definition rd_le (buf : list byte) (off : Z) (n : nat) : option Z :=
  if (off <? 0) || (Z.of_nat (length buf) <? off + Z.of_nat n) then None
  else Some (le_val (take n (drop (Z.to_nat off) buf))).

(** [memcpy(&dst, buf + off, n)] on a little-endian host: the low [n] bytes of
    the destination word are replaced. *)
Definition memcpy_le64 (dst : Z) (buf : list byte) (off : Z) (n : nat) : option Z :=
  v ← rd_le buf off n;
  Some (Z.lor (Z.shiftl (Z.shiftr dst (8 * Z.of_nat n)) (8 * Z.of_nat n)) v).

Lemma rd_Some buf i :
  0 <= i < Z.of_nat (length buf) -> exists v, rd buf i = Some v /\ 0 <= v < 256.
Proof.
  intros [H1 H2]. unfold rd. destruct (Z.ltb_spec i 0); [lia|].
  destruct (lookup_lt_is_Some_2 buf (Z.to_nat i)) as [b Hb]; [lia|].
  rewrite Hb. exists (bz b). split; [done|]. apply bz_range.
Qed.

Lemma rd_le_Some buf off n :
  0 <= off -> off + Z.of_nat n <= Z.of_nat (length buf) ->
  exists v, rd_le buf off n = Some v /\ 0 <= v < 256 ^ Z.of_nat n.
Proof.
  intros H1 H2. unfold rd_le.
  destruct (Z.ltb_spec off 0); [lia|].
  destruct (Z.ltb_spec (Z.of_nat (length buf)) (off + Z.of_nat n)); [lia|].
  eexists; split; [done|].
  pose proof (le_val_range (take n (drop (Z.to_nat off) buf))) as R.
  rewrite length_take, length_drop, Nat.min_l in R by lia. done.
Qed.

Lemma memcpy_le64_zero buf off n : memcpy_le64 0 buf off n = rd_le buf off n.
Proof.
  unfold memcpy_le64. rewrite Z.shiftr_0_l, Z.shiftl_0_l.
  by destruct (rd_le buf off n).
Qed.

(** ** Arrays

    [array[n]] and [array[n] = x]; [None] outside the array. *)
Definition idx {A} (l : list A) (n : Z) : option A := if n <? 0 then None else l !! Z.to_nat n.
Definition set_at {A} (l : list A) (n : Z) (x : A) : option (list A) :=
  if (0 <=? n) && (n <? Z.of_nat (length l)) then Some (<[Z.to_nat n := x]> l) else None.

Lemma idx_range {A} (l : list A) n : 0 <= n < Z.of_nat (length l) -> exists x, idx l n = Some x.
Proof.
  intros Hn. unfold idx. destruct (Z.ltb_spec n 0); [lia|]. apply lookup_lt_is_Some_2. lia.
Qed.

Lemma idx_inv {A} (l : list A) n x :
  idx l n = Some x -> 0 <= n < Z.of_nat (length l) /\ l !! Z.to_nat n = Some x.
Proof.
  unfold idx. destruct (Z.ltb_spec n 0); [done|]. intros E. split; [|done].
  apply lookup_lt_Some in E. lia.
Qed.

Lemma set_at_eq {A} (l : list A) n x : 0 <= n < Z.of_nat (length l) ->
  set_at l n x = Some (<[Z.to_nat n := x]> l).
Proof.
  intros Hn. unfold set_at. destruct (Z.leb_spec 0 n); [|lia].
  by destruct (Z.ltb_spec n (Z.of_nat (length l))); [|lia].
Qed.

Lemma idx_insert {A} (l : list A) n m x : 0 <= n < Z.of_nat (length l) ->
  idx (<[Z.to_nat n := x]> l) m = if m =? n then Some x else idx l m.
Proof.
  intros Hn. unfold idx. destruct (Z.eqb_spec m n) as [->|].
  - destruct (Z.ltb_spec n 0); [lia|]. apply list_lookup_insert_eq. lia.
  - destruct (Z.ltb_spec m 0); [done|]. apply list_lookup_insert_ne. lia.
Qed.

(** ** Error codes (errno.h) *)

Definition ENOENT : Z := 2.
Definition EAGAIN : Z := 11.
Definition ENOMEM : Z := 12.
Definition EINVAL : Z := 22.
Definition ENOSPC : Z := 28.
Definition ENOSYS : Z := 38.
Definition ELOOP : Z := 40.
Definition ENODATA : Z := 61.
Definition ETIME : Z := 62.
Definition ENOLINK : Z := 67.
Definition EBADMSG : Z := 74.
Definition EOVERFLOW : Z := 75.
Definition EILSEQ : Z := 84.
Definition ECONNRESET : Z := 104.

(** ** Record update

    [r <| f := v |>] is the C assignment [r.f = v] on a functional record.  A
    record type declares [Eta] (its constructor applied to its projections);
    [solve_setter] derives the update function of a field from it. *)
Class Eta (R : Type) := eta : R -> R.
Class Setter {R T : Type} (proj : R -> T) := upd : (T -> T) -> R -> R.
Arguments upd {R T} proj {_} _ _.

Notation "r <| f := v |>" := (upd f (fun _ => v) r)
  (at level 1, f at level 0, v at level 200, left associativity,
   format "r  <|  f  :=  v  |>") : c_scope.
(** [r.f = g(r.f)] *)
Notation "r <| f ::= g |>" := (upd f g r)
  (at level 1, f at level 0, g at level 200, left associativity) : c_scope.

Ltac solve_setter :=
  lazymatch goal with
  | |- @Setter ?R ?T ?p =>
    let i := constr:(_ : Eta R) in
    let h := eval hnf in i in
    let g := eval pattern p in h in
    lazymatch g with
    | ?k _ =>
      let body := eval cbv beta in
        (fun (f : T -> T) (r : R) => k (fun r0 : R => f (p r0)) r) in
      exact body
    end
  end.

(** [rsimpl] computes the fields of updated records.  Each step is proved for
    an arbitrary record, so that its cost does not depend on the goal's. *)
Ltac assert_upd p q s E :=
  lazymatch q with
  | p => assert (forall f r, p (@upd _ _ p s f r) = f (p r)) as E by (intros; reflexivity)
  | _ => assert (forall f r, p (@upd _ _ q s f r) = p r) as E by (intros; reflexivity)
  end.

Ltac rsimpl :=
  repeat match goal with
  | |- context [?p (@upd _ _ ?q ?s ?f ?r)] =>
    let E := fresh in assert_upd p q s E; rewrite (E f r); clear E; cbv beta
  end.

Ltac rsimpl_in H :=
  repeat match type of H with
  | context [?p (@upd _ _ ?q ?s ?f ?r)] =>
    let E := fresh in assert_upd p q s E; rewrite (E f r) in H; clear E; cbv beta in H
  end.

(** ** Bounds of bit operations *)

Lemma land_ones_range n a : 0 <= n -> 0 <= Z.land a (Z.ones n) < 2 ^ n.
Proof. intros. rewrite Z.land_ones by done. apply Z.mod_pos_bound. lia. Qed.

Lemma pow2_range_nonneg n a : 0 <= a < 2 ^ n -> 0 <= n.
Proof.
  intros Ha. destruct (Z.lt_ge_cases n 0) as [Hn|]; [|done].
  rewrite Z.pow_neg_r in Ha by done. lia.
Qed.

Lemma bits_bound n a :
  0 <= n -> 0 <= a -> (forall i, n <= i -> Z.testbit a i = false) -> a < 2 ^ n.
Proof.
  intros Hn Ha H. destruct (Z.eq_dec a 0) as [->|Hne]; [lia|].
  apply Z.log2_lt_pow2; [lia|]. apply Z.nle_gt. intros Hle.
  specialize (H _ Hle). rewrite Z.bit_log2 in H by lia. done.
Qed.

Lemma testbit_high n a i : 0 <= a < 2 ^ n -> n <= i -> Z.testbit a i = false.
Proof.
  intros [H1 H2] Hi. destruct (Z.eq_dec a 0) as [->|Hne]; [apply Z.testbit_0_l|].
  apply Z.bits_above_log2; [lia|]. apply Z.log2_lt_pow2; [lia|].
  eapply Z.lt_le_trans; [exact H2|]. apply Z.pow_le_mono_r; lia.
Qed.

Lemma lor_range n a b :
  0 <= a < 2 ^ n -> 0 <= b < 2 ^ n -> 0 <= Z.lor a b < 2 ^ n.
Proof.
  intros Ha Hb. pose proof (pow2_range_nonneg _ _ Ha) as Hn.
  assert (0 <= Z.lor a b) by (apply Z.lor_nonneg; lia). split; [done|].
  apply bits_bound; [done|done|]. intros i Hi. rewrite Z.lor_spec.
  rewrite (testbit_high n a i), (testbit_high n b i) by done. done.
Qed.

Lemma land_range_l n a b : 0 <= a < 2 ^ n -> 0 <= Z.land a b < 2 ^ n.
Proof.
  intros Ha. pose proof (pow2_range_nonneg _ _ Ha) as Hn.
  assert (0 <= Z.land a b) by (apply Z.land_nonneg; lia). split; [done|].
  apply bits_bound; [done|done|]. intros i Hi. rewrite Z.land_spec.
  rewrite (testbit_high n a i) by done. done.
Qed.

Lemma shiftl_range n k a : 0 <= k -> 0 <= a < 2 ^ n -> 0 <= Z.shiftl a k < 2 ^ (n + k).
Proof.
  intros Hk Ha. pose proof (pow2_range_nonneg _ _ Ha) as Hn.
  rewrite Z.shiftl_mul_pow2, Z.pow_add_r by done. nia.
Qed.

Lemma shiftr_range n k a : 0 <= k <= n -> 0 <= a < 2 ^ n -> 0 <= Z.shiftr a k < 2 ^ (n - k).
Proof.
  intros Hk Ha. rewrite Z.shiftr_div_pow2 by lia.
  split; [apply Z.div_pos; lia|].
  apply Z.div_lt_upper_bound; [lia|].
  rewrite <- Z.pow_add_r by lia. replace (k + (n - k)) with n by lia. lia.
Qed.

(** A decidable property of bytes holds everywhere once it holds of the 256
    values. *)
Lemma byte_forall (P : Z -> bool) :
  forallb P (seqZ 0 256) = true -> forall b, 0 <= b < 256 -> P b = true.
Proof.
  intros H b Hb. rewrite forallb_forall in H. apply H.
  apply list_elem_of_In, elem_of_seqZ. lia.
Qed.

(** [destruct_Zmatch] opens the binary digits a [match] on an integer literal
    looks at. *)
Ltac destruct_Zmatch :=
  repeat match goal with
  | |- context [match ?z with Z0 => _ | Zpos _ => _ | Zneg _ => _ end] =>
    is_var z; destruct z
  | |- context [match ?p with xI _ => _ | xO _ => _ | xH => _ end] =>
    is_var p; destruct p
  end.

(** Exhaustive checks over small integer ranges. *)
Lemma range_forall (n : Z) (P : Z -> bool) :
  forallb P (seqZ 0 n) = true -> forall c, 0 <= c < n -> P c = true.
Proof.
  intros H c Hc. rewrite forallb_forall in H. apply H.
  apply list_elem_of_In, elem_of_seqZ. lia.
Qed.

(** Loads from a buffer built by concatenation. *)
Lemma rd_le_app pre n v rest off :
  off = Z.of_nat (length pre) ->
  rd_le (pre ++ le_bytes n v ++ rest) off n = Some (v mod 256 ^ Z.of_nat n).
Proof.
  intros ->. unfold rd_le. rewrite !length_app, length_le_bytes.
  destruct (Z.ltb_spec (Z.of_nat (length pre)) 0); [lia|].
  destruct (Z.ltb_spec (Z.of_nat (length pre + (n + length rest)))
              (Z.of_nat (length pre) + Z.of_nat n)); [lia|]. cbn [orb].
  rewrite Nat2Z.id, drop_app_length.
  rewrite take_app_le by (rewrite length_le_bytes; lia).
  rewrite take_ge by (rewrite length_le_bytes; lia).
  by rewrite le_val_le_bytes.
Qed.

(** Bit fields that do not overlap: disjunction is addition. *)
Lemma land_shiftl_0 n a b : 0 <= a < 2 ^ n -> Z.land a (Z.shiftl b n) = 0.
Proof.
  intros Ha. pose proof (pow2_range_nonneg _ _ Ha) as Hn.
  apply Z.bits_inj'. intros i Hi. rewrite Z.land_spec, Z.bits_0.
  destruct (Z.lt_ge_cases i n).
  - rewrite Z.shiftl_spec_low by done. apply andb_false_r.
  - by rewrite (testbit_high n a i).
Qed.

Lemma lor_shiftl_add n a b : 0 <= a < 2 ^ n -> Z.lor a (Z.shiftl b n) = a + b * 2 ^ n.
Proof.
  intros Ha. pose proof (pow2_range_nonneg _ _ Ha) as Hn.
  rewrite <- Z.shiftl_mul_pow2 by done.
  rewrite <- Z.lxor_lor, Z.add_nocarry_lxor by (by apply land_shiftl_0). done.
Qed.

Lemma lor_shiftl_add' n a b : 0 <= a < 2 ^ n -> Z.lor (Z.shiftl b n) a = a + b * 2 ^ n.
Proof. intros. rewrite Z.lor_comm. by apply lor_shiftl_add. Qed.

Lemma land_pow2_mod n a : 0 <= n -> Z.land a (2 ^ n - 1) = a mod 2 ^ n.
Proof.
  intros. replace (2 ^ n - 1) with (Z.ones n) by (rewrite Z.ones_equiv; lia).
  by apply Z.land_ones.
Qed.

(** The outcomes of the allocations to come, and of other calls that can fail. *)
Definition allocs : Type := nat -> bool.
Definition next_allocs (a : allocs) : allocs := fun n => a (S n).

(** None of them fails. *)
Definition all_true (a : allocs) : Prop := forall n, a n = true.

Lemma next_all_true a : all_true a -> all_true (next_allocs a).
Proof. intros Ha n. apply Ha. Qed.
