(* ===== verification/PktDecoder.v ===== *)
(** Intel PT packet decoder: tools/perf/util/intel-pt-decoder/intel-pt-pkt-decoder.c. *)
From Stdlib Require Import ZArith Lia List Bool.
From S2P Require Import Prelude.
Open Scope Z_scope.
Open Scope c_scope.

Definition INTEL_PT_NEED_MORE_BYTES : Z := -1.
Definition INTEL_PT_BAD_PACKET : Z := -2.
Definition INTEL_PT_PSB_LEN : Z := 16.
Definition INTEL_PT_PKT_MAX_SZ : Z := 16.
Definition INTEL_PT_PSB_STR : list byte :=
  [x02; x82; x02; x82; x02; x82; x02; x82; x02; x82; x02; x82; x02; x82; x02; x82].

Inductive intel_pt_pkt_type :=
| INTEL_PT_BAD
| INTEL_PT_PAD
| INTEL_PT_TNT
| INTEL_PT_TIP_PGD
| INTEL_PT_TIP_PGE
| INTEL_PT_TSC
| INTEL_PT_TMA
| INTEL_PT_MODE_EXEC
| INTEL_PT_MODE_TSX
| INTEL_PT_MTC
| INTEL_PT_TIP
| INTEL_PT_FUP
| INTEL_PT_CYC
| INTEL_PT_VMCS
| INTEL_PT_PSB
| INTEL_PT_PSBEND
| INTEL_PT_CBR
| INTEL_PT_TRACESTOP
| INTEL_PT_PIP
| INTEL_PT_OVF
| INTEL_PT_MNT
| INTEL_PT_PTWRITE
| INTEL_PT_PTWRITE_IP
| INTEL_PT_EXSTOP
| INTEL_PT_EXSTOP_IP
| INTEL_PT_MWAIT
| INTEL_PT_PWRE
| INTEL_PT_PWRX
| INTEL_PT_BBP
| INTEL_PT_BIP
| INTEL_PT_BEP
| INTEL_PT_BEP_IP
| INTEL_PT_CFE
| INTEL_PT_CFE_IP
| INTEL_PT_EVD.

#[export] Instance intel_pt_pkt_type_eq_dec : EqDecision intel_pt_pkt_type.
Proof. solve_decision. Defined.

Record intel_pt_pkt := mkPkt {
  pkt_type : intel_pt_pkt_type;
  pkt_count : Z;
  pkt_payload : Z
}.

#[export] Instance intel_pt_pkt_eq_dec : EqDecision intel_pt_pkt.
Proof. solve_decision. Defined.

#[export] Instance eta_pkt : Eta intel_pt_pkt :=
  fun p => mkPkt (pkt_type p) (pkt_count p) (pkt_payload p).
#[export] Instance set_pkt_type : Setter pkt_type := ltac:(solve_setter).
#[export] Instance set_pkt_count : Setter pkt_count := ltac:(solve_setter).
#[export] Instance set_pkt_payload : Setter pkt_payload := ltac:(solve_setter).

Definition zero_pkt : intel_pt_pkt := mkPkt INTEL_PT_BAD 0 0.

Inductive intel_pt_pkt_ctx :=
| INTEL_PT_NO_CTX
| INTEL_PT_BLK_4_CTX
| INTEL_PT_BLK_8_CTX.

#[export] Instance intel_pt_pkt_ctx_eq_dec : EqDecision intel_pt_pkt_ctx.
Proof. solve_decision. Defined.

(** The outcome of a packet function: [None] is a read outside the buffer,
    [Some (ret, packet)] the C return value and the packet as left behind. *)
Definition pkt_res : Type := option (Z * intel_pt_pkt).

Definition need_more (packet : intel_pt_pkt) : pkt_res :=
  Some (INTEL_PT_NEED_MORE_BYTES, packet).
Definition bad_packet (packet : intel_pt_pkt) : pkt_res :=
  Some (INTEL_PT_BAD_PACKET, packet).

Definition BIT63 : Z := 1 .<< 63.

(** ** One function per packet *)

(** The loop of [intel_pt_get_long_tnt]: shift left until bit 63 is set. *)
Fixpoint long_tnt_loop (count : nat) (payload : Z) : Z * Z :=
  match count with
  | O => (0, payload)
  | S count' =>
    if negb (payload .& BIT63 =? 0) then (Z.of_nat count, payload)
    else long_tnt_loop count' (u64 (payload .<< 1))
  end.

Definition intel_pt_get_long_tnt (buf : list byte) (len : Z) (packet : intel_pt_pkt) : pkt_res :=
  if len <? 8 then need_more packet
  else
    payload ← rd_le buf 0 8;
    let '(count, payload) := long_tnt_loop 47 payload in
    Some (8, packet <| pkt_type := INTEL_PT_TNT |> <| pkt_count := count |>
                    <| pkt_payload := u64 (payload .<< 1) |>).

Definition intel_pt_get_pip (buf : list byte) (len : Z) (packet : intel_pt_pkt) : pkt_res :=
  if len <? 8 then need_more packet
  else
    let packet := packet <| pkt_type := INTEL_PT_PIP |> in
    payload ← memcpy_le64 0 buf 2 6;
    Some (8, packet <| pkt_payload := payload |>).

Definition intel_pt_get_tracestop (packet : intel_pt_pkt) : pkt_res :=
  Some (2, packet <| pkt_type := INTEL_PT_TRACESTOP |>).

Definition intel_pt_get_cbr (buf : list byte) (len : Z) (packet : intel_pt_pkt) : pkt_res :=
  if len <? 4 then need_more packet
  else
    payload ← rd_le buf 2 2;
    Some (4, packet <| pkt_type := INTEL_PT_CBR |> <| pkt_payload := payload |>).

Definition intel_pt_get_vmcs (buf : list byte) (len : Z) (packet : intel_pt_pkt) : pkt_res :=
  let count := (52 - 5) .>> 3 in
  if (count <? 1) || (7 <? count) then bad_packet packet
  else if len <? count + 2 then need_more packet
  else
    payload ← memcpy_le64 (pkt_payload packet) buf 2 (Z.to_nat count);
    Some (count + 2, packet <| pkt_type := INTEL_PT_VMCS |> <| pkt_count := count |>
                            <| pkt_payload := payload |>).

Definition intel_pt_get_ovf (packet : intel_pt_pkt) : pkt_res :=
  Some (2, packet <| pkt_type := INTEL_PT_OVF |>).

(** The check loop of [intel_pt_get_psb], [i] from 2 in steps of 2 up to 16. *)
Fixpoint psb_loop (n : nat) (buf : list byte) (i : Z) : option bool :=
  match n with
  | O => Some true
  | S n' =>
    b0 ← rd buf i;
    b1 ← rd buf (i + 1);
    if negb (b0 =? 2) || negb (b1 =? 0x82) then Some false
    else psb_loop n' buf (i + 2)
  end.

Definition intel_pt_get_psb (buf : list byte) (len : Z) (packet : intel_pt_pkt) : pkt_res :=
  if len <? 16 then need_more packet
  else
    ok ← psb_loop 7 buf 2;
    if (ok : bool) then Some (16, packet <| pkt_type := INTEL_PT_PSB |>)
    else bad_packet packet.

Definition intel_pt_get_psbend (packet : intel_pt_pkt) : pkt_res :=
  Some (2, packet <| pkt_type := INTEL_PT_PSBEND |>).

Definition intel_pt_get_tma (buf : list byte) (len : Z) (packet : intel_pt_pkt) : pkt_res :=
  if len <? 7 then need_more packet
  else
    b2 ← rd buf 2; b3 ← rd buf 3; b5 ← rd buf 5; b6 ← rd buf 6;
    Some (7, packet <| pkt_type := INTEL_PT_TMA |>
                    <| pkt_payload := b2 .| (b3 .<< 8) |>
                    <| pkt_count := b5 .| ((b6 .& 1) .<< 8) |>).

Definition intel_pt_get_pad (packet : intel_pt_pkt) : pkt_res :=
  Some (1, packet <| pkt_type := INTEL_PT_PAD |>).

Definition intel_pt_get_mnt (buf : list byte) (len : Z) (packet : intel_pt_pkt) : pkt_res :=
  if len <? 11 then need_more packet
  else
    payload ← memcpy_le64 (pkt_payload packet) buf 3 8;
    Some (11, packet <| pkt_type := INTEL_PT_MNT |> <| pkt_payload := payload |>).

Definition intel_pt_get_3byte (buf : list byte) (len : Z) (packet : intel_pt_pkt) : pkt_res :=
  if len <? 3 then need_more packet
  else
    b2 ← rd buf 2;
    if b2 =? 0x88 then intel_pt_get_mnt buf len packet
    else bad_packet packet.

Definition intel_pt_get_ptwrite (buf : list byte) (len : Z) (packet : intel_pt_pkt) : pkt_res :=
  b1 ← rd buf 1;
  let packet := packet <| pkt_count := (b1 .>> 5) .& 0x3 |>
    <| pkt_type := if negb (b1 .& 0x80 =? 0) then INTEL_PT_PTWRITE_IP else INTEL_PT_PTWRITE |> in
  if pkt_count packet =? 0 then
    if len <? 6 then need_more packet
    else payload ← rd_le buf 2 4; Some (6, packet <| pkt_payload := payload |>)
  else if pkt_count packet =? 1 then
    if len <? 10 then need_more packet
    else payload ← rd_le buf 2 8; Some (10, packet <| pkt_payload := payload |>)
  else bad_packet packet.

Definition intel_pt_get_exstop (packet : intel_pt_pkt) : pkt_res :=
  Some (2, packet <| pkt_type := INTEL_PT_EXSTOP |>).

Definition intel_pt_get_exstop_ip (packet : intel_pt_pkt) : pkt_res :=
  Some (2, packet <| pkt_type := INTEL_PT_EXSTOP_IP |>).

Definition intel_pt_get_mwait (buf : list byte) (len : Z) (packet : intel_pt_pkt) : pkt_res :=
  if len <? 10 then need_more packet
  else
    payload ← rd_le buf 2 8;
    Some (10, packet <| pkt_type := INTEL_PT_MWAIT |> <| pkt_payload := payload |>).

Definition intel_pt_get_pwre (buf : list byte) (len : Z) (packet : intel_pt_pkt) : pkt_res :=
  if len <? 4 then need_more packet
  else
    payload ← memcpy_le64 (pkt_payload packet) buf 2 2;
    Some (4, packet <| pkt_type := INTEL_PT_PWRE |> <| pkt_payload := payload |>).

Definition intel_pt_get_pwrx (buf : list byte) (len : Z) (packet : intel_pt_pkt) : pkt_res :=
  if len <? 7 then need_more packet
  else
    payload ← memcpy_le64 (pkt_payload packet) buf 2 5;
    Some (7, packet <| pkt_type := INTEL_PT_PWRX |> <| pkt_payload := payload |>).

Definition intel_pt_get_bbp (buf : list byte) (len : Z) (packet : intel_pt_pkt) : pkt_res :=
  if len <? 3 then need_more packet
  else
    b2 ← rd buf 2;
    Some (3, packet <| pkt_type := INTEL_PT_BBP |> <| pkt_count := b2 .>> 7 |>
                    <| pkt_payload := b2 .& 0x1f |>).

Definition intel_pt_get_bip_4 (buf : list byte) (len : Z) (packet : intel_pt_pkt) : pkt_res :=
  if len <? 5 then need_more packet
  else
    b0 ← rd buf 0;
    payload ← memcpy_le64 (pkt_payload packet) buf 1 4;
    Some (5, packet <| pkt_type := INTEL_PT_BIP |> <| pkt_count := b0 .>> 3 |>
                    <| pkt_payload := payload |>).

Definition intel_pt_get_bip_8 (buf : list byte) (len : Z) (packet : intel_pt_pkt) : pkt_res :=
  if len <? 9 then need_more packet
  else
    b0 ← rd buf 0;
    payload ← memcpy_le64 (pkt_payload packet) buf 1 8;
    Some (9, packet <| pkt_type := INTEL_PT_BIP |> <| pkt_count := b0 .>> 3 |>
                    <| pkt_payload := payload |>).

Definition intel_pt_get_bep (len : Z) (packet : intel_pt_pkt) : pkt_res :=
  if len <? 2 then need_more packet
  else Some (2, packet <| pkt_type := INTEL_PT_BEP |>).

Definition intel_pt_get_bep_ip (len : Z) (packet : intel_pt_pkt) : pkt_res :=
  if len <? 2 then need_more packet
  else Some (2, packet <| pkt_type := INTEL_PT_BEP_IP |>).

Definition intel_pt_get_cfe (buf : list byte) (len : Z) (packet : intel_pt_pkt) : pkt_res :=
  if len <? 4 then need_more packet
  else
    b2 ← rd buf 2; b3 ← rd buf 3;
    Some (4, packet
      <| pkt_type := if negb (b2 .& 0x80 =? 0) then INTEL_PT_CFE_IP else INTEL_PT_CFE |>
      <| pkt_count := b2 .& 0x1f |> <| pkt_payload := b3 |>).

Definition intel_pt_get_evd (buf : list byte) (len : Z) (packet : intel_pt_pkt) : pkt_res :=
  if len <? 11 then need_more packet
  else
    b2 ← rd buf 2; b3 ← rd buf 3;
    let packet := packet <| pkt_type := INTEL_PT_EVD |> <| pkt_count := b2 .& 0x3f |>
                         <| pkt_payload := b3 |> in
    payload ← memcpy_le64 (pkt_payload packet) buf 3 8;
    Some (11, packet <| pkt_payload := payload |>).

Definition intel_pt_get_ext (buf : list byte) (len : Z) (packet : intel_pt_pkt) : pkt_res :=
  if len <? 2 then need_more packet
  else
    b1 ← rd buf 1;
    if b1 .& 0x1f =? 0x12 then intel_pt_get_ptwrite buf len packet
    else match b1 with
    | 0xa3 => intel_pt_get_long_tnt buf len packet
    | 0x43 => intel_pt_get_pip buf len packet
    | 0x83 => intel_pt_get_tracestop packet
    | 0x03 => intel_pt_get_cbr buf len packet
    | 0xc8 => intel_pt_get_vmcs buf len packet
    | 0xf3 => intel_pt_get_ovf packet
    | 0x82 => intel_pt_get_psb buf len packet
    | 0x23 => intel_pt_get_psbend packet
    | 0x73 => intel_pt_get_tma buf len packet
    | 0xC3 => intel_pt_get_3byte buf len packet
    | 0x62 => intel_pt_get_exstop packet
    | 0xE2 => intel_pt_get_exstop_ip packet
    | 0xC2 => intel_pt_get_mwait buf len packet
    | 0x22 => intel_pt_get_pwre buf len packet
    | 0xA2 => intel_pt_get_pwrx buf len packet
    | 0x63 => intel_pt_get_bbp buf len packet
    | 0x33 => intel_pt_get_bep len packet
    | 0xb3 => intel_pt_get_bep_ip len packet
    | 0x13 => intel_pt_get_cfe buf len packet
    | 0x53 => intel_pt_get_evd buf len packet
    | _ => bad_packet packet
    end.

(** The loop of [intel_pt_get_short_tnt]: shift left until bit 7 is set. *)
Fixpoint short_tnt_loop (count : nat) (byte : Z) : Z * Z :=
  match count with
  | O => (0, byte)
  | S count' =>
    if negb (byte .& 0x80 =? 0) then (Z.of_nat count, byte)
    else short_tnt_loop count' (u32 (byte .<< 1))
  end.

Definition intel_pt_get_short_tnt (byte : Z) (packet : intel_pt_pkt) : pkt_res :=
  let '(count, byte) := short_tnt_loop 6 byte in
  Some (1, packet <| pkt_type := INTEL_PT_TNT |> <| pkt_count := count |>
                  <| pkt_payload := u64 (byte .<< 57) |>).

(** The byte loop of [intel_pt_get_cyc].  [len] is the remaining length after
    the header byte; the result is the offset reached and the payload, or the
    error returned.  The code gives up once [offs > 9], so ten turns of fuel
    are enough. *)
Fixpoint cyc_loop (fuel : nat) (buf : list byte) (len offs shift byte payload : Z)
    : option (Z + Z * Z) :=
  if byte .& 1 =? 0 then Some (inr (offs, payload))
  else if 9 <? offs then Some (inl INTEL_PT_BAD_PACKET)
  else if len <? offs then Some (inl INTEL_PT_NEED_MORE_BYTES)
  else match fuel with
  | O => None
  | S fuel' =>
    byte ← rd buf offs;
    cyc_loop fuel' buf len (offs + 1) (shift + 7) byte
             (payload .| u64 ((byte .>> 1) .<< shift))
  end.

Definition intel_pt_get_cyc (hdr : Z) (buf : list byte) (len : Z) (packet : intel_pt_pkt)
    : pkt_res :=
  let payload := hdr .>> 3 in
  let byte := hdr .>> 2 in
  let len := u64 (len - 1) in
  r ← cyc_loop 10 buf len 1 5 byte payload;
  match r with
  | inl err => Some (err, packet)
  | inr (offs, payload) =>
    Some (offs, packet <| pkt_type := INTEL_PT_CYC |> <| pkt_payload := payload |>)
  end.

Definition intel_pt_get_ip (type : intel_pt_pkt_type) (hdr : Z) (buf : list byte) (len : Z)
    (packet : intel_pt_pkt) : pkt_res :=
  let packet := packet <| pkt_count := hdr .>> 5 |> in
  let done ip_len packet := Some (ip_len + 1, packet <| pkt_type := type |>) in
  match pkt_count packet with
  | 0 => done 0 packet
  | 1 =>
    if len <? 3 then need_more packet
    else payload ← rd_le buf 1 2; done 2 (packet <| pkt_payload := payload |>)
  | 2 =>
    if len <? 5 then need_more packet
    else payload ← rd_le buf 1 4; done 4 (packet <| pkt_payload := payload |>)
  | 3 | 4 =>
    if len <? 7 then need_more packet
    else payload ← memcpy_le64 (pkt_payload packet) buf 1 6;
         done 6 (packet <| pkt_payload := payload |>)
  | 6 =>
    if len <? 9 then need_more packet
    else payload ← rd_le buf 1 8; done 8 (packet <| pkt_payload := payload |>)
  | _ => bad_packet packet
  end.

Definition intel_pt_get_mode (buf : list byte) (len : Z) (packet : intel_pt_pkt) : pkt_res :=
  if len <? 2 then need_more packet
  else
    b1 ← rd buf 1;
    match b1 .>> 5 with
    | 0 =>
      let packet := packet <| pkt_type := INTEL_PT_MODE_EXEC |> <| pkt_count := b1 |> in
      match b1 .& 3 with
      | 0 => Some (2, packet <| pkt_payload := 16 |>)
      | 1 => Some (2, packet <| pkt_payload := 64 |>)
      | 2 => Some (2, packet <| pkt_payload := 32 |>)
      | _ => bad_packet packet
      end
    | 1 =>
      let packet := packet <| pkt_type := INTEL_PT_MODE_TSX |> in
      if b1 .& 3 =? 3 then bad_packet packet
      else Some (2, packet <| pkt_payload := b1 .& 3 |>)
    | _ => bad_packet packet
    end.

Definition intel_pt_get_tsc (buf : list byte) (len : Z) (packet : intel_pt_pkt) : pkt_res :=
  if len <? 8 then need_more packet
  else
    payload ← memcpy_le64 (pkt_payload packet) buf 1 7;
    Some (8, packet <| pkt_type := INTEL_PT_TSC |> <| pkt_payload := payload |>).

Definition intel_pt_get_mtc (buf : list byte) (len : Z) (packet : intel_pt_pkt) : pkt_res :=
  if len <? 2 then need_more packet
  else
    b1 ← rd buf 1;
    Some (2, packet <| pkt_type := INTEL_PT_MTC |> <| pkt_payload := b1 |>).

(** The part of [intel_pt_do_get_packet] after the block-item cases. *)
Definition do_get_packet_no_bip (hdr : Z) (buf : list byte) (len : Z) (packet : intel_pt_pkt)
    : pkt_res :=
  if hdr .& 1 =? 0 then
    if hdr =? 0 then intel_pt_get_pad packet
    else if hdr =? 2 then intel_pt_get_ext buf len packet
    else intel_pt_get_short_tnt hdr packet
  else if negb (hdr .& 2 =? 0) then intel_pt_get_cyc hdr buf len packet
  else match hdr .& 0x1f with
  | 0x0D => intel_pt_get_ip INTEL_PT_TIP hdr buf len packet
  | 0x11 => intel_pt_get_ip INTEL_PT_TIP_PGE hdr buf len packet
  | 0x01 => intel_pt_get_ip INTEL_PT_TIP_PGD hdr buf len packet
  | 0x1D => intel_pt_get_ip INTEL_PT_FUP hdr buf len packet
  | 0x19 =>
    match hdr with
    | 0x99 => intel_pt_get_mode buf len packet
    | 0x19 => intel_pt_get_tsc buf len packet
    | 0x59 => intel_pt_get_mtc buf len packet
    | _ => bad_packet packet
    end
  | _ => bad_packet packet
  end.

(** The packet passed in is overwritten by [memset] first, so the model takes
    none. *)
Definition intel_pt_do_get_packet (buf : list byte) (len : Z) (ctx : intel_pt_pkt_ctx) : pkt_res :=
  let packet := zero_pkt in
  if len =? 0 then need_more packet
  else
    byte ← rd buf 0;
    match ctx with
    | INTEL_PT_NO_CTX => do_get_packet_no_bip byte buf len packet
    | INTEL_PT_BLK_4_CTX =>
      if byte .& 0x7 =? 4 then intel_pt_get_bip_4 buf len packet
      else do_get_packet_no_bip byte buf len packet
    | INTEL_PT_BLK_8_CTX =>
      if byte .& 0x7 =? 4 then intel_pt_get_bip_8 buf len packet
      else do_get_packet_no_bip byte buf len packet
    end.

Definition intel_pt_upd_pkt_ctx (packet : intel_pt_pkt) (ctx : intel_pt_pkt_ctx)
    : intel_pt_pkt_ctx :=
  match pkt_type packet with
  | INTEL_PT_BAD | INTEL_PT_PAD | INTEL_PT_TSC | INTEL_PT_TMA | INTEL_PT_MTC
  | INTEL_PT_FUP | INTEL_PT_CYC | INTEL_PT_CBR | INTEL_PT_MNT | INTEL_PT_EXSTOP
  | INTEL_PT_EXSTOP_IP | INTEL_PT_PWRE | INTEL_PT_PWRX | INTEL_PT_BIP => ctx
  | INTEL_PT_TNT | INTEL_PT_TIP | INTEL_PT_TIP_PGD | INTEL_PT_TIP_PGE
  | INTEL_PT_MODE_EXEC | INTEL_PT_MODE_TSX | INTEL_PT_PIP | INTEL_PT_OVF
  | INTEL_PT_VMCS | INTEL_PT_TRACESTOP | INTEL_PT_PSB | INTEL_PT_PSBEND
  | INTEL_PT_PTWRITE | INTEL_PT_PTWRITE_IP | INTEL_PT_MWAIT | INTEL_PT_BEP
  | INTEL_PT_BEP_IP | INTEL_PT_CFE | INTEL_PT_CFE_IP | INTEL_PT_EVD => INTEL_PT_NO_CTX
  | INTEL_PT_BBP =>
    if negb (pkt_count packet =? 0) then INTEL_PT_BLK_4_CTX else INTEL_PT_BLK_8_CTX
  end.

(** The padding loop of [intel_pt_get_packet]: at most seven turns, as it stops
    at [ret = 8]. *)
Fixpoint skip_padding (fuel : nat) (buf : list byte) (len ret : Z) : option Z :=
  if (ret <? 8) && (ret <? len) then
    b ← rd buf ret;
    if b =? 0 then
      match fuel with O => None | S fuel' => skip_padding fuel' buf len (ret + 1) end
    else Some ret
  else Some ret.

(** Returns the C return value, the packet and the updated context. *)
Definition intel_pt_get_packet (buf : list byte) (len : Z) (ctx : intel_pt_pkt_ctx)
    : option (Z * intel_pt_pkt * intel_pt_pkt_ctx) :=
  '(ret, packet) ← intel_pt_do_get_packet buf len ctx;
  if 0 <? ret then
    ret ← skip_padding 8 buf len ret;
    Some (ret, packet, intel_pt_upd_pkt_ctx packet ctx)
  else Some (ret, packet, ctx).
