(* ===== verification/PktVectors.v ===== *)
(** The packet decoder's own test table (tools/perf/arch/x86/tests/intel-pt-test.c),
    run on the model: bytes, context, expected packet, expected new context and
    whether the packet must leave every context unchanged. *)
From Stdlib Require Import ZArith List.
From S2P Require Import Prelude PktDecoder.
Open Scope Z_scope.

Definition test_data : list (list byte * intel_pt_pkt_ctx * intel_pt_pkt * intel_pt_pkt_ctx * bool) := [
  ([x00], INTEL_PT_NO_CTX, mkPkt INTEL_PT_PAD 0 0x0, INTEL_PT_NO_CTX, true);
  ([x04], INTEL_PT_NO_CTX, mkPkt INTEL_PT_TNT 1 0x0, INTEL_PT_NO_CTX, false);
  ([x06], INTEL_PT_NO_CTX, mkPkt INTEL_PT_TNT 1 0x8000000000000000, INTEL_PT_NO_CTX, false);
  ([x80], INTEL_PT_NO_CTX, mkPkt INTEL_PT_TNT 6 0x0, INTEL_PT_NO_CTX, false);
  ([xfe], INTEL_PT_NO_CTX, mkPkt INTEL_PT_TNT 6 0xfc00000000000000, INTEL_PT_NO_CTX, false);
  ([x02; xa3; x02; x00; x00; x00; x00; x00], INTEL_PT_NO_CTX, mkPkt INTEL_PT_TNT 1 0x5181000000000000, INTEL_PT_NO_CTX, false);
  ([x02; xa3; x03; x00; x00; x00; x00; x00], INTEL_PT_NO_CTX, mkPkt INTEL_PT_TNT 1 0xd181000000000000, INTEL_PT_NO_CTX, false);
  ([x02; xa3; x00; x00; x00; x00; x00; x80], INTEL_PT_NO_CTX, mkPkt INTEL_PT_TNT 47 0x14604, INTEL_PT_NO_CTX, false);
  ([x02; xa3; xff; xff; xff; xff; xff; xff], INTEL_PT_NO_CTX, mkPkt INTEL_PT_TNT 47 0xffffffffffff4604, INTEL_PT_NO_CTX, false);
  ([x0d], INTEL_PT_NO_CTX, mkPkt INTEL_PT_TIP 0 0x0, INTEL_PT_NO_CTX, false);
  ([x2d; x01; x02], INTEL_PT_NO_CTX, mkPkt INTEL_PT_TIP 1 0x201, INTEL_PT_NO_CTX, false);
  ([x4d; x01; x02; x03; x04], INTEL_PT_NO_CTX, mkPkt INTEL_PT_TIP 2 0x4030201, INTEL_PT_NO_CTX, false);
  ([x6d; x01; x02; x03; x04; x05; x06], INTEL_PT_NO_CTX, mkPkt INTEL_PT_TIP 3 0x60504030201, INTEL_PT_NO_CTX, false);
  ([x8d; x01; x02; x03; x04; x05; x06], INTEL_PT_NO_CTX, mkPkt INTEL_PT_TIP 4 0x60504030201, INTEL_PT_NO_CTX, false);
  ([xcd; x01; x02; x03; x04; x05; x06; x07; x08], INTEL_PT_NO_CTX, mkPkt INTEL_PT_TIP 6 0x807060504030201, INTEL_PT_NO_CTX, false);
  ([x11], INTEL_PT_NO_CTX, mkPkt INTEL_PT_TIP_PGE 0 0x0, INTEL_PT_NO_CTX, false);
  ([x31; x01; x02], INTEL_PT_NO_CTX, mkPkt INTEL_PT_TIP_PGE 1 0x201, INTEL_PT_NO_CTX, false);
  ([x51; x01; x02; x03; x04], INTEL_PT_NO_CTX, mkPkt INTEL_PT_TIP_PGE 2 0x4030201, INTEL_PT_NO_CTX, false);
  ([x71; x01; x02; x03; x04; x05; x06], INTEL_PT_NO_CTX, mkPkt INTEL_PT_TIP_PGE 3 0x60504030201, INTEL_PT_NO_CTX, false);
  ([x91; x01; x02; x03; x04; x05; x06], INTEL_PT_NO_CTX, mkPkt INTEL_PT_TIP_PGE 4 0x60504030201, INTEL_PT_NO_CTX, false);
  ([xd1; x01; x02; x03; x04; x05; x06; x07; x08], INTEL_PT_NO_CTX, mkPkt INTEL_PT_TIP_PGE 6 0x807060504030201, INTEL_PT_NO_CTX, false);
  ([x01], INTEL_PT_NO_CTX, mkPkt INTEL_PT_TIP_PGD 0 0x0, INTEL_PT_NO_CTX, false);
  ([x21; x01; x02], INTEL_PT_NO_CTX, mkPkt INTEL_PT_TIP_PGD 1 0x201, INTEL_PT_NO_CTX, false);
  ([x41; x01; x02; x03; x04], INTEL_PT_NO_CTX, mkPkt INTEL_PT_TIP_PGD 2 0x4030201, INTEL_PT_NO_CTX, false);
  ([x61; x01; x02; x03; x04; x05; x06], INTEL_PT_NO_CTX, mkPkt INTEL_PT_TIP_PGD 3 0x60504030201, INTEL_PT_NO_CTX, false);
  ([x81; x01; x02; x03; x04; x05; x06], INTEL_PT_NO_CTX, mkPkt INTEL_PT_TIP_PGD 4 0x60504030201, INTEL_PT_NO_CTX, false);
  ([xc1; x01; x02; x03; x04; x05; x06; x07; x08], INTEL_PT_NO_CTX, mkPkt INTEL_PT_TIP_PGD 6 0x807060504030201, INTEL_PT_NO_CTX, false);
  ([x1d], INTEL_PT_NO_CTX, mkPkt INTEL_PT_FUP 0 0x0, INTEL_PT_NO_CTX, false);
  ([x3d; x01; x02], INTEL_PT_NO_CTX, mkPkt INTEL_PT_FUP 1 0x201, INTEL_PT_NO_CTX, false);
  ([x5d; x01; x02; x03; x04], INTEL_PT_NO_CTX, mkPkt INTEL_PT_FUP 2 0x4030201, INTEL_PT_NO_CTX, false);
  ([x7d; x01; x02; x03; x04; x05; x06], INTEL_PT_NO_CTX, mkPkt INTEL_PT_FUP 3 0x60504030201, INTEL_PT_NO_CTX, false);
  ([x9d; x01; x02; x03; x04; x05; x06], INTEL_PT_NO_CTX, mkPkt INTEL_PT_FUP 4 0x60504030201, INTEL_PT_NO_CTX, false);
  ([xdd; x01; x02; x03; x04; x05; x06; x07; x08], INTEL_PT_NO_CTX, mkPkt INTEL_PT_FUP 6 0x807060504030201, INTEL_PT_NO_CTX, false);
  ([x02; x43; x02; x04; x06; x08; x0a; x0c], INTEL_PT_NO_CTX, mkPkt INTEL_PT_PIP 0 0xc0a08060402, INTEL_PT_NO_CTX, false);
  ([x02; x43; x03; x04; x06; x08; x0a; x0c], INTEL_PT_NO_CTX, mkPkt INTEL_PT_PIP 0 0xc0a08060403, INTEL_PT_NO_CTX, false);
  ([x99; x00], INTEL_PT_NO_CTX, mkPkt INTEL_PT_MODE_EXEC 0 0x10, INTEL_PT_NO_CTX, false);
  ([x99; x01], INTEL_PT_NO_CTX, mkPkt INTEL_PT_MODE_EXEC 1 0x40, INTEL_PT_NO_CTX, false);
  ([x99; x02], INTEL_PT_NO_CTX, mkPkt INTEL_PT_MODE_EXEC 2 0x20, INTEL_PT_NO_CTX, false);
  ([x99; x04], INTEL_PT_NO_CTX, mkPkt INTEL_PT_MODE_EXEC 4 0x10, INTEL_PT_NO_CTX, false);
  ([x99; x05], INTEL_PT_NO_CTX, mkPkt INTEL_PT_MODE_EXEC 5 0x40, INTEL_PT_NO_CTX, false);
  ([x99; x06], INTEL_PT_NO_CTX, mkPkt INTEL_PT_MODE_EXEC 6 0x20, INTEL_PT_NO_CTX, false);
  ([x99; x20], INTEL_PT_NO_CTX, mkPkt INTEL_PT_MODE_TSX 0 0x0, INTEL_PT_NO_CTX, false);
  ([x99; x21], INTEL_PT_NO_CTX, mkPkt INTEL_PT_MODE_TSX 0 0x1, INTEL_PT_NO_CTX, false);
  ([x99; x22], INTEL_PT_NO_CTX, mkPkt INTEL_PT_MODE_TSX 0 0x2, INTEL_PT_NO_CTX, false);
  ([x02; x83], INTEL_PT_NO_CTX, mkPkt INTEL_PT_TRACESTOP 0 0x0, INTEL_PT_NO_CTX, false);
  ([x02; x03; x12; x00], INTEL_PT_NO_CTX, mkPkt INTEL_PT_CBR 0 0x12, INTEL_PT_NO_CTX, true);
  ([x19; x01; x02; x03; x04; x05; x06; x07], INTEL_PT_NO_CTX, mkPkt INTEL_PT_TSC 0 0x7060504030201, INTEL_PT_NO_CTX, true);
  ([x59; x12], INTEL_PT_NO_CTX, mkPkt INTEL_PT_MTC 0 0x12, INTEL_PT_NO_CTX, true);
  ([x02; x73; x00; x00; x00; x00; x00], INTEL_PT_NO_CTX, mkPkt INTEL_PT_TMA 0 0x0, INTEL_PT_NO_CTX, true);
  ([x02; x73; x01; x02; x00; x00; x00], INTEL_PT_NO_CTX, mkPkt INTEL_PT_TMA 0 0x201, INTEL_PT_NO_CTX, true);
  ([x02; x73; x00; x00; x00; xff; x01], INTEL_PT_NO_CTX, mkPkt INTEL_PT_TMA 511 0x0, INTEL_PT_NO_CTX, true);
  ([x02; x73; x80; xc0; x00; xff; x01], INTEL_PT_NO_CTX, mkPkt INTEL_PT_TMA 511 0xc080, INTEL_PT_NO_CTX, true);
  ([x03], INTEL_PT_NO_CTX, mkPkt INTEL_PT_CYC 0 0x0, INTEL_PT_NO_CTX, true);
  ([x0b], INTEL_PT_NO_CTX, mkPkt INTEL_PT_CYC 0 0x1, INTEL_PT_NO_CTX, true);
  ([xfb], INTEL_PT_NO_CTX, mkPkt INTEL_PT_CYC 0 0x1f, INTEL_PT_NO_CTX, true);
  ([x07; x02], INTEL_PT_NO_CTX, mkPkt INTEL_PT_CYC 0 0x20, INTEL_PT_NO_CTX, true);
  ([xff; xfe], INTEL_PT_NO_CTX, mkPkt INTEL_PT_CYC 0 0xfff, INTEL_PT_NO_CTX, true);
  ([x07; x01; x02], INTEL_PT_NO_CTX, mkPkt INTEL_PT_CYC 0 0x1000, INTEL_PT_NO_CTX, true);
  ([xff; xff; xfe], INTEL_PT_NO_CTX, mkPkt INTEL_PT_CYC 0 0x7ffff, INTEL_PT_NO_CTX, true);
  ([x07; x01; x01; x02], INTEL_PT_NO_CTX, mkPkt INTEL_PT_CYC 0 0x80000, INTEL_PT_NO_CTX, true);
  ([xff; xff; xff; xfe], INTEL_PT_NO_CTX, mkPkt INTEL_PT_CYC 0 0x3ffffff, INTEL_PT_NO_CTX, true);
  ([x07; x01; x01; x01; x02], INTEL_PT_NO_CTX, mkPkt INTEL_PT_CYC 0 0x4000000, INTEL_PT_NO_CTX, true);
  ([xff; xff; xff; xff; xfe], INTEL_PT_NO_CTX, mkPkt INTEL_PT_CYC 0 0x1ffffffff, INTEL_PT_NO_CTX, true);
  ([x07; x01; x01; x01; x01; x02], INTEL_PT_NO_CTX, mkPkt INTEL_PT_CYC 0 0x200000000, INTEL_PT_NO_CTX, true);
  ([xff; xff; xff; xff; xff; xfe], INTEL_PT_NO_CTX, mkPkt INTEL_PT_CYC 0 0xffffffffff, INTEL_PT_NO_CTX, true);
  ([x07; x01; x01; x01; x01; x01; x02], INTEL_PT_NO_CTX, mkPkt INTEL_PT_CYC 0 0x10000000000, INTEL_PT_NO_CTX, true);
  ([xff; xff; xff; xff; xff; xff; xfe], INTEL_PT_NO_CTX, mkPkt INTEL_PT_CYC 0 0x7fffffffffff, INTEL_PT_NO_CTX, true);
  ([x07; x01; x01; x01; x01; x01; x01; x02], INTEL_PT_NO_CTX, mkPkt INTEL_PT_CYC 0 0x800000000000, INTEL_PT_NO_CTX, true);
  ([xff; xff; xff; xff; xff; xff; xff; xfe], INTEL_PT_NO_CTX, mkPkt INTEL_PT_CYC 0 0x3fffffffffffff, INTEL_PT_NO_CTX, true);
  ([x07; x01; x01; x01; x01; x01; x01; x01; x02], INTEL_PT_NO_CTX, mkPkt INTEL_PT_CYC 0 0x40000000000000, INTEL_PT_NO_CTX, true);
  ([xff; xff; xff; xff; xff; xff; xff; xff; xfe], INTEL_PT_NO_CTX, mkPkt INTEL_PT_CYC 0 0x1fffffffffffffff, INTEL_PT_NO_CTX, true);
  ([x07; x01; x01; x01; x01; x01; x01; x01; x01; x02], INTEL_PT_NO_CTX, mkPkt INTEL_PT_CYC 0 0x2000000000000000, INTEL_PT_NO_CTX, true);
  ([xff; xff; xff; xff; xff; xff; xff; xff; xff; x0e], INTEL_PT_NO_CTX, mkPkt INTEL_PT_CYC 0 0xffffffffffffffff, INTEL_PT_NO_CTX, true);
  ([x02; xc8; x01; x02; x03; x04; x05], INTEL_PT_NO_CTX, mkPkt INTEL_PT_VMCS 5 0x504030201, INTEL_PT_NO_CTX, false);
  ([x02; xf3], INTEL_PT_NO_CTX, mkPkt INTEL_PT_OVF 0 0x0, INTEL_PT_NO_CTX, false);
  ([x02; xf3], INTEL_PT_BLK_4_CTX, mkPkt INTEL_PT_OVF 0 0x0, INTEL_PT_NO_CTX, false);
  ([x02; xf3], INTEL_PT_BLK_8_CTX, mkPkt INTEL_PT_OVF 0 0x0, INTEL_PT_NO_CTX, false);
  ([x02; x82; x02; x82; x02; x82; x02; x82; x02; x82; x02; x82; x02; x82; x02; x82], INTEL_PT_NO_CTX, mkPkt INTEL_PT_PSB 0 0x0, INTEL_PT_NO_CTX, false);
  ([x02; x82; x02; x82; x02; x82; x02; x82; x02; x82; x02; x82; x02; x82; x02; x82], INTEL_PT_BLK_4_CTX, mkPkt INTEL_PT_PSB 0 0x0, INTEL_PT_NO_CTX, false);
  ([x02; x82; x02; x82; x02; x82; x02; x82; x02; x82; x02; x82; x02; x82; x02; x82], INTEL_PT_BLK_8_CTX, mkPkt INTEL_PT_PSB 0 0x0, INTEL_PT_NO_CTX, false);
  ([x02; x23], INTEL_PT_NO_CTX, mkPkt INTEL_PT_PSBEND 0 0x0, INTEL_PT_NO_CTX, false);
  ([x02; xc3; x88; x01; x02; x03; x04; x05; x06; x07; x00], INTEL_PT_NO_CTX, mkPkt INTEL_PT_MNT 0 0x7060504030201, INTEL_PT_NO_CTX, true);
  ([x02; x12; x01; x02; x03; x04], INTEL_PT_NO_CTX, mkPkt INTEL_PT_PTWRITE 0 0x4030201, INTEL_PT_NO_CTX, false);
  ([x02; x32; x01; x02; x03; x04; x05; x06; x07; x08], INTEL_PT_NO_CTX, mkPkt INTEL_PT_PTWRITE 1 0x807060504030201, INTEL_PT_NO_CTX, false);
  ([x02; x92; x01; x02; x03; x04], INTEL_PT_NO_CTX, mkPkt INTEL_PT_PTWRITE_IP 0 0x4030201, INTEL_PT_NO_CTX, false);
  ([x02; xb2; x01; x02; x03; x04; x05; x06; x07; x08], INTEL_PT_NO_CTX, mkPkt INTEL_PT_PTWRITE_IP 1 0x807060504030201, INTEL_PT_NO_CTX, false);
  ([x02; x62], INTEL_PT_NO_CTX, mkPkt INTEL_PT_EXSTOP 0 0x0, INTEL_PT_NO_CTX, true);
  ([x02; xe2], INTEL_PT_NO_CTX, mkPkt INTEL_PT_EXSTOP_IP 0 0x0, INTEL_PT_NO_CTX, true);
  ([x02; xc2; x00; x00; x00; x00; x00; x00; x00; x00], INTEL_PT_NO_CTX, mkPkt INTEL_PT_MWAIT 0 0x0, INTEL_PT_NO_CTX, false);
  ([x02; xc2; x01; x02; x03; x04; x05; x06; x07; x08], INTEL_PT_NO_CTX, mkPkt INTEL_PT_MWAIT 0 0x807060504030201, INTEL_PT_NO_CTX, false);
  ([x02; xc2; xff; x02; x03; x04; x07; x06; x07; x08], INTEL_PT_NO_CTX, mkPkt INTEL_PT_MWAIT 0 0x8070607040302ff, INTEL_PT_NO_CTX, false);
  ([x02; x22; x00; x00], INTEL_PT_NO_CTX, mkPkt INTEL_PT_PWRE 0 0x0, INTEL_PT_NO_CTX, true);
  ([x02; x22; x01; x02], INTEL_PT_NO_CTX, mkPkt INTEL_PT_PWRE 0 0x201, INTEL_PT_NO_CTX, true);
  ([x02; x22; x80; x34], INTEL_PT_NO_CTX, mkPkt INTEL_PT_PWRE 0 0x3480, INTEL_PT_NO_CTX, true);
  ([x02; x22; x00; x56], INTEL_PT_NO_CTX, mkPkt INTEL_PT_PWRE 0 0x5600, INTEL_PT_NO_CTX, true);
  ([x02; xa2; x00; x00; x00; x00; x00], INTEL_PT_NO_CTX, mkPkt INTEL_PT_PWRX 0 0x0, INTEL_PT_NO_CTX, true);
  ([x02; xa2; x01; x02; x03; x04; x05], INTEL_PT_NO_CTX, mkPkt INTEL_PT_PWRX 0 0x504030201, INTEL_PT_NO_CTX, true);
  ([x02; xa2; xff; xff; xff; xff; xff], INTEL_PT_NO_CTX, mkPkt INTEL_PT_PWRX 0 0xffffffffff, INTEL_PT_NO_CTX, true);
  ([x02; x63; x00], INTEL_PT_NO_CTX, mkPkt INTEL_PT_BBP 0 0x0, INTEL_PT_BLK_8_CTX, false);
  ([x02; x63; x80], INTEL_PT_NO_CTX, mkPkt INTEL_PT_BBP 1 0x0, INTEL_PT_BLK_4_CTX, false);
  ([x02; x63; x1f], INTEL_PT_NO_CTX, mkPkt INTEL_PT_BBP 0 0x1f, INTEL_PT_BLK_8_CTX, false);
  ([x02; x63; x9f], INTEL_PT_NO_CTX, mkPkt INTEL_PT_BBP 1 0x1f, INTEL_PT_BLK_4_CTX, false);
  ([x04; x00; x00; x00; x00], INTEL_PT_BLK_4_CTX, mkPkt INTEL_PT_BIP 0 0x0, INTEL_PT_BLK_4_CTX, false);
  ([xfc; x00; x00; x00; x00], INTEL_PT_BLK_4_CTX, mkPkt INTEL_PT_BIP 31 0x0, INTEL_PT_BLK_4_CTX, false);
  ([x04; x01; x02; x03; x04], INTEL_PT_BLK_4_CTX, mkPkt INTEL_PT_BIP 0 0x4030201, INTEL_PT_BLK_4_CTX, false);
  ([xfc; x01; x02; x03; x04], INTEL_PT_BLK_4_CTX, mkPkt INTEL_PT_BIP 31 0x4030201, INTEL_PT_BLK_4_CTX, false);
  ([x04; x00; x00; x00; x00; x00; x00; x00; x00], INTEL_PT_BLK_8_CTX, mkPkt INTEL_PT_BIP 0 0x0, INTEL_PT_BLK_8_CTX, false);
  ([xfc; x00; x00; x00; x00; x00; x00; x00; x00], INTEL_PT_BLK_8_CTX, mkPkt INTEL_PT_BIP 31 0x0, INTEL_PT_BLK_8_CTX, false);
  ([x04; x01; x02; x03; x04; x05; x06; x07; x08], INTEL_PT_BLK_8_CTX, mkPkt INTEL_PT_BIP 0 0x807060504030201, INTEL_PT_BLK_8_CTX, false);
  ([xfc; x01; x02; x03; x04; x05; x06; x07; x08], INTEL_PT_BLK_8_CTX, mkPkt INTEL_PT_BIP 31 0x807060504030201, INTEL_PT_BLK_8_CTX, false);
  ([x02; x33], INTEL_PT_BLK_4_CTX, mkPkt INTEL_PT_BEP 0 0x0, INTEL_PT_NO_CTX, false);
  ([x02; xb3], INTEL_PT_BLK_4_CTX, mkPkt INTEL_PT_BEP_IP 0 0x0, INTEL_PT_NO_CTX, false);
  ([x02; x33], INTEL_PT_BLK_8_CTX, mkPkt INTEL_PT_BEP 0 0x0, INTEL_PT_NO_CTX, false);
  ([x02; xb3], INTEL_PT_BLK_8_CTX, mkPkt INTEL_PT_BEP_IP 0 0x0, INTEL_PT_NO_CTX, false);
  ([x02; x13; x01; x03], INTEL_PT_NO_CTX, mkPkt INTEL_PT_CFE 1 0x3, INTEL_PT_NO_CTX, false);
  ([x02; x13; x81; x03], INTEL_PT_NO_CTX, mkPkt INTEL_PT_CFE_IP 1 0x3, INTEL_PT_NO_CTX, false);
  ([x02; x13; x1f; x00], INTEL_PT_NO_CTX, mkPkt INTEL_PT_CFE 31 0x0, INTEL_PT_NO_CTX, false);
  ([x02; x13; x9f; xff], INTEL_PT_NO_CTX, mkPkt INTEL_PT_CFE_IP 31 0xff, INTEL_PT_NO_CTX, false);
  ([x02; x53; x09; x01; x02; x03; x04; x05; x06; x07; x00], INTEL_PT_NO_CTX, mkPkt INTEL_PT_EVD 9 0x7060504030201, INTEL_PT_NO_CTX, false);
  ([x02; x53; x3f; x02; x03; x04; x05; x06; x07; x08; x00], INTEL_PT_NO_CTX, mkPkt INTEL_PT_EVD 63 0x8070605040302, INTEL_PT_NO_CTX, false)
].

Definition ctx_unchanged (p : intel_pt_pkt) : bool :=
  forallb (fun c => bool_decide (intel_pt_upd_pkt_ctx p c = c))
    [INTEL_PT_NO_CTX; INTEL_PT_BLK_4_CTX; INTEL_PT_BLK_8_CTX].

(** The checks of [test_one]. *)
Definition test_one (t : list byte * intel_pt_pkt_ctx * intel_pt_pkt * intel_pt_pkt_ctx * bool) : bool :=
  let '(bytes, ctx, packet, new_ctx, unchanged) := t in
  let len := Z.of_nat (length bytes) in
  match intel_pt_get_packet bytes len ctx with
  | Some (ret, p, c) =>
    (ret =? len) && bool_decide (p = packet) && bool_decide (c = new_ctx) &&
    implb unchanged (ctx_unchanged p)
  | None => false
  end.

(** The decoder passes the repository's own test: every row of its table
    decodes to the expected packet, length and context. *)
Theorem intel_pt_pkt_decoder_test : forallb test_one test_data = true.
Proof. vm_compute. reflexivity. Qed.
