(* ===== verification/PktBounds.v ===== *)
(** Packets of intel-pt-pkt-decoder.c: bounds of what is read and returned, and
    independence of what follows a packet. *)
From Stdlib Require Import ZArith Lia List Bool.
From S2P Require Import Prelude PktDecoder.
Open Scope Z_scope.
Open Scope c_scope.

Definition is_ip_type (t : intel_pt_pkt_type) : bool :=
  match t with
  | INTEL_PT_TIP | INTEL_PT_TIP_PGE | INTEL_PT_TIP_PGD | INTEL_PT_FUP => true
  | _ => false
  end.

(** The range of an IP packet's payload for each compression mode. *)
Definition ip_bits (count : Z) : option Z :=
  match count with
  | 0 => Some 0 | 1 => Some 16 | 2 => Some 32 | 3 => Some 48 | 4 => Some 48
  | 6 => Some 64 | _ => None
  end.

(** Well-formed packets: the ranges of [count] and [payload] for each type. *)
Definition pkt_wf (p : intel_pt_pkt) : Prop :=
  let c := pkt_count p in
  let v := pkt_payload p in
  0 <= v < 2 ^ 64 /\
  match pkt_type p with
  | INTEL_PT_BAD => False
  | INTEL_PT_TNT => 0 <= c <= 47
  | INTEL_PT_TIP | INTEL_PT_TIP_PGE | INTEL_PT_TIP_PGD | INTEL_PT_FUP =>
    exists n, ip_bits c = Some n /\ v < 2 ^ n
  | INTEL_PT_TSC => c = 0 /\ v < 2 ^ 56
  | INTEL_PT_TMA => 0 <= c < 2 ^ 9 /\ v < 2 ^ 16
  | INTEL_PT_MODE_EXEC => 0 <= c < 32 /\ (v = 16 \/ v = 32 \/ v = 64)
  | INTEL_PT_MODE_TSX => c = 0 /\ v <= 2
  | INTEL_PT_MTC => c = 0 /\ v < 2 ^ 8
  | INTEL_PT_VMCS => c = 5 /\ v < 2 ^ 40
  | INTEL_PT_CBR | INTEL_PT_PWRE => c = 0 /\ v < 2 ^ 16
  | INTEL_PT_PIP => c = 0 /\ v < 2 ^ 48
  | INTEL_PT_PTWRITE | INTEL_PT_PTWRITE_IP => (c = 0 /\ v < 2 ^ 32) \/ c = 1
  | INTEL_PT_PWRX => c = 0 /\ v < 2 ^ 40
  | INTEL_PT_BBP => 0 <= c <= 1 /\ v < 32
  | INTEL_PT_BIP => 0 <= c < 32
  | INTEL_PT_CFE | INTEL_PT_CFE_IP => 0 <= c < 32 /\ v < 2 ^ 8
  | INTEL_PT_EVD => 0 <= c < 64
  | INTEL_PT_CYC | INTEL_PT_MNT | INTEL_PT_MWAIT => c = 0
  | INTEL_PT_PAD | INTEL_PT_PSB | INTEL_PT_PSBEND | INTEL_PT_TRACESTOP
  | INTEL_PT_OVF | INTEL_PT_EXSTOP | INTEL_PT_EXSTOP_IP
  | INTEL_PT_BEP | INTEL_PT_BEP_IP => c = 0 /\ v = 0
  end.

(** What every packet function owes its caller: it stays inside the buffer, and
    either reports an error or consumes between 1 and 16 of the [len] bytes and
    leaves a well-formed packet. *)
Definition pkt_ok (len : Z) (r : pkt_res) : Prop :=
  match r with
  | None => False
  | Some (ret, p) =>
    ret = INTEL_PT_NEED_MORE_BYTES \/ ret = INTEL_PT_BAD_PACKET \/
    (1 <= ret <= len /\ ret <= INTEL_PT_PKT_MAX_SZ /\ pkt_wf p)
  end.

Lemma pkt_ok_need_more len p : pkt_ok len (need_more p).
Proof. by left. Qed.

Lemma pkt_ok_bad len p : pkt_ok len (bad_packet p).
Proof. by right; left. Qed.

Create HintDb pkt discriminated.
#[export] Hint Resolve pkt_ok_need_more pkt_ok_bad : pkt.

(** [rd_step] performs the next read of the goal, in bounds by [lia]. *)
Ltac rd_step :=
  match goal with
  | |- context [rd ?buf ?i] =>
    let v := fresh "b" in let H := fresh "Hb" in
    destruct (rd_Some buf i ltac:(lia)) as (v & -> & H); cbn [mbind option_bind]
  | |- context [memcpy_le64 0 ?buf ?off ?n] => rewrite (memcpy_le64_zero buf off n)
  | |- context [rd_le ?buf ?off ?n] =>
    let v := fresh "v" in let H := fresh "Hv" in
    destruct (rd_le_Some buf off n ltac:(lia) ltac:(lia)) as (v & -> & H);
    let m := eval vm_compute in (256 ^ Z.of_nat n) in
    change (256 ^ Z.of_nat n) with m in H;
    cbn [mbind option_bind]
  | |- context [if ?x <? ?y then _ else _] => destruct (Z.ltb_spec x y); auto with pkt
  end.

Ltac pkt_cbn :=
  cbn [upd set_pkt_type set_pkt_count set_pkt_payload pkt_type pkt_count pkt_payload zero_pkt].

Ltac pkt_done :=
  right; right; unfold INTEL_PT_PKT_MAX_SZ;
  split; [lia|split; [lia|]]; unfold pkt_wf; pkt_cbn.

Lemma land31_range b : 0 <= Z.land b 0x1f < 32.
Proof. apply (land_ones_range 5). lia. Qed.

Lemma land63_range b : 0 <= Z.land b 0x3f < 64.
Proof. apply (land_ones_range 6). lia. Qed.

Lemma land3_range b : 0 <= Z.land b 3 < 4.
Proof. apply (land_ones_range 2). lia. Qed.

Lemma byte_shiftr_range k b : 0 <= k <= 8 -> 0 <= b < 256 -> 0 <= Z.shiftr b k < 2 ^ (8 - k).
Proof. intros. by apply shiftr_range. Qed.

Section getters.
Context (buf : list byte) (len : Z) (Hlen : 0 <= len <= Z.of_nat (length buf)).

Lemma long_tnt_loop_range n v :
  0 <= v < 2 ^ 64 ->
  0 <= (long_tnt_loop n v).1 <= Z.of_nat n /\ 0 <= (long_tnt_loop n v).2 < 2 ^ 64.
Proof.
  revert v. induction n as [|n IH]; intros v Hv; simpl; [lia|].
  destruct (negb _); [cbn [fst snd]; lia|].
  specialize (IH _ (u64_range (v .<< 1))). lia.
Qed.

Lemma get_long_tnt_ok p : pkt_ok len (intel_pt_get_long_tnt buf len p).
Proof.
  unfold intel_pt_get_long_tnt. repeat rd_step.
  pose proof (long_tnt_loop_range 47 v Hv) as [H1 H2].
  destruct (long_tnt_loop 47 v) as [c w]. cbn [fst snd] in H1, H2.
  pkt_done. pose proof (u64_range (w .<< 1)). lia.
Qed.

Lemma short_tnt_loop_range n v :
  0 <= (short_tnt_loop n v).1 <= Z.of_nat n.
Proof.
  revert v. induction n as [|n IH]; intros v; simpl; [lia|].
  destruct (negb _); [cbn [fst snd]; lia|].
  specialize (IH (u32 (v .<< 1))). lia.
Qed.

Lemma get_short_tnt_ok b p : 0 < len -> pkt_ok len (intel_pt_get_short_tnt b p).
Proof.
  intros. unfold intel_pt_get_short_tnt. pose proof (short_tnt_loop_range 6 b) as H1.
  destruct (short_tnt_loop 6 b) as [c w]. cbn [fst snd] in H1.
  pkt_done. pose proof (u64_range (w .<< 57)). lia.
Qed.

Lemma psb_loop_Some n i :
  0 <= i -> i + 2 * Z.of_nat n <= len -> exists r, psb_loop n buf i = Some r.
Proof.
  revert i. induction n as [|n IH]; intros i H1 H2; simpl; [eauto|].
  repeat rd_step. destruct (_ || _); [eauto|]. apply IH; lia.
Qed.

Lemma get_psb_ok : pkt_ok len (intel_pt_get_psb buf len zero_pkt).
Proof.
  unfold intel_pt_get_psb. repeat rd_step.
  destruct (psb_loop_Some 7 2) as [[] ->]; [lia..| |]; simpl; auto with pkt.
  pkt_done. simpl. lia.
Qed.

(** The CYC loop never runs out of fuel nor of buffer. *)
Lemma cyc_loop_ok fuel l offs shift b payload :
  l = len - 1 -> 1 <= offs <= 10 -> offs <= len ->
  Z.of_nat fuel = 11 - offs -> 0 <= payload < 2 ^ 64 ->
  match cyc_loop fuel buf l offs shift b payload with
  | None => False
  | Some (inl e) => e = INTEL_PT_BAD_PACKET \/ e = INTEL_PT_NEED_MORE_BYTES
  | Some (inr (o, v)) => 1 <= o <= 10 /\ o <= len /\ 0 <= v < 2 ^ 64
  end.
Proof.
  intros Hl. revert offs shift b payload.
  induction fuel as [|fuel IH]; intros offs shift b payload H1 H2 Hf Hp; [lia|].
  simpl. destruct (Z.eqb_spec (b .& 1) 0); [lia|].
  destruct (Z.ltb_spec 9 offs); [by left|].
  destruct (Z.ltb_spec l offs); [by right|].
  repeat rd_step. apply IH; try lia.
  apply lor_range; [done|]. apply u64_range.
Qed.

Lemma get_cyc_ok b : 0 < len < 2 ^ 64 -> 0 <= b < 256 ->
  pkt_ok len (intel_pt_get_cyc b buf len zero_pkt).
Proof.
  intros Hlen' Hb. unfold intel_pt_get_cyc. rewrite (u64_small (len - 1)) by lia.
  pose proof (byte_shiftr_range 3 b ltac:(lia) Hb) as R. cbn in R.
  pose proof (cyc_loop_ok 10 (len - 1) 1 5 (b .>> 2) (b .>> 3)
    eq_refl ltac:(lia) ltac:(lia) eq_refl ltac:(lia)) as C.
  destruct (cyc_loop _ _ _ _ _ _ _) as [[e|[o v]]|]; simpl in C |- *; [|pkt_done; lia|done].
  unfold pkt_ok. tauto.
Qed.

Ltac getter f := unfold f; repeat rd_step; try (pkt_done; lia).

Lemma get_pip_ok : pkt_ok len (intel_pt_get_pip buf len zero_pkt).
Proof. getter intel_pt_get_pip. Qed.

Lemma get_cbr_ok : pkt_ok len (intel_pt_get_cbr buf len zero_pkt).
Proof. getter intel_pt_get_cbr. Qed.

Lemma get_vmcs_ok : pkt_ok len (intel_pt_get_vmcs buf len zero_pkt).
Proof.
  unfold intel_pt_get_vmcs. change ((52 - 5) .>> 3) with 5. change ((5 <? 1) || (7 <? 5)) with false. cbv iota.
  pkt_cbn. change (Z.to_nat 5) with 5%nat. repeat rd_step.
  pkt_done. lia.
Qed.

Lemma get_tma_ok : pkt_ok len (intel_pt_get_tma buf len zero_pkt).
Proof.
  getter intel_pt_get_tma. pkt_done.
  pose proof (lor_range 16 b2 (b1 .<< 8)) as R1.
  pose proof (shiftl_range 8 8 b1) as R2.
  pose proof (lor_range 9 b0 ((b .& 1) .<< 8)) as R3.
  pose proof (shiftl_range 1 8 (b .& 1)) as R4.
  pose proof (land_ones_range 1 b ltac:(lia)) as R5.
  change (Z.ones 1) with 1 in R5. change (2 ^ (8 + 8)) with (2 ^ 16) in R2.
  change (2 ^ (1 + 8)) with (2 ^ 9) in R4. lia.
Qed.

Lemma get_mnt_ok : pkt_ok len (intel_pt_get_mnt buf len zero_pkt).
Proof. unfold intel_pt_get_mnt. pkt_cbn. repeat rd_step. pkt_done. lia. Qed.

Lemma get_3byte_ok : pkt_ok len (intel_pt_get_3byte buf len zero_pkt).
Proof.
  unfold intel_pt_get_3byte. repeat rd_step.
  destruct (_ =? _); auto using get_mnt_ok with pkt.
Qed.

Lemma get_ptwrite_ok : 2 <= len -> pkt_ok len (intel_pt_get_ptwrite buf len zero_pkt).
Proof.
  intros. unfold intel_pt_get_ptwrite. rd_step. pkt_cbn.
  destruct (Z.eqb_spec ((b .>> 5) .& 3) 0) as [E|_];
    [|destruct (Z.eqb_spec ((b .>> 5) .& 3) 1) as [E|_]; [|apply pkt_ok_bad]];
    repeat rd_step; try (pkt_done; rewrite E; destruct (negb _); lia);
    left; reflexivity.
Qed.

Lemma get_mwait_ok : pkt_ok len (intel_pt_get_mwait buf len zero_pkt).
Proof. getter intel_pt_get_mwait. Qed.

Lemma get_pwre_ok : pkt_ok len (intel_pt_get_pwre buf len zero_pkt).
Proof. unfold intel_pt_get_pwre. pkt_cbn. repeat rd_step. pkt_done. lia. Qed.

Lemma get_pwrx_ok : pkt_ok len (intel_pt_get_pwrx buf len zero_pkt).
Proof. unfold intel_pt_get_pwrx. pkt_cbn. repeat rd_step. pkt_done. lia. Qed.

Lemma get_bbp_ok : pkt_ok len (intel_pt_get_bbp buf len zero_pkt).
Proof.
  unfold intel_pt_get_bbp. repeat rd_step. pkt_done.
  pose proof (land31_range b). pose proof (byte_shiftr_range 7 b). lia.
Qed.

Lemma get_bip_4_ok : pkt_ok len (intel_pt_get_bip_4 buf len zero_pkt).
Proof.
  unfold intel_pt_get_bip_4. pkt_cbn. repeat rd_step. pkt_done.
  pose proof (byte_shiftr_range 3 b). lia.
Qed.

Lemma get_bip_8_ok : pkt_ok len (intel_pt_get_bip_8 buf len zero_pkt).
Proof.
  unfold intel_pt_get_bip_8. pkt_cbn. repeat rd_step. pkt_done.
  pose proof (byte_shiftr_range 3 b). lia.
Qed.

Lemma get_bep_ok : pkt_ok len (intel_pt_get_bep len zero_pkt).
Proof. getter intel_pt_get_bep. Qed.

Lemma get_bep_ip_ok : pkt_ok len (intel_pt_get_bep_ip len zero_pkt).
Proof. getter intel_pt_get_bep_ip. Qed.

Lemma get_cfe_ok : pkt_ok len (intel_pt_get_cfe buf len zero_pkt).
Proof.
  unfold intel_pt_get_cfe. repeat rd_step. pkt_done.
  match goal with |- context [?x .& 31] => pose proof (land31_range x) end.
  destruct (negb _); lia.
Qed.

Lemma get_evd_ok : pkt_ok len (intel_pt_get_evd buf len zero_pkt).
Proof.
  unfold intel_pt_get_evd. do 3 rd_step. pkt_cbn.
  destruct (rd_le_Some buf 3 8) as (w & Ew & Hw); [lia|lia|].
  unfold memcpy_le64. rewrite Ew. cbn [mbind option_bind]. pkt_done.
  match goal with |- context [?x .& 63] => pose proof (land63_range x) end.
  match goal with |- context [?x .>> (8 * Z.of_nat 8)] =>
    rewrite (Z.shiftr_div_pow2 x), (Z.div_small x), Z.shiftl_0_l by lia end.
  rewrite Z.lor_0_l. simpl in Hw. lia.
Qed.

Lemma get_mode_ok : pkt_ok len (intel_pt_get_mode buf len zero_pkt).
Proof.
  unfold intel_pt_get_mode. repeat rd_step.
  assert (b .>> 5 = 0 -> b < 32).
  { rewrite Z.shiftr_div_pow2 by lia. intros. apply Z.div_small_iff in H0; lia. }
  pose proof (land3_range b).
  destruct (b .>> 5) as [|q|q]; [| |apply pkt_ok_bad].
  - specialize (H0 eq_refl). destruct (b .& 3) as [|r|r] eqn:E; [pkt_done; lia| |lia].
    destruct_Zmatch; try apply pkt_ok_bad; pkt_done; lia.
  - destruct_Zmatch; try apply pkt_ok_bad.
    destruct (Z.eqb_spec (b .& 3) 3); [apply pkt_ok_bad|]. pkt_done. lia.
Qed.

Lemma get_tsc_ok : pkt_ok len (intel_pt_get_tsc buf len zero_pkt).
Proof. unfold intel_pt_get_tsc. pkt_cbn. repeat rd_step. pkt_done. lia. Qed.

Lemma get_mtc_ok : pkt_ok len (intel_pt_get_mtc buf len zero_pkt).
Proof. getter intel_pt_get_mtc. Qed.
Lemma get_ip_ok t b : is_ip_type t = true -> 0 < len ->
  pkt_ok len (intel_pt_get_ip t b buf len zero_pkt).
Proof.
  intros Ht ?. unfold intel_pt_get_ip. pkt_cbn.
  assert (forall ip_len v c n, ip_bits c = Some n -> 0 <= ip_len -> ip_len + 1 <= len ->
    ip_len + 1 <= 16 -> 0 <= v < 2 ^ 64 -> v < 2 ^ n ->
    pkt_ok len (Some (ip_len + 1, zero_pkt <| pkt_count := c |> <| pkt_payload := v |>
                                           <| pkt_type := t |>))) as D.
  { intros. pkt_done. destruct t; try discriminate; eauto. }
  destruct (b .>> 5) as [|q|q]; [|destruct_Zmatch; try apply pkt_ok_bad|apply pkt_ok_bad];
    repeat rd_step; try (eapply D; [reflexivity|lia..]).
  eapply (D 0 0 0 0 eq_refl); lia.
Qed.

Lemma one_byte_ok n t p : 1 <= n <= 2 -> n <= len -> p = mkPkt t 0 0 -> pkt_wf p ->
  pkt_ok len (Some (n, p)).
Proof. intros ? ? -> Hwf. right; right. unfold INTEL_PT_PKT_MAX_SZ. split; [lia|]. split; [lia|done]. Qed.

Hint Resolve get_long_tnt_ok get_pip_ok get_cbr_ok get_vmcs_ok get_psb_ok get_tma_ok
  get_3byte_ok get_mwait_ok get_pwre_ok get_pwrx_ok get_bbp_ok get_bep_ok get_bep_ip_ok
  get_cfe_ok get_evd_ok get_mode_ok get_tsc_ok get_mtc_ok get_ip_ok get_bip_4_ok
  get_bip_8_ok : pkt.

Lemma get_ext_ok : pkt_ok len (intel_pt_get_ext buf len zero_pkt).
Proof.
  unfold intel_pt_get_ext. repeat rd_step.
  destruct (Z.eqb _ _); [by apply get_ptwrite_ok|].
  destruct_Zmatch; auto with pkt;
    (eapply one_byte_ok; [lia|lia|reflexivity|unfold pkt_wf; pkt_cbn; lia]).
Qed.

Lemma get_no_bip_ok b : 0 < len < 2 ^ 64 -> 0 <= b < 256 ->
  pkt_ok len (do_get_packet_no_bip b buf len zero_pkt).
Proof.
  intros Hl Hb. unfold do_get_packet_no_bip.
  destruct (b .& 1 =? 0).
  { destruct (b =? 0); [|destruct (b =? 2)].
    - eapply one_byte_ok; [lia|lia|reflexivity|unfold pkt_wf; pkt_cbn; lia].
    - apply get_ext_ok.
    - apply get_short_tnt_ok. lia. }
  destruct (negb _); [by apply get_cyc_ok|].
  destruct (b .& 31) as [|q|q]; [auto with pkt| |auto with pkt].
  destruct_Zmatch; auto with pkt lia; apply get_ip_ok; (done || lia).
Qed.

(** The packet decoder reads only bytes of the buffer, and either reports an
    error or consumes between 1 and 16 bytes of it. *)
Lemma do_get_packet_ok ctx : len < 2 ^ 64 -> pkt_ok len (intel_pt_do_get_packet buf len ctx).
Proof.
  intros Hl. unfold intel_pt_do_get_packet.
  destruct (Z.eqb_spec len 0); [auto with pkt|].
  assert (0 < len) by lia.
  destruct (rd_Some buf 0 ltac:(lia)) as (b & -> & Hb); cbn [mbind option_bind].
  destruct ctx; [|destruct (_ =? 4)|destruct (_ =? 4)]; auto using get_no_bip_ok with pkt.
Qed.

Lemma skip_padding_ok fuel ret :
  0 <= ret -> (8 <= ret \/ 8 - ret <= Z.of_nat fuel) ->
  exists r, skip_padding fuel buf len ret = Some r /\ ret <= r /\
    (r <= Z.max ret 8) /\ (ret <= len -> r <= len) /\
    (forall i, ret <= i < r -> rd buf i = Some 0).
Proof.
  revert ret. induction fuel as [|fuel IH]; intros ret H0 Hf; cbn [skip_padding].
  all: destruct (Z.ltb_spec ret 8), (Z.ltb_spec ret len); cbn [andb];
    try (exists ret; repeat split; try done; try lia; intros; lia).
  destruct (rd_Some buf ret ltac:(lia)) as (b & Eb & Hb). rewrite Eb. cbn [mbind option_bind].
  destruct (Z.eqb_spec b 0) as [->|];
    [|exists ret; repeat split; try done; try lia; intros; lia].
  destruct (IH (ret + 1)) as (r & -> & ? & ? & ? & Hz); [lia|lia|].
  exists r. repeat split; try done; try lia.
  intros i Hi. destruct (Z.eq_dec i ret) as [->|]; [done|]. apply Hz. lia.
Qed.
End getters.

(** The safety contract of [intel_pt_get_packet], for use by its callers. *)
Lemma get_packet_ok buf len ctx :
  0 <= len <= Z.of_nat (length buf) -> len < 2 ^ 64 ->
  exists ret p ctx', intel_pt_get_packet buf len ctx = Some (ret, p, ctx') /\
    (ret = INTEL_PT_NEED_MORE_BYTES \/ ret = INTEL_PT_BAD_PACKET \/
     (1 <= ret <= len /\ ret <= INTEL_PT_PKT_MAX_SZ /\ pkt_wf p)).
Proof.
  intros Hlen Hl. unfold intel_pt_get_packet.
  pose proof (do_get_packet_ok buf len Hlen ctx Hl) as H.
  destruct (intel_pt_do_get_packet buf len ctx) as [[ret p]|]; [|done].
  cbn [mbind option_bind]. destruct (Z.ltb_spec 0 ret) as [Hr|Hr].
  - destruct (skip_padding_ok buf len Hlen 8 ret) as (r & -> & ? & ? & ? & ?); [lia|lia|].
    cbn [mbind option_bind]. exists r, p, (intel_pt_upd_pkt_ctx p ctx). split; [done|].
    right; right. unfold pkt_ok, INTEL_PT_PKT_MAX_SZ, INTEL_PT_NEED_MORE_BYTES, INTEL_PT_BAD_PACKET in *.
    destruct H as [?|[?|(? & ? & ?)]]; [lia|lia|]. split; [lia|]. split; [lia|done].
  - exists ret, p, ctx. split; [done|]. destruct H as [?|[?|?]]; auto.
Qed.

(** The packets are a prefix code: what the packet decoder makes of a packet does
    not depend on how much of the buffer follows it, and a packet cut short is
    reported as such. *)
(** [r] is the outcome, with [len'] bytes of the buffer, for a packet [p] of
    [ret] bytes. *)
Definition cut (len' ret : Z) (p : intel_pt_pkt) (r : pkt_res) : Prop :=
  (len' < ret -> exists q, r = Some (INTEL_PT_NEED_MORE_BYTES, q)) /\
  (ret <= len' -> r = Some (ret, p)).

(** A packet function that reads a packet whole, or asks for more. *)
Definition prefix_free (f : Z -> pkt_res) : Prop :=
  forall len len' ret p, 1 <= len < 2 ^ 64 -> 1 <= len' < 2 ^ 64 ->
    f len = Some (ret, p) -> 0 < ret -> cut len' ret p (f len').

Lemma cut_some len' ret p : ret <= len' -> cut len' ret p (Some (ret, p)).
Proof. intros; split; [lia|done]. Qed.

Lemma cut_more len' ret p q : len' < ret -> cut len' ret p (need_more q).
Proof. intros; split; [by exists q|lia]. Qed.

(** [prefix_step] splits on the next test or read of either side. *)
Ltac prefix_step :=
  match goal with
  | |- context [?x <? ?y] => destruct (Z.ltb_spec x y)
  | |- context [rd ?buf ?i] => destruct (rd buf i); cbn [mbind option_bind]
  | |- context [rd_le ?buf ?i ?n] => destruct (rd_le buf i n); cbn [mbind option_bind]
  | |- context [memcpy_le64 ?d ?buf ?i ?n] =>
    destruct (memcpy_le64 d buf i n); cbn [mbind option_bind]
  | |- context [psb_loop ?n ?buf ?i] => destruct (psb_loop n buf i) as [[]|]; cbn [mbind option_bind]
  | |- context [long_tnt_loop ?n ?v] => destruct (long_tnt_loop n v)
  | |- context [if ?b then _ else _] => destruct b
  end.

Ltac prefix_done :=
  solve [ discriminate
        | intros [= <- <-] ?; exfalso; unfold INTEL_PT_NEED_MORE_BYTES, INTEL_PT_BAD_PACKET in *; lia
        | intros [= <- <-] ?; apply cut_some; lia
        | intros [= <- <-] ?; apply cut_more; lia ].

(** From the result of one side to the other, when both run the same function. *)
Lemma prefix_use f len len' ret p :
  prefix_free f -> 1 <= len < 2 ^ 64 -> 1 <= len' < 2 ^ 64 ->
  f len = Some (ret, p) -> 0 < ret -> cut len' ret p (f len').
Proof. intros F. apply F. Qed.

(** Applies the lemma of the packet function both sides run. *)
Ltac prefix_get len :=
  lazymatch goal with
  | |- ?L = Some (?r, ?p) -> _ -> cut ?l' _ _ _ =>
    lazymatch eval pattern len in L with
    | ?g len => let E := fresh in let Hr := fresh in
      intros E Hr; apply (prefix_use g len l' r p); [solve [auto with prefix]|lia|lia|exact E|exact Hr]
    end
  end.

Ltac ret_done := solve [discriminate | intros [= <- <-] ?;
  unfold INTEL_PT_NEED_MORE_BYTES, INTEL_PT_BAD_PACKET in *; lia].

Ltac prefix f := intros len len' ret p ? ?; unfold f; repeat prefix_step; prefix_done.

Create HintDb prefix discriminated.

Section prefix.
Context (buf : list byte) (q : intel_pt_pkt).

Lemma prefix_long_tnt : prefix_free (fun len => intel_pt_get_long_tnt buf len q).
Proof. prefix intel_pt_get_long_tnt. Qed.
Lemma prefix_pip : prefix_free (fun len => intel_pt_get_pip buf len q).
Proof. prefix intel_pt_get_pip. Qed.
Lemma prefix_cbr : prefix_free (fun len => intel_pt_get_cbr buf len q).
Proof. prefix intel_pt_get_cbr. Qed.
Lemma prefix_vmcs : prefix_free (fun len => intel_pt_get_vmcs buf len q).
Proof.
  intros len len' ret p ? ?. unfold intel_pt_get_vmcs.
  change ((52 - 5) .>> 3) with 5. cbn [Z.ltb Z.compare Pos.compare Pos.compare_cont orb].
  repeat prefix_step; prefix_done.
Qed.
Lemma prefix_psb : prefix_free (fun len => intel_pt_get_psb buf len q).
Proof. prefix intel_pt_get_psb. Qed.
Lemma prefix_tma : prefix_free (fun len => intel_pt_get_tma buf len q).
Proof. prefix intel_pt_get_tma. Qed.
Lemma prefix_3byte : prefix_free (fun len => intel_pt_get_3byte buf len q).
Proof. intros len len' ret p ? ?; unfold intel_pt_get_3byte, intel_pt_get_mnt;
  repeat prefix_step; prefix_done. Qed.
Lemma prefix_mwait : prefix_free (fun len => intel_pt_get_mwait buf len q).
Proof. prefix intel_pt_get_mwait. Qed.
Lemma prefix_pwre : prefix_free (fun len => intel_pt_get_pwre buf len q).
Proof. prefix intel_pt_get_pwre. Qed.
Lemma prefix_pwrx : prefix_free (fun len => intel_pt_get_pwrx buf len q).
Proof. prefix intel_pt_get_pwrx. Qed.
Lemma prefix_bbp : prefix_free (fun len => intel_pt_get_bbp buf len q).
Proof. prefix intel_pt_get_bbp. Qed.
Lemma prefix_bip_4 : prefix_free (fun len => intel_pt_get_bip_4 buf len q).
Proof. prefix intel_pt_get_bip_4. Qed.
Lemma prefix_bip_8 : prefix_free (fun len => intel_pt_get_bip_8 buf len q).
Proof. prefix intel_pt_get_bip_8. Qed.
Lemma prefix_bep : prefix_free (fun len => intel_pt_get_bep len q).
Proof. prefix intel_pt_get_bep. Qed.
Lemma prefix_bep_ip : prefix_free (fun len => intel_pt_get_bep_ip len q).
Proof. prefix intel_pt_get_bep_ip. Qed.
Lemma prefix_cfe : prefix_free (fun len => intel_pt_get_cfe buf len q).
Proof. prefix intel_pt_get_cfe. Qed.
Lemma prefix_evd : prefix_free (fun len => intel_pt_get_evd buf len q).
Proof. prefix intel_pt_get_evd. Qed.
Lemma prefix_tsc : prefix_free (fun len => intel_pt_get_tsc buf len q).
Proof. prefix intel_pt_get_tsc. Qed.
Lemma prefix_mtc : prefix_free (fun len => intel_pt_get_mtc buf len q).
Proof. prefix intel_pt_get_mtc. Qed.
Lemma prefix_bad : prefix_free (fun _ => bad_packet q).
Proof. intros len len' ret p ? ?. prefix_done. Qed.

Lemma prefix_ptwrite : prefix_free (fun len => intel_pt_get_ptwrite buf len q).
Proof. prefix intel_pt_get_ptwrite. Qed.

Lemma prefix_mode : prefix_free (fun len => intel_pt_get_mode buf len q).
Proof.
  intros len len' ret p ? ?. unfold intel_pt_get_mode. do 2 prefix_step.
  all: destruct (rd buf 1) as [b|]; cbn [mbind option_bind].
  all: repeat first [prefix_step | destruct (Z.shiftr _ _) | destruct (Z.land _ _) | progress destruct_Zmatch]; try prefix_done.
Qed.

Lemma prefix_ip t h : prefix_free (fun len => intel_pt_get_ip t h buf len q).
Proof.
  intros len len' ret p ? ?. unfold intel_pt_get_ip. cbv zeta.
  set (q' := q <| pkt_count := h .>> 5 |>). destruct (pkt_count q') as [|z|z]; [prefix_done| |prefix_done].
  destruct_Zmatch; repeat prefix_step; prefix_done.
Qed.

Lemma prefix_short_tnt h : prefix_free (fun _ => intel_pt_get_short_tnt h q).
Proof.
  intros len len' ret p ? ?. unfold intel_pt_get_short_tnt.
  destruct (short_tnt_loop 6 h). prefix_done.
Qed.


Lemma cyc_loop_offs fuel l offs shift b v o w :
  cyc_loop fuel buf l offs shift b v = Some (inr (o, w)) -> offs <= o.
Proof.
  revert offs shift b v. induction fuel as [|fuel IH]; intros offs shift b v;
    cbn [cyc_loop]; destruct (b .& 1 =? 0); try (intros [= <- <-]; lia).
  all: destruct (9 <? offs), (l <? offs); try done.
  destruct (rd buf offs) as [c|]; cbn [mbind option_bind]; [|done].
  intros E. apply IH in E. lia.
Qed.

Lemma cyc_loop_err fuel l offs shift b v e :
  cyc_loop fuel buf l offs shift b v = Some (inl e) -> e < 0.
Proof.
  revert offs shift b v. induction fuel as [|fuel IH]; intros offs shift b v;
    cbn [cyc_loop]; destruct (b .& 1 =? 0); try done.
  all: destruct (9 <? offs), (l <? offs); try (intros [= <-]; done); try done.
  destruct (rd buf offs) as [c|]; cbn [mbind option_bind]; [|done]. apply IH.
Qed.

(** The CYC loop, with [l + 1] and with [l' + 1] bytes of buffer. *)
Lemma prefix_cyc_loop fuel l l' offs shift b v o w :
  cyc_loop fuel buf l offs shift b v = Some (inr (o, w)) -> offs <= l' + 1 ->
  (o <= l' + 1 -> cyc_loop fuel buf l' offs shift b v = Some (inr (o, w))) /\
  (l' + 1 < o -> cyc_loop fuel buf l' offs shift b v = Some (inl INTEL_PT_NEED_MORE_BYTES)).
Proof.
  revert offs shift b v. induction fuel as [|fuel IH]; intros offs shift b v E Ho;
    cbn [cyc_loop] in *; destruct (b .& 1 =? 0);
    try (injection E as <- <-; split; [done|lia]).
  all: destruct (9 <? offs); [done|]; destruct (Z.ltb_spec l offs); try done.
  destruct (rd buf offs) as [c|]; cbn [mbind option_bind] in *; [|done].
  destruct (Z.ltb_spec l' offs); [|apply IH; [done|lia]].
  apply cyc_loop_offs in E. split; [lia|done].
Qed.

Lemma prefix_cyc h : prefix_free (fun len => intel_pt_get_cyc h buf len q).
Proof.
  intros len len' ret p ? ?. unfold intel_pt_get_cyc. cbv zeta.
  rewrite !u64_small by lia.
  destruct (cyc_loop _ _ (len - 1) _ _ _ _) as [[e|[o w]]|] eqn:E; cbn [mbind option_bind].
  - intros [= -> <-] Hr. apply cyc_loop_err in E. lia.
  - intros [= <- <-] Hr. destruct (prefix_cyc_loop _ _ (len' - 1) _ _ _ _ _ _ E ltac:(lia)) as [A B].
    split; intros; [rewrite B by lia; by eexists|]. by rewrite A by lia.
  - done.
Qed.

Hint Resolve prefix_long_tnt prefix_pip prefix_cbr prefix_vmcs prefix_psb prefix_tma
  prefix_3byte prefix_mwait prefix_pwre prefix_pwrx prefix_bbp prefix_bip_4 prefix_bip_8
  prefix_bep prefix_bep_ip prefix_cfe prefix_evd prefix_tsc prefix_mtc prefix_bad
  prefix_ptwrite prefix_mode prefix_ip prefix_short_tnt prefix_cyc : prefix.

(** Every packet with an extended header has at least two bytes. *)
Lemma ext_ret len ret p :
  intel_pt_get_ext buf len q = Some (ret, p) -> 0 < ret -> 2 <= ret.
Proof.
  unfold intel_pt_get_ext. prefix_step; [ret_done|]. destruct (rd buf 1) as [b|]; cbn [mbind option_bind]; [|done].
  destruct (b .& 31 =? 18); [|destruct b as [|b|b]].
  1: unfold intel_pt_get_ptwrite; repeat prefix_step; ret_done.
  1,3: ret_done.
  destruct_Zmatch; try ret_done;
    unfold intel_pt_get_long_tnt, intel_pt_get_pip, intel_pt_get_cbr, intel_pt_get_vmcs,
      intel_pt_get_psb, intel_pt_get_tma, intel_pt_get_3byte, intel_pt_get_mnt,
      intel_pt_get_mwait, intel_pt_get_pwre, intel_pt_get_pwrx, intel_pt_get_bbp,
      intel_pt_get_bep, intel_pt_get_bep_ip, intel_pt_get_cfe, intel_pt_get_evd;
    change ((52 - 5) .>> 3) with 5; repeat prefix_step; ret_done.
Qed.

Lemma prefix_ext : prefix_free (fun len => intel_pt_get_ext buf len q).
Proof.
  intros len len' ret p ? ? E Hr. pose proof (ext_ret _ _ _ E Hr) as H2. revert E Hr.
  unfold intel_pt_get_ext.
  destruct (Z.ltb_spec len 2); [prefix_done|].
  destruct (Z.ltb_spec len' 2) as [Hl|Hl]; [split; [by eexists|lia]|].
  destruct (rd buf 1) as [b|]; cbn [mbind option_bind]; [|done].
  destruct (b .& 31 =? 18); [by apply prefix_ptwrite|].
  destruct b as [|b|b]; [prefix_done| |prefix_done].
  destruct_Zmatch; first [prefix_get len | prefix_done].
Qed.

Lemma prefix_no_bip h : prefix_free (fun len => do_get_packet_no_bip h buf len q).
Proof.
  intros len len' ret p ? ?. unfold do_get_packet_no_bip.
  destruct (h .& 1 =? 0); [destruct (h =? 0); [|destruct (h =? 2)]|destruct (negb _)].
  - prefix_done.
  - by apply prefix_ext.
  - by apply (prefix_short_tnt h len len').
  - by apply prefix_cyc.
  - destruct (h .& 31) as [|z|z]; [prefix_done| |prefix_done].
    destruct_Zmatch; first [prefix_get len | prefix_done].
Qed.
End prefix.

(** The packets of a buffer do not depend on how much of it there is. *)
Lemma do_get_packet_prefix buf ctx len len' ret p :
  0 <= len < 2 ^ 64 -> 0 <= len' < 2 ^ 64 ->
  intel_pt_do_get_packet buf len ctx = Some (ret, p) -> 0 < ret ->
  cut len' ret p (intel_pt_do_get_packet buf len' ctx).
Proof.
  intros ? ?. unfold intel_pt_do_get_packet.
  destruct (Z.eqb_spec len 0); [prefix_done|].
  destruct (Z.eqb_spec len' 0); [intros _ ?; apply cut_more; lia|].
  destruct (rd buf 0) as [b|]; cbn [mbind option_bind]; [|done].
  destruct ctx; [|destruct (_ =? 4)|destruct (_ =? 4)];
    first [apply prefix_no_bip | apply prefix_bip_4 | apply prefix_bip_8]; lia.
Qed.

(** ** What is read

    A function that succeeds reads the same of a longer buffer. *)
Definition extends (f : list byte -> pkt_res) : Prop :=
  forall buf x r, f buf = Some r -> f (buf ++ x) = Some r.

Lemma rd_extend buf x i b : rd buf i = Some b -> rd (buf ++ x) i = Some b.
Proof.
  unfold rd. destruct (i <? 0); [done|]. destruct (buf !! Z.to_nat i) as [c|] eqn:E; [|done].
  by rewrite (lookup_app_l_Some _ _ _ _ E).
Qed.

Lemma rd_le_extend buf x off n v : rd_le buf off n = Some v -> rd_le (buf ++ x) off n = Some v.
Proof.
  unfold rd_le. rewrite length_app. destruct (Z.ltb_spec off 0); [done|]. cbn [orb].
  destruct (Z.ltb_spec (Z.of_nat (length buf)) (off + Z.of_nat n)); [done|].
  destruct (Z.ltb_spec (Z.of_nat (length buf + length x)) (off + Z.of_nat n)); [lia|]. intros [= <-].
  rewrite drop_app_le by lia. rewrite take_app_le; [done|]. rewrite length_drop. lia.
Qed.

Lemma memcpy_le64_extend d buf x off n v : memcpy_le64 d buf off n = Some v -> memcpy_le64 d (buf ++ x) off n = Some v.
Proof.
  unfold memcpy_le64. destruct (rd_le buf off n) as [w|] eqn:E; [|done]. by rewrite (rd_le_extend _ _ _ _ _ E).
Qed.

Lemma psb_loop_extend n buf x : forall i b, psb_loop n buf i = Some b -> psb_loop n (buf ++ x) i = Some b.
Proof.
  induction n as [|n IH]; intros i b; [done|]. cbn [psb_loop].
  destruct (rd buf i) as [b0|] eqn:E0; [|done]. rewrite (rd_extend _ _ _ _ E0). cbn [mbind option_bind].
  destruct (rd buf (i + 1)) as [b1|] eqn:E1; [|done]. rewrite (rd_extend _ _ _ _ E1). cbn [mbind option_bind].
  destruct (_ || _); [done|]. apply IH.
Qed.

Lemma cyc_loop_extend n buf x len : forall offs shift b v r,
  cyc_loop n buf len offs shift b v = Some r -> cyc_loop n (buf ++ x) len offs shift b v = Some r.
Proof.
  induction n as [|n IH]; intros offs shift b v r; cbn [cyc_loop]; destruct (b .& 1 =? 0), (9 <? offs), (len <? offs); try done.
  destruct (rd buf offs) as [c|] eqn:E; [|done]. rewrite (rd_extend _ _ _ _ E). cbn [mbind option_bind]. apply IH.
Qed.

(** [extend] goes through the reads and the cases of a packet function. *)
Ltac extend_step x :=
  match goal with
  | |- context [rd ?buf ?i] =>
    lazymatch buf with _ ++ _ => fail | _ => idtac end;
    let E := fresh in destruct (rd buf i) eqn:E; [rewrite ?(rd_extend _ x _ _ E); clear E|done]
  | |- context [rd_le ?buf ?i ?n] =>
    lazymatch buf with _ ++ _ => fail | _ => idtac end;
    let E := fresh in destruct (rd_le buf i n) eqn:E; [rewrite ?(rd_le_extend _ x _ _ _ E); clear E|done]
  | |- context [memcpy_le64 ?d ?buf ?i ?n] =>
    lazymatch buf with _ ++ _ => fail | _ => idtac end;
    let E := fresh in destruct (memcpy_le64 d buf i n) eqn:E; [rewrite ?(memcpy_le64_extend _ _ x _ _ _ E); clear E|done]
  | |- context [psb_loop ?n ?buf ?i] =>
    lazymatch buf with _ ++ _ => fail | _ => idtac end;
    let E := fresh in destruct (psb_loop n buf i) eqn:E; [rewrite ?(psb_loop_extend _ _ x _ _ E); clear E|done]
  | |- context [cyc_loop ?n ?buf ?l ?o ?s ?b ?v] =>
    lazymatch buf with _ ++ _ => fail | _ => idtac end;
    let E := fresh in destruct (cyc_loop n buf l o s b v) eqn:E; [rewrite ?(cyc_loop_extend _ _ x _ _ _ _ _ _ E); clear E|done]
  | |- context [if ?c then _ else _] => destruct c; [done || idtac|]
  end; cbn [mbind option_bind].
Ltac extend f := intros buf x r; unfold f; cbv zeta; repeat (done || extend_step x).

Lemma extends_ip t h len q : extends (fun buf => intel_pt_get_ip t h buf len q).
Proof.
  intros buf x r. unfold intel_pt_get_ip. cbv zeta. set (q' := q <| pkt_count := h .>> 5 |>).
  destruct (pkt_count q') as [|z|z]; [done| |done]. destruct_Zmatch; repeat (done || extend_step x).
Qed.

Lemma extends_ext len q : extends (fun buf => intel_pt_get_ext buf len q).
Proof.
  intros buf x r. unfold intel_pt_get_ext. destruct (len <? 2); [done|]. extend_step x.
  destruct (_ .& _ =? _); [unfold intel_pt_get_ptwrite; cbv zeta; repeat (done || extend_step x)|].
  destruct z as [|z|z]; [done| |done].
  destruct_Zmatch; try done; unfold intel_pt_get_long_tnt, intel_pt_get_pip, intel_pt_get_cbr, intel_pt_get_vmcs, intel_pt_get_psb,
    intel_pt_get_tma, intel_pt_get_3byte, intel_pt_get_mnt, intel_pt_get_mwait, intel_pt_get_pwre, intel_pt_get_pwrx, intel_pt_get_bbp,
    intel_pt_get_cfe, intel_pt_get_evd; cbv zeta; repeat (done || extend_step x).
Qed.

Lemma extends_no_bip h len q : extends (fun buf => do_get_packet_no_bip h buf len q).
Proof.
  intros buf x r. unfold do_get_packet_no_bip. destruct (h .& 1 =? 0); [destruct (h =? 0); [done|]; destruct (h =? 2); [apply extends_ext|done]|].
  destruct (negb _); [unfold intel_pt_get_cyc; cbv zeta; by extend_step x|].
  destruct (h .& 31) as [|z|z]; [done| |done].
  destruct_Zmatch; first [apply extends_ip | done | idtac];
    unfold intel_pt_get_mode, intel_pt_get_tsc, intel_pt_get_mtc; cbv zeta; repeat (done || extend_step x).
Qed.

Lemma do_get_packet_extends len ctx : extends (fun buf => intel_pt_do_get_packet buf len ctx).
Proof.
  intros buf x r. unfold intel_pt_do_get_packet. cbv zeta. destruct (len =? 0); [done|]. extend_step x.
  destruct ctx; [|destruct (_ =? 4)|destruct (_ =? 4)]; try apply extends_no_bip;
    unfold intel_pt_get_bip_4, intel_pt_get_bip_8; repeat (done || extend_step x).
Qed.

(** The bytes past the length given do not matter. *)
Lemma do_get_packet_local buf buf' len ctx :
  0 <= len < 2 ^ 64 -> len <= Z.of_nat (length buf) -> take (Z.to_nat len) buf = take (Z.to_nat len) buf' ->
  intel_pt_do_get_packet buf' len ctx = intel_pt_do_get_packet buf len ctx.
Proof.
  intros Hl Hb E. pose proof (do_get_packet_ok (take (Z.to_nat len) buf) len) as Hok.
  rewrite length_take in Hok. specialize (Hok ltac:(lia) ctx ltac:(lia)).
  destruct (intel_pt_do_get_packet (take (Z.to_nat len) buf) len ctx) as [r|] eqn:Er; [|done].
  transitivity (Some r); [|symmetry].
  - rewrite <- (take_drop (Z.to_nat len) buf'). apply (do_get_packet_extends len ctx). by rewrite <- E.
  - rewrite <- (take_drop (Z.to_nat len) buf). by apply (do_get_packet_extends len ctx).
Qed.

Lemma take_agree n buf buf' : n <= Z.of_nat (length buf) -> n <= Z.of_nat (length buf') ->
  (forall k, 0 <= k < n -> rd buf k = rd buf' k) -> take (Z.to_nat n) buf = take (Z.to_nat n) buf'.
Proof.
  intros Hb Hb' Hk. apply list_eq. intros i. destruct (Nat.lt_ge_cases i (Z.to_nat n)) as [Hi|Hi].
  - rewrite !lookup_take_lt by done. specialize (Hk (Z.of_nat i) ltac:(lia)). unfold rd in Hk.
    destruct (Z.ltb_spec (Z.of_nat i) 0); [lia|]. rewrite Nat2Z.id in Hk.
    destruct (lookup_lt_is_Some_2 buf i) as [b Eb]; [lia|]. destruct (lookup_lt_is_Some_2 buf' i) as [b' Eb']; [lia|].
    rewrite Eb, Eb' in *. injection Hk as Hk. f_equal. by apply bz_inj.
  - assert (forall c : list Byte.byte, take (Z.to_nat n) c !! i = None) as Hn
      by (intros; apply lookup_ge_None; rewrite length_take; lia).
    by rewrite !Hn.
Qed.

(** A packet decides the outcome for any buffer that begins with its bytes, or with
    those of them there are. *)
Lemma do_get_packet_prefix_code buf len buf' len' ctx ret p :
  0 <= len < 2 ^ 64 -> 0 <= len' < 2 ^ 64 -> len <= Z.of_nat (length buf) -> len' <= Z.of_nat (length buf') ->
  (forall k, 0 <= k < ret -> k < len' -> rd buf k = rd buf' k) ->
  intel_pt_do_get_packet buf len ctx = Some (ret, p) -> 0 < ret ->
  cut len' ret p (intel_pt_do_get_packet buf' len' ctx).
Proof.
  intros Hl Hl' Hb Hb' Hk E Hr. pose proof (do_get_packet_ok buf len ltac:(lia) ctx ltac:(lia)) as Hok.
  rewrite E in Hok. cbn [pkt_ok] in Hok. unfold INTEL_PT_NEED_MORE_BYTES, INTEL_PT_BAD_PACKET in Hok.
  assert (ret <= len) as Hle by lia. clear Hok.
  destruct (Z.lt_ge_cases len' ret) as [Hlt|Hge].
  - rewrite (do_get_packet_local buf buf') by (try lia; (apply take_agree; [lia..|intros k ?; apply Hk; lia])).
    by apply (do_get_packet_prefix buf ctx len).
  - apply (do_get_packet_prefix buf' ctx ret); [lia..| |done].
    rewrite (do_get_packet_local buf buf') by (try lia; (apply take_agree; [lia..|intros k ?; apply Hk; lia])).
    apply (do_get_packet_prefix buf ctx len ret ret p); (done || lia).
Qed.
