(* ===== verification/PtStack.v ===== *)
(** The return-address stack of the decoder (intel_pt_stack in
    tools/perf/util/intel-pt-decoder/intel-pt-decoder.c): a chain of 1024-entry
    blocks, refined here to a plain last-in first-out list. *)
From Stdlib Require Import ZArith Lia List Bool.
From S2P Require Import Prelude.
Open Scope Z_scope.
Open Scope c_scope.

Definition INTEL_PT_BLK_SIZE : Z := 1024.

(** [blk] is the chain that starts at the current block and follows [prev]; the
    empty chain is the null pointer. *)
Record intel_pt_stack := mkStack {
  blk : list (list Z);
  spare : option (list Z);
  stack_pos : Z
}.

#[export] Instance eta_stack : Eta intel_pt_stack :=
  fun s => mkStack (blk s) (spare s) (stack_pos s).
#[export] Instance set_blk : Setter blk := ltac:(solve_setter).
#[export] Instance set_spare : Setter spare := ltac:(solve_setter).
#[export] Instance set_stack_pos : Setter stack_pos := ltac:(solve_setter).

Definition empty_stack : intel_pt_stack := mkStack [] None 0.

(** A block as [malloc] returns it; its contents are never read before they
    are written ([stack_pop_refines] below). *)
Definition fresh_blk : list Z := replicate (Z.to_nat INTEL_PT_BLK_SIZE) 0.

(** [None] in this file is a null dereference or an index outside a block. *)
Definition intel_pt_pop_blk (stack : intel_pt_stack) : option intel_pt_stack :=
  match blk stack with
  | [] => None
  | b :: prev =>
    let stack := stack <| blk := prev |> in
    match spare stack with
    | None => Some (stack <| spare := Some b |>)
    | Some _ => Some stack
    end
  end.

(** [stack->blk->ip[--stack->pos]] *)
Definition read_top (stack : intel_pt_stack) : option (Z * intel_pt_stack) :=
  let stack := stack <| stack_pos := stack_pos stack - 1 |> in
  match blk stack with
  | [] => None
  | b :: _ =>
    if stack_pos stack <? 0 then None
    else ip ← b !! Z.to_nat (stack_pos stack); Some (ip, stack)
  end.

Definition intel_pt_pop (stack : intel_pt_stack) : option (Z * intel_pt_stack) :=
  if stack_pos stack =? 0 then
    match blk stack with
    | [] => Some (0, stack)
    | _ :: _ =>
      stack ← intel_pt_pop_blk stack;
      match blk stack with
      | [] => Some (0, stack)
      | _ :: _ => read_top (stack <| stack_pos := INTEL_PT_BLK_SIZE |>)
      end
    end
  else read_top stack.

(** [malloc_ok] is the outcome of the allocation, when one is made. *)
Definition intel_pt_alloc_blk (malloc_ok : bool) (stack : intel_pt_stack)
    : Z * intel_pt_stack :=
  match spare stack with
  | Some b => (0, stack <| spare := None |> <| blk := b :: blk stack |> <| stack_pos := 0 |>)
  | None =>
    if malloc_ok then (0, stack <| blk := fresh_blk :: blk stack |> <| stack_pos := 0 |>)
    else (- ENOMEM, stack)
  end.

(** [stack->blk->ip[stack->pos++] = ip] *)
Definition write_top (stack : intel_pt_stack) (ip : Z) : option intel_pt_stack :=
  match blk stack with
  | [] => None
  | b :: prev =>
    if (stack_pos stack <? 0) || (Z.of_nat (length b) <=? stack_pos stack) then None
    else Some (stack <| blk := <[Z.to_nat (stack_pos stack) := ip]> b :: prev |>
                     <| stack_pos := stack_pos stack + 1 |>)
  end.

Definition intel_pt_push (malloc_ok : bool) (stack : intel_pt_stack) (ip : Z)
    : option (Z * intel_pt_stack) :=
  let full := match blk stack with [] => true | _ => stack_pos stack =? INTEL_PT_BLK_SIZE end in
  let '(err, stack) := if full then intel_pt_alloc_blk malloc_ok stack else (0, stack) in
  if negb (err =? 0) then Some (err, stack)
  else stack ← write_top stack ip; Some (0, stack).

(** [while (stack->blk) intel_pt_pop_blk(stack)]; the chain's length is fuel
    enough. *)
Fixpoint clear_loop (fuel : nat) (stack : intel_pt_stack) : option intel_pt_stack :=
  match blk stack with
  | [] => Some stack
  | _ :: _ =>
    match fuel with
    | O => None
    | S fuel' => stack ← intel_pt_pop_blk stack; clear_loop fuel' stack
    end
  end.

Definition intel_pt_clear_stack (stack : intel_pt_stack) : option intel_pt_stack :=
  stack ← clear_loop (length (blk stack)) stack;
  Some (stack <| stack_pos := 0 |>).

Definition intel_pt_free_stack (stack : intel_pt_stack) : option intel_pt_stack :=
  stack ← intel_pt_clear_stack stack;
  Some (stack <| blk := [] |> <| spare := None |>).

(** ** Abstraction: a list of addresses, most recent first *)

Definition stack_abs (s : intel_pt_stack) : list Z :=
  match blk s with
  | [] => []
  | b :: prev => rev (take (Z.to_nat (stack_pos s)) b) ++ concat (map (@rev Z) prev)
  end.

Definition blk_ok (b : list Z) : Prop := length b = Z.to_nat INTEL_PT_BLK_SIZE.

Record stack_wf (s : intel_pt_stack) : Prop := {
  swf_blk : Forall blk_ok (blk s);
  swf_spare : match spare s with Some b => blk_ok b | None => True end;
  swf_pos : 0 <= stack_pos s <= INTEL_PT_BLK_SIZE;
  swf_null : blk s = [] -> stack_pos s = 0
}.

Lemma empty_stack_wf : stack_wf empty_stack.
Proof. split; simpl; unfold INTEL_PT_BLK_SIZE; (done || lia). Qed.

Lemma fresh_blk_ok : blk_ok fresh_blk.
Proof. unfold blk_ok, fresh_blk. by rewrite length_replicate. Qed.

Lemma read_top_refines s b prev :
  blk s = b :: prev -> Forall blk_ok (blk s) -> 0 < stack_pos s <= INTEL_PT_BLK_SIZE ->
  exists ip, read_top s = Some (ip, s <| stack_pos := stack_pos s - 1 |>) /\
    rev (take (Z.to_nat (stack_pos s)) b) = ip :: rev (take (Z.to_nat (stack_pos s - 1)) b).
Proof.
  intros Hb Hall Hp. unfold read_top. rsimpl. rewrite Hb in *.
  destruct (Z.ltb_spec (stack_pos s - 1) 0); [lia|].
  inversion Hall as [|? ? Hlen _]; subst. unfold blk_ok in Hlen.
  destruct (lookup_lt_is_Some_2 b (Z.to_nat (stack_pos s - 1))) as [ip Hip];
    [unfold INTEL_PT_BLK_SIZE in *; lia|].
  rewrite Hip. exists ip. split; [done|].
  replace (Z.to_nat (stack_pos s)) with (S (Z.to_nat (stack_pos s - 1))) by lia.
  by rewrite (take_S_r _ _ ip), rev_app_distr.
Qed.

(** Popping returns the most recent address, or 0 on an empty stack. *)
Lemma stack_pop_refines s :
  stack_wf s ->
  exists s', intel_pt_pop s = Some (hd 0 (stack_abs s), s') /\
    stack_abs s' = tl (stack_abs s) /\ stack_wf s'.
Proof.
  intros [Hblk Hsp Hpos Hnull]. unfold intel_pt_pop.
  destruct (Z.eqb_spec (stack_pos s) 0) as [E|E].
  - destruct (blk s) as [|b prev] eqn:Eb.
    { exists s. unfold stack_abs. rewrite Eb. split; [done|]. split; [done|].
      split; rewrite ?Eb; done. }
    inversion Hblk as [|? ? Hb Hprev]; subst.
    set (s1 := match spare s with
               | None => s <| blk := prev |> <| spare := Some b |>
               | Some _ => s <| blk := prev |> end).
    assert (intel_pt_pop_blk s = Some s1) as ->.
    { unfold intel_pt_pop_blk, s1. rewrite Eb. rsimpl. by destruct (spare s). }
    cbn [mbind option_bind].
    assert (blk s1 = prev) as Eb1 by (unfold s1; destruct (spare s); done).
    assert (stack_pos s1 = 0) as Ep1 by (unfold s1; destruct (spare s); rsimpl; done).
    assert (match spare s1 with Some b => blk_ok b | None => True end) as Hsp1
      by (unfold s1; destruct (spare s) eqn:Es; rsimpl; rewrite ?Es; done).
    unfold stack_abs at 1 3. rewrite Eb, E. cbn [Z.to_nat take rev app]. rewrite take_0.
    cbn [rev app].
    destruct prev as [|b2 prev2].
    + rewrite Eb1. exists s1. unfold stack_abs. rewrite Eb1. split; [done|]. split; [done|].
      split; rewrite ?Eb1, ?Ep1; unfold INTEL_PT_BLK_SIZE; (done || lia).
    + rewrite Eb1.
      destruct (read_top_refines (s1 <| stack_pos := INTEL_PT_BLK_SIZE |>) b2 prev2)
        as (ip & -> & Hrev).
      { rsimpl. done. }
      { rsimpl. by rewrite Eb1. }
      { rsimpl. unfold INTEL_PT_BLK_SIZE. lia. }
      rsimpl. revert Hrev. rsimpl. intros Hrev.
      inversion Hprev as [|? ? Hb2 Hprev2]; subst.
      rewrite take_ge in Hrev by (unfold blk_ok in Hb2; lia).
      cbn [map concat]. rewrite Hrev. cbn [app hd tl].
      eexists. split; [reflexivity|]. split.
      * unfold stack_abs. rsimpl. by rewrite Eb1.
      * split; rsimpl; rewrite ?Eb1; try done; unfold INTEL_PT_BLK_SIZE; lia.
  - destruct (blk s) as [|b prev] eqn:Eb; [by rewrite Hnull in E|].
    destruct (read_top_refines s b prev) as (ip & -> & Hrev);
      [done|by rewrite Eb|lia|].
    eexists. unfold stack_abs at 1 3. rewrite Eb, Hrev. split; [done|]. split.
    + unfold stack_abs. rsimpl. by rewrite Eb.
    + split; rsimpl; rewrite ?Eb; try done; lia.
Qed.

(** Pushing adds an address on top; it fails only when a block is needed and
    the allocation fails, and then changes nothing. *)
Lemma stack_push_refines ok s ip :
  stack_wf s ->
  exists err s', intel_pt_push ok s ip = Some (err, s') /\ stack_wf s' /\
    ((err = 0 /\ stack_abs s' = ip :: stack_abs s) \/
     (err = - ENOMEM /\ ok = false /\ s' = s)).
Proof.
  intros [Hblk Hsp Hpos Hnull]. unfold intel_pt_push.
  assert (forall s1 b prev, blk s1 = b :: prev -> Forall blk_ok (blk s1) ->
    match spare s1 with Some b => blk_ok b | None => True end ->
    0 <= stack_pos s1 < INTEL_PT_BLK_SIZE ->
    exists s', write_top s1 ip = Some s' /\ stack_wf s' /\ stack_abs s' = ip :: stack_abs s1) as W.
  { intros s1 b prev Eb Hall Hs1 Hp. unfold write_top. rewrite Eb in *.
    inversion Hall as [|? ? Hb Hprev]; subst. unfold blk_ok, INTEL_PT_BLK_SIZE in *.
    destruct (Z.ltb_spec (stack_pos s1) 0); [lia|].
    destruct (Z.leb_spec (Z.of_nat (length b)) (stack_pos s1)); [lia|]. cbn [orb].
    eexists. split; [reflexivity|]. split.
    - split; rsimpl; try done.
      + constructor; [|done]. unfold blk_ok. by rewrite length_insert.
      + unfold INTEL_PT_BLK_SIZE. lia.
    - unfold stack_abs. rsimpl. rewrite Eb.
      replace (Z.to_nat (stack_pos s1 + 1)) with (S (Z.to_nat (stack_pos s1))) by lia.
      rewrite (take_S_r _ _ ip) by (apply list_lookup_insert_eq; lia).
      rewrite take_insert_ge by lia. by rewrite rev_app_distr. }
  destruct (match blk s with [] => true | _ => stack_pos s =? INTEL_PT_BLK_SIZE end) eqn:Efull.
  - unfold intel_pt_alloc_blk.
    assert (forall b, rev (take (Z.to_nat 0) b) ++ concat (map (@rev Z) (blk s)) = stack_abs s) as A.
    { intros b. unfold stack_abs. destruct (blk s) as [|b1 prev]; [by rewrite app_nil_r|].
      apply Z.eqb_eq in Efull. inversion Hblk as [|? ? Hb _]; subst. unfold blk_ok in Hb.
      rewrite Efull, (take_ge b1) by lia. done. }
    destruct (spare s) as [b|] eqn:Es; [|destruct ok].
    + destruct (W (s <| spare := None |> <| blk := b :: blk s |> <| stack_pos := 0 |>) b (blk s))
        as (s' & -> & Hwf & Habs);
        [done|rsimpl; by constructor|by rsimpl|rsimpl; unfold INTEL_PT_BLK_SIZE; lia|].
      cbn [Z.eqb negb mbind option_bind]. exists 0, s'. split; [done|]. split; [done|].
      left. split; [done|]. rewrite Habs. f_equal. unfold stack_abs at 1. rsimpl. apply A.
    + destruct (W (s <| blk := fresh_blk :: blk s |> <| stack_pos := 0 |>) fresh_blk (blk s))
        as (s' & -> & Hwf & Habs);
        [done|rsimpl; constructor; [apply fresh_blk_ok|done]|rsimpl; by rewrite Es
        |rsimpl; unfold INTEL_PT_BLK_SIZE; lia|].
      cbn [Z.eqb negb mbind option_bind]. exists 0, s'. split; [done|]. split; [done|].
      left. split; [done|]. rewrite Habs. f_equal. unfold stack_abs at 1. rsimpl. apply A.
    + exists (- ENOMEM), s. split; [done|]. split; [by split; rewrite ?Es|]. by right.
  - destruct (blk s) as [|b prev] eqn:Eb; [done|]. apply Z.eqb_neq in Efull.
    destruct (W s b prev) as (s' & -> & Hwf & Habs); [done|by rewrite Eb|done|lia|].
    cbn [Z.eqb negb mbind option_bind]. exists 0, s'. split; [done|]. split; [done|].
    by left.
Qed.

Lemma clear_loop_refines fuel s :
  (length (blk s) <= fuel)%nat -> Forall blk_ok (blk s) ->
  match spare s with Some b => blk_ok b | None => True end ->
  exists s', clear_loop fuel s = Some s' /\ blk s' = [] /\
    match spare s' with Some b => blk_ok b | None => True end.
Proof.
  revert s. induction fuel as [|fuel IH]; intros s Hl Hall Hsp; cbn [clear_loop];
    destruct (blk s) as [|b prev] eqn:Eb; try (by exists s); cbn [length] in Hl; [lia|].
  inversion Hall as [|? ? Hb Hprev]; subst.
  unfold intel_pt_pop_blk. rewrite Eb. rsimpl.
  destruct (spare s) eqn:Es; cbn [mbind option_bind];
    (apply IH; rsimpl; rewrite ?Es; [lia|done|done]).
Qed.

(** Clearing always succeeds and empties the stack. *)
Lemma stack_clear_refines s :
  stack_wf s ->
  exists s', intel_pt_clear_stack s = Some s' /\ stack_abs s' = [] /\ stack_wf s'.
Proof.
  intros [Hblk Hsp Hpos Hnull]. unfold intel_pt_clear_stack.
  destruct (clear_loop_refines (length (blk s)) s) as (s' & -> & Eb & Hs'); [lia|done..|].
  cbn [mbind option_bind]. eexists. split; [reflexivity|]. unfold stack_abs. rsimpl.
  rewrite Eb. split; [done|]. split; rsimpl; rewrite ?Eb; done.
Qed.

(** ** The whole stack as a machine

    Any sequence of calls, with any allocation outcomes, returns what a plain
    list would, and no call touches memory it should not. *)
Inductive stack_op := OpPush (malloc_ok : bool) (ip : Z) | OpPop | OpClear.

(** Results observed by the caller: the error of a push, the address of a pop. *)
Definition run_op (o : stack_op) (s : intel_pt_stack) : option (Z * intel_pt_stack) :=
  match o with
  | OpPush ok ip => intel_pt_push ok s ip
  | OpPop => intel_pt_pop s
  | OpClear => s ← intel_pt_clear_stack s; Some (0, s)
  end.

(** The list machine: a push may be refused, everything else is exact. *)
Inductive list_op : stack_op -> list Z -> Z -> list Z -> Prop :=
| list_push ok ip l : list_op (OpPush ok ip) l 0 (ip :: l)
| list_push_nomem ip l : list_op (OpPush false ip) l (- ENOMEM) l
| list_pop l : list_op OpPop l (hd 0 l) (tl l)
| list_clear l : list_op OpClear l 0 [].

Fixpoint run_ops (os : list stack_op) (s : intel_pt_stack) : option (list Z * intel_pt_stack) :=
  match os with
  | [] => Some ([], s)
  | o :: os' =>
    '(r, s) ← run_op o s;
    '(rs, s) ← run_ops os' s;
    Some (r :: rs, s)
  end.

Inductive list_ops : list stack_op -> list Z -> list Z -> list Z -> Prop :=
| list_ops_nil l : list_ops [] l [] l
| list_ops_cons o os l r l1 rs l2 :
    list_op o l r l1 -> list_ops os l1 rs l2 -> list_ops (o :: os) l (r :: rs) l2.

Lemma run_op_refines o s :
  stack_wf s ->
  exists r s', run_op o s = Some (r, s') /\ stack_wf s' /\ list_op o (stack_abs s) r (stack_abs s').
Proof.
  intros Hwf. destruct o as [ok ip| |]; cbn [run_op].
  - destruct (stack_push_refines ok s ip Hwf) as (err & s' & -> & Hwf' & [[-> Ha]|(-> & -> & ->)]).
    + exists 0, s'. rewrite Ha. eauto using list_op.
    + exists (- ENOMEM), s. eauto using list_op.
  - destruct (stack_pop_refines s Hwf) as (s' & -> & Ha & Hwf').
    exists (hd 0 (stack_abs s)), s'. rewrite Ha. eauto using list_op.
  - destruct (stack_clear_refines s Hwf) as (s' & -> & Ha & Hwf').
    exists 0, s'. rewrite Ha. eauto using list_op.
Qed.

Lemma run_ops_refines os s :
  stack_wf s ->
  exists rs s', run_ops os s = Some (rs, s') /\ stack_wf s' /\
    list_ops os (stack_abs s) rs (stack_abs s').
Proof.
  revert s. induction os as [|o os IH]; intros s Hwf; cbn [run_ops].
  - exists [], s. eauto using list_ops.
  - destruct (run_op_refines o s Hwf) as (r & s1 & -> & Hwf1 & Hop). cbn [mbind option_bind].
    destruct (IH s1 Hwf1) as (rs & s2 & -> & Hwf2 & Hops). cbn [mbind option_bind].
    exists (r :: rs), s2. eauto using list_ops.
Qed.
