(* ===== verification/Float64.v ===== *)
(** IEEE-754 binary64 as the decoder uses it: the C [double] operations over
    [spec_float], with round-to-nearest-even. *)
From Stdlib Require Import ZArith Lia Bool.
From Stdlib Require Export Floats.SpecFloat.
From S2P Require Import Prelude.
Open Scope Z_scope.

Definition f64_prec : Z := 53.
Definition f64_emax : Z := 1024.

Definition f64_zero : spec_float := S754_zero false.
Definition f64_add : spec_float -> spec_float -> spec_float := SFadd f64_prec f64_emax.
Definition f64_mul : spec_float -> spec_float -> spec_float := SFmul f64_prec f64_emax.
Definition f64_div : spec_float -> spec_float -> spec_float := SFdiv f64_prec f64_emax.

(** Conversion of an unsigned integer to [double]. *)
Definition f64_of_Z (z : Z) : spec_float := binary_normalize f64_prec f64_emax z 0 false.

(** [a > b]; false when either is a NaN. *)
Definition f64_gt (a b : spec_float) : bool := SFltb b a.

(** 1.25, exactly representable. *)
Definition f64_1_25 : spec_float := f64_div (f64_of_Z 5) (f64_of_Z 4).

(** Truncation to an integer, [None] for NaN and infinities. *)
Definition f64_trunc (x : spec_float) : option Z :=
  match x with
  | S754_zero _ => Some 0
  | S754_finite s m e =>
    let a := if 0 <=? e then Z.pos m * 2 ^ e else Z.pos m / 2 ^ (- e) in
    Some (if s then - a else a)
  | _ => None
  end.

(** The build and host dependent part of the model: the width of [long], and
    what the hardware yields for a [double] outside the range of [uint64_t] and
    for a 64-bit shift by 64 or more, both of which C leaves undefined. *)
Class Platform := {
  bits_per_long : Z;
  f64_to_u64_oob : spec_float -> Z;
  shift_oob : Z -> Z -> Z
}.

(** [a << n] and [a >> n] on [uint64_t]. *)
Definition shl64 `{Platform} (a n : Z) : Z :=
  if (0 <=? n) && (n <? 64) then wrap 64 (Z.shiftl a n) else wrap 64 (shift_oob a n).
Definition shr64 `{Platform} (a n : Z) : Z :=
  if (0 <=? n) && (n <? 64) then Z.shiftr a n else wrap 64 (shift_oob a n).

(** Conversion of a [double] to [uint64_t]. *)
Definition f64_to_u64 `{Platform} (x : spec_float) : Z :=
  match f64_trunc x with
  | Some z => if (0 <=? z) && (z <? 2 ^ 64) then z else wrap 64 (f64_to_u64_oob x)
  | None => wrap 64 (f64_to_u64_oob x)
  end.

Lemma f64_to_u64_range `{Platform} x : 0 <= f64_to_u64 x < 2 ^ 64.
Proof.
  unfold f64_to_u64. destruct (f64_trunc x) as [z|]; [|apply u64_range].
  destruct (Z.leb_spec 0 z), (Z.ltb_spec z (2 ^ 64)); simpl; try lia; apply u64_range.
Qed.
