(* ===== verification/PtState.v ===== *)
(** State of the Intel PT decoder: the structures of intel-pt-decoder.h,
    intel-pt-insn-decoder.h and [struct intel_pt_decoder] of
    intel-pt-decoder.c. *)
From Stdlib Require Import ZArith Lia List Bool.
From S2P Require Import Prelude Float64 PktDecoder PtStack.
Open Scope Z_scope.
Open Scope c_scope.

(** ** Constants *)


Definition INTEL_PT_IN_TX : Z := 1.
Definition INTEL_PT_ABORT_TX : Z := 2.
Definition INTEL_PT_IFLAG : Z := 4.
Definition INTEL_PT_ASYNC : Z := 4.
Definition INTEL_PT_FUP_IP : Z := 8.
Definition INTEL_PT_SAMPLE_IPC : Z := 16.

(** [enum intel_pt_sample_type]: a set of bits, so an integer here. *)
Definition INTEL_PT_BRANCH : Z := 1 .<< 0.
Definition INTEL_PT_INSTRUCTION : Z := 1 .<< 1.
Definition INTEL_PT_TRANSACTION : Z := 1 .<< 2.
Definition INTEL_PT_PTW : Z := 1 .<< 3.
Definition INTEL_PT_MWAIT_OP : Z := 1 .<< 4.
Definition INTEL_PT_PWR_ENTRY : Z := 1 .<< 5.
Definition INTEL_PT_EX_STOP : Z := 1 .<< 6.
Definition INTEL_PT_PWR_EXIT : Z := 1 .<< 7.
Definition INTEL_PT_CBR_CHG : Z := 1 .<< 8.
Definition INTEL_PT_TRACE_BEGIN : Z := 1 .<< 9.
Definition INTEL_PT_TRACE_END : Z := 1 .<< 10.
Definition INTEL_PT_BLK_ITEMS : Z := 1 .<< 11.
Definition INTEL_PT_PSB_EVT : Z := 1 .<< 12.
Definition INTEL_PT_EVT : Z := 1 .<< 13.
Definition INTEL_PT_IFLAG_CHG : Z := 1 .<< 14.

Definition INTEL_PT_ERR_NOMEM : Z := 1.
Definition INTEL_PT_ERR_INTERN : Z := 2.
Definition INTEL_PT_ERR_BADPKT : Z := 3.
Definition INTEL_PT_ERR_NODATA : Z := 4.
Definition INTEL_PT_ERR_NOINSN : Z := 5.
Definition INTEL_PT_ERR_MISMAT : Z := 6.
Definition INTEL_PT_ERR_OVR : Z := 7.
Definition INTEL_PT_ERR_LOST : Z := 8.
Definition INTEL_PT_ERR_UNK : Z := 9.
Definition INTEL_PT_ERR_NELOOP : Z := 10.
Definition INTEL_PT_ERR_EPTW : Z := 11.
Definition INTEL_PT_ERR_MAX : Z := 12.

Definition INTEL_PT_FUP_WITH_NLIP : Z := 1.
Definition INTEL_PT_RETURN : Z := 1.
Definition INTEL_PT_MAX_LOOPS : Z := 100000.
Definition INTEL_PT_MAX_EVDS : Z := 64.
Definition INTEL_PT_BLK_ITEM_ID_CNT : Z := 32.
Definition INTEL_PT_BLK_TYPE_CNT : Z := 7.
Definition INTEL_PT_CYC_ENABLE : Z := 1 .<< 1.
Definition INTEL_PT_CYC_THRESHOLD : Z :=
  (1 .<< 22) .| (1 .<< 21) .| (1 .<< 20) .| (1 .<< 19).
Definition INTEL_PT_CYC_THRESHOLD_SHIFT : Z := 19.
Definition SEVEN_BYTES : Z := 0xffffffffffffff.
Definition NO_VMCS : Z := 0xffffffffff.

(** ** Enumerations *)

Inductive intel_pt_period_type :=
| INTEL_PT_PERIOD_NONE | INTEL_PT_PERIOD_INSTRUCTIONS | INTEL_PT_PERIOD_TICKS
| INTEL_PT_PERIOD_MTC.

#[export] Instance intel_pt_period_type_eq_dec : EqDecision intel_pt_period_type.
Proof. solve_decision. Defined.

Inductive intel_pt_pkt_state :=
| INTEL_PT_STATE_NO_PSB
| INTEL_PT_STATE_NO_IP
| INTEL_PT_STATE_ERR_RESYNC
| INTEL_PT_STATE_IN_SYNC
| INTEL_PT_STATE_TNT_CONT
| INTEL_PT_STATE_TNT
| INTEL_PT_STATE_TIP
| INTEL_PT_STATE_TIP_PGD
| INTEL_PT_STATE_FUP
| INTEL_PT_STATE_FUP_NO_TIP
| INTEL_PT_STATE_FUP_IN_PSB
| INTEL_PT_STATE_RESAMPLE
| INTEL_PT_STATE_VM_TIME_CORRELATION.

#[export] Instance intel_pt_pkt_state_eq_dec : EqDecision intel_pt_pkt_state.
Proof. solve_decision. Defined.

Inductive intel_pt_insn_op :=
| INTEL_PT_OP_OTHER | INTEL_PT_OP_CALL | INTEL_PT_OP_RET | INTEL_PT_OP_JCC | INTEL_PT_OP_JMP
| INTEL_PT_OP_LOOP | INTEL_PT_OP_IRET | INTEL_PT_OP_INT | INTEL_PT_OP_SYSCALL
| INTEL_PT_OP_SYSRET | INTEL_PT_OP_VMENTRY.

#[export] Instance intel_pt_insn_op_eq_dec : EqDecision intel_pt_insn_op.
Proof. solve_decision. Defined.

Inductive intel_pt_insn_branch :=
| INTEL_PT_BR_NO_BRANCH | INTEL_PT_BR_INDIRECT | INTEL_PT_BR_CONDITIONAL
| INTEL_PT_BR_UNCONDITIONAL.

#[export] Instance intel_pt_insn_branch_eq_dec : EqDecision intel_pt_insn_branch.
Proof. solve_decision. Defined.

Inductive intel_pt_p_once := INTEL_PT_PRT_ONCE_UNK_VMCS | INTEL_PT_PRT_ONCE_ERANGE.

(** ** Structures *)

Record intel_pt_insn := mkInsn {
  insn_op : intel_pt_insn_op;
  insn_branch : intel_pt_insn_branch;
  insn_emulated_ptwrite : bool;
  insn_length : Z;
  insn_rel : Z;
  insn_buf : list byte
}.

Record intel_pt_blk_items := mkItems {
  bi_mask : list Z;
  bi_val : list (list Z);
  bi_is_32_bit : bool
}.

#[export] Instance eta_items : Eta intel_pt_blk_items :=
  fun i => mkItems (bi_mask i) (bi_val i) (bi_is_32_bit i).
#[export] Instance set_bi_mask : Setter bi_mask := ltac:(solve_setter).
#[export] Instance set_bi_val : Setter bi_val := ltac:(solve_setter).
#[export] Instance set_bi_is_32_bit : Setter bi_is_32_bit := ltac:(solve_setter).

Definition zero_items : intel_pt_blk_items :=
  mkItems (replicate (Z.to_nat INTEL_PT_BLK_TYPE_CNT) 0)
    (replicate (Z.to_nat INTEL_PT_BLK_TYPE_CNT)
      (replicate (Z.to_nat INTEL_PT_BLK_ITEM_ID_CNT) 0)) false.

Record intel_pt_evd_item := mkEvd { evd_type : Z; evd_payload : Z }.

Record intel_pt_vmcs_info := mkVmcsInfo {
  vi_vmcs : Z;
  vi_tsc_offset : Z;
  vi_reliable : bool;
  vi_error_printed : bool
}.

#[export] Instance eta_vmcs_info : Eta intel_pt_vmcs_info :=
  fun v => mkVmcsInfo (vi_vmcs v) (vi_tsc_offset v) (vi_reliable v) (vi_error_printed v).
#[export] Instance set_vi_vmcs : Setter vi_vmcs := ltac:(solve_setter).
#[export] Instance set_vi_tsc_offset : Setter vi_tsc_offset := ltac:(solve_setter).
#[export] Instance set_vi_reliable : Setter vi_reliable := ltac:(solve_setter).
#[export] Instance set_vi_error_printed : Setter vi_error_printed := ltac:(solve_setter).

Record intel_pt_buffer := mkBuffer {
  b_buf : list byte;
  b_len : Z;
  b_consecutive : bool;
  b_ref_timestamp : Z;
  b_trace_nr : Z
}.

(** [state.evd] only ever points at the decoder's own array: [st_evd_set] says
    whether it has been set. *)
Record intel_pt_state := mkState {
  st_type : Z;
  st_from_nr : bool;
  st_to_nr : bool;
  st_from_iflag : bool;
  st_to_iflag : bool;
  st_err : Z;
  st_from_ip : Z;
  st_to_ip : Z;
  st_tot_insn_cnt : Z;
  st_tot_cyc_cnt : Z;
  st_cycles : Z;
  st_timestamp : Z;
  st_est_timestamp : Z;
  st_trace_nr : Z;
  st_ptw_payload : Z;
  st_mwait_payload : Z;
  st_pwre_payload : Z;
  st_pwrx_payload : Z;
  st_cbr_payload : Z;
  st_psb_offset : Z;
  st_cbr : Z;
  st_flags : Z;
  st_insn_op : intel_pt_insn_op;
  st_insn_len : Z;
  st_insn : list byte;
  st_items : intel_pt_blk_items;
  st_cfe_type : Z;
  st_cfe_vector : Z;
  st_evd_cnt : Z;
  st_evd_set : bool
}.

#[export] Instance eta_state : Eta intel_pt_state :=
  fun s => mkState (st_type s) (st_from_nr s) (st_to_nr s) (st_from_iflag s) (st_to_iflag s)
    (st_err s) (st_from_ip s) (st_to_ip s) (st_tot_insn_cnt s) (st_tot_cyc_cnt s)
    (st_cycles s) (st_timestamp s) (st_est_timestamp s) (st_trace_nr s) (st_ptw_payload s)
    (st_mwait_payload s) (st_pwre_payload s) (st_pwrx_payload s) (st_cbr_payload s) (st_psb_offset s)
    (st_cbr s) (st_flags s) (st_insn_op s) (st_insn_len s) (st_insn s)
    (st_items s) (st_cfe_type s) (st_cfe_vector s) (st_evd_cnt s) (st_evd_set s).
#[export] Instance set_st_type : Setter st_type := ltac:(solve_setter).
#[export] Instance set_st_from_nr : Setter st_from_nr := ltac:(solve_setter).
#[export] Instance set_st_to_nr : Setter st_to_nr := ltac:(solve_setter).
#[export] Instance set_st_from_iflag : Setter st_from_iflag := ltac:(solve_setter).
#[export] Instance set_st_to_iflag : Setter st_to_iflag := ltac:(solve_setter).
#[export] Instance set_st_err : Setter st_err := ltac:(solve_setter).
#[export] Instance set_st_from_ip : Setter st_from_ip := ltac:(solve_setter).
#[export] Instance set_st_to_ip : Setter st_to_ip := ltac:(solve_setter).
#[export] Instance set_st_tot_insn_cnt : Setter st_tot_insn_cnt := ltac:(solve_setter).
#[export] Instance set_st_tot_cyc_cnt : Setter st_tot_cyc_cnt := ltac:(solve_setter).
#[export] Instance set_st_cycles : Setter st_cycles := ltac:(solve_setter).
#[export] Instance set_st_timestamp : Setter st_timestamp := ltac:(solve_setter).
#[export] Instance set_st_est_timestamp : Setter st_est_timestamp := ltac:(solve_setter).
#[export] Instance set_st_trace_nr : Setter st_trace_nr := ltac:(solve_setter).
#[export] Instance set_st_ptw_payload : Setter st_ptw_payload := ltac:(solve_setter).
#[export] Instance set_st_mwait_payload : Setter st_mwait_payload := ltac:(solve_setter).
#[export] Instance set_st_pwre_payload : Setter st_pwre_payload := ltac:(solve_setter).
#[export] Instance set_st_pwrx_payload : Setter st_pwrx_payload := ltac:(solve_setter).
#[export] Instance set_st_cbr_payload : Setter st_cbr_payload := ltac:(solve_setter).
#[export] Instance set_st_psb_offset : Setter st_psb_offset := ltac:(solve_setter).
#[export] Instance set_st_cbr : Setter st_cbr := ltac:(solve_setter).
#[export] Instance set_st_flags : Setter st_flags := ltac:(solve_setter).
#[export] Instance set_st_insn_op : Setter st_insn_op := ltac:(solve_setter).
#[export] Instance set_st_insn_len : Setter st_insn_len := ltac:(solve_setter).
#[export] Instance set_st_insn : Setter st_insn := ltac:(solve_setter).
#[export] Instance set_st_items : Setter st_items := ltac:(solve_setter).
#[export] Instance set_st_cfe_type : Setter st_cfe_type := ltac:(solve_setter).
#[export] Instance set_st_cfe_vector : Setter st_cfe_vector := ltac:(solve_setter).
#[export] Instance set_st_evd_cnt : Setter st_evd_cnt := ltac:(solve_setter).
#[export] Instance set_st_evd_set : Setter st_evd_set := ltac:(solve_setter).

Definition zero_state : intel_pt_state :=
  mkState 0 false false false false 0 0 0
    0 0 0 0 0 0 0 0
    0 0 0 0 0 0 INTEL_PT_OP_OTHER 0
    (replicate 16 x00) zero_items 0 0 0 false.

(** [struct intel_pt_decoder], its callbacks apart (class [Callbacks] below).
    [d_buf] is the memory from the pointer [buf] on and [d_len] the C field; a
    null [buf] is the empty list, a null [next_buf] is [None]. *)
Record intel_pt_decoder := mkDecoder {
  d_state : intel_pt_state;
  d_buf : list byte;
  d_len : Z;
  d_return_compression : bool;
  d_branch_enable : bool;
  d_mtc_insn : bool;
  d_pge : bool;
  d_have_tma : bool;
  d_have_cyc : bool;
  d_fixup_last_mtc : bool;
  d_have_last_ip : bool;
  d_in_psb : bool;
  d_hop : bool;
  d_leap : bool;
  d_emulated_ptwrite : bool;
  d_vm_time_correlation : bool;
  d_vm_tm_corr_dry_run : bool;
  d_vm_tm_corr_reliable : bool;
  d_vm_tm_corr_same_buf : bool;
  d_vm_tm_corr_continuous : bool;
  d_nr : bool;
  d_next_nr : bool;
  d_iflag : bool;
  d_next_iflag : bool;
  d_flags : Z;
  d_pos : Z;
  d_last_ip : Z;
  d_ip : Z;
  d_pip_payload : Z;
  d_timestamp : Z;
  d_tsc_timestamp : Z;
  d_ref_timestamp : Z;
  d_buf_timestamp : Z;
  d_sample_timestamp : Z;
  d_ret_addr : Z;
  d_ctc_timestamp : Z;
  d_ctc_delta : Z;
  d_cycle_cnt : Z;
  d_cyc_ref_timestamp : Z;
  d_first_timestamp : Z;
  d_last_reliable_timestamp : Z;
  d_vmcs : Z;
  d_print_once : Z;
  d_last_ctc : Z;
  d_last_mtc : Z;
  d_tsc_ctc_ratio_n : Z;
  d_tsc_ctc_ratio_d : Z;
  d_tsc_ctc_mult : Z;
  d_tsc_slip : Z;
  d_ctc_rem_mask : Z;
  d_mtc_shift : Z;
  d_stack : intel_pt_stack;
  d_pkt_state : intel_pt_pkt_state;
  d_pkt_ctx : intel_pt_pkt_ctx;
  d_prev_pkt_ctx : intel_pt_pkt_ctx;
  d_blk_type : Z;
  d_blk_type_pos : Z;
  d_packet : intel_pt_pkt;
  d_tnt : intel_pt_pkt;
  d_pkt_step : Z;
  d_pkt_len : Z;
  d_last_packet_type : intel_pt_pkt_type;
  d_cbr : Z;
  d_cbr_seen : Z;
  d_max_non_turbo_ratio : Z;
  d_max_non_turbo_ratio_fp : spec_float;
  d_cbr_cyc_to_tsc : spec_float;
  d_calc_cyc_to_tsc : spec_float;
  d_have_calc_cyc_to_tsc : bool;
  d_exec_mode : Z;
  d_insn_bytes : Z;
  d_period : Z;
  d_period_type : intel_pt_period_type;
  d_tot_insn_cnt : Z;
  d_period_insn_cnt : Z;
  d_period_mask : Z;
  d_period_ticks : Z;
  d_last_masked_timestamp : Z;
  d_tot_cyc_cnt : Z;
  d_sample_tot_cyc_cnt : Z;
  d_base_cyc_cnt : Z;
  d_cyc_cnt_timestamp : Z;
  d_ctl : Z;
  d_cyc_threshold : Z;
  d_tsc_to_cyc : spec_float;
  d_continuous_period : bool;
  d_overflow : bool;
  d_set_fup_tx_flags : bool;
  d_set_fup_ptw : bool;
  d_set_fup_mwait : bool;
  d_set_fup_pwre : bool;
  d_set_fup_exstop : bool;
  d_set_fup_bep : bool;
  d_set_fup_cfe_ip : bool;
  d_set_fup_cfe : bool;
  d_set_fup_mode_exec : bool;
  d_sample_cyc : bool;
  d_fup_tx_flags : Z;
  d_tx_flags : Z;
  d_fup_ptw_payload : Z;
  d_fup_mwait_payload : Z;
  d_fup_pwre_payload : Z;
  d_cbr_payload : Z;
  d_timestamp_insn_cnt : Z;
  d_sample_insn_cnt : Z;
  d_stuck_ip : Z;
  d_fup_cfe_pkt : intel_pt_pkt;
  d_max_loops : Z;
  d_no_progress : Z;
  d_stuck_ip_prd : Z;
  d_stuck_ip_cnt : Z;
  d_psb_ip : Z;
  d_next_buf : option (list byte);
  d_next_len : Z;
  d_temp_buf : list byte;
  d_evd_cnt : Z;
  d_evd : list intel_pt_evd_item
}.

#[export] Instance eta_decoder : Eta intel_pt_decoder :=
  fun d => mkDecoder (d_state d) (d_buf d) (d_len d) (d_return_compression d) (d_branch_enable d)
    (d_mtc_insn d) (d_pge d) (d_have_tma d) (d_have_cyc d) (d_fixup_last_mtc d)
    (d_have_last_ip d) (d_in_psb d) (d_hop d) (d_leap d) (d_emulated_ptwrite d)
    (d_vm_time_correlation d) (d_vm_tm_corr_dry_run d) (d_vm_tm_corr_reliable d) (d_vm_tm_corr_same_buf d) (d_vm_tm_corr_continuous d)
    (d_nr d) (d_next_nr d) (d_iflag d) (d_next_iflag d) (d_flags d)
    (d_pos d) (d_last_ip d) (d_ip d) (d_pip_payload d) (d_timestamp d)
    (d_tsc_timestamp d) (d_ref_timestamp d) (d_buf_timestamp d) (d_sample_timestamp d) (d_ret_addr d)
    (d_ctc_timestamp d) (d_ctc_delta d) (d_cycle_cnt d) (d_cyc_ref_timestamp d) (d_first_timestamp d)
    (d_last_reliable_timestamp d) (d_vmcs d) (d_print_once d) (d_last_ctc d) (d_last_mtc d)
    (d_tsc_ctc_ratio_n d) (d_tsc_ctc_ratio_d d) (d_tsc_ctc_mult d) (d_tsc_slip d) (d_ctc_rem_mask d)
    (d_mtc_shift d) (d_stack d) (d_pkt_state d) (d_pkt_ctx d) (d_prev_pkt_ctx d)
    (d_blk_type d) (d_blk_type_pos d) (d_packet d) (d_tnt d) (d_pkt_step d)
    (d_pkt_len d) (d_last_packet_type d) (d_cbr d) (d_cbr_seen d) (d_max_non_turbo_ratio d)
    (d_max_non_turbo_ratio_fp d) (d_cbr_cyc_to_tsc d) (d_calc_cyc_to_tsc d) (d_have_calc_cyc_to_tsc d) (d_exec_mode d)
    (d_insn_bytes d) (d_period d) (d_period_type d) (d_tot_insn_cnt d) (d_period_insn_cnt d)
    (d_period_mask d) (d_period_ticks d) (d_last_masked_timestamp d) (d_tot_cyc_cnt d) (d_sample_tot_cyc_cnt d)
    (d_base_cyc_cnt d) (d_cyc_cnt_timestamp d) (d_ctl d) (d_cyc_threshold d) (d_tsc_to_cyc d)
    (d_continuous_period d) (d_overflow d) (d_set_fup_tx_flags d) (d_set_fup_ptw d) (d_set_fup_mwait d)
    (d_set_fup_pwre d) (d_set_fup_exstop d) (d_set_fup_bep d) (d_set_fup_cfe_ip d) (d_set_fup_cfe d)
    (d_set_fup_mode_exec d) (d_sample_cyc d) (d_fup_tx_flags d) (d_tx_flags d) (d_fup_ptw_payload d)
    (d_fup_mwait_payload d) (d_fup_pwre_payload d) (d_cbr_payload d) (d_timestamp_insn_cnt d) (d_sample_insn_cnt d)
    (d_stuck_ip d) (d_fup_cfe_pkt d) (d_max_loops d) (d_no_progress d) (d_stuck_ip_prd d)
    (d_stuck_ip_cnt d) (d_psb_ip d) (d_next_buf d) (d_next_len d) (d_temp_buf d)
    (d_evd_cnt d) (d_evd d).
#[export] Instance set_d_state : Setter d_state := ltac:(solve_setter).
#[export] Instance set_d_buf : Setter d_buf := ltac:(solve_setter).
#[export] Instance set_d_len : Setter d_len := ltac:(solve_setter).
#[export] Instance set_d_return_compression : Setter d_return_compression := ltac:(solve_setter).
#[export] Instance set_d_branch_enable : Setter d_branch_enable := ltac:(solve_setter).
#[export] Instance set_d_mtc_insn : Setter d_mtc_insn := ltac:(solve_setter).
#[export] Instance set_d_pge : Setter d_pge := ltac:(solve_setter).
#[export] Instance set_d_have_tma : Setter d_have_tma := ltac:(solve_setter).
#[export] Instance set_d_have_cyc : Setter d_have_cyc := ltac:(solve_setter).
#[export] Instance set_d_fixup_last_mtc : Setter d_fixup_last_mtc := ltac:(solve_setter).
#[export] Instance set_d_have_last_ip : Setter d_have_last_ip := ltac:(solve_setter).
#[export] Instance set_d_in_psb : Setter d_in_psb := ltac:(solve_setter).
#[export] Instance set_d_hop : Setter d_hop := ltac:(solve_setter).
#[export] Instance set_d_leap : Setter d_leap := ltac:(solve_setter).
#[export] Instance set_d_emulated_ptwrite : Setter d_emulated_ptwrite := ltac:(solve_setter).
#[export] Instance set_d_vm_time_correlation : Setter d_vm_time_correlation := ltac:(solve_setter).
#[export] Instance set_d_vm_tm_corr_dry_run : Setter d_vm_tm_corr_dry_run := ltac:(solve_setter).
#[export] Instance set_d_vm_tm_corr_reliable : Setter d_vm_tm_corr_reliable := ltac:(solve_setter).
#[export] Instance set_d_vm_tm_corr_same_buf : Setter d_vm_tm_corr_same_buf := ltac:(solve_setter).
#[export] Instance set_d_vm_tm_corr_continuous : Setter d_vm_tm_corr_continuous := ltac:(solve_setter).
#[export] Instance set_d_nr : Setter d_nr := ltac:(solve_setter).
#[export] Instance set_d_next_nr : Setter d_next_nr := ltac:(solve_setter).
#[export] Instance set_d_iflag : Setter d_iflag := ltac:(solve_setter).
#[export] Instance set_d_next_iflag : Setter d_next_iflag := ltac:(solve_setter).
#[export] Instance set_d_flags : Setter d_flags := ltac:(solve_setter).
#[export] Instance set_d_pos : Setter d_pos := ltac:(solve_setter).
#[export] Instance set_d_last_ip : Setter d_last_ip := ltac:(solve_setter).
#[export] Instance set_d_ip : Setter d_ip := ltac:(solve_setter).
#[export] Instance set_d_pip_payload : Setter d_pip_payload := ltac:(solve_setter).
#[export] Instance set_d_timestamp : Setter d_timestamp := ltac:(solve_setter).
#[export] Instance set_d_tsc_timestamp : Setter d_tsc_timestamp := ltac:(solve_setter).
#[export] Instance set_d_ref_timestamp : Setter d_ref_timestamp := ltac:(solve_setter).
#[export] Instance set_d_buf_timestamp : Setter d_buf_timestamp := ltac:(solve_setter).
#[export] Instance set_d_sample_timestamp : Setter d_sample_timestamp := ltac:(solve_setter).
#[export] Instance set_d_ret_addr : Setter d_ret_addr := ltac:(solve_setter).
#[export] Instance set_d_ctc_timestamp : Setter d_ctc_timestamp := ltac:(solve_setter).
#[export] Instance set_d_ctc_delta : Setter d_ctc_delta := ltac:(solve_setter).
#[export] Instance set_d_cycle_cnt : Setter d_cycle_cnt := ltac:(solve_setter).
#[export] Instance set_d_cyc_ref_timestamp : Setter d_cyc_ref_timestamp := ltac:(solve_setter).
#[export] Instance set_d_first_timestamp : Setter d_first_timestamp := ltac:(solve_setter).
#[export] Instance set_d_last_reliable_timestamp : Setter d_last_reliable_timestamp := ltac:(solve_setter).
#[export] Instance set_d_vmcs : Setter d_vmcs := ltac:(solve_setter).
#[export] Instance set_d_print_once : Setter d_print_once := ltac:(solve_setter).
#[export] Instance set_d_last_ctc : Setter d_last_ctc := ltac:(solve_setter).
#[export] Instance set_d_last_mtc : Setter d_last_mtc := ltac:(solve_setter).
#[export] Instance set_d_tsc_ctc_ratio_n : Setter d_tsc_ctc_ratio_n := ltac:(solve_setter).
#[export] Instance set_d_tsc_ctc_ratio_d : Setter d_tsc_ctc_ratio_d := ltac:(solve_setter).
#[export] Instance set_d_tsc_ctc_mult : Setter d_tsc_ctc_mult := ltac:(solve_setter).
#[export] Instance set_d_tsc_slip : Setter d_tsc_slip := ltac:(solve_setter).
#[export] Instance set_d_ctc_rem_mask : Setter d_ctc_rem_mask := ltac:(solve_setter).
#[export] Instance set_d_mtc_shift : Setter d_mtc_shift := ltac:(solve_setter).
#[export] Instance set_d_stack : Setter d_stack := ltac:(solve_setter).
#[export] Instance set_d_pkt_state : Setter d_pkt_state := ltac:(solve_setter).
#[export] Instance set_d_pkt_ctx : Setter d_pkt_ctx := ltac:(solve_setter).
#[export] Instance set_d_prev_pkt_ctx : Setter d_prev_pkt_ctx := ltac:(solve_setter).
#[export] Instance set_d_blk_type : Setter d_blk_type := ltac:(solve_setter).
#[export] Instance set_d_blk_type_pos : Setter d_blk_type_pos := ltac:(solve_setter).
#[export] Instance set_d_packet : Setter d_packet := ltac:(solve_setter).
#[export] Instance set_d_tnt : Setter d_tnt := ltac:(solve_setter).
#[export] Instance set_d_pkt_step : Setter d_pkt_step := ltac:(solve_setter).
#[export] Instance set_d_pkt_len : Setter d_pkt_len := ltac:(solve_setter).
#[export] Instance set_d_last_packet_type : Setter d_last_packet_type := ltac:(solve_setter).
#[export] Instance set_d_cbr : Setter d_cbr := ltac:(solve_setter).
#[export] Instance set_d_cbr_seen : Setter d_cbr_seen := ltac:(solve_setter).
#[export] Instance set_d_max_non_turbo_ratio : Setter d_max_non_turbo_ratio := ltac:(solve_setter).
#[export] Instance set_d_max_non_turbo_ratio_fp : Setter d_max_non_turbo_ratio_fp := ltac:(solve_setter).
#[export] Instance set_d_cbr_cyc_to_tsc : Setter d_cbr_cyc_to_tsc := ltac:(solve_setter).
#[export] Instance set_d_calc_cyc_to_tsc : Setter d_calc_cyc_to_tsc := ltac:(solve_setter).
#[export] Instance set_d_have_calc_cyc_to_tsc : Setter d_have_calc_cyc_to_tsc := ltac:(solve_setter).
#[export] Instance set_d_exec_mode : Setter d_exec_mode := ltac:(solve_setter).
#[export] Instance set_d_insn_bytes : Setter d_insn_bytes := ltac:(solve_setter).
#[export] Instance set_d_period : Setter d_period := ltac:(solve_setter).
#[export] Instance set_d_period_type : Setter d_period_type := ltac:(solve_setter).
#[export] Instance set_d_tot_insn_cnt : Setter d_tot_insn_cnt := ltac:(solve_setter).
#[export] Instance set_d_period_insn_cnt : Setter d_period_insn_cnt := ltac:(solve_setter).
#[export] Instance set_d_period_mask : Setter d_period_mask := ltac:(solve_setter).
#[export] Instance set_d_period_ticks : Setter d_period_ticks := ltac:(solve_setter).
#[export] Instance set_d_last_masked_timestamp : Setter d_last_masked_timestamp := ltac:(solve_setter).
#[export] Instance set_d_tot_cyc_cnt : Setter d_tot_cyc_cnt := ltac:(solve_setter).
#[export] Instance set_d_sample_tot_cyc_cnt : Setter d_sample_tot_cyc_cnt := ltac:(solve_setter).
#[export] Instance set_d_base_cyc_cnt : Setter d_base_cyc_cnt := ltac:(solve_setter).
#[export] Instance set_d_cyc_cnt_timestamp : Setter d_cyc_cnt_timestamp := ltac:(solve_setter).
#[export] Instance set_d_ctl : Setter d_ctl := ltac:(solve_setter).
#[export] Instance set_d_cyc_threshold : Setter d_cyc_threshold := ltac:(solve_setter).
#[export] Instance set_d_tsc_to_cyc : Setter d_tsc_to_cyc := ltac:(solve_setter).
#[export] Instance set_d_continuous_period : Setter d_continuous_period := ltac:(solve_setter).
#[export] Instance set_d_overflow : Setter d_overflow := ltac:(solve_setter).
#[export] Instance set_d_set_fup_tx_flags : Setter d_set_fup_tx_flags := ltac:(solve_setter).
#[export] Instance set_d_set_fup_ptw : Setter d_set_fup_ptw := ltac:(solve_setter).
#[export] Instance set_d_set_fup_mwait : Setter d_set_fup_mwait := ltac:(solve_setter).
#[export] Instance set_d_set_fup_pwre : Setter d_set_fup_pwre := ltac:(solve_setter).
#[export] Instance set_d_set_fup_exstop : Setter d_set_fup_exstop := ltac:(solve_setter).
#[export] Instance set_d_set_fup_bep : Setter d_set_fup_bep := ltac:(solve_setter).
#[export] Instance set_d_set_fup_cfe_ip : Setter d_set_fup_cfe_ip := ltac:(solve_setter).
#[export] Instance set_d_set_fup_cfe : Setter d_set_fup_cfe := ltac:(solve_setter).
#[export] Instance set_d_set_fup_mode_exec : Setter d_set_fup_mode_exec := ltac:(solve_setter).
#[export] Instance set_d_sample_cyc : Setter d_sample_cyc := ltac:(solve_setter).
#[export] Instance set_d_fup_tx_flags : Setter d_fup_tx_flags := ltac:(solve_setter).
#[export] Instance set_d_tx_flags : Setter d_tx_flags := ltac:(solve_setter).
#[export] Instance set_d_fup_ptw_payload : Setter d_fup_ptw_payload := ltac:(solve_setter).
#[export] Instance set_d_fup_mwait_payload : Setter d_fup_mwait_payload := ltac:(solve_setter).
#[export] Instance set_d_fup_pwre_payload : Setter d_fup_pwre_payload := ltac:(solve_setter).
#[export] Instance set_d_cbr_payload : Setter d_cbr_payload := ltac:(solve_setter).
#[export] Instance set_d_timestamp_insn_cnt : Setter d_timestamp_insn_cnt := ltac:(solve_setter).
#[export] Instance set_d_sample_insn_cnt : Setter d_sample_insn_cnt := ltac:(solve_setter).
#[export] Instance set_d_stuck_ip : Setter d_stuck_ip := ltac:(solve_setter).
#[export] Instance set_d_fup_cfe_pkt : Setter d_fup_cfe_pkt := ltac:(solve_setter).
#[export] Instance set_d_max_loops : Setter d_max_loops := ltac:(solve_setter).
#[export] Instance set_d_no_progress : Setter d_no_progress := ltac:(solve_setter).
#[export] Instance set_d_stuck_ip_prd : Setter d_stuck_ip_prd := ltac:(solve_setter).
#[export] Instance set_d_stuck_ip_cnt : Setter d_stuck_ip_cnt := ltac:(solve_setter).
#[export] Instance set_d_psb_ip : Setter d_psb_ip := ltac:(solve_setter).
#[export] Instance set_d_next_buf : Setter d_next_buf := ltac:(solve_setter).
#[export] Instance set_d_next_len : Setter d_next_len := ltac:(solve_setter).
#[export] Instance set_d_temp_buf : Setter d_temp_buf := ltac:(solve_setter).
#[export] Instance set_d_evd_cnt : Setter d_evd_cnt := ltac:(solve_setter).
#[export] Instance set_d_evd : Setter d_evd := ltac:(solve_setter).

(** The structure as [zalloc] leaves it. *)
Definition zero_decoder : intel_pt_decoder :=
  mkDecoder zero_state [] 0 false false false false false
    false false false false false false false false
    false false false false false false false false
    0 0 0 0 0 0 0 0
    0 0 0 0 0 0 0 0
    0 0 0 0 0 0 0 0
    0 0 0 empty_stack INTEL_PT_STATE_NO_PSB INTEL_PT_NO_CTX INTEL_PT_NO_CTX 0
    0 zero_pkt zero_pkt 0 0 INTEL_PT_BAD 0 0
    0 f64_zero f64_zero f64_zero false 0 0 0
    INTEL_PT_PERIOD_NONE 0 0 0 0 0 0 0
    0 0 0 0 f64_zero false false false
    false false false false false false false false
    false 0 0 0 0 0 0 0
    0 0 zero_pkt 0 0 0 0 0
    None 0 (replicate (Z.to_nat INTEL_PT_PKT_MAX_SZ) x00) 0
    (replicate (Z.to_nat INTEL_PT_MAX_EVDS) (mkEvd 0 0)).

(** ** Callbacks

    The functions [intel_pt_decoder_new] is given, acting on the [void *data]
    of type [D] that they share.  [malloc_ok] is the outcome of the next
    allocation.  A [struct intel_pt_vmcs_info *] is a handle, read and written
    through [vmcs_read] and [vmcs_write]. *)
Record walk_result := mkWalk {
  w_err : Z;
  w_insn : intel_pt_insn;
  w_insn_cnt : Z;
  w_ip : Z
}.

Class Callbacks (D : Type) := {
  get_trace : D -> Z * intel_pt_buffer * D;
  walk_insn : forall (data : D) (ip to_ip max_insn_cnt : Z), walk_result * D;
  pgd_ip : option (Z -> D -> bool);
  lookahead : forall X, D -> (intel_pt_buffer -> X -> Z * X) -> X -> Z * X;
  findnew_vmcs_info : D -> Z -> option Z * D;
  vmcs_read : D -> Z -> intel_pt_vmcs_info;
  vmcs_write : D -> Z -> intel_pt_vmcs_info -> D;
  malloc_ok : D -> bool * D
}.

(** ** The decoder's monad

    A function of the decoder updates the structure and the callbacks' data; it
    can also access memory it should not ([Fault]), or its loops can run out of
    the model's fuel ([OutOfFuel]). *)
Inductive outcome (A : Type) := Ret (a : A) | Fault | OutOfFuel.
Arguments Ret {A} a.
Arguments Fault {A}.
Arguments OutOfFuel {A}.

Definition M (D A : Type) : Type := intel_pt_decoder -> D -> outcome (A * intel_pt_decoder * D).

#[export] Instance M_ret D : MRet (M D) := fun A a d e => Ret (a, d, e).
#[export] Instance M_bind D : MBind (M D) := fun A B k m d e =>
  match m d e with
  | Ret (a, d', e') => k a d' e'
  | Fault => Fault
  | OutOfFuel => OutOfFuel
  end.

Section prims.
Context {D : Type}.

Definition get : M D intel_pt_decoder := fun d e => Ret (d, d, e).
Definition put (d : intel_pt_decoder) : M D unit := fun _ e => Ret (tt, d, e).
Definition modify (f : intel_pt_decoder -> intel_pt_decoder) : M D unit :=
  fun d e => Ret (tt, f d, e).
Definition gets {A} (f : intel_pt_decoder -> A) : M D A := fun d e => Ret (f d, d, e).
Definition lift {A} (o : option A) : M D A :=
  fun d e => match o with Some a => Ret (a, d, e) | None => Fault end.
Definition no_fuel {A} : M D A := fun _ _ => OutOfFuel.
(** A callback: acts on the shared data only. *)
Definition call {A} (f : D -> A * D) : M D A := fun d e => let '(a, e') := f e in Ret (a, d, e').
Definition when (b : bool) (m : M D unit) : M D unit := if b then m else mret tt.
End prims.

(** [decoder->state.f = v] *)
Notation "d <| 'st' f := v |>" := (upd d_state (upd f (fun _ => v)) d)
  (at level 1, f at level 0, v at level 200, left associativity) : c_scope.

(** ** Partial correctness

    [wp m Q d e]: from decoder [d] and data [e], [m] makes no bad access, and
    [Q] holds of what it returns if it returns within its fuel. *)
Definition wp {D A} (m : M D A) (Q : A -> intel_pt_decoder -> D -> Prop)
    (d : intel_pt_decoder) (e : D) : Prop :=
  match m d e with
  | Ret (a, d', e') => Q a d' e'
  | Fault => False
  | OutOfFuel => True
  end.

Section wp.
Context {D : Type}.
Implicit Types (d : intel_pt_decoder) (e : D).

Lemma wp_ret {A} (a : A) Q d e : Q a d e -> wp (mret a) Q d e.
Proof. done. Qed.
Lemma wp_bind {A B} (m : M D A) (k : A -> M D B) Q d e :
  wp m (fun a d' e' => wp (k a) Q d' e') d e -> wp (m ≫= k) Q d e.
Proof.
  unfold wp, mbind, M_bind. destruct (m d e) as [[[a d'] e']| |]; done.
Qed.
Lemma wp_get Q d e : Q d d e -> wp get Q d e.
Proof. done. Qed.
Lemma wp_gets {A} (f : _ -> A) Q d e : Q (f d) d e -> wp (gets f) Q d e.
Proof. done. Qed.
Lemma wp_put d' Q d e : Q tt d' e -> wp (put d') Q d e.
Proof. done. Qed.
Lemma wp_modify f Q d e : Q tt (f d) e -> wp (modify f) Q d e.
Proof. done. Qed.
Lemma wp_lift {A} (o : option A) Q d e :
  (exists a, o = Some a /\ Q a d e) -> wp (lift o) Q d e.
Proof. by intros (a & -> & H). Qed.
Lemma wp_no_fuel {A} Q d e : wp (@no_fuel D A) Q d e.
Proof. done. Qed.
Lemma wp_call {A} (f : D -> A * D) Q d e : Q (f e).1 d (f e).2 -> wp (call f) Q d e.
Proof. unfold wp, call. by destruct (f e). Qed.
Lemma wp_when b (m : M D unit) Q d e :
  (b = true -> wp m Q d e) -> (b = false -> Q tt d e) -> wp (when b m) Q d e.
Proof. destruct b; unfold when; intros; [auto|apply wp_ret; auto]. Qed.
Lemma wp_mono {A} (m : M D A) (P Q : A -> _ -> _ -> Prop) d e :
  wp m P d e -> (forall a d' e', P a d' e' -> Q a d' e') -> wp m Q d e.
Proof. unfold wp. destruct (m d e) as [[[a d'] e']| |]; auto. Qed.
End wp.
