(* ===== verification/PtTime.v ===== *)
(** Decoder construction, flags and timing: the functions of
    intel-pt-decoder.c that update [struct intel_pt_decoder] from the current
    packet without reading trace data. *)
From Stdlib Require Import ZArith Lia List Bool String.
From S2P Require Import Prelude Float64 PktDecoder PtStack PtState.
Open Scope Z_scope.
Import ListNotations.
Open Scope c_scope.

Definition intel_pt_sample_time (pkt_state : intel_pt_pkt_state) : bool :=
  match pkt_state with
  | INTEL_PT_STATE_NO_PSB | INTEL_PT_STATE_NO_IP | INTEL_PT_STATE_ERR_RESYNC
  | INTEL_PT_STATE_IN_SYNC | INTEL_PT_STATE_TNT_CONT | INTEL_PT_STATE_RESAMPLE
  | INTEL_PT_STATE_VM_TIME_CORRELATION => true
  | INTEL_PT_STATE_TNT | INTEL_PT_STATE_TIP | INTEL_PT_STATE_TIP_PGD | INTEL_PT_STATE_FUP
  | INTEL_PT_STATE_FUP_NO_TIP | INTEL_PT_STATE_FUP_IN_PSB => false
  end.

(** The error states of the build without INTEL_PT_STRICT. *)
Definition INTEL_PT_STATE_ERR1 (d : intel_pt_decoder) : intel_pt_pkt_state := d_pkt_state d.
Definition INTEL_PT_STATE_ERR2 : intel_pt_pkt_state := INTEL_PT_STATE_NO_IP.
Definition INTEL_PT_STATE_ERR3 : intel_pt_pkt_state := INTEL_PT_STATE_ERR_RESYNC.
Definition INTEL_PT_STATE_ERR4 : intel_pt_pkt_state := INTEL_PT_STATE_IN_SYNC.

(** [for (i = 0; x != 1; i++) x >>= 1; return x << i].  On 0 the C loop does
    not terminate; on a positive 64-bit value 64 turns are enough. *)
Fixpoint lower_power_loop (fuel : nat) (x i : Z) : option Z :=
  if x =? 1 then Some (u64 (x .<< i))
  else match fuel with
  | O => None
  | S fuel' => lower_power_loop fuel' (x .>> 1) (i + 1)
  end.

Definition intel_pt_lower_power_of_2 (x : Z) : option Z := lower_power_loop 64 x 0.

Definition once_id (id : intel_pt_p_once) : Z :=
  match id with INTEL_PT_PRT_ONCE_UNK_VMCS => 0 | INTEL_PT_PRT_ONCE_ERANGE => 1 end.

(** Returns whether to print, and records that it was printed. *)
Definition intel_pt_print_once (id : intel_pt_p_once) (d : intel_pt_decoder)
    : bool * intel_pt_decoder :=
  let bit := 1 .<< once_id id in
  if negb (d_print_once d .& bit =? 0) then (false, d)
  else (true, d <| d_print_once := d_print_once d .| bit |>).

Definition intel_pt_cyc_threshold (ctl : Z) : Z :=
  if ctl .& INTEL_PT_CYC_ENABLE =? 0 then 0
  else (ctl .& INTEL_PT_CYC_THRESHOLD) .>> INTEL_PT_CYC_THRESHOLD_SHIFT.

(** [None]: the loop of [intel_pt_lower_power_of_2] does not end. *)
Definition intel_pt_setup_period (d : intel_pt_decoder) : option intel_pt_decoder :=
  match d_period_type d with
  | INTEL_PT_PERIOD_TICKS =>
    period ← intel_pt_lower_power_of_2 (d_period d);
    Some (d <| d_period_mask := u64 (.~ (period - 1)) |> <| d_period_ticks := period |>)
  | _ => Some d
  end.

(** [uint64_t t; uint32_t n, d]: the products are 64-bit. *)
Definition multdiv (t n d : Z) : Z :=
  if d =? 0 then 0
  else u64 (u64 ((t / d) * n) + u64 ((t mod d) * n) / d).

Record intel_pt_params := mkParams {
  p_return_compression : bool;
  p_branch_enable : bool;
  p_vm_time_correlation : bool;
  p_vm_tm_corr_dry_run : bool;
  p_first_timestamp : Z;
  p_ctl : Z;
  p_period : Z;
  p_period_type : intel_pt_period_type;
  p_max_non_turbo_ratio : Z;
  p_mtc_period : Z;
  p_tsc_ctc_ratio_n : Z;
  p_tsc_ctc_ratio_d : Z;
  p_flags : Z;
  p_quick : Z;
  p_max_loops : Z
}.

(** [zalloc_ok] is the outcome of the allocation; [Some None] is a null result,
    [None] the loop of [intel_pt_setup_period] not ending. *)
Definition intel_pt_decoder_new (zalloc_ok : bool) (p : intel_pt_params)
    : option (option intel_pt_decoder) :=
  if negb zalloc_ok then Some None
  else
    let d := zero_decoder
      <| d_return_compression := p_return_compression p |>
      <| d_branch_enable := p_branch_enable p |>
      <| d_hop := 1 <=? p_quick p |>
      <| d_leap := 2 <=? p_quick p |>
      <| d_vm_time_correlation := p_vm_time_correlation p |>
      <| d_vm_tm_corr_dry_run := p_vm_tm_corr_dry_run p |>
      <| d_first_timestamp := p_first_timestamp p |>
      <| d_last_reliable_timestamp := p_first_timestamp p |>
      <| d_max_loops := if p_max_loops p =? 0 then INTEL_PT_MAX_LOOPS else p_max_loops p |>
      <| d_flags := p_flags p |>
      <| d_ctl := p_ctl p |>
      <| d_period := p_period p |>
      <| d_period_type := p_period_type p |>
      <| d_max_non_turbo_ratio := p_max_non_turbo_ratio p |>
      <| d_max_non_turbo_ratio_fp := f64_of_Z (p_max_non_turbo_ratio p) |>
      <| d_cyc_threshold := intel_pt_cyc_threshold (p_ctl p) |> in
    d ← intel_pt_setup_period d;
    let d := d <| d_mtc_shift := p_mtc_period p |> in
    let d := d <| d_ctc_rem_mask := u32 (s32 (1 .<< d_mtc_shift d) - 1) |>
      <| d_tsc_ctc_ratio_n := p_tsc_ctc_ratio_n p |>
      <| d_tsc_ctc_ratio_d := p_tsc_ctc_ratio_d p |> in
    let d := if d_tsc_ctc_ratio_n d =? 0 then d <| d_tsc_ctc_ratio_d := 0 |> else d in
    let d :=
      if negb (d_tsc_ctc_ratio_d d =? 0) then
        if d_tsc_ctc_ratio_n d mod d_tsc_ctc_ratio_d d =? 0 then
          d <| d_tsc_ctc_mult := d_tsc_ctc_ratio_n d / d_tsc_ctc_ratio_d d |>
        else d
      else d in
    Some (Some (d <| d_tsc_slip := 0x10000 |>)).

Definition intel_pt_set_first_timestamp (d : intel_pt_decoder) (first_timestamp : Z)
    : intel_pt_decoder :=
  d <| d_first_timestamp := first_timestamp |>.

Definition intel_pt_ext_err (code : Z) : Z :=
  if code =? - ENOMEM then INTEL_PT_ERR_NOMEM
  else if code =? - ENOSYS then INTEL_PT_ERR_INTERN
  else if code =? - EBADMSG then INTEL_PT_ERR_BADPKT
  else if code =? - ENODATA then INTEL_PT_ERR_NODATA
  else if code =? - EILSEQ then INTEL_PT_ERR_NOINSN
  else if code =? - ENOENT then INTEL_PT_ERR_MISMAT
  else if code =? - EOVERFLOW then INTEL_PT_ERR_OVR
  else if code =? - ENOSPC then INTEL_PT_ERR_LOST
  else if code =? - ELOOP then INTEL_PT_ERR_NELOOP
  else if code =? - ECONNRESET then INTEL_PT_ERR_EPTW
  else INTEL_PT_ERR_UNK.

Definition intel_pt_calc_ip (packet : intel_pt_pkt) (last_ip : Z) : Z :=
  match pkt_count packet with
  | 1 => (last_ip .& 0xffffffffffff0000) .| pkt_payload packet
  | 2 => (last_ip .& 0xffffffff00000000) .| pkt_payload packet
  | 3 =>
    let ip := pkt_payload packet in
    if negb (ip .& 0x800000000000 =? 0) then ip .| 0xffff000000000000 else ip
  | 4 => (last_ip .& 0xffff000000000000) .| pkt_payload packet
  | 6 => pkt_payload packet
  | _ => 0
  end.

Definition intel_pt_set_last_ip (d : intel_pt_decoder) : intel_pt_decoder :=
  d <| d_last_ip := intel_pt_calc_ip (d_packet d) (d_last_ip d) |>
    <| d_have_last_ip := true |>.

Definition intel_pt_set_ip (d : intel_pt_decoder) : intel_pt_decoder :=
  let d := intel_pt_set_last_ip d in
  d <| d_ip := d_last_ip d |>.

(** Error functions return the C error with the updated structure. *)
Definition intel_pt_bug (d : intel_pt_decoder) : Z * intel_pt_decoder :=
  (- ENOSYS, d <| d_pkt_state := INTEL_PT_STATE_NO_PSB |>).

Definition intel_pt_clear_tx_flags (d : intel_pt_decoder) : intel_pt_decoder :=
  d <| d_tx_flags := 0 |>.

Definition intel_pt_update_in_tx (d : intel_pt_decoder) : intel_pt_decoder :=
  d <| d_tx_flags := pkt_payload (d_packet d) .& INTEL_PT_IN_TX |>.

Definition intel_pt_update_pip (d : intel_pt_decoder) : intel_pt_decoder :=
  d <| d_pip_payload := pkt_payload (d_packet d) |>.

Definition intel_pt_update_nr (d : intel_pt_decoder) : intel_pt_decoder :=
  d <| d_next_nr := negb (d_pip_payload d .& 1 =? 0) |>.

Definition intel_pt_set_nr (d : intel_pt_decoder) : intel_pt_decoder :=
  let d := d <| d_nr := negb (d_pip_payload d .& 1 =? 0) |> in
  d <| d_next_nr := d_nr d |>.

Definition intel_pt_set_pip (d : intel_pt_decoder) : intel_pt_decoder :=
  intel_pt_set_nr (intel_pt_update_pip d).

Definition intel_pt_bad_packet (d : intel_pt_decoder) : Z * intel_pt_decoder :=
  let d := intel_pt_clear_tx_flags d in
  let d := d <| d_have_tma := false |> <| d_pkt_len := 1 |> <| d_pkt_step := 1 |> in
  let d :=
    if bool_decide (d_pkt_state d = INTEL_PT_STATE_NO_PSB) then d
    else d <| d_pkt_state := INTEL_PT_STATE_ERR1 d |> in
  (- EBADMSG, d).

Definition intel_pt_update_sample_time (d : intel_pt_decoder) : intel_pt_decoder :=
  d <| d_sample_timestamp := d_timestamp d |>
    <| d_sample_insn_cnt := d_timestamp_insn_cnt d |>
    <| st st_cycles := d_tot_cyc_cnt d |>.

Definition intel_pt_reposition (d : intel_pt_decoder) : intel_pt_decoder :=
  d <| d_ip := 0 |> <| d_pkt_state := INTEL_PT_STATE_NO_PSB |> <| d_timestamp := 0 |>
    <| d_have_tma := false |>.

(** Returns the new [*last_mtc].  [mtc_shift] is above 8 here, and at most 15. *)
Definition intel_pt_fixup_last_mtc (mtc mtc_shift last_mtc : Z) : Z :=
  let first_missing_bit := u32 (1 .<< (16 - mtc_shift)) in
  let mask := u32 (.~ (first_missing_bit - 1)) in
  let last_mtc := last_mtc .| (mtc .& mask) in
  if mtc <=? last_mtc then u32 (last_mtc - first_missing_bit) .& 0xff else last_mtc.

(** ** Sampling periods *)

Definition intel_pt_next_period (d : intel_pt_decoder) : Z * intel_pt_decoder :=
  let tail timestamp masked d :=
    if masked <? d_last_masked_timestamp d then d_period_ticks d
    else u64 (d_period_ticks d - u64 (timestamp - masked)) in
  let timestamp := u64 (d_timestamp d + d_timestamp_insn_cnt d) in
  let masked_timestamp := timestamp .& d_period_mask d in
  if d_continuous_period d then
    if d_last_masked_timestamp d <? masked_timestamp then (1, d)
    else (tail timestamp masked_timestamp d, d)
  else
    let timestamp := u64 (timestamp + 1) in
    let masked_timestamp := timestamp .& d_period_mask d in
    let d :=
      if d_last_masked_timestamp d <? masked_timestamp then
        d <| d_last_masked_timestamp := masked_timestamp |> <| d_continuous_period := true |>
      else d in
    (tail timestamp masked_timestamp d, d).

Definition intel_pt_next_sample (d : intel_pt_decoder) : Z * intel_pt_decoder :=
  match d_period_type d with
  | INTEL_PT_PERIOD_INSTRUCTIONS => (u64 (d_period d - d_period_insn_cnt d), d)
  | INTEL_PT_PERIOD_TICKS => intel_pt_next_period d
  | INTEL_PT_PERIOD_NONE | INTEL_PT_PERIOD_MTC => (0, d)
  end.

(** [decoder->state.type |= bits] and [decoder->state.flags |= bits]. *)
Definition or_type (bits : Z) (d : intel_pt_decoder) : intel_pt_decoder :=
  d <| st st_type := st_type (d_state d) .| bits |>.
Definition or_flags (bits : Z) (d : intel_pt_decoder) : intel_pt_decoder :=
  d <| st st_flags := st_flags (d_state d) .| bits |>.

Definition intel_pt_sample_insn (d : intel_pt_decoder) : intel_pt_decoder :=
  let d :=
    match d_period_type d with
    | INTEL_PT_PERIOD_INSTRUCTIONS => d <| d_period_insn_cnt := 0 |>
    | INTEL_PT_PERIOD_TICKS =>
      let timestamp := u64 (d_timestamp d + d_timestamp_insn_cnt d) in
      let masked_timestamp := timestamp .& d_period_mask d in
      if d_last_masked_timestamp d <? masked_timestamp then
        d <| d_last_masked_timestamp := masked_timestamp |>
      else
        d <| d_last_masked_timestamp := u64 (d_last_masked_timestamp d + d_period_ticks d) |>
    | INTEL_PT_PERIOD_NONE | INTEL_PT_PERIOD_MTC => d
    end in
  or_type INTEL_PT_INSTRUCTION d.

(** ** Modes and pending FUP events *)

Definition intel_pt_mode_exec_status (d : intel_pt_decoder) : intel_pt_decoder :=
  let iflag := negb (pkt_count (d_packet d) .& INTEL_PT_IFLAG =? 0) in
  d <| d_exec_mode := s32 (pkt_payload (d_packet d)) |>
    <| d_iflag := iflag |>
    <| d_next_iflag := iflag |>
    <| st st_from_iflag := iflag |>
    <| st st_to_iflag := iflag |>.

Definition intel_pt_mode_exec (d : intel_pt_decoder) : intel_pt_decoder :=
  let iflag := negb (pkt_count (d_packet d) .& INTEL_PT_IFLAG =? 0) in
  d <| d_exec_mode := s32 (pkt_payload (d_packet d)) |> <| d_next_iflag := iflag |>.

Definition intel_pt_sample_iflag (d : intel_pt_decoder) : intel_pt_decoder :=
  let d := or_type INTEL_PT_IFLAG_CHG d in
  d <| st st_from_iflag := d_iflag d |>
    <| st st_to_iflag := d_next_iflag d |>
    <| d_iflag := d_next_iflag d |>.

Definition intel_pt_sample_iflag_chg (d : intel_pt_decoder) : intel_pt_decoder :=
  if bool_decide (d_iflag d = d_next_iflag d) then d else intel_pt_sample_iflag d.

Definition intel_pt_clear_fup_event (d : intel_pt_decoder) : intel_pt_decoder :=
  d <| d_set_fup_tx_flags := false |>
    <| d_set_fup_ptw := false |>
    <| d_set_fup_mwait := false |>
    <| d_set_fup_pwre := false |>
    <| d_set_fup_exstop := false |>
    <| d_set_fup_bep := false |>
    <| d_set_fup_cfe_ip := false |>
    <| d_set_fup_cfe := false |>
    <| d_evd_cnt := 0 |>
    <| d_set_fup_mode_exec := false |>
    <| d_iflag := d_next_iflag d |>.

(** The array index is [evd_cnt], below 64 after the guard. *)
Definition intel_pt_evd (d : intel_pt_decoder) : Z * intel_pt_decoder :=
  if INTEL_PT_MAX_EVDS <=? d_evd_cnt d then (- ENOSYS, d)
  else
    let item := mkEvd (pkt_count (d_packet d)) (pkt_payload (d_packet d)) in
    (0, d <| d_evd := <[Z.to_nat (d_evd_cnt d) := item]> (d_evd d) |>
          <| d_evd_cnt := d_evd_cnt d + 1 |>).

(** ** Timestamps *)

Definition intel_pt_8b_tsc (timestamp ref_timestamp : Z) : Z :=
  let timestamp := timestamp .| (ref_timestamp .& (0xff .<< 56)) in
  if timestamp <? ref_timestamp then
    if (1 .<< 55) <? ref_timestamp - timestamp then u64 (timestamp + (1 .<< 56)) else timestamp
  else
    if (1 .<< 55) <? timestamp - ref_timestamp then u64 (timestamp - (1 .<< 56)) else timestamp.

(** The local [max_timestamp] is computed but the comparison uses
    [buf_timestamp]. *)
Definition intel_pt_time_in_range (d : intel_pt_decoder) (timestamp : Z) : bool :=
  (d_last_reliable_timestamp d <=? timestamp) && (timestamp <? d_buf_timestamp d).

Definition intel_pt_overflow (d : intel_pt_decoder) : Z * intel_pt_decoder :=
  let d := intel_pt_set_nr (intel_pt_clear_tx_flags d) in
  let d := d <| d_timestamp_insn_cnt := 0 |>
    <| d_pkt_state := INTEL_PT_STATE_IN_SYNC |>
    <| st st_from_ip := d_ip d |>
    <| d_ip := 0 |>
    <| d_pge := false |> in
  let d := intel_pt_clear_fup_event d in
  (- EOVERFLOW, d <| d_overflow := true |>).

Definition intel_pt_mtc_cyc_cnt_pge (d : intel_pt_decoder) : intel_pt_decoder :=
  if d_have_cyc d then d
  else d <| d_cyc_cnt_timestamp := d_timestamp d |> <| d_base_cyc_cnt := d_tot_cyc_cnt d |>.

Definition intel_pt_mtc_cyc_cnt_cbr (d : intel_pt_decoder) : intel_pt_decoder :=
  let d := d <| d_tsc_to_cyc := f64_div (f64_of_Z (d_cbr d)) (d_max_non_turbo_ratio_fp d) |> in
  if d_pge d then intel_pt_mtc_cyc_cnt_pge d else d.

Section platform.
Context `{Platform}.

Definition intel_pt_mtc_cyc_cnt_upd (d : intel_pt_decoder) : intel_pt_decoder :=
  if d_have_cyc d then d
  else
    let d := d <| d_sample_cyc := true |> in
    if negb (d_pge d) || (d_timestamp d <=? d_cyc_cnt_timestamp d) then d
    else
      let tsc_delta := d_timestamp d - d_cyc_cnt_timestamp d in
      let tot_cyc_cnt :=
        f64_to_u64 (f64_add (f64_mul (f64_of_Z tsc_delta) (d_tsc_to_cyc d))
                      (f64_of_Z (d_base_cyc_cnt d))) in
      if d_tot_cyc_cnt d <? tot_cyc_cnt then d <| d_tot_cyc_cnt := tot_cyc_cnt |> else d.

(** [ctc_rem * tsc_ctc_mult] is a 32-bit product. *)
Definition intel_pt_calc_tma (d : intel_pt_decoder) : intel_pt_decoder :=
  let ctc := u32 (pkt_payload (d_packet d)) in
  let fc := u32 (pkt_count (d_packet d)) in
  let ctc_rem := ctc .& d_ctc_rem_mask d in
  if d_tsc_ctc_ratio_d d =? 0 then d
  else
    let d :=
      if d_pge d && negb (d_in_psb d) then intel_pt_mtc_cyc_cnt_pge d
      else intel_pt_mtc_cyc_cnt_upd d in
    let d := d <| d_last_mtc := (ctc .>> d_mtc_shift d) .& 0xff |>
      <| d_last_ctc := u32 (ctc - ctc_rem) |>
      <| d_ctc_timestamp := u64 (d_tsc_timestamp d - fc) |> in
    let d :=
      if negb (d_tsc_ctc_mult d =? 0) then
        d <| d_ctc_timestamp := u64 (d_ctc_timestamp d - u32 (ctc_rem * d_tsc_ctc_mult d)) |>
      else
        d <| d_ctc_timestamp :=
          u64 (d_ctc_timestamp d
               - multdiv ctc_rem (d_tsc_ctc_ratio_n d) (d_tsc_ctc_ratio_d d)) |> in
    d <| d_ctc_delta := 0 |> <| d_have_tma := true |> <| d_fixup_last_mtc := true |>.

Definition intel_pt_calc_cbr (d : intel_pt_decoder) : intel_pt_decoder :=
  let cbr := pkt_payload (d_packet d) .& 0xff in
  let d := d <| d_cbr_payload := pkt_payload (d_packet d) |> in
  if d_cbr d =? cbr then d
  else
    let d := d <| d_cbr := cbr |>
      <| d_cbr_cyc_to_tsc := f64_div (d_max_non_turbo_ratio_fp d) (f64_of_Z cbr) |> in
    intel_pt_mtc_cyc_cnt_cbr d.

Definition intel_pt_calc_cyc_timestamp (d : intel_pt_decoder) : intel_pt_decoder :=
  let timestamp := d_cyc_ref_timestamp d in
  let payload := pkt_payload (d_packet d) in
  let d := d <| d_have_cyc := true |> <| d_cycle_cnt := u64 (d_cycle_cnt d + payload) |> in
  let d := if d_pge d then d <| d_tot_cyc_cnt := u64 (d_tot_cyc_cnt d + payload) |> else d in
  let d := d <| d_sample_cyc := true |> in
  let scaled ratio :=
    f64_to_u64 (f64_add (f64_of_Z timestamp) (f64_mul (f64_of_Z (d_cycle_cnt d)) ratio)) in
  let finish timestamp :=
    let d := if timestamp <? d_timestamp d then d else d <| d_timestamp := timestamp |> in
    d <| d_timestamp_insn_cnt := 0 |> in
  if d_cyc_ref_timestamp d =? 0 then d
  else if d_have_calc_cyc_to_tsc d then finish (scaled (d_calc_cyc_to_tsc d))
  else if negb (d_cbr d =? 0) then finish (scaled (d_cbr_cyc_to_tsc d))
  else d.

End platform.

Definition intel_pt_ctc_to_tsc (d : intel_pt_decoder) (ctc : Z) : Z :=
  if negb (d_tsc_ctc_mult d =? 0) then u64 (ctc * d_tsc_ctc_mult d)
  else multdiv ctc (d_tsc_ctc_ratio_n d) (d_tsc_ctc_ratio_d d).

Definition intel_pt_calc_expected_tsc (d : intel_pt_decoder)
    (ctc fc last_ctc_timestamp ctc_delta last_ctc : Z) : Z :=
  let last_mtc_ctc := u64 (last_ctc + ctc_delta) in
  let delta := u64 (s16 (u16 ctc - u16 last_mtc_ctc)) in
  let new_ctc_delta := u64 (ctc_delta + delta) in
  u64 (u64 (last_ctc_timestamp + intel_pt_ctc_to_tsc d new_ctc_delta) + fc).

Definition intel_pt_est_timestamp (d : intel_pt_decoder) : Z :=
  let est := u64 (d_sample_insn_cnt d .<< 1) in
  let est :=
    if (d_cbr d =? 0) || (d_max_non_turbo_ratio d =? 0) then est
    else u64 (est * d_max_non_turbo_ratio d) / d_cbr d in
  u64 (d_sample_timestamp d + est).

(** ** PEBS block items *)

Definition INTEL_PT_GP_REGS : Z := 1.
Definition INTEL_PT_PEBS_BASIC : Z := 4.
Definition INTEL_PT_PEBS_MEM : Z := 5.
Definition INTEL_PT_LBR_0 : Z := 8.
Definition INTEL_PT_LBR_1 : Z := 9.
Definition INTEL_PT_LBR_2 : Z := 10.
Definition INTEL_PT_XMM : Z := 16.
Definition INTEL_PT_BLK_TYPE_MAX : Z := 17.

(** The array [map]: positions plus one, 0 where there is no initialiser. *)
Definition blk_type_map (blk_type : Z) : Z :=
  if blk_type =? INTEL_PT_GP_REGS then 1
  else if blk_type =? INTEL_PT_PEBS_BASIC then 2
  else if blk_type =? INTEL_PT_PEBS_MEM then 3
  else if blk_type =? INTEL_PT_LBR_0 then 4
  else if blk_type =? INTEL_PT_LBR_1 then 5
  else if blk_type =? INTEL_PT_LBR_2 then 6
  else if blk_type =? INTEL_PT_XMM then 7
  else 0.

Definition intel_pt_blk_type_pos (blk_type : Z) : Z :=
  if blk_type <? INTEL_PT_BLK_TYPE_MAX then blk_type_map blk_type - 1 else -1.

Definition intel_pt_bbp (d : intel_pt_decoder) : intel_pt_decoder :=
  let items f d := upd d_state (upd st_items f) d in
  let d :=
    if bool_decide (d_prev_pkt_ctx d = INTEL_PT_NO_CTX) then
      items (fun i => i <| bi_mask := replicate (Z.to_nat INTEL_PT_BLK_TYPE_CNT) 0 |>
                        <| bi_is_32_bit := false |>) d
    else d in
  let d := d <| d_blk_type := u32 (pkt_payload (d_packet d)) |> in
  let d := d <| d_blk_type_pos := intel_pt_blk_type_pos (d_blk_type d) |> in
  if d_blk_type d =? INTEL_PT_GP_REGS then
    items (fun i => i <| bi_is_32_bit := negb (pkt_count (d_packet d) =? 0) |>) d
  else d.

(** [pos] is below 7 ([intel_pt_blk_type_pos_range]) and [id] below 32 where
    the arrays are accessed. *)
Definition intel_pt_bip (d : intel_pt_decoder) : intel_pt_decoder :=
  let id := u32 (pkt_count (d_packet d)) in
  let bit := u32 (1 .<< id) in
  let pos := d_blk_type_pos d in
  if (pos <? 0) || (INTEL_PT_BLK_ITEM_ID_CNT <=? id) then d
  else
    upd d_state (upd st_items (fun i =>
      i <| bi_mask := alter (fun m => m .| bit) (Z.to_nat pos) (bi_mask i) |>
        <| bi_val := alter (fun v => <[Z.to_nat id := pkt_payload (d_packet d)]> v)
                       (Z.to_nat pos) (bi_val i) |>)) d.

(** ** Small helpers of the packet walks *)

Definition intel_pt_resample (d : intel_pt_decoder) : Z * intel_pt_decoder :=
  (0, d <| d_pkt_state := INTEL_PT_STATE_IN_SYNC |>
        <| st st_type := INTEL_PT_INSTRUCTION |>
        <| st st_from_ip := d_ip d |>
        <| st st_to_ip := 0 |>).

Definition intel_pt_have_ip (d : intel_pt_decoder) : bool :=
  let count := pkt_count (d_packet d) in
  negb (count =? 0) && (d_have_last_ip d || (count =? 3) || (count =? 6)).

Definition intel_pt_err_msgs (code : Z) : string :=
  match code with
  | 1 => "Memory allocation failed"
  | 2 => "Internal error"
  | 3 => "Bad packet"
  | 4 => "No more data"
  | 5 => "Failed to get instruction"
  | 6 => "Trace doesn't match instruction"
  | 7 => "Overflow packet"
  | 8 => "Lost trace data"
  | 9 => "Unknown error!"
  | 10 => "Never-ending loop (refer perf config intel-pt.max-loops)"
  | 11 => "Broken emulated ptwrite"
  | _ => ""
  end%string.

(** The string left in [buf] by [strlcpy], [None] when nothing is written. *)
Definition intel_pt__strerror (code buflen : Z) : option string :=
  let code := if (code <? 1) || (INTEL_PT_ERR_MAX <=? code) then INTEL_PT_ERR_UNK else code in
  if buflen =? 0 then None
  else Some (substring 0 (Z.to_nat (buflen - 1)) (intel_pt_err_msgs code)).
