(* ===== verification/PtReader.v ===== *)
(** Reading the trace: buffers, the next packet, lookahead, timing that looks
    ahead, and the search for the next PSB (intel-pt-decoder.c).

    [fuel] bounds the loops whose length depends on the trace still to come; a
    lookahead stays in the current buffer and takes its bound from it. *)
From Stdlib Require Import ZArith Lia List Bool.
From S2P Require Import Prelude Float64 PktDecoder PtStack PtState PtTime.
Open Scope Z_scope.
Open Scope c_scope.
Import ListNotations.

Class Fuel := fuel : nat.

(** [err = m; if (err) return err; k] *)
Notation "'TRY' m ; k" := (mbind (fun err => if Z.eqb err 0 then k else mret err) m)
  (at level 100, m at level 50, k at level 200, right associativity) : c_scope.

(** An error function of PtTime. *)
Definition error_of {D} (f : intel_pt_decoder -> Z * intel_pt_decoder) : M D Z :=
  fun d e => Ret ((f d).1, (f d).2, e).

(** ** Memory blocks *)

(** [n] bytes at [buf + off]. *)
Definition slice (buf : list byte) (off n : Z) : option (list byte) :=
  if (0 <=? off) && (0 <=? n) && (off + n <=? Z.of_nat (length buf)) then
    Some (take (Z.to_nat n) (drop (Z.to_nat off) buf))
  else None.

(** [memcpy(dst + off, src, n)] *)
Definition memcpy (dst : list byte) (off : Z) (src : list byte) (n : Z) : option (list byte) :=
  s ← slice src 0 n;
  if (0 <=? off) && (off + n <=? Z.of_nat (length dst)) then
    Some (take (Z.to_nat off) dst ++ s ++ drop (Z.to_nat (off + n)) dst)
  else None.

(** The offset of the first occurrence of [needle]. *)
Fixpoint memmem (hay needle : list byte) : option Z :=
  if bool_decide (take (length needle) hay = needle) then Some 0
  else match hay with
  | [] => None
  | _ :: hay' => Z.succ <$> memmem hay' needle
  end.

(** ** Lookahead *)

(** [struct intel_pt_pkt_info], its [decoder] and [data] pointers apart. *)
Record intel_pt_pkt_info := mkPktInfo {
  pi_packet : intel_pt_pkt;
  pi_pos : Z;
  pi_pkt_len : Z;
  pi_last_packet_type : intel_pt_pkt_type
}.

Section lookahead.
Context {X : Type}.

(** A callback returns its C return value and updates the decoder and its own
    data. *)
Definition pkt_cb : Type :=
  intel_pt_pkt_info -> intel_pt_decoder -> X -> Z * intel_pt_decoder * X.

(** One turn gets one packet; a PAD packet goes round without the callback. *)
Fixpoint lookahead_loop (n : nat) (cb : pkt_cb) (buf : list byte) (len : Z)
    (pkt_ctx : intel_pt_pkt_ctx) (info : intel_pt_pkt_info) (d : intel_pt_decoder) (x : X)
    : outcome (Z * intel_pt_decoder * X) :=
  match n with
  | O => OutOfFuel
  | S n' =>
    let pos := u64 (pi_pos info + pi_pkt_len info) in
    let buf := drop (Z.to_nat (pi_pkt_len info)) buf in
    let len := u64 (len - pi_pkt_len info) in
    if len =? 0 then Ret (INTEL_PT_NEED_MORE_BYTES, d, x)
    else
      match intel_pt_get_packet buf len pkt_ctx with
      | None => Fault
      | Some (ret, packet, pkt_ctx) =>
        if ret =? 0 then Ret (INTEL_PT_NEED_MORE_BYTES, d, x)
        else if ret <? 0 then Ret (ret, d, x)
        else
          let info := mkPktInfo packet pos ret (pi_last_packet_type info) in
          if bool_decide (pkt_type packet = INTEL_PT_PAD) then
            lookahead_loop n' cb buf len pkt_ctx info d x
          else
            let '(ret', d, x) := cb info d x in
            if negb (ret' =? 0) then Ret (0, d, x)
            else
              lookahead_loop n' cb buf len pkt_ctx
                (mkPktInfo packet pos ret (pkt_type packet)) d x
      end
  end.

Definition intel_pt_pkt_lookahead {D} (cb : pkt_cb) (x : X) : M D (Z * X) := fun d e =>
  let info := mkPktInfo zero_pkt (d_pos d) (d_pkt_step d) (d_last_packet_type d) in
  match lookahead_loop (S (length (d_buf d))) cb (d_buf d) (d_len d) (d_pkt_ctx d) info d x with
  | Ret (ret, d, x) => Ret ((ret, x), d, e)
  | Fault => Fault
  | OutOfFuel => OutOfFuel
  end.
End lookahead.
Arguments pkt_cb : clear implicits.

Record intel_pt_calc_cyc_to_tsc_info := mkCycInfo {
  ci_cycle_cnt : Z;
  ci_cbr : Z;
  ci_last_mtc : Z;
  ci_ctc_timestamp : Z;
  ci_ctc_delta : Z;
  ci_tsc_timestamp : Z;
  ci_timestamp : Z;
  ci_have_tma : bool;
  ci_fixup_last_mtc : bool;
  ci_from_mtc : bool;
  ci_cbr_cyc_to_tsc : spec_float
}.

#[export] Instance eta_cyc_info : Eta intel_pt_calc_cyc_to_tsc_info :=
  fun c => mkCycInfo (ci_cycle_cnt c) (ci_cbr c) (ci_last_mtc c) (ci_ctc_timestamp c)
    (ci_ctc_delta c) (ci_tsc_timestamp c) (ci_timestamp c) (ci_have_tma c)
    (ci_fixup_last_mtc c) (ci_from_mtc c) (ci_cbr_cyc_to_tsc c).
#[export] Instance set_ci_cycle_cnt : Setter ci_cycle_cnt := ltac:(solve_setter).
#[export] Instance set_ci_cbr : Setter ci_cbr := ltac:(solve_setter).
#[export] Instance set_ci_last_mtc : Setter ci_last_mtc := ltac:(solve_setter).
#[export] Instance set_ci_ctc_timestamp : Setter ci_ctc_timestamp := ltac:(solve_setter).
#[export] Instance set_ci_ctc_delta : Setter ci_ctc_delta := ltac:(solve_setter).
#[export] Instance set_ci_tsc_timestamp : Setter ci_tsc_timestamp := ltac:(solve_setter).
#[export] Instance set_ci_timestamp : Setter ci_timestamp := ltac:(solve_setter).
#[export] Instance set_ci_have_tma : Setter ci_have_tma := ltac:(solve_setter).
#[export] Instance set_ci_fixup_last_mtc : Setter ci_fixup_last_mtc := ltac:(solve_setter).
#[export] Instance set_ci_from_mtc : Setter ci_from_mtc := ltac:(solve_setter).
#[export] Instance set_ci_cbr_cyc_to_tsc : Setter ci_cbr_cyc_to_tsc := ltac:(solve_setter).

(** The number of MTC ticks since [last_mtc]: 1 to 256 for 8-bit values. *)
Definition mtc_delta (mtc last_mtc : Z) : Z :=
  if last_mtc <? mtc then u32 (mtc - last_mtc) else u32 (mtc + 256 - last_mtc).

(** [base + ticks] in TSC units, the two cases of [tsc_ctc_mult]. *)
Definition add_ctc (d : intel_pt_decoder) (base ctc_delta : Z) : Z :=
  if negb (d_tsc_ctc_mult d =? 0) then u64 (base + u64 (ctc_delta * d_tsc_ctc_mult d))
  else u64 (base + multdiv ctc_delta (d_tsc_ctc_ratio_n d) (d_tsc_ctc_ratio_d d)).

(** The end of [intel_pt_calc_cyc_cb], reached with the [timestamp] of an MTC or
    TSC packet that follows a CYC packet. *)
Definition calc_cyc_finish (timestamp : Z) (d : intel_pt_decoder)
    (x : intel_pt_calc_cyc_to_tsc_info)
    : Z * intel_pt_decoder * intel_pt_calc_cyc_to_tsc_info :=
  let x :=
    if (ci_cbr x =? 0) && negb (d_cbr d =? 0) then
      x <| ci_cbr := d_cbr d |> <| ci_cbr_cyc_to_tsc := d_cbr_cyc_to_tsc d |>
    else x in
  if ci_cycle_cnt x =? 0 then (1, d, x)
  else
    let cyc_to_tsc :=
      f64_div (f64_of_Z (u64 (timestamp - d_timestamp d))) (f64_of_Z (ci_cycle_cnt x)) in
    if negb (ci_cbr x =? 0) && f64_gt cyc_to_tsc (ci_cbr_cyc_to_tsc x)
       && f64_gt (f64_div cyc_to_tsc (ci_cbr_cyc_to_tsc x)) f64_1_25 then (1, d, x)
    else
      (1, d <| d_calc_cyc_to_tsc := cyc_to_tsc |> <| d_have_calc_cyc_to_tsc := true |>, x).

Definition calc_cyc_mtc (info : intel_pt_pkt_info) (d : intel_pt_decoder)
    (x : intel_pt_calc_cyc_to_tsc_info)
    : Z * intel_pt_decoder * intel_pt_calc_cyc_to_tsc_info :=
  if negb (ci_have_tma x) then (0, d, x)
  else
    let mtc := u32 (pkt_payload (pi_packet info)) in
    let x :=
      if (8 <? d_mtc_shift d) && ci_fixup_last_mtc x then
        x <| ci_fixup_last_mtc := false |>
          <| ci_last_mtc := intel_pt_fixup_last_mtc mtc (d_mtc_shift d) (ci_last_mtc x) |>
      else x in
    let delta := mtc_delta mtc (ci_last_mtc x) in
    let x := x <| ci_ctc_delta := u64 (ci_ctc_delta x + u32 (delta .<< d_mtc_shift d)) |>
      <| ci_last_mtc := mtc |> in
    let timestamp := add_ctc d (ci_ctc_timestamp x) (ci_ctc_delta x) in
    if timestamp <? ci_timestamp x then (1, d, x)
    else if negb (bool_decide (pi_last_packet_type info = INTEL_PT_CYC)) then
      (0, d, x <| ci_timestamp := timestamp |>)
    else calc_cyc_finish timestamp d x.

Definition calc_cyc_tsc (info : intel_pt_pkt_info) (d : intel_pt_decoder)
    (x : intel_pt_calc_cyc_to_tsc_info)
    : Z * intel_pt_decoder * intel_pt_calc_cyc_to_tsc_info :=
  if ci_from_mtc x then (1, d, x)
  else
    let timestamp := pkt_payload (pi_packet info) .| (ci_timestamp x .& (0xff .<< 56)) in
    if ci_from_mtc x && (timestamp <? ci_timestamp x)
       && (ci_timestamp x - timestamp <? d_tsc_slip d) then (1, d, x)
    else
      let timestamp :=
        if timestamp <? ci_timestamp x then u64 (timestamp + (1 .<< 56)) else timestamp in
      if negb (bool_decide (pi_last_packet_type info = INTEL_PT_CYC)) then
        if ci_from_mtc x then (1, d, x)
        else (0, d, x <| ci_tsc_timestamp := timestamp |> <| ci_timestamp := timestamp |>)
      else calc_cyc_finish timestamp d x.

Definition calc_cyc_tma (info : intel_pt_pkt_info) (d : intel_pt_decoder)
    (x : intel_pt_calc_cyc_to_tsc_info)
    : Z * intel_pt_decoder * intel_pt_calc_cyc_to_tsc_info :=
  if ci_from_mtc x then (1, d, x)
  else if d_tsc_ctc_ratio_d d =? 0 then (0, d, x)
  else
    let ctc := u32 (pkt_payload (pi_packet info)) in
    let fc := u32 (pkt_count (pi_packet info)) in
    let ctc_rem := ctc .& d_ctc_rem_mask d in
    let x := x <| ci_last_mtc := (ctc .>> d_mtc_shift d) .& 0xff |>
      <| ci_ctc_timestamp := u64 (ci_tsc_timestamp x - fc) |> in
    let x :=
      if negb (d_tsc_ctc_mult d =? 0) then
        x <| ci_ctc_timestamp := u64 (ci_ctc_timestamp x - u32 (ctc_rem * d_tsc_ctc_mult d)) |>
      else
        x <| ci_ctc_timestamp :=
          u64 (ci_ctc_timestamp x
               - multdiv ctc_rem (d_tsc_ctc_ratio_n d) (d_tsc_ctc_ratio_d d)) |> in
    (0, d, x <| ci_ctc_delta := 0 |> <| ci_have_tma := true |> <| ci_fixup_last_mtc := true |>).

Definition intel_pt_calc_cyc_cb : pkt_cb intel_pt_calc_cyc_to_tsc_info := fun info d x =>
  match pkt_type (pi_packet info) with
  | INTEL_PT_TNT | INTEL_PT_TIP_PGE | INTEL_PT_TIP | INTEL_PT_FUP | INTEL_PT_PSB
  | INTEL_PT_PIP | INTEL_PT_MODE_EXEC | INTEL_PT_MODE_TSX | INTEL_PT_PSBEND | INTEL_PT_PAD
  | INTEL_PT_VMCS | INTEL_PT_MNT | INTEL_PT_PTWRITE | INTEL_PT_PTWRITE_IP | INTEL_PT_BBP
  | INTEL_PT_BIP | INTEL_PT_BEP | INTEL_PT_BEP_IP | INTEL_PT_CFE | INTEL_PT_CFE_IP
  | INTEL_PT_EVD => (0, d, x)
  | INTEL_PT_MTC => calc_cyc_mtc info d x
  | INTEL_PT_TSC => calc_cyc_tsc info d x
  | INTEL_PT_TMA => calc_cyc_tma info d x
  | INTEL_PT_CYC =>
    (0, d, x <| ci_cycle_cnt := u64 (ci_cycle_cnt x + pkt_payload (pi_packet info)) |>)
  | INTEL_PT_CBR =>
    let cbr := u32 (pkt_payload (pi_packet info)) in
    if negb (ci_cbr x =? 0) && negb (ci_cbr x =? cbr) then (1, d, x)
    else
      (0, d, x <| ci_cbr := cbr |>
               <| ci_cbr_cyc_to_tsc := f64_div (d_max_non_turbo_ratio_fp d) (f64_of_Z cbr) |>)
  | INTEL_PT_TIP_PGD | INTEL_PT_TRACESTOP | INTEL_PT_EXSTOP | INTEL_PT_EXSTOP_IP
  | INTEL_PT_MWAIT | INTEL_PT_PWRE | INTEL_PT_PWRX | INTEL_PT_OVF | INTEL_PT_BAD => (1, d, x)
  end.

Section reader.
Context {D : Type} `{Platform} `{Callbacks D} `{Fuel}.
Implicit Types (d : intel_pt_decoder) (e : D).

(** ** Timing *)

Definition intel_pt_calc_cyc_to_tsc (from_mtc : bool) : M D unit :=
  d ← get;
  let data := mkCycInfo 0 0 (d_last_mtc d) (d_ctc_timestamp d) (d_ctc_delta d)
    (d_tsc_timestamp d) (d_timestamp d) (d_have_tma d) (d_fixup_last_mtc d) from_mtc
    f64_zero in
  if negb from_mtc then mret tt
  else intel_pt_pkt_lookahead intel_pt_calc_cyc_cb data ;; mret tt.

(** The end of the TSC and MTC functions: start measuring cycles again when
    the packet follows a CYC packet. *)
Definition restart_cyc (from_mtc : bool) : M D unit :=
  d ← get;
  when (bool_decide (d_last_packet_type d = INTEL_PT_CYC)) (
    modify (fun d => d <| d_cyc_ref_timestamp := d_timestamp d |> <| d_cycle_cnt := 0 |>
                       <| d_have_calc_cyc_to_tsc := false |>) ;;
    intel_pt_calc_cyc_to_tsc from_mtc).

(** The branch of [intel_pt_calc_tsc_timestamp] that extends a 7-byte TSC from
    the current timestamp. *)
Definition tsc_from_timestamp (d : intel_pt_decoder) : intel_pt_decoder :=
  let timestamp :=
    pkt_payload (d_packet d) .| (d_timestamp d .& (0xff .<< 56)) in
  let d := d <| d_tsc_timestamp := timestamp |> in
  let timestamp :=
    if (timestamp <? d_timestamp d) && (d_timestamp d - timestamp <? d_tsc_slip d) then
      d_timestamp d
    else timestamp in
  let '(timestamp, bad, d) :=
    if timestamp <? d_timestamp d then
      if (d_buf_timestamp d =? 0)
         || (u64 (timestamp + (1 .<< 56)) <? d_buf_timestamp d) then
        let timestamp := u64 (timestamp + (1 .<< 56)) in
        (timestamp, false, d <| d_tsc_timestamp := timestamp |>)
      else (d_timestamp d, true, d)
    else (timestamp, false, d) in
  let d :=
    if d_vm_time_correlation d && (bad || negb (intel_pt_time_in_range d timestamp)) then
      (intel_pt_print_once INTEL_PT_PRT_ONCE_ERANGE d).2
    else d in
  d <| d_timestamp := timestamp |> <| d_timestamp_insn_cnt := 0 |>.

Definition intel_pt_calc_tsc_timestamp : M D unit :=
  modify (fun d => d <| d_have_tma := false |>) ;;
  modify (fun d =>
    if negb (d_ref_timestamp d =? 0) then
      let timestamp := intel_pt_8b_tsc (pkt_payload (d_packet d)) (d_ref_timestamp d) in
      d <| d_tsc_timestamp := timestamp |>
        <| d_timestamp := timestamp |>
        <| d_ref_timestamp := 0 |>
        <| d_timestamp_insn_cnt := 0 |>
    else if negb (d_timestamp d =? 0) then tsc_from_timestamp d
    else d) ;;
  restart_cyc false.

Definition intel_pt_calc_mtc_timestamp : M D unit :=
  d ← get;
  if negb (d_have_tma d) then mret tt
  else
    let mtc := u32 (pkt_payload (d_packet d)) in
    modify (fun d =>
      let d :=
        if (8 <? d_mtc_shift d) && d_fixup_last_mtc d then
          d <| d_fixup_last_mtc := false |>
            <| d_last_mtc := intel_pt_fixup_last_mtc mtc (d_mtc_shift d) (d_last_mtc d) |>
        else d in
      let delta := mtc_delta mtc (d_last_mtc d) in
      let d := d <| d_ctc_delta := u64 (d_ctc_delta d + u32 (delta .<< d_mtc_shift d)) |> in
      let timestamp := add_ctc d (d_ctc_timestamp d) (d_ctc_delta d) in
      let d := if timestamp <? d_timestamp d then d else d <| d_timestamp := timestamp |> in
      let d := intel_pt_mtc_cyc_cnt_upd d in
      d <| d_timestamp_insn_cnt := 0 |> <| d_last_mtc := mtc |>) ;;
    restart_cyc true.

(** ** Buffers *)

Definition intel_pt_get_data (reposition : bool) : M D Z :=
  modify (fun d => d <| d_pkt_step := 0 |>) ;;
  '(ret, buffer) ← call get_trace;
  if negb (ret =? 0) then mret ret
  else
    modify (fun d => d <| d_buf := b_buf buffer |> <| d_len := b_len buffer |>) ;;
    if b_len buffer =? 0 then mret (- ENODATA)
    else
      modify (fun d => d <| d_buf_timestamp := b_ref_timestamp buffer |>) ;;
      if negb (b_consecutive buffer) || reposition then
        modify (fun d =>
          intel_pt_reposition d
            <| d_ref_timestamp := b_ref_timestamp buffer |>
            <| st st_trace_nr := b_trace_nr buffer |>
            <| d_vm_tm_corr_same_buf := false |>) ;;
        mret (- ENOLINK)
      else mret 0.

Definition intel_pt_get_next_data (reposition : bool) : M D Z :=
  d ← get;
  match d_next_buf d with
  | None => intel_pt_get_data reposition
  | Some next =>
    modify (fun d => d <| d_buf := next |> <| d_len := d_next_len d |>
                       <| d_next_buf := None |> <| d_next_len := 0 |>) ;;
    mret 0
  end.

(** [memcpy(temp_buf + off, decoder->buf, n)] *)
Definition copy_to_temp (off : Z) (src : list byte) (n : Z) : M D unit :=
  d ← get;
  temp ← lift (memcpy (d_temp_buf d) off src n);
  modify (fun d => d <| d_temp_buf := temp |>).

(** Only with a 32-bit [long]: a packet split between two buffers is put
    together in [temp_buf]. *)
Definition intel_pt_get_split_packet : M D Z :=
  old_len ← gets d_len;
  buf ← gets d_buf;
  copy_to_temp 0 buf old_len ;;
  ret ← intel_pt_get_data false;
  if negb (ret =? 0) then
    modify (fun d => d <| d_pos := u64 (d_pos d + old_len) |>) ;;
    mret (if ret <? 0 then ret else - EINVAL)
  else
    d ← get;
    let n := u64 (INTEL_PT_PKT_MAX_SZ - old_len) in
    let n := if d_len d <? n then d_len d else n in
    copy_to_temp old_len (d_buf d) n ;;
    let len := u64 (old_len + n) in
    modify (fun d => d <| d_prev_pkt_ctx := d_pkt_ctx d |>) ;;
    d ← get;
    '(ret, packet, ctx) ← lift (intel_pt_get_packet (d_temp_buf d) len (d_pkt_ctx d));
    modify (fun d => d <| d_packet := packet |> <| d_pkt_ctx := ctx |>) ;;
    if ret <? s32 old_len then
      modify (fun d => d <| d_next_buf := Some (d_buf d) |> <| d_next_len := d_len d |>
                         <| d_buf := d_temp_buf d |> <| d_len := old_len |>) ;;
      error_of intel_pt_bad_packet
    else
      modify (fun d =>
        d <| d_next_buf := Some (drop (Z.to_nat (ret - old_len)) (d_buf d)) |>
          <| d_next_len := u64 (d_len d - u64 (ret - old_len)) |>
          <| d_buf := d_temp_buf d |> <| d_len := ret |>) ;;
      mret ret.

(** ** The next packet *)

(** [pos += step; buf += step; len -= step] *)
Definition advance (d : intel_pt_decoder) : intel_pt_decoder :=
  d <| d_pos := u64 (d_pos d + d_pkt_step d) |>
    <| d_buf := drop (Z.to_nat (d_pkt_step d)) (d_buf d) |>
    <| d_len := u64 (d_len d - d_pkt_step d) |>.

(** The packet at [buf], the split packet included: [ret] positive or an
    error, as the last lines of the C loop see it. *)
Definition parse_packet : M D Z :=
  modify (fun d => d <| d_prev_pkt_ctx := d_pkt_ctx d |>) ;;
  d ← get;
  '(ret, packet, ctx) ← lift (intel_pt_get_packet (d_buf d) (d_len d) (d_pkt_ctx d));
  modify (fun d => d <| d_packet := packet |> <| d_pkt_ctx := ctx |>) ;;
  let accept ret :=
    if ret <=? 0 then error_of intel_pt_bad_packet
    else
      modify (fun d => d <| d_pkt_len := ret |> <| d_pkt_step := ret |>) ;;
      mret 0 in
  if (ret =? INTEL_PT_NEED_MORE_BYTES) && (bits_per_long =? 32)
     && (d_len d <? INTEL_PT_PKT_MAX_SZ) && bool_decide (d_next_buf d = None) then
    ret ← intel_pt_get_split_packet;
    if ret <? 0 then mret ret else accept ret
  else accept ret.

Fixpoint next_packet_loop (n : nat) : M D Z :=
  match n with
  | O => no_fuel
  | S n' =>
    modify advance ;;
    d ← get;
    TRY (if d_len d =? 0 then intel_pt_get_next_data false else mret 0);
    TRY parse_packet;
    d ← get;
    if bool_decide (pkt_type (d_packet d) = INTEL_PT_PAD) then next_packet_loop n'
    else mret 0
  end.

Definition intel_pt_get_next_packet : M D Z :=
  modify (fun d => d <| d_last_packet_type := pkt_type (d_packet d) |>) ;;
  next_packet_loop fuel.

(** ** The search for a PSB *)

(** [for (i = INTEL_PT_PSB_LEN - 1; i; i--)] *)
Fixpoint part_psb_loop (i : nat) (buf : list byte) (len : Z) : option Z :=
  match i with
  | O => Some 0
  | S i' =>
    if len <? Z.of_nat i then part_psb_loop i' buf len
    else
      s ← slice buf (len - Z.of_nat i) (Z.of_nat i);
      if bool_decide (s = take i INTEL_PT_PSB_STR) then Some (Z.of_nat i)
      else part_psb_loop i' buf len
  end.

Definition intel_pt_part_psb (d : intel_pt_decoder) : option Z :=
  part_psb_loop (Z.to_nat (INTEL_PT_PSB_LEN - 1)) (d_buf d) (d_len d).

Definition intel_pt_rest_psb (d : intel_pt_decoder) (part_psb : Z) : option Z :=
  let rest_psb := u64 (INTEL_PT_PSB_LEN - part_psb) in
  if d_len d <? rest_psb then Some 0
  else
    s ← slice (d_buf d) 0 rest_psb;
    p ← slice INTEL_PT_PSB_STR part_psb rest_psb;
    Some (if bool_decide (s = p) then rest_psb else 0).

Definition intel_pt_get_split_psb (part_psb : Z) : M D Z :=
  modify (fun d => d <| d_pos := u64 (d_pos d + d_len d) |> <| d_len := 0 |>) ;;
  TRY intel_pt_get_next_data false;
  d ← get;
  rest_psb ← lift (intel_pt_rest_psb d part_psb);
  if rest_psb =? 0 then mret 0
  else
    modify (fun d =>
      d <| d_pos := u64 (d_pos d - part_psb) |>
        <| d_next_buf := Some (drop (Z.to_nat rest_psb) (d_buf d)) |>
        <| d_next_len := u64 (d_len d - rest_psb) |>) ;;
    copy_to_temp 0 INTEL_PT_PSB_STR INTEL_PT_PSB_LEN ;;
    modify (fun d => d <| d_buf := d_temp_buf d |> <| d_len := INTEL_PT_PSB_LEN |>) ;;
    mret 0.

(** The buffer has no whole PSB: go to the next one, with the beginning of a
    PSB if it ends with one. *)
Definition scan_miss : M D Z :=
  d ← get;
  part_psb ← lift (intel_pt_part_psb d);
  if negb (part_psb =? 0) then intel_pt_get_split_psb part_psb
  else
    modify (fun d => d <| d_pos := u64 (d_pos d + d_len d) |> <| d_len := 0 |>) ;;
    mret 0.

Fixpoint scan_for_psb_loop (n : nat) : M D Z :=
  match n with
  | O => no_fuel
  | S n' =>
    d ← get;
    TRY (if d_len d =? 0 then intel_pt_get_next_data false else mret 0);
    d ← get;
    hay ← lift (slice (d_buf d) 0 (d_len d));
    match memmem hay INTEL_PT_PSB_STR with
    | None =>
      TRY scan_miss;
      scan_for_psb_loop n'
    | Some next =>
      modify (fun d => d <| d_pkt_step := next |>) ;;
      intel_pt_get_next_packet
    end
  end.

Definition intel_pt_scan_for_psb : M D Z := scan_for_psb_loop fuel.
End reader.
