(* ===== verification/PktStream.v ===== *)
(** An encoder of packets and its inverse, and streams of packets with padding. *)
From Stdlib Require Import ZArith Lia List Bool.
From S2P Require Import Prelude PktDecoder PktBounds PtStack Float64 PtState PtTime PtReader.
Open Scope Z_scope.
Open Scope c_scope.
Import ListNotations.

(** ** Reference encoder

    The byte layout of each packet.  [pkt_canon ctx p] says that [p] is a packet
    the format can express in the block context [ctx]. *)

Definition ip_opcode (t : intel_pt_pkt_type) : Z :=
  match t with
  | INTEL_PT_TIP => 0x0D | INTEL_PT_TIP_PGE => 0x11 | INTEL_PT_TIP_PGD => 0x01 | _ => 0x1D
  end.

Definition ip_bytes (count : Z) : nat :=
  match count with
  | 1 => 2%nat | 2 => 4%nat | 3 => 6%nat | 4 => 6%nat | 6 => 8%nat | _ => 0%nat
  end.

(** Cycle counts: 5 bits in the header, then 7 bits a byte, the low bit of each
    byte telling whether another follows. *)
Fixpoint cyc_ext (n : nat) (w : Z) : list byte :=
  match n with
  | O => []
  | S n' =>
    if w <? 128 then [zb (2 * w)]
    else zb (2 * (w mod 128) + 1) :: cyc_ext n' (w / 128)
  end.

Definition cyc_encode (v : Z) : list byte :=
  if v <? 32 then [zb (8 * v + 3)] else zb (8 * (v mod 32) + 7) :: cyc_ext 9 (v / 32).

(** The bits of the outcomes of a TNT packet, below a stop bit. *)
Definition tnt_stop (c v : Z) : Z := 2 ^ c + v .>> (64 - c).

(** Up to six outcomes can be sent in one byte.  A byte like it is a block item
    within a block, and the payload a long TNT packet is decoded to has more than
    the outcomes in it. *)
Definition is_short_tnt (ctx : intel_pt_pkt_ctx) (c v : Z) : bool :=
  bool_decide (ctx = INTEL_PT_NO_CTX) && (c <=? 6) && (v mod 2 ^ (64 - c) =? 0).

Definition pkt_encode (ctx : intel_pt_pkt_ctx) (p : intel_pt_pkt) : list byte :=
  let c := pkt_count p in
  let v := pkt_payload p in
  match pkt_type p with
  | INTEL_PT_BAD => []
  | INTEL_PT_PAD => [x00]
  | INTEL_PT_TNT =>
    if is_short_tnt ctx c v then [zb (2 * tnt_stop c v)] else [x02; xa3] ++ le_bytes 6 (tnt_stop c v)
  | INTEL_PT_TIP | INTEL_PT_TIP_PGE | INTEL_PT_TIP_PGD | INTEL_PT_FUP =>
    zb (32 * c + ip_opcode (pkt_type p)) :: le_bytes (ip_bytes c) v
  | INTEL_PT_TSC => x19 :: le_bytes 7 v
  | INTEL_PT_TMA => [x02; x73] ++ le_bytes 2 v ++ [x00; zb c; zb (c .>> 8)]
  | INTEL_PT_MODE_EXEC => [x99; zb c]
  | INTEL_PT_MODE_TSX => [x99; zb (32 + v)]
  | INTEL_PT_MTC => [x59; zb v]
  | INTEL_PT_CYC => cyc_encode v
  | INTEL_PT_VMCS => [x02; xc8] ++ le_bytes 5 v
  | INTEL_PT_PSB => INTEL_PT_PSB_STR
  | INTEL_PT_PSBEND => [x02; x23]
  | INTEL_PT_CBR => [x02; x03] ++ le_bytes 2 v
  | INTEL_PT_TRACESTOP => [x02; x83]
  | INTEL_PT_PIP => [x02; x43] ++ le_bytes 6 v
  | INTEL_PT_OVF => [x02; xf3]
  | INTEL_PT_MNT => [x02; xc3; x88] ++ le_bytes 8 v
  | INTEL_PT_PTWRITE =>
    if c =? 0 then [x02; x12] ++ le_bytes 4 v else [x02; x32] ++ le_bytes 8 v
  | INTEL_PT_PTWRITE_IP =>
    if c =? 0 then [x02; x92] ++ le_bytes 4 v else [x02; xb2] ++ le_bytes 8 v
  | INTEL_PT_EXSTOP => [x02; x62]
  | INTEL_PT_EXSTOP_IP => [x02; xe2]
  | INTEL_PT_MWAIT => [x02; xc2] ++ le_bytes 8 v
  | INTEL_PT_PWRE => [x02; x22] ++ le_bytes 2 v
  | INTEL_PT_PWRX => [x02; xa2] ++ le_bytes 5 v
  | INTEL_PT_BBP => [x02; x63; zb (128 * c + v)]
  | INTEL_PT_BIP =>
    zb (8 * c + 4) :: le_bytes (match ctx with INTEL_PT_BLK_4_CTX => 4%nat | _ => 8%nat end) v
  | INTEL_PT_BEP => [x02; x33]
  | INTEL_PT_BEP_IP => [x02; xb3]
  | INTEL_PT_CFE => [x02; x13; zb c; zb v]
  | INTEL_PT_CFE_IP => [x02; x13; zb (128 + c); zb v]
  | INTEL_PT_EVD => [x02; x53; zb c] ++ le_bytes 8 v
  end.

Definition exec_mode_of (c : Z) : option Z :=
  match c .& 3 with 0 => Some 16 | 1 => Some 64 | 2 => Some 32 | _ => None end.

(** What the packet decoder makes of the six payload bytes [v] of a long TNT
    packet: its outcomes from bit 63 down, above the stop bit that has been shifted
    out, and below them the two bytes of its header. *)
Definition long_tnt_payload (v : Z) : Z :=
  u64 ((v * 2 ^ 16 + 0xa302) * 2 ^ (48 - Z.log2 v)).

Definition pkt_canon (ctx : intel_pt_pkt_ctx) (p : intel_pt_pkt) : Prop :=
  pkt_wf p /\
  match pkt_type p with
  | INTEL_PT_TNT =>
    1 <= pkt_count p /\
    (is_short_tnt ctx (pkt_count p) (pkt_payload p) = true \/
     pkt_payload p = long_tnt_payload (tnt_stop (pkt_count p) (pkt_payload p)))
  | INTEL_PT_MODE_EXEC => exec_mode_of (pkt_count p) = Some (pkt_payload p)
  | INTEL_PT_BIP =>
    match ctx with
    | INTEL_PT_NO_CTX => False
    | INTEL_PT_BLK_4_CTX => pkt_payload p < 2 ^ 32
    | INTEL_PT_BLK_8_CTX => True
    end
  | _ => True
  end.

(** ** The decoder inverts the encoder *)

Definition decodes (ctx : intel_pt_pkt_ctx) (p : intel_pt_pkt) : Prop :=
  forall rest, let buf := pkt_encode ctx p ++ rest in
  Z.of_nat (length buf) < 2 ^ 64 ->
  intel_pt_do_get_packet buf (Z.of_nat (length buf)) ctx =
    Some (Z.of_nat (length (pkt_encode ctx p)), p).

Lemma rd_0 b buf : rd (b :: buf) 0 = Some (bz b).
Proof. done. Qed.

Lemma rd_1 a b buf : rd (a :: b :: buf) 1 = Some (bz b).
Proof. done. Qed.

Lemma rd_2 a b c buf : rd (a :: b :: c :: buf) 2 = Some (bz c).
Proof. done. Qed.

Lemma rd_3 a b c d buf : rd (a :: b :: c :: d :: buf) 3 = Some (bz d).
Proof. done. Qed.

(** A header byte other than a block item reaches the common part. *)
Lemma do_get_header b buf len ctx :
  0 < len -> (ctx = INTEL_PT_NO_CTX \/ bz b .& 7 <> 4) ->
  intel_pt_do_get_packet (b :: buf) len ctx =
    do_get_packet_no_bip (bz b) (b :: buf) len zero_pkt.
Proof.
  intros Hl Hb. unfold intel_pt_do_get_packet.
  destruct (Z.eqb_spec len 0); [lia|]. rewrite rd_0. cbn [mbind option_bind].
  destruct ctx; [done| |]; destruct (Z.eqb_spec (bz b .& 7) 4); try done;
    destruct Hb; congruence.
Qed.

Lemma do_get_ext b buf len ctx :
  2 <= len ->
  intel_pt_do_get_packet (x02 :: b :: buf) len ctx =
    intel_pt_get_ext (x02 :: b :: buf) len zero_pkt.
Proof. intros. rewrite do_get_header by (lia || by right). done. Qed.

(** [len_ok] discharges a length test of the decoder. *)
Ltac len_ok :=
  match goal with
  | |- context [?x <? ?y] =>
    let H := fresh in destruct (Z.ltb_spec x y) as [H|H];
    [exfalso; cbn [length app] in H; rewrite ?length_app, ?length_le_bytes in H;
     cbn [length] in H; lia|]
  end.

Lemma memcpy_le64_app pre n v rest off :
  off = Z.of_nat (length pre) ->
  memcpy_le64 0 (pre ++ le_bytes n v ++ rest) off n = Some (v mod 256 ^ Z.of_nat n).
Proof. intros. rewrite memcpy_le64_zero. by apply rd_le_app. Qed.

(** [load pre] reads the little-endian field that follows the bytes [pre]. *)
Ltac load pre :=
  match goal with
  | |- context [memcpy_le64 ?d ?buf ?off ?n] =>
    change d with 0;
    let t := match buf with context [le_bytes n ?v ++ ?r] => constr:((v, r)) end in
    match t with (?v, ?r) =>
      change buf with (pre ++ le_bytes n v ++ r); rewrite (memcpy_le64_app pre) by done
    end
  | |- context [rd_le ?buf ?off ?n] =>
    let t := match buf with context [le_bytes n ?v ++ ?r] => constr:((v, r)) end in
    match t with (?v, ?r) =>
      change buf with (pre ++ le_bytes n v ++ r); rewrite (rd_le_app pre) by done
    end
  end; cbn [mbind option_bind].

Ltac ext_header :=
  cbn [pkt_encode pkt_type pkt_count pkt_payload app]; rewrite do_get_ext by (cbn [length]; lia);
  unfold intel_pt_get_ext; len_ok; rewrite rd_1; cbn [mbind option_bind];
  repeat match goal with
  | |- context [bz ?b] => let z := eval vm_compute in (bz b) in change (bz b) with z
  end;
  match goal with
  | |- context [?a .& 31 =? 18] =>
    let r := eval vm_compute in (a .& 31 =? 18) in change (a .& 31 =? 18) with r
  end; cbv match.

Lemma some_pkt_eq (n m : Z) (p q : intel_pt_pkt) :
  n = m -> p = q -> Some (n, p) = Some (m, q).
Proof. by intros -> ->. Qed.

Ltac pkt_eq := apply some_pkt_eq;
  [cbn [length]; rewrite ?length_le_bytes; reflexivity
  |cbv beta iota delta [upd set_pkt_type set_pkt_count set_pkt_payload pkt_type pkt_count
     pkt_payload zero_pkt]; f_equal; rewrite ?Z.mod_small by (cbn; lia); try done].

Section roundtrip.
Context (ctx : intel_pt_pkt_ctx) (c v : Z).

Lemma rt_pip : c = 0 -> 0 <= v < 2 ^ 48 -> decodes ctx (mkPkt INTEL_PT_PIP c v).
Proof.
  intros -> Hv rest buf Hb. subst buf. ext_header.
  unfold intel_pt_get_pip. len_ok. load [x02; x43]. pkt_eq.
Qed.

Lemma rt_cbr : c = 0 -> 0 <= v < 2 ^ 16 -> decodes ctx (mkPkt INTEL_PT_CBR c v).
Proof.
  intros -> Hv rest buf Hb. subst buf. ext_header.
  unfold intel_pt_get_cbr. len_ok. load [x02; x03]. pkt_eq.
Qed.

Lemma rt_vmcs : c = 5 -> 0 <= v < 2 ^ 40 -> decodes ctx (mkPkt INTEL_PT_VMCS c v).
Proof.
  intros -> Hv rest buf Hb. subst buf. ext_header.
  unfold intel_pt_get_vmcs. change ((52 - 5) .>> 3) with 5.
  change ((5 <? 1) || (7 <? 5)) with false. cbv match.
  change (Z.to_nat 5) with 5%nat. len_ok. load [x02; xc8]. pkt_eq.
Qed.

Lemma rt_mnt : c = 0 -> 0 <= v < 2 ^ 64 -> decodes ctx (mkPkt INTEL_PT_MNT c v).
Proof.
  intros -> Hv rest buf Hb. subst buf. ext_header.
  unfold intel_pt_get_3byte. len_ok. rewrite rd_2. cbn [mbind option_bind].
  change (bz x88 =? 136) with true. cbv match.
  unfold intel_pt_get_mnt. len_ok. load [x02; xc3; x88]. pkt_eq.
Qed.

Lemma rt_mwait : c = 0 -> 0 <= v < 2 ^ 64 -> decodes ctx (mkPkt INTEL_PT_MWAIT c v).
Proof.
  intros -> Hv rest buf Hb. subst buf. ext_header.
  unfold intel_pt_get_mwait. len_ok. load [x02; xc2]. pkt_eq.
Qed.

Lemma rt_pwre : c = 0 -> 0 <= v < 2 ^ 16 -> decodes ctx (mkPkt INTEL_PT_PWRE c v).
Proof.
  intros -> Hv rest buf Hb. subst buf. ext_header.
  unfold intel_pt_get_pwre. len_ok. load [x02; x22]. pkt_eq.
Qed.

Lemma rt_pwrx : c = 0 -> 0 <= v < 2 ^ 40 -> decodes ctx (mkPkt INTEL_PT_PWRX c v).
Proof.
  intros -> Hv rest buf Hb. subst buf. ext_header.
  unfold intel_pt_get_pwrx. len_ok. load [x02; xa2]. pkt_eq.
Qed.

(** PTWRITE: the header byte selects the operand size and the IP flag. *)
Ltac ptwrite pre :=
  ext_header; unfold intel_pt_get_ptwrite; rewrite rd_1; cbn [mbind option_bind]; pkt_cbn;
  repeat match goal with
  | |- context [bz ?b] => let z := eval vm_compute in (bz b) in change (bz b) with z
  end;
  match goal with
  | |- context [(?a .>> 5) .& 3] =>
    let r := eval vm_compute in ((a .>> 5) .& 3) in change ((a .>> 5) .& 3) with r
  end;
  match goal with
  | |- context [negb (?a .& 128 =? 0)] =>
    let r := eval vm_compute in (negb (a .& 128 =? 0)) in
    change (negb (a .& 128 =? 0)) with r
  end; cbn [Z.eqb Pos.eqb]; cbv match; len_ok; load pre; pkt_eq.

Lemma rt_ptwrite t :
  t = INTEL_PT_PTWRITE \/ t = INTEL_PT_PTWRITE_IP ->
  0 <= v < 2 ^ 64 -> (c = 0 /\ v < 2 ^ 32) \/ c = 1 -> decodes ctx (mkPkt t c v).
Proof.
  intros Ht Hv Hc rest buf Hb. subst buf.
  destruct Ht as [-> | ->], Hc as [[-> Hv']| ->];
    cbn [pkt_encode pkt_type pkt_count pkt_payload Z.eqb] in *.
  - ptwrite [x02; x12].
  - ptwrite [x02; x32].
  - ptwrite [x02; x92].
  - ptwrite [x02; xb2].
Qed.

Lemma rt_psb : c = 0 -> v = 0 -> decodes ctx (mkPkt INTEL_PT_PSB c v).
Proof.
  intros -> -> rest buf Hb. subst buf. cbn [pkt_encode pkt_type].
  unfold INTEL_PT_PSB_STR. ext_header.
  unfold intel_pt_get_psb. len_ok. reflexivity.
Qed.

(** Two-byte packets without fields. *)
Lemma rt_two t :
  c = 0 -> v = 0 ->
  t ∈ [INTEL_PT_PSBEND; INTEL_PT_OVF; INTEL_PT_TRACESTOP; INTEL_PT_EXSTOP;
       INTEL_PT_EXSTOP_IP; INTEL_PT_BEP; INTEL_PT_BEP_IP] ->
  decodes ctx (mkPkt t c v).
Proof.
  intros -> -> Ht rest buf Hb. subst buf.
  repeat (apply elem_of_cons in Ht as [->|Ht]); [..|by apply elem_of_nil in Ht];
    ext_header; try reflexivity;
    (unfold intel_pt_get_bep, intel_pt_get_bep_ip; len_ok; reflexivity).
Qed.

Lemma rt_pad : c = 0 -> v = 0 -> decodes ctx (mkPkt INTEL_PT_PAD c v).
Proof.
  intros -> -> rest buf Hb. subst buf. cbn [pkt_encode pkt_type app].
  rewrite do_get_header by (cbn [length]; lia || by right). reflexivity.
Qed.

Lemma rt_tsc : c = 0 -> 0 <= v < 2 ^ 56 -> decodes ctx (mkPkt INTEL_PT_TSC c v).
Proof.
  intros -> Hv rest buf Hb. subst buf. cbn [pkt_encode pkt_type pkt_payload app].
  rewrite do_get_header by (cbn [length]; lia || by right).
  change (do_get_packet_no_bip (bz x19)) with (fun b l p => intel_pt_get_tsc b l p).
  cbv beta. unfold intel_pt_get_tsc. len_ok. load [x19]. pkt_eq.
Qed.

Lemma bz_zb_small z : 0 <= z < 256 -> bz (zb z) = z.
Proof. intros. rewrite bz_zb. by apply wrap_small. Qed.

Lemma rt_mtc : c = 0 -> 0 <= v < 2 ^ 8 -> decodes ctx (mkPkt INTEL_PT_MTC c v).
Proof.
  intros -> Hv rest buf Hb. subst buf. cbn [pkt_encode pkt_type pkt_payload app].
  rewrite do_get_header by (cbn [length]; lia || by right).
  change (do_get_packet_no_bip (bz x59)) with (fun b l p => intel_pt_get_mtc b l p).
  cbv beta. unfold intel_pt_get_mtc. len_ok. rewrite rd_1. cbn [mbind option_bind].
  rewrite bz_zb_small by done. pkt_eq.
Qed.

Lemma rt_mode_exec :
  0 <= c < 32 -> exec_mode_of c = Some v -> decodes ctx (mkPkt INTEL_PT_MODE_EXEC c v).
Proof.
  intros Hc Hv rest buf Hb. subst buf. cbn [pkt_encode pkt_type pkt_count app].
  rewrite do_get_header by (cbn [length]; lia || by right).
  change (do_get_packet_no_bip (bz x99)) with (fun b l p => intel_pt_get_mode b l p).
  cbv beta. unfold intel_pt_get_mode. len_ok. rewrite rd_1. cbn [mbind option_bind].
  rewrite bz_zb_small by lia.
  rewrite (Z.shiftr_div_pow2 c 5), (Z.div_small c (2 ^ 5)) by lia.
  unfold exec_mode_of in Hv. pose proof (land3_range c).
  destruct (c .& 3) as [|q|q]; [inversion Hv; pkt_eq| |lia].
  repeat (destruct q as [q|q|]; try discriminate); inversion Hv; pkt_eq.
Qed.

Lemma rt_mode_tsx :
  c = 0 -> 0 <= v <= 2 -> decodes ctx (mkPkt INTEL_PT_MODE_TSX c v).
Proof.
  intros -> Hv rest buf Hb. subst buf. cbn [pkt_encode pkt_type pkt_payload app].
  rewrite do_get_header by (cbn [length]; lia || by right).
  change (do_get_packet_no_bip (bz x99)) with (fun b l p => intel_pt_get_mode b l p).
  cbv beta. unfold intel_pt_get_mode. len_ok. rewrite rd_1. cbn [mbind option_bind].
  assert (v = 0 \/ v = 1 \/ v = 2) as [-> | [-> | ->]] by lia; reflexivity.
Qed.

Lemma rt_tma :
  0 <= c < 2 ^ 9 -> 0 <= v < 2 ^ 16 -> decodes ctx (mkPkt INTEL_PT_TMA c v).
Proof.
  intros Hc Hv rest buf Hb. subst buf. ext_header.
  cbn [le_bytes app]. unfold intel_pt_get_tma. len_ok.
  rewrite rd_2, rd_3. cbn [mbind option_bind].
  change (rd _ 5) with (Some (bz (zb c))). cbn [mbind option_bind].
  change (rd _ 6) with (Some (bz (zb (c .>> 8)))). cbn [mbind option_bind].
  pkt_eq.
  - rewrite !bz_zb, Z.shiftr_div_pow2, !wrap_mod by lia.
    change 1 with (2 ^ 1 - 1). rewrite land_pow2_mod by lia.
    pose proof (Z.mod_pos_bound c (2 ^ 8)).
    rewrite lor_shiftl_add by lia. change (2 ^ 8) with 256 in *. change (2 ^ 9) with 512 in *.
    change (2 ^ 1) with 2. Z.div_mod_to_equations. lia.
  - rewrite !bz_zb, !wrap_mod by lia.
    pose proof (Z.mod_pos_bound v (2 ^ 8)).
    rewrite lor_shiftl_add by lia. change (2 ^ 8) with 256 in *. change (2 ^ 16) with 65536 in *.
    Z.div_mod_to_equations. lia.
Qed.

Lemma rt_bbp :
  0 <= c <= 1 -> 0 <= v < 32 -> decodes ctx (mkPkt INTEL_PT_BBP c v).
Proof.
  intros Hc Hv rest buf Hb. subst buf. ext_header.
  unfold intel_pt_get_bbp. len_ok. rewrite rd_2. cbn [mbind option_bind].
  rewrite bz_zb_small by lia. pkt_eq.
  - rewrite Z.shiftr_div_pow2 by lia. change (2 ^ 7) with 128. Z.div_mod_to_equations. lia.
  - change 31 with (2 ^ 5 - 1). rewrite land_pow2_mod by lia. change (2 ^ 5) with 32.
    Z.div_mod_to_equations. lia.
Qed.

Lemma rt_cfe t :
  t = INTEL_PT_CFE \/ t = INTEL_PT_CFE_IP ->
  0 <= c < 32 -> 0 <= v < 2 ^ 8 -> decodes ctx (mkPkt t c v).
Proof.
  intros Ht Hc Hv rest buf Hb. subst buf.
  assert (forallb (fun c => (c .& 128 =? 0) && (c .& 31 =? c) &&
    negb ((128 + c) .& 128 =? 0) && ((128 + c) .& 31 =? c)) (seqZ 0 32) = true) as T
    by reflexivity.
  pose proof (range_forall _ _ T c Hc) as Tc. cbv beta in Tc.
  rewrite !andb_true_iff in Tc. destruct Tc as [[[T1 T2] T3] T4].
  apply Z.eqb_eq in T2, T4.
  destruct Ht as [-> | ->]; ext_header; unfold intel_pt_get_cfe; len_ok;
    rewrite rd_2, rd_3; cbn [mbind option_bind]; rewrite !bz_zb_small by lia;
    rewrite ?T1, ?T2, ?T3, ?T4; pkt_eq.
Qed.

Lemma rt_evd :
  0 <= c < 64 -> 0 <= v < 2 ^ 64 -> decodes ctx (mkPkt INTEL_PT_EVD c v).
Proof.
  intros Hc Hv rest buf Hb. subst buf. ext_header.
  unfold intel_pt_get_evd. len_ok. rewrite rd_2. cbn [mbind option_bind].
  destruct (rd _ 3) as [b3|] eqn:E3; [|done]. cbn [mbind option_bind]. pkt_cbn.
  assert (0 <= b3 < 256) as Hb3.
  { unfold rd in E3. change (3 <? 0) with false in E3. cbv match in E3.
    destruct (_ !! _); [|done]. inversion E3. apply bz_range. }
  unfold memcpy_le64.
  change (x02 :: x53 :: zb c :: le_bytes 8 v ++ rest)
    with ([x02; x53; zb c] ++ le_bytes 8 v ++ rest).
  rewrite rd_le_app by done. cbn [mbind option_bind].
  rewrite (Z.shiftr_div_pow2 b3), (Z.div_small b3), Z.shiftl_0_l, Z.lor_0_l by lia.
  rewrite bz_zb_small by lia. pkt_eq.
  change 63 with (2 ^ 6 - 1). rewrite land_pow2_mod by lia. by apply Z.mod_small.
Qed.

Lemma rt_bip :
  0 <= c < 32 -> 0 <= v < 2 ^ 64 ->
  match ctx with
  | INTEL_PT_NO_CTX => False | INTEL_PT_BLK_4_CTX => v < 2 ^ 32 | INTEL_PT_BLK_8_CTX => True
  end -> decodes ctx (mkPkt INTEL_PT_BIP c v).
Proof.
  intros Hc Hv Hx rest buf Hb. subst buf.
  assert (forallb (fun c => (((8 * c + 4) .& 7 =? 4) && ((8 * c + 4) .>> 3 =? c)))
    (seqZ 0 32) = true) as T by reflexivity.
  pose proof (range_forall _ _ T c Hc) as Tc. cbv beta in Tc.
  apply andb_true_iff in Tc as [T1 T2]. apply Z.eqb_eq in T2.
  cbn [pkt_encode pkt_type pkt_count pkt_payload app].
  unfold intel_pt_do_get_packet.
  destruct (Z.eqb_spec (Z.of_nat (length (zb (8 * c + 4) ::
    le_bytes (match ctx with INTEL_PT_BLK_4_CTX => 4%nat | _ => 8%nat end) v ++ rest))) 0)
    as [E|_]; [cbn [length] in E; lia|].
  rewrite rd_0. cbn [mbind option_bind]. rewrite bz_zb_small, T1 by lia.
  destruct ctx; [done| |].
  - unfold intel_pt_get_bip_4. len_ok. rewrite rd_0. cbn [mbind option_bind].
    load [zb (8 * c + 4)]. rewrite bz_zb_small, T2 by lia. pkt_eq.
  - unfold intel_pt_get_bip_8. len_ok. rewrite rd_0. cbn [mbind option_bind].
    load [zb (8 * c + 4)]. rewrite bz_zb_small, T2 by lia. pkt_eq.
Qed.

Lemma rt_ip t :
  is_ip_type t = true -> 0 <= v -> (exists n, ip_bits c = Some n /\ v < 2 ^ n) ->
  decodes ctx (mkPkt t c v).
Proof.
  intros Ht Hv0 (n & Hn & Hv) rest buf Hb. subst buf.
  assert (c = 0 \/ c = 1 \/ c = 2 \/ c = 3 \/ c = 4 \/ c = 6) as Hc.
  { destruct c as [|q|q]; [by left| |discriminate].
    repeat (destruct q as [q|q|]; try discriminate); tauto. }
  assert (forallb (fun c => (32 * c + ip_opcode t <? 256) && (0 <=? 32 * c + ip_opcode t) &&
    negb ((32 * c + ip_opcode t) .& 7 =? 4)) (seqZ 0 7) = true) as T
    by (destruct t; try discriminate; reflexivity).
  pose proof (range_forall _ _ T c ltac:(lia)) as Tc. cbv beta in Tc.
  rewrite !andb_true_iff, Z.ltb_lt, Z.leb_le, negb_true_iff, Z.eqb_neq in Tc.
  assert (pkt_encode ctx (mkPkt t c v) = zb (32 * c + ip_opcode t) :: le_bytes (ip_bytes c) v) as E
    by (destruct t; try discriminate; reflexivity).
  rewrite E in *. clear E.
  cbn [app]. rewrite do_get_header by (cbn [length]; lia || (rewrite bz_zb_small by lia; tauto)).
  rewrite bz_zb_small by lia.
  assert (do_get_packet_no_bip (32 * c + ip_opcode t) =
          intel_pt_get_ip t (32 * c + ip_opcode t)) as ->.
  { destruct Hc as [-> | [-> | [-> | [-> | [-> | ->]]]]]; destruct t; try discriminate; reflexivity. }
  destruct Hc as [-> | [-> | [-> | [-> | [-> | ->]]]]]; inversion Hn; subst n;
    cbn [ip_bytes]; try (assert (v = 0) as -> by lia; destruct t; try discriminate; reflexivity);
    unfold intel_pt_get_ip; pkt_cbn;
    match goal with |- context [?k * ?m + ip_opcode t] =>
      assert ((k * m + ip_opcode t) .>> 5 = m) as S by (destruct t; try discriminate; reflexivity);
      rewrite S; len_ok; load [zb (k * m + ip_opcode t)] end; pkt_eq.
Qed.

(** Short TNT packets: every outcome list of up to six branches. *)
Lemma rt_tnt :
  1 <= c -> 0 <= v < 2 ^ 64 -> is_short_tnt ctx c v = true -> decodes ctx (mkPkt INTEL_PT_TNT c v).
Proof.
  intros Hc1 Hv Hshort rest buf Hb. subst buf. pose proof Hshort as Hsh. unfold is_short_tnt in Hsh.
  rewrite !andb_true_iff, bool_decide_eq_true, Z.leb_le, Z.eqb_eq in Hsh. destruct Hsh as [[Hctx Hc6] Hm].
  assert (1 <= c <= 6) as Hc by lia.
  set (f := fun c => forallb (fun m =>
    let b := 2 ^ (c + 1) + 2 * m in
    (b <? 256) && (b .& 1 =? 0) && negb (b =? 0) && negb (b =? 2) &&
    bool_decide (intel_pt_get_short_tnt b zero_pkt =
      Some (1, mkPkt INTEL_PT_TNT c (m * 2 ^ (64 - c))))) (seqZ 0 (2 ^ c))).
  assert (forallb (fun c => (c =? 0) || f c) (seqZ 0 7) = true) as T by (vm_compute; reflexivity).
  pose proof (range_forall _ _ T c ltac:(lia)) as Tc. cbv beta in Tc.
  destruct (Z.eqb_spec c 0) as [|_]; [lia|]. cbn [orb] in Tc.
  assert (2 ^ 64 = 2 ^ c * 2 ^ (64 - c)) as Hp
    by (rewrite <- Z.pow_add_r by lia; f_equal; lia).
  assert (0 < 2 ^ (64 - c)) by lia.
  set (m := v / 2 ^ (64 - c)).
  assert (v = m * 2 ^ (64 - c)) as Ev
    by (pose proof (Z.div_mod v (2 ^ (64 - c)) ltac:(lia)); unfold m; lia).
  assert (0 <= m < 2 ^ c) as Hmr.
  { unfold m. split; [apply Z.div_pos; lia|]. apply Z.div_lt_upper_bound; lia. }
  pose proof (range_forall _ _ Tc m Hmr) as Tm. cbv beta zeta in Tm.
  rewrite !andb_true_iff, !negb_true_iff, bool_decide_eq_true, Z.ltb_lt in Tm.
  destruct Tm as [[[[Tb T1] T2] T3] T4].
  cbn [pkt_encode pkt_type pkt_count pkt_payload app]. rewrite Hshort.
  assert (2 * tnt_stop c v = 2 ^ (c + 1) + 2 * m) as ->.
  { unfold tnt_stop. rewrite Z.shiftr_div_pow2, Z.pow_add_r by lia. change (2 ^ 1) with 2. fold m. lia. }
  cbn [app].
  assert (0 < 2 ^ (c + 1)) by lia.
  rewrite do_get_header by (cbn [length]; lia || by left).
  rewrite bz_zb_small by lia. unfold do_get_packet_no_bip.
  rewrite T1, T2, T3, T4, <- Ev. done.
Qed.
End roundtrip.

(** ** TNT packets *)

(** The loop shifts the stop bit up to bit 63. *)
Lemma long_tnt_loop_spec n : forall x j,
  0 < x < 2 ^ 64 -> Z.log2 x = 63 - j -> 0 <= j ->
  long_tnt_loop n x =
    if j <=? Z.of_nat n then (Z.of_nat n - j, x * 2 ^ j) else (0, x * 2 ^ Z.of_nat n).
Proof.
  induction n as [|n IH]; intros x j Hx Hj H0; cbn [long_tnt_loop].
  - destruct (Z.leb_spec j (Z.of_nat 0)); [|f_equal; cbn; lia].
    replace j with 0 by lia. f_equal; cbn; lia.
  - pose proof (Z.log2_spec x ltac:(lia)) as [L1 L2]. rewrite Hj in L1, L2.
    assert (x .& BIT63 = 0 <-> 0 < j) as Hbit.
    { change BIT63 with (1 .<< 63). split.
      - intros E. destruct (Z.eq_dec j 0) as [->|]; [|lia]. exfalso.
        assert (Z.testbit (x .& (1 .<< 63)) 63 = false) as T by (rewrite E; apply Z.testbit_0_l).
        rewrite Z.land_spec in T. replace 63 with (Z.log2 x) in T at 1 by lia.
        rewrite Z.bit_log2 in T by lia. done.
      - intros. apply (land_shiftl_0 63). split; [lia|].
        eapply Z.lt_le_trans; [exact L2|]. apply Z.pow_le_mono_r; lia. }
    destruct (Z.eqb_spec (x .& BIT63) 0) as [E|E]; cbn [negb].
    + assert (0 < j) as Hj0 by (by apply Hbit).
      assert (x < 2 ^ 63) by (eapply Z.lt_le_trans; [exact L2|]; apply Z.pow_le_mono_r; lia).
      rewrite Z.shiftl_mul_pow2, u64_small by lia. change (2 ^ 1) with 2.
      rewrite (IH _ (j - 1)); [|lia| |lia].
      2: { rewrite Z.mul_comm, Z.log2_double by lia. lia. }
      destruct (Z.leb_spec (j - 1) (Z.of_nat n)), (Z.leb_spec j (Z.of_nat (S n))); try lia.
      * f_equal; [lia|]. replace j with (Z.succ (j - 1)) at 2 by lia.
        rewrite Z.pow_succ_r by lia. lia.
      * f_equal. rewrite Nat2Z.inj_succ, Z.pow_succ_r by lia. lia.
    + assert (j = 0) as -> by (destruct (Z.eq_dec j 0); [done|]; destruct E; apply Hbit; lia).
      destruct (Z.leb_spec 0 (Z.of_nat (S n))); [|lia]. f_equal; lia.
Qed.

Lemma le_bytes_cons n b z : le_bytes (S n) (bz b + 256 * z) = b :: le_bytes n z.
Proof.
  pose proof (bz_range b). cbn [le_bytes]. rewrite (Z.mul_comm 256). f_equal.
  - apply bz_inj. rewrite bz_zb, wrap_mod by lia. change (2 ^ 8) with 256.
    rewrite Z.mod_add by lia. by apply Z.mod_small.
  - rewrite Z.div_add, Z.div_small by lia. done.
Qed.

Lemma get_long_tnt_spec ctx v rest :
  0 <= v < 2 ^ 48 ->
  let buf := [x02; xa3] ++ le_bytes 6 v ++ rest in
  intel_pt_do_get_packet buf (Z.of_nat (length buf)) ctx =
    Some (8, mkPkt INTEL_PT_TNT (Z.log2 v) (long_tnt_payload v)).
Proof.
  intros Hv buf. subst buf. cbn [app].
  assert (8 <= Z.of_nat (length (x02 :: xa3 :: le_bytes 6 v ++ rest)))
    by (cbn [length]; rewrite length_app, length_le_bytes; lia).
  rewrite do_get_ext by lia. unfold intel_pt_get_ext.
  destruct (Z.ltb_spec (Z.of_nat (length (x02 :: xa3 :: le_bytes 6 v ++ rest))) 2); [lia|].
  rewrite rd_1. cbn [mbind option_bind]. change (bz xa3) with 0xa3.
  change (0xa3 .& 31 =? 18) with false. cbv match. unfold intel_pt_get_long_tnt.
  destruct (Z.ltb_spec (Z.of_nat (length (x02 :: xa3 :: le_bytes 6 v ++ rest))) 8); [lia|].
  assert (x02 :: xa3 :: le_bytes 6 v ++ rest = [] ++ le_bytes 8 (v * 2 ^ 16 + 0xa302) ++ rest) as ->.
  { replace (v * 2 ^ 16 + 0xa302) with (bz x02 + 256 * (bz xa3 + 256 * v)) by (vm_compute (bz _); lia).
    by rewrite !le_bytes_cons. }
  rewrite (rd_le_app []) by done. cbn [mbind option_bind].
  rewrite Z.mod_small by (cbn; lia).
  destruct (Z.eq_dec v 0) as [->|Hv0]; [by vm_compute|].
  assert (Z.log2 (v * 2 ^ 16 + 0xa302) = Z.log2 v + 16) as Hlog.
  { pose proof (Z.log2_spec v ltac:(lia)) as [L1 L2]. apply Z.log2_unique; [pose proof (Z.log2_nonneg v); lia|].
    pose proof (Z.log2_nonneg v).
    replace (Z.succ (Z.log2 v + 16)) with (Z.succ (Z.log2 v) + 16) by lia.
    rewrite !Z.pow_add_r by lia. lia. }
  assert (Z.log2 v < 48) by (apply Z.log2_lt_pow2; lia). pose proof (Z.log2_nonneg v).
  rewrite (long_tnt_loop_spec 47 _ (47 - Z.log2 v)) by lia.
  destruct (Z.leb_spec (47 - Z.log2 v) (Z.of_nat 47)); [|lia].
  replace (Z.of_nat 47 - (47 - Z.log2 v)) with (Z.log2 v) by lia.
  unfold long_tnt_payload. rewrite Z.shiftl_mul_pow2, <- Z.mul_assoc by lia.
  rewrite <- Z.pow_add_r by lia. replace (47 - Z.log2 v + 1) with (48 - Z.log2 v) by lia. done.
Qed.

(** Its top bits are the outcomes, oldest first. *)
Lemma long_tnt_payload_bits v :
  0 < v < 2 ^ 48 -> long_tnt_payload v .>> (64 - Z.log2 v) = v - 2 ^ Z.log2 v.
Proof.
  intros Hv. unfold long_tnt_payload. pose proof (Z.log2_spec v ltac:(lia)) as [L1 L2].
  assert (Z.log2 v < 48) by (apply Z.log2_lt_pow2; lia). pose proof (Z.log2_nonneg v).
  set (c := Z.log2 v) in *. rewrite Z.pow_succ_r in L2 by lia.
  rewrite u64_mod, Z.shiftr_div_pow2 by lia.
  set (w := (v - 2 ^ c) * 2 ^ 16 + 0xa302).
  assert (0 < 2 ^ (48 - c)) by lia.
  assert (2 ^ 64 = 2 ^ (48 - c) * (2 ^ c * 2 ^ 16)) as E1
    by (rewrite <- !Z.pow_add_r by lia; f_equal; lia).
  assert (2 ^ (64 - c) = 2 ^ (48 - c) * 2 ^ 16) as E2
    by (rewrite <- !Z.pow_add_r by lia; f_equal; lia).
  replace ((v * 2 ^ 16 + 0xa302) * 2 ^ (48 - c)) with (w * 2 ^ (48 - c) + 1 * 2 ^ 64)
    by (rewrite E1; unfold w; lia).
  rewrite Z.mod_add by lia. rewrite Z.mod_small by (rewrite E1; unfold w; nia).
  rewrite E2, (Z.mul_comm (2 ^ (48 - c))), Z.div_mul_cancel_r by lia.
  unfold w. rewrite Z.div_add_l by lia. rewrite Z.div_small by lia. lia.
Qed.

Lemma long_tnt_not_short v : 0 < v < 2 ^ 48 -> long_tnt_payload v mod 2 ^ (64 - Z.log2 v) <> 0.
Proof.
  intros Hv Hm. pose proof (long_tnt_payload_bits v Hv) as E. revert Hm E. unfold long_tnt_payload.
  pose proof (Z.log2_spec v ltac:(lia)) as [L1 L2]. assert (Z.log2 v < 48) by (apply Z.log2_lt_pow2; lia).
  pose proof (Z.log2_nonneg v). set (c := Z.log2 v) in *. intros Hm _.
  assert (0 < 2 ^ (48 - c)) by lia.
  assert (2 ^ 64 = 2 ^ (64 - c) * 2 ^ c) as E1 by (rewrite <- Z.pow_add_r by lia; f_equal; lia).
  assert (2 ^ (64 - c) = 2 ^ (48 - c) * 2 ^ 16) as E2 by (rewrite <- Z.pow_add_r by lia; f_equal; lia).
  rewrite u64_mod in Hm. apply Z.mod_divide in Hm; [|lia]. destruct Hm as [k Hk].
  pose proof (Z.div_mod ((v * 2 ^ 16 + 0xa302) * 2 ^ (48 - c)) (2 ^ 64) ltac:(lia)) as Hd.
  set (q := _ / _) in Hd. rewrite Hk, E1, E2 in Hd.
  assert (v * 2 ^ 16 + 0xa302 = 2 ^ 16 * (2 ^ c * q + k)) by nia. lia.
Qed.

Lemma tnt_stop_range c v : 0 <= c <= 47 -> 0 <= v < 2 ^ 64 -> 0 < tnt_stop c v < 2 ^ 48 /\ Z.log2 (tnt_stop c v) = c.
Proof.
  intros Hc Hv. unfold tnt_stop. rewrite Z.shiftr_div_pow2 by lia.
  assert (2 ^ 64 = 2 ^ (64 - c) * 2 ^ c) as E1 by (rewrite <- Z.pow_add_r by lia; f_equal; lia).
  assert (0 <= v / 2 ^ (64 - c) < 2 ^ c) as Hm by (split; [apply Z.div_pos; lia|apply Z.div_lt_upper_bound; lia]).
  assert (2 ^ c <= 2 ^ 47) by (apply Z.pow_le_mono_r; lia). assert (0 < 2 ^ c) by lia.
  split; [lia|]. apply Z.log2_unique; [lia|]. rewrite Z.pow_succ_r by lia. lia.
Qed.

(** Long TNT packets, in any block context. *)
Lemma rt_long_tnt ctx c v : 1 <= c <= 47 -> 0 <= v < 2 ^ 64 -> v = long_tnt_payload (tnt_stop c v) ->
  decodes ctx (mkPkt INTEL_PT_TNT c v).
Proof.
  intros Hc Hv E rest buf Hb. subst buf. cbn [pkt_encode pkt_type pkt_count pkt_payload].
  destruct (tnt_stop_range c v ltac:(lia) Hv) as [Hs Hlog].
  assert (is_short_tnt ctx c v = false) as ->.
  { unfold is_short_tnt. pose proof (long_tnt_not_short _ Hs) as Hn. rewrite Hlog, <- E in Hn.
    apply Z.eqb_neq in Hn. by rewrite Hn, andb_false_r. }
  rewrite <- (assoc_L (++)). rewrite get_long_tnt_spec by lia. by rewrite Hlog, <- E.
Qed.

(** ** CYC packets *)

Lemma rd_drop buf i b rest :
  0 <= i -> drop (Z.to_nat i) buf = b :: rest ->
  rd buf i = Some (bz b) /\ drop (Z.to_nat (i + 1)) buf = rest.
Proof.
  intros Hi Hd. split.
  - unfold rd. destruct (Z.ltb_spec i 0); [lia|].
    assert (buf !! Z.to_nat i = Some b) as ->; [|done].
    rewrite <- (Nat.add_0_r (Z.to_nat i)), <- lookup_drop, Hd. done.
  - replace (Z.to_nat (i + 1)) with (S (Z.to_nat i)) by lia.
    replace (S (Z.to_nat i)) with (Z.to_nat i + 1)%nat by lia.
    rewrite <- drop_drop, Hd. done.
Qed.

Lemma land1_even w : (2 * w) .& 1 = 0.
Proof. change 1 with (2 ^ 1 - 1). rewrite land_pow2_mod by lia. rewrite Z.mul_comm. by apply Z.mod_mul. Qed.

Lemma land1_odd w : (2 * w + 1) .& 1 = 1.
Proof.
  change 1 with (2 ^ 1 - 1) at 2. rewrite land_pow2_mod by lia.
  rewrite Z.add_comm, Z.mul_comm. by rewrite Z.mod_add.
Qed.

Lemma shiftr1_double w r : 0 <= r < 2 -> (2 * w + r) .>> 1 = w.
Proof. intros. rewrite Z.shiftr_div_pow2 by lia. change (2 ^ 1) with 2. Z.div_mod_to_equations. lia. Qed.

(** The loop reads an extension field back, whatever it has accumulated. *)
Lemma cyc_loop_encode n : forall fuel buf offs shift byte payload w l rest,
  (n <= fuel)%nat -> (1 <= n)%nat -> 1 <= offs -> offs + Z.of_nat n = 10 -> 0 <= shift ->
  drop (Z.to_nat offs) buf = cyc_ext n w ++ rest ->
  byte .& 1 <> 0 -> 0 <= w < 128 ^ Z.of_nat n -> 0 <= payload < 2 ^ shift ->
  w * 2 ^ shift < 2 ^ 64 -> offs + Z.of_nat (length (cyc_ext n w)) <= l + 1 ->
  cyc_loop fuel buf l offs shift byte payload =
    Some (inr (offs + Z.of_nat (length (cyc_ext n w)), payload + w * 2 ^ shift)).
Proof.
  induction n as [|n IH]; intros fuel buf offs shift byte payload w l rest
    Hf Hn Ho Hon Hs Hd Hby Hw Hp Hw64 Hl; [lia|].
  destruct fuel as [|fuel]; [lia|]. cbn [cyc_ext] in *.
  cbn [cyc_loop]. destruct (Z.eqb_spec (byte .& 1) 0); [done|].
  destruct (Z.ltb_spec 9 offs); [lia|].
  destruct (Z.ltb_spec w 128) as [Hw7|Hw7]; cbn [app length] in *.
  - destruct (Z.ltb_spec l offs); [lia|].
    destruct (rd_drop buf offs _ _ ltac:(lia) Hd) as [-> _]. cbn [mbind option_bind].
    rewrite bz_zb_small by lia.
    pose proof (shiftr1_double w 0 ltac:(lia)) as S1. rewrite Z.add_0_r in S1. rewrite S1.
    rewrite u64_small, lor_shiftl_add
      by (try done; rewrite Z.shiftl_mul_pow2 by lia; lia).
    destruct fuel; cbn [cyc_loop]; rewrite land1_even; cbn [Z.eqb]; repeat f_equal; lia.
  - destruct (Z.ltb_spec l offs); [lia|].
    destruct (rd_drop buf offs _ _ ltac:(lia) Hd) as [-> Hd']. cbn [mbind option_bind].
    pose proof (Z.mod_pos_bound w 128 ltac:(lia)) as Hm.
    pose proof (Z.div_mod w 128 ltac:(lia)) as Hdm.
    rewrite bz_zb_small by lia.
    rewrite shiftr1_double by lia.
    assert ((w mod 128) * 2 ^ shift <= w * 2 ^ shift) by nia.
    rewrite u64_small, lor_shiftl_add
      by (try done; rewrite Z.shiftl_mul_pow2 by lia; lia).
    rewrite Nat2Z.inj_succ, Z.pow_succ_r in Hw by lia.
    assert (1 <= n)%nat.
    { destruct n; [|lia]. simpl in Hw. lia. }
    assert (2 ^ (shift + 7) = 128 * 2 ^ shift) as E7 by (rewrite Z.pow_add_r by lia; lia).
    assert (w / 128 * 2 ^ (shift + 7) + w mod 128 * 2 ^ shift = w * 2 ^ shift) as Esum
      by (rewrite E7; nia).
    rewrite (IH _ _ _ _ _ _ (w / 128) _ rest); try lia; try done.
    + do 2 f_equal; f_equal; lia.
    + by rewrite land1_odd.
    + rewrite E7. nia.
Qed.

Lemma rt_cyc ctx v : 0 <= v < 2 ^ 64 -> decodes ctx (mkPkt INTEL_PT_CYC 0 v).
Proof.
  intros Hv rest buf Hb. subst buf. cbn [pkt_encode pkt_type pkt_payload] in *.
  unfold cyc_encode in *.
  assert (forallb (fun m =>
      let b := 8 * m + 3 in let b' := 8 * m + 7 in
      negb (b .& 7 =? 4) && negb (b' .& 7 =? 4) &&
      negb (b .& 1 =? 0) && negb (b' .& 1 =? 0) && negb (b .& 2 =? 0) && negb (b' .& 2 =? 0) &&
      (b .>> 3 =? m) && (b' .>> 3 =? m) && ((b .>> 2) .& 1 =? 0) && negb ((b' .>> 2) .& 1 =? 0))
    (seqZ 0 32) = true) as T by reflexivity.
  pose proof (Z.mod_pos_bound v 32 ltac:(lia)) as Hm.
  pose proof (range_forall _ _ T (v mod 32) ltac:(lia)) as Tc. cbv beta zeta in Tc.
  rewrite !andb_true_iff, !negb_true_iff in Tc.
  destruct Tc as [[[[[[[[[T1 T2] T3] T4] T5] T6] T7] T8] T9] T10].
  apply Z.eqb_neq in T1, T2. apply Z.eqb_eq in T7, T8.
  destruct (Z.ltb_spec v 32) as [H32|H32]; cbn [app length] in *.
  - rewrite Z.mod_small in * by lia.
    rewrite do_get_header by (lia || (rewrite bz_zb_small by lia; by right)).
    rewrite bz_zb_small by lia. unfold do_get_packet_no_bip. rewrite T3, T5. cbn [negb].
    unfold intel_pt_get_cyc. cbn [cyc_loop]. rewrite T9, T7. cbn [mbind option_bind]. done.
  - set (ext := cyc_ext 9 (v / 32)) in *. rewrite length_app in *.
    rewrite do_get_header by (lia || (rewrite bz_zb_small by lia; by right)).
    rewrite bz_zb_small by lia. unfold do_get_packet_no_bip. rewrite T4, T6. cbn [negb].
    unfold intel_pt_get_cyc. rewrite T8.
    rewrite u64_small by lia.
    pose proof (Z.div_mod v 32 ltac:(lia)) as Hdm.
    rewrite (cyc_loop_encode 9 10 _ 1 5 _ _ (v / 32) _ rest).
    + cbn [mbind option_bind]. apply some_pkt_eq; [fold ext; lia|].
      cbv beta iota delta [upd set_pkt_type set_pkt_payload pkt_type pkt_count pkt_payload zero_pkt].
      f_equal. change (2 ^ 5) with 32. lia.
    + lia.
    + lia.
    + lia.
    + lia.
    + lia.
    + done.
    + by apply Z.eqb_neq.
    + split; [apply Z.div_pos; lia|]. apply Z.div_lt_upper_bound; [lia|].
      change (128 ^ Z.of_nat 9) with (2 ^ 63). lia.
    + lia.
    + change (2 ^ 5) with 32. lia.
    + fold ext. lia.
Qed.

(** The packet decoder inverts the packet format: whatever follows a packet in
    the buffer, it reads the packet back and consumes exactly its bytes. *)
Lemma do_get_packet_encode ctx p : pkt_canon ctx p -> decodes ctx p.
Proof.
  destruct p as [t c v]. intros [[Hv Hwf] Hx]. cbn [pkt_type pkt_count pkt_payload] in *.
  destruct t.
  - destruct Hwf.
  - destruct Hwf; apply rt_pad; lia.
  - destruct Hx as (? & [?|?]); [apply rt_tnt|apply rt_long_tnt]; (done || lia).
  - apply rt_ip; [reflexivity|lia|exact Hwf].
  - apply rt_ip; [reflexivity|lia|exact Hwf].
  - destruct Hwf; apply rt_tsc; lia.
  - destruct Hwf; apply rt_tma; lia.
  - apply rt_mode_exec; [lia|exact Hx].
  - destruct Hwf; apply rt_mode_tsx; lia.
  - destruct Hwf; apply rt_mtc; lia.
  - apply rt_ip; [reflexivity|lia|exact Hwf].
  - apply rt_ip; [reflexivity|lia|exact Hwf].
  - subst c; apply rt_cyc; lia.
  - destruct Hwf; apply rt_vmcs; lia.
  - destruct Hwf; apply rt_psb; lia.
  - destruct Hwf; apply rt_two; [lia|lia|rewrite !elem_of_cons; tauto].
  - destruct Hwf; apply rt_cbr; lia.
  - destruct Hwf; apply rt_two; [lia|lia|rewrite !elem_of_cons; tauto].
  - destruct Hwf; apply rt_pip; lia.
  - destruct Hwf; apply rt_two; [lia|lia|rewrite !elem_of_cons; tauto].
  - apply rt_mnt; lia.
  - apply rt_ptwrite; [by left|lia|exact Hwf].
  - apply rt_ptwrite; [by right|lia|exact Hwf].
  - destruct Hwf; apply rt_two; [lia|lia|rewrite !elem_of_cons; tauto].
  - destruct Hwf; apply rt_two; [lia|lia|rewrite !elem_of_cons; tauto].
  - apply rt_mwait; lia.
  - destruct Hwf; apply rt_pwre; lia.
  - destruct Hwf; apply rt_pwrx; lia.
  - destruct Hwf; apply rt_bbp; lia.
  - apply rt_bip; [lia|lia|exact Hx].
  - destruct Hwf; apply rt_two; [lia|lia|rewrite !elem_of_cons; tauto].
  - destruct Hwf; apply rt_two; [lia|lia|rewrite !elem_of_cons; tauto].
  - apply rt_cfe; [by left|lia|lia].
  - apply rt_cfe; [by right|lia|lia].
  - apply rt_evd; lia.
Qed.

(** Streams of packets: reading back an encoded trace with the decoder's own
    packet loop, padding included, and the contents of TNT packets. *)
Definition pad : intel_pt_pkt := mkPkt INTEL_PT_PAD 0 0.

(** The bytes of a trace that starts in the block context [ctx]. *)
Fixpoint stream_encode (ctx : intel_pt_pkt_ctx) (ps : list intel_pt_pkt) : list byte :=
  match ps with
  | [] => []
  | p :: ps' => pkt_encode ctx p ++ stream_encode (intel_pt_upd_pkt_ctx p ctx) ps'
  end.

Fixpoint stream_canon (ctx : intel_pt_pkt_ctx) (ps : list intel_pt_pkt) : Prop :=
  match ps with
  | [] => True
  | p :: ps' => pkt_canon ctx p /\ stream_canon (intel_pt_upd_pkt_ctx p ctx) ps'
  end.

Definition not_pad (p : intel_pt_pkt) : bool := bool_decide (pkt_type p <> INTEL_PT_PAD).

(** The callback that keeps every packet it is shown. *)
Definition collect : pkt_cb (list intel_pt_pkt) := fun info d x =>
  (0, d, x ++ [pi_packet info]).

Lemma pad_canon ctx p : pkt_canon ctx p -> pkt_type p = INTEL_PT_PAD -> p = pad.
Proof.
  destruct p as [t c v]. intros [[_ Hw] _]. cbn [pkt_type pkt_count pkt_payload] in *.
  intros ->. by destruct Hw as [-> ->].
Qed.

(** Only a PAD packet starts with a zero byte. *)
Lemma encode_head ctx p rest :
  pkt_canon ctx p -> Z.of_nat (length (pkt_encode ctx p ++ rest)) < 2 ^ 64 ->
  exists b bs, pkt_encode ctx p = b :: bs /\ (bz b = 0 -> p = pad).
Proof.
  intros Hc Hl. pose proof (do_get_packet_encode ctx p Hc) as E.
  destruct (pkt_encode ctx p) as [|b bs] eqn:Ep.
  - specialize (E []). rewrite Ep in E. cbn in E. by specialize (E eq_refl).
  - exists b, bs. split; [done|]. intros Hb. specialize (E rest). rewrite Ep in E.
    specialize (E Hl). cbn [app] in E.
    rewrite do_get_header in E; [|cbn [length]; lia|right; by rewrite Hb].
    rewrite Hb in E. change (Some (1, pad) = Some (Z.of_nat (length (b :: bs)), p)) in E.
    by injection E as _ <-.
Qed.

Lemma rd_app_l a b i : 0 <= i < Z.of_nat (length a) -> rd (a ++ b) i = rd a i.
Proof.
  intros. unfold rd. destruct (i <? 0); [done|]. by rewrite lookup_app_l by lia.
Qed.

Lemma rd_app_r a b i : 0 <= i -> rd (a ++ b) (Z.of_nat (length a) + i) = rd b i.
Proof.
  intros. unfold rd. destruct (Z.ltb_spec i 0), (Z.ltb_spec (Z.of_nat (length a) + i) 0); try lia.
  rewrite lookup_app_r by lia. do 2 f_equal. lia.
Qed.

(** Leading zero bytes of a stream are PAD packets. *)
Lemma stream_pads k : forall ctx ps,
  stream_canon ctx ps -> (k <= length (stream_encode ctx ps))%nat ->
  Z.of_nat (length (stream_encode ctx ps)) < 2 ^ 64 ->
  (forall i, 0 <= i < Z.of_nat k -> rd (stream_encode ctx ps) i = Some 0) ->
  exists ps', ps = replicate k pad ++ ps' /\ stream_canon ctx ps' /\
    drop k (stream_encode ctx ps) = stream_encode ctx ps'.
Proof.
  induction k as [|k IH]; intros ctx ps Hc Hk Hl Hz; [by exists ps|].
  destruct ps as [|p ps]; [cbn in Hk; lia|]. cbn [stream_encode stream_canon] in *.
  destruct Hc as [Hp Hc]. destruct (encode_head ctx p _ Hp Hl) as (b & bs & E & Hb).
  rewrite E in *. specialize (Hz 0 ltac:(lia)) as H0. cbn in H0. injection H0 as H0.
  specialize (Hb H0). subst p. cbn in E. injection E as <- <-.
  cbn [pad intel_pt_upd_pkt_ctx pkt_type app] in *.
  destruct (IH ctx ps Hc) as (ps' & -> & Hc' & Hd); cbn [length] in *; [lia|lia| |by exists ps'].
  intros i Hi. rewrite <- (Hz (i + 1)) by lia. symmetry.
  replace (i + 1) with (Z.of_nat (length [x00]) + i) by (cbn; lia). apply (rd_app_r [x00]). lia.
Qed.

(** One call of the packet decoder on a stream: the first packet, and the
    padding that follows it up to eight bytes. *)
Lemma get_packet_stream ctx p ps :
  stream_canon ctx (p :: ps) ->
  let buf := stream_encode ctx (p :: ps) in
  let ctx' := intel_pt_upd_pkt_ctx p ctx in
  Z.of_nat (length buf) < 2 ^ 64 ->
  exists ret k ps', intel_pt_get_packet buf (Z.of_nat (length buf)) ctx = Some (ret, p, ctx') /\
    1 <= ret <= Z.of_nat (length buf) /\ ps = replicate k pad ++ ps' /\
    stream_canon ctx' ps' /\ drop (Z.to_nat ret) buf = stream_encode ctx' ps'.
Proof.
  intros [Hp Hc] buf ctx' Hl. subst buf. cbn [stream_encode] in *.
  fold ctx' in Hc, Hl |- *. set (tail := stream_encode ctx' ps) in *.
  unfold intel_pt_get_packet. rewrite (do_get_packet_encode ctx p Hp tail Hl).
  destruct (encode_head ctx p tail Hp Hl) as (b & bs & E & _).
  set (n := length (pkt_encode ctx p)).
  assert (1 <= n)%nat as Hn by (unfold n; rewrite E; cbn; lia).
  cbn [mbind option_bind]. destruct (Z.ltb_spec 0 (Z.of_nat n)); [|lia].
  set (buf := pkt_encode ctx p ++ tail) in *.
  assert (length buf = (n + length tail)%nat) as Hb by (unfold buf; by rewrite length_app).
  destruct (skip_padding_ok buf (Z.of_nat (length buf)) ltac:(lia) 8 (Z.of_nat n))
    as (r & -> & Hr & _ & Hle & Hz); [lia|lia|]. cbn [mbind option_bind].
  set (k := Z.to_nat (r - Z.of_nat n)).
  destruct (stream_pads k ctx' ps Hc) as (ps' & -> & Hc' & Hd); fold tail; try lia.
  { intros i Hi. rewrite <- (rd_app_r (pkt_encode ctx p)) by lia. apply Hz. unfold k in Hi. lia. }
  exists r, k, ps'. repeat split; try done; try lia. unfold buf.
  rewrite <- Hd. fold tail. replace (Z.to_nat r) with (n + k)%nat by lia.
  rewrite <- drop_drop. unfold n. by rewrite drop_app_length.
Qed.

Lemma stream_length ctx ps : stream_canon ctx ps ->
  Z.of_nat (length (stream_encode ctx ps)) < 2 ^ 64 ->
  (length ps <= length (stream_encode ctx ps))%nat.
Proof.
  revert ctx. induction ps as [|p ps IH]; intros ctx; cbn [stream_encode stream_canon length];
    [lia|]. intros [Hp Hc] Hl. destruct (encode_head ctx p _ Hp Hl) as (b & bs & E & _).
  rewrite length_app in *. specialize (IH _ Hc ltac:(lia)). rewrite E. cbn [length]. lia.
Qed.

(** ** The packet loop on a stream *)

Section feed.
Context {X : Type} (f : intel_pt_pkt -> intel_pt_decoder -> X -> Z * intel_pt_decoder * X).

(** What a lookahead does, packet by packet: it passes over PADs, shows [f] the
    others until [f] asks it to stop, and ends for want of bytes otherwise. *)
Fixpoint feed (ps : list intel_pt_pkt) (d : intel_pt_decoder) (x : X) : Z * intel_pt_decoder * X :=
  match ps with
  | [] => (INTEL_PT_NEED_MORE_BYTES, d, x)
  | p :: ps' =>
    if not_pad p then
      let '(ret, d, x) := f p d x in
      if ret =? 0 then feed ps' d x else (0, d, x)
    else feed ps' d x
  end.

Lemma feed_pads k ps d x : feed (replicate k pad ++ ps) d x = feed ps d x.
Proof. induction k as [|k IH]; [done|]. exact IH. Qed.

(** The lookahead loop on a stream, [pre] being the packet before it. *)
Lemma lookahead_stream n : forall pre ctx ps info d x,
  stream_canon ctx ps -> (length ps < n)%nat ->
  Z.of_nat (length pre) = pi_pkt_len info ->
  Z.of_nat (length (pre ++ stream_encode ctx ps)) < 2 ^ 64 ->
  lookahead_loop n (fun info => f (pi_packet info)) (pre ++ stream_encode ctx ps)
    (Z.of_nat (length (pre ++ stream_encode ctx ps))) ctx info d x = Ret (feed ps d x).
Proof.
  induction n as [|n IH]; intros pre ctx ps info d x Hc Hn Hpre Hl; [lia|].
  cbn [lookahead_loop]. rewrite <- Hpre, Nat2Z.id, drop_app_length.
  rewrite length_app in *. rewrite u64_small by lia.
  replace (Z.of_nat (_ + _) - _) with (Z.of_nat (length (stream_encode ctx ps))) by lia.
  destruct ps as [|p ps]; [done|].
  destruct (get_packet_stream ctx p ps Hc ltac:(lia)) as (ret & k & ps' & -> & Hr & -> & Hc' & Hd).
  set (buf := stream_encode ctx (p :: replicate k pad ++ ps')) in *.
  destruct (Z.eqb_spec (Z.of_nat (length buf)) 0); [lia|].
  destruct (Z.eqb_spec ret 0); [lia|]. destruct (Z.ltb_spec ret 0); [lia|].
  set (ctx' := intel_pt_upd_pkt_ctx p ctx) in *.
  assert (buf = take (Z.to_nat ret) buf ++ stream_encode ctx' ps') as Hb
    by (by rewrite <- Hd, take_drop).
  assert (forall info d x, pi_pkt_len info = ret ->
    lookahead_loop n (fun info => f (pi_packet info)) buf (Z.of_nat (length buf)) ctx' info d x =
    Ret (feed ps' d x)) as Hloop.
  { intros info' d' x' Hi. rewrite Hb. apply IH; [done| | |rewrite <- Hb; lia].
    - revert Hn. cbn [length]. rewrite length_app. lia.
    - rewrite length_take. lia. }
  cbn [feed]. rewrite feed_pads. unfold not_pad.
  case_bool_decide as Ht; [rewrite bool_decide_eq_false_2 by (by intros []); by apply Hloop|].
  rewrite bool_decide_eq_true_2 by done. cbn [pi_packet].
  destruct (f p d x) as [[r d'] x']. destruct (r =? 0); cbn [negb]; [|done].
  rewrite feed_pads. by apply Hloop.
Qed.

(** From a packet on, of which the bytes [pre] are still in the buffer. *)
Lemma pkt_lookahead_stream {D} pre ctx ps x d (e : D) :
  stream_canon ctx ps -> Z.of_nat (length (d_buf d)) < 2 ^ 64 ->
  d_buf d = pre ++ stream_encode ctx ps -> d_len d = Z.of_nat (length (d_buf d)) ->
  d_pkt_step d = Z.of_nat (length pre) -> d_pkt_ctx d = ctx ->
  intel_pt_pkt_lookahead (fun info => f (pi_packet info)) x d e =
    let '(ret, d', x') := feed ps d x in Ret ((ret, x'), d', e).
Proof.
  intros Hc Hl Hb Hn Hs Hx. unfold intel_pt_pkt_lookahead. rewrite Hs, Hx, Hn. rewrite Hb in *.
  rewrite lookahead_stream; [by destruct (feed ps d x) as [[ret d'] x']|done| |done|done].
  rewrite length_app in *. pose proof (stream_length ctx ps Hc ltac:(lia)). lia.
Qed.
End feed.

Lemma filter_not_pad p ps :
  List.filter not_pad (p :: ps) = if not_pad p then p :: List.filter not_pad ps
                                  else List.filter not_pad ps.
Proof. done. Qed.

Lemma feed_collect ps d x :
  feed (fun p d x => (0, d, x ++ [p])) ps d x =
    (INTEL_PT_NEED_MORE_BYTES, d, x ++ List.filter not_pad ps).
Proof.
  revert x. induction ps as [|p ps IH]; intros x; [by rewrite app_nil_r|].
  cbn [feed]. rewrite filter_not_pad. destruct (not_pad p); [|apply IH].
  cbn [Z.eqb]. by rewrite IH, <- app_assoc.
Qed.
