(* ===== verification/PktTheorems.v ===== *)
(** The main theorems on the packet decoder and on the return stack. *)
From Stdlib Require Import ZArith Lia List Bool.
From S2P Require Import Prelude Float64 PktDecoder PktBounds PktStream PtStack PtState PtTime PtReader.
Open Scope Z_scope.
Open Scope c_scope.
Import ListNotations.

Lemma skip_padding_max fuel buf len : forall ret r,
  skip_padding fuel buf len ret = Some r -> r < 8 -> r < len -> rd buf r <> Some 0.
Proof.
  induction fuel as [|fuel IH]; intros ret r; cbn [skip_padding];
    destruct (Z.ltb_spec ret 8), (Z.ltb_spec ret len); cbn [andb]; try (intros [= <-]; lia);
    destruct (rd buf ret) as [b|] eqn:E; cbn [mbind option_bind]; try done;
    destruct (Z.eqb_spec b 0) as [->|]; try done; try (intros [= <-] _ _; congruence).
  apply IH.
Qed.

(** C4: the packet decoder is safe and total.  Whatever the bytes, the length
    and the block context, [intel_pt_get_packet] reads only bytes of the buffer,
    terminates, and either reports an error, leaving the context alone, or
    consumes one packet of at most 16 of the [len] bytes, whose fields are in
    the ranges the format gives them; it then skips the zero bytes that follow,
    as many as there are within the first eight bytes. *)
Theorem get_packet_safe buf len ctx :
  0 <= len <= Z.of_nat (length buf) -> len < 2 ^ 64 ->
  exists ret p ctx', intel_pt_get_packet buf len ctx = Some (ret, p, ctx') /\
    ((ret = INTEL_PT_NEED_MORE_BYTES \/ ret = INTEL_PT_BAD_PACKET) /\ ctx' = ctx \/
     exists n, intel_pt_do_get_packet buf len ctx = Some (n, p) /\
       1 <= n <= ret /\ n <= INTEL_PT_PKT_MAX_SZ /\ ret <= len /\
       pkt_wf p /\ ctx' = intel_pt_upd_pkt_ctx p ctx /\
       (forall i, n <= i < ret -> rd buf i = Some 0) /\
       (ret < 8 -> ret < len -> rd buf ret <> Some 0)).
Proof.
  intros Hl H64. pose proof (do_get_packet_ok buf len Hl ctx H64) as D.
  unfold intel_pt_get_packet. destruct (intel_pt_do_get_packet buf len ctx) as [[n p]|]; [|done].
  cbn [mbind option_bind pkt_ok] in *. destruct D as [->|[->|(Hn & Hm & Hwf)]].
  1, 2: do 3 eexists; split; [done|]; left; tauto.
  destruct (Z.ltb_spec 0 n); [|lia].
  destruct (skip_padding_ok buf len Hl 8 n) as (r & E & ? & ? & Hr & Hz); [lia|lia|].
  rewrite E. do 3 eexists. split; [done|]. right. exists n.
  split; [done|]. split; [lia|]. split; [done|]. split; [lia|]. split; [done|].
  split; [done|]. split; [done|]. by eapply skip_padding_max.
Qed.

Lemma get_packet_safe_witness :
  exists ret p ctx', intel_pt_get_packet [x19; x01; x02; x03; x04; x05; x06; x07; x00] 9
      INTEL_PT_NO_CTX = Some (ret, p, ctx') /\
    ((ret = INTEL_PT_NEED_MORE_BYTES \/ ret = INTEL_PT_BAD_PACKET) /\ ctx' = INTEL_PT_NO_CTX \/
     exists n, intel_pt_do_get_packet [x19; x01; x02; x03; x04; x05; x06; x07; x00] 9
         INTEL_PT_NO_CTX = Some (n, p) /\
       1 <= n <= ret /\ n <= INTEL_PT_PKT_MAX_SZ /\ ret <= 9 /\
       pkt_wf p /\ ctx' = intel_pt_upd_pkt_ctx p INTEL_PT_NO_CTX /\
       (forall i, n <= i < ret ->
          rd [x19; x01; x02; x03; x04; x05; x06; x07; x00] i = Some 0) /\
       (ret < 8 -> ret < 9 ->
          rd [x19; x01; x02; x03; x04; x05; x06; x07; x00] ret <> Some 0)).
Proof.
  apply (get_packet_safe [x19; x01; x02; x03; x04; x05; x06; x07; x00] 9 INTEL_PT_NO_CTX);
    cbn; lia.
Defined.

(** C2: the packet decoder inverts the packet format.  The decoder's own packet
    loop, started by [intel_pt_pkt_lookahead] after a packet whose bytes [pre] are
    still in the buffer, on the bytes of any sequence of packets, with PAD packets
    anywhere among them and block items in the block contexts their BBP packets
    open, each in its shortest form, shows its callback exactly those packets but the
    PADs, in order, and ends for want of bytes.  TNT packets are short, of 1 to 6 outcomes and outside
    blocks, or long, of 1 to 47 outcomes and anywhere. *)
Theorem packet_stream_roundtrip {D} pre ctx ps (d : intel_pt_decoder) (e : D) :
  stream_canon ctx ps -> Z.of_nat (length (d_buf d)) < 2 ^ 64 ->
  d_buf d = pre ++ stream_encode ctx ps -> d_len d = Z.of_nat (length (d_buf d)) ->
  d_pkt_step d = Z.of_nat (length pre) -> d_pkt_ctx d = ctx ->
  intel_pt_pkt_lookahead collect [] d e =
    Ret (INTEL_PT_NEED_MORE_BYTES, List.filter not_pad ps, d, e).
Proof.
  intros Hc Hl Hb Hn Hs Hx.
  pose proof (pkt_lookahead_stream (fun p d x => (0, d, x ++ [p])) pre ctx ps [] d e Hc Hl Hb Hn Hs Hx) as E.
  rewrite feed_collect in E. exact E.
Qed.

(** A long TNT packet of eight outcomes is among them, and one in a block. *)
Definition example_packets : list intel_pt_pkt :=
  [mkPkt INTEL_PT_PSB 0 0; pad; pad; mkPkt INTEL_PT_TSC 0 0x123456789; mkPkt INTEL_PT_PSBEND 0 0;
   mkPkt INTEL_PT_BBP 1 4; mkPkt INTEL_PT_BIP 3 0xabcdef; mkPkt INTEL_PT_TNT 9 (long_tnt_payload 0x2b5);
   mkPkt INTEL_PT_TIP 3 0x7f0012345678; mkPkt INTEL_PT_TNT 3 0xa000000000000000;
   mkPkt INTEL_PT_TNT 8 (long_tnt_payload 0x1c7); pad; mkPkt INTEL_PT_CYC 0 0x12345].

(** After an MTC packet. *)
Definition example_stream : intel_pt_decoder :=
  zero_decoder <| d_buf := [x59; x05] ++ stream_encode INTEL_PT_NO_CTX example_packets |>
    <| d_len := 2 + Z.of_nat (length (stream_encode INTEL_PT_NO_CTX example_packets)) |> <| d_pkt_step := 2 |>.

Lemma packet_stream_roundtrip_witness :
  intel_pt_pkt_lookahead collect [] example_stream tt =
    Ret (INTEL_PT_NEED_MORE_BYTES, List.filter not_pad example_packets, example_stream, tt).
Proof.
  apply (packet_stream_roundtrip [x59; x05] INTEL_PT_NO_CTX example_packets example_stream tt);
    try (vm_compute; reflexivity).
  cbn. unfold pkt_canon, pkt_wf. cbn.
  repeat split; try lia; try (exists 48; split; [done|lia]); first [left; vm_compute; reflexivity|right; vm_compute; reflexivity|by vm_compute].
Defined.

(** C19: the packets are a prefix code.  Where [intel_pt_do_get_packet] finds a
    packet of [ret] bytes, it finds the same packet in any other buffer that begins
    with these bytes, whatever comes after them and however much of it there is; and
    in a buffer that ends within them it asks for more bytes: a packet cut by the
    end of a buffer is never taken for another packet or for a bad one. *)
Theorem packet_prefix_code buf len buf' len' ctx ret p :
  0 <= len < 2 ^ 64 -> 0 <= len' < 2 ^ 64 -> len <= Z.of_nat (length buf) -> len' <= Z.of_nat (length buf') ->
  (forall k, 0 <= k < ret -> k < len' -> rd buf k = rd buf' k) ->
  intel_pt_do_get_packet buf len ctx = Some (ret, p) -> 0 < ret ->
  (len' < ret ->
     exists q, intel_pt_do_get_packet buf' len' ctx = Some (INTEL_PT_NEED_MORE_BYTES, q)) /\
  (ret <= len' -> intel_pt_do_get_packet buf' len' ctx = Some (ret, p)).
Proof. apply do_get_packet_prefix_code. Qed.

(** A TIP packet, the same with other bytes after it, and its first six bytes. *)
Lemma packet_prefix_code_witness :
  let tip := mkPkt INTEL_PT_TIP 3 0x60504030201 in
  intel_pt_do_get_packet [x6d; x01; x02; x03; x04; x05; x06; xff; x00] 9 INTEL_PT_NO_CTX = Some (7, tip) /\
  exists q, intel_pt_do_get_packet [x6d; x01; x02; x03; x04; x05] 6 INTEL_PT_NO_CTX =
    Some (INTEL_PT_NEED_MORE_BYTES, q).
Proof.
  intros tip.
  assert (forall k, 0 <= k < 7 -> k = 0 \/ k = 1 \/ k = 2 \/ k = 3 \/ k = 4 \/ k = 5 \/ k = 6) as Hk by lia.
  split.
  - apply (packet_prefix_code [x6d; x01; x02; x03; x04; x05; x06] 7
      [x6d; x01; x02; x03; x04; x05; x06; xff; x00] 9 INTEL_PT_NO_CTX 7 tip); [lia|lia|done|done| |reflexivity|lia|lia].
    intros k Hr _. destruct (Hk k Hr) as [->|[->|[->|[->|[->|[->| ->]]]]]]; reflexivity.
  - apply (packet_prefix_code [x6d; x01; x02; x03; x04; x05; x06] 7
      [x6d; x01; x02; x03; x04; x05] 6 INTEL_PT_NO_CTX 7 tip); [lia|lia|done|done| |reflexivity|lia|lia].
    intros k Hr Hl. destruct (Hk k Hr) as [->|[->|[->|[->|[->|[->| ->]]]]]]; (reflexivity || lia).
Defined.

(** Long TNT packets.  Of the six payload bytes [v] the highest set bit is
    the stop bit: the packet has as many outcomes as there are bits below it,
    and the payload holds them from bit 63 down, in the order of [v]. *)
Theorem long_tnt_outcomes v rest :
  0 < v < 2 ^ 48 ->
  let buf := [x02; xa3] ++ le_bytes 6 v ++ rest in
  exists p, intel_pt_do_get_packet buf (Z.of_nat (length buf)) INTEL_PT_NO_CTX = Some (8, p) /\
    pkt_type p = INTEL_PT_TNT /\ 2 ^ pkt_count p <= v < 2 ^ (pkt_count p + 1) /\
    pkt_payload p .>> (64 - pkt_count p) = v - 2 ^ pkt_count p.
Proof.
  intros Hv buf. eexists. split; [apply get_long_tnt_spec; lia|].
  cbn [pkt_type pkt_count pkt_payload]. split; [done|].
  split; [apply Z.log2_spec; lia|by apply long_tnt_payload_bits].
Qed.

Lemma long_tnt_outcomes_witness :
  let buf := [x02; xa3] ++ le_bytes 6 0x2b ++ [] in
  exists p, intel_pt_do_get_packet buf (Z.of_nat (length buf)) INTEL_PT_NO_CTX = Some (8, p) /\
    pkt_type p = INTEL_PT_TNT /\ 2 ^ pkt_count p <= 0x2b < 2 ^ (pkt_count p + 1) /\
    pkt_payload p .>> (64 - pkt_count p) = 0x2b - 2 ^ pkt_count p.
Proof. apply (long_tnt_outcomes 0x2b []); lia. Defined.

(** C25: the return stack is a stack.  Any sequence of pushes, pops and clears,
    whatever allocations fail, makes no null dereference and no access outside a
    block, and returns what the same operations on a plain list of addresses
    return: a pop the most recent address not yet popped, or 0; a push 0, or
    -ENOMEM leaving the stack as it was when an allocation fails. *)
Theorem stack_refines_list os :
  exists rs s', run_ops os empty_stack = Some (rs, s') /\ list_ops os [] rs (stack_abs s').
Proof.
  destruct (run_ops_refines os empty_stack empty_stack_wf) as (rs & s' & ? & _ & ?).
  by exists rs, s'.
Qed.
