(* ===== verification/PtWalk.v ===== *)
(** Walking code between packets (intel-pt-decoder.c): instructions, the events
    a FUP packet reports, TIP and TNT packets, PSB+ while in sync. *)
From Stdlib Require Import ZArith Lia List Bool.
From S2P Require Import Prelude Float64 PktDecoder PtStack PtState PtTime PtReader.
Open Scope Z_scope.
Open Scope c_scope.
Import ListNotations.

(** ** Pure steps *)

(** The counters both callers of [walk_insn] advance. *)
Definition add_insn_cnt (insn_cnt : Z) (d : intel_pt_decoder) : intel_pt_decoder :=
  d <| d_tot_insn_cnt := u64 (d_tot_insn_cnt d + insn_cnt) |>
    <| d_timestamp_insn_cnt := u64 (d_timestamp_insn_cnt d + insn_cnt) |>
    <| d_sample_insn_cnt := u64 (d_sample_insn_cnt d + insn_cnt) |>
    <| d_period_insn_cnt := u64 (d_period_insn_cnt d + insn_cnt) |>.

(** The loop check of [intel_pt_walk_insn] after an unconditional branch; [cnt]
    is [no_progress] before it was incremented. *)
Definition check_stuck (cnt : Z) (d : intel_pt_decoder) : Z * intel_pt_decoder :=
  let to_ip := st_to_ip (d_state d) in
  if cnt =? 0 then (INTEL_PT_RETURN, d)
  else if cnt =? 1 then
    (INTEL_PT_RETURN,
     d <| d_stuck_ip := to_ip |> <| d_stuck_ip_prd := 1 |> <| d_stuck_ip_cnt := 1 |>)
  else if (d_max_loops d <? cnt) || (to_ip =? d_stuck_ip d) then
    (- ELOOP, d <| d_pkt_state := INTEL_PT_STATE_ERR_RESYNC |>)
  else
    let d := d <| d_stuck_ip_cnt := s32 (d_stuck_ip_cnt d - 1) |> in
    if d_stuck_ip_cnt d =? 0 then
      let d := d <| d_stuck_ip_prd := s32 (d_stuck_ip_prd d + 1) |> in
      (INTEL_PT_RETURN,
       d <| d_stuck_ip_cnt := d_stuck_ip_prd d |> <| d_stuck_ip := to_ip |>)
    else (INTEL_PT_RETURN, d).

(** [out_no_progress:] *)
Definition walk_insn_out (insn : intel_pt_insn) (d : intel_pt_decoder) : intel_pt_decoder :=
  let d := d <| st st_insn_op := insn_op insn |>
             <| st st_insn_len := insn_length insn |>
             <| st st_insn := insn_buf insn |> in
  if negb (d_tx_flags d .& INTEL_PT_IN_TX =? 0) then or_flags INTEL_PT_IN_TX d else d.

(** The [BR_UNCONDITIONAL] branch: the error of [check_stuck] goes to [out:],
    which clears [no_progress]; otherwise to [out_no_progress:]. *)
Definition walk_unconditional (insn : intel_pt_insn) (d : intel_pt_decoder)
    : Z * intel_pt_decoder :=
  let cnt := d_no_progress d in
  let d := d <| d_no_progress := s32 (cnt + 1) |> in
  let d := d <| st st_from_ip := d_ip d |> in
  let d := d <| d_ip := u64 (d_ip d + s32 (insn_length insn + insn_rel insn)) |> in
  let d := d <| st st_to_ip := d_ip d |> in
  let '(err, d) := check_stuck cnt d in
  let d := if err =? - ELOOP then d <| d_no_progress := 0 |> else d in
  (err, walk_insn_out insn d).

(** The [if]s of [intel_pt_fup_event] in order, each taking the [ret] so far. *)
Definition fup_cfe (ret : bool) (d : intel_pt_decoder) : bool * intel_pt_decoder :=
  if d_set_fup_cfe_ip d || d_set_fup_cfe d then
    let ip := d_set_fup_cfe_ip d in
    let d := d <| d_set_fup_cfe_ip := false |> <| d_set_fup_cfe := false |> in
    let d := or_type INTEL_PT_EVT d in
    let d := if negb ip && d_pge d then or_type INTEL_PT_BRANCH d else d in
    let d := d <| st st_cfe_type := pkt_count (d_fup_cfe_pkt d) |>
      <| st st_cfe_vector := s32 (pkt_payload (d_fup_cfe_pkt d)) |>
      <| st st_evd_cnt := d_evd_cnt d |>
      <| st st_evd_set := true |>
      <| d_evd_cnt := 0 |> in
    (true, if ip || d_pge d then or_flags INTEL_PT_FUP_IP d else d)
  else (ret, d).

Definition fup_mode_exec (ret : bool) (d : intel_pt_decoder) : bool * intel_pt_decoder :=
  if d_set_fup_mode_exec d then
    (true, intel_pt_sample_iflag (d <| d_set_fup_mode_exec := false |>))
  else (ret, d).

Definition fup_tx (ret : bool) (d : intel_pt_decoder) : bool * intel_pt_decoder :=
  if d_set_fup_tx_flags d then
    let d := d <| d_set_fup_tx_flags := false |> <| d_tx_flags := d_fup_tx_flags d |> in
    let d := or_type INTEL_PT_TRANSACTION d in
    let d :=
      if negb (d_fup_tx_flags d .& INTEL_PT_ABORT_TX =? 0) then or_type INTEL_PT_BRANCH d
      else d in
    (true, d <| st st_flags := d_fup_tx_flags d |>)
  else (ret, d).

Definition fup_ptw (ret : bool) (d : intel_pt_decoder) : bool * intel_pt_decoder :=
  if d_set_fup_ptw d then
    let d := or_flags INTEL_PT_FUP_IP (or_type INTEL_PT_PTW (d <| d_set_fup_ptw := false |>)) in
    (true, d <| st st_ptw_payload := d_fup_ptw_payload d |>)
  else (ret, d).

Definition fup_mwait (ret : bool) (d : intel_pt_decoder) : bool * intel_pt_decoder :=
  if d_set_fup_mwait d then
    let d := or_type INTEL_PT_MWAIT_OP (d <| d_set_fup_mwait := false |>) in
    (true, d <| st st_mwait_payload := d_fup_mwait_payload d |>)
  else (ret, d).

Definition fup_pwre (ret : bool) (d : intel_pt_decoder) : bool * intel_pt_decoder :=
  if d_set_fup_pwre d then
    let d := or_type INTEL_PT_PWR_ENTRY (d <| d_set_fup_pwre := false |>) in
    (true, d <| st st_pwre_payload := d_fup_pwre_payload d |>)
  else (ret, d).

Definition fup_exstop (ret : bool) (d : intel_pt_decoder) : bool * intel_pt_decoder :=
  if d_set_fup_exstop d then
    (true,
     or_flags INTEL_PT_FUP_IP (or_type INTEL_PT_EX_STOP (d <| d_set_fup_exstop := false |>)))
  else (ret, d).

Definition fup_bep (ret : bool) (d : intel_pt_decoder) : bool * intel_pt_decoder :=
  if d_set_fup_bep d then
    (true, or_type INTEL_PT_BLK_ITEMS (d <| d_set_fup_bep := false |>))
  else (ret, d).

(** The return inside [if (decoder->overflow)]: tracing begins at [ip]. *)
Definition fup_overflow_begin (d : intel_pt_decoder) : intel_pt_decoder :=
  let d :=
    if d_hop d then d <| st st_type := 0 |> <| d_pkt_state := INTEL_PT_STATE_RESAMPLE |>
    else d in
  let d := or_type (INTEL_PT_BRANCH .| INTEL_PT_TRACE_BEGIN) (d <| d_pge := true |>) in
  d <| st st_from_ip := 0 |> <| st st_to_ip := d_ip d |>.

Definition intel_pt_fup_with_nlip (d : intel_pt_decoder) (insn : intel_pt_insn) (ip err : Z)
    : bool :=
  negb (d_flags d .& INTEL_PT_FUP_WITH_NLIP =? 0) && (err =? 0)
  && bool_decide (insn_branch insn = INTEL_PT_BR_INDIRECT)
  && (ip =? u64 (d_ip d + insn_length insn)).

(** ** Emulated PTWRITE: the payload is the bits of the TNT packets ahead *)

Record eptw_data := mkEptw { bit_countdown : Z; eptw_payload : Z }.

Definition intel_pt_eptw_lookahead_cb `{Platform} : pkt_cb eptw_data := fun info d x =>
  match pkt_type (pi_packet info) with
  | INTEL_PT_PAD | INTEL_PT_MNT | INTEL_PT_MODE_EXEC | INTEL_PT_MODE_TSX | INTEL_PT_MTC
  | INTEL_PT_FUP | INTEL_PT_CYC | INTEL_PT_CBR | INTEL_PT_TSC | INTEL_PT_TMA | INTEL_PT_PIP
  | INTEL_PT_VMCS | INTEL_PT_PSB | INTEL_PT_PSBEND | INTEL_PT_PTWRITE | INTEL_PT_PTWRITE_IP
  | INTEL_PT_EXSTOP | INTEL_PT_EXSTOP_IP | INTEL_PT_MWAIT | INTEL_PT_PWRE | INTEL_PT_PWRX
  | INTEL_PT_BBP | INTEL_PT_BIP | INTEL_PT_BEP | INTEL_PT_BEP_IP | INTEL_PT_CFE
  | INTEL_PT_CFE_IP | INTEL_PT_EVD => (0, d, x)
  | INTEL_PT_TNT =>
    let nr_bits := bit_countdown x in
    let count := pkt_count (pi_packet info) in
    let nr_bits := if count <? nr_bits then count else nr_bits in
    let payload :=
      shl64 (eptw_payload x) nr_bits .| shr64 (pkt_payload (pi_packet info)) (64 - nr_bits) in
    let countdown := bit_countdown x - nr_bits in
    (if countdown =? 0 then 1 else 0, d, mkEptw countdown payload)
  | INTEL_PT_TIP_PGE | INTEL_PT_TIP_PGD | INTEL_PT_TIP | INTEL_PT_BAD | INTEL_PT_OVF
  | INTEL_PT_TRACESTOP => (1, d, x)
  end.

(** [to_ip] of a TIP packet: 0 when the ip is suppressed. *)
Definition set_to_ip (d : intel_pt_decoder) : intel_pt_decoder :=
  if pkt_count (d_packet d) =? 0 then d <| st st_to_ip := 0 |>
  else
    let d := intel_pt_set_ip d in
    d <| st st_to_ip := d_ip d |>.

(** The same with [last_ip] already updated. *)
Definition to_last_ip (d : intel_pt_decoder) : intel_pt_decoder :=
  if pkt_count (d_packet d) =? 0 then d <| st st_to_ip := 0 |>
  else d <| st st_to_ip := d_last_ip d |> <| d_ip := d_last_ip d |>.

(** One TNT bit is used up. *)
Definition dec_tnt (d : intel_pt_decoder) : intel_pt_decoder :=
  let d := upd d_tnt (upd pkt_count (fun c => c - 1)) d in
  if negb (pkt_count (d_tnt d) =? 0) then d <| d_pkt_state := INTEL_PT_STATE_TNT_CONT |>
  else d <| d_pkt_state := INTEL_PT_STATE_IN_SYNC |>.

Definition shift_tnt (d : intel_pt_decoder) : intel_pt_decoder :=
  upd d_tnt (upd pkt_payload (fun p => u64 (p .<< 1))) d.

Section walk.
Context {D : Type} `{Platform} `{Callbacks D} `{Fuel}.
Implicit Types (d : intel_pt_decoder) (e : D).

(** [max_insn_cnt = intel_pt_next_sample(decoder)], after setting [mtc_insn]. *)
Definition next_sample : M D Z := fun d e =>
  let d := if d_mtc_insn d then d else d <| d_mtc_insn := true |> in
  let '(n, d) := intel_pt_next_sample d in
  Ret (n, d, e).

(** The callback [walk_insn], which updates [ip] through its pointer. *)
Definition call_walk_insn (to_ip max_insn_cnt : Z) : M D walk_result :=
  d ← get;
  w ← call (fun e => walk_insn e (d_ip d) to_ip max_insn_cnt);
  modify (fun d => d <| d_ip := w_ip w |>) ;;
  mret w.

Definition intel_pt_sample_fup_insn : M D unit :=
  modify (fun d => d <| st st_insn_op := INTEL_PT_OP_OTHER |> <| st st_insn_len := 0 |>) ;;
  d ← get;
  if negb (d_branch_enable d) || negb (d_pge d) || d_hop d
     || negb (d_ip d =? d_last_ip d) then mret tt
  else
    max_insn_cnt ← next_sample;
    if negb (max_insn_cnt =? 1) then mret tt
    else
      w ← call_walk_insn 0 max_insn_cnt;
      if negb (w_err w =? 0) then mret tt
      else if negb (bool_decide (insn_branch (w_insn w) = INTEL_PT_BR_NO_BRANCH)) then mret tt
      else
        modify (fun d =>
          let d := intel_pt_sample_insn (add_insn_cnt (w_insn_cnt w) d) in
          let d := or_type INTEL_PT_INSTRUCTION d in
          d <| d_ip := u64 (d_ip d + insn_length (w_insn w)) |>).

Definition push (ip : Z) : M D Z :=
  ok ← call malloc_ok;
  d ← get;
  '(err, stack) ← lift (intel_pt_push ok (d_stack d) ip);
  modify (fun d => d <| d_stack := stack |>) ;;
  mret err.

Definition pop : M D Z :=
  d ← get;
  '(ip, stack) ← lift (intel_pt_pop (d_stack d));
  modify (fun d => d <| d_stack := stack |>) ;;
  mret ip.

(** The stack operation of a CALL or RET. *)
Definition walk_call_ret (insn : intel_pt_insn) : M D Z :=
  d ← get;
  match insn_op insn with
  | INTEL_PT_OP_CALL =>
    if negb (bool_decide (insn_branch insn = INTEL_PT_BR_UNCONDITIONAL))
       || negb (insn_rel insn =? 0) then push (u64 (d_ip d + insn_length insn))
    else mret 0
  | INTEL_PT_OP_RET =>
    ip ← pop;
    modify (fun d => d <| d_ret_addr := ip |>) ;;
    mret 0
  | _ => mret 0
  end.

(** [out:] *)
Definition walk_insn_finish (insn : intel_pt_insn) (err : Z) : M D (Z * intel_pt_insn) :=
  modify (fun d => walk_insn_out insn (d <| d_no_progress := 0 |>)) ;;
  mret (err, insn).

(** Returns the C return value and [*intel_pt_insn]. *)
Definition intel_pt_walk_insn (ip : Z) : M D (Z * intel_pt_insn) :=
  max_insn_cnt ← next_sample;
  w ← call_walk_insn ip max_insn_cnt;
  let insn := w_insn w in
  modify (add_insn_cnt (w_insn_cnt w)) ;;
  if negb (w_err w =? 0) then
    modify (fun d => d <| d_no_progress := 0 |> <| d_pkt_state := INTEL_PT_STATE_ERR2 |>) ;;
    mret (if w_err w =? - ENOENT then - ENOLINK else - EILSEQ, insn)
  else
    d ← get;
    if negb (ip =? 0) && (d_ip d =? ip) then walk_insn_finish insn (- EAGAIN)
    else
      when (negb (max_insn_cnt =? 0) && (max_insn_cnt <=? w_insn_cnt w))
        (modify intel_pt_sample_insn) ;;
      match insn_branch insn with
      | INTEL_PT_BR_NO_BRANCH =>
        modify (fun d =>
          d <| st st_type := INTEL_PT_INSTRUCTION |>
            <| st st_from_ip := d_ip d |>
            <| st st_to_ip := 0 |>
            <| d_ip := u64 (d_ip d + insn_length insn) |>) ;;
        walk_insn_finish insn INTEL_PT_RETURN
      | _ =>
        err ← walk_call_ret insn;
        if negb (err =? 0) then walk_insn_finish insn err
        else if bool_decide (insn_branch insn = INTEL_PT_BR_UNCONDITIONAL) then
          err ← error_of (walk_unconditional insn);
          mret (err, insn)
        else walk_insn_finish insn 0
      end.

(** The [if]s of [intel_pt_fup_event] up to [overflow]: [ret] and
    [sample_fup_insn]. *)
Definition fup_events (no_tip : bool) (d : intel_pt_decoder)
    : bool * bool * intel_pt_decoder :=
  let d := d <| st st_type := st_type (d_state d) .& .~ INTEL_PT_BRANCH |> in
  let '(ret, d) := fup_cfe false d in
  let sample := d_set_fup_mode_exec d && no_tip in
  let '(ret, d) := fup_mode_exec ret d in
  let '(ret, d) := fup_tx ret d in
  let '(ret, d) := fup_ptw ret d in
  let '(ret, d) := fup_mwait ret d in
  let '(ret, d) := fup_pwre ret d in
  let '(ret, d) := fup_exstop ret d in
  let '(ret, d) := fup_bep ret d in
  (ret, sample, d).

Definition intel_pt_fup_event (no_tip : bool) : M D bool :=
  d ← get;
  let type := st_type (d_state d) in
  let '(ret, sample, d) := fup_events no_tip d in
  let begin := d_overflow d && negb ret && negb (d_pge d) in
  let d := if d_overflow d then d <| d_overflow := false |> else d in
  if begin then put (fup_overflow_begin d) ;; mret true
  else if ret then
    put (d <| st st_from_ip := d_ip d |> <| st st_to_ip := 0 |>) ;;
    when sample intel_pt_sample_fup_insn ;;
    mret true
  else put (d <| st st_type := type |>) ;; mret false.

(** The loop is for the internal error at its end, which cannot happen
    ([walk_fup_no_bug]). *)
Fixpoint walk_fup_loop (n : nat) (ip : Z) : M D Z :=
  match n with
  | O => no_fuel
  | S n' =>
    '(err, insn) ← intel_pt_walk_insn ip;
    if err =? INTEL_PT_RETURN then mret 0
    else
      d ← get;
      if (err =? - EAGAIN) || intel_pt_fup_with_nlip d insn ip err then
        let no_tip := negb (bool_decide (d_pkt_state d = INTEL_PT_STATE_FUP)) in
        modify (fun d => d <| d_pkt_state := INTEL_PT_STATE_IN_SYNC |>) ;;
        event ← intel_pt_fup_event no_tip;
        mret (if event && no_tip then 0 else - EAGAIN)
      else
        modify (fun d => d <| d_set_fup_tx_flags := false |>) ;;
        if negb (err =? 0) then mret err
        else
          match insn_branch insn with
          | INTEL_PT_BR_INDIRECT | INTEL_PT_BR_CONDITIONAL =>
            modify (fun d => d <| d_pkt_state := INTEL_PT_STATE_ERR_RESYNC |>) ;;
            mret (- ENOENT)
          | _ =>
            error_of intel_pt_bug ;;
            walk_fup_loop n' ip
          end
  end.

Definition intel_pt_walk_fup : M D Z :=
  ip ← gets d_last_ip;
  walk_fup_loop fuel ip.

(** [decoder->pgd_ip && decoder->pkt_state == TIP_PGD && decoder->pgd_ip(ip)] *)
Definition leaves_filter (ip : Z) : M D bool := fun d e =>
  Ret (match pgd_ip with
       | Some f => bool_decide (d_pkt_state d = INTEL_PT_STATE_TIP_PGD) && f ip e
       | None => false
       end, d, e).

Definition intel_pt_walk_tip : M D Z :=
  '(err, insn) ← intel_pt_walk_insn 0;
  d ← get;
  leaving ← leaves_filter (st_to_ip (d_state d));
  if (err =? INTEL_PT_RETURN) && leaving
     && negb (st_type (d_state d) .& INTEL_PT_BRANCH =? 0) then
    modify (fun d =>
      intel_pt_update_nr (or_type INTEL_PT_TRACE_END (
        d <| d_no_progress := 0 |> <| d_pge := false |>
          <| d_continuous_period := false |> <| d_pkt_state := INTEL_PT_STATE_IN_SYNC |>))) ;;
    mret 0
  else if err =? INTEL_PT_RETURN then mret 0
  else if negb (err =? 0) then mret err
  else
    modify (fun d => intel_pt_sample_iflag_chg (intel_pt_update_nr d)) ;;
    match insn_branch insn with
    | INTEL_PT_BR_INDIRECT =>
      modify (fun d =>
        if bool_decide (d_pkt_state d = INTEL_PT_STATE_TIP_PGD) then
          let d := d <| d_pge := false |> <| d_continuous_period := false |>
                     <| d_pkt_state := INTEL_PT_STATE_IN_SYNC |>
                     <| st st_from_ip := d_ip d |> in
          or_type INTEL_PT_TRACE_END (to_last_ip d)
        else
          to_last_ip (d <| d_pkt_state := INTEL_PT_STATE_IN_SYNC |>
                        <| st st_from_ip := d_ip d |>)) ;;
      mret 0
    | INTEL_PT_BR_CONDITIONAL =>
      d ← get;
      let to_ip := u64 (u64 (d_ip d + insn_length insn) + insn_rel insn) in
      leaving ← leaves_filter to_ip;
      if (leaving : bool) then
        modify (fun d =>
          let d := d <| d_pge := false |> <| d_continuous_period := false |>
                     <| d_pkt_state := INTEL_PT_STATE_IN_SYNC |> <| d_ip := to_ip |> in
          or_type INTEL_PT_TRACE_END
            (d <| st st_from_ip := d_ip d |> <| st st_to_ip := to_ip |>)) ;;
        mret 0
      else
        modify (fun d => d <| d_pkt_state := INTEL_PT_STATE_ERR_RESYNC |>) ;;
        mret (- ENOENT)
    | _ => error_of intel_pt_bug
    end.

Definition intel_pt_emulated_ptwrite : M D Z :=
  d ← get;
  let n := 64 - pkt_count (d_tnt d) in
  let data := mkEptw n (shr64 (pkt_payload (d_tnt d)) n) in
  modify (fun d => d <| d_emulated_ptwrite := false |>) ;;
  '(_, data) ← intel_pt_pkt_lookahead intel_pt_eptw_lookahead_cb data;
  if negb (bit_countdown data =? 0) then mret (- ECONNRESET)
  else
    modify (fun d =>
      d <| st st_type := INTEL_PT_PTW |>
        <| st st_from_ip := d_ip d |>
        <| st st_to_ip := 0 |>
        <| st st_ptw_payload := eptw_payload data |>) ;;
    mret 0.

(** A RET compressed to a TNT bit. *)
Definition tnt_ret (d : intel_pt_decoder) : Z * intel_pt_decoder :=
  if negb (d_return_compression d) || (d_ret_addr d =? 0)
     || (pkt_payload (d_tnt d) .& BIT63 =? 0) then
    (- ENOENT, d <| d_pkt_state := INTEL_PT_STATE_ERR3 |>)
  else
    let d := shift_tnt (dec_tnt d) in
    let d := d <| st st_from_ip := d_ip d |> <| d_ip := d_ret_addr d |> in
    (0, d <| st st_to_ip := d_ip d |>).

(** The TIP packet of an indirect branch may come after later TNT bits. *)
Definition tnt_deferred_tip : M D Z :=
  TRY intel_pt_get_next_packet;
  d ← get;
  if negb (bool_decide (pkt_type (d_packet d) = INTEL_PT_TIP))
     || (pkt_count (d_packet d) =? 0) then
    modify (fun d => d <| d_pkt_state := INTEL_PT_STATE_ERR3 |> <| d_pkt_step := 0 |>) ;;
    mret (- ENOENT)
  else
    modify (fun d =>
      let d := intel_pt_set_last_ip d in
      let d := d <| st st_from_ip := d_ip d |> <| st st_to_ip := d_last_ip d |>
                 <| d_ip := d_last_ip d |> in
      intel_pt_sample_iflag_chg (intel_pt_update_nr d)) ;;
    mret 0.

(** A conditional branch: [None] is the [continue] of a branch not taken. *)
Definition tnt_conditional (insn : intel_pt_insn) (d : intel_pt_decoder)
    : option Z * intel_pt_decoder :=
  let d := dec_tnt d in
  if negb (pkt_payload (d_tnt d) .& BIT63 =? 0) then
    let d := shift_tnt d in
    let d := d <| st st_from_ip := d_ip d |> in
    let d := d <| d_ip := u64 (d_ip d + s32 (insn_length insn + insn_rel insn)) |> in
    (Some 0, d <| st st_to_ip := d_ip d |>)
  else if negb (st_type (d_state d) .& INTEL_PT_INSTRUCTION =? 0) then
    let d := shift_tnt d in
    (Some 0, d <| st st_type := INTEL_PT_INSTRUCTION |>
               <| st st_from_ip := d_ip d |>
               <| st st_to_ip := 0 |>
               <| d_ip := u64 (d_ip d + insn_length insn) |>)
  else
    let d := d <| d_sample_cyc := false |>
               <| d_ip := u64 (d_ip d + insn_length insn) |> in
    if pkt_count (d_tnt d) =? 0 then (Some (- EAGAIN), intel_pt_update_sample_time d)
    else (None, shift_tnt d).

Fixpoint walk_tnt_loop (n : nat) : M D Z :=
  match n with
  | O => no_fuel
  | S n' =>
    d ← get;
    if d_emulated_ptwrite d then intel_pt_emulated_ptwrite
    else
      '(err, insn) ← intel_pt_walk_insn 0;
      if err =? INTEL_PT_RETURN then
        modify (fun d => d <| d_emulated_ptwrite := insn_emulated_ptwrite insn |>) ;;
        mret 0
      else if negb (err =? 0) then
        modify (fun d => d <| d_emulated_ptwrite := false |>) ;;
        mret err
      else if bool_decide (insn_op insn = INTEL_PT_OP_RET) then error_of tnt_ret
      else
        match insn_branch insn with
        | INTEL_PT_BR_INDIRECT => tnt_deferred_tip
        | INTEL_PT_BR_CONDITIONAL =>
          d ← get;
          let '(r, d) := tnt_conditional insn d in
          put d ;;
          match r with
          | Some err => mret err
          | None => walk_tnt_loop n'
          end
        | _ => error_of intel_pt_bug
        end
  end.

Definition intel_pt_walk_tnt : M D Z := walk_tnt_loop fuel.

(** Returns the C return value and the updated [*no_tip]. *)
Definition intel_pt_mode_tsx (no_tip : bool) : M D (Z * bool) :=
  d ← get;
  let fup_tx_flags := pkt_payload (d_packet d) .& (INTEL_PT_IN_TX .| INTEL_PT_ABORT_TX) in
  err ← intel_pt_get_next_packet;
  if negb (err =? 0) then mret (err, no_tip)
  else
    d ← get;
    if bool_decide (pkt_type (d_packet d) = INTEL_PT_FUP) then
      modify (fun d => d <| d_fup_tx_flags := fup_tx_flags |> <| d_set_fup_tx_flags := true |>) ;;
      mret (0, no_tip || (fup_tx_flags .& INTEL_PT_ABORT_TX =? 0))
    else
      modify intel_pt_update_in_tx ;;
      mret (0, no_tip).

(** An MTC packet, as every packet walk handles it. *)
Definition walk_mtc : M D unit :=
  intel_pt_calc_mtc_timestamp ;;
  modify (fun d =>
    if bool_decide (d_period_type d = INTEL_PT_PERIOD_MTC) then or_type INTEL_PT_INSTRUCTION d
    else d).

(** ** PSB+ while in sync *)

(** One packet of [intel_pt_walk_psbend]: [Some err] is [goto out]. *)
Definition psbend_packet : M D (option Z) :=
  d ← get;
  match pkt_type (d_packet d) with
  | INTEL_PT_PSBEND => mret (Some 0)
  | INTEL_PT_TIP_PGD | INTEL_PT_TIP_PGE | INTEL_PT_TIP | INTEL_PT_TNT | INTEL_PT_TRACESTOP
  | INTEL_PT_BAD | INTEL_PT_PSB | INTEL_PT_PTWRITE | INTEL_PT_PTWRITE_IP | INTEL_PT_EXSTOP
  | INTEL_PT_EXSTOP_IP | INTEL_PT_MWAIT | INTEL_PT_PWRE | INTEL_PT_PWRX | INTEL_PT_BBP
  | INTEL_PT_BIP | INTEL_PT_BEP | INTEL_PT_BEP_IP | INTEL_PT_CFE | INTEL_PT_CFE_IP
  | INTEL_PT_EVD =>
    modify (fun d => d <| d_have_tma := false |>) ;;
    mret (Some (- EAGAIN))
  | INTEL_PT_OVF => err ← error_of intel_pt_overflow; mret (Some err)
  | INTEL_PT_TSC => intel_pt_calc_tsc_timestamp ;; mret None
  | INTEL_PT_TMA => modify intel_pt_calc_tma ;; mret None
  | INTEL_PT_CBR => modify intel_pt_calc_cbr ;; mret None
  | INTEL_PT_MODE_EXEC => modify intel_pt_mode_exec_status ;; mret None
  | INTEL_PT_PIP => modify intel_pt_set_pip ;; mret None
  | INTEL_PT_FUP =>
    modify (fun d =>
      let d := d <| d_pge := true |> in
      if negb (pkt_count (d_packet d) =? 0) then
        let d := intel_pt_set_last_ip d in
        d <| d_psb_ip := d_last_ip d |>
      else d) ;;
    mret None
  | INTEL_PT_MODE_TSX => modify intel_pt_update_in_tx ;; mret None
  | INTEL_PT_MTC => walk_mtc ;; mret None
  | INTEL_PT_CYC => modify intel_pt_calc_cyc_timestamp ;; mret None
  | INTEL_PT_VMCS | INTEL_PT_MNT | INTEL_PT_PAD => mret None
  end.

(** [while (1)]: get a packet and handle it, until a handler ends the walk. *)
Fixpoint packet_loop (n : nat) (handler : M D (option Z)) : M D Z :=
  match n with
  | O => no_fuel
  | S n' =>
    TRY intel_pt_get_next_packet;
    r ← handler;
    match r with
    | Some err => mret err
    | None => packet_loop n' handler
    end
  end.

Definition intel_pt_walk_psbend : M D Z :=
  modify (fun d => d <| d_in_psb := true |>) ;;
  err ← packet_loop fuel psbend_packet;
  modify (fun d => d <| d_in_psb := false |>) ;;
  mret err.

(** ** The TIP after a FUP *)

Definition fup_tip_packet : M D (option Z) :=
  d ← get;
  match pkt_type (d_packet d) with
  | INTEL_PT_TNT | INTEL_PT_FUP | INTEL_PT_TRACESTOP | INTEL_PT_PSB | INTEL_PT_TSC
  | INTEL_PT_TMA | INTEL_PT_MODE_TSX | INTEL_PT_BAD | INTEL_PT_PSBEND | INTEL_PT_PTWRITE
  | INTEL_PT_PTWRITE_IP | INTEL_PT_EXSTOP | INTEL_PT_EXSTOP_IP | INTEL_PT_MWAIT
  | INTEL_PT_PWRE | INTEL_PT_PWRX | INTEL_PT_BBP | INTEL_PT_BIP | INTEL_PT_BEP
  | INTEL_PT_BEP_IP | INTEL_PT_CFE | INTEL_PT_CFE_IP | INTEL_PT_EVD =>
    modify (fun d => d <| d_pkt_state := INTEL_PT_STATE_ERR3 |> <| d_pkt_step := 0 |>) ;;
    mret (Some (- ENOENT))
  | INTEL_PT_CBR => modify intel_pt_calc_cbr ;; mret None
  | INTEL_PT_OVF => err ← error_of intel_pt_overflow; mret (Some err)
  | INTEL_PT_TIP_PGD =>
    modify (fun d =>
      let d := set_to_ip (d <| st st_from_ip := d_ip d |>) in
      let d := d <| d_pge := false |> <| d_continuous_period := false |> in
      intel_pt_update_nr (or_type INTEL_PT_TRACE_END d)) ;;
    mret (Some 0)
  | INTEL_PT_TIP_PGE =>
    modify (fun d =>
      let d := set_to_ip (d <| d_pge := true |> <| st st_from_ip := 0 |>) in
      intel_pt_set_nr (intel_pt_mtc_cyc_cnt_pge (or_type INTEL_PT_TRACE_BEGIN d))) ;;
    mret (Some 0)
  | INTEL_PT_TIP =>
    modify (fun d =>
      let d := set_to_ip (d <| st st_from_ip := d_ip d |>) in
      intel_pt_sample_iflag_chg (intel_pt_update_nr d)) ;;
    mret (Some 0)
  | INTEL_PT_PIP => modify intel_pt_update_pip ;; mret None
  | INTEL_PT_MTC => walk_mtc ;; mret None
  | INTEL_PT_CYC => modify intel_pt_calc_cyc_timestamp ;; mret None
  | INTEL_PT_MODE_EXEC => modify intel_pt_mode_exec ;; mret None
  | INTEL_PT_VMCS | INTEL_PT_MNT | INTEL_PT_PAD => mret None
  end.

Definition intel_pt_walk_fup_tip : M D Z :=
  modify (fun d =>
    if negb (d_tx_flags d .& INTEL_PT_ABORT_TX =? 0) then
      let d := d <| d_tx_flags := 0 |>
        <| st st_flags := st_flags (d_state d) .& .~ INTEL_PT_IN_TX |> in
      or_flags INTEL_PT_ABORT_TX d
    else or_flags INTEL_PT_ASYNC d) ;;
  packet_loop fuel fup_tip_packet.
End walk.
