(* ===== verification/PtTrace.v ===== *)
(** The packet walks of intel-pt-decoder.c: hop mode, PSB+, the main walk
    [intel_pt_walk_trace], synchronisation. *)
From Stdlib Require Import ZArith Lia List Bool.
From S2P Require Import Prelude Float64 PktDecoder PtStack PtState PtTime PtReader PtWalk.
Open Scope Z_scope.
Open Scope c_scope.
Import ListNotations.

(** [state.type = type; state.from_ip = ip; state.to_ip = 0] *)
Definition sample_at_ip (type : Z) (d : intel_pt_decoder) : intel_pt_decoder :=
  d <| st st_type := type |> <| st st_from_ip := d_ip d |> <| st st_to_ip := 0 |>.

(** [state.type = INTEL_PT_PSB_EVT; state.from_ip = psb_ip; state.to_ip = 0] *)
Definition psb_event (d : intel_pt_decoder) : intel_pt_decoder :=
  d <| st st_type := INTEL_PT_PSB_EVT |> <| st st_from_ip := d_psb_ip d |> <| st st_to_ip := 0 |>.

Definition set_ip_if_known (d : intel_pt_decoder) : intel_pt_decoder :=
  if intel_pt_have_ip d then intel_pt_set_ip d else d.

(** ** Lookahead for the FUP of a PSB+ *)

Record intel_pt_psb_info := mkPsbInfo {
  fup_packet : intel_pt_pkt;
  fup : bool;
  after_psbend : Z
}.

(** A packet after PSBEND uses up one of the [after_psbend] packets looked at. *)
Definition psb_after (d : intel_pt_decoder) (x : intel_pt_psb_info) (otherwise : Z)
    : Z * intel_pt_decoder * intel_pt_psb_info :=
  if after_psbend x =? 0 then (otherwise, d, x)
  else
    let x := mkPsbInfo (fup_packet x) (fup x) (after_psbend x - 1) in
    (if after_psbend x =? 0 then 1 else 0, d, x).

Definition intel_pt_psb_lookahead_cb : pkt_cb intel_pt_psb_info := fun info d x =>
  match pkt_type (pi_packet info) with
  | INTEL_PT_PAD | INTEL_PT_MNT | INTEL_PT_TSC | INTEL_PT_TMA | INTEL_PT_MODE_EXEC
  | INTEL_PT_MODE_TSX | INTEL_PT_MTC | INTEL_PT_CYC | INTEL_PT_VMCS | INTEL_PT_CBR
  | INTEL_PT_PIP => psb_after d x 0
  | INTEL_PT_FUP =>
    if negb (after_psbend x =? 0) then (1, d, x)
    else if fup x || (pkt_count (pi_packet info) =? 0) then (1, d, x)
    else (0, d, mkPsbInfo (pi_packet info) true (after_psbend x))
  | INTEL_PT_PSBEND =>
    if negb (fup x) then (1, d, x) else (0, d, mkPsbInfo (fup_packet x) (fup x) 6)
  | INTEL_PT_TIP_PGE =>
    (1, d, if negb (after_psbend x =? 0) then mkPsbInfo (fup_packet x) false (after_psbend x)
           else x)
  | INTEL_PT_PTWRITE | INTEL_PT_PTWRITE_IP | INTEL_PT_EXSTOP | INTEL_PT_EXSTOP_IP
  | INTEL_PT_MWAIT | INTEL_PT_PWRE | INTEL_PT_PWRX | INTEL_PT_BBP | INTEL_PT_BIP
  | INTEL_PT_BEP | INTEL_PT_BEP_IP | INTEL_PT_CFE | INTEL_PT_CFE_IP | INTEL_PT_EVD =>
    psb_after d x 1
  | INTEL_PT_OVF | INTEL_PT_BAD | INTEL_PT_TNT | INTEL_PT_TIP_PGD | INTEL_PT_TIP
  | INTEL_PT_PSB | INTEL_PT_TRACESTOP => (1, d, x)
  end.

Inductive hop_result := HOP_PROCESS | HOP_IGNORE | HOP_RETURN (err : Z) | HOP_AGAIN.

(** How a case of [intel_pt_walk_trace] ends: [continue] or [break],
    [goto next], [return err]. *)
Inductive trace_step := Continue | Next | Return (err : Z).

Section trace.
Context {D : Type} `{Platform} `{Callbacks D} `{Fuel}.
Implicit Types (d : intel_pt_decoder) (e : D).

Definition clear_stack : M D unit :=
  d ← get;
  stack ← lift (intel_pt_clear_stack (d_stack d));
  modify (fun d => d <| d_stack := stack |>).

(** ** Hop mode.  The handlers return the result and the updated [*no_tip]. *)

Definition hop_fup (no_tip : bool) : M D (hop_result * bool) :=
  d ← get;
  if pkt_count (d_packet d) =? 0 then mret (HOP_IGNORE, no_tip)
  else
    modify intel_pt_set_ip ;;
    d ← get;
    let no_tip := no_tip || d_set_fup_mwait d || d_set_fup_pwre d
                  || negb (d_branch_enable d) || negb (d_pge d) in
    if no_tip then
      modify (sample_at_ip INTEL_PT_INSTRUCTION) ;;
      intel_pt_fup_event no_tip ;;
      mret (HOP_RETURN 0, no_tip)
    else
      intel_pt_fup_event no_tip ;;
      modify (or_type (INTEL_PT_INSTRUCTION .| INTEL_PT_BRANCH)) ;;
      err ← intel_pt_walk_fup_tip;
      modify (fun d =>
        if (err =? 0) && negb (st_to_ip (d_state d) =? 0) then
          d <| d_pkt_state := INTEL_PT_STATE_RESAMPLE |>
        else d) ;;
      mret (HOP_RETURN err, no_tip).

Definition hop_psb : M D hop_result :=
  modify (fun d => d <| st st_psb_offset := d_pos d |> <| d_psb_ip := 0 |>
                     <| d_last_ip := 0 |> <| d_have_last_ip := true |>) ;;
  err ← intel_pt_walk_psbend;
  if err =? - EAGAIN then mret HOP_AGAIN
  else if negb (err =? 0) then mret (HOP_RETURN err)
  else
    modify (fun d =>
      let d := d <| st st_type := INTEL_PT_PSB_EVT |> in
      let d :=
        if negb (d_psb_ip d =? 0) then or_type INTEL_PT_INSTRUCTION d <| d_ip := d_psb_ip d |>
        else d in
      d <| st st_from_ip := d_psb_ip d |> <| st st_to_ip := 0 |>) ;;
    mret (HOP_RETURN 0).

Definition hop_packet (no_tip : bool) : M D (hop_result * bool) :=
  d ← get;
  match pkt_type (d_packet d) with
  | INTEL_PT_TNT => mret (HOP_IGNORE, no_tip)
  | INTEL_PT_TIP_PGD =>
    modify (fun d => d <| d_pge := false |>) ;;
    if pkt_count (d_packet d) =? 0 then modify intel_pt_set_nr ;; mret (HOP_IGNORE, no_tip)
    else
      modify (fun d =>
        let d := or_type INTEL_PT_TRACE_END (intel_pt_set_ip d) in
        intel_pt_update_nr (d <| st st_from_ip := 0 |> <| st st_to_ip := d_ip d |>)) ;;
      mret (HOP_RETURN 0, no_tip)
  | INTEL_PT_TIP =>
    if pkt_count (d_packet d) =? 0 then modify intel_pt_set_nr ;; mret (HOP_IGNORE, no_tip)
    else
      modify (fun d =>
        let d := sample_at_ip INTEL_PT_INSTRUCTION (intel_pt_set_ip d) in
        intel_pt_sample_iflag_chg (intel_pt_update_nr d)) ;;
      mret (HOP_RETURN 0, no_tip)
  | INTEL_PT_FUP => hop_fup no_tip
  | INTEL_PT_PSB => r ← hop_psb; mret (r, no_tip)
  | _ => mret (HOP_PROCESS, no_tip)
  end.

Definition intel_pt_hop_trace (no_tip : bool) : M D (hop_result * bool) :=
  d ← get;
  err ← (if d_leap d && negb (d_in_psb d)
            && negb (bool_decide (pkt_type (d_packet d) = INTEL_PT_PSB)) then
           intel_pt_scan_for_psb
         else mret 0);
  if negb (err =? 0) then mret (HOP_RETURN err, no_tip) else hop_packet no_tip.

(** ** PSB packets while in sync *)

Definition intel_pt_psb : M D Z :=
  modify (fun d => d <| d_last_ip := 0 |> <| d_psb_ip := 0 |> <| d_have_last_ip := true |>) ;;
  clear_stack ;;
  TRY intel_pt_walk_psbend;
  modify psb_event ;;
  mret 0.

Definition intel_pt_fup_in_psb : M D Z :=
  d ← get;
  let go_on : M D Z :=
    modify (fun d => d <| d_pkt_state := INTEL_PT_STATE_IN_SYNC |>) ;;
    err ← intel_pt_psb;
    if negb (err =? 0) then
      modify (fun d => d <| d_pkt_state := INTEL_PT_STATE_ERR3 |>) ;;
      mret (- ENOENT)
    else mret 0 in
  if negb (d_ip d =? d_last_ip d) then
    err ← intel_pt_walk_fup;
    if (err =? 0) || negb (err =? - EAGAIN) then mret err else go_on
  else go_on.

(** [Some err]: true was returned, with [*err]. *)
Definition intel_pt_psb_with_fup : M D (option Z) :=
  d ← get;
  if negb (d_branch_enable d) then mret None
  else
    '(_, data) ← intel_pt_pkt_lookahead intel_pt_psb_lookahead_cb (mkPsbInfo zero_pkt false 0);
    if negb (fup data) then mret None
    else
      modify (fun d =>
        let d := intel_pt_set_last_ip (d <| d_packet := fup_packet data |>) in
        d <| d_pkt_state := INTEL_PT_STATE_FUP_IN_PSB |>) ;;
      err ← intel_pt_fup_in_psb;
      mret (Some err).

(** ** The cases of [intel_pt_walk_trace]: the step and the updated [no_tip] *)

Definition trace_tnt (no_tip : bool) : M D (trace_step * bool) :=
  d ← get;
  if pkt_count (d_packet d) =? 0 then mret (Continue, no_tip)
  else
    modify (fun d => d <| d_tnt := d_packet d |> <| d_pkt_state := INTEL_PT_STATE_TNT |>) ;;
    err ← intel_pt_walk_tnt;
    mret (if err =? - EAGAIN then Continue else Return err, no_tip).

Definition trace_tip (state : intel_pt_pkt_state) (no_tip : bool) : M D (trace_step * bool) :=
  modify (fun d =>
    let d := if negb (pkt_count (d_packet d) =? 0) then intel_pt_set_last_ip d else d in
    d <| d_pkt_state := state |>) ;;
  err ← intel_pt_walk_tip;
  mret (Return err, no_tip).

Definition trace_tip_pge (no_tip : bool) : M D (trace_step * bool) :=
  modify (fun d =>
    let d := d <| d_pge := true |> <| d_overflow := false |> in
    intel_pt_set_nr (intel_pt_mtc_cyc_cnt_pge d)) ;;
  d ← get;
  if pkt_count (d_packet d) =? 0 then mret (Continue, no_tip)
  else
    modify (fun d =>
      let d := intel_pt_set_ip (intel_pt_sample_iflag_chg d) in
      let d := d <| st st_from_ip := 0 |> <| st st_to_ip := d_ip d |> in
      let d := or_type INTEL_PT_TRACE_BEGIN d in
      if d_hop d then d <| d_pkt_state := INTEL_PT_STATE_RESAMPLE |> else d) ;;
    mret (Return 0, no_tip).

Definition trace_fup (no_tip : bool) : M D (trace_step * bool) :=
  d ← get;
  if pkt_count (d_packet d) =? 0 then mret (Continue, false)
  else
    modify intel_pt_set_last_ip ;;
    d ← get;
    if negb (d_branch_enable d) || negb (d_pge d) then
      modify (fun d => d <| d_ip := d_last_ip d |>) ;;
      event ← intel_pt_fup_event no_tip;
      mret (if (event : bool) then (Return 0, no_tip) else (Continue, false))
    else
      let no_tip := no_tip || d_set_fup_mwait d in
      modify (fun d =>
        d <| d_pkt_state := if no_tip then INTEL_PT_STATE_FUP_NO_TIP else INTEL_PT_STATE_FUP |>) ;;
      err ← intel_pt_walk_fup;
      if negb (err =? - EAGAIN) then mret (Return err, no_tip)
      else if no_tip then mret (Continue, false)
      else
        err ← intel_pt_walk_fup_tip;
        mret (Return err, no_tip).

Definition stop_tracing (d : intel_pt_decoder) : intel_pt_decoder :=
  intel_pt_clear_tx_flags (d <| d_pge := false |> <| d_continuous_period := false |>)
    <| d_have_tma := false |>.

Definition trace_psb (no_tip : bool) : M D (trace_step * bool) :=
  modify (fun d => d <| st st_psb_offset := d_pos d |> <| d_psb_ip := 0 |>) ;;
  r ← intel_pt_psb_with_fup;
  match r with
  | Some err => mret (Return err, no_tip)
  | None =>
    err ← intel_pt_psb;
    mret (if err =? - EAGAIN then Next else Return err, no_tip)
  end.

Definition trace_mtc (no_tip : bool) : M D (trace_step * bool) :=
  intel_pt_calc_mtc_timestamp ;;
  d ← get;
  if negb (bool_decide (d_period_type d = INTEL_PT_PERIOD_MTC)) || negb (d_mtc_insn d) then
    mret (Continue, no_tip)
  else
    modify (fun d => d <| d_mtc_insn := false |>) ;;
    if d_timestamp d =? 0 then mret (Continue, no_tip)
    else
      modify (fun d => sample_at_ip INTEL_PT_INSTRUCTION d <| d_mtc_insn := false |>) ;;
      mret (Return 0, no_tip).

Definition trace_cbr (no_tip : bool) : M D (trace_step * bool) :=
  modify intel_pt_calc_cbr ;;
  d ← get;
  if negb (d_cbr d =? d_cbr_seen d) then
    modify (fun d => d <| st st_type := 0 |>) ;;
    mret (Return 0, no_tip)
  else mret (Continue, no_tip).

(** The packets whose ip is that of the FUP that should follow: [set] records
    the event if it does. *)
Definition followed_by_fup (set : intel_pt_decoder -> intel_pt_decoder) (no_tip : bool)
    : M D (trace_step * bool) :=
  err ← intel_pt_get_next_packet;
  if negb (err =? 0) then mret (Return err, no_tip)
  else
    d ← get;
    if bool_decide (pkt_type (d_packet d) = INTEL_PT_FUP) then
      modify set ;;
      mret (Next, true)
    else mret (Next, no_tip).

Definition trace_mode_exec (no_tip : bool) : M D (trace_step * bool) :=
  modify intel_pt_mode_exec ;;
  followed_by_fup (fun d => d <| d_set_fup_mode_exec := true |>) no_tip.

Definition trace_mode_tsx (no_tip : bool) : M D (trace_step * bool) :=
  d ← get;
  if negb (d_pge d) || d_in_psb d then
    modify intel_pt_update_in_tx ;;
    mret (Continue, no_tip)
  else
    '(err, no_tip) ← intel_pt_mode_tsx no_tip;
    mret (if negb (err =? 0) then Return err else Next, no_tip).

Definition trace_ptwrite_ip (no_tip : bool) : M D (trace_step * bool) :=
  modify (fun d => d <| d_fup_ptw_payload := pkt_payload (d_packet d) |>) ;;
  followed_by_fup (fun d => d <| d_set_fup_ptw := true |>) no_tip.

Definition trace_mwait (no_tip : bool) : M D (trace_step * bool) :=
  modify (fun d => d <| d_fup_mwait_payload := pkt_payload (d_packet d) |>
                     <| d_set_fup_mwait := true |>) ;;
  mret (Continue, no_tip).

(** The last assignment is to [pwrx_payload], as in the source. *)
Definition trace_pwre (no_tip : bool) : M D (trace_step * bool) :=
  d ← get;
  if d_set_fup_mwait d then
    modify (fun d => d <| d_fup_pwre_payload := pkt_payload (d_packet d) |>
                       <| d_set_fup_pwre := true |>) ;;
    mret (Continue, no_tip)
  else
    modify (fun d => sample_at_ip INTEL_PT_PWR_ENTRY d
                       <| st st_pwrx_payload := pkt_payload (d_packet d) |>) ;;
    mret (Return 0, no_tip).

Definition trace_cfe (no_tip : bool) : M D (trace_step * bool) :=
  modify (fun d => d <| d_fup_cfe_pkt := d_packet d |> <| d_set_fup_cfe := true |>) ;;
  d ← get;
  if negb (d_pge d) then
    intel_pt_fup_event true ;;
    mret (Return 0, no_tip)
  else mret (Continue, no_tip).

Definition trace_cfe_ip (no_tip : bool) : M D (trace_step * bool) :=
  modify (fun d => d <| d_fup_cfe_pkt := d_packet d |>) ;;
  followed_by_fup (fun d => d <| d_set_fup_cfe_ip := true |>) no_tip.

Definition trace_evd (no_tip : bool) : M D (trace_step * bool) :=
  err ← error_of intel_pt_evd;
  mret (if negb (err =? 0) then Return err else Continue, no_tip).

Definition trace_event (f : intel_pt_decoder -> intel_pt_decoder) (no_tip : bool)
    : M D (trace_step * bool) :=
  modify f ;; mret (Return 0, no_tip).
Definition trace_update (f : intel_pt_decoder -> intel_pt_decoder) (no_tip : bool)
    : M D (trace_step * bool) :=
  modify f ;; mret (Continue, no_tip).

Definition trace_packet (no_tip : bool) : M D (trace_step * bool) :=
  d ← get;
  match pkt_type (d_packet d) with
  | INTEL_PT_TNT => trace_tnt no_tip
  | INTEL_PT_TIP_PGD => trace_tip INTEL_PT_STATE_TIP_PGD no_tip
  | INTEL_PT_TIP_PGE => trace_tip_pge no_tip
  | INTEL_PT_OVF => err ← error_of intel_pt_overflow; mret (Return err, no_tip)
  | INTEL_PT_TIP => trace_tip INTEL_PT_STATE_TIP no_tip
  | INTEL_PT_FUP => trace_fup no_tip
  | INTEL_PT_TRACESTOP => trace_update stop_tracing no_tip
  | INTEL_PT_PSB => trace_psb no_tip
  | INTEL_PT_PIP => trace_update intel_pt_update_pip no_tip
  | INTEL_PT_MTC => trace_mtc no_tip
  | INTEL_PT_TSC => intel_pt_calc_tsc_timestamp ;; mret (Continue, no_tip)
  | INTEL_PT_TMA => trace_update intel_pt_calc_tma no_tip
  | INTEL_PT_CYC => trace_update intel_pt_calc_cyc_timestamp no_tip
  | INTEL_PT_CBR => trace_cbr no_tip
  | INTEL_PT_MODE_EXEC => trace_mode_exec no_tip
  | INTEL_PT_MODE_TSX => trace_mode_tsx no_tip
  | INTEL_PT_BAD => err ← error_of intel_pt_bug; mret (Return err, no_tip)
  | INTEL_PT_PSBEND | INTEL_PT_VMCS | INTEL_PT_MNT | INTEL_PT_PAD => mret (Continue, no_tip)
  | INTEL_PT_PTWRITE_IP => trace_ptwrite_ip no_tip
  | INTEL_PT_PTWRITE =>
    trace_event (fun d => sample_at_ip INTEL_PT_PTW d
                            <| st st_ptw_payload := pkt_payload (d_packet d) |>) no_tip
  | INTEL_PT_MWAIT => trace_mwait no_tip
  | INTEL_PT_PWRE => trace_pwre no_tip
  | INTEL_PT_EXSTOP_IP => followed_by_fup (fun d => d <| d_set_fup_exstop := true |>) no_tip
  | INTEL_PT_EXSTOP => trace_event (sample_at_ip INTEL_PT_EX_STOP) no_tip
  | INTEL_PT_PWRX =>
    trace_event (fun d => sample_at_ip INTEL_PT_PWR_EXIT d
                            <| st st_pwrx_payload := pkt_payload (d_packet d) |>) no_tip
  | INTEL_PT_BBP => trace_update intel_pt_bbp no_tip
  | INTEL_PT_BIP => trace_update intel_pt_bip no_tip
  | INTEL_PT_BEP => trace_event (sample_at_ip INTEL_PT_BLK_ITEMS) no_tip
  | INTEL_PT_BEP_IP => followed_by_fup (fun d => d <| d_set_fup_bep := true |>) no_tip
  | INTEL_PT_CFE => trace_cfe no_tip
  | INTEL_PT_CFE_IP => trace_cfe_ip no_tip
  | INTEL_PT_EVD => trace_evd no_tip
  end.

(** The lines from [next:] to the switch; returns the new [last_packet_type]. *)
Definition trace_cyc_threshold (last_packet_type : intel_pt_pkt_type)
    : M D intel_pt_pkt_type :=
  d ← get;
  if d_cyc_threshold d =? 0 then mret last_packet_type
  else
    when (d_sample_cyc d && negb (bool_decide (last_packet_type = INTEL_PT_CYC)))
      (modify (fun d => d <| d_sample_cyc := false |>)) ;;
    mret (pkt_type (d_packet d)).

(** [fetch] is false after [goto next]. *)
Fixpoint walk_trace_loop (n : nat) (fetch : bool) (last_packet_type : intel_pt_pkt_type)
    (no_tip : bool) : M D Z :=
  match n with
  | O => no_fuel
  | S n' =>
    TRY (if fetch then intel_pt_get_next_packet else mret 0);
    last_packet_type ← trace_cyc_threshold last_packet_type;
    d ← get;
    '(hop, no_tip) ← (if d_hop d then intel_pt_hop_trace no_tip
                      else mret (HOP_PROCESS, no_tip));
    match hop with
    | HOP_IGNORE => walk_trace_loop n' true last_packet_type no_tip
    | HOP_RETURN err => mret err
    | HOP_AGAIN => walk_trace_loop n' false last_packet_type no_tip
    | HOP_PROCESS =>
      '(step, no_tip) ← trace_packet no_tip;
      match step with
      | Continue => walk_trace_loop n' true last_packet_type no_tip
      | Next => walk_trace_loop n' false last_packet_type no_tip
      | Return err => mret err
      end
    end
  end.

Definition intel_pt_walk_trace : M D Z := walk_trace_loop fuel true INTEL_PT_PAD false.

(** ** Getting in sync *)

(** One packet of [intel_pt_walk_psb]. *)
Definition psb_packet : M D (option Z) :=
  d ← get;
  match pkt_type (d_packet d) with
  | INTEL_PT_TIP_PGD =>
    modify (fun d => d <| d_continuous_period := false |>) ;;
    mret (Some (- ENOENT))
  | INTEL_PT_TIP_PGE | INTEL_PT_TIP | INTEL_PT_PTWRITE | INTEL_PT_PTWRITE_IP
  | INTEL_PT_EXSTOP | INTEL_PT_EXSTOP_IP | INTEL_PT_MWAIT | INTEL_PT_PWRE | INTEL_PT_PWRX
  | INTEL_PT_BBP | INTEL_PT_BIP | INTEL_PT_BEP | INTEL_PT_BEP_IP | INTEL_PT_CFE
  | INTEL_PT_CFE_IP | INTEL_PT_EVD => mret (Some (- ENOENT))
  | INTEL_PT_FUP =>
    modify (fun d =>
      let d := d <| d_pge := true |> in
      if intel_pt_have_ip d then
        let d := intel_pt_set_ip d in
        d <| d_psb_ip := d_ip d |>
      else d) ;;
    mret None
  | INTEL_PT_MTC => intel_pt_calc_mtc_timestamp ;; mret None
  | INTEL_PT_TSC => intel_pt_calc_tsc_timestamp ;; mret None
  | INTEL_PT_TMA => modify intel_pt_calc_tma ;; mret None
  | INTEL_PT_CYC => modify intel_pt_calc_cyc_timestamp ;; mret None
  | INTEL_PT_CBR => modify intel_pt_calc_cbr ;; mret None
  | INTEL_PT_PIP => modify intel_pt_set_pip ;; mret None
  | INTEL_PT_MODE_EXEC => modify intel_pt_mode_exec_status ;; mret None
  | INTEL_PT_MODE_TSX => modify intel_pt_update_in_tx ;; mret None
  | INTEL_PT_TRACESTOP | INTEL_PT_TNT =>
    modify (fun d' =>
      let d' :=
        if bool_decide (pkt_type (d_packet d) = INTEL_PT_TRACESTOP) then stop_tracing d'
        else d' in
      let d' := d' <| d_have_tma := false |> in
      if negb (d_ip d' =? 0) then d' <| d_pkt_state := INTEL_PT_STATE_ERR4 |>
      else d' <| d_pkt_state := INTEL_PT_STATE_ERR3 |>) ;;
    mret (Some (- ENOENT))
  | INTEL_PT_BAD => err ← error_of intel_pt_bug; mret (Some err)
  | INTEL_PT_OVF => err ← error_of intel_pt_overflow; mret (Some err)
  | INTEL_PT_PSBEND => mret (Some 0)
  | INTEL_PT_PSB | INTEL_PT_VMCS | INTEL_PT_MNT | INTEL_PT_PAD => mret None
  end.

Definition intel_pt_walk_psb : M D Z :=
  modify (fun d => d <| d_in_psb := true |>) ;;
  err ← packet_loop fuel psb_packet;
  modify (fun d => d <| d_in_psb := false |>) ;;
  mret err.

(** The ends of the TIP cases of [intel_pt_walk_to_ip]: the ip is known, or
    go on. *)
Definition found_ip (bits : Z) : M D (option Z) :=
  modify set_ip_if_known ;;
  d ← get;
  if d_ip d =? 0 then mret None
  else modify (or_type bits) ;; mret (Some 0).

Definition to_ip_psb : M D (option Z) :=
  modify (fun d => d <| st st_psb_offset := d_pos d |> <| d_psb_ip := 0 |>
                     <| d_last_ip := 0 |> <| d_have_last_ip := true |>) ;;
  clear_stack ;;
  err ← intel_pt_walk_psb;
  if negb (err =? 0) then mret (Some err)
  else modify psb_event ;; mret (Some 0).

(** One packet of [intel_pt_walk_to_ip]. *)
Definition to_ip_packet : M D (option Z) :=
  d ← get;
  match pkt_type (d_packet d) with
  | INTEL_PT_TIP_PGD =>
    modify (fun d => d <| d_continuous_period := false |> <| d_pge := false |>) ;;
    found_ip INTEL_PT_TRACE_END
  | INTEL_PT_TIP_PGE =>
    modify (fun d => intel_pt_mtc_cyc_cnt_pge (d <| d_pge := true |>)) ;;
    found_ip INTEL_PT_TRACE_BEGIN
  | INTEL_PT_TIP =>
    modify (fun d => d <| d_pge := true |>) ;;
    found_ip 0
  | INTEL_PT_FUP => found_ip 0
  | INTEL_PT_MTC => intel_pt_calc_mtc_timestamp ;; mret None
  | INTEL_PT_TSC => intel_pt_calc_tsc_timestamp ;; mret None
  | INTEL_PT_TMA => modify intel_pt_calc_tma ;; mret None
  | INTEL_PT_CYC => modify intel_pt_calc_cyc_timestamp ;; mret None
  | INTEL_PT_CBR => modify intel_pt_calc_cbr ;; mret None
  | INTEL_PT_PIP => modify intel_pt_set_pip ;; mret None
  | INTEL_PT_MODE_EXEC => modify intel_pt_mode_exec_status ;; mret None
  | INTEL_PT_MODE_TSX => modify intel_pt_update_in_tx ;; mret None
  | INTEL_PT_OVF => err ← error_of intel_pt_overflow; mret (Some err)
  | INTEL_PT_BAD => err ← error_of intel_pt_bug; mret (Some err)
  | INTEL_PT_TRACESTOP => modify stop_tracing ;; mret None
  | INTEL_PT_PSB => to_ip_psb
  | INTEL_PT_TNT | INTEL_PT_PSBEND | INTEL_PT_VMCS | INTEL_PT_MNT | INTEL_PT_PAD
  | INTEL_PT_PTWRITE | INTEL_PT_PTWRITE_IP | INTEL_PT_EXSTOP | INTEL_PT_EXSTOP_IP
  | INTEL_PT_MWAIT | INTEL_PT_PWRE | INTEL_PT_PWRX | INTEL_PT_BBP | INTEL_PT_BIP
  | INTEL_PT_BEP | INTEL_PT_BEP_IP | INTEL_PT_CFE | INTEL_PT_CFE_IP | INTEL_PT_EVD =>
    mret None
  end.

Definition intel_pt_walk_to_ip : M D Z := packet_loop fuel to_ip_packet.

Definition intel_pt_sync_ip : M D Z :=
  modify (fun d => intel_pt_clear_fup_event d <| d_overflow := false |>) ;;
  d ← get;
  if negb (d_branch_enable d) then
    modify (fun d => d <| d_pkt_state := INTEL_PT_STATE_IN_SYNC |> <| st st_type := 0 |>) ;;
    mret 0
  else
    err ← intel_pt_walk_to_ip;
    d ← get;
    if negb (err =? 0)
       || (negb (st_type (d_state d) .& INTEL_PT_PSB_EVT =? 0) && (d_ip d =? 0)) then mret err
    else
      modify (fun d =>
        let d := d <| d_pkt_state :=
          if d_hop d then INTEL_PT_STATE_RESAMPLE else INTEL_PT_STATE_IN_SYNC |> in
        d <| st st_from_ip := 0 |> <| st st_to_ip := d_ip d |>) ;;
      mret 0.

Definition intel_pt_sync : M D Z :=
  modify (fun d => d <| d_pge := false |> <| d_continuous_period := false |>
                     <| d_have_last_ip := false |> <| d_last_ip := 0 |>
                     <| d_psb_ip := 0 |> <| d_ip := 0 |>) ;;
  clear_stack ;;
  TRY intel_pt_scan_for_psb;
  d ← get;
  if d_vm_time_correlation d then
    modify (fun d =>
      let d := d <| d_in_psb := true |> in
      let d := if d_timestamp d =? 0 then d <| d_timestamp := 1 |> else d in
      d <| st st_type := 0 |> <| d_pkt_state := INTEL_PT_STATE_VM_TIME_CORRELATION |>) ;;
    mret 0
  else
    modify (fun d => d <| d_have_last_ip := true |> <| d_pkt_state := INTEL_PT_STATE_IN_SYNC |>) ;;
    TRY intel_pt_walk_psb;
    modify (fun d =>
      let d := psb_event d in
      if negb (d_ip d =? 0) then
        d <| d_pkt_state :=
          if d_hop d then INTEL_PT_STATE_RESAMPLE else INTEL_PT_STATE_IN_SYNC |>
      else d) ;;
    mret 0.
End trace.
