(* ===== verification/PtVmTime.v ===== *)
(** VM time correlation (intel-pt-decoder.c): TSC packets of guests are
    translated to host time, in the trace buffer itself. *)
From Stdlib Require Import ZArith Lia List Bool.
From S2P Require Import Prelude Float64 PktDecoder PtStack PtState PtTime PtReader PtWalk.
Open Scope Z_scope.
Open Scope c_scope.
Import ListNotations.

Record intel_pt_vm_tsc_info := mkTscInfo {
  ti_pip_packet : intel_pt_pkt;
  ti_vmcs_packet : intel_pt_pkt;
  ti_tma_packet : intel_pt_pkt;
  ti_tsc : bool;
  ti_pip : bool;
  ti_vmcs : bool;
  ti_tma : bool;
  ti_psbend : bool;
  ti_ctc_delta : Z;
  ti_last_ctc : Z;
  ti_max_lookahead : Z
}.

#[export] Instance eta_tsc_info : Eta intel_pt_vm_tsc_info :=
  fun i => mkTscInfo (ti_pip_packet i) (ti_vmcs_packet i) (ti_tma_packet i) (ti_tsc i) (ti_pip i)
    (ti_vmcs i) (ti_tma i) (ti_psbend i) (ti_ctc_delta i) (ti_last_ctc i) (ti_max_lookahead i).
#[export] Instance set_ti_pip_packet : Setter ti_pip_packet := ltac:(solve_setter).
#[export] Instance set_ti_vmcs_packet : Setter ti_vmcs_packet := ltac:(solve_setter).
#[export] Instance set_ti_tma_packet : Setter ti_tma_packet := ltac:(solve_setter).
#[export] Instance set_ti_tsc : Setter ti_tsc := ltac:(solve_setter).
#[export] Instance set_ti_pip : Setter ti_pip := ltac:(solve_setter).
#[export] Instance set_ti_vmcs : Setter ti_vmcs := ltac:(solve_setter).
#[export] Instance set_ti_tma : Setter ti_tma := ltac:(solve_setter).
#[export] Instance set_ti_psbend : Setter ti_psbend := ltac:(solve_setter).
#[export] Instance set_ti_ctc_delta : Setter ti_ctc_delta := ltac:(solve_setter).
#[export] Instance set_ti_last_ctc : Setter ti_last_ctc := ltac:(solve_setter).
#[export] Instance set_ti_max_lookahead : Setter ti_max_lookahead := ltac:(solve_setter).

Definition zero_tsc_info : intel_pt_vm_tsc_info :=
  mkTscInfo zero_pkt zero_pkt zero_pkt false false false false false 0 0 0.

(** ** Lookahead *)

Definition intel_pt_vm_psb_lookahead_cb : pkt_cb intel_pt_vm_tsc_info := fun info d x =>
  match pkt_type (pi_packet info) with
  | INTEL_PT_PAD | INTEL_PT_MNT | INTEL_PT_MODE_EXEC | INTEL_PT_MODE_TSX | INTEL_PT_MTC
  | INTEL_PT_FUP | INTEL_PT_CYC | INTEL_PT_CBR => (0, d, x)
  | INTEL_PT_TSC => (0, d, x <| ti_tsc := true |>)
  | INTEL_PT_TMA => (0, d, x <| ti_tma_packet := pi_packet info |> <| ti_tma := true |>)
  | INTEL_PT_PIP => (0, d, x <| ti_pip_packet := pi_packet info |> <| ti_pip := true |>)
  | INTEL_PT_VMCS => (0, d, x <| ti_vmcs_packet := pi_packet info |> <| ti_vmcs := true |>)
  | INTEL_PT_PSBEND => (1, d, x <| ti_psbend := true |>)
  | _ => (1, d, x)
  end.

Record intel_pt_ovf_fup_info := mkOvfInfo { oi_max_lookahead : Z; oi_found : bool }.

Definition intel_pt_ovf_fup_lookahead_cb : pkt_cb intel_pt_ovf_fup_info := fun info d x =>
  match pkt_type (pi_packet info) with
  | INTEL_PT_CYC | INTEL_PT_MTC | INTEL_PT_TSC =>
    let left := oi_max_lookahead x - 1 in
    (if left =? 0 then 1 else 0, d, mkOvfInfo left (oi_found x))
  | t => (1, d, mkOvfInfo (oi_max_lookahead x) (bool_decide (t = INTEL_PT_FUP)))
  end.

Definition intel_pt_tma_lookahead_cb : pkt_cb intel_pt_vm_tsc_info := fun info d x =>
  match pkt_type (pi_packet info) with
  | INTEL_PT_CYC | INTEL_PT_MTC =>
    let left := ti_max_lookahead x - 1 in
    (if left =? 0 then 1 else 0, d, x <| ti_max_lookahead := left |>)
  | INTEL_PT_TMA => (1, d, x <| ti_tma_packet := pi_packet info |> <| ti_tma := true |>)
  | _ => (1, d, x)
  end.

Definition intel_pt_expected_tsc (d : intel_pt_decoder) (data : intel_pt_vm_tsc_info) : Z :=
  intel_pt_calc_expected_tsc d (u32 (pkt_payload (ti_tma_packet data)))
    (u32 (pkt_count (ti_tma_packet data))) (d_ctc_timestamp d) (ti_ctc_delta data)
    (u32 (ti_last_ctc data)).

Definition in_vm (pip_payload : Z) : bool := negb (pip_payload .& 1 =? 0).
Definition pip_in_vm (pip_packet : intel_pt_pkt) : bool := in_vm (pkt_payload pip_packet).

(** The guest's offset, 0 without a [vmcs_info] or when it is not known. *)
Definition vmcs_tsc_offset (info : option intel_pt_vmcs_info) : Z :=
  match info with Some v => vi_tsc_offset v | None => 0 end.

(** Whether to record the measured offset, and as reliable ([assign] and
    [assign_reliable] of [intel_pt_vm_tm_corr_tsc]). *)
Definition assign_offset (d : intel_pt_decoder) (data : intel_pt_vm_tsc_info)
    (info : option intel_pt_vmcs_info) : bool * bool :=
  match info with
  | Some v =>
    if vi_vmcs v =? 0 then (false, false)
    else if negb (vi_tsc_offset v =? 0) && vi_reliable v then (false, false)
    else if d_in_psb d && ti_pip data && d_vm_tm_corr_reliable d
            && d_vm_tm_corr_continuous d && d_vm_tm_corr_same_buf d then (true, true)
    else if d_in_psb d && ti_pip data && d_vm_tm_corr_same_buf d then (true, false)
    else (false, false)
  | None => (false, false)
  end.

(** Which of the ways on [intel_pt_vm_tm_corr_tsc] takes for a TSC that is not
    the first. *)
Inductive tsc_origin := FromHost (update : intel_pt_decoder -> intel_pt_decoder)
| MissingVmcs | FromGuest (reliable : bool).

Definition classify_tsc (d : intel_pt_decoder) (data : intel_pt_vm_tsc_info)
    (info : option intel_pt_vmcs_info) (host_tsc expected_tsc tsc_offset : Z) : tsc_origin :=
  if ti_pip data then
    if pip_in_vm (ti_pip_packet data) then
      match info with None => MissingVmcs | Some _ => FromGuest true end
    else
      FromHost (fun d => d <| d_last_reliable_timestamp := host_tsc |>
                           <| d_vm_tm_corr_reliable := true |>)
  else if d_in_psb d && (tsc_offset =? 0) then FromHost (fun d => d)
  else if d_in_psb d
          && match info with
             | Some v => (tsc_offset .& SEVEN_BYTES) =? (vi_tsc_offset v .& SEVEN_BYTES)
             | None => false
             end then FromGuest false
  else if (expected_tsc <=? host_tsc) && intel_pt_time_in_range d host_tsc then
    FromHost (fun d => d <| d_vm_tm_corr_reliable := false |>)
  else FromGuest false.

Section vm_time.
Context {D : Type} `{Platform} `{Callbacks D} `{Fuel}.
Implicit Types (d : intel_pt_decoder) (e : D).

Definition intel_pt_ovf_fup_lookahead : M D bool :=
  '(_, data) ← intel_pt_pkt_lookahead intel_pt_ovf_fup_lookahead_cb (mkOvfInfo 16 false);
  mret (oi_found data).

(** Overwrites [n] bytes at [decoder->buf + 1] with [value]. *)
Definition patch_buf (value : Z) (n : nat) : M D unit :=
  d ← get;
  buf ← lift (memcpy (d_buf d) 1 (le_bytes n value) (Z.of_nat n));
  modify (fun d => d <| d_buf := buf |>).

Definition translate (tsc_offset : Z) : M D unit :=
  modify (upd d_packet (fun p =>
    p <| pkt_payload := u64 (pkt_payload p - tsc_offset) .& SEVEN_BYTES |>)) ;;
  d ← get;
  when (negb (d_vm_tm_corr_dry_run d)) (patch_buf (pkt_payload (d_packet d)) 7).

(** The [vmcs] of [vmcs_info] is only logged. *)
Definition intel_pt_translate_vm_tsc (info : intel_pt_vmcs_info) : M D unit :=
  translate (vi_tsc_offset info).

Definition intel_pt_translate_vm_tsc_offset (tsc_offset : Z) : M D unit :=
  intel_pt_translate_vm_tsc (mkVmcsInfo NO_VMCS tsc_offset false false).

Definition intel_pt_vm_tm_corr_psb : M D intel_pt_vm_tsc_info :=
  d ← get;
  let data := zero_tsc_info <| ti_ctc_delta := d_ctc_delta d |> <| ti_last_ctc := d_last_ctc d |> in
  '(_, data) ← intel_pt_pkt_lookahead intel_pt_vm_psb_lookahead_cb data;
  modify (fun d => d <| d_in_psb := ti_psbend data |>) ;;
  mret data.

(** The [vmcs_info] behind a handle, read when it is used. *)
Definition read_vmcs (h : option Z) : M D (option intel_pt_vmcs_info) :=
  call (fun e => (match h with Some h => Some (vmcs_read e h) | None => None end, e)).
Definition write_vmcs (h : option Z) (f : intel_pt_vmcs_info -> intel_pt_vmcs_info) : M D unit :=
  call (fun e => (tt, match h with
                      | Some h => vmcs_write e h (f (vmcs_read e h))
                      | None => e
                      end)).

Definition intel_pt_vm_tm_corr_first_tsc (data : intel_pt_vm_tsc_info) (h : option Z)
    (host_tsc : Z) : M D unit :=
  info ← read_vmcs h;
  let offset := vmcs_tsc_offset info in
  if ti_pip data then
    if pip_in_vm (ti_pip_packet data) then
      when (negb (offset =? 0)) (
        translate offset ;;
        modify (fun d => d <| d_vm_tm_corr_reliable := true |>))
    else modify (fun d => d <| d_vm_tm_corr_reliable := true |>)
  else
    modify (fun d => d <| d_vm_tm_corr_reliable := false |>) ;;
    d ← get;
    when (negb (intel_pt_time_in_range d host_tsc) && negb (offset =? 0)) (translate offset).

(** From the label [guest:] on. *)
Definition vm_tm_corr_guest (data : intel_pt_vm_tsc_info) (h : option Z) (tsc_offset : Z)
    (reliable : bool) : M D unit :=
  d ← get;
  info ← read_vmcs h;
  let '(assign, assign_reliable) := assign_offset d data info in
  when assign (write_vmcs h (fun v =>
    if negb (vi_tsc_offset v =? tsc_offset) || negb (eqb (vi_reliable v) assign_reliable) then
      v <| vi_tsc_offset := tsc_offset |> <| vi_reliable := assign_reliable |>
    else v)) ;;
  info ← read_vmcs h;
  reliable ← (match info with
    | Some v =>
      if negb (vi_tsc_offset v =? 0) then
        intel_pt_translate_vm_tsc v ;; mret (reliable && vi_reliable v)
      else
        write_vmcs h (fun v => if vi_error_printed v then v
                               else v <| vi_error_printed := true |>) ;;
        intel_pt_translate_vm_tsc_offset tsc_offset ;;
        mret false
    | None =>
      modify (fun d => (intel_pt_print_once INTEL_PT_PRT_ONCE_UNK_VMCS d).2) ;;
      intel_pt_translate_vm_tsc_offset tsc_offset ;;
      mret false
    end);
  modify (fun d => d <| d_vm_tm_corr_reliable := reliable |>).

(** [data] as the beginning of [intel_pt_vm_tm_corr_tsc] leaves it. *)
Definition tsc_lookahead (data : intel_pt_vm_tsc_info) : M D intel_pt_vm_tsc_info :=
  d ← get;
  if d_in_psb d then mret data
  else
    let data := zero_tsc_info <| ti_ctc_delta := d_ctc_delta d |>
      <| ti_last_ctc := d_last_ctc d |> <| ti_max_lookahead := 16 |> in
    '(_, data) ← intel_pt_pkt_lookahead intel_pt_tma_lookahead_cb data;
    d ← get;
    mret (if d_pge d then
            upd ti_pip_packet (fun p => p <| pkt_payload := d_pip_payload d |>)
              (data <| ti_pip := true |>)
          else data).

(** [findnew_vmcs_info], with [NO_VMCS] as 0. *)
Definition findnew_vmcs (vmcs : Z) : M D (option Z) :=
  call (fun e => findnew_vmcs_info e (if vmcs =? NO_VMCS then 0 else vmcs)).

Definition intel_pt_vm_tm_corr_tsc (data : intel_pt_vm_tsc_info) : M D intel_pt_vm_tsc_info :=
  data ← tsc_lookahead data;
  if negb (ti_tma data) then mret data
  else
    d ← get;
    h ← findnew_vmcs (if ti_vmcs data then pkt_payload (ti_vmcs_packet data) else d_vmcs d);
    let ref_timestamp :=
      if negb (d_timestamp d =? 0) then d_timestamp d else d_buf_timestamp d in
    let host_tsc := intel_pt_8b_tsc (pkt_payload (d_packet d)) ref_timestamp in
    if d_ctc_timestamp d =? 0 then
      intel_pt_vm_tm_corr_first_tsc data h host_tsc ;;
      mret data
    else
      let expected_tsc := intel_pt_expected_tsc d data in
      let tsc_offset := u64 (host_tsc - expected_tsc) in
      info ← read_vmcs h;
      match classify_tsc d data info host_tsc expected_tsc tsc_offset with
      | FromHost update => modify update
      | MissingVmcs =>
        intel_pt_translate_vm_tsc_offset tsc_offset ;;
        modify (fun d => d <| d_vm_tm_corr_reliable := false |>)
      | FromGuest reliable => vm_tm_corr_guest data h tsc_offset reliable
      end ;;
      mret data.

Definition intel_pt_vm_tm_corr_pebs_tsc : M D unit :=
  d ← get;
  let guest_tsc := pkt_payload (d_packet d) in
  h ← findnew_vmcs (d_vmcs d);
  if d_pge d && negb (in_vm (d_pip_payload d)) then mret tt
  else if negb (d_pge d) && intel_pt_time_in_range d guest_tsc then mret tt
  else
    info ← read_vmcs h;
    host_tsc ← (match info with
      | Some v =>
        let host_tsc := u64 ((guest_tsc .& SEVEN_BYTES) - vi_tsc_offset v) .& SEVEN_BYTES in
        let host_tsc := intel_pt_8b_tsc host_tsc (d_timestamp d) in
        modify (fun d => if negb (intel_pt_time_in_range d host_tsc) then
                           (intel_pt_print_once INTEL_PT_PRT_ONCE_ERANGE d).2 else d) ;;
        mret host_tsc
      | None =>
        modify (fun d => (intel_pt_print_once INTEL_PT_PRT_ONCE_UNK_VMCS d).2) ;;
        mret (d_timestamp d)
      end);
    modify (upd d_packet (fun p => p <| pkt_payload := host_tsc |>)) ;;
    d ← get;
    when (negb (d_vm_tm_corr_dry_run d)) (patch_buf host_tsc 8).

(** One packet of [intel_pt_vm_time_correlation]; returns [data]. *)
Definition vm_time_packet (data : intel_pt_vm_tsc_info) : M D intel_pt_vm_tsc_info :=
  d ← get;
  match pkt_type (d_packet d) with
  | INTEL_PT_TIP_PGD =>
    modify (fun d => d <| d_pge := false |> <| d_vm_tm_corr_continuous := false |>) ;; mret data
  | INTEL_PT_TNT | INTEL_PT_TIP | INTEL_PT_TIP_PGE =>
    modify (fun d => d <| d_pge := true |>) ;; mret data
  | INTEL_PT_OVF =>
    modify (fun d => d <| d_in_psb := false |>) ;;
    pge ← intel_pt_ovf_fup_lookahead;
    modify (fun d =>
      let d := d <| d_pge := pge |> in
      if negb (d_pge d) then d <| d_vm_tm_corr_continuous := false |> else d) ;;
    mret data
  | INTEL_PT_FUP =>
    when (d_in_psb d) (modify (fun d => d <| d_pge := true |>)) ;; mret data
  | INTEL_PT_TRACESTOP =>
    modify (fun d => d <| d_pge := false |> <| d_vm_tm_corr_continuous := false |>
                       <| d_have_tma := false |>) ;;
    mret data
  | INTEL_PT_PSB => intel_pt_vm_tm_corr_psb
  | INTEL_PT_PIP =>
    modify (fun d => d <| d_pip_payload := pkt_payload (d_packet d) |>) ;; mret data
  | INTEL_PT_MTC => intel_pt_calc_mtc_timestamp ;; mret data
  | INTEL_PT_TSC =>
    data ← intel_pt_vm_tm_corr_tsc data;
    intel_pt_calc_tsc_timestamp ;;
    modify (fun d => d <| d_vm_tm_corr_same_buf := true |>
                       <| d_vm_tm_corr_continuous := d_pge d |>) ;;
    mret data
  | INTEL_PT_TMA => modify intel_pt_calc_tma ;; mret data
  | INTEL_PT_CYC => modify intel_pt_calc_cyc_timestamp ;; mret data
  | INTEL_PT_CBR => modify intel_pt_calc_cbr ;; mret data
  | INTEL_PT_PSBEND =>
    modify (fun d => d <| d_in_psb := false |>) ;; mret (data <| ti_psbend := false |>)
  | INTEL_PT_VMCS =>
    when (negb (pkt_payload (d_packet d) =? NO_VMCS))
      (modify (fun d => d <| d_vmcs := pkt_payload (d_packet d) |>)) ;;
    mret data
  | INTEL_PT_BBP =>
    modify (fun d => d <| d_blk_type := u32 (pkt_payload (d_packet d)) |>) ;; mret data
  | INTEL_PT_BIP =>
    when ((d_blk_type d =? INTEL_PT_PEBS_BASIC) && (pkt_count (d_packet d) =? 2))
      intel_pt_vm_tm_corr_pebs_tsc ;;
    mret data
  | INTEL_PT_BEP | INTEL_PT_BEP_IP => modify (fun d => d <| d_blk_type := 0 |>) ;; mret data
  | _ => mret data
  end.

Fixpoint vm_time_loop (n : nat) (data : intel_pt_vm_tsc_info) : M D Z :=
  match n with
  | O => no_fuel
  | S n' =>
    err ← intel_pt_get_next_packet;
    if err =? - ENOLINK then vm_time_loop n' data
    else if negb (err =? 0) then mret err
    else data ← vm_time_packet data; vm_time_loop n' data
  end.

Definition intel_pt_vm_time_correlation : M D Z :=
  d ← get;
  data ← (if d_in_psb d then intel_pt_vm_tm_corr_psb else mret zero_tsc_info);
  vm_time_loop fuel data.
End vm_time.
