(* ===== verification/PtDecode.v ===== *)
(** The entry points of intel-pt-decoder.c: [intel_pt_decode], fast forward,
    and the search for the overlap of two buffers. *)
From Stdlib Require Import ZArith Lia List Bool.
From S2P Require Import Prelude Float64 PktDecoder PtStack PtState PtTime PtReader PtWalk PtTrace PtVmTime.
Open Scope Z_scope.
Open Scope c_scope.
Import ListNotations.

(** ** Decoding *)

(** After an error. *)
Definition decode_error (err : Z) (d : intel_pt_decoder) : intel_pt_decoder :=
  let d := d <| st st_err := intel_pt_ext_err err |> in
  let d := if negb (err =? - EOVERFLOW) then d <| st st_from_ip := d_ip d |> else d in
  let d := intel_pt_update_sample_time d in
  intel_pt_set_nr (d <| d_sample_tot_cyc_cnt := d_tot_cyc_cnt d |>).

Definition decode_ok (d : intel_pt_decoder) : intel_pt_decoder :=
  let d := d <| st st_err := 0 |> in
  let d :=
    if negb (d_cbr d =? d_cbr_seen d) then
      let d := d <| d_cbr_seen := d_cbr d |> in
      let d :=
        if st_type (d_state d) =? 0 then
          d <| st st_from_ip := d_ip d |> <| st st_to_ip := 0 |>
        else d in
      or_type INTEL_PT_CBR_CHG d
        <| st st_cbr_payload := d_cbr_payload d |>
        <| st st_cbr := d_cbr d |>
    else d in
  let d :=
    if intel_pt_sample_time (d_pkt_state d) then
      let d := intel_pt_update_sample_time d in
      if d_sample_cyc d then
        or_flags INTEL_PT_SAMPLE_IPC (d <| d_sample_tot_cyc_cnt := d_tot_cyc_cnt d |>)
          <| d_sample_cyc := false |>
      else d
    else d in
  if negb (d_have_cyc d) then or_flags INTEL_PT_SAMPLE_IPC d else d.

(** The lines both ways end with. *)
Definition decode_finish (d : intel_pt_decoder) : intel_pt_decoder :=
  let d :=
    if negb (st_type (d_state d) .& INTEL_PT_PSB_EVT =? 0) && negb (d_tsc_timestamp d =? 0) then
      d <| d_sample_timestamp := d_tsc_timestamp d |>
    else d in
  let d := d <| st st_from_nr := d_nr d |> <| st st_to_nr := d_next_nr d |>
             <| d_nr := d_next_nr d |> in
  d <| st st_timestamp := d_sample_timestamp d |>
    <| st st_est_timestamp := intel_pt_est_timestamp d |>
    <| st st_tot_insn_cnt := d_tot_insn_cnt d |>
    <| st st_tot_cyc_cnt := d_sample_tot_cyc_cnt d |>.

Section decode.
Context {D : Type} `{Platform} `{Callbacks D} `{Fuel}.
Implicit Types (d : intel_pt_decoder) (e : D).

(** [k] goes on after -EAGAIN. *)
Definition again (m k : M D Z) : M D Z :=
  err ← m;
  if err =? - EAGAIN then k else mret err.

(** One turn of the loop of [intel_pt_decode]. *)
Definition decode_step : M D Z :=
  modify (fun d => d <| st st_type := INTEL_PT_BRANCH |> <| st st_flags := 0 |>) ;;
  d ← get;
  match d_pkt_state d with
  | INTEL_PT_STATE_NO_PSB => intel_pt_sync
  | INTEL_PT_STATE_NO_IP =>
    modify (fun d => d <| d_have_last_ip := false |> <| d_last_ip := 0 |> <| d_ip := 0 |>) ;;
    intel_pt_sync_ip
  | INTEL_PT_STATE_ERR_RESYNC => intel_pt_sync_ip
  | INTEL_PT_STATE_IN_SYNC => intel_pt_walk_trace
  | INTEL_PT_STATE_TNT | INTEL_PT_STATE_TNT_CONT => again intel_pt_walk_tnt intel_pt_walk_trace
  | INTEL_PT_STATE_TIP | INTEL_PT_STATE_TIP_PGD => intel_pt_walk_tip
  | INTEL_PT_STATE_FUP => again intel_pt_walk_fup intel_pt_walk_fup_tip
  | INTEL_PT_STATE_FUP_NO_TIP => again intel_pt_walk_fup intel_pt_walk_trace
  | INTEL_PT_STATE_FUP_IN_PSB => intel_pt_fup_in_psb
  | INTEL_PT_STATE_RESAMPLE => error_of intel_pt_resample
  | INTEL_PT_STATE_VM_TIME_CORRELATION => intel_pt_vm_time_correlation
  end.

Fixpoint decode_loop (n : nat) : M D Z :=
  match n with
  | O => no_fuel
  | S n' =>
    err ← decode_step;
    if err =? - ENOLINK then decode_loop n' else mret err
  end.

(** Returns [decoder->state]. *)
Definition intel_pt_decode : M D intel_pt_state :=
  err ← decode_loop fuel;
  modify (if negb (err =? 0) then decode_error err else decode_ok) ;;
  modify decode_finish ;;
  gets d_state.
End decode.

(** ** Positions in a buffer

    A [(buf, len)] pair of the functions below is an offset into [mem] with the
    length left.  The outer [option] is a bad access (or fuel that was not
    enough). *)
Definition cursor : Type := Z * Z.

(** Whether a PSB was found, and the updated cursor. *)
Definition intel_pt_next_psb (mem : list byte) (c : cursor) : option (bool * cursor) :=
  let '(buf, len) := c in
  hay ← slice mem buf len;
  Some match memmem hay INTEL_PT_PSB_STR with
       | Some k => (true, (buf + k, u64 (len - k)))
       | None => (false, c)
       end.

Definition intel_pt_step_psb (mem : list byte) (c : cursor) : option (bool * cursor) :=
  let '(buf, len) := c in
  if len =? 0 then Some (false, c)
  else
    hay ← slice mem (buf + 1) (len - 1);
    Some match memmem hay INTEL_PT_PSB_STR with
         | Some k => (true, (buf + 1 + k, u64 (len - (1 + k))))
         | None => (false, c)
         end.

(** The offset in [s] of the last byte equal to [b]. *)
Fixpoint memrchr (s : list byte) (b : byte) : option Z :=
  match s with
  | [] => None
  | x :: s' =>
    match memrchr s' b with
    | Some i => Some (i + 1)
    | None => if bool_decide (x = b) then Some 0 else None
    end
  end.

Fixpoint last_psb_loop (n : nat) (mem : list byte) (buf k : Z) : option (option Z) :=
  match n with
  | O => None
  | S n' =>
    s ← slice mem buf k;
    match memrchr s x02 with
    | None => Some None
    | Some i =>
      t ← slice mem (buf + i + 1) (INTEL_PT_PSB_LEN - 1);
      if bool_decide (t = tl INTEL_PT_PSB_STR) then Some (Some (buf + i))
      else if i =? 0 then Some None
      else last_psb_loop n' mem buf i
    end
  end.

(** The offset of the last PSB.  [k] decreases, so [len] turns are enough. *)
Definition intel_pt_last_psb (mem : list byte) (buf len : Z) : option (option Z) :=
  if len <? INTEL_PT_PSB_LEN then Some None
  else last_psb_loop (Z.to_nat len) mem buf (len - INTEL_PT_PSB_LEN + 1).

Fixpoint next_tsc_loop (n : nat) (mem : list byte) (buf len : Z) (ctx : intel_pt_pkt_ctx)
    : option (option (Z * Z)) :=
  match n with
  | O => None
  | S n' =>
    if len =? 0 then Some None
    else
      '(ret, packet, ctx) ← intel_pt_get_packet (drop (Z.to_nat buf) mem) len ctx;
      if ret <=? 0 then Some None
      else if bool_decide (pkt_type packet = INTEL_PT_TSC) then
        Some (Some (pkt_payload packet, len))
      else if bool_decide (pkt_type packet = INTEL_PT_PSBEND) then Some None
      else next_tsc_loop n' mem (buf + ret) (u64 (len - ret)) ctx
  end.

(** The TSC and the length left at its packet.  Every packet is at least one
    byte, so [len + 1] turns are enough. *)
Definition intel_pt_next_tsc (mem : list byte) (buf len : Z) : option (option (Z * Z)) :=
  next_tsc_loop (S (Z.to_nat len)) mem buf len INTEL_PT_NO_CTX.

Definition intel_pt_tsc_cmp (tsc1 tsc2 : Z) : Z :=
  let halfway := 1 .<< 55 in
  if tsc1 =? tsc2 then 0
  else if tsc1 <? tsc2 then (if tsc2 - tsc1 <? halfway then -1 else 1)
  else (if tsc1 - tsc2 <? halfway then 1 else -1).

Definition MAX_PADDING : Z := 7.

(** [i] bytes left to compare, at [p] of [mem_b] and [q] of [mem_a]. *)
Fixpoint padding_loop (i : nat) (mem_b mem_a : list byte) (p q : Z) : option Z :=
  match i with
  | O => Some p
  | S i' =>
    x ← rd mem_b p;
    y ← rd mem_a q;
    if x =? y then padding_loop i' mem_b mem_a (p + 1) (q + 1) else Some p
  end.

Definition adj_for_padding (mem_b : list byte) (buf_b : Z) (mem_a : list byte)
    (buf_a len_a : Z) : option Z :=
  padding_loop (Z.to_nat MAX_PADDING) mem_b mem_a (buf_b - MAX_PADDING)
    (buf_a + len_a - MAX_PADDING).

(** The end of [intel_pt_find_overlap_tsc]: walk the PSBs of [b].  Returns the
    pointer into [b] and whether [*consecutive] was set. *)
Fixpoint overlap_tsc_loop (n : nat) (mem_a : list byte) (buf_a len_a tsc_a rem_a : Z)
    (mem_b : list byte) (b : cursor) (ooo_tsc : bool) : option (Z * bool) :=
  match n with
  | O => None
  | S n' =>
    let '(buf_b, len_b) := b in
    let step :=
      '(more, b) ← intel_pt_step_psb mem_b b;
      if (more : bool) then
        overlap_tsc_loop n' mem_a buf_a len_a tsc_a rem_a mem_b b ooo_tsc
      else Some (b.1 + b.2, false) in
    r ← intel_pt_next_tsc mem_b buf_b len_b;
    match r with
    | Some (tsc_b, rem_b) =>
      let cmp := intel_pt_tsc_cmp tsc_a tsc_b in
      if (cmp =? 0) && (rem_a <=? rem_b) then
        p ← adj_for_padding mem_b (buf_b + len_b - (rem_b - rem_a)) mem_a buf_a len_a;
        Some (p, true)
      else if (cmp <? 0) && negb ooo_tsc then Some (buf_b, false)
      else step
    | None => step
    end
  end.

(** The last TSC of [a]: from its last PSB, or the one before if that PSB+ is
    incomplete.  Returns [len_a], [tsc_a] and [rem_a]. *)
Definition last_tsc (mem_a : list byte) (buf_a len_a : Z) : option (option (Z * Z * Z)) :=
  p ← intel_pt_last_psb mem_a buf_a len_a;
  match p with
  | None => Some None
  | Some p =>
    let len := len_a - (p - buf_a) in
    r ← intel_pt_next_tsc mem_a p len;
    match r with
    | Some (tsc_a, rem_a) => Some (Some (len_a, tsc_a, rem_a))
    | None =>
      let len_a := len_a - len in
      p ← intel_pt_last_psb mem_a buf_a len_a;
      match p with
      | None => Some None
      | Some p =>
        r ← intel_pt_next_tsc mem_a p (len_a - (p - buf_a));
        Some match r with
             | Some (tsc_a, rem_a) => Some (len_a, tsc_a, rem_a)
             | None => None
             end
      end
    end
  end.

Definition intel_pt_find_overlap_tsc (mem_a : list byte) (a : cursor) (mem_b : list byte)
    (b : cursor) (ooo_tsc : bool) : option (Z * bool) :=
  r ← last_tsc mem_a a.1 a.2;
  match r with
  | None => Some (b.1, false)
  | Some (len_a, tsc_a, rem_a) =>
    overlap_tsc_loop (S (Z.to_nat b.2)) mem_a a.1 len_a tsc_a rem_a mem_b b ooo_tsc
  end.

(** [while (len_b < len_a)]: [None] inside is the return without overlap. *)
Fixpoint shrink_loop (n : nat) (mem_a : list byte) (a : cursor) (len_b : Z)
    : option (option cursor) :=
  if len_b <? a.2 then
    match n with
    | O => None
    | S n' =>
      '(more, a) ← intel_pt_step_psb mem_a a;
      if (more : bool) then shrink_loop n' mem_a a len_b else Some None
    end
  else Some (Some a).

Fixpoint overlap_bytes_loop (n : nat) (mem_a : list byte) (a : cursor) (mem_b : list byte)
    (buf_b : Z) : option (Z * bool) :=
  match n with
  | O => None
  | S n' =>
    hay ← slice mem_a a.1 a.2;
    needle ← slice mem_b buf_b a.2;
    match memmem hay needle with
    | Some _ =>
      p ← adj_for_padding mem_b (buf_b + a.2) mem_a a.1 a.2;
      Some (p, true)
    | None =>
      '(more, a) ← intel_pt_step_psb mem_a a;
      if (more : bool) then overlap_bytes_loop n' mem_a a mem_b buf_b else Some (buf_b, false)
    end
  end.

(** The offset into [b] and whether [*consecutive] was set.  The loops step
    through the PSBs of a buffer, so its length bounds them. *)
Definition intel_pt_find_overlap (mem_a mem_b : list byte) (have_tsc ooo_tsc : bool)
    : option (Z * bool) :=
  '(more, b) ← intel_pt_next_psb mem_b (0, Z.of_nat (length mem_b));
  if negb more then Some (b.1 + b.2, false)
  else
    '(more, a) ← intel_pt_next_psb mem_a (0, Z.of_nat (length mem_a));
    if negb more then Some (b.1, false)
    else if have_tsc then intel_pt_find_overlap_tsc mem_a a mem_b b ooo_tsc
    else
      r ← shrink_loop (Z.to_nat a.2) mem_a a b.2;
      match r with
      | None => Some (b.1, false)
      | Some a => overlap_bytes_loop (S (Z.to_nat a.2)) mem_a a mem_b b.1
      end.

(** ** Fast forward *)

Record fast_forward_data := mkFf { ff_timestamp : Z; ff_buf_timestamp : Z }.

(** The callback's data is [None] after a bad access. *)
Definition intel_pt_ff_cb (buffer : intel_pt_buffer) (x : option fast_forward_data)
    : Z * option fast_forward_data :=
  let result : option (Z * fast_forward_data) :=
    x ← x;
    '(more, c) ← intel_pt_next_psb (b_buf buffer) (0, b_len buffer);
    if negb more then Some (0, x)
    else
      r ← intel_pt_next_tsc (b_buf buffer) c.1 c.2;
      match r with
      | None => Some (0, x)
      | Some (tsc, _) =>
        let tsc := intel_pt_8b_tsc tsc (b_ref_timestamp buffer) in
        Some (if tsc <? ff_timestamp x then
                (0, mkFf (ff_timestamp x) (b_ref_timestamp buffer))
              else (1, x))
      end in
  match result with
  | Some (r, x) => (r, Some x)
  | None => (1, None)
  end.

Section fast_forward.
Context {D : Type} `{Platform} `{Callbacks D} `{Fuel}.
Implicit Types (d : intel_pt_decoder) (e : D).

(** Walk to the buffer with timestamp [target]. *)
Fixpoint ff_buffer_loop (n : nat) (target : Z) : M D Z :=
  match n with
  | O => no_fuel
  | S n' =>
    modify (fun d => d <| d_pos := u64 (d_pos d + d_len d) |> <| d_len := 0 |>) ;;
    err ← intel_pt_get_next_data true;
    if negb (err =? 0) && negb (err =? - ENOLINK) then mret err
    else
      d ← get;
      if d_buf_timestamp d =? target then mret 0 else ff_buffer_loop n' target
  end.

(** Walk the PSBs of the buffer [mem] while they are before [timestamp]. *)
Fixpoint ff_psb_loop (n : nat) (mem : list byte) (c : cursor) (timestamp : Z) : M D Z :=
  match n with
  | O => no_fuel
  | S n' =>
    r ← lift (intel_pt_next_tsc mem c.1 c.2);
    match r with
    | None => mret 0
    | Some (tsc, _) =>
      d ← get;
      if intel_pt_8b_tsc tsc (d_buf_timestamp d) <? timestamp then
        modify (fun d =>
          let d := d <| d_pos := u64 (d_pos d + u64 (d_len d - c.2)) |> in
          intel_pt_reposition
            (d <| d_buf := drop (Z.to_nat c.1) mem |> <| d_len := c.2 |>)) ;;
        '(more, c) ← lift (intel_pt_step_psb mem c);
        if (more : bool) then ff_psb_loop n' mem c timestamp else mret 0
      else mret 0
    end
  end.

Definition intel_pt_fast_forward (timestamp : Z) : M D Z :=
  '(err, x) ← call (fun e =>
    (lookahead (option fast_forward_data) e intel_pt_ff_cb (Some (mkFf timestamp 0)), e));
  x ← lift x;
  if err <? 0 then mret err
  else
    TRY (if negb (ff_buf_timestamp x =? 0) then ff_buffer_loop fuel (ff_buf_timestamp x)
         else mret 0);
    d ← get;
    '(more, c) ← lift (intel_pt_next_psb (d_buf d) (0, d_len d));
    if negb more then mret 0
    else ff_psb_loop (S (Z.to_nat c.2)) (d_buf d) c timestamp.
End fast_forward.
