(* ===== verification/PtSafe.v ===== *)
(** Memory safety of the decoder: the invariant of its buffers, and that every
    function of intel-pt-decoder.c keeps it and makes no bad access, given
    callbacks that satisfy [TraceEnv]. *)
From Stdlib Require Import ZArith Lia List Bool.
From S2P Require Import Prelude Float64 PktDecoder PktBounds PtStack PtState PtTime PtReader PtWalk PtTrace PtVmTime PtDecode.
Open Scope Z_scope.
Open Scope c_scope.
Import ListNotations.

(** ** The contract of the callbacks *)

(** A buffer with data: as long as it says, and at least as long as two of the
    longest packets.  ([split_psb_overrun] shows what a shorter one can do.) *)
Definition buffer_ok (b : intel_pt_buffer) : Prop :=
  2 * INTEL_PT_PKT_MAX_SZ <= b_len b <= Z.of_nat (length (b_buf b)) /\ b_len b < 2 ^ 63.

Class TraceEnv (D : Type) `{Callbacks D} := {
  env_ok : D -> Prop;
  get_trace_env e : env_ok e -> env_ok (get_trace e).2;
  get_trace_buffer e ret b e' :
    env_ok e -> get_trace e = (ret, b, e') -> ret = 0 -> b_len b = 0 \/ buffer_ok b;
  walk_insn_env e ip to_ip n : env_ok e -> env_ok (walk_insn e ip to_ip n).2;
  malloc_env e : env_ok e -> env_ok (malloc_ok e).2;
  findnew_env e v : env_ok e -> env_ok (findnew_vmcs_info e v).2;
  vmcs_write_env e h v : env_ok e -> env_ok (vmcs_write e h v)
}.

(** ** The invariant *)

(** The buffers are as long as their lengths say; the temporary buffer is
    whole; the return stack is well formed. *)
Record core (d : intel_pt_decoder) : Prop := {
  core_len : 0 <= d_len d <= Z.of_nat (length (d_buf d));
  core_bound : d_len d < 2 ^ 63;
  core_next b : d_next_buf d = Some b ->
    1 <= d_next_len d <= Z.of_nat (length b) /\ d_next_len d < 2 ^ 63;
  core_temp : length (d_temp_buf d) = Z.to_nat INTEL_PT_PKT_MAX_SZ;
  core_stack : stack_wf (d_stack d);
  core_vm : d_vm_time_correlation d = true -> d_vm_tm_corr_dry_run d = true
}.

(** The buffer is a PSB put together from two buffers. *)
Definition psb_at (d : intel_pt_decoder) : Prop :=
  d_len d = INTEL_PT_PSB_LEN /\ take 16 (d_buf d) = INTEL_PT_PSB_STR.

(** A short rest waits in [next_buf] only behind such a PSB. *)
Definition next_ok (d : intel_pt_decoder) : Prop :=
  d_next_buf d = None \/ INTEL_PT_PKT_MAX_SZ <= d_next_len d \/ psb_at d.

(** Between two calls of [intel_pt_get_next_packet]; the bytes of the pending
    step are in the buffer. *)
Record mem_ok (d : intel_pt_decoder) : Prop := {
  mo_core : core d;
  mo_next : next_ok d;
  mo_step : 0 <= d_pkt_step d <= d_len d;
  mo_psb : d_next_buf d = None \/ INTEL_PT_PKT_MAX_SZ <= d_next_len d \/
    d_pkt_step d = 0 \/ d_pkt_step d = d_len d
}.

(** The trace buffer is not written to: in the VM time correlation state, only
    a dry run. *)
Definition vm_safe (d : intel_pt_decoder) : bool :=
  d_vm_tm_corr_dry_run d
  || negb (bool_decide (d_pkt_state d = INTEL_PT_STATE_VM_TIME_CORRELATION)).

(** The fields the invariant is about. *)
Definition view (d : intel_pt_decoder) :=
  (d_buf d, d_len d, d_next_buf d, d_next_len d, d_temp_buf d, d_stack d, d_pkt_step d,
   d_vm_time_correlation d, d_vm_tm_corr_dry_run d).

(** Whether the trace may be written to does not get worse. *)
Definition vmrel (d' d : intel_pt_decoder) : Prop :=
  (vm_safe d = true -> vm_safe d' = true) /\
  d_vm_tm_corr_dry_run d' = d_vm_tm_corr_dry_run d.

Definition keeps (d' d : intel_pt_decoder) : Prop := view d' = view d /\ vmrel d' d.

Lemma vmrel_refl d : vmrel d d.
Proof. by split. Qed.

Lemma vmrel_trans d1 d2 d3 : vmrel d1 d2 -> vmrel d2 d3 -> vmrel d1 d3.
Proof. intros [S1 E1] [S2 E2]. split; [auto|congruence]. Qed.

Lemma keeps_refl d : keeps d d.
Proof. by repeat split. Qed.

Lemma keeps_trans d1 d2 d3 : keeps d1 d2 -> keeps d2 d3 -> keeps d1 d3.
Proof. intros [V1 S1] [V2 S2]. split; [congruence|by eapply vmrel_trans]. Qed.

Lemma keeps_pkt_state s d :
  s <> INTEL_PT_STATE_VM_TIME_CORRELATION -> keeps (d <| d_pkt_state := s |>) d.
Proof.
  intros Hs. split; [done|]. split; [|done]. intros _. unfold vm_safe. rsimpl.
  rewrite bool_decide_false by done. apply orb_true_r.
Qed.

Lemma keeps_step0 d d' : keeps d' d -> keeps (d' <| d_pkt_step := 0 |>) (d <| d_pkt_step := 0 |>).
Proof.
  intros [V S]. split; [|exact S]. unfold view in *. rsimpl.
  injection V as -> -> -> -> -> -> _ -> ->. done.
Qed.

Lemma view_core d d' : view d' = view d -> core d -> core d'.
Proof.
  unfold view. intros E []. injection E as E1 E2 E3 E4 E5 E6 E7 E8 E9.
  split; rewrite ?E1, ?E2, ?E3, ?E4, ?E5, ?E6, ?E8, ?E9; done.
Qed.

Lemma view_mem_ok d d' : view d' = view d -> mem_ok d -> mem_ok d'.
Proof.
  intros E [H1 H2 H3 H4]. split; [by eapply view_core|..]; unfold next_ok, psb_at in *;
    injection E as E1 E2 E3 E4 E5 E6 E7 E8 E9; by rewrite ?E1, ?E2, ?E3, ?E4, ?E7.
Qed.

(** A decoder without data. *)
Lemma zero_mem_ok : mem_ok zero_decoder.
Proof.
  split; [split| | |]; try done; first [apply empty_stack_wf|by left].
Qed.

(** ** Frames: the functions that leave these fields alone *)

Create HintDb frame discriminated.
#[export] Hint Constants Opaque : frame.
#[export] Hint Variables Opaque : frame.

(** [frame] proves [keeps t d]: it steps over the updates of other fields and
    the functions whose frame is known, goes through cases, and computes. *)
Ltac frame_base :=
  intros; first [ solve [eauto 2 with frame nocore]
                | split; [reflexivity | split; [let H := fresh in intros H; exact H | reflexivity]] ].
Ltac frame_known :=
  let V := fresh "V" in
  match goal with
  | |- keeps ?x ?x => apply keeps_refl
  | |- keeps (upd d_pkt_step (fun _ => 0) _) (upd d_pkt_step (fun _ => 0) _) =>
    apply keeps_step0
  | |- keeps (upd d_pkt_state (fun _ => ?s) ?x) _ =>
    refine (keeps_trans _ _ _ (keeps_pkt_state s x _) _); [repeat case_match; done|]
  | |- keeps (@upd _ _ ?p ?s ?f ?x) _ =>
    assert (forall g y, keeps (@upd _ _ p s g y) y) as V by frame_base;
    refine (keeps_trans _ _ _ (V f x) _); clear V
  | |- keeps (?f ?x) _ =>
    assert (forall y, keeps (f y) y) as V by frame_base;
    refine (keeps_trans _ _ _ (V x) _); clear V
  | |- keeps (snd (?f ?x)) _ =>
    assert (forall y, keeps (snd (f y)) y) as V by frame_base;
    refine (keeps_trans _ _ _ (V x) _); clear V
  end.
Ltac frame :=
  cbv zeta beta; cbn [fst snd];
  repeat (first [ frame_known | case_match; simplify_eq ]; cbv zeta beta; cbn [fst snd]).

Lemma print_once_frame id d : keeps (intel_pt_print_once id d).2 d.
Proof. unfold intel_pt_print_once. frame. Qed.
#[export] Hint Resolve print_once_frame : frame.

Lemma bug_frame d : keeps (intel_pt_bug d).2 d.
Proof. unfold intel_pt_bug. frame. Qed.
Lemma overflow_frame d : keeps (intel_pt_overflow d).2 d.
Proof. unfold intel_pt_overflow. frame. Qed.
Lemma resample_frame d : keeps (intel_pt_resample d).2 d.
Proof. unfold intel_pt_resample. frame. Qed.
#[export] Hint Resolve bug_frame overflow_frame resample_frame : frame.

Lemma next_period_frame d : keeps (intel_pt_next_period d).2 d.
Proof. unfold intel_pt_next_period. frame. Qed.
#[export] Hint Resolve next_period_frame : frame.

Lemma next_sample_frame d : keeps (intel_pt_next_sample d).2 d.
Proof. unfold intel_pt_next_sample. frame. Qed.
#[export] Hint Resolve next_sample_frame : frame.

Lemma sample_insn_frame d : keeps (intel_pt_sample_insn d) d.
Proof. unfold intel_pt_sample_insn, or_type. frame. Qed.
#[export] Hint Resolve sample_insn_frame : frame.

Lemma sample_iflag_chg_frame d : keeps (intel_pt_sample_iflag_chg d) d.
Proof. unfold intel_pt_sample_iflag_chg. frame. Qed.
#[export] Hint Resolve sample_iflag_chg_frame : frame.

Lemma evd_frame d : keeps (intel_pt_evd d).2 d.
Proof. unfold intel_pt_evd. frame. Qed.
#[export] Hint Resolve evd_frame : frame.

Lemma mtc_cyc_cnt_pge_frame d : keeps (intel_pt_mtc_cyc_cnt_pge d) d.
Proof. unfold intel_pt_mtc_cyc_cnt_pge. frame. Qed.
#[export] Hint Resolve mtc_cyc_cnt_pge_frame : frame.

Lemma mtc_cyc_cnt_cbr_frame d : keeps (intel_pt_mtc_cyc_cnt_cbr d) d.
Proof. unfold intel_pt_mtc_cyc_cnt_cbr. frame. Qed.
#[export] Hint Resolve mtc_cyc_cnt_cbr_frame : frame.

Lemma bbp_frame d : keeps (intel_pt_bbp d) d.
Proof. unfold intel_pt_bbp. frame. Qed.
Lemma bip_frame d : keeps (intel_pt_bip d) d.
Proof. unfold intel_pt_bip. frame. Qed.
Lemma tsc_from_timestamp_frame d : keeps (tsc_from_timestamp d) d.
Proof. unfold tsc_from_timestamp. frame. Qed.
Lemma check_stuck_frame cnt d : keeps (check_stuck cnt d).2 d.
Proof. unfold check_stuck. frame. Qed.
Lemma walk_insn_out_frame insn d : keeps (walk_insn_out insn d) d.
Proof. unfold walk_insn_out, or_flags. frame. Qed.
#[export] Hint Resolve bbp_frame bip_frame tsc_from_timestamp_frame check_stuck_frame
  walk_insn_out_frame : frame.
Lemma set_to_ip_frame d : keeps (set_to_ip d) d.
Proof. unfold set_to_ip. frame. Qed.
Lemma to_last_ip_frame d : keeps (to_last_ip d) d.
Proof. unfold to_last_ip. frame. Qed.
Lemma dec_tnt_frame d : keeps (dec_tnt d) d.
Proof. unfold dec_tnt. frame. Qed.
Lemma set_ip_if_known_frame d : keeps (set_ip_if_known d) d.
Proof. unfold set_ip_if_known. frame. Qed.
#[export] Hint Resolve set_to_ip_frame to_last_ip_frame dec_tnt_frame set_ip_if_known_frame : frame.

Section frame_platform.
Context `{Platform}.

Lemma mtc_cyc_cnt_upd_frame d : keeps (intel_pt_mtc_cyc_cnt_upd d) d.
Proof. unfold intel_pt_mtc_cyc_cnt_upd. frame. Qed.
Hint Resolve mtc_cyc_cnt_upd_frame : frame.

Lemma calc_tma_frame d : keeps (intel_pt_calc_tma d) d.
Proof. unfold intel_pt_calc_tma. frame. Qed.
Lemma calc_cbr_frame d : keeps (intel_pt_calc_cbr d) d.
Proof. unfold intel_pt_calc_cbr. frame. Qed.
Lemma calc_cyc_timestamp_frame d : keeps (intel_pt_calc_cyc_timestamp d) d.
Proof. unfold intel_pt_calc_cyc_timestamp. frame. Qed.
End frame_platform.
#[export] Hint Resolve mtc_cyc_cnt_upd_frame calc_tma_frame calc_cbr_frame
  calc_cyc_timestamp_frame : frame.

(** Names the state a pair-valued step leaves, and its frame. *)
Ltac step_pair :=
  match goal with
  | |- context [let '(_, _) := ?g ?x in _] =>
    let V := fresh "V" in
    assert (keeps (snd (g x)) x) as V by (solve [eauto 2 with frame nocore]);
    destruct (g x) as [? ?]; cbn [snd] in V
  end.

Lemma walk_unconditional_frame insn d : keeps (walk_unconditional insn d).2 d.
Proof. unfold walk_unconditional. cbv zeta. step_pair. case_match; frame; (eapply keeps_trans; [exact V|frame]). Qed.

Lemma fup_cfe_frame d r : keeps (fup_cfe r d).2 d.
Proof. unfold fup_cfe, or_type, or_flags. frame. Qed.
Lemma fup_mode_exec_frame d r : keeps (fup_mode_exec r d).2 d.
Proof. unfold fup_mode_exec. frame. Qed.
Lemma fup_tx_frame d r : keeps (fup_tx r d).2 d.
Proof. unfold fup_tx. frame. Qed.
Lemma fup_ptw_frame d r : keeps (fup_ptw r d).2 d.
Proof. unfold fup_ptw. frame. Qed.
Lemma fup_mwait_frame d r : keeps (fup_mwait r d).2 d.
Proof. unfold fup_mwait. frame. Qed.
Lemma fup_pwre_frame d r : keeps (fup_pwre r d).2 d.
Proof. unfold fup_pwre. frame. Qed.
Lemma fup_exstop_frame d r : keeps (fup_exstop r d).2 d.
Proof. unfold fup_exstop. frame. Qed.
Lemma fup_bep_frame d r : keeps (fup_bep r d).2 d.
Proof. unfold fup_bep. frame. Qed.
#[export] Hint Resolve walk_unconditional_frame fup_cfe_frame fup_mode_exec_frame fup_tx_frame
  fup_ptw_frame fup_mwait_frame fup_pwre_frame fup_exstop_frame fup_bep_frame : frame.

Lemma fup_events_frame no_tip d : keeps (fup_events no_tip d).2 d.
Proof.
  unfold fup_events.
  set (d0 := _ <| st st_type := _ |>). assert (keeps d0 d) as V0 by (subst d0; frame).
  clearbody d0. cbv zeta. repeat step_pair. cbn [snd].
  eauto 20 using keeps_trans.
Qed.
Lemma fup_overflow_begin_frame d : keeps (fup_overflow_begin d) d.
Proof. unfold fup_overflow_begin, or_type. frame. Qed.
Lemma tnt_ret_frame d : keeps (tnt_ret d).2 d.
Proof. unfold tnt_ret. frame. Qed.
Lemma tnt_conditional_frame insn d : keeps (tnt_conditional insn d).2 d.
Proof. unfold tnt_conditional. frame. Qed.
#[export] Hint Resolve fup_events_frame fup_overflow_begin_frame tnt_ret_frame
  tnt_conditional_frame : frame.

Lemma decode_error_frame err d : keeps (decode_error err d) d.
Proof. unfold decode_error. frame. Qed.
Lemma decode_ok_frame d : keeps (decode_ok d) d.
Proof. unfold decode_ok. frame. Qed.
Lemma decode_finish_frame d : keeps (decode_finish d) d.
Proof. unfold decode_finish. frame. Qed.
#[export] Hint Resolve decode_error_frame decode_ok_frame decode_finish_frame : frame.

(** ** Safety *)

Definition ok (d : intel_pt_decoder) : Prop := mem_ok d /\ vm_safe d = true.

Lemma keeps_ok d d' : keeps d' d -> ok d -> ok d'.
Proof. intros [V [S _]] [Hm Hs]. split; [by eapply view_mem_ok|auto]. Qed.

Section safe.
Context {D : Type} `{Platform} `{Callbacks D} `{Fuel} `{!TraceEnv D}.
Implicit Types (d : intel_pt_decoder) (e : D).

(** [m] makes no bad access and keeps the invariant. *)
Definition safe {A} (m : M D A) : Prop :=
  forall d e, ok d -> env_ok e ->
    wp m (fun _ d' e' => ok d' /\ env_ok e' /\
      d_vm_tm_corr_dry_run d' = d_vm_tm_corr_dry_run d) d e.

(** The part of [safe] about writes, for a function that returns. *)
Definition vmpost {A} (m : M D A) : Prop :=
  forall d e a d' e', m d e = Ret (a, d', e') -> vmrel d' d.

Lemma safe_intro {A} (m : M D A) :
  vmpost m ->
  (forall d e, mem_ok d -> env_ok e -> wp m (fun _ d' e' => mem_ok d' /\ env_ok e') d e) ->
  safe m.
Proof.
  intros Hv Hm d e [Hd Hs] He. specialize (Hm d e Hd He). unfold wp in *.
  destruct (m d e) as [[[a d'] e']| |] eqn:E; try done.
  destruct (Hv d e a d' e' E) as [Hs' Ed]. destruct Hm as [Hm He'].
  split; [split; auto|]. by split.
Qed.

Lemma safe_ret {A} (a : A) : safe (mret a).
Proof. intros d e Hd He. by apply wp_ret. Qed.

Lemma safe_bind {A B} (m : M D A) (k : A -> M D B) :
  safe m -> (forall a, safe (k a)) -> safe (m ≫= k).
Proof.
  intros Hm Hk d e Hd He. apply wp_bind. eapply wp_mono; [by apply Hm|].
  intros a d' e' (Hd' & He' & Hs). rewrite <- Hs. by apply Hk.
Qed.

Lemma safe_get : safe get.
Proof. intros d e Hd He. by apply wp_get. Qed.

Lemma safe_gets {A} (f : _ -> A) : safe (gets f).
Proof. intros d e Hd He. by apply wp_gets. Qed.

Lemma safe_no_fuel {A} : safe (@no_fuel D A).
Proof. intros d e Hd He. apply wp_no_fuel. Qed.

Lemma safe_modify f : (forall d, keeps (f d) d) -> safe (modify f).
Proof.
  intros Hf d e Hd He. apply wp_modify. split; [|split; [done|apply Hf]].
  by eapply keeps_ok.
Qed.

Lemma step0_ok d : ok d -> ok (d <| d_pkt_step := 0 |>).
Proof.
  intros [[Hc Hn Hs Hp] Hv]. split; [|exact Hv]. split; [by destruct Hc|exact Hn|..]; rsimpl.
  - pose proof (core_len _ Hc). lia.
  - auto.
Qed.

Lemma safe_modify_step0 f :
  (forall d, keeps (f d) (d <| d_pkt_step := 0 |>)) -> safe (modify f).
Proof.
  intros Hf d e Hd He. apply wp_modify. split; [|split; [done|apply Hf]].
  eapply keeps_ok; [apply Hf|]. by apply step0_ok.
Qed.

Lemma safe_error_of f : (forall d, keeps (f d).2 d) -> safe (error_of f).
Proof.
  intros Hf d e Hd He. unfold wp, error_of. split; [|split; [done|apply Hf]].
  by eapply keeps_ok.
Qed.

Lemma safe_call {A} (f : D -> A * D) : (forall e, env_ok e -> env_ok (f e).2) -> safe (call f).
Proof. intros Hf d e Hd He. apply wp_call. auto. Qed.

Lemma safe_when b m : safe m -> safe (when b m).
Proof. intros Hm. destruct b; [done|apply safe_ret]. Qed.

(** ** The same for [vmpost] *)

Lemma vmpost_ret {A} (a : A) : vmpost (mret a).
Proof. intros d e a' d' e' [= _ <- _]. apply vmrel_refl. Qed.

Lemma vmpost_bind {A B} (m : M D A) (k : A -> M D B) :
  vmpost m -> (forall a, vmpost (k a)) -> vmpost (m ≫= k).
Proof.
  intros Hm Hk d e b d' e' E. unfold mbind, M_bind in E.
  destruct (m d e) as [[[a d1] e1]| |] eqn:E1; try done.
  eapply vmrel_trans; [by eapply Hk|by eapply Hm].
Qed.

Lemma vmpost_same {A} (m : M D A) :
  (forall d e a d' e', m d e = Ret (a, d', e') -> d' = d) -> vmpost m.
Proof. intros Hm d e a d' e' E. rewrite (Hm d e a d' e' E). apply vmrel_refl. Qed.

Lemma vmpost_modify f : (forall d, vmrel (f d) d) -> vmpost (modify f).
Proof. intros Hf d e a d' e' [= _ <- _]. apply Hf. Qed.

Lemma vmpost_error_of f : (forall d, vmrel (f d).2 d) -> vmpost (error_of f).
Proof. intros Hf d e a d' e' [= _ <- _]. apply Hf. Qed.

Lemma vmpost_get : vmpost get.
Proof. apply vmpost_same. by intros d e a d' e' [= _ <- _]. Qed.
Lemma vmpost_gets {A} (f : _ -> A) : vmpost (gets f).
Proof. apply vmpost_same. by intros d e a d' e' [= _ <- _]. Qed.
Lemma vmpost_lift {A} (o : option A) : vmpost (lift o).
Proof. apply vmpost_same. unfold lift. destruct o; by intros d e a' d' e' [=]. Qed.
Lemma vmpost_call {A} (f : D -> A * D) : vmpost (call f).
Proof.
  apply vmpost_same. unfold call. intros d e a d' e' E. destruct (f e). by simplify_eq.
Qed.
Lemma vmpost_no_fuel {A} : vmpost (@no_fuel D A).
Proof. by intros d e a d' e'. Qed.
End safe.
