(* ===== verification/PtSafeReader.v ===== *)
(** Memory safety of PtReader.v: lookahead is total, the next packet and the
    search for a PSB keep the buffer invariant. *)
From Stdlib Require Import ZArith Lia List Bool.
From S2P Require Import Prelude Float64 PktDecoder PktBounds PtStack PtState PtTime PtReader PtWalk PtSafe.
Open Scope Z_scope.
Open Scope c_scope.
Import ListNotations.

(** ** Memory blocks *)

Lemma slice_Some buf off n :
  0 <= off -> 0 <= n -> off + n <= Z.of_nat (length buf) ->
  slice buf off n = Some (take (Z.to_nat n) (drop (Z.to_nat off) buf)).
Proof.
  intros. unfold slice.
  destruct (Z.leb_spec 0 off), (Z.leb_spec 0 n),
    (Z.leb_spec (off + n) (Z.of_nat (length buf))); (done || lia).
Qed.

Lemma memcpy_Some dst off src n :
  0 <= off -> 0 <= n <= Z.of_nat (length src) -> off + n <= Z.of_nat (length dst) ->
  exists r, memcpy dst off src n = Some r /\ length r = length dst.
Proof.
  intros. unfold memcpy. rewrite slice_Some by lia. cbn [mbind option_bind].
  destruct (Z.leb_spec 0 off), (Z.leb_spec (off + n) (Z.of_nat (length dst))); try lia.
  eexists. split; [done|]. rewrite !length_app, !length_take, !length_drop. lia.
Qed.

Lemma memmem_range hay needle k :
  memmem hay needle = Some k -> 0 <= k /\ k + Z.of_nat (length needle) <= Z.of_nat (length hay).
Proof.
  revert k. induction hay as [|x hay IH]; intros k; cbn [memmem]; case_bool_decide as E.
  - intros [= <-]. apply (f_equal length) in E. rewrite length_take in E. lia.
  - done.
  - intros [= <-]. apply (f_equal length) in E. rewrite length_take in E. lia.
  - destruct (memmem hay needle) as [k'|]; [|done]. intros [= <-].
    specialize (IH k' eq_refl). cbn [length]. lia.
Qed.

(** ** Lookahead *)

Section lookahead_rel.
Context {X : Type} (cb : pkt_cb X) (R : intel_pt_decoder -> intel_pt_decoder -> Prop).
Context `{!PreOrder R} (cb_rel : forall info d x, R (cb info d x).1.2 d).

(** A lookahead always ends in the current buffer, without a bad access, and
    does to the decoder no more than its callback does. *)
Lemma lookahead_loop_rel n buf len ctx info d x :
  0 <= pi_pkt_len info <= len -> len <= Z.of_nat (length buf) -> len < 2 ^ 63 ->
  len - pi_pkt_len info < Z.of_nat n ->
  exists ret d' x', lookahead_loop n cb buf len ctx info d x = Ret (ret, d', x') /\
    R d' d.
Proof.
  revert buf len ctx info d x.
  induction n as [|n IH]; intros buf len ctx info d x Hp Hl Hb Hn; [lia|].
  cbn [lookahead_loop]. cbv zeta.
  rewrite (u64_small (len - pi_pkt_len info)) by lia.
  destruct (Z.eqb_spec (len - pi_pkt_len info) 0); [by do 3 eexists; split; [reflexivity|]|].
  set (buf' := drop _ buf). set (len' := len - _).
  assert (0 < len' <= Z.of_nat (length buf')) by (subst buf' len'; rewrite length_drop; lia).
  destruct (get_packet_ok buf' len' ctx) as (ret & p & ctx' & -> & Hr); [lia|lia|].
  destruct (Z.eqb_spec ret 0); [by do 3 eexists; split; [reflexivity|]|].
  destruct (Z.ltb_spec ret 0); [by do 3 eexists; split; [reflexivity|]|].
  assert (1 <= ret <= len').
  { destruct Hr as [Hr|[Hr|[Hr _]]]; unfold INTEL_PT_NEED_MORE_BYTES, INTEL_PT_BAD_PACKET in Hr;
      lia. }
  case_bool_decide; [apply IH; cbn; lia|].
  match goal with |- context [cb ?i d x] => pose proof (cb_rel i d x) as V;
    destruct (cb i d x) as [[r d1] x1] end. cbn [fst snd] in V.
  destruct (negb _); [by do 3 eexists; split; [reflexivity|]|].
  edestruct (IH buf' len') as (ret' & d' & x' & -> & V'); [..|do 3 eexists; split; [reflexivity|by transitivity d1]].
  all: cbn; lia.
Qed.

Context {D : Type}.

Lemma pkt_lookahead_rel x d (e : D) :
  mem_ok d ->
  exists r d', intel_pt_pkt_lookahead cb x d e = Ret (r, d', e) /\ R d' d.
Proof.
  intros [Hc _ Hs _]. unfold intel_pt_pkt_lookahead. cbv zeta.
  pose proof (core_len _ Hc). pose proof (core_bound _ Hc).
  destruct (lookahead_loop_rel (S (length (d_buf d))) (d_buf d) (d_len d) (d_pkt_ctx d)
    (mkPktInfo zero_pkt (d_pos d) (d_pkt_step d) (d_last_packet_type d)) d x)
    as (ret & d' & x' & -> & V); [cbn; lia..|]. eauto.
Qed.

End lookahead_rel.

#[export] Instance keeps_preorder : PreOrder keeps.
Proof. split; [exact keeps_refl|]. intros d1 d2 d3 ? ?. by eapply keeps_trans. Qed.

Section lookahead.
Context {X : Type} (cb : pkt_cb X).
Hypothesis cb_keeps : forall info d x, keeps (cb info d x).1.2 d.
Context {D : Type} `{Platform} `{Callbacks D} `{Fuel} `{!TraceEnv D}.

Lemma pkt_lookahead_total x d (e : D) :
  mem_ok d ->
  exists r d', intel_pt_pkt_lookahead cb x d e = Ret (r, d', e) /\ keeps d' d.
Proof. apply pkt_lookahead_rel; [exact _|exact cb_keeps]. Qed.

Lemma safe_lookahead x : safe (D:=D) (intel_pt_pkt_lookahead cb x).
Proof.
  intros d e Hd He. unfold wp.
  destruct (pkt_lookahead_total x d e) as (r & d' & -> & V); [apply Hd|].
  split; [by eapply keeps_ok|]. split; [done|]. apply V.
Qed.
End lookahead.

Lemma calc_cyc_finish_keeps ts d x : keeps (calc_cyc_finish ts d x).1.2 d.
Proof. unfold calc_cyc_finish. frame. Qed.

Lemma calc_cyc_cb_keeps info d x : keeps (intel_pt_calc_cyc_cb info d x).1.2 d.
Proof.
  unfold intel_pt_calc_cyc_cb, calc_cyc_mtc, calc_cyc_tsc, calc_cyc_tma. cbv zeta.
  repeat case_match; first [apply keeps_refl | apply calc_cyc_finish_keeps].
Qed.

(** ** The functions of PtReader.v *)

Create HintDb safe discriminated.
#[export] Hint Constants Opaque : safe.

(** [safe] goes through the structure of a monadic function. *)
Ltac safe_step :=
  lazymatch goal with
  | |- safe (let x := _ in _) => cbv zeta
  | |- safe ((fun _ => _) _) => cbv beta
  | |- safe (mbind _ _) => apply safe_bind; [|intros]
  | |- safe (mret _) => apply safe_ret
  | |- safe get => apply safe_get
  | |- safe (gets _) => apply safe_gets
  | |- safe no_fuel => apply safe_no_fuel
  | |- safe (modify _) => first [apply safe_modify; intros; solve [frame]
                                | apply safe_modify_step0; intros; solve [frame]]
  | |- safe (error_of _) => apply safe_error_of; intros; solve [frame]
  | |- safe (when _ _) => apply safe_when
  | |- safe (match ?x with _ => _ end) => destruct x
  | |- safe _ => solve [eauto 3 with safe nocore]
  end.
Ltac safe := repeat safe_step.

Lemma wp_error_of {D} f (Q : Z -> _ -> D -> Prop) d e :
  Q (f d).1 (f d).2 e -> wp (error_of f) Q d e.
Proof. done. Qed.

Lemma bad_packet_ret d : (intel_pt_bad_packet d).1 = -74.
Proof. reflexivity. Qed.

(** [wp_step] runs one primitive. *)
Ltac wp_step :=
  lazymatch goal with
  | |- wp (mbind _ _) _ _ _ => apply wp_bind
  | |- wp (mret _) _ _ _ => apply wp_ret
  | |- wp get _ _ _ => apply wp_get
  | |- wp (gets _) _ _ _ => apply wp_gets
  | |- wp (put _) _ _ _ => apply wp_put
  | |- wp (modify _) _ _ _ => apply wp_modify
  | |- wp no_fuel _ _ _ => apply wp_no_fuel
  | |- wp (call _) _ _ _ => apply wp_call
  | |- wp (error_of _) _ _ _ => apply wp_error_of
  end; cbv beta.
Ltac wps := cbv beta iota zeta; repeat (wp_step; cbv beta iota zeta).

(** Closes the components of an invariant after updates. *)
Ltac inv_solve :=
  repeat match goal with
  | |- _ <= _ < _ => fail 1
  | |- _ <= _ <= _ => fail 1
  | |- _ /\ _ => split
  | |- core _ => split
  | |- mem_ok _ => split
  end;
  rsimpl; first [done | lia | congruence | solve [eauto]].

Section reader.
Context {D : Type} `{Platform} `{Callbacks D} `{Fuel} `{!TraceEnv D}.
Implicit Types (d : intel_pt_decoder) (e : D).

Lemma calc_cyc_to_tsc_safe b : safe (D:=D) (intel_pt_calc_cyc_to_tsc b).
Proof.
  unfold intel_pt_calc_cyc_to_tsc. safe. apply safe_lookahead. apply calc_cyc_cb_keeps.
Qed.
Hint Resolve calc_cyc_to_tsc_safe : safe.

Lemma restart_cyc_safe b : safe (D:=D) (restart_cyc b).
Proof. unfold restart_cyc. safe. Qed.
Hint Resolve restart_cyc_safe : safe.

Lemma calc_tsc_timestamp_safe : safe (D:=D) intel_pt_calc_tsc_timestamp.
Proof. unfold intel_pt_calc_tsc_timestamp. safe. Qed.

Lemma calc_mtc_timestamp_safe : safe (D:=D) intel_pt_calc_mtc_timestamp.
Proof. unfold intel_pt_calc_mtc_timestamp. safe. Qed.

(** [vmpost] of a monadic function, by its structure. *)
Ltac vm_leaf :=
  intros; unfold intel_pt_bad_packet; cbv zeta;
  first [ split; [let H := fresh in intros H; exact H | reflexivity]
        | apply vmrel_refl
        | eapply vmrel_trans; [|apply (keeps_pkt_state INTEL_PT_STATE_NO_PSB); done];
          split; [let H := fresh in intros H; exact H | reflexivity] ].
Ltac vm_step :=
  lazymatch goal with
  | |- vmpost (let x := _ in _) => cbv zeta
  | |- vmpost ((fun _ => _) _) => cbv beta
  | |- vmpost (mbind _ _) => apply vmpost_bind; [|intros]
  | |- vmpost (mret _) => apply vmpost_ret
  | |- vmpost get => apply vmpost_get
  | |- vmpost (gets _) => apply vmpost_gets
  | |- vmpost (lift _) => apply vmpost_lift
  | |- vmpost (call _) => apply vmpost_call
  | |- vmpost no_fuel => apply vmpost_no_fuel
  | |- vmpost (modify _) => apply vmpost_modify; solve [vm_leaf]
  | |- vmpost (error_of _) =>
    first [solve [eauto 3 with safe nocore] | apply vmpost_error_of; intros; solve [vm_leaf]]
  | |- vmpost (match ?x with _ => _ end) => destruct x
  | |- vmpost _ => solve [eauto 3 with safe nocore]
  end.

Lemma get_data_vm b : vmpost (D:=D) (intel_pt_get_data b).
Proof. unfold intel_pt_get_data. repeat vm_step. Qed.
Hint Resolve get_data_vm : safe.
Lemma get_next_data_vm b : vmpost (D:=D) (intel_pt_get_next_data b).
Proof. unfold intel_pt_get_next_data. repeat vm_step. Qed.
Lemma copy_to_temp_vm off src n : vmpost (D:=D) (copy_to_temp off src n).
Proof. unfold copy_to_temp. repeat vm_step. Qed.
Lemma bad_packet_vm : vmpost (D:=D) (error_of intel_pt_bad_packet).
Proof.
  apply vmpost_error_of. intros d. unfold intel_pt_bad_packet. cbv zeta. cbn [snd].
  case_bool_decide; vm_leaf.
Qed.
Hint Resolve get_next_data_vm copy_to_temp_vm bad_packet_vm : safe.

Lemma next_packet_vm n : vmpost (D:=D) (next_packet_loop n).
Proof.
  induction n as [|n IH]; cbn [next_packet_loop]; unfold parse_packet, intel_pt_get_split_packet;
    [repeat vm_step|].
  repeat (vm_step || exact IH).
Qed.
Hint Resolve next_packet_vm : safe.

(** A state without a pending step or a [next_buf]: after [get_data]. *)
Lemma no_step_mem_ok d : core d -> next_ok d -> d_pkt_step d = 0 -> mem_ok d.
Proof.
  intros Hc Hn Hs. pose proof (core_len _ Hc). split; [done|done|lia|auto].
Qed.

Lemma get_data_wp b d e :
  core d -> env_ok e -> d_next_buf d = None ->
  wp (intel_pt_get_data b)
    (fun ret d' e' => core d' /\ env_ok e' /\ d_next_buf d' = None /\ d_pkt_step d' = 0 /\
       d_temp_buf d' = d_temp_buf d /\ (ret = 0 -> 2 * INTEL_PT_PKT_MAX_SZ <= d_len d')) d e.
Proof.
  intros Hc He Hn. unfold intel_pt_get_data. wps.
  destruct (get_trace e) as [[ret buf] e'] eqn:E. cbn [fst snd]. wps.
  pose proof (get_trace_env e He) as He'. rewrite E in He'. cbn [snd] in He'.
  pose proof (get_trace_buffer e ret buf e' He E) as Hb.
  destruct Hc as [C1 C2 C3 C4 C5 C6].
  destruct (Z.eqb_spec ret 0) as [->|Hr]; cbn [negb].
  2: { wps. inv_solve. }
  specialize (Hb eq_refl). unfold buffer_ok, INTEL_PT_PKT_MAX_SZ in *. wps.
  destruct (Z.eqb_spec (b_len buf) 0) as [E0|E0].
  { wps. inv_solve. }
  destruct Hb as [Hb|[Hb1 Hb2]]; [lia|].
  unfold intel_pt_reposition. wps. destruct (_ || _); wps; inv_solve.
Qed.

(** The data that follows: at least one packet's worth if nothing short was
    waiting. *)
Lemma get_next_data_wp b d e :
  core d -> env_ok e ->
  wp (intel_pt_get_next_data b)
    (fun ret d' e' => core d' /\ env_ok e' /\ d_next_buf d' = None /\
       (ret <> 0 -> d_pkt_step d' = 0) /\
       (ret = 0 -> 1 <= d_len d' /\
          (d_next_buf d = None \/ INTEL_PT_PKT_MAX_SZ <= d_next_len d ->
           INTEL_PT_PKT_MAX_SZ <= d_len d'))) d e.
Proof.
  intros Hc He. unfold intel_pt_get_next_data. wps.
  destruct (d_next_buf d) as [next|] eqn:E.
  - destruct Hc as [C1 C2 C3 C4 C5 C6]. destruct (C3 _ E) as [C7 C8]. wps.
    unfold INTEL_PT_PKT_MAX_SZ in *.
    split; [inv_solve|]. split; [done|]. split; [done|]. split; [lia|]. intros _. rsimpl.
    split; [lia|]. by intros [?|?].
  - eapply wp_mono; [by apply get_data_wp|].
    intros ret d' e' (Hc' & He' & Hn & Hs & _ & Hl). unfold INTEL_PT_PKT_MAX_SZ in *.
    split; [done|]. split; [done|]. split; [done|]. split; [done|]. intros. split; lia.
Qed.

Lemma copy_to_temp_wp off src n (Q : unit -> _ -> D -> Prop) d e :
  0 <= off -> 0 <= n <= Z.of_nat (length src) ->
  off + n <= Z.of_nat (length (d_temp_buf d)) ->
  (forall t, memcpy (d_temp_buf d) off src n = Some t -> length t = length (d_temp_buf d) ->
     Q tt (d <| d_temp_buf := t |>) e) ->
  wp (copy_to_temp off src n) Q d e.
Proof.
  intros C1 C2 C3 HQ. unfold copy_to_temp. wps.
  destruct (memcpy_Some (d_temp_buf d) off src n) as (t & Et & Ht); [lia..|].
  apply wp_lift. exists t. split; [done|]. wps. auto.
Qed.

Lemma bad_packet_mem_ok d :
  core d -> 1 <= d_len d -> d_next_buf d = None \/ INTEL_PT_PKT_MAX_SZ <= d_next_len d ->
  mem_ok (intel_pt_bad_packet d).2.
Proof.
  intros [C1 C2 C3 C4 C5 C6] Hl Hn. unfold intel_pt_bad_packet. cbv zeta. cbn [snd].
  unfold intel_pt_clear_tx_flags.
  case_bool_decide; (split; [split; rsimpl; done|unfold next_ok; rsimpl; tauto|rsimpl; lia|
    rsimpl; tauto]).
Qed.

Lemma split_packet_wp d e :
  core d -> env_ok e -> 1 <= d_len d < INTEL_PT_PKT_MAX_SZ -> d_next_buf d = None ->
  wp intel_pt_get_split_packet
    (fun ret d' e' => env_ok e' /\ (ret < 0 -> mem_ok d') /\
       (0 <= ret -> core d' /\ 1 <= ret <= d_len d' /\
          INTEL_PT_PKT_MAX_SZ <= d_next_len d')) d e.
Proof.
  intros Hc He Hl Hn. unfold intel_pt_get_split_packet, INTEL_PT_PKT_MAX_SZ in *. wps.
  destruct (core_len _ Hc) as [? ?]. pose proof (core_temp _ Hc) as Ht.
  unfold INTEL_PT_PKT_MAX_SZ in Ht.
  apply copy_to_temp_wp; [lia|lia|lia|]. intros t1 _ Ht1. wps.
  assert (core (d <| d_temp_buf := t1 |>)) as Hc1.
  { destruct Hc. split; rsimpl; congruence || done. }
  eapply wp_mono; [by apply get_data_wp|].
  intros ret d1 e1 (Hc2 & He1 & Hn1 & Hs & Ht2 & Hg). cbv beta iota. rsimpl_in Ht2.
  destruct (Z.eqb_spec ret 0) as [->|Hr]; cbn [negb].
  2: { wps. split; [done|].
       assert (mem_ok (d1 <| d_pos := u64 (d_pos d1 + d_len d) |>)).
       { eapply view_mem_ok; [|apply no_step_mem_ok; [exact Hc2|by left|done]]; done. }
       destruct (Z.ltb_spec ret 0); split; intros; try done; unfold EINVAL in *; lia. }
  specialize (Hg eq_refl). unfold INTEL_PT_PKT_MAX_SZ in Hg.
  destruct (core_len _ Hc2). pose proof (core_bound _ Hc2). pose proof (core_temp _ Hc2) as Ht3.
  unfold INTEL_PT_PKT_MAX_SZ in Ht3. wps.
  rewrite (u64_small (16 - d_len d)) by lia.
  destruct (Z.ltb_spec (d_len d1) (16 - d_len d)); [lia|].
  apply copy_to_temp_wp; [lia|lia|lia|]. intros t2 _ Ht4. wps. rsimpl.
  rewrite (u64_small (d_len d + _)) by lia.
  replace (d_len d + (16 - d_len d)) with 16 by lia.
  edestruct (get_packet_ok t2 16) as (r & p & ctx & Ep & Hr); [lia|lia|].
  apply wp_lift. eexists. split; [exact Ep|]. wps. rsimpl.
  rewrite s32_small by lia. unfold INTEL_PT_PKT_MAX_SZ in Hr.
  destruct (Z.ltb_spec r (d_len d)); wps.
  - split; [done|]. rewrite bad_packet_ret. split; [intros _|lia]. destruct Hc2.
    apply bad_packet_mem_ok; unfold INTEL_PT_PKT_MAX_SZ; [|rsimpl; lia|rsimpl; lia].
    split; unfold INTEL_PT_PKT_MAX_SZ in *; rsimpl; try (lia || done).
    intros b [= <-]. lia.
  - unfold INTEL_PT_NEED_MORE_BYTES, INTEL_PT_BAD_PACKET in Hr.
    rewrite (u64_small (r - d_len d)), (u64_small (d_len d1 - _)) by lia.
    split; [done|]. split; [lia|]. intros _. split; [|rsimpl; lia].
    destruct Hc2. split; unfold INTEL_PT_PKT_MAX_SZ in *; rsimpl; try (lia || done).
    intros b [= <-]. rewrite length_drop. lia.
Qed.

Lemma get_packet_psb buf ctx :
  take 16 buf = INTEL_PT_PSB_STR ->
  exists ctx', intel_pt_get_packet buf 16 ctx = Some (16, mkPkt INTEL_PT_PSB 0 0, ctx').
Proof.
  intros E. rewrite <- (take_drop 16 buf), E. generalize (drop 16 buf). intros rest.
  destruct ctx; eexists; reflexivity.
Qed.

(** What is left by a packet that was accepted or refused. *)
Notation parsed ret d := (mem_ok d /\
  (ret = 0 -> d_pkt_step d = d_pkt_len d /\ 1 <= d_pkt_len d)).

Lemma accept_wp ret d e :
  core d -> env_ok e -> 1 <= d_len d -> ret <= d_len d -> next_ok d ->
  d_next_buf d = None \/ INTEL_PT_PKT_MAX_SZ <= d_next_len d \/ ret = d_len d ->
  wp (if ret <=? 0 then error_of intel_pt_bad_packet
      else modify (fun d => d <| d_pkt_len := ret |> <| d_pkt_step := ret |>) ;; mret 0)
    (fun ret d' e' => parsed ret d' /\ env_ok e') d e.
Proof.
  intros Hc He Hl Hr Hn Hp. destruct (Z.leb_spec ret 0); wps.
  - rewrite bad_packet_ret. split; [split; [|lia]|done].
    apply bad_packet_mem_ok; [done|done|]. destruct Hp as [?|[?|?]]; auto; lia.
  - destruct Hc. split; [|done]. split; [|rsimpl; lia].
    split; [split; rsimpl; done|exact Hn|rsimpl; lia|rsimpl; tauto].
Qed.

Lemma parse_packet_wp d e :
  core d -> env_ok e -> 1 <= d_len d -> next_ok d ->
  wp parse_packet (fun ret d' e' => parsed ret d' /\ env_ok e') d e.
Proof.
  intros Hc He Hl Hn. unfold parse_packet. wps. rsimpl.
  destruct (core_len _ Hc). pose proof (core_bound _ Hc).
  destruct (get_packet_ok (d_buf d) (d_len d) (d_pkt_ctx d)) as (r & p & ctx & Ep & Hr);
    [lia|lia|].
  assert (d_next_buf d = None \/ INTEL_PT_PKT_MAX_SZ <= d_next_len d \/ r = d_len d) as Hp.
  { destruct Hn as [?|[?|[El Eb]]]; [tauto|tauto|]. right; right.
    rewrite El in *. destruct (get_packet_psb _ (d_pkt_ctx d) Eb) as (ctx' & Ep').
    unfold INTEL_PT_PSB_LEN in *. congruence. }
  apply wp_lift. eexists. split; [exact Ep|]. wps. rsimpl.
  set (d1 := upd _ _ _).
  assert (view d1 = view d) as V by reflexivity.
  assert (core d1) as Hc1 by (by eapply view_core).
  assert (next_ok d1) as Hn1 by exact Hn.
  assert (d_len d1 = d_len d /\ d_next_buf d1 = d_next_buf d /\ d_next_len d1 = d_next_len d)
    as (El & En & Enl) by done. clearbody d1.
  unfold INTEL_PT_NEED_MORE_BYTES, INTEL_PT_BAD_PACKET, INTEL_PT_PKT_MAX_SZ in Hr, Hp.
  destruct (_ && _) eqn:E.
  2: { apply accept_wp; unfold INTEL_PT_PKT_MAX_SZ; rewrite ?El, ?En, ?Enl; try done; lia. }
  rewrite !andb_true_iff, bool_decide_eq_true, Z.ltb_lt in E. destruct E as [[_ E1] E2]. wps.
  eapply wp_mono; [apply split_packet_wp; (done || lia || congruence)|].
  intros ret d' e' (He' & Hneg & Hpos). cbv beta.
  destruct (Z.ltb_spec ret 0); [wps; split; [split; [auto|lia]|done]|].
  destruct Hpos as (Hc' & Hret & Hnl); [lia|].
  apply accept_wp; try done; try lia; unfold next_ok; tauto.
Qed.

(** After [advance] only [core] without the waiting buffer is of use. *)
Lemma advance_wp d e :
  mem_ok d -> env_ok e ->
  wp (if d_len (advance d) =? 0 then intel_pt_get_next_data false else mret 0)
    (fun ret d' e' => core d' /\ env_ok e' /\ next_ok d' /\
       (ret <> 0 -> d_pkt_step d' = 0) /\ (ret = 0 -> 1 <= d_len d')) (advance d) e.
Proof.
  intros [Hc Hn Hs Hp] He. destruct Hc as [C1 C2 C3 C4 C5 C6].
  assert (core (advance d) /\ d_len (advance d) = d_len d - d_pkt_step d) as [Hc1 El].
  { unfold advance. rsimpl. rewrite (u64_small (d_len d - _)) by lia.
    split; [|done]. split; rsimpl; try done; rewrite ?length_drop; lia. }
  destruct (Z.eqb_spec (d_len (advance d)) 0).
  - eapply wp_mono; [by apply get_next_data_wp|]. intros ret d' e' (? & ? & Hn' & ? & Hl).
    split; [done|]. split; [done|]. split; [by left|]. split; [done|]. intros. by apply Hl.
  - wps. split; [done|]. split; [done|]. split; [|split; [done|lia]].
    destruct Hp as [?|[?|[E|E]]]; [by left|by right; left| |lia].
    destruct Hn as [?|[?|[E1 E2]]]; [by left|by right; left|]. right; right.
    split; [lia|]. unfold advance. rsimpl. by rewrite E.
Qed.

Lemma next_packet_loop_mem n d e :
  mem_ok d -> env_ok e ->
  wp (next_packet_loop n) (fun _ d' e' => mem_ok d' /\ env_ok e') d e.
Proof.
  revert d e.
  induction n as [|n IH]; intros d e Hd He; cbn [next_packet_loop]; [apply wp_no_fuel|]. wps.
  eapply wp_mono; [by apply advance_wp|]. intros ret d2 e2 (Hc2 & He2 & Hn2 & Hs & Hl).
  destruct (Z.eqb_spec ret 0) as [->|Hr].
  2: { wps. split; [|done]. apply no_step_mem_ok; auto. }
  wps. eapply wp_mono; [apply parse_packet_wp; auto|]. intros ret d3 e3 ((Hm & _) & He3).
  destruct (ret =? 0); wps; [|done]. case_bool_decide; [by apply IH|]. by wps.
Qed.

Lemma get_next_packet_safe : safe (D:=D) intel_pt_get_next_packet.
Proof.
  unfold intel_pt_get_next_packet. apply safe_bind; [safe|]. intros.
  apply safe_intro; [apply next_packet_vm|]. apply next_packet_loop_mem.
Qed.

(** ** The search for a PSB: here the pending step is of no importance until
    it is set. *)

Lemma part_psb_range n buf len :
  0 <= len <= Z.of_nat (length buf) ->
  exists k, part_psb_loop n buf len = Some k /\ 0 <= k <= len /\ k <= Z.of_nat n.
Proof.
  intros Hl. induction n as [|n (k & IH & ?)]; cbn [part_psb_loop]; [exists 0; split; [done|lia]|].
  destruct (Z.ltb_spec len (Z.of_nat (S n))); [exists k; split; [done|lia]|].
  rewrite slice_Some by lia. cbn [mbind option_bind].
  case_bool_decide; [exists (Z.of_nat (S n))|exists k]; (split; [done|lia]).
Qed.

Lemma rest_psb_range d part :
  core d -> 1 <= part <= 15 ->
  exists k, intel_pt_rest_psb d part = Some k /\ 0 <= k <= d_len d /\ k <= 15.
Proof.
  intros Hc Hp. pose proof (core_len _ Hc). unfold intel_pt_rest_psb, INTEL_PT_PSB_LEN.
  rewrite (u64_small (16 - part)) by lia. cbv zeta.
  destruct (Z.ltb_spec (d_len d) (16 - part)); [exists 0; split; [done|lia]|].
  rewrite !slice_Some by (cbn [length INTEL_PT_PSB_STR]; lia). cbn [mbind option_bind].
  eexists. split; [done|]. case_bool_decide; lia.
Qed.

(** Ready for another turn of the scan, or stopped by [get_data]. *)
Notation scanning ret d := (core d /\ next_ok d /\ (ret <> 0 -> d_pkt_step d = 0)).

(** Nothing short may be waiting while data is dropped. *)
Lemma core_drop d :
  core d -> core (d <| d_pos := u64 (d_pos d + d_len d) |> <| d_len := 0 |>).
Proof. intros []. split; rsimpl; try done; lia. Qed.

Lemma memcpy_psb t t' :
  length t = Z.to_nat INTEL_PT_PKT_MAX_SZ ->
  memcpy t 0 INTEL_PT_PSB_STR INTEL_PT_PSB_LEN = Some t' -> t' = INTEL_PT_PSB_STR.
Proof.
  unfold memcpy, INTEL_PT_PKT_MAX_SZ, INTEL_PT_PSB_LEN. intros Hl.
  rewrite slice_Some by (cbn; lia). cbn [mbind option_bind].
  case_match; [|done]. intros [= <-].
  rewrite (drop_ge t) by lia. reflexivity.
Qed.

Lemma get_split_psb_wp part d e :
  core d -> env_ok e -> 1 <= part <= 15 ->
  d_next_buf d = None \/ INTEL_PT_PKT_MAX_SZ <= d_next_len d ->
  wp (intel_pt_get_split_psb part) (fun ret d' e' => scanning ret d' /\ env_ok e') d e.
Proof.
  intros Hc He Hp Hn. unfold intel_pt_get_split_psb. wps.
  eapply wp_mono; [apply get_next_data_wp; [by apply core_drop|done]|].
  intros ret d2 e2 (Hc2 & He2 & Hn2 & Hs & Hl). unfold INTEL_PT_PKT_MAX_SZ in *.
  destruct (Z.eqb_spec ret 0) as [->|Hr].
  2: { wps. split; [|done]. split; [done|]. split; [by left|done]. }
  destruct Hl as [_ Hl]; [done|]. specialize (Hl Hn). wps.
  destruct (rest_psb_range d2 part) as (k & Ek & Hk & Hk15); [done|done|].
  apply wp_lift. exists k. split; [done|]. wps.
  destruct (Z.eqb_spec k 0); wps; [split; [|done]; split; [done|split; [by left|lia]]|].
  pose proof (core_temp _ Hc2) as Ht. unfold INTEL_PT_PKT_MAX_SZ in Ht.
  pose proof (core_bound _ Hc2). pose proof (core_len _ Hc2).
  apply copy_to_temp_wp; unfold INTEL_PT_PSB_LEN; rsimpl; [lia|cbn; lia|lia|].
  intros t Et _. apply memcpy_psb in Et as ->; [|done]. wps.
  rewrite (u64_small (d_len d2 - k)) by lia.
  split; [|done]. split; [|split; [|lia]].
  - destruct Hc2. split; unfold INTEL_PT_PKT_MAX_SZ in *; rsimpl; cbn [length INTEL_PT_PSB_STR];
      try (done || lia).
    intros b [= <-]. rewrite length_drop. lia.
  - right; right. split; reflexivity.
Qed.

Lemma scan_vm n : vmpost (D:=D) (scan_for_psb_loop n).
Proof.
  induction n as [|n IH]; cbn [scan_for_psb_loop];
    unfold scan_miss, intel_pt_get_split_psb, intel_pt_get_next_packet; [repeat vm_step|].
  repeat (vm_step || exact IH).
Qed.

Lemma memmem_psb_at d hay :
  slice (d_buf d) 0 (d_len d) = Some hay -> psb_at d ->
  memmem hay INTEL_PT_PSB_STR = Some 0.
Proof.
  unfold slice, psb_at, INTEL_PT_PSB_LEN. intros E [El Eb]. rewrite El in E.
  case_match; [|done]. injection E as <-. cbn [Z.to_nat drop].
  change (Z.to_nat 16) with 16%nat. rewrite drop_0, Eb. reflexivity.
Qed.

(** The turn of the scan that found data without a PSB. *)
Lemma scan_miss_wp d e :
  core d -> env_ok e -> d_next_buf d = None \/ INTEL_PT_PKT_MAX_SZ <= d_next_len d ->
  wp scan_miss (fun ret d' e' => scanning ret d' /\ env_ok e') d e.
Proof.
  intros Hc He Hn. unfold scan_miss, intel_pt_part_psb.
  destruct (part_psb_range (Z.to_nat (INTEL_PT_PSB_LEN - 1)) (d_buf d) (d_len d))
    as (k & Ek & Hk & Hk15); [by apply core_len|]. unfold INTEL_PT_PSB_LEN in Hk15.
  wps. apply wp_lift. exists k. split; [done|]. wps.
  destruct (Z.eqb_spec k 0); cbn [negb].
  - wps. split; [|done]. split; [by apply core_drop|]. split; [|done].
    unfold next_ok. rsimpl. tauto.
  - apply get_split_psb_wp; (done || lia).
Qed.

Lemma scan_data_wp d e :
  core d -> next_ok d -> env_ok e ->
  wp (if d_len d =? 0 then intel_pt_get_next_data false else mret 0)
    (fun ret d' e' => scanning ret d' /\ env_ok e') d e.
Proof.
  intros Hc Hn He. destruct (Z.eqb_spec (d_len d) 0).
  - eapply wp_mono; [by apply get_next_data_wp|]. intros ret d' e' (? & ? & ? & ? & _).
    split; [|done]. split; [done|]. split; [by left|done].
  - by wps.
Qed.

Lemma scan_for_psb_loop_wp n d e :
  core d -> next_ok d -> env_ok e ->
  wp (scan_for_psb_loop n) (fun _ d' e' => mem_ok d' /\ env_ok e') d e.
Proof.
  revert d e. induction n as [|n IH]; intros d e Hc Hn He; cbn [scan_for_psb_loop];
    [apply wp_no_fuel|]. wps.
  eapply wp_mono; [by apply scan_data_wp|]. intros ret d1 e1 ((Hc1 & Hn1 & Hs1) & He1).
  destruct (Z.eqb_spec ret 0) as [->|Hr]; [|wps; split; [apply no_step_mem_ok; auto|done]].
  wps. apply wp_lift. pose proof (core_len _ Hc1).
  eexists. split; [apply slice_Some; lia|].
  assert (slice (d_buf d1) 0 (d_len d1) = Some (take (Z.to_nat (d_len d1)) (d_buf d1))) as Esl
    by (rewrite slice_Some by lia; done). cbn [Z.to_nat drop].
  destruct (memmem _ _) as [k|] eqn:Em.
  - wps. assert (mem_ok (d1 <| d_pkt_step := k |>)) as Hm.
    { pose proof (memmem_range _ _ _ Em) as Hk. rewrite length_take in Hk.
      split; [by destruct Hc1|exact Hn1|rsimpl; lia|]. rsimpl.
      destruct Hn1 as [?|[?|Hpsb]]; [tauto|tauto|].
      pose proof (memmem_psb_at _ _ Esl Hpsb). cbn [Z.to_nat] in *. rewrite drop_0 in *.
      right; right; left. congruence. }
    unfold intel_pt_get_next_packet. wps.
    eapply wp_mono; [apply (next_packet_loop_mem fuel); [|done]|done].
    eapply view_mem_ok; [|exact Hm]. done.
  - wps. eapply wp_mono; [apply scan_miss_wp; [done|done|]|].
    { destruct Hn1 as [?|[?|Hpsb]]; [tauto|tauto|].
      pose proof (memmem_psb_at _ _ Esl Hpsb). cbn [Z.to_nat] in *. rewrite drop_0 in *. congruence. }
    intros ret d2 e2 ((Hc2 & Hn2 & Hs2) & He2).
    destruct (Z.eqb_spec ret 0); [by apply IH|]. wps. split; [apply no_step_mem_ok; auto|done].
Qed.

Lemma scan_for_psb_safe : safe (D:=D) intel_pt_scan_for_psb.
Proof.
  apply safe_intro; [apply scan_vm|]. intros d e [Hc Hn _ _] He. by apply scan_for_psb_loop_wp.
Qed.
End reader.
#[export] Hint Resolve @calc_tsc_timestamp_safe @calc_mtc_timestamp_safe @get_next_packet_safe
  @scan_for_psb_safe : safe.
