(* ===== verification/PtSafeWalk.v ===== *)
(** Memory safety of the walks and of the entry points: PtWalk.v, PtTrace.v,
    PtVmTime.v and PtDecode.v. *)
From Stdlib Require Import ZArith Lia List Bool.
From S2P Require Import Prelude Float64 PktDecoder PktBounds PtStack PtState PtTime PtReader PtWalk PtTrace PtVmTime PtDecode PtSafe PtSafeReader.
Open Scope Z_scope.
Open Scope c_scope.
Import ListNotations.

Section walk.
Context {D : Type} `{Platform} `{Callbacks D} `{Fuel} `{!TraceEnv D}.
Implicit Types (d : intel_pt_decoder) (e : D).

(** ** A state read by [get] and written back by [put] *)

Definition safe_from {A} (d : intel_pt_decoder) (m : M D A) : Prop :=
  forall e, ok d -> env_ok e ->
    wp m (fun _ d' e' => ok d' /\ env_ok e' /\
      d_vm_tm_corr_dry_run d' = d_vm_tm_corr_dry_run d) d e.

Lemma safe_get_from {B} (k : intel_pt_decoder -> M D B) :
  (forall d, safe_from d (k d)) -> safe (get ≫= k).
Proof. intros Hk d e Hd He. apply wp_bind, wp_get. by apply Hk. Qed.

Lemma safe_safe_from {A} d (m : M D A) : safe m -> safe_from d m.
Proof. intros Hm e Hd He. by apply Hm. Qed.

Lemma safe_from_put {A} d d' (m : M D A) :
  keeps d' d -> safe m -> safe_from d (put d' ;; m).
Proof.
  intros Hk Hm e Hd He. apply wp_bind, wp_put.
  eapply wp_mono; [apply Hm; [by eapply keeps_ok|done]|].
  intros a d2 e2 (? & ? & Hdry). split; [done|]. split; [done|].
  rewrite Hdry. apply Hk.
Qed.

(** ** The return stack *)

Lemma ok_set_stack d s : ok d -> stack_wf s -> ok (d <| d_stack := s |>).
Proof.
  intros [[[] Hn Hs Hp] Hv] Hw. split; [|exact Hv]. split; [|exact Hn|exact Hs|exact Hp].
  split; rsimpl; done.
Qed.

Lemma ok_stack_wf d : ok d -> stack_wf (d_stack d).
Proof. intros [[[] _ _ _] _]. done. Qed.

Lemma push_safe ip : safe (D:=D) (push ip).
Proof.
  intros d e Hd He. unfold push. wps.
  destruct (stack_push_refines (malloc_ok e).1 (d_stack d) ip) as (err & s & Es & Hw & _);
    [by apply ok_stack_wf|].
  apply wp_lift. eexists. split; [exact Es|]. wps.
  split; [by apply ok_set_stack|]. split; [by apply malloc_env|done].
Qed.

Lemma pop_safe : safe (D:=D) pop.
Proof.
  intros d e Hd He. unfold pop. wps.
  destruct (stack_pop_refines (d_stack d)) as (s & Es & _ & Hw); [by apply ok_stack_wf|].
  apply wp_lift. eexists. split; [exact Es|]. wps.
  split; [by apply ok_set_stack|]. by split.
Qed.

Lemma clear_stack_safe : safe (D:=D) clear_stack.
Proof.
  intros d e Hd He. unfold clear_stack. wps.
  destruct (stack_clear_refines (d_stack d)) as (s & Es & _ & Hw); [by apply ok_stack_wf|].
  apply wp_lift. eexists. split; [exact Es|]. wps.
  split; [by apply ok_set_stack|]. by split.
Qed.
Hint Resolve push_safe pop_safe clear_stack_safe : safe.

(** ** Instructions *)

Lemma next_sample_safe : safe (D:=D) next_sample.
Proof.
  intros d e Hd He. unfold next_sample, wp. cbv zeta.
  assert (keeps (if d_mtc_insn d then d else d <| d_mtc_insn := true |>) d) as K1 by frame.
  revert K1. generalize (if d_mtc_insn d then d else d <| d_mtc_insn := true |>). intros d1 K1.
  assert (keeps (intel_pt_next_sample d1).2 d1) as K2 by frame.
  destruct (intel_pt_next_sample d1) as [n d2]. cbn [snd] in K2.
  pose proof (keeps_trans _ _ _ K2 K1) as K.
  split; [by eapply keeps_ok|]. split; [done|]. apply K.
Qed.

Lemma call_walk_insn_safe to_ip n : safe (D:=D) (call_walk_insn to_ip n).
Proof. unfold call_walk_insn. safe. apply safe_call. intros. by apply walk_insn_env. Qed.
Hint Resolve next_sample_safe call_walk_insn_safe : safe.

Lemma add_insn_cnt_frame n d : keeps (add_insn_cnt n d) d.
Proof. unfold add_insn_cnt. frame. Qed.
Hint Resolve add_insn_cnt_frame : frame.

Lemma sample_fup_insn_safe : safe (D:=D) intel_pt_sample_fup_insn.
Proof. unfold intel_pt_sample_fup_insn. safe. Qed.

Lemma walk_call_ret_safe insn : safe (D:=D) (walk_call_ret insn).
Proof. unfold walk_call_ret. safe. Qed.

Lemma walk_insn_finish_safe insn err : safe (D:=D) (walk_insn_finish insn err).
Proof. unfold walk_insn_finish. safe. Qed.
Hint Resolve sample_fup_insn_safe walk_call_ret_safe walk_insn_finish_safe : safe.

Lemma walk_insn_safe ip : safe (D:=D) (intel_pt_walk_insn ip).
Proof. unfold intel_pt_walk_insn. safe. Qed.
Hint Resolve walk_insn_safe : safe.

(** ** FUP, TIP and TNT *)

Lemma fup_event_safe b : safe (D:=D) (intel_pt_fup_event b).
Proof.
  unfold intel_pt_fup_event. apply safe_get_from. intros d. cbv zeta.
  pose proof (fup_events_frame b d) as K. destruct (fup_events b d) as [[ret sample] d1].
  cbn [snd] in K.
  repeat case_match; apply safe_from_put;
    try (eapply keeps_trans; [|exact K]; frame); try (safe; fail); apply safe_ret.
Qed.
Hint Resolve fup_event_safe : safe.

Lemma walk_fup_safe : safe (D:=D) intel_pt_walk_fup.
Proof.
  unfold intel_pt_walk_fup. apply safe_bind; [safe|]. intros ip. generalize fuel as n.
  induction n as [|n IH]; cbn [walk_fup_loop]; repeat (safe_step || exact IH).
Qed.

Lemma leaves_filter_safe ip : safe (D:=D) (leaves_filter ip).
Proof. intros d e Hd He. unfold leaves_filter, wp. done. Qed.
Hint Resolve walk_fup_safe leaves_filter_safe : safe.

Lemma walk_tip_safe : safe (D:=D) intel_pt_walk_tip.
Proof. unfold intel_pt_walk_tip. safe. Qed.

Lemma eptw_cb_keeps info d x : keeps (intel_pt_eptw_lookahead_cb info d x).1.2 d.
Proof. unfold intel_pt_eptw_lookahead_cb. destruct (pkt_type _); frame. Qed.

Lemma emulated_ptwrite_safe : safe (D:=D) intel_pt_emulated_ptwrite.
Proof. unfold intel_pt_emulated_ptwrite. safe. apply safe_lookahead, eptw_cb_keeps. Qed.

Lemma tnt_deferred_tip_safe : safe (D:=D) tnt_deferred_tip.
Proof. unfold tnt_deferred_tip. safe. Qed.
Hint Resolve walk_tip_safe emulated_ptwrite_safe tnt_deferred_tip_safe : safe.

Lemma tnt_conditional_safe insn (k : M D Z) :
  safe k ->
  safe (d ← get; let '(r, d) := tnt_conditional insn d in
        put d ;; match r with Some err => mret err | None => k end).
Proof.
  intros Hk. apply safe_get_from. intros d. pose proof (tnt_conditional_frame insn d) as K.
  destruct (tnt_conditional insn d) as [r d1]. apply safe_from_put; [exact K|].
  destruct r; [apply safe_ret|exact Hk].
Qed.

Lemma walk_tnt_safe : safe (D:=D) intel_pt_walk_tnt.
Proof.
  unfold intel_pt_walk_tnt. generalize fuel as n.
  induction n as [|n IH]; cbn [walk_tnt_loop];
    repeat (apply (tnt_conditional_safe _ _ IH) || safe_step).
Qed.

Lemma mode_tsx_safe b : safe (D:=D) (intel_pt_mode_tsx b).
Proof. unfold intel_pt_mode_tsx. safe. Qed.

Lemma walk_mtc_safe : safe (D:=D) walk_mtc.
Proof. unfold walk_mtc. safe. Qed.
Hint Resolve walk_tnt_safe mode_tsx_safe walk_mtc_safe : safe.

(** ** Packet walks *)

Lemma packet_loop_safe n handler : safe handler -> safe (D:=D) (packet_loop n handler).
Proof.
  intros Hh. induction n as [|n IH]; cbn [packet_loop]; repeat (safe_step || exact Hh || exact IH).
Qed.

Lemma walk_psbend_safe : safe (D:=D) intel_pt_walk_psbend.
Proof.
  unfold intel_pt_walk_psbend. safe. apply packet_loop_safe. unfold psbend_packet. safe.
Qed.

Lemma walk_fup_tip_safe : safe (D:=D) intel_pt_walk_fup_tip.
Proof.
  unfold intel_pt_walk_fup_tip. safe. apply packet_loop_safe. unfold fup_tip_packet. safe.
Qed.
Hint Resolve walk_psbend_safe walk_fup_tip_safe : safe.

(** ** PtTrace.v *)

Lemma stop_tracing_frame d : keeps (stop_tracing d) d.
Proof. unfold stop_tracing. frame. Qed.
Lemma sample_at_ip_frame t d : keeps (sample_at_ip t d) d.
Proof. unfold sample_at_ip. frame. Qed.
Hint Resolve stop_tracing_frame sample_at_ip_frame : frame.

Lemma psb_cb_keeps info d x : keeps (intel_pt_psb_lookahead_cb info d x).1.2 d.
Proof.
  unfold intel_pt_psb_lookahead_cb, psb_after. destruct (pkt_type _); frame.
Qed.

Lemma hop_fup_safe b : safe (D:=D) (hop_fup b).
Proof. unfold hop_fup. safe. Qed.
Lemma hop_psb_safe : safe (D:=D) hop_psb.
Proof. unfold hop_psb. safe. Qed.
Hint Resolve hop_fup_safe hop_psb_safe : safe.
Lemma hop_packet_safe b : safe (D:=D) (hop_packet b).
Proof. unfold hop_packet. safe. Qed.
Hint Resolve hop_packet_safe : safe.
Lemma hop_trace_safe b : safe (D:=D) (intel_pt_hop_trace b).
Proof. unfold intel_pt_hop_trace. safe. Qed.

Lemma psb_safe : safe (D:=D) intel_pt_psb.
Proof. unfold intel_pt_psb. safe. Qed.
Hint Resolve hop_trace_safe psb_safe : safe.
Lemma fup_in_psb_safe : safe (D:=D) intel_pt_fup_in_psb.
Proof. unfold intel_pt_fup_in_psb. safe. Qed.
Hint Resolve fup_in_psb_safe : safe.
Lemma psb_with_fup_safe : safe (D:=D) intel_pt_psb_with_fup.
Proof. unfold intel_pt_psb_with_fup. safe. apply safe_lookahead, psb_cb_keeps. Qed.
Hint Resolve psb_with_fup_safe : safe.

Lemma trace_tip_safe s b :
  s <> INTEL_PT_STATE_VM_TIME_CORRELATION -> safe (D:=D) (trace_tip s b).
Proof.
  intros Hs. unfold trace_tip. apply safe_bind; [apply safe_modify; intros d|intros; safe].
  eapply keeps_trans; [by apply keeps_pkt_state|]. frame.
Qed.
Lemma trace_fup_safe b : safe (D:=D) (trace_fup b).
Proof. unfold trace_fup. safe. Qed.
Lemma trace_psb_safe b : safe (D:=D) (trace_psb b).
Proof. unfold trace_psb. safe. Qed.
Lemma followed_by_fup_safe f b : (forall d, keeps (f d) d) -> safe (D:=D) (followed_by_fup f b).
Proof. intros Hf. unfold followed_by_fup. repeat (apply safe_modify, Hf || safe_step). Qed.
Lemma trace_update_safe f b : (forall d, keeps (f d) d) -> safe (D:=D) (trace_update f b).
Proof. intros Hf. unfold trace_update. repeat (apply safe_modify, Hf || safe_step). Qed.
Lemma trace_event_safe f b : (forall d, keeps (f d) d) -> safe (D:=D) (trace_event f b).
Proof. intros Hf. unfold trace_event. repeat (apply safe_modify, Hf || safe_step). Qed.
Hint Resolve trace_fup_safe trace_psb_safe : safe.

Lemma trace_packet_safe b : safe (D:=D) (trace_packet b).
Proof.
  unfold trace_packet. apply safe_bind; [safe|]. intros d. destruct (pkt_type _);
    unfold trace_tnt, trace_tip_pge, trace_mtc, trace_cbr, trace_mode_exec, trace_mode_tsx,
      trace_ptwrite_ip, trace_mwait, trace_pwre, trace_cfe, trace_cfe_ip, trace_evd;
    repeat lazymatch goal with
    | |- safe (followed_by_fup _ _) => apply followed_by_fup_safe; intros; frame
    | |- safe (trace_update _ _) => apply trace_update_safe; intros; frame
    | |- safe (trace_event _ _) => apply trace_event_safe; intros; frame
    | |- safe (trace_tip _ _) => apply trace_tip_safe; done
    | |- _ => safe_step
    end.
Qed.

Lemma trace_cyc_threshold_safe t : safe (D:=D) (trace_cyc_threshold t).
Proof. unfold trace_cyc_threshold. safe. Qed.
Hint Resolve trace_packet_safe trace_cyc_threshold_safe : safe.

Lemma walk_trace_safe : safe (D:=D) intel_pt_walk_trace.
Proof.
  unfold intel_pt_walk_trace. generalize fuel as n. intros n. generalize true as fetch.
  generalize INTEL_PT_PAD as t. generalize false as b.
  induction n as [|n IH]; intros; cbn [walk_trace_loop]; repeat (apply IH || safe_step).
Qed.

Lemma walk_psb_safe : safe (D:=D) intel_pt_walk_psb.
Proof.
  unfold intel_pt_walk_psb. safe. apply packet_loop_safe. unfold psb_packet. safe.
Qed.
Hint Resolve walk_trace_safe walk_psb_safe : safe.

Lemma found_ip_safe bits : safe (D:=D) (found_ip bits).
Proof. unfold found_ip. safe. Qed.
Lemma to_ip_psb_safe : safe (D:=D) to_ip_psb.
Proof. unfold to_ip_psb. safe. Qed.
Hint Resolve found_ip_safe to_ip_psb_safe : safe.

Lemma walk_to_ip_safe : safe (D:=D) intel_pt_walk_to_ip.
Proof. unfold intel_pt_walk_to_ip. apply packet_loop_safe. unfold to_ip_packet. safe. Qed.
Hint Resolve walk_to_ip_safe : safe.

Lemma sync_ip_safe : safe (D:=D) intel_pt_sync_ip.
Proof. unfold intel_pt_sync_ip. safe. Qed.

(** ** VM time correlation: safe as a dry run *)

Definition dry_safe {A} (m : M D A) : Prop :=
  forall d e, ok d -> env_ok e -> d_vm_tm_corr_dry_run d = true ->
    wp m (fun _ d' e' => ok d' /\ env_ok e' /\ d_vm_tm_corr_dry_run d' = true) d e.

Lemma safe_dry {A} (m : M D A) : safe m -> dry_safe m.
Proof.
  intros Hm d e Hd He Hy. eapply wp_mono; [by apply Hm|].
  intros a d' e' (? & ? & ?). split; [done|]. split; [done|]. congruence.
Qed.

Lemma dry_bind {A B} (m : M D A) (k : A -> M D B) :
  dry_safe m -> (forall a, dry_safe (k a)) -> dry_safe (m ≫= k).
Proof.
  intros Hm Hk d e Hd He Hy. apply wp_bind. eapply wp_mono; [by apply Hm|].
  intros a d' e' (? & ? & ?). by apply Hk.
Qed.

Lemma dry_when b (m : M D unit) : dry_safe m -> dry_safe (when b m).
Proof. intros Hm. destruct b; [done|]. apply safe_dry, safe_ret. Qed.

(** The guard of every write to the trace. *)
Lemma dry_patch value n :
  dry_safe (d ← get; when (negb (d_vm_tm_corr_dry_run d)) (patch_buf (value d) n)).
Proof. intros d e Hd He Hy. wps. rewrite Hy. by apply wp_ret. Qed.

Lemma translate_dry o : dry_safe (translate o).
Proof. unfold translate. apply dry_bind; [apply safe_dry; safe|]. intros _. apply dry_patch. Qed.

Lemma read_vmcs_safe h : safe (D:=D) (read_vmcs h).
Proof. apply safe_call. done. Qed.
Lemma write_vmcs_safe h f : safe (D:=D) (write_vmcs h f).
Proof. apply safe_call. intros e He. cbn. destruct h; [by apply vmcs_write_env|done]. Qed.
Lemma findnew_vmcs_safe v : safe (D:=D) (findnew_vmcs v).
Proof. apply safe_call. intros. by apply findnew_env. Qed.

Lemma vm_psb_cb_keeps info d x : keeps (intel_pt_vm_psb_lookahead_cb info d x).1.2 d.
Proof. unfold intel_pt_vm_psb_lookahead_cb. destruct (pkt_type _); apply keeps_refl. Qed.
Lemma ovf_cb_keeps info d x : keeps (intel_pt_ovf_fup_lookahead_cb info d x).1.2 d.
Proof. unfold intel_pt_ovf_fup_lookahead_cb. destruct (pkt_type _); apply keeps_refl. Qed.
Lemma tma_cb_keeps info d x : keeps (intel_pt_tma_lookahead_cb info d x).1.2 d.
Proof. unfold intel_pt_tma_lookahead_cb. destruct (pkt_type _); apply keeps_refl. Qed.
Hint Resolve read_vmcs_safe write_vmcs_safe findnew_vmcs_safe : safe.

Lemma ovf_fup_lookahead_safe : safe (D:=D) intel_pt_ovf_fup_lookahead.
Proof. unfold intel_pt_ovf_fup_lookahead. safe. apply safe_lookahead, ovf_cb_keeps. Qed.
Lemma vm_tm_corr_psb_safe : safe (D:=D) intel_pt_vm_tm_corr_psb.
Proof. unfold intel_pt_vm_tm_corr_psb. safe. apply safe_lookahead, vm_psb_cb_keeps. Qed.
Lemma tsc_lookahead_safe data : safe (D:=D) (tsc_lookahead data).
Proof. unfold tsc_lookahead. safe. apply safe_lookahead, tma_cb_keeps. Qed.
Hint Resolve ovf_fup_lookahead_safe vm_tm_corr_psb_safe tsc_lookahead_safe : safe.

(** [dry] goes through the structure of a function that may write. *)
Ltac dry_step :=
  lazymatch goal with
  | |- dry_safe (let x := _ in _) => cbv zeta
  | |- dry_safe ((fun _ => _) _) => cbv beta
  | |- dry_safe (translate _) => apply translate_dry
  | |- dry_safe (intel_pt_translate_vm_tsc_offset _) => apply translate_dry
  | |- dry_safe (intel_pt_translate_vm_tsc _) => apply translate_dry
  | |- dry_safe (mbind _ _) =>
    first [apply dry_patch | apply (dry_patch (fun _ => _)) | apply dry_bind; [|intros]]
  | |- dry_safe (when _ _) => apply dry_when
  | |- dry_safe (match ?x with _ => _ end) => destruct x
  | |- dry_safe _ => first [solve [eauto 3 with safe nocore] | apply safe_dry; solve [safe]]
  end.

Lemma first_tsc_dry data h t : dry_safe (intel_pt_vm_tm_corr_first_tsc data h t).
Proof. unfold intel_pt_vm_tm_corr_first_tsc. repeat dry_step. Qed.

Lemma guest_dry data h o r : dry_safe (vm_tm_corr_guest data h o r).
Proof. unfold vm_tm_corr_guest. repeat dry_step. Qed.
Hint Resolve first_tsc_dry guest_dry : safe.

Lemma classify_tsc_keeps d data info h x o f d' :
  classify_tsc d data info h x o = FromHost f -> keeps (f d') d'.
Proof. unfold classify_tsc. repeat case_match; intros [= <-]; frame. Qed.

Lemma vm_tm_corr_tsc_dry data : dry_safe (intel_pt_vm_tm_corr_tsc data).
Proof.
  unfold intel_pt_vm_tm_corr_tsc.
  repeat lazymatch goal with
  | |- dry_safe (match classify_tsc ?d ?a ?b ?c ?x ?y with _ => _ end) =>
    let E := fresh in destruct (classify_tsc d a b c x y) eqn:E;
      [apply safe_dry, safe_modify; intros; by eapply classify_tsc_keeps| |]
  | |- _ => dry_step
  end.
Qed.

Lemma pebs_tsc_dry : dry_safe intel_pt_vm_tm_corr_pebs_tsc.
Proof. unfold intel_pt_vm_tm_corr_pebs_tsc. repeat dry_step. Qed.
Hint Resolve vm_tm_corr_tsc_dry pebs_tsc_dry : safe.

Lemma vm_time_packet_dry data : dry_safe (vm_time_packet data).
Proof. unfold vm_time_packet. repeat dry_step. Qed.
Hint Resolve vm_time_packet_dry : safe.

Lemma vm_time_correlation_dry : dry_safe intel_pt_vm_time_correlation.
Proof.
  unfold intel_pt_vm_time_correlation. apply dry_bind; [dry_step|intros d].
  apply dry_bind; [repeat dry_step|]. generalize fuel as n.
  induction n as [|n IH]; intros data; cbn [vm_time_loop]; repeat (apply IH || dry_step).
Qed.

(** ** The entry points *)

Lemma dry_ok d : mem_ok d -> d_vm_tm_corr_dry_run d = true -> ok d.
Proof. intros Hm Hy. split; [done|]. unfold vm_safe. by rewrite Hy. Qed.

(** Entering VM time correlation, which [core_vm] makes a dry run. *)
Lemma sync_safe : safe (D:=D) intel_pt_sync.
Proof.
  unfold intel_pt_sync. do 3 (apply safe_bind; [safe|intros _ || intros err]).
  destruct (err =? 0); [|apply safe_ret]. apply safe_get_from. intros d.
  destruct (d_vm_time_correlation d) eqn:Ev; [|apply safe_safe_from; safe].
  intros e [Hm Hs] He. wps. pose proof (core_vm _ (mo_core _ Hm) Ev) as Hy.
  assert (forall b, mem_ok (if b : bool then d <| d_in_psb := true |> <| d_timestamp := 1 |>
                            else d <| d_in_psb := true |>)) as Hm'.
  { intros []; eapply view_mem_ok; try exact Hm; done. }
  specialize (Hm' (d_timestamp (d <| d_in_psb := true |>) =? 0)). revert Hm'.
  assert (d_vm_tm_corr_dry_run (if d_timestamp (d <| d_in_psb := true |>) =? 0
    then d <| d_in_psb := true |> <| d_timestamp := 1 |> else d <| d_in_psb := true |>) = true)
    as Hy' by (case_match; exact Hy).
  revert Hy'. generalize (if d_timestamp (d <| d_in_psb := true |>) =? 0
    then d <| d_in_psb := true |> <| d_timestamp := 1 |> else d <| d_in_psb := true |>).
  intros d1 Hy1 Hm1. rsimpl. rewrite Hy, Hy1. split; [|done].
  apply dry_ok; [|exact Hy1]. eapply view_mem_ok; [|exact Hm1]. done.
Qed.
Hint Resolve sync_safe sync_ip_safe : safe.

Lemma again_safe m k : safe m -> safe k -> safe (D:=D) (again m k).
Proof.
  intros Hm Hk. unfold again. apply safe_bind; [done|]. intros err.
  destruct (err =? - EAGAIN); [done|apply safe_ret].
Qed.

Lemma decode_step_safe : safe (D:=D) decode_step.
Proof.
  unfold decode_step. apply safe_bind; [safe|intros _]. apply safe_get_from. intros d.
  destruct (d_pkt_state d) eqn:Es;
    try (apply safe_safe_from; repeat (apply again_safe || safe_step); fail).
  intros e Hd He.
  assert (d_vm_tm_corr_dry_run d = true) as Hy.
  { destruct Hd as [_ Hs]. unfold vm_safe in Hs. rewrite Es in Hs.
    apply orb_true_iff in Hs as [?|?]; [done|]. by vm_compute in H2. }
  eapply wp_mono; [by apply vm_time_correlation_dry|]. intros a d' e' (? & ? & ?).
  split; [done|]. split; [done|]. congruence.
Qed.
Hint Resolve decode_step_safe : safe.

Lemma decode_safe : safe (D:=D) intel_pt_decode.
Proof.
  unfold intel_pt_decode. apply safe_bind; [|intros err; destruct (negb (err =? 0)); safe].
  generalize fuel as n.
  induction n as [|n IH]; cbn [decode_loop]; repeat (apply IH || safe_step).
Qed.
End walk.
