(* ===== verification/PtExample.v ===== *)
(** A concrete instance of the parameters, for witnesses: a 64-bit host, a trace
    given as a list of buffers, and a simple program to walk. *)
From Stdlib Require Import ZArith Lia List Bool.
From S2P Require Import Prelude Float64 PktDecoder PtStack PtState PtTime PtReader PtWalk PtTrace PtVmTime PtDecode PtSafe.
Open Scope Z_scope.
Import ListNotations.

#[export] Instance host64 : Platform :=
  {| bits_per_long := 64; f64_to_u64_oob := fun _ => 0; shift_oob := fun _ _ => 0 |}.

#[export] Instance fuel50 : Fuel := 50%nat.

Definition no_bytes : list byte := replicate 16 x00.

(** Every instruction is an indirect jump at odd addresses and a conditional
    branch at even ones. *)
Definition insn_at (ip : Z) : intel_pt_insn :=
  if Z.even ip then mkInsn INTEL_PT_OP_JCC INTEL_PT_BR_CONDITIONAL false 2 16 no_bytes
  else mkInsn INTEL_PT_OP_JMP INTEL_PT_BR_INDIRECT false 2 0 no_bytes.

#[export] Instance list_trace : Callbacks (list intel_pt_buffer) := {|
  get_trace e :=
    match e with
    | [] => (0, mkBuffer [] 0 false 0 0, [])
    | b :: e' => (0, b, e')
    end;
  walk_insn e ip to_ip n := (mkWalk 0 (insn_at ip) 3 (ip + 4), e);
  pgd_ip := None;
  lookahead X e cb x :=
    fold_left (fun r b => if r.1 =? 0 then cb b r.2 else r) e (0, x);
  findnew_vmcs_info e v := (None, e);
  vmcs_read e h := mkVmcsInfo 0 0 false false;
  vmcs_write e h v := e;
  malloc_ok e := (true, e)
|}.

#[export] Instance list_trace_env : TraceEnv (list intel_pt_buffer).
Proof.
  refine {| env_ok := Forall buffer_ok |}; try done.
  - intros [|b e] He; [done|]. by inversion He.
  - intros [|b e] ret b' e' He [= <- <- <-] _; [by left|right]. by inversion He.
Defined.

Definition example_trace : list byte :=
  INTEL_PT_PSB_STR ++ map zb
    [0x19; 1; 2; 3; 4; 5; 6; 7; 0x99; 1; 0x7d; 0x00; 0x10; 0; 0; 0; 0; 2; 0x23; 0x06; 0x1c;
     0x6d; 0x01; 0x20; 0; 0; 0; 0; 0x6d; 0x30; 0x20; 0; 0; 0; 0].

Definition example_buffer : intel_pt_buffer :=
  mkBuffer example_trace (Z.of_nat (length example_trace)) true 99 0.

Definition example_params : intel_pt_params :=
  mkParams true true false false 0 0 0 INTEL_PT_PERIOD_NONE 0 0 0 0 0 0 0.

Definition example_decoder : intel_pt_decoder :=
  match intel_pt_decoder_new true example_params with
  | Some (Some d) => d
  | _ => zero_decoder
  end.

(** A PSB split between two buffers, the second of which holds nothing but the
    rest of it. *)
Definition split_psb_trace : list intel_pt_buffer :=
  [mkBuffer ([x00; x00; x00] ++ take 10 INTEL_PT_PSB_STR) 13 true 99 0;
   mkBuffer (drop 10 INTEL_PT_PSB_STR) 6 true 99 0].
