(* ===== verification/PtTotal.v ===== *)
(** Termination of loops: reading packets, and the detection of loops in the walks. *)
From Stdlib Require Import ZArith Lia List Bool.
From S2P Require Import Prelude PktDecoder PtStack Float64 PtState PtTime PtReader PtWalk.
Open Scope Z_scope.
Open Scope c_scope.
Import ListNotations.

(** [twp m Q d e]: from decoder [d] and data [e], [m] returns and [Q] holds of
    what it returns. *)
Definition twp {D A} (m : M D A) (Q : A -> intel_pt_decoder -> D -> Prop)
    (d : intel_pt_decoder) (e : D) : Prop :=
  match m d e with
  | Ret (a, d', e') => Q a d' e'
  | Fault | OutOfFuel => False
  end.

Section twp.
Context {D : Type}.
Implicit Types (d : intel_pt_decoder) (e : D).

Lemma twp_elim {A} (m : M D A) Q d e :
  twp m Q d e -> exists a d' e', m d e = Ret (a, d', e') /\ Q a d' e'.
Proof. unfold twp. destruct (m d e) as [[[a d'] e']| |]; [eauto|done|done]. Qed.
Lemma twp_ret {A} (a : A) (Q : A -> _ -> _ -> Prop) d e : Q a d e -> twp (mret a) Q d e.
Proof. done. Qed.
Lemma twp_bind {A B} (m : M D A) (k : A -> M D B) Q d e :
  twp m (fun a d' e' => twp (k a) Q d' e') d e -> twp (m ≫= k) Q d e.
Proof. unfold twp, mbind, M_bind. destruct (m d e) as [[[a d'] e']| |]; done. Qed.
Lemma twp_get (Q : _ -> _ -> _ -> Prop) d e : Q d d e -> twp get Q d e.
Proof. done. Qed.
Lemma twp_gets {A} (f : _ -> A) (Q : A -> _ -> _ -> Prop) d e : Q (f d) d e -> twp (gets f) Q d e.
Proof. done. Qed.
Lemma twp_put d' (Q : unit -> _ -> _ -> Prop) d e : Q tt d' e -> twp (put d') Q d e.
Proof. done. Qed.
Lemma twp_modify f (Q : unit -> _ -> _ -> Prop) d e : Q tt (f d) e -> twp (modify f) Q d e.
Proof. done. Qed.
Lemma twp_lift {A} (o : option A) (Q : A -> _ -> _ -> Prop) d e :
  (exists a, o = Some a /\ Q a d e) -> twp (lift o) Q d e.
Proof. by intros (a & -> & ?). Qed.
Lemma twp_call {A} (f : D -> A * D) (Q : A -> _ -> _ -> Prop) d e :
  Q (f e).1 d (f e).2 -> twp (call f) Q d e.
Proof. unfold twp, call. by destruct (f e). Qed.
Lemma twp_when b (m : M D unit) (Q : unit -> _ -> _ -> Prop) d e :
  (b = true -> twp m Q d e) -> (b = false -> Q tt d e) -> twp (when b m) Q d e.
Proof. destruct b; unfold when; intros; [auto|apply twp_ret; auto]. Qed.
Lemma twp_error_of f (Q : Z -> _ -> _ -> Prop) d e :
  Q (f d).1 (f d).2 e -> twp (error_of f) Q d e.
Proof. done. Qed.
Lemma twp_mono {A} (m : M D A) (P Q : A -> _ -> _ -> Prop) d e :
  twp m P d e -> (forall a d' e', P a d' e' -> Q a d' e') -> twp m Q d e.
Proof. unfold twp. destruct (m d e) as [[[a d'] e']| |]; auto. Qed.

(** A function that is safe returns unless it runs out of fuel. *)
Lemma twp_wp {A} (m : M D A) (Q : A -> _ -> _ -> Prop) d e :
  wp m Q d e -> m d e <> OutOfFuel -> twp m Q d e.
Proof. unfold wp, twp. destruct (m d e) as [[[a d'] e']| |]; done. Qed.
Lemma twp_conj {A} (m : M D A) (P Q : A -> _ -> _ -> Prop) d e :
  wp m P d e -> twp m Q d e -> twp m (fun a d' e' => P a d' e' /\ Q a d' e') d e.
Proof. unfold wp, twp. destruct (m d e) as [[[a d'] e']| |]; done. Qed.
End twp.

(** [twp_step] runs one primitive; [twps] as many as there are. *)
Ltac twp_step :=
  lazymatch goal with
  | |- twp (mbind _ _) _ _ _ => apply twp_bind
  | |- twp (mret _) _ _ _ => apply twp_ret
  | |- twp get _ _ _ => apply twp_get
  | |- twp (gets _) _ _ _ => apply twp_gets
  | |- twp (put _) _ _ _ => apply twp_put
  | |- twp (modify _) _ _ _ => apply twp_modify
  | |- twp (call _) _ _ _ => apply twp_call
  | |- twp (error_of _) _ _ _ => apply twp_error_of
  end; cbv beta.
Ltac twps := cbv beta iota zeta; repeat (twp_step; cbv beta iota zeta).

(** ** Walking instructions *)

Section insn.
Context {D : Type} `{Callbacks D}.
Implicit Types (d : intel_pt_decoder) (e : D).

Lemma push_total ip (Q : Z -> _ -> _ -> Prop) d e :
  stack_wf (d_stack d) ->
  (forall err s e', stack_wf s -> err = 0 \/ err = - ENOMEM ->
     Q err (d <| d_stack := s |>) e') ->
  twp (push ip) Q d e.
Proof.
  intros Hs HQ. unfold push. twps. destruct (malloc_ok e) as [ok e']. cbn [fst snd].
  destruct (stack_push_refines ok (d_stack d) ip Hs) as (err & s & E & Hw & Hr).
  rewrite E. apply twp_lift. eexists; split; [done|]. twps. apply HQ; [done|].
  destruct Hr as [[-> _]|[-> _]]; auto.
Qed.

Lemma pop_total (Q : Z -> _ -> _ -> Prop) d e :
  stack_wf (d_stack d) ->
  (forall ip s, stack_wf s -> Q ip (d <| d_stack := s |>) e) ->
  twp pop Q d e.
Proof.
  intros Hs HQ. unfold pop. twps.
  destruct (stack_pop_refines (d_stack d) Hs) as (s & E & _ & Hw).
  rewrite E. apply twp_lift. eexists; split; [done|]. twps. by apply HQ.
Qed.

Lemma walk_call_ret_total insn (Q : Z -> _ -> _ -> Prop) d e :
  stack_wf (d_stack d) ->
  (forall err d' e', stack_wf (d_stack d') -> err = 0 \/ err = - ENOMEM -> d_ip d' = d_ip d ->
     Q err d' e') ->
  twp (walk_call_ret insn) Q d e.
Proof.
  intros Hs HQ. unfold walk_call_ret. twps. destruct (insn_op insn); twps; auto.
  - destruct (_ || _); [apply push_total; [done|]; intros; by apply HQ|twps; auto].
  - apply pop_total; [done|]. intros. twps. by apply HQ; [|left|].
Qed.

(** The codes of [check_stuck]. *)
Lemma check_stuck_codes cnt d :
  (check_stuck cnt d).1 = INTEL_PT_RETURN \/ (check_stuck cnt d).1 = - ELOOP.
Proof. unfold check_stuck. repeat case_match; cbn; auto. Qed.

Lemma walk_unconditional_codes insn d :
  (walk_unconditional insn d).1 = INTEL_PT_RETURN \/ (walk_unconditional insn d).1 = - ELOOP.
Proof.
  unfold walk_unconditional. cbv zeta.
  match goal with |- context [check_stuck ?c ?d] => pose proof (check_stuck_codes c d) as Hc;
    destruct (check_stuck c d) as [err d'] end. exact Hc.
Qed.

(** What [intel_pt_walk_insn] returns: a code and the instruction it is about. *)
Definition walk_insn_post (ip : Z) (r : Z * intel_pt_insn) (d' : intel_pt_decoder) : Prop :=
  let '(err, insn) := r in
  stack_wf (d_stack d') /\
  (err = INTEL_PT_RETURN /\
     (insn_branch insn = INTEL_PT_BR_NO_BRANCH \/ insn_branch insn = INTEL_PT_BR_UNCONDITIONAL)
   \/ err = 0 /\
     (insn_branch insn = INTEL_PT_BR_INDIRECT \/ insn_branch insn = INTEL_PT_BR_CONDITIONAL)
   \/ err = - EAGAIN /\ ip <> 0 /\ d_ip d' = ip
   \/ err = - ENOLINK \/ err = - EILSEQ \/ err = - ENOMEM \/ err = - ELOOP).

Lemma next_sample_total (Q : Z -> _ -> _ -> Prop) d e :
  (forall n d', d_stack d' = d_stack d -> d_ip d' = d_ip d -> Q n d' e) ->
  twp next_sample Q d e.
Proof.
  intros HQ. unfold twp, next_sample, intel_pt_next_sample, intel_pt_next_period. cbv zeta.
  repeat case_match; simplify_eq; apply HQ; reflexivity.
Qed.

Lemma walk_insn_out_stack insn d : d_stack (walk_insn_out insn d) = d_stack d.
Proof. unfold walk_insn_out, or_flags. cbv zeta. case_match; reflexivity. Qed.

Lemma walk_insn_out_ip insn d : d_ip (walk_insn_out insn d) = d_ip d.
Proof. unfold walk_insn_out, or_flags. cbv zeta. case_match; reflexivity. Qed.

Lemma sample_insn_stack d : d_stack (intel_pt_sample_insn d) = d_stack d.
Proof. unfold intel_pt_sample_insn, or_type. cbv zeta. repeat case_match; reflexivity. Qed.

Lemma check_stuck_stack cnt d : d_stack (check_stuck cnt d).2 = d_stack d.
Proof. unfold check_stuck. cbv zeta. repeat case_match; reflexivity. Qed.

Lemma walk_unconditional_stack insn d : d_stack (walk_unconditional insn d).2 = d_stack d.
Proof.
  unfold walk_unconditional. cbv zeta.
  match goal with |- context [check_stuck ?c ?d] => pose proof (check_stuck_stack c d) as Hc;
    destruct (check_stuck c d) as [err d'] end. cbn [fst snd] in *.
  rewrite walk_insn_out_stack. case_match; rsimpl; exact Hc.
Qed.

Lemma walk_insn_total ip d e :
  stack_wf (d_stack d) ->
  twp (intel_pt_walk_insn ip) (fun r d' _ => walk_insn_post ip r d') d e.
Proof.
  intros Hs. unfold intel_pt_walk_insn. twps. apply next_sample_total. intros n d1 Es Ei.
  unfold call_walk_insn. twps. destruct (walk_insn e (d_ip d1) ip n) as [w e1]. cbn [fst snd].
  rewrite <- Es in Hs. clear d Es Ei.
  destruct (negb (w_err w =? 0)); twps.
  { split; [exact Hs|]. case_match; auto 10. }
  destruct (negb (ip =? 0) && _) eqn:Eip.
  { unfold walk_insn_finish. twps. split; [by rewrite walk_insn_out_stack|].
    rewrite walk_insn_out_ip. apply andb_true_iff in Eip as [E1 E2].
    rewrite negb_true_iff, Z.eqb_neq in E1. apply Z.eqb_eq in E2. do 2 right; left. split; [reflexivity|]. split; [exact E1|]. rsimpl. exact E2. }
  apply twp_bind, twp_when; intros _; twps.
  all: match goal with |- twp _ _ ?d _ => assert (stack_wf (d_stack d)) as Hs' end;
    [rewrite ?sample_insn_stack; exact Hs|].
  all: match goal with |- twp _ _ ?d _ => clear -Hs'; revert Hs'; generalize d end; intros d' Hs.
  all: destruct (insn_branch (w_insn w)) eqn:Eb; twps;
    [unfold walk_insn_finish; twps; split; [by rewrite walk_insn_out_stack|auto]|..].
  all: apply walk_call_ret_total; [done|]; intros err d2 e2 Hs2 He _;
    destruct (negb (err =? 0)) eqn:Ez;
    [unfold walk_insn_finish; twps; split; [by rewrite walk_insn_out_stack|];
     destruct He as [->| ->]; [done|auto 10]|].
  all: case_bool_decide; try done; unfold walk_insn_finish; twps.
  all: try (split; [by rewrite walk_insn_out_stack|rewrite Eb; auto 10]; fail).
  all: split; [by rewrite walk_unconditional_stack|];
    destruct (walk_unconditional_codes (w_insn w) d2) as [->| ->]; auto 10.
Qed.
End insn.

(** Never-ending loops: the check [intel_pt_walk_insn] makes after every
    unconditional branch, as a cycle-finding algorithm on branch targets. *)
(** A run of unconditional branches, each given with the address it is met at:
    between two of them the walk moves on to the next branch. *)
Definition branch : Type := Z * intel_pt_insn.

Definition target (b : branch) : Z := u64 (b.1 + s32 (insn_length b.2 + insn_rel b.2)).

Definition branch_step (d : intel_pt_decoder) (b : branch) : Z * intel_pt_decoder :=
  walk_unconditional b.2 (d <| d_ip := b.1 |>).

(** The place of the first branch reported as a never-ending loop. *)
Fixpoint first_loop (bs : list branch) (d : intel_pt_decoder) : option nat :=
  match bs with
  | [] => None
  | b :: bs' =>
    let '(err, d) := branch_step d b in
    if err =? - ELOOP then Some O else S <$> first_loop bs' d
  end.

(** ** The state of the check *)

(** The fields it uses: the branches so far, the address compared with, its
    period and the branches left before it is replaced. *)
Definition stuck (d : intel_pt_decoder) :=
  (d_no_progress d, d_stuck_ip d, d_stuck_ip_prd d, d_stuck_ip_cnt d, d_max_loops d).

(** One branch with target [t]: [None] is a loop reported. *)
Definition stuck_step (s : Z * Z * Z * Z * Z) (t : Z) : option (Z * Z * Z * Z * Z) :=
  let '(cnt, ip, prd, rem, max) := s in
  let cnt' := s32 (cnt + 1) in
  if cnt =? 0 then Some (cnt', ip, prd, rem, max)
  else if cnt =? 1 then Some (cnt', t, 1, 1, max)
  else if (max <? cnt) || (t =? ip) then None
  else
    let rem := s32 (rem - 1) in
    if rem =? 0 then Some (cnt', t, s32 (prd + 1), s32 (prd + 1), max)
    else Some (cnt', ip, prd, rem, max).

Lemma walk_insn_out_stuck insn d : stuck (walk_insn_out insn d) = stuck d.
Proof. unfold walk_insn_out, or_flags. cbv zeta. case_match; reflexivity. Qed.

Lemma branch_step_stuck d b :
  match stuck_step (stuck d) (target b) with
  | Some s => (branch_step d b).1 = INTEL_PT_RETURN /\ stuck (branch_step d b).2 = s
  | None => (branch_step d b).1 = - ELOOP
  end.
Proof.
  unfold branch_step, walk_unconditional, stuck, stuck_step. cbv zeta. rsimpl.
  fold (target b).
  set (d1 := d <| d_ip := b.1 |> <| d_no_progress := s32 (d_no_progress d + 1) |>
    <| st st_from_ip := b.1 |> <| d_ip := target b |> <| st st_to_ip := target b |>).
  assert (st_to_ip (d_state d1) = target b) as Et by reflexivity.
  assert (d_no_progress d1 = s32 (d_no_progress d + 1)) as E1 by reflexivity.
  assert (d_stuck_ip d1 = d_stuck_ip d) as E2 by reflexivity.
  assert (d_stuck_ip_prd d1 = d_stuck_ip_prd d) as E3 by reflexivity.
  assert (d_stuck_ip_cnt d1 = d_stuck_ip_cnt d) as E4 by reflexivity.
  assert (d_max_loops d1 = d_max_loops d) as E5 by reflexivity.
  unfold check_stuck. cbv zeta. rewrite Et.
  clearbody d1. rsimpl. rewrite ?E2, ?E3, ?E4, ?E5.
  repeat match goal with
  | |- context [if ?x =? ?y then _ else _] => destruct (x =? y) eqn:?
  | |- context [if ?b then _ else _] => destruct b eqn:?
  | _ => progress (rsimpl; rewrite ?E2, ?E3, ?E4, ?E5)
  | _ => progress cbn [fst snd]
  end; try reflexivity; try discriminate.
  all: split; [reflexivity|]; etransitivity; [apply walk_insn_out_stuck|];
    unfold stuck; rsimpl; rewrite ?E1, ?E2, ?E3, ?E4, ?E5; reflexivity.
Qed.

(** ** The check on a sequence of targets *)

Fixpoint loop_at (ts : list Z) (s : Z * Z * Z * Z * Z) : option nat :=
  match ts with
  | [] => None
  | t :: ts' =>
    match stuck_step s t with
    | None => Some O
    | Some s' => S <$> loop_at ts' s'
    end
  end.

Lemma first_loop_targets bs d : first_loop bs d = loop_at (map target bs) (stuck d).
Proof.
  revert d. induction bs as [|b bs IH]; intros d; [done|]. cbn [first_loop map loop_at].
  pose proof (branch_step_stuck d b) as Hb. destruct (branch_step d b) as [err d'].
  cbn [fst snd] in Hb. destruct (stuck_step (stuck d) (target b)) as [s|].
  - destruct Hb as [-> <-]. change (INTEL_PT_RETURN =? - ELOOP) with false. cbv match.
    by rewrite IH.
  - rewrite Hb. done.
Qed.

Section targets.
Context (ts : list Z) (max : Z) (Hmax : 0 <= max < 2 ^ 31 - 2).

(** The state before target [n]: since target [start] the check has compared
    [prd - rem] targets with it, and it takes [prd] before it moves on. *)
Definition stuck_inv (n : nat) (s : Z * Z * Z * Z * Z) : Prop :=
  let '(cnt, ip, prd, rem, m) := s in
  cnt = Z.of_nat n /\ m = max /\
  ((2 <= n)%nat ->
   exists start : nat, ts !! start = Some ip /\ (start < n)%nat /\
     1 <= rem <= prd /\ Z.of_nat n = Z.of_nat start + (prd - rem) + 1 /\
     2 * Z.of_nat start = 2 + prd * (prd - 1)).

Lemma stuck_inv_step n s t :
  stuck_inv n s -> ts !! n = Some t -> (n < 2)%nat \/ Z.of_nat n <= max ->
  match stuck_step s t with
  | Some s' => stuck_inv (S n) s'
  | None => exists j, (j < n)%nat /\ ts !! j = Some t
  end.
Proof.
  destruct s as [[[[cnt ip] prd] rem] m]. intros (-> & -> & Hs) Ht Hn. unfold stuck_step.
  rewrite (s32_small (Z.of_nat n + 1)) by lia.
  destruct (Z.eqb_spec (Z.of_nat n) 0).
  { split; [lia|]. split; [done|]. lia. }
  destruct (Z.eqb_spec (Z.of_nat n) 1).
  { split; [lia|]. split; [done|]. exists n. repeat split; done || lia. }
  destruct Hs as (start & Hip & Hlt & Hr & En & Es); [lia|].
  destruct (Z.ltb_spec max (Z.of_nat n)); [lia|]. cbn [orb].
  destruct (Z.eqb_spec t ip) as [->|]; [by exists start|].
  assert (prd <= Z.of_nat n) by nia.
  rewrite (s32_small (rem - 1)), (s32_small (prd + 1)) by lia.
  destruct (Z.eqb_spec (rem - 1) 0).
  - split; [lia|]. split; [done|]. intros _. exists n.
    split; [done|]. split; [lia|]. split; [lia|]. split; [lia|nia].
  - split; [lia|]. split; [done|]. intros _. exists start. repeat split; done || lia.
Qed.

(** A report is of a repeated target, or of too many branches. *)
Lemma loop_at_sound k : forall n s i,
  (k = length ts - n)%nat -> stuck_inv n s -> loop_at (drop n ts) s = Some i ->
  max < Z.of_nat (n + i) \/
  exists j t, (j < n + i)%nat /\ ts !! j = Some t /\ ts !! (n + i)%nat = Some t.
Proof.
  induction k as [|k IH]; intros n s i Hk Hs E.
  { rewrite drop_ge in E by lia. done. }
  destruct (lookup_lt_is_Some_2 ts n) as [t Ht]; [lia|].
  rewrite (drop_S _ _ _ Ht) in E. cbn [loop_at] in E.
  destruct (decide ((n < 2)%nat \/ Z.of_nat n <= max)) as [Hn|Hn]; [|left; lia].
  pose proof (stuck_inv_step n s t Hs Ht Hn) as Hstep.
  destruct (stuck_step s t) as [s'|].
  - destruct (loop_at (drop (S n) ts) s') as [i'|] eqn:E'; [|done]. injection E as <-.
    replace (n + S i')%nat with (S n + i')%nat by lia. apply (IH _ s'); [lia|done|done].
  - injection E as <-. rewrite Nat.add_0_r. right. destruct Hstep as (j & Hj & Htj).
    by exists j, t.
Qed.

(** A place where the check cannot fail to report bounds the report. *)
Lemma loop_at_found k : forall n s (N : nat),
  (k = N - n)%nat -> (n <= N < length ts)%nat -> Z.of_nat N <= Z.max 2 (max + 1) ->
  stuck_inv n s ->
  (forall s' t, stuck_inv N s' -> ts !! N = Some t -> stuck_step s' t = None) ->
  exists i, loop_at (drop n ts) s = Some i /\ (n + i <= N)%nat.
Proof.
  induction k as [|k IH]; intros n s N Hk Hn HN Hs Hfire.
  all: destruct (lookup_lt_is_Some_2 ts n) as [t Ht]; [lia|];
    rewrite (drop_S _ _ _ Ht); cbn [loop_at].
  - assert (n = N) as -> by lia. rewrite (Hfire s t Hs Ht). exists O. split; [done|lia].
  - pose proof (stuck_inv_step n s t Hs Ht ltac:(lia)) as Hstep.
    destruct (stuck_step s t) as [s'|]; [|exists O; split; [done|lia]].
    destruct (IH (S n) s' N) as (i & -> & Hi); [lia|lia|done|done|done|].
    exists (S i). split; [done|lia].
Qed.

(** After [max] branches the check reports. *)
Lemma loop_at_max s (N : nat) :
  stuck_inv 0 s -> Z.of_nat N = Z.max 2 (max + 1) -> (N < length ts)%nat ->
  exists i, loop_at ts s = Some i /\ (i <= N)%nat.
Proof.
  intros Hs HN Hl. apply (loop_at_found N 0 s N); [lia|lia|lia|done|].
  intros [[[[cnt ip] prd] rem] m] t (-> & -> & _) _. unfold stuck_step.
  destruct (Z.eqb_spec (Z.of_nat N) 0); [lia|]. destruct (Z.eqb_spec (Z.of_nat N) 1); [lia|].
  destruct (Z.ltb_spec max (Z.of_nat N)); [done|lia].
Qed.

(** A cycle of period [p] is reported while the check compares with the target
    [p] places back. *)
Lemma loop_at_period s (p N : nat) :
  stuck_inv 0 s -> (1 <= p)%nat -> (2 * N = 2 + p * (p + 1))%nat -> (N < length ts)%nat ->
  ts !! N = ts !! (N - p)%nat ->
  exists i, loop_at ts s = Some i /\ (i <= N)%nat.
Proof.
  intros Hs Hp HN Hl Hper.
  destruct (decide (Z.of_nat N <= Z.max 2 (max + 1))) as [Hle|Hgt].
  2: { destruct (loop_at_max s (Z.to_nat (Z.max 2 (max + 1)))) as (i & Hi & ?); [done|lia|lia|].
       exists i. split; [done|lia]. }
  apply (loop_at_found N 0 s N); [lia|lia|lia|done|].
  intros [[[[cnt ip] prd] rem] m] t (-> & -> & Hinv) Ht. unfold stuck_step.
  assert (2 <= N)%nat by nia. destruct (Hinv ltac:(lia)) as (start & Hip & Hlt & Hr & En & Es).
  assert (prd = Z.of_nat p /\ rem = 1) as [-> ->].
  { assert (2 * Z.of_nat N = 2 + Z.of_nat p * (Z.of_nat p + 1)) by lia.
    destruct (Z.lt_trichotomy prd (Z.of_nat p)) as [Hlp|[->|Hgp]]; [exfalso; nia| |exfalso; nia].
    split; [done|]. nia. }
  destruct (Z.eqb_spec (Z.of_nat N) 0); [lia|]. destruct (Z.eqb_spec (Z.of_nat N) 1); [lia|].
  assert (start = N - p)%nat as -> by lia. rewrite <- Hper, Ht in Hip. injection Hip as ->.
  rewrite Z.eqb_refl, orb_true_r. done.
Qed.
End targets.
