(* ===== verification/PtTnt.v ===== *)
(** Outcomes of branches: the payloads of emulated PTWRITE, and TNT packets. *)
From Stdlib Require Import ZArith Lia List Bool.
From S2P Require Import Prelude PktDecoder PktBounds PktStream PtStack Float64 PtState PtTime PtReader.
From S2P Require Import PktStream PtWalk PtTotal.
Open Scope Z_scope.
Open Scope c_scope.
Import ListNotations.

(** The value of a list of bits, the most significant first. *)
Definition bits_val (l : list bool) : Z := fold_left (fun a b => 2 * a + Z.b2z b) l 0.

(** The outcomes of a TNT packet, oldest first: its [count] top bits. *)
Definition tnt_bits (p : intel_pt_pkt) : list bool :=
  map (fun i => Z.testbit (pkt_payload p) (63 - i)) (seqZ 0 (pkt_count p)).

(** What a packet ahead does to the gathering of a payload. *)
Inductive eptw_effect := Bits (bs : list bool) | Ignored | Ends.

Definition eptw_effect_of (p : intel_pt_pkt) : eptw_effect :=
  match pkt_type p with
  | INTEL_PT_TNT => Bits (tnt_bits p)
  | INTEL_PT_TIP_PGE | INTEL_PT_TIP_PGD | INTEL_PT_TIP | INTEL_PT_BAD | INTEL_PT_OVF
  | INTEL_PT_TRACESTOP => Ends
  | _ => Ignored
  end.

(** The next [need] outcomes of the packets [ps]. *)
Fixpoint gather (need : nat) (ps : list intel_pt_pkt) : option (list bool) :=
  match need with
  | O => Some []
  | _ =>
    match ps with
    | [] => None
    | p :: ps' =>
      match eptw_effect_of p with
      | Bits bs => app (take need bs) <$> gather (need - length bs) ps'
      | Ignored => gather need ps'
      | Ends => None
      end
    end
  end.

Lemma gather_0 ps : gather 0 ps = Some [].
Proof. by destruct ps. Qed.

Lemma fold_bits_app l a : fold_left (fun a b => 2 * a + Z.b2z b) l a = a * 2 ^ Z.of_nat (length l) + bits_val l.
Proof.
  unfold bits_val. revert a. induction l as [|b l IH]; intros a; [cbn; lia|].
  cbn [fold_left length]. rewrite IH, (IH (2 * 0 + _)).
  rewrite Nat2Z.inj_succ, Z.pow_succ_r by lia. lia.
Qed.

Lemma bits_val_app l m : bits_val (l ++ m) = bits_val l * 2 ^ Z.of_nat (length m) + bits_val m.
Proof. unfold bits_val at 1. rewrite fold_left_app. apply fold_bits_app. Qed.

Lemma bits_val_one b : bits_val [b] = Z.b2z b.
Proof. by destruct b. Qed.

Lemma bits_val_range l : 0 <= bits_val l < 2 ^ Z.of_nat (length l).
Proof.
  induction l as [|b l IH] using rev_ind; [cbn; lia|].
  rewrite bits_val_app, length_app. cbn [length].
  change (2 ^ Z.of_nat 1) with 2. rewrite Nat2Z.inj_add, Z.pow_add_r by lia.
  change (2 ^ Z.of_nat 1) with 2. rewrite bits_val_one. destruct b; cbn [Z.b2z]; lia.
Qed.

(** The top bits of a 64-bit word, as a list and as a shift. *)
Lemma top_bits v n :
  0 <= v < 2 ^ 64 -> (n <= 64)%nat ->
  bits_val (map (fun i => Z.testbit v (63 - i)) (seqZ 0 (Z.of_nat n))) = v .>> (64 - Z.of_nat n).
Proof.
  intros Hv. induction n as [|n IH]; intros Hn.
  - cbn [Z.of_nat]. change (seqZ 0 0) with (@nil Z). cbn [map]. rewrite Z.sub_0_r.
    rewrite Z.shiftr_div_pow2, Z.div_small by lia. done.
  - rewrite Nat2Z.inj_succ, <- Z.add_1_r, seqZ_app by lia. rewrite Z.add_0_l.
    assert (seqZ (0 + Z.of_nat n) 1 = [Z.of_nat n]) as E by (rewrite seqZ_cons by lia; f_equal; lia).
    rewrite Z.add_0_l in E. rewrite E.
    rewrite map_app, bits_val_app. cbn [map length]. rewrite IH by lia.
    change (2 ^ Z.of_nat 1) with 2.
    rewrite bits_val_one, !Z.shiftr_div_pow2, Z.testbit_spec' by lia.
    replace (64 - Z.of_nat n) with (Z.succ (64 - (Z.of_nat n + 1))) by lia.
    rewrite Z.pow_succ_r, (Z.mul_comm 2), <- Z.div_div by lia.
    replace (63 - Z.of_nat n) with (64 - (Z.of_nat n + 1)) by lia.
    pose proof (Z.div_mod (v / 2 ^ (64 - (Z.of_nat n + 1))) 2 ltac:(lia)). lia.
Qed.

Lemma length_tnt_bits p : 0 <= pkt_count p -> length (tnt_bits p) = Z.to_nat (pkt_count p).
Proof. intros. unfold tnt_bits. rewrite length_map, length_seqZ. done. Qed.

Lemma tnt_bits_val p n :
  0 <= pkt_payload p < 2 ^ 64 -> 0 <= n <= pkt_count p -> pkt_count p <= 64 ->
  bits_val (take (Z.to_nat n) (tnt_bits p)) = pkt_payload p .>> (64 - n).
Proof.
  intros Hv Hn Hc. unfold tnt_bits. rewrite firstn_map.
  assert (take (Z.to_nat n) (seqZ 0 (pkt_count p)) = seqZ 0 n) as ->.
  { replace (pkt_count p) with (n + (pkt_count p - n)) by lia. rewrite seqZ_app by lia.
    rewrite take_app_le by (rewrite length_seqZ; lia). rewrite take_ge; [done|].
    rewrite length_seqZ. lia. }
  rewrite <- (Z2Nat.id n) by lia. rewrite top_bits by lia. f_equal.
Qed.

Section eptw.
Context `{Platform}.

(** The callback on a packet alone. *)
Definition eptw_packet (p : intel_pt_pkt) : intel_pt_decoder -> eptw_data -> Z * intel_pt_decoder * eptw_data :=
  intel_pt_eptw_lookahead_cb (mkPktInfo p 0 0 INTEL_PT_BAD).

(** One TNT packet, after the bits [l]. *)
Lemma eptw_tnt p l d :
  pkt_type p = INTEL_PT_TNT -> 1 <= pkt_count p <= 47 -> 0 <= pkt_payload p < 2 ^ 64 ->
  (length l < 64)%nat ->
  let need := (64 - length l)%nat in
  let l' := l ++ take need (tnt_bits p) in
  eptw_packet p d (mkEptw (Z.of_nat need) (bits_val l)) =
    (if (length l' =? 64)%nat then 1 else 0, d, mkEptw (Z.of_nat (64 - length l')) (bits_val l')).
Proof.
  intros Ht Hc Hv Hl need l'. unfold eptw_packet, intel_pt_eptw_lookahead_cb. cbn [pi_packet].
  rewrite Ht. cbn [bit_countdown eptw_payload].
  set (nr := if pkt_count p <? Z.of_nat need then pkt_count p else Z.of_nat need).
  assert (1 <= nr <= 47 /\ nr <= pkt_count p /\ nr <= Z.of_nat need) as Hnr
    by (unfold nr, need; destruct (Z.ltb_spec (pkt_count p) (Z.of_nat (64 - length l))); lia).
  assert (take need (tnt_bits p) = take (Z.to_nat nr) (tnt_bits p)) as Etake.
  { unfold nr. destruct (Z.ltb_spec (pkt_count p) (Z.of_nat need)).
    - rewrite !take_ge; [done|rewrite length_tnt_bits; lia|rewrite length_tnt_bits; lia].
    - by rewrite Nat2Z.id. }
  assert (length (take (Z.to_nat nr) (tnt_bits p)) = Z.to_nat nr) as Elen
    by (rewrite length_take, length_tnt_bits; lia).
  assert (length l' = (length l + Z.to_nat nr)%nat) as El' by (unfold l'; rewrite length_app, Etake; lia).
  assert (shl64 (bits_val l) nr .| shr64 (pkt_payload p) (64 - nr) = bits_val l') as ->.
  { unfold l'. rewrite Etake, bits_val_app, Elen, Z2Nat.id, tnt_bits_val by lia.
    pose proof (bits_val_range l) as Rl. unfold shl64, shr64.
    destruct (Z.leb_spec 0 nr), (Z.ltb_spec nr 64); try lia.
    destruct (Z.leb_spec 0 (64 - nr)), (Z.ltb_spec (64 - nr) 64); try lia. cbn [andb].
    pose proof (shiftr_range 64 (64 - nr) (pkt_payload p) ltac:(lia) Hv) as R.
    replace (64 - (64 - nr)) with nr in R by lia.
    assert (2 ^ Z.of_nat (length l) * 2 ^ nr <= 2 ^ 64)
      by (rewrite <- Z.pow_add_r by lia; apply Z.pow_le_mono_r; lia).
    rewrite u64_small by (rewrite Z.shiftl_mul_pow2 by lia; nia).
    rewrite lor_shiftl_add' by done. lia. }
  rewrite El'. replace (Z.of_nat need - nr) with (Z.of_nat (64 - (length l + Z.to_nat nr))) by lia.
  destruct (Nat.eqb_spec (length l + Z.to_nat nr) 64), (Z.eqb_spec (Z.of_nat (64 - (length l + Z.to_nat nr))) 0);
    done || lia.
Qed.

Lemma eptw_other p x d :
  match eptw_effect_of p with
  | Bits _ => True
  | Ignored => eptw_packet p d x = (0, d, x)
  | Ends => eptw_packet p d x = (1, d, x)
  end.
Proof.
  unfold eptw_effect_of, eptw_packet, intel_pt_eptw_lookahead_cb. cbn [pi_packet].
  destruct (pkt_type p); done.
Qed.

(** TNT packets that bring at least one outcome. *)
Definition tnt_ok (p : intel_pt_pkt) : Prop :=
  pkt_type p = INTEL_PT_TNT -> 1 <= pkt_count p <= 47 /\ 0 <= pkt_payload p < 2 ^ 64.

(** The whole lookahead, after the bits [l]. *)
Lemma eptw_feed ps : forall l d,
  Forall tnt_ok ps -> (length l < 64)%nat ->
  exists ret x, feed eptw_packet ps d (mkEptw (Z.of_nat (64 - length l)) (bits_val l)) = (ret, d, x) /\
    match gather (64 - length l) ps with
    | Some bs => x = mkEptw 0 (bits_val (l ++ bs))
    | None => bit_countdown x <> 0
    end.
Proof.
  induction ps as [|p ps IH]; intros l d Hok Hl.
  - do 2 eexists. split; [done|]. destruct (64 - length l)%nat eqn:E; [lia|].
    cbn [gather bit_countdown]. lia.
  - inversion_clear Hok as [|? ? Hp Hps]. cbn [feed].
    assert (gather (64 - length l) (p :: ps) =
      match eptw_effect_of p with
      | Bits bs => app (take (64 - length l) bs) <$> gather (64 - length l - length bs) ps
      | Ignored => gather (64 - length l) ps
      | Ends => None
      end) as -> by (destruct (64 - length l)%nat eqn:E; [lia|done]).
    pose proof (fun x => eptw_other p x d) as Ho. unfold not_pad.
    case_bool_decide as Hpad.
    2: { unfold eptw_effect_of. rewrite Hpad. by apply IH. }
    destruct (eptw_effect_of p) as [bs| |] eqn:Ee.
    + assert (pkt_type p = INTEL_PT_TNT /\ bs = tnt_bits p) as [Ht ->]
        by (revert Ee; unfold eptw_effect_of; destruct (pkt_type p); try done; by intros [= <-]).
      destruct (Hp Ht) as [Hc Hv]. rewrite eptw_tnt by done.
      set (l' := l ++ take (64 - length l) (tnt_bits p)).
      assert (length l' = length l + (64 - length l) `min` length (tnt_bits p))%nat as El'
        by (unfold l'; rewrite length_app, length_take; lia).
      replace (64 - length l - length (tnt_bits p))%nat with (64 - length l')%nat by lia.
      destruct (Nat.eqb_spec (length l') 64) as [E64|E64]; cbn [Z.eqb].
      * do 2 eexists. split; [done|]. rewrite E64, Nat.sub_diag, gather_0. cbn [fmap option_fmap option_map].
        by rewrite app_nil_r.
      * destruct (IH l' d Hps ltac:(lia)) as (ret & x & E & Hx). exists ret, x. split; [done|].
        destruct (gather (64 - length l') ps) as [bs|]; cbn [fmap option_fmap option_map]; [|done].
        by rewrite app_assoc.
    + rewrite Ho. cbn [Z.eqb]. by apply IH.
    + rewrite Ho. cbn [Z.eqb]. do 2 eexists. split; [done|]. cbn [bit_countdown]. lia.
Qed.
End eptw.

(** TNT packets against the control flow: walking a program whose branches are
    all conditional, compared with following the outcomes one by one. *)
(** ** The outcomes left *)

Lemma testbit_63 v : 0 <= v < 2 ^ 64 -> negb (v .& BIT63 =? 0) = Z.testbit v 63.
Proof.
  intros Hv. change BIT63 with (1 .<< 63).
  assert (v .& (1 .<< 63) = Z.b2z (Z.testbit v 63) .<< 63) as ->.
  { apply Z.bits_inj'. intros i Hi. rewrite Z.land_spec.
    destruct (Z.lt_ge_cases i 63); [rewrite !Z.shiftl_spec_low by done; apply andb_false_r|].
    rewrite !Z.shiftl_spec by lia. destruct (Z.eq_dec i 63) as [->|].
    - rewrite Z.sub_diag. by destruct (Z.testbit v 63).
    - rewrite (testbit_high 64 v) by lia. symmetry. apply Z.bits_above_log2.
      + destruct (Z.testbit v 63); cbn; lia.
      + destruct (Z.testbit v 63); cbn; lia. }
  by destruct (Z.testbit v 63).
Qed.

Lemma tnt_bits_cons p :
  1 <= pkt_count p <= 64 -> 0 <= pkt_payload p < 2 ^ 64 ->
  tnt_bits p = negb (pkt_payload p .& BIT63 =? 0)
    :: tnt_bits (mkPkt (pkt_type p) (pkt_count p - 1) (u64 (pkt_payload p .<< 1))).
Proof.
  intros Hc Hv. rewrite testbit_63 by done. unfold tnt_bits. cbn [pkt_count pkt_payload].
  rewrite (seqZ_cons 0) by lia. cbn [map]. f_equal.
  replace (pkt_count p - 1) with (Z.pred (pkt_count p)) by lia.
  rewrite <- (fmap_add_seqZ 1 0), map_map. apply map_ext_in. intros i Hi.
  apply list_elem_of_In, elem_of_seqZ in Hi. unfold wrap.
  rewrite Z.land_spec, Z.ones_spec_low, Z.shiftl_spec, andb_true_r by lia. f_equal. lia.
Qed.

(** ** Following the outcomes *)

Section program.
Context (at_ip : Z -> Z) (insn : Z -> intel_pt_insn).

(** Where the walk goes from [ip] with the outcomes [bits]: to the first branch
    taken, or past all of them. *)
Inductive tnt_end := Taken (from to : Z) | UsedUp.

Fixpoint follow (ip : Z) (bits : list bool) : tnt_end * Z * list bool :=
  match bits with
  | [] => (UsedUp, ip, [])
  | b :: bits' =>
    let from := at_ip ip in
    if (b : bool) then
      let to := u64 (from + s32 (insn_length (insn ip) + insn_rel (insn ip))) in
      (Taken from to, to, bits')
    else follow (u64 (from + insn_length (insn ip))) bits'
  end.

Context {D : Type} `{Callbacks D} (cnt : Z -> Z).

(** From [ip] the next branch is the conditional one at [at_ip ip]. *)
Definition conditional_program : Prop :=
  (forall e ip n, walk_insn e ip 0 n = (mkWalk 0 (insn ip) (cnt ip) (at_ip ip), e)) /\
  forall ip, insn_branch (insn ip) = INTEL_PT_BR_CONDITIONAL /\
    insn_op (insn ip) <> INTEL_PT_OP_CALL /\ insn_op (insn ip) <> INTEL_PT_OP_RET.

(** Ready to walk from [ip] with the outcomes [bits]. *)
Record walking (ip : Z) (bits : list bool) (d : intel_pt_decoder) : Prop := {
  wk_ip : d_ip d = ip;
  wk_bits : tnt_bits (d_tnt d) = bits;
  wk_count : 0 <= pkt_count (d_tnt d) <= 64;
  wk_payload : 0 <= pkt_payload (d_tnt d) < 2 ^ 64;
  wk_eptw : d_emulated_ptwrite d = false;
  wk_period : d_period_type d = INTEL_PT_PERIOD_NONE;
  wk_type : st_type (d_state d) .& INTEL_PT_INSTRUCTION = 0
}.

Lemma walk_insn_out_fields i d :
  d_ip (walk_insn_out i d) = d_ip d /\ d_tnt (walk_insn_out i d) = d_tnt d /\
  d_emulated_ptwrite (walk_insn_out i d) = d_emulated_ptwrite d /\
  d_period_type (walk_insn_out i d) = d_period_type d /\
  st_type (d_state (walk_insn_out i d)) = st_type (d_state d).
Proof. unfold walk_insn_out, or_flags. cbv zeta. case_match; repeat split. Qed.

Lemma walk_insn_conditional ip bits d e :
  conditional_program -> walking ip bits d ->
  exists d', intel_pt_walk_insn 0 d e = Ret ((0, insn ip), d', e) /\ walking (at_ip ip) bits d'.
Proof.
  intros [Hw Hb] Hd. destruct (Hb ip) as (Hbr & Hcall & Hret).
  unfold intel_pt_walk_insn, mbind, M_bind. unfold next_sample at 1, intel_pt_next_sample.
  set (d1 := if d_mtc_insn d then d else d <| d_mtc_insn := true |>).
  assert (walking ip bits d1) as [E1 E2 E3 E4 E5 E6 E7]
    by (unfold d1; destruct (d_mtc_insn d); [done|]; destruct Hd; split; done).
  rewrite E6. cbv beta iota zeta. unfold call_walk_insn, mbind, M_bind, get, call, modify, mret, M_ret.
  rewrite E1, Hw. cbn [w_err w_insn w_insn_cnt w_ip Z.eqb negb andb when].
  unfold when, mret, M_ret. cbv beta iota. rewrite Hbr. cbv beta iota.
  unfold walk_call_ret, mbind, M_bind, get, mret, M_ret. cbv beta iota.
  destruct (insn_op (insn ip)) eqn:Eo; try done; cbn [Z.eqb negb];
    rewrite bool_decide_eq_false_2 by done;
    unfold walk_insn_finish, mbind, M_bind, modify, mret, M_ret; eexists; (split; [reflexivity|]);
    pose proof (walk_insn_out_fields (insn ip)
      ((add_insn_cnt (cnt ip) (d1 <| d_ip := at_ip ip |>)) <| d_no_progress := 0 |>))
      as (F1 & F2 & F3 & F4 & F5);
    (split; [rewrite F1|rewrite F2|rewrite F2|rewrite F2|rewrite F3|rewrite F4|rewrite F5]; done).
Qed.

(** One conditional branch: the next outcome decides. *)
Lemma tnt_conditional_follow ip b bits d :
  walking (at_ip ip) (b :: bits) d ->
  let '(r, d') := tnt_conditional (insn ip) d in
  pkt_count (d_tnt d') = Z.of_nat (length bits) /\
  d_pkt_state d' = (match bits with [] => INTEL_PT_STATE_IN_SYNC | _ => INTEL_PT_STATE_TNT_CONT end) /\
  if b then
    let to := u64 (at_ip ip + s32 (insn_length (insn ip) + insn_rel (insn ip))) in
    r = Some 0 /\ d_ip d' = to /\ tnt_bits (d_tnt d') = bits /\
    st_from_ip (d_state d') = at_ip ip /\ st_to_ip (d_state d') = to
  else
    let ip' := u64 (at_ip ip + insn_length (insn ip)) in
    match bits with
    | [] => r = Some (- EAGAIN) /\ d_ip d' = ip' /\ tnt_bits (d_tnt d') = []
    | _ => r = None /\ walking ip' bits d'
    end.
Proof.
  intros [E1 E2 E3 E4 E5 E6 E7].
  assert (pkt_count (d_tnt d) = Z.of_nat (S (length bits))) as Ec.
  { pose proof (f_equal length E2) as L. rewrite length_tnt_bits in L by lia. cbn [length] in L. lia. }
  rewrite tnt_bits_cons in E2 by lia. injection E2 as Eb Er.
  assert (pkt_count (d_tnt d) - 1 = Z.of_nat (length bits)) as Ec' by lia.
  unfold tnt_conditional. cbv zeta.
  set (d1 := dec_tnt d).
  assert (d_ip d1 = d_ip d /\ d_state d1 = d_state d /\ d_emulated_ptwrite d1 = d_emulated_ptwrite d /\
    d_period_type d1 = d_period_type d /\
    d_tnt d1 = mkPkt (pkt_type (d_tnt d)) (Z.of_nat (length bits)) (pkt_payload (d_tnt d)) /\
    d_pkt_state d1 = match bits with [] => INTEL_PT_STATE_IN_SYNC | _ => INTEL_PT_STATE_TNT_CONT end)
    as (D1 & D2 & D3 & D4 & D5 & D6).
  { unfold d1, dec_tnt. cbv zeta. rsimpl. rewrite Ec'.
    destruct bits as [|b' bits']; cbn [length Z.of_nat Z.eqb negb];
      (repeat split; try (rsimpl; reflexivity)); rsimpl;
      (transitivity (mkPkt (pkt_type (d_tnt d)) (pkt_count (d_tnt d) - 1) (pkt_payload (d_tnt d)));
         [reflexivity|by rewrite Ec']). }
  clearbody d1. rewrite D5. cbn [pkt_payload pkt_count]. rewrite Eb.
  rewrite Ec' in Er. destruct b.
  - cbv beta iota zeta. unfold shift_tnt. rsimpl. rewrite D1, D5, D6, E1. cbn [pkt_count]. repeat split. exact Er.
  - cbv beta iota zeta. rewrite D2, E7. cbn [Z.eqb negb]. destruct bits as [|b' bits'].
    + unfold intel_pt_update_sample_time. rsimpl. rewrite D5.
      cbn [pkt_count length]. change (Z.of_nat 0 =? 0) with true. cbv beta iota. rsimpl.
      rewrite ?D1, ?D5, ?D6, ?E1. repeat split; by rewrite D5.
    + destruct (Z.eqb_spec (pkt_count (d_tnt (d1 <| d_sample_cyc := false |> <| d_ip := u64 (d_ip d1 + insn_length (insn ip)) |>))) 0) as [E0|_].
      { exfalso. revert E0. rsimpl. rewrite D5. cbn [pkt_count length]. lia. }
      unfold shift_tnt. rsimpl. rewrite D5, D6. cbn [pkt_count]. split; [done|]. split; [done|].
      split; [done|]. split; rsimpl; rewrite ?D1, ?D3, ?D4, ?D5, ?E1, ?E5, ?E6, ?D2, ?E7; try done.
      * cbn [pkt_count]. lia.
      * apply u64_range.
Qed.
Context `{Platform} `{Fuel}.

(** Walking the TNT packet follows its outcomes. *)
Lemma walk_tnt_follow n : forall ip bits d e,
  conditional_program -> walking ip bits d -> bits <> [] -> (length bits <= n)%nat ->
  let '(fin, ip', rest) := follow ip bits in
  exists d', walk_tnt_loop n d e =
      Ret (match fin with Taken _ _ => 0 | UsedUp => - EAGAIN end, d', e) /\
    d_ip d' = ip' /\ tnt_bits (d_tnt d') = rest /\ pkt_count (d_tnt d') = Z.of_nat (length rest) /\
    d_pkt_state d' = match rest with [] => INTEL_PT_STATE_IN_SYNC | _ => INTEL_PT_STATE_TNT_CONT end /\
    match fin with
    | Taken from to => st_from_ip (d_state d') = from /\ st_to_ip (d_state d') = to
    | UsedUp => True
    end.
Proof.
  induction n as [|n IH]; intros ip bits d e Hp Hd Hne Hn; (destruct bits as [|b bits]; [done|]);
    [cbn in Hn; lia|].
  cbn [walk_tnt_loop]. unfold mbind at 1, M_bind at 1, get at 1. rewrite (wk_eptw _ _ _ Hd).
  destruct (walk_insn_conditional ip (b :: bits) d e Hp Hd) as (d1 & E & Hd1).
  unfold mbind at 1, M_bind at 1. rewrite E. cbv beta iota.
  destruct Hp as [Hw Hb]. destruct (Hb ip) as (Hbr & _ & Hret). cbn [Z.eqb negb INTEL_PT_RETURN].
  rewrite bool_decide_eq_false_2 by done. rewrite Hbr.
  unfold mbind at 1, M_bind at 1, get at 1.
  pose proof (tnt_conditional_follow ip b bits d1 Hd1) as Hf.
  destruct (tnt_conditional (insn ip) d1) as [r d2]. unfold mbind at 1, M_bind at 1, put.
  destruct Hf as (Hc & Hs & Hf). cbn [follow]. destruct b.
  - destruct Hf as (-> & F1 & F2 & F3 & F4). exists d2. repeat split; done.
  - destruct bits as [|b' bits].
    + destruct Hf as (-> & F1 & F2). exists d2. repeat split; done.
    + destruct Hf as (-> & F1). apply IH; [by split|done|done|cbn in *; lia].
Qed.
End program.
