(* ===== verification/PtScan.v ===== *)
(** Finite traces, and the scan for a PSB over the buffers of a trace. *)
From Stdlib Require Import ZArith Lia List Bool.
From S2P Require Import Prelude PktDecoder PktBounds PtStack Float64 PtState PtTime PtReader PtWalk PtTrace.
From S2P Require Import PtVmTime PtDecode PtSafe PtSafeReader PtSafeWalk PtExample PtTotal.
Open Scope Z_scope.
Open Scope c_scope.
Import ListNotations.

(** ** Functions without unbounded loops *)

Definition no_loop {D A} (m : M D A) : Prop := forall d e, m d e <> OutOfFuel.

Section no_loop.
Context {D : Type}.

Lemma no_loop_ret {A} (a : A) : no_loop (D:=D) (mret a).
Proof. done. Qed.
Lemma no_loop_bind {A B} (m : M D A) (k : A -> M D B) :
  no_loop m -> (forall a, no_loop (k a)) -> no_loop (m ≫= k).
Proof.
  intros Hm Hk d e. unfold mbind, M_bind. specialize (Hm d e).
  destruct (m d e) as [[[a d'] e']| |]; [apply Hk|done|done].
Qed.
Lemma no_loop_get : no_loop (D:=D) get.
Proof. done. Qed.
Lemma no_loop_gets {A} (f : _ -> A) : no_loop (D:=D) (gets f).
Proof. done. Qed.
Lemma no_loop_put d : no_loop (D:=D) (put d).
Proof. done. Qed.
Lemma no_loop_modify f : no_loop (D:=D) (modify f).
Proof. done. Qed.
Lemma no_loop_error_of f : no_loop (D:=D) (error_of f).
Proof. done. Qed.
Lemma no_loop_lift {A} (o : option A) : no_loop (D:=D) (lift o).
Proof. intros d e. unfold lift. by destruct o. Qed.
Lemma no_loop_call {A} (f : D -> A * D) : no_loop (call f).
Proof. intros d e. unfold call. by destruct (f e). Qed.
Lemma no_loop_when b (m : M D unit) : no_loop m -> no_loop (when b m).
Proof. by destruct b. Qed.

Lemma wp_conj {A} (m : M D A) (P Q : A -> _ -> _ -> Prop) d e :
  wp m P d e -> wp m Q d e -> wp m (fun a d' e' => P a d' e' /\ Q a d' e') d e.
Proof. unfold wp. destruct (m d e) as [[[a d'] e']| |]; done. Qed.
End no_loop.

Create HintDb no_loop discriminated.
#[export] Hint Constants Opaque : no_loop.
Ltac no_loop_step :=
  lazymatch goal with
  | |- no_loop (let x := _ in _) => cbv zeta
  | |- no_loop ((fun _ => _) _) => cbv beta
  | |- no_loop (mbind _ _) => apply no_loop_bind; [|intros]
  | |- no_loop (mret _) => apply no_loop_ret
  | |- no_loop get => apply no_loop_get
  | |- no_loop (gets _) => apply no_loop_gets
  | |- no_loop (put _) => apply no_loop_put
  | |- no_loop (modify _) => apply no_loop_modify
  | |- no_loop (error_of _) => apply no_loop_error_of
  | |- no_loop (lift _) => apply no_loop_lift
  | |- no_loop (call _) => apply no_loop_call
  | |- no_loop (when _ _) => apply no_loop_when
  | |- no_loop (match ?x with _ => _ end) => destruct x
  | |- no_loop _ => solve [eauto 3 with no_loop nocore]
  end.
Ltac no_loop := repeat no_loop_step.

(** ** The trace that is left *)

(** A trace of [trace_left] bytes at most. *)
Class FiniteTrace (D : Type) `{Callbacks D} `{!TraceEnv D} := {
  trace_left : D -> Z;
  trace_left_nonneg e : env_ok e -> 0 <= trace_left e;
  get_trace_left e ret b e' :
    env_ok e -> get_trace e = (ret, b, e') ->
    trace_left e' + (if ret =? 0 then b_len b else 0) <= trace_left e
}.

(** The bytes waiting in [next_buf]. *)
Definition waiting (d : intel_pt_decoder) : Z :=
  match d_next_buf d with Some _ => d_next_len d | None => 0 end.

Section finite.
Context {D : Type} `{Platform} `{Callbacks D} `{Fuel} `{!TraceEnv D} `{!FiniteTrace D}.
Implicit Types (d : intel_pt_decoder) (e : D).

(** The bytes from the current position on, and those after the packet. *)
Definition bytes_left d e : Z := d_len d + waiting d + trace_left e.
Definition bytes_after d e : Z := bytes_left d e - d_pkt_step d.

Lemma waiting_nonneg d : core d -> 0 <= waiting d.
Proof.
  intros Hc. unfold waiting. destruct (d_next_buf d) as [b|] eqn:E; [|lia].
  destruct (core_next _ Hc b E). lia.
Qed.

Lemma bytes_after_nonneg d e : mem_ok d -> env_ok e -> 0 <= bytes_after d e.
Proof.
  intros [Hc _ Hs _] He. pose proof (waiting_nonneg d Hc). pose proof (trace_left_nonneg e He).
  unfold bytes_after, bytes_left. lia.
Qed.

Lemma view_bytes_after d d' e : view d' = view d -> bytes_after d' e = bytes_after d e.
Proof.
  intros V. injection V as V1 V2 V3 V4 V5 V6 V7 V8 V9.
  unfold bytes_after, bytes_left, waiting. by rewrite V2, V3, V4, V7.
Qed.

(** *** What reading data leaves *)

Lemma get_data_left b d e :
  env_ok e -> d_next_buf d = None ->
  wp (intel_pt_get_data b) (fun ret d' e' => d_next_buf d' = None /\
    (ret = 0 -> d_len d' + trace_left e' <= trace_left e)) d e.
Proof.
  intros He Hn. unfold intel_pt_get_data. wps.
  destruct (get_trace e) as [[ret buf] e'] eqn:E. cbn [fst snd]. wps.
  pose proof (get_trace_left e ret buf e' He E) as Hl.
  destruct (Z.eqb_spec ret 0) as [->|Hr]; cbn [negb]; [|wps; by split].
  wps. destruct (Z.eqb_spec (b_len buf) 0); [wps; by split|].
  unfold intel_pt_reposition. wps. destruct (_ || _); wps; rsimpl; (split; [done|]); intros; try done; lia.
Qed.

Lemma get_next_data_left b d e :
  env_ok e ->
  wp (intel_pt_get_next_data b) (fun ret d' e' => d_next_buf d' = None /\
    (ret = 0 -> d_len d' + trace_left e' <= waiting d + trace_left e)) d e.
Proof.
  intros He. unfold intel_pt_get_next_data, waiting. wps.
  destruct (d_next_buf d) as [next|] eqn:E; [wps; rsimpl; split; [done|lia]|].
  eapply wp_mono; [by apply get_data_left|]. intros ret d' e' [Hn Hl]. split; [done|]. lia.
Qed.

Lemma split_packet_left d e :
  core d -> env_ok e -> 1 <= d_len d < INTEL_PT_PKT_MAX_SZ -> d_next_buf d = None ->
  wp intel_pt_get_split_packet
    (fun ret d' e' => 0 <= ret -> bytes_left d' e' <= bytes_left d e) d e.
Proof.
  intros Hc He Hl Hn. unfold intel_pt_get_split_packet, INTEL_PT_PKT_MAX_SZ in *. wps.
  destruct (core_len _ Hc) as [? ?]. pose proof (core_temp _ Hc) as Ht.
  unfold INTEL_PT_PKT_MAX_SZ in Ht.
  apply copy_to_temp_wp; [lia|lia|lia|]. intros t1 _ Ht1. wps.
  assert (core (d <| d_temp_buf := t1 |>)) as Hc1.
  { destruct Hc. split; rsimpl; congruence || done. }
  eapply wp_mono; [apply wp_conj; [by apply get_data_wp|by apply get_data_left]|].
  intros ret d1 e1 ((Hc2 & He1 & Hn1 & Hs & Ht2 & Hg) & _ & Hleft). cbv beta iota.
  destruct (Z.eqb_spec ret 0) as [->|Hr]; cbn [negb].
  2: { wps. destruct (Z.ltb_spec ret 0); unfold EINVAL in *; lia. }
  specialize (Hg eq_refl). specialize (Hleft eq_refl). unfold INTEL_PT_PKT_MAX_SZ in Hg.
  destruct (core_len _ Hc2). pose proof (core_bound _ Hc2). rsimpl_in Ht2.
  wps. rewrite (u64_small (16 - d_len d)) by lia.
  destruct (Z.ltb_spec (d_len d1) (16 - d_len d)); [lia|].
  apply copy_to_temp_wp; [lia|lia|rewrite Ht2; lia|]. intros t2 _ Ht4. wps. rsimpl.
  rewrite (u64_small (d_len d + _)) by lia.
  replace (d_len d + (16 - d_len d)) with 16 by lia.
  edestruct (get_packet_ok t2 16) as (r & p & ctx & Ep & Hr); [rewrite Ht4, Ht2; lia|lia|].
  apply wp_lift. eexists. split; [exact Ep|]. wps. rsimpl.
  rewrite s32_small by lia.
  destruct (Z.ltb_spec r (d_len d)); wps; [rewrite bad_packet_ret; lia|]. intros _.
  unfold INTEL_PT_NEED_MORE_BYTES, INTEL_PT_BAD_PACKET, INTEL_PT_PKT_MAX_SZ in Hr.
  unfold bytes_left, waiting. rsimpl. rewrite Hn.
  rewrite (u64_small (r - d_len d)), (u64_small (d_len d1 - _)) by lia. lia.
Qed.

Lemma parse_packet_left d e :
  core d -> env_ok e -> 1 <= d_len d -> next_ok d ->
  wp parse_packet (fun ret d' e' => ret = 0 -> bytes_left d' e' <= bytes_left d e) d e.
Proof.
  intros Hc He Hl Hn. unfold parse_packet. wps. rsimpl.
  destruct (core_len _ Hc). pose proof (core_bound _ Hc).
  destruct (get_packet_ok (d_buf d) (d_len d) (d_pkt_ctx d)) as (r & p & ctx & Ep & Hr);
    [lia|lia|].
  apply wp_lift. eexists. split; [exact Ep|]. wps. rsimpl.
  set (d1 := upd _ _ _).
  assert (view d1 = view d) as V by reflexivity.
  assert (core d1) as Hc1 by (by eapply view_core).
  assert (bytes_left d1 e = bytes_left d e) as Eb by reflexivity.
  assert (d_len d1 = d_len d /\ d_next_buf d1 = d_next_buf d) as (El & En) by done.
  clearbody d1. rewrite <- Eb.
  assert (forall ret d' e', bytes_left d' e' <= bytes_left d1 e ->
    wp (if ret <=? 0 then error_of intel_pt_bad_packet
        else modify (fun d => d <| d_pkt_len := ret |> <| d_pkt_step := ret |>) ;; mret 0)
      (fun ret d' e' => ret = 0 -> bytes_left d' e' <= bytes_left d1 e) d' e') as Haccept.
  { intros ret d' e' Hb. destruct (ret <=? 0); wps; [rewrite bad_packet_ret; lia|]. intros _. exact Hb. }
  destruct (_ && _) eqn:E; [|by apply Haccept].
  rewrite !andb_true_iff, bool_decide_eq_true, Z.ltb_lt in E. destruct E as [[_ E1] E2]. wps.
  eapply wp_mono; [apply split_packet_left; (done || lia || congruence)|].
  intros ret d' e' Hleft. cbv beta.
  destruct (Z.ltb_spec ret 0); [wps; lia|]. apply Haccept. by apply Hleft.
Qed.

Lemma advance_left d e :
  mem_ok d -> env_ok e ->
  wp (if d_len (advance d) =? 0 then intel_pt_get_next_data false else mret 0)
    (fun ret d' e' => ret = 0 -> bytes_left d' e' <= bytes_after d e) (advance d) e.
Proof.
  intros [Hc Hn Hs Hp] He. pose proof (core_len _ Hc). pose proof (core_bound _ Hc).
  assert (d_len (advance d) = d_len d - d_pkt_step d /\ waiting (advance d) = waiting d) as [El Ew].
  { unfold advance, waiting. rsimpl. rewrite (u64_small (d_len d - _)) by lia. done. }
  unfold bytes_after, bytes_left.
  destruct (Z.eqb_spec (d_len (advance d)) 0).
  - eapply wp_mono; [by apply get_next_data_left|]. intros ret d' e' [Hn' Hl] Hret.
    specialize (Hl Hret). unfold waiting at 1. rewrite Hn'. lia.
  - wps. lia.
Qed.

(** *** Totality *)

Lemma get_data_no_loop b : no_loop (D:=D) (intel_pt_get_data b).
Proof. unfold intel_pt_get_data. no_loop. Qed.
Lemma copy_to_temp_no_loop off src n : no_loop (D:=D) (copy_to_temp off src n).
Proof. unfold copy_to_temp. no_loop. Qed.
Hint Resolve get_data_no_loop copy_to_temp_no_loop : no_loop.
Lemma get_next_data_no_loop b : no_loop (D:=D) (intel_pt_get_next_data b).
Proof. unfold intel_pt_get_next_data. no_loop. Qed.
Lemma split_packet_no_loop : no_loop (D:=D) intel_pt_get_split_packet.
Proof. unfold intel_pt_get_split_packet. no_loop. Qed.
Hint Resolve get_next_data_no_loop split_packet_no_loop : no_loop.
Lemma parse_packet_no_loop : no_loop (D:=D) parse_packet.
Proof. unfold parse_packet. no_loop. Qed.

(** What reading a packet leaves, when it does not stop on an error. *)
Definition packet_post d e (ret : Z) d' e' : Prop :=
  mem_ok d' /\ env_ok e' /\
  (ret = 0 -> pkt_type (d_packet d') <> INTEL_PT_PAD /\ bytes_after d' e' < bytes_after d e).

(** Every turn of the loop consumes a byte at least. *)
Lemma next_packet_loop_total n d e :
  mem_ok d -> env_ok e -> bytes_after d e < Z.of_nat n ->
  twp (next_packet_loop n) (packet_post d e) d e.
Proof.
  revert d e. induction n as [|n IH]; intros d e Hd He Hn; cbn [next_packet_loop].
  { pose proof (bytes_after_nonneg d e Hd He). lia. }
  twps. eapply twp_mono; [apply twp_wp;
    [apply wp_conj; [by apply advance_wp|by apply advance_left]|
     destruct (_ =? 0); [apply get_next_data_no_loop|done]]|].
  intros ret d2 e2 ((Hc2 & He2 & Hn2 & Hs & Hl) & Hleft).
  destruct (Z.eqb_spec ret 0) as [->|Hr].
  2: { twps. split; [apply no_step_mem_ok; auto|done]. }
  specialize (Hleft eq_refl). specialize (Hl eq_refl).
  twps. eapply twp_mono; [apply twp_wp;
    [apply wp_conj; [by apply parse_packet_wp|by apply parse_packet_left]|apply parse_packet_no_loop]|].
  intros ret d3 e3 (((Hm & Hstep) & He3) & Hleft3).
  destruct (Z.eqb_spec ret 0) as [->|]; twps; [|by split].
  destruct (Hstep eq_refl) as [Es E1]. specialize (Hleft3 eq_refl).
  assert (bytes_after d3 e3 < bytes_after d e) as Hdec by (unfold bytes_after at 1; lia).
  case_bool_decide as Hpad; [|twps; by split].
  eapply twp_mono; [apply IH; [done|done|lia]|].
  intros ret d4 e4 (? & ? & H4). split; [done|]. split; [done|]. intros Hret.
  destruct (H4 Hret). split; [done|lia].
Qed.

Lemma get_next_packet_total d e :
  mem_ok d -> env_ok e -> bytes_after d e < Z.of_nat fuel ->
  twp intel_pt_get_next_packet (packet_post d e) d e.
Proof.
  intros Hd He Hf. unfold intel_pt_get_next_packet. twps.
  set (d1 := d <| d_last_packet_type := _ |>).
  assert (view d1 = view d) as V by reflexivity.
  pose proof (view_bytes_after d d1 e V) as Eb.
  eapply twp_mono; [apply next_packet_loop_total; [by eapply view_mem_ok|done|lia]|].
  intros ret d' e' (? & ? & Hr). split; [done|]. split; [done|]. rewrite <- Eb. exact Hr.
Qed.
End finite.

#[export] Instance list_trace_finite : FiniteTrace (list intel_pt_buffer).
Proof.
  refine {| trace_left := fold_right (fun b n => b_len b + n) 0 |}.
  - intros e He. induction He as [|b e Hb He IH]; cbn [fold_right]; [lia|].
    destruct Hb as [Hb _]. unfold INTEL_PT_PKT_MAX_SZ in Hb. lia.
  - intros [|b e] ret b' e' He [= <- <- <-]; cbn; lia.
Defined.

(** The search for the next PSB, across buffers: [intel_pt_scan_for_psb] against
    the first occurrence in the bytes of all the buffers put together. *)
(** ** First occurrences *)

Definition occurs (needle hay : list byte) (i : nat) : Prop :=
  take (length needle) (drop i hay) = needle.

Definition first_at (needle hay : list byte) (i : nat) : Prop :=
  occurs needle hay i /\ forall j, (j < i)%nat -> ~ occurs needle hay j.

Lemma occurs_cons needle x hay i : occurs needle (x :: hay) (S i) <-> occurs needle hay i.
Proof. done. Qed.

Lemma memmem_Some hay needle k :
  memmem hay needle = Some k <-> exists i, k = Z.of_nat i /\ first_at needle hay i.
Proof.
  revert k. induction hay as [|x hay IH]; intros k; cbn [memmem]; case_bool_decide as E.
  1, 3: split; [intros [= <-]; exists 0%nat; split; [done|]; split; [exact E|lia]|];
    intros ([|i] & -> & Ho & Hf); [done|]; by destruct (Hf 0%nat); [lia|].
  - split; [done|]. intros (i & -> & Ho & _). unfold occurs in Ho. rewrite drop_nil in Ho. done.
  - split.
    + destruct (memmem hay needle) as [k'|]; [|done]. intros [= <-].
      destruct (proj1 (IH k') eq_refl) as (i & -> & Ho & Hf). exists (S i).
      split; [lia|]. split; [exact Ho|]. intros [|j] Hj; [exact E|]. apply Hf. lia.
    + intros ([|i] & -> & Ho & Hf); [done|].
      rewrite (proj2 (IH (Z.of_nat i))); [cbn; f_equal; lia|].
      exists i. split; [done|]. split; [exact Ho|]. intros j Hj. apply (Hf (S j)). lia.
Qed.

Lemma memmem_None hay needle :
  memmem hay needle = None <-> forall i, ~ occurs needle hay i.
Proof.
  induction hay as [|x hay IH]; cbn [memmem]; case_bool_decide as E; split; try done.
  1, 3: intros Hn; by destruct (Hn 0%nat).
  - intros _ i. unfold occurs. by rewrite drop_nil.
  - intros Hm [|i]; [exact E|]. apply IH. by destruct (memmem hay needle).
  - intros Hn. rewrite (proj2 IH); [done|]. intros i. apply (Hn (S i)).
Qed.

Lemma occurs_lt needle hay i : needle <> [] -> occurs needle hay i ->
  (i + length needle <= length hay)%nat.
Proof.
  intros Hn Ho. apply (f_equal length) in Ho. rewrite length_take, length_drop in Ho.
  destruct needle; [done|]. cbn [length] in *. lia.
Qed.

Lemma occurs_app_l needle a b i :
  (i + length needle <= length a)%nat -> occurs needle (a ++ b) i <-> occurs needle a i.
Proof.
  intros Hl. unfold occurs. rewrite drop_app_le by lia.
  rewrite take_app_le; [done|]. rewrite length_drop. lia.
Qed.

Lemma occurs_app_r needle a b i : occurs needle (a ++ b) (length a + i) <-> occurs needle b i.
Proof. unfold occurs. rewrite drop_app_add. done. Qed.

(** An occurrence that begins in [a] and ends in [b]. *)
Lemma occurs_straddle needle a b j :
  (j <= length a)%nat -> (j < length needle)%nat ->
  occurs needle (a ++ b) (length a - j) <->
    drop (length a - j) a = take j needle /\ take (length needle - j) b = drop j needle.
Proof.
  intros Ha Hj. unfold occurs. rewrite drop_app_le by lia.
  assert (length (drop (length a - j) a) = j) as El by (rewrite length_drop; lia).
  rewrite take_app, El, take_ge by lia.
  split.
  - intros E. split.
    + by rewrite <- E, take_app_le, take_ge by lia.
    + rewrite <- E at 2. rewrite drop_app_ge, El, Nat.sub_diag by lia. done.
  - intros [-> ->]. apply take_drop.
Qed.

(** ** The PSB pattern *)

Notation PSB := INTEL_PT_PSB_STR.
Local Notation occ := (occurs PSB).

(** The pattern repeats every two bytes: of two beginnings of it that end a
    buffer, whatever completes the shorter one completes the longer one. *)
Lemma psb_shift j k :
  (1 <= j <= k)%nat -> (k <= 15)%nat -> drop (k - j) (take k PSB) = take j PSB ->
  take (16 - k) (drop j PSB) = drop k PSB.
Proof.
  intros Hj Hk.
  assert (forallb (fun k => forallb (fun j =>
    bool_decide (drop (k - j) (take k PSB) <> take j PSB) ||
    bool_decide (take (16 - k) (drop j PSB) = drop k PSB)) (seq 1 k)) (seq 1 15) = true) as H
    by (vm_compute; reflexivity).
  rewrite forallb_forall in H. specialize (H k). rewrite in_seq in H.
  specialize (H ltac:(lia)). rewrite forallb_forall in H. specialize (H j).
  rewrite in_seq in H. specialize (H ltac:(lia)). intros E.
  apply orb_true_iff in H as [H|H]; apply bool_decide_eq_true in H; done.
Qed.

(** [k] is the length of the longest beginning of a PSB, short of a whole one,
    that ends [a]. *)
Definition longest_part (a : list byte) (k : nat) : Prop :=
  (k <= 15)%nat /\ (k <= length a)%nat /\ drop (length a - k) a = take k PSB /\
  forall j, (k < j <= 15)%nat -> (j <= length a)%nat -> drop (length a - j) a <> take j PSB.

Lemma part_psb_loop_spec n buf len :
  0 <= len <= Z.of_nat (length buf) -> (n <= 15)%nat ->
  exists k, part_psb_loop n buf len = Some (Z.of_nat k) /\ (k <= n)%nat /\
    let a := take (Z.to_nat len) buf in
    (k <= length a)%nat /\ drop (length a - k) a = take k PSB /\
    forall j, (k < j <= n)%nat -> (j <= length a)%nat -> drop (length a - j) a <> take j PSB.
Proof.
  intros Hl Hn. cbv zeta. rewrite length_take_le by lia.
  induction n as [|n IH]; cbn [part_psb_loop].
  { exists 0%nat. split; [done|]. split; [lia|]. split; [lia|]. split; [|lia].
    rewrite drop_ge; [done|]. rewrite length_take. lia. }
  destruct IH as (k & Ek & Hk & Ha & Ed & Hj); [lia|].
  assert (((S n <= Z.to_nat len)%nat ->
      drop (Z.to_nat len - S n) (take (Z.to_nat len) buf) <> take (S n) PSB) ->
    part_psb_loop n buf len = Some (Z.of_nat k) /\ (k <= S n)%nat /\ (k <= Z.to_nat len)%nat /\
    drop (Z.to_nat len - k) (take (Z.to_nat len) buf) = take k PSB /\
    forall j, (k < j <= S n)%nat -> (j <= Z.to_nat len)%nat ->
      drop (Z.to_nat len - j) (take (Z.to_nat len) buf) <> take j PSB) as Hmiss.
  { intros Hne. split; [done|]. split; [lia|]. split; [done|]. split; [done|].
    intros j ? ?. destruct (decide (j = S n)) as [->|]; [by apply Hne|apply Hj; lia]. }
  destruct (Z.ltb_spec len (Z.of_nat (S n))); [exists k; apply Hmiss; lia|].
  rewrite slice_Some by lia. cbn [mbind option_bind].
  replace (Z.to_nat (len - Z.of_nat (S n))) with (Z.to_nat len - S n)%nat by lia.
  rewrite Nat2Z.id.
  assert (take (S n) (drop (Z.to_nat len - S n) buf) =
    drop (Z.to_nat len - S n) (take (Z.to_nat len) buf)) as Ecut.
  { rewrite skipn_firstn_comm. f_equal. lia. }
  rewrite Ecut. case_bool_decide as E; [|exists k; by apply Hmiss].
  exists (S n). split; [done|]. split; [lia|]. split; [lia|]. split; [done|]. lia.
Qed.

(** The first occurrence in [a ++ b]: within [a]; *)
Lemma memmem_hit a b o : memmem a PSB = Some o -> memmem (a ++ b) PSB = Some o.
Proof.
  rewrite !memmem_Some. intros (i & -> & Ho & Hf). exists i. split; [done|].
  assert (i + length PSB <= length a)%nat by (by apply occurs_lt).
  split; [by apply occurs_app_l|]. intros j Hj Hoj. apply (Hf j Hj).
  eapply occurs_app_l; [lia|exact Hoj].
Qed.

Lemma straddle_split a b i :
  memmem a PSB = None -> occ (a ++ b) i -> (i < length a)%nat ->
  exists j, (1 <= j <= 15)%nat /\ (j <= length a)%nat /\ i = (length a - j)%nat /\
    drop (length a - j) a = take j PSB /\ take (16 - j) b = drop j PSB.
Proof.
  rewrite memmem_None. intros Hn Ho Hi.
  assert (length a < i + length PSB)%nat as Hs.
  { destruct (decide (length a < i + length PSB)%nat); [done|]. destruct (Hn i).
    eapply occurs_app_l; [|exact Ho]. lia. }
  cbn [length INTEL_PT_PSB_STR] in Hs. exists (length a - i)%nat.
  replace (length a - (length a - i))%nat with i by lia.
  split; [lia|]. split; [lia|]. split; [done|].
  replace i with (length a - (length a - i))%nat in Ho by lia.
  apply occurs_straddle in Ho as [H1 H2]; [|lia|cbn; lia].
  replace (length a - (length a - i))%nat with i in H1 by lia. done.
Qed.

(** across the end of [a], with the longest beginning there; *)
Lemma memmem_part a b k :
  memmem a PSB = None -> longest_part a k -> (1 <= k)%nat ->
  take (16 - k) b = drop k PSB ->
  memmem (a ++ b) PSB = Some (Z.of_nat (length a - k)).
Proof.
  intros Hn (Hk & Hl & Hd & Hmax) H1 Hb. apply memmem_Some.
  exists (length a - k)%nat. split; [done|]. split.
  { apply occurs_straddle; [done|cbn; lia|done]. }
  intros i Hi Ho. destruct (straddle_split a b i Hn Ho) as (j & Hj & Hja & -> & Ej & _); [lia|].
  apply (Hmax j); [lia|done|exact Ej].
Qed.

(** or after [a]. *)
Lemma memmem_miss a b k :
  memmem a PSB = None -> longest_part a k ->
  k = 0%nat \/ take (16 - k) b <> drop k PSB ->
  memmem (a ++ b) PSB = Z.add (Z.of_nat (length a)) <$> memmem b PSB.
Proof.
  intros Hn Hlong Hk.
  assert (forall i, (i < length a)%nat -> ~ occ (a ++ b) i) as Hlow.
  { intros i Hi Ho. destruct (straddle_split a b i Hn Ho) as (j & Hj & Hja & -> & Ej & Eb); [lia|].
    destruct Hlong as (Hk15 & Hl & Hd & Hmax).
    destruct (decide (k < j)%nat); [by destruct (Hmax j); [lia|lia|]|].
    destruct Hk as [->|Hk]; [lia|]. apply Hk. rewrite <- (psb_shift j k); [|lia|lia|].
    - rewrite <- Eb, take_take. f_equal. lia.
    - rewrite <- Hd, <- Ej, drop_drop. f_equal. lia. }
  destruct (memmem b PSB) as [o|] eqn:E; cbn [fmap option_fmap option_map].
  - apply memmem_Some in E as (i & -> & Ho & Hf). apply memmem_Some.
    exists (length a + i)%nat. split; [lia|]. split; [by apply occurs_app_r|].
    intros j Hj Ho'. destruct (decide (j < length a)%nat); [by eapply Hlow|].
    apply (Hf (j - length a)%nat); [lia|]. apply (occurs_app_r PSB a).
    by replace (length a + (j - length a))%nat with j by lia.
  - rewrite memmem_None in *. intros j Ho'. destruct (decide (j < length a)%nat); [by eapply Hlow|].
    apply (E (j - length a)%nat), (occurs_app_r PSB a).
    by replace (length a + (j - length a))%nat with j by lia.
Qed.

(** ** The bytes ahead *)

Section scan.
Context {D : Type} `{Platform} `{Callbacks D} `{Fuel} `{!TraceEnv D}.
Implicit Types (d : intel_pt_decoder) (e : D) (bs : list intel_pt_buffer) (cs : list (list byte)).

(** What a buffer holds. *)
Definition b_data (b : intel_pt_buffer) : list byte := take (Z.to_nat (b_len b)) (b_buf b).

(** The trace callback, from [e] on, serves the buffers [bs], each one following
    the last in time, and then stops the decoder with the code [err]. *)
Fixpoint serves e bs (err : Z) : Prop :=
  match bs with
  | [] => exists ret b e', get_trace e = (ret, b, e') /\
      (ret <> 0 /\ err = ret \/ ret = 0 /\ b_len b = 0 /\ err = - ENODATA)
  | b :: bs' => exists e', get_trace e = (0, b, e') /\ buffer_ok b /\ b_consecutive b = true /\
      serves e' bs' err
  end.

(** The bytes of the current buffer, and of the one that waits behind it. *)
Definition current d : list byte := take (Z.to_nat (d_len d)) (d_buf d).
Definition behind d : list (list byte) :=
  match d_next_buf d with
  | Some next => [take (Z.to_nat (d_next_len d)) next]
  | None => []
  end.

(** The chunks of data still to come after the current buffer. *)
Definition upcoming d e cs (err : Z) : Prop :=
  exists bs, serves e bs err /\ cs = behind d ++ map b_data bs.

Lemma length_current d : core d -> length (current d) = Z.to_nat (d_len d).
Proof. intros Hc. pose proof (core_len _ Hc). unfold current. rewrite length_take. lia. Qed.

Lemma next_chunk d e cs err :
  core d -> env_ok e -> upcoming d e cs err ->
  d_next_buf d = None \/ INTEL_PT_PKT_MAX_SZ <= d_next_len d ->
  twp (intel_pt_get_next_data false) (fun ret d' e' => env_ok e' /\
    match cs with
    | [] => ret = err /\ err <> 0
    | c :: cs' => ret = 0 /\ core d' /\ current d' = c /\ (16 <= length c)%nat /\
        d_pos d' = d_pos d /\ d_next_buf d' = None /\ upcoming d' e' cs' err
    end) d e.
Proof.
  intros Hc He (bs & Hs & ->) Hn. unfold intel_pt_get_next_data, behind. twps.
  destruct (d_next_buf d) as [next|] eqn:E.
  - destruct Hn as [?|Hn]; [done|]. destruct (core_next _ Hc _ E) as [Hl Hb]. twps.
    split; [done|]. cbn [app]. unfold INTEL_PT_PKT_MAX_SZ in *.
    split; [done|]. split; [destruct Hc; split; rsimpl; try done; lia|].
    split; [reflexivity|]. split; [rewrite length_take; lia|]. split; [done|]. split; [done|].
    exists bs. by split.
  - cbn [app]. unfold intel_pt_get_data. twps. destruct bs as [|b bs]; cbn [serves map] in *.
    + destruct Hs as (ret & b & e' & Eg & Hr). pose proof (get_trace_env e He) as He'.
      rewrite Eg in *. cbn [fst snd] in *.
      destruct (Z.eqb_spec ret 0) as [->|Hz]; cbn [negb]; twps.
      * destruct Hr as [[? _]|(_ & Eb & ->)]; [done|]. rewrite Eb. cbn. by split.
      * destruct Hr as [[_ ->]|[? _]]; [|done]. by split.
    + destruct Hs as (e' & Eg & [Hb Hb63] & Hcons & Hs). pose proof (get_trace_env e He) as He'.
      rewrite Eg in *. cbn [fst snd] in *. unfold INTEL_PT_PKT_MAX_SZ in *.
      cbn [Z.eqb negb]. twps. destruct (Z.eqb_spec (b_len b) 0); [lia|]. twps.
      rewrite Hcons. cbn [negb orb]. twps. split; [done|]. split; [done|].
      split; [destruct Hc; split; rsimpl; try (done || lia); by rewrite E|].
      split; [reflexivity|]. split; [unfold b_data; rewrite length_take; lia|].
      split; [done|]. split; [exact E|]. exists bs. split; [done|].
      unfold behind. rsimpl. by rewrite E.
Qed.

(** ** A turn of the scan *)

Notation ready d := (d_next_buf d = None \/ INTEL_PT_PKT_MAX_SZ <= d_next_len d).

(** The decoder is on the PSB at offset [o] of the bytes [stream] that were ahead
    of [d], the rest of which is still ahead. *)
Definition psb_found d stream (o : Z) (ret : Z) d' e' err : Prop :=
  ret = 0 /\ d_packet d' = mkPkt INTEL_PT_PSB 0 0 /\ d_pos d' = u64 (d_pos d + o) /\
  exists cs, upcoming d' e' cs err /\ current d' ++ concat cs = drop (Z.to_nat o) stream.

Lemma get_packet_at_psb buf len ctx :
  16 <= len <= Z.of_nat (length buf) -> len < 2 ^ 64 -> take 16 buf = PSB ->
  exists ret ctx', intel_pt_get_packet buf len ctx = Some (ret, mkPkt INTEL_PT_PSB 0 0, ctx') /\
    0 < ret.
Proof.
  intros Hl Hb Hp.
  assert (intel_pt_do_get_packet buf 16 ctx = Some (16, mkPkt INTEL_PT_PSB 0 0)) as E.
  { rewrite <- (take_drop 16 buf), Hp. generalize (drop 16 buf). intros r. by destruct ctx. }
  destruct (do_get_packet_prefix buf ctx 16 len _ _ ltac:(lia) ltac:(lia) E) as [_ E']; [lia|].
  unfold intel_pt_get_packet. rewrite E' by lia. cbn [mbind option_bind Z.ltb Z.compare].
  destruct (skip_padding_ok buf len ltac:(lia) 8 16) as (r & -> & ? & _); [lia|lia|].
  cbn [mbind option_bind]. do 2 eexists. split; [reflexivity|]. lia.
Qed.

Lemma scan_found d e cs err k :
  core d -> (0 < fuel)%nat -> upcoming d e cs err -> memmem (current d) PSB = Some k ->
  twp (modify (fun d => d <| d_pkt_step := k |>) ;; intel_pt_get_next_packet)
    (fun ret d' e' => psb_found d (current d ++ concat cs) k ret d' e' err) d e.
Proof.
  intros Hc Hf Hup Hm. unfold intel_pt_get_next_packet. twps.
  pose proof (core_len _ Hc). pose proof (core_bound _ Hc).
  pose proof (length_current d Hc) as Hcur.
  apply memmem_Some in Hm as (i & -> & Ho & _).
  assert (i + 16 <= length (current d))%nat as Hi by (by apply (occurs_lt PSB)).
  destruct fuel as [|n]; [lia|]. cbn [next_packet_loop]. twps. unfold advance. rsimpl.
  rewrite (u64_small (d_len d - _)) by lia.
  destruct (Z.eqb_spec (d_len d - Z.of_nat i) 0); [lia|].
  unfold parse_packet. twps. cbn [Z.eqb]. twps. rsimpl. rewrite Nat2Z.id.
  assert (current d = take (Z.to_nat (d_len d)) (d_buf d)) as Ecur by done.
  destruct (get_packet_at_psb (drop i (d_buf d)) (d_len d - Z.of_nat i) (d_pkt_ctx d))
    as (ret & ctx' & Ep & Hret); [rewrite length_drop; lia|lia|..].
  { etrans; [|exact Ho]. rewrite Ecur, skipn_firstn_comm, take_take. cbn [length INTEL_PT_PSB_STR].
    f_equal. lia. }
  apply twp_lift. eexists. split; [exact Ep|]. twps. rsimpl.
  unfold INTEL_PT_NEED_MORE_BYTES. destruct (Z.eqb_spec ret (-1)); [lia|]. cbn [andb].
  destruct (Z.leb_spec ret 0); [lia|]. twps. rsimpl. cbn [Z.eqb]. twps. rsimpl.
  rewrite bool_decide_false by done. twps. unfold psb_found. rsimpl.
  split; [done|]. split; [done|]. split; [done|]. exists cs. split; [exact Hup|].
  rewrite Nat2Z.id, drop_app_le by lia. f_equal. unfold current. rsimpl.
  rewrite skipn_firstn_comm. f_equal. lia.
Qed.

Lemma scan_hit n d e cs err k :
  core d -> (0 < fuel)%nat -> upcoming d e cs err -> memmem (current d) PSB = Some k ->
  twp (scan_for_psb_loop (S n))
    (fun ret d' e' => psb_found d (current d ++ concat cs) k ret d' e' err) d e.
Proof.
  intros Hc Hf Hup Hm. cbn [scan_for_psb_loop]. twps. pose proof (core_len _ Hc).
  destruct (Z.eqb_spec (d_len d) 0) as [E|E].
  { unfold current in Hm. rewrite E in Hm. done. }
  twps. cbn [Z.eqb]. twps. apply twp_lift. eexists. split; [apply slice_Some; lia|].
  change (take (Z.to_nat (d_len d)) (drop (Z.to_nat 0) (d_buf d))) with (current d). rewrite Hm. by apply scan_found.
Qed.

Lemma split_psb d e cs err k :
  core d -> env_ok e -> upcoming d e cs err -> ready d -> (1 <= k <= 15)%nat ->
  twp (intel_pt_get_split_psb (Z.of_nat k)) (fun ret d' e' => env_ok e' /\
    match cs with
    | [] => ret = err /\ err <> 0
    | c :: cs' => ret = 0 /\ core d' /\
        if bool_decide (take (16 - k) c = drop k PSB) then
          current d' = PSB /\ d_pos d' = u64 (d_pos d + d_len d - Z.of_nat k) /\
          upcoming d' e' (drop (16 - k) c :: cs') err
        else current d' = c /\ d_pos d' = u64 (d_pos d + d_len d) /\
          (16 <= length c)%nat /\ d_next_buf d' = None /\ upcoming d' e' cs' err
    end) d e.
Proof.
  intros Hc He Hup Hr Hk. unfold intel_pt_get_split_psb. twps.
  eapply twp_mono; [apply (next_chunk _ e cs err);
    [by apply core_drop|done|exact Hup|exact Hr]|].
  intros ret d' e' [He' Hcs]. destruct cs as [|c cs].
  { destruct Hcs as [-> Hz]. destruct (Z.eqb_spec err 0); [done|]. twps. by split. }
  destruct Hcs as (-> & Hc' & Ec & Hlc & Ep & En & Hup'). cbn [Z.eqb]. twps.
  pose proof (core_len _ Hc'). pose proof (core_bound _ Hc').
  pose proof (length_current d' Hc') as Hl. rewrite Ec in Hl.
  assert (intel_pt_rest_psb d' (Z.of_nat k) =
    Some (if bool_decide (take (16 - k) c = drop k PSB) then Z.of_nat (16 - k) else 0)) as Er.
  { unfold intel_pt_rest_psb, INTEL_PT_PSB_LEN. rewrite (u64_small (16 - _)) by lia.
    destruct (Z.ltb_spec (d_len d') (16 - Z.of_nat k)); [lia|].
    rewrite !slice_Some by (cbn [length INTEL_PT_PSB_STR]; lia). cbn [mbind option_bind].
    f_equal. replace (Z.to_nat (16 - Z.of_nat k)) with (16 - k)%nat by lia. rewrite Nat2Z.id.
    change (drop (Z.to_nat 0) (d_buf d')) with (d_buf d'). rewrite (take_ge (drop k PSB)) by (rewrite length_drop; cbn [length INTEL_PT_PSB_STR]; lia).
    rewrite <- Ec. unfold current. rewrite take_take, Nat.min_l by lia.
    case_bool_decide; lia. }
  rewrite Er. apply twp_lift. eexists. split; [reflexivity|].
  case_bool_decide as Hrest; twps; cbn [Z.eqb].
  2: { twps. rewrite Ep. done. }
  destruct (Z.eqb_spec (Z.of_nat (16 - k)) 0); [lia|]. twps.
  pose proof (core_temp _ Hc') as Ht. unfold INTEL_PT_PKT_MAX_SZ in Ht.
  destruct (memcpy_Some (d_temp_buf d') 0 PSB INTEL_PT_PSB_LEN) as (t & Et & _);
    [done|by vm_compute|by rewrite Ht|].
  unfold copy_to_temp. twps. rsimpl. rewrite Et. apply twp_lift. eexists. split; [reflexivity|].
  apply memcpy_psb in Et as ->; [|done]. twps. rsimpl.
  rewrite (u64_small (d_len d' - _)) by lia. rewrite Nat2Z.id.
  split; [done|]. split; [done|]. split.
  { destruct Hc'. split; unfold INTEL_PT_PKT_MAX_SZ, INTEL_PT_PSB_LEN in *; rsimpl;
      cbn [length INTEL_PT_PSB_STR]; try (done || lia).
    intros b [= <-]. rewrite length_drop. lia. }
  split; [reflexivity|]. rewrite Ep. rsimpl. split; [apply (u64_add_l _ (- Z.of_nat k))|].
  destruct Hup' as (bs & Hs & ->). exists bs. split; [done|]. unfold behind. rewrite En. rsimpl.
  cbn [app]. f_equal. rewrite <- Ec. unfold current. rewrite skipn_firstn_comm. f_equal. lia.
Qed.

(** ** The whole scan *)

(** Turns of the loop that are left when there is no PSB in the current buffer. *)
Definition turns d cs : nat := length cs + (if d_len d =? 0 then 1 else 2).

Lemma longest_part_k d :
  core d -> exists k, intel_pt_part_psb d = Some (Z.of_nat k) /\ longest_part (current d) k.
Proof.
  intros Hc. pose proof (core_len _ Hc). unfold intel_pt_part_psb.
  destruct (part_psb_loop_spec 15 (d_buf d) (d_len d)) as (k & Ek & Hk & Hl); [done|lia|].
  exists k. split; [exact Ek|]. by split.
Qed.

(** The effect of [intel_pt_get_next_data] at the head of the loop. *)
Definition data_post d cs err (ret : Z) d' e' : Prop :=
  env_ok e' /\
  (ret <> 0 /\ ret = err /\ current d ++ concat cs = [] \/
   ret = 0 /\ core d' /\ d_pos d' = d_pos d /\ ready d' /\ (0 < length (current d'))%nat /\
   exists cs', upcoming d' e' cs' err /\ current d ++ concat cs = current d' ++ concat cs' /\
     (turns d' cs' <= turns d cs)%nat).

Lemma scan_data d e cs err :
  core d -> env_ok e -> upcoming d e cs err -> ready d ->
  twp (if d_len d =? 0 then intel_pt_get_next_data false else mret 0) (data_post d cs err) d e.
Proof.
  intros Hc He Hup Hr. pose proof (length_current d Hc) as Hl. pose proof (core_len _ Hc).
  unfold data_post. destruct (Z.eqb_spec (d_len d) 0) as [E|E].
  - assert (current d = []) as Ecur by (apply length_zero_iff_nil; lia).
    eapply twp_mono; [by apply next_chunk|]. intros ret d' e' [He' Hcs]. split; [done|].
    destruct cs as [|c cs].
    + destruct Hcs as [-> ?]. left. by rewrite Ecur.
    + destruct Hcs as (-> & Hc' & Ec & Hlc & Ep & En & Hup'). right. split; [done|].
      split; [done|]. split; [done|]. split; [by left|]. rewrite Ec. split; [lia|].
      exists cs. split; [done|]. rewrite Ecur. split; [done|]. unfold turns.
      rewrite E. cbn [length Z.eqb]. destruct (d_len d' =? 0); lia.
  - twps. split; [done|]. right. split; [done|]. split; [done|]. split; [done|]. split; [done|].
    split; [lia|]. by exists cs.
Qed.

(** What the scan returns, against the first PSB in all the bytes ahead. *)
Definition scan_post d stream err (ret : Z) d' e' : Prop :=
  match memmem stream PSB with
  | Some o => psb_found d stream o ret d' e' err
  | None => ret = err
  end.

Lemma psb_found_shift d1 d pre stream o ret d' e' err :
  d_pos d1 = u64 (d_pos d + Z.of_nat (length pre)) -> 0 <= o ->
  psb_found d1 stream o ret d' e' err ->
  psb_found d (pre ++ stream) (Z.of_nat (length pre) + o) ret d' e' err.
Proof.
  intros Ep Ho (-> & Ek & Ep' & cs & Hup & E). split; [done|]. split; [done|]. split.
  { rewrite Ep', Ep, u64_add_l. f_equal. lia. }
  exists cs. split; [done|]. rewrite E, drop_app_ge by lia. f_equal. lia.
Qed.

Lemma scan_post_shift d d1 a b k err ret d' e' :
  memmem a PSB = None -> longest_part a k -> k = 0%nat \/ take (16 - k) b <> drop k PSB ->
  d_pos d1 = u64 (d_pos d + Z.of_nat (length a)) ->
  scan_post d1 b err ret d' e' -> scan_post d (a ++ b) err ret d' e'.
Proof.
  intros Hm Hl Hk Ep. unfold scan_post. rewrite (memmem_miss a b k) by done.
  destruct (memmem b PSB) as [o|] eqn:E; cbn [fmap option_fmap option_map]; [|done].
  apply psb_found_shift; [done|]. apply memmem_Some in E as (i & -> & _). lia.
Qed.

Lemma split_post d d2 k a c r err ret d' e' :
  memmem a PSB = None -> longest_part a k -> (1 <= k <= 15)%nat ->
  take (16 - k) c = drop k PSB -> d_pos d2 = u64 (d_pos d + Z.of_nat (length a) - Z.of_nat k) ->
  psb_found d2 (PSB ++ drop (16 - k) c ++ r) 0 ret d' e' err ->
  scan_post d (a ++ c ++ r) err ret d' e'.
Proof.
  intros Hm Hlong Hk Hrest Ep (-> & Epk & Ep' & cs & Hup & E). unfold scan_post.
  assert (length (take (16 - k) c) = 16 - k)%nat as Hc.
  { rewrite Hrest, length_drop. reflexivity. }
  rewrite length_take in Hc. destruct Hlong as (? & Hka & Ed & Hmax).
  rewrite (memmem_part _ _ k); [|done|by split|lia|by rewrite take_app_le by lia].
  split; [done|]. split; [done|]. split.
  { rewrite Ep', Ep, u64_add_l. f_equal. lia. }
  exists cs. split; [done|]. rewrite Nat2Z.id.
  assert (drop (length a - k) (a ++ c ++ r) = PSB ++ drop (16 - k) c ++ r) as ->.
  { rewrite drop_app_le, Ed by lia. rewrite <- (take_drop (16 - k) c) at 1.
    rewrite Hrest, <- !app_assoc, app_assoc, take_drop. done. }
  exact E.
Qed.

Lemma scan_loop_first n d e cs err :
  core d -> env_ok e -> upcoming d e cs err -> ready d -> (0 < fuel)%nat ->
  (turns d cs <= n)%nat ->
  twp (scan_for_psb_loop n) (scan_post d (current d ++ concat cs) err) d e.
Proof.
  revert d e cs. induction n as [|n IH]; intros d e cs Hc He Hup Hr Hf Hn.
  { unfold turns in Hn. destruct (d_len d =? 0); lia. }
  cbn [scan_for_psb_loop]. twps. eapply twp_mono; [by apply scan_data|].
  intros ret d1 e1 (He1 & [(Hz & -> & ->)|(-> & Hc1 & Ep1 & Hr1 & Hl1 & cs1 & Hup1 & -> & Ht1)]).
  { destruct (Z.eqb_spec err 0); [done|]. by twps. }
  cbn [Z.eqb]. twps. pose proof (core_len _ Hc1). pose proof (length_current d1 Hc1) as Hlen.
  apply twp_lift. eexists. split; [apply slice_Some; lia|].
  change (take (Z.to_nat (d_len d1)) (drop (Z.to_nat 0) (d_buf d1))) with (current d1).
  assert ((d_len d1 =? 0) = false) as Ez by lia.
  assert (turns d1 cs1 = S (S (length cs1))) as Et by (unfold turns; rewrite Ez; lia).
  destruct (memmem (current d1) PSB) as [o|] eqn:Em.
  { unfold scan_post. rewrite (memmem_hit _ _ o) by done.
    eapply twp_mono; [by apply (scan_found d1 e1 cs1 err)|].
    intros ret d' e'. unfold psb_found. by rewrite Ep1. }
  destruct (longest_part_k d1 Hc1) as (k & Ek & Hk). unfold scan_miss. twps.
  rewrite Ek. apply twp_lift. eexists. split; [reflexivity|].
  destruct (Z.eqb_spec (Z.of_nat k) 0) as [E0|E0]; cbn [negb].
  - (* nothing of a PSB at the end of the buffer *)
    twps. cbn [Z.eqb]. set (d2 := d1 <| d_pos := _ |> <| d_len := _ |>).
    eapply twp_mono; [apply (IH d2 e1 cs1); [by apply core_drop|done|exact Hup1|exact Hr1|done|]|].
    { unfold turns. cbn. lia. }
    intros ret d' e' Hpost. eapply scan_post_shift; [done|exact Hk|left; lia| |exact Hpost].
    subst d2. rsimpl. rewrite Ep1, Hlen. f_equal. lia.
  - eapply twp_mono; [apply split_psb; [done|done|exact Hup1|done|destruct Hk; lia]|].
    intros ret d2 e2 [He2 Hpost]. destruct cs1 as [|c cs1].
    + destruct Hpost as [-> Hz]. destruct (Z.eqb_spec err 0); [done|]. twps. cbn [concat].
      unfold scan_post. rewrite (memmem_miss _ [] k); [done|done|done|].
      right. intros E. apply (f_equal length) in E. rewrite length_drop in E.
      destruct Hk as [? _]. rewrite take_nil in E. cbn in E. lia.
    + destruct Hpost as (-> & Hc2 & Hpost). cbn [Z.eqb concat].
      case_bool_decide as Hrest.
      * destruct Hpost as (Ecur & Ep2 & Hup2). destruct n as [|n]; [lia|].
        eapply twp_mono; [apply (scan_hit n d2 e2 (drop (16 - k) c :: cs1) err 0); [done|done|exact Hup2|by rewrite Ecur]|].
        intros ret d' e'. rewrite Ecur. cbn [concat].
        apply (split_post d d2 k); [done|done|destruct Hk; lia|done|].
        rewrite Ep2, Ep1, Hlen. f_equal. lia.
      * destruct Hpost as (Ecur & Ep2 & Hlc & En & Hup2).
        eapply twp_mono; [apply (IH d2 e2 cs1); [done|done|exact Hup2|by left|done|]|].
        { unfold turns in *. destruct (d_len d2 =? 0); cbn [length] in *; lia. }
        intros ret d' e'. rewrite Ecur. apply (scan_post_shift d d2 (current d1) (c ++ concat cs1) k); [done|done| |].
        -- right. rewrite take_app_le by (destruct Hk; lia). done.
        -- rewrite Ep2, Ep1, Hlen. f_equal. lia.
Qed.
End scan.
