(* ===== verification/InsnAttr.v ===== *)
(** Attributes of x86 opcodes: tools/arch/x86/include/asm/inat.h and
    tools/arch/x86/lib/inat.c.  The tables themselves are generated by the build
    (from x86-opcode-map.txt) and are a parameter. *)
From Stdlib Require Import ZArith Lia List Bool.
From S2P Require Import Prelude.
Open Scope Z_scope.
Open Scope c_scope.

Definition INAT_OPCODE_TABLE_SIZE : Z := 256.
Definition INAT_GROUP_TABLE_SIZE : Z := 8.

(** Prefixes *)
Definition INAT_PFX_OPNDSZ : Z := 1.
Definition INAT_PFX_ADDRSZ : Z := 11.
Definition INAT_PFX_REX : Z := 12.
Definition INAT_PFX_VEX2 : Z := 13.
Definition INAT_PFX_VEX3 : Z := 14.
Definition INAT_PFX_EVEX : Z := 15.
Definition INAT_LSTPFX_MAX : Z := 3.
Definition INAT_LGCPFX_MAX : Z := 11.

(** Sizes of immediates *)
Definition INAT_IMM_BYTE : Z := 1.
Definition INAT_IMM_WORD : Z := 2.
Definition INAT_IMM_DWORD : Z := 3.
Definition INAT_IMM_QWORD : Z := 4.
Definition INAT_IMM_PTR : Z := 5.
Definition INAT_IMM_VWORD32 : Z := 6.
Definition INAT_IMM_VWORD : Z := 7.

(** Bit fields of an attribute *)
Definition INAT_PFX_OFFS : Z := 0.
Definition INAT_PFX_BITS : Z := 4.
Definition INAT_PFX_MAX : Z := (1 .<< INAT_PFX_BITS) - 1.
Definition INAT_PFX_MASK : Z := INAT_PFX_MAX .<< INAT_PFX_OFFS.
Definition INAT_ESC_OFFS : Z := INAT_PFX_OFFS + INAT_PFX_BITS.
Definition INAT_ESC_BITS : Z := 2.
Definition INAT_ESC_MAX : Z := (1 .<< INAT_ESC_BITS) - 1.
Definition INAT_ESC_MASK : Z := INAT_ESC_MAX .<< INAT_ESC_OFFS.
Definition INAT_GRP_OFFS : Z := INAT_ESC_OFFS + INAT_ESC_BITS.
Definition INAT_GRP_BITS : Z := 5.
Definition INAT_GRP_MAX : Z := (1 .<< INAT_GRP_BITS) - 1.
Definition INAT_GRP_MASK : Z := INAT_GRP_MAX .<< INAT_GRP_OFFS.
Definition INAT_IMM_OFFS : Z := INAT_GRP_OFFS + INAT_GRP_BITS.
Definition INAT_IMM_BITS : Z := 3.
Definition INAT_IMM_MASK : Z := ((1 .<< INAT_IMM_BITS) - 1) .<< INAT_IMM_OFFS.
Definition INAT_FLAG_OFFS : Z := INAT_IMM_OFFS + INAT_IMM_BITS.
Definition INAT_MODRM : Z := 1 .<< INAT_FLAG_OFFS.
Definition INAT_FORCE64 : Z := 1 .<< (INAT_FLAG_OFFS + 1).
Definition INAT_SCNDIMM : Z := 1 .<< (INAT_FLAG_OFFS + 2).
Definition INAT_MOFFSET : Z := 1 .<< (INAT_FLAG_OFFS + 3).
Definition INAT_VARIANT : Z := 1 .<< (INAT_FLAG_OFFS + 4).
Definition INAT_VEXOK : Z := 1 .<< (INAT_FLAG_OFFS + 5).
Definition INAT_VEXONLY : Z := 1 .<< (INAT_FLAG_OFFS + 6).
Definition INAT_EVEXONLY : Z := 1 .<< (INAT_FLAG_OFFS + 7).
Definition INAT_MAKE_PREFIX (pfx : Z) : Z := pfx .<< INAT_PFX_OFFS.
Definition INAT_MAKE_ESCAPE (esc : Z) : Z := esc .<< INAT_ESC_OFFS.
Definition INAT_MAKE_GROUP (grp : Z) : Z := (grp .<< INAT_GRP_OFFS) .| INAT_MODRM.
Definition INAT_MAKE_IMM (imm : Z) : Z := imm .<< INAT_IMM_OFFS.

(** The checks the source writes as a non-zero [attr & mask]. *)
Definition has_bits (attr mask : Z) : bool := negb (attr .& mask =? 0).

Definition inat_is_legacy_prefix (attr : Z) : bool :=
  let attr := attr .& INAT_PFX_MASK in negb (attr =? 0) && (attr <=? INAT_LGCPFX_MAX).
Definition inat_is_address_size_prefix (attr : Z) : bool := attr .& INAT_PFX_MASK =? INAT_PFX_ADDRSZ.
Definition inat_is_operand_size_prefix (attr : Z) : bool := attr .& INAT_PFX_MASK =? INAT_PFX_OPNDSZ.
Definition inat_is_rex_prefix (attr : Z) : bool := attr .& INAT_PFX_MASK =? INAT_PFX_REX.
Definition inat_last_prefix_id (attr : Z) : Z :=
  if INAT_LSTPFX_MAX <? attr .& INAT_PFX_MASK then 0 else attr .& INAT_PFX_MASK.
Definition inat_is_vex_prefix (attr : Z) : bool :=
  let attr := attr .& INAT_PFX_MASK in
  (attr =? INAT_PFX_VEX2) || (attr =? INAT_PFX_VEX3) || (attr =? INAT_PFX_EVEX).
Definition inat_is_evex_prefix (attr : Z) : bool := attr .& INAT_PFX_MASK =? INAT_PFX_EVEX.
Definition inat_is_vex3_prefix (attr : Z) : bool := attr .& INAT_PFX_MASK =? INAT_PFX_VEX3.
Definition inat_is_escape (attr : Z) : bool := has_bits attr INAT_ESC_MASK.
Definition inat_escape_id (attr : Z) : Z := (attr .& INAT_ESC_MASK) .>> INAT_ESC_OFFS.
Definition inat_is_group (attr : Z) : bool := has_bits attr INAT_GRP_MASK.
Definition inat_group_id (attr : Z) : Z := (attr .& INAT_GRP_MASK) .>> INAT_GRP_OFFS.
Definition inat_group_common_attribute (attr : Z) : Z := attr .& .~ INAT_GRP_MASK.
Definition inat_has_immediate (attr : Z) : bool := has_bits attr INAT_IMM_MASK.
Definition inat_immediate_size (attr : Z) : Z := (attr .& INAT_IMM_MASK) .>> INAT_IMM_OFFS.
Definition inat_has_modrm (attr : Z) : bool := has_bits attr INAT_MODRM.
Definition inat_is_force64 (attr : Z) : bool := has_bits attr INAT_FORCE64.
Definition inat_has_second_immediate (attr : Z) : bool := has_bits attr INAT_SCNDIMM.
Definition inat_has_moffset (attr : Z) : bool := has_bits attr INAT_MOFFSET.
Definition inat_has_variant (attr : Z) : bool := has_bits attr INAT_VARIANT.
Definition inat_accept_vex (attr : Z) : bool := has_bits attr INAT_VEXOK.
Definition inat_must_vex (attr : Z) : bool := has_bits attr (INAT_VEXONLY .| INAT_EVEXONLY).
Definition inat_must_evex (attr : Z) : bool := has_bits attr INAT_EVEXONLY.

(** Bit fields of ModRM, SIB, REX and VEX bytes (insn.h) *)
Definition X86_MODRM_MOD (modrm : Z) : Z := (modrm .& 0xc0) .>> 6.
Definition X86_MODRM_REG (modrm : Z) : Z := (modrm .& 0x38) .>> 3.
Definition X86_MODRM_RM (modrm : Z) : Z := modrm .& 0x07.
Definition X86_SIB_BASE (sib : Z) : Z := sib .& 0x07.
Definition X86_REX_W (rex : Z) : bool := has_bits rex 8.
Definition X86_VEX_W (vex : Z) : bool := has_bits vex 0x80.
Definition X86_EVEX_M (vex : Z) : Z := vex .& 0x07.
Definition X86_VEX3_M (vex : Z) : Z := vex .& 0x1f.
Definition X86_VEX2_M : Z := 1.
Definition X86_VEX_P (vex : Z) : Z := vex .& 0x03.
Definition X86_VEX_M_MAX : Z := 0x1f.

(** ** Tables *)


(** The generated tables; an entry of the last three may be a null pointer. *)
Class InatTables := {
  inat_primary_table : list Z;
  inat_escape_tables : list (list (option (list Z)));
  inat_group_tables : list (list (option (list Z)));
  inat_avx_tables : list (list (option (list Z)))
}.

Section inat.
Context `{InatTables}.

(** [None] in these functions is an index outside a table. *)
Definition inat_get_opcode_attribute (opcode : Z) : option Z := idx inat_primary_table opcode.

Definition inat_get_last_prefix_id (last_pfx : Z) : option Z :=
  inat_last_prefix_id <$> inat_get_opcode_attribute last_pfx.

Definition inat_get_escape_attribute (opcode lpfx_id esc_attr : Z) : option Z :=
  tables ← idx inat_escape_tables (inat_escape_id esc_attr);
  table ← idx tables 0;
  match table with
  | None => Some 0
  | Some table =>
    a ← idx table opcode;
    if inat_has_variant a && negb (lpfx_id =? 0) then
      table ← idx tables lpfx_id;
      match table with
      | None => Some 0
      | Some table => idx table opcode
      end
    else Some a
  end.

Definition inat_get_group_attribute (modrm lpfx_id grp_attr : Z) : option Z :=
  let common := inat_group_common_attribute grp_attr in
  tables ← idx inat_group_tables (inat_group_id grp_attr);
  table ← idx tables 0;
  match table with
  | None => Some common
  | Some table =>
    a ← idx table (X86_MODRM_REG modrm);
    if inat_has_variant a && negb (lpfx_id =? 0) then
      table ← idx tables lpfx_id;
      match table with
      | None => Some common
      | Some table => a ← idx table (X86_MODRM_REG modrm); Some (a .| common)
      end
    else Some (a .| common)
  end.

Definition inat_get_avx_attribute (opcode vex_m vex_p : Z) : option Z :=
  if (X86_VEX_M_MAX <? vex_m) || (INAT_LSTPFX_MAX <? vex_p) then Some 0
  else
    tables ← idx inat_avx_tables vex_m;
    table ← idx tables 0;
    match table with
    | None => Some 0
    | Some table =>
      a ← idx table opcode;
      if negb (inat_is_group a) && negb (vex_p =? 0) then
        table ← idx tables vex_p;
        match table with
        | None => Some 0
        | Some table => idx table opcode
        end
      else Some a
    end.
End inat.
