(* ===== verification/InsnDecoder.v ===== *)
(** The x86 instruction decoder: tools/arch/x86/include/asm/insn.h and
    tools/arch/x86/lib/insn.c, on a little-endian host. *)
From Stdlib Require Import ZArith Lia List Bool.
From S2P Require Import Prelude InsnAttr.
Open Scope Z_scope.
Open Scope c_scope.
Import ListNotations.

Definition MAX_INSN_SIZE : Z := 15.

(** ** [struct insn_field]

    [value] and [bytes[4]] share their storage. *)
Record insn_field := mkField {
  f_value : Z;
  f_got : bool;
  f_nbytes : Z
}.

#[export] Instance eta_field : Eta insn_field := fun p => mkField (f_value p) (f_got p) (f_nbytes p).
#[export] Instance set_f_value : Setter f_value := ltac:(solve_setter).
#[export] Instance set_f_got : Setter f_got := ltac:(solve_setter).
#[export] Instance set_f_nbytes : Setter f_nbytes := ltac:(solve_setter).

Definition insn_field_set (p : insn_field) (v n : Z) : insn_field :=
  p <| f_value := v |> <| f_nbytes := u8 n |>.

(** [p->bytes[n]]; [None] outside the array. *)
Definition insn_byte (p : insn_field) (n : Z) : option Z :=
  if (0 <=? n) && (n <? 4) then Some ((f_value p .>> (8 * n)) .& 0xff) else None.

Definition insn_set_byte (p : insn_field) (n v : Z) : option insn_field :=
  if (0 <=? n) && (n <? 4) then
    Some (p <| f_value := s32 ((f_value p .& .~ (0xff .<< (8 * n))) .| (v .<< (8 * n))) |>)
  else None.

(** ** [struct insn]

    [i_immediate] is also [moffset1] and [immediate1], [i_immediate2] also
    [moffset2].  [i_kaddr] is the memory from [kaddr] on; [i_end_kaddr] and
    [i_next_byte] are offsets in it. *)
Record insn := mkX86 {
  i_prefixes : insn_field;
  i_rex_prefix : insn_field;
  i_vex_prefix : insn_field;
  i_opcode : insn_field;
  i_modrm : insn_field;
  i_sib : insn_field;
  i_displacement : insn_field;
  i_immediate : insn_field;
  i_immediate2 : insn_field;
  i_emulate_prefix_size : Z;
  i_attr : Z;
  i_opnd_bytes : Z;
  i_addr_bytes : Z;
  i_length : Z;
  i_x86_64 : bool;
  i_kaddr : list byte;
  i_end_kaddr : Z;
  i_next_byte : Z
}.

#[export] Instance eta_insn : Eta insn :=
  fun i => mkX86 (i_prefixes i) (i_rex_prefix i) (i_vex_prefix i) (i_opcode i) (i_modrm i)
    (i_sib i) (i_displacement i) (i_immediate i) (i_immediate2 i) (i_emulate_prefix_size i)
    (i_attr i) (i_opnd_bytes i) (i_addr_bytes i) (i_length i) (i_x86_64 i)
    (i_kaddr i) (i_end_kaddr i) (i_next_byte i).
#[export] Instance set_i_prefixes : Setter i_prefixes := ltac:(solve_setter).
#[export] Instance set_i_rex_prefix : Setter i_rex_prefix := ltac:(solve_setter).
#[export] Instance set_i_vex_prefix : Setter i_vex_prefix := ltac:(solve_setter).
#[export] Instance set_i_opcode : Setter i_opcode := ltac:(solve_setter).
#[export] Instance set_i_modrm : Setter i_modrm := ltac:(solve_setter).
#[export] Instance set_i_sib : Setter i_sib := ltac:(solve_setter).
#[export] Instance set_i_displacement : Setter i_displacement := ltac:(solve_setter).
#[export] Instance set_i_immediate : Setter i_immediate := ltac:(solve_setter).
#[export] Instance set_i_immediate2 : Setter i_immediate2 := ltac:(solve_setter).
#[export] Instance set_i_emulate_prefix_size : Setter i_emulate_prefix_size := ltac:(solve_setter).
#[export] Instance set_i_attr : Setter i_attr := ltac:(solve_setter).
#[export] Instance set_i_opnd_bytes : Setter i_opnd_bytes := ltac:(solve_setter).
#[export] Instance set_i_addr_bytes : Setter i_addr_bytes := ltac:(solve_setter).
#[export] Instance set_i_length : Setter i_length := ltac:(solve_setter).
#[export] Instance set_i_x86_64 : Setter i_x86_64 := ltac:(solve_setter).
#[export] Instance set_i_kaddr : Setter i_kaddr := ltac:(solve_setter).
#[export] Instance set_i_end_kaddr : Setter i_end_kaddr := ltac:(solve_setter).
#[export] Instance set_i_next_byte : Setter i_next_byte := ltac:(solve_setter).

(** ** Effects

    A decoding function changes the structure and may jump to [err_out].
    [IFault] is an access outside the buffer, an array or a table (or a loop
    that runs out of fuel, which [insn_decode_safe] excludes as well). *)
Inductive ires (A : Type) : Type :=
| IFault
| IErr (i : insn)
| IRet (a : A) (i : insn).
Arguments IFault {A}.
Arguments IErr {A} _.
Arguments IRet {A} _ _.

Definition I (A : Type) : Type := insn -> ires A.
#[export] Instance I_ret : MRet I := fun A a i => IRet a i.
#[export] Instance I_bind : MBind I := fun A B k m i =>
  match m i with
  | IFault => IFault
  | IErr i' => IErr i'
  | IRet a i' => k a i'
  end.

Definition iget : I insn := fun i => IRet i i.
Definition imodify (f : insn -> insn) : I unit := fun i => IRet tt (f i).
Definition ilift {A} (o : option A) : I A := fun i =>
  match o with Some a => IRet a i | None => IFault end.
Definition err_out {A} : I A := fun i => IErr i.
Definition ifault {A} : I A := fun i => IFault.

(** [m], with [err_out: return ret]. *)
Definition on_err_out (ret : Z) (m : I Z) : I Z := fun i =>
  match m i with
  | IErr i' => IRet ret i'
  | r => r
  end.

(** [insn_set_byte(&insn->p, n, v)] *)
Definition set_byte (p : insn -> insn_field) `{!Setter p} (n v : Z) : I unit :=
  i ← iget;
  f ← ilift (insn_set_byte (p i) n v);
  imodify (fun i => i <| p := f |>).

(** ** Reading bytes *)

(** [validate_next(t, insn, n)], for a type of [sz] bytes. *)
Definition validate_next (sz n : Z) (i : insn) : bool := i_next_byte i + sz + n <=? i_end_kaddr i.

Definition get_unsigned (sz : nat) : I Z :=
  i ← iget;
  if validate_next (Z.of_nat sz) 0 i then
    v ← ilift (rd_le (i_kaddr i) (i_next_byte i) sz);
    imodify (fun i => i <| i_next_byte := i_next_byte i + Z.of_nat sz |>) ;;
    mret v
  else err_out.

(** [get_next(t, insn)] for the unsigned types and for the signed ones. *)
Definition get_next_byte : I Z := get_unsigned 1.
Definition get_next_ushort : I Z := get_unsigned 2.
Definition get_next_signed (sz : nat) : I Z :=
  v ← get_unsigned sz; mret (swrap (8 * Z.of_nat sz) v).

Definition peek_nbyte_next (n : Z) : I Z :=
  i ← iget;
  if validate_next 1 n i then ilift (rd (i_kaddr i) (i_next_byte i + n)) else err_out.
Definition peek_next : I Z := peek_nbyte_next 0.

Definition skip_next (n : Z) : I unit := imodify (fun i => i <| i_next_byte := i_next_byte i + n |>).

(** ** Decoding *)

(** [insn_init] *)
Definition insn_init (kaddr : list byte) (buf_len : Z) (x86_64 : bool) : insn :=
  let buf_len := if MAX_INSN_SIZE <? buf_len then MAX_INSN_SIZE else buf_len in
  let z := mkField 0 false 0 in
  mkX86 z z z z z z z z z 0 0 4 (if x86_64 then 8 else 4) 0 x86_64 kaddr buf_len 0.

Definition xen_prefix : list Z := [0x0f; 0x0b; 0x78; 0x65; 0x6e].
Definition kvm_prefix : list Z := [0x0f; 0x0b; 0x6b; 0x76; 0x6d].

(** [for (i = 0; i < len; i++) if (peek(i) != prefix[i]) goto err_out] *)
Fixpoint match_prefix (n : Z) (prefix : list Z) : I unit :=
  match prefix with
  | [] => mret tt
  | p :: prefix =>
    b ← peek_nbyte_next n;
    if b =? p then match_prefix (n + 1) prefix else err_out
  end.

Definition insn_get_emulate_prefix_1 (prefix : list Z) : I Z :=
  on_err_out 0 (
    match_prefix 0 prefix ;;
    let len := Z.of_nat (length prefix) in
    imodify (fun i => i <| i_emulate_prefix_size := len |>) ;;
    skip_next len ;;
    mret 1).

Definition insn_get_emulate_prefix : I unit :=
  r ← insn_get_emulate_prefix_1 xen_prefix;
  if negb (r =? 0) then mret tt
  else insn_get_emulate_prefix_1 kvm_prefix ;; mret tt.

(** [for (i = 0; i < nb; i++) if (p->bytes[i] == b) goto found] *)
Fixpoint find_byte (nb : nat) (i : Z) (p : insn_field) (b : Z) : option bool :=
  match nb with
  | O => Some false
  | S nb' => x ← insn_byte p i; if x =? b then Some true else find_byte nb' (i + 1) p b
  end.

(** [for (i = 0; i < nb; i++) if (p->bytes[i] == lb) insn_set_byte(p, i, b)] *)
Fixpoint replace_byte (nb : nat) (i : Z) (lb b : Z) (p : insn_field) : option insn_field :=
  match nb with
  | O => Some p
  | S nb' =>
    x ← insn_byte p i;
    p ← (if x =? lb then insn_set_byte p i b else Some p);
    replace_byte nb' (i + 1) lb b p
  end.

Section decoder.
Context `{InatTables}.

(** A new legacy prefix [b]. *)
Definition add_prefix (nb b attr : Z) : I unit :=
  set_byte i_prefixes nb b ;;
  imodify (fun i =>
    if inat_is_address_size_prefix attr then
      i <| i_addr_bytes := Z.lxor (i_addr_bytes i) (if i_x86_64 i then 12 else 6) |>
    else if inat_is_operand_size_prefix attr then
      i <| i_opnd_bytes := Z.lxor (i_opnd_bytes i) 6 |>
    else i).

(** [found:], with the last prefix and the byte that follows. *)
Definition next_prefix : I Z :=
  imodify (fun i => i <| i_prefixes ::= fun p => p <| f_nbytes := u8 (f_nbytes p + 1) |> |>) ;;
  skip_next 1 ;;
  peek_next.

(** [while (inat_is_legacy_prefix(attr))]: the number of distinct prefixes and
    the last one. *)
Fixpoint prefix_loop (fuel : nat) (nb lb b : Z) : I (Z * Z) :=
  match fuel with
  | O => ifault
  | S fuel' =>
    attr ← ilift (inat_get_opcode_attribute b);
    if inat_is_legacy_prefix attr then
      i ← iget;
      found ← ilift (find_byte (Z.to_nat nb) 0 (i_prefixes i) b);
      if (found : bool) then
        b' ← next_prefix; prefix_loop fuel' nb b b'
      else if nb =? 4 then mret (nb, lb)
      else
        add_prefix nb b attr ;;
        b' ← next_prefix; prefix_loop fuel' (nb + 1) b b'
    else mret (nb, lb)
  end.

(** [/* Set the last prefix */] *)
Definition set_last_prefix (nb lb : Z) : I unit :=
  i ← iget;
  last ← ilift (insn_byte (i_prefixes i) 3);
  if negb (lb =? 0) && negb (lb =? last) then
    (if negb (last =? 0) then
       p ← ilift (replace_byte (Z.to_nat nb) 0 lb last (i_prefixes i));
       imodify (fun i => i <| i_prefixes := p |>)
     else mret tt) ;;
    set_byte i_prefixes 3 lb
  else mret tt.

(** [/* Decode REX prefix */] *)
Definition get_rex_prefix : I unit :=
  i ← iget;
  (if i_x86_64 i then
     b ← peek_next;
     attr ← ilift (inat_get_opcode_attribute b);
     if inat_is_rex_prefix attr then
       imodify (fun i => i <| i_rex_prefix := insn_field_set (i_rex_prefix i) b 1 |>) ;;
       skip_next 1 ;;
       (if X86_REX_W b then imodify (fun i => i <| i_opnd_bytes := 8 |>) else mret tt)
     else mret tt
   else mret tt) ;;
  imodify (fun i => i <| i_rex_prefix ::= fun p => p <| f_got := true |> |>).

(** The length of a VEX prefix; bit W of its last byte. *)
Definition set_vex_length (n : Z) : I unit :=
  imodify (fun i => i <| i_vex_prefix ::= fun p => p <| f_nbytes := n |> |>) ;;
  skip_next n.
Definition set_vex_w (b2 : Z) : I unit :=
  imodify (fun i => if i_x86_64 i && X86_VEX_W b2 then i <| i_opnd_bytes := 8 |> else i).

(** [/* Decode VEX prefix */] *)
Definition get_vex_prefix : I unit :=
  b ← peek_next;
  attr ← ilift (inat_get_opcode_attribute b);
  (if inat_is_vex_prefix attr then
     b2 ← peek_nbyte_next 1;
     i ← iget;
     if negb (i_x86_64 i) && negb (X86_MODRM_MOD b2 =? 3) then mret tt
     else
       set_byte i_vex_prefix 0 b ;;
       set_byte i_vex_prefix 1 b2 ;;
       if inat_is_evex_prefix attr then
         b2 ← peek_nbyte_next 2;
         set_byte i_vex_prefix 2 b2 ;;
         b2 ← peek_nbyte_next 3;
         set_byte i_vex_prefix 3 b2 ;;
         set_vex_length 4 ;;
         set_vex_w b2
       else if inat_is_vex3_prefix attr then
         b2 ← peek_nbyte_next 2;
         set_byte i_vex_prefix 2 b2 ;;
         set_vex_length 3 ;;
         set_vex_w b2
       else
         set_byte i_vex_prefix 2 (b2 .& 0x7f) ;;
         set_vex_length 2
   else mret tt) ;;
  imodify (fun i => i <| i_vex_prefix ::= fun p => p <| f_got := true |> |>).

Definition insn_get_prefixes : I Z :=
  i ← iget;
  if f_got (i_prefixes i) then mret 0
  else on_err_out (- ENODATA) (
    insn_get_emulate_prefix ;;
    b ← peek_next;
    '(nb, lb) ← prefix_loop (S (Z.to_nat MAX_INSN_SIZE)) 0 0 b;
    set_last_prefix nb lb ;;
    get_rex_prefix ;;
    get_vex_prefix ;;
    imodify (fun i => i <| i_prefixes ::= fun p => p <| f_got := true |> |>) ;;
    mret 0).

(** *** Helpers of insn.h *)

Definition insn_is_avx : I bool :=
  i ← iget;
  (if f_got (i_prefixes i) then mret 0 else insn_get_prefixes) ;;
  i ← iget;
  mret (negb (f_value (i_vex_prefix i) =? 0)).

Definition insn_is_evex : I bool :=
  i ← iget;
  (if f_got (i_prefixes i) then mret 0 else insn_get_prefixes) ;;
  i ← iget;
  mret (f_nbytes (i_vex_prefix i) =? 4).

Definition insn_vex_m_bits : I Z :=
  i ← iget;
  b1 ← ilift (insn_byte (i_vex_prefix i) 1);
  mret (if f_nbytes (i_vex_prefix i) =? 2 then X86_VEX2_M
        else if f_nbytes (i_vex_prefix i) =? 3 then X86_VEX3_M b1
        else X86_EVEX_M b1).

Definition insn_vex_p_bits : I Z :=
  i ← iget;
  b ← ilift (insn_byte (i_vex_prefix i) (if f_nbytes (i_vex_prefix i) =? 2 then 1 else 2));
  mret (X86_VEX_P b).

Definition insn_last_prefix_id : I Z :=
  avx ← insn_is_avx;
  if (avx : bool) then insn_vex_p_bits
  else
    i ← iget;
    last ← ilift (insn_byte (i_prefixes i) 3);
    if negb (last =? 0) then ilift (inat_get_last_prefix_id last) else mret 0.

(** *** Opcode *)

(** [insn->attr = 0; return -EINVAL] *)
Definition bad_insn : I Z := imodify (fun i => i <| i_attr := 0 |>) ;; mret (- EINVAL).

(** The opcode byte [op] after a VEX prefix. *)
Definition get_avx_opcode (op : Z) : I Z :=
  m ← insn_vex_m_bits;
  p ← insn_vex_p_bits;
  attr ← ilift (inat_get_avx_attribute op m p);
  imodify (fun i => i <| i_attr := attr |>) ;;
  evex ← insn_is_evex;
  if (inat_must_evex attr && negb evex) || (negb (inat_accept_vex attr) && negb (inat_is_group attr))
  then bad_insn
  else
    imodify (fun i => i <| i_opcode ::= fun p => p <| f_got := true |> |>) ;;
    mret 0.

(** [opcode->bytes[opcode->nbytes++] = op] *)
Definition push_opcode (op : Z) : I unit :=
  i ← iget;
  set_byte i_opcode (f_nbytes (i_opcode i)) op ;;
  imodify (fun i => i <| i_opcode ::= fun p => p <| f_nbytes := u8 (f_nbytes p + 1) |> |>).

(** [while (inat_is_escape(insn->attr))] *)
Fixpoint escape_loop (fuel : nat) : I unit :=
  match fuel with
  | O => ifault
  | S fuel' =>
    i ← iget;
    if inat_is_escape (i_attr i) then
      op ← get_next_byte;
      push_opcode op ;;
      pfx_id ← insn_last_prefix_id;
      i ← iget;
      attr ← ilift (inat_get_escape_attribute op pfx_id (i_attr i));
      imodify (fun i => i <| i_attr := attr |>) ;;
      escape_loop fuel'
    else mret tt
  end.

Definition get_plain_opcode (op : Z) : I Z :=
  attr ← ilift (inat_get_opcode_attribute op);
  imodify (fun i => i <| i_attr := attr |>) ;;
  escape_loop (S (Z.to_nat MAX_INSN_SIZE)) ;;
  i ← iget;
  if inat_must_vex (i_attr i) then bad_insn
  else
    imodify (fun i => i <| i_opcode ::= fun p => p <| f_got := true |> |>) ;;
    mret 0.

(** [if (!insn->f.got) { ret = get(insn); if (ret) return ret; } k] *)
Definition need (f : insn -> insn_field) (get : I Z) (k : I Z) : I Z :=
  i ← iget;
  ret ← (if f_got (f i) then mret 0 else get);
  if negb (ret =? 0) then mret ret else k.

Definition insn_get_opcode : I Z :=
  i ← iget;
  if f_got (i_opcode i) then mret 0
  else on_err_out (- ENODATA) (need i_prefixes insn_get_prefixes (
    op ← get_next_byte;
    set_byte i_opcode 0 op ;;
    imodify (fun i => i <| i_opcode ::= fun p => p <| f_nbytes := 1 |> |>) ;;
    avx ← insn_is_avx;
    if (avx : bool) then get_avx_opcode op else get_plain_opcode op)).

(** *** ModRM, SIB and displacement *)

(** [insn->f.got = 1; return 0] *)
Definition got_it (f : insn -> insn_field) `{!Setter f} : I Z :=
  imodify (fun i => i <| f ::= fun p => p <| f_got := true |> |>) ;; mret 0.
Definition set_field (f : insn -> insn_field) `{!Setter f} (v n : Z) : I unit :=
  imodify (fun i => i <| f ::= fun p => insn_field_set p v n |>).

Definition modrm_done : I Z :=
  imodify (fun i =>
    if i_x86_64 i && inat_is_force64 (i_attr i) then i <| i_opnd_bytes := 8 |> else i) ;;
  got_it i_modrm.

(** The attribute of a group, chosen by the ModRM byte [mod_]. *)
Definition get_group (mod_ : Z) : I Z :=
  pfx_id ← insn_last_prefix_id;
  i ← iget;
  attr ← ilift (inat_get_group_attribute mod_ pfx_id (i_attr i));
  imodify (fun i => i <| i_attr := attr |>) ;;
  avx ← insn_is_avx;
  if avx && negb (inat_accept_vex attr) then bad_insn else modrm_done.

Definition insn_get_modrm : I Z :=
  i ← iget;
  if f_got (i_modrm i) then mret 0
  else on_err_out (- ENODATA) (need i_opcode insn_get_opcode (
    i ← iget;
    if inat_has_modrm (i_attr i) then
      mod_ ← get_next_byte;
      set_field i_modrm mod_ 1 ;;
      if inat_is_group (i_attr i) then get_group mod_ else modrm_done
    else modrm_done)).

Definition insn_rip_relative : I Z :=
  i ← iget;
  if negb (i_x86_64 i) then mret 0
  else
    ret ← (if f_got (i_modrm i) then mret 0 else insn_get_modrm);
    if negb (ret =? 0) then mret 0
    else
      i ← iget;
      b0 ← ilift (insn_byte (i_modrm i) 0);
      mret (Z.b2z (negb (f_nbytes (i_modrm i) =? 0) && (b0 .& 0xc7 =? 0x5))).

Definition insn_get_sib : I Z :=
  i ← iget;
  if f_got (i_sib i) then mret 0
  else on_err_out (- ENODATA) (need i_modrm insn_get_modrm (
    i ← iget;
    (if negb (f_nbytes (i_modrm i) =? 0) then
       modrm ← ilift (insn_byte (i_modrm i) 0);
       if negb (i_addr_bytes i =? 2) && negb (X86_MODRM_MOD modrm =? 3)
          && (X86_MODRM_RM modrm =? 4)
       then v ← get_next_byte; set_field i_sib v 1
       else mret tt
     else mret tt) ;;
    got_it i_sib)).

(** The bytes of the displacement that a ModRM byte asks for; 0 for none. *)
Definition displacement_size (i : insn) : nat :=
  let mod_ := X86_MODRM_MOD (f_value (i_modrm i)) in
  let rm := X86_MODRM_RM (f_value (i_modrm i)) in
  let base := X86_SIB_BASE (f_value (i_sib i)) in
  if mod_ =? 3 then 0
  else if mod_ =? 1 then 1
  else if i_addr_bytes i =? 2 then
    if ((mod_ =? 0) && (rm =? 6)) || (mod_ =? 2) then 2 else 0
  else
    if ((mod_ =? 0) && (rm =? 5)) || (mod_ =? 2) || ((mod_ =? 0) && (base =? 5)) then 4 else 0.

Definition insn_get_displacement : I Z :=
  i ← iget;
  if f_got (i_displacement i) then mret 0
  else on_err_out (- ENODATA) (need i_sib insn_get_sib (
    i ← iget;
    (if negb (f_nbytes (i_modrm i) =? 0) then
       match displacement_size i with
       | O => mret tt
       | sz => v ← get_next_signed sz; set_field i_displacement v (Z.of_nat sz)
       end
     else mret tt) ;;
    got_it i_displacement)).

(** *** Immediates *)

(** [insn_field_set(&insn->f, get_next(t, insn), n)] for a signed type [t]. *)
Definition get_field (f : insn -> insn_field) `{!Setter f} (n : nat) : I unit :=
  v ← get_next_signed n; set_field f v (Z.of_nat n).

(** [insn->immediate1.got = insn->immediate2.got = 1; return 1] *)
Definition both_got : I Z :=
  imodify (fun i => i <| i_immediate ::= fun p => p <| f_got := true |> |>
                      <| i_immediate2 ::= fun p => p <| f_got := true |> |>) ;;
  mret 1.

Definition get_moffset : I Z := on_err_out 0 (
  i ← iget;
  if i_addr_bytes i =? 2 then get_field i_immediate 2 ;; both_got
  else if i_addr_bytes i =? 4 then get_field i_immediate 4 ;; both_got
  else if i_addr_bytes i =? 8 then get_field i_immediate 4 ;; get_field i_immediate2 4 ;; both_got
  else err_out).

Definition get_immv32 : I Z := on_err_out 0 (
  i ← iget;
  if i_opnd_bytes i =? 2 then get_field i_immediate 2 ;; mret 1
  else if (i_opnd_bytes i =? 4) || (i_opnd_bytes i =? 8) then get_field i_immediate 4 ;; mret 1
  else err_out).

Definition get_immv : I Z := on_err_out 0 (
  i ← iget;
  if i_opnd_bytes i =? 2 then get_field i_immediate 2 ;; both_got
  else if i_opnd_bytes i =? 4 then get_field i_immediate 4 ;; both_got
  else if i_opnd_bytes i =? 8 then get_field i_immediate 4 ;; get_field i_immediate2 4 ;; both_got
  else err_out).

Definition get_immptr : I Z := on_err_out 0 (
  i ← iget;
  let segment := v ← get_next_ushort; set_field i_immediate2 v 2 ;; both_got in
  if i_opnd_bytes i =? 2 then get_field i_immediate 2 ;; segment
  else if i_opnd_bytes i =? 4 then get_field i_immediate 4 ;; segment
  else if i_opnd_bytes i =? 8 then mret 0
  else err_out).

(** [if (!m) goto err_out] *)
Definition or_err_out (m : I Z) : I unit :=
  r ← m; if r =? 0 then err_out else mret tt.

(** [switch (inat_immediate_size(insn->attr))] *)
Definition get_immediate_of_size (size : Z) : I unit :=
  if size =? INAT_IMM_BYTE then get_field i_immediate 1
  else if size =? INAT_IMM_WORD then get_field i_immediate 2
  else if size =? INAT_IMM_DWORD then get_field i_immediate 4
  else if size =? INAT_IMM_QWORD then get_field i_immediate 4 ;; get_field i_immediate2 4
  else if size =? INAT_IMM_PTR then or_err_out get_immptr
  else if size =? INAT_IMM_VWORD32 then or_err_out get_immv32
  else if size =? INAT_IMM_VWORD then or_err_out get_immv
  else err_out.

Definition insn_get_immediate : I Z :=
  i ← iget;
  if f_got (i_immediate i) then mret 0
  else on_err_out (- ENODATA) (need i_displacement insn_get_displacement (
    i ← iget;
    (if inat_has_moffset (i_attr i) then or_err_out get_moffset
     else if negb (inat_has_immediate (i_attr i)) then mret tt
     else
       get_immediate_of_size (inat_immediate_size (i_attr i)) ;;
       if inat_has_second_immediate (i_attr i) then get_field i_immediate2 1 else mret tt) ;;
    got_it i_immediate)).

(** *** Whole instructions *)

Definition insn_get_length : I Z :=
  i ← iget;
  if negb (i_length i =? 0) then mret 0
  else need i_immediate insn_get_immediate (
    imodify (fun i => i <| i_length := u8 (i_next_byte i) |>) ;; mret 0).

Definition insn_complete (i : insn) : bool :=
  f_got (i_opcode i) && f_got (i_modrm i) && f_got (i_sib i) && f_got (i_displacement i)
  && f_got (i_immediate i).

(** [enum insn_mode], and the value insn.c redefines [INSN_MODE_KERN] to;
    [config_x86_64] is [IS_ENABLED(CONFIG_X86_64)]. *)
Definition INSN_MODE_32 : Z := 0.
Definition INSN_MODE_64 : Z := 1.
Definition INSN_MODE_KERN : Z := -1.

(** The return value and the structure; [None] for a bad access. *)
Definition insn_decode (config_x86_64 : bool) (kaddr : list byte) (buf_len : Z) (m : Z)
    : option (Z * insn) :=
  let x86_64 := if m =? INSN_MODE_KERN then config_x86_64 else m =? INSN_MODE_64 in
  match insn_get_length (insn_init kaddr buf_len x86_64) with
  | IRet ret i =>
    if negb (ret =? 0) then Some (ret, i)
    else if insn_complete i then Some (0, i)
    else Some (- EINVAL, i)
  | _ => None
  end.
End decoder.

(** ** Offsets of the fields from [kaddr] (insn.h) *)
Definition insn_offset_rex_prefix (i : insn) : Z := f_nbytes (i_prefixes i).
Definition insn_offset_vex_prefix (i : insn) : Z :=
  insn_offset_rex_prefix i + f_nbytes (i_rex_prefix i).
Definition insn_offset_opcode (i : insn) : Z := insn_offset_vex_prefix i + f_nbytes (i_vex_prefix i).
Definition insn_offset_modrm (i : insn) : Z := insn_offset_opcode i + f_nbytes (i_opcode i).
Definition insn_offset_sib (i : insn) : Z := insn_offset_modrm i + f_nbytes (i_modrm i).
Definition insn_offset_displacement (i : insn) : Z := insn_offset_sib i + f_nbytes (i_sib i).
Definition insn_offset_immediate (i : insn) : Z :=
  insn_offset_displacement i + f_nbytes (i_displacement i).
