(* ===== verification/PtInsn.v ===== *)
(** What the Intel PT decoder needs to know of an instruction:
    tools/perf/util/intel-pt-decoder/intel-pt-insn-decoder.c. *)
From Stdlib Require Import ZArith Lia List Bool.
From S2P Require Import Prelude Float64 PktDecoder PtStack PtState InsnAttr InsnDecoder.
Open Scope Z_scope.
Open Scope c_scope.
Import ListNotations.

Definition INTEL_PT_INSN_BUF_SZ : Z := 16.

(** [case lo ... hi:] *)
Definition in_range (lo hi x : Z) : bool := (lo <=? x) && (x <=? hi).

(** The two switches on the opcode and ModRM bytes. *)
Definition two_byte_op (op1 modrm : Z) : intel_pt_insn_op * intel_pt_insn_branch :=
  if op1 =? 0x01 then
    if (modrm =? 0xc2) || (modrm =? 0xc3) then (INTEL_PT_OP_VMENTRY, INTEL_PT_BR_INDIRECT)
    else (INTEL_PT_OP_OTHER, INTEL_PT_BR_NO_BRANCH)
  else if (op1 =? 0x05) || (op1 =? 0x34) then (INTEL_PT_OP_SYSCALL, INTEL_PT_BR_INDIRECT)
  else if (op1 =? 0x07) || (op1 =? 0x35) then (INTEL_PT_OP_SYSRET, INTEL_PT_BR_INDIRECT)
  else if in_range 0x80 0x8f op1 then (INTEL_PT_OP_JCC, INTEL_PT_BR_CONDITIONAL)
  else (INTEL_PT_OP_OTHER, INTEL_PT_BR_NO_BRANCH).

Definition group5_op (modrm : Z) : intel_pt_insn_op * intel_pt_insn_branch :=
  let ext := (modrm .>> 3) .& 0x7 in
  if (ext =? 2) || (ext =? 3) then (INTEL_PT_OP_CALL, INTEL_PT_BR_INDIRECT)
  else if (ext =? 4) || (ext =? 5) then (INTEL_PT_OP_JMP, INTEL_PT_BR_INDIRECT)
  else (INTEL_PT_OP_OTHER, INTEL_PT_BR_NO_BRANCH).

Definition branch_type (op0 op1 modrm : Z) : intel_pt_insn_op * intel_pt_insn_branch :=
  if op0 =? 0xf then two_byte_op op1 modrm
  else if in_range 0x70 0x7f op0 then (INTEL_PT_OP_JCC, INTEL_PT_BR_CONDITIONAL)
  else if (op0 =? 0xc2) || (op0 =? 0xc3) || (op0 =? 0xca) || (op0 =? 0xcb) then
    (INTEL_PT_OP_RET, INTEL_PT_BR_INDIRECT)
  else if op0 =? 0xcf then (INTEL_PT_OP_IRET, INTEL_PT_BR_INDIRECT)
  else if in_range 0xcc 0xce op0 then (INTEL_PT_OP_INT, INTEL_PT_BR_INDIRECT)
  else if op0 =? 0xe8 then (INTEL_PT_OP_CALL, INTEL_PT_BR_UNCONDITIONAL)
  else if op0 =? 0x9a then (INTEL_PT_OP_CALL, INTEL_PT_BR_INDIRECT)
  else if in_range 0xe0 0xe2 op0 then (INTEL_PT_OP_LOOP, INTEL_PT_BR_CONDITIONAL)
  else if op0 =? 0xe3 then (INTEL_PT_OP_JCC, INTEL_PT_BR_CONDITIONAL)
  else if (op0 =? 0xe9) || (op0 =? 0xeb) then (INTEL_PT_OP_JMP, INTEL_PT_BR_UNCONDITIONAL)
  else if op0 =? 0xea then (INTEL_PT_OP_JMP, INTEL_PT_BR_INDIRECT)
  else if op0 =? 0xff then group5_op modrm
  else (INTEL_PT_OP_OTHER, INTEL_PT_BR_NO_BRANCH).

Section insn.
Context `{InatTables}.

(** [old] is the structure the caller passed, whose [buf] is not written here;
    [None] for a bad access. *)
Definition intel_pt_insn_decoder (i : insn) (old : intel_pt_insn) : option intel_pt_insn :=
  match insn_is_avx i with
  | IRet avx i =>
    if avx then
      Some (mkInsn INTEL_PT_OP_OTHER INTEL_PT_BR_NO_BRANCH false (i_length i) 0 (insn_buf old))
    else
      op0 ← insn_byte (i_opcode i) 0;
      op1 ← insn_byte (i_opcode i) 1;
      modrm ← insn_byte (i_modrm i) 0;
      let '(op, branch) := branch_type op0 op1 modrm in
      let rel :=
        match branch with
        | INTEL_PT_BR_CONDITIONAL | INTEL_PT_BR_UNCONDITIONAL => f_value (i_immediate i)
        | _ => 0
        end in
      Some (mkInsn op branch false (i_length i) rel (insn_buf old))
  | _ => None
  end.

(** [memcpy(intel_pt_insn->buf, buf, n)] *)
Definition copy_insn_bytes (old buf : list byte) (n : Z) : option (list byte) :=
  if (n <=? Z.of_nat (length buf)) && (n <=? Z.of_nat (length old)) then
    Some (take (Z.to_nat n) buf ++ drop (Z.to_nat n) old)
  else None.

Definition intel_pt_get_insn (config_x86_64 : bool) (buf : list byte) (len : Z) (x86_64 : bool)
    (old : intel_pt_insn) : option (Z * intel_pt_insn) :=
  '(ret, i) ← insn_decode config_x86_64 buf (s32 len)
                (if x86_64 then INSN_MODE_64 else INSN_MODE_32);
  if (ret <? 0) || (len <? i_length i) then Some (-1, old)
  else
    r ← intel_pt_insn_decoder i old;
    b ← copy_insn_bytes (insn_buf r) buf
          (if i_length i <? INTEL_PT_INSN_BUF_SZ then i_length i else INTEL_PT_INSN_BUF_SZ);
    Some (0, mkInsn (insn_op r) (insn_branch r) (insn_emulated_ptwrite r) (insn_length r)
               (insn_rel r) b).

Definition arch_is_branch (config_x86_64 : bool) (buf : list byte) (len : Z) (x86_64 : bool)
    (uninit : intel_pt_insn) : option Z :=
  '(ret, r) ← intel_pt_get_insn config_x86_64 buf len x86_64 uninit;
  if ret <? 0 then Some (-1)
  else Some (Z.b2z (negb (bool_decide (insn_branch r = INTEL_PT_BR_NO_BRANCH)))).
End insn.

(** ** Types of branches, for samples *)
Definition PERF_IP_FLAG_BRANCH : Z := 1 .<< 0.
Definition PERF_IP_FLAG_CALL : Z := 1 .<< 1.
Definition PERF_IP_FLAG_RETURN : Z := 1 .<< 2.
Definition PERF_IP_FLAG_CONDITIONAL : Z := 1 .<< 3.
Definition PERF_IP_FLAG_SYSCALLRET : Z := 1 .<< 4.
Definition PERF_IP_FLAG_ASYNC : Z := 1 .<< 5.
Definition PERF_IP_FLAG_INTERRUPT : Z := 1 .<< 6.
Definition PERF_IP_FLAG_TX_ABORT : Z := 1 .<< 7.
Definition PERF_IP_FLAG_TRACE_BEGIN : Z := 1 .<< 8.
Definition PERF_IP_FLAG_TRACE_END : Z := 1 .<< 9.
Definition PERF_IP_FLAG_IN_TX : Z := 1 .<< 10.
Definition PERF_IP_FLAG_VMENTRY : Z := 1 .<< 11.
Definition PERF_IP_FLAG_VMEXIT : Z := 1 .<< 12.

Definition intel_pt_insn_type (op : intel_pt_insn_op) : Z :=
  match op with
  | INTEL_PT_OP_OTHER => 0
  | INTEL_PT_OP_CALL => PERF_IP_FLAG_BRANCH .| PERF_IP_FLAG_CALL
  | INTEL_PT_OP_RET => PERF_IP_FLAG_BRANCH .| PERF_IP_FLAG_RETURN
  | INTEL_PT_OP_JCC => PERF_IP_FLAG_BRANCH .| PERF_IP_FLAG_CONDITIONAL
  | INTEL_PT_OP_JMP => PERF_IP_FLAG_BRANCH
  | INTEL_PT_OP_LOOP => PERF_IP_FLAG_BRANCH .| PERF_IP_FLAG_CONDITIONAL
  | INTEL_PT_OP_IRET => PERF_IP_FLAG_BRANCH .| PERF_IP_FLAG_RETURN .| PERF_IP_FLAG_INTERRUPT
  | INTEL_PT_OP_INT => PERF_IP_FLAG_BRANCH .| PERF_IP_FLAG_CALL .| PERF_IP_FLAG_INTERRUPT
  | INTEL_PT_OP_SYSCALL => PERF_IP_FLAG_BRANCH .| PERF_IP_FLAG_CALL .| PERF_IP_FLAG_SYSCALLRET
  | INTEL_PT_OP_SYSRET => PERF_IP_FLAG_BRANCH .| PERF_IP_FLAG_RETURN .| PERF_IP_FLAG_SYSCALLRET
  | INTEL_PT_OP_VMENTRY => PERF_IP_FLAG_BRANCH .| PERF_IP_FLAG_CALL .| PERF_IP_FLAG_VMENTRY
  end.
