(* ===== verification/InsnSafe.v ===== *)
(** The instruction decoder makes no bad access, ends, and divides the bytes of
    the instruction among its fields. *)
From Stdlib Require Import ZArith Lia List Bool.
From S2P Require Import Prelude InsnAttr InsnDecoder.
Open Scope Z_scope.
Open Scope c_scope.
Import ListNotations.

(** ** Tables of the right shape *)

Definition sized {A} (n : Z) (l : list A) : Prop := Z.of_nat (length l) = n.

(** [const insn_attr_t *tables[rows][INAT_LSTPFX_MAX + 1]], to tables of [n]. *)
Definition tables_sized (rows n : Z) (tables : list (list (option (list Z)))) : Prop :=
  sized rows tables /\
  Forall (fun row => sized (INAT_LSTPFX_MAX + 1) row /\
    Forall (fun t => match t with Some t => sized n t | None => True end) row) tables.

(** No more than [n] escape bytes follow an opcode of attribute [attr]. *)
Fixpoint escapes_within `{InatTables} (n : nat) (attr : Z) : Prop :=
  inat_is_escape attr = false \/
  match n with
  | O => False
  | S n' => forall op pfx a, inat_get_escape_attribute op pfx attr = Some a -> escapes_within n' a
  end.

(** Immediates of one field. *)
Definition one_field (size : Z) : bool :=
  (size =? INAT_IMM_BYTE) || (size =? INAT_IMM_WORD) || (size =? INAT_IMM_DWORD)
  || (size =? INAT_IMM_VWORD32).

(** A second immediate follows only an immediate of one field, and not in a
    group. *)
Definition imm_ok (attr : Z) : Prop :=
  inat_has_second_immediate attr = true ->
    inat_is_group attr = false /\ one_field (inat_immediate_size attr) = true.

(** What the generator makes of the opcode map: arrays of the sizes inat.h
    declares, opcodes of at most three bytes (after 0x0f, 0x0f 0x38 and
    0x0f 0x3a no further escape), and second immediates only as in ENTER Iw,Ib
    and the like. *)
Class TablesOk `{InatTables} : Prop := {
  primary_sized : sized INAT_OPCODE_TABLE_SIZE inat_primary_table;
  escape_sized : tables_sized (INAT_ESC_MAX + 1) INAT_OPCODE_TABLE_SIZE inat_escape_tables;
  group_sized : tables_sized (INAT_GRP_MAX + 1) INAT_GROUP_TABLE_SIZE inat_group_tables;
  avx_sized : tables_sized (X86_VEX_M_MAX + 1) INAT_OPCODE_TABLE_SIZE inat_avx_tables;
  escape_depth op a : inat_get_opcode_attribute op = Some a -> escapes_within 2 a;
  primary_imm op a : inat_get_opcode_attribute op = Some a -> imm_ok a;
  escape_imm op pfx e a : inat_get_escape_attribute op pfx e = Some a -> imm_ok a;
  avx_imm op m p a : inat_get_avx_attribute op m p = Some a -> imm_ok a;
  group_imm modrm pfx g a : inat_has_second_immediate g = false ->
    inat_get_group_attribute modrm pfx g = Some a -> inat_has_second_immediate a = false
}.

Lemma idx_Some {A} (l : list A) n k :
  sized k l -> 0 <= n < k -> exists x, idx l n = Some x /\ x ∈ l.
Proof.
  unfold sized, idx. intros Hl Hn. destruct (Z.ltb_spec n 0); [lia|].
  destruct (lookup_lt_is_Some_2 l (Z.to_nat n)) as [x Hx]; [lia|].
  exists x. split; [done|]. by eapply list_elem_of_lookup_2.
Qed.

Lemma shifted_field_range a n k : 0 <= n -> 0 <= k ->
  0 <= (a .& (((1 .<< k) - 1) .<< n)) .>> n < 2 ^ k.
Proof.
  intros Hn Hk. rewrite Z.shiftr_land, Z.shiftr_shiftl_l by lia.
  rewrite Z.sub_diag, Z.shiftl_0_r, Z.shiftl_mul_pow2, Z.mul_1_l by lia.
  rewrite land_pow2_mod by lia. apply Z.mod_pos_bound. lia.
Qed.

Section tables.
Context `{InatTables} `{!TablesOk}.

Lemma opcode_attr_Some op : 0 <= op < 256 -> exists a, inat_get_opcode_attribute op = Some a.
Proof. intros Hop. destruct (idx_Some _ op _ primary_sized Hop) as (a & ? & _). by exists a. Qed.

Lemma last_prefix_id_Some b : 0 <= b < 256 ->
  exists p, inat_get_last_prefix_id b = Some p /\ 0 <= p <= INAT_LSTPFX_MAX.
Proof.
  intros Hb. unfold inat_get_last_prefix_id. destruct (opcode_attr_Some b Hb) as (a & ->).
  eexists. split; [reflexivity|]. unfold inat_last_prefix_id, INAT_LSTPFX_MAX.
  change INAT_PFX_MASK with (2 ^ 4 - 1). rewrite land_pow2_mod by lia.
  pose proof (Z.mod_pos_bound a (2 ^ 4)). destruct (Z.ltb_spec 3 (a mod 2 ^ 4)); lia.
Qed.

(** Row [n] of the tables: any of its tables, where there is one, has an entry
    for [op]. *)
Lemma row_Some rows k tables n :
  tables_sized rows k tables -> 0 <= n < rows ->
  exists row, idx tables n = Some row /\
    forall p op, 0 <= p <= INAT_LSTPFX_MAX -> 0 <= op < k -> exists t, idx row p = Some t /\
      match t with Some t => exists a, idx t op = Some a | None => True end.
Proof.
  intros [Hr Hf] Hn. destruct (idx_Some _ _ _ Hr Hn) as (row & E & Hin).
  rewrite Forall_forall in Hf. apply list_elem_of_In in Hin.
  destruct (Hf row Hin) as [Hs Ht]. exists row. split; [done|]. intros p op Hp Hop.
  destruct (idx_Some row p _ Hs) as (t & Et & Hin'); [unfold INAT_LSTPFX_MAX in *; lia|].
  exists t. split; [done|]. rewrite Forall_forall in Ht. apply list_elem_of_In in Hin'.
  specialize (Ht t Hin'). destruct t as [t|]; [|done].
  destruct (idx_Some t op _ Ht Hop) as (a & ? & _). by exists a.
Qed.

(** A lookup in the table [p] of a row. *)
Ltac table_lookup Hrow p Hop :=
  let a := fresh "a" in
  destruct (Hrow p _ ltac:(unfold INAT_LSTPFX_MAX in *; lia) Hop) as ([?|] & -> & a);
  cbn [mbind option_bind]; [destruct a as (? & ->); cbn [mbind option_bind]|by eexists].

Lemma escape_attr_Some op pfx attr :
  0 <= op < 256 -> 0 <= pfx <= INAT_LSTPFX_MAX ->
  exists a, inat_get_escape_attribute op pfx attr = Some a.
Proof.
  intros Hop Hp. unfold inat_get_escape_attribute.
  destruct (row_Some _ _ _ (inat_escape_id attr) escape_sized) as (row & -> & Hrow).
  { by apply shifted_field_range. }
  cbn [mbind option_bind]. table_lookup Hrow 0 Hop.
  case_match; [|by eexists]. table_lookup Hrow pfx Hop. by eexists.
Qed.

Lemma group_attr_Some modrm pfx attr :
  0 <= pfx <= INAT_LSTPFX_MAX ->
  exists a, inat_get_group_attribute modrm pfx attr = Some a.
Proof.
  intros Hp. unfold inat_get_group_attribute.
  assert (0 <= X86_MODRM_REG modrm < INAT_GROUP_TABLE_SIZE) as Hreg.
  { change (X86_MODRM_REG modrm) with ((modrm .& (((1 .<< 3) - 1) .<< 3)) .>> 3).
    by apply shifted_field_range. }
  destruct (row_Some _ _ _ (inat_group_id attr) group_sized) as (row & -> & Hrow).
  { by apply shifted_field_range. }
  cbn [mbind option_bind]. table_lookup Hrow 0 Hreg.
  case_match; [|by eexists]. table_lookup Hrow pfx Hreg. by eexists.
Qed.

Lemma avx_attr_Some op m p :
  0 <= op < 256 -> 0 <= m -> 0 <= p -> exists a, inat_get_avx_attribute op m p = Some a.
Proof.
  intros Hop Hm Hp. unfold inat_get_avx_attribute.
  destruct (Z.ltb_spec X86_VEX_M_MAX m); [by eexists|].
  destruct (Z.ltb_spec INAT_LSTPFX_MAX p); [by eexists|]. cbn [orb].
  destruct (row_Some _ _ _ m avx_sized) as (row & -> & Hrow); [unfold X86_VEX_M_MAX in *; lia|].
  cbn [mbind option_bind]. table_lookup Hrow 0 Hop.
  case_match; [|by eexists]. table_lookup Hrow p Hop. by eexists.
Qed.
End tables.

(** ** Weakest preconditions

    [Q] holds of a return, [E] of a jump to [err_out]; there is no fault. *)
Definition iwp {A} (m : I A) (Q : A -> insn -> Prop) (E : insn -> Prop) (i : insn) : Prop :=
  match m i with
  | IFault => False
  | IErr i' => E i'
  | IRet a i' => Q a i'
  end.

Section iwp.
Implicit Types (i : insn) (E : insn -> Prop).

Lemma iwp_ret {A} (a : A) (Q : A -> insn -> Prop) E i : Q a i -> iwp (mret a) Q E i.
Proof. done. Qed.
Lemma iwp_bind {A B} (m : I A) (k : A -> I B) Q E i :
  iwp m (fun a => iwp (k a) Q E) E i -> iwp (m ≫= k) Q E i.
Proof. unfold iwp, mbind, I_bind. by destruct (m i). Qed.
Lemma iwp_get (Q : insn -> insn -> Prop) E i : Q i i -> iwp iget Q E i.
Proof. done. Qed.
Lemma iwp_modify f (Q : unit -> insn -> Prop) E i : Q tt (f i) -> iwp (imodify f) Q E i.
Proof. done. Qed.
Lemma iwp_lift {A} (o : option A) (Q : A -> insn -> Prop) E i :
  (exists a, o = Some a /\ Q a i) -> iwp (ilift o) Q E i.
Proof. by intros (a & -> & ?). Qed.
Lemma iwp_err_out {A} (Q : A -> insn -> Prop) E i : E i -> iwp err_out Q E i.
Proof. done. Qed.
Lemma iwp_on_err_out ret (m : I Z) Q E i :
  iwp m Q (Q ret) i -> iwp (on_err_out ret m) Q E i.
Proof. unfold iwp, on_err_out. by destruct (m i). Qed.
Lemma iwp_mono {A} (m : I A) (P Q : A -> insn -> Prop) E E' i :
  iwp m P E i -> (forall a i', P a i' -> Q a i') -> (forall i', E i' -> E' i') -> iwp m Q E' i.
Proof. unfold iwp. destruct (m i); auto. Qed.
End iwp.

Ltac iwp_step :=
  lazymatch goal with
  | |- iwp (mbind _ _) _ _ _ => apply iwp_bind
  | |- iwp (mret _) _ _ _ => apply iwp_ret
  | |- iwp iget _ _ _ => apply iwp_get
  | |- iwp (imodify _) _ _ _ => apply iwp_modify
  | |- iwp err_out _ _ _ => apply iwp_err_out
  | |- iwp (on_err_out _ _) _ _ _ => apply iwp_on_err_out
  end; cbv beta.
Ltac iwps := cbv beta iota zeta; repeat (iwp_step; cbv beta iota zeta).

(** ** The invariant of decoding

    Decoding stays within the buffer, and the bytes it has read are divided
    among the fields. *)
Record inv (input : list byte * Z * bool) (i : insn) : Prop := {
  inv_input : (i_kaddr i, i_end_kaddr i, i_x86_64 i) = input;
  inv_max : i_end_kaddr i <= MAX_INSN_SIZE;
  inv_end : i_end_kaddr i <= Z.of_nat (length (i_kaddr i));
  inv_next : 0 <= i_next_byte i <= Z.max 0 (i_end_kaddr i);
  inv_tiled : i_next_byte i = i_emulate_prefix_size i + insn_offset_immediate i
    + f_nbytes (i_immediate i) + f_nbytes (i_immediate2 i);
  inv_nonneg : 0 <= i_emulate_prefix_size i /\ 0 <= f_nbytes (i_prefixes i)
    /\ 0 <= f_nbytes (i_rex_prefix i) /\ 0 <= f_nbytes (i_vex_prefix i)
    /\ 0 <= f_nbytes (i_opcode i) /\ 0 <= f_nbytes (i_modrm i) /\ 0 <= f_nbytes (i_sib i)
    /\ 0 <= f_nbytes (i_displacement i)
    /\ 0 <= f_nbytes (i_immediate i) /\ 0 <= f_nbytes (i_immediate2 i)
}.

(** [inv_solve]: the invariant of an updated structure, from that of the old
    one. *)
Ltac offsets := unfold insn_offset_immediate, insn_offset_displacement, insn_offset_sib,
  insn_offset_modrm, insn_offset_opcode, insn_offset_vex_prefix, insn_offset_rex_prefix in *.
Ltac inv_solve := split; offsets; unfold insn_field_set; rsimpl; (done || lia).

(** What is still to be read, from each stage on. *)
Definition unread (p : insn_field) : Prop := f_nbytes p = 0 /\ f_got p = false.
Definition at_immediate (i : insn) : Prop :=
  unread (i_immediate i) /\ f_nbytes (i_immediate2 i) = 0.
Definition at_displacement (i : insn) : Prop := unread (i_displacement i) /\ at_immediate i.
Definition at_sib (i : insn) : Prop := unread (i_sib i) /\ at_displacement i.
Definition at_modrm (i : insn) : Prop := unread (i_modrm i) /\ at_sib i.
Definition at_opcode (i : insn) : Prop := unread (i_opcode i) /\ at_modrm i.

(** What has been read. *)
Definition past_prefixes (i : insn) : Prop := f_got (i_prefixes i) = true.
Definition past_opcode (i : insn) : Prop :=
  past_prefixes i /\ f_got (i_opcode i) = true /\ 1 <= f_nbytes (i_opcode i).
Definition past_modrm (i : insn) : Prop := past_opcode i /\ f_got (i_modrm i) = true.
Definition past_sib (i : insn) : Prop := past_modrm i /\ f_got (i_sib i) = true.
Definition past_displacement (i : insn) : Prop := past_sib i /\ f_got (i_displacement i) = true.
Definition past_immediate (i : insn) : Prop := past_displacement i /\ f_got (i_immediate i) = true.

Ltac stages := unfold past_immediate, past_displacement, past_sib, past_modrm, past_opcode,
  past_prefixes, at_opcode, at_modrm, at_sib, at_displacement, at_immediate, unread in *.
Ltac stage_solve := stages; unfold insn_field_set; rsimpl; (tauto || lia || intuition (done || lia)).

(** The outcome of a decoding function: [st] is reached, or an error. *)
Definition reached (input : list byte * Z * bool) (st : insn -> Prop) (ret : Z) (i : insn) : Prop :=
  ret = 0 /\ inv input i /\ st i \/ ret = - ENODATA \/ ret = - EINVAL.

Section safe.
Context `{InatTables} `{!TablesOk} (input : list byte * Z * bool).
Implicit Types (i : insn) (E : insn -> Prop).
Notation inv := (inv input).

Lemma peek_wp n (Q : Z -> insn -> Prop) E i :
  inv i -> 0 <= n -> E i ->
  (forall b, 0 <= b < 256 -> i_next_byte i + n + 1 <= i_end_kaddr i -> Q b i) ->
  iwp (peek_nbyte_next n) Q E i.
Proof.
  intros [? ? ? ? ? ?] Hn He HQ. unfold peek_nbyte_next, validate_next. iwps.
  destruct (Z.leb_spec (i_next_byte i + 1 + n) (i_end_kaddr i)); [|by iwps].
  destruct (rd_Some (i_kaddr i) (i_next_byte i + n)) as (b & Eb & Hb); [lia|].
  apply iwp_lift. exists b. split; [done|]. apply HQ; [done|lia].
Qed.

(** [get_next] reads [sz] bytes and moves past them. *)
Lemma get_unsigned_wp sz (Q : Z -> insn -> Prop) E i :
  inv i -> E i ->
  (forall v, 0 <= v < 256 ^ Z.of_nat sz -> i_next_byte i + Z.of_nat sz <= i_end_kaddr i ->
     Q v (i <| i_next_byte := i_next_byte i + Z.of_nat sz |>)) ->
  iwp (get_unsigned sz) Q E i.
Proof.
  intros [? ? ? ? ? ?] He HQ. unfold get_unsigned, validate_next. iwps.
  destruct (Z.leb_spec (i_next_byte i + Z.of_nat sz + 0) (i_end_kaddr i)); [|by iwps].
  destruct (rd_le_Some (i_kaddr i) (i_next_byte i) sz) as (v & Ev & Hv); [lia|lia|].
  apply iwp_bind, iwp_lift. exists v. split; [done|]. iwps. apply HQ; [done|lia].
Qed.

Lemma set_byte_wp (p : insn -> insn_field) `{!Setter p} n v (Q : unit -> insn -> Prop) E i :
  0 <= n < 4 ->
  (forall f, f_nbytes f = f_nbytes (p i) -> f_got f = f_got (p i) -> Q tt (i <| p := f |>)) ->
  iwp (set_byte p n v) Q E i.
Proof.
  intros Hn HQ. unfold set_byte. iwps. unfold insn_set_byte.
  destruct (Z.leb_spec 0 n), (Z.ltb_spec n 4); try lia. cbn [andb].
  apply iwp_lift. eexists. split; [reflexivity|]. iwps. apply HQ; rsimpl; done.
Qed.

Lemma insn_byte_Some p n : 0 <= n < 4 -> exists b, insn_byte p n = Some b /\ 0 <= b < 256.
Proof.
  intros Hn. unfold insn_byte. destruct (Z.leb_spec 0 n), (Z.ltb_spec n 4); try lia.
  eexists. split; [reflexivity|]. change 0xff with (2 ^ 8 - 1).
  rewrite land_pow2_mod by lia. by apply Z.mod_pos_bound.
Qed.

Lemma byte_wp p n (Q : Z -> insn -> Prop) E i :
  0 <= n < 4 -> (forall b, 0 <= b < 256 -> Q b i) -> iwp (ilift (insn_byte p n)) Q E i.
Proof.
  intros Hn HQ. destruct (insn_byte_Some p n Hn) as (b & Eb & Hb). apply iwp_lift. eauto.
Qed.

Lemma opcode_attr_wp b (Q : Z -> insn -> Prop) E i :
  0 <= b < 256 -> (forall a, inat_get_opcode_attribute b = Some a -> Q a i) ->
  iwp (ilift (inat_get_opcode_attribute b)) Q E i.
Proof. intros Hb HQ. destruct (opcode_attr_Some b Hb) as (a & Ea). apply iwp_lift. eauto. Qed.

(** *** Prefixes *)

Lemma match_prefix_wp prefix : forall n (Q : unit -> insn -> Prop) E i,
  inv i -> 0 <= n -> E i ->
  (prefix = [] \/ i_next_byte i + n + Z.of_nat (length prefix) <= i_end_kaddr i -> Q tt i) ->
  iwp (match_prefix n prefix) Q E i.
Proof.
  induction prefix as [|p prefix IH]; intros n Q E i Hi Hn He HQ; cbn [match_prefix].
  { iwps. apply HQ. by left. }
  iwps. apply peek_wp; [done|done|done|]. intros b _ Hb. destruct (b =? p); [|by iwps].
  apply IH; [done|lia|done|]. cbn [length] in *.
  intros [-> |?]; apply HQ; right; cbn [length]; lia.
Qed.

Lemma emulate_prefix_1_wp prefix (Q : Z -> insn -> Prop) E i :
  prefix <> [] -> inv i -> Q 0 i ->
  (let n := Z.of_nat (length prefix) in i_next_byte i + n <= i_end_kaddr i ->
   Q 1 (i <| i_emulate_prefix_size := n |> <| i_next_byte := i_next_byte i + n |>)) ->
  iwp (insn_get_emulate_prefix_1 prefix) Q E i.
Proof.
  intros Hp Hi Hno Hyes. unfold insn_get_emulate_prefix_1. iwps.
  apply match_prefix_wp; [done|done|done|]. intros [?|Hl]; [done|]. unfold skip_next. iwps.
  rsimpl. apply Hyes. lia.
Qed.

Definition start i : Prop :=
  i_emulate_prefix_size i = 0 /\ f_nbytes (i_rex_prefix i) = 0 /\ f_nbytes (i_vex_prefix i) = 0 /\
  at_opcode i.

(** Between the emulation prefix and the opcode, the fields of the prefixes in
    [zero] are still to be read. *)
Definition in_prefixes (zero : insn -> Prop) i : Prop := inv i /\ zero i /\ at_opcode i.
Definition no_rex_vex i : Prop := f_nbytes (i_rex_prefix i) = 0 /\ f_nbytes (i_vex_prefix i) = 0.
Definition no_vex i : Prop := f_nbytes (i_vex_prefix i) = 0.

Ltac prefix_solve := unfold in_prefixes, no_rex_vex, no_vex in *;
  (split; [inv_solve|split; stage_solve]).

Lemma emulate_prefix_wp E i :
  inv i -> start i ->
  iwp insn_get_emulate_prefix (fun _ => in_prefixes no_rex_vex) E i.
Proof.
  intros Hi (He & Hr & Hv & Ho).
  assert (in_prefixes no_rex_vex i) as Hkeep by (split; [done|split; [by split|done]]).
  assert (forall n, 0 <= n -> i_next_byte i + n <= i_end_kaddr i ->
    in_prefixes no_rex_vex
      (i <| i_emulate_prefix_size := n |> <| i_next_byte := i_next_byte i + n |>)) as Hmove.
  { intros n ? ?. destruct Hi. prefix_solve. }
  unfold insn_get_emulate_prefix. iwps. apply emulate_prefix_1_wp; [done|done| |]; cbn [Z.eqb negb].
  - iwps. apply emulate_prefix_1_wp; [done|done| |].
    + by iwps.
    + intros n Hn. iwps. apply Hmove; [lia|done].
  - intros Hn. iwps. apply Hmove; [lia|done].
Qed.

Lemma find_byte_Some nb : forall k p b,
  0 <= k -> k + Z.of_nat nb <= 4 -> exists r, find_byte nb k p b = Some r.
Proof.
  induction nb as [|nb IH]; intros k p b Hk Hn; cbn [find_byte]; [by eexists|].
  destruct (insn_byte_Some p k) as (x & -> & _); [lia|]. cbn [mbind option_bind].
  destruct (x =? b); [by eexists|]. apply IH; lia.
Qed.

Lemma replace_byte_Some nb : forall k lb b p,
  0 <= k -> k + Z.of_nat nb <= 4 -> exists p', replace_byte nb k lb b p = Some p' /\
    f_nbytes p' = f_nbytes p /\ f_got p' = f_got p.
Proof.
  induction nb as [|nb IH]; intros k lb b p Hk Hn; cbn [replace_byte]; [by eexists|].
  destruct (insn_byte_Some p k) as (x & -> & _); [lia|]. cbn [mbind option_bind].
  assert (exists p1, (if x =? lb then insn_set_byte p k b else Some p) = Some p1 /\
    f_nbytes p1 = f_nbytes p /\ f_got p1 = f_got p) as (p1 & -> & En & Eg).
  { destruct (x =? lb); [|by eexists]. unfold insn_set_byte.
    destruct (Z.leb_spec 0 k), (Z.ltb_spec k 4); try lia. by eexists. }
  cbn [mbind option_bind]. destruct (IH (k + 1) lb b p1) as (p' & -> & En' & Eg'); [lia|lia|].
  eexists. split; [done|]. split; congruence.
Qed.

Lemma add_prefix_wp nb b attr (Q : unit -> insn -> Prop) E i :
  0 <= nb < 4 -> in_prefixes no_rex_vex i ->
  (forall i', in_prefixes no_rex_vex i' -> i_next_byte i' = i_next_byte i ->
     i_end_kaddr i' = i_end_kaddr i -> Q tt i') ->
  iwp (add_prefix nb b attr) Q E i.
Proof.
  intros Hn (Hi & Hz & Ho) HQ. unfold add_prefix. iwps. apply set_byte_wp; [done|].
  intros f En Eg. iwps. destruct Hi.
  repeat case_match; (apply HQ; [|reflexivity|reflexivity]); prefix_solve.
Qed.

Lemma next_prefix_wp (Q : Z -> insn -> Prop) E i :
  in_prefixes no_rex_vex i -> i_next_byte i + 1 <= i_end_kaddr i ->
  (forall i', in_prefixes no_rex_vex i' -> E i') ->
  (forall b i', 0 <= b < 256 -> in_prefixes no_rex_vex i' ->
     i_next_byte i' = i_next_byte i + 1 -> i_next_byte i' + 1 <= i_end_kaddr i' -> Q b i') ->
  iwp next_prefix Q E i.
Proof.
  intros (Hi & Hz & Ho) Hl He HQ. unfold next_prefix, skip_next. iwps.
  set (i' := upd _ _ _). assert (in_prefixes no_rex_vex i') as Hi'.
  { subst i'. destruct Hi as [? Hm ? ? Ht Hnn]. unfold MAX_INSN_SIZE in Hm.
    assert (f_nbytes (i_prefixes i) + 1 < 256) by (offsets; lia).
    assert (u8 (f_nbytes (i_prefixes i) + 1) = f_nbytes (i_prefixes i) + 1) as Eu
      by (apply wrap_small; lia).
    unfold in_prefixes, no_rex_vex in *. split; [|split; stage_solve].
    split; offsets; rsimpl; rewrite ?Eu; (done || lia). }
  assert (i_next_byte i' = i_next_byte i + 1) as En by reflexivity.
  clearbody i'. apply peek_wp; [by destruct Hi'|lia|by apply He|]. intros b Hb Hl'.
  apply HQ; [done|done|done|lia].
Qed.

Lemma prefix_loop_wp fuel : forall nb lb b (Q : Z * Z -> insn -> Prop) E i,
  in_prefixes no_rex_vex i -> 0 <= nb <= 4 -> 0 <= lb < 256 -> 0 <= b < 256 ->
  i_next_byte i + 1 <= i_end_kaddr i -> MAX_INSN_SIZE < i_next_byte i + Z.of_nat fuel ->
  (forall i', in_prefixes no_rex_vex i' -> E i') ->
  (forall nb' lb' i', 0 <= nb' <= 4 -> 0 <= lb' < 256 -> in_prefixes no_rex_vex i' ->
     Q (nb', lb') i') ->
  iwp (prefix_loop fuel nb lb b) Q E i.
Proof.
  induction fuel as [|fuel IH]; intros nb lb b Q E i Hi Hnb Hlb Hb Hl Hf He HQ; cbn [prefix_loop].
  { destruct Hi as [[] _]. lia. }
  iwps. apply opcode_attr_wp; [done|]. intros attr _.
  destruct (inat_is_legacy_prefix attr); [|iwps; by apply HQ].
  iwps. destruct (find_byte_Some (Z.to_nat nb) 0 (i_prefixes i) b) as (found & Ef); [lia|lia|].
  apply iwp_lift. exists found. split; [exact Ef|].
  assert (forall nb' i', in_prefixes no_rex_vex i' -> 0 <= nb' <= 4 ->
    i_next_byte i' = i_next_byte i -> i_end_kaddr i' = i_end_kaddr i ->
    iwp (next_prefix ≫= fun b' => prefix_loop fuel nb' b b') Q E i') as Hnext.
  { intros nb' i' Hi' Hnb' En Ee. iwps. apply next_prefix_wp; [done|lia|exact He|].
    intros b' i2 Hb' Hi2 En2 Hl2. apply IH; (done || lia). }
  destruct found; [by apply Hnext|].
  destruct (Z.eqb_spec nb 4); [iwps; by apply HQ|]. iwps.
  apply add_prefix_wp; [lia|done|]. intros i' Hi' En Ee. apply Hnext; (done || lia).
Qed.

Lemma set_last_prefix_wp nb lb (Q : unit -> insn -> Prop) E i :
  in_prefixes no_rex_vex i -> 0 <= nb <= 4 ->
  (forall i', in_prefixes no_rex_vex i' -> Q tt i') ->
  iwp (set_last_prefix nb lb) Q E i.
Proof.
  intros Hi Hnb HQ. unfold set_last_prefix. iwps. apply byte_wp; [lia|]. intros last _.
  destruct (_ && _); [|iwps; by apply HQ]. iwps.
  assert (forall i', in_prefixes no_rex_vex i' -> iwp (set_byte i_prefixes 3 lb) Q E i') as Hset.
  { intros i' (Hi' & Hz & Ho). apply set_byte_wp; [lia|]. intros f En Eg. apply HQ.
    destruct Hi'. prefix_solve. }
  destruct (negb (last =? 0)); iwps; [|by apply Hset].
  destruct (replace_byte_Some (Z.to_nat nb) 0 lb last (i_prefixes i)) as (p & Ep & En & Eg); [lia|lia|].
  apply iwp_lift. exists p. split; [exact Ep|]. iwps. apply Hset.
  destruct Hi as (Hi & Hz & Ho). destruct Hi. prefix_solve.
Qed.

Lemma rex_prefix_wp (Q : unit -> insn -> Prop) E i :
  in_prefixes no_rex_vex i -> (forall i', E i') ->
  (forall i', in_prefixes no_vex i' -> Q tt i') -> iwp get_rex_prefix Q E i.
Proof.
  intros (Hi & Hz & Ho) He HQ. unfold get_rex_prefix, peek_next, skip_next. iwps.
  destruct (i_x86_64 i); iwps; [|apply HQ; destruct Hi; prefix_solve].
  apply peek_wp; [done|lia|done|]. intros b Hb Hl. iwps. apply opcode_attr_wp; [done|].
  intros attr _. destruct (inat_is_rex_prefix attr); iwps; [|apply HQ; destruct Hi; prefix_solve].
  destruct (X86_REX_W b); iwps; apply HQ; destruct Hi; unfold insn_field_set;
    change (u8 1) with 1; prefix_solve.
Qed.

(** The two ways a VEX prefix ends. *)
Lemma vex_length_wp n (Q : unit -> insn -> Prop) E i :
  in_prefixes no_vex i -> 0 <= n -> i_next_byte i + n <= i_end_kaddr i ->
  (forall i', inv i' -> at_opcode i' -> Q tt i') ->
  iwp (set_vex_length n) Q E i.
Proof.
  intros (Hi & Hz & Ho) Hn Hl HQ. unfold set_vex_length, skip_next, no_vex in *. iwps.
  apply HQ; [destruct Hi; inv_solve|stage_solve].
Qed.

Lemma vex_w_wp b (Q : unit -> insn -> Prop) E i :
  inv i -> at_opcode i -> (forall i', inv i' -> at_opcode i' -> Q tt i') -> iwp (set_vex_w b) Q E i.
Proof.
  intros Hi Ho HQ. unfold set_vex_w. iwps.
  destruct (_ && _); apply HQ; try done. destruct Hi; inv_solve.
Qed.

(** Setting a byte of the VEX prefix. *)
Lemma vex_byte_wp n v (Q : unit -> insn -> Prop) E i :
  in_prefixes no_vex i -> 0 <= n < 4 ->
  (forall i', in_prefixes no_vex i' -> i_next_byte i' = i_next_byte i ->
     i_end_kaddr i' = i_end_kaddr i -> Q tt i') ->
  iwp (set_byte i_vex_prefix n v) Q E i.
Proof.
  intros (Hi & Hz & Ho) Hn HQ. apply set_byte_wp; [done|]. intros f En Eg. unfold no_vex in *.
  apply HQ; [|reflexivity|reflexivity]. destruct Hi. prefix_solve.
Qed.

Lemma vex_prefix_wp (Q : unit -> insn -> Prop) E i :
  in_prefixes no_vex i -> (forall i', E i') ->
  (forall i', inv i' -> at_opcode i' -> Q tt i') -> iwp get_vex_prefix Q E i.
Proof.
  intros Hp He HQ. unfold get_vex_prefix, peek_next. iwps.
  assert (forall i', inv i' -> at_opcode i' ->
    Q tt (i' <| i_vex_prefix ::= fun p => p <| f_got := true |> |>)) as Hend.
  { intros i' Hi' Ho'. apply HQ; [destruct Hi'; inv_solve|stage_solve]. }
  apply peek_wp; [apply Hp|lia|done|]. intros b Hb _. iwps. apply opcode_attr_wp; [done|].
  intros attr _. destruct (inat_is_vex_prefix attr); iwps; [|apply Hend; apply Hp].
  apply peek_wp; [apply Hp|lia|done|]. intros b2 Hb2 Hl. iwps.
  destruct (_ && _); iwps; [apply Hend; apply Hp|].
  apply vex_byte_wp; [done|lia|]. intros i1 Hp1 En1 Ee1. iwps.
  apply vex_byte_wp; [done|lia|]. intros i2 Hp2 En2 Ee2.
  destruct (inat_is_evex_prefix attr); iwps.
  - apply peek_wp; [apply Hp2|lia|done|]. intros b3 Hb3 _. iwps.
    apply vex_byte_wp; [done|lia|]. intros i3 Hp3 En3 Ee3. iwps.
    apply peek_wp; [apply Hp3|lia|done|]. intros b4 Hb4 Hl4. iwps.
    apply vex_byte_wp; [done|lia|]. intros i4 Hp4 En4 Ee4. iwps.
    apply vex_length_wp; [done|lia|lia|]. intros i5 Hi5 Ho5.
    by apply vex_w_wp.
  - destruct (inat_is_vex3_prefix attr); iwps.
    + apply peek_wp; [apply Hp2|lia|done|]. intros b3 Hb3 Hl3. iwps.
      apply vex_byte_wp; [done|lia|]. intros i3 Hp3 En3 Ee3. iwps.
      apply vex_length_wp; [done|lia|lia|]. intros i5 Hi5 Ho5. by apply vex_w_wp.
    + apply vex_byte_wp; [done|lia|]. intros i3 Hp3 En3 Ee3. iwps.
      apply vex_length_wp; [done|lia|lia|done].
Qed.

Lemma get_prefixes_wp E i :
  inv i -> start i -> f_got (i_prefixes i) = false ->
  iwp insn_get_prefixes (reached input (fun i' => past_prefixes i' /\ at_opcode i')) E i.
Proof.
  intros Hi Hs Hg. unfold insn_get_prefixes. iwps. rewrite Hg. iwps.
  assert (forall i', reached input (fun i' => past_prefixes i' /\ at_opcode i') (- ENODATA) i')
    as He by (right; by left).
  eapply iwp_mono; [by apply (emulate_prefix_wp (fun _ => True))|clear i Hi Hs Hg|exact (fun i _ => He i)].
  cbv beta. intros _ i Hi. unfold peek_next at 1. iwps. apply peek_wp; [apply Hi|lia|apply He|]. intros b Hb Hl. iwps.
  eapply prefix_loop_wp; [exact Hi|lia|lia|done|lia| |intros; apply He|].
  { destruct Hi as [[] _]. unfold MAX_INSN_SIZE. lia. }
  clear i Hi b Hb Hl. intros nb lb i Hnb Hlb Hi. iwps. apply set_last_prefix_wp; [done|done|].
  clear i Hi. intros i Hi. iwps. apply rex_prefix_wp; [done|done|]. clear i Hi. intros i Hi. iwps.
  apply vex_prefix_wp; [done|done|]. clear i Hi. intros i Hi Ho. iwps.
  left. split; [done|]. split; [destruct Hi; inv_solve|]. split; [|]; stage_solve.
Qed.

(** *** Opcode *)

Lemma is_avx_wp (Q : bool -> insn -> Prop) E i :
  past_prefixes i -> (forall b, Q b i) -> iwp insn_is_avx Q E i.
Proof. intros Hg HQ. unfold insn_is_avx. iwps. rewrite Hg. by iwps. Qed.

Lemma is_evex_wp (Q : bool -> insn -> Prop) E i :
  past_prefixes i -> (forall b, Q b i) -> iwp insn_is_evex Q E i.
Proof. intros Hg HQ. unfold insn_is_evex. iwps. rewrite Hg. by iwps. Qed.

Lemma vex_m_wp (Q : Z -> insn -> Prop) E i : (forall m, 0 <= m -> Q m i) -> iwp insn_vex_m_bits Q E i.
Proof.
  intros HQ. unfold insn_vex_m_bits. iwps. apply byte_wp; [lia|]. intros b Hb. iwps.
  apply HQ. unfold X86_VEX2_M, X86_VEX3_M, X86_EVEX_M.
  repeat case_match; try lia; apply Z.land_nonneg; lia.
Qed.

Lemma vex_p_wp (Q : Z -> insn -> Prop) E i :
  (forall p, 0 <= p <= INAT_LSTPFX_MAX -> Q p i) -> iwp insn_vex_p_bits Q E i.
Proof.
  intros HQ. unfold insn_vex_p_bits. iwps. apply byte_wp; [case_match; lia|]. intros b Hb. iwps.
  apply HQ. unfold X86_VEX_P, INAT_LSTPFX_MAX. change 0x03 with (2 ^ 2 - 1).
  rewrite land_pow2_mod by lia. pose proof (Z.mod_pos_bound b (2 ^ 2)). lia.
Qed.

Lemma last_prefix_id_wp (Q : Z -> insn -> Prop) E i :
  past_prefixes i -> (forall p, 0 <= p <= INAT_LSTPFX_MAX -> Q p i) ->
  iwp insn_last_prefix_id Q E i.
Proof.
  intros Hg HQ. unfold insn_last_prefix_id. iwps. apply is_avx_wp; [done|].
  intros [|]; [by apply vex_p_wp|]. iwps. apply byte_wp; [lia|]. intros last Hl.
  destruct (negb (last =? 0)); [|iwps; apply HQ; unfold INAT_LSTPFX_MAX; lia].
  destruct (last_prefix_id_Some last Hl) as (p & Ep & Hp). apply iwp_lift. eauto.
Qed.

(** The opcode is read, but for its escaped bytes. *)
Definition in_opcode (n : Z) i : Prop :=
  inv i /\ past_prefixes i /\ f_nbytes (i_opcode i) = n /\ at_modrm i.

Definition before_modrm i : Prop := past_opcode i /\ at_modrm i /\ imm_ok (i_attr i).

Lemma bad_insn_wp st E i : iwp bad_insn (reached input st) E i.
Proof. unfold bad_insn. iwps. right. by right. Qed.

(** [attr] is set, and the opcode complete. *)
Lemma opcode_end_wp n E i :
  1 <= n -> in_opcode n i -> imm_ok (i_attr i) ->
  iwp (imodify (fun i => i <| i_opcode ::= fun p => p <| f_got := true |> |>) ;; mret 0)
    (reached input before_modrm) E i.
Proof.
  intros Hn (Hi & Hp & En & Hm) Ha. iwps. left. split; [done|].
  split; [destruct Hi; inv_solve|]. split; [|split; [stage_solve|exact Ha]].
  unfold past_opcode, past_prefixes in *. rsimpl. by rewrite En.
Qed.

Lemma in_opcode_attr n a i : in_opcode n i -> in_opcode n (i <| i_attr := a |>).
Proof.
  intros (Hi & Hp & En & Hm). split; [destruct Hi; inv_solve|].
  split; [exact Hp|]. split; [exact En|stage_solve].
Qed.

Lemma avx_opcode_wp op E i :
  0 <= op < 256 -> in_opcode 1 i ->
  iwp (get_avx_opcode op) (reached input before_modrm) E i.
Proof.
  intros Hop Hi. unfold get_avx_opcode. iwps. apply vex_m_wp. intros m Hm. iwps.
  apply vex_p_wp. intros p Hp. iwps.
  destruct (avx_attr_Some op m p) as (a & Ea); [done|done|lia|].
  apply iwp_lift. exists a. split; [done|]. iwps.
  apply (in_opcode_attr 1 a) in Hi. apply is_evex_wp; [apply Hi|]. intros b.
  case_match; [apply bad_insn_wp|]. eapply opcode_end_wp; [|done|by eapply avx_imm]. lia.
Qed.

Lemma push_opcode_wp op n (Q : unit -> insn -> Prop) E i :
  0 <= n <= 3 -> inv i -> past_prefixes i -> f_nbytes (i_opcode i) = n -> at_modrm i ->
  i_next_byte i + 1 <= i_end_kaddr i ->
  (forall i', in_opcode (n + 1) i' -> i_attr i' = i_attr i -> Q tt i') ->
  iwp (push_opcode op) Q E (i <| i_next_byte := i_next_byte i + 1 |>).
Proof.
  intros Hn Hi Hp En Hm Hl HQ. unfold push_opcode. iwps.
  apply set_byte_wp; [rsimpl; lia|]. intros f Ef Eg. iwps. rsimpl_in Ef. rsimpl_in Eg.
  assert (u8 (n + 1) = n + 1) as Eu by (apply wrap_small; lia).
  apply HQ; [|done]. split; [|split; [exact Hp|split; [|exact Hm]]].
  - destruct Hi. split; offsets; rsimpl; rewrite ?Ef, ?En, ?Eu; (done || lia).
  - rsimpl. by rewrite Ef, En.
Qed.

Lemma escape_loop_wp fuel : forall k n (Q : unit -> insn -> Prop) E i,
  in_opcode n i -> 1 <= n -> n + Z.of_nat k <= 3 -> escapes_within k (i_attr i) ->
  imm_ok (i_attr i) -> (k < fuel)%nat -> (forall i', E i') ->
  (forall n' i', 1 <= n' -> in_opcode n' i' -> imm_ok (i_attr i') -> Q tt i') ->
  iwp (escape_loop fuel) Q E i.
Proof.
  induction fuel as [|fuel IH]; intros k n Q E i Hi Hn Hk Hesc Ha Hf He HQ; [lia|].
  cbn [escape_loop]. iwps. destruct (inat_is_escape (i_attr i)) eqn:Ee; [|iwps; by eapply HQ].
  destruct k as [|k]; cbn [escapes_within] in Hesc; (destruct Hesc as [?|Hesc]; [congruence|]); [done|].
  destruct Hi as (Hi & Hp & En & Hm). iwps. apply get_unsigned_wp; [done|done|].
  intros op Hop Hl. iwps.
  apply (push_opcode_wp op n); [lia|done|done|done|done|exact Hl|]. intros i1 Hi1 Ea1.
  iwps. apply last_prefix_id_wp; [apply Hi1|]. intros pfx Hpfx. iwps. rewrite Ea1.
  destruct (escape_attr_Some op pfx (i_attr i)) as (a & Ea); [done|done|].
  apply iwp_lift. exists a. split; [done|]. iwps.
  apply (IH k (n + 1)); [by apply in_opcode_attr|lia|lia|by eapply Hesc|by eapply escape_imm|lia|done|done].
Qed.

Lemma plain_opcode_wp op E i :
  0 <= op < 256 -> in_opcode 1 i -> (forall i', E i') ->
  iwp (get_plain_opcode op) (reached input before_modrm) E i.
Proof.
  intros Hop Hi He. unfold get_plain_opcode. iwps. apply opcode_attr_wp; [done|]. intros a Ea. iwps.
  apply (escape_loop_wp _ 2 1); [by apply in_opcode_attr|lia|lia|by eapply escape_depth|by eapply primary_imm| |done|].
  { unfold MAX_INSN_SIZE. lia. }
  intros n i' Hn Hi' Ha. iwps. case_match; [apply bad_insn_wp|]. by eapply opcode_end_wp.
Qed.

(** A function that first calls the one before it. *)
Lemma need_wp (f : insn -> insn_field) get k st st' E i :
  f_got (f i) = false -> iwp get (reached input st) E i ->
  (forall i', inv i' -> st i' -> iwp k (reached input st') E i') ->
  iwp (need f get k) (reached input st') E i.
Proof.
  intros Hg Hget Hk. unfold need. iwps. rewrite Hg.
  eapply iwp_mono; [exact Hget|cbv beta|done].
  intros ret i' [(-> & Hi & Hs)|[->| ->]]; cbn [Z.eqb negb]; [by apply Hk| |].
  - iwps. right. by left.
  - iwps. right. by right.
Qed.

Lemma reached_nodata st i : reached input st (- ENODATA) i.
Proof. right. by left. Qed.
Hint Resolve reached_nodata : core.

Lemma get_opcode_wp E i :
  inv i -> start i -> f_got (i_prefixes i) = false ->
  iwp insn_get_opcode (reached input before_modrm) E i.
Proof.
  intros Hi Hs Hg. unfold insn_get_opcode. iwps.
  assert (f_got (i_opcode i) = false) as -> by apply Hs. iwps.
  eapply need_wp; [done|by apply get_prefixes_wp|]. clear i Hi Hs Hg. intros i Hi [Hp Ho].
  iwps. apply get_unsigned_wp; [done|auto|]. intros op Hop Hl. iwps.
  apply set_byte_wp; [lia|]. intros f Ef Eg. rsimpl_in Ef. rsimpl_in Eg. iwps.
  set (i1 := upd i_opcode _ _). assert (in_opcode 1 i1) as Hi1.
  { subst i1. destruct Ho as [Hu Hm]. destruct Hi as [? ? ? ? Ht Hnn].
    split; [|split; [exact Hp|split; [done|exact Hm]]].
    destruct Hu as [Hz _]. split; offsets; rsimpl; (done || lia). }
  clearbody i1. apply is_avx_wp; [apply Hi1|]. intros [|].
  - by apply avx_opcode_wp.
  - apply plain_opcode_wp; auto.
Qed.

(** *** ModRM, SIB and displacement *)

Definition before_sib i : Prop := past_modrm i /\ at_sib i /\ imm_ok (i_attr i).
Definition before_displacement i : Prop := past_sib i /\ at_displacement i /\ imm_ok (i_attr i).
Definition before_immediate i : Prop := past_displacement i /\ at_immediate i /\ imm_ok (i_attr i).

Lemma modrm_done_wp E i :
  inv i -> past_opcode i -> at_sib i -> imm_ok (i_attr i) ->
  iwp modrm_done (reached input before_sib) E i.
Proof.
  intros Hi Hp Hs Ha. unfold modrm_done, got_it. iwps. left. split; [done|].
  destruct (_ && _); (split; [destruct Hi; inv_solve|]);
    (split; [stage_solve|split; [stage_solve|exact Ha]]).
Qed.

Lemma get_group_wp mod_ E i :
  inv i -> past_opcode i -> at_sib i -> inat_has_second_immediate (i_attr i) = false ->
  iwp (get_group mod_) (reached input before_sib) E i.
Proof.
  intros Hi Hp Hs Ha. unfold get_group. iwps. apply last_prefix_id_wp; [apply Hp|]. intros pfx Hpfx.
  iwps. destruct (group_attr_Some mod_ pfx (i_attr i) Hpfx) as (a & Ea). apply iwp_lift.
  exists a. split; [done|]. iwps. apply is_avx_wp; [apply Hp|]. intros b.
  destruct (_ && _); [apply bad_insn_wp|]. apply modrm_done_wp; [destruct Hi; inv_solve|exact Hp|exact Hs|].
  rsimpl. intros Hb. pose proof (group_imm _ _ _ _ Ha Ea). congruence.
Qed.

(** Reading field [f], of [n] bytes. *)
Lemma get_modrm_wp E i :
  inv i -> start i -> f_got (i_prefixes i) = false ->
  iwp insn_get_modrm (reached input before_sib) E i.
Proof.
  intros Hi Hs Hg. unfold insn_get_modrm. iwps.
  assert (f_got (i_modrm i) = false) as -> by apply Hs. iwps.
  eapply need_wp; [apply Hs|by apply get_opcode_wp|]. clear i Hi Hs Hg. intros i Hi (Hp & Hm & Ha).
  iwps. destruct (inat_has_modrm (i_attr i)); [|apply modrm_done_wp; [done|done|apply Hm|done]].
  iwps. apply get_unsigned_wp; [done|auto|]. intros b Hb Hl. unfold set_field. iwps. rsimpl.
  set (i1 := upd i_modrm _ _).
  assert (inv i1 /\ past_opcode i1 /\ at_sib i1 /\ i_attr i1 = i_attr i) as (Hi1 & Hp1 & Hs1 & Ea).
  { subst i1. destruct Hm as [[Hz _] Hs]. unfold insn_field_set. change (u8 1) with 1.
    split; [destruct Hi; inv_solve|]. split; [exact Hp|]. by split. }
  clearbody i1. destruct (inat_is_group (i_attr i)) eqn:Eg.
  - apply get_group_wp; [done|done|done|]. rewrite Ea.
    destruct (inat_has_second_immediate (i_attr i)) eqn:E2; [|done]. destruct (Ha E2). congruence.
  - apply modrm_done_wp; [done|done|done|by rewrite Ea].
Qed.

Lemma get_sib_wp E i :
  inv i -> start i -> f_got (i_prefixes i) = false ->
  iwp insn_get_sib (reached input before_displacement) E i.
Proof.
  intros Hi Hs Hg. unfold insn_get_sib. iwps.
  assert (f_got (i_sib i) = false) as -> by apply Hs. iwps.
  eapply need_wp; [apply Hs|by apply get_modrm_wp|]. clear i Hi Hs Hg. intros i Hi (Hp & Hs & Ha).
  assert (forall i', inv i' -> past_modrm i' -> at_displacement i' -> imm_ok (i_attr i') ->
    iwp (got_it i_sib) (reached input before_displacement)
      (reached input before_displacement (- ENODATA)) i') as Hend.
  { clear i Hi Hp Hs Ha. intros i Hi Hp Hs Ha. unfold got_it. iwps. left. split; [done|].
    split; [destruct Hi; inv_solve|]. split; [stage_solve|split; [exact Hs|exact Ha]]. }
  iwps. destruct (negb _); iwps; [|apply Hend; (done || apply Hs)].
  apply byte_wp; [lia|]. intros m _. destruct (_ && _ && _); iwps; [|apply Hend; (done || apply Hs)].
  apply get_unsigned_wp; [done|auto|]. intros b Hb Hl. unfold set_field. iwps.
  destruct Hs as [[Hz _] Hs]. apply Hend; [|exact Hp|exact Hs|exact Ha].
  unfold insn_field_set. change (u8 1) with 1. destruct Hi. inv_solve.
Qed.

Lemma get_displacement_wp E i :
  inv i -> start i -> f_got (i_prefixes i) = false ->
  iwp insn_get_displacement (reached input before_immediate) E i.
Proof.
  intros Hi Hs Hg. unfold insn_get_displacement. iwps.
  assert (f_got (i_displacement i) = false) as -> by apply Hs. iwps.
  eapply need_wp; [apply Hs|by apply get_sib_wp|]. clear i Hi Hs Hg. intros i Hi (Hp & Hs & Ha).
  assert (forall i', inv i' -> past_sib i' -> at_immediate i' -> imm_ok (i_attr i') ->
    iwp (got_it i_displacement) (reached input before_immediate)
      (reached input before_immediate (- ENODATA)) i') as Hend.
  { clear i Hi Hp Hs Ha. intros i Hi Hp Hs Ha. unfold got_it. iwps. left. split; [done|].
    split; [destruct Hi; inv_solve|]. split; [stage_solve|split; [exact Hs|exact Ha]]. }
  iwps. destruct (negb _); iwps; [|apply Hend; (done || apply Hs)].
  assert (displacement_size i < 256)%nat as Hsz
    by (unfold displacement_size; repeat case_match; lia).
  destruct (displacement_size i) as [|sz]; iwps; [apply Hend; (done || apply Hs)|].
  unfold get_next_signed, set_field. iwps. apply get_unsigned_wp; [done|auto|]. intros v Hv Hl. iwps.
  destruct Hs as [[Hz _] Hs]. apply Hend; [|exact Hp|exact Hs|exact Ha].
  unfold insn_field_set. rewrite (wrap_small 8) by lia. destruct Hi. inv_solve.
Qed.

(** *** Immediates *)

(** So many bytes of the two immediate fields are read. *)
Definition imm_at (a b : Z) (attr : Z) i : Prop :=
  inv i /\ past_displacement i /\ f_nbytes (i_immediate i) = a /\ f_nbytes (i_immediate2 i) = b /\
  i_attr i = attr.

Lemma get_imm_wp n b attr (Q : unit -> insn -> Prop) E i :
  imm_at 0 b attr i -> (n < 256)%nat -> (forall i', E i') ->
  (forall i', imm_at (Z.of_nat n) b attr i' -> Q tt i') -> iwp (get_field i_immediate n) Q E i.
Proof.
  intros (Hi & Hp & Ea & Eb & Et) Hn He HQ. unfold get_field, get_next_signed, set_field. iwps.
  apply get_unsigned_wp; [done|auto|]. intros v Hv Hl. iwps.
  unfold insn_field_set. rewrite (wrap_small 8) by lia.
  apply HQ. split; [destruct Hi; inv_solve|]. split; [exact Hp|]. split; [done|]. by split.
Qed.

Lemma set_imm2_wp v n a attr i :
  imm_at a 0 attr i -> 0 <= n < 256 -> i_next_byte i + n <= i_end_kaddr i ->
  imm_at a n attr (i <| i_next_byte := i_next_byte i + n |>
                     <| i_immediate2 ::= fun p => insn_field_set p v n |>).
Proof.
  intros (Hi & Hp & Ea & Eb & Et) Hn Hl. unfold insn_field_set. rewrite (wrap_small 8) by lia.
  split; [destruct Hi; inv_solve|]. split; [exact Hp|]. split; [exact Ea|]. by split.
Qed.

Lemma get_imm2_wp n a attr (Q : unit -> insn -> Prop) E i :
  imm_at a 0 attr i -> (n < 256)%nat -> (forall i', E i') ->
  (forall i', imm_at a (Z.of_nat n) attr i' -> Q tt i') -> iwp (get_field i_immediate2 n) Q E i.
Proof.
  intros Hi Hn He HQ. unfold get_field, get_next_signed, set_field. iwps.
  apply get_unsigned_wp; [apply Hi|auto|]. intros v Hv Hl. iwps.
  apply HQ, set_imm2_wp; [done|lia|lia].
Qed.

Lemma both_got_wp a b attr (Q : Z -> insn -> Prop) E i :
  imm_at a b attr i -> (forall i', imm_at a b attr i' -> Q 1 i') -> iwp both_got Q E i.
Proof.
  intros (Hi & Hp & Ea & Eb & Et) HQ. unfold both_got. iwps. apply HQ.
  split; [destruct Hi; inv_solve|]. split; [exact Hp|]. split; [exact Ea|]. by split.
Qed.

Lemma or_err_out_wp m (Q : unit -> insn -> Prop) E i :
  (forall i', E i') -> iwp m (fun r i' => r <> 0 -> Q tt i') E i -> iwp (or_err_out m) Q E i.
Proof.
  intros He Hm. unfold or_err_out. iwps. eapply iwp_mono; [exact Hm|cbv beta|done].
  intros r i' Hr. destruct (Z.eqb_spec r 0); iwps; auto.
Qed.

(** One of the functions that read an immediate of a size the operand or the
    address gives. *)
Definition reads_imm (m : I Z) (one : bool) : Prop :=
  forall attr E i, imm_at 0 0 attr i ->
    iwp m (fun r i' => r <> 0 -> exists a b, imm_at a b attr i' /\ (one = true -> b = 0)) E i.

Ltac imm_step :=
  match goal with
  | |- iwp (get_field i_immediate _) _ _ _ =>
    eapply get_imm_wp; [eassumption|lia|done|]; intros ? ?
  | |- iwp (get_field i_immediate2 _) _ _ _ =>
    eapply get_imm2_wp; [eassumption|lia|done|]; intros ? ?
  | |- iwp both_got _ _ _ => eapply both_got_wp; [eassumption|]; intros ? ? _
  | |- iwp (if ?b then _ else _) _ _ _ => destruct b
  | |- iwp _ _ _ _ => iwp_step
  end; cbv beta iota zeta.
Ltac imm_solve := repeat imm_step; try done; try (intros _); do 2 eexists; (split; [eassumption|done]).

Lemma moffset_reads : reads_imm get_moffset false.
Proof. intros attr E i Hi. unfold get_moffset. imm_solve. Qed.
Lemma immv32_reads : reads_imm get_immv32 true.
Proof. intros attr E i Hi. unfold get_immv32. imm_solve. Qed.
Lemma immv_reads : reads_imm get_immv false.
Proof. intros attr E i Hi. unfold get_immv. imm_solve. Qed.
Lemma immptr_reads : reads_imm get_immptr false.
Proof.
  intros attr E i Hi. unfold get_immptr.
  assert (forall a i', imm_at a 0 attr i' ->
    iwp (v ← get_next_ushort; set_field i_immediate2 v 2 ;; both_got)
      (fun r i' => r <> 0 -> exists a b, imm_at a b attr i' /\ (false = true -> b = 0))
      (fun i' => 0 <> 0 -> exists a b, imm_at a b attr i' /\ (false = true -> b = 0)) i') as Hseg.
  { intros a i' Hi'. unfold get_next_ushort, set_field. iwps.
    apply get_unsigned_wp; [apply Hi'|done|]. intros v Hv Hl. iwps.
    eapply both_got_wp; [apply (set_imm2_wp v 2 a attr i'); (done || lia)|].
    intros i2 Hi2 _. by do 2 eexists. }
  iwps. repeat (case_match || iwps); try done; (eapply get_imm_wp; [done|lia|done|]); intros i1 Hi1;
    by eapply Hseg.
Qed.

Lemma imm_of_size_wp size attr (Q : unit -> insn -> Prop) E i :
  imm_at 0 0 attr i -> (forall i', E i') ->
  (forall a b i', imm_at a b attr i' -> (one_field size = true -> b = 0) -> Q tt i') ->
  iwp (get_immediate_of_size size) Q E i.
Proof.
  intros Hi He HQ. unfold get_immediate_of_size.
  assert (forall (one : bool) m, reads_imm m one -> (one_field size = true -> one = true) ->
    iwp (or_err_out m) Q E i) as Hreads.
  { intros one m Hm H1. apply or_err_out_wp; [done|].
    eapply iwp_mono; [by apply (Hm attr E)|cbv beta|done].
    intros r i' Hr Hz. destruct (Hr Hz) as (a & b & Hab & Hb). eapply HQ; [exact Hab|auto]. }
  repeat match goal with |- context [size =? ?k] => destruct (Z.eqb_spec size k) as [->|] end.
  1-3: eapply get_imm_wp; [exact Hi|lia|done|]; intros i' Hi'; by eapply HQ.
  - iwps. eapply get_imm_wp; [exact Hi|lia|done|]. intros i1 Hi1.
    eapply get_imm2_wp; [exact Hi1|lia|done|]. intros i2 Hi2. by eapply HQ.
  - apply (Hreads false); [apply immptr_reads|]. done.
  - apply (Hreads true); [apply immv32_reads|done].
  - apply (Hreads false); [apply immv_reads|]. done.
  - by iwps.
Qed.

Lemma get_immediate_wp E i :
  inv i -> start i -> f_got (i_prefixes i) = false ->
  iwp insn_get_immediate (reached input past_immediate) E i.
Proof.
  intros Hi Hs Hg. unfold insn_get_immediate. iwps.
  assert (f_got (i_immediate i) = false) as -> by apply Hs. iwps.
  eapply need_wp; [apply Hs|by apply get_displacement_wp|].
  clear i Hi Hs Hg. intros i Hi (Hp & [[Hz1 _] Hz2] & Ha).
  assert (imm_at 0 0 (i_attr i) i) as Him by (by repeat (split; [done|])).
  assert (forall a b i', imm_at a b (i_attr i) i' ->
    iwp (got_it i_immediate) (reached input past_immediate)
      (reached input past_immediate (- ENODATA)) i') as Hend.
  { intros a b i' (Hi' & Hp' & _). unfold got_it. iwps. left. split; [done|].
    split; [destruct Hi'; inv_solve|stage_solve]. }
  iwps. destruct (inat_has_moffset (i_attr i)).
  - apply or_err_out_wp; [auto|]. eapply iwp_mono; [by apply (moffset_reads (i_attr i) (fun _ => True))|cbv beta|auto].
    intros r i' Hr Hz. destruct (Hr Hz) as (a & b & Hab & _). by eapply Hend.
  - destruct (inat_has_immediate (i_attr i)); cbn [negb]; iwps; [|by eapply Hend].
    eapply imm_of_size_wp; [exact Him|auto|]. intros a b i' Hab Hb.
    destruct (inat_has_second_immediate (i_attr i)) eqn:E2; [|iwps; by eapply Hend].
    destruct (Ha E2) as [_ Hone]. rewrite (Hb Hone) in Hab.
    eapply get_imm2_wp; [exact Hab|lia|auto|]. intros i2 Hi2. by eapply Hend.
Qed.

(** *** Whole instructions *)

Lemma get_length_wp E i :
  inv i -> start i -> f_got (i_prefixes i) = false -> i_length i = 0 ->
  iwp insn_get_length (reached input (fun i' => past_immediate i' /\ i_length i' = i_next_byte i')) E i.
Proof.
  intros Hi Hs Hg El. unfold insn_get_length. iwps. rewrite El. cbn [Z.eqb negb].
  eapply need_wp; [apply Hs|by apply get_immediate_wp|]. intros i' Hi' Hp. iwps.
  left. split; [done|]. split; [destruct Hi'; inv_solve|]. split; [exact Hp|]. rsimpl.
  destruct Hi' as [_ Hm _ Hn _ _]. unfold MAX_INSN_SIZE in Hm. apply wrap_small; lia.
Qed.
End safe.
