(* ===== verification/InsnExample.v ===== *)
(** A concrete instance of the opcode tables, for witnesses: the rows of
    tools/arch/x86/lib/x86-opcode-map.txt that branches, prefixes and a few
    common instructions are on; the other rows are blank. *)
From Stdlib Require Import ZArith Lia List Bool.
From S2P Require Import Prelude InsnAttr InsnDecoder InsnSafe.
Open Scope Z_scope.
Open Scope c_scope.
Import ListNotations.

Definition row (lo hi attr : Z) : list (Z * Z) := map (fun op => (op, attr)) (seqZ lo (hi - lo + 1)).

Fixpoint find_row (rows : list (Z * Z)) (op : Z) : Z :=
  match rows with
  | [] => 0
  | (o, a) :: rows => if o =? op then a else find_row rows op
  end.

Definition table_of (n : Z) (rows : list (Z * Z)) : list Z := map (find_row rows) (seqZ 0 n).

Definition imm (size : Z) : Z := INAT_MAKE_IMM size.
Definition pfx (p : Z) : Z := INAT_MAKE_PREFIX p.

Definition primary_rows : list (Z * Z) :=
  row 0x0f 0x0f (INAT_MAKE_ESCAPE 1)
  ++ row 0x26 0x26 (pfx 7) ++ row 0x2e 0x2e (pfx 5) ++ row 0x36 0x36 (pfx 10)
  ++ row 0x3e 0x3e (pfx 6) ++ row 0x40 0x4f (pfx INAT_PFX_REX)
  ++ row 0x62 0x62 (INAT_MODRM .| pfx INAT_PFX_EVEX)
  ++ row 0x64 0x64 (pfx 8) ++ row 0x65 0x65 (pfx 9)
  ++ row 0x66 0x66 (pfx INAT_PFX_OPNDSZ) ++ row 0x67 0x67 (pfx INAT_PFX_ADDRSZ)
  ++ row 0x70 0x7f (imm INAT_IMM_BYTE) (* Jcc Jb *)
  ++ row 0x89 0x89 INAT_MODRM ++ row 0x8b 0x8b INAT_MODRM (* MOV *)
  ++ row 0xa1 0xa1 INAT_MOFFSET (* MOV rAX,Ov *)
  ++ row 0xb8 0xb8 (imm INAT_IMM_VWORD) (* MOV rAX/r8,Iv *)
  ++ row 0xc2 0xc2 (imm INAT_IMM_WORD .| INAT_FORCE64) (* RETN Iw *)
  ++ row 0xc4 0xc4 (INAT_MODRM .| pfx INAT_PFX_VEX3)
  ++ row 0xc5 0xc5 (INAT_MODRM .| pfx INAT_PFX_VEX2)
  ++ row 0xc8 0xc8 (imm INAT_IMM_WORD .| INAT_SCNDIMM) (* ENTER Iw,Ib *)
  ++ row 0xe0 0xe3 (imm INAT_IMM_BYTE .| INAT_FORCE64) (* LOOP, JrCXZ Jb *)
  ++ row 0xe8 0xe9 (imm INAT_IMM_VWORD32 .| INAT_FORCE64) (* CALL, JMP Jz *)
  ++ row 0xea 0xea (imm INAT_IMM_PTR) (* JMP-far Ap *)
  ++ row 0xeb 0xeb (imm INAT_IMM_BYTE .| INAT_FORCE64) (* JMP Jb *)
  ++ row 0xf0 0xf0 (pfx 4) ++ row 0xf2 0xf2 (pfx 3) ++ row 0xf3 0xf3 (pfx 2)
  ++ row 0xff 0xff (INAT_MAKE_GROUP 1) (* Grp5 *).

(** After 0x0f. *)
Definition escape1_rows : list (Z * Z) :=
  row 0x28 0x28 (INAT_MODRM .| INAT_VEXOK) (* vmovaps Vps,Wps *)
  ++ row 0x38 0x38 (INAT_MAKE_ESCAPE 2) ++ row 0x3a 0x3a (INAT_MAKE_ESCAPE 3)
  ++ row 0x80 0x8f (imm INAT_IMM_VWORD32 .| INAT_FORCE64) (* Jcc Jz *).

(** After 0x0f 0x38 and 0x0f 0x3a: pshufb and palignr. *)
Definition escape2_rows : list (Z * Z) := row 0x00 0x00 INAT_MODRM.
Definition escape3_rows : list (Z * Z) := row 0x0f 0x0f (INAT_MODRM .| imm INAT_IMM_BYTE).

(** Grp5: the near call and jump force 64 bits. *)
Definition group5_rows : list (Z * Z) :=
  row 0 1 INAT_MODRM ++ row 2 2 (INAT_MODRM .| INAT_FORCE64) ++ row 3 3 INAT_MODRM
  ++ row 4 4 (INAT_MODRM .| INAT_FORCE64) ++ row 5 5 INAT_MODRM
  ++ row 6 6 (INAT_MODRM .| INAT_FORCE64).

Definition no_tables : list (option (list Z)) := [None; None; None; None].
Definition only (n : Z) (rows : list (Z * Z)) : list (option (list Z)) :=
  [Some (table_of n rows); None; None; None].

#[export] Instance example_tables : InatTables := {|
  inat_primary_table := table_of 256 primary_rows;
  inat_escape_tables :=
    [no_tables; only 256 escape1_rows; only 256 escape2_rows; only 256 escape3_rows];
  inat_group_tables := [no_tables; only 8 group5_rows] ++ replicate 30 no_tables;
  inat_avx_tables := [no_tables; only 256 escape1_rows; only 256 escape2_rows; only 256 escape3_rows]
    ++ replicate 28 no_tables
|}.

(** ** The tables have the right shape *)

Definition all_entries (P : Z -> bool) (tables : list (list (option (list Z)))) : bool :=
  forallb (forallb (fun t => match t with Some t => forallb P t | None => true end)) tables.

Lemma idx_In {A} (l : list A) n x : idx l n = Some x -> x ∈ l.
Proof. unfold idx. case_match; [done|]. apply list_elem_of_lookup_2. Qed.

Lemma entry_ok P tables n p op (row_ : list (option (list Z))) t a :
  all_entries P tables = true -> idx tables n = Some row_ -> idx row_ p = Some (Some t) ->
  idx t op = Some a -> P a = true.
Proof.
  unfold all_entries. rewrite forallb_forall. intros Hp Hr Ht Ha.
  apply idx_In, list_elem_of_In in Hr. specialize (Hp _ Hr). rewrite forallb_forall in Hp.
  apply idx_In, list_elem_of_In in Ht. specialize (Hp _ Ht). cbv beta iota in Hp.
  rewrite forallb_forall in Hp. apply Hp. by apply list_elem_of_In, (idx_In _ op).
Qed.

(** Whatever holds of the entries holds of the attributes looked up. *)
Ltac lookup_cases E :=
  repeat match type of E with
  | (_ ← ?o; _) = Some _ => let x := fresh "x" in let Ex := fresh "Ex" in
    destruct o as [x|] eqn:Ex; cbn [mbind option_bind] in E; [|discriminate E]
  | match ?t with Some _ => _ | None => _ end = Some _ => destruct t
  | (if ?b then _ else _) = Some _ => destruct b
  end.

Section entries.
Context `{InatTables} (P : Z -> bool).

Lemma escape_attr_ok op p e a :
  P 0 = true -> all_entries P inat_escape_tables = true ->
  inat_get_escape_attribute op p e = Some a -> P a = true.
Proof.
  intros H0 Hp E. unfold inat_get_escape_attribute in E. lookup_cases E;
    (by injection E as <-) || (try injection E as <-; by eapply entry_ok).
Qed.

Lemma avx_attr_ok op m p a :
  P 0 = true -> all_entries P inat_avx_tables = true ->
  inat_get_avx_attribute op m p = Some a -> P a = true.
Proof.
  intros H0 Hp E. unfold inat_get_avx_attribute in E. lookup_cases E;
    (by injection E as <-) || (try injection E as <-; by eapply entry_ok).
Qed.
End entries.

Lemma group_attr_second `{InatTables} modrm p g a :
  all_entries (fun a => negb (inat_has_second_immediate a)) inat_group_tables = true ->
  inat_has_second_immediate g = false ->
  inat_get_group_attribute modrm p g = Some a -> inat_has_second_immediate a = false.
Proof.
  intros Hp Hg E.
  assert (inat_has_second_immediate (inat_group_common_attribute g) = false) as Hc.
  { unfold inat_has_second_immediate, inat_group_common_attribute, has_bits in *.
    rewrite <- Z.land_assoc. exact Hg. }
  assert (forall x, inat_has_second_immediate x = false ->
    inat_has_second_immediate (x .| inat_group_common_attribute g) = false) as Hor.
  { clear -Hc. unfold inat_has_second_immediate, has_bits. intros x Hx.
    rewrite Z.land_lor_distr_l. apply negb_false_iff, Z.eqb_eq in Hc, Hx. by rewrite Hc, Hx. }
  unfold inat_get_group_attribute in E. lookup_cases E; injection E as <-; try exact Hc;
    apply Hor, negb_true_iff; by eapply (entry_ok (fun a => negb (inat_has_second_immediate a))).
Qed.

Definition imm_okb (a : Z) : bool :=
  negb (inat_has_second_immediate a)
  || (negb (inat_is_group a) && one_field (inat_immediate_size a)).

Lemma imm_okb_ok a : imm_okb a = true -> imm_ok a.
Proof.
  unfold imm_okb, imm_ok. intros Hb E. rewrite E in Hb. cbn [negb orb] in Hb.
  apply andb_true_iff in Hb as [Hg Ho]. by apply negb_true_iff in Hg.
Qed.

Lemma tables_sized_dec rows n tables :
  bool_decide (Z.of_nat (length tables) = rows) = true ->
  forallb (fun row => bool_decide (Z.of_nat (length row) = 4) &&
    forallb (fun t => match t with Some t => bool_decide (Z.of_nat (length t) = n) | None => true end) row)
    tables = true ->
  tables_sized rows n tables.
Proof.
  intros Hl Hf. apply bool_decide_eq_true in Hl. split; [exact Hl|].
  apply Forall_forall. intros row_ Hr. rewrite forallb_forall in Hf. specialize (Hf _ Hr).
  apply andb_true_iff in Hf as [Hf Ht]. apply bool_decide_eq_true in Hf. split; [exact Hf|].
  apply Forall_forall. intros t Hin. rewrite forallb_forall in Ht. specialize (Ht _ Hin).
  destruct t; [|done]. by apply bool_decide_eq_true in Ht.
Qed.

(** Only the first escape table has escapes, and to the other two. *)
Definition last_escape (a : Z) : bool := negb (inat_is_escape a) || (2 <=? inat_escape_id a).

Lemma last_escape_within op p e a :
  2 <= inat_escape_id e -> inat_get_escape_attribute op p e = Some a -> inat_is_escape a = false.
Proof.
  intros He E. unfold inat_get_escape_attribute in E.
  assert (inat_escape_id e = 2 \/ inat_escape_id e = 3) as Hid.
  { pose proof (shifted_field_range e INAT_ESC_OFFS INAT_ESC_BITS ltac:(done) ltac:(done)). unfold inat_escape_id in *.
    change INAT_ESC_MASK with (((1 .<< INAT_ESC_BITS) - 1) .<< INAT_ESC_OFFS) in *.
    assert (2 ^ INAT_ESC_BITS = 4) by done. lia. }
  apply negb_true_iff. revert E. destruct Hid as [-> | ->]; cbn [mbind option_bind idx]; intros E.
  - apply (escape_attr_ok (H := {| inat_primary_table := []; inat_group_tables := []; inat_avx_tables := [];
      inat_escape_tables := replicate 4 (only 256 escape2_rows) |})
      (fun a => negb (inat_is_escape a)) op p (INAT_MAKE_ESCAPE 2) a); [done|by vm_compute|exact E].
  - apply (escape_attr_ok (H := {| inat_primary_table := []; inat_group_tables := []; inat_avx_tables := [];
      inat_escape_tables := replicate 4 (only 256 escape3_rows) |})
      (fun a => negb (inat_is_escape a)) op p (INAT_MAKE_ESCAPE 3) a); [done|by vm_compute|exact E].
Qed.

#[export] Instance example_tables_ok : TablesOk.
Proof.
  split.
  - by vm_compute.
  - apply tables_sized_dec; by vm_compute.
  - apply tables_sized_dec; by vm_compute.
  - apply tables_sized_dec; by vm_compute.
  - intros op a Ha.
    assert (forallb (fun a => negb (inat_is_escape a) || (inat_escape_id a =? 1)) inat_primary_table
      = true) as Hp by (by vm_compute).
    rewrite forallb_forall in Hp. specialize (Hp a ltac:(by apply list_elem_of_In, (idx_In _ op))).
    apply orb_true_iff in Hp as [Hp|Hp]; [left; by apply negb_true_iff|].
    right. intros op1 p1 a1 E1. pose proof (escape_attr_ok last_escape _ _ _ _ ltac:(done) ltac:(by vm_compute) E1) as H1.
    apply orb_true_iff in H1 as [H1|H1]; [left; by apply negb_true_iff|].
    right. intros op2 p2 a2 E2. left. eapply last_escape_within; [|exact E2]. by apply Z.leb_le.
  - intros op a Ha. apply imm_okb_ok.
    assert (forallb imm_okb inat_primary_table = true) as Hp by (by vm_compute).
    rewrite forallb_forall in Hp. apply Hp. by apply list_elem_of_In, (idx_In _ op).
  - intros op p e a Ha. apply imm_okb_ok. eapply escape_attr_ok; [| |exact Ha]; by vm_compute.
  - intros op m p a Ha. apply imm_okb_ok. eapply avx_attr_ok; [| |exact Ha]; by vm_compute.
  - intros modrm p g a Hg. apply group_attr_second; [by vm_compute|exact Hg].
Qed.
