(* ===== verification/InsnPrefix.v ===== *)
(** Instructions are a prefix code: two runs of the decoder on buffers that
    agree as far as both go.  Where the first decodes an instruction, the second
    decodes the same one, or its buffer ends too early and it says so. *)
From Stdlib Require Import ZArith Lia List Bool.
From S2P Require Import Prelude InsnAttr InsnDecoder InsnSafe.
Open Scope Z_scope.
Open Scope c_scope.
Import ListNotations.

Section prefix.
Context (b1 b2 : list byte) (e1 e2 : Z).
Context (He1 : e1 <= Z.of_nat (length b1)) (He2 : e2 <= Z.of_nat (length b2)).
Context (Hagree : forall k, 0 <= k < e1 -> k < e2 -> b1 !! Z.to_nat k = b2 !! Z.to_nat k).
Implicit Types (i : insn).

(** The state of the second run, from that of the first. *)
Definition shift i : insn := i <| i_kaddr := b2 |> <| i_end_kaddr := e2 |>.

Definition base i : Prop := i_kaddr i = b1 /\ i_end_kaddr i = e1 /\ 0 <= i_next_byte i.

(** From [i], the first run returns a result only in a state that satisfies [P]
    and is at [lo] at least; then the second returns the same, or ends with an
    error for want of bytes, its buffer ending less than [s] after the first
    run has got to. *)
Definition sim {A} (s lo : Z) (P : insn -> Prop) (m1 m2 : I A) i : Prop :=
  forall a i', m1 i = IRet a i' ->
    i_next_byte i <= i_next_byte i' /\ lo <= i_next_byte i' /\ base i' /\ P i' /\
    (m2 (shift i) = IRet a (shift i') \/
     (exists j, m2 (shift i) = IErr j) /\ e2 < i_next_byte i' + s).

(** The same for a function that returns a code, when the code is 0. *)
Definition simz (s : Z) (P : insn -> Prop) (m1 m2 : I Z) i : Prop :=
  forall i', m1 i = IRet 0 i' ->
    i_next_byte i <= i_next_byte i' /\ base i' /\ P i' /\
    (m2 (shift i) = IRet 0 (shift i') \/
     (exists j, m2 (shift i) = IErr j \/ m2 (shift i) = IRet (- ENODATA) j) /\
     e2 < i_next_byte i' + s).

(** *** Rules *)

Lemma sim_ret {A} s lo (P : insn -> Prop) (a : A) i :
  base i -> P i -> lo <= i_next_byte i -> sim s lo P (mret a) (mret a) i.
Proof. intros Hb HP Hlo ? ? [= <- <-]. repeat (split; [done || lia|]). by left. Qed.

Lemma sim_bind {A B} s lo lo' (P P' : insn -> Prop) (m1 m2 : I A) (k1 k2 : A -> I B) i :
  sim s lo' P m1 m2 i ->
  (forall a i', base i' -> P i' -> i_next_byte i <= i_next_byte i' -> lo' <= i_next_byte i' ->
     sim s lo P' (k1 a) (k2 a) i') ->
  sim s lo P' (m1 ≫= k1) (m2 ≫= k2) i.
Proof.
  intros Hm Hk b i'. unfold mbind, I_bind. destruct (m1 i) as [| |a i1] eqn:E; [done|done|].
  intros Ek. destruct (Hm a i1 E) as (Hn & Hlo & Hb & HP & Hs).
  destruct (Hk a i1 Hb HP Hn Hlo b i' Ek) as (Hn' & Hlo' & Hb' & HP' & Hs').
  split; [lia|]. split; [done|]. split; [done|]. split; [done|].
  destruct Hs as [-> |[[j ->] He]]; [done|]. right. split; [by eexists|lia].
Qed.

Lemma sim_get {B} s lo (P : insn -> Prop) (k1 k2 : insn -> I B) i :
  sim s lo P (k1 i) (k2 (shift i)) i -> sim s lo P (iget ≫= k1) (iget ≫= k2) i.
Proof. done. Qed.

(** A change that is the same in both runs. *)
Lemma sim_modify {B} s lo (P : insn -> Prop) f (k1 k2 : unit -> I B) i :
  f (shift i) = shift (f i) -> i_next_byte i <= i_next_byte (f i) ->
  sim s lo P (k1 tt) (k2 tt) (f i) -> sim s lo P (imodify f ≫= k1) (imodify f ≫= k2) i.
Proof.
  intros Hf Hn Hk b i' E. specialize (Hk b i' E).
  unfold mbind, I_bind, imodify. rewrite Hf. destruct Hk as (? & ?). split; [lia|done].
Qed.

Lemma sim_modify_last s lo (P : insn -> Prop) f i :
  f (shift i) = shift (f i) -> base (f i) -> P (f i) -> i_next_byte i <= i_next_byte (f i) ->
  lo <= i_next_byte (f i) -> sim s lo P (imodify f) (imodify f) i.
Proof.
  intros Hf Hb HP Hn Hlo ? ? [= <- <-]. unfold imodify. rewrite Hf.
  repeat (split; [done|]). by left.
Qed.

Lemma sim_lift {A B} s lo (P : insn -> Prop) (o : option A) (k1 k2 : A -> I B) i :
  (forall a, sim s lo P (k1 a) (k2 a) i) -> sim s lo P (ilift o ≫= k1) (ilift o ≫= k2) i.
Proof. intros Hk b i'. unfold mbind, I_bind, ilift. destruct o as [a|]; [apply Hk|done]. Qed.

Lemma sim_fail {A} s lo (P : insn -> Prop) (m2 : I A) i : sim s lo P err_out m2 i.
Proof. intros ? ? [=]. Qed.

Lemma sim_fault {A} s lo (P : insn -> Prop) (m2 : I A) i : sim s lo P ifault m2 i.
Proof. intros ? ? [=]. Qed.

Lemma sim_weaken {A} s s' lo lo' (P P' : insn -> Prop) (m1 m2 : I A) i :
  sim s lo P m1 m2 i -> s <= s' -> lo' <= lo -> (forall i, P i -> P' i) -> sim s' lo' P' m1 m2 i.
Proof.
  intros Hm Hs Hlo HP a i' E. destruct (Hm a i' E) as (? & ? & ? & ? & Hc).
  split; [done|]. split; [lia|]. split; [done|]. split; [auto|].
  destruct Hc as [?|[? ?]]; [by left|right; split; [done|lia]].
Qed.

(** A run goes forward. *)
Lemma sim_forward {A} s lo lo' P (m1 m2 : I A) i :
  lo' <= i_next_byte i -> sim s lo P m1 m2 i -> sim s lo' P m1 m2 i.
Proof.
  intros Hlo Hm a i' E. destruct (Hm a i' E) as (? & ? & ?). split; [done|]. split; [lia|done].
Qed.

Lemma rd_agree k : 0 <= k < e1 -> k < e2 -> rd b1 k = rd b2 k.
Proof. intros Hk Hk2. unfold rd. destruct (Z.ltb_spec k 0); [lia|]. by rewrite Hagree. Qed.

Lemma take_drop_agree n : forall o : nat,
  Z.of_nat o + Z.of_nat n <= e1 -> Z.of_nat o + Z.of_nat n <= e2 ->
  take n (drop o b1) = take n (drop o b2).
Proof.
  intros o Ho1 Ho2. apply list_eq. intros k. destruct (decide (k < n)%nat) as [Hk|Hk].
  - rewrite !lookup_take_lt, !lookup_drop by lia.
    specialize (Hagree (Z.of_nat (o + k)) ltac:(lia) ltac:(lia)). by rewrite Nat2Z.id in Hagree.
  - rewrite !lookup_ge_None_2; [done|rewrite length_take; lia|rewrite length_take; lia].
Qed.

Lemma rd_le_agree o n :
  0 <= o -> o + Z.of_nat n <= e1 -> o + Z.of_nat n <= e2 -> rd_le b1 o n = rd_le b2 o n.
Proof.
  intros Ho H1 H2. unfold rd_le. destruct (Z.ltb_spec o 0); [lia|].
  destruct (Z.ltb_spec (Z.of_nat (length b1)) (o + Z.of_nat n)); [lia|].
  destruct (Z.ltb_spec (Z.of_nat (length b2)) (o + Z.of_nat n)); [lia|].
  cbn [orb]. do 2 f_equal. apply take_drop_agree; lia.
Qed.

Lemma peek_eq n i : peek_nbyte_next n i =
  if i_next_byte i + 1 + n <=? i_end_kaddr i then
    match rd (i_kaddr i) (i_next_byte i + n) with Some b => IRet b i | None => IFault end
  else IErr i.
Proof. unfold peek_nbyte_next, mbind, I_bind, iget, validate_next. by case_match. Qed.

Lemma get_unsigned_eq sz i : get_unsigned sz i =
  if i_next_byte i + Z.of_nat sz + 0 <=? i_end_kaddr i then
    match rd_le (i_kaddr i) (i_next_byte i) sz with
    | Some v => IRet v (i <| i_next_byte := i_next_byte i + Z.of_nat sz |>)
    | None => IFault
    end
  else IErr i.
Proof.
  unfold get_unsigned, mbind, I_bind, iget, validate_next, ilift. case_match; [|done].
  by destruct (rd_le _ _ _).
Qed.

(** Peeking at byte [n], which will have been read by [lo + s], or is next. *)
Lemma sim_peek {B} s lo (P : insn -> Prop) n (k1 k2 : Z -> I B) i :
  base i -> 0 <= n -> i_next_byte i + n + 1 <= Z.max lo (i_next_byte i) + s ->
  (forall b, rd b1 (i_next_byte i + n) = Some b -> sim s lo P (k1 b) (k2 b) i) ->
  sim s lo P (peek_nbyte_next n ≫= k1) (peek_nbyte_next n ≫= k2) i.
Proof.
  intros (Hb & He & H0) Hn Hlo Hk b i'. unfold mbind, I_bind. rewrite !peek_eq.
  change (i_next_byte (shift i)) with (i_next_byte i).
  change (i_end_kaddr (shift i)) with e2. change (i_kaddr (shift i)) with b2. rewrite Hb, He.
  destruct (Z.leb_spec (i_next_byte i + 1 + n) e1); [|done].
  destruct (rd b1 (i_next_byte i + n)) as [x|] eqn:Ex; [|done]. intros E.
  destruct (Hk x eq_refl b i' E) as (Hn' & Hlo' & Hb' & HP & Hc).
  split; [done|]. split; [done|]. split; [done|]. split; [done|].
  destruct (Z.leb_spec (i_next_byte i + 1 + n) e2).
  - rewrite <- rd_agree by lia. by rewrite Ex.
  - right. split; [by eexists|lia].
Qed.

(** Reading [sz] bytes. *)
Lemma sim_unsigned {B} s lo (P : insn -> Prop) sz (k1 k2 : Z -> I B) i :
  base i -> 0 <= s ->
  (forall v, let i' := i <| i_next_byte := i_next_byte i + Z.of_nat sz |> in
     base i' -> sim s lo P (k1 v) (k2 v) i') ->
  sim s lo P (get_unsigned sz ≫= k1) (get_unsigned sz ≫= k2) i.
Proof.
  intros (Hb & He & H0) Hs Hk b i'. unfold mbind, I_bind. rewrite !get_unsigned_eq.
  change (i_next_byte (shift i)) with (i_next_byte i).
  change (i_end_kaddr (shift i)) with e2. change (i_kaddr (shift i)) with b2. rewrite Hb, He.
  destruct (Z.leb_spec (i_next_byte i + Z.of_nat sz + 0) e1); [|done].
  destruct (rd_le b1 (i_next_byte i) sz) as [x|] eqn:Ex; [|done]. intros E.
  destruct (Hk x ltac:(split; [done|split; [done|rsimpl; lia]]) b i' E) as (Hn' & Hlo' & Hb' & HP & Hc).
  rsimpl_in Hn'. split; [lia|]. split; [done|]. split; [done|]. split; [done|].
  destruct (Z.leb_spec (i_next_byte i + Z.of_nat sz + 0) e2).
  - rewrite <- rd_le_agree by lia. rewrite Ex. exact Hc.
  - right. split; [by eexists|lia].
Qed.

Lemma sim_assoc {A B C} s lo (P : insn -> Prop) (m1 m2 : I A) (f1 f2 : A -> I B) (k1 k2 : B -> I C) i :
  sim s lo P (m1 ≫= fun a => f1 a ≫= k1) (m2 ≫= fun a => f2 a ≫= k2) i ->
  sim s lo P ((m1 ≫= f1) ≫= k1) ((m2 ≫= f2) ≫= k2) i.
Proof.
  unfold sim, mbind, I_bind. intros Hs a i'. specialize (Hs a i').
  destruct (m1 i); [done|done|]. by destruct (m2 (shift i)).
Qed.

Lemma sim_ret_bind {A B} s lo (P : insn -> Prop) (a : A) (k1 k2 : A -> I B) i :
  sim s lo P (k1 a) (k2 a) i -> sim s lo P (mret a ≫= k1) (mret a ≫= k2) i.
Proof. done. Qed.

(** Setting a byte of a field that both runs share. *)
Lemma sim_set_byte {B} s lo (P : insn -> Prop) (p : insn -> insn_field) `{!Setter p} n v
    (k1 k2 : unit -> I B) i :
  p (shift i) = p i -> (forall f, (shift i) <| p := f |> = shift (i <| p := f |>)) ->
  (forall f, i_next_byte (i <| p := f |>) = i_next_byte i) ->
  (forall f, sim s lo P (k1 tt) (k2 tt) (i <| p := f |>)) ->
  sim s lo P (set_byte p n v ≫= k1) (set_byte p n v ≫= k2) i.
Proof.
  intros Hp Hf Hn Hk. unfold set_byte. apply sim_assoc, sim_get. rewrite Hp.
  apply sim_assoc, sim_lift. intros f. apply sim_modify; [done|by rewrite Hn|]. apply Hk.
Qed.

Lemma sim_set_byte_last s lo (P : insn -> Prop) (p : insn -> insn_field) `{!Setter p} n v i :
  p (shift i) = p i -> (forall f, (shift i) <| p := f |> = shift (i <| p := f |>)) ->
  (forall f, i_next_byte (i <| p := f |>) = i_next_byte i) ->
  (forall f, base (i <| p := f |>)) -> (forall f, P (i <| p := f |>)) -> lo <= i_next_byte i ->
  sim s lo P (set_byte p n v) (set_byte p n v) i.
Proof.
  intros Hp Hf Hn Hb HP Hlo. unfold set_byte. apply sim_get. rewrite Hp.
  apply sim_lift. intros f. apply sim_modify_last; [done|done|done|by rewrite Hn|by rewrite Hn].
Qed.
End prefix.

(** [sims] runs the primitives of two runs side by side; [unshift] drops the
    difference between them where it does not matter. *)
Ltac unshift := repeat match goal with
  |- context [?p (shift ?b ?e ?i)] => change (p (shift b e i)) with (p i) end.
Ltac sim_step :=
  lazymatch goal with
  | |- sim _ _ _ _ _ _ _ (mbind _ (mbind _ _)) _ _ => apply sim_assoc
  | |- sim _ _ _ _ _ _ _ (mbind _ iget) _ _ => apply sim_get; cbv beta; unshift
  | |- sim _ _ _ _ _ _ _ (mbind _ (mret _)) _ _ => apply sim_ret_bind; cbv beta
  | |- sim _ _ _ _ _ _ _ (mbind _ (imodify _)) _ _ =>
    apply sim_modify; [reflexivity|rsimpl; lia|]; cbv beta
  | |- sim _ _ _ _ _ _ _ (mbind _ (set_byte _ _ _)) _ _ =>
    apply sim_set_byte; [reflexivity|intros; reflexivity|intros; reflexivity|]; intros
  | |- sim _ _ _ _ _ _ _ (mbind _ (ilift _)) _ _ => apply sim_lift; intros
  | |- sim _ _ _ _ _ _ _ err_out _ _ => apply sim_fail
  | |- sim _ _ _ _ _ _ _ ifault _ _ => apply sim_fault
  | |- sim _ _ _ _ _ _ _ (mbind _ (if ?b then _ else _)) _ _ => destruct b eqn:?
  | |- sim _ _ _ _ _ _ _ (if ?b then _ else _) _ _ => destruct b eqn:?
  end.
Ltac sims := repeat sim_step.

(** [base_solve]: the base of an updated state; [sim_read] peeks at or reads a
    byte. *)
Ltac base_solve :=
  match goal with Hb : base _ _ _ |- _ =>
    let H1 := fresh in let H2 := fresh in let H3 := fresh in destruct Hb as (H1 & H2 & H3);
    split; [exact H1|split; [exact H2|rsimpl; lia]] end.
Ltac sim_read :=
  lazymatch goal with
  | |- sim _ _ _ _ _ _ _ (mbind _ (peek_nbyte_next _)) _ _ =>
    eapply sim_peek; [eassumption|base_solve|lia|rsimpl; lia|]; intros ? _
  | |- sim _ _ _ _ _ _ _ (mbind _ (get_unsigned _)) _ _ =>
    eapply sim_unsigned; [eassumption|eassumption|eassumption|base_solve|lia|]; cbv zeta; intros ? ?
  end; cbv beta.

(** [sim_last]: the last step of a run; what it keeps is kept by conversion. *)
Ltac keep_solve := match goal with H : ?P ?i |- ?P _ => exact H end.
Ltac sim_last :=
  lazymatch goal with
  | |- sim _ _ _ _ _ _ _ (mret _) _ _ => apply sim_ret; [base_solve|keep_solve|]
  | |- sim _ _ _ _ _ _ _ (imodify _) _ _ =>
    apply sim_modify_last; [reflexivity|base_solve|keep_solve|rsimpl; lia|]
  | |- sim _ _ _ _ _ _ _ (set_byte _ _ _) _ _ =>
    apply sim_set_byte_last; [reflexivity|intros; reflexivity|intros; reflexivity
      |intros; base_solve|intros; keep_solve|]
  end; try (rsimpl; match goal with Hb : base _ _ _ |- _ => destruct Hb as (_ & _ & ?); lia end).

(** *** Prefixes: the byte after them is still to be read *)
Section prefixes.
Context (b1 b2 : list byte) (e1 e2 : Z).
Context (He1 : e1 <= Z.of_nat (length b1)) (He2 : e2 <= Z.of_nat (length b2)).
Context (Hagree : forall k, 0 <= k < e1 -> k < e2 -> b1 !! Z.to_nat k = b2 !! Z.to_nat k).
Context `{InatTables}.
Implicit Types (i : insn).
Notation sim := (sim b1 b2 e1 e2).
Notation base := (base b1 e1).

Definition mode64 i : Prop := i_x86_64 i = true.

Lemma sim_prefix_loop fuel : forall nb lb b i, base i -> mode64 i ->
  sim 1 0 mode64 (prefix_loop fuel nb lb b) (prefix_loop fuel nb lb b) i.
Proof.
  induction fuel as [|fuel IH]; intros nb lb b i Hb Hm; cbn [prefix_loop]; sims.
  - unfold next_prefix, peek_next, skip_next. sims. sim_read. apply IH; [base_solve|exact Hm].
  - apply sim_ret; [done|done|apply Hb].
  - unfold add_prefix. sims.
    apply sim_modify.
    { destruct (inat_is_address_size_prefix a), (inat_is_operand_size_prefix a); try reflexivity;
        cbn; destruct (i_x86_64 i); reflexivity. }
    { repeat case_match; rsimpl; lia. }
    set (i' := if inat_is_address_size_prefix _ then _ else _).
    assert (base i' /\ mode64 i') as [Hb' Hm'].
    { subst i'. repeat case_match; (split; [base_solve|exact Hm]). }
    clearbody i'. clear i Hb Hm. sims.
    unfold next_prefix, peek_next, skip_next. sims. sim_read. apply IH; [base_solve|exact Hm'].
  - apply sim_ret; [done|done|apply Hb].
Qed.

Lemma sim_set_last_prefix nb lb i : base i -> mode64 i ->
  sim 1 0 mode64 (set_last_prefix nb lb) (set_last_prefix nb lb) i.
Proof. intros Hb Hm. unfold set_last_prefix. sims; sim_last. Qed.

Lemma sim_rex_prefix i : base i -> mode64 i ->
  sim 1 0 mode64 get_rex_prefix get_rex_prefix i.
Proof.
  intros Hb Hm. unfold get_rex_prefix, peek_next, skip_next. sims; try sim_last.
  sim_read. sims; sim_last.
Qed.

Lemma sim_vex_w {B} s lo (P : insn -> Prop) b (k : unit -> I B) i :
  (forall i', base i' -> mode64 i' -> i_next_byte i' = i_next_byte i -> sim s lo P (k tt) (k tt) i') ->
  base i -> mode64 i -> sim s lo P (set_vex_w b ≫= k) (set_vex_w b ≫= k) i.
Proof.
  intros Hk Hb Hm. unfold set_vex_w. apply sim_modify.
  - cbn. by destruct (i_x86_64 i && X86_VEX_W b).
  - by destruct (i_x86_64 i && X86_VEX_W b).
  - destruct (i_x86_64 i && X86_VEX_W b); apply Hk; (base_solve || keep_solve || reflexivity).
Qed.

Lemma sim_vex_prefix i : base i -> mode64 i ->
  sim 1 0 mode64 get_vex_prefix get_vex_prefix i.
Proof.
  intros Hb Hm. unfold get_vex_prefix, peek_next, set_vex_length, skip_next. sim_read.
  apply sim_lift. intros attr. sim_step; [|sims; sim_last].
  apply (sim_weaken _ _ _ _ 1 1 (i_next_byte i + 2) 0 mode64 mode64); [|lia| |done].
  2: { destruct Hb as (_ & _ & ?). lia. }
  sims. sim_read. sims; [unfold mode64 in Hm; rewrite Hm in *; discriminate| | |].
  - apply (sim_weaken _ _ _ _ 1 1 (i_next_byte i + 4) (i_next_byte i + 2) mode64 mode64); [|lia|lia|done].
    sim_read. sims. sim_read. sims. apply sim_vex_w; [|base_solve|keep_solve].
    intros i' Hb' Hm' En. rsimpl_in En. sims. sim_last.
  - apply (sim_weaken _ _ _ _ 1 1 (i_next_byte i + 3) (i_next_byte i + 2) mode64 mode64); [|lia|lia|done].
    sim_read. sims. apply sim_vex_w; [|base_solve|keep_solve].
    intros i' Hb' Hm' En. rsimpl_in En. sims. sim_last.
  - sim_last.
Qed.

(** The buffer does not begin with UD2, the start of the emulation prefixes. *)
Definition no_ud2 (b : list byte) (e : Z) : Prop :=
  2 <= e -> rd b 0 = Some 0x0f -> rd b 1 <> Some 0x0b.

Lemma match_ud2_prefix p i :
  i_next_byte i = 0 -> i_end_kaddr i <= Z.of_nat (length (i_kaddr i)) ->
  no_ud2 (i_kaddr i) (i_end_kaddr i) ->
  match_prefix 0 (0x0f :: 0x0b :: p) i = IErr i.
Proof.
  intros H0 Hl Hn. cbn [match_prefix]. unfold mbind, I_bind. rewrite peek_eq, H0.
  destruct (Z.leb_spec (0 + 1 + 0) (i_end_kaddr i)); [|done].
  destruct (rd_Some (i_kaddr i) (0 + 0)) as (x & Ex & _); [lia|]. rewrite Ex.
  destruct (Z.eqb_spec x 0x0f) as [->|]; [|done]. cbn [match_prefix]. rewrite peek_eq, H0.
  destruct (Z.leb_spec (0 + 1 + (0 + 1)) (i_end_kaddr i)); [|done].
  destruct (rd_Some (i_kaddr i) (0 + (0 + 1))) as (y & Ey & _); [lia|]. rewrite Ey.
  destruct (Z.eqb_spec y 0x0b) as [->|]; [|done]. by destruct (Hn ltac:(lia) Ex).
Qed.

Lemma no_emulate_prefix i :
  i_next_byte i = 0 -> i_end_kaddr i <= Z.of_nat (length (i_kaddr i)) ->
  no_ud2 (i_kaddr i) (i_end_kaddr i) -> insn_get_emulate_prefix i = IRet tt i.
Proof.
  intros H0 Hl Hn. unfold insn_get_emulate_prefix, insn_get_emulate_prefix_1, mbind, I_bind.
  unfold on_err_out, xen_prefix, kvm_prefix. rewrite match_ud2_prefix by done.
  cbn [Z.eqb negb]. rewrite match_ud2_prefix by done. reflexivity.
Qed.

(** *** Functions that return a code *)

Notation simz := (simz b1 b2 e1 e2).

Lemma simz_sim s lo P m1 m2 i : sim s lo P m1 m2 i -> simz s P m1 m2 i.
Proof.
  intros Hm i' E. destruct (Hm 0 i' E) as (? & _ & ? & ? & Hc).
  split; [done|]. split; [done|]. split; [done|].
  destruct Hc as [?|[[j ?] ?]]; [by left|right]. split; [exists j; by left|done].
Qed.

Lemma simz_on_err s P m1 m2 i :
  simz s P m1 m2 i -> simz s P (on_err_out (- ENODATA) m1) (on_err_out (- ENODATA) m2) i.
Proof.
  intros Hm i'. unfold on_err_out. destruct (m1 i) as [| |a i1] eqn:E; [done|done|].
  intros [= -> <-]. destruct (Hm i1 E) as (? & ? & ? & Hc).
  split; [done|]. split; [done|]. split; [done|].
  destruct Hc as [-> |[[j [-> | ->]] ?]]; [by left|right..]; (split; [exists j; by right|done]).
Qed.

Lemma simz_bind {A} s lo (P P' : insn -> Prop) (m1 m2 : I A) k1 k2 i :
  sim s lo P m1 m2 i ->
  (forall a i', base i' -> P i' -> i_next_byte i <= i_next_byte i' -> simz s P' (k1 a) (k2 a) i') ->
  simz s P' (m1 ≫= k1) (m2 ≫= k2) i.
Proof.
  intros Hm Hk i'. unfold mbind, I_bind. destruct (m1 i) as [| |a i1] eqn:E; [done|done|].
  intros Ek. destruct (Hm a i1 E) as (Hn & Hlo & Hb & HP & Hs).
  destruct (Hk a i1 Hb HP Hn i' Ek) as (Hn' & Hb' & HP' & Hs').
  split; [lia|]. split; [done|]. split; [done|].
  destruct Hs as [-> |[[j ->] He]]; [done|]. right. split; [exists j; by left|lia].
Qed.

(** The function [get] is called first: it may be short by [s'] where what
    follows reads [s'] bytes at least. *)
Lemma simz_need s' (P P' : insn -> Prop) (f : insn -> insn_field) get k i :
  f (shift b2 e2 i) = f i -> f_got (f i) = false -> simz s' P get get i ->
  (forall i', base i' -> P i' -> simz 0 P' k k i') ->
  (forall i1 i2, base i1 -> P i1 -> k i1 = IRet 0 i2 -> i_next_byte i1 + s' <= i_next_byte i2) ->
  simz 0 P' (need f get k) (need f get k) i.
Proof.
  intros Hf Hg Hget Hk Hadv i'. unfold need, mbind, I_bind, iget. rewrite Hf, Hg.
  destruct (get i) as [| |r i1] eqn:E; [done|done|].
  destruct (Z.eqb_spec r 0) as [->|Hr]; cbn [negb]; [|by intros [= -> <-]].
  intros Ek. destruct (Hget i1 E) as (Hn & Hb & HP & Hs).
  destruct (Hk i1 Hb HP i' Ek) as (Hn' & Hb' & HP' & Hs').
  specialize (Hadv i1 i' Hb HP Ek).
  split; [lia|]. split; [done|]. split; [done|].
  destruct Hs as [-> |[[j [-> | ->]] He]]; [done|right..]; (split; [exists j|lia]); [by left|by right].
Qed.

Lemma simz_get_prefixes i :
  base i -> mode64 i -> i_next_byte i = 0 -> f_got (i_prefixes i) = false ->
  no_ud2 b1 e1 -> no_ud2 b2 e2 ->
  simz 1 past_prefixes insn_get_prefixes insn_get_prefixes i.
Proof.
  intros Hb Hm H0 Hg Hu1 Hu2.
  assert (insn_get_emulate_prefix i = IRet tt i) as E1.
  { destruct Hb as (Hk & He & _). apply no_emulate_prefix; rewrite ?Hk, ?He; done. }
  assert (insn_get_emulate_prefix (shift b2 e2 i) = IRet tt (shift b2 e2 i)) as E2
    by (apply no_emulate_prefix; done).
  set (rest := b ← peek_next;
    '(nb, lb) ← prefix_loop (S (Z.to_nat MAX_INSN_SIZE)) 0 0 b;
    set_last_prefix nb lb ;;
    get_rex_prefix ;;
    get_vex_prefix ;;
    imodify (fun i => i <| i_prefixes ::= fun p => p <| f_got := true |> |>) ;;
    mret 0).
  assert (forall j, f_got (i_prefixes j) = false -> insn_get_emulate_prefix j = IRet tt j ->
    insn_get_prefixes j = on_err_out (- ENODATA) rest j) as Heq.
  { intros j Hj Ej. unfold insn_get_prefixes, mbind at 1, I_bind at 1, iget at 1. rewrite Hj.
    unfold on_err_out, mbind at 1, I_bind at 1. by rewrite Ej. }
  assert (simz 1 past_prefixes (on_err_out (- ENODATA) rest) (on_err_out (- ENODATA) rest) i) as Hr.
  2: { intros i'. rewrite !Heq by done. apply Hr. }
  apply simz_on_err, (simz_sim _ 0). subst rest. clear Heq E1 E2. unfold peek_next. sim_read.
  eapply sim_bind; [by apply sim_prefix_loop|]. intros [nb lb] i1 Hb1 Hm1 _ _.
  eapply sim_bind; [by apply sim_set_last_prefix|]. intros _ i2 Hb2 Hm2 _ _.
  eapply sim_bind; [by apply sim_rex_prefix|]. intros _ i3 Hb3 Hm3 _ _.
  eapply sim_bind; [by apply sim_vex_prefix|]. intros _ i4 Hb4 Hm4 _ _.
  sims. apply sim_ret; [base_solve|reflexivity|rsimpl; apply Hb4].
Qed.

(** *** After the prefixes *)

(** Functions that only read what both runs share. *)
Definition reader {A} (m : I A) : Prop :=
  forall i, past_prefixes i ->
    m i = IFault \/ exists a, m i = IRet a i /\ m (shift b2 e2 i) = IRet a (shift b2 e2 i).

Lemma sim_reader {A B} s lo P (m : I A) (k1 k2 : A -> I B) i :
  reader m -> past_prefixes i -> (forall a, sim s lo P (k1 a) (k2 a) i) ->
  sim s lo P (m ≫= k1) (m ≫= k2) i.
Proof.
  intros Hm Hp Hk a i'. unfold mbind, I_bind.
  destruct (Hm i Hp) as [-> |(x & -> & ->)]; [done|apply Hk].
Qed.

Lemma reader_avx : reader insn_is_avx.
Proof.
  intros i Hp. right. eexists. unfold insn_is_avx, mbind, I_bind, iget.
  change (i_prefixes (shift b2 e2 i)) with (i_prefixes i).
  change (f_got (i_prefixes i) = true) in Hp. rewrite Hp. by split.
Qed.
Lemma reader_evex : reader insn_is_evex.
Proof.
  intros i Hp. right. eexists. unfold insn_is_evex, mbind, I_bind, iget.
  change (i_prefixes (shift b2 e2 i)) with (i_prefixes i).
  change (f_got (i_prefixes i) = true) in Hp. rewrite Hp. by split.
Qed.
Lemma reader_vex_m : reader insn_vex_m_bits.
Proof.
  intros i Hp. unfold insn_vex_m_bits, mbind, I_bind, iget, ilift. unshift.
  destruct (insn_byte _ _); [right; by eexists|by left].
Qed.
Lemma reader_vex_p : reader insn_vex_p_bits.
Proof.
  intros i Hp. unfold insn_vex_p_bits, mbind, I_bind, iget, ilift. unshift.
  destruct (insn_byte _ _); [right; by eexists|by left].
Qed.
Lemma reader_last_prefix_id : reader insn_last_prefix_id.
Proof.
  intros i Hp. unfold insn_last_prefix_id, mbind, I_bind.
  destruct (reader_avx i Hp) as [-> |(avx & -> & ->)]; [by left|].
  destruct avx; [by apply reader_vex_p|]. unfold iget, ilift. unshift.
  destruct (insn_byte _ _) as [b|]; [|by left]. destruct (negb _); [|right; by eexists].
  destruct (inat_get_last_prefix_id b); [right; by eexists|by left].
Qed.

End prefixes.

(** Steps that read what both runs share. *)
Ltac sim_read_shared :=
  lazymatch goal with
  | |- sim _ _ _ _ _ _ _ (mbind _ insn_is_avx) _ _ => apply sim_reader; [apply reader_avx|keep_solve|]
  | |- sim _ _ _ _ _ _ _ (mbind _ insn_is_evex) _ _ => apply sim_reader; [apply reader_evex|keep_solve|]
  | |- sim _ _ _ _ _ _ _ (mbind _ insn_vex_m_bits) _ _ =>
    apply sim_reader; [apply reader_vex_m|keep_solve|]
  | |- sim _ _ _ _ _ _ _ (mbind _ insn_vex_p_bits) _ _ =>
    apply sim_reader; [apply reader_vex_p|keep_solve|]
  | |- sim _ _ _ _ _ _ _ (mbind _ insn_last_prefix_id) _ _ =>
    apply sim_reader; [apply reader_last_prefix_id|keep_solve|]
  end; intros.
Ltac simx := repeat (sim_step || sim_read_shared).

Section rest.
Context (b1 b2 : list byte) (e1 e2 : Z).
Context (He1 : e1 <= Z.of_nat (length b1)) (He2 : e2 <= Z.of_nat (length b2)).
Context (Hagree : forall k, 0 <= k < e1 -> k < e2 -> b1 !! Z.to_nat k = b2 !! Z.to_nat k).
Context `{InatTables}.
Implicit Types (i : insn).
Notation simp := (sim b1 b2 e1 e2 0 0 past_prefixes).
Notation base := (base b1 e1).

Lemma sim_avx_opcode op i : base i -> past_prefixes i ->
  simp (get_avx_opcode op) (get_avx_opcode op) i.
Proof.
  intros Hb Hp. unfold get_avx_opcode, bad_insn. simx; sim_last.
Qed.

Lemma sim_escape_loop fuel : forall i, base i -> past_prefixes i ->
  simp (escape_loop fuel) (escape_loop fuel) i.
Proof.
  induction fuel as [|fuel IH]; intros i Hb Hp; cbn [escape_loop]; simx; [|sim_last].
  unfold get_next_byte, push_opcode. sim_read. simx. apply IH; [base_solve|keep_solve].
Qed.

Lemma sim_plain_opcode op i : base i -> past_prefixes i ->
  simp (get_plain_opcode op) (get_plain_opcode op) i.
Proof.
  intros Hb Hp. unfold get_plain_opcode, bad_insn. simx.
  eapply sim_bind; [apply sim_escape_loop; [base_solve|keep_solve]|].
  intros _ i1 Hb1 Hp1 _ _. simx; sim_last.
Qed.

Notation simz := (simz b1 b2 e1 e2).

(** The start of a run: nothing is read. *)
Definition fresh i : Prop :=
  base i /\ mode64 i /\ i_next_byte i = 0 /\ f_got (i_prefixes i) = false /\
  f_got (i_opcode i) = false /\ f_got (i_modrm i) = false /\ f_got (i_sib i) = false /\
  f_got (i_displacement i) = false /\ f_got (i_immediate i) = false /\ i_length i = 0.

Context (Hu1 : no_ud2 b1 e1) (Hu2 : no_ud2 b2 e2).

(** A function that calls the one before it, after its own test of [got]. *)
Lemma simz_stage_short s' (f g : insn -> insn_field) get k m i :
  m = (i ← iget; if f_got (g i) then mret 0 else on_err_out (- ENODATA) (need f get k)) ->
  g (shift b2 e2 i) = g i -> f (shift b2 e2 i) = f i ->
  f_got (g i) = false -> f_got (f i) = false -> simz s' past_prefixes get get i ->
  (forall i', base i' -> past_prefixes i' ->
     sim b1 b2 e1 e2 0 (i_next_byte i' + s') past_prefixes k k i') ->
  simz 0 past_prefixes m m i.
Proof.
  intros -> Hg Hf Eg Ef Hget Hk i'. unfold mbind, I_bind, iget. rewrite Hg, Eg.
  apply simz_on_err. apply (simz_need b1 b2 e1 e2 s' past_prefixes past_prefixes); [done|done|done| |].
  - intros i1 Hb1 Hp1. by eapply simz_sim, Hk.
  - intros i1 i2 Hb1 Hp1 E. by destruct (Hk i1 Hb1 Hp1 0 i2 E) as (_ & ? & _).
Qed.

Lemma simz_stage (f g : insn -> insn_field) get k m i :
  m = (i ← iget; if f_got (g i) then mret 0 else on_err_out (- ENODATA) (need f get k)) ->
  g (shift b2 e2 i) = g i -> f (shift b2 e2 i) = f i ->
  f_got (g i) = false -> f_got (f i) = false -> simz 0 past_prefixes get get i ->
  (forall i', base i' -> past_prefixes i' -> simp k k i') ->
  simz 0 past_prefixes m m i.
Proof.
  intros Hm Hg Hf Eg Ef Hget Hk. apply (simz_stage_short 0 f g get k); [done|done|done|done|done|exact Hget|].
  intros i' Hb Hp. apply (sim_forward _ _ _ _ _ 0); [lia|by apply Hk].
Qed.

Lemma simz_get_opcode i : fresh i -> simz 0 past_prefixes insn_get_opcode insn_get_opcode i.
Proof.
  intros (Hb & Hm & H0 & Gp & Go & _).
  eapply (simz_stage_short 1); [reflexivity|done|done|done|done|by apply simz_get_prefixes|].
  clear i Hb Hm H0 Gp Go. intros i Hb Hp. unfold get_next_byte. sim_read. simx.
  all: eapply (sim_forward _ _ _ _ _ 0); [rsimpl; lia|].
  all: (apply sim_avx_opcode || apply sim_plain_opcode); [base_solve|keep_solve].
Qed.

Lemma sim_modrm_done i : base i -> past_prefixes i -> simp modrm_done modrm_done i.
Proof.
  intros Hb Hp. unfold modrm_done, got_it. apply sim_modify.
  - cbn. by destruct (i_x86_64 i && inat_is_force64 (i_attr i)).
  - by destruct (i_x86_64 i && inat_is_force64 (i_attr i)).
  - destruct (i_x86_64 i && inat_is_force64 (i_attr i)); sims; sim_last.
Qed.

Lemma simz_get_modrm i : fresh i -> simz 0 past_prefixes insn_get_modrm insn_get_modrm i.
Proof.
  intros Hi. eapply simz_stage; [reflexivity|done|done|apply Hi|apply Hi|by apply simz_get_opcode|].
  clear i Hi. intros i Hb Hp. simx; [|by apply sim_modrm_done].
  unfold get_next_byte, set_field, get_group, bad_insn. sim_read. simx.
  all: first [apply sim_modrm_done; [base_solve|keep_solve]|sim_last].
Qed.

Lemma simz_get_sib i : fresh i -> simz 0 past_prefixes insn_get_sib insn_get_sib i.
Proof.
  intros Hi. eapply simz_stage; [reflexivity|done|done|apply Hi|apply Hi|by apply simz_get_modrm|].
  clear i Hi. intros i Hb Hp. unfold got_it, set_field, get_next_byte. simx; try sim_last.
  sim_read. simx. sim_last.
Qed.

Lemma simz_get_displacement i : fresh i ->
  simz 0 past_prefixes insn_get_displacement insn_get_displacement i.
Proof.
  intros Hi. eapply simz_stage; [reflexivity|done|done|apply Hi|apply Hi|by apply simz_get_sib|].
  clear i Hi. intros i Hb Hp. unfold got_it, set_field, get_next_signed. simx; try sim_last.
  change (displacement_size (shift b2 e2 i)) with (displacement_size i).
  destruct (displacement_size i); simx; [sim_last|]. sim_read. simx. sim_last.
Qed.

(** *** Immediates *)

Lemma sim_or_err {B} (m : I Z) (k1 k2 : unit -> I B) P i :
  base i -> sim b1 b2 e1 e2 0 0 past_prefixes m m i ->
  (forall i', base i' -> past_prefixes i' -> sim b1 b2 e1 e2 0 0 P (k1 tt) (k2 tt) i') ->
  sim b1 b2 e1 e2 0 0 P (or_err_out (on_err_out 0 m) ≫= k1) (or_err_out (on_err_out 0 m) ≫= k2) i.
Proof.
  intros Hb Hm Hk. eapply (sim_bind _ _ _ _ 0 0 0 past_prefixes); [|by intros [] ? ? ? _ _; apply Hk].
  intros [] i'. unfold or_err_out, on_err_out, mbind, I_bind.
  destruct (m i) as [| |a i1] eqn:E; [done|done|].
  destruct (Z.eqb_spec a 0) as [->|Ha]; [done|]. intros [= <-].
  destruct (Hm a i1 E) as (? & ? & ? & ? & Hc). repeat (split; [done|]).
  destruct Hc as [-> |[[j ->] ?]].
  - left. by destruct (Z.eqb_spec a 0).
  - right. split; [by eexists|done].
Qed.

Ltac sim_fields := unfold get_field, both_got, get_next_signed, get_next_ushort, set_field;
  repeat (progress simx || sim_read); try sim_last.


Ltac imm_or Hk := apply sim_or_err; [base_solve|sim_fields|exact Hk].

Lemma sim_immediate_of_size {B} size (k1 k2 : unit -> I B) P i :
  base i -> past_prefixes i ->
  (forall i', base i' -> past_prefixes i' -> sim b1 b2 e1 e2 0 0 P (k1 tt) (k2 tt) i') ->
  sim b1 b2 e1 e2 0 0 P (get_immediate_of_size size ≫= k1) (get_immediate_of_size size ≫= k2) i.
Proof.
  intros Hb Hp Hk. unfold get_immediate_of_size, get_immv32, get_immv, get_immptr.
  repeat sim_step; try (by intros ? ? [=]); try (imm_or Hk).
  all: unfold get_field, set_field, get_next_signed; repeat (progress simx || sim_read).
  all: apply Hk; [base_solve|keep_solve].
Qed.

Lemma simz_get_immediate i : fresh i -> simz 0 past_prefixes insn_get_immediate insn_get_immediate i.
Proof.
  intros Hi. eapply simz_stage; [reflexivity|done|done|apply Hi|apply Hi|by apply simz_get_displacement|].
  clear i Hi. intros i Hb Hp. unfold got_it. sim_step. sim_step.
  - unfold get_moffset. apply sim_or_err; [base_solve|sim_fields|].
    intros i' Hb' Hp'. simx. sim_last.
  - sim_step; [simx; sim_last|]. sim_step. apply sim_immediate_of_size; [base_solve|keep_solve|].
    intros i' Hb' Hp'. sim_fields.
Qed.

Lemma get_length_eq i : i_length i = 0 ->
  insn_get_length i = need i_immediate insn_get_immediate (
    imodify (fun i => i <| i_length := u8 (i_next_byte i) |>) ;; mret 0) i.
Proof. intros El. unfold insn_get_length, mbind at 1, I_bind at 1, iget at 1. by rewrite El. Qed.

Lemma simz_get_length i : fresh i -> simz 0 past_prefixes insn_get_length insn_get_length i.
Proof.
  intros Hi i'. assert (i_length i = 0) as El by apply Hi. rewrite !get_length_eq by done.
  revert i'. apply (simz_need b1 b2 e1 e2 0 past_prefixes past_prefixes); [done|apply Hi|by apply simz_get_immediate| |].
  - intros i' Hb Hp. eapply (simz_sim _ _ _ _ _ 0). simx. sim_last.
  - intros i1 i2 Hb Hp [= <-]. rsimpl. lia.
Qed.
End rest.
