(* ===== verification/InsnTheorems.v ===== *)
(** The instruction decoder: theorems on whole instructions, and on what the
    Intel PT decoder gets of them. *)
From Stdlib Require Import ZArith Lia List Bool.
From S2P Require Import Prelude Float64 PktDecoder PtStack PtState InsnAttr InsnDecoder PtInsn InsnSafe InsnExample InsnPrefix.
Open Scope Z_scope.
Open Scope c_scope.
Import ListNotations.

(** ** Helpers *)

Section whole.
Context `{InatTables}.

(** The bytes of the instruction, among its fields. *)
Definition fields_tile (i : insn) : Prop :=
  i_length i = i_emulate_prefix_size i + insn_offset_immediate i
    + f_nbytes (i_immediate i) + f_nbytes (i_immediate2 i).

Lemma init_inv kaddr buf_len x86_64 : buf_len <= Z.of_nat (length kaddr) ->
  let i := insn_init kaddr buf_len x86_64 in inv (kaddr, i_end_kaddr i, x86_64) i /\ start i.
Proof.
  intros Hl i. subst i. unfold insn_init, MAX_INSN_SIZE.
  split; [|split; [done|split; [done|split; [done|by repeat split]]]].
  split; offsets; cbn; try (done || lia); destruct (Z.ltb_spec 15 buf_len); unfold MAX_INSN_SIZE; lia.
Qed.

Lemma decode_cases `{!TablesOk} config kaddr buf_len m : buf_len <= Z.of_nat (length kaddr) ->
  exists ret i, insn_decode config kaddr buf_len m = Some (ret, i) /\
    (ret = 0 /\ past_immediate i /\ 1 <= i_length i <= Z.min MAX_INSN_SIZE buf_len /\ fields_tile i
     \/ ret = - ENODATA \/ ret = - EINVAL).
Proof.
  intros Hl. unfold insn_decode. set (x := if m =? _ then _ else _).
  destruct (init_inv kaddr buf_len x Hl) as [Hi Hs].
  pose proof (get_length_wp _ (fun _ => False) _ Hi Hs eq_refl eq_refl) as Hw. unfold iwp in Hw.
  destruct (insn_get_length _) as [| |ret i]; [done|done|].
  destruct Hw as [(-> & Hi' & Hp & El)|[-> | ->]]; cbn [Z.eqb negb].
  - assert (insn_complete i = true) as -> by (unfold insn_complete; stages;
      destruct Hp as (((((_ & -> & _) & ->) & ->) & ->) & ->); done).
    exists 0, i. split; [done|]. left. split; [done|]. split; [done|].
    destruct Hi' as [Hin Hm He Hn Ht Hnn]. unfold fields_tile. rewrite El. split; [|done].
    assert (1 <= f_nbytes (i_opcode i)) by apply Hp. offsets. injection Hin as _ Hend _.
    cbn [insn_init i_end_kaddr] in Hend. unfold MAX_INSN_SIZE in *.
    destruct (Z.ltb_spec 15 buf_len); lia.
  - eexists _, i. split; [reflexivity|]. by right; left.
  - eexists _, i. split; [reflexivity|]. by right; right.
Qed.
End whole.

Section prefix_code.
Context `{InatTables} `{!TablesOk}.

Lemma init_fresh b1 e1 : e1 <= Z.of_nat (length b1) ->
  let i := insn_init b1 e1 true in fresh b1 (i_end_kaddr i) i.
Proof. intros He i. by repeat split. Qed.

(** One run of the decoder, in 64-bit mode. *)
Lemma length_run kaddr len : len <= Z.of_nat (length kaddr) ->
  exists ret i, insn_get_length (insn_init kaddr len true) = IRet ret i /\
    (forall config, exists j, insn_decode config kaddr len INSN_MODE_64 = Some (ret, j)) /\
    (ret = 0 -> (forall config, insn_decode config kaddr len INSN_MODE_64 = Some (0, i)) /\
      i_length i = i_next_byte i /\ 1 <= i_next_byte i <= i_end_kaddr (insn_init kaddr len true)).
Proof.
  intros Hl. destruct (init_inv kaddr len true Hl) as [Hi Hs].
  pose proof (get_length_wp _ (fun _ => False) _ Hi Hs eq_refl eq_refl) as Hw. unfold iwp in Hw.
  unfold insn_decode. change (INSN_MODE_64 =? INSN_MODE_KERN) with false.
  change (INSN_MODE_64 =? INSN_MODE_64) with true. cbv iota.
  destruct (insn_get_length _) as [| |ret i] eqn:E; [done|done|]. exists ret, i. split; [done|].
  destruct Hw as [(-> & Hi' & Hp & El)|[-> | ->]]; cbn [Z.eqb negb]; [|by split; [eexists|]..].
  assert (insn_complete i = true) as -> by (unfold insn_complete; stages;
      destruct Hp as (((((_ & -> & _) & ->) & ->) & ->) & ->); done).
  split; [by eexists|]. intros _. split; [done|]. split; [done|].
  destruct Hi' as [Hin _ _ Hn Ht Hnn]. injection Hin as _ Hen _.
  assert (1 <= f_nbytes (i_opcode i)) by apply Hp. offsets. cbn in *. lia.
Qed.

Lemma decode_prefix b1 e1 b2 e2 config i :
  e1 <= Z.of_nat (length b1) -> e2 <= Z.of_nat (length b2) ->
  (forall k, 0 <= k < e1 -> k < e2 -> b1 !! Z.to_nat k = b2 !! Z.to_nat k) ->
  no_ud2 b1 e1 -> no_ud2 b2 e2 ->
  insn_decode config b1 e1 INSN_MODE_64 = Some (0, i) ->
  if i_length i <=? e2 then
    insn_decode config b2 e2 INSN_MODE_64 =
      Some (0, i <| i_kaddr := b2 |> <| i_end_kaddr := Z.min MAX_INSN_SIZE e2 |>)
  else exists j, insn_decode config b2 e2 INSN_MODE_64 = Some (- ENODATA, j).
Proof.
  intros He1 He2 Hag Hu1 Hu2 E.
  assert (forall b e, i_end_kaddr (insn_init b e true) = Z.min MAX_INSN_SIZE e) as Hend.
  { intros b e. cbn. unfold MAX_INSN_SIZE. destruct (Z.ltb_spec 15 e); lia. }
  destruct (length_run b1 e1 He1) as (r1 & i1 & E1 & Hr1 & H1).
  destruct (Hr1 config) as [j1 Ej]. rewrite E in Ej. injection Ej as <- <-.
  destruct (H1 eq_refl) as (Ei & El & Hn1). specialize (Ei config). rewrite E in Ei. injection Ei as <-.
  destruct (length_run b2 e2 He2) as (r2 & i2 & E2 & Hr2 & H2). rewrite Hend in Hn1, H2.
  pose proof (simz_get_length b1 b2 (Z.min MAX_INSN_SIZE e1) (Z.min MAX_INSN_SIZE e2)
    ltac:(lia) ltac:(lia) ltac:(intros; apply Hag; lia)) as Hs.
  specialize (Hs ltac:(intros ?; apply Hu1; lia) ltac:(intros ?; apply Hu2; lia)).
  pose proof (init_fresh b1 e1 He1) as Hf. cbv zeta in Hf. rewrite Hend in Hf.
  destruct (Hs _ Hf i E1) as (_ & _ & _ & Hc).
  assert (shift b2 (Z.min MAX_INSN_SIZE e2) (insn_init b1 e1 true) = insn_init b2 e2 true) as Hsh.
  { rewrite <- (Hend b2 e2). reflexivity. }
  rewrite Hsh, E2 in Hc. rewrite El.
  destruct Hc as [[= -> ->]|[[j [[=]|[= -> ->]]] Hlt]].
  - destruct (H2 eq_refl) as (Ed & _ & Hn2).
    change (i_next_byte (shift _ _ i)) with (i_next_byte i) in Hn2.
    destruct (Z.leb_spec (i_next_byte i) e2); [apply Ed|lia].
  - destruct (Z.leb_spec (i_next_byte i) e2); [unfold MAX_INSN_SIZE in *; lia|]. apply Hr2.
Qed.
End prefix_code.

Section get_insn.
Context `{InatTables} `{!TablesOk}.

(** What the Intel PT decoder gets from an instruction that is decoded. *)
Lemma insn_decoder_total i old : past_immediate i ->
  exists r, intel_pt_insn_decoder i old = Some r /\ insn_length r = i_length i /\
    insn_buf r = insn_buf old /\ insn_emulated_ptwrite r = false /\
    (insn_branch r = INTEL_PT_BR_NO_BRANCH \/ insn_branch r = INTEL_PT_BR_INDIRECT ->
     insn_rel r = 0).
Proof.
  intros Hp. unfold intel_pt_insn_decoder, insn_is_avx, mbind at 1, I_bind at 1, iget at 1.
  assert (f_got (i_prefixes i) = true) as -> by (stages; tauto).
  cbv [mret I_ret mbind I_bind iget]. destruct (negb _).
  { eexists. split; [reflexivity|]. by repeat split. }
  destruct (insn_byte_Some (i_opcode i) 0) as (b0 & -> & _); [lia|].
  destruct (insn_byte_Some (i_opcode i) 1) as (b1 & -> & _); [lia|].
  destruct (insn_byte_Some (i_modrm i) 0) as (m & -> & _); [lia|]. cbn [mbind option_bind].
  destruct (branch_type b0 b1 m) as [op br]. eexists. split; [reflexivity|].
  do 3 (split; [done|]). cbn [insn_branch insn_rel]. by destruct br; intros [?|?].
Qed.

Lemma copy_bytes old buf n : 0 <= n -> n <= Z.of_nat (length buf) -> n <= Z.of_nat (length old) ->
  exists b, copy_insn_bytes old buf n = Some b /\ length b = length old /\
    take (Z.to_nat n) b = take (Z.to_nat n) buf /\ drop (Z.to_nat n) b = drop (Z.to_nat n) old.
Proof.
  intros Hn Hb Ho. unfold copy_insn_bytes.
  destruct (Z.leb_spec n (Z.of_nat (length buf))); [|lia].
  destruct (Z.leb_spec n (Z.of_nat (length old))); [|lia]. eexists. split; [reflexivity|].
  assert (length (take (Z.to_nat n) buf) = Z.to_nat n) as El by (rewrite length_take; lia).
  split; [rewrite length_app, El, length_drop; lia|].
  split; [by rewrite take_app_length'|by rewrite drop_app_length'].
Qed.

Lemma get_insn_cases config buf len x86_64 old :
  0 <= len < 2 ^ 31 -> len <= Z.of_nat (length buf) ->
  INTEL_PT_INSN_BUF_SZ <= Z.of_nat (length (insn_buf old)) ->
  exists ret r, intel_pt_get_insn config buf len x86_64 old = Some (ret, r) /\
    length (insn_buf r) = length (insn_buf old) /\
    (ret = -1 /\ r = old \/
     ret = 0 /\ 1 <= insn_length r <= Z.min MAX_INSN_SIZE len /\ insn_emulated_ptwrite r = false /\
     let n := Z.to_nat (insn_length r) in
     take n (insn_buf r) = take n buf /\ drop n (insn_buf r) = drop n (insn_buf old) /\
     (insn_branch r = INTEL_PT_BR_NO_BRANCH \/ insn_branch r = INTEL_PT_BR_INDIRECT ->
      insn_rel r = 0)).
Proof.
  intros Hlen Hl Ho. unfold intel_pt_get_insn.
  assert (s32 len = len) as -> by (by apply s32_small).
  set (m := if x86_64 then _ else _).
  destruct (decode_cases config buf len m Hl) as (ret & i & -> & Hc). cbn [mbind option_bind].
  destruct Hc as [(-> & Hp & Hi & _)|Hc].
  2: { exists (-1), old. split; [|split; [done|by left]]. by destruct Hc as [-> | ->]. }
  unfold MAX_INSN_SIZE, INTEL_PT_INSN_BUF_SZ in *.
  destruct (Z.ltb_spec len (i_length i)); [lia|]. cbn [Z.ltb Z.compare orb].
  destruct (insn_decoder_total i old Hp) as (r & -> & El & Eb & Ee & Hrel). cbn [mbind option_bind].
  destruct (Z.ltb_spec (i_length i) 16); [|lia].
  destruct (copy_bytes (insn_buf r) buf (i_length i)) as (b & -> & Hbl & Ht & Hd); [lia|lia|rewrite Eb; lia|].
  eexists 0, _. split; [reflexivity|]. cbn. rewrite El, <- Eb. split; [exact Hbl|]. right.
  by repeat (split; [lia || done|]).
Qed.

(** Instructions that differ only in what is left in the buffer after them. *)
Definition same_insn (a b : intel_pt_insn) : Prop :=
  insn_op a = insn_op b /\ insn_branch a = insn_branch b /\
  insn_emulated_ptwrite a = insn_emulated_ptwrite b /\ insn_length a = insn_length b /\
  insn_rel a = insn_rel b /\
  take (Z.to_nat (insn_length a)) (insn_buf a) = take (Z.to_nat (insn_length b)) (insn_buf b).

#[export] Instance same_insn_equiv : Equivalence same_insn.
Proof. split; unfold same_insn; repeat intro; intuition congruence. Qed.

(** The caller's structure does not matter. *)
Lemma get_insn_old config buf len x86_64 old1 old2 :
  0 <= len < 2 ^ 31 -> len <= Z.of_nat (length buf) ->
  INTEL_PT_INSN_BUF_SZ <= Z.of_nat (length (insn_buf old1)) ->
  INTEL_PT_INSN_BUF_SZ <= Z.of_nat (length (insn_buf old2)) ->
  exists ret r1 r2, intel_pt_get_insn config buf len x86_64 old1 = Some (ret, r1) /\
    intel_pt_get_insn config buf len x86_64 old2 = Some (ret, r2) /\
    length (insn_buf r1) = length (insn_buf old1) /\ length (insn_buf r2) = length (insn_buf old2) /\
    (ret = -1 /\ r1 = old1 /\ r2 = old2 \/
     ret = 0 /\ same_insn r1 r2 /\ 1 <= insn_length r1 <= 15 /\
     insn_emulated_ptwrite r1 = false /\ insn_emulated_ptwrite r2 = false).
Proof.
  intros Hlen Hl Ho1 Ho2.
  destruct (get_insn_cases config buf len x86_64 old1 Hlen Hl Ho1) as (ret1 & r1 & E1 & L1 & H1).
  destruct (get_insn_cases config buf len x86_64 old2 Hlen Hl Ho2) as (ret2 & r2 & E2 & L2 & H2).
  assert (ret1 = ret2 /\ (ret1 = 0 -> insn_op r1 = insn_op r2 /\ insn_branch r1 = insn_branch r2 /\
    insn_length r1 = insn_length r2 /\ insn_rel r1 = insn_rel r2)) as [<- Hs].
  { clear H1 H2 L1 L2. unfold intel_pt_get_insn in *.
    destruct (insn_decode _ _ _ _) as [[ret i]|]; [|done]. cbn [mbind option_bind] in *.
    destruct ((ret <? 0) || (len <? i_length i)).
    { injection E1 as <- <-. injection E2 as <- <-. by split. }
    unfold intel_pt_insn_decoder in *. destruct (insn_is_avx i) as [| |avx j]; [done|done|].
    destruct avx; cbn [mbind option_bind] in *.
    - destruct (copy_insn_bytes _ _ _); [|done]. destruct (copy_insn_bytes (insn_buf _) buf _); [|done].
      cbn [mbind option_bind] in *. injection E1 as <- <-. injection E2 as <- <-. by repeat split.
    - destruct (insn_byte (i_opcode j) 0); [|done]. destruct (insn_byte (i_opcode j) 1); [|done].
      destruct (insn_byte (i_modrm j) 0); [|done]. cbn [mbind option_bind] in *.
      destruct (branch_type _ _ _) as [op br]. cbn [mbind option_bind insn_buf] in *.
      destruct (copy_insn_bytes _ _ _); [|done]. destruct (copy_insn_bytes (insn_buf old2) buf _); [|done].
      cbn [mbind option_bind] in *. injection E1 as <- <-. injection E2 as <- <-. by repeat split. }
  exists ret1, r1, r2. do 4 (split; [done|]).
  destruct H1 as [[-> ->]|(-> & Hn & Hp1 & Ht1 & _)].
  - left. destruct H2 as [[_ ->]|(? & _)]; [done|lia].
  - right. destruct H2 as [[? _]|(_ & _ & Hp2 & Ht2 & _)]; [lia|].
    destruct (Hs eq_refl) as (? & ? & El & ?). unfold MAX_INSN_SIZE in Hn. unfold same_insn.
    rewrite Ht1, Hp1, Hp2, El, Ht2. repeat (split; [done || lia|]). done.
Qed.
End get_insn.

(** C22: Whatever the bytes of an instruction are, and however few, the
    instruction decoder makes no access outside the buffer and returns: 0 for
    an instruction of 1 to 15 bytes, within the buffer, whose bytes are divided
    among its fields with none left over or read twice; or else [-ENODATA] or
    [-EINVAL]. *)
Theorem insn_decode_safe `{InatTables} `{!TablesOk} config kaddr buf_len m :
  buf_len <= Z.of_nat (length kaddr) ->
  exists ret i, insn_decode config kaddr buf_len m = Some (ret, i) /\
    (ret = 0 /\ 1 <= i_length i <= Z.min MAX_INSN_SIZE buf_len /\
       i_length i = i_emulate_prefix_size i + insn_offset_immediate i
         + f_nbytes (i_immediate i) + f_nbytes (i_immediate2 i)
     \/ ret = - ENODATA \/ ret = - EINVAL).
Proof.
  intros Hl. destruct (decode_cases config kaddr buf_len m Hl) as (ret & i & E & Hc).
  exists ret, i. split; [exact E|]. destruct Hc as [(? & _ & ? & ?)|?]; [left; tauto|by right].
Qed.

(** A conditional jump, cut short. *)
Lemma insn_decode_safe_witness :
  2 <= Z.of_nat (length [x0f; x84]) /\
  exists ret i, insn_decode true [x0f; x84] 2 INSN_MODE_64 = Some (ret, i) /\
    (ret = 0 /\ 1 <= i_length i <= Z.min MAX_INSN_SIZE 2 /\
       i_length i = i_emulate_prefix_size i + insn_offset_immediate i
         + f_nbytes (i_immediate i) + f_nbytes (i_immediate2 i)
     \/ ret = - ENODATA \/ ret = - EINVAL).
Proof. split; [cbn; lia|]. apply (insn_decode_safe true [x0f; x84] 2 INSN_MODE_64). cbn; lia. Defined.

(** C24: In 64-bit mode, with opcode tables of the documented shape, instructions
    other than emulated ones are a prefix code.  Two buffers agree as far as both go,
    and neither begins with UD2, which starts the prefixes of emulated instructions.
    If the first holds an instruction then the second holds the same, whatever comes
    after it, or ends within it, and then the decoder says that it wants bytes. *)
Theorem insn_prefix_code `{InatTables} `{!TablesOk} config buf1 len1 buf2 len2 i :
  len1 <= Z.of_nat (length buf1) -> len2 <= Z.of_nat (length buf2) ->
  (forall k, 0 <= k < len1 -> k < len2 -> buf1 !! Z.to_nat k = buf2 !! Z.to_nat k) ->
  no_ud2 buf1 len1 -> no_ud2 buf2 len2 ->
  insn_decode config buf1 len1 INSN_MODE_64 = Some (0, i) ->
  if i_length i <=? len2 then
    insn_decode config buf2 len2 INSN_MODE_64 =
      Some (0, i <| i_kaddr := buf2 |> <| i_end_kaddr := Z.min MAX_INSN_SIZE len2 |>)
  else exists j, insn_decode config buf2 len2 INSN_MODE_64 = Some (- ENODATA, j).
Proof. apply decode_prefix. Qed.

(** CALL rel32, and a buffer that ends after 3 of its bytes. *)
Lemma insn_prefix_code_witness :
  exists i, insn_decode true [xe8; x01; x02; x03; x04; x90] 6 INSN_MODE_64 = Some (0, i) /\
    exists j, insn_decode true [xe8; x01; x02] 3 INSN_MODE_64 = Some (- ENODATA, j).
Proof.
  assert (exists i, insn_decode true [xe8; x01; x02; x03; x04; x90] 6 INSN_MODE_64 = Some (0, i)
    /\ (i_length i <=? 3) = false) as (i & E & El) by (eexists; vm_compute; by split).
  exists i. split; [exact E|].
  assert (H := insn_prefix_code true [xe8; x01; x02; x03; x04; x90] 6 [xe8; x01; x02] 3 i).
  rewrite El in H. apply H; [cbn; lia|cbn; lia| |intros _ [=]|intros _ [=]|exact E].
  intros k Hk Hk2. assert (k = 0 \/ k = 1 \/ k = 2) as [-> |[-> | ->]] by lia; reflexivity.
Defined.

(** The Intel PT decoder gets an instruction from the bytes at an address,
    or -1 with the caller's structure unchanged.  The instruction has 1 to 15
    bytes, all in the buffer; the structure holds a copy of them, and nothing
    past them is written; and only direct branches have an offset. *)
Theorem get_insn_ok `{InatTables} `{!TablesOk} config buf len x86_64 old :
  0 <= len < 2 ^ 31 -> len <= Z.of_nat (length buf) ->
  INTEL_PT_INSN_BUF_SZ <= Z.of_nat (length (insn_buf old)) ->
  exists ret r, intel_pt_get_insn config buf len x86_64 old = Some (ret, r) /\
    (ret = -1 /\ r = old \/
     ret = 0 /\ 1 <= insn_length r <= Z.min MAX_INSN_SIZE len /\
     let n := Z.to_nat (insn_length r) in
     take n (insn_buf r) = take n buf /\ drop n (insn_buf r) = drop n (insn_buf old) /\
     (insn_branch r = INTEL_PT_BR_NO_BRANCH \/ insn_branch r = INTEL_PT_BR_INDIRECT ->
      insn_rel r = 0)).
Proof.
  intros Hlen Hl Ho. destruct (get_insn_cases config buf len x86_64 old Hlen Hl Ho) as (ret & r & E & _ & Hc).
  exists ret, r. split; [exact E|]. destruct Hc as [?|(? & ? & _ & ?)]; [by left|by right].
Qed.

(** JZ rel8. *)
Lemma get_insn_ok_witness :
  let old := mkInsn INTEL_PT_OP_OTHER INTEL_PT_BR_NO_BRANCH false 0 0 (replicate 16 x00) in
  exists r, intel_pt_get_insn true [x74; xfe; x90] 3 true old = Some (0, r) /\
    insn_rel r = -2 /\ 1 <= insn_length r <= 3.
Proof.
  intros old. assert (H := get_insn_ok true [x74; xfe; x90] 3 true old).
  destruct H as (ret & r & E & H); [lia|cbn; lia|by vm_compute|].
  destruct H as [[-> ->]|(-> & Hl & _)]; [vm_compute in E; discriminate E|].
  exists r. split; [exact E|]. split; [|unfold MAX_INSN_SIZE in Hl; lia].
  vm_compute in E. by injection E as <-.
Defined.
