(* ===== verification/AuxCache.v ===== *)
(** A hash table that forgets: [auxtrace_cache] of tools/perf/util/auxtrace.c,
    with [hash_32] of tools/include/linux/hash.h.  Entries carry a payload of a
    type of the client's. *)
From Stdlib Require Import ZArith Lia List Bool.
From S2P Require Import Prelude.
Open Scope Z_scope.
Open Scope c_scope.
Import ListNotations.
Ltac Zify.zify_post_hook ::= Z.to_euclidean_division_equations.

Definition GOLDEN_RATIO_32 : Z := 0x61C88647.
Definition __hash_32_generic (val : Z) : Z := u32 (val * GOLDEN_RATIO_32).
Definition hash_32 (val bits : Z) : Z := __hash_32_generic val .>> (32 - bits).

(** An entry of a list: its key and the rest of it. *)
Definition auxtrace_cache_entry (V : Type) : Type := (Z * V)%type.

Record auxtrace_cache (V : Type) := mkCache {
  hashtable : list (list (auxtrace_cache_entry V));
  ac_sz : Z;
  ac_limit : Z;
  ac_cnt : Z;
  ac_bits : Z
}.
Arguments mkCache {V} _ _ _ _ _.
Arguments hashtable {V} _.
Arguments ac_sz {V} _.
Arguments ac_limit {V} _.
Arguments ac_cnt {V} _.
Arguments ac_bits {V} _.

Section cache.
Context {V : Type}.
Notation cache := (auxtrace_cache V).
Notation entry := (auxtrace_cache_entry V).

(** [alloc]: whether both allocations succeed. *)
Definition auxtrace_cache__new (alloc : bool) (bits limit_percent : Z) : option cache :=
  if alloc then
    let sz := u64 (1 .<< bits) in
    Some (mkCache (replicate (Z.to_nat sz) []) sz (u64 (sz * limit_percent) / 100) 0 bits)
  else None.

Definition auxtrace_cache__drop (c : cache) : cache :=
  mkCache (map (fun _ => []) (hashtable c)) (ac_sz c) (ac_limit c) 0 (ac_bits c).

(** [if (c->limit && ++c->cnt > c->limit) auxtrace_cache__drop(c)] *)
Definition make_room (c : cache) : cache :=
  if negb (ac_limit c =? 0) then
    let c := mkCache (hashtable c) (ac_sz c) (ac_limit c) (u64 (ac_cnt c + 1)) (ac_bits c) in
    if ac_limit c <? ac_cnt c then auxtrace_cache__drop c else c
  else c.

(** The list of a key; [None] here and below is an access outside the table. *)
Definition bucket (c : cache) (key : Z) : option (list entry) :=
  idx (hashtable c) (hash_32 key (ac_bits c)).
Definition set_bucket (c : cache) (key : Z) (l : list entry) : option cache :=
  t ← set_at (hashtable c) (hash_32 key (ac_bits c)) l;
  Some (mkCache t (ac_sz c) (ac_limit c) (ac_cnt c) (ac_bits c)).

(** [key] is a [u32]: the caller's 64 bits are cut. *)
Definition auxtrace_cache__add (c : cache) (key : Z) (v : V) : option cache :=
  let key := u32 key in
  let c := make_room c in
  l ← bucket c key;
  set_bucket c key ((key, v) :: l).

Fixpoint find_entry (key : Z) (l : list entry) : option V :=
  match l with
  | [] => None
  | (k, v) :: l => if k =? key then Some v else find_entry key l
  end.

(** The first entry of the key is unlinked. *)
Fixpoint del_entry (key : Z) (l : list entry) : list entry :=
  match l with
  | [] => []
  | (k, v) :: l => if k =? key then l else (k, v) :: del_entry key l
  end.

Definition auxtrace_cache__remove (c : cache) (key : Z) : option cache :=
  let key := u32 key in
  l ← bucket c key;
  set_bucket c key (del_entry key l).

Definition auxtrace_cache__lookup (c : cache) (key : Z) : option (option V) :=
  let key := u32 key in
  l ← bucket c key;
  Some (find_entry key l).

(** ** The table as an association list

    [l] is the list of all entries, the last added first. *)

Record cache_wf (c : cache) : Prop := {
  cw_bits : 0 <= ac_bits c <= 32;
  cw_sz : Z.of_nat (length (hashtable c)) = 2 ^ ac_bits c
}.

(** The entries of a key, first to last. *)
Definition of_key (key : Z) (l : list entry) : list entry := List.filter (fun e => fst e =? key) l.

Definition represents (c : cache) (l : list entry) : Prop :=
  cache_wf c /\ forall key, 0 <= key < 2 ^ 32 ->
    exists b, bucket c key = Some b /\ of_key key b = of_key key l.

Lemma hash_range c key : cache_wf c -> 0 <= hash_32 key (ac_bits c) < Z.of_nat (length (hashtable c)).
Proof.
  intros [Hb Hs]. unfold hash_32. rewrite Hs.
  pose proof (u32_range (key * GOLDEN_RATIO_32)).
  replace (ac_bits c) with (32 - (32 - ac_bits c)) at 3 by lia. apply shiftr_range; [lia|done].
Qed.

Lemma bucket_Some c key : cache_wf c -> exists b, bucket c key = Some b.
Proof. intros Hw. apply idx_range. by apply hash_range. Qed.

Lemma find_of_key key l : find_entry key l = snd <$> head (of_key key l).
Proof.
  induction l as [|[k v] l IH]; [done|]. cbn [find_entry of_key List.filter fst].
  by destruct (k =? key).
Qed.

Lemma of_key_del key k l :
  of_key key (del_entry k l) = if key =? k then tail (of_key key l) else of_key key l.
Proof.
  induction l as [|[k' v] l IH]; [by destruct (key =? k)|]. cbn [del_entry of_key List.filter fst].
  destruct (Z.eqb_spec k' k) as [->|Hk]; destruct (Z.eqb_spec key k) as [->|Hkk].
  - by rewrite Z.eqb_refl.
  - destruct (Z.eqb_spec k key); [lia|done].
  - destruct (Z.eqb_spec k' k); [done|]. cbn [of_key List.filter fst].
    destruct (Z.eqb_spec k' k); [done|]. exact IH.
  - cbn [of_key List.filter fst]. destruct (k' =? key); [by f_equal|exact IH].
Qed.

Lemma set_bucket_spec c key l : cache_wf c ->
  exists c', set_bucket c key l = Some c' /\ cache_wf c' /\
    forall k, bucket c' k = if hash_32 k (ac_bits c) =? hash_32 key (ac_bits c) then Some l else bucket c k.
Proof.
  intros Hw. pose proof (hash_range c key Hw) as Hh. unfold set_bucket. rewrite set_at_eq by done.
  eexists. split; [reflexivity|]. split.
  - destruct Hw as [Hb Hs]. split; cbn; [done|]. by rewrite length_insert.
  - intros k. unfold bucket. cbn [hashtable ac_bits]. by apply idx_insert.
Qed.

Lemma lookup_represents c l key : represents c l ->
  auxtrace_cache__lookup c key = Some (find_entry (u32 key) l).
Proof.
  intros [Hw Hr]. unfold auxtrace_cache__lookup.
  destruct (Hr (u32 key) (u32_range key)) as (b & -> & E). cbn [mbind option_bind].
  by rewrite !find_of_key, E.
Qed.

Lemma drop_represents c : cache_wf c -> represents (auxtrace_cache__drop c) [].
Proof.
  intros Hw. assert (cache_wf (auxtrace_cache__drop c)) as Hw'.
  { destruct Hw as [Hb Hs]. split; cbn; [done|]. by rewrite length_map. }
  split; [done|]. intros key _. destruct (bucket_Some _ key Hw') as [b Eb]. exists b. split; [done|].
  unfold bucket, auxtrace_cache__drop in Eb. cbn in Eb. apply idx_inv in Eb as [_ Eb].
  apply list_lookup_fmap_Some in Eb as (? & -> & _). done.
Qed.

Lemma new_represents alloc bits limit_percent c :
  0 <= bits <= 32 -> auxtrace_cache__new alloc bits limit_percent = Some c -> represents c [].
Proof.
  intros Hb E. unfold auxtrace_cache__new in E. destruct alloc; [|done].
  assert (0 < 2 ^ bits <= 2 ^ 32) as Hp by (split; [lia|apply Z.pow_le_mono_r; lia]).
  rewrite Z.shiftl_1_l, u64_small in E by lia. injection E as <-.
  assert (forall A (x : A), cache_wf (mkCache (replicate (Z.to_nat (2 ^ bits)) []) (2 ^ bits)
    (u64 (2 ^ bits * limit_percent) / 100) 0 bits)) as Hw.
  { intros. split; cbn; [done|]. rewrite length_replicate. lia. }
  split; [by apply (Hw unit)|]. intros key _.
  destruct (bucket_Some _ key (Hw unit tt)) as [b Eb]. exists b. split; [done|].
  unfold bucket in Eb. cbn [hashtable] in Eb. apply idx_inv in Eb as [_ Eb].
  by apply lookup_replicate in Eb as [-> _].
Qed.

(** Adding keeps the other entries, or forgets them all. *)
Lemma add_represents c l key v : represents c l ->
  exists c' l', auxtrace_cache__add c key v = Some c' /\ represents c' ((u32 key, v) :: l') /\
    (l' = l \/ l' = []).
Proof.
  intros Hr. assert (exists l', represents (make_room c) l' /\ (l' = l \/ l' = [])) as (l' & [Hw Hr'] & Hl).
  { unfold make_room. destruct (negb _); [|by exists l; auto].
    set (c1 := mkCache _ _ _ _ _). assert (represents c1 l) as H1.
    { destruct Hr as [[Hb Hs] Hr]. split; [by split|exact Hr]. }
    destruct (_ <? _); [|by exists l; auto]. exists []. split; [|by right].
    apply drop_represents, H1. }
  unfold auxtrace_cache__add. destruct (Hr' (u32 key) (u32_range key)) as (b & Eb & E).
  rewrite Eb. cbn [mbind option_bind].
  destruct (set_bucket_spec (make_room c) (u32 key) ((u32 key, v) :: b) Hw) as (c' & -> & Hw' & Hset).
  exists c', l'. split; [done|]. split; [|done]. split; [done|]. intros k Hk. rewrite Hset.
  cbn [of_key List.filter fst]. destruct (Z.eqb_spec (hash_32 k (ac_bits (make_room c))) (hash_32 (u32 key) (ac_bits (make_room c)))) as [Eh|Eh].
  - eexists. split; [reflexivity|]. cbn [of_key List.filter fst].
    assert (of_key k b = of_key k l') as E2.
    { destruct (Hr' k Hk) as (b' & Eb' & E'). unfold bucket in Eb, Eb'. rewrite Eh in Eb'. congruence. }
    unfold of_key in E2. by destruct (u32 key =? k); rewrite E2.
  - destruct (Hr' k Hk) as (b' & Eb' & E'). exists b'. split; [done|].
    destruct (Z.eqb_spec (u32 key) k) as [<-|]; [done|exact E'].
Qed.

(** Below its limit nothing is forgotten. *)
Lemma add_keeps c l key v : represents c l -> 0 <= ac_cnt c -> ac_cnt c + 1 <= ac_limit c < 2 ^ 64 ->
  exists c', auxtrace_cache__add c key v = Some c' /\ represents c' ((u32 key, v) :: l) /\
    ac_cnt c' = ac_cnt c + 1 /\ ac_limit c' = ac_limit c.
Proof.
  intros Hr Hcnt Hlimit. destruct (add_represents c l key v Hr) as (c' & l' & E & Hr' & Hl).
  assert (make_room c = mkCache (hashtable c) (ac_sz c) (ac_limit c) (ac_cnt c + 1) (ac_bits c)) as Hroom.
  { unfold make_room. destruct (Z.eqb_spec (ac_limit c) 0); [lia|]. cbn [negb]. rewrite u64_small by lia.
    cbn [ac_limit ac_cnt]. destruct (Z.ltb_spec (ac_limit c) (ac_cnt c + 1)); [lia|done]. }
  pose proof E as E1. unfold auxtrace_cache__add in E1. rewrite Hroom in E1. unfold bucket, set_bucket in E1. cbn in E1.
  destruct Hr as [Hw Hr]. pose proof (hash_range c (u32 key) Hw) as Hh.
  destruct (Hr (u32 key) (u32_range key)) as (b & Eb & _). unfold bucket in Eb. rewrite Eb in E1.
  cbn [mbind option_bind] in E1. rewrite set_at_eq in E1 by done. injection E1 as <-.
  eexists. split; [exact E|]. split; [|done].
  split; [apply Hr'|]. intros k Hk.
  unfold bucket. cbn [hashtable ac_bits]. rewrite idx_insert by done.
  destruct (Hr k Hk) as (b' & Eb' & E'). unfold bucket in Eb'.
  destruct (Z.eqb_spec (hash_32 k (ac_bits c)) (hash_32 (u32 key) (ac_bits c))) as [Eh|Eh].
  - eexists. split; [reflexivity|]. rewrite Eh, Eb in Eb'. injection Eb' as <-.
    cbn [of_key List.filter fst]. unfold of_key in E'. by destruct (u32 key =? k); rewrite E'.
  - exists b'. split; [done|]. cbn [of_key List.filter fst]. destruct (Z.eqb_spec (u32 key) k) as [Ek|]; [|exact E'].
    by rewrite Ek in Eh.
Qed.

Lemma remove_represents c l key : represents c l ->
  exists c', auxtrace_cache__remove c key = Some c' /\ represents c' (del_entry (u32 key) l).
Proof.
  intros [Hw Hr]. unfold auxtrace_cache__remove.
  destruct (Hr (u32 key) (u32_range key)) as (b & Eb & E). rewrite Eb. cbn [mbind option_bind].
  destruct (set_bucket_spec c (u32 key) (del_entry (u32 key) b) Hw) as (c' & -> & Hw' & Hset).
  exists c'. split; [done|]. split; [done|]. intros k Hk. rewrite Hset, of_key_del.
  destruct (Hr k Hk) as (b' & Eb' & E').
  destruct (Z.eqb_spec (hash_32 k (ac_bits c)) (hash_32 (u32 key) (ac_bits c))) as [Eh|Eh].
  - eexists. split; [reflexivity|]. rewrite of_key_del.
    assert (b = b') as -> by (unfold bucket in Eb, Eb'; rewrite Eh in Eb'; congruence).
    by destruct (k =? u32 key); rewrite E'.
  - exists b'. split; [done|]. by destruct (Z.eqb_spec k (u32 key)) as [->|].
Qed.
End cache.
