(* ===== verification/AuxHeap.v ===== *)
(** The heap of queues, ordered by time stamp: [auxtrace_heap] of
    tools/perf/util/auxtrace.c. *)
From Stdlib Require Import ZArith Lia List Bool.
From S2P Require Import Prelude.
Open Scope Z_scope.
Open Scope c_scope.
Import ListNotations.

Record heap_item := mkItem { hi_queue_nr : Z; hi_ordinal : Z }.
Record auxtrace_heap := mkHeap { heap_array : list heap_item; heap_cnt : Z; heap_sz : Z }.

Definition AUXTRACE_INIT_NR_QUEUES : Z := 32.

(** A zeroed [struct auxtrace_heap]. *)
Definition empty_heap : auxtrace_heap := mkHeap [] 0 0.

Section heap.
(** What [realloc] leaves in memory that was not allocated before. *)
Context (uninit : heap_item).

(** [None] here and below is an access outside the array. *)
Fixpoint heapify_loop (fuel : nat) (arr : list heap_item) (pos : Z) (item : heap_item)
    : option (list heap_item) :=
  match fuel with
  | O => None
  | S fuel' =>
    if pos =? 0 then set_at arr pos item
    else
      let parent := (pos - 1) .>> 1 in
      p ← idx arr parent;
      if hi_ordinal p <=? hi_ordinal item then set_at arr pos item
      else
        arr ← set_at arr pos p;
        heapify_loop fuel' arr parent item
  end.

Definition auxtrace_heapify (arr : list heap_item) (pos queue_nr ordinal : Z)
    : option (list heap_item) :=
  heapify_loop (S (Z.to_nat pos)) arr pos (mkItem queue_nr ordinal).

(** [while (heap_sz <= queue_nr) heap_sz <<= 1]; [None] if it does not end. *)
Fixpoint grow_loop (fuel : nat) (heap_sz queue_nr : Z) : option Z :=
  match fuel with
  | O => None
  | S fuel' =>
    if heap_sz <=? queue_nr then grow_loop fuel' (u32 (heap_sz .<< 1)) queue_nr else Some heap_sz
  end.

Definition realloc_array (arr : list heap_item) (n : Z) : list heap_item :=
  take (Z.to_nat n) arr ++ replicate (Z.to_nat n - length arr) uninit.

(** [alloc]: whether [realloc] succeeds. *)
Definition auxtrace_heap__add (alloc : bool) (heap : auxtrace_heap) (queue_nr ordinal : Z)
    : option (Z * auxtrace_heap) :=
  let insert (h : auxtrace_heap) :=
    arr ← auxtrace_heapify (heap_array h) (heap_cnt h) queue_nr ordinal;
    Some (0, mkHeap arr (u32 (heap_cnt h + 1)) (heap_sz h)) in
  if heap_sz heap <=? queue_nr then
    sz ← grow_loop 33 AUXTRACE_INIT_NR_QUEUES queue_nr;
    if alloc then insert (mkHeap (realloc_array (heap_array heap) sz) (heap_cnt heap) sz)
    else Some (- ENOMEM, heap)
  else insert heap.

Definition auxtrace_heap__free (heap : auxtrace_heap) : auxtrace_heap := mkHeap [] 0 0.

(** The loop of [auxtrace_heap__pop]: the array, and the position it ends on
    unless it returns. *)
Fixpoint pop_loop (fuel : nat) (arr : list heap_item) (heap_cnt pos : Z)
    : option (list heap_item * option Z) :=
  match fuel with
  | O => None
  | S fuel' =>
    let left := u32 (u32 (pos .<< 1) + 1) in
    if heap_cnt <=? left then Some (arr, Some pos)
    else
      let right := u32 (left + 1) in
      if heap_cnt <=? right then
        l ← idx arr left;
        arr ← set_at arr pos l;
        Some (arr, None)
      else
        l ← idx arr left;
        r ← idx arr right;
        if hi_ordinal l <? hi_ordinal r then
          arr ← set_at arr pos l; pop_loop fuel' arr heap_cnt left
        else
          arr ← set_at arr pos r; pop_loop fuel' arr heap_cnt right
  end.

Definition auxtrace_heap__pop (heap : auxtrace_heap) : option auxtrace_heap :=
  if heap_cnt heap =? 0 then Some heap
  else
    let cnt := heap_cnt heap in
    '(arr, pos) ← pop_loop (S (Z.to_nat cnt)) (heap_array heap) cnt 0;
    match pos with
    | None => Some (mkHeap arr (cnt - 1) (heap_sz heap))
    | Some pos =>
      last ← idx arr (cnt - 1);
      arr ← auxtrace_heapify arr pos (hi_queue_nr last) (hi_ordinal last);
      Some (mkHeap arr (cnt - 1) (heap_sz heap))
    end.
End heap.
