(* ===== verification/AuxHeapTheorems.v ===== *)
(** The heap of queues is a priority queue that stays within its array. *)
From Stdlib Require Import ZArith Lia List Bool.
From S2P Require Import Prelude AuxHeap.
Open Scope Z_scope.
Open Scope c_scope.
Import ListNotations.
Ltac Zify.zify_post_hook ::= Z.to_euclidean_division_equations.

(** ** Arrays with a hole *)

(** The ordinal at an index. *)
Definition ordn (arr : list heap_item) (i : Z) : Z :=
  match idx arr i with Some x => hi_ordinal x | None => 0 end.

Lemma ordn_idx arr i x : idx arr i = Some x -> ordn arr i = hi_ordinal x.
Proof. unfold ordn. by intros ->. Qed.

Lemma ordn_insert arr n m x : 0 <= n < Z.of_nat (length arr) ->
  ordn (<[Z.to_nat n := x]> arr) m = if m =? n then hi_ordinal x else ordn arr m.
Proof. intros Hn. unfold ordn. rewrite idx_insert by done. by destruct (m =? n). Qed.

Lemma parent_div i : (i - 1) .>> 1 = (i - 1) / 2.
Proof. by rewrite Z.shiftr_div_pow2. Qed.

(** The first [n] items but the one at [pos]. *)
Definition others (arr : list heap_item) (n pos : Z) : list heap_item :=
  delete (Z.to_nat pos) (take (Z.to_nat n) arr).

Lemma take_set {A} (arr : list A) n pos x : 0 <= pos < Z.of_nat (length arr) -> pos < n ->
  take (Z.to_nat n) (<[Z.to_nat pos := x]> arr) = <[Z.to_nat pos := x]> (take (Z.to_nat n) arr).
Proof. intros. apply take_insert_lt. lia. Qed.

Lemma insert_perm {A} (l : list A) (i : nat) x : (i < length l)%nat -> <[i := x]> l ≡ₚ x :: delete i l.
Proof.
  intros Hi. rewrite insert_take_drop, delete_take_drop by done. by rewrite Permutation_middle.
Qed.

(** Filling the hole at [pos] with the item at [q] moves the hole to [q]. *)
Lemma others_move arr n pos q x :
  0 <= pos < n -> 0 <= q < n -> n <= Z.of_nat (length arr) -> pos <> q -> idx arr q = Some x ->
  others (<[Z.to_nat pos := x]> arr) n q ≡ₚ others arr n pos.
Proof.
  intros Hp Hq Hn Hne Hx. apply idx_inv in Hx as [_ Hx]. unfold others. rewrite take_set by lia.
  apply (Permutation_cons_inv (a := x)). set (l := take (Z.to_nat n) arr).
  assert (length l = Z.to_nat n) as Hl by (unfold l; rewrite length_take; lia).
  assert (l !! Z.to_nat q = Some x) as Hlq by (unfold l; rewrite lookup_take_lt; [done|lia]).
  rewrite <- (delete_Permutation (<[Z.to_nat pos := x]> l)).
  - apply insert_perm. lia.
  - rewrite list_lookup_insert_ne by lia. done.
Qed.

Lemma others_fill arr n pos x : 0 <= pos < n -> n <= Z.of_nat (length arr) ->
  take (Z.to_nat n) (<[Z.to_nat pos := x]> arr) ≡ₚ x :: others arr n pos.
Proof.
  intros Hp Hn. rewrite take_set by lia. apply insert_perm. rewrite length_take. lia.
Qed.

(** ** The order of the heap *)

Definition above (arr : list heap_item) (i : Z) : Prop := ordn arr ((i - 1) / 2) <= ordn arr i.
Definition heap_order (arr : list heap_item) (n : Z) : Prop := forall i, 0 < i < n -> above arr i.

(** The order but for the item at [pos]. *)
Definition order_but (arr : list heap_item) (n pos : Z) : Prop :=
  forall i, 0 < i < n -> i <> pos -> (i - 1) / 2 <> pos -> above arr i.

(** What is below [pos] is at least [b]. *)
Definition below (arr : list heap_item) (n pos b : Z) : Prop :=
  forall c, 0 < c < n -> (c - 1) / 2 = pos -> b <= ordn arr c.

Lemma heapify_ok fuel : forall arr n pos item,
  (Z.to_nat pos < fuel)%nat -> 0 <= pos < n -> n <= Z.of_nat (length arr) ->
  order_but arr n pos -> below arr n pos (hi_ordinal item) ->
  (0 < pos -> below arr n pos (ordn arr ((pos - 1) / 2))) ->
  exists arr', heapify_loop fuel arr pos item = Some arr' /\ length arr' = length arr /\
    heap_order arr' n /\ take (Z.to_nat n) arr' ≡ₚ item :: others arr n pos.
Proof.
  induction fuel as [|fuel IH]; intros arr n pos item Hf Hp Hn Ho Hb Hg; [lia|]. cbn [heapify_loop].
  assert (forall x, (pos > 0 -> ordn arr ((pos - 1) / 2) <= hi_ordinal x) -> hi_ordinal x <= hi_ordinal item ->
    heap_order (<[Z.to_nat pos := x]> arr) n) as Hput.
  { intros x Hx Hle i Hi. unfold above. rewrite !ordn_insert by lia.
    destruct (Z.eqb_spec i pos) as [->|].
    - destruct (Z.eqb_spec ((pos - 1) / 2) pos); [lia|]. apply Hx. lia.
    - destruct (Z.eqb_spec ((i - 1) / 2) pos); [|by apply Ho]. specialize (Hb i Hi ltac:(done)). lia. }
  rewrite parent_div. destruct (Z.eqb_spec pos 0) as [->|Hpos].
  { rewrite set_at_eq by lia. eexists. split; [done|]. rewrite length_insert. split; [done|].
    split; [apply Hput; lia|]. apply others_fill; lia. }
  destruct (idx_range arr ((pos - 1) / 2)) as [p Ep]; [lia|]. rewrite Ep. cbn [mbind option_bind].
  pose proof (ordn_idx _ _ _ Ep) as Op.
  destruct (Z.leb_spec (hi_ordinal p) (hi_ordinal item)) as [Hle|Hgt].
  { rewrite set_at_eq by lia. eexists. split; [done|]. rewrite length_insert. split; [done|].
    split; [apply Hput; lia|]. apply others_fill; lia. }
  rewrite set_at_eq by lia. cbn [mbind option_bind].
  set (q := (pos - 1) / 2) in *. assert (0 <= q < pos) as Hq by (subst q; lia).
  assert (forall c, 0 < c < n -> (c - 1) / 2 = q -> c <> pos -> hi_ordinal p <= ordn arr c) as Hsib.
  { intros c Hc Ec Hne. specialize (Ho c Hc Hne ltac:(lia)). unfold above in Ho. rewrite Ec in Ho. lia. }
  destruct (IH (<[Z.to_nat pos := p]> arr) n q item) as (arr' & E & Hl & Ho' & Hperm).
  - lia.
  - lia.
  - rewrite length_insert. lia.
  - intros i Hi Hne Hne'. unfold above. rewrite !ordn_insert by lia.
    destruct (Z.eqb_spec i pos) as [->|]; [by subst q|].
    destruct (Z.eqb_spec ((i - 1) / 2) pos) as [Ei|]; [|by apply Ho].
    specialize (Hg ltac:(lia) i Hi Ei). lia.
  - intros c Hc Ec. rewrite ordn_insert by lia. destruct (Z.eqb_spec c pos); [lia|].
    specialize (Hsib c Hc Ec ltac:(done)). lia.
  - intros Hq0 c Hc Ec. rewrite !ordn_insert by lia.
    specialize (Ho q ltac:(lia) ltac:(lia) ltac:(lia)). unfold above in Ho.
    destruct (Z.eqb_spec ((q - 1) / 2) pos); [lia|].
    destruct (Z.eqb_spec c pos); [lia|]. specialize (Hsib c Hc Ec ltac:(done)). lia.
  - exists arr'. split; [done|]. rewrite length_insert in Hl. split; [done|]. split; [done|].
    rewrite Hperm. constructor. apply others_move; (done || lia).
Qed.

(** What is known of a hole at [pos]. *)
Record hole (arr : list heap_item) (n pos : Z) : Prop := {
  hole_range : 0 <= pos < n;
  hole_order : order_but arr n pos;
  hole_below : 0 < pos -> below arr n pos (ordn arr ((pos - 1) / 2));
  hole_above : 0 < pos -> above arr pos
}.

(** The least child moves up. *)
Lemma sift_step arr n pos k x :
  hole arr n pos -> n <= Z.of_nat (length arr) -> 0 < k < n -> (k - 1) / 2 = pos -> idx arr k = Some x ->
  below arr n pos (hi_ordinal x) ->
  let arr1 := <[Z.to_nat pos := x]> arr in hole arr1 n k /\ others arr1 n k ≡ₚ others arr n pos.
Proof.
  intros [Hp Ho Hb _] Hn Hk Ek Ex Hx arr1. split.
  2: { apply others_move; (done || lia). }
  assert (forall i, ordn arr1 i = if i =? pos then hi_ordinal x else ordn arr i) as Hord.
  { intros i. apply ordn_insert. lia. }
  pose proof (ordn_idx _ _ _ Ex) as Ox. split; [lia|..].
  - intros i Hi Hne Hne'. unfold above. rewrite !Hord. destruct (Z.eqb_spec i pos) as [->|].
    + destruct (Z.eqb_spec ((pos - 1) / 2) pos); [lia|].
      specialize (Hb ltac:(lia) k Hk Ek). lia.
    + destruct (Z.eqb_spec ((i - 1) / 2) pos) as [Ei|]; [by apply Hx|by apply Ho].
  - intros _ c Hc Ec. rewrite !Hord, Ek, Z.eqb_refl. destruct (Z.eqb_spec c pos); [lia|].
    specialize (Ho c Hc ltac:(lia) ltac:(lia)). unfold above in Ho. rewrite Ec in Ho. lia.
  - intros _. unfold above. rewrite !Hord, Ek, Z.eqb_refl. destruct (Z.eqb_spec k pos); lia.
Qed.

Lemma others_last arr n pos x : 0 <= pos < n - 1 -> idx arr (n - 1) = Some x ->
  others arr n pos ≡ₚ x :: others arr (n - 1) pos.
Proof.
  intros Hp Ex. apply idx_inv in Ex as [Hn Ex]. unfold others.
  replace (Z.to_nat n) with (S (Z.to_nat (n - 1))) by lia. rewrite (take_S_r _ _ x) by done.
  rewrite delete_take_drop, take_app_le, drop_app_le by (rewrite length_take; lia).
  rewrite app_assoc, <- delete_take_drop. by rewrite Permutation_app_comm.
Qed.

Lemma others_at_last arr n : 0 < n -> n <= Z.of_nat (length arr) -> others arr n (n - 1) = take (Z.to_nat (n - 1)) arr.
Proof.
  intros H0 Hn. unfold others. rewrite delete_take_drop, take_take, drop_ge by (rewrite length_take; lia).
  rewrite app_nil_r. f_equal. lia.
Qed.

Lemma pop_loop_ok fuel : forall arr n pos,
  hole arr n pos -> n <= Z.of_nat (length arr) -> n <= 2 ^ 31 -> (Z.to_nat (n - pos) < fuel)%nat ->
  exists arr' r, pop_loop fuel arr n pos = Some (arr', r) /\ length arr' = length arr /\
    match r with
    | Some p => hole arr' n p /\ n <= 2 * p + 1 /\ others arr' n p ≡ₚ others arr n pos
    | None => heap_order arr' (n - 1) /\ take (Z.to_nat (n - 1)) arr' ≡ₚ others arr n pos
    end.
Proof.
  induction fuel as [|fuel IH]; intros arr n pos Hh Hn Hmax Hf; [lia|]. cbn [pop_loop].
  pose proof (hole_range _ _ _ Hh) as Hp.
  rewrite Z.shiftl_mul_pow2, (u32_small (pos * 2 ^ 1)), (u32_small (pos * 2 ^ 1 + 1)) by lia.
  destruct (Z.leb_spec n (pos * 2 ^ 1 + 1)) as [|Hl].
  { exists arr, (Some pos). split; [done|]. split; [done|]. split; [done|]. split; [lia|done]. }
  rewrite (u32_small (pos * 2 ^ 1 + 1 + 1)) by lia.
  set (l := pos * 2 ^ 1 + 1) in *.
  destruct (idx_range arr l) as [x Ex]; [lia|]. rewrite Ex. cbn [mbind option_bind].
  destruct (Z.leb_spec n (l + 1)) as [Hr|Hr].
  { assert (n - 1 = l) as El by lia. rewrite set_at_eq by lia.
    eexists _, None. split; [done|]. rewrite length_insert. split; [done|].
    destruct (sift_step arr n pos l x Hh Hn ltac:(lia) ltac:(lia) Ex) as [[_ Ho _ _] Hperm].
    { intros c Hc Ec. replace c with l by lia. by rewrite (ordn_idx _ _ _ Ex). }
    split.
    - intros i Hi. apply Ho; lia.
    - rewrite <- Hperm, <- El, others_at_last; [done|lia|rewrite length_insert; lia]. }
  destruct (idx_range arr (l + 1)) as [y Ey]; [lia|]. rewrite Ey. cbn [mbind option_bind].
  assert (forall z, hi_ordinal z <= hi_ordinal x -> hi_ordinal z <= hi_ordinal y ->
    below arr n pos (hi_ordinal z)) as Hleast.
  { intros z Hzx Hzy c Hc Ec. assert (c = l \/ c = l + 1) as [-> | ->] by lia.
    - by rewrite (ordn_idx _ _ _ Ex).
    - by rewrite (ordn_idx _ _ _ Ey). }
  assert (forall k z, k = l \/ k = l + 1 -> idx arr k = Some z -> below arr n pos (hi_ordinal z) ->
    exists arr' r, (a ← set_at arr pos z; pop_loop fuel a n k) = Some (arr', r) /\ length arr' = length arr /\
    match r with
    | Some p => hole arr' n p /\ n <= 2 * p + 1 /\ others arr' n p ≡ₚ others arr n pos
    | None => heap_order arr' (n - 1) /\ take (Z.to_nat (n - 1)) arr' ≡ₚ others arr n pos
    end) as Hgo.
  { intros k z Hk Ez Hz. rewrite set_at_eq by lia. cbn [mbind option_bind].
    destruct (sift_step arr n pos k z Hh Hn ltac:(lia) ltac:(lia) Ez Hz) as [Hh' Hperm].
    destruct (IH _ n k Hh') as (arr' & r & E & Hlen & Hr'); [rewrite length_insert; lia|lia|lia|].
    exists arr', r. split; [done|]. rewrite length_insert in Hlen. split; [done|].
    destruct r; by rewrite <- Hperm. }
  destruct (Z.ltb_spec (hi_ordinal x) (hi_ordinal y)); apply Hgo; auto; apply Hleast; lia.
Qed.

(** ** Heaps *)

Definition items (h : auxtrace_heap) : list heap_item := take (Z.to_nat (heap_cnt h)) (heap_array h).
Definition queue_nrs (l : list heap_item) : list Z := map hi_queue_nr l.

(** A queue is on the heap once at most, so that the heap never outgrows its
    array, whose size follows the queue numbers. *)
Record heap_wf (h : auxtrace_heap) : Prop := {
  wf_cnt : 0 <= heap_cnt h;
  wf_sz : heap_sz h <= 2 ^ 31;
  wf_array : Z.of_nat (length (heap_array h)) = heap_sz h;
  wf_fits : heap_cnt h <= heap_sz h;
  wf_order : heap_order (heap_array h) (heap_cnt h);
  wf_once : NoDup (queue_nrs (items h));
  wf_nrs : Forall (fun x => 0 <= hi_queue_nr x < heap_sz h) (items h)
}.

Lemma nrs_fit l sz : NoDup (queue_nrs l) -> Forall (fun x => 0 <= hi_queue_nr x < sz) l ->
  Z.of_nat (length l) <= Z.max 0 sz.
Proof.
  intros Hd Hf. assert (queue_nrs l ⊆+ seqZ 0 sz) as Hs.
  { apply NoDup_submseteq; [done|]. intros n (x & -> & Hx)%list_elem_of_fmap.
    apply list_elem_of_In in Hx. rewrite Forall_forall in Hf. specialize (Hf x Hx). apply elem_of_seqZ. lia. }
  apply submseteq_length in Hs. unfold queue_nrs in Hs. rewrite length_map, length_seqZ in Hs. lia.
Qed.

Lemma root_least h x y : heap_wf h -> idx (heap_array h) 0 = Some x -> y ∈ items h ->
  hi_ordinal x <= hi_ordinal y.
Proof.
  intros Hw Ex (i & Hi)%list_elem_of_lookup. unfold items in Hi.
  apply lookup_take_Some in Hi as [Hi Hlt].
  assert (forall fuel : nat, forall k, 0 <= k < heap_cnt h -> k < Z.of_nat fuel ->
    hi_ordinal x <= ordn (heap_array h) k) as Hall.
  { induction fuel as [|fuel IH]; intros k Hk Hf; [lia|].
    destruct (Z.eq_dec k 0) as [->|]; [by rewrite (ordn_idx _ _ _ Ex)|].
    pose proof (wf_order h Hw k ltac:(lia)) as Ha. unfold above in Ha.
    specialize (IH ((k - 1) / 2) ltac:(lia) ltac:(lia)). lia. }
  specialize (Hall (S i) (Z.of_nat i) ltac:(lia) ltac:(lia)).
  unfold ordn, idx in Hall. destruct (Z.ltb_spec (Z.of_nat i) 0); [lia|].
  by rewrite Nat2Z.id, Hi in Hall.
Qed.

Lemma grow_loop_ok nr fuel : forall k, 0 <= nr < 2 ^ 31 -> 5 <= k <= 31 -> 31 - k < Z.of_nat fuel ->
  exists j, grow_loop fuel (2 ^ k) nr = Some (2 ^ j) /\ k <= j <= 31 /\ nr < 2 ^ j.
Proof.
  induction fuel as [|fuel IH]; intros k Hnr Hk Hf; [lia|]. cbn [grow_loop].
  destruct (Z.leb_spec (2 ^ k) nr) as [Hle|Hlt].
  - assert (k < 31) as Hk31 by (apply (Z.pow_lt_mono_r_iff 2); lia).
    assert (2 ^ (k + 1) <= 2 ^ 31) by (apply Z.pow_le_mono_r; lia).
    rewrite Z.shiftl_mul_pow2, <- Z.pow_add_r, u32_small by lia.
    destruct (IH (k + 1)) as (j & E & Hj & Hn); [done|lia|lia|]. exists j. split; [done|]. lia.
  - exists k. split; [done|]. lia.
Qed.

Section ops.
Context (uninit : heap_item).
Notation add := (auxtrace_heap__add uninit).

(** Inserting into an array with room for one more. *)
Lemma insert_ok h nr ord :
  heap_wf h -> nr ∉ queue_nrs (items h) -> 0 <= nr < heap_sz h ->
  exists arr, auxtrace_heapify (heap_array h) (heap_cnt h) nr ord = Some arr /\
    let h' := mkHeap arr (u32 (heap_cnt h + 1)) (heap_sz h) in
    heap_wf h' /\ items h' ≡ₚ mkItem nr ord :: items h.
Proof.
  intros [Hc Hs Ha Hf Ho Hd Hn] Hnew Hnr.
  assert (Z.of_nat (length (items h)) = heap_cnt h) as Hlen by (unfold items; rewrite length_take; lia).
  assert (heap_cnt h + 1 <= heap_sz h) as Hroom.
  { pose proof (nrs_fit (mkItem nr ord :: items h) (heap_sz h)) as Hp.
    cbn [queue_nrs map length hi_queue_nr] in Hp.
    specialize (Hp ltac:(by constructor) ltac:(by constructor)). lia. }
  destruct (heapify_ok (S (Z.to_nat (heap_cnt h))) (heap_array h) (heap_cnt h + 1) (heap_cnt h)
    (mkItem nr ord)) as (arr & E & Hl & Ho' & Hperm); [lia|lia|lia| | | |].
  { intros i Hi Hne _. apply Ho. lia. }
  { intros c Hcc Ec. lia. }
  { intros _ c Hcc Ec. lia. }
  exists arr. split; [exact E|]. intros h'.
  assert (items h' ≡ₚ mkItem nr ord :: items h) as Hp.
  { unfold items, h'. cbn [heap_cnt heap_array]. rewrite u32_small by lia. rewrite Hperm.
    replace (heap_cnt h) with (heap_cnt h + 1 - 1) at 2 by lia.
    rewrite others_at_last by lia. by replace (heap_cnt h + 1 - 1) with (heap_cnt h) by lia. }
  assert (NoDup (queue_nrs (items h'))) by (unfold queue_nrs; rewrite Hp; by constructor).
  assert (Forall (fun x => 0 <= hi_queue_nr x < heap_sz h) (items h')) by (rewrite Hp; by constructor).
  split; [|done]. split; try done; unfold h'; cbn [heap_cnt heap_array heap_sz]; rewrite ?u32_small; (done || lia).
Qed.

Lemma realloc_wf h sz : heap_wf h -> heap_sz h <= sz <= 2 ^ 31 ->
  let h' := mkHeap (realloc_array uninit (heap_array h) sz) (heap_cnt h) sz in
  heap_wf h' /\ items h' = items h.
Proof.
  intros [Hc Hs Ha Hf Ho Hd Hn] Hsz h'. unfold h', realloc_array.
  rewrite take_ge by lia. set (arr := heap_array h ++ _).
  assert (forall i, 0 <= i < heap_cnt h -> ordn arr i = ordn (heap_array h) i) as Hord.
  { intros i Hi. unfold ordn, idx, arr. by rewrite lookup_app_l by lia. }
  assert (take (Z.to_nat (heap_cnt h)) arr = items h) as Ht by (unfold arr; by rewrite take_app_le by lia).
  split; [|exact Ht]. split; cbn [heap_cnt heap_array heap_sz]; try lia.
  - unfold arr. rewrite length_app, length_replicate. lia.
  - intros i Hi. unfold above. rewrite !Hord by lia. apply Ho. lia.
  - unfold items. cbn [heap_cnt heap_array]. by rewrite Ht.
  - unfold items. cbn [heap_cnt heap_array]. rewrite Ht. eapply Forall_impl; [|exact Hn]. cbn. lia.
Qed.

Lemma add_ok alloc h nr ord :
  heap_wf h -> 0 <= nr < 2 ^ 31 -> nr ∉ queue_nrs (items h) ->
  exists ret h', add alloc h nr ord = Some (ret, h') /\ heap_wf h' /\
    (ret = 0 /\ items h' ≡ₚ mkItem nr ord :: items h \/ ret = - ENOMEM /\ alloc = false /\ h' = h).
Proof.
  intros Hw Hnr Hnew. unfold auxtrace_heap__add.
  destruct (Z.leb_spec (heap_sz h) nr).
  - change AUXTRACE_INIT_NR_QUEUES with (2 ^ 5).
    destruct (grow_loop_ok nr 33 5) as (j & -> & Hj & Hnj); [lia|lia|lia|]. cbn [mbind option_bind].
    assert (2 ^ j <= 2 ^ 31) by (apply Z.pow_le_mono_r; lia).
    destruct alloc; [|exists (- ENOMEM), h; split; [done|split; [done|by right]]].
    destruct (realloc_wf h (2 ^ j) Hw) as [Hw' Hi]; [lia|].
    destruct (insert_ok _ nr ord Hw') as (arr & -> & Hw2 & Hp); [by rewrite Hi|cbn; lia|].
    eexists 0, _. split; [done|]. split; [exact Hw2|]. left. split; [done|]. by rewrite Hp, Hi.
  - destruct (insert_ok h nr ord Hw Hnew) as (arr & -> & Hw2 & Hp); [lia|].
    eexists 0, _. split; [done|]. split; [exact Hw2|]. by left.
Qed.

Lemma heapify_stays fuel arr pos item :
  idx arr pos = Some item -> (0 < pos -> above arr pos) -> heapify_loop (S fuel) arr pos item = Some arr.
Proof.
  intros Ex Ha. pose proof (idx_inv _ _ _ Ex) as [Hr Hx].
  assert (set_at arr pos item = Some arr) as Hset by (rewrite set_at_eq by done; by rewrite list_insert_id).
  cbn [heapify_loop]. destruct (Z.eqb_spec pos 0); [done|]. rewrite parent_div.
  destruct (idx_range arr ((pos - 1) / 2)) as [p Ep]; [lia|]. rewrite Ep. cbn [mbind option_bind].
  specialize (Ha ltac:(lia)). unfold above in Ha.
  rewrite (ordn_idx _ _ _ Ep), (ordn_idx _ _ _ Ex) in Ha.
  by destruct (Z.leb_spec (hi_ordinal p) (hi_ordinal item)); [|lia].
Qed.

Lemma shrink_wf h arr rest x :
  heap_wf h -> 0 < heap_cnt h -> length arr = length (heap_array h) ->
  heap_order arr (heap_cnt h - 1) -> take (Z.to_nat (heap_cnt h - 1)) arr ≡ₚ rest ->
  items h ≡ₚ x :: rest ->
  let h' := mkHeap arr (heap_cnt h - 1) (heap_sz h) in heap_wf h' /\ items h ≡ₚ x :: items h'.
Proof.
  intros [Hc Hs Ha Hf Ho Hd Hn] H0 Hl Ho' Hp Hx h'.
  assert (items h' ≡ₚ rest) as Hi by exact Hp. rewrite <- Hi in Hx. split; [|done].
  assert (NoDup (queue_nrs (items h'))) as Hd'.
  { unfold queue_nrs in Hd. rewrite Hx in Hd. by inversion Hd. }
  assert (Forall (fun x => 0 <= hi_queue_nr x < heap_sz h) (items h')) as Hn'.
  { rewrite Hx in Hn. by inversion Hn. }
  split; try done; unfold h'; cbn [heap_cnt heap_array heap_sz]; lia.
Qed.

Lemma pop_ok h : heap_wf h ->
  exists h', auxtrace_heap__pop h = Some h' /\ heap_wf h' /\
    (heap_cnt h = 0 /\ h' = h \/
     exists x, idx (heap_array h) 0 = Some x /\ items h ≡ₚ x :: items h' /\
       Forall (fun y => hi_ordinal x <= hi_ordinal y) (items h)).
Proof.
  intros Hw. pose proof Hw as [Hc Hs Ha Hf Ho Hd Hn]. unfold auxtrace_heap__pop.
  destruct (Z.eqb_spec (heap_cnt h) 0) as [E0|H0]; [exists h; split; [done|split; [done|by left]]|].
  destruct (idx_range (heap_array h) 0) as [root Er]; [lia|].
  assert (Forall (fun y => hi_ordinal root <= hi_ordinal y) (items h)) as Hmin.
  { apply Forall_forall. intros y Hy%list_elem_of_In. by eapply root_least. }
  assert (items h ≡ₚ root :: others (heap_array h) (heap_cnt h) 0) as Hroot.
  { unfold others, items. apply delete_Permutation. rewrite lookup_take_lt by lia.
    by destruct (idx_inv _ _ _ Er). }
  destruct (pop_loop_ok (S (Z.to_nat (heap_cnt h))) (heap_array h) (heap_cnt h) 0)
    as (arr & r & -> & Hl & Hr); [|lia|lia|lia|].
  { split; try lia. intros i Hi _ _. by apply Ho. }
  cbn [mbind option_bind]. destruct r as [p|].
  2: { destruct Hr as [Ho' Hp]. destruct (shrink_wf h arr _ root Hw ltac:(lia) Hl Ho' Hp Hroot).
    eexists. split; [done|]. split; [done|]. right. by exists root. }
  destruct Hr as (Hh & Hleaf & Hp). pose proof Hh as [Hpr Hpo _ Hpa].
  destruct (idx_range arr (heap_cnt h - 1)) as [last El]; [lia|]. rewrite El. cbn [mbind option_bind].
  assert (exists arr2, auxtrace_heapify arr p (hi_queue_nr last) (hi_ordinal last) = Some arr2 /\
    length arr2 = length arr /\ heap_order arr2 (heap_cnt h - 1) /\
    take (Z.to_nat (heap_cnt h - 1)) arr2 ≡ₚ others arr (heap_cnt h) p)
    as (arr2 & -> & Hl2 & Ho2 & Hp2).
  { unfold auxtrace_heapify. replace (mkItem _ _) with last by by destruct last.
    destruct (Z.eq_dec p (heap_cnt h - 1)) as [->|Hne].
    - exists arr. rewrite heapify_stays by done. rewrite others_at_last by lia.
      split; [done|]. split; [done|]. split; [|done]. intros i Hi. apply Hpo; lia.
    - destruct (heapify_ok (S (Z.to_nat p)) arr (heap_cnt h - 1) p last)
        as (arr2 & E & Hl2 & Ho2 & Hp2); [lia|lia|lia| | | |].
      + intros i Hi. apply Hpo. lia.
      + intros c Hcc Ec. lia.
      + intros _ c Hcc Ec. lia.
      + exists arr2. split; [done|]. split; [done|]. split; [done|].
        rewrite Hp2. symmetry. apply others_last; [lia|done]. }
  cbn [mbind option_bind].
  destruct (shrink_wf h arr2 _ root Hw ltac:(lia) ltac:(lia) Ho2 (Permutation_trans Hp2 Hp) Hroot).
  eexists. split; [done|]. split; [done|]. right. by exists root.
Qed.
End ops.

(** ** The abstract priority queue *)

Inductive heap_op :=
| Add (alloc : bool) (queue_nr ordinal : Z)
| Pop.

(** The queues that wait, in any order. *)
Inductive pq_step : heap_op -> list heap_item -> list heap_item -> Prop :=
| pq_add alloc nr ord l l' : l' ≡ₚ mkItem nr ord :: l -> pq_step (Add alloc nr ord) l l'
| pq_add_nomem nr ord l : pq_step (Add false nr ord) l l
| pq_pop_empty : pq_step Pop [] []
| pq_pop x l l' : l ≡ₚ x :: l' -> Forall (fun y => hi_ordinal x <= hi_ordinal y) l -> pq_step Pop l l'.

Inductive pq_run : list heap_op -> list heap_item -> list heap_item -> Prop :=
| pq_nil l : pq_run [] l l
| pq_cons op ops l1 l2 l3 : pq_step op l1 l2 -> pq_run ops l2 l3 -> pq_run (op :: ops) l1 l3.

(** A queue is added only when it is not waiting already. *)
Definition fresh_op (op : heap_op) (l : list heap_item) : Prop :=
  match op with
  | Add _ nr _ => 0 <= nr < 2 ^ 31 /\ nr ∉ queue_nrs l
  | Pop => True
  end.

(** Every run of the abstract queue adds fresh queues only. *)
Definition fresh_ops (ops : list heap_op) (l : list heap_item) : Prop :=
  forall pre op post l', ops = pre ++ op :: post -> pq_run pre l l' -> fresh_op op l'.

Section run.
Context (uninit : heap_item).

Definition run_heap_op (op : heap_op) (h : auxtrace_heap) : option auxtrace_heap :=
  match op with
  | Add alloc nr ord => '(_, h) ← auxtrace_heap__add uninit alloc h nr ord; Some h
  | Pop => auxtrace_heap__pop h
  end.

Fixpoint run_heap_ops (ops : list heap_op) (h : auxtrace_heap) : option auxtrace_heap :=
  match ops with
  | [] => Some h
  | op :: ops => h ← run_heap_op op h; run_heap_ops ops h
  end.

Lemma run_op_ok op h : heap_wf h -> fresh_op op (items h) ->
  exists h', run_heap_op op h = Some h' /\ heap_wf h' /\ pq_step op (items h) (items h').
Proof.
  intros Hw Hf. destruct op as [alloc nr ord|]; cbn [run_heap_op].
  - destruct Hf as [Hnr Hnew]. destruct (add_ok uninit alloc h nr ord Hw Hnr Hnew) as (ret & h' & -> & Hw' & Hc).
    exists h'. split; [done|]. split; [done|].
    destruct Hc as [[_ Hp]|(_ & -> & ->)]; by constructor.
  - destruct (pop_ok h Hw) as (h' & -> & Hw' & Hc). exists h'. split; [done|]. split; [done|].
    destruct Hc as [[E ->]|(x & _ & Hp & Hm)]; [|by econstructor].
    assert (items h = []) as -> by (unfold items; by rewrite E). constructor.
Qed.

Lemma run_ops_ok ops : forall h, heap_wf h -> fresh_ops ops (items h) ->
  exists h', run_heap_ops ops h = Some h' /\ heap_wf h' /\ pq_run ops (items h) (items h').
Proof.
  induction ops as [|op ops IH]; intros h Hw Hf; cbn [run_heap_ops].
  { exists h. split; [done|]. split; [done|]. constructor. }
  destruct (run_op_ok op h Hw) as (h1 & -> & Hw1 & Hs1).
  { apply (Hf [] op ops); [done|constructor]. }
  destruct (IH h1 Hw1) as (h2 & E2 & Hw2 & Hr2).
  { intros pre op' post l' -> Hr. apply (Hf (op :: pre) op' post); [done|by econstructor]. }
  exists h2. split; [exact E2|]. split; [done|]. by econstructor.
Qed.
End run.

Lemma empty_heap_wf : heap_wf empty_heap.
Proof. split; cbn; try (lia || constructor). intros i Hi. cbn in Hi. lia. Qed.

(** C34: The heap of queues is a priority queue.  Any sequence of additions and
    removals, from an empty heap, whatever [realloc] leaves in new memory and
    whenever it fails, makes no access outside the array and has the same
    effect as on a bag of queues from which a removal takes one of the earliest;
    and the first element of the array is always one of the earliest.  It needs
    that a queue is not added again while it waits: the size of the array
    follows the queue numbers, not the count. *)
Theorem heap_is_priority_queue uninit ops :
  fresh_ops ops [] ->
  exists h, run_heap_ops uninit ops empty_heap = Some h /\ pq_run ops [] (items h) /\
    forall x y, idx (heap_array h) 0 = Some x -> y ∈ items h -> hi_ordinal x <= hi_ordinal y.
Proof.
  intros Hf. destruct (run_ops_ok uninit ops empty_heap empty_heap_wf Hf) as (h & E & Hw & Hr).
  exists h. split; [exact E|]. split; [exact Hr|]. intros x y. by apply root_least.
Qed.

Lemma heap_is_priority_queue_witness :
  let ops := [Add true 40 7; Add true 3 5; Add true 8 6; Pop] in
  exists h, run_heap_ops (mkItem 9 9) ops empty_heap = Some h /\
    items h = [mkItem 8 6; mkItem 40 7] /\ pq_run ops [] (items h).
Proof.
  intros ops. assert (H := heap_is_priority_queue (mkItem 9 9) ops).
  destruct H as (h & E & Hr & _).
  - intros pre op post l' E Hr.
    assert (forall a nr ord l1 l2, pq_step (Add a nr ord) l1 l2 ->
      forall n, n ∈ queue_nrs l2 -> n = nr \/ n ∈ queue_nrs l1) as Hnrs.
    { intros a nr ord l1 l2 Hs n Hn. inversion Hs as [? ? ? ? ? Hp| | |]; subst; [|by right].
      unfold queue_nrs in Hn. rewrite Hp in Hn. by apply elem_of_cons in Hn. }
    assert (forall n, n ∉ queue_nrs []) as Hnil by (intros n Hn; by apply not_elem_of_nil in Hn).
    destruct pre as [|o1 pre]; [injection E as <- <-; inversion Hr; subst; split; [lia|apply Hnil]|].
    injection E as <- E. inversion Hr as [|? ? ? l1 ? Hs1 Hr1]; subst.
    destruct pre as [|o2 pre].
    { injection E as <- <-. inversion Hr1; subst. split; [lia|].
      intros Hn. destruct (Hnrs _ _ _ _ _ Hs1 _ Hn) as [?|Hn2]; [lia|by apply Hnil in Hn2]. }
    injection E as <- E. inversion Hr1 as [|? ? ? l2 ? Hs2 Hr2]; subst.
    destruct pre as [|o3 pre].
    { injection E as <- <-. inversion Hr2; subst. split; [lia|].
      intros Hn. destruct (Hnrs _ _ _ _ _ Hs2 _ Hn) as [?|Hn2]; [lia|].
      destruct (Hnrs _ _ _ _ _ Hs1 _ Hn2) as [?|Hn3]; [lia|by apply Hnil in Hn3]. }
    injection E as <- E. destruct pre as [|o4 pre]; [by injection E as <- <-|].
    injection E as <- E. by destruct pre.
  - exists h. split; [exact E|]. split; [|exact Hr]. vm_compute in E. by injection E as <-.
Defined.
