(* ===== verification/PtSession.v ===== *)
(** The session around the decoder: the parts of [struct intel_pt] and [struct
    intel_pt_queue] of tools/perf/util/intel-pt.c that the modelled functions
    use, what they ask of the rest of perf, and the choice of the machine, the
    thread and the filter region of an address. *)
From Stdlib Require Import ZArith Lia List Bool String.
From S2P Require Import Prelude.
Open Scope Z_scope.
Open Scope c_scope.
Import ListNotations.

(** ** Data

    Pointers to machines, threads and DSOs are handles of type [Z]; [None] is
    NULL. *)

(** [struct map], with [map_ip] either [map__map_ip] or [identity__map_ip]. *)
Record map := mkMap {
  map_start : Z;
  map_end : Z;
  map_pgoff : Z;
  map_identity : bool;
  map_dso : option Z
}.

Definition map__map_ip (m : map) (ip : Z) : Z := u64 (u64 (ip - map_start m) + map_pgoff m).
Definition identity__map_ip (m : map) (ip : Z) : Z := ip.
Definition map_ip (m : map) (ip : Z) : Z :=
  if map_identity m then identity__map_ip m ip else map__map_ip m ip.

(** [struct addr_filter]; [af_filename] is [None] for the kernel. *)
Record addr_filter := mkFilter {
  af_start : bool;
  af_addr : Z;
  af_size : Z;
  af_filename : option string
}.

Record intel_pt := mkPt {
  pt_machine : Z;
  pt_unknown_thread : Z;
  pt_kernel_start : Z;
  pt_have_guest_sideband : bool;
  pt_filts : list addr_filter
}.

Record intel_pt_queue := mkPtq {
  ptq_to_nr : bool; (* [ptq->state->to_nr] *)
  ptq_pid : Z;
  ptq_thread : option Z;
  ptq_guest_machine : option Z;
  ptq_guest_thread : option Z;
  ptq_unknown_guest_thread : option Z;
  ptq_guest_machine_pid : Z
}.

(** ** The rest of perf

    What the functions ask of the maps of threads, the files behind them and
    the guest machines, none of which a walk changes. *)
Class PerfEnv := {
  thread__find_map : forall (thread cpumode ip : Z), option map;
  dso__is_64_bit : Z -> bool;
  dso__long_name : Z -> string;
  dso__data_size : forall dso machine : Z, Z;
  (* [data.status == DSO_DATA_STATUS_ERROR] *)
  dso__status_error : Z -> bool;
  (* The return value and the buffer. *)
  dso__data_read_offset : forall dso machine offset size : Z, Z * list byte;
  machine_pid : Z -> Z;
  machines__find_guest : Z -> option Z;
  machines__findnew_guest_code : Z -> option Z;
  machine__idle_thread : Z -> option Z;
  symbol_conf_guest_code : bool;
  (* The perf configuration variable intel-pt.cache-divisor; 0 if not set. *)
  config_cache_divisor : Z
}.

Section session.
Context `{PerfEnv} (pt : intel_pt).

(** ** Machine and thread of an address *)

Definition PERF_RECORD_MISC_KERNEL : Z := 1 .<< 0.
Definition PERF_RECORD_MISC_USER : Z := 2 .<< 0.
Definition PERF_RECORD_MISC_GUEST_KERNEL : Z := 4 .<< 0.
Definition PERF_RECORD_MISC_GUEST_USER : Z := 5 .<< 0.
Definition DEFAULT_GUEST_KERNEL_ID : Z := 0.

Definition intel_pt_guest_kernel_ip (ip : Z) : bool := negb (ip .& (1 .<< 63) =? 0).

Definition intel_pt_nr_cpumode (ip : Z) (nr : bool) : Z :=
  if nr then
    if intel_pt_guest_kernel_ip ip then PERF_RECORD_MISC_GUEST_KERNEL else PERF_RECORD_MISC_GUEST_USER
  else if pt_kernel_start pt <=? ip then PERF_RECORD_MISC_KERNEL else PERF_RECORD_MISC_USER.

Definition intel_pt_cpumode (from_nr to_nr : bool) (from_ip to_ip : Z) : Z :=
  if negb (from_ip =? 0) then intel_pt_nr_cpumode from_ip from_nr
  else intel_pt_nr_cpumode to_ip to_nr.

(** The return value and the queue. *)
Definition intel_pt_get_guest (ptq : intel_pt_queue) : Z * intel_pt_queue :=
  let pid := if ptq_pid ptq <=? 0 then DEFAULT_GUEST_KERNEL_ID else ptq_pid ptq in
  if match ptq_guest_machine ptq with Some m => pid =? machine_pid m | None => false end then (0, ptq)
  else
    let guest_thread :=
      if symbol_conf_guest_code then machines__findnew_guest_code pid else ptq_guest_thread ptq in
    let set (machine unknown : option Z) :=
      mkPtq (ptq_to_nr ptq) (ptq_pid ptq) (ptq_thread ptq) machine guest_thread unknown
        (ptq_guest_machine_pid ptq) in
    match machines__find_guest pid with
    | None => (-1, set None None)
    | Some machine =>
      match machine__idle_thread machine with
      | None => (-1, set None None)
      | Some idle => (0, set (Some machine) (Some idle))
      end
    end.

(** [cpumode], [machine] and [thread] at the start of
    [intel_pt_walk_next_insn], and of [intel_pt_parse_ip]; or an error.  (The
    machine and its idle thread are there whenever [intel_pt_get_guest] or the
    side band has set the machine; the code does not test them again.) *)
Definition find_thread (ptq : intel_pt_queue) (ip : Z) : (Z + Z * Z * Z) * intel_pt_queue :=
  let nr := ptq_to_nr ptq in
  let cpumode := intel_pt_nr_cpumode ip nr in
  if nr then
    let '(no_guest, ptq) :=
      if pt_have_guest_sideband pt then
        (match ptq_guest_machine ptq with
         | Some _ => negb (ptq_guest_machine_pid ptq =? ptq_pid ptq)
         | None => true
         end, ptq)
      else if negb symbol_conf_guest_code && negb (cpumode =? PERF_RECORD_MISC_GUEST_KERNEL) then
        (true, ptq)
      else let '(r, ptq) := intel_pt_get_guest ptq in (negb (r =? 0), ptq) in
    match no_guest, ptq_guest_machine ptq with
    | false, Some machine =>
      match ptq_guest_thread ptq with
      | Some thread => (inr (cpumode, machine, thread), ptq)
      | None =>
        if negb (cpumode =? PERF_RECORD_MISC_GUEST_KERNEL) then (inl (- EINVAL), ptq)
        else
          match ptq_unknown_guest_thread ptq with
          | Some thread => (inr (cpumode, machine, thread), ptq)
          | None => (inl (- EINVAL), ptq)
          end
      end
    | _, _ => (inl (- EINVAL), ptq)
    end
  else
    match ptq_thread ptq with
    | Some thread => (inr (cpumode, pt_machine pt, thread), ptq)
    | None =>
      if negb (cpumode =? PERF_RECORD_MISC_KERNEL) then (inl (- EINVAL), ptq)
      else (inr (cpumode, pt_machine pt, pt_unknown_thread pt), ptq)
    end.

(** ** Filter regions *)

Definition same_file (filename : option string) (filt : addr_filter) : bool :=
  match filename, af_filename filt with
  | Some a, Some b => String.eqb a b
  | None, None => true
  | _, _ => false
  end.

(** [have_filter], [hit_tracestop] and [hit_filter] over the list of filters. *)
Fixpoint match_filters (filts : list addr_filter) (offset : Z) (filename : option string)
    (have_filter hit_tracestop hit_filter : bool) : bool * bool * bool :=
  match filts with
  | [] => (have_filter, hit_tracestop, hit_filter)
  | filt :: filts =>
    let have_filter := have_filter || af_start filt in
    if negb (same_file filename filt) then
      match_filters filts offset filename have_filter hit_tracestop hit_filter
    else if negb ((af_addr filt <=? offset) && (offset <? u64 (af_addr filt + af_size filt))) then
      match_filters filts offset filename have_filter hit_tracestop hit_filter
    else if af_start filt then match_filters filts offset filename have_filter hit_tracestop true
    else match_filters filts offset filename have_filter true hit_filter
  end.

Definition intel_pt_match_pgd_ip (offset : Z) (filename : option string) : bool :=
  let '(have_filter, hit_tracestop, hit_filter) :=
    match_filters (pt_filts pt) offset filename false false false in
  hit_tracestop || (have_filter && negb hit_filter).

Definition __intel_pt_pgd_ip (ptq : intel_pt_queue) (ip : Z) : Z :=
  if ptq_to_nr ptq then
    if intel_pt_guest_kernel_ip ip then Z.b2z (intel_pt_match_pgd_ip ip None) else - EINVAL
  else if pt_kernel_start pt <=? ip then Z.b2z (intel_pt_match_pgd_ip ip None)
  else
    match ptq_thread ptq with
    | None => - EINVAL
    | Some thread =>
      match thread__find_map thread PERF_RECORD_MISC_USER ip with
      | None => - EINVAL
      | Some m =>
        match map_dso m with
        | None => - EINVAL
        | Some dso => Z.b2z (intel_pt_match_pgd_ip (map_ip m ip) (Some (dso__long_name dso)))
        end
      end
    end.

Definition intel_pt_pgd_ip (ptq : intel_pt_queue) (ip : Z) : bool := 0 <? __intel_pt_pgd_ip ptq ip.
End session.
