(* ===== verification/PtCode.v ===== *)
(** Walking the code of a process: the callback [intel_pt_walk_next_insn] of
    tools/perf/util/intel-pt.c, its cache of walks for each DSO, and the
    invalidation of the cache when the kernel changes its own code. *)
From Stdlib Require Import ZArith Lia List Bool String.
From stdpp Require Import gmap.
From S2P Require Import Prelude Float64 PktDecoder PtStack PtState PtReader InsnAttr InsnDecoder PtInsn AuxCache PtSession.
Open Scope Z_scope.
Open Scope c_scope.
Import ListNotations.

(** ** Data *)

(** [struct intel_pt_cache_entry] but for its key. *)
Record intel_pt_cache_entry := mkEntry {
  ce_insn_cnt : Z;
  ce_byte_cnt : Z;
  ce_op : intel_pt_insn_op;
  ce_branch : intel_pt_insn_branch;
  ce_emulated_ptwrite : bool;
  ce_length : Z;
  ce_rel : Z;
  ce_insn : list byte
}.
Notation pt_cache := (auxtrace_cache intel_pt_cache_entry).

(** What the functions below change: the queue, [dso->auxtrace_cache] of each
    DSO, the DSOs whose bit [DSO_DATA_STATUS_SEEN_ITRACE] is set, and the
    outcomes of the allocations to come. *)
Record code_state := mkCode {
  cs_ptq : intel_pt_queue;
  cs_caches : gmap Z pt_cache;
  cs_seen : list Z;
  cs_allocs : nat -> bool
}.
#[export] Instance eta_code_state : Eta code_state :=
  fun s => mkCode (cs_ptq s) (cs_caches s) (cs_seen s) (cs_allocs s).
#[export] Instance set_cs_ptq : Setter cs_ptq := ltac:(solve_setter).
#[export] Instance set_cs_caches : Setter cs_caches := ltac:(solve_setter).
#[export] Instance set_cs_seen : Setter cs_seen := ltac:(solve_setter).
#[export] Instance set_cs_allocs : Setter cs_allocs := ltac:(solve_setter).

(** Computations on that state. *)
Definition W (A : Type) : Type := code_state -> outcome (A * code_state).
#[export] Instance W_ret : MRet W := fun A a s => Ret (a, s).
#[export] Instance W_bind : MBind W := fun A B k m s =>
  match m s with
  | Ret (a, s) => k a s
  | Fault => Fault
  | OutOfFuel => OutOfFuel
  end.
Definition wget : W code_state := fun s => Ret (s, s).
Definition wmodify (f : code_state -> code_state) : W unit := fun s => Ret (tt, f s).
Definition wlift {A} (o : option A) : W A := fun s =>
  match o with Some a => Ret (a, s) | None => Fault end.
Definition wout {A} (o : outcome A) : W A := fun s =>
  match o with Ret a => Ret (a, s) | Fault => Fault | OutOfFuel => OutOfFuel end.

Definition next_alloc : W bool := fun s =>
  Ret (cs_allocs s 0%nat, s <| cs_allocs := fun n => cs_allocs s (S n) |>).

Section code.
Context `{PerfEnv} `{InatTables} `{Fuel} (config_x86_64 : bool) (pt : intel_pt).

(** ** The cache of walks *)

Definition intel_pt_cache_divisor : Z :=
  if negb (config_cache_divisor =? 0) then config_cache_divisor else 64.

(** [32 - __builtin_clz(size)] is the number of bits of [size]. *)
Definition intel_pt_cache_size (dso machine : Z) : Z :=
  let size := Z.quot (dso__data_size dso machine) intel_pt_cache_divisor in
  if size <? 1000 then 10
  else if 1 .<< 21 <? size then 21
  else Z.log2 size + 1.

(** [None] is a cache that could not be made. *)
Definition intel_pt_cache (dso machine : Z) : W (option pt_cache) :=
  s ← wget;
  match cs_caches s !! dso with
  | Some c => mret (Some c)
  | None =>
    alloc ← next_alloc;
    match auxtrace_cache__new alloc (intel_pt_cache_size dso machine) 200 with
    | Some c => wmodify (fun s => s <| cs_caches ::= <[dso := c]> |>) ;; mret (Some c)
    | None => mret None
    end
  end.

Definition intel_pt_cache_add (dso machine offset insn_cnt byte_cnt : Z) (insn : intel_pt_insn) : W Z :=
  c ← intel_pt_cache dso machine;
  match c with
  | None => mret (- ENOMEM)
  | Some c =>
    alloc ← next_alloc;
    if negb alloc then mret (- ENOMEM)
    else
      let e := mkEntry insn_cnt byte_cnt (insn_op insn) (insn_branch insn) (insn_emulated_ptwrite insn)
                 (insn_length insn) (insn_rel insn) (take (Z.to_nat INTEL_PT_INSN_BUF_SZ) (insn_buf insn)) in
      c ← wlift (auxtrace_cache__add c offset e);
      wmodify (fun s => s <| cs_caches ::= <[dso := c]> |>) ;;
      mret 0
  end.

Definition intel_pt_cache_lookup (dso machine offset : Z) : W (option intel_pt_cache_entry) :=
  c ← intel_pt_cache dso machine;
  match c with
  | None => mret None
  | Some c => wlift (auxtrace_cache__lookup c offset)
  end.

Definition intel_pt_cache_invalidate (dso machine offset : Z) : W unit :=
  c ← intel_pt_cache dso machine;
  match c with
  | None => mret tt
  | Some c =>
    c ← wlift (auxtrace_cache__remove c offset);
    wmodify (fun s => s <| cs_caches ::= <[dso := c]> |>)
  end.

(** ** The walk *)

Definition intel_pt_jmp_16 (insn : intel_pt_insn) : bool :=
  (insn_rel insn =? 16) && bool_decide (insn_branch insn = INTEL_PT_BR_UNCONDITIONAL).

(** "\x0f\x0bperf,ptwrite  " *)
Definition PTWRITE_MAGIC : list byte :=
  [x0f; x0b; x70; x65; x72; x66; x2c; x70; x74; x77; x72; x69; x74; x65; x20; x20].
Definition PTWRITE_MAGIC_LEN : Z := 16.

Definition intel_pt_emulated_ptwrite (dso machine offset : Z) : bool :=
  let '(len, buf) := dso__data_read_offset dso machine offset PTWRITE_MAGIC_LEN in
  (len =? PTWRITE_MAGIC_LEN) && bool_decide (take (Z.to_nat PTWRITE_MAGIC_LEN) buf = PTWRITE_MAGIC).

Definition set_length (insn : intel_pt_insn) (length : Z) : intel_pt_insn :=
  mkInsn (insn_op insn) (insn_branch insn) (insn_emulated_ptwrite insn) length (insn_rel insn)
    (insn_buf insn).
Definition set_emulated_ptwrite (insn : intel_pt_insn) (eptw : bool) : intel_pt_insn :=
  mkInsn (insn_op insn) (insn_branch insn) eptw (insn_length insn) (insn_rel insn) (insn_buf insn).

(** How the inner loop ends: an error; a branch, [goto out]; [goto
    out_no_cache]; or the end of the map.  Each with the instruction, [insn_cnt]
    and [*ip]. *)
Inductive block_end :=
| BlockErr | BlockBranch | BlockStop | BlockNextMap.

Fixpoint block_loop (fuel : nat) (m : map) (dso machine : Z) (x86_64 : bool) (max_insn_cnt to_ip : Z)
    (offset ip insn_cnt : Z) (insn : intel_pt_insn) : outcome (block_end * intel_pt_insn * Z * Z) :=
  match fuel with
  | O => OutOfFuel
  | S fuel' =>
    let '(len, buf) := dso__data_read_offset dso machine offset INTEL_PT_INSN_BUF_SZ in
    if len <=? 0 then Ret (BlockErr, insn, insn_cnt, ip)
    else
      match intel_pt_get_insn config_x86_64 buf len x86_64 insn with
      | None => Fault
      | Some (ret, insn) =>
        if negb (ret =? 0) then Ret (BlockErr, insn, insn_cnt, ip)
        else
          let insn_cnt := u64 (insn_cnt + 1) in
          if negb (bool_decide (insn_branch insn = INTEL_PT_BR_NO_BRANCH)) then
            if negb (intel_pt_jmp_16 insn) then Ret (BlockBranch, insn, insn_cnt, ip)
            else
              let eptw := intel_pt_emulated_ptwrite dso machine (u64 (offset + insn_length insn)) in
              Ret (BlockBranch, set_emulated_ptwrite insn eptw, insn_cnt, ip)
          else if negb (max_insn_cnt =? 0) && (max_insn_cnt <=? insn_cnt) then
            Ret (BlockStop, insn, insn_cnt, ip)
          else
            let ip := u64 (ip + insn_length insn) in
            if negb (to_ip =? 0) && (ip =? to_ip) then
              Ret (BlockStop, set_length insn 0, insn_cnt, ip)
            else if map_end m <=? ip then Ret (BlockNextMap, insn, insn_cnt, ip)
            else
              block_loop fuel' m dso machine x86_64 max_insn_cnt to_ip
                (u64 (offset + insn_length insn)) ip insn_cnt insn
      end
  end.

(** The instruction of an entry. *)
Definition insn_of_entry (e : intel_pt_cache_entry) : intel_pt_insn :=
  mkInsn (ce_op e) (ce_branch e) (ce_emulated_ptwrite e) (ce_length e) (ce_rel e) (ce_insn e).

(** [dso->data.status == DSO_DATA_STATUS_ERROR && dso__data_status_seen(...)] *)
Definition status_error_seen (dso : Z) : W bool :=
  if dso__status_error dso then
    s ← wget;
    if bool_decide (dso ∈ cs_seen s) then mret true
    else wmodify (fun s => s <| cs_seen ::= cons dso |>) ;; mret false
  else mret false.

(** The entry the walk can use, if any. *)
Definition usable_entry (dso machine offset max_insn_cnt to_ip : Z) (one_map : bool)
    : W (option intel_pt_cache_entry) :=
  if (to_ip =? 0) && one_map then
    e ← intel_pt_cache_lookup dso machine offset;
    match e with
    | Some e =>
      if (max_insn_cnt =? 0) || (ce_insn_cnt e <=? max_insn_cnt) then mret (Some e) else mret None
    | None => mret None
    end
  else mret None.

(** [out:], where the walk came to a branch. *)
Definition cache_walk (dso machine start_offset byte_cnt to_ip insn_cnt : Z) (insn : intel_pt_insn)
    : W unit :=
  found ← (if negb (to_ip =? 0) then intel_pt_cache_lookup dso machine start_offset else mret None);
  match found with
  | Some _ => mret tt
  | None => intel_pt_cache_add dso machine start_offset insn_cnt byte_cnt insn ;; mret tt
  end.

(** The outer loop: the return value, the instruction, [*insn_cnt_ptr] ([out]
    before it is set) and [*ip]. *)
Fixpoint map_loop (fuel' : nat) (thread machine cpumode max_insn_cnt to_ip : Z) (one_map : bool)
    (out ip insn_cnt : Z) (insn : intel_pt_insn) : W walk_result :=
  match fuel' with
  | O => wout OutOfFuel
  | S fuel' =>
    match thread__find_map thread cpumode ip with
    | None => mret (mkWalk (- EINVAL) insn out ip)
    | Some m =>
      match map_dso m with
      | None => mret (mkWalk (- EINVAL) insn out ip)
      | Some dso =>
        seen ← status_error_seen dso;
        if (seen : bool) then mret (mkWalk (- ENOENT) insn out ip)
        else
          let offset := map_ip m ip in
          hit ← usable_entry dso machine offset max_insn_cnt to_ip one_map;
          match hit with
          | Some e => mret (mkWalk 0 (insn_of_entry e) (ce_insn_cnt e) (u64 (ip + ce_byte_cnt e)))
          | None =>
            '(end_, insn, insn_cnt, ip') ← wout (block_loop fuel m dso machine (dso__is_64_bit dso)
                                             max_insn_cnt to_ip offset ip insn_cnt insn);
            match end_ with
            | BlockErr => mret (mkWalk (- EINVAL) insn out ip')
            | BlockBranch =>
              (if one_map then
                 cache_walk dso machine offset (u64 (ip' - ip)) to_ip insn_cnt insn
               else mret tt) ;;
              mret (mkWalk 0 insn insn_cnt ip')
            | BlockStop => mret (mkWalk 0 insn insn_cnt ip')
            | BlockNextMap =>
              map_loop fuel' thread machine cpumode max_insn_cnt to_ip false out ip' insn_cnt insn
            end
          end
      end
    end
  end.

(** [insn] and [out] are what the caller's structure and count hold. *)
Definition intel_pt_walk_next_insn (insn : intel_pt_insn) (out ip to_ip max_insn_cnt : Z)
    : W walk_result :=
  let insn := set_length insn 0 in
  if negb (to_ip =? 0) && (ip =? to_ip) then mret (mkWalk 0 insn 0 ip)
  else
    s ← wget;
    let '(r, ptq) := find_thread pt (cs_ptq s) ip in
    wmodify (fun s => s <| cs_ptq := ptq |>) ;;
    match r with
    | inl err => mret (mkWalk err insn out ip)
    | inr (cpumode, machine, thread) =>
      map_loop fuel thread machine cpumode max_insn_cnt to_ip true out ip 0 insn
    end.

(** ** Changes to the kernel's code *)

(** The map to use for [addr]; [al] is the last one. *)
Definition intel_pt_find_map (thread cpumode addr : Z) (al : option map) : option map :=
  match al with
  | Some m =>
    if (addr <? map_start m) || (map_end m <=? addr) then thread__find_map thread cpumode addr
    else Some m
  | None => thread__find_map thread cpumode addr
  end.

(** [for (; cnt; cnt--, addr--)]; [poke_addr] is [event->text_poke.addr]. *)
Fixpoint poke_loop (cnt : nat) (cpumode poke_addr addr : Z) (al : option map) : W unit :=
  match cnt with
  | O => mret tt
  | S cnt' =>
    let next al := poke_loop cnt' cpumode poke_addr (u64 (addr - 1)) al in
    match intel_pt_find_map (pt_unknown_thread pt) cpumode addr al with
    | None => if addr <? poke_addr then mret tt else next None
    | Some m =>
      s ← wget;
      match map_dso m with
      | Some dso =>
        match cs_caches s !! dso with
        | None => next (Some m)
        | Some _ =>
          let offset := map_ip m addr in
          e ← intel_pt_cache_lookup dso (pt_machine pt) offset;
          match e with
          | None => next (Some m)
          | Some e =>
            if u64 (u64 (addr + ce_byte_cnt e) + ce_length e) <=? poke_addr then
              if negb (bool_decide (ce_branch e = INTEL_PT_BR_NO_BRANCH)) then mret tt
              else next (Some m)
            else intel_pt_cache_invalidate dso (pt_machine pt) offset ;; next (Some m)
          end
        end
      | None => next (Some m)
      end
    end
  end.

Definition intel_pt_text_poke (cpumode addr new_len : Z) : W unit :=
  let last := u64 (addr + new_len - 1) in
  let cnt := 4096 + new_len in
  if new_len =? 0 then mret tt
  else poke_loop (Z.to_nat cnt) cpumode addr last None.
End code.
