(* ===== verification/PtCodeTheorems.v ===== *)
(** The cache of walks does not change what a walk finds. *)
From Stdlib Require Import ZArith Lia List Bool String.
From stdpp Require Import gmap.
From S2P Require Import Prelude Float64 PktDecoder PtStack PtState PtReader InsnAttr InsnDecoder PtInsn InsnSafe InsnExample InsnTheorems AuxCache PtSession PtCode.
Open Scope Z_scope.
Open Scope c_scope.
Import ListNotations.

(** ** The maps and files of a session *)

(** [thread__find_map] finds some DSO in the map. *)
Definition maps_dso `{PerfEnv} (m : map) (dso : Z) : Prop :=
  (exists thread cpumode ip, thread__find_map thread cpumode ip = Some m) /\ map_dso m = Some dso.
Definition in_map (m : map) (ip : Z) : Prop := map_start m <= ip < map_end m.

(** [top]: the end of the highest map. *)
Class CodeOk `{PerfEnv} (top : Z) : Prop := {
  (* The map found has the address. *)
  find_map_in : forall thread cpumode ip m, thread__find_map thread cpumode ip = Some m -> in_map m ip;
  maps_bounded : forall m dso, maps_dso m dso -> 0 <= map_start m /\ map_end m <= top;
  top_bounded : top + 16 <= 2 ^ 64;
  (* No more of a DSO is mapped than the 32 bits of a key can tell apart. *)
  keys_apart : forall m1 m2 dso ip1 ip2,
    maps_dso m1 dso -> maps_dso m2 dso -> in_map m1 ip1 -> in_map m2 ip2 ->
    u32 (map_ip m1 ip1) = u32 (map_ip m2 ip2) -> map_ip m1 ip1 = map_ip m2 ip2;
  (* All maps of a DSO that have some offset in it end at the same offset. *)
  same_end : forall m1 m2 dso ip1 ip2,
    maps_dso m1 dso -> maps_dso m2 dso -> in_map m1 ip1 -> in_map m2 ip2 ->
    map_ip m1 ip1 = map_ip m2 ip2 -> map_end m1 - ip1 = map_end m2 - ip2;
  (* A DSO belongs to one machine. *)
  one_machine : forall dso machine1 machine2,
    dso__data_read_offset dso machine1 = dso__data_read_offset dso machine2;
  read_fits : forall dso machine offset size, 0 <= size < 2 ^ 31 ->
    let '(len, buf) := dso__data_read_offset dso machine offset size in
    len <= size /\ len <= Z.of_nat (length buf);
  divisor_positive : 0 <= config_cache_divisor
}.

Definition insn_ok (insn : intel_pt_insn) : Prop := INTEL_PT_INSN_BUF_SZ <= Z.of_nat (length (insn_buf insn)).

Section code.
Context `{PerfEnv} `{InatTables} `{!TablesOk} `{Fuel} (config : bool) (top : Z) `{!CodeOk top}.
Notation block := (block_loop config).

(** ** Walks in one map *)

(** Any walk in a map ends: at a branch, or past the end of the map, or short
    of either. *)
Lemma block_total fuel : forall m dso machine x86 max to_ip offset ip cnt insn,
  maps_dso m dso -> in_map m ip -> map_end m - ip < Z.of_nat fuel -> insn_ok insn ->
  exists end_ insn' cnt' ip', block fuel m dso machine x86 max to_ip offset ip cnt insn =
    Ret (end_, insn', cnt', ip') /\ insn_ok insn' /\ ip <= ip' < 2 ^ 64 /\
    (end_ = BlockNextMap -> map_end m <= ip' /\ ip < ip').
Proof.
  induction fuel as [|fuel IH]; intros m dso machine x86 max to_ip offset ip cnt insn Hm Hip Hf Hi.
  { unfold in_map in Hip. lia. }
  pose proof (maps_bounded m dso Hm) as [Hs He]. pose proof top_bounded as Ht.
  cbn [block_loop]. pose proof (read_fits dso machine offset INTEL_PT_INSN_BUF_SZ ltac:(done)) as Hr.
  destruct (dso__data_read_offset _ _ _ _) as [len buf]. destruct Hr as [Hr1 Hr2].
  unfold INTEL_PT_INSN_BUF_SZ in Hr1. unfold in_map in Hip.
  destruct (Z.leb_spec len 0).
  { do 4 eexists. split; [reflexivity|]. split; [done|]. split; [lia|done]. }
  destruct (get_insn_cases config buf len x86 insn ltac:(lia) Hr2 Hi) as (ret & r & -> & Hbl & Hc).
  assert (insn_ok r) as Hr' by (unfold insn_ok; by rewrite Hbl).
  destruct Hc as [[-> ->]|(-> & Hn & _)]; cbn [Z.eqb negb].
  { do 4 eexists. split; [reflexivity|]. split; [done|]. split; [lia|done]. }
  unfold MAX_INSN_SIZE in Hn. destruct (negb (bool_decide _)).
  { destruct (negb _); (do 4 eexists; split; [reflexivity|]; split; [done|]; split; [lia|done]). }
  destruct (negb (max =? 0) && _).
  { do 4 eexists. split; [reflexivity|]. split; [done|]. split; [lia|done]. }
  rewrite (u64_small (ip + insn_length r)) by lia.
  destruct (negb (to_ip =? 0) && _).
  { do 4 eexists. split; [reflexivity|]. split; [done|]. split; [lia|done]. }
  destruct (Z.leb_spec (map_end m) (ip + insn_length r)).
  { do 4 eexists. split; [reflexivity|]. split; [done|]. split; [lia|]. intros _. lia. }
  destruct (IH m dso machine x86 max to_ip (u64 (offset + insn_length r)) (ip + insn_length r)
    (u64 (cnt + 1)) r) as (end_ & insn' & cnt' & ip' & E & Hi' & Hip' & Hnext);
    [done|unfold in_map; lia|lia|done|].
  exists end_, insn', cnt', ip'. split; [exact E|]. split; [done|]. split; [lia|].
  intros Hend. specialize (Hnext Hend). lia.
Qed.

(** A walk that comes to a branch comes to it from the same offset in another
    map of the DSO, whatever is asked of it, if not to stop sooner. *)
Lemma branch_transfer f1 : forall f2 m1 m2 dso machine1 machine2 x86 max1 max2 to1 offset ip1 ip2 cnt
    insn1 insn2 r1 n e1,
  maps_dso m1 dso -> maps_dso m2 dso -> in_map m1 ip1 -> in_map m2 ip2 ->
  map_end m1 - ip1 = map_end m2 - ip2 -> map_end m2 - ip2 < Z.of_nat f2 ->
  insn_ok insn1 -> insn_ok insn2 -> 0 <= cnt -> cnt + (map_end m1 - ip1) < 2 ^ 64 ->
  block f1 m1 dso machine1 x86 max1 to1 offset ip1 cnt insn1 = Ret (BlockBranch, r1, n, e1) ->
  cnt < n /\ ip1 <= e1 < map_end m1 /\ insn_ok r1 /\ 0 < insn_length r1 <= 15 /\
  ((max2 = 0 \/ n <= max2) ->
   exists r2, block f2 m2 dso machine2 x86 max2 0 offset ip2 cnt insn2 =
     Ret (BlockBranch, r2, n, ip2 + (e1 - ip1)) /\ same_insn r1 r2).
Proof.
  induction f1 as [|f1 IH]; intros f2 m1 m2 dso machine1 machine2 x86 max1 max2 to1 offset ip1 ip2 cnt
    insn1 insn2 r1 n e1 Hm1 Hm2 Hip1 Hip2 Hend Hf Hi1 Hi2 Hc Hcm E; [done|].
  destruct f2 as [|f2]; [unfold in_map in *; lia|]. cbn [block_loop] in E |- *.
  pose proof (maps_bounded m1 dso Hm1) as [Hs1 He1]. pose proof (maps_bounded m2 dso Hm2) as [Hs2 He2].
  pose proof top_bounded as Ht.
  rewrite (one_machine dso machine2 machine1).
  pose proof (read_fits dso machine1 offset INTEL_PT_INSN_BUF_SZ ltac:(done)) as Hr.
  destruct (dso__data_read_offset _ _ _ _) as [len buf]. destruct Hr as [Hr1 Hr2].
  unfold INTEL_PT_INSN_BUF_SZ in Hr1. unfold in_map in Hip1, Hip2.
  destruct (Z.leb_spec len 0); [done|].
  destruct (get_insn_old config buf len x86 insn1 insn2 ltac:(lia) Hr2 Hi1 Hi2)
    as (ret & a1 & a2 & Ea1 & -> & L1 & L2 & Hcase). rewrite Ea1 in E.
  destruct Hcase as [(-> & _)|(-> & Hsame & Hn & _)]; [done|]. cbn [Z.eqb negb] in E |- *.
  assert (insn_ok a1 /\ insn_ok a2) as [Ho1 Ho2] by (unfold insn_ok; rewrite L1, L2; by split).
  pose proof Hsame as (Sop & Sbr & Se & Slen & Srel & Sbuf).
  rewrite (u64_small (cnt + 1)) in E |- * by lia.
  assert (intel_pt_jmp_16 a2 = intel_pt_jmp_16 a1) as -> by (unfold intel_pt_jmp_16; by rewrite Srel, Sbr).
  rewrite <- Sbr, <- Slen.
  assert (intel_pt_emulated_ptwrite dso machine2 (u64 (offset + insn_length a1)) =
    intel_pt_emulated_ptwrite dso machine1 (u64 (offset + insn_length a1))) as ->
    by (unfold intel_pt_emulated_ptwrite; by rewrite (one_machine dso machine2 machine1)).
  destruct (negb (bool_decide (insn_branch a1 = _))) eqn:Hbr.
  { assert (n = cnt + 1 /\ e1 = ip1 /\ (r1 = a1 \/ exists b, r1 = set_emulated_ptwrite a1 b)) as (-> & -> & Hr1').
    { destruct (negb (intel_pt_jmp_16 a1)); injection E as <- <- <-; [by auto|].
      split; [done|]. split; [done|]. right. by eexists. }
    split; [lia|]. split; [lia|]. split; [by destruct Hr1' as [-> |[b ->]]|].
    split; [by destruct Hr1' as [-> |[b ->]]; cbn; lia|]. intros _.
    replace (ip2 + (ip1 - ip1)) with ip2 by lia.
    destruct (negb (intel_pt_jmp_16 a1)); injection E as <-; (eexists; split; [reflexivity|]); [done|].
    unfold same_insn. cbn. by rewrite Sop, Sbr, Srel, Sbuf, Slen. }
  destruct (negb (max1 =? 0) && _); [done|].
  rewrite (u64_small (ip1 + insn_length a1)) in E by lia.
  rewrite (u64_small (ip2 + insn_length a1)) by lia.
  destruct (negb (to1 =? 0) && _); [done|].
  destruct (Z.leb_spec (map_end m1) (ip1 + insn_length a1)); [done|].
  destruct (Z.leb_spec (map_end m2) (ip2 + insn_length a1)); [lia|].
  destruct (IH f2 m1 m2 dso machine1 machine2 x86 max1 max2 to1 (u64 (offset + insn_length a1))
    (ip1 + insn_length a1) (ip2 + insn_length a1) (cnt + 1) a1 a2 r1 n e1
    Hm1 Hm2 ltac:(unfold in_map; lia) ltac:(unfold in_map; lia) ltac:(lia) ltac:(lia) Ho1 Ho2
    ltac:(lia) ltac:(lia) E) as (Hn' & He' & Hok & Hlen & Hrest).
  split; [lia|]. split; [lia|]. split; [done|]. split; [done|]. intros Hmax. specialize (Hrest Hmax).
  destruct (Z.eqb_spec max2 0) as [->|]; cbn [negb andb].
  - replace (ip2 + (e1 - ip1)) with (ip2 + insn_length a1 + (e1 - (ip1 + insn_length a1))) by lia. done.
  - destruct (Z.leb_spec max2 (cnt + 1)); [lia|].
    replace (ip2 + (e1 - ip1)) with (ip2 + insn_length a1 + (e1 - (ip1 + insn_length a1))) by lia. done.
Qed.

(** A limit that is given is kept. *)
Lemma branch_max fuel' : forall m dso machine x86 max to_ip offset ip cnt insn r n e,
  max <> 0 -> 0 <= cnt < max -> max < 2 ^ 64 ->
  block fuel' m dso machine x86 max to_ip offset ip cnt insn = Ret (BlockBranch, r, n, e) -> n <= max.
Proof.
  induction fuel' as [|f IH]; intros m dso machine x86 max to_ip offset ip cnt insn r n e Hm0 Hc Hm E; [done|].
  cbn [block_loop] in E. destruct (dso__data_read_offset _ _ _ _) as [len buf].
  destruct (len <=? 0); [done|]. destruct (intel_pt_get_insn _ _ _ _ _) as [[ret r0]|]; [|done].
  destruct (negb (ret =? 0)); [done|]. rewrite (u64_small (cnt + 1)) in E by lia.
  destruct (negb (bool_decide _)).
  { destruct (negb _) in E; injection E as _ <- _; lia. }
  destruct (Z.eqb_spec max 0); [done|]. cbn [negb andb] in E.
  destruct (Z.leb_spec max (cnt + 1)); [done|].
  destruct (negb (to_ip =? 0) && _); [done|]. destruct (map_end m <=? _); [done|].
  eapply IH; [| | |exact E]; lia.
Qed.

(** ** Coherent caches *)

(** What a walk from an address comes to, without a cache. *)
Definition walked (m : map) (dso ip : Z) (e : intel_pt_cache_entry) : Prop :=
  exists f machine max to_ip old insn ip', insn_ok old /\
    block f m dso machine (dso__is_64_bit dso) max to_ip (map_ip m ip) ip 0 old =
      Ret (BlockBranch, insn, ce_insn_cnt e, ip') /\
    ce_byte_cnt e = ip' - ip /\ same_insn (insn_of_entry e) insn.

(** An entry holds for every address that has its key. *)
Definition entry_ok (dso key : Z) (e : intel_pt_cache_entry) : Prop :=
  INTEL_PT_INSN_BUF_SZ <= Z.of_nat (length (ce_insn e)) /\
  forall m ip, maps_dso m dso -> in_map m ip -> u32 (map_ip m ip) = key -> walked m dso ip e.

(** The entries of a cache: they hold, and no key has two. *)
Definition good_list (dso : Z) (l : list (Z * intel_pt_cache_entry)) : Prop :=
  Forall (fun '(key, e) => entry_ok dso key e) l /\ NoDup l.*1.

Definition coherent (s : code_state) : Prop :=
  forall dso c, cs_caches s !! dso = Some c -> exists l, represents c l /\ good_list dso l.

(** The cache of the DSO, if any, has no entry of the offset. *)
Definition absent (dso offset : Z) (s : code_state) : Prop :=
  forall c, cs_caches s !! dso = Some c -> auxtrace_cache__lookup c offset = Some None.

(** The parts of the state that the caches are not. *)
Definition same_rest (s s' : code_state) : Prop := cs_ptq s' = cs_ptq s /\ cs_seen s' = cs_seen s.

Lemma cache_size_range dso machine : 0 <= intel_pt_cache_size dso machine <= 32.
Proof.
  unfold intel_pt_cache_size. set (size := Z.quot _ _). change (1 .<< 21) with (2 ^ 21).
  destruct (Z.ltb_spec size 1000); [lia|]. destruct (Z.ltb_spec (2 ^ 21) size); [lia|].
  assert (Z.log2 size <= Z.log2 (2 ^ 21)) by (apply Z.log2_le_mono; lia).
  rewrite Z.log2_pow2 in * by lia. pose proof (Z.log2_nonneg size). lia.
Qed.

Lemma coherent_insert s dso c l :
  coherent s -> represents c l -> good_list dso l ->
  coherent (s <| cs_caches ::= <[dso := c]> |>).
Proof.
  intros Hs Hr Hl d c' Hd. rsimpl_in Hd. apply lookup_insert_Some in Hd as [[<- <-]|[_ Hd]].
  - by exists l.
  - by apply Hs.
Qed.

Lemma cache_coherent dso machine s : coherent s ->
  exists oc s', intel_pt_cache dso machine s = Ret (oc, s') /\ coherent s' /\ same_rest s s' /\
    match oc with
    | Some c => cs_caches s' !! dso = Some c /\ exists l, represents c l /\ good_list dso l
    | None => cs_caches s' !! dso = None
    end /\ (forall offset, absent dso offset s -> absent dso offset s').
Proof.
  intros Hs. unfold intel_pt_cache, mbind, W_bind, wget, next_alloc, wmodify.
  destruct (cs_caches s !! dso) as [c|] eqn:E.
  { exists (Some c), s. do 3 (split; [done|]). split; [|done]. split; [done|by apply Hs]. }
  destruct (auxtrace_cache__new _ _ _) as [c|] eqn:En.
  - pose proof (new_represents _ _ _ _ (cache_size_range dso machine) En) as Hr.
    assert (good_list dso []) as Hg by (split; constructor).
    eexists (Some c), _. split; [reflexivity|]. rsimpl. split; [by eapply coherent_insert|].
    split; [done|]. rewrite lookup_insert_eq. split; [split; [done|by exists []]|].
    intros offset _ c'. rsimpl. rewrite lookup_insert_eq. intros [= <-]. by apply (lookup_represents c []).
  - eexists None, _. split; [reflexivity|]. split; [done|]. split; [done|]. split; [done|].
    intros offset _ c. rsimpl. by rewrite E.
Qed.

Lemma find_entry_In key (l : list (Z * intel_pt_cache_entry)) :
  match find_entry key l with Some e => (key, e) ∈ l | None => key ∉ l.*1 end.
Proof.
  induction l as [|[k e] l IH]; [by apply not_elem_of_nil|]. cbn [find_entry fmap list_fmap fst].
  destruct (Z.eqb_spec k key) as [->|]; [by constructor|].
  destruct (find_entry key l); [by constructor|]. by intros [?|?]%elem_of_cons.
Qed.

Lemma lookup_coherent dso machine offset s : coherent s ->
  exists oe s', intel_pt_cache_lookup dso machine offset s = Ret (oe, s') /\ coherent s' /\
    same_rest s s' /\
    match oe with Some e => entry_ok dso (u32 offset) e | None => absent dso offset s' end.
Proof.
  intros Hs. destruct (cache_coherent dso machine s Hs) as (oc & s' & E & Hs' & Hsame & Hc & _).
  unfold intel_pt_cache_lookup, mbind, W_bind, wlift. rewrite E. destruct oc as [c|].
  - destruct Hc as (Ec & l & Hr & Hl & _). pose proof (lookup_represents c l offset Hr) as El. rewrite El.
    eexists _, s'. split; [reflexivity|]. split; [done|]. split; [done|].
    pose proof (find_entry_In (u32 offset) l) as Hin. destruct (find_entry (u32 offset) l) as [e|] eqn:Ef.
    + rewrite Forall_forall in Hl. apply list_elem_of_In in Hin. by specialize (Hl _ Hin).
    + intros c' Ec'. rewrite Ec in Ec'. injection Ec' as <-. exact El.
  - exists None, s'. do 3 (split; [done|]). intros c Ec. by rewrite Hc in Ec.
Qed.

Lemma add_coherent dso machine offset n bytes insn s :
  coherent s -> absent dso offset s ->
  entry_ok dso (u32 offset) (mkEntry n bytes (insn_op insn) (insn_branch insn) (insn_emulated_ptwrite insn)
    (insn_length insn) (insn_rel insn) (take (Z.to_nat INTEL_PT_INSN_BUF_SZ) (insn_buf insn))) ->
  exists r s', intel_pt_cache_add dso machine offset n bytes insn s = Ret (r, s') /\
    coherent s' /\ same_rest s s'.
Proof.
  intros Hs Hab He. destruct (cache_coherent dso machine s Hs) as (oc & s' & E & Hs' & [Hq Hn] & Hc & Hab').
  unfold intel_pt_cache_add, mbind, W_bind, next_alloc, wlift, wmodify. rewrite E.
  destruct oc as [c|]; [|by eexists _, s'].
  destruct (negb (cs_allocs s' 0%nat)); [by eexists _, _|].
  destruct Hc as (Ec & l & Hr & Hl & Hd).
  lazymatch type of He with entry_ok _ _ ?e =>
    destruct (add_represents c l offset e Hr) as (c' & l' & -> & Hr' & Hl') end.
  eexists _, _. split; [reflexivity|]. split; [|by split].
  eapply coherent_insert; [done|exact Hr'|].
  specialize (Hab' offset Hab c Ec). rewrite (lookup_represents c l offset Hr) in Hab'.
  injection Hab' as Hf. pose proof (find_entry_In (u32 offset) l) as Hin. rewrite Hf in Hin.
  destruct Hl' as [-> | ->]; (split; [by constructor|]); cbn; (constructor; [|done || constructor]);
    [done|by apply not_elem_of_nil].
Qed.

(** ** Walks over several maps *)

(** [s0] is [s] where no cache is and none can be made. *)
Definition no_cache (s s0 : code_state) : Prop :=
  same_rest s s0 /\ cs_caches s0 = ∅ /\ forall n, cs_allocs s0 n = false.

Lemma no_cache_none dso machine s s0 : no_cache s s0 ->
  exists s0', intel_pt_cache dso machine s0 = Ret (None, s0') /\ no_cache s s0'.
Proof.
  intros (Hr & Hc & Ha). unfold intel_pt_cache, mbind, W_bind, wget, next_alloc.
  rewrite Hc, lookup_empty, (Ha 0%nat). eexists. split; [reflexivity|].
  split; [exact Hr|]. split; [exact Hc|]. intros n. apply Ha.
Qed.

Lemma no_cache_usable dso machine offset max to_ip one_map s s0 : no_cache s s0 ->
  exists s0', usable_entry dso machine offset max to_ip one_map s0 = Ret (None, s0') /\ no_cache s s0'.
Proof.
  intros Hn. unfold usable_entry. destruct (_ && _); [|by eexists].
  destruct (no_cache_none dso machine s s0 Hn) as (s0' & E & Hn').
  unfold intel_pt_cache_lookup, mbind, W_bind. rewrite E. by eexists.
Qed.

Lemma no_cache_walk dso machine offset bytes to_ip n insn s s0 : no_cache s s0 ->
  exists s0', cache_walk dso machine offset bytes to_ip n insn s0 = Ret (tt, s0') /\ no_cache s s0'.
Proof.
  intros Hn. unfold cache_walk, intel_pt_cache_add, intel_pt_cache_lookup, mbind, W_bind.
  destruct (negb (to_ip =? 0)).
  - destruct (no_cache_none dso machine s s0 Hn) as (s1 & -> & Hn1). cbn [mret W_ret].
    destruct (no_cache_none dso machine s s1 Hn1) as (s2 & E2 & Hn2).
    unfold mret, W_ret. rewrite E2. by eexists.
  - destruct (no_cache_none dso machine s s0 Hn) as (s1 & E1 & Hn1).
    unfold mret, W_ret. rewrite E1. by eexists.
Qed.

Lemma no_cache_step s s' s0 : no_cache s s0 -> same_rest s s' -> no_cache s' s0.
Proof. intros ([Hq Hs] & Hn) [Hq' Hs']. split; [|done]. split; congruence. Qed.

(** The same result, but for what the buffer holds past the instruction. *)
Definition same_walk (w w0 : walk_result) : Prop :=
  w_err w = w_err w0 /\ w_insn_cnt w = w_insn_cnt w0 /\ w_ip w = w_ip w0 /\ same_insn (w_insn w) (w_insn w0).

(** Both runs of a walk return, with the same result. *)
Definition agree (m1 m2 : W walk_result) (s s0 : code_state) : Prop :=
  exists w s' w0 s0', m1 s = Ret (w, s') /\ m2 s0 = Ret (w0, s0') /\ same_walk w w0 /\
    coherent s' /\ no_cache s' s0'.

Lemma agree_ret w s s0 : coherent s -> no_cache s s0 -> agree (mret w) (mret w) s s0.
Proof. intros Hs Hn. exists w, s, w, s0. do 3 (split; [done|]). by split. Qed.

Lemma entry_of_walk m dso machine max to_ip ip old insn n ip' :
  maps_dso m dso -> in_map m ip -> insn_ok old ->
  block fuel m dso machine (dso__is_64_bit dso) max to_ip (map_ip m ip) ip 0 old =
    Ret (BlockBranch, insn, n, ip') ->
  entry_ok dso (u32 (map_ip m ip)) (mkEntry n (u64 (ip' - ip)) (insn_op insn) (insn_branch insn)
    (insn_emulated_ptwrite insn) (insn_length insn) (insn_rel insn)
    (take (Z.to_nat INTEL_PT_INSN_BUF_SZ) (insn_buf insn))).
Proof.
  intros Hm Hip Ho E. pose proof (maps_bounded m dso Hm) as [Hs He]. pose proof top_bounded as Ht.
  assert (forall m2 ip2 f2, maps_dso m2 dso -> in_map m2 ip2 -> map_end m - ip = map_end m2 - ip2 ->
    map_end m2 - ip2 < Z.of_nat f2 -> ip <= ip' < map_end m /\ insn_ok insn /\ 0 < insn_length insn <= 15 /\
    exists r2, block f2 m2 dso machine (dso__is_64_bit dso) 0 0 (map_ip m ip) ip2 0 old =
      Ret (BlockBranch, r2, n, ip2 + (ip' - ip)) /\ same_insn insn r2) as Htr.
  { intros m2 ip2 f2 Hm2 Hip2 Hend Hf. unfold in_map in Hip.
    destruct (branch_transfer fuel f2 m m2 dso machine machine (dso__is_64_bit dso) max 0 to_ip
      (map_ip m ip) ip ip2 0 old old insn n ip' Hm Hm2 Hip Hip2 Hend Hf Ho Ho
      ltac:(lia) ltac:(lia) E) as (_ & ? & ? & ? & Hr). by specialize (Hr (or_introl eq_refl)). }
  destruct (Htr m ip (S (Z.to_nat (map_end m - ip))) Hm Hip eq_refl ltac:(unfold in_map in Hip; lia))
    as (Hip' & Hok & Hlen & _).
  unfold insn_ok, INTEL_PT_INSN_BUF_SZ, in_map in *. rewrite u64_small by lia. split.
  - unfold INTEL_PT_INSN_BUF_SZ. cbn [ce_insn]. rewrite length_take. lia.
  - intros m2 ip2 Hm2 Hip2 Hk.
    pose proof (keys_apart m2 m dso ip2 ip Hm2 Hm Hip2 Hip Hk) as Eo.
    pose proof (same_end m m2 dso ip ip2 Hm Hm2 Hip Hip2 (eq_sym Eo)) as Hend.
    destruct (Htr m2 ip2 (S (Z.to_nat (map_end m2 - ip2))) Hm2 Hip2 Hend ltac:(lia))
      as (_ & _ & _ & r2 & E2 & Hsame).
    eexists _, machine, 0, 0, old, r2, _. split; [exact Ho|]. rewrite Eo. split; [exact E2|].
    cbn [ce_byte_cnt]. split; [lia|]. rewrite <- Hsame. unfold same_insn, insn_of_entry. cbn.
    rewrite take_take. by replace (_ `min` _)%nat with (Z.to_nat (insn_length insn)) by lia.
Qed.

(** A usable entry is what the walk would have come to. *)
Lemma entry_agrees m dso machine max ip e insn :
  maps_dso m dso -> in_map m ip -> map_end m - ip < Z.of_nat fuel -> insn_ok insn ->
  entry_ok dso (u32 (map_ip m ip)) e -> max = 0 \/ ce_insn_cnt e <= max ->
  exists r, block fuel m dso machine (dso__is_64_bit dso) max 0 (map_ip m ip) ip 0 insn =
    Ret (BlockBranch, r, ce_insn_cnt e, u64 (ip + ce_byte_cnt e)) /\ same_insn (insn_of_entry e) r.
Proof.
  intros Hm Hip Hf Hi [Hbuf He] Hmax.
  destruct (He m ip Hm Hip eq_refl) as (f & machine1 & max1 & to1 & old & r1 & ip' & Ho & E & Eb & Hsame).
  pose proof (maps_bounded m dso Hm) as [Hs Hend]. pose proof top_bounded as Ht.
  pose proof Hip as Hip'. unfold in_map in Hip'.
  destruct (branch_transfer f fuel m m dso machine1 machine (dso__is_64_bit dso) max1 max to1
    (map_ip m ip) ip ip 0 old insn r1 (ce_insn_cnt e) ip' Hm Hm Hip Hip eq_refl Hf Ho Hi
    ltac:(lia) ltac:(lia) E) as (_ & Hr & _ & _ & Hgo).
  destruct (Hgo Hmax) as (r & Er & Hs2). exists r. rewrite Eb, u64_small by lia. split; [exact Er|].
  by transitivity r1.
Qed.

Lemma usable_coherent dso machine offset max to_ip one_map s : coherent s ->
  exists oe s', usable_entry dso machine offset max to_ip one_map s = Ret (oe, s') /\ coherent s' /\
    same_rest s s' /\
    match oe with
    | Some e => to_ip = 0 /\ one_map = true /\ entry_ok dso (u32 offset) e /\
        (max = 0 \/ ce_insn_cnt e <= max)
    | None => to_ip = 0 -> one_map = true ->
        absent dso offset s' \/
        exists e, entry_ok dso (u32 offset) e /\ max <> 0 /\ max < ce_insn_cnt e
    end.
Proof.
  intros Hs. unfold usable_entry. destruct ((to_ip =? 0) && one_map) eqn:E.
  2: { exists None, s. do 3 (split; [done|]). intros -> ->. done. }
  apply andb_true_iff in E as [Et Eo]. apply Z.eqb_eq in Et.
  destruct (lookup_coherent dso machine offset s Hs) as (oe & s' & El & Hs' & Hr & He).
  unfold mbind, W_bind. rewrite El. destruct oe as [e|].
  2: { exists None, s'. do 3 (split; [done|]). by left. }
  destruct (Z.eqb_spec max 0); cbn [orb].
  { exists (Some e), s'. do 6 (split; [done|]). by left. }
  destruct (Z.leb_spec (ce_insn_cnt e) max).
  { exists (Some e), s'. do 6 (split; [done|]). by right. }
  exists None, s'. do 3 (split; [done|]). right. by exists e.
Qed.

Lemma cache_walk_coherent dso machine offset bytes to_ip n insn s :
  coherent s -> (to_ip = 0 -> absent dso offset s) ->
  entry_ok dso (u32 offset) (mkEntry n bytes (insn_op insn) (insn_branch insn) (insn_emulated_ptwrite insn)
    (insn_length insn) (insn_rel insn) (take (Z.to_nat INTEL_PT_INSN_BUF_SZ) (insn_buf insn))) ->
  exists s', cache_walk dso machine offset bytes to_ip n insn s = Ret (tt, s') /\ coherent s' /\ same_rest s s'.
Proof.
  intros Hs Hab He. unfold cache_walk.
  assert (exists oe s', (if negb (to_ip =? 0) then intel_pt_cache_lookup dso machine offset else mret None) s
    = Ret (oe, s') /\ coherent s' /\ same_rest s s' /\ (oe = None -> absent dso offset s'))
    as (oe & s1 & E1 & Hs1 & Hr1 & Hab1).
  { destruct (Z.eqb_spec to_ip 0); cbn [negb]; [exists None, s; by split; [|split; [|split; [|intros _; apply Hab]]]|].
    destruct (lookup_coherent dso machine offset s Hs) as (oe & s' & ? & ? & ? & Ho).
    exists oe, s'. do 3 (split; [done|]). by intros ->. }
  unfold mbind, W_bind. rewrite E1. destruct oe; [by eexists|].
  destruct (add_coherent dso machine offset n bytes insn s1 Hs1 (Hab1 eq_refl) He) as (r & s2 & -> & Hs2 & Hr2).
  eexists. split; [reflexivity|]. split; [done|]. destruct Hr1, Hr2. split; congruence.
Qed.

Lemma status_agrees dso s s0 : coherent s -> no_cache s s0 ->
  exists b s' s0', status_error_seen dso s = Ret (b, s') /\ status_error_seen dso s0 = Ret (b, s0') /\
    coherent s' /\ no_cache s' s0'.
Proof.
  intros Hs Hn. pose proof Hn as ([Hq Hseen] & Hc & Ha). unfold status_error_seen, mbind, W_bind, wget.
  destruct (dso__status_error dso); [|by exists false, s, s0]. rewrite Hseen.
  destruct (bool_decide _); [by exists true, s, s0|].
  eexists false, _, _. split; [reflexivity|]. split; [reflexivity|]. split; [exact Hs|].
  split; [|by split]. split; [exact Hq|]. rsimpl. by rewrite Hseen.
Qed.

Lemma agree_bind {A} (m : W A) (k : A -> W walk_result) a s s1 s0 s01 :
  m s = Ret (a, s1) -> m s0 = Ret (a, s01) -> agree (k a) (k a) s1 s01 -> agree (m ≫= k) (m ≫= k) s s0.
Proof. unfold agree, mbind, W_bind. by intros -> ->. Qed.

(** An entry past the limit means that no branch is within it. *)
Lemma stale_entry m dso machine max to_ip ip old insn n ip' e :
  maps_dso m dso -> in_map m ip -> map_end m - ip < Z.of_nat fuel -> insn_ok old ->
  entry_ok dso (u32 (map_ip m ip)) e -> 0 < max < 2 ^ 64 -> max < ce_insn_cnt e ->
  block fuel m dso machine (dso__is_64_bit dso) max to_ip (map_ip m ip) ip 0 old <>
    Ret (BlockBranch, insn, n, ip').
Proof.
  intros Hm Hip Hf Ho He Hmax Hlt E.
  destruct (entry_agrees m dso machine 0 ip e old Hm Hip Hf Ho He (or_introl eq_refl)) as (r & Er & _).
  pose proof (maps_bounded m dso Hm) as [Hs Hend]. pose proof top_bounded as Ht.
  pose proof Hip as Hip'. unfold in_map in Hip'.
  destruct (branch_transfer fuel fuel m m dso machine machine (dso__is_64_bit dso) max 0 to_ip
    (map_ip m ip) ip ip 0 old old insn n ip' Hm Hm Hip Hip eq_refl Hf Ho Ho
    ltac:(lia) ltac:(lia) E) as (_ & _ & _ & _ & Hr).
  destruct (Hr (or_introl eq_refl)) as (r2 & Er2 & _). rewrite Er in Er2. injection Er2 as _ En _.
  assert (n <= max) by (eapply branch_max; [| | |exact E]; lia). lia.
Qed.

Lemma map_loop_agrees fuel' : forall thread machine cpumode max to_ip one_map out ip cnt insn s s0,
  Z.max 0 (top - ip) < Z.of_nat fuel' -> top - ip < Z.of_nat fuel -> (one_map = true -> cnt = 0) ->
  0 <= max < 2 ^ 64 -> insn_ok insn -> coherent s -> no_cache s s0 ->
  agree (map_loop config fuel' thread machine cpumode max to_ip one_map out ip cnt insn)
    (map_loop config fuel' thread machine cpumode max to_ip one_map out ip cnt insn) s s0.
Proof.
  induction fuel' as [|fuel' IH];
    intros thread machine cpumode max to_ip one_map out ip cnt insn s s0 Hf' Hf Hone Hmax Hi Hs Hn; [lia|].
  cbn [map_loop]. destruct (thread__find_map thread cpumode ip) as [m|] eqn:Em; [|by apply agree_ret].
  pose proof (find_map_in _ _ _ _ Em) as Hip.
  destruct (map_dso m) as [dso|] eqn:Ed; [|by apply agree_ret].
  assert (maps_dso m dso) as Hm by (split; [by do 3 eexists|done]).
  pose proof (maps_bounded m dso Hm) as [Hstart Hend]. pose proof Hip as Hip'. unfold in_map in Hip'.
  destruct (status_agrees dso s s0 Hs Hn) as (b & s1 & s01 & E1 & E01 & Hs1 & Hn1).
  eapply agree_bind; [exact E1|exact E01|]. destruct b; [by apply agree_ret|]. cbv zeta.
  destruct (usable_coherent dso machine (map_ip m ip) max to_ip one_map s1 Hs1)
    as (oe & s2 & E2 & Hs2 & Hr2 & He).
  destruct (no_cache_usable dso machine (map_ip m ip) max to_ip one_map s1 s01 Hn1) as (s02 & E02 & Hn2).
  apply (no_cache_step _ s2) in Hn2; [|done].
  assert (map_end m - ip < Z.of_nat fuel) as Hroom by lia.
  destruct (block_total fuel m dso machine (dso__is_64_bit dso) max to_ip (map_ip m ip) ip cnt insn Hm Hip
    Hroom Hi) as (end_ & insn' & cnt' & ip' & Eb & Hi' & Hip2 & Hnext).
  unfold agree, mbind, W_bind. rewrite E2, E02, Eb. cbn [wout]. destruct oe as [e|].
  - destruct He as (-> & -> & He & Hle). specialize (Hone eq_refl) as ->.
    destruct (entry_agrees m dso machine max ip e insn Hm Hip Hroom Hi He Hle) as (r & Er & Hsame).
    rewrite Er in Eb. injection Eb as <- <- <- <-.
    destruct (no_cache_walk dso machine (map_ip m ip) (u64 (u64 (ip + ce_byte_cnt e) - ip)) 0 (ce_insn_cnt e) r
      s2 s02 Hn2) as (s03 & E03 & Hn3). rewrite E03.
    do 4 eexists. split; [reflexivity|]. split; [reflexivity|]. split; [|by split].
    by split; [|split; [|split]].
  - destruct end_.
    + by apply agree_ret.
    + destruct one_map; [|by apply agree_ret]. specialize (Hone eq_refl) as ->.
      destruct (cache_walk_coherent dso machine (map_ip m ip) (u64 (ip' - ip)) to_ip cnt' insn' s2 Hs2)
        as (s3 & E3 & Hs3 & Hr3); [|exact (entry_of_walk m dso machine max to_ip ip insn insn' cnt' ip' Hm Hip Hi Eb)|].
      { intros Et. destruct (He Et eq_refl) as [?|(e & Hok & H0max & Hgt)]; [done|exfalso].
        refine (stale_entry m dso machine max to_ip ip insn insn' cnt' ip' e Hm Hip Hroom Hi Hok _ Hgt Eb). lia. }
      destruct (no_cache_walk dso machine (map_ip m ip) (u64 (ip' - ip)) to_ip cnt' insn' s2 s02 Hn2)
        as (s03 & E03 & Hn3). rewrite E3, E03. apply agree_ret; [done|]. by eapply no_cache_step.
    + by apply agree_ret.
    + specialize (Hnext eq_refl). by apply IH; [lia|lia| | | | |].
Qed.

(** A walk, with the cache and without. *)
Lemma walk_agrees pt insn out ip to_ip max s s0 :
  Z.max 0 (top - ip) < Z.of_nat fuel -> 0 <= max < 2 ^ 64 -> insn_ok insn -> coherent s -> no_cache s s0 ->
  agree (intel_pt_walk_next_insn config pt insn out ip to_ip max)
    (intel_pt_walk_next_insn config pt insn out ip to_ip max) s s0.
Proof.
  intros Hf Hmax Hi Hs Hn. unfold intel_pt_walk_next_insn. destruct (_ && _); [by apply agree_ret|].
  pose proof Hn as ([Hq Hseen] & Hc & Ha).
  unfold agree, mbind, W_bind, wget, wmodify. rewrite Hq.
  destruct (find_thread pt (cs_ptq s) ip) as [r ptq].
  set (s1 := s <| cs_ptq := ptq |>). set (s01 := s0 <| cs_ptq := ptq |>).
  assert (coherent s1) as Hs1 by exact Hs.
  assert (no_cache s1 s01) as Hn1 by (split; [by split|by split]).
  destruct r as [err|[[cpumode machine] thread]]; [by apply agree_ret|].
  apply map_loop_agrees; [lia|lia|done|done|exact Hi|done|done].
Qed.
End code.

(** ** Sequences of walks *)

Section walks.
Context `{PerfEnv} `{InatTables} `{!TablesOk} `{Fuel} (config : bool) (top : Z) `{!CodeOk top}.

(** The arguments of a call: the caller's structure and count, [*ip], [to_ip]
    and [max_insn_cnt]. *)
Record walk_request := mkRequest {
  rq_insn : intel_pt_insn;
  rq_out : Z;
  rq_ip : Z;
  rq_to_ip : Z;
  rq_max : Z
}.

Definition request_ok (rq : walk_request) : Prop :=
  Z.max 0 (top - rq_ip rq) < Z.of_nat fuel /\ 0 <= rq_max rq < 2 ^ 64 /\ insn_ok (rq_insn rq).

Fixpoint run_walks (pt : intel_pt) (rqs : list walk_request) : W (list walk_result) :=
  match rqs with
  | [] => mret []
  | rq :: rqs =>
    w ← intel_pt_walk_next_insn config pt (rq_insn rq) (rq_out rq) (rq_ip rq) (rq_to_ip rq) (rq_max rq);
    ws ← run_walks pt rqs;
    mret (w :: ws)
  end.

Lemma run_walks_agree pt rqs : forall s s0, Forall request_ok rqs -> coherent config s -> no_cache s s0 ->
  exists ws s' ws0 s0', run_walks pt rqs s = Ret (ws, s') /\ run_walks pt rqs s0 = Ret (ws0, s0') /\
    Forall2 same_walk ws ws0 /\ coherent config s' /\ no_cache s' s0'.
Proof.
  induction rqs as [|rq rqs IH]; intros s s0 Hrq Hs Hn; cbn [run_walks].
  { exists [], s, [], s0. split; [done|]. split; [done|]. split; [constructor|done]. }
  inversion Hrq as [|? ? (Hf & Hm & Hi) Hrest]; subst.
  destruct (walk_agrees config top pt (rq_insn rq) (rq_out rq) (rq_ip rq) (rq_to_ip rq) (rq_max rq) s s0
    Hf Hm Hi Hs Hn) as (w & s1 & w0 & s01 & E1 & E01 & Hsame & Hs1 & Hn1).
  destruct (IH s1 s01 Hrest Hs1 Hn1) as (ws & s2 & ws0 & s02 & E2 & E02 & Hsame2 & Hs2 & Hn2).
  unfold mbind, W_bind. rewrite E1, E01, E2, E02.
  do 4 eexists. split; [reflexivity|]. split; [reflexivity|]. split; [by constructor|done].
Qed.
End walks.

(** ** Changes to the kernel's code *)

Section poke.
Context `{PerfEnv} (pt : intel_pt) (m : map) (dso cpumode poke_addr : Z).

Definition entry_end (addr : Z) (e : intel_pt_cache_entry) : Z := addr + ce_byte_cnt e + ce_length e.
Definition key_at (addr : Z) : Z := u32 (map_ip m addr).

(** Of the entries for the addresses up to [hi], one from after [addr] that ends
    before the change, with a branch. *)
Definition branch_between (l : list (Z * intel_pt_cache_entry)) (addr hi : Z) : Prop :=
  exists b e, addr < b <= hi /\ find_entry (key_at b) l = Some e /\ entry_end b e <= poke_addr /\ ce_branch e <> INTEL_PT_BR_NO_BRANCH.

(** The entries from [lo] on, up to [hi], that reach past the start of the change,
    without such a branch after them. *)
Definition overlaps (l : list (Z * intel_pt_cache_entry)) (lo hi key : Z) (e : intel_pt_cache_entry) : Prop :=
  exists addr, lo <= addr <= hi /\ key_at addr = key /\ poke_addr < entry_end addr e /\ ~ branch_between l addr hi.

(** Addresses from [lo] to [hi] are in the map, what is known of them ends within
    64 bits, and no key is there twice. *)
Record window_ok (lo hi : Z) (l : list (Z * intel_pt_cache_entry)) : Prop := {
  wo_find : forall addr, lo <= addr <= hi ->
    thread__find_map (pt_unknown_thread pt) cpumode addr = Some m /\ in_map m addr;
  wo_small : 0 <= lo /\ hi < 2 ^ 64 /\ hi - lo < 2 ^ 32;
  wo_range : forall addr e, lo <= addr <= hi -> find_entry (key_at addr) l = Some e ->
    0 <= ce_byte_cnt e /\ 0 <= ce_length e /\ entry_end addr e < 2 ^ 64;
  wo_once : NoDup l.*1
}.

(** The addresses of a window have keys of their own. *)
Lemma window_keys lo hi l : window_ok lo hi l -> forall a b, lo <= a <= hi -> lo <= b <= hi -> key_at a = key_at b -> a = b.
Proof.
  intros Hw a b Ha Hb Hk. pose proof (wo_small _ _ _ Hw) as Hs.
  assert (exists d, forall x, key_at x = (x + d) mod 2 ^ 32) as [d Hd].
  { unfold key_at, map_ip, identity__map_ip, map__map_ip. destruct (map_identity m).
    - exists 0. intros x. rewrite wrap_mod by lia. by rewrite Z.add_0_r.
    - exists (map_pgoff m - map_start m). intros x. rewrite wrap_mod by lia. rewrite u64_add_l, u64_mod.
      rewrite Z.mod_mod_divide by (by exists (2 ^ 32)). f_equal. lia. }
  rewrite !Hd in Hk. pose proof (Z.div_mod (a + d) (2 ^ 32) ltac:(lia)). pose proof (Z.div_mod (b + d) (2 ^ 32) ltac:(lia)). nia.
Qed.

Lemma find_del k key (l : list (Z * intel_pt_cache_entry)) : NoDup l.*1 ->
  find_entry k (del_entry key l) = if k =? key then None else find_entry k l.
Proof.
  induction l as [|[k' e] l IH]; intros Hd; [by destruct (k =? key)|].
  cbn [fmap list_fmap fst] in Hd. inversion Hd as [|? ? Hn Hd']; subst. cbn [del_entry].
  destruct (Z.eqb_spec k' key) as [->|Hk].
  - cbn [find_entry]. destruct (Z.eqb_spec k key) as [->|Hkk].
    + pose proof (find_entry_In key l) as Hin. destruct (find_entry key l) as [e'|]; [|done].
      exfalso. apply Hn. apply list_elem_of_fmap. by exists (key, e').
    + destruct (Z.eqb_spec key k); [lia|done].
  - cbn [find_entry]. destruct (Z.eqb_spec k' k) as [->|].
    + by destruct (Z.eqb_spec k key).
    + by apply IH.
Qed.

Lemma del_nodup key (l : list (Z * intel_pt_cache_entry)) : NoDup l.*1 -> NoDup (del_entry key l).*1.
Proof.
  induction l as [|[k e] l IH]; intros Hd; [done|]. cbn [fmap list_fmap fst del_entry] in *.
  inversion Hd as [|? ? Hn Hd']; subst. destruct (k =? key); [done|]. cbn [fmap list_fmap fst].
  constructor; [|by apply IH]. intros Hin. apply Hn. clear -Hin.
  induction l as [|[k' e'] l IH]; [done|]. cbn [del_entry fmap list_fmap fst] in *.
  destruct (k' =? key); [by right|]. apply elem_of_cons in Hin as [->|Hin]; [by left|right; auto].
Qed.

Lemma window_del lo hi l key : window_ok lo hi l -> window_ok lo hi (del_entry key l).
Proof.
  intros [Hf Hs Hr Hd]. split; [exact Hf|exact Hs| |by apply del_nodup].
  intros addr e Ha. rewrite find_del by done. destruct (_ =? _); [done|]. by apply Hr.
Qed.

Lemma window_shrink lo hi hi' l : window_ok lo hi l -> hi' <= hi -> window_ok lo hi' l.
Proof.
  intros [Hf Hs Hr Hd] Hh. split; [|lia| |done].
  - intros addr Ha. apply Hf. lia.
  - intros addr e Ha. apply Hr. lia.
Qed.

(** What is left after a run over the addresses from [lo] to [hi]. *)
Definition poked (lo hi : Z) (l : list (Z * intel_pt_cache_entry)) (s s' : code_state) : Prop :=
  same_rest s s' /\ (forall d, d <> dso -> cs_caches s' !! d = cs_caches s !! d) /\
  exists c' l', cs_caches s' !! dso = Some c' /\ represents c' l' /\ NoDup l'.*1 /\
    forall key e, find_entry key l' = Some e <-> find_entry key l = Some e /\ ~ overlaps l lo hi key e.

Lemma lookup_present machine offset s c l : cs_caches s !! dso = Some c -> represents c l ->
  intel_pt_cache_lookup dso machine offset s = Ret (find_entry (u32 offset) l, s).
Proof.
  intros Hc Hr. unfold intel_pt_cache_lookup, intel_pt_cache, mbind, W_bind, wget, wlift. rewrite Hc.
  unfold mret, W_ret. by rewrite (lookup_represents c l _ Hr).
Qed.

Lemma invalidate_present machine offset s c l : cs_caches s !! dso = Some c -> represents c l ->
  exists c', intel_pt_cache_invalidate dso machine offset s = Ret (tt, s <| cs_caches ::= <[dso := c']> |>) /\
    represents c' (del_entry (u32 offset) l).
Proof.
  intros Hc Hr. unfold intel_pt_cache_invalidate, intel_pt_cache, mbind, W_bind, wget, wlift, wmodify.
  rewrite Hc. unfold mret, W_ret. destruct (remove_represents c l offset Hr) as (c' & -> & Hr').
  by exists c'.
Qed.

Lemma poked_none lo hi l s c : cs_caches s !! dso = Some c -> represents c l -> NoDup l.*1 -> hi < lo ->
  poked lo hi l s s.
Proof.
  intros Hc Hr Hd Hlt. split; [done|]. split; [done|]. exists c, l. do 3 (split; [done|]).
  intros key e. split; [|by intros [? _]]. intros Hf. split; [done|]. intros (b & Hb & _). lia.
Qed.

(** One address further: there is nothing, or what there is ends before the change,
    without a branch. *)
Lemma poked_extend lo hi l s s' : poked lo (hi - 1) l s s' ->
  (forall e, find_entry (key_at hi) l = Some e -> entry_end hi e <= poke_addr /\ ce_branch e = INTEL_PT_BR_NO_BRANCH) -> poked lo hi l s s'.
Proof.
  intros (Hrest & Hother & c' & l' & Hc & Hr & Hd & Hiff) Hhi. split; [done|]. split; [done|].
  exists c', l'. do 3 (split; [done|]). intros key e. rewrite Hiff.
  assert (forall a, branch_between l a hi <-> branch_between l a (hi - 1)) as Hbb.
  { intros a. split; intros (b & eb & Hb & Hf & Hend & Hbr); exists b, eb; (split; [|done]); [|lia].
    destruct (Z.eq_dec b hi) as [->|]; [|lia]. by destruct (Hhi eb Hf). }
  split; intros [Hf Hno]; (split; [done|]); intros (b & Hb & Hk & Hov & Hn); apply Hno; exists b; rewrite Hbb in *.
  - destruct (Z.eq_dec b hi) as [->|]; [|split; [lia|done]]. subst key. destruct (Hhi e Hf). lia.
  - split; [lia|done].
Qed.

(** One address further, with an entry that is dropped. *)
Lemma poked_drop lo hi l s s2 s' e : window_ok lo hi l -> find_entry (key_at hi) l = Some e -> poke_addr < entry_end hi e -> lo <= hi ->
  same_rest s s2 -> (forall d, d <> dso -> cs_caches s2 !! d = cs_caches s !! d) ->
  poked lo (hi - 1) (del_entry (key_at hi) l) s2 s' -> poked lo hi l s s'.
Proof.
  intros Hw Ee Hov Hlh Hrest0 Hother0 (Hrest & Hother & c' & l' & Hc & Hr & Hd & Hiff). pose proof (window_keys _ _ _ Hw) as Hkeys.
  split; [destruct Hrest, Hrest0; split; congruence|]. split; [intros d Hne; by rewrite Hother, Hother0|].
  exists c', l'. do 3 (split; [done|]). intros key e'. rewrite Hiff, find_del by apply Hw.
  assert (forall a, lo <= a -> branch_between l a hi <-> branch_between (del_entry (key_at hi) l) a (hi - 1)) as Hbb.
  { intros a Ha. split; intros (b & eb & Hb & Hf & Hend & Hbr).
    - destruct (Z.eq_dec b hi) as [->|Hne]; [rewrite Ee in Hf; injection Hf as <-; lia|].
      exists b, eb. split; [lia|]. rewrite find_del by apply Hw. split; [|done].
      destruct (Z.eqb_spec (key_at b) (key_at hi)) as [Hk|]; [|done]. apply Hkeys in Hk; lia.
    - exists b, eb. split; [lia|]. rewrite find_del in Hf by apply Hw. by destruct (key_at b =? key_at hi). }
  destruct (Z.eqb_spec key (key_at hi)) as [->|Hk].
  - split; [by intros [? _]|]. intros [Hf Hno]. exfalso. apply Hno. exists hi. rewrite Ee in Hf. injection Hf as <-.
    split; [lia|]. split; [done|]. split; [done|]. intros (b & eb & Hb & _). lia.
  - split; intros [Hf Hno]; (split; [done|]); intros (b & Hbr & Hkb & Hovb & Hn); apply Hno; exists b; rewrite Hbb in * by lia.
    + destruct (Z.eq_dec b hi) as [->|]; [by subst key|]. split; [lia|done].
    + split; [lia|done].
Qed.

Lemma poke_loop_ok cnt : forall lo addr al s c l,
  map_dso m = Some dso -> al = None \/ al = Some m -> cs_caches s !! dso = Some c -> represents c l ->
  0 <= lo -> lo + Z.of_nat cnt = addr + 1 -> addr < 2 ^ 64 -> window_ok lo addr l ->
  exists s', poke_loop pt cnt cpumode poke_addr addr al s = Ret (tt, s') /\ poked lo addr l s s'.
Proof.
  induction cnt as [|cnt IH]; intros lo addr al s c l Hd Hal Hc Hr Hlo Hcnt Ha Hw.
  { exists s. split; [done|]. apply (poked_none _ _ _ _ c); [done|done|apply Hw|lia]. }
  cbn [poke_loop]. destruct (wo_find _ _ _ Hw addr ltac:(lia)) as [Hfind Hin].
  assert (intel_pt_find_map (pt_unknown_thread pt) cpumode addr al = Some m) as ->.
  { destruct Hal as [-> | ->]; [exact Hfind|]. cbn [intel_pt_find_map]. unfold in_map in Hin.
    destruct (Z.ltb_spec addr (map_start m)); [lia|].
    by destruct (Z.leb_spec (map_end m) addr); [lia|]. }
  unfold mbind, W_bind, wget. rewrite Hd, Hc, (lookup_present _ _ s c l Hc Hr). fold (key_at addr).
  assert (forall l2 c2 s2, cs_caches s2 !! dso = Some c2 -> represents c2 l2 -> window_ok lo addr l2 ->
    exists s', poke_loop pt cnt cpumode poke_addr (u64 (addr - 1)) (Some m) s2 = Ret (tt, s') /\
      poked lo (addr - 1) l2 s2 s') as Hnext.
  { intros l2 c2 s2 Hc2 Hr2 Hw2. destruct cnt as [|cnt'].
    - exists s2. split; [done|]. apply (poked_none _ _ _ _ c2); [done|done|apply Hw2|lia].
    - rewrite u64_small by lia. eapply (IH lo (addr - 1) (Some m) s2 c2 l2); try done; [by right|lia|lia|].
      eapply window_shrink; [exact Hw2|lia]. }
  destruct (find_entry (key_at addr) l) as [e|] eqn:Ee.
  2: { destruct (Hnext l c s Hc Hr Hw) as (s' & E & Hp). exists s'. split; [exact E|].
    apply (poked_extend _ _ _ _ _ Hp). intros e He. congruence. }
  destruct (wo_range _ _ _ Hw addr e ltac:(lia) Ee) as (Hb & Hl & Hend). unfold entry_end in Hend.
  rewrite (u64_small (addr + ce_byte_cnt e)), u64_small by lia. fold (entry_end addr e).
  destruct (Z.leb_spec (entry_end addr e) poke_addr) as [Hle|Hgt].
  { destruct (bool_decide_reflect (ce_branch e = INTEL_PT_BR_NO_BRANCH)) as [Hnb|Hbr]; cbn [negb].
    - destruct (Hnext l c s Hc Hr Hw) as (s' & E & Hp). exists s'. split; [exact E|].
      apply (poked_extend _ _ _ _ _ Hp). intros e' He. rewrite Ee in He. injection He as <-. done.
    - exists s. split; [done|]. split; [done|]. split; [done|]. exists c, l. split; [done|]. split; [done|]. split; [apply Hw|].
      intros key e'. split; [|by intros [? _]]. intros Hf. split; [done|]. intros (b & Hbr' & <- & Hov & Hn).
      destruct (Z.eq_dec b addr) as [->|]; [rewrite Ee in Hf; injection Hf as <-; lia|].
      apply Hn. exists addr, e. split; [lia|done]. }
  destruct (invalidate_present (pt_machine pt) (map_ip m addr) s c l Hc Hr) as (c' & -> & Hr').
  fold (key_at addr) in Hr'.
  set (s2 := s <| cs_caches ::= <[dso := c']> |>).
  destruct (Hnext (del_entry (key_at addr) l) c' s2) as (s' & E & Hp);
    [apply lookup_insert_eq|done|by apply window_del|].
  exists s'. split; [exact E|]. apply (poked_drop lo addr l s s2 s' e); try done; [lia|].
  intros d Hne. apply lookup_insert_ne. congruence.
Qed.
End poke.
