(* ===== verification/PtCodeClaims.v ===== *)
(** Walks of code: the theorems, and sessions of a few bytes of code for their
    witnesses. *)
From Stdlib Require Import ZArith Lia List Bool String.
From stdpp Require Import gmap.
From S2P Require Import Prelude Float64 PktDecoder PtStack PtState PtReader InsnAttr InsnDecoder PtInsn InsnSafe InsnExample InsnTheorems AuxCache PtSession PtCode PtCodeTheorems.
Open Scope Z_scope.
Open Scope c_scope.
Import ListNotations.

(** ** Sessions *)

(** A state before any walk. *)
Definition fresh_state (ptq : intel_pt_queue) (seen : list Z) (allocs : nat -> bool) : code_state :=
  mkCode ptq ∅ seen allocs.

(** DSO 1 is mapped by [maps], and holds [code] at the offsets from [base] on. *)
Definition find_in (maps : list map) (ip : Z) : option map :=
  List.find (fun m => (map_start m <=? ip) && (ip <? map_end m)) maps.

Definition read_code (base : Z) (code : list byte) (offset size : Z) : Z * list byte :=
  if (base <=? offset) && (offset <? base + Z.of_nat (List.length code)) then
    let bytes := take (Z.to_nat size) (drop (Z.to_nat (offset - base)) code) in
    (Z.of_nat (List.length bytes), bytes)
  else (0, []).

Definition session (maps : list map) (read : Z -> Z -> Z * list byte) : PerfEnv := {|
  thread__find_map := fun _ _ ip => find_in maps ip;
  dso__is_64_bit := fun _ => true;
  dso__long_name := fun _ => "a.out"%string;
  dso__data_size := fun _ _ => 65536;
  dso__status_error := fun _ => false;
  dso__data_read_offset := fun _ _ offset size => read offset size;
  machine_pid := fun _ => 0;
  machines__find_guest := fun _ => None;
  machines__findnew_guest_code := fun _ => None;
  machine__idle_thread := fun _ => None;
  symbol_conf_guest_code := false;
  config_cache_divisor := 0
|}.

(** Two blank opcodes and JZ rel8, at the end of a map. *)
Definition one_map : map := mkMap 0x10000 0x20000 0 false (Some 1).
Definition one_code : list byte := [x90; x90; x74; xfe] ++ replicate 60 xc2.
Definition one_session : PerfEnv := session [one_map] (read_code 0xffc0 one_code).

Lemma one_map_only (m : map) ip : find_in [one_map] ip = Some m -> m = one_map /\ in_map m ip.
Proof.
  unfold find_in. cbn [List.find]. destruct ((map_start one_map <=? ip) && (ip <? map_end one_map)) eqn:E; [|done].
  intros [= <-]. split; [done|]. apply andb_true_iff in E as [E1 E2].
  apply Z.leb_le in E1. apply Z.ltb_lt in E2. by split.
Qed.

Lemma read_code_fits base code offset size : 0 <= size ->
  let '(len, buf) := read_code base code offset size in
  len <= size /\ len <= Z.of_nat (List.length buf).
Proof.
  intros Hs. unfold read_code. destruct (_ && _); [|by split].
  split; [|lia]. rewrite length_take. lia.
Qed.

#[export] Instance one_session_ok : CodeOk (H := one_session) 0x20000.
Proof.
  assert (forall m dso, maps_dso (H := one_session) m dso -> m = one_map) as Hm.
  { intros m dso [(t & c & ip & E) _]. by apply one_map_only in E as [-> _]. }
  assert (forall ip, in_map one_map ip -> map_ip one_map ip = ip - 0x10000) as Hip.
  { intros ip [H1 H2]. cbn in H1, H2. unfold map_ip, map__map_ip. cbn. rewrite Z.add_0_r.
    rewrite (u64_small (ip - 65536)), u64_small by lia. done. }
  split.
  - intros t c ip m E. by apply one_map_only in E as [_ ?].
  - intros m dso ->%Hm. cbn. lia.
  - lia.
  - intros m1 m2 dso ip1 ip2 ->%Hm ->%Hm H1 H2. rewrite !Hip by done.
    destruct H1 as [H1 H1'], H2 as [H2 H2']. cbn in H1, H1', H2, H2'.
    rewrite !u32_small by lia. done.
  - intros m1 m2 dso ip1 ip2 ->%Hm ->%Hm H1 H2. rewrite !Hip by done. lia.
  - done.
  - intros dso machine offset size Hs. apply read_code_fits. lia.
  - done.
Qed.

Definition user_queue : intel_pt_queue := mkPtq false 7 (Some 7) None None None 0.
Definition user_pt : intel_pt := mkPt 0 0 (2 ^ 63) false [].
Definition no_insn : intel_pt_insn :=
  mkInsn INTEL_PT_OP_OTHER INTEL_PT_BR_NO_BRANCH false 0 0 (replicate 16 x00).

(** ** The cache *)

(** C35: The cache of walks is transparent.  Walks made one after another, for
    whatever addresses, limits and ends, return what the same walks return when
    no cache can be made: the same return values, counts, addresses and
    instructions, with allocations failing or not.  (The instructions may differ
    in what their buffers hold past their bytes.)  It needs that no two offsets
    of a DSO that are mapped differ by a multiple of 4 GiB, and that all maps of
    a DSO with some offset in them end at the same offset. *)
Theorem walk_cache_transparent `{PerfEnv} `{InatTables} `{!TablesOk} `{Fuel} config top `{!CodeOk top}
    pt ptq seen allocs rqs :
  Forall (request_ok top) rqs ->
  exists ws s ws0 s0,
    run_walks config pt rqs (fresh_state ptq seen allocs) = Ret (ws, s) /\
    run_walks config pt rqs (fresh_state ptq seen (fun _ => false)) = Ret (ws0, s0) /\
    Forall2 same_walk ws ws0.
Proof.
  intros Hrq. destruct (run_walks_agree config top pt rqs (fresh_state ptq seen allocs)
    (fresh_state ptq seen (fun _ => false)) Hrq) as (ws & s & ws0 & s0 & E & E0 & Hs & _).
  - intros dso c Hc. cbn in Hc. by rewrite lookup_empty in Hc.
  - by split; [split|split].
  - exists ws, s, ws0, s0. by split; [|split].
Qed.

(** The second walk is answered by the cache. *)
Lemma walk_cache_transparent_witness :
  let rqs := [mkRequest no_insn 0 0x1ffc0 0 0; mkRequest no_insn 0 0x1ffc0 0 5] in
  exists ws s ws0 s0,
    run_walks (H := one_session) (H2 := 100%nat) true user_pt rqs
      (fresh_state user_queue [] (fun _ => true)) = Ret (ws, s) /\
    run_walks (H := one_session) (H2 := 100%nat) true user_pt rqs
      (fresh_state user_queue [] (fun _ => false)) = Ret (ws0, s0) /\
    Forall2 same_walk ws ws0 /\
    List.map (fun w => (w_err w, w_insn_cnt w, w_ip w, insn_rel (w_insn w))) ws
      = [(0, 3, 0x1ffc2, -2); (0, 3, 0x1ffc2, -2)].
Proof.
  intros rqs. assert (HT := walk_cache_transparent (H := one_session) (H2 := 100%nat) true 0x20000
    user_pt user_queue [] (fun _ => true) rqs).
  destruct HT as (ws & s & ws0 & s0 & E & E0 & Hs).
  - repeat constructor; vm_compute; (done || discriminate).
  - exists ws, s, ws0, s0. split; [exact E|]. split; [exact E0|]. split; [exact Hs|].
    vm_compute in E. by injection E as <- _.
Defined.

(** The kernel's code at an offset, and other code 4 GiB further on. *)
Definition far_maps : list map :=
  [mkMap 0x10000 0x10040 0 false (Some 1); mkMap 0x20000 0x20040 (2 ^ 32) false (Some 1)].
Definition far_session : PerfEnv := session far_maps (fun offset size =>
  if offset <? 2 ^ 32 then read_code 0 one_code offset size
  else read_code (2 ^ 32) [xc2; x10; x00] offset size).

(** The keys of the cache are 32 bits wide and the offsets 64: with two
    parts of a DSO mapped whose offsets are 4 GiB apart, the walk of the second
    is answered with the branch of the first. *)
Theorem far_offsets_collide :
  let rqs := [mkRequest no_insn 0 0x10000 0 0; mkRequest no_insn 0 0x20000 0 0] in
  let branches allocs :=
    match run_walks (H := far_session) (H2 := 100%nat) true user_pt rqs (fresh_state user_queue [] allocs) with
    | Ret (ws, _) => Some (List.map (fun w => (w_insn_cnt w, insn_op (w_insn w))) ws)
    | _ => None
    end in
  branches (fun _ => true) = Some [(3, INTEL_PT_OP_JCC); (3, INTEL_PT_OP_JCC)] /\
  branches (fun _ => false) = Some [(3, INTEL_PT_OP_JCC); (1, INTEL_PT_OP_RET)].
Proof. split; by vm_compute. Qed.

(** ** Changes to the kernel's code *)

(** C36: When the kernel changes [new_len] bytes of its code, all in one map with
    those 4096 before them, intel_pt_text_poke drops from the cache of its DSO, which
    holds each offset once, exactly these walks: of those that begin at most 4096
    bytes before the change or within it, the ones that reach past its start, unless
    a walk from a later address ends, with a branch, before the change: it goes
    through the addresses downwards and stops at such a walk.  All other entries stay,
    and so do the caches of other DSOs.  Where no walk ends past one from a later
    address, as in one stream of instructions, no walk over the change is left. *)
Theorem text_poke_invalidates `{PerfEnv} pt m dso cpumode addr new_len s c l :
  map_dso m = Some dso -> cs_caches s !! dso = Some c -> represents c l ->
  0 < new_len < 2 ^ 16 -> 4096 <= addr ->
  let lo := addr - 4096 in let hi := addr + new_len - 1 in
  window_ok pt m cpumode lo hi l ->
  exists s' c' l', intel_pt_text_poke pt cpumode addr new_len s = Ret (tt, s') /\
    cs_caches s' !! dso = Some c' /\ represents c' l' /\
    (forall d, d <> dso -> cs_caches s' !! d = cs_caches s !! d) /\
    (forall key e, find_entry key l' = Some e <-> find_entry key l = Some e /\ ~ overlaps m addr l lo hi key e) /\
    ((forall a b ea eb, lo <= a -> a < b -> b <= hi -> find_entry (key_at m a) l = Some ea -> find_entry (key_at m b) l = Some eb ->
        entry_end a ea <= entry_end b eb) ->
     forall a e, lo <= a <= hi -> find_entry (key_at m a) l' = Some e -> entry_end a e <= addr).
Proof.
  intros Hd Hc Hr Hn Ha lo hi Hw. unfold intel_pt_text_poke. pose proof (wo_small _ _ _ _ _ _ Hw) as Hs.
  destruct (Z.eqb_spec new_len 0); [lia|]. rewrite u64_small by lia.
  destruct (poke_loop_ok pt m dso cpumode addr (Z.to_nat (4096 + new_len)) lo hi None s c l
    Hd (or_introl eq_refl) Hc Hr ltac:(lia) ltac:(lia) ltac:(lia) Hw)
    as (s' & E & _ & Hother & c' & l' & Hc' & Hr' & _ & Hiff).
  exists s', c', l'. do 5 (split; [done|]). intros Hends a e Hlo Hf.
  apply Hiff in Hf as [Hf Hno]. destruct (Z.le_gt_cases (entry_end a e) addr) as [|Hgt]; [done|].
  exfalso. apply Hno. exists a. split; [done|]. split; [done|]. split; [lia|]. intros (b & eb & Hb & Hfb & Hend & _).
  specialize (Hends a b e eb ltac:(lia) ltac:(lia) ltac:(lia) Hf Hfb). lia.
Qed.

Definition poked_entry : intel_pt_cache_entry :=
  mkEntry 3 2 INTEL_PT_OP_JCC INTEL_PT_BR_CONDITIONAL false 2 (-2) (replicate 16 x00).
Definition long_entry : intel_pt_cache_entry :=
  mkEntry 10 30 INTEL_PT_OP_JCC INTEL_PT_BR_CONDITIONAL false 2 (-2) (replicate 16 x00).

(** Three walks; two bytes change at the start of the last, 0x1ffc4.  It is dropped;
    the second ends there, and the first, which a branch after it precedes, stays. *)
Definition three_entries : list (Z * intel_pt_cache_entry) :=
  [(u32 0xffc4, poked_entry); (u32 0xffc0, poked_entry); (u32 0xffb0, long_entry)].

Lemma three_found k e : find_entry k three_entries = Some e -> (e = poked_entry \/ e = long_entry) /\ (k = 0xffc4 \/ k = 0xffc0 \/ k = 0xffb0).
Proof.
  unfold three_entries. rewrite !u32_small by lia. cbn [find_entry].
  destruct (Z.eqb_spec 0xffc4 k); [intros [= <-]; split; [by left|lia]|].
  destruct (Z.eqb_spec 0xffc0 k); [intros [= <-]; split; [by left|lia]|].
  destruct (Z.eqb_spec 0xffb0 k); [intros [= <-]|done]. split; [by right|lia].
Qed.

Lemma window_key a : 0x1ffc4 - 4096 <= a <= 0x1ffc4 + 2 - 1 -> key_at one_map a = a - 0x10000.
Proof.
  intros Ha. unfold key_at, map_ip, map__map_ip. cbn. rewrite Z.add_0_r.
  by rewrite (u64_small (a - 65536)), u64_small, u32_small by lia.
Qed.

Lemma three_window : window_ok (H := one_session) user_pt one_map 1 (0x1ffc4 - 4096) (0x1ffc4 + 2 - 1) three_entries.
Proof.
  split.
  - intros a Ha. split; [|unfold in_map; cbn; lia]. cbn. unfold find_in. cbn [List.find].
    cbn [map_start map_end one_map]. destruct (Z.leb_spec 0x10000 a); [|lia].
    by destruct (Z.ltb_spec a 0x20000); [|lia].
  - lia.
  - intros a e Ha Hf. apply three_found in Hf as [[-> | ->] _]; unfold entry_end; cbn; lia.
  - by apply (bool_decide_unpack _).
Qed.

Lemma text_poke_invalidates_witness :
  exists c s' c' l', represents c three_entries /\
    intel_pt_text_poke (H := one_session) user_pt 1 0x1ffc4 2
      (mkCode user_queue {[1 := c]} [] (fun _ => true)) = Ret (tt, s') /\
    cs_caches s' !! 1 = Some c' /\ represents c' l' /\ find_entry 0xffc4 l' = None /\
    find_entry 0xffc0 l' = Some poked_entry /\ find_entry 0xffb0 l' = Some long_entry.
Proof.
  assert (represents (V := intel_pt_cache_entry) (mkCache (replicate 1024 []) 1024 2048 0 10) []) as H0.
  { apply (new_represents true 10 200); [lia|by vm_compute]. }
  destruct (add_keeps _ _ 0xffb0 long_entry H0 ltac:(done) ltac:(done)) as (c1 & _ & Hr1 & N1 & L1). cbn in N1, L1.
  destruct (add_keeps _ _ 0xffc0 poked_entry Hr1 ltac:(lia) ltac:(lia)) as (c2 & _ & Hr2 & N2 & L2).
  destruct (add_keeps _ _ 0xffc4 poked_entry Hr2 ltac:(lia) ltac:(lia)) as (c & _ & Hr & _). fold three_entries in Hr.
  destruct (text_poke_invalidates (H := one_session) user_pt one_map 1 1 0x1ffc4 2
    (mkCode user_queue {[1 := c]} [] (fun _ => true)) c three_entries)
    as (s' & c' & l' & Ep & Hc' & Hr' & _ & Hiff & _); [done|by apply lookup_singleton_eq|done|lia|lia|exact three_window|].
  exists c, s', c', l'. split; [exact Hr|]. split; [exact Ep|]. split; [exact Hc'|]. split; [exact Hr'|].
  split; [|split].
  - destruct (find_entry 0xffc4 l') as [e|] eqn:Ee; [|done]. apply Hiff in Ee as [Ee Hno]. exfalso. apply Hno.
    exists 0x1ffc4. split; [lia|]. split; [by vm_compute|]. cbn in Ee. injection Ee as <-. split; [by vm_compute|].
    intros (b & eb & Hb & Hf & _). rewrite window_key in Hf by lia. apply three_found in Hf as [_ Hf]. lia.
  - apply Hiff. split; [by vm_compute|]. intros (a & Ha & Hk & Hend & _). rewrite window_key in Hk by lia.
    assert (a = 0x1ffc0) as -> by lia. by vm_compute in Hend.
  - apply Hiff. split; [by vm_compute|]. intros (a & Ha & Hk & _ & Hno). rewrite window_key in Hk by lia.
    assert (a = 0x1ffb0) as -> by lia. apply Hno. exists 0x1ffc0, poked_entry. split; [lia|]. by vm_compute.
Defined.
