(* ===== verification/PtTimeRange.v ===== *)
(** Selecting samples by time: the conversion of perf time to TSC of
    tools/perf/util/tsc.c, and the time ranges of tools/perf/util/intel-pt.c. *)
From Stdlib Require Import ZArith Lia List Bool.
From S2P Require Import Prelude Float64 PktDecoder PtStack PtState PtReader PtDecode.
Open Scope Z_scope.
Open Scope c_scope.
Import ListNotations.

(** ** Perf time and TSC *)

Record perf_tsc_conversion := mkTc {
  time_shift : Z;
  time_mult : Z;
  time_zero : Z;
  time_cycles : Z;
  time_mask : Z;
  cap_user_time_short : bool
}.

Section conversion.
Context (tc : perf_tsc_conversion).

Definition perf_time_to_tsc (ns : Z) : Z :=
  let t := u64 (ns - time_zero tc) in
  let quot := t / time_mult tc in
  let rem := t mod time_mult tc in
  u64 (u64 (quot .<< time_shift tc) + u64 (rem .<< time_shift tc) / time_mult tc).

Definition tsc_to_perf_time (cyc : Z) : Z :=
  let cyc :=
    if cap_user_time_short tc then
      u64 (time_cycles tc + (u64 (cyc - time_cycles tc) .& time_mask tc))
    else cyc in
  let quot := cyc .>> time_shift tc in
  let rem := cyc .& (u64 (1 .<< time_shift tc) - 1) in
  u64 (time_zero tc + u64 (quot * time_mult tc) + (u64 (rem * time_mult tc) .>> time_shift tc)).

(** [while (1) { tm = tsc_to_perf_time(tsc); if (below(tm)) break; tsc += step }],
    and the loop back by [- step] until [below] is false. *)
Fixpoint tsc_leave (fuel : nat) (out : Z -> bool) (step tsc : Z) : option Z :=
  match fuel with
  | O => None
  | S fuel' =>
    if out (tsc_to_perf_time tsc) then Some tsc else tsc_leave fuel' out step (u64 (tsc + step))
  end.

(** [while (tm < ns) tm = tsc_to_perf_time(++tsc)], and its mirror. *)
Fixpoint tsc_return (fuel : nat) (out : Z -> bool) (step tsc tm : Z) : option Z :=
  match fuel with
  | O => None
  | S fuel' =>
    if out tm then
      let tsc := u64 (tsc + step) in tsc_return fuel' out step tsc (tsc_to_perf_time tsc)
    else Some tsc
  end.

Context `{Fuel}.

(** [None] is a loop that does not end within the fuel. *)
Definition intel_pt_tsc_start (ns : Z) : option Z :=
  tsc ← tsc_leave fuel (fun tm => tm <? ns) (-1) (perf_time_to_tsc ns);
  tsc_return fuel (fun tm => tm <? ns) 1 tsc (tsc_to_perf_time tsc).

Definition intel_pt_tsc_end (ns : Z) : option Z :=
  tsc ← tsc_leave fuel (fun tm => ns <? tm) 1 (perf_time_to_tsc ns);
  tsc_return fuel (fun tm => ns <? tm) (-1) tsc (tsc_to_perf_time tsc).

(** [struct range] and [struct perf_time_interval]. *)
Record range := mkRange { r_start : Z; r_end : Z }.

(** The loop of [intel_pt_setup_time_ranges]. *)
Fixpoint setup_ranges (p : list (Z * Z)) : option (list range) :=
  match p with
  | [] => Some []
  | (ts, te) :: p =>
    start ← (if negb (ts =? 0) then intel_pt_tsc_start ts else Some 0);
    end_ ← (if negb (te =? 0) then intel_pt_tsc_end te else Some 0);
    rest ← setup_ranges p;
    Some (mkRange start end_ :: rest)
  end.

(** The return value and [pt->time_ranges]; [alloc] is whether [calloc]
    succeeds. *)
Definition intel_pt_setup_time_ranges (alloc timeless_decoding : bool) (p : option (list (Z * Z)))
    : option (Z * list range) :=
  match p with
  | None => Some (0, [])
  | Some p =>
    if (Z.of_nat (length p) =? 0) || timeless_decoding then Some (0, [])
    else if negb alloc then Some (- ENOMEM, [])
    else ranges ← setup_ranges p; Some (0, ranges)
  end.
End conversion.

(** ** The next start or end *)

Inductive switch_state :=
| INTEL_PT_SS_NOT_TRACING | INTEL_PT_SS_UNKNOWN | INTEL_PT_SS_TRACING
| INTEL_PT_SS_EXPECTING_SWITCH_EVENT | INTEL_PT_SS_EXPECTING_SWITCH_IP.

(** The fields of [struct intel_pt_queue] that select samples. *)
Record time_queue := mkTq {
  tq_sync_switch : bool;
  tq_switch_state : switch_state;
  tq_have_sample : bool;
  tq_timestamp : Z;
  tq_sel_timestamp : Z;
  tq_sel_start : bool;
  tq_sel_idx : Z
}.
#[export] Instance eta_tq : Eta time_queue := fun q => mkTq (tq_sync_switch q) (tq_switch_state q)
  (tq_have_sample q) (tq_timestamp q) (tq_sel_timestamp q) (tq_sel_start q) (tq_sel_idx q).
#[export] Instance set_tq_sync_switch : Setter tq_sync_switch := ltac:(solve_setter).
#[export] Instance set_tq_switch_state : Setter tq_switch_state := ltac:(solve_setter).
#[export] Instance set_tq_have_sample : Setter tq_have_sample := ltac:(solve_setter).
#[export] Instance set_tq_timestamp : Setter tq_timestamp := ltac:(solve_setter).
#[export] Instance set_tq_sel_timestamp : Setter tq_sel_timestamp := ltac:(solve_setter).
#[export] Instance set_tq_sel_start : Setter tq_sel_start := ltac:(solve_setter).
#[export] Instance set_tq_sel_idx : Setter tq_sel_idx := ltac:(solve_setter).

Section filter.
Context (time_ranges : list range).
Let range_cnt : Z := Z.of_nat (length time_ranges).

(** [None] here and below is an access outside the ranges. *)
Definition intel_pt_setup_time_range (q : time_queue) : option time_queue :=
  if range_cnt =? 0 then Some q
  else
    r ← idx time_ranges 0;
    let q := q <| tq_sel_timestamp := r_start r |> <| tq_sel_idx := 0 |> in
    if negb (r_start r =? 0) then Some (q <| tq_sel_start := true |>)
    else Some (q <| tq_sel_timestamp := r_end r |> <| tq_sel_start := false |>).

Definition intel_pt_next_time (q : time_queue) : option (bool * time_queue) :=
  if tq_sel_start q then
    r ← idx time_ranges (tq_sel_idx q);
    Some (true, q <| tq_sel_start := false |> <| tq_sel_timestamp := r_end r |>)
  else if u32 (tq_sel_idx q + 1) <? range_cnt then
    let i := u32 (tq_sel_idx q + 1) in
    r ← idx time_ranges i;
    Some (true, q <| tq_sel_start := true |> <| tq_sel_idx := i |> <| tq_sel_timestamp := r_start r |>)
  else Some (false, q).

(** How the loop of [intel_pt_time_filter] ends: within a range, before the
    start of one, or past the last. *)
Inductive filter_end := FilterWithin | FilterBefore | FilterPast.

Fixpoint filter_loop (fuel : nat) (q : time_queue) : outcome (filter_end * time_queue) :=
  match fuel with
  | O => OutOfFuel
  | S fuel' =>
    if tq_sel_start q then
      if tq_sel_timestamp q <=? tq_timestamp q then
        match intel_pt_next_time q with
        | None => Fault
        | Some (_, q) => if tq_sel_timestamp q =? 0 then Ret (FilterWithin, q) else filter_loop fuel' q
        end
      else Ret (FilterBefore, q)
    else if tq_sel_timestamp q <? tq_timestamp q then
      match intel_pt_next_time q with
      | None => Fault
      | Some (true, q) => filter_loop fuel' q
      | Some (false, q) => Ret (FilterPast, q)
      end
    else Ret (FilterWithin, q)
  end.

Context `{Platform} {D : Type} `{Callbacks D} `{Fuel}.

(** [next_tid] is [intel_pt_next_tid], which changes the session.  The return
    value, the queue and [*ff_timestamp]. *)
Definition intel_pt_time_filter (next_tid : D -> D) (q : time_queue) (ff_timestamp : Z)
    : M D (Z * time_queue * Z) :=
  '(end_, q) ← (fun d e =>
    match filter_loop fuel q with
    | Ret r => Ret (r, d, e)
    | Fault => Fault
    | OutOfFuel => OutOfFuel
    end);
  match end_ with
  | FilterWithin => mret (0, q, ff_timestamp)
  | FilterBefore =>
    let q := q <| tq_have_sample := false |> in
    if ff_timestamp <? tq_sel_timestamp q then
      q ← (if tq_sync_switch q then
             call (fun e => (tt, next_tid e)) ;;
             mret (q <| tq_switch_state := INTEL_PT_SS_UNKNOWN |>)
           else mret q);
      err ← intel_pt_fast_forward (tq_sel_timestamp q);
      mret (if negb (err =? 0) then err else 0, q, tq_sel_timestamp q)
    else mret (0, q, ff_timestamp)
  | FilterPast =>
    mret (1, q <| tq_have_sample := false |> <| tq_switch_state := INTEL_PT_SS_NOT_TRACING |>, ff_timestamp)
  end.

(** What [intel_pt_run_decoder] does of it for each sample: 0 goes on. *)
Definition filter_sample (next_tid : D -> D) (q : time_queue) (ff_timestamp : Z)
    : M D (Z * time_queue * Z) :=
  if negb (tq_sel_timestamp q =? 0) then intel_pt_time_filter next_tid q ff_timestamp
  else mret (0, q, ff_timestamp).
End filter.
