(* ===== verification/PtTimeRangeTheorems.v ===== *)
(** Samples are selected by exactly the times asked for. *)
From Stdlib Require Import ZArith Lia List Bool.
From S2P Require Import Prelude Float64 PktDecoder PtStack PtState PtTime PtReader PtWalk PtTrace PtVmTime PtDecode PtSafe PtExample PtTimeRange.
Open Scope Z_scope.
Open Scope c_scope.
Import ListNotations.

(** ** Conversion *)

Section conversion.
Context (tc : perf_tsc_conversion).
Notation s := (time_shift tc).
Notation m := (time_mult tc).
Notation z := (time_zero tc).

Record tc_ok : Prop := {
  tc_shift : 0 <= s <= 32;
  tc_mult : 0 < m < 2 ^ 32;
  tc_zero : 0 <= z;
  tc_short : cap_user_time_short tc = false
}.
Context (Htc : tc_ok).

(** The time of a count of ticks, without wrap-around. *)
Definition time_of (t : Z) : Z := z + t * m / 2 ^ s.

Lemma time_of_mono a b : a <= b -> time_of a <= time_of b.
Proof.
  intros Hab. destruct Htc as [Hs Hm _ _]. unfold time_of.
  assert (0 < 2 ^ s) by (apply Z.pow_pos_nonneg; lia).
  apply Zplus_le_compat_l, Z.div_le_mono; nia.
Qed.

Lemma tsc_to_time t : 0 <= t -> time_of t < 2 ^ 64 -> tsc_to_perf_time tc t = time_of t.
Proof.
  intros Ht Hmax. destruct Htc as [Hs Hm Hz Hshort]. unfold tsc_to_perf_time. rewrite Hshort.
  assert (0 < 2 ^ s <= 2 ^ 32) as Hp by (split; [apply Z.pow_pos_nonneg; lia|apply Z.pow_le_mono_r; lia]).
  rewrite Z.shiftl_1_l, (u64_small (2 ^ s)), land_pow2_mod, !Z.shiftr_div_pow2 by lia.
  assert (0 <= t mod 2 ^ s < 2 ^ s) as Hr by (apply Z.mod_pos_bound; lia).
  assert (t * m / 2 ^ s = t / 2 ^ s * m + t mod 2 ^ s * m / 2 ^ s) as Hsplit.
  { rewrite (Z.div_mod t (2 ^ s)) at 1 by lia.
    replace ((2 ^ s * (t / 2 ^ s) + t mod 2 ^ s) * m) with (t mod 2 ^ s * m + t / 2 ^ s * m * 2 ^ s) by ring.
    rewrite Z.div_add by lia. ring. }
  unfold time_of in *. rewrite Hsplit in *.
  assert (0 <= t / 2 ^ s * m) by (apply Z.mul_nonneg_nonneg; [apply Z.div_pos; lia|lia]).
  assert (0 <= t mod 2 ^ s * m < 2 ^ 64) by nia.
  assert (0 <= t mod 2 ^ s * m / 2 ^ s) by (apply Z.div_pos; lia).
  rewrite (u64_small (t / 2 ^ s * m)), (u64_small (t mod 2 ^ s * m)), u64_small by lia. ring.
Qed.

(** Times that can be asked for. *)
Definition time_ok (ns : Z) : Prop := z < ns < 2 ^ 63 /\ (ns - z + 1) * 2 ^ s < 2 ^ 62 * m.

Lemma time_to_tsc ns : time_ok ns -> perf_time_to_tsc tc ns = (ns - z) * 2 ^ s / m.
Proof.
  intros [Hns Hfit]. destruct Htc as [Hs Hm Hz _]. unfold perf_time_to_tsc.
  rewrite (u64_small (ns - z)) by lia. set (T := ns - z) in *.
  assert (0 < 2 ^ s <= 2 ^ 32) as Hp by (split; [apply Z.pow_pos_nonneg; lia|apply Z.pow_le_mono_r; lia]).
  rewrite !Z.shiftl_mul_pow2 by lia.
  assert (0 <= T mod m < m) as Hr by (apply Z.mod_pos_bound; lia).
  assert (T * 2 ^ s / m = T / m * 2 ^ s + T mod m * 2 ^ s / m) as Hsplit.
  { rewrite (Z.div_mod T m) at 1 by lia.
    replace ((m * (T / m) + T mod m) * 2 ^ s) with (T mod m * 2 ^ s + T / m * 2 ^ s * m) by ring.
    rewrite Z.div_add by lia. ring. }
  assert (T * 2 ^ s / m < 2 ^ 62) by (apply Z.div_lt_upper_bound; nia).
  assert (0 <= T / m * 2 ^ s) by (apply Z.mul_nonneg_nonneg; [apply Z.div_pos; lia|lia]).
  assert (0 <= T mod m * 2 ^ s < 2 ^ 64) by nia.
  assert (0 <= T mod m * 2 ^ s / m) by (apply Z.div_pos; lia).
  rewrite (u64_small (T / m * 2 ^ s)), (u64_small (T mod m * 2 ^ s)), u64_small by lia. lia.
Qed.

(** A time falls between two ticks. *)
Lemma time_of_bounds t ns : z <= ns ->
  (time_of t < ns <-> t * m < (ns - z) * 2 ^ s) /\ (ns < time_of t <-> (ns - z + 1) * 2 ^ s <= t * m).
Proof.
  intros Hns. destruct Htc as [Hs Hm _ _]. unfold time_of.
  assert (0 < 2 ^ s) as Hp by (apply Z.pow_pos_nonneg; lia).
  pose proof (Z.div_mod (t * m) (2 ^ s) ltac:(lia)) as Hd.
  pose proof (Z.mod_pos_bound (t * m) (2 ^ s) Hp) as Hr.
  set (q := t * m / 2 ^ s) in *. set (r := (t * m) mod 2 ^ s) in *. set (P := 2 ^ s) in *.
  rewrite Hd. split; split; intros Hc; nia.
Qed.

Lemma leave_up out (n : nat) : forall fuel a, 0 <= a -> a + Z.of_nat n < 2 ^ 64 -> (n < fuel)%nat ->
  (forall t, a <= t < a + Z.of_nat n -> out (tsc_to_perf_time tc t) = false) ->
  out (tsc_to_perf_time tc (a + Z.of_nat n)) = true ->
  tsc_leave tc fuel out 1 a = Some (a + Z.of_nat n).
Proof.
  induction n as [|n IH]; intros fuel a Ha Hmax Hf Hin Hout; (destruct fuel as [|fuel]; [lia|]); cbn [tsc_leave].
  - rewrite Z.add_0_r in *. by rewrite Hout.
  - rewrite Hin, u64_small by lia. replace (a + Z.of_nat (S n)) with (a + 1 + Z.of_nat n) in * by lia.
    apply IH; [lia|lia|lia| |done]. intros t Ht. apply Hin. lia.
Qed.

(** The first tick at or after a time, and the last at or before it. *)
Definition first_tick (ns : Z) : Z := ((ns - z) * 2 ^ s + m - 1) / m.
Definition last_tick (ns : Z) : Z := ((ns - z + 1) * 2 ^ s - 1) / m.

Lemma tick_fits ns t : time_ok ns -> 0 <= t <= 2 ^ 62 -> t * m <= (ns - z + 1) * 2 ^ s + m ->
  time_of t < 2 ^ 64.
Proof.
  intros [Hns _] Ht Hfit. destruct Htc as [Hs Hm Hz _]. unfold time_of.
  assert (0 < 2 ^ s) as Hp by (apply Z.pow_pos_nonneg; lia).
  assert (t * m / 2 ^ s <= (ns - z + 1) + m).
  { apply Z.div_le_upper_bound; [lia|]. nia. }
  lia.
Qed.

Section loops.
Context (ns : Z) (Hok : time_ok ns).
Let T := ns - z.
Let P := 2 ^ s.

Lemma ticks_range : 0 < P /\ 0 < T /\ 0 < m < 2 ^ 32 /\ (T + 1) * P < 2 ^ 62 * m.
Proof.
  destruct Hok as [Hns Hfit], Htc as [Hs Hm Hz _]. subst T P.
  split; [apply Z.pow_pos_nonneg; lia|]. split; [lia|]. split; [lia|exact Hfit].
Qed.

Lemma tick_time t : 0 <= t -> t * m <= (T + 1) * P + m -> tsc_to_perf_time tc t = time_of t.
Proof.
  intros Ht Hfit. apply tsc_to_time; [done|]. pose proof ticks_range as (HP & HT & Hm & Hmax).
  apply (tick_fits ns); [done| |done]. split; [done|]. nia.
Qed.

Lemma tsc_start_ok `{Fuel} : (3 <= fuel)%nat -> intel_pt_tsc_start tc ns = Some (first_tick ns).
Proof.
  intros Hf. pose proof ticks_range as (HP & HT & Hm & Hmax).
  pose proof (fun t => proj1 (time_of_bounds t ns ltac:(subst T; lia))) as Hb. fold T P in Hb.
  unfold intel_pt_tsc_start, first_tick. rewrite (time_to_tsc ns Hok). fold T P.
  pose proof (Z.div_mod (T * P) m ltac:(lia)) as Hd. pose proof (Z.mod_pos_bound (T * P) m ltac:(lia)) as Hr.
  set (g := T * P / m) in *. set (r := (T * P) mod m) in *.
  assert (0 <= g < 2 ^ 62) as Hg by nia.
  destruct (fuel) as [|[|[|f]]] eqn:Ef; [lia|lia|lia|]. cbn [tsc_leave].
  rewrite (tick_time g) by nia. destruct (Z.ltb_spec (time_of g) ns) as [Hlt|Hge].
  - cbn [mbind option_bind tsc_return]. rewrite (tick_time g) by nia.
    destruct (Z.ltb_spec (time_of g) ns); [|lia]. rewrite u64_small, (tick_time (g + 1)) by nia.
    apply Hb in Hlt. destruct (Z.ltb_spec (time_of (g + 1)) ns) as [Hlt2|]; [apply Hb in Hlt2; nia|].
    f_equal. apply (Z.div_unique _ _ _ (r - 1)); lia.
  - assert (r = 0) as Hr0. { destruct (Z.eq_dec r 0); [done|]. assert (time_of g < ns) by (apply Hb; lia). lia. }
    assert (1 <= g) by nia.
    rewrite (u64_small (g + -1)), (tick_time (g + -1)) by nia.
    assert (time_of (g + -1) < ns) as Hlt by (apply Hb; nia).
    destruct (Z.ltb_spec (time_of (g + -1)) ns); [|lia]. cbn [mbind option_bind tsc_return].
    rewrite (tick_time (g + -1)) by nia. destruct (Z.ltb_spec (time_of (g + -1)) ns); [|lia].
    replace (g + -1 + 1) with g by lia. rewrite u64_small, (tick_time g) by nia.
    destruct (Z.ltb_spec (time_of g) ns); [lia|]. f_equal.
    apply (Z.div_unique _ _ _ (m - 1)); lia.
Qed.

Lemma tsc_end_ok `{Fuel} : P / m + 4 <= Z.of_nat fuel -> intel_pt_tsc_end tc ns = Some (last_tick ns).
Proof.
  intros Hf. pose proof ticks_range as (HP & HT & Hm & Hmax).
  pose proof (fun t => proj2 (time_of_bounds t ns ltac:(subst T; lia))) as Hb. fold T P in Hb.
  unfold intel_pt_tsc_end, last_tick. rewrite (time_to_tsc ns Hok). fold T P.
  pose proof (Z.div_mod (T * P) m ltac:(lia)) as Hd. pose proof (Z.mod_pos_bound (T * P) m ltac:(lia)) as Hr.
  set (g := T * P / m) in *. set (r := (T * P) mod m) in *.
  pose proof (Z.div_mod ((T + 1) * P - 1) m ltac:(lia)) as Hd2.
  pose proof (Z.mod_pos_bound ((T + 1) * P - 1) m ltac:(lia)) as Hr2.
  set (U := ((T + 1) * P - 1) / m) in *. set (r2 := ((T + 1) * P - 1) mod m) in *.
  pose proof (Z.div_mod P m ltac:(lia)) as Hd3. pose proof (Z.mod_pos_bound P m ltac:(lia)) as Hr3.
  set (k := P / m) in *. set (r3 := P mod m) in *.
  assert (0 <= g /\ g <= U /\ U < 2 ^ 62 /\ U - g <= k + 1) as (Hg & HgU & HU & Hk) by nia.
  assert (forall t, g <= t <= U -> (ns <? tsc_to_perf_time tc t) = false) as Hin.
  { intros t Ht. rewrite tick_time by nia. apply Z.ltb_ge. destruct (Z.le_gt_cases (time_of t) ns) as [|Hgt]; [done|].
    apply Hb in Hgt. nia. }
  assert ((ns <? tsc_to_perf_time tc (U + 1)) = true) as Hout.
  { rewrite tick_time by nia. apply Z.ltb_lt, Hb. nia. }
  assert (tsc_leave tc fuel (fun tm => ns <? tm) 1 g = Some (U + 1)) as ->.
  { replace (U + 1) with (g + Z.of_nat (Z.to_nat (U + 1 - g))) by lia. apply leave_up; [lia|lia|lia| |].
    - intros t Ht. apply Hin. lia.
    - by replace (g + Z.of_nat (Z.to_nat (U + 1 - g))) with (U + 1) by lia. }
  cbn [mbind option_bind]. assert (0 <= k) by nia.
  destruct fuel as [|[|f]]; [lia|lia|]. cbn [tsc_return].
  rewrite Hout. replace (U + 1 + -1) with U by lia. rewrite u64_small by lia. by rewrite Hin by lia.
Qed.

(** The ticks from the first to the last are those of the time. *)
Lemma first_tick_spec t : 0 <= t -> (first_tick ns <= t <-> ns <= time_of t).
Proof.
  intros Ht. pose proof ticks_range as (HP & HT & Hm & Hmax).
  destruct (time_of_bounds t ns ltac:(subst T; lia)) as [Hb _]. fold T P in Hb.
  assert (first_tick ns <= t <-> T * P <= t * m) as ->; [|lia].
  unfold first_tick. fold T P.
  pose proof (Z.div_mod (T * P + m - 1) m ltac:(lia)) as Hd.
  pose proof (Z.mod_pos_bound (T * P + m - 1) m ltac:(lia)) as Hr. split; intros; nia.
Qed.

Lemma last_tick_spec t : 0 <= t -> (t <= last_tick ns <-> time_of t <= ns).
Proof.
  intros Ht. pose proof ticks_range as (HP & HT & Hm & Hmax).
  destruct (time_of_bounds t ns ltac:(subst T; lia)) as [_ Hb]. fold T P in Hb.
  assert (t <= last_tick ns <-> t * m < (T + 1) * P) as ->; [|lia].
  unfold last_tick. fold T P.
  pose proof (Z.div_mod ((T + 1) * P - 1) m ltac:(lia)) as Hd.
  pose proof (Z.mod_pos_bound ((T + 1) * P - 1) m ltac:(lia)) as Hr. split; intros; nia.
Qed.
End loops.
End conversion.

(** An end of 0 is no end. *)
Definition in_range (t : Z) (r : range) : Prop := r_start r <= t /\ (r_end r = 0 \/ t <= r_end r).

Section ranges.
Context (tc : perf_tsc_conversion) (Htc : tc_ok tc) `{Fuel}.
Context (Hfuel : 2 ^ time_shift tc / time_mult tc + 4 <= Z.of_nat fuel).

(** A start and an end that can be asked for, 0 being none; an end is at least
    a tick after the origin of the conversion. *)
Definition interval_ok (p : Z * Z) : Prop :=
  (p.1 = 0 \/ time_ok tc p.1) /\
  (p.2 = 0 \/ time_ok tc p.2 /\ time_mult tc <= (p.2 - time_zero tc) * 2 ^ time_shift tc).

(** The ticks of an interval of perf time. *)
Definition ticks_of (p : Z * Z) (r : range) : Prop :=
  forall t, 0 <= t -> time_of tc t < 2 ^ 64 ->
  (in_range t r <-> p.1 <= tsc_to_perf_time tc t /\ (p.2 = 0 \/ tsc_to_perf_time tc t <= p.2)).

Lemma fuel_positive : (3 <= fuel)%nat.
Proof.
  destruct Htc as [Hs Hm _ _].
  pose proof (Z.div_pos (2 ^ time_shift tc) (time_mult tc) (Z.pow_nonneg 2 (time_shift tc) ltac:(lia)) ltac:(lia)). lia.
Qed.

Lemma start_ticks ts : ts = 0 \/ time_ok tc ts -> exists start,
  (if negb (ts =? 0) then intel_pt_tsc_start tc ts else Some 0) = Some start /\
  forall t, 0 <= t -> (start <= t <-> ts <= time_of tc t).
Proof.
  destruct Htc as [Hs Hm Hz _]. intros [->|Hok].
  - exists 0. split; [done|]. intros t Ht. unfold time_of.
    pose proof (Z.div_pos (t * time_mult tc) (2 ^ time_shift tc) ltac:(nia) (Z.pow_pos_nonneg 2 (time_shift tc) ltac:(lia) ltac:(lia))).
    split; lia.
  - destruct (Z.eqb_spec ts 0); [destruct Hok; lia|]. cbn [negb]. rewrite tsc_start_ok by (done || apply fuel_positive).
    eexists. split; [done|]. intros t Ht. by apply first_tick_spec.
Qed.

Lemma end_ticks te :
  te = 0 \/ time_ok tc te /\ time_mult tc <= (te - time_zero tc) * 2 ^ time_shift tc -> exists end_,
  (if negb (te =? 0) then intel_pt_tsc_end tc te else Some 0) = Some end_ /\
  forall t, 0 <= t -> (end_ = 0 \/ t <= end_ <-> te = 0 \/ time_of tc t <= te).
Proof.
  destruct Htc as [Hs Hm Hz _]. intros [->|[Hok Htick]].
  - exists 0. split; [done|]. intros t Ht. split; by left.
  - assert (0 < 2 ^ time_shift tc) by (apply Z.pow_pos_nonneg; lia).
    assert (te <> 0) as Hne by (destruct Hok; lia).
    destruct (Z.eqb_spec te 0); [done|]. cbn [negb]. rewrite tsc_end_ok by done.
    eexists. split; [done|]. intros t Ht.
    assert (1 <= last_tick tc te) by (apply Z.div_le_lower_bound; lia).
    pose proof (last_tick_spec tc Htc te Hok t Ht). split; (intros [?|?]; [lia|right; tauto]).
Qed.

Lemma setup_ranges_ok p : Forall interval_ok p -> exists ranges,
  setup_ranges tc p = Some ranges /\ Forall2 ticks_of p ranges.
Proof.
  induction 1 as [|[ts te] p [Hts Hte] _ (ranges & E & IH)]; [by exists []|].
  destruct (start_ticks ts Hts) as (start & Es & Hstart).
  destruct (end_ticks te Hte) as (end_ & Ee & Hend).
  cbn [setup_ranges]. rewrite Es. cbn [mbind option_bind]. rewrite Ee. cbn [mbind option_bind]. rewrite E.
  eexists. split; [done|]. constructor; [|done]. intros t Ht Hmax. rewrite tsc_to_time by done.
  unfold in_range. cbn [r_start r_end fst snd]. by rewrite (Hstart t Ht), (Hend t Ht).
Qed.
End ranges.

(** ** Selection *)

Section select.
Context (time_ranges : list range).

Definition range_at (i : Z) (r : range) : Prop := idx time_ranges i = Some r.

(** Ranges in order and apart; only the first may begin at 0, and only the last
    have no end. *)
Record ranges_ok : Prop := {
  ro_some : 0 < Z.of_nat (length time_ranges) < 2 ^ 32;
  ro_start : forall i r, range_at i r -> 0 <= r_start r /\ (0 < i -> 0 < r_start r);
  ro_order : forall i r, range_at i r -> r_end r = 0 \/ r_start r <= r_end r;
  ro_apart : forall i r r', range_at i r -> range_at (i + 1) r' -> 0 < r_end r < r_start r';
  ro_bounded : forall r, range_at 0 r -> r_start r = 0 -> r_end r <> 0
}.

(** The queue looks for the start of a range or the end of one; the ranges
    before it are past at [t]. *)
Definition looking (q : time_queue) (t : Z) : Prop :=
  exists r, range_at (tq_sel_idx q) r /\
    (forall i r', 0 <= i < tq_sel_idx q -> range_at i r' -> 0 < r_end r' < t) /\
    (if tq_sel_start q then tq_sel_timestamp q = r_start r /\ 0 < r_start r
     else tq_sel_timestamp q = r_end r /\ r_start r <= t).

(** Later ranges are later. *)
Lemma ranges_increase (Hok : ranges_ok) (n : nat) : forall i r r',
  range_at i r -> range_at (i + 1 + Z.of_nat n) r' -> r_start r <= r_end r /\ 0 < r_end r < r_start r'.
Proof.
  induction n as [|n IH]; intros i r r' Hr Hr'.
  - rewrite Z.add_0_r in Hr'. pose proof (ro_apart Hok i r r' Hr Hr').
    destruct (ro_order Hok i r Hr); lia.
  - pose proof (idx_inv _ _ _ Hr) as [Hi _]. pose proof (idx_inv _ _ _ Hr') as [Hi' _].
    destruct (idx_range time_ranges (i + 1)) as [r1 E1]; [lia|].
    pose proof (ro_apart Hok i r r1 Hr E1). destruct (ro_order Hok i r Hr) as [?|Hle]; [lia|].
    destruct (IH (i + 1) r1 r' E1) as [H1 H2];
      [by replace (i + 1 + 1 + Z.of_nat n) with (i + 1 + Z.of_nat (S n)) by lia|]. lia.
Qed.

Lemma later_range (Hok : ranges_ok) i j r r' :
  range_at i r -> range_at j r' -> i < j -> r_start r <= r_end r /\ 0 < r_end r < r_start r'.
Proof.
  intros Hr Hr' Hij. apply (ranges_increase Hok (Z.to_nat (j - i - 1)) i r r' Hr).
  by replace (i + 1 + Z.of_nat (Z.to_nat (j - i - 1))) with j by lia.
Qed.

(** How far a queue is among the starts and ends. *)
Definition place (q : time_queue) : Z := 2 * tq_sel_idx q + (if tq_sel_start q then 0 else 1).

Definition selected (t : Z) : Prop := exists i r, range_at i r /\ in_range t r.

(** The first time selected after [t], which is not. *)
Definition next_selected (t next : Z) : Prop :=
  t < next /\ selected next /\ forall t', t <= t' < next -> ~ selected t'.

Lemma filter_loop_ok (Hok : ranges_ok) fuel : forall q,
  0 <= tq_timestamp q -> looking q (tq_timestamp q) -> tq_sel_timestamp q <> 0 ->
  2 * Z.of_nat (length time_ranges) - place q < Z.of_nat fuel ->
  exists end_ q', filter_loop time_ranges fuel q = Ret (end_, q') /\
    looking q' (tq_timestamp q) /\
    tq_have_sample q' = tq_have_sample q /\ tq_sync_switch q' = tq_sync_switch q /\
    match end_ with
    | FilterWithin => selected (tq_timestamp q)
    | FilterBefore => next_selected (tq_timestamp q) (tq_sel_timestamp q')
    | FilterPast => forall t, tq_timestamp q <= t -> ~ selected t
    end.
Proof.
  induction fuel as [|fuel IH]; intros q H0 Hlook Hne Hf.
  { destruct Hlook as (r & Hr & _). apply idx_inv in Hr as [Hi _]. unfold place in Hf.
    destruct (tq_sel_start q); lia. }
  pose proof Hlook as (r & Hr & Hpast & Hsel). pose proof (idx_inv _ _ _ Hr) as [Hi _].
  pose proof (ro_some Hok) as Hlen. cbn [filter_loop].
  unfold intel_pt_next_time. destruct (tq_sel_start q) eqn:Es.
  - destruct Hsel as [Esel Hpos]. rewrite Hr, Esel. cbn [mbind option_bind].
    destruct (Z.leb_spec (r_start r) (tq_timestamp q)) as [Hle|Hgt].
    + set (q1 := q <| tq_sel_start := false |> <| tq_sel_timestamp := r_end r |>).
      assert (looking q1 (tq_timestamp q)) as Hl1 by (exists r; by split; [|split]).
      change (tq_sel_timestamp q1) with (r_end r).
      destruct (Z.eqb_spec (r_end r) 0) as [E0|E0].
      * exists FilterWithin, q1. do 4 (split; [done|]).
        exists (tq_sel_idx q), r. split; [done|]. split; [done|by left].
      * destruct (IH q1) as (end_ & q' & E & Hq'); [done|exact Hl1|exact E0| |].
        { unfold place in *. rewrite Es in Hf. cbn. lia. }
        exists end_, q'. split; [exact E|exact Hq'].
    + exists FilterBefore, q. do 4 (split; [done|]). rewrite Esel. split; [done|]. split.
      { exists (tq_sel_idx q), r. split; [done|]. pose proof (ro_order Hok _ _ Hr). split; lia. }
      intros t' Ht' (i & r' & Hr' & Hin & Hend). pose proof (idx_inv _ _ _ Hr') as [Hi' _].
      destruct (Z.lt_trichotomy i (tq_sel_idx q)) as [Hlt|[->|Hgt']].
      * pose proof (Hpast i r' ltac:(lia) Hr'). lia.
      * unfold range_at in Hr, Hr'. rewrite Hr in Hr'. injection Hr' as <-. lia.
      * pose proof (later_range Hok _ _ _ _ Hr Hr' Hgt'). lia.
  - destruct Hsel as [Esel Hst]. rewrite Esel.
    destruct (Z.ltb_spec (r_end r) (tq_timestamp q)) as [Hlt|Hge].
    + rewrite u32_small by lia. destruct (Z.ltb_spec (tq_sel_idx q + 1) (Z.of_nat (length time_ranges))).
      * destruct (idx_range time_ranges (tq_sel_idx q + 1)) as [r1 E1]; [lia|]. rewrite E1.
        cbn [mbind option_bind].
        set (q1 := q <| tq_sel_start := true |> <| tq_sel_idx := tq_sel_idx q + 1 |>
          <| tq_sel_timestamp := r_start r1 |>).
        pose proof (ro_apart Hok _ _ _ Hr E1) as Hap.
        destruct (IH q1) as (end_ & q' & E & Hq'); [done| |cbn; lia| |].
        { exists r1. split; [exact E1|]. split; [|split; [done|cbn; lia]].
          intros i r' Hi' Hr'. change (tq_sel_idx q1) with (tq_sel_idx q + 1) in Hi'.
          destruct (Z.eq_dec i (tq_sel_idx q)) as [->|]; [|apply (Hpast i r'); [lia|done]].
          unfold range_at in Hr, Hr'. rewrite Hr in Hr'. injection Hr' as <-. cbn. lia. }
        { unfold place in *. rewrite Es in Hf. cbn. lia. }
        exists end_, q'. split; [exact E|exact Hq'].
      * assert (r_end r = 0 \/ 0 < r_end r) as Hend.
        { destruct (ro_order Hok _ _ Hr) as [?|?]; [by left|].
          pose proof (ro_start Hok _ _ Hr). lia. }
        exists FilterPast, q. do 4 (split; [done|]).
        intros t Ht (i & r' & Hr' & Hin & Hend'). pose proof (idx_inv _ _ _ Hr') as [Hi' _].
        destruct (Z.eq_dec i (tq_sel_idx q)) as [->|].
        { unfold range_at in Hr, Hr'. rewrite Hr in Hr'. injection Hr' as <-. lia. }
        pose proof (Hpast i r' ltac:(lia) Hr'). lia.
    + exists FilterWithin, q. do 4 (split; [done|]).
      exists (tq_sel_idx q), r. split; [done|]. split; [done|by right].
Qed.

Definition same_selection (q q' : time_queue) : Prop :=
  tq_sel_timestamp q' = tq_sel_timestamp q /\ tq_sel_start q' = tq_sel_start q /\ tq_sel_idx q' = tq_sel_idx q.

Lemma looking_later (Hok : ranges_ok) q q' t t' :
  looking q t -> same_selection q q' -> t <= t' -> looking q' t'.
Proof.
  intros (r & Hr & Hpast & Hsel) (Et & Es & Ei) Hle. exists r. rewrite Et, Es, Ei.
  split; [done|]. split.
  - intros i r' Hi Hr'. specialize (Hpast i r' Hi Hr'). lia.
  - destruct (tq_sel_start q); [done|]. destruct Hsel. split; [done|lia].
Qed.

Lemma setup_looking (Hok : ranges_ok) q : exists q',
  intel_pt_setup_time_range time_ranges q = Some q' /\ looking q' 0.
Proof.
  pose proof (ro_some Hok). unfold intel_pt_setup_time_range.
  destruct (Z.eqb_spec (Z.of_nat (length time_ranges)) 0); [lia|].
  destruct (idx_range time_ranges 0) as [r E]; [lia|]. rewrite E. cbn [mbind option_bind].
  pose proof (ro_start Hok _ _ E).
  destruct (Z.eqb_spec (r_start r) 0); cbn [negb]; eexists; (split; [reflexivity|]); exists r;
    (split; [exact E|]); (split; [cbn; lia|]); cbn; lia.
Qed.

(** With no time to look for, all later samples are selected. *)
Lemma nothing_left (Hok : ranges_ok) q t : looking q t -> tq_sel_timestamp q = 0 -> selected t.
Proof.
  intros (r & Hr & _ & Hsel) E. destruct (tq_sel_start q); [lia|].
  exists (tq_sel_idx q), r. split; [done|]. split; [lia|left; lia].
Qed.

Context `{Platform} {D : Type} `{Callbacks D} `{Fuel}.
Context (next_tid : D -> D).

(** A queue set up, and the filter called for samples in order of time; what is
    not the selection may change between two calls, and a call may fail. *)
Inductive filtering : time_queue -> Z -> Prop :=
| filtering_setup q q' : intel_pt_setup_time_range time_ranges q = Some q' -> filtering q' 0
| filtering_sample q t q1 ff d e err q' ff' d' e' :
    filtering q t -> same_selection q q1 -> t <= tq_timestamp q1 ->
    filter_sample time_ranges next_tid q1 ff d e = Ret (err, q', ff', d', e') ->
    filtering q' (tq_timestamp q1).

Section filtered.
Context (Hok : ranges_ok) (Hfuel : (2 * length time_ranges < fuel)%nat).

Lemma loop_ends q : looking q (tq_timestamp q) -> 2 * Z.of_nat (length time_ranges) - place q < Z.of_nat fuel.
Proof.
  intros (r & Hr & _). apply idx_inv in Hr as [Hi _]. unfold place. destruct (tq_sel_start q); lia.
Qed.

Lemma filter_keeps_looking q ff d e err q' ff' d' e' :
  0 <= tq_timestamp q -> looking q (tq_timestamp q) ->
  filter_sample time_ranges next_tid q ff d e = Ret (err, q', ff', d', e') -> looking q' (tq_timestamp q).
Proof.
  intros Hge0 Hl. unfold filter_sample. destruct (Z.eqb_spec (tq_sel_timestamp q) 0) as [E|Hne]; cbn [negb].
  { intros [= <- <- <- <- <-]. done. }
  destruct (filter_loop_ok Hok fuel q Hge0 Hl Hne (loop_ends q Hl)) as (end_ & q2 & E & Hl2 & _).
  unfold intel_pt_time_filter. unfold mbind, M_bind. rewrite E.
  destruct end_.
  - by intros [= <- <- <- <- <-].
  - cbv zeta. destruct (ff <? _).
    + destruct (tq_sync_switch _); cbn; intros Hr; repeat case_match; try done; cbv [mret M_ret] in Hr;
        injection Hr as <- <- <- <- <-; exact Hl2.
    + by intros [= <- <- <- <- <-].
  - by intros [= <- <- <- <- <-].
Qed.

Lemma filtering_looking q t : filtering q t -> 0 <= t /\ looking q t.
Proof.
  induction 1 as [q q' E|q t q1 ff d e err q' ff' d' e' _ [Hge0 IH] Hsame Hle E].
  - destruct (setup_looking Hok q) as (q2 & E2 & Hl). rewrite E in E2. injection E2 as ->. done.
  - split; [lia|]. eapply filter_keeps_looking; [lia| |exact E]. by eapply looking_later.
Qed.
End filtered.
End select.


(** C38: the ranges asked for are translated exactly.  For a conversion of at most 32
    bits of shift and multiplier that is not of short counters, let each interval of
    perf time begin after [time_zero] or nowhere, and end at least a tick after it or
    nowhere, at times below 2^63 and fewer than 2^62 ticks.  Then
    [intel_pt_setup_time_ranges] turns each into the ticks whose time
    [tsc_to_perf_time] puts within it; its loops end within a few steps more than
    there are ticks in a unit of time. *)
Theorem time_ranges_exact `{Fuel} (tc : perf_tsc_conversion) (p : list (Z * Z)) :
  tc_ok tc -> 2 ^ time_shift tc / time_mult tc + 4 <= Z.of_nat fuel ->
  p <> [] -> Forall (interval_ok tc) p ->
  exists ranges, intel_pt_setup_time_ranges tc true false (Some p) = Some (0, ranges) /\
    Forall2 (ticks_of tc) p ranges.
Proof.
  intros Htc Hf Hne Hp. unfold intel_pt_setup_time_ranges.
  destruct (setup_ranges_ok tc Htc Hf p Hp) as (ranges & E & Hr). exists ranges.
  destruct p as [|iv p]; [done|]. cbn [length negb orb]. destruct (Z.eqb_spec (Z.of_nat (S (length p))) 0); [lia|].
  cbn [orb]. rewrite E. done.
Qed.

(** A time before [time_zero] wraps around: of the interval from 1000 to 9000 for a
    counter that starts at 5000, no tick is selected. *)
Example early_interval :
  intel_pt_setup_time_ranges (mkTc 0 1 5000 0 0 false) true false (Some [(1000, 9000)]) = Some (0, [mkRange (2 ^ 64 - 4000) 4000]).
Proof. by vm_compute. Qed.

(** A counter of 2.4 ticks to the unit, and two intervals, the last without an
    end. *)
Definition tsc_2400 : perf_tsc_conversion := mkTc 31 894784853 1000 0 0 false.

Lemma time_ranges_exact_witness : exists ranges,
  intel_pt_setup_time_ranges tsc_2400 true false (Some [(5000, 9000); (20000, 0)]) = Some (0, ranges) /\
  Forall2 (ticks_of tsc_2400) [(5000, 9000); (20000, 0)] ranges /\ ranges = [mkRange 9601 19202; mkRange 45601 0].
Proof.
  destruct (time_ranges_exact tsc_2400 [(5000, 9000); (20000, 0)]) as (ranges & E & Hr).
  - by split.
  - by vm_compute.
  - done.
  - constructor; [|constructor; [|constructor]]; (split; [right|]).
    + by vm_compute.
    + right. by vm_compute.
    + by vm_compute.
    + by left.
  - exists ranges. split; [exact E|]. split; [exact Hr|].
    assert (intel_pt_setup_time_ranges tsc_2400 true false (Some [(5000, 9000); (20000, 0)]) =
      Some (0, [mkRange 9601 19202; mkRange 45601 0])) as E' by (by vm_compute).
    rewrite E in E'. by injection E'.
Defined.

Definition two_ranges : list range := [mkRange 9601 19202; mkRange 45601 0].
Definition zero_queue : time_queue := mkTq false INTEL_PT_SS_NOT_TRACING true 0 0 false 0.

Lemma two_ranges_ok : ranges_ok two_ranges.
Proof.
  assert (forall i r, range_at two_ranges i r -> i = 0 /\ r = mkRange 9601 19202 \/ i = 1 /\ r = mkRange 45601 0) as Hr.
  { intros i r E. pose proof (idx_inv _ _ _ E) as [Hi _]. cbn in Hi.
    assert (i = 0 \/ i = 1) as [->| ->] by lia; injection E as <-; auto. }
  constructor.
  - done.
  - intros i r E. destruct (Hr i r E) as [[-> ->]|[-> ->]]; done.
  - intros i r E. destruct (Hr i r E) as [[-> ->]|[-> ->]]; [by right|by left].
  - intros i r r' E E'. destruct (Hr _ _ E) as [[-> ->]|[-> ->]], (Hr _ _ E') as [[? ->]|[? ->]]; try lia; done.
  - intros r E. destruct (Hr _ _ E) as [[? ->]|[? ->]]; [done|lia].
Qed.

