(* ===== verification/AuxQueues.v ===== *)
(** Queues of trace buffers: [struct auxtrace_queues] of
    tools/perf/util/auxtrace.c, on a 64-bit or a 32-bit host.  A buffer is
    known by its place in its queue, which only grows at the end. *)
From Stdlib Require Import ZArith Lia List Bool.
From S2P Require Import Prelude Float64 PktDecoder PtStack PtState AuxHeap.
Open Scope Z_scope.
Open Scope c_scope.
Import ListNotations.

(** Computations on queues are given the outcomes of the allocations ([allocs])
    and of the [mmap] calls to come. *)
Record auxtrace_buffer := mkAux {
  ab_size : Z;
  ab_pid : Z;
  ab_tid : Z;
  ab_cpu : Z;
  ab_data : option (list byte); (* NULL if not loaded *)
  ab_data_offset : Z;
  ab_mmap : bool; (* [mmap_addr != NULL] *)
  ab_data_needs_freeing : bool;
  ab_consecutive : bool;
  ab_offset : Z;
  ab_reference : Z;
  ab_buffer_nr : Z;
  ab_use_size : Z;
  ab_use_data : option Z (* NULL, or the distance from [data] *)
}.
#[export] Instance eta_ab : Eta auxtrace_buffer := fun b => mkAux (ab_size b) (ab_pid b) (ab_tid b) (ab_cpu b)
  (ab_data b) (ab_data_offset b) (ab_mmap b) (ab_data_needs_freeing b) (ab_consecutive b) (ab_offset b)
  (ab_reference b) (ab_buffer_nr b) (ab_use_size b) (ab_use_data b).
#[export] Instance set_ab_size : Setter ab_size := ltac:(solve_setter).
#[export] Instance set_ab_data : Setter ab_data := ltac:(solve_setter).
#[export] Instance set_ab_data_offset : Setter ab_data_offset := ltac:(solve_setter).
#[export] Instance set_ab_mmap : Setter ab_mmap := ltac:(solve_setter).
#[export] Instance set_ab_data_needs_freeing : Setter ab_data_needs_freeing := ltac:(solve_setter).
#[export] Instance set_ab_consecutive : Setter ab_consecutive := ltac:(solve_setter).
#[export] Instance set_ab_buffer_nr : Setter ab_buffer_nr := ltac:(solve_setter).
#[export] Instance set_ab_use_size : Setter ab_use_size := ltac:(solve_setter).
#[export] Instance set_ab_use_data : Setter ab_use_data := ltac:(solve_setter).

Record auxtrace_queue := mkQueue {
  aq_head : list auxtrace_buffer;
  aq_tid : Z;
  aq_cpu : Z;
  aq_set : bool;
  aq_priv : option Z
}.

Record auxtrace_queues := mkQueues {
  queue_array : list auxtrace_queue;
  nr_queues : Z;
  new_data : bool;
  populated : bool;
  next_buffer_nr : Z
}.

(** The file the trace is read from, and how: [session->one_mmap], a pipe, or
    neither.  [file_data off n] is [n] bytes at [off]. *)
Class TraceFile := {
  one_mmap : bool;
  is_pipe : bool;
  file_data : Z -> Z -> list byte;
  (* Whether [readn] of so many bytes from the pipe succeeds. *)
  pipe_ok : Z -> bool;
  (* [session->itrace_synth_opts->cpu_bitmap]; [None] is NULL. *)
  cpu_bitmap : option (Z -> bool)
}.

Section queues.
Context `{Platform} `{TraceFile}.

(** [sizeof(struct auxtrace_queue)] *)
Definition sizeof_auxtrace_queue : Z := if bits_per_long =? 32 then 24 else 40.
Definition UINT_MAX : Z := 2 ^ 32 - 1.
Definition SSIZE_MAX : Z := 2 ^ (bits_per_long - 1) - 1.

Definition empty_queue : auxtrace_queue := mkQueue [] 0 0 false None.

Definition auxtrace_alloc_queue_array (alloc : bool) (nr_queues : Z) : option (list auxtrace_queue) :=
  let max_nr_queues := UINT_MAX / sizeof_auxtrace_queue in
  if max_nr_queues <? nr_queues then None
  else if alloc then Some (replicate (Z.to_nat nr_queues) empty_queue)
  else None.

Definition auxtrace_queues__init (alloc : bool) (queues : auxtrace_queues) : Z * auxtrace_queues :=
  let nr := AUXTRACE_INIT_NR_QUEUES in
  match auxtrace_alloc_queue_array alloc nr with
  | Some arr => (0, mkQueues arr nr (new_data queues) (populated queues) (next_buffer_nr queues))
  | None => (- ENOMEM, mkQueues [] nr (new_data queues) (populated queues) (next_buffer_nr queues))
  end.

(** [while (nr_queues && nr_queues < new_nr_queues) nr_queues <<= 1]; after 32
    doublings it is 0. *)
Fixpoint double_loop (fuel : nat) (nr_queues new_nr_queues : Z) : Z :=
  match fuel with
  | O => nr_queues
  | S fuel' =>
    if negb (nr_queues =? 0) && (nr_queues <? new_nr_queues) then
      double_loop fuel' (u32 (nr_queues .<< 1)) new_nr_queues
    else nr_queues
  end.

Definition auxtrace_queues__grow (alloc : bool) (queues : auxtrace_queues) (new_nr_queues : Z)
    : Z * auxtrace_queues :=
  let nr := if nr_queues queues =? 0 then AUXTRACE_INIT_NR_QUEUES else nr_queues queues in
  let nr := double_loop 33 nr new_nr_queues in
  if (nr <? nr_queues queues) || (nr <? new_nr_queues) then (- EINVAL, queues)
  else
    match auxtrace_alloc_queue_array alloc nr with
    | None => (- ENOMEM, queues)
    | Some arr =>
      let old := take (Z.to_nat (nr_queues queues)) (queue_array queues) in
      (0, mkQueues (old ++ drop (length old) arr) nr (new_data queues) (populated queues)
            (next_buffer_nr queues))
    end.

(** The error, the queues and the allocations left; [None] is an access outside
    the array. *)
Definition auxtrace_queues__queue_buffer (a : allocs) (queues : auxtrace_queues) (index : Z)
    (buffer : auxtrace_buffer) : option (Z * auxtrace_queues * allocs) :=
  let '(err, queues, a) :=
    if nr_queues queues <=? index then
      let '(err, queues) := auxtrace_queues__grow (a 0%nat) queues (u32 (index + 1)) in
      (err, queues, next_allocs a)
    else (0, queues, a) in
  if negb (err =? 0) then Some (err, queues, a)
  else
    queue ← idx (queue_array queues) index;
    let buffer := buffer <| ab_buffer_nr := next_buffer_nr queues |> in
    let queue :=
      if aq_set queue then
        mkQueue (aq_head queue ++ [buffer]) (aq_tid queue) (aq_cpu queue) true (aq_priv queue)
      else mkQueue (aq_head queue ++ [buffer]) (ab_tid buffer) (ab_cpu buffer) true (aq_priv queue) in
    arr ← set_at (queue_array queues) index queue;
    Some (0, mkQueues arr (nr_queues queues) true true (u64 (next_buffer_nr queues + 1)), a).

Definition BUFFER_LIMIT_FOR_32_BIT : Z := 32 * 1024 * 1024.

(** The loop of [auxtrace_queues__split_buffer], as often as it can run. *)
Fixpoint split_loop (n : nat) (a : allocs) (queues : auxtrace_queues) (index : Z)
    (buffer : auxtrace_buffer) (sz : Z) (consecutive : bool)
    : option (Z * auxtrace_queues * allocs * auxtrace_buffer) :=
  let done := Some (0, queues, a, buffer <| ab_size := sz |> <| ab_consecutive := consecutive |>) in
  match n with
  | O => done
  | S n' =>
    if BUFFER_LIMIT_FOR_32_BIT <? sz then
      if negb (a 0%nat) then Some (- ENOMEM, queues, next_allocs a, buffer)
      else
        let b := buffer <| ab_size := BUFFER_LIMIT_FOR_32_BIT |> <| ab_consecutive := consecutive |> in
        '(err, queues, a) ← auxtrace_queues__queue_buffer (next_allocs a) queues index b;
        if negb (err =? 0) then Some (err, queues, a, buffer)
        else
          split_loop n' a queues index
            (buffer <| ab_data_offset := ab_data_offset buffer + BUFFER_LIMIT_FOR_32_BIT |>)
            (sz - BUFFER_LIMIT_FOR_32_BIT) true
    else done
  end.

Definition auxtrace_queues__split_buffer (a : allocs) (queues : auxtrace_queues) (index : Z)
    (buffer : auxtrace_buffer) : option (Z * auxtrace_queues * allocs * auxtrace_buffer) :=
  split_loop (S (Z.to_nat (ab_size buffer / BUFFER_LIMIT_FOR_32_BIT))) a queues index buffer
    (ab_size buffer) false.

(** The data and the allocations left. *)
Definition auxtrace_copy_data (a : allocs) (data_offset size : Z) : option (list byte) * allocs :=
  if SSIZE_MAX <? size then (None, a)
  else if negb (a 0%nat) then (None, next_allocs a)
  else if pipe_ok size then (Some (file_data data_offset size), next_allocs a)
  else (None, next_allocs a).

Definition filter_cpu (cpu : Z) : bool :=
  match cpu_bitmap with
  | Some bits => negb (cpu =? -1) && negb (bits cpu)
  | None => false
  end.

Definition auxtrace_queues__add_buffer (a : allocs) (queues : auxtrace_queues) (index : Z)
    (buffer : auxtrace_buffer) : option (Z * auxtrace_queues * allocs) :=
  if filter_cpu (ab_cpu buffer) then Some (0, queues, a)
  else if negb (a 0%nat) then Some (- ENOMEM, queues, next_allocs a)
  else
    let a := next_allocs a in
    if one_mmap then
      auxtrace_queues__queue_buffer a queues index
        (buffer <| ab_data := Some (file_data (ab_data_offset buffer) (ab_size buffer)) |>)
    else if is_pipe then
      match auxtrace_copy_data a (ab_data_offset buffer) (ab_size buffer) with
      | (None, a) => Some (- ENOMEM, queues, a)
      | (Some data, a) =>
        auxtrace_queues__queue_buffer a queues index
          (buffer <| ab_data := Some data |> <| ab_data_needs_freeing := true |>)
      end
    else if (bits_per_long =? 32) && (BUFFER_LIMIT_FOR_32_BIT <? ab_size buffer) then
      '(err, queues, a, buffer) ← auxtrace_queues__split_buffer a queues index buffer;
      if negb (err =? 0) then Some (err, queues, a)
      else auxtrace_queues__queue_buffer a queues index buffer
    else auxtrace_queues__queue_buffer a queues index buffer.

(** ** The data of a buffer *)

(** [mmap_ok]: whether [mmap] succeeds.  [None] is NULL. *)
Definition auxtrace_buffer__get_data_rw (mmap_ok : bool) (buffer : auxtrace_buffer)
    : option (list byte) * auxtrace_buffer :=
  match ab_data buffer with
  | Some data => (Some data, buffer)
  | None =>
    if mmap_ok then
      let data := file_data (ab_data_offset buffer) (ab_size buffer) in
      (Some data, buffer <| ab_mmap := true |> <| ab_data := Some data |>)
    else (None, buffer)
  end.

Definition auxtrace_buffer__put_data (buffer : auxtrace_buffer) : auxtrace_buffer :=
  match ab_data buffer with
  | Some _ =>
    if ab_mmap buffer then
      buffer <| ab_mmap := false |> <| ab_data := None |> <| ab_use_data := None |>
    else buffer
  | None => buffer
  end.

Definition auxtrace_buffer__drop_data (buffer : auxtrace_buffer) : auxtrace_buffer :=
  let buffer := auxtrace_buffer__put_data buffer in
  if ab_data_needs_freeing buffer then
    buffer <| ab_data_needs_freeing := false |> <| ab_data := None |> <| ab_use_data := None |>
      <| ab_size := 0 |>
  else buffer.

(** The place of the next buffer. *)
Definition auxtrace_buffer__next (queue : list auxtrace_buffer) (buffer : option nat) : option nat :=
  let next := match buffer with Some n => S n | None => O end in
  if bool_decide (next < length queue)%nat then Some next else None.
End queues.
