(* ===== verification/PtBatch.v ===== *)
(** Decoding in parallel: the trace is shared out among worker processes
    ([auxtrace_queues__process_index] and [auxtrace_queues__add_event] of
    tools/perf/util/auxtrace.c), each of which hands the decoder its share
    ([intel_pt_get_trace] and [intel_pt_lookahead] of
    tools/perf/util/intel-pt.c). *)
From Stdlib Require Import ZArith Lia List Bool.
From S2P Require Import Prelude Float64 PktDecoder PtStack PtState PtTime PtReader PtDecode AuxCache AuxHeap AuxQueues.
Open Scope Z_scope.
Open Scope c_scope.
Import ListNotations.

(** ** The state of a process *)

Record parallel_cache_entry := mkPar {
  batch_add : Z;
  buffer_add : Z;
  last_psb_add : Z;
  buffer_lookahead : Z;
  last_psb_lookahead : Z
}.
#[export] Instance eta_par : Eta parallel_cache_entry := fun e =>
  mkPar (batch_add e) (buffer_add e) (last_psb_add e) (buffer_lookahead e) (last_psb_lookahead e).
#[export] Instance set_batch_add : Setter batch_add := ltac:(solve_setter).
#[export] Instance set_buffer_add : Setter buffer_add := ltac:(solve_setter).
#[export] Instance set_last_psb_add : Setter last_psb_add := ltac:(solve_setter).
#[export] Instance set_buffer_lookahead : Setter buffer_lookahead := ltac:(solve_setter).
#[export] Instance set_last_psb_lookahead : Setter last_psb_lookahead := ltac:(solve_setter).

Definition zero_par : parallel_cache_entry := mkPar 0 0 0 0 0.

(** The globals of the parallel code.  Entries of the cache are pointers into
    [thread_entries]. *)
Record proc := mkProc {
  total_event : Z;
  total_auxtrace_size : Z;
  parallel_step : Z;
  parallel_auxtrace_size : Z;
  total_event_added : Z;
  auxtrace_size_added : Z;
  parallel_event_added : Z;
  parallel_batch : Z;
  parallel_file_offset_start : Z;
  parallel_file_count : Z;
  parallel_child_pid : Z;
  worker_pids : list Z;
  cpu_batch_events : list parallel_cache_entry;
  thread_batch_events : option (auxtrace_cache nat); (* [None] is NULL *)
  thread_entries : list parallel_cache_entry;
  cpu_thread_size : Z;
  cpu_thread_last_psb_add : Z;
  p_queues : auxtrace_queues;
  p_allocs : allocs
}.
#[export] Instance eta_proc : Eta proc := fun s =>
  mkProc (total_event s) (total_auxtrace_size s) (parallel_step s) (parallel_auxtrace_size s)
    (total_event_added s) (auxtrace_size_added s) (parallel_event_added s) (parallel_batch s)
    (parallel_file_offset_start s) (parallel_file_count s) (parallel_child_pid s) (worker_pids s)
    (cpu_batch_events s) (thread_batch_events s) (thread_entries s) (cpu_thread_size s)
    (cpu_thread_last_psb_add s) (p_queues s) (p_allocs s).
#[export] Instance set_total_event : Setter total_event := ltac:(solve_setter).
#[export] Instance set_total_auxtrace_size : Setter total_auxtrace_size := ltac:(solve_setter).
#[export] Instance set_parallel_step : Setter parallel_step := ltac:(solve_setter).
#[export] Instance set_parallel_auxtrace_size : Setter parallel_auxtrace_size := ltac:(solve_setter).
#[export] Instance set_total_event_added : Setter total_event_added := ltac:(solve_setter).
#[export] Instance set_auxtrace_size_added : Setter auxtrace_size_added := ltac:(solve_setter).
#[export] Instance set_parallel_event_added : Setter parallel_event_added := ltac:(solve_setter).
#[export] Instance set_parallel_batch : Setter parallel_batch := ltac:(solve_setter).
#[export] Instance set_parallel_file_offset_start : Setter parallel_file_offset_start := ltac:(solve_setter).
#[export] Instance set_parallel_file_count : Setter parallel_file_count := ltac:(solve_setter).
#[export] Instance set_parallel_child_pid : Setter parallel_child_pid := ltac:(solve_setter).
#[export] Instance set_worker_pids : Setter worker_pids := ltac:(solve_setter).
#[export] Instance set_cpu_batch_events : Setter cpu_batch_events := ltac:(solve_setter).
#[export] Instance set_thread_batch_events : Setter thread_batch_events := ltac:(solve_setter).
#[export] Instance set_thread_entries : Setter thread_entries := ltac:(solve_setter).
#[export] Instance set_cpu_thread_size : Setter cpu_thread_size := ltac:(solve_setter).
#[export] Instance set_cpu_thread_last_psb_add : Setter cpu_thread_last_psb_add := ltac:(solve_setter).
#[export] Instance set_p_queues : Setter p_queues := ltac:(solve_setter).
#[export] Instance set_p_allocs : Setter p_allocs := ltac:(solve_setter).

Definition MAX_CPUS : Z := 2048.

(** [struct perf_record_auxtrace], and an entry of the index with what the file
    holds at its offset: an error, a trace event and the size in its header, or
    another event. *)
Record auxtrace_event := mkEvent {
  ev_size : Z;
  ev_offset : Z;
  ev_reference : Z;
  ev_idx : Z;
  ev_tid : Z;
  ev_cpu : Z
}.
Inductive peeked := PeekErr (err : Z) | PeekAuxtrace (header_size : Z) (ev : auxtrace_event) | PeekOther.
Record auxtrace_index_entry := mkEnt { ent_file_offset : Z; ent_sz : Z; ent_peek : peeked }.

Definition sizeof_perf_record_auxtrace : Z := 48.

Section parallel.
Context `{Platform} `{TraceFile}.
(** The options: [--parallel], by events or by size, and the threads asked for
    ([symbol_conf.tid_list]). *)
Context (parallel_worker : Z) (parallel_by_events : bool) (tid_list : option (list Z)).

Definition thread__is_filter_by_tid (tid : Z) : bool :=
  match tid_list with
  | Some l => negb (bool_decide (tid ∈ l))
  | None => false
  end.

(** ** Sharing out the events *)

(** The entry of a CPU or of a thread; [None] here and below is a bad access. *)
Inductive entry_ref := CpuEntry (cpu : Z) | ThreadEntry (n : nat).

Definition get_entry (s : proc) (r : entry_ref) : option parallel_cache_entry :=
  match r with
  | CpuEntry cpu => idx (cpu_batch_events s) cpu
  | ThreadEntry n => thread_entries s !! n
  end.
Definition set_entry (s : proc) (r : entry_ref) (e : parallel_cache_entry) : option proc :=
  match r with
  | CpuEntry cpu =>
    l ← set_at (cpu_batch_events s) cpu e;
    Some (s <| cpu_batch_events := l |>)
  | ThreadEntry n =>
    if bool_decide (n < length (thread_entries s))%nat then
      Some (s <| thread_entries ::= <[n := e]> |>)
    else None
  end.

(** [auxtrace_cache__lookup(thread_batch_events, tid)] *)
Definition thread_lookup (s : proc) (tid : Z) : option (option nat) :=
  match thread_batch_events s with
  | Some c => auxtrace_cache__lookup c tid
  | None => Some None
  end.

(** A new entry for the thread. *)
Definition thread_add (s : proc) (tid : Z) : option (nat * proc) :=
  c ← thread_batch_events s;
  if p_allocs s 0%nat then
    let n := length (thread_entries s) in
    c ← auxtrace_cache__add c tid n;
    Some (n, s <| p_allocs ::= next_allocs |> <| thread_entries ::= fun l => l ++ [zero_par] |>
               <| thread_batch_events := Some c |>)
  else None.

Definition add_to_batch (s : proc) (event : auxtrace_event) : option proc :=
  let s := s <| parallel_batch ::= fun n => u64 (n + 1) |> in
  if negb (ev_cpu event =? UINT_MAX) then
    let r := CpuEntry (ev_cpu event) in
    e ← get_entry s r;
    let s := if batch_add e =? 0 then s <| cpu_thread_size ::= fun n => u64 (n + 1) |> else s in
    set_entry s r (e <| batch_add ::= fun n => swrap 32 (n + 1) |>)
  else
    found ← thread_lookup s (ev_tid event);
    '(n, s) ← (match found with
               | Some n => Some (n, s)
               | None => thread_add (s <| cpu_thread_size ::= fun n => u64 (n + 1) |>) (ev_tid event)
               end);
    e ← get_entry s (ThreadEntry n);
    set_entry s (ThreadEntry n) (e <| batch_add ::= fun n => swrap 32 (n + 1) |>).

Definition in_batch (s : proc) : bool :=
  if parallel_by_events then
    total_event_added s <? u64 (parallel_file_count s * parallel_step s)
  else auxtrace_size_added s <? u64 (parallel_file_count s * parallel_auxtrace_size s).

(** What a process does when [fork] has returned [pid]. *)
Definition after_fork (pid data_offset : Z) (s : proc) : option proc :=
  let s := s <| parallel_child_pid := pid |> in
  s ← (if pid =? 0 then Some (s <| parallel_file_offset_start := data_offset |>)
       else
         w ← set_at (worker_pids s) (parallel_file_count s) pid;
         Some (s <| worker_pids := w |>));
  Some (s <| parallel_file_count ::= fun n => swrap 32 (n + 1) |>).

Definition buffer_of_event (event : auxtrace_event) (data_offset : Z) : auxtrace_buffer :=
  mkAux (ev_size event) (-1) (swrap 32 (ev_tid event)) (swrap 32 (ev_cpu event)) None data_offset false
    false false (ev_offset event) (ev_reference event) 0 0 None.

(** The rest of [auxtrace_queues__add_event], from [if (total_event_added ==
    total_event)]: the return value and the process. *)
Definition count_event (event : auxtrace_event) (data_offset : Z) (batch : bool) (s : proc)
    : option (Z * proc) :=
  let add (s : proc) :=
    '(err, queues, a) ← auxtrace_queues__add_buffer (p_allocs s) (p_queues s) (ev_idx event)
                          (buffer_of_event event data_offset);
    Some (err, s <| p_queues := queues |> <| p_allocs := a |>) in
  if 1 <? parallel_worker then
    if total_event_added s =? total_event s then Some (0, s)
    else
      let s := s <| total_event_added ::= fun n => u64 (n + 1) |>
                 <| auxtrace_size_added ::= fun n => u64 (n + ev_size event) |> in
      if negb (parallel_child_pid s =? 0) then Some (0, s)
      else
        s ← (if batch then add_to_batch s event else Some s);
        add (s <| parallel_event_added ::= fun n => u64 (n + 1) |>)
  else add s.

(** The process that calls it, and the one it forks; [pid] is what [fork]
    returns in the former. *)
Definition auxtrace_queues__add_event (pid : Z) (event : auxtrace_event) (data_offset : Z) (s : proc)
    : option ((Z * proc) * option (Z * proc)) :=
  let batch := in_batch s in
  if (1 <? parallel_worker) && negb (parallel_child_pid s =? 0) && negb batch
     && (total_event_added s <? total_event s) then
    parent ← after_fork pid data_offset s;
    parent ← count_event event data_offset true parent;
    if pid <? 0 then Some (parent, None)
    else
      child ← after_fork 0 data_offset s;
      child ← count_event event data_offset true child;
      Some (parent, Some child)
  else
    r ← count_event event data_offset batch s;
    Some (r, None).

Definition auxtrace_queues__get_auxtrace_size (ent : auxtrace_index_entry) : Z :=
  match ent_peek ent with
  | PeekAuxtrace header_size event =>
    if (header_size <? sizeof_perf_record_auxtrace) || negb (header_size =? ent_sz ent) then 0
    else if (ev_cpu event =? UINT_MAX) && thread__is_filter_by_tid (swrap 32 (ev_tid event)) then 0
    else ev_size event
  | _ => 0
  end.

Definition auxtrace_queues__add_indexed_event (pid : Z) (ent : auxtrace_index_entry) (s : proc)
    : option ((Z * proc) * option (Z * proc)) :=
  match ent_peek ent with
  | PeekErr err => Some ((err, s), None)
  | PeekOther => Some ((0, s), None)
  | PeekAuxtrace header_size event =>
    if (header_size <? sizeof_perf_record_auxtrace) || negb (header_size =? ent_sz ent) then
      Some ((- EINVAL, s), None)
    else if (ev_cpu event =? UINT_MAX) && thread__is_filter_by_tid (swrap 32 (ev_tid event)) then
      Some ((0, s), None)
    else auxtrace_queues__add_event pid event (u64 (ent_file_offset ent + header_size)) s
  end.

(** The loop over the index in a process that does not fork. *)
Fixpoint index_loop (ents : list auxtrace_index_entry) (s : proc) : option (Z * proc) :=
  match ents with
  | [] => Some (0, s)
  | ent :: ents =>
    '((err, s), _) ← auxtrace_queues__add_indexed_event 0 ent s;
    if negb (err =? 0) then Some (err, s) else index_loop ents s
  end.

(** The loop in the first process, and every process it forks on its own way
    through the rest of the index.  [forks] are the results of [fork]. *)
Fixpoint index_loop_forking (forks : list Z) (ents : list auxtrace_index_entry) (s : proc)
    : option ((Z * proc) * list (Z * proc)) :=
  match ents with
  | [] => Some ((0, s), [])
  | ent :: ents =>
    '((err, s), child) ← auxtrace_queues__add_indexed_event (default (-1) (head forks)) ent s;
    let forks := match child with Some _ => tail forks | None => forks end in
    child ← (match child with
             | None => Some []
             | Some (err, c) =>
               if negb (err =? 0) then Some [(err, c)]
               else r ← index_loop ents c; Some [r]
             end);
    if negb (err =? 0) then Some ((err, s), child)
    else
      '(parent, children) ← index_loop_forking forks ents s;
      Some (parent, child ++ children)
  end.

(** Before the loop. *)
Definition start_parallel (ents : list auxtrace_index_entry) (s : proc) : proc :=
  if 1 <? parallel_worker then
    let s := fold_left (fun s ent =>
               s <| total_event ::= fun n => u64 (n + 1) |>
                 <| total_auxtrace_size ::= fun n => u64 (n + auxtrace_queues__get_auxtrace_size ent) |>)
               ents s in
    let '(alloc, a) := (p_allocs s 0%nat, next_allocs (p_allocs s)) in
    s <| parallel_step := u64 (total_event s / parallel_worker + 1) |>
      <| parallel_auxtrace_size := u64 (total_auxtrace_size s / parallel_worker + 1) |>
      <| worker_pids := replicate (Z.to_nat parallel_worker) 0 |>
      <| cpu_batch_events := replicate (Z.to_nat MAX_CPUS) zero_par |>
      <| thread_batch_events := auxtrace_cache__new alloc 12 10000 |>
      <| p_allocs := a |>
  else s.

(** The first process and the workers, each with its error: the state in which
    [perf_session__process_events] goes on. *)
Definition auxtrace_queues__process_index (forks : list Z) (ents : list auxtrace_index_entry) (s : proc)
    : option ((Z * proc) * list (Z * proc)) :=
  index_loop_forking forks ents (start_parallel ents s).
End parallel.

(** ** Handing out the trace *)

(** What the callbacks of a decoder use: the process, the queue ([queue_nr]),
    the buffers held ([ptq->buffer], [ptq->old_buffer]), the flags of [ptq],
    and [current_decode_cpu] and [current_decode_tid], which are [size_t]. *)
Record trace_input := mkInput {
  in_proc : proc;
  in_queue_nr : Z;
  in_buffer : option nat;
  in_old_buffer : option nat;
  in_stop : bool;
  in_step_through_buffers : bool;
  in_decode_cpu : Z;
  in_decode_tid : Z
}.
#[export] Instance eta_input : Eta trace_input := fun s => mkInput (in_proc s) (in_queue_nr s) (in_buffer s)
  (in_old_buffer s) (in_stop s) (in_step_through_buffers s) (in_decode_cpu s) (in_decode_tid s).
#[export] Instance set_in_proc : Setter in_proc := ltac:(solve_setter).
#[export] Instance set_in_buffer : Setter in_buffer := ltac:(solve_setter).
#[export] Instance set_in_old_buffer : Setter in_old_buffer := ltac:(solve_setter).
#[export] Instance set_in_stop : Setter in_stop := ltac:(solve_setter).

(** The flags of [struct intel_pt]. *)
Record trace_options := mkOptions {
  pt_snapshot_mode : bool;
  pt_sampling_mode : bool;
  pt_have_tsc : bool;
  pt_vm_time_correlation : bool
}.

Definition zero_buffer : intel_pt_buffer := mkBuffer [] 0 false 0 0.

Section input.
Context `{Platform} `{TraceFile} (parallel_worker : Z) (pt : trace_options).

(** The buffers of the queue. *)
Definition get_queue (s : trace_input) : option (list auxtrace_buffer) :=
  queue ← idx (queue_array (p_queues (in_proc s))) (in_queue_nr s);
  Some (aq_head queue).
Definition set_queue (s : trace_input) (head : list auxtrace_buffer) : option trace_input :=
  let qs := p_queues (in_proc s) in
  queue ← idx (queue_array qs) (in_queue_nr s);
  arr ← set_at (queue_array qs) (in_queue_nr s)
    (mkQueue head (aq_tid queue) (aq_cpu queue) (aq_set queue) (aq_priv queue));
  let qs := mkQueues arr (nr_queues qs) (new_data qs) (populated qs) (next_buffer_nr qs) in
  Some (s <| in_proc ::= fun p => p <| p_queues := qs |> |>).
Definition get_buffer_at (s : trace_input) (n : nat) : option auxtrace_buffer :=
  q ← get_queue s; q !! n.
Definition set_buffer_at (s : trace_input) (n : nat) (b : auxtrace_buffer) : option trace_input :=
  q ← get_queue s; set_queue s (<[n := b]> q).

Definition drop_data (s : trace_input) (n : nat) : option trace_input :=
  b ← get_buffer_at s n;
  set_buffer_at s n (auxtrace_buffer__drop_data b).

(** The data between two buffers that may overlap: [b] as it is after, [None]
    a bad access.  ([intel_pt_find_overlap] does not return NULL.) *)
Definition intel_pt_do_fix_overlap (a b : auxtrace_buffer) : option auxtrace_buffer :=
  mem_a ← ab_data a;
  mem_b ← ab_data b;
  '(start, consecutive) ← intel_pt_find_overlap (take (Z.to_nat (ab_size a)) mem_a)
    (take (Z.to_nat (ab_size b)) mem_b) (pt_have_tsc pt) (pt_vm_time_correlation pt);
  let b :=
    if pt_vm_time_correlation pt then
      b <| ab_data := Some (replicate (Z.to_nat start) x00 ++ drop (Z.to_nat start) mem_b) |>
    else b in
  let b := b <| ab_use_size := ab_size b - start |> <| ab_use_data := Some start |> in
  Some (if negb (ab_use_size b =? 0) && consecutive then b <| ab_consecutive := true |> else b).

(** The error, the buffer and [*b]. *)
Definition intel_pt_get_buffer (mmap_ok : bool) (buffer : auxtrace_buffer)
    (old_buffer : option auxtrace_buffer) (b : intel_pt_buffer)
    : option (Z * auxtrace_buffer * intel_pt_buffer) :=
  let '(data, buffer) := auxtrace_buffer__get_data_rw mmap_ok buffer in
  match data with
  | None => Some (- ENOMEM, buffer, b)
  | Some _ =>
    let might_overlap := pt_snapshot_mode pt || pt_sampling_mode pt in
    buffer ← (match old_buffer with
              | Some old =>
                if might_overlap && negb (ab_consecutive buffer) then intel_pt_do_fix_overlap old buffer
                else Some buffer
              | None => Some buffer
              end);
    mem ← ab_data buffer;
    let '(buf, len) :=
      match ab_use_data buffer with
      | Some start => (drop (Z.to_nat start) mem, ab_use_size buffer)
      | None => (mem, ab_size buffer)
      end in
    let first :=
      match old_buffer with
      | None => true
      | Some _ => might_overlap && negb (ab_consecutive buffer)
      end in
    Some (0, buffer,
          if first then mkBuffer buf len false (ab_reference buffer) (u64 (ab_buffer_nr buffer + 1))
          else mkBuffer buf len true (ab_reference buffer) (b_trace_nr b))
  end.

Definition next_mmap (s : trace_input) : bool * trace_input :=
  (p_allocs (in_proc s) 0%nat, s <| in_proc ::= fun p => p <| p_allocs ::= next_allocs |> |>).

(** [intel_pt_get_buffer] on places of the queue. *)
Definition get_buffer (s : trace_input) (buffer : nat) (old_buffer : option nat) (b : intel_pt_buffer)
    : option (Z * trace_input * intel_pt_buffer) :=
  buf ← get_buffer_at s buffer;
  old ← (match old_buffer with
         | Some n => old ← get_buffer_at s n; Some (Some old)
         | None => Some None
         end);
  let '(ok, s) := next_mmap s in
  '(err, buf, b) ← intel_pt_get_buffer ok buf old b;
  s ← set_buffer_at s buffer buf;
  Some (err, s, b).

Definition intel_pt_lookahead_drop_buffer (s : trace_input) (buffer : option nat) : option trace_input :=
  match buffer with
  | None => Some s
  | Some n =>
    if bool_decide (in_buffer s = Some n) || bool_decide (in_old_buffer s = Some n) then Some s
    else drop_data s n
  end.

(** The batch of the CPU or thread that is decoded, if it has any. *)
Definition batch_entry (s : trace_input) : option (option entry_ref) :=
  if in_decode_cpu s <? MAX_CPUS then Some (Some (CpuEntry (in_decode_cpu s)))
  else
    match thread_lookup (in_proc s) (in_decode_tid s) with
    | None => None
    | Some None => Some None
    | Some (Some n) => Some (Some (ThreadEntry n))
    end.

(** The first PSB of the buffer. *)
Definition first_psb (b : intel_pt_buffer) : option Z :=
  memmem (take (Z.to_nat (b_len b)) (b_buf b)) INTEL_PT_PSB_STR.
Definition set_len (b : intel_pt_buffer) (len : Z) : intel_pt_buffer :=
  mkBuffer (b_buf b) len (b_consecutive b) (b_ref_timestamp b) (b_trace_nr b).

(** An entry with events in the batch; [None] if there is none. *)
Definition entry_in_batch (s : trace_input) : option (option (entry_ref * parallel_cache_entry)) :=
  r ← batch_entry s;
  match r with
  | None => Some None
  | Some r =>
    e ← get_entry (in_proc s) r;
    Some (if batch_add e =? 0 then None else Some (r, e))
  end.

Definition update_entry (s : trace_input) (r : entry_ref) (e : parallel_cache_entry)
    : option trace_input :=
  p ← set_entry (in_proc s) r e;
  Some (s <| in_proc := p |>).

Definition incr (n : Z) : Z := swrap 32 (n + 1).

(** The part for [parallel_worker > 1] of [intel_pt_lookahead]. *)
Definition lookahead_batch (s : trace_input) (b : intel_pt_buffer)
    : option (trace_input * intel_pt_buffer) :=
  if 1 <? parallel_worker then
    found ← entry_in_batch s;
    match found with
    | None => Some (s, set_len b 0)
    | Some (r, e) =>
      let '(e, b) :=
        if buffer_lookahead e <? batch_add e then (e, b)
        else if last_psb_lookahead e =? 0 then
          match first_psb b with
          | Some n => (e <| last_psb_lookahead ::= incr |>, set_len b n)
          | None => (e, b)
          end
        else (e, set_len b 0) in
      s ← update_entry s r (e <| buffer_lookahead ::= incr |>);
      Some (s, b)
    end
  else Some (s, b).

(** After the loop. *)
Definition lookahead_finish {X : Type} (err : Z) (s : trace_input) (buffer old_buffer : option nat) (x : X)
    : option (Z * trace_input * X) :=
  s ← (if bool_decide (buffer <> old_buffer) then intel_pt_lookahead_drop_buffer s buffer else Some s);
  s ← intel_pt_lookahead_drop_buffer s old_buffer;
  Some (err, s, x).

(** The loop, with as many turns as there are buffers ahead: the error, the
    state and the callback's data. *)
Fixpoint trace_lookahead_loop {X : Type} (n : nat) (cb : intel_pt_buffer -> X -> Z * X) (s : trace_input)
    (buffer old_buffer : option nat) (x : X) : option (Z * trace_input * X) :=
  match n with
  | O => None
  | S n' =>
    q ← get_queue s;
    match auxtrace_buffer__next q buffer with
    | None => lookahead_finish 0 s None old_buffer x
    | Some next =>
      '(err, s, b) ← get_buffer s next old_buffer zero_buffer;
      if negb (err =? 0) then lookahead_finish err s (Some next) old_buffer x
      else
        '(s, b) ← lookahead_batch s b;
        if negb (b_len b =? 0) then
          s ← intel_pt_lookahead_drop_buffer s old_buffer;
          let '(err, x) := cb b x in
          if negb (err =? 0) then lookahead_finish err s (Some next) (Some next) x
          else trace_lookahead_loop n' cb s (Some next) (Some next) x
        else
          s ← intel_pt_lookahead_drop_buffer s (Some next);
          trace_lookahead_loop n' cb s (Some next) old_buffer x
    end
  end.

Definition intel_pt_lookahead {X : Type} (cb : intel_pt_buffer -> X -> Z * X) (s : trace_input) (x : X)
    : option (Z * trace_input * X) :=
  q ← get_queue s;
  trace_lookahead_loop (S (length q)) cb s (in_buffer s) (in_old_buffer s) x.

(** The part for [parallel_worker > 1] of [intel_pt_get_trace]. *)
Definition get_trace_batch (s : trace_input) (b : intel_pt_buffer)
    : option (trace_input * intel_pt_buffer) :=
  if 1 <? parallel_worker then
    found ← entry_in_batch s;
    match found with
    | None => Some (s, set_len b 0)
    | Some (r, e) =>
      let '(s, e, b) :=
        if buffer_add e <? batch_add e then (s, e, b)
        else if last_psb_add e =? 0 then
          match first_psb b with
          | Some n =>
            (s <| in_proc ::= fun p => p <| cpu_thread_last_psb_add ::= fun n => u64 (n + 1) |> |>,
             e <| last_psb_add ::= incr |> <| last_psb_lookahead ::= incr |>, set_len b n)
          | None => (s, e, b)
          end
        else (s, e, set_len b 0) in
      let e := e <| buffer_add ::= incr |> in
      let e := if buffer_lookahead e <? buffer_add e then e <| buffer_lookahead := buffer_add e |> else e in
      s ← update_entry s r e;
      Some (s, b)
    end
  else Some (s, b).

(** The recursion, with as many turns as there are buffers ahead. *)
Fixpoint get_trace_loop (n : nat) (s : trace_input) (b : intel_pt_buffer)
    : option (Z * trace_input * intel_pt_buffer) :=
  match n with
  | O => None
  | S n' =>
    if in_stop s then Some (0, s, set_len b 0)
    else
      q ← get_queue s;
      match auxtrace_buffer__next q (in_buffer s) with
      | None =>
        s ← (match in_old_buffer s with Some n => drop_data s n | None => Some s end);
        Some (0, s, set_len b 0)
      | Some next =>
        let old_buffer := in_old_buffer s in
        let s := s <| in_buffer := Some next |> in
        '(err, s, b) ← get_buffer s next old_buffer b;
        if negb (err =? 0) then Some (err, s, b)
        else
          '(s, b) ← get_trace_batch s b;
          let s := if in_step_through_buffers s then s <| in_stop := true |> else s in
          if negb (b_len b =? 0) then
            s ← (match old_buffer with Some n => drop_data s n | None => Some s end);
            Some (0, s <| in_old_buffer := Some next |>, b)
          else
            s ← drop_data s next;
            get_trace_loop n' s b
      end
  end.

Definition intel_pt_get_trace (s : trace_input) (b : intel_pt_buffer)
    : option (Z * trace_input * intel_pt_buffer) :=
  q ← get_queue s;
  get_trace_loop (S (length q)) s b.
End input.
