(* ===== verification/PtBatchInput.v ===== *)
(** The shares of the workers of a parallel run, and the trace they are handed. *)
From Stdlib Require Import ZArith Lia List Bool.
From S2P Require Import Prelude PktDecoder PtStack Float64 PtState PtTime PtReader PtWalk PtTrace PtVmTime.
From S2P Require Import PtDecode PtSafe PtSafeReader PtSafeWalk PtExample PtTotal PtScan AuxCache AuxHeap.
From S2P Require Import AuxQueues PtBatch.
Open Scope Z_scope.
Open Scope c_scope.
Import ListNotations.

Local Notation PSB := INTEL_PT_PSB_STR.
Local Notation occ := (occurs PSB).

(** What is decoded of a trace: from its first PSB. *)
Definition from_psb (bytes : list byte) : list byte :=
  match memmem bytes PSB with
  | Some o => drop (Z.to_nat o) bytes
  | None => []
  end.

(** The buffers handed out after a batch: all up to the first PSB. *)
Fixpoint up_to_psb (bss : list (list byte)) : list (list byte) :=
  match bss with
  | [] => []
  | bs :: bss =>
    match memmem bs PSB with
    | Some o => [take (Z.to_nat o) bs]
    | None => bs :: up_to_psb bss
    end
  end.

(** The share of a worker with a batch of [n] buffers, the first of [bss]. *)
Definition share (n : nat) (bss : list (list byte)) : list (list byte) :=
  match n with
  | O => []
  | S _ => take n bss ++ up_to_psb (drop n bss)
  end.

(** No PSB begins in a buffer and ends in a later one. *)
Definition whole_psbs (bss : list (list byte)) : Prop :=
  forall pre x post i, bss = pre ++ x :: post ->
    occ (x ++ concat post) i -> (i < length x)%nat -> (i + 16 <= length x)%nat.

Lemma whole_psbs_tail x bss : whole_psbs (x :: bss) -> whole_psbs bss.
Proof. intros Hw pre y post i -> Ho Hi. by apply (Hw (x :: pre) y post i). Qed.

Lemma whole_psbs_app_r xs bss : whole_psbs (xs ++ bss) -> whole_psbs bss.
Proof. induction xs as [|x xs IH]; [done|]. intros Hw. by apply IH, (whole_psbs_tail x). Qed.

(** It is decidable. *)
#[export] Instance occurs_dec needle hay i : Decision (occurs needle hay i).
Proof. unfold occurs. apply _. Defined.

Fixpoint whole_psbs_b (bss : list (list byte)) : bool :=
  match bss with
  | [] => true
  | x :: bss =>
    forallb (fun i => negb (bool_decide (occ (x ++ concat bss) i)) || (i + 16 <=? length x)%nat) (seq 0 (length x)) &&
    whole_psbs_b bss
  end.

Lemma whole_psbs_b_ok bss : whole_psbs_b bss = true -> whole_psbs bss.
Proof.
  induction bss as [|y bss IH]; intros E pre x post i Hb Ho Hi; [by destruct pre|].
  cbn [whole_psbs_b] in E. apply andb_prop in E as [Hy E]. destruct pre as [|z pre].
  - injection Hb as -> ->. rewrite forallb_forall in Hy. specialize (Hy i ltac:(apply in_seq; lia)).
    rewrite bool_decide_true in Hy by done. by apply Nat.leb_le.
  - injection Hb as -> ->. by apply (IH E pre x post i).
Qed.

Lemma occ_lt bs i : occ bs i -> (i + 16 <= length bs)%nat.
Proof. by apply occurs_lt. Qed.

Lemma occ_cut a b i : (i + 16 <= length a)%nat -> occ (a ++ b) i <-> occ a i.
Proof. apply (occurs_app_l PSB). Qed.

(** With whole PSBs, one found in buffers put together is in one of them. *)
Lemma occ_in_front xs bss i :
  whole_psbs (xs ++ bss) -> occ (concat (xs ++ bss)) i -> (i < length (concat xs))%nat ->
  (i + 16 <= length (concat xs))%nat.
Proof.
  revert i. induction xs as [|x xs IH]; intros i Hw Ho Hi; [cbn in Hi; lia|].
  cbn [app concat] in *. rewrite length_app in *.
  destruct (decide (i < length x)%nat) as [Hx|Hx].
  - pose proof (Hw [] x (xs ++ bss) i eq_refl Ho Hx). lia.
  - replace i with (length x + (i - length x))%nat in Ho by lia. apply occurs_app_r in Ho.
    apply whole_psbs_tail in Hw. pose proof (IH (i - length x)%nat Hw Ho ltac:(lia)). lia.
Qed.

Lemma memmem_whole x bss : whole_psbs (x :: bss) -> memmem x PSB = None ->
  memmem (x ++ concat bss) PSB = Z.add (Z.of_nat (length x)) <$> memmem (concat bss) PSB.
Proof.
  intros Hw Hn. rewrite memmem_None in Hn.
  assert (forall i, occ (x ++ concat bss) i -> (length x <= i)%nat /\ occ (concat bss) (i - length x)) as Hlow.
  { intros i Ho. destruct (decide (i < length x)%nat) as [Hx|Hx].
    - pose proof (Hw [] x bss i eq_refl Ho Hx). destruct (Hn i). by eapply occ_cut.
    - split; [lia|]. apply (occurs_app_r PSB x). by replace (length x + (i - length x))%nat with i by lia. }
  destruct (memmem (concat bss) PSB) as [o|] eqn:E; cbn [fmap option_fmap option_map].
  - apply memmem_Some in E as (i & -> & Ho & Hf). apply memmem_Some. exists (length x + i)%nat.
    split; [lia|]. split; [by apply occurs_app_r|]. intros j Hj Ho'. apply Hlow in Ho' as [Hge Ho'].
    apply (Hf (j - length x)%nat); [lia|done].
  - rewrite memmem_None in *. intros j Ho'. apply Hlow in Ho' as [_ Ho']. by eapply E.
Qed.

Lemma up_to_psb_concat bss : whole_psbs bss ->
  concat (up_to_psb bss) =
    match memmem (concat bss) PSB with
    | Some o => take (Z.to_nat o) (concat bss)
    | None => concat bss
    end.
Proof.
  induction bss as [|x bss IH]; intros Hw; [done|]. cbn [up_to_psb concat].
  destruct (memmem x PSB) as [o|] eqn:E.
  - rewrite (memmem_hit x (concat bss) o E). cbn [concat]. rewrite app_nil_r.
    apply memmem_Some in E as (i & -> & Ho & _). apply occ_lt in Ho. rewrite Nat2Z.id, take_app_le by lia. done.
  - cbn [concat]. rewrite (memmem_whole x bss Hw E), IH by by eapply whole_psbs_tail.
    destruct (memmem (concat bss) PSB) as [o|] eqn:E'; cbn [fmap option_fmap option_map]; [|done].
    apply memmem_Some in E' as (i & -> & _). rewrite Nat2Z.id.
    replace (Z.to_nat (Z.of_nat (length x) + Z.of_nat i)) with (length x + i)%nat by lia.
    by rewrite take_app_add.
Qed.

(** A share and what follows it, decoded apart, are the two decoded together. *)
Lemma share_covers xs bss : xs <> [] -> whole_psbs (xs ++ bss) ->
  from_psb (concat (xs ++ up_to_psb bss)) ++ from_psb (concat bss) = from_psb (concat (xs ++ bss)).
Proof.
  intros _ Hw. rewrite concat_app, (up_to_psb_concat bss) by by eapply whole_psbs_app_r.
  pose proof (fun i => occ_in_front xs bss i Hw) as Hfront. rewrite concat_app in *.
  set (a := concat xs) in *. set (c := concat bss) in *. clearbody a c.
  unfold from_psb. destruct (memmem c PSB) as [o|] eqn:E; [|by rewrite app_nil_r].
  apply memmem_Some in E as (i & -> & Ho & Hf). rewrite Nat2Z.id. pose proof (occ_lt _ _ Ho) as Hi.
  assert (length (take i c) = i) as Hlen by (rewrite length_take; lia).
  assert (a ++ c = (a ++ take i c) ++ drop i c) as Eac by (by rewrite <- (assoc_L (++)), take_drop).
  destruct (memmem (a ++ take i c) PSB) as [p|] eqn:Ep.
  - rewrite Eac, (memmem_hit _ (drop i c) p Ep).
    apply memmem_Some in Ep as (j & -> & Hj & _). apply occ_lt in Hj. rewrite length_app, Hlen in Hj.
    rewrite Nat2Z.id, (drop_app_le (a ++ take i c)) by (rewrite length_app; lia). done.
  - cbn [app]. rewrite memmem_None in Ep.
    assert (memmem (a ++ c) PSB = Some (Z.of_nat (length a + i))) as ->.
    { apply memmem_Some. exists (length a + i)%nat. split; [done|]. split; [by apply occurs_app_r|].
      intros j Hj Hoj. destruct (decide (j < length a)%nat) as [Hja|Hja].
      - apply (Ep j). apply (occ_cut _ (drop i c)); [rewrite length_app; specialize (Hfront j Hoj Hja); lia|].
        by rewrite <- Eac.
      - apply (Hf (j - length a)%nat); [lia|]. apply (occurs_app_r PSB a).
        by replace (length a + (j - length a))%nat with j by lia. }
    by rewrite Nat2Z.id, drop_app_add.
Qed.

(** The shares of batches, each followed by all later ones. *)
Fixpoint shares (batches : list (list (list byte))) : list (list (list byte)) :=
  match batches with
  | [] => []
  | b :: batches => share (length b) (b ++ concat batches) :: shares batches
  end.

Lemma shares_cover batches : whole_psbs (concat batches) ->
  concat (map (fun bss => from_psb (concat bss)) (shares batches)) = from_psb (concat (concat batches)).
Proof.
  induction batches as [|b batches IH]; intros Hw; [done|]. cbn [shares map concat] in *.
  rewrite IH by by eapply whole_psbs_app_r. destruct b as [|x b]; [done|].
  rewrite <- share_covers by done. unfold share. cbn [length].
  change (S (length b)) with (length (x :: b)). by rewrite take_app_length, drop_app_length.
Qed.

(** What the callbacks of the decoder hand out, in a worker: its share of the
    queue, whatever is looked at ahead in between. *)

(** ** Buffers *)

Section input.
Context `{Platform} `{TraceFile} (parallel_worker : Z) (pt : trace_options).

(** A buffer holds these bytes, loaded or not, and can be dropped and loaded
    again. *)
Record holds (ab : auxtrace_buffer) (bytes : list byte) : Prop := {
  h_size : ab_size ab = Z.of_nat (length bytes);
  h_data : ab_data ab = Some bytes \/ ab_data ab = None;
  h_file : ab_mmap ab = true \/ ab_data ab = None ->
    file_data (ab_data_offset ab) (ab_size ab) = bytes;
  h_free : ab_data_needs_freeing ab = false;
  h_use : ab_use_data ab = None
}.

Lemma drop_holds ab bytes : holds ab bytes -> holds (auxtrace_buffer__drop_data ab) bytes.
Proof.
  intros Hh. pose proof (h_free _ _ Hh) as Hf. unfold auxtrace_buffer__drop_data, auxtrace_buffer__put_data.
  destruct (ab_data ab) eqn:Ed, (ab_mmap ab) eqn:Em; cbn;
    rewrite ?Hf; try exact Hh.
  destruct Hh as [Hs Hd Hfile _ Hu]. split; cbn; [done|by right| |done|done]. intros _. apply Hfile. by left.
Qed.

Lemma get_data_holds ab bytes : holds ab bytes ->
  exists ab', auxtrace_buffer__get_data_rw true ab = (Some bytes, ab') /\ holds ab' bytes /\
    ab_data ab' = Some bytes.
Proof.
  intros Hh. unfold auxtrace_buffer__get_data_rw. destruct (ab_data ab) as [d|] eqn:Ed.
  - destruct (h_data _ _ Hh) as [E|E]; [|congruence]. rewrite Ed in E. injection E as ->.
    exists ab. by rewrite Ed.
  - assert (file_data (ab_data_offset ab) (ab_size ab) = bytes) as Efile by (apply (h_file _ _ Hh); by right).
    rewrite Efile. eexists. split; [reflexivity|]. split; [|done].
    destruct Hh. split; cbn; [done|by left|done|done|done].
Qed.

(** ** The state of a reader *)

(** [p] buffers have been handed out; the batch is the first [k] of them. *)
Record reader (s : trace_input) (bss : list (list byte)) (r : entry_ref) (k p : nat) (found : bool) : Prop := {
  rd_queue : exists q, get_queue s = Some q /\ Forall2 holds q bss;
  rd_allocs : forall n, p_allocs (in_proc s) n = true;
  rd_entry : batch_entry s = Some (Some r);
  rd_counts : exists e, get_entry (in_proc s) r = Some e /\ batch_add e = Z.of_nat k /\
    buffer_add e = Z.of_nat p /\ (last_psb_add e = 0 <-> found = false) /\ 0 <= last_psb_add e <= 1;
  rd_buffer : in_buffer s = match p with O => None | S n => Some n end;
  rd_old : forall n, in_old_buffer s = Some n -> (n < p)%nat;
  rd_range : (0 < k)%nat /\ (p <= length bss)%nat /\ Z.of_nat (length bss) < 2 ^ 31 - 1 /\ Z.of_nat k < 2 ^ 31;
  rd_found : found = true -> (k <= p)%nat;
  rd_flags : in_stop s = false /\ in_step_through_buffers s = false
}.

(** What is left to hand out. *)
Definition remaining (bss : list (list byte)) (k p : nat) (found : bool) : list (list byte) :=
  if found then []
  else take (k - p) (drop p bss) ++ up_to_psb (drop (k - p) (drop p bss)).

Arguments remaining : simpl never.

Lemma remaining_start bss k : (0 < k)%nat -> remaining bss k 0 false = share k bss.
Proof. intros Hk. unfold remaining. rewrite drop_0, Nat.sub_0_r. by destruct k; [lia|]. Qed.

Lemma remaining_end bss k p found : (length bss <= p)%nat -> remaining bss k p found = [].
Proof. intros Hp. unfold remaining. destruct found; [done|]. rewrite (drop_ge bss) by lia. by rewrite take_nil, drop_nil. Qed.

(** The next buffer is handed out whole, in the batch or before the PSB; *)
Lemma remaining_whole bss k p bs :
  bss !! p = Some bs -> (p < k)%nat \/ memmem bs PSB = None ->
  remaining bss k p false = bs :: remaining bss k (S p) false.
Proof.
  intros E Hc. unfold remaining. rewrite (drop_S bss bs p E).
  destruct (decide (p < k)%nat) as [Hp|Hp].
  - destruct (k - p)%nat as [|m] eqn:Em; [lia|]. cbn [take drop]. replace (k - S p)%nat with m by lia. done.
  - replace (k - p)%nat with O by lia. replace (k - S p)%nat with O by lia. rewrite !take_0, !drop_0.
    cbn [app up_to_psb]. destruct Hc as [?|Hn]; [lia|]. by rewrite Hn.
Qed.

(** or cut at it. *)
Lemma remaining_cut bss k p bs o :
  bss !! p = Some bs -> (k <= p)%nat -> memmem bs PSB = Some o ->
  remaining bss k p false = [take (Z.to_nat o) bs].
Proof.
  intros E Hp Ho. unfold remaining. rewrite (drop_S bss bs p E).
  replace (k - p)%nat with O by lia. rewrite take_0, drop_0. cbn [app up_to_psb]. by rewrite Ho.
Qed.

(** ** Steps *)

Definition queue_holds (s : trace_input) (bss : list (list byte)) : Prop :=
  exists q, get_queue s = Some q /\ Forall2 holds q bss.
Definition allocs_ok (s : trace_input) : Prop := forall n, p_allocs (in_proc s) n = true.

(** What the steps on buffers do not change. *)
Definition same_rest (s s' : trace_input) : Prop :=
  in_buffer s' = in_buffer s /\ in_old_buffer s' = in_old_buffer s /\ in_stop s' = in_stop s /\
  in_step_through_buffers s' = in_step_through_buffers s /\ batch_entry s' = batch_entry s /\
  forall r, get_entry (in_proc s') r = get_entry (in_proc s) r.

#[global] Instance same_rest_preorder : PreOrder same_rest.
Proof.
  split; [by intros s|].
  intros s1 s2 s3 (? & ? & ? & ? & ? & E) (? & ? & ? & ? & ? & E'). split_and!; try congruence.
Qed.

Lemma set_buffer_ok s bss n b bs :
  queue_holds s bss -> allocs_ok s -> bss !! n = Some bs -> holds b bs ->
  exists s', set_buffer_at s n b = Some s' /\ queue_holds s' bss /\ allocs_ok s' /\ same_rest s s'.
Proof.
  intros (q & Eq & Hq) Ha En Hb. unfold set_buffer_at. rewrite Eq. cbn [mbind option_bind].
  unfold get_queue in Eq. unfold set_queue.
  destruct (idx (queue_array (p_queues (in_proc s))) (in_queue_nr s)) as [aq|] eqn:Ei; [|done].
  cbn [mbind option_bind] in *. injection Eq as <-.
  pose proof (idx_inv _ _ _ Ei) as [Hi _]. rewrite set_at_eq by done. cbn [mbind option_bind].
  eexists. split; [reflexivity|]. split; [|split; [exact Ha|by split_and!]].
  exists (<[n:=b]> (aq_head aq)). split.
  - unfold get_queue. cbn. by rewrite idx_insert, Z.eqb_refl by done.
  - replace bss with (<[n:=bs]> bss) by (by apply list_insert_id). by apply Forall2_insert.
Qed.

Lemma get_buffer_at_ok s bss n bs : queue_holds s bss -> bss !! n = Some bs ->
  exists b, get_buffer_at s n = Some b /\ holds b bs.
Proof.
  intros (q & Eq & Hq) En. unfold get_buffer_at. rewrite Eq. cbn [mbind option_bind].
  destruct (Forall2_lookup_r _ _ _ _ _ Hq En) as (b & Eb & Hb). by exists b.
Qed.

Lemma drop_ok s bss n : queue_holds s bss -> allocs_ok s -> (n < length bss)%nat ->
  exists s', drop_data s n = Some s' /\ queue_holds s' bss /\ allocs_ok s' /\ same_rest s s'.
Proof.
  intros Hq Ha Hn. destruct (lookup_lt_is_Some_2 bss n Hn) as [bs En].
  destruct (get_buffer_at_ok s bss n bs Hq En) as (b & Eb & Hb).
  unfold drop_data. rewrite Eb. cbn [mbind option_bind].
  eapply set_buffer_ok; [done|done|done|by apply drop_holds].
Qed.

Context (Hoverlap : pt_snapshot_mode pt || pt_sampling_mode pt = false).

Lemma get_buffer_ok s bss n bs old b :
  queue_holds s bss -> allocs_ok s -> bss !! n = Some bs -> (forall m, old = Some m -> (m < length bss)%nat) ->
  exists s' b', get_buffer pt s n old b = Some (0, s', b') /\
    queue_holds s' bss /\ allocs_ok s' /\ same_rest s s' /\
    b_buf b' = bs /\ b_len b' = Z.of_nat (length bs).
Proof.
  intros Hq Ha En Hold. destruct (get_buffer_at_ok s bss n bs Hq En) as (ab & Eb & Hb).
  unfold get_buffer. rewrite Eb. cbn [mbind option_bind].
  assert (exists o, (match old with
    | Some n0 => old0 ← get_buffer_at s n0; Some (Some old0)
    | None => Some None
    end) = Some o) as [o Eo].
  { destruct old as [m|]; [|by exists None]. destruct (lookup_lt_is_Some_2 bss m (Hold m eq_refl)) as [bm Em].
    destruct (get_buffer_at_ok s bss m bm Hq Em) as (? & -> & _). by eexists. }
  rewrite Eo. cbn [mbind option_bind]. unfold next_mmap. rewrite (Ha 0%nat).
  destruct (get_data_holds ab bs Hb) as (ab' & Eg & Hb' & Ed).
  unfold intel_pt_get_buffer. rewrite Eg, Hoverlap. cbn [andb].
  assert (match o with Some _ => Some ab' | None => Some ab' end = Some ab') as -> by by destruct o.
  cbn [mbind option_bind]. rewrite Ed, (h_use _ _ Hb'). cbn [mbind option_bind].
  destruct (set_buffer_ok (s <| in_proc ::= fun p => p <| p_allocs ::= next_allocs |> |>) bss n ab' bs)
    as (s' & Es & Hq' & Ha' & Hs); [exact Hq|intros m; apply (Ha (S m))|done|done|].
  rewrite Es. cbn [mbind option_bind]. eexists s', _. split; [reflexivity|].
  split; [done|]. split; [done|]. split; [exact Hs|].
  destruct o; cbn; (split; [done|]); apply (h_size _ _ Hb').
Qed.

Lemma update_entry_ok s r e0 e : get_entry (in_proc s) r = Some e0 -> batch_entry s = Some (Some r) ->
  exists s', update_entry s r e = Some s' /\ get_queue s' = get_queue s /\
    p_allocs (in_proc s') = p_allocs (in_proc s) /\
    in_buffer s' = in_buffer s /\ in_old_buffer s' = in_old_buffer s /\ in_stop s' = in_stop s /\
    in_step_through_buffers s' = in_step_through_buffers s /\
    batch_entry s' = Some (Some r) /\ get_entry (in_proc s') r = Some e.
Proof.
  intros Ee Er. unfold update_entry, set_entry. destruct r as [cpu|n]; cbn [get_entry] in Ee.
  - pose proof (idx_inv _ _ _ Ee) as [Hi _]. rewrite set_at_eq by done. cbn [mbind option_bind].
    eexists. split; [reflexivity|]. do 6 (split; [done|]). split; [exact Er|].
    cbn. by rewrite idx_insert, Z.eqb_refl by done.
  - pose proof (lookup_lt_Some _ _ _ Ee). rewrite bool_decide_eq_true_2 by done. cbn [mbind option_bind].
    eexists. split; [reflexivity|]. do 6 (split; [done|]). split; [exact Er|].
    cbn. by apply list_lookup_insert_eq.
Qed.

(** The entries are the same. *)
Definition same_entries (s s' : trace_input) : Prop :=
  batch_entry s' = batch_entry s /\ forall r, get_entry (in_proc s') r = get_entry (in_proc s) r.

Lemma entry_in_batch_ok s0 s bss r k p found : reader s0 bss r k p found -> same_entries s0 s ->
  exists e, entry_in_batch s = Some (Some (r, e)) /\ get_entry (in_proc s) r = Some e /\
    batch_add e = Z.of_nat k /\ buffer_add e = Z.of_nat p /\ (last_psb_add e = 0 <-> found = false) /\
    0 <= last_psb_add e <= 1.
Proof.
  intros Hr [Eb Eg]. destruct (rd_counts _ _ _ _ _ _ Hr) as (e & Ee & Hk & Hp & Hf). exists e.
  unfold entry_in_batch. rewrite Eb, (rd_entry _ _ _ _ _ _ Hr). cbn [mbind option_bind]. rewrite Eg, Ee.
  cbn [mbind option_bind]. pose proof (rd_range _ _ _ _ _ _ Hr) as (Hk0 & _).
  destruct (Z.eqb_spec (batch_add e) 0); [lia|]. done.
Qed.

Lemma incr_small n : 0 <= n < 2 ^ 31 - 1 -> incr n = n + 1.
Proof. intros Hn. unfold incr. apply s32_small. lia. Qed.

Context (Hpar : 1 < parallel_worker).

(** The batch decides how much of the buffer is handed out. *)
Lemma get_trace_batch_ok s0 s bss r k p found bs b :
  reader s0 bss r k p found -> same_entries s0 s -> bss !! p = Some bs -> b_buf b = bs -> b_len b = Z.of_nat (length bs) ->
  exists s' b' found' e,
    get_trace_batch parallel_worker s b = Some (s', b') /\
    get_queue s' = get_queue s /\ p_allocs (in_proc s') = p_allocs (in_proc s) /\
    in_buffer s' = in_buffer s /\ in_old_buffer s' = in_old_buffer s /\ in_stop s' = in_stop s /\
    in_step_through_buffers s' = in_step_through_buffers s /\
    batch_entry s' = Some (Some r) /\ get_entry (in_proc s') r = Some e /\
    batch_add e = Z.of_nat k /\ buffer_add e = Z.of_nat (S p) /\ (last_psb_add e = 0 <-> found' = false) /\
    0 <= last_psb_add e <= 1 /\ (found' = true -> (k <= p)%nat) /\ b_buf b' = bs /\ 0 <= b_len b' /\
    concat (remaining bss k p found) =
      take (Z.to_nat (b_len b')) bs ++ concat (remaining bss k (S p) found').
Proof.
  intros Hr Hsame En Eb El. destruct (entry_in_batch_ok _ _ _ _ _ _ _ Hr Hsame) as (e & Ein & Ee & Hk & Hp & Hf & Hle).
  pose proof (rd_range _ _ _ _ _ _ Hr) as (Hk0 & Hpl & Hmax & Hkmax). pose proof (lookup_lt_Some _ _ _ En) as Hpn.
  unfold get_trace_batch. destruct (Z.ltb_spec 1 parallel_worker); [|lia]. rewrite Ein. cbn [mbind option_bind].
  set (choice := if buffer_add e <? batch_add e then (s, e, b) else _).
  assert (exists s1 e1 b1 found', choice = (s1, e1, b1) /\
    (s1 = s \/ s1 = s <| in_proc ::= fun p => p <| cpu_thread_last_psb_add ::= fun n => u64 (n + 1) |> |>) /\
    batch_add e1 = Z.of_nat k /\ buffer_add e1 = Z.of_nat p /\ (last_psb_add e1 = 0 <-> found' = false) /\
    0 <= last_psb_add e1 <= 1 /\ (found' = true -> (k <= p)%nat) /\ b_buf b1 = bs /\ 0 <= b_len b1 /\
    concat (remaining bss k p found) = take (Z.to_nat (b_len b1)) bs ++ concat (remaining bss k (S p) found'))
    as (s1 & e1 & b1 & found' & -> & Hs1 & Hk1 & Hp1 & Hf1 & Hle1 & Hfk & Eb1 & Hl1 & Hrem).
  { subst choice. rewrite Hk, Hp.
    assert (found = true -> (k <= p)%nat) as Hfound by apply (rd_found _ _ _ _ _ _ Hr).
    destruct (Z.ltb_spec (Z.of_nat p) (Z.of_nat k)) as [Hlt|Hge].
    - exists s, e, b, found. split; [done|]. split; [by left|]. do 6 (split; [done|]). split; [lia|].
      destruct found; [specialize (Hfound eq_refl); lia|].
      rewrite (remaining_whole bss k p bs En) by (left; lia). cbn [concat].
      by rewrite El, Nat2Z.id, take_ge.
    - destruct (Z.eqb_spec (last_psb_add e) 0) as [E0|E0].
      + apply Hf in E0 as ->. unfold first_psb. rewrite Eb, El, Nat2Z.id, take_ge by lia.
        destruct (memmem bs PSB) as [o|] eqn:Eo.
        * eexists _, _, _, true. split; [reflexivity|]. split; [by right|].
          pose proof (proj2 Hf eq_refl) as E0. cbn. rewrite E0, incr_small by lia.
          split; [done|]. split; [done|]. split; [split; [lia|done]|]. split; [lia|]. split; [lia|]. split; [done|].
          apply memmem_Some in Eo as Eo'. destruct Eo' as (i & -> & _). split; [lia|].
          rewrite (remaining_cut bss k p bs _ En ltac:(lia) Eo). unfold remaining. cbn [concat]. by rewrite !app_nil_r.
        * exists s, e, b, false. split; [done|]. split; [by left|]. do 6 (split; [done|]). split; [lia|].
          rewrite (remaining_whole bss k p bs En) by (by right). cbn [concat]. by rewrite El, Nat2Z.id, take_ge.
      + exists s, e, (set_len b 0), found. split; [done|]. split; [by left|]. do 6 (split; [done|]). split; [done|].
        destruct found; [done|]. by destruct E0, Hf as [_ ->]. }
  set (e2 := e1 <| buffer_add ::= incr |>).
  set (e3 := if buffer_lookahead e2 <? buffer_add e2 then e2 <| buffer_lookahead := buffer_add e2 |> else e2).
  assert (buffer_add e2 = Z.of_nat (S p)) as Hp2 by (cbn; rewrite Hp1, incr_small; lia).
  assert (batch_add e3 = Z.of_nat k /\ buffer_add e3 = Z.of_nat (S p) /\ last_psb_add e3 = last_psb_add e1) as (Hk3 & Hp3 & Hl3).
  { subst e3. by destruct (_ <? _). }
  assert (get_entry (in_proc s1) r = Some e /\ batch_entry s1 = Some (Some r)) as [Ee1 Er1].
  { destruct Hsame as [Hsame _]. rewrite (rd_entry _ _ _ _ _ _ Hr) in Hsame. by destruct Hs1 as [-> | ->]. }
  destruct (update_entry_ok s1 r e e3 Ee1 Er1) as (s' & Eu & Hq' & Ha' & U1 & U2 & U3 & U4 & U5 & U6).
  cbn [mbind option_bind]. rewrite Eu. cbn [mbind option_bind].
  exists s', b1, found', e3. split; [done|]. rewrite Hl3.
  destruct Hs1 as [-> | ->]; by repeat (split; [done|]).
Qed.

(** Dropping the buffer before, if there is one. *)
Lemma drop_old_ok s bss old :
  queue_holds s bss -> allocs_ok s -> (forall m, old = Some m -> (m < length bss)%nat) ->
  exists s', (match old with Some n => drop_data s n | None => Some s end) = Some s' /\
    queue_holds s' bss /\ allocs_ok s' /\ same_rest s s'.
Proof.
  intros Hq Ha Hold. destruct old as [m|]; [apply drop_ok; auto|]. exists s. by split_and!.
Qed.

(** What [intel_pt_get_trace] hands out is a part of what remains; at the end
    there is nothing left. *)
Lemma get_trace_loop_ok bss r k n : forall s p found b,
  reader s bss r k p found -> (length bss - p < n)%nat ->
  exists s' b' p' found', get_trace_loop parallel_worker pt n s b = Some (0, s', b') /\
    reader s' bss r k p' found' /\ 0 <= b_len b' /\ (p <= p')%nat /\
    (if b_len b' =? 0 then p' = length bss /\ concat (remaining bss k p found) = []
     else (p < p')%nat /\
       concat (remaining bss k p found) =
         take (Z.to_nat (b_len b')) (b_buf b') ++ concat (remaining bss k p' found')).
Proof.
  induction n as [|n IH]; intros s p found b Hr Hn; [lia|]. cbn [get_trace_loop].
  pose proof (rd_flags _ _ _ _ _ _ Hr) as [Hstop Hstep]. rewrite Hstop.
  pose proof (rd_allocs _ _ _ _ _ _ Hr) as Ha. pose proof (rd_old _ _ _ _ _ _ Hr) as Hold.
  destruct (rd_queue _ _ _ _ _ _ Hr) as (q & Eq & Hq). rewrite Eq. cbn [mbind option_bind].
  assert (length q = length bss) as Hlen by (by eapply Forall2_length).
  pose proof (rd_range _ _ _ _ _ _ Hr) as (Hk0 & Hpl & Hmax & Hkmax).
  assert (forall m, in_old_buffer s = Some m -> (m < length bss)%nat) as Hold'.
  { intros m Em. specialize (Hold m Em). lia. }
  assert (queue_holds s bss) as Hqs by by exists q.
  assert (auxtrace_buffer__next q (in_buffer s) = if bool_decide (p < length bss)%nat then Some p else None) as ->.
  { rewrite (rd_buffer _ _ _ _ _ _ Hr). unfold auxtrace_buffer__next. rewrite Hlen. by destruct p. }
  case_bool_decide as Hp.
  2: { destruct (drop_old_ok s bss _ Hqs Ha Hold') as (s' & Es & Hq' & Ha' & Hs').
    rewrite Es. cbn [mbind option_bind]. exists s', (set_len b 0), p, found. split; [done|].
    split; [|split; [done|split; [lia|]]].
    - destruct Hs' as (S1 & S2 & S3 & S4 & S5 & S6). destruct Hr. split; rewrite ?S1, ?S2, ?S3, ?S4, ?S5, ?S6; done.
    - split; [lia|]. by rewrite remaining_end by lia. }
  destruct (lookup_lt_is_Some_2 bss p Hp) as [bs En].
  destruct (get_buffer_ok (s <| in_buffer := Some p |>) bss p bs (in_old_buffer s) b)
    as (s1 & b1 & Eg & Hq1 & Ha1 & (S1 & S2 & S3 & S4 & S5 & S6) & Eb1 & El1); [done..|].
  rewrite Eg. cbn [mbind option_bind]. cbn [Z.eqb negb].
  assert (same_entries s s1) as Hsame by (by split).
  destruct (get_trace_batch_ok s s1 bss r k p found bs b1 Hr Hsame En Eb1 El1)
    as (s2 & b2 & found' & e & Et & T1 & T2 & T3 & T4 & T5 & T6 & T7 & T8 & T9 & T10 & T11 & T12 & T13 & Eb2 & Hl2 & Hrem).
  rewrite Et. cbn [mbind option_bind].
  assert (in_step_through_buffers s2 = false) as Hstep2 by (rewrite T6, S4; exact Hstep). rewrite Hstep2.
  assert (queue_holds s2 bss) as Hq2 by (by destruct Hq1 as (q1 & E1 & ?); exists q1; rewrite T1).
  assert (allocs_ok s2) as Ha2 by (by intros m; rewrite T2).
  assert (forall s', queue_holds s' bss -> allocs_ok s' -> same_rest s2 s' ->
    forall old, (forall m, old = Some m -> (m < S p)%nat) ->
    reader (s' <| in_old_buffer := old |>) bss r k (S p) found') as Hreader.
  { intros s' Hq' Ha' (R1 & R2 & R3 & R4 & R5 & R6) old Ho. split; cbn.
    - exact Hq'.
    - exact Ha'.
    - change (batch_entry s' = Some (Some r)). by rewrite R5, T7.
    - exists e. change (get_entry (in_proc s') r = Some e /\ batch_add e = Z.of_nat k /\
        buffer_add e = Z.of_nat (S p) /\ (last_psb_add e = 0 <-> found' = false) /\ 0 <= last_psb_add e <= 1).
      by rewrite R6, T8.
    - by rewrite R1, T3, S1.
    - exact Ho.
    - lia.
    - intros Hf. specialize (T13 Hf). lia.
    - by rewrite R3, R4, T5, T6, S3, S4. }
  destruct (Z.eqb_spec (b_len b2) 0) as [E0|E0]; cbn [negb].
  - destruct (drop_ok s2 bss p Hq2 Ha2 Hp) as (s3 & Ed & Hq3 & Ha3 & Hs3). rewrite Ed. cbn [mbind option_bind].
    assert (reader s3 bss r k (S p) found') as Hr3.
    { pose proof Hs3 as (R1 & R2 & _).
      assert (s3 = s3 <| in_old_buffer := in_old_buffer s3 |>) as -> by (by destruct s3).
      apply Hreader; [done..|]. intros m. rewrite R2, T4, S2. intros Em. specialize (Hold m Em). lia. }
    destruct (IH s3 (S p) found' b2 Hr3 ltac:(lia)) as (s' & b' & p' & f' & E & Hr' & Hl' & Hpp & Hend).
    exists s', b', p', f'. split; [done|]. split; [done|]. split; [done|]. split; [lia|].
    rewrite Hrem, E0. cbn [Z.to_nat take app]. destruct (b_len b' =? 0); [exact Hend|].
    destruct Hend as [? ?]. split; [lia|done].
  - destruct (drop_old_ok s2 bss (in_old_buffer s) Hq2 Ha2 Hold') as (s3 & Ed & Hq3 & Ha3 & Hs3).
    rewrite Ed. cbn [mbind option_bind]. exists (s3 <| in_old_buffer := Some p |>), b2, (S p), found'.
    split; [done|]. split; [apply Hreader; [done..|]; intros m [= <-]; lia|]. split; [done|]. split; [lia|].
    destruct (Z.eqb_spec (b_len b2) 0); [done|]. split; [lia|]. by rewrite Eb2.
Qed.

(** ** Looking ahead *)

Lemma reader_keep s s' bss r k p found e e' :
  reader s bss r k p found -> queue_holds s' bss -> allocs_ok s' ->
  in_buffer s' = in_buffer s -> in_old_buffer s' = in_old_buffer s -> in_stop s' = in_stop s ->
  in_step_through_buffers s' = in_step_through_buffers s -> batch_entry s' = batch_entry s ->
  get_entry (in_proc s) r = Some e -> get_entry (in_proc s') r = Some e' ->
  batch_add e' = batch_add e -> buffer_add e' = buffer_add e -> last_psb_add e' = last_psb_add e ->
  reader s' bss r k p found.
Proof.
  intros Hr Hq Ha E1 E2 E3 E4 E5 Ee Ee' F1 F2 F3. destruct Hr. split; rewrite ?E1, ?E2, ?E3, ?E4, ?E5; try done.
  destruct rd_counts0 as (e0 & Ee0 & Hc). rewrite Ee in Ee0. injection Ee0 as <-. exists e'. by rewrite F1, F2, F3.
Qed.

Lemma reader_same_rest s s' bss r k p found :
  reader s bss r k p found -> queue_holds s' bss -> allocs_ok s' -> same_rest s s' ->
  reader s' bss r k p found.
Proof.
  intros Hr Hq Ha (E1 & E2 & E3 & E4 & E5 & E6). destruct (rd_counts _ _ _ _ _ _ Hr) as (e & Ee & _).
  eapply (reader_keep s s'); try done. by rewrite E6.
Qed.

Lemma lookahead_drop_ok s bss r k p found b :
  reader s bss r k p found -> (forall n, b = Some n -> (n < length bss)%nat) ->
  exists s', intel_pt_lookahead_drop_buffer s b = Some s' /\ reader s' bss r k p found.
Proof.
  intros Hr Hb. unfold intel_pt_lookahead_drop_buffer. destruct b as [n|]; [|by exists s].
  destruct (bool_decide (in_buffer s = Some n) || bool_decide (in_old_buffer s = Some n)); [by exists s|].
  destruct (drop_ok s bss n) as (s' & E & Hq & Ha & Hs);
    [apply (rd_queue _ _ _ _ _ _ Hr)|exact (rd_allocs _ _ _ _ _ _ Hr)|by apply Hb|].
  exists s'. split; [done|]. by eapply reader_same_rest.
Qed.

Lemma lookahead_batch_ok s bss r k p found b : reader s bss r k p found ->
  exists s' b', lookahead_batch parallel_worker s b = Some (s', b') /\ reader s' bss r k p found.
Proof.
  intros Hr. unfold lookahead_batch. destruct (1 <? parallel_worker); [|by exists s, b].
  destruct (entry_in_batch_ok s s bss r k p found Hr) as (e & Ein & Ee & _); [by split|].
  rewrite Ein. cbn [mbind option_bind]. set (choice := if buffer_lookahead e <? batch_add e then (e, b) else _).
  assert (exists e1 b1, choice = (e1, b1) /\ batch_add e1 = batch_add e /\ buffer_add e1 = buffer_add e /\
    last_psb_add e1 = last_psb_add e) as (e1 & b1 & -> & F1 & F2 & F3).
  { subst choice. repeat case_match; by eexists _, _. }
  destruct (update_entry_ok s r e (e1 <| buffer_lookahead ::= incr |>) Ee (rd_entry _ _ _ _ _ _ Hr))
    as (s' & Eu & U1 & U2 & U3 & U4 & U5 & U6 & U7 & U8).
  rewrite Eu. cbn [mbind option_bind]. exists s', b1. split; [done|].
  eapply (reader_keep s s'); try done.
  - destruct (rd_queue _ _ _ _ _ _ Hr) as (q & Eq & Hq). exists q. by rewrite U1.
  - intros m. rewrite U2. apply (rd_allocs _ _ _ _ _ _ Hr).
  - by rewrite U7, (rd_entry _ _ _ _ _ _ Hr).
Qed.

Lemma lookahead_finish_ok {X : Type} err s bss r k p found b o (x : X) :
  reader s bss r k p found -> (forall m, b = Some m -> (m < length bss)%nat) ->
  (forall m, o = Some m -> (m < length bss)%nat) ->
  exists err' s' x', lookahead_finish err s b o x = Some (err', s', x') /\ reader s' bss r k p found.
Proof.
  intros Hr Hb Ho. unfold lookahead_finish.
  assert (exists s1, (if bool_decide (b <> o) then intel_pt_lookahead_drop_buffer s b else Some s) = Some s1 /\
    reader s1 bss r k p found) as (s1 & -> & Hr1).
  { destruct (bool_decide _); [by apply lookahead_drop_ok|by exists s]. }
  cbn [mbind option_bind]. destruct (lookahead_drop_ok s1 bss r k p found o Hr1 Ho) as (s2 & -> & Hr2).
  by exists err, s2, x.
Qed.

Lemma trace_lookahead_loop_ok {X : Type} (cb : intel_pt_buffer -> X -> Z * X) bss r k p found n :
  forall s buffer old x,
  reader s bss r k p found -> (forall m, buffer = Some m -> (m < length bss)%nat) ->
  (forall m, old = Some m -> (m < length bss)%nat) ->
  (length bss - match buffer with Some m => S m | None => O end < n)%nat ->
  exists err s' x', trace_lookahead_loop parallel_worker pt n cb s buffer old x = Some (err, s', x') /\
    reader s' bss r k p found.
Proof.
  induction n as [|n IH]; intros s buffer old x Hr Hb Ho Hn; [lia|]. cbn [trace_lookahead_loop].
  assert (forall err s b o x, reader s bss r k p found -> (forall m, b = Some m -> (m < length bss)%nat) ->
    (forall m, o = Some m -> (m < length bss)%nat) ->
    exists err' s' x', lookahead_finish (X := X) err s b o x = Some (err', s', x') /\ reader s' bss r k p found)
    as Hfin by (intros; by apply lookahead_finish_ok).
  destruct (rd_queue _ _ _ _ _ _ Hr) as (q & Eq & Hq). rewrite Eq. cbn [mbind option_bind].
  assert (length q = length bss) as Hlen by (by eapply Forall2_length).
  unfold auxtrace_buffer__next. rewrite Hlen. set (next := match buffer with Some m => S m | None => O end) in *.
  case_bool_decide as Hnext; [|by apply Hfin].
  destruct (lookup_lt_is_Some_2 bss next Hnext) as [bs En].
  destruct (get_buffer_ok s bss next bs old zero_buffer) as (s1 & b1 & Eg & Hq1 & Ha1 & Hs1 & _);
    [by exists q|exact (rd_allocs _ _ _ _ _ _ Hr)|done|done|].
  rewrite Eg. cbn [mbind option_bind Z.eqb negb].
  assert (reader s1 bss r k p found) as Hr1 by (by eapply reader_same_rest).
  destruct (lookahead_batch_ok s1 bss r k p found b1 Hr1) as (s2 & b2 & El & Hr2). rewrite El. cbn [mbind option_bind].
  assert (forall m, Some next = Some m -> (m < length bss)%nat) as Hnb by (by intros m [= <-]).
  destruct (negb (b_len b2 =? 0)).
  - destruct (lookahead_drop_ok s2 bss r k p found old Hr2 Ho) as (s3 & -> & Hr3). cbn [mbind option_bind].
    destruct (cb b2 x) as [err x']. destruct (negb (err =? 0)); [by apply Hfin|].
    apply IH; [done..|]. cbn. lia.
  - destruct (lookahead_drop_ok s2 bss r k p found (Some next) Hr2 Hnb) as (s3 & -> & Hr3). cbn [mbind option_bind].
    apply IH; [done..|]. cbn. lia.
Qed.

Lemma lookahead_ok {X : Type} (cb : intel_pt_buffer -> X -> Z * X) s bss r k p found x :
  reader s bss r k p found ->
  exists err s' x', intel_pt_lookahead parallel_worker pt cb s x = Some (err, s', x') /\ reader s' bss r k p found.
Proof.
  intros Hr. unfold intel_pt_lookahead. destruct (rd_queue _ _ _ _ _ _ Hr) as (q & Eq & Hq). rewrite Eq.
  cbn [mbind option_bind]. assert (length q = length bss) as Hlen by (by eapply Forall2_length).
  pose proof (rd_range _ _ _ _ _ _ Hr) as (_ & Hp & _).
  apply trace_lookahead_loop_ok; [done| | |lia].
  - intros m. rewrite (rd_buffer _ _ _ _ _ _ Hr). destruct p; [done|]. intros [= <-]. lia.
  - intros m E. pose proof (rd_old _ _ _ _ _ _ Hr m E). lia.
Qed.

(** ** Whole runs *)

(** A decoder takes buffers until there are no more, and may look ahead at any
    time; the bytes it is handed. *)
Inductive input_run : trace_input -> list byte -> Prop :=
| run_end s b s' b' :
    intel_pt_get_trace parallel_worker pt s b = Some (0, s', b') -> b_len b' = 0 -> input_run s []
| run_buffer s b s' b' bytes :
    intel_pt_get_trace parallel_worker pt s b = Some (0, s', b') -> b_len b' <> 0 ->
    input_run s' bytes -> input_run s (take (Z.to_nat (b_len b')) (b_buf b') ++ bytes)
| run_lookahead {X : Type} (cb : intel_pt_buffer -> X -> Z * X) s x err s' x' bytes :
    intel_pt_lookahead parallel_worker pt cb s x = Some (err, s', x') ->
    input_run s' bytes -> input_run s bytes.

Lemma get_trace_ok s bss r k p found b : reader s bss r k p found ->
  exists s' b' p' found', intel_pt_get_trace parallel_worker pt s b = Some (0, s', b') /\
    reader s' bss r k p' found' /\ 0 <= b_len b' /\ (p <= p')%nat /\
    (if b_len b' =? 0 then p' = length bss /\ concat (remaining bss k p found) = []
     else (p < p')%nat /\
       concat (remaining bss k p found) =
         take (Z.to_nat (b_len b')) (b_buf b') ++ concat (remaining bss k p' found')).
Proof.
  intros Hr. unfold intel_pt_get_trace. destruct (rd_queue _ _ _ _ _ _ Hr) as (q & Eq & Hq). rewrite Eq.
  cbn [mbind option_bind]. assert (length q = length bss) as Hlen by (by eapply Forall2_length).
  apply get_trace_loop_ok; [done|lia].
Qed.

(** All runs hand out what remains, *)
Lemma input_run_bytes bss r k s bytes : input_run s bytes ->
  forall p found, reader s bss r k p found -> bytes = concat (remaining bss k p found).
Proof.
  induction 1 as [s b s' b' E E0|s b s' b' bytes E E0 _ IH|X cb s x err s' x' bytes E _ IH]; intros p found Hr.
  - destruct (get_trace_ok s bss r k p found b Hr) as (s2 & b2 & p' & found' & E2 & _ & _ & _ & Hend).
    rewrite E in E2. injection E2 as <- <-. destruct (Z.eqb_spec (b_len b') 0); [|done]. by destruct Hend.
  - destruct (get_trace_ok s bss r k p found b Hr) as (s2 & b2 & p' & found' & E2 & Hr2 & _ & _ & Hend).
    rewrite E in E2. injection E2 as <- <-. destruct (Z.eqb_spec (b_len b') 0); [done|].
    destruct Hend as [_ ->]. by rewrite (IH p' found' Hr2).
  - destruct (lookahead_ok cb s bss r k p found x Hr) as (err2 & s2 & x2 & E2 & Hr2).
    rewrite E in E2. injection E2 as <- <- <-. by apply IH.
Qed.

(** and there is one. *)
Lemma input_run_exists bss r k m : forall s p found,
  reader s bss r k p found -> (length bss - p <= m)%nat -> exists bytes, input_run s bytes.
Proof.
  induction m as [|m IH]; intros s p found Hr Hm;
    destruct (get_trace_ok s bss r k p found zero_buffer Hr) as (s2 & b2 & p' & found' & E2 & Hr2 & _ & Hp & Hend);
    pose proof (rd_range _ _ _ _ _ _ Hr2) as (_ & Hp' & _);
    destruct (Z.eqb_spec (b_len b2) 0) as [E0|E0].
  - exists []. by eapply run_end.
  - lia.
  - exists []. by eapply run_end.
  - destruct Hend as [Hlt _]. destruct (IH s2 p' found' Hr2 ltac:(lia)) as [bytes Hb].
    eexists. by eapply run_buffer.
Qed.

(** ** A worker with nothing to do *)

Record idle (s : trace_input) (bss : list (list byte)) : Prop := {
  id_queue : queue_holds s bss;
  id_allocs : allocs_ok s;
  id_entry : entry_in_batch s = Some None;
  id_buffer : forall m, in_buffer s = Some m -> (m < length bss)%nat;
  id_old : in_old_buffer s = None;
  id_flags : in_stop s = false /\ in_step_through_buffers s = false
}.

Lemma entry_same_rest s s' : same_rest s s' -> entry_in_batch s' = entry_in_batch s.
Proof.
  intros (_ & _ & _ & _ & E & Eg). unfold entry_in_batch. rewrite E.
  destruct (batch_entry s) as [[r|]|]; [|done|done]. cbn [mbind option_bind]. by rewrite Eg.
Qed.

Lemma idle_same_rest s s' bss : idle s bss -> queue_holds s' bss -> allocs_ok s' -> same_rest s s' -> idle s' bss.
Proof.
  intros Hi Hq Ha Hs. pose proof (entry_same_rest s s' Hs) as Ee. destruct Hs as (E1 & E2 & E3 & E4 & E5 & E6).
  destruct Hi. by split; rewrite ?Ee, ?E1, ?E2, ?E3, ?E4.
Qed.

Lemma idle_next s bss : idle s bss -> exists q, get_queue s = Some q /\ length q = length bss.
Proof. intros Hi. destruct (id_queue _ _ Hi) as (q & Eq & Hq). exists q. split; [done|]. by eapply Forall2_length. Qed.

Lemma idle_batches s b : entry_in_batch s = Some None ->
  get_trace_batch parallel_worker s b = Some (s, set_len b 0) /\
  lookahead_batch parallel_worker s b = Some (s, set_len b 0).
Proof.
  intros E. unfold get_trace_batch, lookahead_batch. destruct (Z.ltb_spec 1 parallel_worker); [|lia].
  by rewrite E.
Qed.

Lemma idle_trace_ok bss n : forall s b, idle s bss ->
  (length bss - match in_buffer s with Some m => S m | None => O end < n)%nat ->
  exists s' b', get_trace_loop parallel_worker pt n s b = Some (0, s', b') /\ b_len b' = 0.
Proof.
  induction n as [|n IH]; intros s b Hi Hn; [lia|]. cbn [get_trace_loop].
  destruct (id_flags _ _ Hi) as [Hstop Hstep]. rewrite Hstop.
  destruct (idle_next s bss Hi) as (q & Eq & Hlen). rewrite Eq. cbn [mbind option_bind].
  unfold auxtrace_buffer__next. rewrite Hlen. set (next := match in_buffer s with Some m => S m | None => O end) in *.
  case_bool_decide as Hnext.
  2: { rewrite (id_old _ _ Hi). cbn [mbind option_bind]. by eexists _, _. }
  destruct (lookup_lt_is_Some_2 bss next Hnext) as [bs En].
  destruct (get_buffer_ok (s <| in_buffer := Some next |>) bss next bs (in_old_buffer s) b)
    as (s1 & b1 & Eg & Hq1 & Ha1 & Hs1 & _); [apply Hi|apply Hi|done|by rewrite (id_old _ _ Hi)|].
  rewrite Eg. cbn [mbind option_bind Z.eqb negb].
  assert (idle s1 bss) as Hi1.
  { apply (idle_same_rest (s <| in_buffer := Some next |>)); [|done..]. destruct Hi. split; try done.
    by intros m [= <-]. }
  destruct (idle_batches s1 b1 (id_entry _ _ Hi1)) as [-> _]. cbn [mbind option_bind].
  destruct (id_flags _ _ Hi1) as [_ Hstep1]. rewrite Hstep1. cbn [set_len b_len Z.eqb negb].
  destruct (drop_ok s1 bss next Hq1 Ha1 Hnext) as (s2 & Ed & Hq2 & Ha2 & Hs2). rewrite Ed. cbn [mbind option_bind].
  apply IH; [by eapply idle_same_rest|]. destruct Hs2 as (-> & _). destruct Hs1 as (-> & _). cbn. lia.
Qed.

Lemma idle_drop_ok s bss b : idle s bss -> (forall n, b = Some n -> (n < length bss)%nat) ->
  exists s', intel_pt_lookahead_drop_buffer s b = Some s' /\ idle s' bss.
Proof.
  intros Hi Hb. unfold intel_pt_lookahead_drop_buffer. destruct b as [n|]; [|by exists s].
  destruct (bool_decide (in_buffer s = Some n) || bool_decide (in_old_buffer s = Some n)); [by exists s|].
  destruct (drop_ok s bss n) as (s' & E & Hq & Ha & Hs); [apply Hi|apply Hi|by apply Hb|].
  exists s'. split; [done|]. by eapply idle_same_rest.
Qed.

Lemma idle_lookahead_ok {X : Type} (cb : intel_pt_buffer -> X -> Z * X) bss n : forall s buffer x,
  idle s bss -> (forall m, buffer = Some m -> (m < length bss)%nat) ->
  (length bss - match buffer with Some m => S m | None => O end < n)%nat ->
  exists err s' x', trace_lookahead_loop parallel_worker pt n cb s buffer None x = Some (err, s', x') /\ idle s' bss.
Proof.
  induction n as [|n IH]; intros s buffer x Hi Hb Hn; [lia|]. cbn [trace_lookahead_loop].
  destruct (idle_next s bss Hi) as (q & Eq & Hlen). rewrite Eq. cbn [mbind option_bind].
  unfold auxtrace_buffer__next. rewrite Hlen. set (next := match buffer with Some m => S m | None => O end) in *.
  case_bool_decide as Hnext.
  2: { cbn. by exists 0, s, x. }
  destruct (lookup_lt_is_Some_2 bss next Hnext) as [bs En].
  destruct (get_buffer_ok s bss next bs None zero_buffer) as (s1 & b1 & Eg & Hq1 & Ha1 & Hs1 & _);
    [apply Hi|apply Hi|done|done|].
  rewrite Eg. cbn [mbind option_bind Z.eqb negb].
  assert (idle s1 bss) as Hi1 by (by eapply idle_same_rest).
  destruct (idle_batches s1 b1 (id_entry _ _ Hi1)) as [_ ->]. cbn [mbind option_bind set_len b_len Z.eqb negb].
  destruct (idle_drop_ok s1 bss (Some next) Hi1) as (s2 & -> & Hi2); [by intros m [= <-]|]. cbn [mbind option_bind].
  apply IH; [done|by intros m [= <-]|cbn; lia].
Qed.

(** It is handed nothing. *)
Lemma idle_run s bss bytes : input_run s bytes -> idle s bss -> bytes = [].
Proof.
  induction 1 as [s b s' b' E E0|s b s' b' bytes E E0 _ IH|X cb s x err s' x' bytes E _ IH]; intros Hi; [done|..].
  - unfold intel_pt_get_trace in E. destruct (idle_next s bss Hi) as (q & Eq & Hlen). rewrite Eq in E.
    cbn [mbind option_bind] in E.
    destruct (idle_trace_ok bss (S (length q)) s b Hi) as (s2 & b2 & E2 & El); [lia|].
    rewrite E in E2. by injection E2 as <- <-.
  - apply IH. unfold intel_pt_lookahead in E. destruct (idle_next s bss Hi) as (q & Eq & Hlen). rewrite Eq in E.
    cbn [mbind option_bind] in E. rewrite (id_old _ _ Hi) in E.
    destruct (idle_lookahead_ok cb bss (S (length q)) s (in_buffer s) x Hi) as (err2 & s2 & x2 & E2 & Hi2);
      [apply Hi|lia|]. rewrite E in E2. by injection E2 as <- <- <-.
Qed.

Lemma idle_run_exists s bss : idle s bss -> input_run s [].
Proof.
  intros Hi. destruct (idle_next s bss Hi) as (q & Eq & Hlen).
  destruct (idle_trace_ok bss (S (length q)) s zero_buffer Hi) as (s2 & b2 & E2 & El); [lia|].
  apply (run_end s zero_buffer s2 b2); [|done]. unfold intel_pt_get_trace. by rewrite Eq.
Qed.
End input.
