(* ===== verification/PtBatchWorkers.v ===== *)
(** The workers of parallel decoding: how they share the index, and what each decodes. *)
From Stdlib Require Import ZArith Lia List Bool.
From S2P Require Import Prelude PktDecoder PtStack Float64 PtState PtTime PtReader PtWalk PtTrace PtVmTime.
From S2P Require Import PtDecode PtSafe PtSafeReader PtSafeWalk PtExample PtTotal PtScan AuxCache AuxHeap.
From S2P Require Import AuxQueues PtBatch PtBatchInput.
Open Scope Z_scope.
Open Scope c_scope.
Import ListNotations.

(** An event and the offset of its trace in the file. *)
Notation placed := (auxtrace_event * Z)%type.

Section index.
Context `{Platform} `{TraceFile}.

Definition trace_of (p : placed) : list byte := file_data p.2 (ev_size p.1).

(** ** Queues *)

(** The buffers of a queue; a queue past the array has none yet. *)
Definition queue_head (qs : auxtrace_queues) (i : Z) : list auxtrace_buffer :=
  match idx (queue_array qs) i with
  | Some q => aq_head q
  | None => []
  end.

(** Events of CPUs that are left out are not queued. *)
Definition left_out (p : placed) : bool := filter_cpu (swrap 32 (ev_cpu p.1)).
Definition of_queue (i : Z) (evs : list placed) : list placed :=
  List.filter (fun p => (ev_idx p.1 =? i) && negb (left_out p)) evs.

Lemma of_queue_snoc i evs p :
  of_queue i (evs ++ [p]) = of_queue i evs ++ (if (ev_idx p.1 =? i) && negb (left_out p) then [p] else []).
Proof. unfold of_queue. rewrite List.filter_app. cbn. by destruct (_ && _). Qed.

(** [nr] is 32 doubled some times. *)
Definition doubled (nr : Z) : Prop := exists k, 5 <= k <= 26 /\ nr = 2 ^ k.

Record queues_ok (qs : auxtrace_queues) (evs : list placed) : Prop := {
  qo_length : Z.of_nat (length (queue_array qs)) = nr_queues qs;
  qo_nr : doubled (nr_queues qs);
  qo_held : forall i, 0 <= i -> Forall2 holds (queue_head qs i) (map trace_of (of_queue i evs))
}.

Definition max_idx : Z := 2 ^ 26.

Lemma double_loop_ok fuel : forall k new, 5 <= k <= 26 -> new <= max_idx -> 26 - k < Z.of_nat fuel ->
  doubled (double_loop fuel (2 ^ k) new) /\ 2 ^ k <= double_loop fuel (2 ^ k) new /\
  new <= double_loop fuel (2 ^ k) new.
Proof.
  induction fuel as [|fuel IH]; intros k new Hk Hnew Hf; [lia|]. cbn [double_loop].
  assert (0 < 2 ^ k <= 2 ^ 26) as Hp by (split; [apply Z.pow_pos_nonneg; lia|apply Z.pow_le_mono_r; lia]).
  destruct (Z.eqb_spec (2 ^ k) 0); [lia|]. cbn [negb andb]. destruct (Z.ltb_spec (2 ^ k) new).
  - assert (k < 26). { destruct (Z.eq_dec k 26) as [->|]; [unfold max_idx in *; lia|lia]. }
    rewrite Z.shiftl_mul_pow2, Z.pow_1_r, u32_small by lia.
    replace (2 ^ k * 2) with (2 ^ (k + 1)) by (rewrite Z.pow_add_r by lia; lia).
    assert (2 ^ k <= 2 ^ (k + 1)) by (apply Z.pow_le_mono_r; lia).
    destruct (IH (k + 1) new ltac:(lia) Hnew ltac:(lia)) as (D1 & D2 & D3). split; [done|]. lia.
  - split; [by exists k|]. lia.
Qed.

Lemma grow_ok qs evs new :
  queues_ok qs evs -> new <= max_idx ->
  exists qs', auxtrace_queues__grow true qs new = (0, qs') /\ queues_ok qs' evs /\ new <= nr_queues qs'.
Proof.
  intros Hq Hnew. destruct (qo_nr _ _ Hq) as (k & Hk & Ek). unfold auxtrace_queues__grow.
  assert (0 < 2 ^ k) by (apply Z.pow_pos_nonneg; lia).
  destruct (Z.eqb_spec (nr_queues qs) 0); [lia|]. rewrite Ek.
  destruct (double_loop_ok 33 k new Hk Hnew ltac:(lia)) as (Hd & Hle & Hge).
  set (nr := double_loop 33 (2 ^ k) new) in *. clearbody nr.
  destruct (Z.ltb_spec nr (2 ^ k)); [lia|]. destruct (Z.ltb_spec nr new); [lia|]. cbn [orb].
  assert (nr <= 2 ^ 26) as Hnr by (destruct Hd as (k' & Hk' & ->); apply Z.pow_le_mono_r; lia).
  unfold auxtrace_alloc_queue_array.
  assert (2 ^ 26 <= UINT_MAX / sizeof_auxtrace_queue) as Hmax.
  { unfold sizeof_auxtrace_queue. by destruct (_ =? _). }
  destruct (Z.ltb_spec (UINT_MAX / sizeof_auxtrace_queue) nr); [lia|].
  eexists. split; [reflexivity|].
  pose proof (qo_length _ _ Hq) as Hlen. rewrite Ek in Hlen.
  rewrite (take_ge (queue_array qs)) by lia.
  split; [|done]. split; cbn.
  - rewrite length_app, length_drop, length_replicate. lia.
  - done.
  - intros i Hi. pose proof (qo_held _ _ Hq i Hi) as Hh. unfold queue_head in *. cbn.
    replace (idx (queue_array qs ++ _) i) with
      (if i <? 2 ^ k then idx (queue_array qs) i else if i <? nr then Some empty_queue else None).
    + destruct (Z.ltb_spec i (2 ^ k)); [done|].
      assert (idx (queue_array qs) i = None) as E.
      { unfold idx. destruct (Z.ltb_spec i 0); [lia|]. apply lookup_ge_None. lia. }
      rewrite E in Hh. by destruct (i <? nr).
    + unfold idx. destruct (Z.ltb_spec i 0); [lia|]. destruct (Z.ltb_spec i (2 ^ k)).
      * rewrite lookup_app_l by lia. done.
      * rewrite lookup_app_r, lookup_drop by lia.
        destruct (Z.ltb_spec i nr); symmetry.
        -- apply lookup_replicate. split; [done|lia].
        -- apply lookup_ge_None. rewrite length_replicate. lia.
Qed.

Lemma queue_buffer_ok a qs evs p ab :
  queues_ok qs evs -> a 0%nat = true -> left_out p = false -> 0 <= ev_idx p.1 < max_idx ->
  (forall nr, holds (ab <| ab_buffer_nr := nr |>) (trace_of p)) ->
  exists qs' a', auxtrace_queues__queue_buffer a qs (ev_idx p.1) ab = Some (0, qs', a') /\
    (a' = a \/ a' = next_allocs a) /\ queues_ok qs' (evs ++ [p]).
Proof.
  intros Hq Ha Hout Hi Hab. unfold auxtrace_queues__queue_buffer. set (i := ev_idx p.1) in *.
  set (pair := if nr_queues qs <=? i then _ else _).
  assert (exists qs1 a1, pair = (0, qs1, a1) /\ (a1 = a \/ a1 = next_allocs a) /\ queues_ok qs1 evs /\ i < nr_queues qs1)
    as (qs1 & a1 & -> & Ha1 & Hq1 & Hi1).
  { subst pair. destruct (Z.leb_spec (nr_queues qs) i).
    - rewrite u32_small by (unfold max_idx in *; lia). rewrite Ha.
      destruct (grow_ok qs evs (i + 1) Hq) as (qs' & E & Hq' & Hge); [unfold max_idx in *; lia|]. rewrite E.
      exists qs', (next_allocs a). split; [done|]. split; [by right|]. split; [done|lia].
    - exists qs, a. split; [done|]. split; [by left|]. done. }
  cbn [Z.eqb negb].
  pose proof (qo_length _ _ Hq1) as Hlen.
  destruct (idx_range (queue_array qs1) i) as [q Eq]; [lia|]. rewrite Eq. cbn [mbind option_bind].
  set (q' := if aq_set q then _ else _).
  rewrite set_at_eq by lia. cbn [mbind option_bind]. eexists _, a1. split; [reflexivity|]. split; [done|].
  split; cbn.
  - by rewrite length_insert.
  - apply (qo_nr _ _ Hq1).
  - intros j Hj. unfold queue_head. cbn. rewrite idx_insert by lia. rewrite of_queue_snoc, map_app, Hout, andb_true_r.
    pose proof (qo_held _ _ Hq1 j Hj) as Hh. fold i. unfold queue_head in Hh.
    destruct (Z.eqb_spec j i) as [->|Hne].
    + rewrite Z.eqb_refl. rewrite Eq in Hh.
      assert (aq_head q' = aq_head q ++ [ab <| ab_buffer_nr := next_buffer_nr qs1 |>]) as -> by (subst q'; by destruct (aq_set q)).
      apply Forall2_app; [done|]. cbn. constructor; [apply Hab|constructor].
    + destruct (Z.eqb_spec i j); [lia|]. cbn. by rewrite app_nil_r.
Qed.

(** A file on disk: mapped as a whole, or buffer by buffer on a 64-bit host. *)
Context (Hfile : one_mmap = true \/ is_pipe = false /\ bits_per_long = 64).

(** What the index can hold: a queue, a CPU or a thread, and a trace within the
    file. *)
Record event_ok (p : placed) : Prop := {
  eo_idx : 0 <= ev_idx p.1 < max_idx;
  eo_size : Z.of_nat (length (trace_of p)) = ev_size p.1;
  eo_who : 0 <= ev_cpu p.1 < MAX_CPUS \/ ev_cpu p.1 = UINT_MAX /\ 0 <= ev_tid p.1 < 2 ^ 32
}.

Lemma buffer_holds p nr data : event_ok p -> data = Some (trace_of p) \/ data = None ->
  holds ((buffer_of_event p.1 p.2) <| ab_data := data |> <| ab_buffer_nr := nr |>) (trace_of p).
Proof.
  intros Hp Hd. pose proof (eo_size _ Hp). by split; cbn; try lia.
Qed.

Lemma add_buffer_ok a qs evs p :
  queues_ok qs evs -> all_true a -> event_ok p ->
  exists qs' a', auxtrace_queues__add_buffer a qs (ev_idx p.1) (buffer_of_event p.1 p.2) = Some (0, qs', a') /\
    all_true a' /\ queues_ok qs' (evs ++ [p]).
Proof.
  intros Hq Ha Hp. unfold auxtrace_queues__add_buffer.
  change (filter_cpu (ab_cpu (buffer_of_event p.1 p.2))) with (left_out p). destruct (left_out p) eqn:Hout.
  { exists qs, a. split; [done|]. split; [done|]. destruct Hq as [Q1 Q2 Q3]. split; [done|done|]. intros i Hi.
    rewrite of_queue_snoc, Hout, andb_false_r, app_nil_r. by apply Q3. }
  rewrite (Ha 0%nat). cbn [negb].
  pose proof (next_all_true a Ha) as Ha'.
  assert (forall data, data = Some (trace_of p) \/ data = None -> exists qs' a',
    auxtrace_queues__queue_buffer (next_allocs a) qs (ev_idx p.1) ((buffer_of_event p.1 p.2) <| ab_data := data |>)
      = Some (0, qs', a') /\ all_true a' /\ queues_ok qs' (evs ++ [p])) as Hqueue.
  { intros data Hd.
    destruct (queue_buffer_ok (next_allocs a) qs evs p ((buffer_of_event p.1 p.2) <| ab_data := data |>) Hq (Ha' 0%nat) Hout (eo_idx _ Hp))
      as (qs' & a' & E & Ha1 & Hq'); [intros nr; by apply buffer_holds|].
    exists qs', a'. split; [done|]. split; [|done]. destruct Ha1 as [-> | ->]; [done|by apply next_all_true]. }
  destruct one_mmap eqn:Eone.
  - destruct (Hqueue (Some (trace_of p))) as (qs' & a' & E & Hr); [by left|]. exists qs', a'. by split.
  - destruct Hfile as [?|[Ep E64]]; [congruence|]. rewrite Ep, E64. cbn [Z.eqb andb].
    destruct (Hqueue None) as (qs' & a' & E & Hr); [by right|]. exists qs', a'. split; [exact E|done].
Qed.

(** ** Batches *)

(** What has a batch of its own: a CPU or a thread. *)
Inductive who := Cpu (cpu : Z) | Thread (tid : Z).
#[export] Instance who_eq_dec : EqDecision who.
Proof. solve_decision. Defined.

Definition who_of (p : placed) : who :=
  if ev_cpu p.1 =? UINT_MAX then Thread (ev_tid p.1) else Cpu (ev_cpu p.1).

Definition of_who (w : who) (evs : list placed) : list placed :=
  List.filter (fun p => bool_decide (who_of p = w)) evs.

(** An entry of a batch of [n] events of which none has been handed out. *)
Definition fresh_entry (n : nat) : parallel_cache_entry := mkPar (Z.of_nat n) 0 0 0 0.

Definition cache_limit : Z := 409600.

Record batch_ok (s : proc) (batch : list placed) : Prop := {
  bo_cpus : Z.of_nat (length (cpu_batch_events s)) = MAX_CPUS;
  bo_cpu : forall cpu, 0 <= cpu < MAX_CPUS ->
    idx (cpu_batch_events s) cpu = Some (fresh_entry (length (of_who (Cpu cpu) batch)));
  bo_cache : exists c l, thread_batch_events s = Some c /\ represents c l /\
    ac_cnt c = Z.of_nat (length (thread_entries s)) /\ ac_limit c = cache_limit /\
    (length (thread_entries s) <= length batch)%nat /\
    (forall tid tid' n, 0 <= tid < 2 ^ 32 -> 0 <= tid' < 2 ^ 32 ->
      find_entry tid l = Some n -> find_entry tid' l = Some n -> tid = tid') /\
    forall tid, 0 <= tid < 2 ^ 32 ->
      match find_entry tid l with
      | Some n => thread_entries s !! n = Some (fresh_entry (length (of_who (Thread tid) batch))) /\
          of_who (Thread tid) batch <> []
      | None => of_who (Thread tid) batch = []
      end
}.

Lemma of_who_snoc w evs p : of_who w (evs ++ [p]) = of_who w evs ++ (if decide (who_of p = w) then [p] else []).
Proof.
  unfold of_who. rewrite List.filter_app. cbn. case_bool_decide; by destruct (decide _).
Qed.

Lemma fresh_succ n : Z.of_nat n < 2 ^ 31 - 1 ->
  (fresh_entry n) <| batch_add ::= fun n => swrap 32 (n + 1) |> = fresh_entry (S n).
Proof.
  intros Hn. unfold fresh_entry. unfold upd, set_batch_add. cbn. f_equal. rewrite s32_small; lia.
Qed.

Lemma of_who_length w evs : (length (of_who w evs) <= length evs)%nat.
Proof. unfold of_who. apply List.filter_length_le. Qed.

(** The counters that share out the events, and the queues. *)
Definition counters (s : proc) : Z * Z * Z * Z * Z * Z * Z :=
  (total_event s, parallel_step s, parallel_auxtrace_size s, total_event_added s, auxtrace_size_added s,
   parallel_file_count s, parallel_child_pid s).

Lemma who_cpu p cpu : event_ok p -> who_of p = Cpu cpu ->
  ev_cpu p.1 = cpu /\ 0 <= cpu < MAX_CPUS /\ negb (ev_cpu p.1 =? UINT_MAX) = true.
Proof.
  intros Hp. unfold who_of. destruct (Z.eqb_spec (ev_cpu p.1) UINT_MAX) as [E|E]; [done|].
  intros [= <-]. destruct (eo_who _ Hp) as [?|[? _]]; done.
Qed.

Lemma who_thread p tid : event_ok p -> who_of p = Thread tid ->
  ev_tid p.1 = tid /\ 0 <= tid < 2 ^ 32 /\ negb (ev_cpu p.1 =? UINT_MAX) = false.
Proof.
  intros Hp. unfold who_of. destruct (Z.eqb_spec (ev_cpu p.1) UINT_MAX) as [E|E]; [|done].
  intros [= <-]. destruct (eo_who _ Hp) as [?|[_ ?]]; [|done].
  exfalso. unfold MAX_CPUS, UINT_MAX in *. lia.
Qed.

Lemma of_who_snoc_same w evs p : who_of p = w -> length (of_who w (evs ++ [p])) = S (length (of_who w evs)).
Proof. intros E. rewrite of_who_snoc. destruct (decide (who_of p = w)); [|done]. rewrite length_app. cbn. lia. Qed.

Lemma of_who_snoc_other w evs p : who_of p <> w -> of_who w (evs ++ [p]) = of_who w evs.
Proof. intros E. rewrite of_who_snoc. destruct (decide (who_of p = w)); [done|]. by rewrite app_nil_r. Qed.

(** The event of a CPU. *)
Lemma add_cpu_ok s batch p cpu :
  batch_ok s batch -> event_ok p -> who_of p = Cpu cpu -> Z.of_nat (length batch) < cache_limit ->
  exists s', add_to_batch s p.1 = Some s' /\ batch_ok s' (batch ++ [p]) /\ p_allocs s' = p_allocs s /\
    p_queues s' = p_queues s /\ counters s' = counters s.
Proof.
  intros Hb Hp Hw Hmax. destruct (who_cpu p cpu Hp Hw) as (Ec & Hr & Et). unfold add_to_batch. rewrite Et, Ec.
  cbn [get_entry]. change (cpu_batch_events (s <| parallel_batch ::= _ |>)) with (cpu_batch_events s).
  rewrite (bo_cpu _ _ Hb cpu Hr). cbn [mbind option_bind].
  pose proof (of_who_length (Cpu cpu) batch) as Hle. unfold cache_limit in Hmax.
  rewrite fresh_succ by lia. cbn [set_entry].
  set (s1 := if _ =? 0 then _ else _).
  assert (cpu_batch_events s1 = cpu_batch_events s /\ thread_batch_events s1 = thread_batch_events s /\
    thread_entries s1 = thread_entries s /\ p_allocs s1 = p_allocs s /\ p_queues s1 = p_queues s /\
    counters s1 = counters s) as (F1 & F2 & F3 & F4 & F5 & F6) by (subst s1; by destruct (_ =? 0)).
  clearbody s1. pose proof (bo_cpus _ _ Hb) as Hn. rewrite F1, set_at_eq by lia. cbn [mbind option_bind].
  eexists. split; [reflexivity|]. split; [|done]. split; cbn [cpu_batch_events thread_batch_events thread_entries].
  - change (Z.of_nat (length (<[Z.to_nat cpu := fresh_entry (S (length (of_who (Cpu cpu) batch)))]> (cpu_batch_events s))) = MAX_CPUS).
    by rewrite length_insert.
  - intros c Hc. change (idx (<[Z.to_nat cpu := fresh_entry (S (length (of_who (Cpu cpu) batch)))]> (cpu_batch_events s)) c =
      Some (fresh_entry (length (of_who (Cpu c) (batch ++ [p]))))).
    rewrite idx_insert by lia. destruct (Z.eqb_spec c cpu) as [->|Hne].
    + by rewrite of_who_snoc_same.
    + rewrite (bo_cpu _ _ Hb c Hc), of_who_snoc_other; [done|congruence].
  - destruct (bo_cache _ _ Hb) as (c & l & Ecache & Hrep & Hcnt & Hlim & Hlen & Hinj & Hl).
    exists c, l. change (thread_batch_events s1 = Some c /\ represents c l /\ ac_cnt c = Z.of_nat (length (thread_entries s1)) /\
      ac_limit c = cache_limit /\ (length (thread_entries s1) <= length (batch ++ [p]))%nat /\
      (forall tid tid' n, 0 <= tid < 2 ^ 32 -> 0 <= tid' < 2 ^ 32 ->
        find_entry tid l = Some n -> find_entry tid' l = Some n -> tid = tid') /\
      forall tid, 0 <= tid < 2 ^ 32 ->
      match find_entry tid l with
      | Some n => thread_entries s1 !! n = Some (fresh_entry (length (of_who (Thread tid) (batch ++ [p])))) /\
          of_who (Thread tid) (batch ++ [p]) <> []
      | None => of_who (Thread tid) (batch ++ [p]) = []
      end).
    rewrite F2, F3, length_app. split_and!; try done; [lia|].
    intros tid Htid. rewrite of_who_snoc_other by congruence. by apply Hl.
Qed.

(** The threads of a batch: the cache as a map from threads to entries. *)
Definition threads_ok (c : auxtrace_cache nat) (entries : list parallel_cache_entry) (count : Z -> nat)
    (max : nat) : Prop :=
  exists l, represents c l /\ ac_cnt c = Z.of_nat (length entries) /\ ac_limit c = cache_limit /\
    (length entries <= max)%nat /\
    (forall tid tid' n, 0 <= tid < 2 ^ 32 -> 0 <= tid' < 2 ^ 32 ->
      find_entry tid l = Some n -> find_entry tid' l = Some n -> tid = tid') /\
    forall tid, 0 <= tid < 2 ^ 32 ->
      match find_entry tid l with
      | Some n => entries !! n = Some (fresh_entry (count tid)) /\ count tid <> O
      | None => count tid = O
      end.

Lemma batch_threads s batch : batch_ok s batch -> exists c, thread_batch_events s = Some c /\
  threads_ok c (thread_entries s) (fun tid => length (of_who (Thread tid) batch)) (length batch).
Proof.
  intros Hb. destruct (bo_cache _ _ Hb) as (c & l & Ec & Hrep & Hcnt & Hlim & Hlen & Hinj & Hl).
  exists c. split; [done|]. exists l. split_and!; try done. intros tid Ht. specialize (Hl tid Ht).
  destruct (find_entry tid l); [|by rewrite Hl]. destruct Hl as [? Hne]. split; [done|].
  by destruct (of_who (Thread tid) batch).
Qed.

Lemma threads_batch s batch c : Z.of_nat (length (cpu_batch_events s)) = MAX_CPUS ->
  (forall cpu, 0 <= cpu < MAX_CPUS ->
    idx (cpu_batch_events s) cpu = Some (fresh_entry (length (of_who (Cpu cpu) batch)))) ->
  thread_batch_events s = Some c ->
  threads_ok c (thread_entries s) (fun tid => length (of_who (Thread tid) batch)) (length batch) ->
  batch_ok s batch.
Proof.
  intros Hlen Hcpu Ec (l & Hrep & Hcnt & Hlim & Hle & Hinj & Hl). split; [done|done|].
  exists c, l. split_and!; try done. intros tid Ht. specialize (Hl tid Ht).
  destruct (find_entry tid l); [|by destruct (of_who (Thread tid) batch)]. destruct Hl as [? Hne].
  split; [done|]. by destruct (of_who (Thread tid) batch).
Qed.

(** A thread counted once more: in the entry it has, *)
Lemma threads_found c entries count max tid n :
  threads_ok c entries count max -> 0 <= tid < 2 ^ 32 ->
  auxtrace_cache__lookup c tid = Some (Some n) ->
  entries !! n = Some (fresh_entry (count tid)) /\
  threads_ok c (<[n := fresh_entry (S (count tid))]> entries)
    (fun t => if t =? tid then S (count t) else count t) (S max).
Proof.
  intros (l' & Hrep & Hcnt & Hlim & Hle & Hinj & Hl) Ht E.
  rewrite (lookup_represents c l' tid Hrep), u32_small in E by lia. injection E as E.
  pose proof (Hl tid Ht) as Htid. rewrite E in Htid. destruct Htid as [En Hne]. split; [done|].
  exists l'. rewrite length_insert. split_and!; try done; [lia|].
  intros t Ht'. specialize (Hl t Ht'). destruct (Z.eqb_spec t tid) as [->|Hne'].
  - rewrite E. split; [|done]. apply list_lookup_insert_eq. by eapply lookup_lt_Some.
  - destruct (find_entry t l') as [m|] eqn:Em; [|done]. destruct Hl as [Hm Hc]. split; [|done].
    rewrite list_lookup_insert_ne; [done|]. intros ->. by apply Hne', (Hinj t tid m).
Qed.

(** or in a new one. *)
Lemma threads_new c entries count max tid :
  threads_ok c entries count max -> 0 <= tid < 2 ^ 32 -> Z.of_nat max < cache_limit ->
  auxtrace_cache__lookup c tid = Some None ->
  exists c', auxtrace_cache__add c tid (length entries) = Some c' /\
  threads_ok c' (<[length entries := fresh_entry (S (count tid))]> (entries ++ [zero_par]))
    (fun t => if t =? tid then S (count t) else count t) (S max) /\ count tid = O.
Proof.
  intros (l & Hrep & Hcnt & Hlim & Hle & Hinj & Hl) Ht Hmax E.
  rewrite (lookup_represents c l tid Hrep), u32_small in E by lia. injection E as E.
  destruct (add_keeps c l tid (length entries) Hrep) as (c' & Ec & Hrep' & Hcnt' & Hlim');
    [lia|unfold cache_limit in *; lia|].
  exists c'. split; [done|]. rewrite u32_small in Hrep' by lia.
  pose proof (Hl tid Ht) as Htid. rewrite E in Htid. split; [|done].
  assert (forall t m, 0 <= t < 2 ^ 32 -> find_entry t l = Some m -> (m < length entries)%nat) as Hold.
  { intros t m Ht' Em. specialize (Hl t Ht'). rewrite Em in Hl. destruct Hl as [Hl _]. by eapply lookup_lt_Some. }
  exists ((tid, length entries) :: l). rewrite length_insert, length_app. cbn [length find_entry].
  split_and!; [done|lia|lia|lia| |].
  - intros t1 t2 m H1' H2' E1 E2. destruct (Z.eqb_spec tid t1), (Z.eqb_spec tid t2); subst; simplify_eq; try done.
    + specialize (Hold t2 _ H2' E2). lia.
    + specialize (Hold t1 _ H1' E1). lia.
    + by apply (Hinj t1 t2 m).
  - intros t Ht'. destruct (Z.eqb_spec tid t) as [<-|Hne].
    + rewrite Z.eqb_refl. split; [|done]. apply list_lookup_insert_eq. rewrite length_app. cbn. lia.
    + destruct (Z.eqb_spec t tid); [lia|]. pose proof (Hl t Ht') as Hl'.
      destruct (find_entry t l) as [m|] eqn:Em; [|done]. destruct Hl' as [Hm Hc]. split; [|done].
      specialize (Hold t m Ht' Em). rewrite list_lookup_insert_ne by lia. by rewrite lookup_app_l by lia.
Qed.

Lemma threads_ext c entries count count' max : (forall t, 0 <= t < 2 ^ 32 -> count t = count' t) ->
  threads_ok c entries count max -> threads_ok c entries count' max.
Proof.
  intros Hc (l & Hrep & Hcnt & Hlim & Hle & Hinj & Hl). exists l. split_and!; try done.
  intros t Ht. rewrite <- Hc by done. by apply Hl.
Qed.

Lemma count_snoc p batch tid : who_of p = Thread tid -> forall t,
  (if t =? tid then S (length (of_who (Thread t) batch)) else length (of_who (Thread t) batch)) =
  length (of_who (Thread t) (batch ++ [p])).
Proof.
  intros Hw t. destruct (Z.eqb_spec t tid) as [->|Hne]; [by rewrite of_who_snoc_same|].
  rewrite of_who_snoc_other; [done|]. congruence.
Qed.

(** The event of a thread. *)
Lemma add_thread_ok s batch p tid :
  batch_ok s batch -> event_ok p -> who_of p = Thread tid -> Z.of_nat (length batch) < cache_limit ->
  all_true (p_allocs s) ->
  exists s', add_to_batch s p.1 = Some s' /\ batch_ok s' (batch ++ [p]) /\ all_true (p_allocs s') /\
    p_queues s' = p_queues s /\ counters s' = counters s.
Proof.
  intros Hb Hp Hw Hmax Ha. destruct (who_thread p tid Hp Hw) as (Et & Hr & Ec).
  destruct (batch_threads s batch Hb) as (c & Ecache & Hth).
  unfold add_to_batch. rewrite Ec, Et.
  set (s0 := s <| parallel_batch ::= fun n => u64 (n + 1) |>).
  assert (exists found, auxtrace_cache__lookup c tid = Some found) as [found Ef].
  { destruct Hth as (l & Hrep & _). rewrite (lookup_represents c l tid Hrep). by eexists. }
  assert (thread_lookup s0 tid = Some found) as -> by (unfold thread_lookup; cbn; by rewrite Ecache).
  cbn [mbind option_bind].
  assert (forall s1 n c1 entries, cpu_batch_events s1 = cpu_batch_events s -> thread_batch_events s1 = Some c1 ->
    thread_entries s1 = entries -> all_true (p_allocs s1) -> p_queues s1 = p_queues s -> counters s1 = counters s ->
    entries !! n = Some (fresh_entry (length (of_who (Thread tid) batch))) ->
    threads_ok c1 (<[n := fresh_entry (S (length (of_who (Thread tid) batch)))]> entries)
      (fun t => if t =? tid then S (length (of_who (Thread t) batch)) else length (of_who (Thread t) batch))
      (S (length batch)) ->
    exists s', (e ← get_entry s1 (ThreadEntry n);
      set_entry s1 (ThreadEntry n) (e <| batch_add ::= fun n => swrap 32 (n + 1) |>)) = Some s' /\
      batch_ok s' (batch ++ [p]) /\ all_true (p_allocs s') /\ p_queues s' = p_queues s /\ counters s' = counters s)
    as Hset.
  { intros s1 n c1 entries F1 F2 F3 F4 F5 F6 En Hth1. cbn [get_entry]. rewrite F3, En. cbn [mbind option_bind].
    pose proof (of_who_length (Thread tid) batch) as Hle. unfold cache_limit in Hmax.
    rewrite fresh_succ by lia. cbn [set_entry]. rewrite F3, bool_decide_eq_true_2 by (by eapply lookup_lt_Some).
    eexists. split; [reflexivity|]. split; [|done].
    apply (threads_batch _ _ c1).
    - change (Z.of_nat (length (cpu_batch_events s1)) = MAX_CPUS). rewrite F1. apply (bo_cpus _ _ Hb).
    - intros cpu Hcpu. change (idx (cpu_batch_events s1) cpu = Some (fresh_entry (length (of_who (Cpu cpu) (batch ++ [p]))))).
      rewrite F1, of_who_snoc_other by congruence. by apply (bo_cpu _ _ Hb).
    - exact F2.
    - cbn. rewrite F3, length_app, Nat.add_comm. eapply threads_ext; [|exact Hth1].
      intros t _. by apply count_snoc. }
  destruct found as [n|].
  - destruct (threads_found c _ _ _ tid n Hth Hr Ef) as [En Hth']. cbn [mbind option_bind].
    by apply (Hset s0 n c (thread_entries s)).
  - destruct (threads_new c _ _ _ tid Hth Hr Hmax Ef) as (c' & Eadd & Hth' & E0).
    unfold thread_add. change (thread_batch_events (s0 <| cpu_thread_size ::= _ |>)) with (thread_batch_events s).
    rewrite Ecache. cbn [mbind option_bind].
    change (p_allocs (s0 <| cpu_thread_size ::= _ |>)) with (p_allocs s). rewrite (Ha 0%nat).
    change (thread_entries (s0 <| cpu_thread_size ::= _ |>)) with (thread_entries s).
    rewrite Eadd. cbn [mbind option_bind].
    eapply (Hset _ (length (thread_entries s)) c' (thread_entries s ++ [zero_par])); try reflexivity.
    + by apply next_all_true.
    + rewrite E0. by rewrite lookup_app_r, Nat.sub_diag by lia.
    + exact Hth'.
Qed.

Lemma add_to_batch_ok s batch p :
  batch_ok s batch -> event_ok p -> Z.of_nat (length batch) < cache_limit -> all_true (p_allocs s) ->
  exists s', add_to_batch s p.1 = Some s' /\ batch_ok s' (batch ++ [p]) /\ all_true (p_allocs s') /\
    p_queues s' = p_queues s /\ counters s' = counters s.
Proof.
  intros Hb Hp Hmax Ha. destruct (who_of p) as [cpu|tid] eqn:Hw.
  - destruct (add_cpu_ok s batch p cpu Hb Hp Hw Hmax) as (s' & E & Hb' & Ea & Hrest). exists s'.
    split; [done|]. split; [done|]. by rewrite Ea.
  - by apply (add_thread_ok s batch p tid).
Qed.
End index.

(** The processes that share the index: every worker gets a batch, the batches
    follow each other, and each worker also queues what follows its own. *)
Section workers.
Context `{Platform} `{TraceFile} (parallel_worker : Z) (parallel_by_events : bool) (tid_list : option (list Z)).
Context (Hfile : one_mmap = true \/ is_pipe = false /\ bits_per_long = 64).

(** ** The events taken from the index *)

Definition taken_event (ent : auxtrace_index_entry) : option placed :=
  match ent_peek ent with
  | PeekAuxtrace header_size event =>
    if (ev_cpu event =? UINT_MAX) && thread__is_filter_by_tid tid_list (swrap 32 (ev_tid event)) then None
    else Some (event, u64 (ent_file_offset ent + header_size))
  | _ => None
  end.

Definition taken (ents : list auxtrace_index_entry) : list placed := omap taken_event ents.

(** An entry of the index that is what it says. *)
Definition entry_ok (ent : auxtrace_index_entry) : Prop :=
  match ent_peek ent with
  | PeekErr _ => False
  | PeekOther => True
  | PeekAuxtrace header_size event =>
    sizeof_perf_record_auxtrace <= header_size /\ header_size = ent_sz ent
  end /\ forall p, taken_event ent = Some p -> event_ok p.

Lemma add_indexed_ok pid ent s : entry_ok ent ->
  auxtrace_queues__add_indexed_event parallel_worker parallel_by_events tid_list pid ent s =
    match taken_event ent with
    | None => Some ((0, s), None)
    | Some p => auxtrace_queues__add_event parallel_worker parallel_by_events pid p.1 p.2 s
    end.
Proof.
  unfold entry_ok, taken_event, auxtrace_queues__add_indexed_event. intros [Hent _].
  destruct (ent_peek ent) as [err|hs ev|]; [done| |done]. destruct Hent as [Hge Heq].
  destruct (Z.ltb_spec hs sizeof_perf_record_auxtrace); [lia|].
  destruct (Z.eqb_spec hs (ent_sz ent)); [|done]. cbn [negb orb]. by destruct (_ && _).
Qed.

Lemma size_taken ent : entry_ok ent ->
  auxtrace_queues__get_auxtrace_size tid_list ent =
    match taken_event ent with Some p => ev_size p.1 | None => 0 end.
Proof.
  unfold entry_ok, taken_event, auxtrace_queues__get_auxtrace_size. intros [Hent _].
  destruct (ent_peek ent) as [err|hs ev|]; [done| |done]. destruct Hent as [Hge Heq].
  destruct (Z.ltb_spec hs sizeof_perf_record_auxtrace); [lia|].
  destruct (Z.eqb_spec hs (ent_sz ent)); [|done]. cbn [negb orb]. by destruct (_ && _).
Qed.

Definition sizes (evs : list placed) : Z := foldr (fun p n => ev_size p.1 + n) 0 evs.

Lemma sizes_nonneg evs : Forall event_ok evs -> 0 <= sizes evs.
Proof. induction 1 as [|p evs Hp _ IH]; [done|]. pose proof (eo_size _ Hp). unfold sizes in *. cbn. lia. Qed.

(** ** The limits of batches *)

(** All events, and all bytes of trace. *)
Context (N B : Z) (HN : 0 <= N < cache_limit) (HS : 0 <= B < 2 ^ 62) (Hworkers : 1 < parallel_worker < 2 ^ 31).
Let step : Z := N / parallel_worker + 1.
Let psize : Z := B / parallel_worker + 1.

(** Whether the next event is in the batch of the [count]-th worker or before. *)
Definition in_limit (count added size : Z) : bool :=
  if parallel_by_events then added <? count * step else size <? count * psize.

Fixpoint batch_rest (count added size : Z) (evs : list placed) : list placed :=
  match evs with
  | [] => []
  | p :: evs =>
    if in_limit count added size then p :: batch_rest count (added + 1) (size + ev_size p.1) evs else []
  end.

Lemma steps_bound : 0 < step /\ 0 < psize /\ parallel_worker * step <= N + parallel_worker /\
  parallel_worker * psize <= B + parallel_worker /\ N < parallel_worker * step /\ B < parallel_worker * psize.
Proof.
  subst step psize.
  pose proof (Z.div_mod N parallel_worker ltac:(lia)). pose proof (Z.mod_pos_bound N parallel_worker ltac:(lia)).
  pose proof (Z.div_mod B parallel_worker ltac:(lia)). pose proof (Z.mod_pos_bound B parallel_worker ltac:(lia)).
  pose proof (Z.div_pos N parallel_worker ltac:(lia) ltac:(lia)).
  pose proof (Z.div_pos B parallel_worker ltac:(lia) ltac:(lia)). split_and!; lia.
Qed.

Lemma limit_over count added size added' size' :
  in_limit count added size = false -> added <= added' -> size <= size' -> in_limit count added' size' = false.
Proof.
  unfold in_limit. destruct parallel_by_events; rewrite !Z.ltb_ge; lia.
Qed.

Lemma batch_rest_over count added size evs : in_limit count added size = false ->
  batch_rest count added size evs = [].
Proof. intros E. destruct evs; cbn; [done|]. by rewrite E. Qed.

(** Events are left only for a worker that can still be started. *)
Lemma limit_workers count added size : 0 <= count <= parallel_worker ->
  0 <= added < N -> 0 <= size <= B -> in_limit count added size = false -> count < parallel_worker.
Proof.
  intros Hc Ha Hs E. pose proof steps_bound as (_ & _ & _ & _ & H1' & H2').
  destruct (Z.eq_dec count parallel_worker) as [->|]; [|lia]. unfold in_limit in E.
  destruct parallel_by_events; apply Z.ltb_ge in E; lia.
Qed.

(** No batch has more than its part of the events, or of the bytes before its
    last event. *)
Definition balanced (batch : list placed) : Prop :=
  if parallel_by_events then Z.of_nat (length batch) <= step else sizes (removelast batch) < psize.

Lemma batch_rest_length evs : parallel_by_events = true -> forall count added size,
  Z.of_nat (length (batch_rest count added size evs)) <= Z.max 0 (count * step - added).
Proof.
  intros Emode. induction evs as [|p evs IH]; intros count added size; cbn [batch_rest]; [cbn; lia|].
  unfold in_limit. rewrite Emode. destruct (Z.ltb_spec added (count * step)); [|cbn; lia].
  specialize (IH count (added + 1) (size + ev_size p.1)). cbn [length]. lia.
Qed.

Lemma batch_rest_size evs : parallel_by_events = false -> forall count added size,
  batch_rest count added size evs <> [] ->
  size + sizes (removelast (batch_rest count added size evs)) < count * psize.
Proof.
  intros Emode. induction evs as [|p evs IH]; intros count added size Hne; cbn [batch_rest] in *; [done|].
  unfold in_limit in *. rewrite Emode in *. destruct (Z.ltb_spec size (count * psize)); [|done].
  specialize (IH count (added + 1) (size + ev_size p.1)).
  destruct (batch_rest count (added + 1) (size + ev_size p.1) evs) as [|q rest] eqn:E; [cbn; lia|].
  specialize (IH ltac:(done)). change (removelast (p :: q :: rest)) with (p :: removelast (q :: rest)).
  unfold sizes in *. cbn [foldr]. lia.
Qed.

(** A batch begins where the one before has had its part. *)
Lemma batch_balanced count added size p evs : in_limit count added size = false -> 0 <= ev_size p.1 ->
  balanced (p :: batch_rest (count + 1) (added + 1) (size + ev_size p.1) evs).
Proof.
  intros El Hpos. unfold balanced, in_limit in *. pose proof steps_bound.
  destruct parallel_by_events eqn:Emode; apply Z.ltb_ge in El.
  - pose proof (batch_rest_length evs Emode (count + 1) (added + 1) (size + ev_size p.1)). cbn [length]. lia.
  - pose proof (batch_rest_size evs Emode (count + 1) (added + 1) (size + ev_size p.1)) as Hs.
    destruct (batch_rest _ _ _ _) as [|q rest]; [cbn; lia|]. specialize (Hs ltac:(done)).
    change (removelast (p :: q :: rest)) with (p :: removelast (q :: rest)). unfold sizes in *. cbn [foldr]. lia.
Qed.

(** ** The counters of a process *)

Record proc_at (s : proc) (pid count added size : Z) (batch queued : list placed) : Prop := {
  pa_batch : batch_ok s batch;
  pa_queues : queues_ok (p_queues s) queued;
  pa_allocs : all_true (p_allocs s);
  pa_counters : counters s = (N, step, psize, added, size, count, pid);
  pa_range : 0 <= count <= parallel_worker /\ 0 <= added <= N /\ 0 <= size <= B /\
    Z.of_nat (length batch) <= added
}.

Lemma in_batch_limit s pid count added size batch queued : proc_at s pid count added size batch queued ->
  in_batch parallel_by_events s = in_limit count added size.
Proof.
  intros Hs. pose proof (pa_counters _ _ _ _ _ _ _ Hs) as E. injection E as E1 E2 E3 E4 E5 E6 E7.
  pose proof (pa_range _ _ _ _ _ _ _ Hs) as (Hc & Ha & Hz & _).
  pose proof steps_bound as (H1' & H2' & H3' & H4' & _).
  unfold in_batch, in_limit. rewrite E2, E3, E4, E5, E6.
  destruct parallel_by_events; rewrite u64_small; try done; unfold cache_limit in *; nia.
Qed.

(** ** One event *)

(** The counters after an event. *)
Definition counted (s : proc) (p : placed) : proc :=
  s <| total_event_added ::= fun n => u64 (n + 1) |> <| auxtrace_size_added ::= fun n => u64 (n + ev_size p.1) |>.

Lemma counted_at s pid count added size batch queued p :
  proc_at s pid count added size batch queued -> event_ok p -> added < N -> size + ev_size p.1 <= B ->
  proc_at (counted s p) pid count (added + 1) (size + ev_size p.1) batch queued.
Proof.
  intros Hs Hp Ha Hz. pose proof (eo_size _ Hp). destruct Hs as [Hb Hq Hal Hc Hr].
  injection Hc as E1 E2 E3 E4 E5 E6 E7. unfold cache_limit in *. split.
  - destruct Hb. by split.
  - exact Hq.
  - exact Hal.
  - unfold counters, counted. cbn. rewrite E1, E2, E3, E4, E5, E6, E7, !u64_small by lia. done.
  - lia.
Qed.

(** The first process only counts. *)
Lemma count_event_parent s pid count added size batch queued p b :
  proc_at s pid count added size batch queued -> event_ok p -> pid <> 0 -> added < N -> size + ev_size p.1 <= B ->
  count_event parallel_worker p.1 p.2 b s = Some (0, counted s p).
Proof.
  intros Hs Hp Hpid Ha Hz. pose proof (pa_counters _ _ _ _ _ _ _ Hs) as Hc. injection Hc as E1 E2 E3 E4 E5 E6 E7.
  unfold count_event. destruct (Z.ltb_spec 1 parallel_worker); [|lia]. rewrite E1, E4.
  destruct (Z.eqb_spec added N); [lia|].
  change (parallel_child_pid (s <| total_event_added ::= _ |> <| auxtrace_size_added ::= _ |>)) with (parallel_child_pid s).
  rewrite E7. by destruct (Z.eqb_spec pid 0).
Qed.

(** A worker also puts it in its batch, and in a queue. *)
Lemma count_event_worker s count added size batch queued p (b : bool) :
  proc_at s 0 count added size batch queued -> event_ok p -> added < N -> size + ev_size p.1 <= B ->
  exists s', count_event parallel_worker p.1 p.2 b s = Some (0, s') /\
    proc_at s' 0 count (added + 1) (size + ev_size p.1) (if b then batch ++ [p] else batch) (queued ++ [p]).
Proof.
  intros Hs Hp Ha Hz. pose proof (pa_counters _ _ _ _ _ _ _ Hs) as Hc. injection Hc as E1 E2 E3 E4 E5 E6 E7.
  pose proof (counted_at s 0 count added size batch queued p Hs Hp Ha Hz) as Hs1.
  unfold count_event. destruct (Z.ltb_spec 1 parallel_worker); [|lia]. rewrite E1, E4.
  destruct (Z.eqb_spec added N); [lia|]. fold (counted s p).
  change (parallel_child_pid (counted s p)) with (parallel_child_pid s). rewrite E7. cbn [Z.eqb negb].
  assert (exists s2, (if b then add_to_batch (counted s p) p.1 else Some (counted s p)) = Some s2 /\
    batch_ok s2 (if b then batch ++ [p] else batch) /\ all_true (p_allocs s2) /\
    p_queues s2 = p_queues s /\ counters s2 = counters (counted s p)) as (s2 & Eb & Hb2 & Ha2 & Hq2 & Hc2).
  { destruct b.
    - destruct (add_to_batch_ok (counted s p) batch p (pa_batch _ _ _ _ _ _ _ Hs1) Hp) as (s2 & E & Hb & Hal & Hq & Hc).
      + pose proof (pa_range _ _ _ _ _ _ _ Hs). lia.
      + apply (pa_allocs _ _ _ _ _ _ _ Hs1).
      + exists s2. by split_and!.
    - exists (counted s p). split_and!; try done; apply Hs1. }
  rewrite Eb. cbn [mbind option_bind].
  change (p_allocs (s2 <| parallel_event_added ::= _ |>)) with (p_allocs s2).
  change (p_queues (s2 <| parallel_event_added ::= _ |>)) with (p_queues s2).
  destruct (add_buffer_ok Hfile (p_allocs s2) (p_queues s2) queued p) as (qs' & a' & Eadd & Ha' & Hq');
    [rewrite Hq2; apply (pa_queues _ _ _ _ _ _ _ Hs)|done|done|].
  rewrite Eadd. cbn [mbind option_bind]. eexists. split; [reflexivity|]. split; cbn.
  - destruct Hb2. by split.
  - exact Hq'.
  - exact Ha'.
  - change (counters s2 = (N, step, psize, added + 1, size + ev_size p.1, count, 0)).
    rewrite Hc2. apply (pa_counters _ _ _ _ _ _ _ Hs1).
  - pose proof (pa_range _ _ _ _ _ _ _ Hs1). pose proof (pa_range _ _ _ _ _ _ _ Hs).
    destruct b; rewrite ?length_app; cbn; lia.
Qed.

(** ** The loop in a worker *)

Notation next_event := (auxtrace_queues__add_event parallel_worker parallel_by_events).

Lemma worker_event_ok s count added size batch queued p pid :
  proc_at s 0 count added size batch queued -> event_ok p -> added < N -> size + ev_size p.1 <= B ->
  exists s', next_event pid p.1 p.2 s = Some ((0, s'), None) /\
    proc_at s' 0 count (added + 1) (size + ev_size p.1)
      (if in_limit count added size then batch ++ [p] else batch) (queued ++ [p]).
Proof.
  intros Hs Hp Ha Hz. pose proof (pa_counters _ _ _ _ _ _ _ Hs) as Hc. injection Hc as E1 E2 E3 E4 E5 E6 E7.
  unfold auxtrace_queues__add_event. rewrite (in_batch_limit _ _ _ _ _ _ _ Hs), E7. cbn [Z.eqb negb].
  rewrite andb_false_r. cbn [andb].
  destruct (count_event_worker s count added size batch queued p (in_limit count added size) Hs Hp Ha Hz) as (s' & E & Hs').
  rewrite E. cbn [mbind option_bind]. by exists s'.
Qed.

Definition fits (added size : Z) (evs : list placed) : Prop :=
  added + Z.of_nat (length evs) <= N /\ size + sizes evs <= B /\ Forall event_ok evs.

Lemma fits_cons added size p evs : fits added size (p :: evs) ->
  event_ok p /\ added < N /\ size + ev_size p.1 <= B /\ 0 <= ev_size p.1 /\
  fits (added + 1) (size + ev_size p.1) evs.
Proof.
  intros (Hn & Hz & Hall). inversion Hall as [|? ? Hp Hall']; subst. pose proof (sizes_nonneg evs Hall').
  pose proof (eo_size _ Hp). cbn [length] in Hn. unfold sizes in *. cbn in Hz.
  split_and!; try done; try lia. split_and!; [lia|unfold sizes; lia|done].
Qed.

Lemma index_loop_ok ents : forall s count added size batch queued,
  proc_at s 0 count added size batch queued -> Forall entry_ok ents -> fits added size (taken ents) ->
  exists s', index_loop parallel_worker parallel_by_events tid_list ents s = Some (0, s') /\
    batch_ok s' (batch ++ batch_rest count added size (taken ents)) /\
    queues_ok (p_queues s') (queued ++ taken ents) /\ all_true (p_allocs s').
Proof.
  induction ents as [|ent ents IH]; intros s count added size batch queued Hs Hents Hfits; cbn [index_loop].
  - exists s. cbn. rewrite !app_nil_r. split_and!; [done|apply Hs..].
  - inversion Hents as [|? ? Hent Hents']; subst. rewrite (add_indexed_ok _ _ _ Hent).
    unfold taken in *. cbn [omap list_omap] in *. destruct (taken_event ent) as [p|]; [|by apply IH].
    destruct (fits_cons _ _ _ _ Hfits) as (Hp & Ha & Hz & Hpos & Hfits').
    destruct (worker_event_ok s count added size batch queued p 0 Hs Hp Ha Hz) as (s1 & E1 & Hs1).
    rewrite E1. cbn [mbind option_bind Z.eqb negb].
    destruct (IH s1 _ _ _ _ _ Hs1 Hents' Hfits') as (s' & E & Hb & Hq & Hal). exists s'. split; [done|].
    rewrite <- (assoc_L (++)) in Hq. split; [|by split]. cbn [batch_rest].
    destruct (in_limit count added size) eqn:El; [by rewrite <- (assoc_L (++)) in Hb|].
    rewrite batch_rest_over in Hb by (eapply limit_over; [exact El|lia|lia]). done.
Qed.

(** ** The loop in the first process *)

Lemma after_fork_ok s pid count added size batch queued off pid' :
  proc_at s pid count added size batch queued -> count < parallel_worker ->
  Z.of_nat (length (worker_pids s)) = parallel_worker ->
  exists s', after_fork pid' off s = Some s' /\ proc_at s' pid' (count + 1) added size batch queued /\
    Z.of_nat (length (worker_pids s')) = parallel_worker.
Proof.
  intros Hs Hcount Hlen. pose proof (pa_counters _ _ _ _ _ _ _ Hs) as Hc. injection Hc as E1 E2 E3 E4 E5 E6 E7.
  pose proof (pa_range _ _ _ _ _ _ _ Hs) as (Hr & Hr2 & Hr3 & Hr4).
  assert (forall s1, batch_ok s1 batch -> p_queues s1 = p_queues s -> p_allocs s1 = p_allocs s ->
    counters s1 = (N, step, psize, added, size, count, pid') ->
    proc_at (s1 <| parallel_file_count ::= fun n => swrap 32 (n + 1) |>) pid' (count + 1) added size batch queued) as Hat.
  { intros s1 Hb Hq Ha Hc. injection Hc as F1 F2 F3 F4 F5 F6 F7. split.
    - destruct Hb. by split.
    - cbn. rewrite Hq. apply Hs.
    - cbn. rewrite Ha. apply Hs.
    - unfold counters. cbn. rewrite F1, F2, F3, F4, F5, F6, F7, s32_small by lia. done.
    - lia. }
  assert (counters (s <| parallel_child_pid := pid' |>) = (N, step, psize, added, size, count, pid')) as Hc'.
  { unfold counters. cbn. by rewrite E1, E2, E3, E4, E5, E6. }
  pose proof (pa_batch _ _ _ _ _ _ _ Hs) as Hb.
  unfold after_fork. destruct (Z.eqb_spec pid' 0) as [->|Hne].
  - cbn [mbind option_bind]. eexists. split; [reflexivity|]. split; [|exact Hlen].
    apply Hat; [destruct Hb; by split|done|done|exact Hc'].
  - change (parallel_file_count (s <| parallel_child_pid := pid' |>)) with (parallel_file_count s).
    change (worker_pids (s <| parallel_child_pid := pid' |>)) with (worker_pids s).
    rewrite E6, set_at_eq by lia. cbn [mbind option_bind]. eexists. split; [reflexivity|]. split.
    + apply Hat; [destruct Hb; by split|done|done|exact Hc'].
    + cbn. by rewrite length_insert.
Qed.

(** A worker as it should be when it has read the index: with its batch, and
    the events from there on in its queues. *)
Definition worker_ok (w : Z * proc) (batch queued : list placed) : Prop :=
  w.1 = 0 /\ batch_ok w.2 batch /\ queues_ok (p_queues w.2) queued /\ all_true (p_allocs w.2).

(** The workers of batches that follow each other. *)
Inductive workers_ok : list (Z * proc) -> list (list placed) -> Prop :=
| workers_nil : workers_ok [] []
| workers_cons w ws batch batches :
    worker_ok w batch (batch ++ concat batches) -> batch <> [] -> workers_ok ws batches ->
    workers_ok (w :: ws) (batch :: batches).

Lemma parent_event_ok s pid count added size p fork :
  proc_at s pid count added size [] [] -> pid <> 0 -> 0 < fork -> event_ok p -> added < N ->
  0 <= ev_size p.1 -> size + ev_size p.1 <= B -> Z.of_nat (length (worker_pids s)) = parallel_worker ->
  exists s' pid', pid' <> 0 /\ Z.of_nat (length (worker_pids s')) = parallel_worker /\
    if in_limit count added size then
      next_event fork p.1 p.2 s = Some ((0, s'), None) /\
      proc_at s' pid' count (added + 1) (size + ev_size p.1) [] []
    else
      count < parallel_worker /\
      proc_at s' pid' (count + 1) (added + 1) (size + ev_size p.1) [] [] /\
      exists c, next_event fork p.1 p.2 s = Some ((0, s'), Some (0, c)) /\
        proc_at c 0 (count + 1) (added + 1) (size + ev_size p.1) [p] [p].
Proof.
  intros Hs Hpid Hfork Hp Ha Hpos Hz Hlen.
  pose proof (pa_counters _ _ _ _ _ _ _ Hs) as Hc. injection Hc as E1 E2 E3 E4 E5 E6 E7.
  pose proof (pa_range _ _ _ _ _ _ _ Hs) as (Hr & Hr2 & Hr3 & _).
  unfold auxtrace_queues__add_event. rewrite (in_batch_limit _ _ _ _ _ _ _ Hs), E7, E1, E4.
  destruct (Z.ltb_spec 1 parallel_worker); [|lia]. destruct (Z.eqb_spec pid 0); [done|].
  destruct (Z.ltb_spec added N); [|lia]. cbn [negb andb].
  destruct (in_limit count added size) eqn:El; cbn [negb andb].
  - rewrite (count_event_parent s pid count added size [] [] p true Hs Hp Hpid Ha Hz). cbn [mbind option_bind].
    exists (counted s p), pid. split; [done|]. split; [done|]. split; [done|]. by eapply counted_at.
  - assert (count < parallel_worker) as Hcw by (eapply limit_workers; [exact Hr|split; [apply Hr2|exact Ha]|exact Hr3|exact El]).
    destruct (after_fork_ok s pid count added size [] [] p.2 fork Hs Hcw Hlen) as (s1 & F1 & Hs1 & Hlen1).
    rewrite F1. cbn [mbind option_bind].
    rewrite (count_event_parent s1 fork (count + 1) added size [] [] p true Hs1 Hp ltac:(lia) Ha Hz). cbn [mbind option_bind].
    destruct (Z.ltb_spec fork 0); [lia|].
    destruct (after_fork_ok s pid count added size [] [] p.2 0 Hs Hcw Hlen) as (c1 & F2 & Hc1 & _).
    rewrite F2. cbn [mbind option_bind].
    destruct (count_event_worker c1 (count + 1) added size [] [] p true Hc1 Hp Ha Hz) as (c2 & F3 & Hc2).
    rewrite F3. cbn [mbind option_bind]. exists (counted s1 p), fork. split; [lia|]. split; [exact Hlen1|].
    split; [done|]. split; [by eapply counted_at|]. by exists c2.
Qed.

Lemma index_loop_forking_ok ents : forall s pid count added size forks,
  proc_at s pid count added size [] [] -> pid <> 0 -> Z.of_nat (length (worker_pids s)) = parallel_worker ->
  Forall (fun fork => 0 < fork) forks -> parallel_worker <= count + Z.of_nat (length forks) ->
  Forall entry_ok ents -> fits added size (taken ents) ->
  exists s' workers batches,
    index_loop_forking parallel_worker parallel_by_events tid_list forks ents s = Some ((0, s'), workers) /\
    taken ents = batch_rest count added size (taken ents) ++ concat batches /\
    workers_ok workers batches /\ count + Z.of_nat (length batches) <= parallel_worker /\
    Forall balanced batches.
Proof.
  induction ents as [|ent ents IH]; intros s pid count added size forks Hs Hpid Hlen Hforks Hnf Hents Hfits;
    cbn [index_loop_forking].
  - exists s, [], []. split_and!; [done|done|constructor| |constructor].
    pose proof (pa_range _ _ _ _ _ _ _ Hs). cbn. lia.
  - inversion Hents as [|? ? Hent Hents']; subst. rewrite (add_indexed_ok _ _ _ Hent).
    unfold taken in *. cbn [omap list_omap] in *. destruct (taken_event ent) as [p|].
    2: { cbn [mbind option_bind Z.eqb negb].
      destruct (IH s pid count added size forks Hs Hpid Hlen Hforks Hnf Hents' Hfits) as (s' & ws & bs & E & Hr).
      rewrite E. cbn [mbind option_bind]. exists s', ws, bs. split; [done|exact Hr]. }
    destruct (fits_cons _ _ _ _ Hfits) as (Hp & Ha & Hz & Hpos & Hfits').
    destruct (in_limit count added size) eqn:El.
    + assert (0 < default 1 (head forks)) as Hfork by (destruct Hforks; cbn; lia).
      assert (next_event (default (-1) (head forks)) p.1 p.2 s = next_event 1 p.1 p.2 s) as Esame.
      { unfold auxtrace_queues__add_event. rewrite (in_batch_limit _ _ _ _ _ _ _ Hs), El. cbn [negb].
        by rewrite andb_false_r. }
      destruct (parent_event_ok s pid count added size p 1 Hs Hpid ltac:(lia) Hp Ha Hpos Hz Hlen)
        as (s1 & pid1 & Hpid1 & Hlen1 & Hcase). rewrite El in Hcase. destruct Hcase as [E1 Hs1].
      rewrite Esame, E1. cbn [mbind option_bind Z.eqb negb].
      destruct (IH s1 pid1 count _ _ forks Hs1 Hpid1 Hlen1 Hforks Hnf Hents' Hfits') as (s' & ws & bs & E & Et & Hr).
      rewrite E. cbn [mbind option_bind]. exists s', ws, bs. split; [done|]. split; [|exact Hr].
      cbn [batch_rest]. rewrite El. cbn [app]. by f_equal.
    + pose proof (pa_range _ _ _ _ _ _ _ Hs) as (Hr & Hr2 & Hr3 & _).
      assert (count < parallel_worker) as Hcw by (eapply limit_workers; [exact Hr|split; [apply Hr2|exact Ha]|exact Hr3|exact El]).
      destruct forks as [|fork forks]; [cbn in Hnf; lia|]. inversion Hforks as [|? ? Hfork Hforks']; subst. cbn [head default].
      destruct (parent_event_ok s pid count added size p fork Hs Hpid Hfork Hp Ha Hpos Hz Hlen)
        as (s1 & pid1 & Hpid1 & Hlen1 & Hcase). rewrite El in Hcase. destruct Hcase as (_ & Hs1 & c & E1 & Hc).
      cbn [default option_rect from_option id]. rewrite E1. cbn [mbind option_bind Z.eqb negb tail].
      destruct (index_loop_ok ents c _ _ _ _ _ Hc Hents' Hfits') as (c' & Ec & Hcb & Hcq & Hca).
      rewrite Ec. cbn [mbind option_bind].
      destruct (IH s1 pid1 (count + 1) _ _ forks Hs1 Hpid1 Hlen1 Hforks' ltac:(cbn in Hnf; lia) Hents' Hfits')
        as (s' & ws & bs & E & Et & Hws & Hnb & Hbal).
      rewrite E. cbn [mbind option_bind]. unfold taken in *.
      exists s', ((0, c') :: ws), (([p] ++ batch_rest (count + 1) (added + 1) (size + ev_size p.1) (omap taken_event ents)) :: bs).
      split; [done|]. split; [|split; [|split]].
      * cbn [batch_rest]. rewrite El. cbn [app concat]. f_equal. exact Et.
      * constructor; [|done|done]. split; [done|]. split; [exact Hcb|]. split; [|exact Hca].
        cbn [app] in *. by rewrite <- Et.
      * cbn [length] in *. lia.
      * constructor; [by apply batch_balanced|done].
Qed.
End workers.
