(* ===== verification/PtBatchClaims.v ===== *)
(** Parallel decoding as a whole: what the workers decode, put together in
    their order, is the trace. *)
From Stdlib Require Import ZArith Lia List Bool.
From S2P Require Import Prelude Float64 PktDecoder PtStack PtState PtTime PtReader PtWalk PtTrace PtVmTime PtDecode PtSafe PtSafeReader PtSafeWalk PtExample PtTotal PtScan AuxCache AuxHeap AuxQueues PtBatch PtBatchInput PtBatchWorkers.
Open Scope Z_scope.
Open Scope c_scope.
Import ListNotations.

(** ** The first process *)

Section start.
Context `{Platform} `{TraceFile}.

Lemma init_queues qs : auxtrace_queues__init true qs =
  (0, mkQueues (replicate 32 empty_queue) 32 (new_data qs) (populated qs) (next_buffer_nr qs)).
Proof.
  unfold auxtrace_queues__init, auxtrace_alloc_queue_array, sizeof_auxtrace_queue.
  by destruct (bits_per_long =? 32).
Qed.

(** The globals as they are initialised, with no queue yet. *)
Definition first_proc : proc :=
  mkProc 0 0 1 0 0 0 0 0 0 0 (-1) [] (replicate (Z.to_nat MAX_CPUS) zero_par) None [] 0 0
    (snd (auxtrace_queues__init true (mkQueues [] 0 false false 0))) (fun _ => true).

Context (parallel_worker : Z) (parallel_by_events : bool) (tid_list : option (list Z)).

(** An index whose counts do not overflow. *)
Record index_ok (ents : list auxtrace_index_entry) : Prop := {
  ix_entries : Forall (entry_ok tid_list) ents;
  ix_count : Z.of_nat (length ents) < cache_limit;
  ix_size : sizes (taken tid_list ents) < 2 ^ 62
}.

Lemma taken_event_ok ents : Forall (entry_ok tid_list) ents -> Forall event_ok (taken tid_list ents).
Proof.
  unfold taken. induction 1 as [|ent ents [_ Hent] _ IH]; cbn [omap list_omap]; [constructor|].
  destruct (taken_event tid_list ent); [|done]. constructor; [by apply Hent|done].
Qed.

Lemma taken_length ents : (length (taken tid_list ents) <= length ents)%nat.
Proof.
  unfold taken. induction ents as [|ent ents IH]; cbn [omap list_omap]; [done|].
  destruct (taken_event tid_list ent); cbn [length]; lia.
Qed.

(** The counting loop. *)
Lemma start_counts ents : forall s,
  Forall (entry_ok tid_list) ents -> 0 <= total_event s -> 0 <= total_auxtrace_size s ->
  total_event s + Z.of_nat (length ents) < 2 ^ 64 ->
  total_auxtrace_size s + sizes (taken tid_list ents) < 2 ^ 64 ->
  fold_left (fun s ent => s <| total_event ::= fun n => u64 (n + 1) |>
      <| total_auxtrace_size ::= fun n => u64 (n + auxtrace_queues__get_auxtrace_size tid_list ent) |>) ents s =
    s <| total_event := total_event s + Z.of_nat (length ents) |>
      <| total_auxtrace_size := total_auxtrace_size s + sizes (taken tid_list ents) |>.
Proof.
  induction ents as [|ent ents IH]; intros s Hents Hn Hz Hn' Hz'; cbn [fold_left].
  - destruct s. unfold upd, set_total_event, set_total_auxtrace_size, taken, sizes. cbn. by rewrite !Z.add_0_r.
  - inversion Hents as [|? ? Hent Hents']; subst. cbn [length] in Hn'.
    pose proof (taken_event_ok ents Hents') as Hok. pose proof (sizes_nonneg _ Hok).
    assert (0 <= auxtrace_queues__get_auxtrace_size tid_list ent /\ sizes (taken tid_list (ent :: ents)) =
      auxtrace_queues__get_auxtrace_size tid_list ent + sizes (taken tid_list ents)) as [Hge Hsum].
    { rewrite (size_taken _ _ Hent). unfold taken. cbn [omap list_omap]. destruct Hent as [_ Hent].
      destruct (taken_event tid_list ent) as [p|]; [|done]. pose proof (eo_size _ (Hent p eq_refl)).
      unfold sizes. cbn [foldr]. lia. }
    rewrite Hsum in Hz' |- *. rewrite IH; try done; unfold upd, set_total_event, set_total_auxtrace_size; cbn;
      rewrite ?u64_small by lia; try lia.
    f_equal; lia.
Qed.

Lemma start_parallel_ok ents : index_ok ents -> 1 < parallel_worker < 2 ^ 31 ->
  let s := start_parallel parallel_worker tid_list ents first_proc in
  proc_at parallel_worker (Z.of_nat (length ents)) (sizes (taken tid_list ents)) s (-1) 0 0 0 [] [] /\
  Z.of_nat (length (worker_pids s)) = parallel_worker.
Proof.
  intros Hix Hpar. destruct Hix as [Hents Hcount Hsize]. unfold start_parallel.
  pose proof (sizes_nonneg _ (taken_event_ok ents Hents)) as Hz0. unfold cache_limit in Hcount.
  destruct (Z.ltb_spec 1 parallel_worker); [|lia].
  rewrite start_counts; try done; [|cbn; lia|cbn; lia].
  set (n := Z.of_nat (length ents)) in *. set (z := sizes (taken tid_list ents)) in *.
  assert (0 <= n / parallel_worker <= n) by (split; [apply Z.div_pos; lia|apply Z.div_le_upper_bound; nia]).
  assert (0 <= z / parallel_worker <= z) by (split; [apply Z.div_pos; lia|apply Z.div_le_upper_bound; nia]).
  clearbody n z. cbn -[Z.of_nat Z.to_nat MAX_CPUS auxtrace_cache__new auxtrace_queues__init].
  split; [|by rewrite length_replicate, Z2Nat.id by lia]. split.
  - destruct (auxtrace_cache__new (V := nat) true 12 10000) as [c|] eqn:Ec; [|done]. split; cbn -[Z.of_nat Z.to_nat MAX_CPUS].
    + rewrite length_replicate. by rewrite Z2Nat.id.
    + intros cpu Hcpu. unfold idx. destruct (Z.ltb_spec cpu 0); [lia|]. apply lookup_replicate. split; [done|]. lia.
    + exists c, []. split; [done|]. split; [by eapply new_represents; [|exact Ec]|].
      injection Ec as <-. by split_and!.
  - change (queues_ok (p_queues first_proc) []). unfold first_proc. cbn [p_queues]. rewrite init_queues. split; cbn.
    + done.
    + by exists 5.
    + intros i Hi. unfold queue_head. cbn [queue_array]. destruct (idx _ i) as [q|] eqn:Eq; [|constructor].
      apply idx_inv in Eq as [_ Eq]. apply (lookup_replicate 32) in Eq as [-> _]. constructor.
  - by intros m.
  - unfold counters. cbn -[Z.div Z.add]. rewrite !Z.add_0_l, !u64_small by lia. done.
  - cbn. lia.
Qed.
End start.

(** ** What the workers hand out *)

Section workers.
Context `{Platform} `{TraceFile} (parallel_worker : Z) (pt : trace_options).
Context (Hoverlap : pt_snapshot_mode pt || pt_sampling_mode pt = false) (Hpar : 1 < parallel_worker).

(** The decoding of a queue, of a CPU or of a thread, at its start. *)
Definition decode_input (s : proc) (i : Z) (w : who) : trace_input :=
  match w with
  | Cpu cpu => mkInput s i None None false false cpu (2 ^ 64 - 1)
  | Thread tid => mkInput s i None None false false (2 ^ 64 - 1) tid
  end.

Definition who_ok (w : who) : Prop :=
  match w with
  | Cpu cpu => 0 <= cpu < MAX_CPUS
  | Thread tid => 0 <= tid < 2 ^ 32
  end.
(** It is decoded: its CPU, if it is one, is not left out. *)
Definition who_decoded (w : who) : Prop :=
  match w with Cpu cpu => filter_cpu (swrap 32 cpu) = false | Thread _ => True end.

Lemma decoded_kept w p : who_decoded w -> who_of p = w -> left_out p = false.
Proof.
  unfold who_of, left_out. destruct (Z.eqb_spec (ev_cpu p.1) UINT_MAX) as [->|]; intros Hd <-; [|exact Hd].
  change (swrap 32 UINT_MAX) with (-1). unfold filter_cpu. by destruct cpu_bitmap.
Qed.

(** The bytes a process hands out of queue [i], if it has that queue: all runs
    end with just these. *)
Definition hands_out (s : proc) (i : Z) (w : who) (bytes : list byte) : Prop :=
  match idx (queue_array (p_queues s)) i with
  | None => bytes = []
  | Some _ =>
    input_run parallel_worker pt (decode_input s i w) bytes /\
    forall bytes', input_run parallel_worker pt (decode_input s i w) bytes' -> bytes' = bytes
  end.

(** The entry of a batch. *)
Lemma batch_entry_ok s i w batch : batch_ok s batch -> who_ok w ->
  match of_who w batch with
  | [] => entry_in_batch (decode_input s i w) = Some None
  | _ => exists r, batch_entry (decode_input s i w) = Some (Some r) /\
      get_entry s r = Some (fresh_entry (length (of_who w batch)))
  end.
Proof.
  intros Hb Hw. destruct w as [cpu|tid]; cbn [who_ok decode_input] in *.
  - pose proof (bo_cpu _ _ Hb cpu Hw) as Ee. unfold entry_in_batch, batch_entry. cbn [in_decode_cpu in_proc].
    destruct (Z.ltb_spec cpu MAX_CPUS); [|lia].
    destruct (of_who (Cpu cpu) batch) as [|p l] eqn:El.
    + cbn [mbind option_bind get_entry]. by rewrite Ee.
    + exists (CpuEntry cpu). split; [done|]. by cbn [get_entry].
  - destruct (bo_cache _ _ Hb) as (c & l & Ec & Hrep & _ & _ & _ & _ & Hl). specialize (Hl tid Hw).
    assert (batch_entry (mkInput s i None None false false (2 ^ 64 - 1) tid) = Some (ThreadEntry <$> find_entry tid l)) as Ent.
    { unfold batch_entry, thread_lookup. cbn [in_decode_cpu in_decode_tid in_proc]. rewrite Ec, (lookup_represents c l tid Hrep).
      rewrite u32_small by done. by destruct (find_entry tid l). }
    destruct (find_entry tid l) as [n|].
    + destruct Hl as [En Hne]. destruct (of_who (Thread tid) batch) as [|p rest] eqn:El; [done|].
      exists (ThreadEntry n). by split.
    + rewrite Hl. unfold entry_in_batch. by rewrite Ent.
Qed.

Lemma of_who_app w a b : of_who w (a ++ b) = of_who w a ++ of_who w b.
Proof. apply List.filter_app. Qed.

(** The queue of a worker holds the events from its batch on. *)
Lemma queue_holds_ok s i w evs q : queues_ok (p_queues s) evs -> 0 <= i ->
  idx (queue_array (p_queues s)) i = Some q ->
  exists head, get_queue (decode_input s i w) = Some head /\ Forall2 holds head (map trace_of (of_queue i evs)).
Proof.
  intros Hq Hi Ei. pose proof (qo_held _ _ Hq i Hi) as Hh. unfold queue_head in Hh. rewrite Ei in Hh.
  exists (aq_head q). split; [|done]. unfold get_queue. destruct w; cbn; by rewrite Ei.
Qed.

Lemma worker_hands_out wk batch queued i w :
  worker_ok wk batch queued -> who_ok w -> 0 <= i ->
  of_queue i queued = of_who w queued -> Z.of_nat (length queued) < cache_limit ->
  (length batch <= length queued)%nat ->
  hands_out wk.2 i w (concat (share (length (of_who w batch)) (map trace_of (of_who w queued)))).
Proof.
  intros (_ & Hb & Hq & Hal) Hw Hi Hsame Hlen Hbl. pose proof (batch_entry_ok wk.2 i w batch Hb Hw) as Hent.
  unfold hands_out. destruct (idx (queue_array (p_queues wk.2)) i) as [q|] eqn:Ei.
  2: { pose proof (qo_held _ _ Hq i Hi) as Hnone. unfold queue_head in Hnone. rewrite Ei, Hsame in Hnone.
    apply Forall2_nil_inv_l in Hnone. rewrite Hnone. by destruct (length (of_who w batch)). }
  destruct (queue_holds_ok wk.2 i w queued q Hq Hi Ei) as (head & Eh & Hhead). rewrite Hsame in Hhead.
  assert (in_proc (decode_input wk.2 i w) = wk.2 /\ in_buffer (decode_input wk.2 i w) = None /\
    in_old_buffer (decode_input wk.2 i w) = None /\ in_stop (decode_input wk.2 i w) = false /\
    in_step_through_buffers (decode_input wk.2 i w) = false) as (Ep & Eb & Eo & Es1 & Es2) by (by destruct w).
  destruct (of_who w batch) as [|p rest] eqn:El.
  - cbn [length share concat]. assert (idle (decode_input wk.2 i w) (map trace_of (of_who w queued))) as Hidle.
    { split; [by exists head|by unfold allocs_ok; rewrite Ep|done|by rewrite Eb|done|done]. }
    split; [by eapply idle_run_exists|]. intros bytes' Hrun. by eapply idle_run.
  - destruct Hent as (r & Ent & Ee). set (k := length (p :: rest)) in *.
    pose proof (of_who_length w queued) as Hql. pose proof (of_who_length w batch) as Hbl'. rewrite El in Hbl'. fold k in Hbl'.
    unfold cache_limit in Hlen.
    assert (reader (decode_input wk.2 i w) (map trace_of (of_who w queued)) r k 0 false) as Hr.
    { split; rewrite ?Ep, ?Eb, ?Eo, ?Es1, ?Es2; try done.
      - by exists head.
      - exists (fresh_entry k). by split_and!.
      - rewrite length_map. split_and!; [subst k; cbn; lia|lia|lia|lia]. }
    destruct (input_run_exists parallel_worker pt Hoverlap Hpar _ r k _ _ _ _ Hr (le_n _)) as [bytes Hbytes].
    pose proof (fun bytes (Hrun : input_run parallel_worker pt (decode_input wk.2 i w) bytes) =>
      input_run_bytes parallel_worker pt Hoverlap Hpar _ r k _ bytes Hrun 0 false Hr) as Hall.
    rewrite remaining_start in Hall by (subst k; cbn; lia). rewrite (Hall bytes Hbytes) in Hbytes. by split.
Qed.
(** The shares of the workers. *)
Lemma workers_hand_out w i evs : who_ok w -> who_decoded w -> 0 <= i ->
  (forall p, In p evs -> who_of p = w <-> ev_idx p.1 = i) -> Z.of_nat (length evs) < cache_limit ->
  forall workers batches, workers_ok workers batches -> (exists before, evs = before ++ concat batches) ->
  Forall2 (fun wk bytes => hands_out wk.2 i w bytes) workers
    (map (@concat byte) (shares (map (fun batch => map trace_of (of_who w batch)) batches))).
Proof.
  intros Hw Hd Hi Hwho Hlen workers batches. induction 1 as [|wk ws batch batches Hwk Hne Hws IH]; intros [before Hevs].
  - constructor.
  - cbn [concat] in Hevs. cbn [map shares]. constructor.
    + rewrite length_map. assert (Hin : forall p, In p (batch ++ concat batches) -> In p evs)
        by (intros p Hp; rewrite Hevs; apply in_app_iff; by right).
      pose proof (f_equal (@length placed) Hevs) as Hl. rewrite !length_app in Hl.
      replace (map trace_of (of_who w batch) ++ concat (map (fun b => map trace_of (of_who w b)) batches))
        with (map trace_of (of_who w (batch ++ concat batches))).
      * apply worker_hands_out; try done; rewrite ?length_app; try lia.
        unfold of_queue, of_who. apply List.filter_ext_in. intros p Hp. specialize (Hwho p (Hin p Hp)).
        destruct (Z.eqb_spec (ev_idx p.1) i), (bool_decide_reflect (who_of p = w)) as [Hpw|]; try tauto; try done.
        by rewrite (decoded_kept w p Hd Hpw).
      * rewrite of_who_app, map_app. f_equal. clear. induction batches as [|b batches IH]; [done|].
        cbn [concat map]. by rewrite of_who_app, map_app, IH.
    + apply IH. exists (before ++ batch). by rewrite <- (assoc_L (++)).
Qed.
End workers.

(** ** The whole *)

Section claims.
Context `{Platform} `{TraceFile} (parallel_worker : Z) (parallel_by_events : bool) (tid_list : option (list Z)).
Context (Hfile : one_mmap = true \/ is_pipe = false /\ bits_per_long = 64) (Hworkers : 1 < parallel_worker < 2 ^ 31).
Context (ents : list auxtrace_index_entry) (Hix : index_ok tid_list ents).
(** [fork] succeeds. *)
Context (forks : list Z) (Hforks : Forall (fun pid => 0 < pid) forks) (Hnf : parallel_worker <= Z.of_nat (length forks)).

Lemma process_index_ok : exists s workers batches,
  auxtrace_queues__process_index parallel_worker parallel_by_events tid_list forks ents first_proc
    = Some ((0, s), workers) /\
  concat batches = taken tid_list ents /\ workers_ok workers batches /\
  Z.of_nat (length batches) <= parallel_worker /\
  Forall (balanced parallel_worker parallel_by_events (Z.of_nat (length ents)) (sizes (taken tid_list ents))) batches.
Proof.
  destruct (start_parallel_ok parallel_worker tid_list ents Hix Hworkers) as [Hs Hlen].
  pose proof (taken_event_ok tid_list ents (ix_entries _ _ Hix)) as Hok. pose proof (taken_length tid_list ents) as Htl.
  pose proof (sizes_nonneg _ Hok) as Hge. pose proof (ix_count _ _ Hix). pose proof (ix_size _ _ Hix).
  unfold auxtrace_queues__process_index.
  destruct (index_loop_forking_ok parallel_worker parallel_by_events tid_list Hfile (Z.of_nat (length ents))
    (sizes (taken tid_list ents)) ltac:(lia) ltac:(lia) Hworkers ents _ (-1) 0 0 0 forks Hs ltac:(lia) Hlen Hforks
    ltac:(lia) (ix_entries _ _ Hix)) as (s & ws & bs & E & Et & Hws & Hn & Hbal); [split; [lia|split; [lia|done]]|].
  rewrite E. exists s, ws, bs. split_and!; try done. rewrite Et at 1.
  destruct (taken tid_list ents) as [|p evs]; [done|]. cbn [batch_rest]. unfold in_limit. by destruct parallel_by_events.
Qed.
End claims.

(** C6: The index is shared out.  Take a file on disk, mapped as a whole or
    read on a 64-bit host, an index of fewer than 409600 entries, all readable, whose
    events lie within the file, below 2^62 bytes in all, and are of CPUs below
    MAX_CPUS or of threads and of queues below 2^26, and forks and allocations that
    all succeed.  Every
    event that is not of a thread left out is in the batch of exactly one worker, in
    the order of the index; there are at most as many workers as asked for, so none
    is written past the end of worker_pids; no batch is empty or larger than its part
    of the events (or of the bytes, up to its last event); and every worker's queues
    hold, of its batch and all that follows it, the events of CPUs not left out
    (with -C; the others are counted in the batches all the same). *)
Theorem parallel_batches `{Platform} `{TraceFile} (parallel_worker : Z) (parallel_by_events : bool)
    (tid_list : option (list Z)) (ents : list auxtrace_index_entry) (forks : list Z) :
  one_mmap = true \/ is_pipe = false /\ bits_per_long = 64 -> 1 < parallel_worker < 2 ^ 31 -> index_ok tid_list ents ->
  Forall (fun pid => 0 < pid) forks -> parallel_worker <= Z.of_nat (length forks) ->
  exists s workers batches,
    auxtrace_queues__process_index parallel_worker parallel_by_events tid_list forks ents first_proc
      = Some ((0, s), workers) /\
    concat batches = taken tid_list ents /\ workers_ok workers batches /\
    Z.of_nat (length batches) <= parallel_worker /\
    Forall (balanced parallel_worker parallel_by_events (Z.of_nat (length ents)) (sizes (taken tid_list ents))) batches.
Proof. intros. by apply process_index_ok. Qed.

(** C5: Parallel decoding decodes the trace.  Take a file and an index as for the sharing
    out (of fewer than 409600 entries, CPUs below MAX_CPUS or threads), forks and allocations that all succeed, and a trace recorded neither in snapshot
    nor in sampling mode, so that buffers do not overlap; and of it a CPU that is not
    left out, or a thread, whose events have a queue of their own and no PSB split
    between two buffers (a split one is decoded twice).  However each worker takes
    its buffers and looks ahead in between, there is just one sequence of bytes that
    it can be handed; and what the workers decode of it, from the first PSB on, put
    together in the order of the workers, is what one process decodes of the whole
    trace, with no byte missing, twice or in another place. *)
Theorem parallel_covers_trace `{Platform} `{TraceFile} (parallel_worker : Z) (parallel_by_events : bool)
    (tid_list : option (list Z)) (pt : trace_options) (ents : list auxtrace_index_entry) (forks : list Z) (w : who) (i : Z) :
  one_mmap = true \/ is_pipe = false /\ bits_per_long = 64 -> 1 < parallel_worker < 2 ^ 31 -> index_ok tid_list ents ->
  Forall (fun pid => 0 < pid) forks -> parallel_worker <= Z.of_nat (length forks) ->
  pt_snapshot_mode pt || pt_sampling_mode pt = false ->
  who_ok w -> who_decoded w -> 0 <= i -> (forall p, In p (taken tid_list ents) -> who_of p = w <-> ev_idx p.1 = i) ->
  whole_psbs (map trace_of (of_who w (taken tid_list ents))) ->
  exists s workers handed,
    auxtrace_queues__process_index parallel_worker parallel_by_events tid_list forks ents first_proc
      = Some ((0, s), workers) /\
    Forall2 (fun wk bytes => hands_out parallel_worker pt wk.2 i w bytes) workers handed /\
    concat (map from_psb handed) = from_psb (concat (map trace_of (of_who w (taken tid_list ents)))).
Proof.
  intros Hfile Hpar Hix Hforks Hnf Hoverlap Hw Hd Hi Hwho Hwhole.
  destruct (process_index_ok parallel_worker parallel_by_events tid_list Hfile Hpar ents Hix forks Hforks Hnf)
    as (s & ws & bs & E & Et & Hws & _ & _).
  pose proof (taken_length tid_list ents). pose proof (ix_count _ _ Hix).
  exists s, ws, (map (@concat byte) (shares (map (fun batch => map trace_of (of_who w batch)) bs))). split; [done|].
  split; [apply (workers_hand_out parallel_worker pt Hoverlap ltac:(lia) w i (taken tid_list ents) Hw Hd Hi Hwho ltac:(lia) ws bs Hws); by exists []|].
  assert (concat (map (fun batch => map trace_of (of_who w batch)) bs) = map trace_of (of_who w (taken tid_list ents))) as Ec.
  { rewrite <- Et. clear. induction bs as [|b bs IH]; [done|]. cbn [concat map]. by rewrite of_who_app, map_app, IH. }
  rewrite map_map, shares_cover; by rewrite Ec.
Qed.

(** ** An example: four events of two CPUs, of which one is left out, and two workers *)

Definition pads : list byte := replicate 16 x00.
Definition example_trace : list byte :=
  (pads ++ INTEL_PT_PSB_STR) ++ (INTEL_PT_PSB_STR ++ pads) ++ (pads ++ pads) ++ (INTEL_PT_PSB_STR ++ pads).

#[export] Instance example_file : TraceFile := {|
  one_mmap := true;
  is_pipe := false;
  file_data off n := take (Z.to_nat n) (drop (Z.to_nat off) example_trace);
  pipe_ok _ := true;
  cpu_bitmap := Some (fun cpu => cpu =? 0)
|}.

Definition example_entry (n cpu : Z) : auxtrace_index_entry :=
  mkEnt (32 * n - 48 + 2 ^ 64) 48 (PeekAuxtrace 48 (mkEvent 32 (32 * n) 0 cpu 7 cpu)).
Definition example_index : list auxtrace_index_entry :=
  [example_entry 0 0; example_entry 1 1; example_entry 2 0; example_entry 3 0].

Lemma example_entry_ok n cpu : 0 <= n < 4 -> cpu = 0 \/ cpu = 1 -> entry_ok None (example_entry n cpu).
Proof.
  intros Hn Hcpu. split; [done|]. intros p Ep. unfold taken_event, example_entry in Ep. cbn [ent_peek ev_cpu] in Ep.
  replace (cpu =? UINT_MAX) with false in Ep by (by destruct Hcpu as [-> | ->]). injection Ep as <-.
  assert (n = 0 \/ n = 1 \/ n = 2 \/ n = 3) as Hn' by lia.
  destruct Hcpu as [-> | ->], Hn' as [-> | [-> | [-> | ->]]]; split; try done; by left.
Qed.

Lemma example_index_ok : index_ok None example_index.
Proof.
  split; [|done|done].
  repeat (apply Forall_cons_2; [apply example_entry_ok; [lia|by (left + right)]|]). apply Forall_nil_2.
Qed.

(** The batches of the two workers are the first and second half of the index;
    what the second hands out of the queue of CPU 0 begins where the first
    stops. *)
Lemma parallel_batches_witness : exists s workers batches,
  auxtrace_queues__process_index 2 true None [100; 101] example_index first_proc = Some ((0, s), workers) /\
  concat batches = taken None example_index /\ workers_ok workers batches /\ Z.of_nat (length batches) <= 2 /\
  Forall (balanced 2 true (Z.of_nat (length example_index)) (sizes (taken None example_index))) batches.
Proof.
  apply (parallel_batches 2 true None example_index [100; 101]); [by left|done|apply example_index_ok|by repeat constructor|done].
Defined.

Lemma parallel_covers_trace_witness : exists s workers handed,
  auxtrace_queues__process_index 2 true None [100; 101] example_index first_proc = Some ((0, s), workers) /\
  Forall2 (fun wk bytes => hands_out 2 (mkOptions false false true false) wk.2 0 (Cpu 0) bytes) workers handed /\
  concat (map from_psb handed) = from_psb (concat (map trace_of (of_who (Cpu 0) (taken None example_index)))).
Proof.
  apply (parallel_covers_trace 2 true None (mkOptions false false true false) example_index [100; 101] (Cpu 0) 0);
    [by left|done|apply example_index_ok|by repeat constructor|done|done|done|done|done| |].
  - intros p Hp. vm_compute in Hp. repeat destruct Hp as [<- | Hp]; done.
  - apply whole_psbs_b_ok. by vm_compute.
Defined.

(** ** Looking ahead twice *)

(** The lengths of the buffers that a lookahead shows its callback. *)
Definition look (s : trace_input) : option (trace_input * list Z) :=
  '(_, s, lens) ← intel_pt_lookahead 2 (mkOptions false false true false)
                    (fun b lens => (0, lens ++ [b_len b])) s [];
  Some (s, lens).

Definition first_worker : option proc :=
  '(_, workers) ← auxtrace_queues__process_index 2 true None [100; 101] example_index first_proc;
  wk ← head workers;
  Some (snd wk).

(** The count of buffers looked at goes on where the last lookahead stopped,
    though the next one begins again at the buffer in use: it is shown nothing. *)
Lemma second_lookahead_differs :
  (p ← first_worker;
   '(s, lens) ← look (decode_input p 0 (Cpu 0));
   '(_, again) ← look s;
   Some (lens, again)) = Some ([32; 32], []).
Proof. by vm_compute. Qed.
