(* ===== verification/RbTree.v ===== *)
(** Red-black trees: tools/lib/rbtree.c and its headers.  A pointer to a node is
    a position: the subtree at the node and the path up to the root, the nearest
    ancestor first.  The code treats left and right alike, with one branch for
    each; here a side is an argument. *)
From Stdlib Require Import Lia List Bool.
From S2P Require Import Prelude.
Import ListNotations.

Inductive color := RB_RED | RB_BLACK.
Inductive side := L | R.

#[export] Instance color_eq_dec : EqDecision color.
Proof. solve_decision. Defined.
#[export] Instance side_eq_dec : EqDecision side.
Proof. solve_decision. Defined.

Section rbtree.
Context {A : Type}.

Inductive rb_node :=
| Leaf
| Node (c : color) (l : rb_node) (x : A) (r : rb_node).

(** The position is the child on this side of a node with this colour, element
    and other child. *)
Inductive frame := Frame (d : side) (c : color) (x : A) (other : rb_node).
Definition path : Type := list frame.

Definition other_side (d : side) : side := match d with L => R | R => L end.

(** A node with child [a] on side [d] and [b] on the other. *)
Definition node_at (d : side) (c : color) (a : rb_node) (x : A) (b : rb_node) : rb_node :=
  match d with
  | L => Node c a x b
  | R => Node c b x a
  end.

Definition plug_frame (t : rb_node) (f : frame) : rb_node :=
  let 'Frame d c x other := f in node_at d c t x other.
(** The root, with this subtree at the position. *)
Definition plug (t : rb_node) (p : path) : rb_node := fold_left plug_frame p t.

Definition rb_is_red (t : rb_node) : bool := match t with Node RB_RED _ _ _ => true | _ => false end.

(** [rb_set_parent_color(t, ..., color)], for a node there may not be. *)
Definition set_color (c : color) (t : rb_node) : rb_node :=
  match t with
  | Leaf => Leaf
  | Node _ l x r => Node c l x r
  end.

(** ** Insertion *)

(** The node is red, with these children; [None] is an access to NULL. *)
Fixpoint __rb_insert (l : rb_node) (x : A) (r : rb_node) (p : path) : option rb_node :=
  match p with
  | [] => Some (Node RB_BLACK l x r)
  | Frame d RB_BLACK px ps :: _ => Some (plug (Node RB_RED l x r) p)
  | Frame d RB_RED px ps :: p =>
    match p with
    | [] => None
    | Frame gd gc gx tmp :: q =>
      if rb_is_red tmp then
        (* Case 1 *)
        let parent := node_at d RB_BLACK (Node RB_RED l x r) px ps in
        let tmp := set_color RB_BLACK tmp in
        match gd with
        | L => __rb_insert parent gx tmp q
        | R => __rb_insert tmp gx parent q
        end
      else
        let '(outer, px, inner) :=
          if decide (d = gd) then (Node RB_RED l x r, px, ps)
          else
            (* Case 2 *)
            let '(near, far) := match gd with L => (l, r) | R => (r, l) end in
            (node_at gd RB_RED ps px (set_color RB_BLACK near), x, far) in
        (* Case 3 *)
        let gparent := node_at gd RB_RED (set_color RB_BLACK inner) gx tmp in
        Some (plug (node_at gd gc outer px gparent) q)
    end
  end.

(** [rb_link_node] at an empty position, and [rb_insert_color]. *)
Definition rb_insert_color (x : A) (p : path) : option rb_node := __rb_insert Leaf x Leaf p.

(** ** Erasing *)

(** Cases 2 to 4, with a sibling that is black: [inl] is the subtree at the place
    of [parent] when all is done, [inr] when it is short of a black node. *)
Definition erase_color_step (d : side) (node : rb_node) (pc : color) (px : A) (sibling : rb_node)
    : option (rb_node + rb_node) :=
  match sibling with
  | Leaf => None
  | Node sc sl sx sr =>
    (* the child near [node] and the other *)
    let '(tmp2, tmp1) := match d with L => (sl, sr) | R => (sr, sl) end in
    let case4 (near : rb_node) (sx : A) (far : rb_node) :=
      inl (node_at d pc (node_at d RB_BLACK node px near) sx (set_color RB_BLACK far)) in
    if rb_is_red tmp1 then Some (case4 tmp2 sx tmp1)
    else if rb_is_red tmp2 then
      (* Case 3 *)
      match tmp2 with
      | Leaf => None
      | Node _ a y b =>
        let '(near, far) := match d with L => (a, b) | R => (b, a) end in
        Some (case4 near y (node_at d sc (set_color RB_BLACK far) sx tmp1))
      end
    else
      (* Case 2 *)
      let parent (c : color) := node_at d c node px (set_color RB_RED sibling) in
      Some (match pc with RB_RED => inl (parent RB_BLACK) | RB_BLACK => inr (parent RB_BLACK) end)
  end.

(** Every path through [node] is short of a black node; [None] is an access to
    NULL. *)
Fixpoint ____rb_erase_color (node : rb_node) (p : path) : option rb_node :=
  match p with
  | [] => Some node
  | Frame d pc px sibling :: p =>
    if rb_is_red sibling then
      (* Case 1; [parent] is red then, so the loop ends *)
      match sibling with
      | Leaf => None
      | Node _ sl sx sr =>
        let '(tmp1, far) := match d with L => (sl, sr) | R => (sr, sl) end in
        match tmp1 with
        | Leaf => None
        | _ =>
          t ← erase_color_step d node RB_RED px (set_color RB_BLACK tmp1);
          match t with
          | inl t => Some (plug (node_at d pc t sx far) p)
          | inr _ => None
          end
        end
      end
    else
      t ← erase_color_step d node pc px sibling;
      match t with
      | inl t => Some (plug t p)
      | inr t => ____rb_erase_color t p
      end
  end.

(** The leftmost node below. *)
Fixpoint rb_leftmost (t : rb_node) (p : path) : rb_node * path :=
  match t with
  | Node c ((Node _ _ _ _) as l) x r => rb_leftmost l (Frame L c x r :: p)
  | _ => (t, p)
  end.

(** The node with these children at this position is erased. *)
Definition rb_erase (c : color) (l r : rb_node) (p : path) : option rb_node :=
  match l, r with
  | Leaf, Node _ _ _ _ => Some (plug (set_color c r) p)
  | Leaf, Leaf => match c with RB_BLACK => ____rb_erase_color Leaf p | RB_RED => Some (plug Leaf p) end
  | Node _ _ _ _, Leaf => Some (plug (set_color c l) p)
  | _, _ =>
    (* Cases 2 and 3: the path from the node to its successor *)
    let '(successor, q) := rb_leftmost r [] in
    match successor with
    | Leaf => None
    | Node sc _ s child2 =>
      let p := q ++ Frame R c s l :: p in
      match child2 with
      | Node _ _ _ _ => Some (plug (set_color RB_BLACK child2) p)
      | Leaf => match sc with RB_BLACK => ____rb_erase_color Leaf p | RB_RED => Some (plug Leaf p) end
      end
    end
  end.

(** ** Positions *)

Definition position : Type := rb_node * path.

Definition rb_first (root : rb_node) : option position :=
  match root with
  | Leaf => None
  | _ => Some (rb_leftmost root [])
  end.

Fixpoint rb_rightmost (t : rb_node) (p : path) : position :=
  match t with
  | Node c l x ((Node _ _ _ _) as r) => rb_rightmost r (Frame R c x l :: p)
  | _ => (t, p)
  end.

Definition rb_last (root : rb_node) : option position :=
  match root with
  | Leaf => None
  | _ => Some (rb_rightmost root [])
  end.

(** Up, as long as the position is a child on side [d]. *)
Fixpoint climb (d : side) (t : rb_node) (p : path) : option position :=
  match p with
  | [] => None
  | (Frame d' _ _ _ as f) :: p =>
    if decide (d' = d) then climb d (plug_frame t f) p else Some (plug_frame t f, p)
  end.

Definition rb_next (pos : position) : option position :=
  match pos with
  | (Leaf, _) => None
  | (Node c l x ((Node _ _ _ _) as r), p) => Some (rb_leftmost r (Frame R c x l :: p))
  | (t, p) => climb R t p
  end.

Definition rb_prev (pos : position) : option position :=
  match pos with
  | (Leaf, _) => None
  | (Node c ((Node _ _ _ _) as l) x r, p) => Some (rb_rightmost l (Frame L c x r :: p))
  | (t, p) => climb L t p
  end.

Definition rb_replace_node (pos : position) (new : A) : option rb_node :=
  match pos with
  | (Leaf, _) => None
  | (Node c l _ r, p) => Some (plug (Node c l new r) p)
  end.

Fixpoint rb_left_deepest_node (t : rb_node) (p : path) : position :=
  match t with
  | Node c ((Node _ _ _ _) as l) x r => rb_left_deepest_node l (Frame L c x r :: p)
  | Node c Leaf x ((Node _ _ _ _) as r) => rb_left_deepest_node r (Frame R c x Leaf :: p)
  | _ => (t, p)
  end.

Definition rb_next_postorder (pos : position) : option position :=
  match pos with
  | (_, []) => None
  | (t, (Frame L c x ((Node _ _ _ _) as r)) :: p) => Some (rb_left_deepest_node r (Frame R c x t :: p))
  | (t, f :: p) => Some (plug_frame t f, p)
  end.

Definition rb_first_postorder (root : rb_node) : option position :=
  match root with
  | Leaf => None
  | _ => Some (rb_left_deepest_node root [])
  end.

(** ** Ordered trees *)

(** [rb_add]: down to an empty position. *)
Fixpoint add_loop (less : A -> A -> bool) (x : A) (t : rb_node) (p : path) : path :=
  match t with
  | Leaf => p
  | Node c l y r =>
    if less x y then add_loop less x l (Frame L c y r :: p) else add_loop less x r (Frame R c y l :: p)
  end.
Definition rb_add (less : A -> A -> bool) (x : A) (tree : rb_node) : option rb_node :=
  rb_insert_color x (add_loop less x tree []).

(** The node that compares equal, or the empty position where it would be. *)
Fixpoint find_loop (cmp : A -> comparison) (t : rb_node) (p : path) : position :=
  match t with
  | Leaf => (Leaf, p)
  | Node c l y r =>
    match cmp y with
    | Lt => find_loop cmp l (Frame L c y r :: p)
    | Gt => find_loop cmp r (Frame R c y l :: p)
    | Eq => (t, p)
    end
  end.
Definition rb_find (cmp : A -> comparison) (tree : rb_node) : option A :=
  match fst (find_loop cmp tree []) with
  | Leaf => None
  | Node _ _ x _ => Some x
  end.
(** The node found, or [None] and the tree with [x] in it. *)
Definition rb_find_add (cmp : A -> comparison) (x : A) (tree : rb_node) : option (option A * rb_node) :=
  match find_loop cmp tree [] with
  | (Leaf, p) => tree ← rb_insert_color x p; Some (None, tree)
  | (Node _ _ y _, _) => Some (Some y, tree)
  end.

Fixpoint find_first_loop (cmp : A -> comparison) (t : rb_node) (p : path) (found : option position)
    : option position :=
  match t with
  | Leaf => found
  | Node c l y r =>
    match cmp y with
    | Lt => find_first_loop cmp l (Frame L c y r :: p) found
    | Eq => find_first_loop cmp l (Frame L c y r :: p) (Some (t, p))
    | Gt => find_first_loop cmp r (Frame R c y l :: p) found
    end
  end.
Definition rb_find_first (cmp : A -> comparison) (tree : rb_node) : option position :=
  find_first_loop cmp tree [] None.

Definition rb_next_match (cmp : A -> comparison) (pos : position) : option position :=
  match rb_next pos with
  | Some (Node c l x r, p) =>
    match cmp x with Eq => Some (Node c l x r, p) | _ => None end
  | _ => None
  end.
End rbtree.
Arguments rb_node A : clear implicits.
Arguments frame A : clear implicits.
Arguments path A : clear implicits.
Arguments position A : clear implicits.
