(* ===== verification/RbTreeTheorems.v ===== *)
(** Theorems on red-black trees: insertion and erasing keep the invariants of
    rbtree.c and the order of the elements, and iteration visits them in order. *)
From Stdlib Require Import Lia List Bool PeanoNat Sorted Permutation.
From stdpp Require Import sorting.
From S2P Require Import Prelude RbTree.
Import ListNotations.
Open Scope nat_scope.

Create HintDb rb.

Section rbtree.
Context {A : Type}.
Notation tree := (rb_node A).
Notation path := (path A).

(** ** Elements *)

Fixpoint elements (t : tree) : list A :=
  match t with
  | Leaf => []
  | Node _ l x r => elements l ++ x :: elements r
  end.

(** The elements before and after a position. *)
Fixpoint before (p : path) : list A :=
  match p with
  | [] => []
  | Frame L _ _ _ :: p => before p
  | Frame R _ x s :: p => before p ++ elements s ++ [x]
  end.
Fixpoint after (p : path) : list A :=
  match p with
  | [] => []
  | Frame L _ x s :: p => x :: elements s ++ after p
  | Frame R _ _ _ :: p => after p
  end.

(** The elements of a subtree with [a] on side [d]. *)
Definition elements_at (d : side) (a : list A) (x : A) (b : list A) : list A :=
  match d with
  | L => a ++ x :: b
  | R => b ++ x :: a
  end.

Lemma elements_node_at d c (a : tree) x b : elements (node_at d c a x b) = elements_at d (elements a) x (elements b).
Proof. by destruct d. Qed.

Lemma elements_set_color c (t : tree) : elements (set_color c t) = elements t.
Proof. by destruct t. Qed.

Ltac flat := cbn [elements elements_at node_at before after app plug_frame]; rewrite ?elements_set_color;
  repeat (rewrite <- (assoc_L (++)) || cbn [app]).

Lemma elements_plug p : forall t, elements (plug t p) = before p ++ elements t ++ after p.
Proof.
  unfold plug. induction p as [|[[|] c x s] p IH]; intros t; cbn [fold_left]; [by cbn; rewrite app_nil_r|..];
    rewrite IH; flat; done.
Qed.

Lemma plug_app (t : tree) (p q : path) : plug t (p ++ q) = plug (plug t p) q.
Proof. unfold plug. apply fold_left_app. Qed.

(** ** The invariants *)

(** The number of black nodes on every path, and the colour of the root. *)
Inductive wf : nat -> color -> tree -> Prop :=
| wf_leaf : wf 0 RB_BLACK Leaf
| wf_red n l x r : wf n RB_BLACK l -> wf n RB_BLACK r -> wf n RB_RED (Node RB_RED l x r)
| wf_black n cl cr l x r : wf n cl l -> wf n cr r -> wf (S n) RB_BLACK (Node RB_BLACK l x r).

Definition is_rbtree (t : tree) : Prop := exists n, wf n RB_BLACK t.

(** What can be at a position. *)
Inductive path_ok : nat -> color -> path -> Prop :=
| ok_root n : path_ok n RB_BLACK []
| ok_red n d x s p : wf n RB_BLACK s -> path_ok n RB_RED p -> path_ok n RB_BLACK (Frame d RB_RED x s :: p)
| ok_black n c cs d x s p : wf n cs s -> path_ok (S n) RB_BLACK p -> path_ok n c (Frame d RB_BLACK x s :: p).

Hint Constructors wf path_ok : rb.

Lemma wf_red_at d n a x b : wf n RB_BLACK a -> wf n RB_BLACK b -> wf n RB_RED (node_at d RB_RED a x b).
Proof. destruct d; cbn; eauto with rb. Qed.
Lemma wf_black_at d n ca cb a x b : wf n ca a -> wf n cb b -> wf (S n) RB_BLACK (node_at d RB_BLACK a x b).
Proof. destruct d; cbn; eauto with rb. Qed.
Hint Resolve wf_red_at wf_black_at : rb.

Lemma path_ok_black n c p : path_ok n c p -> path_ok n RB_BLACK p.
Proof. destruct 1; eauto with rb. Qed.

Lemma plug_wf p : forall n c t, wf n c t -> path_ok n c p -> is_rbtree (plug t p).
Proof.
  induction p as [|f p IH]; intros n c t Ht Hp; inversion Hp; subst; cbn.
  - by exists n.
  - eapply (IH n RB_RED); eauto with rb.
  - eapply (IH (S n) RB_BLACK); eauto with rb.
Qed.

Lemma plug_inv p : forall t, is_rbtree (plug t p) -> exists n c, wf n c t /\ path_ok n c p.
Proof.
  induction p as [|[d pc x s] p IH]; intros t Ht; cbn in *.
  - destruct Ht as [n Ht]. exists n, RB_BLACK. eauto with rb.
  - destruct (IH _ Ht) as (n & c & Hn & Hp). destruct d; cbn in Hn; inversion Hn; subst; eauto with rb.
Qed.

Lemma wf_not_red n c t : wf n c t -> rb_is_red t = false -> c = RB_BLACK.
Proof. by destruct 1. Qed.

Lemma wf_red_inv n c t : wf n c t -> rb_is_red t = true ->
  exists l x r, t = Node RB_RED l x r /\ c = RB_RED /\ wf n RB_BLACK l /\ wf n RB_BLACK r.
Proof. destruct 1; cbn; intros; try done. by exists l, x, r. Qed.

Lemma set_black n t : wf n RB_BLACK t -> set_color RB_BLACK t = t.
Proof. inversion 1; done. Qed.

(** ** Insertion *)

Lemma rb_insert_ok m : forall p n l x r, length p <= m -> path_ok n RB_BLACK p -> wf n RB_BLACK l -> wf n RB_BLACK r ->
  exists t, __rb_insert l x r p = Some t /\ is_rbtree t /\
    elements t = before p ++ elements l ++ x :: elements r ++ after p.
Proof.
  induction m as [|m IH]; intros p n l x r Hm Hp Hl Hr.
  { destruct p; [|cbn in Hm; lia]. eexists. split; [reflexivity|]. split; [eexists; eauto with rb|]. flat. by rewrite app_nil_r. }
  inversion Hp as [n'|n' d px ps p' Hps Hp'|n' c cs d px ps p' Hps Hp']; subst.
  - eexists. split; [reflexivity|]. split; [eexists; eauto with rb|]. flat. by rewrite app_nil_r.
  - inversion Hp' as [| |n' c ct gd gx tmp q Ht Hq]; subst. cbn [__rb_insert]. destruct (rb_is_red tmp) eqn:Et.
    + destruct (wf_red_inv _ _ _ Ht Et) as (tl & tx & tr & -> & -> & Htl & Htr).
      assert (exists cl, wf n cl (Node RB_RED l x r)) as [cl Hn] by (eexists; eauto with rb).
      assert (wf (S n) RB_BLACK (node_at d RB_BLACK (Node RB_RED l x r) px ps)) as Hpar by eauto with rb.
      assert (wf (S n) RB_BLACK (Node RB_BLACK tl tx tr)) as Htmp by eauto with rb.
      destruct gd.
      * destruct (IH q (S n) _ gx _ ltac:(cbn in Hm; lia) Hq Hpar Htmp) as (t & Ei & Ht' & Ee). exists t. split; [exact Ei|].
        split; [done|]. rewrite Ee. destruct d; flat; done.
      * destruct (IH q (S n) _ gx _ ltac:(cbn in Hm; lia) Hq Htmp Hpar) as (t & Ei & Ht' & Ee). exists t. split; [exact Ei|].
        split; [done|]. rewrite Ee. destruct d; flat; done.
    + pose proof (wf_not_red _ _ _ Ht Et) as ->.
      assert (forall outer m inner, wf n RB_RED outer -> wf n RB_BLACK inner ->
        is_rbtree (plug (node_at gd RB_BLACK outer m (node_at gd RB_RED inner gx tmp)) q)) as Hrot.
      { intros outer m' inner Ho Hi. eapply plug_wf; [|exact Hq]. eauto with rb. }
      destruct (decide (d = gd)) as [->|Hd].
      * eexists. split; [reflexivity|]. rewrite (set_black n ps) by done. split; [apply Hrot; eauto with rb|].
        rewrite elements_plug. destruct gd; flat; done.
      * destruct gd, d; try done; cbn; eexists; (split; [reflexivity|]); rewrite (set_black n l), (set_black n r) by done;
          (split; [apply Hrot; eauto with rb|]); rewrite elements_plug; flat; done.
  - eexists. split; [reflexivity|]. split; [|rewrite elements_plug; flat; done].
    eapply plug_wf; [|eapply ok_black; eauto]. eauto with rb.
Qed.

(** ** Erasing *)

Lemma wf_black_node n t : wf (S n) RB_BLACK t -> exists l x r cl cr, t = Node RB_BLACK l x r /\ wf n cl l /\ wf n cr r.
Proof. inversion 1; subst. by exists l, x, r, cl, cr. Qed.

Lemma erase_step_ok d n node pc px s : wf n RB_BLACK node -> wf (S n) RB_BLACK s ->
  exists r, erase_color_step d node pc px s = Some r /\
    match r with
    | inl t => match pc with RB_BLACK => wf (S (S n)) RB_BLACK t | RB_RED => exists c, wf (S n) c t end /\
        elements t = elements_at d (elements node) px (elements s)
    | inr t => pc = RB_BLACK /\ wf (S n) RB_BLACK t /\ elements t = elements_at d (elements node) px (elements s)
    end.
Proof.
  intros Hn Hs. destruct (wf_black_node _ _ Hs) as (sl & sx & sr & cl & cr & -> & Hl & Hr). unfold erase_color_step.
  set (near := match d with L => sl | R => sr end). set (far := match d with L => sr | R => sl end).
  assert ((match d with L => (sl, sr) | R => (sr, sl) end) = (near, far)) as -> by (by destruct d).
  assert (exists c c', wf n c near /\ wf n c' far) as (c & c' & Hnear & Hfar) by (destruct d; cbn; eauto).
  assert (forall c near' y far', wf n c near' -> wf (S n) RB_BLACK (set_color RB_BLACK far') ->
    match pc with RB_BLACK => wf (S (S n)) RB_BLACK (node_at d pc (node_at d RB_BLACK node px near') y (set_color RB_BLACK far'))
      | RB_RED => exists c, wf (S n) c (node_at d pc (node_at d RB_BLACK node px near') y (set_color RB_BLACK far')) end) as Hcase4.
  { intros c0 near' y far' H1 H2. destruct pc; [eexists|]; eauto with rb. }
  destruct (rb_is_red far) eqn:Efar; [|destruct (rb_is_red near) eqn:Enear].
  - eexists. split; [reflexivity|]. destruct (wf_red_inv _ _ _ Hfar Efar) as (a & y & b & E & -> & Ha & Hb). split.
    + eapply Hcase4; [exact Hnear|]. rewrite E. cbn. eauto with rb.
    + rewrite !elements_node_at, elements_set_color. subst near far. destruct d; flat; done.
  - destruct (wf_red_inv _ _ _ Hnear Enear) as (a & y & b & E & -> & Ha & Hb). pose proof (wf_not_red _ _ _ Hfar Efar) as ->.
    rewrite E. destruct d; cbn [other_side]; eexists; (split; [reflexivity|]); (split;
      [eapply (Hcase4 RB_BLACK); [done|cbn; rewrite ?(set_black n) by done; eauto with rb]
      |subst near far; rewrite !elements_node_at; flat; rewrite E; flat; done]).
  - pose proof (wf_not_red _ _ _ Hfar Efar) as ->. pose proof (wf_not_red _ _ _ Hnear Enear) as ->.
    assert (wf n RB_BLACK sl /\ wf n RB_BLACK sr) as [Hl' Hr'] by (by destruct d). eexists. split; [reflexivity|]. cbn [set_color].
    destruct pc; (split; [|split || idtac]); rewrite ?elements_node_at; flat; try done; [|eauto with rb].
    exists RB_BLACK. eauto with rb.
Qed.

Lemma erase_color_ok p : forall n node, wf n RB_BLACK node -> path_ok (S n) RB_BLACK p ->
  exists t, ____rb_erase_color node p = Some t /\ is_rbtree t /\
    elements t = before p ++ elements node ++ after p.
Proof.
  induction p as [|[d pc px s] p IH]; intros n node Hn Hp; cbn [____rb_erase_color].
  { exists node. split; [done|]. split; [by exists n|]. flat. by rewrite app_nil_r. }
  assert (before (Frame d pc px s :: p) ++ elements node ++ after (Frame d pc px s :: p) =
    before p ++ elements_at d (elements node) px (elements s) ++ after p) as -> by (destruct d; flat; done).
  assert (forall t c m, wf m c t -> path_ok m c p -> elements t = elements_at d (elements node) px (elements s) ->
    exists t', Some (plug t p) = Some t' /\ is_rbtree t' /\
      elements t' = before p ++ elements_at d (elements node) px (elements s) ++ after p) as Hdone.
  { intros t c m Ht Hp' Ee. eexists. split; [reflexivity|]. split; [by eapply plug_wf|]. by rewrite elements_plug, Ee. }
  inversion Hp as [|n' d' x' s' p' Hs Hp'|n' c cs d' x' s' p' Hs Hp']; subst.
  - replace (rb_is_red s) with false by (by inversion Hs).
    destruct (erase_step_ok d n node RB_RED px s Hn Hs) as (r & -> & Hr). cbn [mbind option_bind]. destruct r as [t|t].
    + destruct Hr as [[c Ht] Ee]. eapply Hdone; [exact Ht| |exact Ee]. destruct c; [done|by eapply path_ok_black].
    + by destruct Hr.
  - destruct (rb_is_red s) eqn:Es.
    + destruct (wf_red_inv _ _ _ Hs Es) as (sl & sx & sr & -> & -> & Hl & Hr).
      set (near := match d with L => sl | R => sr end). set (far := match d with L => sr | R => sl end).
      assert ((match d with L => (sl, sr) | R => (sr, sl) end) = (near, far)) as -> by (by destruct d).
      assert (wf (S n) RB_BLACK near /\ wf (S n) RB_BLACK far) as [Hnear Hfar] by (by destruct d).
      destruct (erase_step_ok d n node RB_RED px near Hn Hnear) as (r & Er & Hres). rewrite (set_black _ _ Hnear), Er.
      destruct (wf_black_node _ _ Hnear) as (a & y & b & ca & cb & Enear & _ & _).
      assert (forall X (u v : X), match near with Leaf => u | Node _ _ _ _ => v end = v) as -> by (by rewrite Enear).
      cbn [mbind option_bind]. destruct r as [t|t]; [|by destruct Hres]. destruct Hres as [[c Ht] Ee].
      eapply (Hdone _ RB_BLACK (S (S n))); [eauto with rb|done|]. rewrite elements_node_at, Ee. subst near far. destruct d; flat; done.
    + pose proof (wf_not_red _ _ _ Hs Es) as ->.
      destruct (erase_step_ok d n node RB_BLACK px s Hn Hs) as (r & -> & Hr). cbn [mbind option_bind]. destruct r as [t|t].
      * destruct Hr as [Ht Ee]. by eapply Hdone.
      * destruct Hr as (_ & Ht & Ee). destruct (IH (S n) t Ht Hp') as (t' & -> & Ht' & Ee'). exists t'. by rewrite Ee', Ee.
Qed.

(** A node with no left child is taken out. *)
Lemma erase_left_ok n cc c x (r : tree) p : wf n cc (Node c Leaf x r) -> path_ok n cc p ->
  exists t, (match r with
    | Node _ _ _ _ => Some (plug (set_color RB_BLACK r) p)
    | Leaf => match c with RB_BLACK => ____rb_erase_color Leaf p | RB_RED => Some (plug Leaf p) end
    end) = Some t /\ is_rbtree t /\ elements t = before p ++ elements r ++ after p /\ (r <> Leaf -> c = RB_BLACK).
Proof.
  intros Hw Hp. inversion Hw as [|n' l x' r' Hl Hr|n' cl cr l x' r' Hl Hr]; subst; inversion Hl; subst.
  - inversion Hr; subst. eexists. split; [reflexivity|]. split; [eapply plug_wf; eauto using path_ok_black with rb|].
    split; [by rewrite elements_plug|done].
  - destruct r as [|rc rl rx rr].
    + destruct (erase_color_ok p 0 Leaf wf_leaf Hp) as (t & -> & Ht & Ee). exists t. by split_and!.
    + inversion Hr; subst. eexists. split; [reflexivity|]. split; [eapply plug_wf; [|exact Hp]; cbn; eauto with rb|].
      split; [by rewrite elements_plug|done].
Qed.

Lemma erase_right_ok n cc c x (l : tree) p : l <> Leaf -> wf n cc (Node c l x Leaf) -> path_ok n cc p ->
  is_rbtree (plug (set_color c l) p).
Proof.
  intros Hne Hw Hp. inversion Hw as [|n' l' x' r' Hl Hr|n' cl cr l' x' r' Hl Hr]; subst; inversion Hr; subst.
  - by inversion Hl; subst.
  - destruct l as [|lc ll lx lr]; [done|]. inversion Hl; subst. eapply plug_wf; [|exact Hp]. cbn. eauto with rb.
Qed.

Lemma leftmost_ok (t : tree) : forall p, t <> Leaf -> exists c s r q, rb_leftmost t p = (Node c Leaf s r, q ++ p) /\
  rb_leftmost t [] = (Node c Leaf s r, q) /\ plug (Node c Leaf s r) q = t /\ before q = [].
Proof.
  induction t as [|c l IHl x r _]; intros p Hne; [done|]. destruct l as [|lc ll lx lr].
  - by exists c, x, r, [].
  - destruct (IHl (Frame L c x r :: p) ltac:(done)) as (c' & s & r' & q & E1 & E2 & E3 & E4).
    destruct (IHl [Frame L c x r] ltac:(done)) as (c2 & s2 & r2 & q2 & F1 & F2 & _). rewrite E2 in F2. injection F2 as <- <- <- <-.
    exists c', s, r', (q ++ [Frame L c x r]). split; [cbn [rb_leftmost]; rewrite <- (assoc_L (++)); exact E1|]. split; [exact F1|].
    split; [by rewrite plug_app, E3|]. clear - E4. induction q as [|[[|] ? ? ?] q IH]; [done|by apply IH|]. cbn in E4. by destruct (before q), (elements other).
Qed.

Lemma erase_ok c l x r p : is_rbtree (plug (Node c l x r) p) ->
  exists t, rb_erase c l r p = Some t /\ is_rbtree t /\
    elements t = before p ++ elements l ++ elements r ++ after p.
Proof.
  intros Ht. destruct (plug_inv _ _ Ht) as (n & cc & Hw & Hp). unfold rb_erase. destruct l as [|lc ll lx lr].
  - destruct (erase_left_ok n cc c x r p Hw Hp) as (t & Er & Ht' & Ee & Hc). destruct r as [|rc rl rx rr].
    + exists t. by split_and!.
    + rewrite (Hc ltac:(done)). exists t. by split_and!.
  - remember (Node lc ll lx lr) as l eqn:El. assert (l <> Leaf) as Hne by (by subst l). clear El.
    destruct r as [|rc rl rx rr].
    + exists (plug (set_color c l) p). split; [clear - Hne; by destruct l|]. split; [by eapply erase_right_ok|]. rewrite elements_plug, elements_set_color. flat; done.
    + remember (Node rc rl rx rr) as r eqn:Er. assert (r <> Leaf) as Hner by (by subst r).
      destruct (leftmost_ok r [] Hner) as (sc & s & child2 & q & _ & E2 & E3 & E4). rewrite E2.
      assert (is_rbtree (plug (Node sc Leaf s child2) (q ++ Frame R c s l :: p))) as Hs.
      { rewrite plug_app, E3. cbn. eapply plug_wf; [|exact Hp]. clear - Hw. inversion Hw; subst; eauto with rb. }
      destruct (plug_inv _ _ Hs) as (m & c' & Hw' & Hp'). destruct (erase_left_ok m c' sc s child2 _ Hw' Hp') as (t & Et & Ht' & Ee & _).
      exists t. split; [rewrite <- Et; clear - Hne Er; subst r; by destruct l|]. split; [done|].
      assert (elements r = s :: elements child2 ++ after q) as Eel by (rewrite <- E3, elements_plug, E4; done).
      rewrite Ee, Eel. assert (forall p0, before (q ++ p0) = before p0 /\ after (q ++ p0) = after q ++ after p0) as Hq.
      { clear - E4. intros p0. induction q as [|[[|] c x o] q IH]; [done| |cbn in E4; by destruct (before q), (elements o)].
        cbn in *. destruct (IH E4) as [-> ->]. by rewrite <- (assoc_L (++)). }
      destruct (Hq (Frame R c s l :: p)) as [-> ->]. flat. done.
Qed.

(** ** Height *)

Fixpoint height (t : tree) : nat :=
  match t with
  | Leaf => 0
  | Node _ l _ r => S (Nat.max (height l) (height r))
  end.

Lemma wf_height n c t : wf n c t -> height t <= 2 * n + (if c is RB_RED then 1 else 0).
Proof. induction 1 as [|n l x r _ IHl _ IHr|n cl cr l x r _ IHl _ IHr]; cbn in *; [lia|lia|]. destruct cl, cr; lia. Qed.

Lemma wf_size n c t : wf n c t -> 2 ^ n <= S (length (elements t)).
Proof.
  induction 1 as [|n l x r _ IHl _ IHr|n cl cr l x r _ IHl _ IHr]; cbn [elements];
    rewrite ?length_app, ?Nat.pow_succ_r'; cbn [length] in *; try lia. done.
Qed.

Lemma rbtree_height t : is_rbtree t -> height t <= 2 * Nat.log2 (S (length (elements t))).
Proof.
  intros [n Hw]. pose proof (wf_height _ _ _ Hw) as Hh. cbn iota in Hh. pose proof (wf_size _ _ _ Hw) as Hs.
  apply Nat.log2_le_mono in Hs. rewrite Nat.log2_pow2 in Hs by lia. lia.
Qed.

(** ** Iteration *)

(** From a node on, as long as there is a next one. *)
Fixpoint walk (n : nat) (pos : option (position A)) : list A :=
  match n, pos with
  | S n, Some ((Node _ _ x _, _) as pos) => x :: walk n (rb_next pos)
  | _, _ => []
  end.

Lemma climb_ok p : forall c l x, match climb R (Node c l x Leaf) p with
  | Some (Node c' l' x' r', p') => after p = x' :: elements r' ++ after p'
  | Some (Leaf, _) => False
  | None => after p = []
  end.
Proof.
  assert (forall (t : tree), t <> Leaf -> match climb R t p with
    | Some (Node c' l' x' r', p') => after p = x' :: elements r' ++ after p'
    | Some (Leaf, _) => False
    | None => after p = []
    end) as Hc; [|intros c l x; by apply Hc].
  induction p as [|[[|] fc fx s] p IH]; intros t Ht; cbn; [done|done|]. apply IH. done.
Qed.

Lemma next_ok c l x (r : tree) p : match rb_next (Node c l x r, p) with
  | Some (Node c' l' x' r', p') => elements r ++ after p = x' :: elements r' ++ after p'
  | Some (Leaf, _) => False
  | None => elements r ++ after p = []
  end.
Proof.
  cbn [rb_next]. destruct r as [|rc rl rx rr]; [apply climb_ok|].
  destruct (leftmost_ok (Node rc rl rx rr) (Frame R c x l :: p) ltac:(done)) as (c' & s & r' & q & -> & _ & Eq & Eb).
  rewrite <- Eq, elements_plug, Eb. cbn [elements app]. f_equal. rewrite <- (assoc_L (++)). f_equal.
  clear - Eb. induction q as [|[[|] fc fx o] q IH]; [done| |cbn in Eb; by destruct (before q), (elements o)].
  cbn in *. by rewrite <- (assoc_L (++)), (IH Eb).
Qed.

Lemma walk_ok n : forall c l x (r : tree) p, length (elements r ++ after p) < n ->
  walk n (Some (Node c l x r, p)) = x :: elements r ++ after p.
Proof.
  induction n as [|n IH]; intros c l x r p Hn; [lia|]. cbn [walk]. f_equal. pose proof (next_ok c l x r p) as Hnext.
  destruct (rb_next (Node c l x r, p)) as [[[|c' l' x' r'] p']|]; [done| |by rewrite Hnext; destruct n].
  rewrite Hnext in Hn |- *. apply IH. cbn in Hn. lia.
Qed.

Lemma walk_first (t : tree) : walk (S (length (elements t))) (rb_first t) = elements t.
Proof.
  destruct t as [|c l x r]; [done|]. unfold rb_first.
  destruct (leftmost_ok (Node c l x r) [] ltac:(done)) as (c' & s & r' & q & -> & _ & Eq & Eb). rewrite app_nil_r in *.
  rewrite <- Eq, elements_plug, Eb. cbn [elements app]. apply walk_ok. cbn. lia.
Qed.

(** ** Adding in order *)

Lemma add_loop_ok less x (t : tree) : forall p,
  let q := add_loop less x t p in
  before q ++ after q = before p ++ elements t ++ after p /\
  (StronglySorted (fun y z => less x y = true -> less x z = true) (elements t) ->
   Forall (fun y => less x y = false) (before p) -> Forall (fun y => less x y = true) (after p) ->
   Forall (fun y => less x y = false) (before q) /\ Forall (fun y => less x y = true) (after q)).
Proof.
  induction t as [|c l IHl y r IHr]; intros p; cbn [add_loop elements]; [done|].
  assert (StronglySorted (fun y z => less x y = true -> less x z = true) (elements l ++ y :: elements r) ->
    StronglySorted (fun y z => less x y = true -> less x z = true) (elements l) /\
    StronglySorted (fun y z => less x y = true -> less x z = true) (elements r) /\
    (less x y = true -> Forall (fun z => less x z = true) (elements r)) /\
    (less x y = false -> Forall (fun z => less x z = false) (elements l))) as Hinv.
  { intros Hs. apply StronglySorted_app in Hs as (Hlr & Hl & Hr). inversion Hr as [|? ? Hr' Hy]; subst. split_and!; try done.
    - intros E. eapply Forall_impl; [|exact Hy]. cbn. auto.
    - intros E. rewrite Forall_forall. intros z Hz. destruct (less x z) eqn:Ez; [|done].
      rewrite <- E. symmetry. apply (Hlr z y); [by apply list_elem_of_In|by left|done]. }
  destruct (less x y) eqn:Ey.
  - destruct (IHl (Frame L c y r :: p)) as [E Hf]. split; [rewrite E; flat; done|]. intros Hs Hb Ha.
    destruct (Hinv Hs) as (Hl & Hr & Hy & _). apply Hf; [done|done|]. cbn. constructor; [done|]. apply Forall_app. by split; [apply Hy|].
  - destruct (IHr (Frame R c y l :: p)) as [E Hf]. split; [rewrite E; flat; done|]. intros Hs Hb Ha.
    destruct (Hinv Hs) as (Hl & Hr & _ & Hy). apply Hf; [done| |done]. cbn. apply Forall_app. split; [done|].
    apply Forall_app. split; [by apply Hy|by repeat constructor].
Qed.
(** ** Finding *)

Lemma find_loop_ok (cmp : A -> comparison) (t : tree) : forall p,
  let '(t', q) := find_loop cmp t p in
  plug t' q = plug t p /\
  (StronglySorted (fun y z => (cmp y = Lt -> cmp z = Lt) /\ (cmp z = Gt -> cmp y = Gt)) (elements t) ->
   Forall (fun y => cmp y = Gt) (before p) -> Forall (fun y => cmp y = Lt) (after p) ->
   match t' with
   | Leaf => before q ++ after q = before p ++ elements t ++ after p /\
       Forall (fun y => cmp y = Gt) (before q) /\ Forall (fun y => cmp y = Lt) (after q)
   | Node _ _ y _ => cmp y = Eq /\ In y (elements t)
   end).
Proof.
  induction t as [|c l IHl y r IHr]; intros p; cbn [find_loop elements]; [by split|].
  assert (StronglySorted (fun y z => (cmp y = Lt -> cmp z = Lt) /\ (cmp z = Gt -> cmp y = Gt)) (elements l ++ y :: elements r) ->
    StronglySorted (fun y z => (cmp y = Lt -> cmp z = Lt) /\ (cmp z = Gt -> cmp y = Gt)) (elements l) /\
    StronglySorted (fun y z => (cmp y = Lt -> cmp z = Lt) /\ (cmp z = Gt -> cmp y = Gt)) (elements r) /\
    (cmp y = Lt -> Forall (fun z => cmp z = Lt) (elements r)) /\
    (cmp y = Gt -> Forall (fun z => cmp z = Gt) (elements l))) as Hinv.
  { intros Hs. apply StronglySorted_app in Hs as (Hlr & Hl & Hr). inversion Hr as [|? ? Hr' Hy]; subst. split_and!; try done.
    - intros E. eapply Forall_impl; [|exact Hy]. cbn. tauto.
    - intros E. rewrite Forall_forall. intros z Hz. apply (Hlr z y); [by apply list_elem_of_In|by left|done]. }
  destruct (cmp y) eqn:Ey.
  - split; [done|]. intros _ _ _. split; [done|]. apply in_app_iff. right. by left.
  - specialize (IHl (Frame L c y r :: p)). destruct (find_loop cmp l _) as [t' q]. destruct IHl as [Ep Hf]. split; [exact Ep|].
    intros Hs Hb Ha. destruct (Hinv Hs) as (Hl & Hr & Hy & _).
    assert (Forall (fun y => cmp y = Lt) (after (Frame L c y r :: p))) as Ha'.
    { cbn. constructor; [done|]. apply Forall_app. by split; [apply Hy|]. }
    specialize (Hf Hl Hb Ha'). destruct t'; [|destruct Hf; split; [done|]; apply in_app_iff; by left].
    destruct Hf as (E & H1 & H2). split_and!; try done. rewrite E. flat; done.
  - specialize (IHr (Frame R c y l :: p)). destruct (find_loop cmp r _) as [t' q]. destruct IHr as [Ep Hf]. split; [exact Ep|].
    intros Hs Hb Ha. destruct (Hinv Hs) as (Hl & Hr & _ & Hy).
    assert (Forall (fun y => cmp y = Gt) (before (Frame R c y l :: p))) as Hb'.
    { cbn. apply Forall_app. split; [done|]. apply Forall_app. split; [by apply Hy|by repeat constructor]. }
    specialize (Hf Hr Hb' Ha). destruct t'; [|destruct Hf; split; [done|]; apply in_app_iff; right; by right].
    destruct Hf as (E & H1 & H2). split_and!; try done. rewrite E. flat; done.
Qed.

(** A tree with an element put at an empty position. *)
Lemma insert_color_ok x p : is_rbtree (plug Leaf p) -> exists t, rb_insert_color x p = Some t /\ is_rbtree t /\
  elements t = before p ++ x :: after p.
Proof.
  intros Ht. destruct (plug_inv _ _ Ht) as (n & c & Hw & Hp). inversion Hw; subst.
  by apply (rb_insert_ok (length p) p 0 Leaf x Leaf (le_n _) Hp Hw Hw).
Qed.
End rbtree.

(** ** The contract *)

(** A tree as its users keep it: no element before one that is less. *)
Definition ordered {A} (less : A -> A -> bool) (t : rb_node A) : Prop :=
  is_rbtree t /\ StronglySorted (fun y z => less z y = false) (elements t).

(** C7: Red-black trees are sorted lists: on a valid tree ordered by a weak order rb_add makes no access to NULL and gives a valid ordered tree with the element added, after all that are not greater; rb_erase of any node gives a valid ordered tree without just that element; rb_first and rb_next visit all elements in order; and no path is longer than twice the logarithm of the number of elements. *)
Theorem rbtree_ordered {A} (less : A -> A -> bool) (t : rb_node A) :
  (forall x y z, less x y = true -> less x z = true \/ less z y = true) ->
  (forall x y, less x y = true -> less y x = false) -> ordered less t ->
  (forall x, exists t' l l', rb_add less x t = Some t' /\ ordered less t' /\ elements t = l ++ l' /\ elements t' = l ++ x :: l' /\
    Forall (fun y => less x y = false) l /\ Forall (fun y => less x y = true) l') /\
  (forall c l x r p, t = plug (Node c l x r) p -> exists t', rb_erase c l r p = Some t' /\ ordered less t' /\
    elements t = (before p ++ elements l) ++ x :: (elements r ++ after p) /\
    elements t' = (before p ++ elements l) ++ (elements r ++ after p)) /\
  walk (S (length (elements t))) (rb_first t) = elements t /\
  height t <= 2 * Nat.log2 (S (length (elements t))).
Proof.
  intros Hweak Hasym [Ht Hs]. split_and!; [| |apply walk_first|by apply rbtree_height].
  - intros x. unfold rb_add, rb_insert_color. destruct (add_loop_ok less x t []) as [E Hf].
    set (q := add_loop less x t []) in *. cbn [before after app] in E, Hf. rewrite app_nil_r in E.
    destruct Hf as [Hb Ha]; [|constructor|constructor|].
    { eapply StronglySorted_ind with (P := StronglySorted _); [constructor| |exact Hs].
      intros y l _ IH Hy. constructor; [done|]. eapply Forall_impl; [|exact Hy]. cbn. intros z Hzy Hxy.
      destruct (Hweak x y z Hxy); congruence. }
    assert (is_rbtree (plug Leaf q)) as Hq.
    { clear - Ht. subst q. revert Ht. change t with (plug t []) at 1. generalize (@nil (frame A)) as p.
      induction t as [|c l IHl y r IHr]; intros p Hp; cbn; [done|].
      destruct (less x y); [apply (IHl (Frame L c y r :: p))|apply (IHr (Frame R c y l :: p))]; exact Hp. }
    destruct (plug_inv _ _ Hq) as (n & c & Hw & Hp). inversion Hw; subst.
    destruct (rb_insert_ok (length q) q 0 Leaf x Leaf (le_n _) Hp Hw Hw) as (t' & -> & Ht' & Ee). cbn in Ee.
    exists t', (before q), (after q). split; [done|]. rewrite <- E in Hs. apply StronglySorted_app in Hs as (Hba & Hsb & Hsa).
    split_and!; try done. split; [done|]. rewrite Ee. apply StronglySorted_app. split_and!; [|done|].
    + intros y z Hy Hz. apply list_elem_of_In in Hz as [<-|Hz]; [by rewrite Forall_forall in Hb; apply Hb, list_elem_of_In|].
      apply Hba; [done|by apply list_elem_of_In].
    + constructor; [done|]. eapply Forall_impl; [|exact Ha]. cbn. apply Hasym.
  - intros c l x r p ->. destruct (erase_ok c l x r p Ht) as (t' & -> & Ht' & Ee). exists t'. split; [done|].
    rewrite elements_plug in Hs |- *. cbn [elements] in *.
    assert (elements t' = (before p ++ elements l) ++ (elements r ++ after p)) as Ee' by (rewrite Ee; by rewrite <- !(assoc_L (++))).
    replace (before p ++ (elements l ++ x :: elements r) ++ after p) with ((before p ++ elements l) ++ x :: (elements r ++ after p)) in *
      by (rewrite <- !(assoc_L (++)); done). split_and!; try done. split; [done|]. rewrite Ee'.
    apply StronglySorted_app in Hs as (H1 & H2 & H3). inversion H3; subst. apply StronglySorted_app. split_and!; try done.
    intros y z Hy Hz. apply H1; [done|]. by right.
Qed.

Definition example_tree : rb_node nat := Node RB_BLACK (Node RB_RED Leaf 1 Leaf) 2 Leaf.

Lemma rbtree_ordered_witness :
  (forall x, exists t' l l', rb_add Nat.ltb x example_tree = Some t' /\ ordered Nat.ltb t' /\ elements example_tree = l ++ l' /\
    elements t' = l ++ x :: l' /\ Forall (fun y => Nat.ltb x y = false) l /\ Forall (fun y => Nat.ltb x y = true) l') /\
  (forall c l x r p, example_tree = plug (Node c l x r) p -> exists t', rb_erase c l r p = Some t' /\ ordered Nat.ltb t' /\
    elements example_tree = (before p ++ elements l) ++ x :: (elements r ++ after p) /\
    elements t' = (before p ++ elements l) ++ (elements r ++ after p)) /\
  walk (S (length (elements example_tree))) (rb_first example_tree) = elements example_tree /\
  height example_tree <= 2 * Nat.log2 (S (length (elements example_tree))).
Proof.
  apply (rbtree_ordered Nat.ltb example_tree).
  - intros x y z. rewrite !Nat.ltb_lt. lia.
  - intros x y. rewrite Nat.ltb_lt, Nat.ltb_ge. lia.
  - split; [|by repeat constructor]. exists 1. eapply wf_black; [apply wf_red; apply wf_leaf|apply wf_leaf].
Defined.
