(* ===== verification/CallPath.v ===== *)
(** The tree of call paths: tools/perf/util/call-path.c.  A call path is known by
    its place: 0 is the root, embedded in [struct call_path_root], the others
    follow block by block.  A symbol is known by its address, 0 for NULL. *)
From Stdlib Require Import ZArith Lia List Bool.
From S2P Require Import Prelude RbTree.
Open Scope Z_scope.
Open Scope c_scope.
Import ListNotations.

Record call_path := mkCp {
  cp_parent : option nat;
  cp_sym : Z;
  cp_ip : Z;
  cp_db_id : Z;
  cp_in_kernel : bool;
  cp_children : rb_node nat
}.
#[export] Instance eta_cp : Eta call_path := fun c =>
  mkCp (cp_parent c) (cp_sym c) (cp_ip c) (cp_db_id c) (cp_in_kernel c) (cp_children c).
#[export] Instance set_cp_children : Setter cp_children := ltac:(solve_setter).

Definition CALL_PATH_BLOCK_SHIFT : Z := 8.
Definition CALL_PATH_BLOCK_SIZE : Z := 1 .<< CALL_PATH_BLOCK_SHIFT.
Definition CALL_PATH_BLOCK_MASK : Z := CALL_PATH_BLOCK_SIZE - 1.

(** [cpr_paths]: the root and the blocks, also what is not used yet. *)
Record call_path_root := mkCpr {
  cpr_paths : list call_path;
  cpr_blocks : nat;
  cpr_next : Z;
  cpr_sz : Z
}.

Definition zero_path : call_path := mkCp None 0 0 0 false Leaf.

Definition call_path__init (parent : option nat) (sym ip : Z) (in_kernel : bool) : call_path :=
  mkCp parent sym (if negb (sym =? 0) then 0 else ip) 0 in_kernel Leaf.

Definition call_path_root__new (alloc : bool) : option call_path_root :=
  if alloc then Some (mkCpr [call_path__init None 0 0 false] 0 0 0) else None.

(** The new call path; NULL is [None] within, a bad access [None]. *)
Definition call_path__new (a : allocs) (cpr : call_path_root) (parent : option nat) (sym ip : Z) (in_kernel : bool)
    : option (option nat * call_path_root * allocs) :=
  let init (cpr : call_path_root) (a : allocs) :=
    let n := Z.land (cpr_next cpr) CALL_PATH_BLOCK_MASK in
    let cp := 1 + (Z.of_nat (cpr_blocks cpr) - 1) * CALL_PATH_BLOCK_SIZE + n in
    paths ← set_at (cpr_paths cpr) cp (call_path__init parent sym ip in_kernel);
    Some (Some (Z.to_nat cp), mkCpr paths (cpr_blocks cpr) (u64 (cpr_next cpr + 1)) (cpr_sz cpr), a) in
  if cpr_next cpr <? cpr_sz cpr then init cpr a
  else if a 0%nat then
    init (mkCpr (cpr_paths cpr ++ replicate (Z.to_nat CALL_PATH_BLOCK_SIZE) zero_path) (S (cpr_blocks cpr))
            (cpr_next cpr) (u64 (cpr_sz cpr + CALL_PATH_BLOCK_SIZE))) (next_allocs a)
  else Some (None, cpr, next_allocs a).

(** The loop: the child with this symbol and address, or where it would be. *)
Fixpoint find_child (paths : list call_path) (sym ip : Z) (t : rb_node nat) (p : path nat) : option (position nat) :=
  match t with
  | Leaf => Some (Leaf, p)
  | Node c l n r =>
    cp ← paths !! n;
    if (cp_sym cp =? sym) && (cp_ip cp =? ip) then Some (t, p)
    else if (sym <? cp_sym cp) || ((sym =? cp_sym cp) && (ip <? cp_ip cp)) then
      find_child paths sym ip l (Frame L c n r :: p)
    else find_child paths sym ip r (Frame R c n l :: p)
  end.

Definition call_path__findnew (a : allocs) (cpr : call_path_root) (parent : option nat) (sym ip ks : Z)
    : option (option nat * call_path_root * allocs) :=
  let in_kernel := ks <=? ip in
  let ip := if negb (sym =? 0) then 0 else ip in
  match parent with
  | None => call_path__new a cpr parent sym ip in_kernel
  | Some k =>
    par ← cpr_paths cpr !! k;
    '(t, p) ← find_child (cpr_paths cpr) sym ip (cp_children par) [];
    match t with
    | Node _ _ n _ => Some (Some n, cpr, a)
    | Leaf =>
      '(cp, cpr, a) ← call_path__new a cpr parent sym ip in_kernel;
      match cp with
      | None => Some (None, cpr, a)
      | Some n =>
        children ← rb_insert_color n p;
        par ← cpr_paths cpr !! k;
        Some (Some n, mkCpr (<[k := par <| cp_children := children |>]> (cpr_paths cpr)) (cpr_blocks cpr)
                        (cpr_next cpr) (cpr_sz cpr), a)
      end
    end
  end.
