(* ===== verification/Bitmap.v ===== *)
(** Bitmaps: tools/lib/find_bit.c, hweight.c and bitmap.c, on a 64-bit host, with
    __ffs of tools/include/asm-generic/bitops.  A bitmap is an array of 64-bit
    words; [None] is an access outside it, or a loop that does not end. *)
From Stdlib Require Import ZArith Lia List Bool String.
From stdpp Require Import pretty.
From S2P Require Import Prelude.
Open Scope Z_scope.
Open Scope c_scope.
Import ListNotations.

Definition BITS_PER_LONG : Z := 64.

(** ** The first bit of a word *)

(** [if ((word & mask) == 0) { num += k; word >>= k; }] *)
Definition ffs_step (k mask : Z) (x : Z * Z) : Z * Z :=
  let '(num, word) := x in if word .& mask =? 0 then (num + k, word .>> k) else (num, word).
Definition __ffs (word : Z) : Z :=
  (ffs_step 1 0x1 (ffs_step 2 0x3 (ffs_step 4 0xf (ffs_step 8 0xff (ffs_step 16 0xffff (ffs_step 32 0xffffffff (0, word))))))).1.

(** ** Searches

    [FIND_FIRST_BIT] and [FIND_NEXT_BIT], by how they fetch a word; the number of
    words bounds the loops. *)

Definition BITMAP_FIRST_WORD_MASK (start : Z) : Z := u64 ((2 ^ 64 - 1) .<< (start .& 63)).
Definition BITMAP_LAST_WORD_MASK (nbits : Z) : Z := (2 ^ 64 - 1) .>> (u32 (- nbits) .& 63).
Definition BITS_TO_LONGS (nbits : Z) : Z := (nbits + 63) / 64.

Section find.
Context (fetch : Z -> option Z).

Fixpoint first_bit_loop (n : nat) (idx sz : Z) : option Z :=
  match n with
  | O => None
  | S n =>
    if u64 (idx * BITS_PER_LONG) <? sz then
      val ← fetch idx;
      if negb (val =? 0) then Some (Z.min (u64 (u64 (idx * BITS_PER_LONG) + __ffs val)) sz) else first_bit_loop n (idx + 1) sz
    else Some sz
  end.
Definition FIND_FIRST_BIT (size : Z) : option Z := first_bit_loop (Z.to_nat (size / 64 + 2)) 0 size.

Fixpoint next_bit_loop (n : nat) (idx tmp sz : Z) : option Z :=
  match n with
  | O => None
  | S n =>
    if tmp =? 0 then
      if sz <=? u64 ((idx + 1) * BITS_PER_LONG) then Some sz
      else tmp ← fetch (idx + 1); next_bit_loop n (idx + 1) tmp sz
    else Some (Z.min (u64 (u64 (idx * BITS_PER_LONG) + __ffs tmp)) sz)
  end.
Definition FIND_NEXT_BIT (size start : Z) : option Z :=
  if size <=? start then Some size
  else
    let mask := BITMAP_FIRST_WORD_MASK start in
    let idx := start / BITS_PER_LONG in
    tmp ← fetch idx;
    next_bit_loop (Z.to_nat (size / 64 + 2)) idx (tmp .& mask) size.
End find.

Definition word (addr : list Z) (i : Z) : option Z := idx addr i.
Definition and_word (addr1 addr2 : list Z) (i : Z) : option Z := a ← idx addr1 i; b ← idx addr2 i; Some (a .& b).
Definition not_word (addr : list Z) (i : Z) : option Z := a ← idx addr i; Some (u64 (.~ a)).

Definition _find_first_bit (addr : list Z) (size : Z) : option Z := FIND_FIRST_BIT (word addr) size.
Definition _find_first_and_bit (addr1 addr2 : list Z) (size : Z) : option Z := FIND_FIRST_BIT (and_word addr1 addr2) size.
Definition _find_first_zero_bit (addr : list Z) (size : Z) : option Z := FIND_FIRST_BIT (not_word addr) size.
Definition _find_next_bit (addr : list Z) (nbits start : Z) : option Z := FIND_NEXT_BIT (word addr) nbits start.
Definition _find_next_and_bit (addr1 addr2 : list Z) (nbits start : Z) : option Z := FIND_NEXT_BIT (and_word addr1 addr2) nbits start.
Definition _find_next_zero_bit (addr : list Z) (nbits start : Z) : option Z := FIND_NEXT_BIT (not_word addr) nbits start.

(** ** Weights of words

    CONFIG_ARCH_HAS_FAST_MULTIPLIER is not set in the tools. *)

Definition __sw_hweight32 (w : Z) : Z :=
  let res := u32 (w - ((w .>> 1) .& 0x55555555)) in
  let res := u32 ((res .& 0x33333333) + ((res .>> 2) .& 0x33333333)) in
  let res := u32 (res + (res .>> 4)) .& 0x0F0F0F0F in
  let res := u32 (res + (res .>> 8)) in
  u32 (res + (res .>> 16)) .& 0x000000FF.

Definition __sw_hweight16 (w : Z) : Z :=
  let res := u32 (w - ((w .>> 1) .& 0x5555)) in
  let res := u32 ((res .& 0x3333) + ((res .>> 2) .& 0x3333)) in
  let res := u32 (res + (res .>> 4)) .& 0x0F0F in
  u32 (res + (res .>> 8)) .& 0x00FF.

Definition __sw_hweight8 (w : Z) : Z :=
  let res := u32 (w - ((w .>> 1) .& 0x55)) in
  let res := u32 ((res .& 0x33) + ((res .>> 2) .& 0x33)) in
  u32 (res + (res .>> 4)) .& 0x0F.

Definition __sw_hweight64 (w : Z) : Z :=
  let res := u64 (w - ((w .>> 1) .& 0x5555555555555555)) in
  let res := u64 ((res .& 0x3333333333333333) + ((res .>> 2) .& 0x3333333333333333)) in
  let res := u64 (res + (res .>> 4)) .& 0x0F0F0F0F0F0F0F0F in
  let res := u64 (res + (res .>> 8)) in
  let res := u64 (res + (res .>> 16)) in
  u64 (res + (res .>> 32)) .& 0x00000000000000FF.

(** ** Operations on bitmaps

    The loops over the whole words, [n] of them from [k], and what is done with the
    rest. *)

Fixpoint weight_loop (bitmap : list Z) (n : nat) (k w : Z) : option Z :=
  match n with
  | O => Some w
  | S n => x ← idx bitmap k; weight_loop bitmap n (k + 1) (u32 (w + __sw_hweight64 x))
  end.
Definition __bitmap_weight (bitmap : list Z) (bits : Z) : option Z :=
  let lim := bits / BITS_PER_LONG in
  w ← weight_loop bitmap (Z.to_nat lim) 0 0;
  if bits mod BITS_PER_LONG =? 0 then Some w
  else x ← idx bitmap lim; Some (u32 (w + __sw_hweight64 (x .& BITMAP_LAST_WORD_MASK bits))).

Fixpoint or_loop (dst bitmap1 bitmap2 : list Z) (n : nat) (k : Z) : option (list Z) :=
  match n with
  | O => Some dst
  | S n =>
    a ← idx bitmap1 k; b ← idx bitmap2 k; dst ← set_at dst k (a .| b);
    or_loop dst bitmap1 bitmap2 n (k + 1)
  end.
Definition __bitmap_or (dst bitmap1 bitmap2 : list Z) (bits : Z) : option (list Z) :=
  or_loop dst bitmap1 bitmap2 (Z.to_nat (BITS_TO_LONGS bits)) 0.

(** [dst] and [result]. *)
Fixpoint and_loop (dst bitmap1 bitmap2 : list Z) (n : nat) (k result : Z) : option (list Z * Z) :=
  match n with
  | O => Some (dst, result)
  | S n =>
    a ← idx bitmap1 k; b ← idx bitmap2 k; dst ← set_at dst k (a .& b);
    and_loop dst bitmap1 bitmap2 n (k + 1) (result .| (a .& b))
  end.
Definition __bitmap_and (dst bitmap1 bitmap2 : list Z) (bits : Z) : option (list Z * bool) :=
  let lim := bits / BITS_PER_LONG in
  '(dst, result) ← and_loop dst bitmap1 bitmap2 (Z.to_nat lim) 0 0;
  if bits mod BITS_PER_LONG =? 0 then Some (dst, negb (result =? 0))
  else
    a ← idx bitmap1 lim; b ← idx bitmap2 lim;
    let x := a .& b .& BITMAP_LAST_WORD_MASK bits in
    dst ← set_at dst lim x;
    Some (dst, negb (result .| x =? 0)).

(** Whether [test] holds of the words of both, of the last the bits that count. *)
Fixpoint words_loop (test : Z -> Z -> bool) (bitmap1 bitmap2 : list Z) (n : nat) (k : Z) : option bool :=
  match n with
  | O => Some false
  | S n =>
    a ← idx bitmap1 k; b ← idx bitmap2 k;
    if test a b then Some true else words_loop test bitmap1 bitmap2 n (k + 1)
  end.
Definition __bitmap_equal (bitmap1 bitmap2 : list Z) (bits : Z) : option bool :=
  let lim := bits / BITS_PER_LONG in
  differ ← words_loop (fun a b => negb (a =? b)) bitmap1 bitmap2 (Z.to_nat lim) 0;
  if (differ : bool) then Some false
  else if bits mod BITS_PER_LONG =? 0 then Some true
  else
    a ← idx bitmap1 lim; b ← idx bitmap2 lim;
    Some (Z.lxor a b .& BITMAP_LAST_WORD_MASK bits =? 0).
Definition __bitmap_intersects (bitmap1 bitmap2 : list Z) (bits : Z) : option bool :=
  let lim := bits / BITS_PER_LONG in
  meet ← words_loop (fun a b => negb (a .& b =? 0)) bitmap1 bitmap2 (Z.to_nat lim) 0;
  if (meet : bool) then Some true
  else if bits mod BITS_PER_LONG =? 0 then Some false
  else
    a ← idx bitmap1 lim; b ← idx bitmap2 lim;
    Some (negb (a .& b .& BITMAP_LAST_WORD_MASK bits =? 0)).

(** ** Whole bitmaps

    Of these the code that is used when [nbits] is not a constant of the caller. *)

(** [memset] of the first words. *)
Definition memset_words (dst : list Z) (w n : Z) : option (list Z) :=
  if (0 <=? n) && (n <=? Z.of_nat (List.length dst)) then Some (replicate (Z.to_nat n) w ++ skipn (Z.to_nat n) dst)%list else None.
Definition bitmap_zero (dst : list Z) (nbits : Z) : option (list Z) := memset_words dst 0 (BITS_TO_LONGS nbits).
Definition bitmap_fill (dst : list Z) (nbits : Z) : option (list Z) :=
  let nlongs := BITS_TO_LONGS nbits in
  dst ← memset_words dst (2 ^ 64 - 1) (u32 (nlongs - 1));
  set_at dst (u32 (nlongs - 1)) (BITMAP_LAST_WORD_MASK nbits).
Definition bitmap_empty (src : list Z) (nbits : Z) : option bool := cur ← _find_first_bit src nbits; Some (cur =? nbits).
Definition bitmap_full (src : list Z) (nbits : Z) : option bool := cur ← _find_first_zero_bit src nbits; Some (cur =? nbits).

(** ** Printing

    The buffer is the text in it, of at most [size - 1] characters; [scnprintf]
    cuts what it writes.  Of a buffer without room it returns -1, and its callers
    go on before the buffer: [None].  The number [bitmap_scnprintf] returns is the
    length of the text; of an empty bitmap nothing is written, not even the end of
    the text. *)
Definition scnprintf (buf : string) (size : Z) (text : string) : option string :=
  let room := size - Z.of_nat (String.length buf) in
  if room <=? 0 then None else Some (String.append buf (substring 0 (Z.to_nat (room - 1)) text)).
Definition print_range (buf : string) (size : Z) (first : bool) (rbot rtop : Z) : option string :=
  buf ← (if first then Some buf else scnprintf buf size ",");
  buf ← scnprintf buf size (pretty (s32 rbot));
  if rbot <? rtop then scnprintf buf size (String.append "-" (pretty (s32 rtop))) else Some buf.

(** The loop of [bitmap_scnprintf]; [rtop] is set at the start of each turn. *)
Fixpoint scnprintf_loop (bitmap : list Z) (nbits size : Z) (n : nat) (buf : string) (first : bool) (rbot cur : Z) : option string :=
  match n with
  | O => None
  | S n =>
    if cur <? nbits then
      let rtop := cur in
      cur ← _find_next_bit bitmap nbits (u32 (cur + 1));
      if (cur <? nbits) && (cur <=? u32 (rtop + 1)) then scnprintf_loop bitmap nbits size n buf first rbot cur
      else buf ← print_range buf size first rbot rtop; scnprintf_loop bitmap nbits size n buf false cur cur
    else Some buf
  end.
Definition bitmap_scnprintf (bitmap : list Z) (nbits size : Z) : option string :=
  cur ← _find_first_bit bitmap nbits;
  scnprintf_loop bitmap nbits size (S (Z.to_nat nbits)) EmptyString true cur cur.
