(* ===== verification/BitmapTheorems.v ===== *)
(** Bitmaps as sets of bits: the searches find the first bit there is, weights
    count, and the operations are those on sets. *)
From Stdlib Require Import ZArith Lia List Bool String.
From stdpp Require Import pretty list.
From S2P Require Import Prelude Bitmap.
Open Scope Z_scope.
Open Scope c_scope.
Import ListNotations.

(** ** Bits of words *)

Lemma bit_ones k i : 0 <= k -> Z.testbit (Z.ones k) i = (0 <=? i) && (i <? k).
Proof.
  intros Hk. destruct (Z.leb_spec 0 i); cbn [andb]; [|by apply Z.testbit_neg_r].
  destruct (Z.ltb_spec i k); [by apply Z.ones_spec_low|apply Z.ones_spec_high; lia].
Qed.

Lemma some_bit w : 0 <= w -> w <> 0 -> exists i, 0 <= i /\ Z.testbit w i = true.
Proof. intros H0 Hw. exists (Z.log2 w). split; [apply Z.log2_nonneg|apply Z.bit_log2; lia]. Qed.

Lemma no_bit w : 0 <= w -> (forall i, 0 <= i -> Z.testbit w i = false) -> w = 0.
Proof. intros H0 Hw. apply Z.bits_inj'. intros i Hi. by rewrite Hw, Z.bits_0. Qed.

Lemma word_high w i : 0 <= w < 2 ^ 64 -> 64 <= i -> Z.testbit w i = false.
Proof. apply testbit_high. Qed.

(** ** The first bit of a word *)

(** Invariant of [__ffs]: [num] low bits are clear, [word] is the rest, and one of
    its [m] low bits is set. *)
Definition ffs_inv (w m : Z) (x : Z * Z) : Prop :=
  0 <= x.1 /\ (forall i, 0 <= i < x.1 -> Z.testbit w i = false) /\ x.2 = w .>> x.1 /\ exists i, 0 <= i < m /\ Z.testbit x.2 i = true.

Lemma ffs_step_inv w k x : 0 < k -> ffs_inv w (2 * k) x -> ffs_inv w k (ffs_step k (Z.ones k) x).
Proof.
  intros Hk (Hn & Hlow & Hw & i & Hi & Hb). destruct x as [num word]. cbn [fst snd] in *. unfold ffs_step.
  destruct (Z.eqb_spec (word .& Z.ones k) 0) as [E0|E0].
  - assert (forall j, 0 <= j < k -> Z.testbit word j = false) as Hz.
    { intros j Hj. pose proof (f_equal (fun a => Z.testbit a j) E0) as E1. cbn beta in E1.
      rewrite Z.land_spec, Z.bits_0, Z.ones_spec_low, andb_true_r in E1 by lia. done. }
    split; [cbn; lia|]. split; [|split]; cbn [fst snd].
    + intros j Hj. destruct (Z.lt_ge_cases j num); [apply Hlow; lia|].
      replace j with (j - num + num) by lia. rewrite <- Z.shiftr_spec, <- Hw by lia. apply Hz. lia.
    + by rewrite Hw, Z.shiftr_shiftr by lia.
    + exists (i - k). assert (k <= i) as Hik.
      { destruct (Z.lt_ge_cases i k) as [Hlt|]; [|lia]. rewrite Hz in Hb by lia. done. }
      split; [lia|]. rewrite Z.shiftr_spec by lia. by replace (i - k + k) with i by lia.
  - split; [done|]. split; [done|]. split; [done|]. cbn [snd].
    destruct (some_bit (word .& Z.ones k)) as (j & Hj & Hbj); [apply land_ones_range; lia|done|].
    rewrite Z.land_spec in Hbj. apply andb_true_iff in Hbj as [Hbj Hones]. exists j. split; [|done].
    rewrite bit_ones in Hones by lia. apply andb_true_iff in Hones as [_ Hlt]. apply Z.ltb_lt in Hlt. lia.
Qed.

Lemma ffs_first w : 0 < w < 2 ^ 64 ->
  0 <= __ffs w < 64 /\ Z.testbit w (__ffs w) = true /\ forall i, 0 <= i < __ffs w -> Z.testbit w i = false.
Proof.
  intros Hw. assert (ffs_inv w 64 (0, w)) as H0.
  { split; [done|]. split; [cbn; lia|]. split; [cbn [fst snd]; by rewrite Z.shiftr_0_r|]. cbn [snd].
    destruct (some_bit w) as (i & Hi & Hb); [lia|lia|]. exists i. split; [|done].
    destruct (Z.lt_ge_cases i 64); [lia|]. rewrite word_high in Hb by lia. done. }
  pose proof (fun k x => ffs_step_inv w k x) as Hstep.
  apply (Hstep 32) in H0; [|done]. apply (Hstep 16) in H0; [|done]. apply (Hstep 8) in H0; [|done].
  apply (Hstep 4) in H0; [|done]. apply (Hstep 2) in H0; [|done]. apply (Hstep 1) in H0; [|done]. clear Hstep.
  unfold __ffs. set (x := ffs_step 1 0x1 _). change (ffs_inv w 1 x) in H0. destruct H0 as (Hn & Hlow & Hr & i & Hi & Hb).
  assert (i = 0) as -> by lia. rewrite Hr, Z.shiftr_spec in Hb by lia. cbn [Z.add] in Hb.
  split; [|done]. split; [done|]. destruct (Z.lt_ge_cases x.1 64); [done|]. rewrite word_high in Hb by lia. done.
Qed.

(** ** Searches *)

(** A bit of the words that are fetched. *)
Definition fetched_bit (fetch : Z -> option Z) (i : Z) : bool :=
  match fetch (i / 64) with Some w => Z.testbit w (i mod 64) | None => false end.

(** [r] is the first of the bits from [lo] to [hi] that is set, or [hi]. *)
Definition first_bit (bit : Z -> bool) (lo hi r : Z) : Prop :=
  Z.min lo hi <= r <= hi /\ (forall i, lo <= i < r -> bit i = false) /\ (r < hi -> bit r = true).

Section find.
Context (fetch : Z -> option Z) (sz : Z).
Context (Hsz : 0 <= sz < 2 ^ 63).
Context (Hfetch : forall k, 0 <= k -> k * 64 < sz -> exists w, fetch k = Some w /\ 0 <= w < 2 ^ 64).
Abbreviation bit := (fetched_bit fetch).

Lemma bit_of k w j : fetch k = Some w -> 0 <= j < 64 -> bit (k * 64 + j) = Z.testbit w j.
Proof using Type.
  intros Hw Hj. unfold fetched_bit. replace ((k * 64 + j) / 64) with k by (apply Z.div_unique with j; lia).
  replace ((k * 64 + j) mod 64) with j by (apply Z.mod_unique with k; lia). by rewrite Hw.
Qed.

(** The first bit of a word of which the bits below [lo] are masked. *)
Lemma found_in_word k w tmp lo : 0 <= k -> k * 64 < sz -> fetch k = Some w -> 0 < tmp < 2 ^ 64 -> k * 64 <= lo < (k + 1) * 64 ->
  (forall j, 0 <= j < 64 -> Z.testbit tmp j = (lo <=? k * 64 + j) && Z.testbit w j) -> lo < sz ->
  first_bit bit lo sz (Z.min (u64 (u64 (k * BITS_PER_LONG) + __ffs tmp)) sz).
Proof using Hsz.
  intros Hk Hks Hw Ht Hlo Hbits Hlosz. destruct (ffs_first tmp Ht) as (Hr & Hset & Hlow). unfold BITS_PER_LONG.
  rewrite (u64_small (k * 64)) by lia. rewrite u64_small by lia.
  rewrite Hbits in Hset by done. apply andb_true_iff in Hset as [Hge Hset]. apply Z.leb_le in Hge.
  split; [lia|]. split.
  - intros i Hi. replace i with (k * 64 + (i - k * 64)) by lia. rewrite (bit_of k w) by (done || lia).
    specialize (Hlow (i - k * 64) ltac:(lia)). rewrite Hbits in Hlow by lia.
    destruct (Z.leb_spec lo (k * 64 + (i - k * 64))); [done|lia].
  - intros Hlt. rewrite Z.min_l in Hlt |- * by lia. by rewrite (bit_of k w).
Qed.

Lemma first_bit_skip lo mid r : lo <= mid -> (forall i, lo <= i < mid -> i < sz -> bit i = false) -> mid <= sz ->
  first_bit bit mid sz r -> first_bit bit lo sz r.
Proof using Type.
  intros Hle Hz Hms (H1 & H2 & H3). split; [lia|]. split; [|done].
  intros i Hi. destruct (Z.lt_ge_cases i mid); [apply Hz; lia|apply H2; lia].
Qed.

Lemma first_bit_loop_ok n : forall k, 0 <= k -> k * 64 < sz + 64 -> sz + 64 <= (k + Z.of_nat n) * 64 ->
  exists r, first_bit_loop fetch n k sz = Some r /\ first_bit bit (k * 64) sz r.
Proof using Hsz Hfetch.
  induction n as [|n IH]; intros k Hk Hks Hn; [lia|]. cbn [first_bit_loop]. unfold BITS_PER_LONG.
  rewrite u64_small by lia. destruct (Z.ltb_spec (k * 64) sz) as [Hlt|Hge].
  - destruct (Hfetch k Hk Hlt) as (w & Ew & Hw). rewrite Ew. cbn [mbind option_bind].
    destruct (Z.eqb_spec w 0) as [->|Hne]; cbn [negb].
    + destruct (Z.lt_ge_cases ((k + 1) * 64) (sz + 64)) as [Hk1|]; [|lia].
      destruct (IH (k + 1)) as (r & -> & Hr); [lia..|]. exists r. split; [done|].
      assert (forall i, k * 64 <= i < (k + 1) * 64 -> bit i = false) as Hz.
      { intros i Hi. replace i with (k * 64 + (i - k * 64)) by lia. rewrite (bit_of k 0) by (done || lia). apply Z.bits_0. }
      destruct (Z.le_gt_cases ((k + 1) * 64) sz); [apply first_bit_skip with ((k + 1) * 64); [lia|by intros; apply Hz|done|done]|].
      destruct Hr as (H1 & H2 & H3). split; [lia|]. split; [|done]. intros i Hi. apply Hz. lia.
    + eexists. split; [done|]. pose proof (found_in_word k w w (k * 64)) as Hf. unfold BITS_PER_LONG in Hf.
      rewrite (u64_small (k * 64)) in Hf by lia. apply Hf; try (done || lia).
      intros j Hj. destruct (Z.leb_spec (k * 64) (k * 64 + j)); [done|lia].
  - exists sz. split; [done|]. split; [lia|]. split; [intros; lia|lia].
Qed.

Lemma find_first_ok : exists r, FIND_FIRST_BIT fetch sz = Some r /\ first_bit bit 0 sz r.
Proof using Hsz Hfetch.
  pose proof (Z.div_mod sz 64 ltac:(lia)). pose proof (Z.mod_pos_bound sz 64 ltac:(lia)).
  apply (first_bit_loop_ok _ 0); [lia|lia|]. rewrite Z2Nat.id by lia. lia.
Qed.

Lemma zero_word_skip k lo tmp w : 0 <= k -> fetch k = Some w -> lo < (k + 1) * 64 -> tmp = 0 ->
  (forall j, 0 <= j < 64 -> Z.testbit tmp j = (lo <=? k * 64 + j) && Z.testbit w j) -> k * 64 <= lo ->
  forall i, lo <= i < (k + 1) * 64 -> bit i = false.
Proof using Type.
  intros Hk Hw Hlo -> Hbits Hle i Hi. replace i with (k * 64 + (i - k * 64)) by lia. rewrite (bit_of k w) by (done || lia).
  specialize (Hbits (i - k * 64) ltac:(lia)). rewrite Z.bits_0 in Hbits.
  destruct (Z.leb_spec lo (k * 64 + (i - k * 64))); [done|lia].
Qed.

Lemma next_bit_loop_ok n : forall k w tmp lo, 0 <= k -> k * 64 < sz -> sz < (k + Z.of_nat n) * 64 -> fetch k = Some w ->
  0 <= tmp < 2 ^ 64 -> k * 64 <= lo < (k + 1) * 64 -> lo < sz ->
  (forall j, 0 <= j < 64 -> Z.testbit tmp j = (lo <=? k * 64 + j) && Z.testbit w j) ->
  exists r, next_bit_loop fetch n k tmp sz = Some r /\ first_bit bit lo sz r.
Proof using Hsz Hfetch.
  induction n as [|n IH]; intros k w tmp lo Hk Hks Hn Hw Ht Hlo Hlosz Hbits; [lia|]. cbn [next_bit_loop].
  destruct (Z.eqb_spec tmp 0) as [->|Hne].
  - pose proof (zero_word_skip k lo 0 w Hk Hw ltac:(lia) eq_refl Hbits ltac:(lia)) as Hz.
    unfold BITS_PER_LONG. rewrite (u64_small ((k + 1) * 64)) by lia. destruct (Z.leb_spec sz ((k + 1) * 64)).
    + exists sz. split; [done|]. split; [lia|]. split; [|lia]. intros i Hi. apply Hz. lia.
    + destruct (Hfetch (k + 1)) as (w1 & Ew1 & Hw1); [lia..|]. rewrite Ew1. cbn [mbind option_bind].
      destruct (IH (k + 1) w1 w1 ((k + 1) * 64)) as (r & -> & Hr); try (done || lia).
      { intros j Hj. destruct (Z.leb_spec ((k + 1) * 64) ((k + 1) * 64 + j)); [done|lia]. }
      exists r. split; [done|]. apply first_bit_skip with ((k + 1) * 64); [lia| |lia|done]. intros i Hi _. by apply Hz.
  - eexists. split; [done|]. apply found_in_word with w; (done || lia).
Qed.

Lemma first_word_mask start j : 0 <= start < 2 ^ 63 -> 0 <= j < 64 ->
  Z.testbit (BITMAP_FIRST_WORD_MASK start) j = (start mod 64 <=? j).
Proof using Type.
  intros Hs Hj. unfold BITMAP_FIRST_WORD_MASK. rewrite u64_mod, Z.mod_pow2_bits_low by lia.
  change 63 with (Z.ones 6). rewrite Z.land_ones by lia. change (2 ^ 6) with 64.
  rewrite Z.shiftl_spec by lia. change (2 ^ 64 - 1) with (Z.ones 64). rewrite bit_ones by lia. pose proof (Z.mod_pos_bound start 64 ltac:(lia)).
  destruct (Z.leb_spec (start mod 64) j), (Z.leb_spec 0 (j - start mod 64)), (Z.ltb_spec (j - start mod 64) 64); done || lia.
Qed.

Lemma find_next_ok start : 0 <= start -> exists r, FIND_NEXT_BIT fetch sz start = Some r /\ first_bit bit start sz r.
Proof using Hsz Hfetch.
  intros Hstart. unfold FIND_NEXT_BIT. cbv zeta. destruct (Z.leb_spec sz start).
  { exists sz. split; [done|]. split; [lia|]. split; [intros; lia|lia]. }
  unfold BITS_PER_LONG. pose proof (Z.div_mod start 64 ltac:(lia)) as Hdm. pose proof (Z.mod_pos_bound start 64 ltac:(lia)).
  destruct (Hfetch (start / 64)) as (w & Ew & Hw); [lia..|]. rewrite Ew. cbn [mbind option_bind].
  pose proof (Z.div_mod sz 64 ltac:(lia)). pose proof (Z.mod_pos_bound sz 64 ltac:(lia)).
  apply next_bit_loop_ok with w; [lia|lia|rewrite Z2Nat.id by lia; lia|done|by apply land_range_l|lia|done|].
  - intros j Hj. rewrite Z.land_spec, first_word_mask by lia. rewrite andb_comm. f_equal.
    destruct (Z.leb_spec (start mod 64) j), (Z.leb_spec start (start / 64 * 64 + j)); done || lia.
Qed.
End find.

(** ** Bitmaps as sets *)

(** Words that hold [bits] bits, and a bit of theirs. *)
Definition holds (bits : Z) (bitmap : list Z) : Prop :=
  0 <= bits < 2 ^ 31 /\ bits <= 64 * Z.of_nat (length bitmap) /\ Forall (fun w => 0 <= w < 2 ^ 64) bitmap.
Definition test_bit (bitmap : list Z) (i : Z) : bool := fetched_bit (word bitmap) i.

Lemma holds_word bits bitmap k : holds bits bitmap -> 0 <= k -> k * 64 < bits -> exists w, idx bitmap k = Some w /\ 0 <= w < 2 ^ 64.
Proof.
  intros (_ & Hl & Hf) Hk Hlt. destruct (idx_range bitmap k) as [w Hw]; [lia|]. exists w. split; [done|].
  apply idx_inv in Hw as [_ Hw]. rewrite List.Forall_forall in Hf. apply Hf, list_elem_of_In. by eapply list_elem_of_lookup_2.
Qed.

Lemma and_word_ok bits a b k : holds bits a -> holds bits b -> 0 <= k -> k * 64 < bits ->
  exists w, and_word a b k = Some w /\ 0 <= w < 2 ^ 64.
Proof.
  intros Ha Hb Hk Hlt. destruct (holds_word _ _ _ Ha Hk Hlt) as (x & Ex & Hx), (holds_word _ _ _ Hb Hk Hlt) as (y & Ey & _).
  exists (x .& y). unfold and_word. rewrite Ex, Ey. split; [done|]. by apply land_range_l.
Qed.

Lemma not_word_ok bits a k : holds bits a -> 0 <= k -> k * 64 < bits -> exists w, not_word a k = Some w /\ 0 <= w < 2 ^ 64.
Proof.
  intros Ha Hk Hlt. destruct (holds_word _ _ _ Ha Hk Hlt) as (x & Ex & _). exists (u64 (.~ x)). unfold not_word. rewrite Ex.
  split; [done|]. apply u64_range.
Qed.

Lemma and_word_bit a b i : fetched_bit (and_word a b) i = test_bit a i && test_bit b i.
Proof.
  unfold fetched_bit, test_bit, fetched_bit, and_word, word. destruct (idx a (i / 64)); cbn [mbind option_bind]; [|done].
  destruct (idx b (i / 64)); cbn [mbind option_bind]; [apply Z.land_spec|by rewrite andb_false_r].
Qed.

Lemma not_word_bit bits a i : holds bits a -> 0 <= i < bits -> fetched_bit (not_word a) i = negb (test_bit a i).
Proof.
  intros Ha Hi. pose proof (Z.div_mod i 64 ltac:(lia)). pose proof (Z.mod_pos_bound i 64 ltac:(lia)).
  destruct (holds_word _ _ (i / 64) Ha) as (x & Ex & _); [lia..|]. unfold test_bit, fetched_bit, not_word, word. rewrite Ex.
  cbn [mbind option_bind]. rewrite u64_mod, Z.mod_pow2_bits_low by lia. apply Z.lnot_spec. lia.
Qed.

Lemma first_bit_ext (f g : Z -> bool) lo hi r : (forall i, 0 <= i < hi -> f i = g i) -> 0 <= lo ->
  first_bit f lo hi r -> first_bit g lo hi r.
Proof.
  intros Hfg Hlo (H1 & H2 & H3). split; [done|]. split.
  - intros i Hi. rewrite <- Hfg by lia. by apply H2.
  - intros Hr. rewrite <- Hfg by lia. by apply H3.
Qed.

(** ** Weights *)

Fixpoint popcount (n : nat) (w : Z) : Z :=
  match n with
  | O => 0
  | S n => popcount n w + Z.b2z (Z.testbit w (Z.of_nat n))
  end.

(** A number as a byte and the rest; masks and shifts, byte by byte. *)
Lemma land_bytes x m a b : 0 <= x < 256 -> 0 <= m < 256 -> (x + 256 * a) .& (m + 256 * b) = (x .& m) + 256 * (a .& b).
Proof.
  intros Hx Hm. rewrite !(Z.mul_comm 256). change 256 with (2 ^ 8).
  rewrite <- (lor_shiftl_add 8 x a), <- (lor_shiftl_add 8 m b), <- (lor_shiftl_add 8 (x .& m) (a .& b)) by (done || by apply land_range_l).
  apply Z.bits_inj'. intros i Hi. rewrite !Z.land_spec, !Z.lor_spec, !Z.shiftl_spec, !Z.land_spec by done.
  destruct (Z.lt_ge_cases i 8).
  - rewrite (Z.testbit_neg_r a), (Z.testbit_neg_r b) by lia. by rewrite !orb_false_r.
  - rewrite (testbit_high 8 x), (testbit_high 8 m) by (done || lia). done.
Qed.

Lemma shiftr_bytes x a k : 0 <= k <= 8 -> (x + 256 * a) .>> k = ((x + 256 * (a mod 2 ^ k)) .>> k) + 256 * (a .>> k).
Proof.
  intros Hk. rewrite !Z.shiftr_div_pow2 by lia. assert (0 < 2 ^ k) by lia.
  rewrite <- Z.div_add by lia. f_equal. rewrite (Z.div_mod a (2 ^ k)) at 1 by lia. lia.
Qed.

(** The three steps on a byte, of which [c] are the low bits of the next. *)
Definition step1 (x c : Z) : Z := x - (((x + 256 * c) .>> 1) .& 0x55).
Definition step2 (x c : Z) : Z := (x .& 0x33) + (((x + 256 * c) .>> 2) .& 0x33).
Definition step3 (x c : Z) : Z := (x + ((x + 256 * c) .>> 4)) .& 0x0f.
Definition byte_weight (x : Z) : Z := step3 (step2 (step1 x 0) 0) 0.

Definition pairs (x : Z) : bool := forallb (fun k => ((x .>> k) .& 3) <=? 2) [0; 2; 4; 6].
Definition nibbles (x : Z) : bool := (x .& 15 <=? 4) && (x .>> 4 <=? 4).
Definition upto (n : Z) : list Z := List.map Z.of_nat (List.seq 0 (Z.to_nat n)).
Lemma in_upto n x : 0 <= x < n -> In x (upto n).
Proof. intros Hx. apply in_map_iff. exists (Z.to_nat x). split; [lia|]. apply in_seq. lia. Qed.

(** A statement about two small numbers, by trying all. *)
Lemma by_cases (P : Z -> Z -> bool) n m x c : forallb (fun x => forallb (P x) (upto m)) (upto n) = true ->
  0 <= x < n -> 0 <= c < m -> P x c = true.
Proof.
  intros Hall Hx Hc. rewrite forallb_forall in Hall. specialize (Hall x (in_upto _ _ Hx)). rewrite forallb_forall in Hall.
  by apply Hall, in_upto.
Qed.

Lemma step1_ok x c : 0 <= x < 256 -> 0 <= c < 2 -> step1 x c = step1 x 0 /\ 0 <= step1 x 0 < 256 /\ pairs (step1 x 0) = true.
Proof.
  intros Hx Hc. pose proof (by_cases (fun x c => (step1 x c =? step1 x 0) && (0 <=? step1 x 0) && (step1 x 0 <? 256) && pairs (step1 x 0)) 256 2 x c
    ltac:(vm_compute; reflexivity) Hx Hc) as Hp. cbn beta in Hp. apply andb_true_iff in Hp as [Hp ->]. lia.
Qed.
Lemma step2_ok x c : 0 <= x < 256 -> pairs x = true -> 0 <= c < 4 ->
  step2 x c = step2 x 0 /\ 0 <= step2 x 0 < 256 /\ nibbles (step2 x 0) = true.
Proof.
  intros Hx Hx2 Hc. pose proof (by_cases (fun x c => negb (pairs x) || ((step2 x c =? step2 x 0) && (0 <=? step2 x 0) && (step2 x 0 <? 256)
    && nibbles (step2 x 0))) 256 4 x c ltac:(vm_compute; reflexivity) Hx Hc) as Hp. cbn beta in Hp. rewrite Hx2 in Hp. cbn [negb orb] in Hp. apply andb_true_iff in Hp as [Hp ->]. lia.
Qed.
Lemma step3_ok x c : 0 <= x < 256 -> nibbles x = true -> 0 <= c <= 4 ->
  step3 x c = step3 x 0 /\ 0 <= x + ((x + 256 * c) .>> 4) < 256.
Proof.
  intros Hx Hn Hc. pose proof (by_cases (fun x c => negb (nibbles x) || ((step3 x c =? step3 x 0) && (0 <=? x + ((x + 256 * c) .>> 4))
    && (x + ((x + 256 * c) .>> 4) <? 256))) 256 5 x c ltac:(vm_compute; reflexivity) Hx ltac:(lia)) as Hp. cbn beta in Hp. rewrite Hn in Hp.
  cbn [negb orb] in Hp. lia.
Qed.
Lemma byte_weight_ok x : 0 <= x < 256 -> byte_weight x = popcount 8 x /\ 0 <= popcount 8 x <= 8.
Proof.
  intros Hx. pose proof (by_cases (fun x _ => (byte_weight x =? popcount 8 x) && (0 <=? popcount 8 x) && (popcount 8 x <=? 8)) 256 1 x 0
    ltac:(vm_compute; reflexivity) Hx ltac:(lia)) as Hp. cbn beta in Hp. lia.
Qed.

(** The steps on words of [n] bytes. *)
Fixpoint rep (n : nat) (m : Z) : Z := match n with O => 0 | S n => m + 256 * rep n m end.
Fixpoint val (l : list Z) : Z := match l with [] => 0 | x :: l => x + 256 * val l end.
Definition word1 (n : nat) (w : Z) : Z := w - ((w .>> 1) .& rep n 0x55).
Definition word2 (n : nat) (w : Z) : Z := (w .& rep n 0x33) + ((w .>> 2) .& rep n 0x33).
Definition word3 (n : nat) (w : Z) : Z := (w + (w .>> 4)) .& rep n 0x0f.
Definition bytes (l : list Z) : Prop := Forall (fun x => 0 <= x < 256) l.

Lemma low_bound x a k : 0 <= k <= 8 -> 0 <= x < 256 -> 0 <= (x + 256 * (a mod 2 ^ k)) .>> k < 256.
Proof.
  intros Hk Hx. assert (0 < 2 ^ k) by lia. pose proof (Z.mod_pos_bound a (2 ^ k) ltac:(lia)). rewrite Z.shiftr_div_pow2 by lia.
  split; [apply Z.div_pos; nia|]. apply Z.div_lt_upper_bound; nia.
Qed.

Lemma word1_bytes l : bytes l -> word1 (length l) (val l) = val (List.map (fun x => step1 x 0) l).
Proof.
  induction 1 as [|x l Hx Hl IH]; [done|]. cbn [length val List.map]. rewrite <- IH. unfold word1. cbn [rep].
  rewrite shiftr_bytes by lia. rewrite land_bytes by (by apply low_bound || lia). change (2 ^ 1) with 2.
  pose proof (Z.mod_pos_bound (val l) 2 ltac:(lia)) as Hc. destruct (step1_ok x _ Hx Hc) as [<- _]. unfold step1. lia.
Qed.

Lemma word2_bytes l : bytes l -> Forall (fun x => pairs x = true) l -> word2 (length l) (val l) = val (List.map (fun x => step2 x 0) l).
Proof.
  induction 1 as [|x l Hx Hl IH]; intros Hn; [done|]. apply List.Forall_cons_iff in Hn as [Hnx Hnl].
  cbn [length val List.map]. rewrite <- IH by done. unfold word2. cbn [rep].
  rewrite shiftr_bytes by lia. rewrite !land_bytes by (by apply low_bound || lia). change (2 ^ 2) with 4.
  pose proof (Z.mod_pos_bound (val l) 4 ltac:(lia)) as Hc. destruct (step2_ok x _ Hx Hnx Hc) as [<- _]. unfold step2. lia.
Qed.

Lemma word3_bytes l : bytes l -> Forall (fun x => nibbles x = true) l -> word3 (length l) (val l) = val (List.map (fun x => step3 x 0) l).
Proof.
  induction 1 as [|x l Hx Hl IH]; intros Hn; [done|]. apply List.Forall_cons_iff in Hn as [Hnx Hnl].
  cbn [length val List.map]. rewrite <- IH by done. unfold word3. cbn [rep]. rewrite shiftr_bytes by lia. change (2 ^ 4) with 16.
  assert (0 <= val l mod 16 <= 4) as Hc.
  { destruct Hl as [|y l Hy Hl]; [done|]. apply List.Forall_cons_iff in Hnl as [Hny _]. cbn [val].
    replace (y + 256 * val l) with (y + (16 * val l) * 16) by lia. rewrite Z.mod_add by lia.
    apply andb_true_iff in Hny as [Hny _]. change 15 with (Z.ones 4) in Hny. rewrite Z.land_ones in Hny by lia. change (2 ^ 4) with 16 in Hny.
    pose proof (Z.mod_pos_bound y 16 ltac:(lia)). lia. }
  destruct (step3_ok x _ Hx Hnx Hc) as [Es Hlow]. set (y := (x + 256 * (val l mod 16)) .>> 4) in *.
  replace (x + 256 * val l + (y + 256 * (val l .>> 4))) with (x + y + 256 * (val l + (val l .>> 4))) by lia.
  rewrite land_bytes by lia. rewrite <- Es. done.
Qed.

Lemma word_weight l : bytes l -> exists l1 l2, bytes l1 /\ bytes l2 /\ length l1 = length l /\ length l2 = length l /\
  word1 (length l) (val l) = val l1 /\ word2 (length l) (val l1) = val l2 /\ word3 (length l) (val l2) = val (List.map (popcount 8) l).
Proof.
  intros Hl. exists (List.map (fun x => step1 x 0) l), (List.map (fun x => step2 (step1 x 0) 0) l).
  assert (Forall (fun x => 0 <= step1 x 0 < 256 /\ pairs (step1 x 0) = true /\ 0 <= step2 (step1 x 0) 0 < 256 /\
    nibbles (step2 (step1 x 0) 0) = true /\ byte_weight x = popcount 8 x) l) as Hall.
  { eapply List.Forall_impl; [|exact Hl]. intros x Hx. destruct (step1_ok x 0 Hx ltac:(lia)) as (_ & H1 & H2).
    destruct (step2_ok (step1 x 0) 0 H1 H2 ltac:(lia)) as (_ & H3 & H4). destruct (byte_weight_ok x Hx) as [H5 _].
    exact (conj H1 (conj H2 (conj H3 (conj H4 H5)))). }
  assert (bytes (List.map (fun x => step1 x 0) l)) as Hl1 by (apply List.Forall_map; eapply List.Forall_impl; [|exact Hall]; by intros x [? ?]).
  assert (bytes (List.map (fun x => step2 (step1 x 0) 0) l)) as Hl2
    by (apply List.Forall_map; eapply List.Forall_impl; [|exact Hall]; by intros x (? & ? & ? & ?)).
  split; [done|]. split; [done|]. rewrite !List.length_map. split; [done|]. split; [done|]. split; [by apply word1_bytes|]. split.
  - rewrite <- (List.length_map (fun x => step1 x 0) l). rewrite word2_bytes; [by rewrite List.map_map|done|].
    apply List.Forall_map. eapply List.Forall_impl; [|exact Hall]. by intros x (? & ? & ?).
  - rewrite <- (List.length_map (fun x => step2 (step1 x 0) 0) l). rewrite word3_bytes; [|done|].
    + rewrite List.map_map. f_equal. apply List.map_ext_in. intros x Hx. rewrite List.Forall_forall in Hall. by apply Hall.
    + apply List.Forall_map. eapply List.Forall_impl; [|exact Hall]. by intros x (? & ? & ? & ? & ?).
Qed.

Fixpoint bytes_of (n : nat) (w : Z) : list Z := match n with O => [] | S n => w mod 256 :: bytes_of n (w / 256) end.

Lemma bytes_of_bytes n : forall w, bytes (bytes_of n w).
Proof. induction n as [|n IH]; intros w; [constructor|]. cbn [bytes_of]. constructor; [apply Z.mod_pos_bound; lia|apply IH]. Qed.
Lemma bytes_of_length n : forall w, length (bytes_of n w) = n.
Proof. induction n as [|n IH]; intros w; cbn; [done|]. by rewrite IH. Qed.
Lemma val_bytes_of n : forall w, 0 <= w < 256 ^ Z.of_nat n -> val (bytes_of n w) = w.
Proof.
  induction n as [|n IH]; intros w Hw; [cbn in Hw |- *; lia|]. cbn [bytes_of val]. rewrite Nat2Z.inj_succ, Z.pow_succ_r in Hw by lia.
  pose proof (Z.div_mod w 256 ltac:(lia)). rewrite IH; [lia|]. split; [apply Z.div_pos; lia|apply Z.div_lt_upper_bound; lia].
Qed.
Lemma val_range l : bytes l -> 0 <= val l < 256 ^ Z.of_nat (length l).
Proof. induction 1 as [|x l Hx Hl IH]; [done|]. cbn [val length]. rewrite Nat2Z.inj_succ, Z.pow_succ_r by lia. lia. Qed.

Lemma popcount_bytes x a m : 0 <= x < 256 -> popcount (8 + m) (x + 256 * a) = popcount 8 x + popcount m a.
Proof.
  intros Hx. change 256 with (2 ^ 8). rewrite <- (Z.mul_comm a), <- (lor_shiftl_add 8) by done.
  induction m as [|m IH].
  - rewrite Nat.add_0_r, Z.add_0_r. cbn [popcount]. rewrite !Z.lor_spec, !Z.shiftl_spec by lia.
    rewrite !(Z.testbit_neg_r a) by lia. by rewrite !orb_false_r.
  - rewrite Nat.add_succ_r. set (p := popcount 8 x) in *. cbn [popcount]. rewrite IH, Z.lor_spec, Z.shiftl_spec by lia.
    rewrite (testbit_high 8 x) by lia. cbn [orb]. replace (Z.of_nat (8 + m) - 8) with (Z.of_nat m) by lia. lia.
Qed.

Lemma popcount_val l : bytes l -> popcount (8 * length l) (val l) = fold_right Z.add 0 (List.map (popcount 8) l).
Proof.
  induction 1 as [|x l Hx Hl IH]; [done|]. cbn [length val List.map fold_right]. rewrite <- IH.
  replace (8 * S (length l))%nat with (8 + 8 * length l)%nat by lia. by apply popcount_bytes.
Qed.

Lemma wrap_land w m n : 0 <= m < 2 ^ n -> 0 <= n -> wrap n w .& m = w .& m.
Proof.
  intros Hm Hn. unfold wrap. rewrite <- Z.land_assoc. f_equal. rewrite Z.land_comm, Z.land_ones by done. by apply Z.mod_small.
Qed.

Lemma hweight_bytes n w : 0 <= w < 256 ^ Z.of_nat n -> exists l a b, length l = n /\ Forall (fun c => 0 <= c <= 8) l /\
  0 <= a < 256 ^ Z.of_nat n /\ 0 <= b < 256 ^ Z.of_nat n /\ word1 n w = a /\ word2 n a = b /\ word3 n b = val l /\
  popcount (8 * n) w = fold_right Z.add 0 l.
Proof.
  intros Hw. pose proof (bytes_of_bytes n w) as Hl. pose proof (val_bytes_of n w Hw) as Ev. pose proof (bytes_of_length n w) as Hn.
  destruct (word_weight _ Hl) as (l1 & l2 & H1 & H2 & L1 & L2 & E1 & E2 & E3). pose proof (popcount_val _ Hl) as Ep.
  rewrite Hn, Ev in *. exists (List.map (popcount 8) (bytes_of n w)), (val l1), (val l2).
  split; [by rewrite List.length_map|]. split.
  { apply List.Forall_map. eapply List.Forall_impl; [|exact Hl]. intros x Hx. by apply byte_weight_ok. }
  split; [rewrite <- L1; by apply val_range|]. split; [rewrite <- L2; by apply val_range|]. done.
Qed.

Ltac take_bytes l :=
  repeat (destruct l as [|? l]; [discriminate|]); destruct l; [|discriminate];
  repeat match goal with Hl : Forall _ (_ :: _) |- _ => apply List.Forall_cons_iff in Hl as [? Hl] end.

Lemma shift_sum lo hi k : 0 <= lo < 2 ^ k -> 0 <= k -> (lo + 2 ^ k * hi) .>> k = hi.
Proof. intros Hlo Hk. rewrite Z.shiftr_div_pow2 by done. symmetry. apply Z.div_unique with lo; lia. Qed.

(** Eight small bytes, and four, added up by shifts. *)
Lemma low_byte lo hi : 0 <= lo < 256 -> (lo + 256 * hi) .& 255 = lo.
Proof.
  intros Hlo. change 255 with (Z.ones 8). rewrite Z.land_ones by lia. change (2 ^ 8) with 256.
  rewrite (Z.mul_comm 256), Z.mod_add by lia. by apply Z.mod_small.
Qed.

Definition small (c : Z) : Prop := 0 <= c <= 8.
Lemma sum8 c0 c1 c2 c3 c4 c5 c6 c7 : small c0 -> small c1 -> small c2 -> small c3 -> small c4 -> small c5 -> small c6 -> small c7 ->
  let r := val [c0; c1; c2; c3; c4; c5; c6; c7] in let r1 := u64 (r + (r .>> 8)) in let r2 := u64 (r1 + (r1 .>> 16)) in
  (r2 + (r2 .>> 32)) .& 255 = c0 + c1 + c2 + c3 + c4 + c5 + c6 + c7.
Proof.
  intros H0 H1 H2 H3 H4 H5 H6 H7 r. unfold small in *.
  assert (r .>> 8 = val [c1; c2; c3; c4; c5; c6; c7]) as ->.
  { replace r with (c0 + 2 ^ 8 * val [c1; c2; c3; c4; c5; c6; c7]) by (cbn [val r]; lia). apply shift_sum; lia. }
  set (r1' := val [c0 + c1; c1 + c2; c2 + c3; c3 + c4; c4 + c5; c5 + c6; c6 + c7; c7]).
  assert (u64 (r + val [c1; c2; c3; c4; c5; c6; c7]) = r1') as -> by (rewrite u64_small; subst r r1'; cbn [val]; lia). clear r. cbv zeta.
  set (h1 := val [c2 + c3; c3 + c4; c4 + c5; c5 + c6; c6 + c7; c7]).
  assert (r1' .>> 16 = h1) as ->.
  { replace r1' with (c0 + c1 + 256 * (c1 + c2) + 2 ^ 16 * h1) by (subst r1' h1; cbn [val]; lia). apply shift_sum; lia. }
  set (r2' := val [c0 + c1 + c2 + c3; c1 + c2 + c3 + c4; c2 + c3 + c4 + c5; c3 + c4 + c5 + c6; c4 + c5 + c6 + c7; c5 + c6 + c7; c6 + c7; c7]).
  assert (u64 (r1' + h1) = r2') as -> by (rewrite u64_small; subst r1' h1 r2'; cbn [val]; lia). clear r1' h1.
  set (h2 := val [c4 + c5 + c6 + c7; c5 + c6 + c7; c6 + c7; c7]).
  assert (r2' .>> 32 = h2) as ->.
  { replace r2' with (c0 + c1 + c2 + c3 + 256 * (c1 + c2 + c3 + c4 + 256 * (c2 + c3 + c4 + c5 + 256 * (c3 + c4 + c5 + c6))) + 2 ^ 32 * h2)
      by (subst r2' h2; cbn [val]; lia). apply shift_sum; lia. }
  replace (r2' + h2) with (c0 + c1 + c2 + c3 + c4 + c5 + c6 + c7 + 256 * (val (tl [c0; c1 + c2 + c3 + c4; c2 + c3 + c4 + c5; c3 + c4 + c5 + c6;
    c4 + c5 + c6 + c7; c5 + c6 + c7; c6 + c7; c7]) + val [c5 + c6 + c7; c6 + c7; c7])) by (subst r2' h2; cbn [val tl]; lia).
  apply low_byte. lia.
Qed.

Lemma hweight64_popcount w : 0 <= w < 2 ^ 64 -> __sw_hweight64 w = popcount 64 w.
Proof.
  intros Hw. destruct (hweight_bytes 8 w Hw) as (l & a & b & Hn & Hl & Ha & Hb & Ea & Eb & Ec & Ep).
  change (256 ^ Z.of_nat 8) with (2 ^ 64) in *. change (8 * 8)%nat with 64%nat in Ep. rewrite Ep.
  unfold __sw_hweight64. change (w - (w .>> 1 .& 0x5555555555555555)) with (word1 8 w). rewrite Ea, (u64_small a) by done. cbv zeta.
  change ((a .& 0x3333333333333333) + (a .>> 2 .& 0x3333333333333333)) with (word2 8 a). rewrite Eb, (u64_small b) by done.
  change (u64 (b + (b .>> 4))) with (wrap 64 (b + (b .>> 4))). rewrite !wrap_land by lia.
  change ((b + (b .>> 4)) .& 0x0F0F0F0F0F0F0F0F) with (word3 8 b). rewrite Ec. clear -Hl Hn. take_bytes l.
  rewrite sum8 by done. cbn [fold_right]. lia.
Qed.

Lemma sum4 c0 c1 c2 c3 : small c0 -> small c1 -> small c2 -> small c3 ->
  let r := val [c0; c1; c2; c3] in let r1 := u32 (r + (r .>> 8)) in (r1 + (r1 .>> 16)) .& 255 = c0 + c1 + c2 + c3.
Proof.
  intros H0 H1 H2 H3 r. unfold small in *.
  assert (r .>> 8 = val [c1; c2; c3]) as ->.
  { replace r with (c0 + 2 ^ 8 * val [c1; c2; c3]) by (cbn [val r]; lia). apply shift_sum; lia. }
  set (r1' := val [c0 + c1; c1 + c2; c2 + c3; c3]).
  assert (u32 (r + val [c1; c2; c3]) = r1') as -> by (rewrite u32_small; subst r r1'; cbn [val]; lia). clear r. cbv zeta.
  assert (r1' .>> 16 = val [c2 + c3; c3]) as ->.
  { replace r1' with (c0 + c1 + 256 * (c1 + c2) + 2 ^ 16 * val [c2 + c3; c3]) by (subst r1'; cbn [val]; lia). apply shift_sum; lia. }
  replace (r1' + val [c2 + c3; c3]) with (c0 + c1 + c2 + c3 + 256 * val [c1 + c2 + c3; c2 + c3; c3]) by (subst r1'; cbn [val]; lia).
  apply low_byte. lia.
Qed.

Lemma hweight32_popcount w : 0 <= w < 2 ^ 32 -> __sw_hweight32 w = popcount 32 w.
Proof.
  intros Hw. destruct (hweight_bytes 4 w Hw) as (l & a & b & Hn & Hl & Ha & Hb & Ea & Eb & Ec & Ep).
  change (256 ^ Z.of_nat 4) with (2 ^ 32) in *. change (8 * 4)%nat with 32%nat in Ep. rewrite Ep.
  unfold __sw_hweight32. change (w - (w .>> 1 .& 0x55555555)) with (word1 4 w). rewrite Ea, (u32_small a) by done. cbv zeta.
  change ((a .& 0x33333333) + (a .>> 2 .& 0x33333333)) with (word2 4 a). rewrite Eb, (u32_small b) by done.
  change (u32 (b + (b .>> 4))) with (wrap 32 (b + (b .>> 4))). rewrite !wrap_land by lia.
  change ((b + (b .>> 4)) .& 0x0F0F0F0F) with (word3 4 b). rewrite Ec. clear -Hl Hn. take_bytes l.
  rewrite sum4 by done. cbn [fold_right]. lia.
Qed.

Lemma hweight16_popcount w : 0 <= w < 2 ^ 16 -> __sw_hweight16 w = popcount 16 w.
Proof.
  intros Hw. destruct (hweight_bytes 2 w Hw) as (l & a & b & Hn & Hl & Ha & Hb & Ea & Eb & Ec & Ep).
  change (256 ^ Z.of_nat 2) with (2 ^ 16) in *. change (8 * 2)%nat with 16%nat in Ep. rewrite Ep.
  unfold __sw_hweight16. change (w - (w .>> 1 .& 0x5555)) with (word1 2 w). rewrite Ea, (u32_small a) by lia. cbv zeta.
  change ((a .& 0x3333) + (a .>> 2 .& 0x3333)) with (word2 2 a). rewrite Eb, (u32_small b) by lia.
  change (u32 (b + (b .>> 4))) with (wrap 32 (b + (b .>> 4))). rewrite !wrap_land by lia.
  change ((b + (b .>> 4)) .& 0x0F0F) with (word3 2 b). rewrite Ec. clear -Hl Hn. take_bytes l. cbn [val fold_right].
  replace (z + 256 * (z0 + 256 * 0)) with (z + 2 ^ 8 * z0) by lia. rewrite shift_sum by lia.
  replace (z + 2 ^ 8 * z0 + z0) with (z + z0 + 256 * z0) by lia. rewrite low_byte by lia. lia.
Qed.

Lemma hweight8_popcount w : 0 <= w < 2 ^ 8 -> __sw_hweight8 w = popcount 8 w.
Proof.
  intros Hw. destruct (hweight_bytes 1 w Hw) as (l & a & b & Hn & Hl & Ha & Hb & Ea & Eb & Ec & Ep).
  change (256 ^ Z.of_nat 1) with (2 ^ 8) in *. change (8 * 1)%nat with 8%nat in Ep. rewrite Ep.
  unfold __sw_hweight8. change (w - (w .>> 1 .& 0x55)) with (word1 1 w). rewrite Ea, (u32_small a) by lia. cbv zeta.
  change ((a .& 0x33) + (a .>> 2 .& 0x33)) with (word2 1 a). rewrite Eb, (u32_small b) by lia.
  change (u32 (b + (b .>> 4))) with (wrap 32 (b + (b .>> 4))). rewrite !wrap_land by lia.
  change ((b + (b .>> 4)) .& 0x0F) with (word3 1 b). rewrite Ec. clear -Hl Hn. take_bytes l. cbn [val fold_right]. lia.
Qed.

(** ** Words and sets *)

Lemma test_bit_word bitmap k w j : idx bitmap k = Some w -> 0 <= j < 64 -> test_bit bitmap (k * 64 + j) = Z.testbit w j.
Proof. intros Hw Hj. by apply (bit_of (word bitmap)). Qed.

Lemma bit_split i : 0 <= i -> i = (i / 64) * 64 + i mod 64 /\ 0 <= i mod 64 < 64 /\ 0 <= i / 64.
Proof. intros Hi. pose proof (Z.div_mod i 64 ltac:(lia)). pose proof (Z.mod_pos_bound i 64 ltac:(lia)). lia. Qed.

(** The mask of the last word, when it is not whole. *)
Lemma last_word_mask bits j : 0 <= bits < 2 ^ 31 -> bits mod 64 <> 0 -> 0 <= j ->
  Z.testbit (BITMAP_LAST_WORD_MASK bits) j = (j <? bits mod 64).
Proof.
  intros Hb Hm Hj. unfold BITMAP_LAST_WORD_MASK. pose proof (Z.mod_pos_bound bits 64 ltac:(lia)) as Hmb.
  change 63 with (Z.ones 6). rewrite Z.land_ones by lia. change (2 ^ 6) with 64.
  assert (u32 (- bits) mod 64 = 64 - bits mod 64) as ->.
  { rewrite (wrap_mod 32) by lia. symmetry. apply Z.mod_unique with ((- bits) mod 2 ^ 32 / 64); [lia|].
    pose proof (Z.div_mod bits 64 ltac:(lia)) as Hd.
    assert ((- bits) mod 2 ^ 32 = if bits =? 0 then 0 else 2 ^ 32 - bits) as ->.
    { destruct (Z.eqb_spec bits 0) as [->|]; [done|]. symmetry. apply Z.mod_unique with (-1); lia. }
    destruct (Z.eqb_spec bits 0) as [->|]; [done|].
    replace ((2 ^ 32 - bits) / 64) with (2 ^ 26 - bits / 64 - 1) by (apply Z.div_unique with (64 - bits mod 64); lia). lia. }
  rewrite Z.shiftr_spec by done. change (2 ^ 64 - 1) with (Z.ones 64). rewrite bit_ones by lia.
  destruct (Z.leb_spec 0 (j + (64 - bits mod 64))), (Z.ltb_spec (j + (64 - bits mod 64)) 64), (Z.ltb_spec j (bits mod 64)); done || lia.
Qed.

(** ** Weight *)

Fixpoint count (f : Z -> bool) (lo : Z) (n : nat) : Z :=
  match n with
  | O => 0
  | S n => count f lo n + Z.b2z (f (lo + Z.of_nat n))
  end.

Lemma count_app f lo n m : count f lo (n + m) = count f lo n + count f (lo + Z.of_nat n) m.
Proof.
  induction m as [|m IH]; [rewrite Nat.add_0_r; cbn; lia|]. rewrite Nat.add_succ_r. cbn [count]. rewrite IH.
  replace (lo + Z.of_nat (n + m)) with (lo + Z.of_nat n + Z.of_nat m) by lia. lia.
Qed.
Lemma count_range f lo n : 0 <= count f lo n <= Z.of_nat n.
Proof. induction n as [|n IH]; cbn [count]; [lia|]. destruct (f _); cbn [Z.b2z]; lia. Qed.
Lemma popcount_count w f lo n : (forall j, 0 <= j < Z.of_nat n -> Z.testbit w j = f (lo + j)) -> popcount n w = count f lo n.
Proof.
  induction n as [|n IH]; intros Hj; [done|]. cbn [popcount count]. rewrite IH by (intros; apply Hj; lia). by rewrite Hj by lia.
Qed.
Lemma popcount_high w n m : (forall j, Z.of_nat n <= j -> Z.testbit w j = false) -> popcount (n + m) w = popcount n w.
Proof.
  intros Hj. induction m as [|m IH]; [by rewrite Nat.add_0_r|]. rewrite Nat.add_succ_r. cbn [popcount]. rewrite IH, Hj by lia.
  cbn [Z.b2z]. lia.
Qed.

Lemma weight_loop_ok bits bitmap n : holds bits bitmap -> forall k w, 0 <= k -> (k + Z.of_nat n) * 64 <= bits -> 0 <= w -> w + Z.of_nat n * 64 < 2 ^ 32 ->
  weight_loop bitmap n k w = Some (w + count (test_bit bitmap) (k * 64) (n * 64)).
Proof.
  intros Hh. induction n as [|n IH]; intros k w Hk Hn Hw Hlim; cbn [weight_loop]; [cbn [count Nat.mul]; f_equal; lia|].
  destruct (holds_word _ _ k Hh) as (x & Ex & Hx); [lia..|]. rewrite Ex. cbn [mbind option_bind]. rewrite hweight64_popcount by done.
  rewrite (popcount_count x (test_bit bitmap) (k * 64)) by (intros j Hj; by rewrite (test_bit_word _ _ x)).
  pose proof (count_range (test_bit bitmap) (k * 64) 64) as Hc. rewrite u32_small by lia.
  rewrite IH by lia. change (S n * 64)%nat with (64 + n * 64)%nat. rewrite count_app.
  replace (k * 64 + Z.of_nat 64) with ((k + 1) * 64) by lia. f_equal. lia.
Qed.

Lemma weight_ok bits bitmap : holds bits bitmap -> __bitmap_weight bitmap bits = Some (count (test_bit bitmap) 0 (Z.to_nat bits)).
Proof.
  intros Hh. pose proof Hh as ([H0 Hlt] & Hl & _). unfold __bitmap_weight, BITS_PER_LONG. cbv zeta.
  destruct (bit_split bits H0) as (Hd & Hm & Hq). set (q := bits / 64) in *. set (m := bits mod 64) in *.
  rewrite (weight_loop_ok bits) by (done || lia). cbn [mbind option_bind]. rewrite !Z.add_0_l, Z.mul_0_l.
  destruct (Z.eqb_spec m 0) as [Em|Em]; [do 2 f_equal; lia|].
  destruct (holds_word _ _ q Hh) as (x & Ex & Hx); [lia..|]. rewrite Ex. cbn [mbind option_bind].
  rewrite hweight64_popcount by (by apply land_range_l).
  change 64%nat with (id 64%nat) at 2.
  replace (id 64%nat) with (Z.to_nat m + (64 - Z.to_nat m))%nat by (unfold id; lia). rewrite popcount_high.
  2:{ intros j Hj. rewrite Z.land_spec, last_word_mask by (done || lia). fold m. destruct (Z.ltb_spec j m); [lia|]. apply andb_false_r. }
  rewrite (popcount_count _ (test_bit bitmap) (q * 64)).
  2:{ intros j Hj. rewrite Z.land_spec, last_word_mask by (done || lia). fold m. rewrite (test_bit_word _ _ x) by (done || lia).
      destruct (Z.ltb_spec j m); [by rewrite andb_true_r|lia]. }
  pose proof (count_range (test_bit bitmap) 0 (Z.to_nat q * 64)). pose proof (count_range (test_bit bitmap) (q * 64) (Z.to_nat m)).
  rewrite u32_small by lia. replace (Z.to_nat bits) with (Z.to_nat q * 64 + Z.to_nat m)%nat by lia. rewrite count_app.
  do 2 f_equal. f_equal. lia.
Qed.

(** ** Operations on sets *)

(** The words from [k] to [m] of [r] are those of [f], the rest those of [dst]. *)
Definition words_set (f : Z -> option Z) (dst r : list Z) (k m : Z) : Prop :=
  length r = length dst /\ forall j, idx r j = if (k <=? j) && (j <? m) then f j else idx dst j.
Definition or_word (a b : list Z) (i : Z) : option Z := x ← idx a i; y ← idx b i; Some (x .| y).

Lemma words_set_none f dst k : words_set f dst dst k k.
Proof. split; [done|]. intros j. destruct (Z.leb_spec k j), (Z.ltb_spec j k); done || lia. Qed.

Lemma words_set_cons f dst r k m w : 0 <= k < m -> k < Z.of_nat (length dst) -> f k = Some w ->
  words_set f (<[Z.to_nat k := w]> dst) r (k + 1) m -> words_set f dst r k m.
Proof.
  intros Hk Hl Hf [Hlen Hr]. split; [by rewrite Hlen, length_insert|]. intros j. rewrite Hr, idx_insert by lia.
  destruct (Z.leb_spec (k + 1) j), (Z.leb_spec k j), (Z.ltb_spec j m), (Z.eqb_spec j k); subst; cbn [andb]; done || lia.
Qed.

Lemma words_set_trans f g dst r1 r k q m : words_set f dst r1 k q -> words_set g r1 r q m -> k <= q <= m ->
  (forall j, k <= j < q -> f j = g j) -> words_set g dst r k m.
Proof.
  intros [L1 H1] [L2 H2] Hq Hfg. split; [by rewrite L2|]. intros j. rewrite H2, H1.
  destruct (Z.leb_spec q j), (Z.ltb_spec j m), (Z.leb_spec k j), (Z.ltb_spec j q); cbn [andb]; try (done || lia). by apply Hfg.
Qed.

Lemma or_loop_ok bits a b n : holds bits a -> holds bits b -> forall k dst, 0 <= k -> (k + Z.of_nat n - 1) * 64 < bits ->
  k + Z.of_nat n <= Z.of_nat (length dst) ->
  exists r, or_loop dst a b n k = Some r /\ words_set (or_word a b) dst r k (k + Z.of_nat n).
Proof.
  intros Ha Hb. induction n as [|n IH]; intros k dst Hk Hn Hd; cbn [or_loop].
  { exists dst. split; [done|]. rewrite Z.add_0_r. apply words_set_none. }
  destruct (holds_word _ _ k Ha) as (x & Ex & _), (holds_word _ _ k Hb) as (y & Ey & _); [lia..|].
  rewrite Ex, Ey. cbn [mbind option_bind]. rewrite set_at_eq by lia. cbn [mbind option_bind].
  destruct (IH (k + 1) (<[Z.to_nat k := x .| y]> dst)) as (r & -> & Hr); [lia|lia|rewrite length_insert; lia|].
  exists r. split; [done|]. replace (k + 1 + Z.of_nat n) with (k + Z.of_nat (S n)) in Hr by lia.
  apply words_set_cons with (x .| y); [lia|lia| |done]. unfold or_word. by rewrite Ex, Ey.
Qed.

(** Some bit of words [k] to [m] is in both. *)
Definition common (a b : list Z) (lo hi : Z) : Prop := exists i, lo <= i < hi /\ test_bit a i = true /\ test_bit b i = true.

Lemma masked_common a b k m x y w : 0 <= m <= 64 -> idx a k = Some x -> idx b k = Some y -> 0 <= w < 2 ^ 64 ->
  (forall j, 0 <= j < 64 -> Z.testbit w j = (j <? m) && Z.testbit x j && Z.testbit y j) ->
  w <> 0 <-> common a b (k * 64) (k * 64 + m).
Proof.
  intros Hm Ex Ey Hw Hbits. split.
  - intros Hne. destruct (some_bit w) as (j & Hj & Hb); [lia|done|].
    assert (j < 64) as Hlt. { destruct (Z.lt_ge_cases j 64); [done|]. rewrite word_high in Hb by lia. done. }
    rewrite Hbits in Hb by lia. apply andb_true_iff in Hb as [Hb Hby]. apply andb_true_iff in Hb as [Hjm Hbx]. apply Z.ltb_lt in Hjm.
    exists (k * 64 + j). split; [lia|]. by rewrite (test_bit_word a k x), (test_bit_word b k y).
  - intros (i & Hi & Hbx & Hby) ->. replace i with (k * 64 + (i - k * 64)) in Hbx, Hby by lia.
    rewrite (test_bit_word a k x) in Hbx by (done || lia). rewrite (test_bit_word b k y) in Hby by (done || lia).
    specialize (Hbits (i - k * 64) ltac:(lia)). rewrite Z.bits_0, Hbx, Hby in Hbits.
    destruct (Z.ltb_spec (i - k * 64) m); [done|lia].
Qed.

Lemma common_word a b k x y : idx a k = Some x -> idx b k = Some y -> 0 <= x < 2 ^ 64 ->
  x .& y <> 0 <-> common a b (k * 64) ((k + 1) * 64).
Proof.
  intros Ex Ey Hx. rewrite Z.mul_add_distr_r. apply (masked_common a b k 64 x y); [lia|done|done|by apply land_range_l|].
  intros j Hj. rewrite Z.land_spec. by destruct (Z.ltb_spec j 64); [|lia].
Qed.

Lemma common_last a b bits x y : holds bits a -> bits mod 64 <> 0 -> idx a (bits / 64) = Some x -> idx b (bits / 64) = Some y -> 0 <= x < 2 ^ 64 ->
  x .& y .& BITMAP_LAST_WORD_MASK bits <> 0 <-> common a b (bits / 64 * 64) bits.
Proof.
  intros (Hb & _) Hm Ex Ey Hx. destruct (bit_split bits) as (Hd & Hmb & _); [lia|]. rewrite Hd at 3.
  apply (masked_common a b (bits / 64) (bits mod 64) x y); [lia|done|done|by do 2 apply land_range_l|].
  intros j Hj. rewrite !Z.land_spec, last_word_mask by (done || lia). rewrite andb_comm. by rewrite andb_assoc.
Qed.

Lemma common_split a b lo mid hi : lo <= mid <= hi -> common a b lo hi <-> common a b lo mid \/ common a b mid hi.
Proof.
  intros Hm. split.
  - intros (i & Hi & H). destruct (Z.lt_ge_cases i mid); [left|right]; exists i; (split; [lia|done]).
  - intros [(i & Hi & H)|(i & Hi & H)]; exists i; (split; [lia|done]).
Qed.

Lemma and_loop_ok bits a b n : holds bits a -> holds bits b -> forall k dst res, 0 <= k -> (k + Z.of_nat n) * 64 <= bits ->
  k + Z.of_nat n <= Z.of_nat (length dst) -> 0 <= res ->
  exists r res', and_loop dst a b n k res = Some (r, res') /\ words_set (and_word a b) dst r k (k + Z.of_nat n) /\
    0 <= res' /\ (res' <> 0 <-> res <> 0 \/ common a b (k * 64) ((k + Z.of_nat n) * 64)).
Proof.
  intros Ha Hb. induction n as [|n IH]; intros k dst res Hk Hn Hd Hres; cbn [and_loop].
  { exists dst, res. split; [done|]. rewrite Z.add_0_r. split; [apply words_set_none|]. split; [done|].
    split; [tauto|]. intros [H|(i & Hi & _)]; [done|lia]. }
  destruct (holds_word _ _ k Ha) as (x & Ex & Hx), (holds_word _ _ k Hb) as (y & Ey & _); [lia..|].
  rewrite Ex, Ey. cbn [mbind option_bind]. rewrite set_at_eq by lia. cbn [mbind option_bind].
  assert (0 <= x .& y) as H0 by (by apply (land_range_l 64)).
  destruct (IH (k + 1) (<[Z.to_nat k := x .& y]> dst) (res .| (x .& y))) as (r & res' & -> & Hr & Hres' & Hiff);
    [lia|lia|rewrite length_insert; lia|by apply Z.lor_nonneg|].
  exists r, res'. split; [done|]. replace (k + 1 + Z.of_nat n) with (k + Z.of_nat (S n)) in Hr, Hiff by lia.
  split; [apply words_set_cons with (x .& y); [lia|lia| |done]; unfold and_word; by rewrite Ex, Ey|]. split; [done|].
  rewrite Hiff, (common_split a b (k * 64) ((k + 1) * 64)), <- (common_word a b k x y) by (done || lia).
  rewrite Z.lor_eq_0_iff. destruct (Z.eq_dec res 0), (Z.eq_dec (x .& y) 0); tauto.
Qed.

Lemma words_loop_ok bits test a b n : holds bits a -> holds bits b -> forall k, 0 <= k -> (k + Z.of_nat n) * 64 <= bits ->
  exists r, words_loop test a b n k = Some r /\
    (r = true <-> exists j x y, k <= j < k + Z.of_nat n /\ idx a j = Some x /\ idx b j = Some y /\ test x y = true).
Proof.
  intros Ha Hb. induction n as [|n IH]; intros k Hk Hn; cbn [words_loop].
  { exists false. split; [done|]. split; [done|]. intros (j & x & y & Hj & _). lia. }
  destruct (holds_word _ _ k Ha) as (x & Ex & Hx), (holds_word _ _ k Hb) as (y & Ey & _); [lia..|].
  rewrite Ex, Ey. cbn [mbind option_bind]. destruct (test x y) eqn:Et.
  { exists true. split; [done|]. split; [|done]. intros _. exists k, x, y. split; [lia|done]. }
  destruct (IH (k + 1)) as (r & -> & Hr); [lia..|]. exists r. split; [done|]. rewrite Hr. split.
  - intros (j & x' & y' & Hj & H). exists j, x', y'. split; [lia|done].
  - intros (j & x' & y' & Hj & Hjx & Hjy & Ht). destruct (Z.eq_dec j k) as [->|]; [congruence|].
    exists j, x', y'. split; [lia|done].
Qed.

Lemma words_set_bit f dst r k m i : words_set f dst r k m ->
  test_bit r i = if (k * 64 <=? i) && (i <? m * 64) then fetched_bit f i else test_bit dst i.
Proof.
  intros [_ Hr]. unfold test_bit, fetched_bit, word. rewrite Hr.
  pose proof (Z.div_mod i 64 ltac:(lia)). pose proof (Z.mod_pos_bound i 64 ltac:(lia)).
  destruct (Z.leb_spec k (i / 64)), (Z.leb_spec (k * 64) i), (Z.ltb_spec (i / 64) m), (Z.ltb_spec i (m * 64)); cbn [andb]; done || lia.
Qed.

Lemma or_word_bit a b i : idx a (i / 64) <> None -> idx b (i / 64) <> None -> fetched_bit (or_word a b) i = test_bit a i || test_bit b i.
Proof.
  unfold fetched_bit, test_bit, fetched_bit, or_word, word. destruct (idx a (i / 64)); [|done]. destruct (idx b (i / 64)); [|done].
  intros _ _. cbn [mbind option_bind]. apply Z.lor_spec.
Qed.

Lemma holds_some bits bitmap i : holds bits bitmap -> 0 <= i < bits -> idx bitmap (i / 64) <> None.
Proof.
  intros Hh Hi. destruct (bit_split i) as (Hd & ? & ?); [lia|]. destruct (holds_word _ _ (i / 64) Hh) as (w & -> & _); [lia..|done].
Qed.

(** What an operation leaves in [dst]: [f] of the bits, [rest] in the remaining
    bits of the last word, and the other words as they were. *)
Definition bits_set (f : Z -> bool) (rest : Z -> bool) (bits : Z) (dst r : list Z) : Prop :=
  length r = length dst /\ (forall i, 0 <= i < bits -> test_bit r i = f i) /\
  (forall i, bits <= i < 64 * BITS_TO_LONGS bits -> test_bit r i = rest i) /\
  (forall k, BITS_TO_LONGS bits <= k -> idx r k = idx dst k).

Lemma longs_split bits : 0 <= bits -> BITS_TO_LONGS bits = bits / 64 + (if bits mod 64 =? 0 then 0 else 1).
Proof.
  intros Hb. destruct (bit_split bits Hb) as (Hd & Hm & _). unfold BITS_TO_LONGS.
  destruct (Z.eqb_spec (bits mod 64) 0); symmetry; [apply Z.div_unique with 63|apply Z.div_unique with (bits mod 64 - 1)]; lia.
Qed.

Lemma or_ok bits a b dst : holds bits a -> holds bits b -> BITS_TO_LONGS bits <= Z.of_nat (length dst) ->
  exists r, __bitmap_or dst a b bits = Some r /\ bits_set (fun i => test_bit a i || test_bit b i) (fun i => test_bit a i || test_bit b i) bits dst r.
Proof.
  intros Ha Hb Hd. pose proof Ha as (Hbits & _). destruct (bit_split bits) as (Hs & Hm & Hq); [lia|].
  pose proof (longs_split bits ltac:(lia)) as Hl. assert (0 <= BITS_TO_LONGS bits /\ (BITS_TO_LONGS bits - 1) * 64 < bits /\ bits <= 64 * BITS_TO_LONGS bits) as (H1 & H2 & H3).
  { rewrite Hl. destruct (Z.eqb_spec (bits mod 64) 0); lia. }
  destruct (or_loop_ok bits a b (Z.to_nat (BITS_TO_LONGS bits)) Ha Hb 0 dst) as (r & E & Hr); [lia..|].
  exists r. split; [exact E|]. rewrite Z2Nat.id, Z.add_0_l in Hr by lia.
  assert (forall i, 0 <= i < 64 * BITS_TO_LONGS bits -> test_bit r i = test_bit a i || test_bit b i) as Hbit.
  { intros i Hi. rewrite (words_set_bit _ _ _ _ _ _ Hr). destruct (Z.leb_spec (0 * 64) i); [|lia].
    destruct (Z.ltb_spec i (BITS_TO_LONGS bits * 64)); [|lia]. cbn [andb]. destruct (bit_split i) as (? & ? & ?); [lia|].
    destruct (holds_word _ _ (i / 64) Ha) as (x & Ex & _), (holds_word _ _ (i / 64) Hb) as (y & Ey & _); [lia..|].
    apply or_word_bit; congruence. }
  split; [apply Hr|]. split; [intros; apply Hbit; lia|]. split; [intros; apply Hbit; lia|].
  intros k Hk. destruct Hr as [_ ->]. destruct (Z.ltb_spec k (BITS_TO_LONGS bits)); [lia|]. by rewrite andb_false_r.
Qed.

Lemma insert_last (bitmap r : list Z) (f : Z -> bool) bits w : 0 <= bits -> bits mod 64 <> 0 -> bits / 64 < Z.of_nat (length r) ->
  (forall i, 0 <= i < bits / 64 * 64 -> test_bit r i = f i) ->
  (forall j, 0 <= j < 64 -> Z.testbit w j = (j <? bits mod 64) && f (bits / 64 * 64 + j)) ->
  (forall k, bits / 64 <= k -> idx r k = idx bitmap k) -> length r = length bitmap ->
  bits_set f (fun _ => false) bits bitmap (<[Z.to_nat (bits / 64) := w]> r).
Proof.
  intros Hb Em Hr Hf Hw Hrest Hlen. destruct (bit_split bits Hb) as (Hs & Hm & Hq).
  pose proof (longs_split bits Hb) as Hl. destruct (Z.eqb_spec (bits mod 64) 0) as [|_]; [lia|].
  pose proof (fun m => idx_insert r (bits / 64) m w ltac:(lia)) as Hi.
  assert (forall i, bits / 64 * 64 <= i < (bits / 64 + 1) * 64 -> test_bit (<[Z.to_nat (bits / 64):=w]> r) i = (i <? bits) && f i) as Hlast.
  { intros i Hir. replace i with (bits / 64 * 64 + (i - bits / 64 * 64)) by lia. set (j := i - bits / 64 * 64).
    rewrite (test_bit_word _ (bits / 64) w), Hw by (rewrite ?Hi, ?Z.eqb_refl; done || lia).
    f_equal. destruct (Z.ltb_spec j (bits mod 64)), (Z.ltb_spec (bits / 64 * 64 + j) bits); done || lia. }
  split; [by rewrite length_insert|]. split; [|split].
  - intros i Hir. destruct (Z.lt_ge_cases i (bits / 64 * 64)); [|rewrite Hlast by lia; by destruct (Z.ltb_spec i bits); [|lia]].
    destruct (bit_split i) as (? & ? & ?); [lia|]. unfold test_bit, fetched_bit, word. rewrite Hi.
    destruct (Z.eqb_spec (i / 64) (bits / 64)); [lia|]. apply Hf. lia.
  - intros i Hir. rewrite Hlast by lia. by destruct (Z.ltb_spec i bits); [lia|].
  - intros k Hk. rewrite Hi. destruct (Z.eqb_spec k (bits / 64)); [lia|]. apply Hrest. lia.
Qed.

Lemma and_ok bits a b dst : holds bits a -> holds bits b -> BITS_TO_LONGS bits <= Z.of_nat (length dst) ->
  exists r any, __bitmap_and dst a b bits = Some (r, any) /\ (any = true <-> common a b 0 bits) /\
    bits_set (fun i => test_bit a i && test_bit b i) (fun _ => false) bits dst r.
Proof.
  intros Ha Hb Hd. pose proof Ha as (Hbits & _). destruct (bit_split bits) as (Hs & Hm & Hq); [lia|].
  pose proof (longs_split bits ltac:(lia)) as Hl. unfold __bitmap_and, BITS_PER_LONG. cbv zeta.
  destruct (and_loop_ok bits a b (Z.to_nat (bits / 64)) Ha Hb 0 dst 0) as (r1 & res & E & Hr1 & H0 & Hiff);
    [lia|lia|destruct (Z.eqb_spec (bits mod 64) 0); lia|lia|]. rewrite E. cbn [mbind option_bind].
  rewrite Z2Nat.id, Z.add_0_l, Z.mul_0_l in * by lia.
  destruct (Z.eqb_spec (bits mod 64) 0) as [Em|Em].
  - exists r1, (negb (res =? 0)). split; [done|]. rewrite Z.add_0_r in Hl. replace (bits / 64 * 64) with bits in Hiff by lia. split.
    { destruct (Z.eqb_spec res 0); cbn [negb]; split; intros Hc; try done; [exfalso; tauto|]. apply Hiff in n. by destruct n. }
    split; [apply Hr1|]. split; [|split; [lia|]].
    + intros i Hi. rewrite (words_set_bit _ _ _ _ _ _ Hr1). destruct (Z.leb_spec (0 * 64) i), (Z.ltb_spec i (bits / 64 * 64)); try lia. apply and_word_bit.
    + intros k Hk. destruct Hr1 as [_ ->]. destruct (Z.ltb_spec k (bits / 64)); [lia|]. by rewrite andb_false_r.
  - destruct (holds_word _ _ (bits / 64) Ha) as (x & Ex & Hx), (holds_word _ _ (bits / 64) Hb) as (y & Ey & _); [lia..|].
    rewrite Ex, Ey. cbn [mbind option_bind]. set (w := x .& y .& _). rewrite set_at_eq by (destruct Hr1 as [-> _]; lia). cbn [mbind option_bind].
    eexists _, _. split; [done|]. split.
    + rewrite (common_split a b 0 (bits / 64 * 64)), <- (common_last a b bits x y) by (done || lia). fold w.
      destruct (Z.eqb_spec (res .| w) 0) as [E0|E0]; cbn [negb]; rewrite Z.lor_eq_0_iff in E0; [|destruct (Z.eq_dec res 0), (Z.eq_dec w 0); tauto].
      split; [done|]. tauto.
    + apply insert_last; [lia|done|destruct Hr1 as [-> _]; lia| | | |apply Hr1].
      * intros i Hi. rewrite (words_set_bit _ _ _ _ _ _ Hr1). destruct (Z.leb_spec (0 * 64) i), (Z.ltb_spec i (bits / 64 * 64)); try lia. apply and_word_bit.
      * intros j Hj. rewrite (test_bit_word a _ x), (test_bit_word b _ y) by done. unfold w.
        rewrite !Z.land_spec, last_word_mask by (done || lia). apply andb_comm.
      * intros k Hk. destruct Hr1 as [_ ->]. destruct (Z.ltb_spec k (bits / 64)); [lia|]. by rewrite andb_false_r.
Qed.

Lemma common_words bits a b n : holds bits a -> holds bits b -> Z.of_nat n * 64 <= bits ->
  (exists j x y, 0 <= j < 0 + Z.of_nat n /\ idx a j = Some x /\ idx b j = Some y /\ negb (x .& y =? 0) = true) <-> common a b 0 (Z.of_nat n * 64).
Proof.
  intros Ha Hb Hn. split.
  - intros (j & x & y & Hj & Ex & Ey & Ht). destruct (holds_word _ _ j Ha) as (x' & Ex' & Hx); [lia..|]. assert (x' = x) as -> by congruence.
    destruct (Z.eqb_spec (x .& y) 0) as [|Hne]; [done|]. apply (common_word a b j x y) in Hne as (i & Hi & H); [|done..].
    exists i. split; [lia|done].
  - intros (i & Hi & Hbx). destruct (bit_split i) as (Hd & Hm & Hq); [lia|].
    destruct (holds_word _ _ (i / 64) Ha) as (x & Ex & Hx), (holds_word _ _ (i / 64) Hb) as (y & Ey & _); [lia..|].
    exists (i / 64), x, y. split; [lia|]. split; [done|]. split; [done|].
    destruct (Z.eqb_spec (x .& y) 0) as [E0|]; [|done]. exfalso. apply (common_word a b (i / 64) x y) in E0; [done|done..|].
    exists i. split; [lia|done].
Qed.

Lemma intersects_ok bits a b : holds bits a -> holds bits b ->
  exists r, __bitmap_intersects a b bits = Some r /\ (r = true <-> common a b 0 bits).
Proof.
  intros Ha Hb. pose proof Ha as (Hbits & _). destruct (bit_split bits) as (Hs & Hm & Hq); [lia|].
  unfold __bitmap_intersects, BITS_PER_LONG. cbv zeta.
  destruct (words_loop_ok bits (fun x y => negb (x .& y =? 0)) a b (Z.to_nat (bits / 64)) Ha Hb 0) as (r & -> & Hr); [lia..|].
  rewrite (common_words bits) in Hr by (done || lia). rewrite Z2Nat.id in Hr by lia. cbn [mbind option_bind].
  pose proof (common_split a b 0 (bits / 64 * 64) bits ltac:(lia)) as Hc. rewrite <- Hr in Hc. destruct r; [exists true; tauto|].
  destruct (Z.eqb_spec (bits mod 64) 0) as [Em|Em].
  - exists false. split; [done|]. rewrite Hc. split; [done|]. intros [|(i & Hi & _)]; [done|lia].
  - destruct (holds_word _ _ (bits / 64) Ha) as (x & Ex & Hx), (holds_word _ _ (bits / 64) Hb) as (y & Ey & _); [lia..|].
    rewrite Ex, Ey. cbn [mbind option_bind]. eexists. split; [done|]. rewrite Hc, <- (common_last a b bits x y) by done.
    destruct (Z.eqb_spec (x .& y .& BITMAP_LAST_WORD_MASK bits) 0); cbn [negb]; tauto.
Qed.

Lemma lxor_eq_0 x y : Z.lxor x y = 0 <-> x = y.
Proof. split; [apply Z.lxor_eq|]. intros ->. apply Z.lxor_nilpotent. Qed.

(** The last words agree on the bits that count. *)
Lemma equal_last bits a b x y : holds bits a -> holds bits b -> bits mod 64 <> 0 -> idx a (bits / 64) = Some x -> idx b (bits / 64) = Some y ->
  0 <= x < 2 ^ 64 -> 0 <= y < 2 ^ 64 ->
  Z.lxor x y .& BITMAP_LAST_WORD_MASK bits = 0 <-> forall i, bits / 64 * 64 <= i < bits -> test_bit a i = test_bit b i.
Proof.
  intros Ha Hb Em Ex Ey Hx Hy. pose proof Ha as (Hbits & _). destruct (bit_split bits) as (Hs & Hm & Hq); [lia|].
  assert (forall j, 0 <= j < bits mod 64 -> Z.testbit (Z.lxor x y .& BITMAP_LAST_WORD_MASK bits) j = xorb (test_bit a (bits / 64 * 64 + j)) (test_bit b (bits / 64 * 64 + j))) as Hj.
  { intros j Hj. rewrite (test_bit_word a _ x), (test_bit_word b _ y), Z.land_spec, Z.lxor_spec, last_word_mask by (done || lia).
    destruct (Z.ltb_spec j (bits mod 64)); [apply andb_true_r|lia]. }
  split.
  - intros E0 i Hi. replace i with (bits / 64 * 64 + (i - bits / 64 * 64)) by lia. apply xorb_eq. rewrite <- Hj, E0 by lia. apply Z.bits_0.
  - intros Hall. apply no_bit; [apply Z.land_nonneg; left; apply Z.lxor_nonneg; lia|]. intros j H0. destruct (Z.lt_ge_cases j (bits mod 64)).
    + rewrite Hj, Hall by lia. apply xorb_nilpotent.
    + rewrite Z.land_spec, last_word_mask by (done || lia). destruct (Z.ltb_spec j (bits mod 64)); [lia|]. apply andb_false_r.
Qed.

Lemma equal_word a b k x y : idx a k = Some x -> idx b k = Some y -> 0 <= x < 2 ^ 64 -> 0 <= y < 2 ^ 64 ->
  x = y <-> forall i, k * 64 <= i < (k + 1) * 64 -> test_bit a i = test_bit b i.
Proof.
  intros Ex Ey Hx Hy. split.
  - intros -> i Hi. replace i with (k * 64 + (i - k * 64)) by lia. by rewrite (test_bit_word a k y), (test_bit_word b k y) by (done || lia).
  - intros Hall. apply Z.bits_inj'. intros j Hj. destruct (Z.lt_ge_cases j 64); [|by rewrite !word_high].
    specialize (Hall (k * 64 + j) ltac:(lia)). by rewrite (test_bit_word a k x), (test_bit_word b k y) in Hall by (done || lia).
Qed.

Lemma equal_ok bits a b : holds bits a -> holds bits b ->
  exists r, __bitmap_equal a b bits = Some r /\ (r = true <-> forall i, 0 <= i < bits -> test_bit a i = test_bit b i).
Proof.
  intros Ha Hb. pose proof Ha as (Hbits & _). destruct (bit_split bits) as (Hs & Hm & Hq); [lia|].
  unfold __bitmap_equal, BITS_PER_LONG. cbv zeta.
  destruct (words_loop_ok bits (fun x y => negb (x =? y)) a b (Z.to_nat (bits / 64)) Ha Hb 0) as (r & -> & Hr); [lia..|].
  rewrite Z2Nat.id in Hr by lia. cbn [mbind option_bind]. destruct r.
  - exists false. split; [done|]. split; [done|]. intros Hall. destruct Hr as [Hr _].
    destruct (Hr eq_refl) as (j & x & y & Hj & Ex & Ey & Ht).
    destruct (holds_word _ _ j Ha) as (x' & Ex' & Hx), (holds_word _ _ j Hb) as (y' & Ey' & Hy); [lia..|]. assert (x' = x /\ y' = y) as [-> ->] by (split; congruence).
    destruct (Z.eqb_spec x y) as [|Hne]; [done|]. destruct Hne. apply (equal_word a b j x y); [done..|]. intros i Hi. apply Hall. lia.
  - assert (forall i, 0 <= i < bits / 64 * 64 -> test_bit a i = test_bit b i) as Hwhole.
    { intros i Hi. destruct (bit_split i) as (Hd & Hmi & Hqi); [lia|].
      destruct (holds_word _ _ (i / 64) Ha) as (x & Ex & Hx), (holds_word _ _ (i / 64) Hb) as (y & Ey & Hy); [lia..|].
      apply (equal_word a b (i / 64) x y); [done..| |lia]. destruct (Z.eq_dec x y) as [|Hne]; [done|]. exfalso.
      apply diff_false_true, Hr. exists (i / 64), x, y. split; [lia|]. split; [done|]. split; [done|]. by destruct (Z.eqb_spec x y). }
    destruct (Z.eqb_spec (bits mod 64) 0) as [Em|Em]; [exists true; split; [done|split; [intros _ i Hi; apply Hwhole; lia|done]]|].
    destruct (holds_word _ _ (bits / 64) Ha) as (x & Ex & Hx), (holds_word _ _ (bits / 64) Hb) as (y & Ey & Hy); [lia..|].
    rewrite Ex, Ey. cbn [mbind option_bind]. eexists. split; [done|]. rewrite Z.eqb_eq, (equal_last bits a b x y) by done. split.
    + intros Hl i Hi. destruct (Z.lt_ge_cases i (bits / 64 * 64)); [apply Hwhole; lia|apply Hl; lia].
    + intros Hall i Hi. apply Hall. lia.
Qed.

(** ** Whole bitmaps *)

Lemma none_first f bits r : 0 <= bits -> first_bit f 0 bits r -> (r =? bits) = true <-> forall i, 0 <= i < bits -> f i = false.
Proof.
  intros Hb (H1 & H2 & H3). rewrite Z.eqb_eq. split; [intros ->; exact H2|].
  intros Hall. destruct (Z.lt_ge_cases r bits) as [Hr|]; [|lia]. specialize (Hall r ltac:(lia)). rewrite H3 in Hall by done. done.
Qed.

Lemma bitmap_empty_ok bits bitmap : holds bits bitmap ->
  exists r, bitmap_empty bitmap bits = Some r /\ (r = true <-> forall i, 0 <= i < bits -> test_bit bitmap i = false).
Proof.
  intros Hh. pose proof Hh as (Hbits & _). unfold bitmap_empty, _find_first_bit.
  destruct (find_first_ok (word bitmap) bits) as (r & -> & Hr); [lia|intros k; by apply holds_word|].
  eexists. split; [done|]. apply none_first; [lia|done].
Qed.

Lemma bitmap_full_ok bits bitmap : holds bits bitmap ->
  exists r, bitmap_full bitmap bits = Some r /\ (r = true <-> forall i, 0 <= i < bits -> test_bit bitmap i = true).
Proof.
  intros Hh. pose proof Hh as (Hbits & _). unfold bitmap_full, _find_first_zero_bit.
  destruct (find_first_ok (not_word bitmap) bits) as (r & -> & Hr); [lia|intros k; by apply (not_word_ok bits)|].
  eexists. split; [done|]. apply (first_bit_ext _ (fun i => negb (test_bit bitmap i))) in Hr; [|intros i; by apply not_word_bit|done].
  rewrite (none_first _ bits r (proj1 Hbits) Hr). split; intros H i Hi; specialize (H i Hi); by destruct (test_bit bitmap i).
Qed.

Lemma memset_words_ok dst w n : 0 <= n <= Z.of_nat (length dst) ->
  exists r, memset_words dst w n = Some r /\ words_set (fun _ => Some w) dst r 0 n.
Proof.
  intros Hn. unfold memset_words. destruct (Z.leb_spec 0 n), (Z.leb_spec n (Z.of_nat (length dst))); try lia. cbn [andb].
  eexists. split; [done|]. split; [rewrite length_app, length_replicate, length_skipn; lia|].
  intros j. unfold idx. destruct (Z.ltb_spec j 0); [by destruct (Z.leb_spec 0 j); [lia|]|].
  destruct (Z.leb_spec 0 j); [|lia]. destruct (Z.ltb_spec j n); cbn [andb].
  - rewrite lookup_app_l by (rewrite length_replicate; lia). apply lookup_replicate_2. lia.
  - rewrite lookup_app_r, length_replicate, lookup_drop by (rewrite length_replicate; lia). f_equal. lia.
Qed.

Lemma bitmap_zero_ok bits dst : 0 <= bits -> BITS_TO_LONGS bits <= Z.of_nat (length dst) ->
  exists r, bitmap_zero dst bits = Some r /\ words_set (fun _ => Some 0) dst r 0 (BITS_TO_LONGS bits).
Proof. intros Hb Hd. apply memset_words_ok. split; [apply Z.div_pos; lia|done]. Qed.

Lemma bitmap_fill_ok bits dst : 0 < bits < 2 ^ 31 -> BITS_TO_LONGS bits <= Z.of_nat (length dst) ->
  exists r, bitmap_fill dst bits = Some r /\ length r = length dst /\ forall i, 0 <= i < bits -> test_bit r i = true.
Proof.
  intros Hb Hd. destruct (bit_split bits) as (Hs & Hm & Hq); [lia|]. pose proof (longs_split bits ltac:(lia)) as Hl.
  set (q := BITS_TO_LONGS bits - 1) in *. assert (0 <= q < 2 ^ 31 /\ bits <= (q + 1) * 64) as [Hq0 Hbq] by (destruct (Z.eqb_spec (bits mod 64) 0); lia).
  unfold bitmap_fill. cbv zeta. fold q. rewrite u32_small by lia.
  destruct (memset_words_ok dst (2 ^ 64 - 1) q) as (r & -> & Hr); [lia|]. cbn [mbind option_bind].
  rewrite set_at_eq by (destruct Hr as [-> _]; lia). eexists. split; [done|]. split; [rewrite length_insert; apply Hr|].
  intros i Hi. destruct (bit_split i) as (Hsi & Hmi & Hqi); [lia|]. unfold test_bit, fetched_bit, word.
  rewrite idx_insert by (destruct Hr as [-> _]; lia). destruct (Z.eqb_spec (i / 64) q) as [Ei|Ei].
  - destruct (Z.eq_dec (bits mod 64) 0) as [Em|Em].
    + replace (BITMAP_LAST_WORD_MASK bits) with (Z.ones 64); [by apply Z.ones_spec_low|]. unfold BITMAP_LAST_WORD_MASK.
      change 63 with (Z.ones 6). rewrite Z.land_ones by lia. change (2 ^ 6) with 64.
      assert (u32 (- bits) mod 64 = 0) as ->; [|done]. rewrite wrap_mod by lia. rewrite Z.mod_mod_divide by (by exists (2 ^ 26)).
      rewrite Z.mod_opp_l_z; lia.
    + rewrite last_word_mask by lia. apply Z.ltb_lt. destruct (Z.eqb_spec (bits mod 64) 0); lia.
  - destruct Hr as [_ ->]. destruct (Z.leb_spec 0 (i / 64)), (Z.ltb_spec (i / 64) q); try lia. by apply (Z.ones_spec_low 64).
Qed.

(** ** Printing *)

(** The runs of set bits from [lo] to [hi], each as long as it can be. *)
Inductive runs (bit : Z -> bool) (hi : Z) : Z -> list (Z * Z) -> Prop :=
  | runs_nil lo : (forall i, lo <= i < hi -> bit i = false) -> runs bit hi lo []
  | runs_cons lo s e l : lo <= s <= e -> e < hi -> (forall i, lo <= i < s -> bit i = false) -> (forall i, s <= i <= e -> bit i = true) ->
      (e + 1 < hi -> bit (e + 1) = false) -> runs bit hi (e + 1) l -> runs bit hi lo ((s, e) :: l).

Definition range_text (r : Z * Z) : string :=
  String.append (pretty r.1) (if r.1 <? r.2 then String.append "-" (pretty r.2) else EmptyString).
(** The text after what has been printed. *)
Fixpoint ranges_text (first : bool) (l : list (Z * Z)) : string :=
  match l with
  | [] => EmptyString
  | r :: l => String.append (if first then EmptyString else ",") (String.append (range_text r) (ranges_text false l))
  end.

(** A text cut to fit a buffer. *)
Definition cut (size : Z) (text : string) : string := substring 0 (Z.to_nat (size - 1)) text.

Lemma append_assoc (a b c : string) : String.append (String.append a b) c = String.append a (String.append b c).
Proof. induction a as [|x a IH]; [done|]. apply (f_equal (String x)), IH. Qed.
Lemma append_nil (a : string) : String.append a EmptyString = a.
Proof. induction a as [|x a IH]; [done|]. apply (f_equal (String x)), IH. Qed.
Lemma substring_length n : forall a, (String.length (substring 0 n a) <= n)%nat.
Proof. induction n as [|n IH]; intros [|x a]; cbn; [lia..|]. specialize (IH a). lia. Qed.
Lemma substring_append n : forall a b, substring 0 n (String.append a b) = String.append (substring 0 n a) (substring 0 (n - String.length (substring 0 n a)) b).
Proof.
  induction n as [|n IH]; intros [|x a] b; [by destruct b|by destruct b|by destruct b|]. apply (f_equal (String x)), IH.
Qed.

Lemma scnprintf_cut size buf text : 0 < size -> scnprintf (cut size buf) size text = Some (cut size (String.append buf text)).
Proof.
  intros Hs. unfold scnprintf. pose proof (substring_length (Z.to_nat (size - 1)) buf) as Hl. fold (cut size buf) in Hl.
  cbv zeta. destruct (Z.leb_spec (size - Z.of_nat (String.length (cut size buf))) 0); [lia|]. unfold cut at 3. rewrite substring_append.
  do 3 f_equal. fold (cut size buf). lia.
Qed.

Lemma print_range_cut size buf first s e : 0 < size -> 0 <= s <= e -> e < 2 ^ 31 ->
  print_range (cut size buf) size first s e = Some (cut size (String.append buf (String.append (if first then EmptyString else ",") (range_text (s, e))))).
Proof.
  intros Hs Hse He. unfold print_range, range_text. cbn [fst snd]. rewrite !s32_small by lia.
  assert ((if first then Some (cut size buf) else scnprintf (cut size buf) size ",") = Some (cut size (String.append buf (if first then EmptyString else ",")))) as ->.
  { destruct first; [by rewrite append_nil|by apply scnprintf_cut]. }
  cbn [mbind option_bind]. rewrite scnprintf_cut by done. cbn [mbind option_bind].
  destruct (s <? e); [rewrite scnprintf_cut by done|rewrite append_nil]; by rewrite !append_assoc.
Qed.

Lemma runs_from bit hi lo mid l : lo <= mid -> (forall i, lo <= i < mid -> i < hi -> bit i = false) -> runs bit hi mid l -> runs bit hi lo l.
Proof.
  intros Hle Hz Hr.
  assert (forall s, (forall i, mid <= i < s -> bit i = false) -> s <= hi -> forall i, lo <= i < s -> bit i = false) as Hlow.
  { intros s Hs Hsh i Hi. destruct (Z.lt_ge_cases i mid); [apply Hz; lia|apply Hs; lia]. }
  inversion Hr; subst; constructor; try done; try lia; apply Hlow; done || lia.
Qed.

Section printing.
Context (bits size : Z) (bitmap : list Z) (Hh : holds bits bitmap) (Hsize : 0 < size).
Abbreviation bit := (test_bit bitmap).

Lemma next_bit_ok start : 0 <= start -> exists r, _find_next_bit bitmap bits start = Some r /\ first_bit bit start bits r.
Proof using Hh. apply find_next_ok; [destruct Hh; lia|]. intros k. by apply holds_word. Qed.

Lemma scnprintf_loop_ok n : forall cur rbot buf first, 0 <= rbot <= cur -> cur <= bits -> bits - cur < Z.of_nat n ->
  (forall i, rbot <= i <= cur -> i < bits -> bit i = true) -> cur < bits \/ rbot = cur ->
  exists l, scnprintf_loop bitmap bits size n (cut size buf) first rbot cur = Some (cut size (String.append buf (ranges_text first l))) /\
    runs bit bits rbot l.
Proof using Hh Hsize.
  pose proof Hh as (Hbits & _). induction n as [|n IH]; intros cur rbot buf first Hr Hc Hn Hset Hend; [lia|]. cbn [scnprintf_loop].
  destruct (Z.ltb_spec cur bits) as [Hlt|Hge].
  2:{ exists []. cbn [ranges_text]. rewrite append_nil. split; [done|]. constructor. intros; lia. }
  cbv zeta. rewrite !u32_small by lia. destruct (next_bit_ok (cur + 1)) as (r & -> & H1 & H2 & H3); [lia|]. cbn [mbind option_bind].
  destruct (Z.ltb_spec r bits), (Z.leb_spec r (cur + 1)); cbn [andb];
    [apply IH; [lia..| |lia]; intros i Hi Hib; destruct (Z.eq_dec i r) as [->|]; [by apply H3|apply Hset; lia]|..];
    rewrite print_range_cut by lia; cbn [mbind option_bind];
    (edestruct (IH r r) as (l & -> & Hl); [lia|lia|lia|intros i Hi Hib; replace i with r by lia; apply H3; lia|lia|]);
    exists ((rbot, cur) :: l); (split; [cbn [ranges_text]; by rewrite !append_assoc|]);
    (constructor; [lia|lia|intros; lia|intros i Hi; apply Hset; lia|intros; apply H2; lia|]);
    (apply runs_from with r; [lia| |done]); intros i Hi Hib; apply H2; lia.
Qed.

Lemma scnprintf_ok : exists l, bitmap_scnprintf bitmap bits size = Some (cut size (ranges_text true l)) /\ runs bit bits 0 l.
Proof using Hh Hsize.
  pose proof Hh as (Hbits & _). unfold bitmap_scnprintf.
  destruct (find_first_ok (word bitmap) bits) as (r & E & H1 & H2 & H3); [lia|intros k; by apply holds_word|].
  unfold _find_first_bit. rewrite E. cbn [mbind option_bind].
  destruct (scnprintf_loop_ok (S (Z.to_nat bits)) r r EmptyString true) as (l & El & Hl); [lia..| |by right|].
  { intros i Hi Hib. replace i with r by lia. apply H3. lia. }
  exists l. assert (cut size EmptyString = EmptyString) as Ec by (unfold cut; by destruct (Z.to_nat (size - 1))).
  rewrite Ec in El. split; [exact El|]. apply runs_from with r; [lia| |done]. intros i Hi _. by apply H2.
Qed.
End printing.

(** ** Claims *)

(** C40: Each of the six searches of find_bit.c gives the first bit it looks for -
    one that is set, clear, or set in both bitmaps, from the start or from a given
    bit - and the number of bits if there is none. *)
Theorem find_bit_exact bits a b start : holds bits a -> holds bits b -> 0 <= start ->
  let exactly (found : option Z) (bit : Z -> bool) (lo : Z) := exists r, found = Some r /\ first_bit bit lo bits r in
  exactly (_find_first_bit a bits) (test_bit a) 0 /\
  exactly (_find_first_and_bit a b bits) (fun i => test_bit a i && test_bit b i) 0 /\
  exactly (_find_first_zero_bit a bits) (fun i => negb (test_bit a i)) 0 /\
  exactly (_find_next_bit a bits start) (test_bit a) start /\
  exactly (_find_next_and_bit a b bits start) (fun i => test_bit a i && test_bit b i) start /\
  exactly (_find_next_zero_bit a bits start) (fun i => negb (test_bit a i)) start.
Proof.
  intros Ha Hb Hstart exactly. pose proof Ha as (Hbits & _). assert (0 <= bits < 2 ^ 63) as Hsz by lia.
  assert (forall f g lo (E : exists r, f = Some r /\ first_bit g lo bits r) h, 0 <= lo -> (forall i, 0 <= i < bits -> g i = h i) -> exactly f h lo) as Hext.
  { intros f g lo (r & -> & Hr) h Hlo Hgh. exists r. split; [done|]. by apply first_bit_ext with g. }
  pose proof (fun k => holds_word bits a k Ha) as Hw. pose proof (fun k => and_word_ok bits a b k Ha Hb) as Haw.
  pose proof (fun k => not_word_ok bits a k Ha) as Hnw.
  split; [by apply find_first_ok|]. split; [|split; [|split; [by apply find_next_ok|split]]].
  - apply Hext with (fetched_bit (and_word a b)); [by apply find_first_ok|done|intros; apply and_word_bit].
  - apply Hext with (fetched_bit (not_word a)); [by apply find_first_ok|done|intros; by apply (not_word_bit bits)].
  - apply Hext with (fetched_bit (and_word a b)); [by apply find_next_ok|done|intros; apply and_word_bit].
  - apply Hext with (fetched_bit (not_word a)); [by apply find_next_ok|done|intros; by apply (not_word_bit bits)].
Qed.

(** C39: The operations on bitmaps are those on sets of the first [bits] bits: the
    weight is the number of bits that are set, [__bitmap_or] and [__bitmap_and]
    make the union and the intersection, the latter without further bits, and write
    no other word, and the results of [__bitmap_and], [__bitmap_intersects] and
    [__bitmap_equal] say whether there is a common bit and whether all bits are the
    same. *)
Theorem bitmap_ops_exact bits a b dst : holds bits a -> holds bits b -> BITS_TO_LONGS bits <= Z.of_nat (length dst) ->
  __bitmap_weight a bits = Some (count (test_bit a) 0 (Z.to_nat bits)) /\
  (exists r, __bitmap_or dst a b bits = Some r /\
    bits_set (fun i => test_bit a i || test_bit b i) (fun i => test_bit a i || test_bit b i) bits dst r) /\
  (exists r any, __bitmap_and dst a b bits = Some (r, any) /\ (any = true <-> common a b 0 bits) /\
    bits_set (fun i => test_bit a i && test_bit b i) (fun _ => false) bits dst r) /\
  (exists any, __bitmap_intersects a b bits = Some any /\ (any = true <-> common a b 0 bits)) /\
  (exists same, __bitmap_equal a b bits = Some same /\ (same = true <-> forall i, 0 <= i < bits -> test_bit a i = test_bit b i)).
Proof.
  intros Ha Hb Hd. split; [by apply weight_ok|]. split; [by apply or_ok|]. split; [by apply and_ok|].
  split; [by apply intersects_ok|by apply equal_ok].
Qed.

(** [bitmap_scnprintf] writes the runs of set bits in their order, each as long
    as it can be, as [first] or [first-last] with commas between them, as far as
    they fit the buffer. *)
Theorem bitmap_print_exact bits size bitmap : holds bits bitmap -> 0 < size ->
  exists l, bitmap_scnprintf bitmap bits size = Some (cut size (ranges_text true l)) /\ runs (test_bit bitmap) bits 0 l.
Proof. apply scnprintf_ok. Qed.

(** ** Witnesses: bits 0, 2, 3, 4 and 64 of 70, and bits 2 and 69 *)

Lemma holds_70 a b : 0 <= a < 2 ^ 64 -> 0 <= b < 2 ^ 64 -> holds 70 [a; b].
Proof. intros Ha Hb. split; [done|]. split; [done|]. constructor; [done|]. constructor; [done|constructor]. Qed.

Lemma find_bit_witness : exists r, _find_next_zero_bit [29; 1] 70 2 = Some r /\ first_bit (fun i => negb (test_bit [29; 1] i)) 2 70 r.
Proof. apply (find_bit_exact 70 [29; 1] [4; 32] 2); [by apply holds_70|by apply holds_70|lia]. Defined.

Lemma bitmap_ops_witness : exists any, __bitmap_intersects [29; 1] [4; 32] 70 = Some any /\ (any = true <-> common [29; 1] [4; 32] 0 70).
Proof. apply (bitmap_ops_exact 70 [29; 1] [4; 32] [0; 0; 7]); [by apply holds_70|by apply holds_70|by vm_compute]. Defined.

Lemma bitmap_print_witness : bitmap_scnprintf [29; 1] 70 100 = Some "0,2-4,64"%string /\
  exists l, bitmap_scnprintf [29; 1] 70 100 = Some (cut 100 (ranges_text true l)) /\ runs (test_bit [29; 1]) 70 0 l.
Proof. split; [by vm_compute|]. apply (bitmap_print_exact 70 100 [29; 1]); [by apply holds_70|lia]. Defined.

(** A buffer that is too short, the operations on an example, and a buffer without
    room. *)
Example print_short : bitmap_scnprintf [29; 1] 70 6 = Some "0,2-4"%string. Proof. by vm_compute. Qed.
Example print_no_room : bitmap_scnprintf [29; 1] 70 0 = None. Proof. by vm_compute. Qed.
Example and_example : __bitmap_and [0; 0; 7] [29; 1] [2 ^ 64 - 1; 2 ^ 63 + 33] 70 = Some ([29; 1; 7], true). Proof. by vm_compute. Qed.
Example fill_example : bitmap_fill [3; 4; 5] 70 = Some [2 ^ 64 - 1; 63; 5] /\ bitmap_zero [3; 4; 5] 70 = Some [0; 0; 5]. Proof. by vm_compute. Qed.
Example full_empty : bitmap_full [2 ^ 64 - 1; 63] 70 = Some true /\ bitmap_empty [0; 64] 70 = Some true. Proof. by vm_compute. Qed.
