(* ===== verification/ListSort.v ===== *)
(** Sorting of linked lists, tools/lib/list_sort.c, on a memory of
    [struct list_head]s by their addresses.  [None] is an access to NULL or outside
    the memory, or a loop that does not end within [fuel]. *)
From Stdlib Require Import ZArith Lia List Bool.
From stdpp Require Import gmap.
From S2P Require Import Prelude.
Open Scope Z_scope.
Open Scope c_scope.
Import ListNotations.

Record list_head := mkLh { lh_next : Z; lh_prev : Z }.
Abbreviation memory := (gmap Z list_head).

Definition NULL : Z := 0.
Definition deref (m : memory) (p : Z) : option list_head := if p =? NULL then None else m !! p.
Definition get_next (m : memory) (p : Z) : option Z := lh_next <$> deref m p.
Definition get_prev (m : memory) (p : Z) : option Z := lh_prev <$> deref m p.
Definition set_next (m : memory) (p v : Z) : option memory := nd ← deref m p; Some (<[p := mkLh v (lh_prev nd)]> m).
Definition set_prev (m : memory) (p v : Z) : option memory := nd ← deref m p; Some (<[p := mkLh (lh_next nd) v]> m).

Section sort.
(** [cmp(priv, a, b)], which neither changes the lists nor depends on their links. *)
Context (cmp : Z -> Z -> Z) (fuel : nat).

(** [*tail = v], where [tail] is [&head] or the [next] of a node. *)
Definition store_tail (m : memory) (head : Z) (tail : option Z) (v : Z) : option (memory * Z) :=
  match tail with
  | None => Some (m, v)
  | Some t => m ← set_next m t v; Some (m, head)
  end.

Fixpoint merge_loop (n : nat) (m : memory) (head : Z) (tail : option Z) (a b : Z) : option (memory * Z) :=
  match n with
  | O => None
  | S n =>
    if cmp a b <=? 0 then
      '(m, head) ← store_tail m head tail a;
      a' ← get_next m a;
      if a' =? NULL then store_tail m head (Some a) b else merge_loop n m head (Some a) a' b
    else
      '(m, head) ← store_tail m head tail b;
      b' ← get_next m b;
      if b' =? NULL then store_tail m head (Some b) a else merge_loop n m head (Some b) a b'
  end.
Definition merge (m : memory) (a b : Z) : option (memory * Z) := merge_loop fuel m NULL None a b.

(** The first loop of [merge_final]: [tail] and the rest, [b], at its end. *)
Fixpoint final_loop (n : nat) (m : memory) (tail a b : Z) : option (memory * Z * Z) :=
  match n with
  | O => None
  | S n =>
    if cmp a b <=? 0 then
      m ← set_next m tail a; m ← set_prev m a tail;
      a' ← get_next m a;
      if a' =? NULL then Some (m, a, b) else final_loop n m a a' b
    else
      m ← set_next m tail b; m ← set_prev m b tail;
      b' ← get_next m b;
      if b' =? NULL then Some (m, b, a) else final_loop n m b a b'
  end.

(** Its second loop.  The calls of [cmp] every 256 nodes, made for the sake of
    the client, have no effect here. *)
Fixpoint relink_loop (n : nat) (m : memory) (tail b : Z) : option (memory * Z) :=
  match n with
  | O => None
  | S n =>
    m ← set_prev m b tail;
    b' ← get_next m b;
    if b' =? NULL then Some (m, b) else relink_loop n m b b'
  end.
Definition merge_final (m : memory) (head a b : Z) : option memory :=
  '(m, tail, b) ← final_loop fuel m head a b;
  m ← set_next m tail b;
  '(m, tail) ← relink_loop fuel m tail b;
  m ← set_next m tail head;
  set_prev m head tail.

(** The value of [*tail], where [tail] is [&pending] or the [prev] of a node. *)
Definition load_pending (m : memory) (pending : Z) (tail : option Z) : option Z :=
  match tail with None => Some pending | Some t => get_prev m t end.
Definition store_pending (m : memory) (pending : Z) (tail : option Z) (v : Z) : option (memory * Z) :=
  match tail with
  | None => Some (m, v)
  | Some t => m ← set_prev m t v; Some (m, pending)
  end.

(** The loop that finds the least significant clear bit of [count], of 64, and the
    merge that is indicated. *)
Fixpoint merge_pending (n : nat) (m : memory) (pending : Z) (tail : option Z) (bits : Z) : option (memory * Z) :=
  match n with
  | O => None
  | S n =>
    if Z.odd bits then
      t ← load_pending m pending tail;
      if t =? NULL then None else merge_pending n m pending (Some t) (bits .>> 1)
    else if bits =? 0 then Some (m, pending)
    else
      a ← load_pending m pending tail;
      b ← get_prev m a;
      '(m, a) ← merge m b a;
      next ← get_prev m b;
      m ← set_prev m a next;
      store_pending m pending tail a
  end.

Fixpoint sort_loop (n : nat) (m : memory) (pending list count : Z) : option (memory * Z) :=
  match n with
  | O => None
  | S n =>
    '(m, pending) ← merge_pending 65 m pending None count;
    m ← set_prev m list pending;
    let pending := list in
    list ← get_next m list;
    m ← set_next m pending NULL;
    if list =? NULL then Some (m, pending) else sort_loop n m pending list (u64 (count + 1))
  end.

Fixpoint merge_rest (n : nat) (m : memory) (pending list : Z) : option (memory * Z * Z) :=
  match n with
  | O => None
  | S n =>
    next ← get_prev m pending;
    if next =? NULL then Some (m, pending, list)
    else
      '(m, list) ← merge m pending list;
      merge_rest n m next list
  end.

Definition list_sort (m : memory) (head : Z) : option memory :=
  list ← get_next m head;
  last ← get_prev m head;
  if list =? last then Some m
  else
    m ← set_next m last NULL;
    '(m, pending) ← sort_loop fuel m NULL list 0;
    let list := pending in
    pending ← get_prev m pending;
    '(m, pending, list) ← merge_rest fuel m pending list;
    merge_final m head pending list.
End sort.
