(* ===== verification/ListSortTheorems.v ===== *)
(** [list_sort] is a stable sort that makes no bad access: merges of chains of
    nodes against merges of lists, the pending chains, and the ring made of them. *)
From Stdlib Require Import ZArith Lia List Bool Sorting.Sorted Sorting.Permutation.
From stdpp Require Import gmap.
From S2P Require Import Prelude ListSort.
Open Scope Z_scope.
Open Scope c_scope.
Import ListNotations.

(** ** Memory *)

Lemma set_next_ok m p v q : get_next m p = Some q -> exists m', set_next m p v = Some m' /\
  (forall x, get_next m' x = if x =? p then Some v else get_next m x) /\ (forall x, get_prev m' x = get_prev m x).
Proof.
  unfold get_next, get_prev, set_next, deref. destruct (Z.eqb_spec p NULL) as [|Hp]; [done|]. destruct (m !! p) as [nd|] eqn:E; [|done].
  intros _. eexists. split; [done|]. split; intros x; destruct (Z.eqb_spec x NULL) as [->|]; [destruct (Z.eqb_spec NULL p); done..| |done|].
  - destruct (Z.eqb_spec x p) as [->|]; [by rewrite lookup_insert_eq|by rewrite lookup_insert_ne].
  - destruct (Z.eq_dec x p) as [->|]; [by rewrite lookup_insert_eq, E|by rewrite lookup_insert_ne].
Qed.

Lemma set_prev_ok m p v q : get_prev m p = Some q -> exists m', set_prev m p v = Some m' /\
  (forall x, get_prev m' x = if x =? p then Some v else get_prev m x) /\ (forall x, get_next m' x = get_next m x).
Proof.
  unfold get_next, get_prev, set_prev, deref. destruct (Z.eqb_spec p NULL) as [|Hp]; [done|]. destruct (m !! p) as [nd|] eqn:E; [|done].
  intros _. eexists. split; [done|]. split; intros x; destruct (Z.eqb_spec x NULL) as [->|]; [destruct (Z.eqb_spec NULL p); done..| |done|].
  - destruct (Z.eqb_spec x p) as [->|]; [by rewrite lookup_insert_eq|by rewrite lookup_insert_ne].
  - destruct (Z.eq_dec x p) as [->|]; [by rewrite lookup_insert_eq, E|by rewrite lookup_insert_ne].
Qed.

Lemma next_prev m p : (exists q, get_next m p = Some q) <-> exists q, get_prev m p = Some q.
Proof. unfold get_next, get_prev. destruct (deref m p); cbn; split; intros [q Hq]; (done || by eexists). Qed.

Lemma deref_ext m m' p : get_next m' p = get_next m p -> get_prev m' p = get_prev m p -> deref m' p = deref m p.
Proof. unfold get_next, get_prev. destruct (deref m' p) as [[? ?]|], (deref m p) as [[? ?]|]; cbn; congruence. Qed.

Lemma next_null m q : get_next m NULL <> Some q.
Proof. done. Qed.

(** [p] is a chain of the nodes [l], ended by NULL. *)
Fixpoint chain (m : memory) (p : Z) (l : list Z) : Prop :=
  match l with
  | [] => p = NULL
  | x :: l => p = x /\ exists q, get_next m x = Some q /\ chain m q l
  end.

Lemma chain_frame m m' l : forall p, (forall x, x ∈ l -> get_next m' x = get_next m x) -> chain m p l -> chain m' p l.
Proof.
  induction l as [|x l IH]; intros p Hx; [done|]. intros (-> & q & Hq & Hc). split; [done|]. exists q.
  split; [rewrite Hx; [done|set_solver]|]. apply IH; [|done]. intros y Hy. apply Hx. set_solver.
Qed.

Lemma chain_null m p l : chain m p l -> (p =? NULL) = match l with [] => true | _ => false end.
Proof.
  destruct l as [|x l]; [by intros ->|]. intros (-> & q & Hq & _). destruct (Z.eqb_spec x NULL) as [->|]; [|done]. by apply next_null in Hq.
Qed.

(** ** Merging *)

(** Nodes that are not on a list. *)
Ltac off := rewrite ?not_elem_of_cons, ?elem_of_cons in *; intuition congruence.

Section sort.
Context (cmp : Z -> Z -> Z).

Fixpoint lmerge (l1 : list Z) : list Z -> list Z :=
  fix aux (l2 : list Z) : list Z :=
    match l1, l2 with
    | [], _ => l2
    | _, [] => l1
    | x :: l1', y :: l2' => if cmp x y <=? 0 then x :: lmerge l1' l2 else y :: aux l2'
    end.

Lemma lmerge_nil_l l : lmerge [] l = l.
Proof. by destruct l. Qed.
Lemma lmerge_nil_r l : lmerge l [] = l.
Proof. by destruct l. Qed.
Lemma lmerge_cons x l1 y l2 : lmerge (x :: l1) (y :: l2) = if cmp x y <=? 0 then x :: lmerge l1 (y :: l2) else y :: lmerge (x :: l1) l2.
Proof. done. Qed.

(** Induction on the two lists of a merge. *)
Lemma merge_ind (P : list Z -> list Z -> Prop) :
  (forall l, P [] l) -> (forall l, P l []) ->
  (forall x l1 y l2, (cmp x y <= 0 -> P l1 (y :: l2)) -> (0 < cmp x y -> P (x :: l1) l2) -> P (x :: l1) (y :: l2)) -> forall l1 l2, P l1 l2.
Proof.
  intros H1 H2 H3. induction l1 as [|x l1 IH1]; [done|]. induction l2 as [|y l2 IH2]; [done|]. apply H3; intros _; [apply IH1|apply IH2].
Qed.

Lemma lmerge_perm l1 l2 : Permutation (l1 ++ l2) (lmerge l1 l2).
Proof.
  pattern l1, l2; apply merge_ind; clear l1 l2; [intros l|intros l|intros x l1 y l2 IH1 IH2]; [by rewrite lmerge_nil_l|by rewrite lmerge_nil_r, app_nil_r|].
  rewrite lmerge_cons. destruct (Z.leb_spec (cmp x y) 0); [cbn; by constructor; apply IH1|].
  rewrite <- Permutation_middle. constructor. by apply IH2.
Qed.

(** What [cmp] means: [x] may stay before [y]; a total preorder. *)
Definition before (x y : Z) : Prop := cmp x y <= 0.
Definition same (x y : Z) : bool := (cmp x y <=? 0) && (cmp y x <=? 0).
Definition preorder : Prop := (forall x y, before x y \/ before y x) /\ (forall x y z, before x y -> before y z -> before x z).

Lemma lmerge_sorted l1 l2 : preorder -> StronglySorted before l1 -> StronglySorted before l2 -> StronglySorted before (lmerge l1 l2).
Proof.
  intros [Htot Htr]. pattern l1, l2; apply merge_ind; clear l1 l2; [intros l H1 H2|intros l H1 H2|intros x l1 y l2 IH1 IH2 H1 H2]; [by rewrite lmerge_nil_l|by rewrite lmerge_nil_r|].
  rewrite lmerge_cons. pose proof (StronglySorted_inv H1) as [H1' Hx]. pose proof (StronglySorted_inv H2) as [H2' Hy].
  rewrite List.Forall_forall in Hx, Hy. destruct (Z.leb_spec (cmp x y) 0) as [Hle|Hgt].
  - constructor; [by apply IH1|]. apply List.Forall_forall. intros z Hz.
    apply (Permutation_in _ (Permutation_sym (lmerge_perm _ _))), in_app_or in Hz as [Hz|[<-|Hz]]; [by apply Hx|done|].
    apply Htr with y; [done|by apply Hy].
  - constructor; [by apply IH2|]. assert (before y x) as Hyx by (destruct (Htot y x) as [|Hc]; [done|unfold before in Hc; lia]).
    apply List.Forall_forall. intros z Hz.
    apply (Permutation_in _ (Permutation_sym (lmerge_perm _ _))), in_app_or in Hz as [[<-|Hz]|Hz]; [done| |by apply Hy].
    apply Htr with x; [done|by apply Hx].
Qed.

Lemma filter_none (f : Z -> bool) l : (forall z, In z l -> f z = false) -> List.filter f l = [].
Proof.
  induction l as [|z l IH]; intros Hf; [done|]. cbn [List.filter]. rewrite Hf by (by left). apply IH. intros y Hy. apply Hf. by right.
Qed.

Lemma lmerge_stable l1 l2 z : preorder -> StronglySorted before l1 ->
  List.filter (same z) (lmerge l1 l2) = (List.filter (same z) l1 ++ List.filter (same z) l2)%list.
Proof.
  intros [Htot Htr]. pattern l1, l2; apply merge_ind; clear l1 l2; [intros l H1|intros l H1|intros x l1 y l2 IH1 IH2 H1]; [by rewrite lmerge_nil_l|by rewrite lmerge_nil_r, app_nil_r|].
  rewrite lmerge_cons. pose proof (StronglySorted_inv H1) as [H1' Hx]. rewrite List.Forall_forall in Hx. destruct (Z.leb_spec (cmp x y) 0) as [Hle|Hgt].
  - cbn [List.filter] in *. rewrite IH1 by done. by destruct (same z x).
  - change (List.filter (same z) (y :: lmerge (x :: l1) l2)) with
      (if same z y then y :: List.filter (same z) (lmerge (x :: l1) l2) else List.filter (same z) (lmerge (x :: l1) l2)).
    rewrite IH2 by done. cbn [List.filter]. destruct (same z y) eqn:Ezy; [|done].
    assert (forall w, In w (x :: l1) -> same z w = false) as Hno.
    { intros w Hw. unfold same in *. apply andb_true_iff in Ezy as [Hzy Hyz]. apply Z.leb_le in Hzy, Hyz. apply andb_false_iff. right.
      apply Z.leb_gt. destruct (Z.lt_ge_cases 0 (cmp w z)); [done|]. exfalso.
      assert (before x w) as Hxw. { destruct Hw as [<-|Hw]; [|by apply Hx]. by destruct (Htot x x). }
      assert (before x y) as Hc by (apply Htr with w; [done|apply Htr with z; [unfold before; lia|done]]). unfold before in Hc. lia. }
    pose proof (filter_none (same z) (x :: l1) Hno) as E. cbn [List.filter] in E. by rewrite E.
Qed.

(** *** The merge of chains *)

Definition tail_val (m : memory) (head : Z) (tail : option Z) : option Z := match tail with None => Some head | Some t => get_next m t end.

Lemma store_tail_ok m head tail v : tail_val m head tail <> None -> exists m' head', store_tail m head tail v = Some (m', head') /\
  tail_val m' head' tail = Some v /\ (tail <> None -> head' = head) /\
  (forall x, tail <> Some x -> get_next m' x = get_next m x) /\ (forall x, get_prev m' x = get_prev m x).
Proof using Type.
  destruct tail as [t|]; cbn [tail_val store_tail]; [|by eexists _, _]. intros Ht. destruct (get_next m t) as [q|] eqn:Eq; [|done].
  destruct (set_next_ok m t v q Eq) as (m' & -> & Hn & Hp). cbn [mbind option_bind]. exists m', head. split; [done|].
  rewrite Hn, Z.eqb_refl. split; [done|]. split; [done|]. split; [|done]. intros x Hx. rewrite Hn. destruct (Z.eqb_spec x t) as [->|]; done.
Qed.

(** What a merge of chains, from [tail], leaves. *)
Definition merged (m : memory) (head : Z) (tail : option Z) (l la lb : list Z) (m' : memory) (head' : Z) : Prop :=
  (exists r, tail_val m' head' tail = Some r /\ chain m' r l) /\ (tail <> None -> head' = head) /\
  (forall x, tail <> Some x -> x ∉ la -> x ∉ lb -> get_next m' x = get_next m x) /\ (forall x, get_prev m' x = get_prev m x).

(** One turn: [x], the first of a chain, is stored, and the rest is merged from it. *)
Lemma merged_cons m m1 m' head head1 head' tail x l la lb la' lb' : merged m1 head1 (Some x) l la' lb' m' head' ->
  tail_val m1 head1 tail = Some x -> (tail <> None -> head1 = head) -> tail <> Some x ->
  (forall t, tail = Some t -> (t ∉ la') /\ t ∉ lb') ->
  (forall y, tail <> Some y -> get_next m1 y = get_next m y) -> (forall y, get_prev m1 y = get_prev m y) ->
  (forall y, y ∉ la -> y ∉ lb -> y <> x /\ (y ∉ la') /\ y ∉ lb') -> merged m head tail (x :: l) la lb m' head'.
Proof using Type.
  intros ((r & Hr & Hc) & Hh & Hn & Hp) Hv Hh1 Hx Ht Hn1 Hp1 Hsub. split; [|split; [|split]].
  - exists x. split; [|split; [done|by exists r]]. destruct tail as [t|]; cbn [tail_val] in *; [|by rewrite Hh].
    destruct (Ht t eq_refl). rewrite Hn; [done|congruence|done|done].
  - intros Hne. rewrite Hh by done. by apply Hh1.
  - intros y Hy Hya Hyb. destruct (Hsub y Hya Hyb) as (Hyx & Hya' & Hyb'). rewrite Hn; [by apply Hn1|congruence|done|done].
  - intros y. by rewrite Hp.
Qed.

Lemma store_rest m head x b lb : chain m b lb -> x ∉ lb -> get_next m x <> None -> exists m', store_tail m head (Some x) b = Some (m', head) /\
  merged m head (Some x) lb [] lb m' head.
Proof using Type.
  intros Hb Hx Hex. destruct (store_tail_ok m head (Some x) b Hex) as (m' & head' & E & Hv & Hh & Hn & Hp).
  specialize (Hh ltac:(done)) as ->. exists m'. split; [done|]. split; [|split; [done|split; [|done]]].
  - exists b. split; [done|]. apply chain_frame with m; [|done]. intros y Hy. apply Hn. congruence.
  - intros y Hy _ _. by apply Hn.
Qed.

Lemma merge_loop_ok n : forall m head tail a b la lb, chain m a la -> chain m b lb -> la <> [] -> lb <> [] -> NoDup (la ++ lb)%list ->
  tail_val m head tail <> None -> (forall t, tail = Some t -> (t ∉ la) /\ t ∉ lb) -> (length la + length lb <= n)%nat ->
  exists m' head', merge_loop cmp n m head tail a b = Some (m', head') /\ merged m head tail (lmerge la lb) la lb m' head'.
Proof using Type.
  induction n as [|n IH]; intros m head tail a b la lb Ha Hb Hla Hlb Hnd Htv Ht Hlen; [destruct la; cbn in Hlen; [done|lia]|].
  destruct la as [|x la]; [done|]. destruct lb as [|y lb]; [done|]. pose proof Ha as (-> & qa & Hqa & Hca). pose proof Hb as (-> & qb & Hqb & Hcb).
  cbn [merge_loop]. rewrite lmerge_cons. cbn [length app] in Hlen, Hnd.
  assert (tail <> Some x /\ tail <> Some y) as [Htx Hty] by (split; intros ->; destruct (Ht _ eq_refl); off).
  pose proof Hnd as Hnd2. rewrite list.NoDup_cons, not_elem_of_app, not_elem_of_cons in Hnd. destruct Hnd as [(Hxa & Hxy & Hxb) Hnd].
  rewrite list.NoDup_app, list.NoDup_cons in Hnd. destruct Hnd as (Hnda & Hdis & Hyb & Hndb).
  assert (y ∉ la) as Hya by (intros Hy; destruct (Hdis y Hy); left).
  destruct (Z.leb_spec (cmp x y) 0) as [Hle|Hgt].
  - destruct (store_tail_ok m head tail x Htv) as (m1 & head1 & -> & Hv1 & Hh1 & Hn1 & Hp1). cbn [mbind option_bind].
    rewrite Hn1, Hqa by done. cbn [mbind option_bind]. rewrite (chain_null m qa la) by done.
    assert (chain m1 qa la) as Hca1 by (apply chain_frame with m; [|done]; intros z Hz; apply Hn1; intros ->; destruct (Ht z eq_refl); off).
    assert (chain m1 y (y :: lb)) as Hb1 by (apply chain_frame with m; [|done]; intros z Hz; apply Hn1; intros ->; destruct (Ht z eq_refl); off).
    destruct la as [|x2 la].
    + destruct (store_rest m1 head1 x y (y :: lb)) as (m' & -> & Hm); [done|off|by rewrite Hn1, Hqa|]. eexists _, _. split; [done|].
      rewrite lmerge_nil_l. eapply merged_cons; [exact Hm|done..| |done|done|]; [intros t Et; destruct (Ht t Et); off|intros z; off].
    + destruct (IH m1 head1 (Some x) qa y (x2 :: la) (y :: lb)) as (m' & head' & -> & Hm); [done|done|done|done| |by cbn [tail_val]; rewrite Hn1, Hqa|intros t [= <-]; off|cbn [length] in *; lia|].
      { apply list.NoDup_app. split; [done|]. split; [done|by apply list.NoDup_cons]. }
      eexists _, _. split; [done|]. eapply merged_cons; [exact Hm|done..| |done|done|]; [intros t Et; destruct (Ht t Et); off|intros z; off].
  - destruct (store_tail_ok m head tail y Htv) as (m1 & head1 & -> & Hv1 & Hh1 & Hn1 & Hp1). cbn [mbind option_bind].
    rewrite Hn1, Hqb by done. cbn [mbind option_bind]. rewrite (chain_null m qb lb) by done.
    assert (chain m1 qb lb) as Hcb1 by (apply chain_frame with m; [|done]; intros z Hz; apply Hn1; intros ->; destruct (Ht z eq_refl); off).
    assert (chain m1 x (x :: la)) as Ha1 by (apply chain_frame with m; [|done]; intros z Hz; apply Hn1; intros ->; destruct (Ht z eq_refl); off).
    destruct lb as [|y2 lb].
    + destruct (store_rest m1 head1 y x (x :: la)) as (m' & -> & Hm); [done|off|by rewrite Hn1, Hqb|]. eexists _, _. split; [done|].
      rewrite lmerge_nil_r. eapply merged_cons; [exact Hm|done..| |done|done|]; [intros t Et; destruct (Ht t Et); off|intros z; off].
    + destruct (IH m1 head1 (Some y) x qb (x :: la) (y2 :: lb)) as (m' & head' & -> & Hm); [done|done|done|done| |by cbn [tail_val]; rewrite Hn1, Hqb|intros t [= <-]; off|cbn [length] in *; lia|].
      { apply list.NoDup_app. split; [by apply list.NoDup_cons|]. split; [|done]. intros z [->|Hz]%elem_of_cons; [done|]. by destruct (proj1 (not_elem_of_cons _ _ _) (Hdis z Hz)). }
      eexists _, _. split; [done|]. eapply merged_cons; [exact Hm|done..| |done|done|]; [intros t Et; destruct (Ht t Et); off|intros z; off].
Qed.

Lemma merge_ok fuel m a b la lb : chain m a la -> chain m b lb -> la <> [] -> lb <> [] -> NoDup (la ++ lb)%list ->
  (length la + length lb <= fuel)%nat ->
  exists m' r, merge cmp fuel m a b = Some (m', r) /\ chain m' r (lmerge la lb) /\
    (forall x, (x ∉ la) -> x ∉ lb -> get_next m' x = get_next m x) /\ (forall x, get_prev m' x = get_prev m x).
Proof using Type.
  intros Ha Hb Hla Hlb Hnd Hlen. unfold merge.
  destruct (merge_loop_ok fuel m NULL None a b la lb) as (m' & r & -> & (r' & [= <-] & Hc) & _ & Hn & Hp); [done..|].
  exists m', r. split; [done|]. split; [done|]. split; [|done]. intros x Hxa Hxb. by apply Hn.
Qed.

End sort.

(** ** The ring *)

(** From [t] by both links through [l] to [e]. *)
Fixpoint dpath (m : memory) (t : Z) (l : list Z) (e : Z) : Prop :=
  match l with
  | [] => get_next m t = Some e /\ get_prev m e = Some t
  | x :: l => get_next m t = Some x /\ get_prev m x = Some t /\ dpath m x l e
  end.
(** The list of [head]. *)
Definition ring (m : memory) (head : Z) (l : list Z) : Prop := dpath m head l head /\ NoDup (head :: l).

(** The second loop of [merge_final] and the last links. *)
Definition relink (fuel : nat) (m : memory) (tail b head : Z) : option memory :=
  m ← set_next m tail b; '(m, tail) ← relink_loop fuel m tail b; m ← set_next m tail head; set_prev m head tail.

(** What the last steps, from [tail], leave: the nodes of [la] and [lb] in a row, and
    the rest as it was. *)
Definition relinked (m : memory) (tail : Z) (l la lb : list Z) (head : Z) (m' : memory) : Prop :=
  dpath m' tail l head /\ (forall x, x <> tail -> (x ∉ la) -> x ∉ lb -> get_next m' x = get_next m x) /\
  (forall x, x <> head -> (x ∉ la) -> x ∉ lb -> get_prev m' x = get_prev m x).

Lemma relink_loop_ok n : forall m tail b l head, chain m b l -> l <> [] -> NoDup l -> (head ∉ l) -> (tail ∉ l) ->
  get_next m tail = Some b -> get_prev m head <> None -> (length l <= n)%nat ->
  exists m', ('(m, tail) ← relink_loop n m tail b; m ← set_next m tail head; set_prev m head tail) = Some m' /\
    dpath m' tail l head /\ (forall x, x ∉ l -> get_next m' x = get_next m x) /\
    (forall x, x <> head -> x ∉ l -> get_prev m' x = get_prev m x).
Proof.
  induction n as [|n IH]; intros m tail b l head Hc Hl Hnd Hhl Htl Ht Hh Hlen; [destruct l; cbn in Hlen; [done|lia]|].
  destruct l as [|x l]; [done|]. destruct Hc as (-> & q & Hq & Hc). rewrite list.NoDup_cons in Hnd. destruct Hnd as [Hxl Hnd].
  cbn [relink_loop]. destruct (proj1 (next_prev m x)) as [p Hp]; [by eexists|].
  destruct (set_prev_ok m x tail p Hp) as (m1 & -> & Hp1 & Hn1). cbn [mbind option_bind]. rewrite Hn1, Hq. cbn [mbind option_bind].
  rewrite (chain_null m q l) by done. assert (x <> head /\ tail <> x) as [Hxh Htx] by off.
  destruct l as [|y l].
  - cbn [mbind option_bind]. destruct (set_next_ok m1 x head q) as (m2 & E2 & Hn2 & Hp2); [by rewrite Hn1|]. rewrite E2. cbn [mbind option_bind].
    destruct (get_prev m head) as [ph|] eqn:Eh; [|done].
    destruct (set_prev_ok m2 head x ph) as (m3 & E3 & Hp3 & Hn3); [rewrite Hp2, Hp1; by destruct (Z.eqb_spec head x); [congruence|]|].
    exists m3. split; [done|]. cbn [dpath]. rewrite !Hn3, !Hn2, !Hn1, !Hp3, !Hp2, !Hp1, !Z.eqb_refl.
    destruct (Z.eqb_spec tail x), (Z.eqb_spec x head); try congruence. split; [done|]. split; intros z; [intros Hz|intros Hzh Hz].
    + rewrite Hn3, Hn2, Hn1. destruct (Z.eqb_spec z x) as [->|]; [off|done].
    + rewrite Hp3, Hp2, Hp1. destruct (Z.eqb_spec z head), (Z.eqb_spec z x) as [->|]; try congruence; off.
  - cbn [mbind option_bind]. destruct (IH m1 x q (y :: l) head) as (m' & -> & Hd & Hn & Hp'); [apply chain_frame with m; [intros; apply Hn1|done]|done|done|off|done|by rewrite Hn1| |cbn [length] in *; lia|].
    { rewrite Hp1. by destruct (Z.eqb_spec head x). }
    exists m'. split; [done|]. split; [|split].
    + split; [by rewrite Hn, Hn1 by off|]. split; [|done]. rewrite Hp', Hp1, Z.eqb_refl by done. done.
    + intros z Hz. by rewrite Hn, Hn1 by off.
    + intros z Hzh Hz. rewrite Hp', Hp1 by off. destruct (Z.eqb_spec z x) as [->|]; [off|done].
Qed.

Lemma relink_ok fuel m tail b l head : chain m b l -> l <> [] -> NoDup l -> (head ∉ l) -> (tail ∉ l) ->
  get_next m tail <> None -> get_prev m head <> None -> (length l <= fuel)%nat ->
  exists m', relink fuel m tail b head = Some m' /\ relinked m tail l [] l head m'.
Proof.
  intros Hc Hl Hnd Hhl Htl Ht Hh Hlen. unfold relink. destruct (get_next m tail) as [q|] eqn:Eq; [|done].
  destruct (set_next_ok m tail b q Eq) as (m1 & -> & Hn1 & Hp1). cbn [mbind option_bind].
  destruct (relink_loop_ok fuel m1 tail b l head) as (m' & -> & Hd & Hn & Hp); [|done..|by rewrite Hn1, Z.eqb_refl|by rewrite Hp1|done|].
  { apply chain_frame with m; [|done]. intros x Hx. rewrite Hn1. by destruct (Z.eqb_spec x tail) as [->|]. }
  exists m'. split; [done|]. split; [done|]. split; intros x Hx _ Hxl; [rewrite Hn, Hn1 by done; by destruct (Z.eqb_spec x tail)|by rewrite Hp, Hp1].
Qed.

Section final.
Context (cmp : Z -> Z -> Z).

(** [m1] is [m] with [x] after [tail]. *)
Definition linked (m : memory) (tail x : Z) (m1 : memory) : Prop :=
  get_next m1 tail = Some x /\ get_prev m1 x = Some tail /\ (forall y, y <> tail -> get_next m1 y = get_next m y) /\
  (forall y, y <> x -> get_prev m1 y = get_prev m y).

Lemma link_ok m tail x : get_next m tail <> None -> get_next m x <> None ->
  exists m1 m2, set_next m tail x = Some m1 /\ set_prev m1 x tail = Some m2 /\ linked m tail x m2.
Proof using Type.
  intros Ht Hx. destruct (get_next m tail) as [q|] eqn:Eq; [|done]. destruct (get_next m x) as [qx|] eqn:Ex; [|done].
  destruct (set_next_ok m tail x q Eq) as (m1 & E1 & Hn1 & Hp1). destruct (proj1 (next_prev m x)) as [p Hp]; [by eexists|].
  destruct (set_prev_ok m1 x tail p) as (m2 & E2 & Hp2 & Hn2); [by rewrite Hp1|]. exists m1, m2. split; [done|]. split; [done|].
  split; [by rewrite Hn2, Hn1, Z.eqb_refl|]. split; [by rewrite Hp2, Z.eqb_refl|].
  split; intros y Hy; [rewrite Hn2, Hn1; by destruct (Z.eqb_spec y tail)|rewrite Hp2, Hp1; by destruct (Z.eqb_spec y x)].
Qed.

(** One turn of the first loop: [x] comes after [tail], and the rest from [x]. *)
Lemma relinked_cons m m1 m' tail x l la lb la' lb' head : linked m tail x m1 -> relinked m1 x l la' lb' head m' ->
  (tail ∉ la') -> (tail ∉ lb') -> (x ∉ la') -> (x ∉ lb') -> tail <> x -> x <> head ->
  (forall y, (y ∉ la) -> y ∉ lb -> y <> x /\ (y ∉ la') /\ y ∉ lb') -> relinked m tail (x :: l) la lb head m'.
Proof using Type.
  intros (Ht1 & Hx1 & Hn1 & Hp1) (Hd & Hn & Hp) Hta Htb Hxa Hxb Htx Hxh Hsub. split; [|split].
  - split; [by rewrite Hn|]. split; [by rewrite Hp|done].
  - intros y Hyt Hya Hyb. destruct (Hsub y Hya Hyb) as (Hyx & Hya' & Hyb'). by rewrite Hn, Hn1.
  - intros y Hyh Hya Hyb. destruct (Hsub y Hya Hyb) as (Hyx & Hya' & Hyb'). by rewrite Hp, Hp1.
Qed.

Lemma linked_chain m tail x m1 p l : linked m tail x m1 -> (tail ∉ l) -> chain m p l -> chain m1 p l.
Proof using Type. intros (_ & _ & Hn & _) Ht. apply chain_frame. intros y Hy. apply Hn. congruence. Qed.

Lemma linked_prev m tail x m1 head : linked m tail x m1 -> get_prev m head <> None -> x <> head -> get_prev m1 head <> None.
Proof using Type. intros (_ & _ & _ & Hp) Hh Hx. by rewrite Hp by done. Qed.

(** [merge_final] from the middle of its first loop. *)
Definition final_from (n fuel : nat) (m : memory) (tail a b head : Z) : option memory :=
  '(m, tail, b) ← final_loop cmp n m tail a b; relink fuel m tail b head.

Lemma final_loop_ok fuel head n : forall m tail a b la lb, chain m a la -> chain m b lb -> la <> [] -> lb <> [] ->
  NoDup (la ++ lb)%list -> (head ∉ la) -> (head ∉ lb) -> (tail ∉ la) -> (tail ∉ lb) -> get_next m tail <> None -> get_prev m head <> None ->
  (length la + length lb <= n)%nat -> (length la + length lb <= fuel)%nat ->
  exists m', final_from n fuel m tail a b head = Some m' /\ relinked m tail (lmerge cmp la lb) la lb head m'.
Proof using Type.
  unfold final_from. induction n as [|n IH]; intros m tail a b la lb Ha Hb Hla Hlb Hnd Hha Hhb Hta Htb Ht Hh Hn Hf; [destruct la; cbn in Hn; [done|lia]|].
  destruct la as [|x la]; [done|]. destruct lb as [|y lb]; [done|]. pose proof Ha as (-> & qa & Hqa & Hca). pose proof Hb as (-> & qb & Hqb & Hcb).
  cbn [final_loop]. rewrite lmerge_cons. cbn [length app] in Hn, Hf, Hnd.
  rewrite list.NoDup_cons, not_elem_of_app, not_elem_of_cons in Hnd. destruct Hnd as [(Hxa & Hxy & Hxb) Hnd].
  rewrite list.NoDup_app, list.NoDup_cons in Hnd. destruct Hnd as (Hnda & Hdis & Hyb & Hndb).
  assert (y ∉ la) as Hya by (intros Hy; destruct (Hdis y Hy); left).
  rewrite not_elem_of_cons in Hha, Hhb, Hta, Htb. destruct Hha as [Hhx Hha], Hhb as [Hhy Hhb], Hta as [Htx Hta], Htb as [Hty Htb].
  destruct (Z.leb_spec (cmp x y) 0) as [Hle|Hgt].
  - destruct (link_ok m tail x) as (m1 & m2 & -> & E2 & Hl); [done|by rewrite Hqa|]. cbn [mbind option_bind]. rewrite E2. cbn [mbind option_bind].
    pose proof Hl as (_ & _ & Hn2 & _). rewrite Hn2, Hqa by done. cbn [mbind option_bind]. rewrite (chain_null m qa la) by done.
    assert (chain m2 y (y :: lb)) as Hb2 by (apply (linked_chain _ _ _ _ _ _ Hl); off).
    pose proof (linked_prev _ _ _ _ head Hl Hh ltac:(done)) as Hh2. destruct la as [|x2 la]; cbn [mbind option_bind].
    + destruct (relink_ok fuel m2 x y (y :: lb) head) as (m' & -> & Hm); [done|done|by apply list.NoDup_cons|off|off|by rewrite Hn2, Hqa|done|cbn [length] in *; lia|].
      exists m'. split; [done|]. rewrite lmerge_nil_l. eapply relinked_cons; [exact Hl|exact Hm|off..|].
      intros z Hza Hzb. off.
    + destruct (IH m2 x qa y (x2 :: la) (y :: lb)) as (m' & -> & Hm); try (done || off || (cbn [length] in *; lia)).
      { by apply (linked_chain _ _ _ _ _ _ Hl). }
      { apply list.NoDup_app. split; [done|]. split; [done|by apply list.NoDup_cons]. }
      { by rewrite Hn2, Hqa. }
      exists m'. split; [done|]. eapply relinked_cons; [exact Hl|exact Hm|off..|]. intros z Hza Hzb. off.
  - destruct (link_ok m tail y) as (m1 & m2 & -> & E2 & Hl); [done|by rewrite Hqb|]. cbn [mbind option_bind]. rewrite E2. cbn [mbind option_bind].
    pose proof Hl as (_ & _ & Hn2 & _). rewrite Hn2, Hqb by done. cbn [mbind option_bind]. rewrite (chain_null m qb lb) by done.
    assert (chain m2 x (x :: la)) as Ha2 by (apply (linked_chain _ _ _ _ _ _ Hl); off).
    pose proof (linked_prev _ _ _ _ head Hl Hh ltac:(done)) as Hh2. destruct lb as [|y2 lb]; cbn [mbind option_bind].
    + destruct (relink_ok fuel m2 y x (x :: la) head) as (m' & -> & Hm); [done|done|by apply list.NoDup_cons|off|off|by rewrite Hn2, Hqb|done|cbn [length] in *; lia|].
      exists m'. split; [done|]. rewrite lmerge_nil_r. eapply relinked_cons; [exact Hl|exact Hm|off..|].
      intros z Hza Hzb. off.
    + destruct (IH m2 y x qb (x :: la) (y2 :: lb)) as (m' & -> & Hm); try (done || off || (cbn [length] in *; lia)).
      { by apply (linked_chain _ _ _ _ _ _ Hl). }
      { apply list.NoDup_app. split; [by apply list.NoDup_cons|]. split; [|done]. intros z [->|Hz]%elem_of_cons; [done|]. by destruct (proj1 (not_elem_of_cons _ _ _) (Hdis z Hz)). }
      { by rewrite Hn2, Hqb. }
      exists m'. split; [done|]. eapply relinked_cons; [exact Hl|exact Hm|off..|]. intros z Hza Hzb. off.
Qed.
End final.

(** ** Pending chains *)

Section pending.
Context (cmp : Z -> Z -> Z) (fuel : nat).

(** [l] is [seg], sorted. *)
Definition sorts (seg l : list Z) : Prop :=
  Permutation seg l /\ (preorder cmp -> StronglySorted (before cmp) l /\ forall z, List.filter (same cmp z) l = List.filter (same cmp z) seg).

Lemma sorts_one x : sorts [x] [x].
Proof using Type. split; [done|]. intros _. split; [by repeat constructor|done]. Qed.

Lemma sorts_merge s1 l1 s2 l2 : sorts s1 l1 -> sorts s2 l2 -> sorts (s1 ++ s2) (lmerge cmp l1 l2).
Proof using Type.
  intros [P1 H1] [P2 H2]. split; [rewrite P1, P2; apply lmerge_perm|]. intros Hpre. destruct (H1 Hpre) as [S1 F1], (H2 Hpre) as [S2 F2].
  split; [by apply lmerge_sorted|]. intros z. by rewrite lmerge_stable, List.filter_app, F1, F2.
Qed.

(** [p] is a chain, by the [prev] of their first nodes, of the chains [ls]. *)
Fixpoint pchain (m : memory) (p : Z) (ls : list (list Z)) : Prop :=
  match ls with
  | [] => p = NULL
  | l :: ls => l <> [] /\ chain m p l /\ exists q, get_prev m p = Some q /\ pchain m q ls
  end.

Lemma chain_head m p l : chain m p l -> l <> [] -> p ∈ l /\ get_next m p <> None /\ p <> NULL.
Proof using Type.
  destruct l as [|x l]; [done|]. intros (-> & q & Hq & _) _. split; [left|]. split; [by rewrite Hq|]. intros ->. by apply next_null in Hq.
Qed.

Lemma pchain_length m ls : forall p, pchain m p ls -> (length ls <= length (List.concat ls))%nat.
Proof using Type.
  induction ls as [|l ls IH]; intros p; [done|]. intros (Hl & _ & q & _ & Hq). cbn [List.concat length]. rewrite length_app.
  specialize (IH q Hq). destruct l; [done|cbn [length]; lia].
Qed.

Lemma pchain_frame m m' ls : forall p, (forall x, x ∈ List.concat ls -> get_next m' x = get_next m x) ->
  (forall x, x ∈ List.concat ls -> get_prev m' x = get_prev m x) -> pchain m p ls -> pchain m' p ls.
Proof using Type.
  induction ls as [|l ls IH]; intros p Hn Hp; [done|]. intros (Hl & Hc & q & Hq & Hr). cbn [List.concat] in *.
  split; [done|]. split; [apply chain_frame with m; [|done]; intros x Hx; apply Hn, elem_of_app; by left|].
  exists q. destruct (chain_head _ _ _ Hc Hl) as [Hin _]. split; [rewrite Hp; [done|apply elem_of_app; by left]|].
  apply IH; [..|done]; intros x Hx; [apply Hn|apply Hp]; apply elem_of_app; by right.
Qed.

(** What is left at [tail] of the chains [ls], sorted from [segs]: the same nodes,
    in chains [ls'] sorted from the same input, and the rest as it was. *)
Record collapsed (m : memory) (pending : Z) (tail : option Z) (ls segs : list (list Z)) (m' : memory) (pending' : Z) (ls' segs' : list (list Z)) : Prop := {
  co_chain : exists p, load_pending m' pending' tail = Some p /\ pchain m' p ls';
  co_sorts : Forall2 sorts segs' ls';
  co_input : List.concat (rev segs') = List.concat (rev segs);
  co_nodes : Permutation (List.concat ls) (List.concat ls');
  co_pending : tail <> None -> pending' = pending;
  co_next : forall x, x ∉ List.concat ls -> get_next m' x = get_next m x;
  co_prev : forall x, x ∉ List.concat ls -> tail <> Some x -> get_prev m' x = get_prev m x
}.

Lemma collapsed_refl m pending tail p ls segs : load_pending m pending tail = Some p -> pchain m p ls -> Forall2 sorts segs ls ->
  collapsed m pending tail ls segs m pending ls segs.
Proof using Type. intros Hl Hc Hs. split; try done. by exists p. Qed.

Lemma collapsed_cons m pending tail p l ls s segs m' pending' ls' segs' q :
  load_pending m pending tail = Some p -> chain m p l -> l <> [] -> get_prev m p = Some q -> sorts s l ->
  NoDup (l ++ List.concat ls)%list -> (forall t, tail = Some t -> t ∉ (l ++ List.concat ls)%list) ->
  collapsed m pending (Some p) ls segs m' pending' ls' segs' -> collapsed m pending tail (l :: ls) (s :: segs) m' pending' (l :: ls') (s :: segs').
Proof using Type.
  intros Hp Hc Hl Hq Hs Hnd Ht [(q' & Hq' & Hc') Hs' Hi' Hn' Hp' Hnx Hpv]. specialize (Hp' ltac:(done)) as ->.
  destruct (chain_head _ _ _ Hc Hl) as (Hin & _). apply list.NoDup_app in Hnd as (_ & Hdis & _). split.
  - exists p. split; [|split; [done|split]].
    + destruct tail as [t|]; [|done]. cbn [load_pending] in *. specialize (Ht t eq_refl). rewrite not_elem_of_app in Ht. rewrite Hpv; [done|tauto|].
      intros [= ->]. tauto.
    + apply chain_frame with m; [|done]. intros x Hx. apply Hnx. by apply Hdis.
    + by exists q'.
  - by constructor.
  - cbn [rev]. by rewrite !List.concat_app, Hi'.
  - cbn [List.concat]. by rewrite Hn'.
  - done.
  - intros x Hx. cbn [List.concat] in Hx. rewrite not_elem_of_app in Hx. apply Hnx; tauto.
  - intros x Hx Htx. cbn [List.concat] in Hx. rewrite not_elem_of_app in Hx. apply Hpv; [tauto|]. intros [= ->]. tauto.
Qed.

(** The merge of the first two chains at [tail]. *)
Lemma collapse_two m pending tail p la lb ls sa sb segs : load_pending m pending tail = Some p -> pchain m p (la :: lb :: ls) ->
  NoDup (List.concat (la :: lb :: ls)) -> (forall t, tail = Some t -> t ∉ List.concat (la :: lb :: ls)) -> (length la + length lb <= fuel)%nat ->
  sorts sa la -> sorts sb lb -> Forall2 sorts segs ls ->
  exists m' pending', (b ← get_prev m p; '(m, a) ← merge cmp fuel m b p; next ← get_prev m b; m ← set_prev m a next; store_pending m pending tail a) = Some (m', pending') /\
    collapsed m pending tail (la :: lb :: ls) (sa :: sb :: segs) m' pending' (lmerge cmp lb la :: ls) ((sb ++ sa)%list :: segs).
Proof using Type.
  intros Hp (Hla & Hca & b & Eb & Hlb & Hcb & q & Eq & Hq) Hnd Ht Hf Hsa Hsb Hs. rewrite Eb. cbn [mbind option_bind List.concat] in *.
  rewrite app_assoc in Hnd. pose proof Hnd as Hnd'. apply list.NoDup_app in Hnd' as (Hnd1 & Hdis & Hnd2).
  destruct (merge_ok cmp fuel m b p lb la) as (m1 & r & -> & Hr & Hn1 & Hp1); [done..|by rewrite Permutation_app_comm|lia|].
  cbn [mbind option_bind]. rewrite Hp1, Eq. cbn [mbind option_bind].
  assert (lmerge cmp lb la <> []) as Hne.
  { intros E. pose proof (lmerge_perm cmp lb la) as Hpm. rewrite E in Hpm. apply Permutation_sym, Permutation_nil in Hpm. by destruct lb. }
  destruct (chain_head _ _ _ Hr Hne) as (Hin & Hrn & _). rewrite <- (lmerge_perm cmp lb la), elem_of_app in Hin.
  destruct (get_next m1 r) as [qr|] eqn:Er; [|done]. destruct (proj1 (next_prev m1 r)) as [pr Epr]; [by eexists|].
  destruct (set_prev_ok m1 r q pr Epr) as (m2 & -> & Hp2 & Hn2). cbn [mbind option_bind].
  assert (exists m' pending', store_pending m2 pending tail r = Some (m', pending') /\ load_pending m' pending' tail = Some r /\ (tail <> None -> pending' = pending) /\
    (forall x, get_next m' x = get_next m2 x) /\ (forall x, tail <> Some x -> get_prev m' x = get_prev m2 x)) as (m' & pending' & -> & Hl' & Hpe & Hn' & Hp').
  { destruct tail as [t|]; cbn [store_pending load_pending] in *; [|by exists m2, r].
    destruct (set_prev_ok m2 t r (if t =? r then q else p)) as (m' & -> & Hp' & Hn'); [rewrite Hp2, Hp1; by destruct (t =? r)|].
    exists m', pending. split; [done|]. rewrite Hp', Z.eqb_refl. split; [done|]. split; [done|]. split; [done|].
    intros x Hx. rewrite Hp'. destruct (Z.eqb_spec x t) as [->|]; done. }
  eexists _, _. split; [done|].
  assert (forall t, tail = Some t -> (t ∉ la) /\ (t ∉ lb) /\ t ∉ List.concat ls) as Ht'.
  { intros t Et. specialize (Ht t Et). rewrite !not_elem_of_app in Ht. tauto. }
  split.
  - exists r. split; [done|]. split; [done|]. split; [apply chain_frame with m1; [intros; by rewrite Hn'|done]|]. exists q.
    assert (tail <> Some r) as Htr by (intros E; destruct (Ht' r E); tauto).
    split; [rewrite Hp', Hp2, Z.eqb_refl by done; done|]. apply pchain_frame with m; [..|done]; intros x Hx.
    + rewrite Hn', Hn2, Hn1; [done|intros Hx2; destruct (Hdis x); [apply elem_of_app; tauto|done]..].
    + rewrite Hp' by (intros E; destruct (Ht' x E); tauto). rewrite Hp2, Hp1. destruct (Z.eqb_spec x r) as [->|]; [|done].
      destruct (Hdis r); [apply elem_of_app; tauto|done].
  - constructor; [by apply sorts_merge|done].
  - cbn [rev]. rewrite !List.concat_app. cbn [List.concat]. by rewrite !app_nil_r, !app_assoc.
  - cbn [List.concat]. by rewrite app_assoc, <- lmerge_perm, (Permutation_app_comm la).
  - done.
  - intros x Hx. cbn [List.concat] in Hx. rewrite !not_elem_of_app in Hx. rewrite Hn', Hn2, Hn1; tauto.
  - intros x Hx Htx. cbn [List.concat] in Hx. rewrite !not_elem_of_app in Hx. rewrite Hp', Hp2, Hp1 by done. destruct (Z.eqb_spec x r) as [->|]; tauto.
Qed.

(** Every clear bit of [count] below the highest leaves two chains to merge. *)
Lemma merge_pending_ok n : forall m pending tail p ls segs bits, load_pending m pending tail = Some p -> pchain m p ls ->
  NoDup (List.concat ls) -> (forall t, tail = Some t -> t ∉ List.concat ls) -> 0 <= bits < 2 ^ Z.of_nat (length ls) -> bits < 2 ^ (Z.of_nat n - 1) ->
  (length (List.concat ls) <= fuel)%nat -> Forall2 sorts segs ls ->
  exists m' pending' ls' segs', merge_pending cmp fuel n m pending tail bits = Some (m', pending') /\
    collapsed m pending tail ls segs m' pending' ls' segs' /\ bits + 1 < 2 ^ (Z.of_nat (length ls') + 1).
Proof using Type.
  induction n as [|n IH]; intros m pending tail p ls segs bits Hp Hc Hnd Ht Hb Hn Hf Hs; [rewrite Z.pow_neg_r in Hn by lia; lia|].
  cbn [merge_pending]. destruct (Z.odd bits) eqn:Eo.
  - rewrite Hp. cbn [mbind option_bind]. destruct ls as [|l ls]; [assert (bits = 0) as -> by (cbn in Hb; lia); done|].
    destruct Hc as (Hl & Hc & q & Eq & Hq). destruct (chain_head _ _ _ Hc Hl) as (Hin & _ & Hnull). destruct (Z.eqb_spec p NULL); [done|].
    inversion Hs as [|s ? segs' ? Hs1 Hs2]; subst. cbn [List.concat] in Hnd, Ht, Hf. pose proof Hnd as Hnd'. apply list.NoDup_app in Hnd' as (Hnd1 & Hdis & Hnd2).
    pose proof (Z.div_mod bits 2 ltac:(lia)) as Hd. rewrite Zmod_odd, Eo in Hd.
    cbn [length] in Hb. rewrite Nat2Z.inj_succ, Z.pow_succ_r in Hb by lia. rewrite Z.shiftr_div_pow2 by lia. change (2 ^ 1) with 2.
    assert (1 <= n)%nat as Hn1 by (destruct n; [cbn in Hn; lia|lia]).
    replace (Z.of_nat (S n) - 1) with (Z.succ (Z.of_nat n - 1)) in Hn by lia. rewrite Z.pow_succ_r in Hn by lia.
    destruct (IH m pending (Some p) q ls segs' (bits / 2)) as (m' & pending' & ls' & segs2 & -> & Hco & Hlt); [done|done|done| |lia|lia|rewrite length_app in Hf; lia|done|].
    { intros t [= <-]. by apply Hdis. }
    eexists _, _, (l :: ls'), (s :: segs2). split; [done|]. split; [by apply collapsed_cons with p q|].
    cbn [length]. rewrite Nat2Z.inj_succ, Z.add_succ_l, Z.pow_succ_r by lia. lia.
  - destruct (Z.eqb_spec bits 0) as [->|Hne].
    { eexists _, _, ls, segs. split; [done|]. split; [by apply collapsed_refl with p|]. assert (1 < 2 ^ (Z.of_nat (length ls) + 1)) by (apply Z.pow_gt_1; lia). lia. }
    assert (bits mod 2 = 0) as Em by (rewrite Zmod_odd, Eo; done).
    destruct ls as [|la [|lb ls]]; [cbn in Hb; lia|cbn in Hb; assert (bits = 1) as -> by lia; done|].
    inversion Hs as [|sa ? segs1 ? Hsa Hs1]; subst. inversion Hs1 as [|sb ? segs2 ? Hsb Hs2]; subst.
    rewrite Hp. cbn [mbind option_bind]. destruct (collapse_two m pending tail p la lb ls sa sb segs2) as (m' & pending' & E & Hco); try done.
    { cbn [List.concat] in Hf. rewrite !length_app in Hf. lia. }
    cbn [mbind option_bind] in E. rewrite E. eexists _, _, _, _. split; [done|]. split; [done|].
    cbn [length] in Hb |- *. rewrite Nat2Z.inj_succ, Z.pow_succ_r in Hb by lia. rewrite Z.pow_add_r by lia. pose proof (Z.div_mod bits 2 ltac:(lia)). lia.
Qed.

Lemma push_ok m pending x q ls : pchain m pending ls -> get_next m x = Some q -> (x ∉ List.concat ls) ->
  exists m1 m2, set_prev m x pending = Some m1 /\ get_next m1 x = Some q /\ set_next m1 x NULL = Some m2 /\ pchain m2 x ([x] :: ls) /\
    (forall y, y <> x -> get_next m2 y = get_next m y /\ get_prev m2 y = get_prev m y).
Proof using Type.
  intros Hc Hq Hx. destruct (proj1 (next_prev m x)) as [px Epx]; [by eexists|].
  destruct (set_prev_ok m x pending px Epx) as (m1 & -> & Hp1 & Hn1).
  destruct (set_next_ok m1 x NULL q) as (m2 & E2 & Hn2 & Hp2); [by rewrite Hn1|]. exists m1, m2. split; [done|]. split; [by rewrite Hn1|]. split; [done|].
  assert (forall y, y <> x -> get_next m2 y = get_next m y /\ get_prev m2 y = get_prev m y) as Hy.
  { intros y Hy. rewrite Hn2, Hn1, Hp2, Hp1. by destruct (Z.eqb_spec y x). }
  split; [|done]. split; [done|]. split; [split; [done|]; exists NULL; by rewrite Hn2, Z.eqb_refl|]. exists pending. rewrite Hp2, Hp1, Z.eqb_refl.
  split; [done|]. apply pchain_frame with m; [..|done]; intros y Hin; apply Hy; congruence.
Qed.

Lemma sort_loop_ok n : forall m pending list count ls segs rest, pchain m pending ls -> chain m list rest -> rest <> [] ->
  NoDup (List.concat ls ++ rest)%list -> Forall2 sorts segs ls -> 0 <= count < 2 ^ Z.of_nat (length ls) ->
  count + Z.of_nat (length rest) < 2 ^ 64 -> (length rest <= n)%nat -> (length (List.concat ls) + length rest <= fuel)%nat ->
  exists m' pending' ls' segs', sort_loop cmp fuel n m pending list count = Some (m', pending') /\
    pchain m' pending' ls' /\ Forall2 sorts segs' ls' /\ List.concat (rev segs') = (List.concat (rev segs) ++ rest)%list /\
    Permutation (List.concat ls ++ rest) (List.concat ls') /\ count + Z.of_nat (length rest) < 2 ^ Z.of_nat (length ls') /\
    (forall x, x ∉ (List.concat ls ++ rest)%list -> get_next m' x = get_next m x /\ get_prev m' x = get_prev m x).
Proof using Type.
  induction n as [|n IH]; intros m pending list count ls segs rest Hp Hc Hrest Hnd Hs Hcount Hmax Hn Hf; [destruct rest; cbn in Hn; [done|lia]|].
  destruct rest as [|x rest]; [done|]. destruct Hc as (-> & q & Eq & Hc). cbn [sort_loop length] in *.
  pose proof Hnd as Hnd'. apply list.NoDup_app in Hnd' as (Hnd1 & Hdis & Hnd2). apply list.NoDup_cons in Hnd2 as [Hx Hnd2].
  destruct (merge_pending_ok 65 m pending None pending ls segs count) as (m1 & pe1 & ls1 & segs1 & -> & [(p1 & [= <-] & Hc1) Hs1 Hi1 Hpm1 _ Hn1 Hp1] & Hlt); [done..|change (Z.of_nat 65 - 1) with 64; lia|lia|done|].
  cbn [mbind option_bind]. assert (forall y, y ∈ x :: rest -> y ∉ List.concat ls) as Hdis' by (intros y Hy Hy2; by apply (Hdis y)).
  assert (x ∉ List.concat ls1) as Hx1 by (rewrite <- Hpm1; apply Hdis'; left).
  destruct (push_ok m1 pe1 x q ls1) as (m2 & m3 & -> & E2 & E3 & Hc3 & H31); [done|by rewrite Hn1 by (apply Hdis'; left)|done|].
  cbn [mbind option_bind]. rewrite E2. cbn [mbind option_bind]. rewrite E3. cbn [mbind option_bind]. rewrite (chain_null m q rest) by done.
  assert (Forall2 sorts ([x] :: segs1) ([x] :: ls1)) as Hs3 by (constructor; [apply sorts_one|done]).
  assert (List.concat (rev ([x] :: segs1)) = (List.concat (rev segs) ++ [x])%list) as Hi3 by (cbn [rev]; rewrite List.concat_app, Hi1; cbn [List.concat]; by rewrite app_nil_r).
  assert (forall y, y ∉ (List.concat ls ++ x :: rest)%list -> get_next m3 y = get_next m y /\ get_prev m3 y = get_prev m y) as Hfr.
  { intros y Hy. rewrite not_elem_of_app, not_elem_of_cons in Hy. destruct (H31 y) as [-> ->]; [tauto|]. rewrite Hn1, Hp1 by (done || tauto). done. }
  rewrite u64_small by lia. replace (count + Z.of_nat (S (length rest))) with (count + 1 + Z.of_nat (length rest)) in * by lia.
  destruct rest as [|x2 rest].
  - eexists _, _, ([x] :: ls1), ([x] :: segs1). split; [done|]. split; [done|]. split; [done|]. split; [done|].
    split; [cbn [List.concat]; by rewrite Hpm1, Permutation_app_comm|]. split; [|done].
    cbn [length] in *. rewrite Nat2Z.inj_succ. replace (count + 1 + Z.of_nat 0) with (count + 1) by lia. done.
  - destruct (IH m3 x q (count + 1) ([x] :: ls1) ([x] :: segs1) (x2 :: rest)) as (m' & pe' & ls' & segs' & -> & Hc' & Hs' & Hi' & Hpm' & Hl' & Hfr').
    + done.
    + apply chain_frame with m; [|done]. intros y Hy. rewrite (proj1 (H31 y ltac:(intros ->; done))). apply Hn1, Hdis'. by right.
    + done.
    + cbn [List.concat app]. apply list.NoDup_cons. rewrite <- Hpm1. split; [rewrite not_elem_of_app; split; [apply Hdis'; left|done]|].
      apply list.NoDup_app. split; [done|]. split; [intros y Hy Hy2; apply (Hdis y Hy); by right|done].
    + done.
    + cbn [length]. rewrite Nat2Z.inj_succ. split; [lia|]. by rewrite <- Z.add_1_r.
    + lia.
    + cbn [length] in *; lia.
    + cbn [List.concat app length] in *. rewrite <- (Permutation_length Hpm1). lia.
    + exists m', pe', ls', segs'. split; [done|]. split; [done|]. split; [done|]. split; [rewrite Hi', Hi3, <- app_assoc; done|].
      assert (Permutation (List.concat ls ++ x :: x2 :: rest) (List.concat ([x] :: ls1) ++ x2 :: rest)) as Hpm.
      { cbn [List.concat app]. by rewrite <- Permutation_middle, <- Hpm1. }
      split; [by rewrite Hpm|]. split; [done|]. intros y Hy. destruct (Hfr' y) as [-> ->]; [by rewrite <- Hpm|]. by apply Hfr.
Qed.

Lemma merge_rest_ok n : forall m pending list l la ls s sa segs, chain m list l -> l <> [] -> pchain m pending (la :: ls) ->
  NoDup (l ++ la ++ List.concat ls)%list -> sorts s l -> sorts sa la -> Forall2 sorts segs ls -> (length ls < n)%nat ->
  (length l + length la + length (List.concat ls) <= fuel)%nat ->
  exists m' pending' list' l' la' s' sa', merge_rest cmp fuel n m pending list = Some (m', pending', list') /\
    chain m' pending' la' /\ chain m' list' l' /\ la' <> [] /\ l' <> [] /\ sorts s' l' /\ sorts sa' la' /\
    (sa' ++ s')%list = (List.concat (rev segs) ++ sa ++ s)%list /\ Permutation (l ++ la ++ List.concat ls) (l' ++ la') /\
    (forall x, x ∉ (l ++ la ++ List.concat ls)%list -> get_next m' x = get_next m x) /\ (forall x, get_prev m' x = get_prev m x).
Proof using Type.
  induction n as [|n IH]; intros m pending list l la ls s sa segs Hc Hl (Hla & Hca & q & Eq & Hq) Hnd Hs Hsa Hss Hn Hf; [lia|].
  cbn [merge_rest]. rewrite Eq. cbn [mbind option_bind]. destruct ls as [|lb ls].
  { cbn in Hq. subst q. inversion Hss; subst. eexists _, _, _, l, la, s, sa. split; [done|]. cbn [List.concat rev app]. rewrite app_nil_r.
    repeat (split; [done|]). done. }
  destruct Hq as (Hlb & Hcb & q2 & Eq2 & Hq). destruct (chain_head _ _ _ Hcb Hlb) as (_ & _ & Hqn). destruct (Z.eqb_spec q NULL); [done|].
  inversion Hss as [|sb ? segs' ? Hsb Hss']; subst. cbn [List.concat length] in *. rewrite !length_app in Hf.
  rewrite app_assoc in Hnd. pose proof Hnd as Hnd'. apply list.NoDup_app in Hnd' as (Hnd1 & Hdis & Hnd2).
  assert (NoDup (la ++ l)%list) as Hnd3 by (by rewrite Permutation_app_comm).
  destruct (merge_ok cmp fuel m pending list la l) as (m1 & r & -> & Hr & Hn1 & Hp1); [done..|lia|]. cbn [mbind option_bind].
  assert (forall x, x ∈ (lb ++ List.concat ls)%list -> get_next m1 x = get_next m x) as Hfr.
  { intros x Hx. apply Hn1; intros Hx2; apply (Hdis x); [apply elem_of_app; tauto|done|apply elem_of_app; tauto|done]. }
  pose proof (lmerge_perm cmp la l) as Hpm. pose proof (Permutation_length Hpm) as Hlen. rewrite length_app in Hlen.
  destruct (IH m1 q r (lmerge cmp la l) lb ls (sa ++ s)%list sb segs') as (m' & pe' & li' & l' & la' & s' & sa' & -> & H1 & H2 & H3 & H4 & H5 & H6 & H7 & H8 & H9 & H10).
  - done.
  - intros E. rewrite E in Hlen. destruct la; [done|cbn in Hlen; lia].
  - split; [done|]. split; [apply chain_frame with m; [intros x Hx; apply Hfr, elem_of_app; by left|done]|]. exists q2.
    split; [by rewrite Hp1|]. apply pchain_frame with m; [intros x Hx; apply Hfr, elem_of_app; by right|intros; apply Hp1|done].
  - rewrite <- Hpm, (Permutation_app_comm la). done.
  - by apply sorts_merge.
  - done.
  - done.
  - lia.
  - lia.
  - exists m', pe', li', l', la', s', sa'. repeat (split; [done|]).
    assert (Permutation (l ++ la ++ lb ++ List.concat ls) (lmerge cmp la l ++ lb ++ List.concat ls)) as Hpm2.
    { by rewrite app_assoc, (Permutation_app_comm l), Hpm. }
    split; [rewrite H7; cbn [rev]; rewrite List.concat_app; cbn [List.concat]; by rewrite app_nil_r, <- !app_assoc|].
    split; [by rewrite Hpm2|]. split; [|intros x; by rewrite H10]. intros x Hx. rewrite H9 by (by rewrite <- Hpm2).
    rewrite !not_elem_of_app in Hx. apply Hn1; tauto.
Qed.

Lemma dpath_chain m e l : forall t, dpath m t l e -> l <> [] -> NoDup l -> exists p z, get_next m t = Some p /\ get_prev m e = Some z /\ z ∈ l /\
  (forall x, x ∈ l -> get_next m x <> None) /\ hd_error l = Some p /\ (z = p -> l = [p]) /\
  forall m', (forall x, x ∈ l -> get_next m' x = if x =? z then Some NULL else get_next m x) -> chain m' p l.
Proof using Type.
  induction l as [|x l IH]; intros t Hd Hl Hnd; [done|]. destruct Hd as (Ht & Hx & Hd). apply list.NoDup_cons in Hnd as [Hxl Hnd]. destruct l as [|y l].
  - destruct Hd as [Hnx Hpe]. exists x, x. split; [done|]. split; [done|]. split; [left|].
    split; [intros w ->%list_elem_of_singleton; by rewrite Hnx|]. split; [done|]. split; [done|].
    intros m' Hm'. split; [done|]. exists NULL. split; [|done]. rewrite Hm' by left. by rewrite Z.eqb_refl.
  - destruct (IH x Hd ltac:(done) Hnd) as (p & z & Hp & Hz & Hin & Hall & [= ->] & _ & Hc). exists x, z. split; [done|]. split; [done|]. split; [by right|].
    split; [intros w [->|Hw]%elem_of_cons; [by rewrite Hp|by apply Hall]|]. split; [done|]. split; [intros ->; done|].
    intros m' Hm'. split; [done|]. exists p. split; [|apply Hc; intros w Hw; apply Hm'; by right]. rewrite Hm' by left.
    destruct (Z.eqb_spec x z) as [->|]; done.
Qed.

(** What holds of [list_sort]. *)
Lemma list_sort_ok m head l : ring m head l -> Z.of_nat (length l) < 2 ^ 64 -> (length l <= fuel)%nat ->
  exists m' l', list_sort cmp fuel m head = Some m' /\ ring m' head l' /\ sorts l l' /\
    (forall x, x ∉ head :: l -> deref m' x = deref m x).
Proof using Type.
  intros [Hd Hnd] Hmax Hf. apply list.NoDup_cons in Hnd as [Hhl Hnd]. unfold list_sort.
  destruct l as [|x0 l0] eqn:El.
  { destruct Hd as [E1 E2]. rewrite E1, E2. cbn [mbind option_bind]. rewrite Z.eqb_refl. exists m, []. split; [done|].
    split; [split; [done|by apply NoDup_singleton]|]. split; [|done]. split; [done|]. intros _. split; [constructor|done]. }
  rewrite <- El in *. assert (l <> []) as Hl by (by rewrite El). clear x0 l0 El.
  destruct (dpath_chain m head l head Hd Hl Hnd) as (p & z & Ep & Ez & Hin & Hall & Hhd & Hone & Hc). rewrite Ep, Ez. cbn [mbind option_bind].
  destruct (Z.eqb_spec p z) as [->|Hpz].
  { rewrite (Hone eq_refl) in *. exists m, [z]. split; [done|]. split; [split; [done|apply list.NoDup_cons; split; [done|by apply NoDup_singleton]]|].
    split; [apply sorts_one|done]. }
  destruct (get_next m z) as [qz|] eqn:Eqz; [|by destruct (Hall z Hin)].
  destruct (set_next_ok m z NULL qz Eqz) as (m1 & -> & Hn1 & Hp1). cbn [mbind option_bind].
  destruct (sort_loop_ok fuel m1 NULL p 0 [] [] l) as (m2 & pe & ls & segs & -> & Hc2 & Hs2 & Hi2 & Hpm2 & Hlt & Hfr2);
    [done|apply Hc; intros; apply Hn1|done|done|by constructor|cbn; lia|lia|done|cbn; lia|].
  cbn [mbind option_bind List.concat rev app] in *.
  assert (2 <= length l)%nat as H2.
  { destruct l as [|a [|b l]]; [done| |cbn; lia]. destruct Hpz. injection Hhd as ->. by apply list_elem_of_singleton in Hin. }
  destruct ls as [|l1 [|l2 ls]]; [cbn in Hlt; lia..|]. destruct Hc2 as (Hl1 & Hch1 & q & Eq & Hc2). rewrite Eq. cbn [mbind option_bind].
  destruct segs as [|s1 [|s2 segs]]; [by inversion Hs2|by inversion Hs2 as [|? ? ? ? _ Hs3]; inversion Hs3|].
  apply list.Forall2_cons in Hs2 as [Hs1 Hs2]. apply list.Forall2_cons in Hs2 as [Hs2 Hss]. cbn [List.concat rev] in *.
  rewrite !List.concat_app in Hi2. cbn [List.concat] in Hi2. rewrite !app_nil_r, <- app_assoc in Hi2.
  pose proof (Permutation_length Hpm2) as Hlen. rewrite !length_app in Hlen. pose proof (pchain_length m2 (l2 :: ls) q Hc2) as Hpl.
  cbn [length List.concat] in Hpl. rewrite length_app in Hpl.
  destruct (merge_rest_ok fuel m2 q pe l1 l2 ls s1 s2 segs) as (m3 & pe3 & li3 & l' & la' & s' & sa' & -> & H1 & H3 & H4 & H5 & H6 & H7 & H8 & H9 & H10 & H11);
    [done|done|done|by rewrite <- Hpm2|done|done|done|lia|lia|].
  cbn [mbind option_bind]. rewrite <- Hpm2 in H9. pose proof (Permutation_length H9) as Hlen9. rewrite length_app in Hlen9.
  assert (forall x, x ∉ l -> get_next m3 x = get_next m1 x /\ get_prev m3 x = get_prev m1 x) as Hfr3.
  { intros x Hx. rewrite H10, H11 by (by rewrite <- Hpm2). by apply Hfr2. }
  destruct (Hfr3 head Hhl) as [Enh Eph]. rewrite Hn1, Ep in Enh. rewrite Hp1, Ez in Eph.
  destruct (Z.eqb_spec head z) as [->|Hhz]; [done|].
  assert ((head ∉ la') /\ head ∉ l') as [Hha Hhb] by (rewrite H9, not_elem_of_app in Hhl; tauto).
  destruct (final_loop_ok cmp fuel head fuel m3 head pe3 li3 la' l') as (m' & E & Hd' & Hn' & Hp');
    [done..|by rewrite Permutation_app_comm, <- H9|done|done|done|done|by rewrite Enh|by rewrite Eph|lia|lia|].
  exists m', (lmerge cmp la' l'). split; [exact E|]. pose proof (lmerge_perm cmp la' l') as Hpm.
  split; [split; [done|]|split].
  - apply list.NoDup_cons. rewrite <- Hpm, (Permutation_app_comm la'), <- H9. done.
  - assert (l = (sa' ++ s')%list) as -> by (by rewrite H8, Hi2). by apply sorts_merge.
  - intros x Hx. rewrite not_elem_of_cons in Hx. destruct Hx as [Hxh Hxl]. destruct (Hfr3 x Hxl) as [E1 E2].
    rewrite H9, not_elem_of_app in Hxl. apply deref_ext; [rewrite Hn', E1, Hn1 by tauto|rewrite Hp', E2, Hp1 by tauto; done].
    destruct (Z.eqb_spec x z) as [->|]; [|done]. rewrite H9, elem_of_app in Hin. tauto.
Qed.
End pending.

(** ** Claims *)

(** C9: [list_sort] on a ring of nodes ends without an access to NULL or outside the
    memory, whatever [cmp] answers, and leaves the same nodes in a ring, linked both
    ways, and the rest of the memory as it was.  If [cmp] is a total preorder the
    nodes are sorted by it, and those it takes for equal keep their order. *)
Theorem list_sort_stable cmp fuel m head l : ring m head l -> Z.of_nat (length l) < 2 ^ 64 -> (length l <= fuel)%nat ->
  exists m' l', list_sort cmp fuel m head = Some m' /\ ring m' head l' /\ Permutation l l' /\
    (preorder cmp -> StronglySorted (before cmp) l' /\ forall z, List.filter (same cmp z) l' = List.filter (same cmp z) l) /\
    (forall x, x ∉ head :: l -> deref m' x = deref m x).
Proof.
  intros Hr Hmax Hf. destruct (list_sort_ok cmp fuel m head l Hr Hmax Hf) as (m' & l' & E & Hr' & [Hp Hs] & Hx). by exists m', l'.
Qed.

(** ** Witness: nodes by their tens *)

Fixpoint ring_from (prev head : Z) (l : list Z) (last : Z) : memory :=
  match l with
  | [] => {[ head := mkLh last prev ]}
  | [x] => <[x := mkLh head prev]> {[ head := mkLh last x ]}
  | x :: (y :: _) as l => <[x := mkLh y prev]> (ring_from x head l last)
  end.
Definition ring_of (head : Z) (l : list Z) : memory := ring_from head head l (hd head l).
Definition tens (a b : Z) : Z := a / 10 - b / 10.

Example tens_sorted : list_sort tens 7 (ring_of 1 [31; 12; 33; 25; 14; 37; 22]) 1 = Some (ring_of 1 [12; 14; 25; 22; 31; 33; 37]).
Proof. by vm_compute. Qed.

Lemma list_sort_witness : (ring (ring_of 1 [31; 12; 33; 25; 14; 37; 22]) 1 [31; 12; 33; 25; 14; 37; 22] /\ preorder tens) /\
  exists m' l', list_sort tens 7 (ring_of 1 [31; 12; 33; 25; 14; 37; 22]) 1 = Some m' /\ ring m' 1 l' /\ Permutation [31; 12; 33; 25; 14; 37; 22] l' /\
    (preorder tens -> StronglySorted (before tens) l' /\ forall z, List.filter (same tens z) l' = List.filter (same tens z) [31; 12; 33; 25; 14; 37; 22]) /\
    (forall x, x ∉ [1; 31; 12; 33; 25; 14; 37; 22] -> deref m' x = deref (ring_of 1 [31; 12; 33; 25; 14; 37; 22]) x).
Proof.
  assert (ring (ring_of 1 [31; 12; 33; 25; 14; 37; 22]) 1 [31; 12; 33; 25; 14; 37; 22]) as Hr.
  { split; [by vm_compute|]. by apply (bool_decide_unpack _). }
  split; [split; [done|]|].
  - unfold preorder, before, tens. split; intros; lia.
  - apply (list_sort_stable tens 7 _ 1 _ Hr); [by vm_compute|cbn; lia].
Defined.
