(* ===== verification/CallPathTheorems.v ===== *)
(** Theorems on call paths: every chain of calls has just one call path. *)
From Stdlib Require Import ZArith Lia List Bool.
From stdpp Require Import sorting.
From S2P Require Import Prelude RbTree RbTreeTheorems CallPath.
Open Scope Z_scope.
Open Scope c_scope.
Import ListNotations.

(** ** Keys *)

Definition key : Type := Z * Z.
Definition key_lt (k k' : key) : Prop := k.1 < k'.1 \/ k.1 = k'.1 /\ k.2 < k'.2.
Definition key_cmp (k k' : key) : comparison :=
  match k.1 ?= k'.1 with Eq => k.2 ?= k'.2 | c => c end.

Lemma key_cmp_spec k k' : match key_cmp k k' with
  | Eq => k = k'
  | Lt => key_lt k k'
  | Gt => key_lt k' k
  end.
Proof.
  unfold key_cmp, key_lt. destruct k as [s i], k' as [s' i']. cbn.
  destruct (Z.compare_spec s s'); [|lia|lia]. destruct (Z.compare_spec i i'); [by subst|lia|lia].
Qed.

Lemma key_cmp_eq k k' : key_cmp k k' = Eq <-> k = k'.
Proof.
  split; [intros E; pose proof (key_cmp_spec k k') as Hk; by rewrite E in Hk|]. intros ->.
  unfold key_cmp. by rewrite !Z.compare_refl.
Qed.

Lemma key_cmp_lt k k' : key_cmp k k' = Lt <-> key_lt k k'.
Proof.
  pose proof (key_cmp_spec k k') as Hk. unfold key_lt in *. destruct (key_cmp k k'); split; intros Hc; try done;
    [subst; lia|lia].
Qed.

Lemma key_cmp_gt k k' : key_cmp k k' = Gt <-> key_lt k' k.
Proof.
  pose proof (key_cmp_spec k k') as Hk. unfold key_lt in *. destruct (key_cmp k k'); split; intros Hc; try done;
    [subst; lia|lia].
Qed.

Section paths.
Implicit Types (paths : list call_path) (cpr : call_path_root).

Definition key_of paths (n : nat) : key :=
  match paths !! n with Some cp => (cp_sym cp, cp_ip cp) | None => (0, 0) end.
Definition parent_of paths (n : nat) : option nat := cp ← paths !! n; cp_parent cp.

(** ** The search *)

Lemma find_child_loop paths sym ip (t : rb_node nat) : forall p, Forall (fun n => (n < length paths)%nat) (elements t) ->
  find_child paths sym ip t p = Some (find_loop (fun n => key_cmp (sym, ip) (key_of paths n)) t p).
Proof.
  induction t as [|c l IHl n r IHr]; intros p Ht; [done|]. cbn [find_child find_loop elements] in *.
  apply Forall_app in Ht as [Hl Hr]. inversion Hr as [|? ? Hn Hr']; subst.
  destruct (lookup_lt_is_Some_2 paths n Hn) as [cp Ecp]. rewrite Ecp. cbn [mbind option_bind].
  assert (key_of paths n = (cp_sym cp, cp_ip cp)) as Ek by (unfold key_of; by rewrite Ecp).
  pose proof (key_cmp_spec (sym, ip) (key_of paths n)) as Hk. rewrite Ek in *. unfold key_lt in Hk. cbn [fst snd] in Hk.
  destruct (key_cmp (sym, ip) (cp_sym cp, cp_ip cp)).
  - injection Hk as <- <-. by rewrite !Z.eqb_refl.
  - destruct (Z.eqb_spec (cp_sym cp) sym), (Z.eqb_spec (cp_ip cp) ip); cbn [andb]; try lia;
      (replace ((sym <? cp_sym cp) || ((sym =? cp_sym cp) && (ip <? cp_ip cp))) with true; [by apply IHl|]);
      destruct (Z.ltb_spec sym (cp_sym cp)), (Z.eqb_spec sym (cp_sym cp)), (Z.ltb_spec ip (cp_ip cp)); cbn; lia.
  - destruct (Z.eqb_spec (cp_sym cp) sym), (Z.eqb_spec (cp_ip cp) ip); cbn [andb]; try lia;
      (replace ((sym <? cp_sym cp) || ((sym =? cp_sym cp) && (ip <? cp_ip cp))) with false; [by apply IHr|]);
      destruct (Z.ltb_spec sym (cp_sym cp)), (Z.eqb_spec sym (cp_sym cp)), (Z.ltb_spec ip (cp_ip cp)); cbn; lia.
Qed.

(** ** The invariant *)

(** The blocks in use. *)
Record blocks_ok cpr : Prop := {
  bk_length : Z.of_nat (length (cpr_paths cpr)) = 1 + CALL_PATH_BLOCK_SIZE * Z.of_nat (cpr_blocks cpr);
  bk_sz : cpr_sz cpr = CALL_PATH_BLOCK_SIZE * Z.of_nat (cpr_blocks cpr);
  bk_next : 0 <= cpr_next cpr <= cpr_sz cpr /\ cpr_sz cpr - CALL_PATH_BLOCK_SIZE <= cpr_next cpr
}.

Definition used cpr (n : nat) : Prop := Z.of_nat n <= cpr_next cpr.

Record cpr_ok cpr : Prop := {
  ck_blocks : blocks_ok cpr;
  ck_tree : forall k cp, cpr_paths cpr !! k = Some cp -> is_rbtree (cp_children cp) /\
    StronglySorted (fun n m => key_lt (key_of (cpr_paths cpr) n) (key_of (cpr_paths cpr) m)) (elements (cp_children cp));
  ck_children : forall k cp n, cpr_paths cpr !! k = Some cp ->
    In n (elements (cp_children cp)) <-> (0 < n)%nat /\ used cpr n /\ parent_of (cpr_paths cpr) n = Some k;
  ck_root : parent_of (cpr_paths cpr) 0 = None;
  ck_parent : forall n, (0 < n)%nat -> used cpr n ->
    exists k, parent_of (cpr_paths cpr) n = Some k /\ (k < n)%nat
}.

(** The calls that lead to a call path. *)
Fixpoint path_from (fuel : nat) paths (n : nat) : list key :=
  match fuel with
  | O => []
  | S fuel =>
    match parent_of paths n with
    | Some k => path_from fuel paths k ++ [key_of paths n]
    | None => []
    end
  end.
Definition path_of cpr (n : nat) : list key := path_from n (cpr_paths cpr) n.

Lemma used_lookup cpr n : blocks_ok cpr -> used cpr n -> exists cp, cpr_paths cpr !! n = Some cp.
Proof.
  intros [Hl Hs Hn] Hu. unfold used in Hu. apply lookup_lt_is_Some_2. lia.
Qed.

Lemma path_from_fuel cpr n : cpr_ok cpr -> used cpr n -> forall f, (n <= f)%nat ->
  path_from f (cpr_paths cpr) n = path_of cpr n.
Proof.
  intros Hc. unfold path_of. induction n as [n IH] using lt_wf_ind. intros Hu f Hf. destruct n as [|n].
  - destruct f; cbn; [done|]. by rewrite (ck_root _ Hc).
  - destruct f as [|f]; [lia|]. cbn [path_from]. destruct (ck_parent _ Hc (S n) ltac:(lia) Hu) as (k & -> & Hk).
    assert (used cpr k) as Hu' by (unfold used in *; lia).
    rewrite (IH k Hk Hu' f), (IH k Hk Hu' n) by lia. done.
Qed.

Lemma path_of_root cpr : path_of cpr 0 = [].
Proof. done. Qed.

Lemma path_of_step cpr n k : cpr_ok cpr -> used cpr n -> parent_of (cpr_paths cpr) n = Some k ->
  path_of cpr n = path_of cpr k ++ [key_of (cpr_paths cpr) n].
Proof.
  intros Hc Hu Ep. destruct n as [|n]; [by rewrite (ck_root _ Hc) in Ep|].
  destruct (ck_parent _ Hc (S n) ltac:(lia) Hu) as (k' & Ep' & Hk). rewrite Ep in Ep'. injection Ep' as <-.
  unfold path_of at 1. cbn [path_from]. rewrite Ep. f_equal. apply path_from_fuel; [done|unfold used in *; lia|lia].
Qed.

(** Children with the same key are one. *)
Lemma sorted_key_inj paths l n m :
  StronglySorted (fun n m => key_lt (key_of paths n) (key_of paths m)) l -> In n l -> In m l ->
  key_of paths n = key_of paths m -> n = m.
Proof.
  induction 1 as [|x l _ IH Hx]; intros Hn Hm E; [done|]. rewrite List.Forall_forall in Hx.
  destruct Hn as [<-|Hn], Hm as [<-|Hm]; [done| | |by apply IH].
  - specialize (Hx m Hm). rewrite E in Hx. unfold key_lt in Hx. lia.
  - specialize (Hx n Hn). rewrite E in Hx. unfold key_lt in Hx. lia.
Qed.

Lemma children_inj cpr k n m : cpr_ok cpr -> (0 < n)%nat -> used cpr n -> (0 < m)%nat -> used cpr m ->
  parent_of (cpr_paths cpr) n = Some k -> parent_of (cpr_paths cpr) m = Some k ->
  key_of (cpr_paths cpr) n = key_of (cpr_paths cpr) m -> n = m.
Proof.
  intros Hc Hn Hun Hm Hum En Em Ek. assert (used cpr k) as Huk.
  { destruct (ck_parent _ Hc n Hn Hun) as (k' & E & Hk). rewrite En in E. injection E as <-. unfold used in *. lia. }
  destruct (used_lookup cpr k (ck_blocks _ Hc) Huk) as [cp Ecp].
  eapply sorted_key_inj; [apply (ck_tree _ Hc k cp Ecp)|by apply (ck_children _ Hc k cp n Ecp)|by apply (ck_children _ Hc k cp m Ecp)|done].
Qed.

(** Two call paths are never the same chain of calls. *)
Lemma path_of_inj cpr n : cpr_ok cpr -> forall m, used cpr n -> used cpr m -> path_of cpr n = path_of cpr m -> n = m.
Proof.
  intros Hc. induction n as [n IH] using lt_wf_ind. intros m Hn Hm E.
  assert (forall n, (0 < n)%nat -> used cpr n -> path_of cpr n <> []) as Hne.
  { intros n' Hn' Hu. destruct (ck_parent _ Hc n' Hn' Hu) as (k & Ep & _). rewrite (path_of_step _ _ _ Hc Hu Ep).
    by destruct (path_of cpr k). }
  destruct n as [|n], m as [|m]; [done| | |].
  - symmetry in E. by destruct (Hne (S m) ltac:(lia) Hm).
  - by destruct (Hne (S n) ltac:(lia) Hn).
  - destruct (ck_parent _ Hc (S n) ltac:(lia) Hn) as (k & Ek & Hk). destruct (ck_parent _ Hc (S m) ltac:(lia) Hm) as (k' & Ek' & Hk').
    rewrite (path_of_step _ _ _ Hc Hn Ek), (path_of_step _ _ _ Hc Hm Ek') in E. apply app_inj_tail in E as [E1 E2].
    assert (k = k') as <- by (apply IH; [lia|unfold used in *; lia|unfold used in *; lia|done]).
    apply (children_inj cpr k); try done; lia.
Qed.

(** ** A new call path *)

Lemma new_ok a cpr parent sym ip in_kernel : blocks_ok cpr -> cpr_next cpr < 2 ^ 62 ->
  exists r, call_path__new a cpr parent sym ip in_kernel = Some r /\
    (r = (None, cpr, next_allocs a) /\ a 0%nat = false \/
     exists paths b sz a', r = (Some (S (Z.to_nat (cpr_next cpr))),
         mkCpr (<[S (Z.to_nat (cpr_next cpr)) := call_path__init parent sym ip in_kernel]> paths) b (cpr_next cpr + 1) sz, a') /\
       (S (Z.to_nat (cpr_next cpr)) < length paths)%nat /\
       blocks_ok (mkCpr (<[S (Z.to_nat (cpr_next cpr)) := call_path__init parent sym ip in_kernel]> paths) b (cpr_next cpr + 1) sz) /\
       exists zeros, paths = cpr_paths cpr ++ replicate zeros zero_path).
Proof.
  intros [Hl Hs [Hn Hlast]] Hmax. unfold CALL_PATH_BLOCK_SIZE, CALL_PATH_BLOCK_SHIFT in *. change (1 .<< 8) with 256 in *.
  assert (forall paths b sz a', Z.of_nat (length paths) = 1 + 256 * Z.of_nat b -> sz = 256 * Z.of_nat b ->
    cpr_next cpr < sz -> sz - 256 <= cpr_next cpr -> exists r : option nat * call_path_root * allocs,
    (let n := Z.land (cpr_next cpr) CALL_PATH_BLOCK_MASK in
     let cp := 1 + (Z.of_nat b - 1) * 256 + n in
     paths ← set_at paths cp (call_path__init parent sym ip in_kernel);
     Some (Some (Z.to_nat cp), mkCpr paths b (u64 (cpr_next cpr + 1)) sz, a')) = Some r /\
    r = (Some (S (Z.to_nat (cpr_next cpr))),
         mkCpr (<[S (Z.to_nat (cpr_next cpr)) := call_path__init parent sym ip in_kernel]> paths) b (cpr_next cpr + 1) sz, a') /\
       (S (Z.to_nat (cpr_next cpr)) < length paths)%nat /\
       blocks_ok (mkCpr (<[S (Z.to_nat (cpr_next cpr)) := call_path__init parent sym ip in_kernel]> paths) b (cpr_next cpr + 1) sz)) as Hinit.
  { intros paths b sz a' El Es Hlt Hge. eexists. split; [|split; [reflexivity|split; [lia|]]].
    - cbv zeta. change CALL_PATH_BLOCK_MASK with (2 ^ 8 - 1). rewrite land_pow2_mod by lia.
      assert (cpr_next cpr mod 2 ^ 8 = cpr_next cpr - 256 * (Z.of_nat b - 1)) as ->.
      { symmetry. apply Z.mod_unique with (q := Z.of_nat b - 1); lia. }
      replace (1 + (Z.of_nat b - 1) * 256 + (cpr_next cpr - 256 * (Z.of_nat b - 1))) with (1 + cpr_next cpr) by lia.
      rewrite set_at_eq by lia. cbn [mbind option_bind]. rewrite u64_small by lia.
      replace (Z.to_nat (1 + cpr_next cpr)) with (S (Z.to_nat (cpr_next cpr))) by lia. done.
    - split; cbn; unfold CALL_PATH_BLOCK_SIZE, CALL_PATH_BLOCK_SHIFT; change (1 .<< 8) with 256; [by rewrite length_insert|done|lia]. }
  unfold call_path__new. unfold CALL_PATH_BLOCK_SIZE, CALL_PATH_BLOCK_SHIFT. change (1 .<< 8) with 256.
  destruct (Z.ltb_spec (cpr_next cpr) (cpr_sz cpr)) as [Hlt|Hge].
  - destruct (Hinit (cpr_paths cpr) (cpr_blocks cpr) (cpr_sz cpr) a Hl Hs Hlt Hlast) as (r & Er & E & Hlen & Hb).
    exists r. split; [exact Er|]. right. eexists _, _, _, _. split; [exact E|]. split; [done|]. split; [done|]. exists 0%nat. by rewrite app_nil_r.
  - destruct (a 0%nat) eqn:Ea; [|eexists; split; [reflexivity|by left]].
    destruct (Hinit (cpr_paths cpr ++ replicate (Z.to_nat 256) zero_path) (S (cpr_blocks cpr)) (u64 (cpr_sz cpr + 256)) (next_allocs a))
      as (r & Er & E & Hlen & Hb); [rewrite length_app, length_replicate; lia|rewrite u64_small by lia; lia|rewrite u64_small by lia; lia|rewrite u64_small by lia; lia|].
    exists r. split; [exact Er|]. right. eexists _, _, _, _. split; [exact E|]. split; [done|]. split; [done|]. by eexists.
Qed.

Lemma sorted_weaken {A} (P Q : A -> A -> Prop) l : StronglySorted P l ->
  (forall x y, In x l -> In y l -> P x y -> Q x y) -> StronglySorted Q l.
Proof.
  induction 1 as [|x l _ IH Hx]; intros Hq; constructor.
  - apply IH. intros y z Hy Hz. apply Hq; by right.
  - rewrite List.Forall_forall in Hx |- *. intros y Hy. apply Hq; [by left|by right|by apply Hx].
Qed.

Section added.
(** A call path [N] that has been added to the children of [k], at an empty
    position of their tree. *)
Context (cpr : call_path_root) (Hc : cpr_ok cpr) (k : nat) (par : call_path) (Epar : cpr_paths cpr !! k = Some par) (Hk : used cpr k).
Context (nk : key) (ip : Z) (Enk : nk = (nk.1, if negb (nk.1 =? 0) then 0 else ip)) (in_kernel : bool).
Context (zeros b : nat) (sz : Z) (q : path nat) (t' : rb_node nat).
Let N : nat := S (Z.to_nat (cpr_next cpr)).
Let paths1 : list call_path := <[N := call_path__init (Some k) nk.1 ip in_kernel]> (cpr_paths cpr ++ replicate zeros zero_path).
Context (Hlen : (N < length paths1)%nat) (Hb : blocks_ok (mkCpr paths1 b (cpr_next cpr + 1) sz)).
Context (Ht' : is_rbtree t') (Et' : elements t' = before q ++ N :: after q)
  (Eq : before q ++ after q = elements (cp_children par))
  (Hbefore : Forall (fun n => key_lt (key_of (cpr_paths cpr) n) nk) (before q))
  (Hafter : Forall (fun n => key_lt nk (key_of (cpr_paths cpr) n)) (after q)).
Let paths2 : list call_path := <[k := par <| cp_children := t' |>]> paths1.
Let cpr2 : call_path_root := mkCpr paths2 b (cpr_next cpr + 1) sz.

Lemma next_nonneg : 0 <= cpr_next cpr.
Proof using Hc. apply (bk_next _ (ck_blocks _ Hc)). Qed.

Lemma k_lt_N : (k < N)%nat.
Proof using Hc Hk. pose proof next_nonneg as Hn. unfold used in Hk. subst N. clear - Hn Hk. lia. Qed.

Lemma used2 n : used cpr2 n <-> used cpr n \/ n = N.
Proof using Hc. pose proof next_nonneg as Hn. unfold used. cbn. subst N. clear - Hn. lia. Qed.

Lemma lookup2_N : paths2 !! N = Some (call_path__init (Some k) nk.1 ip in_kernel).
Proof.
  pose proof k_lt_N. subst paths2 paths1. rewrite list_lookup_insert_ne by lia. apply list_lookup_insert_eq.
  rewrite length_insert in Hlen. done.
Qed.

Lemma lookup2_k : paths2 !! k = Some (par <| cp_children := t' |>).
Proof. pose proof k_lt_N. apply list_lookup_insert_eq. lia. Qed.

Lemma lookup2_other j : j <> k -> j <> N ->
  paths2 !! j = cpr_paths cpr !! j \/ (length (cpr_paths cpr) <= j)%nat /\ forall cp, paths2 !! j = Some cp -> cp = zero_path.
Proof.
  intros H1 H2. subst paths2 paths1. rewrite !list_lookup_insert_ne by lia.
  destruct (decide (j < length (cpr_paths cpr))%nat); [left; by apply lookup_app_l|]. right. split; [lia|].
  intros cp Ecp. rewrite lookup_app_r in Ecp by lia. by apply lookup_replicate in Ecp as [-> _].
Qed.

Lemma key2_used n : used cpr n -> key_of paths2 n = key_of (cpr_paths cpr) n /\ parent_of paths2 n = parent_of (cpr_paths cpr) n.
Proof.
  intros Hn. unfold key_of, parent_of. destruct (decide (n = k)) as [->|Hnk]; [by rewrite lookup2_k, Epar|].
  assert (n <> N) as HnN by (unfold used in Hn; pose proof next_nonneg; subst N; lia).
  destruct (used_lookup cpr n (ck_blocks _ Hc) Hn) as [cp Ecp]. apply lookup_lt_Some in Ecp as Hlt.
  destruct (lookup2_other n Hnk HnN) as [->|[? _]]; [done|lia].
Qed.

Lemma key2_N : key_of paths2 N = nk /\ parent_of paths2 N = Some k.
Proof using Hc Hk Enk Hlen. unfold key_of, parent_of. rewrite lookup2_N. cbn. split; [by rewrite Enk at 3|done]. Qed.

Lemma child_used j cp n : cpr_paths cpr !! j = Some cp -> In n (elements (cp_children cp)) -> used cpr n.
Proof. intros E Hn. by apply (ck_children _ Hc j cp n E) in Hn as (_ & Hn & _). Qed.

Lemma sorted2 j cp : cpr_paths cpr !! j = Some cp ->
  StronglySorted (fun n m => key_lt (key_of paths2 n) (key_of paths2 m)) (elements (cp_children cp)).
Proof.
  intros E. eapply sorted_weaken; [apply (ck_tree _ Hc j cp E)|]. intros n m Hn Hm.
  apply (child_used j cp n E) in Hn. apply (child_used j cp m E) in Hm.
  by rewrite (proj1 (key2_used n Hn)), (proj1 (key2_used m Hm)).
Qed.

Lemma added_tree j cp : paths2 !! j = Some cp -> is_rbtree (cp_children cp) /\
  StronglySorted (fun n m => key_lt (key_of paths2 n) (key_of paths2 m)) (elements (cp_children cp)).
Proof.
  intros Ecp. destruct (decide (j = k)) as [->|Hjk]; [|destruct (decide (j = N)) as [->|HjN]].
  - rewrite lookup2_k in Ecp. injection Ecp as <-. cbn. split; [done|]. rewrite Et'.
    pose proof (sorted2 k par Epar) as Hs. rewrite <- Eq in Hs. apply StronglySorted_app in Hs as (H1 & H2 & H3).
    assert (forall n, In n (before q ++ after q) -> key_of paths2 n = key_of (cpr_paths cpr) n) as Hkey.
    { intros n Hn. rewrite Eq in Hn. apply key2_used. by apply (child_used k par). }
    apply StronglySorted_app. split_and!; [|done|].
    + intros n m Hn Hm. apply list_elem_of_In in Hm as [<-|Hm]; [|apply H1; [done|by apply list_elem_of_In]].
      apply list_elem_of_In in Hn. rewrite (proj1 key2_N), Hkey by (apply in_app_iff; by left). by rewrite List.Forall_forall in Hbefore; apply Hbefore.
    + constructor; [done|]. rewrite List.Forall_forall in Hafter |- *. intros m Hm.
      rewrite (proj1 key2_N), Hkey by (apply in_app_iff; by right). by apply Hafter.
  - rewrite lookup2_N in Ecp. injection Ecp as <-. cbn. split; [exists 0%nat; constructor|constructor].
  - destruct (lookup2_other j Hjk HjN) as [E|[_ E]].
    + rewrite E in Ecp. split; [apply (ck_tree _ Hc j cp Ecp)|by apply sorted2 with (j := j)].
    + rewrite (E cp Ecp). split; [exists 0%nat; constructor|constructor].
Qed.

Lemma added_children j cp n : paths2 !! j = Some cp ->
  In n (elements (cp_children cp)) <-> (0 < n)%nat /\ used cpr2 n /\ parent_of paths2 n = Some j.
Proof.
  intros Ecp. pose proof k_lt_N as HkN. pose proof next_nonneg as Hnn. rewrite used2.
  assert (HN : ~ used cpr N) by (unfold used; subst N; lia).
  assert (Hback : (0 < n)%nat -> used cpr n -> parent_of paths2 n = Some j -> exists j', parent_of (cpr_paths cpr) n = Some j /\ j = j' /\ used cpr j).
  { intros H1 H2 H3. exists j. rewrite (proj2 (key2_used n H2)) in H3. split; [done|]. split; [done|].
    destruct (ck_parent _ Hc n H1 H2) as (j' & E & Hlt). rewrite H3 in E. injection E as <-. unfold used in *. lia. }
  destruct (decide (j = k)) as [->|Hjk]; [|destruct (decide (j = N)) as [->|HjN]].
  - rewrite lookup2_k in Ecp. injection Ecp as <-. cbn. rewrite Et'.
    assert (In n (before q ++ N :: after q) <-> n = N \/ In n (elements (cp_children par))) as ->.
    { rewrite <- Eq, !in_app_iff. cbn. intuition congruence. }
    rewrite (ck_children _ Hc k par n Epar). split.
    + intros [->|(H1 & H2 & H3)]; [split; [subst N; lia|split; [by right|apply key2_N]]|].
      split; [done|]. split; [by left|]. by rewrite (proj2 (key2_used n H2)).
    + intros (H1 & [H2| ->] & H3); [|by left]. right. split; [done|]. split; [done|]. by rewrite (proj2 (key2_used n H2)) in H3.
  - rewrite lookup2_N in Ecp. injection Ecp as <-. cbn. split; [done|]. intros (H1 & [H2| ->] & H3).
    + destruct (Hback H1 H2 H3) as (_ & _ & _ & Hu). done.
    + rewrite (proj2 key2_N) in H3. injection H3. intros. lia.
  - assert ((0 < n)%nat /\ (used cpr n \/ n = N) /\ parent_of paths2 n = Some j <->
      (0 < n)%nat /\ used cpr n /\ parent_of (cpr_paths cpr) n = Some j) as ->.
    { split.
      - intros (H1 & [H2| ->] & H3); [|rewrite (proj2 key2_N) in H3; injection H3; intros; by destruct Hjk].
        by rewrite (proj2 (key2_used n H2)) in H3.
      - intros (H1 & H2 & H3). split; [done|]. split; [by left|]. by rewrite (proj2 (key2_used n H2)). }
    destruct (lookup2_other j Hjk HjN) as [E|[Hj E]].
    + rewrite E in Ecp. by apply ck_children.
    + rewrite (E cp Ecp). cbn. split; [done|]. intros (H1 & H2 & H3). destruct (ck_parent _ Hc n H1 H2) as (j' & E' & Hlt).
      rewrite H3 in E'. injection E' as <-. destruct (used_lookup cpr n (ck_blocks _ Hc) H2) as [x Ex]. apply lookup_lt_Some in Ex. lia.
Qed.

Lemma added_ok : cpr_ok cpr2.
Proof using Hc Epar Hk Enk Hlen Hb Ht' Et' Eq Hbefore Hafter.
  split.
  - destruct Hb as [B1 B2 B3]. split; cbn in *; try done. subst paths2. by rewrite length_insert.
  - exact added_tree.
  - exact added_children.
  - cbn. rewrite (proj2 (key2_used 0 ltac:(unfold used; pose proof next_nonneg; lia))). apply Hc.
  - intros n Hn Hu. apply used2 in Hu as [Hu| ->].
    + cbn. rewrite (proj2 (key2_used n Hu)). by apply ck_parent.
    + exists k. split; [apply key2_N|apply k_lt_N].
Qed.

Lemma added_path n : used cpr n -> path_of cpr2 n = path_of cpr n.
Proof using Hc Epar Hk Enk Hlen Hb Ht' Et' Eq Hbefore Hafter.
  induction n as [n IH] using lt_wf_ind. intros Hu. destruct n as [|n]; [done|].
  destruct (ck_parent _ Hc (S n) ltac:(lia) Hu) as (j & Ej & Hj).
  assert (used cpr2 (S n)) as Hu2 by (apply used2; by left). destruct (key2_used (S n) Hu) as [Ek Ep].
  rewrite (path_of_step cpr (S n) j Hc Hu Ej). rewrite (path_of_step cpr2 (S n) j added_ok Hu2) by (cbn; by rewrite Ep).
  cbn [cpr_paths]. rewrite IH by (try done; unfold used in *; lia). change (cpr_paths cpr2) with paths2. by rewrite Ek.
Qed.

Lemma added_path_N : path_of cpr2 N = path_of cpr k ++ [nk].
Proof using Hc Epar Hk Enk Hlen Hb Ht' Et' Eq Hbefore Hafter.
  rewrite (path_of_step cpr2 N k added_ok); [|apply used2; by right|apply key2_N].
  rewrite added_path by done. change (cpr_paths cpr2) with paths2. by rewrite (proj1 key2_N).
Qed.
End added.
End paths.

Lemma root_ok cpr : call_path_root__new true = Some cpr -> cpr_ok cpr.
Proof.
  intros [= <-]. split; cbn.
  - split; cbn; unfold CALL_PATH_BLOCK_SIZE, CALL_PATH_BLOCK_SHIFT; change (1 .<< 8) with 256; lia.
  - intros [|k] cp E; [|done]. injection E as <-. split; [exists 0%nat; constructor|constructor].
  - intros [|k] cp n E; [|done]. injection E as <-. cbn. split; [done|]. intros (H1 & H2 & _). unfold used in H2. cbn in H2. lia.
  - done.
  - intros n Hn Hu. unfold used in Hu. cbn in Hu. lia.
Qed.

(** What [call_path__findnew] promises. *)
Definition findnew_spec (a : allocs) (cpr : call_path_root) (k : nat) (sym ip ks : Z) : Prop :=
  exists r cpr' a', call_path__findnew a cpr (Some k) sym ip ks = Some (r, cpr', a') /\ cpr_ok cpr' /\
    cpr_next cpr <= cpr_next cpr' <= cpr_next cpr + 1 /\
    (forall m, used cpr m -> used cpr' m /\ path_of cpr' m = path_of cpr m) /\
    match r with
    | None => cpr' = cpr /\ a 0%nat = false /\
        (forall m, used cpr m -> path_of cpr m <> path_of cpr k ++ [(sym, if sym =? 0 then ip else 0)])
    | Some n => used cpr' n /\ path_of cpr' n = path_of cpr k ++ [(sym, if sym =? 0 then ip else 0)] /\
        key_of (cpr_paths cpr') n = (sym, if sym =? 0 then ip else 0) /\ (0 < n)%nat /\
        (used cpr n /\ cpr' = cpr /\ a' = a \/
         ~ used cpr n /\ (forall m, used cpr' m <-> used cpr m \/ m = n) /\
           (x ← cpr_paths cpr' !! n; Some (cp_in_kernel x)) = Some (ks <=? ip))
    end.

(** A chain that no child of [k] ends is not there. *)
Lemma no_chain cpr k par nk : cpr_ok cpr -> used cpr k -> cpr_paths cpr !! k = Some par ->
  (forall n, In n (elements (cp_children par)) -> key_of (cpr_paths cpr) n <> nk) ->
  forall m, used cpr m -> path_of cpr m <> path_of cpr k ++ [nk].
Proof.
  intros Hc Hk Epar Hno m Hm Em. destruct m as [|m]; [by destruct (path_of cpr k)|].
  destruct (ck_parent _ Hc (S m) ltac:(lia) Hm) as (j & Ej & Hj). rewrite (path_of_step cpr (S m) j Hc Hm Ej) in Em.
  apply app_inj_tail in Em as [Ep Ekey]. assert (j = k) as -> by (apply (path_of_inj cpr j Hc); [unfold used in *; lia|done|done]).
  apply (Hno (S m)); [|done]. apply (ck_children _ Hc k par (S m) Epar). split; [lia|]. by split.
Qed.

Lemma findnew_ok a cpr k sym ip ks : cpr_ok cpr -> used cpr k -> cpr_next cpr < 2 ^ 62 -> findnew_spec a cpr k sym ip ks.
Proof.
  intros Hc Hk Hmax. unfold findnew_spec, call_path__findnew.
  set (ip' := if negb (sym =? 0) then 0 else ip).
  assert ((if sym =? 0 then ip else 0) = ip') as -> by (subst ip'; by destruct (sym =? 0)).
  destruct (used_lookup cpr k (ck_blocks _ Hc) Hk) as [par Epar]. rewrite Epar. cbn [mbind option_bind].
  destruct (ck_tree _ Hc k par Epar) as [Ht Hs].
  assert (Hin : forall n, In n (elements (cp_children par)) -> (0 < n)%nat /\ used cpr n /\ parent_of (cpr_paths cpr) n = Some k)
    by (intros n; apply (ck_children _ Hc k par n Epar)).
  rewrite find_child_loop.
  2: { apply List.Forall_forall. intros n Hn. destruct (Hin n Hn) as (_ & Hu & _).
    destruct (used_lookup cpr n (ck_blocks _ Hc) Hu) as [cp Ecp]. by apply lookup_lt_Some in Ecp. }
  cbn [mbind option_bind]. set (cmp := fun n => key_cmp (sym, ip') (key_of (cpr_paths cpr) n)).
  pose proof (find_loop_ok cmp (cp_children par) []) as Hfind. destruct (find_loop cmp (cp_children par) []) as [t q].
  destruct Hfind as [Eplug Hfind]. specialize (fun Hsort => Hfind Hsort (List.Forall_nil _) (List.Forall_nil _)) as Hcase.
  specialize (Hcase ltac:(eapply sorted_weaken; [exact Hs|]; intros x y _ _ Hxy; subst cmp; cbn beta;
    rewrite !key_cmp_lt, !key_cmp_gt; unfold key_lt in *; split; lia)).
  destruct t as [|c l n r].
  - destruct Hcase as (Eel & Hb & Ha). cbn [before after app] in Eel. rewrite app_nil_r in Eel.
    destruct (new_ok a cpr (Some k) sym ip' (ks <=? ip) (ck_blocks _ Hc) Hmax) as (r & -> & Hnew);
      destruct Hnew as [[-> Ea]|(paths & b & sz & a' & -> & Hlen & Hbk & zeros & Epaths)].
    + cbn [mbind option_bind]. exists None, cpr, (next_allocs a). split_and!; try done; [lia|].
      apply (no_chain cpr k par); [done|done|done|]. rewrite <- Eel. intros n Hn. rewrite List.Forall_forall in Hb, Ha.
      apply List.in_app_iff in Hn as [Hn|Hn]; [specialize (Hb n Hn)|specialize (Ha n Hn)]; intros En;
        subst cmp; cbn in *; rewrite En in *; [|]; by rewrite (proj2 (key_cmp_eq _ _) eq_refl) in *.
    + cbn [mbind option_bind]. set (N := S (Z.to_nat (cpr_next cpr))) in *.
      destruct (insert_color_ok N q) as (t' & -> & Ht' & Et'); [rewrite Eplug; exact Ht|]. cbn [mbind option_bind cpr_paths cpr_blocks cpr_next cpr_sz].
      assert (k < N)%nat as HkN by exact (k_lt_N cpr Hc k Hk). apply lookup_lt_Some in Epar as Hkl.
      rewrite list_lookup_insert_ne by lia. rewrite Epaths, lookup_app_l, Epar by done. cbn [mbind option_bind].
      rewrite Epaths in Hbk, Hlen.
      assert (Enk : (sym, ip') = ((sym, ip').1, if negb ((sym, ip').1 =? 0) then 0 else ip')) by (subst ip'; cbn; by destruct (sym =? 0)).
      assert (Hlen' : (N < length (<[N := call_path__init (Some k) sym ip' (ks <=? ip)%Z]> (cpr_paths cpr ++ replicate zeros zero_path)))%nat)
        by (by rewrite length_insert).
      assert (Hbef : Forall (fun n => key_lt (key_of (cpr_paths cpr) n) (sym, ip')) (before q)).
      { eapply List.Forall_impl; [|exact Hb]. intros n. subst cmp. cbn. apply key_cmp_gt. }
      assert (Haft : Forall (fun n => key_lt (sym, ip') (key_of (cpr_paths cpr) n)) (after q)).
      { eapply List.Forall_impl; [|exact Ha]. intros n. subst cmp. cbn. apply key_cmp_lt. }
      eexists (Some N), _, a'. split; [reflexivity|].
      split; [exact (added_ok cpr Hc k par Epar Hk (sym, ip') ip' Enk (ks <=? ip) zeros b sz q t' Hlen' Hbk Ht' Et' Eel Hbef Haft)|].
      split; [cbn; lia|]. split; [|split; [|split; [|split; [|split]]]].
      * intros m Hm. split; [unfold used in *; cbn; lia|].
        exact (added_path cpr Hc k par Epar Hk (sym, ip') ip' Enk (ks <=? ip) zeros b sz q t' Hlen' Hbk Ht' Et' Eel Hbef Haft m Hm).
      * unfold used. cbn. pose proof (next_nonneg cpr Hc). subst N. lia.
      * exact (added_path_N cpr Hc k par Epar Hk (sym, ip') ip' Enk (ks <=? ip) zeros b sz q t' Hlen' Hbk Ht' Et' Eel Hbef Haft).
      * exact (proj1 (key2_N cpr Hc k par Hk (sym, ip') ip' Enk (ks <=? ip) zeros t' Hlen')).
      * subst N. lia.
      * right. split; [unfold used; pose proof (next_nonneg cpr Hc); subst N; lia|].
        split; [intros m; unfold used; pose proof (next_nonneg cpr Hc); subst N; cbn; lia|]. cbn [cpr_paths].
        rewrite list_lookup_insert_ne, list_lookup_insert_eq by (done || lia). done.
  - destruct Hcase as [Ecmp Hn]. destruct (Hin n Hn) as (H1 & H2 & H3). apply key_cmp_eq in Ecmp.
    exists (Some n), cpr, a. split; [done|]. split; [done|]. split; [lia|]. split; [done|]. split; [done|].
    split; [by rewrite (path_of_step cpr n k Hc H2 H3), Ecmp|]. rewrite <- Ecmp. split; [done|]. split; [done|]. by left.
Qed.

(** C8: Call paths are interned.  In a valid tree of call paths, of fewer than 2^62,
    call_path__findnew makes no bad access and keeps the tree valid and all call
    paths what they are.  It fails only when no memory is left, with nothing changed,
    and else returns a call path of the tree, the only one whose chain of calls is
    that of the parent followed by this symbol (or this address where there is no
    symbol).  If there was one before, it is that one and nothing changes, no memory
    is asked for; if not, it is the one call path that is new, and it is marked as
    in the kernel when the address is. *)
Theorem call_path_interned (a : allocs) (cpr : call_path_root) (k : nat) (sym ip ks : Z) :
  cpr_ok cpr -> used cpr k -> cpr_next cpr < 2 ^ 62 ->
  let chain := path_of cpr k ++ [(sym, if sym =? 0 then ip else 0)] in
  exists r cpr' a', call_path__findnew a cpr (Some k) sym ip ks = Some (r, cpr', a') /\ cpr_ok cpr' /\
    (forall m, used cpr m -> used cpr' m /\ path_of cpr' m = path_of cpr m) /\
    match r with
    | None => cpr' = cpr /\ a 0%nat = false /\ (forall m, used cpr m -> path_of cpr m <> chain)
    | Some n => used cpr' n /\ (forall m, used cpr' m -> m = n <-> path_of cpr' m = chain) /\
        ((exists m, used cpr m /\ path_of cpr m = chain) -> cpr' = cpr /\ a' = a) /\
        ((forall m, used cpr m -> path_of cpr m <> chain) ->
           (forall m, used cpr' m <-> used cpr m \/ m = n) /\
           (x ← cpr_paths cpr' !! n; Some (cp_in_kernel x)) = Some (ks <=? ip))
    end.
Proof.
  intros Hc Hk Hmax chain. destruct (findnew_ok a cpr k sym ip ks Hc Hk Hmax) as (r & cpr' & a' & E & Hc' & _ & Hkeep & Hr).
  exists r, cpr', a'. split; [done|]. split; [done|]. split; [done|]. destruct r as [n|].
  - destruct Hr as (Hu & Ep & _ & _ & Hnew).
    assert (forall m, used cpr' m -> path_of cpr' m = chain -> m = n) as Hone.
    { intros m Hm Em. apply (path_of_inj cpr' m Hc'); [done|done|]. by rewrite Em, Ep. }
    split; [done|]. split; [intros m Hm; split; [by intros ->|by apply Hone]|]. split.
    + intros (m & Hm & Em). destruct (Hkeep m Hm) as [Hm' Em']. rewrite Em in Em'. pose proof (Hone m Hm' Em') as ->.
      by destruct Hnew as [(_ & ? & ?)|(? & _)].
    + intros Hno. destruct Hnew as [(Hn & -> & _)|(_ & ? & ?)]; [by destruct (Hno n Hn)|done].
  - done.
Qed.

Definition example_root : call_path_root := mkCpr [call_path__init None 0 0 false] 0 0 0.

Lemma call_path_interned_witness :
  let chain := path_of example_root 0 ++ [(0, if 0 =? 0 then 4096 else 0)] in exists r cpr' a',
  call_path__findnew (fun _ => true) example_root (Some 0%nat) 0 4096 (2 ^ 63) = Some (r, cpr', a') /\ cpr_ok cpr' /\
  (forall m, used example_root m -> used cpr' m /\ path_of cpr' m = path_of example_root m) /\
  match r with
  | None => cpr' = example_root /\ true = false /\ (forall m, used example_root m -> path_of example_root m <> chain)
  | Some n => used cpr' n /\ (forall m, used cpr' m -> m = n <-> path_of cpr' m = chain) /\
      ((exists m, used example_root m /\ path_of example_root m = chain) -> cpr' = example_root /\ a' = fun _ => true) /\
      ((forall m, used example_root m -> path_of example_root m <> chain) ->
         (forall m, used cpr' m <-> used example_root m \/ m = n) /\
         (x ← cpr_paths cpr' !! n; Some (cp_in_kernel x)) = Some (2 ^ 63 <=? 4096))
  end.
Proof.
  apply (call_path_interned (fun _ => true) example_root 0 0 4096 (2 ^ 63)); [by apply root_ok|done|done].
Defined.
