(* ===== verification/Symbols.v ===== *)
(** The symbols of a file: tools/perf/util/symbol.c, over the cached red-black
    trees of tools/include/linux/rbtree.h.  A symbol is known by its address in
    memory, [sym_addr]; the trees hold the symbols themselves.  [None] is an access
    to a symbol that is not in the tree, or to NULL. *)
From Stdlib Require Import ZArith Lia List Bool String Ascii.
From S2P Require Import Prelude RbTree.
Open Scope Z_scope.
Open Scope c_scope.
Import ListNotations.

Record symbol := mkSym {
  sym_addr : Z;
  sym_start : Z;
  sym_end : Z;
  sym_namelen : Z;
  sym_type : Z;
  sym_binding : Z;
  sym_idle : bool;
  sym_ifunc_alias : bool;
  sym_name : string
}.
#[export] Instance eta_sym : Eta symbol := fun s =>
  mkSym (sym_addr s) (sym_start s) (sym_end s) (sym_namelen s) (sym_type s) (sym_binding s) (sym_idle s) (sym_ifunc_alias s) (sym_name s).
#[export] Instance set_sym_end : Setter sym_end := ltac:(solve_setter).
#[export] Instance set_sym_idle : Setter sym_idle := ltac:(solve_setter).
#[export] Instance set_sym_ifunc_alias : Setter sym_ifunc_alias := ltac:(solve_setter).

(** ** Trees with a leftmost node

    [rb_leftmost] is the address of the symbol, [None] NULL. *)

Record rb_root_cached := mkRoot { rb_root : rb_node symbol; rb_leftmost : option Z }.
Definition RB_ROOT_CACHED : rb_root_cached := mkRoot Leaf None.

(** The node of a symbol. *)
Fixpoint locate (a : Z) (t : rb_node symbol) (p : path symbol) : option (position symbol) :=
  match t with
  | Leaf => None
  | Node c l x r =>
    if sym_addr x =? a then Some (t, p)
    else match locate a l (Frame L c x r :: p) with Some pos => Some pos | None => locate a r (Frame R c x l :: p) end
  end.
Definition entry_of (pos : option (position symbol)) : option Z :=
  match pos with Some (Node _ _ x _, _) => Some (sym_addr x) | _ => None end.

Definition deref_sym (root : rb_root_cached) (a : Z) : option symbol :=
  match locate a (rb_root root) [] with Some (Node _ _ x _, _) => Some x | _ => None end.
Definition update_sym (root : rb_root_cached) (a : Z) (f : symbol -> symbol) : option rb_root_cached :=
  match locate a (rb_root root) [] with
  | Some (Node c l x r, p) => Some (mkRoot (plug (Node c l (f x) r) p) (rb_leftmost root))
  | _ => None
  end.
Definition next_sym (root : rb_root_cached) (a : Z) : option (option Z) :=
  pos ← locate a (rb_root root) []; Some (entry_of (rb_next pos)).
Definition prev_sym (root : rb_root_cached) (a : Z) : option (option Z) :=
  pos ← locate a (rb_root root) []; Some (entry_of (rb_prev pos)).

Definition rb_insert_color_cached (x : symbol) (p : path symbol) (root : rb_root_cached) (leftmost : bool) : option rb_root_cached :=
  let first := if leftmost then Some (sym_addr x) else rb_leftmost root in
  t ← rb_insert_color x p; Some (mkRoot t first).
Definition rb_erase_cached (a : Z) (root : rb_root_cached) : option rb_root_cached :=
  pos ← locate a (rb_root root) [];
  match pos with
  | (Node c l x r, p) =>
    let first := if decide (rb_leftmost root = Some a) then entry_of (rb_next pos) else rb_leftmost root in
    t ← rb_erase c l r p; Some (mkRoot t first)
  | _ => None
  end.

(** ** Choosing between two symbols *)

(** elf.h *)
Definition STB_LOCAL : Z := 0.
Definition STB_GLOBAL : Z := 1.
Definition STB_WEAK : Z := 2.
Definition STT_OBJECT : Z := 1.
Definition STT_FUNC : Z := 2.
Definition STT_GNU_IFUNC : Z := 10.

Definition SYMBOL_A : Z := 0.
Definition SYMBOL_B : Z := 1.

Fixpoint prefix_underscores_count (str : string) : Z :=
  match str with String "_" tail => 1 + prefix_underscores_count tail | _ => 0 end.
Definition strlen (s : string) : Z := Z.of_nat (String.length s).

Definition arch__choose_best_symbol (syma symb : symbol) : Z :=
  if (3 <=? strlen (sym_name syma)) && String.eqb (substring 0 3 (sym_name syma)) "SyS" then SYMBOL_B
  else if (10 <=? strlen (sym_name syma)) && String.eqb (substring 0 10 (sym_name syma)) "compat_SyS" then SYMBOL_B
  else SYMBOL_A.

Definition choose_best_symbol (syma symb : symbol) : Z :=
  let a := swrap 64 (sym_end syma - sym_start syma) in
  let b := swrap 64 (sym_end symb - sym_start symb) in
  if (b =? 0) && (0 <? a) then SYMBOL_A
  else if (a =? 0) && (0 <? b) then SYMBOL_B
  else
    let a := sym_binding syma =? STB_WEAK in
    let b := sym_binding symb =? STB_WEAK in
    if b && negb a then SYMBOL_A
    else if a && negb b then SYMBOL_B
    else
      let a := sym_binding syma =? STB_GLOBAL in
      let b := sym_binding symb =? STB_GLOBAL in
      if a && negb b then SYMBOL_A
      else if b && negb a then SYMBOL_B
      else
        let a := prefix_underscores_count (sym_name syma) in
        let b := prefix_underscores_count (sym_name symb) in
        if a <? b then SYMBOL_A
        else if b <? a then SYMBOL_B
        else
          let na := strlen (sym_name syma) in
          let nb := strlen (sym_name symb) in
          if nb <? na then SYMBOL_A
          else if na <? nb then SYMBOL_B
          else arch__choose_best_symbol syma symb.

(** From [again] on, with [curr]; a turn deletes a symbol or goes on to the next. *)
Fixpoint duplicate_loop (n : nat) (symbols : rb_root_cached) (curr : Z) : option rb_root_cached :=
  match n with
  | O => None
  | S n =>
    nd ← next_sym symbols curr;
    match nd with
    | None => Some symbols
    | Some next =>
      c ← deref_sym symbols curr; x ← deref_sym symbols next;
      if negb (sym_start c =? sym_start x) then duplicate_loop n symbols next
      else if choose_best_symbol c x =? SYMBOL_A then
        symbols ← (if sym_type x =? STT_GNU_IFUNC then update_sym symbols curr (fun s => s <| sym_ifunc_alias := true |>) else Some symbols);
        symbols ← rb_erase_cached next symbols;
        duplicate_loop n symbols curr
      else
        symbols ← (if sym_type c =? STT_GNU_IFUNC then update_sym symbols next (fun s => s <| sym_ifunc_alias := true |>) else Some symbols);
        nd ← next_sym symbols curr;
        symbols ← rb_erase_cached curr symbols;
        match nd with None => Some symbols | Some nd => duplicate_loop n symbols nd end
    end
  end.
Fixpoint rb_size (t : rb_node symbol) : nat := match t with Leaf => O | Node _ l _ r => S (rb_size l + rb_size r) end.

(** [symbol_conf.allow_aliases] is an argument. *)
Definition symbols__fixup_duplicate (allow_aliases : bool) (symbols : rb_root_cached) : option rb_root_cached :=
  if allow_aliases then Some symbols
  else
    match rb_leftmost symbols with
    | None => Some symbols
    | Some nd => duplicate_loop (S (rb_size (rb_root symbols))) symbols nd
    end.

(** ** The ends of symbols without a size *)

Fixpoint strchr (s : string) (c : ascii) : bool :=
  match s with EmptyString => false | String x s => Ascii.eqb x c || strchr s c end.
Definition roundup (x y : Z) : Z := u64 (u64 (x + (y - 1)) / y * y).

Fixpoint end_loop (n : nat) (symbols : rb_root_cached) (is_kallsyms : bool) (curr : Z) : option (rb_root_cached * Z) :=
  match n with
  | O => None
  | S n =>
    nd ← next_sym symbols curr;
    match nd with
    | None => Some (symbols, curr)
    | Some nd =>
      prev ← deref_sym symbols curr; c ← deref_sym symbols nd;
      symbols ←
        (if sym_end prev =? sym_start prev then
          if is_kallsyms && negb (Bool.eqb (negb (strchr (sym_name prev) "[")) (negb (strchr (sym_name c) "["))) then
            update_sym symbols curr (fun s => s <| sym_end := roundup (u64 (sym_end prev + 4096)) 4096 |>)
          else update_sym symbols curr (fun s => s <| sym_end := sym_start c |>)
        else Some symbols);
      end_loop n symbols is_kallsyms nd
    end
  end.
Definition symbols__fixup_end (symbols : rb_root_cached) (is_kallsyms : bool) : option rb_root_cached :=
  match rb_leftmost symbols with
  | None => Some symbols
  | Some prevnd =>
    '(symbols, curr) ← end_loop (S (rb_size (rb_root symbols))) symbols is_kallsyms prevnd;
    c ← deref_sym symbols curr;
    if sym_end c =? sym_start c then update_sym symbols curr (fun s => s <| sym_end := u64 (roundup (sym_start c) 4096 + 4096) |>) else Some symbols
  end.

(** ** Symbols and their trees *)

(** [calloc] gives an address or NULL. *)
Definition symbol__new (calloc : option Z) (start len binding type : Z) (name : string) : option symbol :=
  a ← calloc;
  Some (mkSym a start (if len =? 0 then start else u64 (start + len)) (u16 (strlen name)) (type .& 15) (binding .& 15) false false name).

Definition idle_symbols : list string :=
  ["acpi_idle_do_entry"; "acpi_processor_ffh_cstate_enter"; "arch_cpu_idle"; "cpu_idle"; "cpu_startup_entry"; "idle_cpu"; "intel_idle";
   "default_idle"; "native_safe_halt"; "enter_idle"; "exit_idle"; "mwait_idle"; "mwait_idle_with_hints"; "mwait_idle_with_hints.constprop.0";
   "poll_idle"; "ppc64_runlatch_off"; "pseries_dedicated_idle_sleep"; "psw_idle"; "psw_idle_exit"]%string.
Definition symbol__is_idle (name : string) : bool := existsb (String.eqb name) idle_symbols.

(** The way down to where a symbol goes, and whether it is leftmost there. *)
Fixpoint insert_loop (left : symbol -> bool) (t : rb_node symbol) (p : path symbol) (leftmost : bool) : path symbol * bool :=
  match t with
  | Leaf => (p, leftmost)
  | Node c l s r =>
    if left s then insert_loop left l (Frame L c s r :: p) leftmost else insert_loop left r (Frame R c s l :: p) false
  end.
Definition __symbols__insert (symbols : rb_root_cached) (sym : symbol) (kernel : bool) : option rb_root_cached :=
  let sym :=
    if kernel then
      let name := match sym_name sym with String "." name => name | name => name end in
      sym <| sym_idle := symbol__is_idle name |>
    else sym in
  let '(p, leftmost) := insert_loop (fun s => sym_start sym <? sym_start s) (rb_root symbols) [] true in
  rb_insert_color_cached sym p symbols leftmost.
Definition symbols__insert (symbols : rb_root_cached) (sym : symbol) : option rb_root_cached := __symbols__insert symbols sym false.

Fixpoint find_sym_loop (ip : Z) (n : rb_node symbol) : option symbol :=
  match n with
  | Leaf => None
  | Node _ l s r =>
    if ip <? sym_start s then find_sym_loop ip l
    else if (sym_end s <? ip) || (ip =? sym_end s) && negb (ip =? sym_start s) then find_sym_loop ip r
    else Some s
  end.
Definition symbols__find (symbols : rb_root_cached) (ip : Z) : option symbol := find_sym_loop ip (rb_root symbols).
Definition symbols__first (symbols : rb_root_cached) : option Z := rb_leftmost symbols.
Definition symbols__last (symbols : rb_root_cached) : option Z := entry_of (rb_last (rb_root symbols)).
Definition symbols__next (symbols : rb_root_cached) (sym : Z) : option (option Z) := next_sym symbols sym.

Fixpoint delete_loop (n : nat) (symbols : rb_root_cached) (next : option Z) : option rb_root_cached :=
  match n, next with
  | _, None => Some symbols
  | O, _ => None
  | S n, Some pos =>
    next ← next_sym symbols pos;
    symbols ← rb_erase_cached pos symbols;
    delete_loop n symbols next
  end.
Definition symbols__delete (symbols : rb_root_cached) : option rb_root_cached :=
  delete_loop (rb_size (rb_root symbols)) symbols (rb_leftmost symbols).

(** ** Names *)

Inductive symbol_tag_include := SYMBOL_TAG_INCLUDE__NONE | SYMBOL_TAG_INCLUDE__DEFAULT_ONLY.

Definition arch__compare_symbol_names (namea nameb : string) : comparison := String.compare namea nameb.
Definition arch__compare_symbol_names_n (namea nameb : string) (n : Z) : comparison :=
  String.compare (substring 0 (Z.to_nat n) namea) (substring 0 (Z.to_nat n) nameb).

Definition symbol__match_symbol_name (name str : string) (includes : symbol_tag_include) : comparison :=
  match includes, String.index 0 "@@" name with
  | SYMBOL_TAG_INCLUDE__DEFAULT_ONLY, Some versioning =>
    arch__compare_symbol_names_n name str (Z.max (strlen str) (Z.of_nat versioning))
  | _, _ => arch__compare_symbol_names name str
  end.

Definition symbols__insert_by_name (symbols : rb_root_cached) (sym : symbol) : option rb_root_cached :=
  let '(p, leftmost) := insert_loop (fun s => match String.compare (sym_name sym) (sym_name s) with Lt => true | _ => false end) (rb_root symbols) [] true in
  rb_insert_color_cached sym p symbols leftmost.

Fixpoint sort_by_name_loop (n : nat) (symbols source : rb_root_cached) (nd : option Z) : option rb_root_cached :=
  match n, nd with
  | _, None => Some symbols
  | O, _ => None
  | S n, Some a =>
    pos ← deref_sym source a;
    symbols ← symbols__insert_by_name symbols pos;
    nd ← next_sym source a;
    sort_by_name_loop n symbols source nd
  end.
Definition symbols__sort_by_name (symbols source : rb_root_cached) : option rb_root_cached :=
  sort_by_name_loop (rb_size (rb_root source)) symbols source (rb_leftmost source).

Fixpoint find_name_loop (name : string) (includes : symbol_tag_include) (n : rb_node symbol) : option symbol :=
  match n with
  | Leaf => None
  | Node _ l s r =>
    match symbol__match_symbol_name (sym_name s) name includes with
    | Gt => find_name_loop name includes l
    | Lt => find_name_loop name includes r
    | Eq => Some s
    end
  end.
(** Back to the first symbol of the same name. *)
Fixpoint first_same_name (n : nat) (symbols : rb_root_cached) (s : symbol) : option symbol :=
  match n with
  | O => None
  | S n =>
    nd ← prev_sym symbols (sym_addr s);
    match nd with
    | None => Some s
    | Some a =>
      tmp ← deref_sym symbols a;
      match arch__compare_symbol_names (sym_name tmp) (sym_name s) with
      | Eq => first_same_name n symbols tmp
      | _ => Some s
      end
    end
  end.
(** [None] within is NULL. *)
Definition symbols__find_by_name (symbols : rb_root_cached) (name : string) (includes : symbol_tag_include) : option (option symbol) :=
  match find_name_loop name includes (rb_root symbols), includes with
  | None, _ => Some None
  | Some s, SYMBOL_TAG_INCLUDE__DEFAULT_ONLY => Some (Some s)
  | Some s, SYMBOL_TAG_INCLUDE__NONE => s ← first_same_name (S (rb_size (rb_root symbols))) symbols s; Some (Some s)
  end.

(** ** The symbols of a dso

    Of [struct dso] what these functions use; the symbol remembered is known by
    its address. *)

Record dso_symbols := mkDso {
  dso_symbols_root : rb_root_cached;
  dso_symbol_names : rb_root_cached;
  last_find_addr : Z;
  last_find_symbol : option Z;
  dso_kernel : bool;
  dso_sorted_by_name : bool
}.

Definition dso__reset_find_symbol_cache (d : dso_symbols) : dso_symbols :=
  mkDso (dso_symbols_root d) (dso_symbol_names d) 0 None (dso_kernel d) (dso_sorted_by_name d).
Definition dso__insert_symbol (d : dso_symbols) (sym : symbol) : option dso_symbols :=
  root ← __symbols__insert (dso_symbols_root d) sym (dso_kernel d);
  let last :=
    if (sym_start sym <=? last_find_addr d) && ((last_find_addr d <? sym_end sym) || (sym_start sym =? sym_end sym))
    then Some (sym_addr sym) else last_find_symbol d in
  Some (mkDso root (dso_symbol_names d) (last_find_addr d) last (dso_kernel d) (dso_sorted_by_name d)).
Definition dso__delete_symbol (d : dso_symbols) (sym : Z) : option dso_symbols :=
  root ← rb_erase_cached sym (dso_symbols_root d);
  Some (dso__reset_find_symbol_cache (mkDso root (dso_symbol_names d) (last_find_addr d) (last_find_symbol d) (dso_kernel d) (dso_sorted_by_name d))).
Definition dso__find_symbol (d : dso_symbols) (addr : Z) : option Z * dso_symbols :=
  let d :=
    if negb (last_find_addr d =? addr) || bool_decide (last_find_symbol d = None) then
      mkDso (dso_symbols_root d) (dso_symbol_names d) addr (sym_addr <$> symbols__find (dso_symbols_root d) addr) (dso_kernel d) (dso_sorted_by_name d)
    else d in
  (last_find_symbol d, d).
Definition dso__find_symbol_nocache (d : dso_symbols) (addr : Z) : option Z := sym_addr <$> symbols__find (dso_symbols_root d) addr.
Definition dso__first_symbol (d : dso_symbols) : option Z := symbols__first (dso_symbols_root d).
Definition dso__last_symbol (d : dso_symbols) : option Z := symbols__last (dso_symbols_root d).
Definition dso__next_symbol (d : dso_symbols) (sym : Z) : option (option Z) := symbols__next (dso_symbols_root d) sym.
Definition symbol__next_by_name (d : dso_symbols) (sym : Z) : option (option Z) := next_sym (dso_symbol_names d) sym.
Definition dso__find_symbol_by_name (d : dso_symbols) (name : string) : option (option symbol) :=
  s ← symbols__find_by_name (dso_symbol_names d) name SYMBOL_TAG_INCLUDE__NONE;
  match (s : option symbol) with
  | Some s => Some (Some s)
  | None => symbols__find_by_name (dso_symbol_names d) name SYMBOL_TAG_INCLUDE__DEFAULT_ONLY
  end.
Definition dso__sort_by_name (d : dso_symbols) : option dso_symbols :=
  names ← symbols__sort_by_name (dso_symbol_names d) (dso_symbols_root d);
  Some (mkDso (dso_symbols_root d) names (last_find_addr d) (last_find_symbol d) (dso_kernel d) true).

(** ** Symbols of the kernel, kallsyms *)

Definition tolower (c : ascii) : ascii :=
  let n := N_of_ascii c in if (65 <=? n)%N && (n <=? 90)%N then ascii_of_N (n + 32) else c.
Definition toupper (c : ascii) : ascii :=
  let n := N_of_ascii c in if (97 <=? n)%N && (n <=? 122)%N then ascii_of_N (n - 32) else c.
Definition isupper (c : ascii) : bool := let n := N_of_ascii c in (65 <=? n)%N && (n <=? 90)%N.

Definition symbol_type__filter (symbol_type : ascii) : bool :=
  let symbol_type := toupper symbol_type in
  Ascii.eqb symbol_type "T" || Ascii.eqb symbol_type "W" || Ascii.eqb symbol_type "D" || Ascii.eqb symbol_type "B".
Definition kallsyms2elf_type (type : ascii) : Z :=
  let type := tolower type in if Ascii.eqb type "t" || Ascii.eqb type "w" then STT_FUNC else STT_OBJECT.
Definition kallsyms2elf_binding (type : ascii) : Z :=
  if Ascii.eqb type "W" then STB_WEAK else if isupper type then STB_GLOBAL else STB_LOCAL.

(** A line of kallsyms, and what [calloc] gives for it. *)
Record kallsym := mkKs { ks_name : string; ks_type : ascii; ks_start : Z; ks_calloc : option Z }.

Definition map__process_kallsym_symbol (root : rb_root_cached) (k : kallsym) : option (Z * rb_root_cached) :=
  if negb (symbol_type__filter (ks_type k)) then Some (0, root)
  else if match ks_name k with String "$" _ => true | _ => false end then Some (0, root)
  else
    match symbol__new (ks_calloc k) (ks_start k) 0 (kallsyms2elf_binding (ks_type k)) (kallsyms2elf_type (ks_type k)) (ks_name k) with
    | None => Some (- ENOMEM, root)
    | Some sym => root ← __symbols__insert root sym (negb (strchr (ks_name k) "[")); Some (0, root)
    end.
(** [kallsyms__parse], after the lines have been read. *)
Fixpoint kallsyms__parse (lines : list kallsym) (root : rb_root_cached) : option (Z * rb_root_cached) :=
  match lines with
  | [] => Some (0, root)
  | k :: lines =>
    '(err, root) ← map__process_kallsym_symbol root k;
    if err =? 0 then kallsyms__parse lines root else Some (err, root)
  end.
(** The symbols in [__dso__load_kallsyms]; [None] within when it gives up. The
    relocation [kallsyms__delta] reads in between is not modelled: it does not touch the tree. *)
Definition load_kallsyms_symbols (allow_aliases : bool) (lines : list kallsym) (root : rb_root_cached) : option (option rb_root_cached) :=
  '(err, root) ← kallsyms__parse lines root;
  if err <? 0 then Some None
  else
    root ← symbols__fixup_end root true;
    root ← symbols__fixup_duplicate allow_aliases root;
    Some (Some root).
