(* ===== verification/SymbolTheorems.v ===== *)
(** Theorems on symbols: the cached trees are lists of symbols in order, what the
    fix-ups make of the list, and which symbol is found for an address and for a
    name. *)
From Stdlib Require Import ZArith Lia List Bool String Ascii Sorting.Sorted Sorting.Permutation.
From stdpp Require Import list sorting.
From S2P Require Import Prelude RbTree RbTreeTheorems Symbols.
Open Scope Z_scope.
Open Scope c_scope.
Import ListNotations.

(** ** Trees as lists *)

Definition addrs (l : list symbol) : list Z := List.map sym_addr l.
Abbreviation first_addr l := (sym_addr <$> hd_error l).

Lemma app_cons_inv {A} (a b l r : list A) x y : (a ++ y :: b = l ++ x :: r)%list ->
  (exists k, a = l ++ x :: k /\ r = k ++ y :: b)%list \/ (l = a /\ x = y /\ r = b) \/ (exists k, l = a ++ y :: k /\ b = k ++ x :: r)%list.
Proof.
  revert l. induction a as [|z a IH]; intros [|w l] E; cbn in E.
  - injection E as -> ->. right. left. done.
  - injection E as -> ->. right. right. by exists l.
  - injection E as -> <-. left. by exists a.
  - injection E as -> E. destruct (IH l E) as [(k & -> & ->)|[(-> & -> & ->)|(k & -> & ->)]]; [left; by exists k|right; by left|right; right; by exists k].
Qed.

Lemma locate_none a t : forall p, ~ In a (addrs (elements t)) -> locate a t p = None.
Proof.
  induction t as [|c l IHl x r IHr]; intros p Ha; [done|]. cbn [locate elements] in *. unfold addrs in Ha. rewrite List.map_app, in_app_iff in Ha.
  cbn [List.map] in Ha. destruct (Z.eqb_spec (sym_addr x) a) as [|Hx]; [destruct Ha; right; by left|].
  rewrite IHl by (intros H; apply Ha; by left). apply IHr. intros H. apply Ha. right. by right.
Qed.

Lemma locate_ok x t : forall p l r, (elements t = l ++ x :: r)%list -> ~ In (sym_addr x) (addrs l) -> ~ In (sym_addr x) (addrs r) ->
  exists c tl tr q, locate (sym_addr x) t p = Some (Node c tl x tr, q) /\ plug (Node c tl x tr) q = plug t p /\
    (before q ++ elements tl = before p ++ l)%list /\ (elements tr ++ after q = r ++ after p)%list.
Proof.
  induction t as [|c tl IHl y tr IHr]; intros p l r E Hl Hr; [by destruct l|]. cbn [elements locate] in *.
  apply app_cons_inv in E as [(k & E & ->)|[(-> & -> & ->)|(k & -> & E)]]; unfold addrs in *.
  - rewrite List.map_app, in_app_iff in Hr. cbn [List.map In] in Hr. destruct (Z.eqb_spec (sym_addr y) (sym_addr x)) as [Ey|_]; [destruct Hr; right; by left|].
    destruct (IHl (Frame L c y tr :: p) l k E Hl ltac:(tauto)) as (c' & tl' & tr' & q & -> & Ep & Eb & Ea).
    exists c', tl', tr', q. split; [done|]. split; [exact Ep|]. split; [exact Eb|]. rewrite Ea. cbn [after]. by rewrite <- app_assoc.
  - rewrite Z.eqb_refl. by exists c, tl, tr, p.
  - rewrite List.map_app, in_app_iff in Hl. cbn [List.map In] in Hl. destruct (Z.eqb_spec (sym_addr y) (sym_addr x)) as [Ey|_]; [destruct Hl; right; by left|].
    rewrite locate_none by tauto. destruct (IHr (Frame R c y tl :: p) k r E ltac:(tauto) Hr) as (c' & tl' & tr' & q & -> & Ep & Eb & Ea).
    exists c', tl', tr', q. split; [done|]. split; [exact Ep|]. split; [|exact Ea]. rewrite Eb. cbn [before]. by rewrite <- !app_assoc.
Qed.

Lemma rightmost_ok (t : rb_node symbol) : forall p, t <> Leaf -> exists c l s q, rb_rightmost t p = (Node c l s Leaf, q ++ p)%list /\
  plug (Node c l s Leaf) q = t /\ after q = [].
Proof.
  induction t as [|c l _ x r IHr]; intros p Ht; [done|]. cbn [rb_rightmost]. destruct r as [|rc rl rx rr]; [by exists c, l, x, []|].
  destruct (IHr (Frame R c x l :: p) ltac:(done)) as (c' & l' & s & q & -> & Eq & Ea). exists c', l', s, (q ++ [Frame R c x l])%list.
  split; [by rewrite <- app_assoc|]. split; [by rewrite plug_app, Eq|].
  clear - Ea. induction q as [|[[|] fc fx o] q IH]; [done|cbn in Ea; by destruct (elements o), (after q)|cbn in *; by apply IH].
Qed.

Lemma climb_left_ok p : forall t : rb_node symbol, t <> Leaf -> match climb L t p with
  | Some (Node c' l' x' r', p') => (before p = (before p' ++ elements l') ++ [x'])%list
  | Some (Leaf, _) => False
  | None => before p = []
  end.
Proof.
  induction p as [|[[|] fc fx s] p IH]; intros t Ht; cbn; [done|apply IH; done|].
  destruct (decide (R = L)); [done|]. by rewrite <- app_assoc.
Qed.

Lemma after_app (q p : path symbol) : after q = [] -> after (q ++ p) = after p /\ before (q ++ p) = (before p ++ before q)%list.
Proof.
  induction q as [|[[|] c x o] q IH]; intros E; cbn [after before app] in *; [by rewrite app_nil_r|by destruct (elements o), (after q)|].
  destruct (IH E) as [-> ->]. by rewrite <- !app_assoc.
Qed.

Lemma prev_ok c l x (r : rb_node symbol) p : match rb_prev (Node c l x r, p) with
  | Some (Node c' l' x' r', p') => (before p ++ elements l = (before p' ++ elements l') ++ [x'])%list
  | Some (Leaf, _) => False
  | None => (before p ++ elements l = [])%list
  end.
Proof.
  cbn [rb_prev]. destruct l as [|lc ll lx lr].
  - pose proof (climb_left_ok p (Node c Leaf x r) ltac:(done)) as Hc. cbn [elements]. rewrite app_nil_r. exact Hc.
  - destruct (rightmost_ok (Node lc ll lx lr) (Frame L c x r :: p) ltac:(done)) as (c' & l' & s & q & -> & Eq & Ea).
    destruct (after_app q (Frame L c x r :: p) Ea) as [_ ->]. rewrite <- Eq, elements_plug, Ea. cbn [elements before]. by rewrite app_nil_r, !app_assoc.
Qed.

(** [root] is a valid tree of the symbols [l], in this order. *)
Record reps (root : rb_root_cached) (l : list symbol) : Prop := {
  re_tree : is_rbtree (rb_root root);
  re_elements : elements (rb_root root) = l;
  re_addrs : NoDup (addrs l);
  re_first : rb_leftmost root = first_addr l
}.

Lemma NoDup_split l x r : NoDup (addrs (l ++ x :: r)) -> ~ In (sym_addr x) (addrs l) /\ ~ In (sym_addr x) (addrs r) /\ NoDup (addrs (l ++ r)).
Proof.
  unfold addrs. rewrite !List.map_app. cbn [List.map]. intros Hnd. apply NoDup_ListNoDup in Hnd.
  pose proof (NoDup_remove_1 _ _ _ Hnd) as H1. apply NoDup_remove_2 in Hnd. rewrite in_app_iff in Hnd. split; [tauto|]. split; [tauto|]. by apply NoDup_ListNoDup.
Qed.

Lemma at_ok root l x r : reps root (l ++ x :: r) -> exists c tl tr q, locate (sym_addr x) (rb_root root) [] = Some (Node c tl x tr, q) /\
  plug (Node c tl x tr) q = rb_root root /\ (before q ++ elements tl)%list = l /\ (elements tr ++ after q)%list = r.
Proof.
  intros [Ht He Hnd _]. destruct (NoDup_split _ _ _ Hnd) as (Hl & Hr & _).
  destruct (locate_ok x (rb_root root) [] l r He Hl Hr) as (c & tl & tr & q & E & Ep & Eb & Ea). exists c, tl, tr, q. cbn in Eb, Ea. by rewrite app_nil_r in Ea.
Qed.

Lemma deref_ok root l x r : reps root (l ++ x :: r) -> deref_sym root (sym_addr x) = Some x.
Proof. intros H. destruct (at_ok _ _ _ _ H) as (c & tl & tr & q & E & _). unfold deref_sym. by rewrite E. Qed.

Lemma next_sym_ok root l x r : reps root (l ++ x :: r) -> next_sym root (sym_addr x) = Some (first_addr r).
Proof.
  intros H. destruct (at_ok _ _ _ _ H) as (c & tl & tr & q & E & _ & _ & <-). unfold next_sym. rewrite E. cbn [mbind option_bind].
  pose proof (next_ok c tl x tr q) as Hn. destruct (rb_next (Node c tl x tr, q)) as [[[|c' l' x' r'] p']|]; [done|by rewrite Hn|by rewrite Hn].
Qed.

Lemma prev_sym_ok root l x r : reps root (l ++ x :: r) -> prev_sym root (sym_addr x) = Some (sym_addr <$> list.last l).
Proof.
  intros H. destruct (at_ok _ _ _ _ H) as (c & tl & tr & q & E & _ & <- & _). unfold prev_sym. rewrite E. cbn [mbind option_bind].
  pose proof (prev_ok c tl x tr q) as Hn. destruct (rb_prev (Node c tl x tr, q)) as [[[|c' l' x' r'] p']|]; [done|by rewrite Hn, list.last_snoc|by rewrite Hn].
Qed.

Lemma is_rbtree_update c l x x' (r : rb_node symbol) p : is_rbtree (plug (Node c l x r) p) -> is_rbtree (plug (Node c l x' r) p).
Proof.
  intros H. destruct (plug_inv _ _ H) as (n & k & Hw & Hp). apply plug_wf with n k; [|done].
  inversion Hw; subst; by econstructor.
Qed.

Lemma update_ok root l x r f : reps root (l ++ x :: r) -> sym_addr (f x) = sym_addr x ->
  exists root', update_sym root (sym_addr x) f = Some root' /\ reps root' (l ++ f x :: r).
Proof.
  intros H Hf. destruct (at_ok _ _ _ _ H) as (c & tl & tr & q & E & Ep & El & Er). unfold update_sym. rewrite E. eexists. split; [done|].
  destruct H as [Ht He Hnd Hfirst]. rewrite <- Ep in Ht. split; cbn [rb_root rb_leftmost].
  - by apply is_rbtree_update with x.
  - rewrite elements_plug. cbn [elements]. rewrite <- El, <- Er, <- !app_assoc. done.
  - unfold addrs in *. rewrite List.map_app in *. cbn [List.map] in *. by rewrite Hf.
  - rewrite Hfirst. destruct l; cbn; [by rewrite Hf|done].
Qed.

Lemma erase_cached_ok root l x r : reps root (l ++ x :: r) -> exists root', rb_erase_cached (sym_addr x) root = Some root' /\ reps root' (l ++ r).
Proof.
  intros H. pose proof (next_sym_ok _ _ _ _ H) as Hn. destruct (at_ok _ _ _ _ H) as (c & tl & tr & q & E & Ep & El & Er).
  unfold next_sym in Hn. unfold rb_erase_cached. rewrite E in Hn |- *. cbn [mbind option_bind] in Hn |- *.
  apply (inj Some) in Hn. rewrite Hn.
  destruct H as [Ht He Hnd Hfirst]. rewrite <- Ep in Ht. destruct (erase_ok c tl x tr q Ht) as (t & -> & Ht' & Ee). cbn [mbind option_bind].
  eexists. split; [done|]. destruct (NoDup_split _ _ _ Hnd) as (Hl & _ & Hnd'). split; cbn [rb_root rb_leftmost]; [done| |done|].
  - by rewrite Ee, <- El, <- Er, <- !app_assoc.
  - rewrite Hfirst. destruct l as [|y l]; cbn; [by rewrite decide_True|]. rewrite decide_False; [done|]. intros [= Ey]. apply Hl. by left.
Qed.

(** ** Insertion *)

Lemma insert_loop_ok left x t : forall p lm, exists k, insert_loop left t p lm = (add_loop (fun _ y => left y) x t p, lm && k) /\
  exists b, before (add_loop (fun _ y => left y) x t p) = (before p ++ b)%list /\ k = match b with [] => true | _ => false end.
Proof.
  induction t as [|c l IHl y r IHr]; intros p lm; cbn [insert_loop add_loop].
  - exists true. rewrite andb_true_r. split; [done|]. exists []. by rewrite app_nil_r.
  - destruct (left y).
    + destruct (IHl (Frame L c y r :: p) lm) as (k & E & b & Eb & Ek). exists k. split; [exact E|]. by exists b.
    + destruct (IHr (Frame R c y l :: p) false) as (k & E & b & Eb & Ek). exists false. rewrite E, andb_false_r. split; [done|].
      exists (elements l ++ y :: b)%list. rewrite Eb. cbn [before]. rewrite <- !app_assoc. split; [done|]. by destruct (elements l).
Qed.

Lemma insert_left_ok (left : symbol -> bool) root l x : reps root l -> StronglySorted (fun y z => left y = true -> left z = true) l ->
  ~ In (sym_addr x) (addrs l) -> exists root' l1 l2, (let '(p, leftmost) := insert_loop left (rb_root root) [] true in rb_insert_color_cached x p root leftmost) = Some root' /\
    l = (l1 ++ l2)%list /\ reps root' (l1 ++ x :: l2) /\ (forall y, In y l1 -> left y = false) /\ (forall y, In y l2 -> left y = true).
Proof.
  intros [Ht He Hnd Hfirst] Hs Hx. destruct (insert_loop_ok left x (rb_root root) [] true) as (k & -> & b & Eb & ->).
  destruct (add_loop_ok (fun _ y => left y) x (rb_root root) []) as [E Hf]. set (q := add_loop _ x (rb_root root) []) in *.
  cbn [before after app] in E, Eb. rewrite app_nil_r, He in E. rewrite He in Hf. destruct (Hf Hs) as [Hb Ha]; [constructor..|].
  assert (is_rbtree (plug Leaf q)) as Hq.
  { clear - Ht. subst q. revert Ht. change (rb_root root) with (plug (rb_root root) []) at 1. generalize (@nil (frame symbol)) as p.
    induction (rb_root root) as [|c l IHl y r IHr]; intros p Hp; cbn; [done|].
    destruct (left y); [apply (IHl (Frame L c y r :: p))|apply (IHr (Frame R c y l :: p))]; exact Hp. }
  destruct (insert_color_ok x q Hq) as (t & Et & Ht' & Ee). unfold rb_insert_color_cached. rewrite Et. cbn [mbind option_bind].
  eexists _, (before q), (after q). split; [done|]. split; [done|]. rewrite List.Forall_forall in Hb, Ha. split; [|done].
  split; cbn [rb_root rb_leftmost]; [done|done| |].
  - rewrite <- E in Hnd, Hx. unfold addrs in *. rewrite !List.map_app in *. cbn [List.map]. apply NoDup_ListNoDup. apply NoDup_ListNoDup in Hnd.
    apply (Permutation_NoDup (Permutation_middle _ _ _)). by constructor.
  - rewrite Hfirst, <- E, Eb. by destruct b.
Qed.

Lemma insert_cached_size root l : reps root l -> rb_size (rb_root root) = length l.
Proof.
  intros [_ <- _ _]. induction (rb_root root) as [|c tl IHl x tr IHr]; [done|]. cbn [rb_size elements]. rewrite length_app. cbn [length]. lia.
Qed.

(** ** What the fix-ups make of the list *)

Fixpoint dedup (c : symbol) (l : list symbol) : list symbol :=
  match l with
  | [] => [c]
  | x :: l =>
    if negb (sym_start c =? sym_start x) then c :: dedup x l
    else if choose_best_symbol c x =? SYMBOL_A then dedup (if sym_type x =? STT_GNU_IFUNC then c <| sym_ifunc_alias := true |> else c) l
    else dedup (if sym_type c =? STT_GNU_IFUNC then x <| sym_ifunc_alias := true |> else x) l
  end.
Definition dedup_list (l : list symbol) : list symbol := match l with [] => [] | c :: l => dedup c l end.

Lemma duplicate_loop_ok n : forall root l c r, reps root (l ++ c :: r) -> (length r < n)%nat ->
  exists root', duplicate_loop n root (sym_addr c) = Some root' /\ reps root' (l ++ dedup c r).
Proof.
  induction n as [|n IH]; intros root l c r H Hn; [lia|]. cbn [duplicate_loop]. rewrite (next_sym_ok _ _ _ _ H). cbn [mbind option_bind].
  destruct r as [|x r]; [by exists root|]. cbn [hd_error fmap option_fmap option_map length] in *.
  assert (reps root ((l ++ [c]) ++ x :: r)) as H' by (by rewrite <- app_assoc).
  rewrite (deref_ok _ _ _ _ H), (deref_ok _ _ _ _ H'). cbn [mbind option_bind dedup].
  destruct (sym_start c =? sym_start x); cbn [negb].
  2:{ destruct (IH root (l ++ [c])%list x r H' ltac:(lia)) as (root' & E & Hr). exists root'. split; [done|]. by rewrite <- app_assoc in Hr. }
  destruct (choose_best_symbol c x =? SYMBOL_A).
  - set (c' := if sym_type x =? STT_GNU_IFUNC then c <| sym_ifunc_alias := true |> else c).
    assert (sym_addr c' = sym_addr c) as Ec by (subst c'; by destruct (sym_type x =? STT_GNU_IFUNC)).
    assert (exists root1, (if sym_type x =? STT_GNU_IFUNC then update_sym root (sym_addr c) (fun s => s <| sym_ifunc_alias := true |>) else Some root) = Some root1 /\
      reps root1 (l ++ c' :: x :: r)) as (root1 & -> & H1).
    { subst c'. destruct (sym_type x =? STT_GNU_IFUNC); [by apply update_ok|by exists root]. }
    cbn [mbind option_bind]. assert (reps root1 ((l ++ [c']) ++ x :: r)) as H1' by (by rewrite <- app_assoc).
    destruct (erase_cached_ok _ _ _ _ H1') as (root2 & -> & H2). cbn [mbind option_bind]. rewrite <- app_assoc in H2.
    rewrite <- Ec. apply (IH root2 l c' r H2). lia.
  - set (x' := if sym_type c =? STT_GNU_IFUNC then x <| sym_ifunc_alias := true |> else x).
    assert (sym_addr x' = sym_addr x) as Ex by (subst x'; by destruct (sym_type c =? STT_GNU_IFUNC)).
    assert (exists root1, (if sym_type c =? STT_GNU_IFUNC then update_sym root (sym_addr x) (fun s => s <| sym_ifunc_alias := true |>) else Some root) = Some root1 /\
      reps root1 (l ++ c :: x' :: r)) as (root1 & -> & H1).
    { subst x'. destruct (sym_type c =? STT_GNU_IFUNC); [|by exists root].
      destruct (update_ok _ _ _ _ (fun s => s <| sym_ifunc_alias := true |>) H') as (root1 & E & H1); [done|]. exists root1. split; [exact E|]. rewrite <- app_assoc in H1. exact H1. }
    cbn [mbind option_bind]. rewrite (next_sym_ok _ _ _ _ H1). cbn [mbind option_bind].
    destruct (erase_cached_ok _ _ _ _ H1) as (root2 & -> & H2). cbn [mbind option_bind hd_error fmap option_fmap option_map].
    apply (IH root2 l x' r H2). lia.
Qed.

Lemma fixup_duplicate_ok root l : reps root l -> exists root', symbols__fixup_duplicate false root = Some root' /\ reps root' (dedup_list l).
Proof.
  intros H. unfold symbols__fixup_duplicate. rewrite (insert_cached_size _ _ H), (re_first _ _ H). destruct l as [|c l]; [by exists root|].
  cbn [hd_error fmap option_fmap option_map length]. apply (duplicate_loop_ok _ root [] c l H). lia.
Qed.

(** The end of a symbol before another, and of the last. *)
Definition with_end (is_kallsyms : bool) (prev curr : symbol) : symbol :=
  if sym_end prev =? sym_start prev then
    if is_kallsyms && negb (Bool.eqb (negb (strchr (sym_name prev) "[")) (negb (strchr (sym_name curr) "["))) then
      prev <| sym_end := roundup (u64 (sym_end prev + 4096)) 4096 |>
    else prev <| sym_end := sym_start curr |>
  else prev.
Definition with_last_end (s : symbol) : symbol :=
  if sym_end s =? sym_start s then s <| sym_end := u64 (roundup (sym_start s) 4096 + 4096) |> else s.
Fixpoint with_ends (is_kallsyms : bool) (l : list symbol) : list symbol :=
  match l with
  | [] => []
  | c :: l => match l with [] => [with_last_end c] | x :: _ => with_end is_kallsyms c x :: with_ends is_kallsyms l end
  end.

Lemma end_loop_ok k n : forall root l c r, reps root (l ++ c :: r) -> (length r < n)%nat ->
  exists root' l' z, end_loop n root k (sym_addr c) = Some (root', sym_addr z) /\ reps root' (l ++ l' ++ [z]) /\
    (l' ++ [with_last_end z])%list = with_ends k (c :: r).
Proof.
  induction n as [|n IH]; intros root l c r H Hn; [lia|]. cbn [end_loop]. rewrite (next_sym_ok _ _ _ _ H). cbn [mbind option_bind].
  destruct r as [|x r]; [by exists root, [], c|]. cbn [hd_error fmap option_fmap option_map length] in *.
  assert (reps root ((l ++ [c]) ++ x :: r)) as H' by (by rewrite <- app_assoc).
  rewrite (deref_ok _ _ _ _ H), (deref_ok _ _ _ _ H'). cbn [mbind option_bind]. unfold with_ends at 1; fold with_ends.
  match goal with |- context [?f ≫= _] => assert (exists root1, f = Some root1 /\ reps root1 (l ++ with_end k c x :: x :: r)) as (root1 & -> & H1) end.
  { unfold with_end. destruct (sym_end c =? sym_start c); [|by exists root]. destruct (k && _); by apply update_ok. }
  cbn [mbind option_bind]. assert (reps root1 ((l ++ [with_end k c x]) ++ x :: r)) as H1' by (by rewrite <- app_assoc).
  destruct (IH root1 (l ++ [with_end k c x])%list x r H1' ltac:(lia)) as (root' & l' & z & -> & Hr & E).
  exists root', (with_end k c x :: l'), z. split; [done|]. split; [by rewrite <- app_assoc in Hr|]. cbn [app]. by rewrite E.
Qed.

Lemma fixup_end_ok k root l : reps root l -> exists root', symbols__fixup_end root k = Some root' /\ reps root' (with_ends k l).
Proof.
  intros H. unfold symbols__fixup_end. rewrite (insert_cached_size _ _ H), (re_first _ _ H). destruct l as [|c l]; [by exists root|].
  cbn [hd_error fmap option_fmap option_map length].
  destruct (end_loop_ok k (S (S (length l))) root [] c l H ltac:(lia)) as (root' & l' & z & -> & Hr & E). cbn [mbind option_bind app] in *.
  rewrite (deref_ok _ _ _ _ Hr). cbn [mbind option_bind]. rewrite <- E. unfold with_last_end. destruct (sym_end z =? sym_start z); [by apply update_ok|by exists root'].
Qed.

(** ** Finding by address *)

Definition covers (s : symbol) (ip : Z) : Prop := sym_start s <= ip < sym_end s \/ ip = sym_start s /\ sym_end s = ip.
Definition apart (s t : symbol) : Prop := sym_start s < sym_start t /\ sym_end s <= sym_start t.

Lemma find_sym_ok ip t : StronglySorted apart (elements t) -> Forall (fun s => sym_start s <= sym_end s) (elements t) ->
  match find_sym_loop ip t with
  | Some s => In s (elements t) /\ covers s ip
  | None => forall s, In s (elements t) -> ~ covers s ip
  end.
Proof.
  induction t as [|c l IHl x r IHr]; intros Hs Hf; [by intros s []|]. cbn [find_sym_loop elements] in *.
  apply StronglySorted_app in Hs as (Hlr & Hsl & Hsr). apply List.Forall_app in Hf as [Hfl Hfr]. apply List.Forall_cons_iff in Hfr as [Hx Hfr].
  pose proof (StronglySorted_inv Hsr) as [Hsr' Hxr]. rewrite List.Forall_forall in Hxr, Hfl. unfold covers.
  destruct (Z.ltb_spec ip (sym_start x)) as [Hlt|Hge].
  { specialize (IHl Hsl ltac:(by rewrite List.Forall_forall)). destruct (find_sym_loop ip l) as [s|]; [split; [apply in_app_iff; left; apply IHl|apply IHl]|].
    intros s Hs. apply in_app_iff in Hs as [Hs|[->|Hs]]; [by apply IHl|lia|]. destruct (Hxr s Hs). lia. }
  assert (forall s, In s (elements l) -> apart s x) as Hlx by (intros s Hs; apply Hlr; [by apply list_elem_of_In|left]).
  destruct (Z.ltb_spec (sym_end x) ip), (Z.eqb_spec ip (sym_end x)), (Z.eqb_spec ip (sym_start x)); cbn [orb andb negb];
    try (split; [apply in_app_iff; right; by left|lia]); try lia;
    (specialize (IHr Hsr' Hfr); destruct (find_sym_loop ip r) as [s|]; [split; [apply in_app_iff; right; right; apply IHr|apply IHr]|];
     intros s Hs; apply in_app_iff in Hs as [Hs|[->|Hs]]; [destruct (Hlx s Hs); pose proof (Hfl s Hs); lia|lia|by apply IHr]).
Qed.

(** ** Kallsyms: the last of the symbols at an address reaches to the next address *)

Definition in_order (s t : symbol) : Prop := sym_start s <= sym_start t.
(** The end of the page after the one that a symbol starts in, or at. *)
Definition last_end (s : symbol) : Z := (sym_start s + 4095) / 4096 * 4096 + 4096.
(** Symbols of the kernel and of modules: names of these have a '['. *)
Definition in_module (s : symbol) : bool := strchr (sym_name s) "[".
(** Symbols without a size in the order of their starts, those of the kernel apart
    from those of modules, none so far from the others that lengths overflow. *)
Record sizeless (lo : Z) (l : list symbol) : Prop := {
  sl_order : StronglySorted in_order l;
  sl_end : Forall (fun s => sym_end s = sym_start s) l;
  sl_type : Forall (fun s => sym_type s <> STT_GNU_IFUNC) l;
  sl_module : forall s t, In s l -> In t l -> in_module s <> in_module t -> last_end s <= sym_start t \/ last_end t <= sym_start s;
  sl_range : Forall (fun s => 0 <= lo <= sym_start s /\ sym_start s < lo + 2 ^ 63 - 8192 /\ sym_start s < 2 ^ 64 - 8192) l
}.

Lemma sizeless_cons lo s l : sizeless lo (s :: l) -> sizeless lo l /\ Forall (in_order s) l.
Proof.
  intros [H1 H2 H3 H4 H5]. apply StronglySorted_inv in H1 as [H1 Hs]. apply List.Forall_cons_iff in H2 as [_ H2], H3 as [_ H3], H5 as [_ H5].
  split; [|done]. split; try done. intros a b Ha Hb. apply H4; by right.
Qed.

(** The end of a symbol with those after it. *)
Definition end_before (c : symbol) (l : list symbol) : Z :=
  match l with [] => last_end c | x :: _ => if Bool.eqb (in_module c) (in_module x) then sym_start x else last_end c end.

Lemma last_end_ok s : 0 <= sym_start s < 2 ^ 64 - 8192 -> u64 (roundup (sym_start s) 4096 + 4096) = last_end s /\ sym_start s + 4096 <= last_end s < sym_start s + 8192.
Proof.
  intros Hs. unfold roundup, last_end. change (4096 - 1) with 4095. rewrite (u64_small (sym_start s + 4095)) by lia.
  pose proof (Z.div_mod (sym_start s + 4095) 4096 ltac:(lia)). pose proof (Z.mod_pos_bound (sym_start s + 4095) 4096 ltac:(lia)).
  rewrite (u64_small (_ / 4096 * 4096)) by lia. rewrite u64_small by lia. lia.
Qed.

Fixpoint lasts (l : list symbol) : list symbol :=
  match l with
  | [] => []
  | c :: l => match l with
    | [] => [c <| sym_end := last_end c |>]
    | x :: _ => if sym_start x =? sym_start c then lasts l else c <| sym_end := end_before c l |> :: lasts l
    end
  end.

(** A symbol with a size is preferred to one without. *)
Lemma choose_sized c x : sym_end c = sym_start c -> 0 < sym_end x - sym_start x < 2 ^ 63 -> choose_best_symbol c x = SYMBOL_B.
Proof.
  intros Hc Hx. unfold choose_best_symbol. cbv zeta. rewrite Hc, Z.sub_diag. change (swrap 64 0) with 0.
  assert (swrap 64 (sym_end x - sym_start x) = sym_end x - sym_start x) as ->.
  { unfold swrap. rewrite u64_small by lia. replace (Z.testbit _ (64 - 1)) with false; [done|]. symmetry. apply (testbit_high 63); lia. }
  destruct (Z.eqb_spec (sym_end x - sym_start x) 0), (Z.ltb_spec 0 (sym_end x - sym_start x)); try lia. done.
Qed.

Lemma last_end_above s : sym_start s + 4096 <= last_end s.
Proof. unfold last_end. pose proof (Z.div_mod (sym_start s + 4095) 4096 ltac:(lia)). pose proof (Z.mod_pos_bound (sym_start s + 4095) 4096 ltac:(lia)). lia. Qed.

(** Symbols at one address are all of the kernel or all of modules. *)
Lemma same_address lo l s t : sizeless lo l -> In s l -> In t l -> sym_start s = sym_start t -> in_module s = in_module t.
Proof.
  intros H Hs Ht E. destruct (Bool.bool_dec (in_module s) (in_module t)) as [|Hne]; [done|].
  pose proof (last_end_above s). pose proof (last_end_above t). destruct (sl_module _ _ H s t Hs Ht Hne); lia.
Qed.

Lemma page_end_kallsyms x : 0 <= x < 2 ^ 64 - 8192 -> roundup (u64 (x + 4096)) 4096 = (x + 4095) / 4096 * 4096 + 4096.
Proof.
  intros Hx. unfold roundup. change (4096 - 1) with 4095. rewrite (u64_small (x + 4096)) by lia. rewrite (u64_small (x + 4096 + 4095)) by lia.
  replace (x + 4096 + 4095) with (x + 4095 + 1 * 4096) by lia. rewrite Z.div_add by lia.
  pose proof (Z.div_mod (x + 4095) 4096 ltac:(lia)). pose proof (Z.mod_pos_bound (x + 4095) 4096 ltac:(lia)). rewrite u64_small by lia. lia.
Qed.

Lemma with_end_sizeless lo c x l : sizeless lo (c :: x :: l) -> with_end true c x = c <| sym_end := end_before c (x :: l) |>.
Proof.
  intros H. unfold with_end. pose proof (sl_end _ _ H) as He. apply List.Forall_cons_iff in He as [-> _]. rewrite Z.eqb_refl.
  cbn [end_before andb]. unfold in_module. pose proof (sl_range _ _ H) as Hr. apply List.Forall_cons_iff in Hr as [Hr _].
  rewrite page_end_kallsyms by lia. by destruct (strchr (sym_name c) "["), (strchr (sym_name x) "[").
Qed.

(** Where a symbol ends: after it starts, and before the next one does. *)
Lemma end_before_ok lo c x l : sizeless lo (c :: x :: l) -> sym_start x <> sym_start c ->
  sym_start c < end_before c (x :: l) <= sym_start x /\ end_before c (x :: l) - sym_start c < 2 ^ 63.
Proof.
  intros H Hne. destruct (sizeless_cons _ _ _ H) as [_ Hin]. apply List.Forall_cons_iff in Hin as [Hcx _]. unfold in_order in Hcx.
  pose proof (sl_range _ _ H) as Hr. rewrite List.Forall_forall in Hr. pose proof (Hr c ltac:(by left)). pose proof (Hr x ltac:(right; by left)).
  pose proof (last_end_above c). pose proof (last_end_above x). cbn [end_before]. destruct (Bool.eqb (in_module c) (in_module x)) eqn:Em; [lia|].
  apply Bool.eqb_false_iff in Em. destruct (sl_module _ _ H c x ltac:(by left) ltac:(right; by left) Em); lia.
Qed.

Lemma with_last_end_sizeless lo c l : sizeless lo (c :: l) -> with_last_end c = c <| sym_end := last_end c |> /\ sym_start c + 4096 <= last_end c < sym_start c + 8192.
Proof.
  intros H. unfold with_last_end. pose proof (sl_end _ _ H) as He. apply List.Forall_cons_iff in He as [-> _]. rewrite Z.eqb_refl.
  pose proof (sl_range _ _ H) as Hr. apply List.Forall_cons_iff in Hr as [Hr _]. destruct (last_end_ok c ltac:(lia)) as [-> ?]. done.
Qed.

Lemma with_ends_cons k x r : exists x' t, with_ends k (x :: r) = x' :: t /\ sym_start x' = sym_start x.
Proof.
  destruct r as [|y r]; [exists (with_last_end x), []; split; [done|]; unfold with_last_end; by destruct (_ =? _)|].
  exists (with_end k x y), (with_ends k (y :: r)). split; [done|]. unfold with_end. destruct (_ =? _); [by destruct (k && _)|done].
Qed.

Lemma dedup_same d x l : sym_start x = sym_start d -> sym_type d <> STT_GNU_IFUNC -> sym_type x <> STT_GNU_IFUNC ->
  dedup d (x :: l) = dedup (if choose_best_symbol d x =? SYMBOL_A then d else x) l.
Proof.
  intros Hx Hd Htx. cbn [dedup]. rewrite Hx, Z.eqb_refl. cbn [negb].
  destruct (Z.eqb_spec (sym_type x) STT_GNU_IFUNC), (Z.eqb_spec (sym_type d) STT_GNU_IFUNC); try done. by destruct (_ =? SYMBOL_A).
Qed.

Lemma dedup_lasts lo r : forall c, sizeless lo (c :: r) ->
  (forall c' t, with_ends true (c :: r) = c' :: t -> dedup c' t = lasts (c :: r)) /\
  (forall d, sym_start d = sym_start c -> sym_end d = sym_start d -> sym_type d <> STT_GNU_IFUNC ->
    dedup d (with_ends true (c :: r)) = lasts (c :: r)).
Proof.
  induction r as [|x r IH]; intros c H; pose proof (sl_type _ _ H) as Hty; apply List.Forall_cons_iff in Hty as [Htc Hty].
  - cbn [with_ends lasts]. destruct (with_last_end_sizeless lo c [] H) as [-> Hl]. split; [by intros c' t [= <- <-]|].
    intros d Hd He Htd. rewrite dedup_same by done. rewrite choose_sized; [done|done|]. change (0 < last_end c - sym_start c < 2 ^ 63). lia.
  - destruct (sizeless_cons _ _ _ H) as [H' Hin]. destruct (IH x H') as [IHq IHf]. apply List.Forall_cons_iff in Hin as [Hcx _]. unfold in_order in Hcx.
    assert (with_ends true (c :: x :: r) = c <| sym_end := end_before c (x :: r) |> :: with_ends true (x :: r)) as -> by (cbn [with_ends]; by rewrite (with_end_sizeless lo c x r)).
    set (c' := c <| sym_end := end_before c (x :: r) |>). destruct (with_ends_cons true x r) as (x' & t & E & Ex). cbn [lasts].
    destruct (Z.eqb_spec (sym_start x) (sym_start c)) as [Exc|Hne].
    + assert (sym_end c' = sym_start c') as Ec'.
      { change (end_before c (x :: r) = sym_start c). cbn [end_before].
        rewrite (same_address lo _ c x H) by (cbn; tauto || congruence). by rewrite eqb_reflx. }
      split.
      * intros c2 t2 [= <- <-]. by apply IHf.
      * intros d Hd He Htd. rewrite dedup_same by done.
        destruct (choose_best_symbol d c' =? SYMBOL_A); apply IHf; try done; congruence.
    + assert (dedup c' (with_ends true (x :: r)) = c' :: lasts (x :: r)) as Ec.
      { rewrite E. cbn [dedup]. rewrite Ex. change (sym_start c') with (sym_start c). destruct (Z.eqb_spec (sym_start c) (sym_start x)); [congruence|]. cbn [negb]. f_equal. by apply IHq. }
      split; [by intros c2 t2 [= <- <-]|]. intros d Hd He Htd. rewrite dedup_same by done. rewrite choose_sized; [exact Ec|done|].
      change (0 < end_before c (x :: r) - sym_start c < 2 ^ 63). destruct (end_before_ok lo c x r H Hne). lia.
Qed.

Lemma fixed_lasts lo l : sizeless lo l -> dedup_list (with_ends true l) = lasts l.
Proof.
  destruct l as [|c r]; [done|]. intros H. destruct (with_ends_cons true c r) as (c' & t & E & _). rewrite E. cbn [dedup_list].
  by apply (dedup_lasts lo r c H).
Qed.

Lemma lasts_in lo l : sizeless lo l -> forall s, In s (lasts l) -> exists l1 c l2, (l = l1 ++ c :: l2)%list /\
  s = c <| sym_end := end_before c l2 |> /\ (forall y, In y l2 -> sym_start c < sym_start y).
Proof.
  induction l as [|c l IH]; intros H s Hs; [done|]. destruct (sizeless_cons _ _ _ H) as [H' Hc]. cbn [lasts] in Hs. destruct l as [|x l].
  { destruct Hs as [<-|[]]. by exists [], c, []. }
  assert (In s (lasts (x :: l)) -> exists l1 c0 l2, (c :: x :: l = l1 ++ c0 :: l2)%list /\ s = c0 <| sym_end := end_before c0 l2 |> /\ (forall y, In y l2 -> sym_start c0 < sym_start y)) as Hin.
  { intros Hs'. destruct (IH H' s Hs') as (l1 & c0 & l2 & -> & Hrest). by exists (c :: l1), c0, l2. }
  destruct (Z.eqb_spec (sym_start x) (sym_start c)) as [|Hne]; [by apply Hin|]. destruct Hs as [<-|Hs]; [|by apply Hin].
  exists [], c, (x :: l). split; [done|]. split; [done|]. intros y Hy. destruct (sizeless_cons _ _ _ H') as [_ Hx].
  rewrite List.Forall_forall in Hc, Hx. pose proof (Hc x ltac:(by left)) as Hcx. unfold in_order in *. destruct Hy as [<-|Hy]; [lia|]. specialize (Hx y Hy). lia.
Qed.

Lemma lasts_complete l1 c l2 : (forall y, In y l2 -> sym_start c < sym_start y) -> In (c <| sym_end := end_before c l2 |>) (lasts (l1 ++ c :: l2)).
Proof.
  intros Hl2. induction l1 as [|z l1 IH].
  - cbn [app lasts]. destruct l2 as [|x l2]; [by left|]. pose proof (Hl2 x ltac:(by left)). destruct (Z.eqb_spec (sym_start x) (sym_start c)); [lia|by left].
  - change ((z :: l1) ++ c :: l2)%list with (z :: (l1 ++ c :: l2))%list. cbn [lasts]. destruct (l1 ++ c :: l2)%list as [|x l] eqn:E; [by destruct l1|].
    destruct (sym_start x =? sym_start z); [done|by right].
Qed.

Lemma lasts_apart lo l : sizeless lo l -> StronglySorted apart (lasts l) /\ Forall (fun s => sym_start s <= sym_end s) (lasts l).
Proof.
  induction l as [|c l IH]; intros H; [by split; constructor|]. destruct (sizeless_cons _ _ _ H) as [H' Hc]. destruct (IH H') as [Hs Hf]. cbn [lasts].
  destruct l as [|x l].
  { destruct (with_last_end_sizeless lo c [] H) as [_ Hl]. split; [by repeat constructor|]. constructor; [|constructor]. change (sym_start c <= last_end c). lia. }
  destruct (Z.eqb_spec (sym_start x) (sym_start c)) as [|Hne]; [done|]. apply List.Forall_cons_iff in Hc as [Hcx _]. unfold in_order in Hcx.
  pose proof (end_before_ok lo c x l H Hne) as [Hend _].
  split; [|constructor; [change (sym_start c <= end_before c (x :: l)); lia|done]]. constructor; [done|]. apply List.Forall_forall. intros s Hin.
  destruct (lasts_in lo _ H' s Hin) as (l1 & c0 & l2 & E & -> & _). change (sym_start c < sym_start c0 /\ end_before c (x :: l) <= sym_start c0).
  destruct (sizeless_cons _ _ _ H') as [_ Hx]. rewrite List.Forall_forall in Hx. destruct l1 as [|z l1]; injection E as -> ->; [lia|].
  specialize (Hx c0 ltac:(apply in_app_iff; right; by left)). unfold in_order in Hx. lia.
Qed.

(** ** Insertion by address, and the lines of kallsyms *)

Definition at_start (v : Z) (s : symbol) : bool := sym_start s =? v.

(** [l'] is [l] with [x], in order and after all symbols at the same address. *)
Definition put_in (l : list symbol) (x : symbol) (l' : list symbol) : Prop :=
  StronglySorted in_order l' /\ Permutation (x :: l) l' /\ forall v, List.filter (at_start v) l' = (List.filter (at_start v) l ++ List.filter (at_start v) [x])%list.

Lemma filter_nil {A} (f : A -> bool) l : (forall x, In x l -> f x = false) -> List.filter f l = [].
Proof. induction l as [|x l IH]; intros Hf; [done|]. cbn [List.filter]. rewrite Hf by (by left). apply IH. intros y Hy. apply Hf. by right. Qed.

Lemma put_in_ok l1 l2 x : StronglySorted in_order (l1 ++ l2) -> (forall y, In y l1 -> sym_start y <= sym_start x) -> (forall y, In y l2 -> sym_start x < sym_start y) ->
  put_in (l1 ++ l2) x (l1 ++ x :: l2).
Proof.
  intros Hs H1 H2. apply StronglySorted_app in Hs as (H12 & Hs1 & Hs2). split; [|split].
  - apply StronglySorted_app. split; [|split; [done|]].
    + intros y z Hy Hz. apply list_elem_of_In in Hy. apply elem_of_cons in Hz as [->|Hz]; [by apply H1|]. apply H12; [by apply list_elem_of_In|done].
    + constructor; [done|]. apply List.Forall_forall. intros y Hy. specialize (H2 y Hy). unfold in_order. lia.
  - apply Permutation_middle.
  - intros v. rewrite !List.filter_app. cbn [List.filter]. destruct (at_start v x) eqn:Ev; [|by rewrite app_nil_r].
    rewrite (filter_nil (at_start v) l2); [by rewrite app_nil_r|]. intros y Hy. specialize (H2 y Hy). unfold at_start in *. lia.
Qed.

Lemma symbols_insert_ok root l x kernel : reps root l -> StronglySorted in_order l -> ~ In (sym_addr x) (addrs l) ->
  exists root' l' b, __symbols__insert root x kernel = Some root' /\ reps root' l' /\ put_in l (x <| sym_idle := b |>) l'.
Proof.
  intros Hr Hs Hx. unfold __symbols__insert. cbv zeta.
  match goal with |- context [insert_loop (fun s => sym_start ?y <? _) _ _ _] => assert (exists b, y = x <| sym_idle := b |>) as [b ->] end.
  { destruct kernel; [by eexists|]. exists (sym_idle x). by destruct x. }
  set (x' := x <| sym_idle := b |>).
  destruct (insert_left_ok (fun s => sym_start x' <? sym_start s) root l x' Hr) as (root' & l1 & l2 & -> & El & Hr' & H1 & H2); [|done|].
  - eapply StronglySorted_ind with (P := StronglySorted _); [constructor| |exact Hs]. intros y m _ IH Hy. constructor; [done|].
    eapply List.Forall_impl; [|exact Hy]. unfold in_order. cbn beta. intros z Hz Hlt. lia.
  - exists root', (l1 ++ x' :: l2)%list, b. split; [done|]. split; [done|]. rewrite El. apply put_in_ok; [by rewrite <- El| |].
    + intros y Hy. specialize (H1 y Hy). cbn beta in H1. lia.
    + intros y Hy. specialize (H2 y Hy). cbn beta in H2. lia.
Qed.

(** The lines that make a symbol, and the symbol. *)
Definition kept (k : kallsym) : bool := symbol_type__filter (ks_type k) && negb (match ks_name k with String "$" _ => true | _ => false end).
Definition ksym (k : kallsym) (s : symbol) : Prop :=
  ks_calloc k = Some (sym_addr s) /\ sym_start s = ks_start k /\ sym_end s = ks_start k /\ sym_name s = ks_name k /\ sym_type s <> STT_GNU_IFUNC.

Lemma process_ok root l k : reps root l -> StronglySorted in_order l -> kept k = true -> ks_calloc k <> None ->
  (forall a, ks_calloc k = Some a -> ~ In a (addrs l)) ->
  exists root' l' s, map__process_kallsym_symbol root k = Some (0, root') /\ reps root' l' /\ ksym k s /\ put_in l s l'.
Proof.
  intros Hr Hs Hk Hc Hx. unfold kept in Hk. apply andb_true_iff in Hk as [Hf Hd]. unfold map__process_kallsym_symbol. rewrite Hf. cbn [negb].
  apply negb_true_iff in Hd. rewrite Hd. unfold symbol__new. destruct (ks_calloc k) as [a|] eqn:Ea; [|done]. cbn [mbind option_bind].
  match goal with |- context [__symbols__insert root ?x ?b] => destruct (symbols_insert_ok root l x b Hr Hs) as (root' & l' & idle & -> & Hr' & Hp) end; [by apply Hx|].
  cbn [mbind option_bind]. exists root', l'. eexists. split; [done|]. split; [done|]. split; [|exact Hp].
  split; [done|]. split; [done|]. split; [done|]. split; [done|]. change (kallsyms2elf_type (ks_type k) .& 15 <> STT_GNU_IFUNC). unfold kallsyms2elf_type. by destruct (_ || _).
Qed.

(** What parsing the lines leaves: the symbols [ss] of the lines that are kept, in
    order, those at the same address in the order of the lines. *)
Lemma parse_ok lines : forall root l, reps root l -> StronglySorted in_order l ->
  Forall (fun k => ks_calloc k <> None) (List.filter kept lines) -> NoDup (List.map ks_calloc (List.filter kept lines)) ->
  (forall k a, In k (List.filter kept lines) -> ks_calloc k = Some a -> ~ In a (addrs l)) ->
  exists root' l' ss, kallsyms__parse lines root = Some (0, root') /\ reps root' l' /\ Forall2 ksym (List.filter kept lines) ss /\
    StronglySorted in_order l' /\ Permutation (l ++ ss) l' /\ forall v, List.filter (at_start v) l' = List.filter (at_start v) (l ++ ss).
Proof.
  induction lines as [|k lines IH]; intros root l Hr Hs Hc Hnd Hx.
  { exists root, l, []. rewrite app_nil_r. by repeat (split; [done|]). }
  cbn [kallsyms__parse List.filter] in *. destruct (kept k) eqn:Ek.
  - apply List.Forall_cons_iff in Hc as [Hck Hc]. cbn [List.map] in Hnd. apply list.NoDup_cons in Hnd as [Hnk Hnd].
    destruct (process_ok root l k Hr Hs Ek Hck) as (root1 & l1 & s & -> & Hr1 & Hks & Hs1 & Hp1 & Hf1); [intros a Ha; apply (Hx k a); [by left|done]|].
    cbn [mbind option_bind]. change (0 =? 0) with true. cbn iota. destruct (IH root1 l1 Hr1 Hs1 Hc Hnd) as (root' & l' & ss & E & Hr' & Hss & Hs' & Hp' & Hf').
    { intros k' a Hk' Ha Hin. unfold addrs in Hin. apply (Permutation_in _ (Permutation_map sym_addr (Permutation_sym Hp1))) in Hin. destruct Hin as [Hin|Hin].
      - apply Hnk, list_elem_of_In, in_map_iff. exists k'. split; [|done]. destruct Hks as (-> & _). congruence.
      - apply (Hx k' a); [by right|done|done]. }
    exists root', l', (s :: ss). split; [done|]. split; [done|]. split; [by constructor|]. split; [done|].
    split; [rewrite <- Hp', <- Hp1; symmetry; apply Permutation_middle|].
    intros v. rewrite Hf', !List.filter_app, Hf1, <- app_assoc. f_equal. cbn [List.filter]. by destruct (at_start v s).
  - assert (map__process_kallsym_symbol root k = Some (0, root)) as ->.
    { unfold kept in Ek. unfold map__process_kallsym_symbol. destruct (symbol_type__filter (ks_type k)); [|done]. cbn [negb andb] in *. apply negb_false_iff in Ek. by rewrite Ek. }
    cbn [mbind option_bind]. change (0 =? 0) with true. cbn iota. by apply IH.
Qed.

Lemma filter_last {A} (f : A -> bool) l p x : List.filter f l = (p ++ [x])%list -> exists l1 l2, (l = l1 ++ x :: l2)%list /\ forall y, In y l2 -> f y = false.
Proof.
  induction l as [|y l IH] using rev_ind; [by destruct p|]. rewrite List.filter_app. cbn [List.filter]. destruct (f y) eqn:Ey.
  - intros E. apply app_inj_tail in E as [_ ->]. by exists l, [].
  - rewrite app_nil_r. intros E. destruct (IH E) as (l1 & l2 & -> & Hl2). exists l1, (l2 ++ [y])%list. split; [by rewrite <- app_assoc|].
    intros z Hz. apply in_app_iff in Hz as [Hz|[<-|[]]]; [by apply Hl2|done].
Qed.

Lemma split_at ip l : StronglySorted in_order l -> exists l1 l2, (l = l1 ++ l2)%list /\ (forall s, In s l1 -> sym_start s <= ip) /\ (forall s, In s l2 -> ip < sym_start s).
Proof.
  induction l as [|s l IH]; intros Hs; [by exists [], []|]. apply StronglySorted_inv in Hs as [Hs Hl]. destruct (Z.le_gt_cases (sym_start s) ip) as [Hle|Hgt].
  - destruct (IH Hs) as (l1 & l2 & -> & H1 & H2). exists (s :: l1), l2. split; [done|]. split; [|done]. intros y [<-|Hy]; [done|by apply H1].
  - exists [], (s :: l). split; [done|]. split; [by intros y []|]. rewrite List.Forall_forall in Hl. intros y [<-|Hy]; [done|]. specialize (Hl y Hy). unfold in_order in Hl. lia.
Qed.

(** The lines are of the kernel or all of modules, memory is found for their
    symbols, and no two are too far from each other. *)
Definition page_end (k : kallsym) : Z := (ks_start k + 4095) / 4096 * 4096 + 4096.
Definition ks_module (k : kallsym) : bool := strchr (ks_name k) "[".
Record usable (lo : Z) (ks : list kallsym) : Prop := {
  us_calloc : Forall (fun k => ks_calloc k <> None) ks;
  us_fresh : NoDup (List.map ks_calloc ks);
  us_module : forall k k', In k ks -> In k' ks -> ks_module k <> ks_module k' -> page_end k <= ks_start k' \/ page_end k' <= ks_start k;
  us_range : Forall (fun k => 0 <= lo <= ks_start k /\ ks_start k < lo + 2 ^ 63 - 8192 /\ ks_start k < 2 ^ 64 - 8192) ks
}.

Lemma Forall2_in_r {A B} (P : A -> B -> Prop) l l' y : Forall2 P l l' -> In y l' -> exists x, In x l /\ P x y.
Proof. induction 1 as [|x z l l' Hxz _ IH]; intros Hy; [done|]. destruct Hy as [<-|Hy]; [exists x; split; [by left|done]|]. destruct (IH Hy) as (w & Hw & Hp). exists w. split; [by right|done]. Qed.
Lemma Forall2_in_l {A B} (P : A -> B -> Prop) l l' x : Forall2 P l l' -> In x l -> exists y, In y l' /\ P x y.
Proof. induction 1 as [|z y l l' Hxz _ IH]; intros Hx; [done|]. destruct Hx as [<-|Hx]; [exists y; split; [by left|done]|]. destruct (IH Hx) as (w & Hw & Hp). exists w. split; [by right|done]. Qed.

Lemma parsed_sizeless lo ks ss l : usable lo ks -> Forall2 ksym ks ss -> StronglySorted in_order l -> Permutation ss l -> sizeless lo l.
Proof.
  intros [_ _ Hm Hr] Hk Hs Hp. rewrite List.Forall_forall in Hr.
  assert (forall s, In s l -> exists k, In k ks /\ ksym k s) as Hin by (intros s Hs'; apply (Forall2_in_r _ _ _ _ Hk), (Permutation_in _ (Permutation_sym Hp) Hs')).
  split; [done|..]; try (apply List.Forall_forall; intros s Hs'; destruct (Hin s Hs') as (k & Hk' & _ & E1 & E2 & E3 & E4)).
  - congruence.
  - done.
  - intros s t Hs' Ht. destruct (Hin s Hs') as (k & Hk' & _ & E1 & _ & E2 & _), (Hin t Ht) as (k2 & Hk2 & _ & F1 & _ & F2 & _).
    unfold in_module, last_end. rewrite E1, E2, F1, F2. by apply Hm.
  - rewrite E1. by apply Hr.
Qed.

(** What is found in a list of symbols without sizes once the ends are fixed. *)
Lemma lasts_find lo l t ip : sizeless lo l -> elements t = lasts l ->
  match find_sym_loop ip t with
  | Some s => exists l1 c l2, (l = l1 ++ c :: l2)%list /\ sym_name s = sym_name c /\ sym_start s = sym_start c /\ sym_start c <= ip < end_before c l2 /\
      (forall y, In y l2 -> ip < sym_start y /\ sym_start c < sym_start y)
  | None => forall l1 c l2, (l = l1 ++ c :: l2)%list -> sym_start c <= ip -> (forall y, In y l2 -> ip < sym_start y) -> end_before c l2 <= ip
  end.
Proof.
  intros H Et. destruct (lasts_apart lo l H) as [Ha Hf]. pose proof (find_sym_ok ip t) as Hfind. rewrite Et in Hfind. specialize (Hfind Ha Hf).
  destruct (find_sym_loop ip t) as [s|].
  - destruct Hfind as [Hin Hc]. destruct (lasts_in lo l H s Hin) as (l1 & c & l2 & E & -> & Hl2). exists l1, c, l2. split; [done|]. split; [done|]. split; [done|].
    change (sym_start c <= ip < end_before c l2 \/ ip = sym_start c /\ end_before c l2 = ip) in Hc.
    destruct l2 as [|x l2]; [split; [cbn in *; pose proof (last_end_above c); lia|done]|]. pose proof (Hl2 x ltac:(by left)).
    assert (sizeless lo (c :: x :: l2)) as H'.
    { clear -H E. subst l. induction l1 as [|z l1 IH]; [done|]. apply IH. by destruct (sizeless_cons _ _ _ H). }
    destruct (end_before_ok lo c x l2 H' ltac:(lia)) as [He _]. split; [lia|]. intros y Hy. split; [|by apply Hl2].
    destruct (sizeless_cons _ _ _ H') as [H2 _]. destruct (sizeless_cons _ _ _ H2) as [_ Hx]. rewrite List.Forall_forall in Hx.
    destruct Hy as [<-|Hy]; [lia|]. specialize (Hx y Hy). unfold in_order in Hx. lia.
  - intros l1 c l2 E Hc H2. assert (forall y, In y l2 -> sym_start c < sym_start y) as Hl2 by (intros y Hy; specialize (H2 y Hy); lia).
    pose proof (Hfind _ ltac:(rewrite E; by apply lasts_complete)) as Hno. change (~ (sym_start c <= ip < end_before c l2 \/ ip = sym_start c /\ end_before c l2 = ip)) in Hno. lia.
Qed.

(** The lines that start closest below an address, or at it. *)
Definition nearest (ks : list kallsym) (ip : Z) (k : kallsym) : Prop :=
  In k ks /\ ks_start k <= ip /\ forall k', In k' ks -> ks_start k' <= ip -> ks_start k' <= ks_start k.
(** A symbol reaches to the end of the page after the one it starts in, or at, or as
    far as the next one, if both are of the kernel or both of modules. *)
Definition reaches (ks : list kallsym) (ip : Z) (k : kallsym) : Prop :=
  ip < page_end k \/
  exists k', In k' ks /\ ip < ks_start k' /\ ks_module k' = ks_module k /\ forall k2, In k2 ks -> ip < ks_start k2 -> ks_start k' <= ks_start k2.

Section parsed.
Context (lo ip : Z) (ks : list kallsym) (ss l : list symbol).
Context (Hl : sizeless lo l) (Hk : Forall2 ksym ks ss) (Hp : Permutation ss l).

Lemma line_symbol k : In k ks -> exists s, In s l /\ sym_start s = ks_start k /\ in_module s = ks_module k /\ last_end s = page_end k.
Proof using Hk Hp.
  intros Hin. destruct (Forall2_in_l _ _ _ k Hk Hin) as (s & Hs & _ & E1 & _ & E2 & _). exists s. split; [by apply (Permutation_in _ Hp)|].
  unfold in_module, ks_module, last_end, page_end. by rewrite E1, E2.
Qed.

Lemma symbol_line s : In s l -> exists k, In k ks /\ sym_start s = ks_start k /\ in_module s = ks_module k /\ last_end s = page_end k.
Proof using Hk Hp.
  intros Hs. apply (Permutation_in _ (Permutation_sym Hp)) in Hs. destruct (Forall2_in_r _ _ _ s Hk Hs) as (k & Hin & _ & E1 & _ & E2 & _). exists k. split; [done|].
  unfold in_module, ks_module, last_end, page_end. by rewrite E1, E2.
Qed.

(** The line of a symbol that is found, the last in order below the address. *)
Lemma found_reaches l1 c l2 k : l = (l1 ++ c :: l2)%list -> sym_start c <= ip < end_before c l2 -> (forall y, In y l2 -> ip < sym_start y) ->
  In k ks -> sym_start c = ks_start k -> nearest ks ip k /\ reaches ks ip k.
Proof using Hl Hk Hp.
  intros El Hc Hl2 Hin Ek. pose proof (sl_order _ _ Hl) as Hs. rewrite El in Hs. apply StronglySorted_app in Hs as (Hlow & _ & Hs).
  assert (In c l) as Hcl by (rewrite El; apply in_app_iff; right; by left).
  destruct (line_symbol k Hin) as (s & Hsl & Es & Em & Ee). rewrite <- (same_address lo l c s Hl Hcl Hsl ltac:(lia)) in Em.
  assert (last_end c = page_end k) as Ec by (rewrite <- Ee; unfold last_end; do 3 f_equal; lia).
  split; [split; [done|split; [lia|]]|].
  - intros k' Hk' Hle. destruct (line_symbol k' Hk') as (s' & Hs' & Es' & _). rewrite El in Hs'. apply in_app_iff in Hs' as [Hs'|[<-|Hs']]; [|lia|].
    + assert (in_order s' c) as Ho by (apply Hlow; [by apply list_elem_of_In|left]). unfold in_order in Ho. lia.
    + specialize (Hl2 s' Hs'). lia.
  - destruct l2 as [|x l2]; [left; cbn in Hc; lia|]. cbn [end_before] in Hc. destruct (Bool.eqb (in_module c) (in_module x)) eqn:Ex; [|left; lia].
    apply Bool.eqb_prop in Ex. destruct (symbol_line x) as (kx & Hkx & Exs & Exm & _); [rewrite El; apply in_app_iff; right; right; by left|].
    right. exists kx. split; [done|]. split; [lia|]. split; [congruence|]. intros k2 Hk2 Hlt. destruct (line_symbol k2 Hk2) as (s2 & Hs2 & Es2 & _).
    rewrite El in Hs2. apply in_app_iff in Hs2 as [Hs2|[<-|Hs2]]; [|lia|].
    + assert (in_order s2 c) as Ho by (apply Hlow; [by apply list_elem_of_In|left]). unfold in_order in Ho. lia.
    + apply StronglySorted_inv in Hs as [Hs _]. apply StronglySorted_inv in Hs as [_ Hx]. rewrite List.Forall_forall in Hx.
      destruct Hs2 as [<-|Hs2]; [lia|]. specialize (Hx s2 Hs2). unfold in_order in Hx. lia.
Qed.

(** Where nothing is found, the closest line does not reach. *)
Lemma not_found k : (forall l1 c l2, l = (l1 ++ c :: l2)%list -> sym_start c <= ip -> (forall y, In y l2 -> ip < sym_start y) -> end_before c l2 <= ip) ->
  nearest ks ip k -> ~ reaches ks ip k.
Proof using Hl Hk Hp.
  intros Hno (Hin & Hle & Hmax). destruct (line_symbol k Hin) as (s & Hsl & Es & Em & Ee).
  destruct (split_at ip l (sl_order _ _ Hl)) as (la & lb & El & H1 & H2). pose proof Hsl as Hsa. rewrite El in Hsa.
  apply in_app_iff in Hsa as [Hsa|Hsb]; [|specialize (H2 s Hsb); lia].
  destruct la as [|c la _] using rev_ind; [done|]. rewrite <- app_assoc in El. cbn [app] in El.
  pose proof (H1 c ltac:(apply in_app_iff; right; by left)) as Hc. specialize (Hno la c lb El Hc H2).
  assert (In c l) as Hcl by (rewrite El; apply in_app_iff; right; by left). destruct (symbol_line c Hcl) as (kc & Hkc & Ekc & _).
  specialize (Hmax kc Hkc ltac:(lia)). pose proof (sl_order _ _ Hl) as Hs. rewrite El in Hs. apply StronglySorted_app in Hs as (Hlow & _ & _).
  assert (sym_start s <= sym_start c) as Hsc.
  { apply in_app_iff in Hsa as [Hsa|[<-|[]]]; [|lia]. assert (in_order s c) as Ho by (apply Hlow; [by apply list_elem_of_In|left]). exact Ho. }
  rewrite <- (same_address lo l c s Hl Hcl Hsl ltac:(lia)) in Em. assert (last_end c = page_end k) as Ec by (rewrite <- Ee; unfold last_end; do 3 f_equal; lia).
  destruct lb as [|x lb]; cbn [end_before] in Hno.
  - intros [Hlt|(k' & Hk' & Hlt & _)]; [lia|]. destruct (line_symbol k' Hk') as (s' & Hs' & Es' & _). rewrite El in Hs'.
    specialize (H1 s' Hs'). lia.
  - pose proof (H2 x ltac:(by left)) as Hx. destruct (Bool.eqb (in_module c) (in_module x)) eqn:Ex; [lia|]. apply Bool.eqb_false_iff in Ex.
    intros [Hlt|(k' & Hk' & Hlt & Em' & Hmin)]; [lia|]. apply Ex. destruct (line_symbol k' Hk') as (s' & Hs' & Es' & Ems & _).
    assert (In x l) as Hxl by (rewrite El; apply in_app_iff; right; right; by left). destruct (symbol_line x Hxl) as (kx & Hkx & Exs & _).
    specialize (Hmin kx Hkx ltac:(lia)). rewrite (same_address lo l x s' Hl Hxl Hs'); [congruence|].
    assert (sym_start x <= sym_start s') as Hxs; [|lia]. pose proof Hs' as Hs2. rewrite El in Hs2.
    assert (In s' (x :: lb)) as Hs3.
    { apply in_app_iff in Hs2 as [Hs2|[<-|Hs2]]; [|lia|done]. specialize (H1 s' ltac:(apply in_app_iff; by left)). lia. }
    pose proof (sl_order _ _ Hl) as Hs. rewrite El in Hs. apply StronglySorted_app in Hs as (_ & _ & Hs).
    apply StronglySorted_inv in Hs as [Hs _]. apply StronglySorted_inv in Hs as [_ Hxlb]. rewrite List.Forall_forall in Hxlb.
    destruct Hs3 as [<-|Hs3]; [lia|]. exact (Hxlb s' Hs3).
Qed.
End parsed.


(** ** Duplicates *)

(** What makes a symbol better than another at its address, in this order: a size,
    not being weak, being global, few underscores in front, a long name. *)
Definition rank (s : symbol) : list Z :=
  [Z.b2z (0 <? sym_end s - sym_start s); Z.b2z (negb (sym_binding s =? STB_WEAK)); Z.b2z (sym_binding s =? STB_GLOBAL);
   - prefix_underscores_count (sym_name s); strlen (sym_name s)].
Fixpoint lex_le (a b : list Z) : bool :=
  match a, b with x :: a, y :: b => (x <? y) || (x =? y) && lex_le a b | _, _ => true end.
Definition sane (s : symbol) : Prop := sym_start s <= sym_end s < sym_start s + 2 ^ 63.

Lemma lex_le_refl a : lex_le a a = true.
Proof. induction a as [|x a IH]; [done|]. cbn [lex_le]. by rewrite Z.eqb_refl, IH, orb_true_r. Qed.

Lemma lex_le_trans a : forall b c, length a = length b -> lex_le a b = true -> lex_le b c = true -> lex_le a c = true.
Proof.
  induction a as [|x a IH]; intros [|y b] [|z c] Hlen Hab Hbc; try done. cbn [lex_le] in *. injection Hlen as Hlen.
  destruct (Z.ltb_spec x y), (Z.ltb_spec y z), (Z.ltb_spec x z); cbn [orb] in *; try done;
    try (apply andb_true_iff in Hab as [Exy Hab]; apply Z.eqb_eq in Exy); try (apply andb_true_iff in Hbc as [Eyz Hbc]; apply Z.eqb_eq in Eyz); try lia.
  rewrite (IH b c Hlen Hab Hbc), andb_true_r. apply Z.eqb_eq. lia.
Qed.

Lemma swrap64_small z : 0 <= z < 2 ^ 63 -> swrap 64 z = z.
Proof. intros Hz. unfold swrap. rewrite u64_small by lia. replace (Z.testbit _ (64 - 1)) with false; [done|]. symmetry. apply (testbit_high 63); lia. Qed.

Lemma choose_rank a b : sane a -> sane b -> if choose_best_symbol a b =? SYMBOL_A then lex_le (rank b) (rank a) = true else lex_le (rank a) (rank b) = true.
Proof.
  intros [Ha1 Ha2] [Hb1 Hb2]. unfold choose_best_symbol, rank. cbv zeta. rewrite !swrap64_small by lia.
  set (x := sym_end a - sym_start a) in *. set (y := sym_end b - sym_start b) in *. unfold strlen.
  set (ua := prefix_underscores_count (sym_name a)). set (ub := prefix_underscores_count (sym_name b)).
  set (na := Z.of_nat (String.length (sym_name a))). set (nb := Z.of_nat (String.length (sym_name b))).
  destruct (Z.eqb_spec y 0), (Z.eqb_spec x 0), (Z.ltb_spec 0 x), (Z.ltb_spec 0 y); try lia; cbn [andb lex_le Z.b2z]; try done;
  destruct (sym_binding a =? STB_WEAK), (sym_binding b =? STB_WEAK); cbn [andb negb Z.b2z]; try done;
  destruct (sym_binding a =? STB_GLOBAL), (sym_binding b =? STB_GLOBAL); cbn [andb negb Z.b2z]; try done;
  destruct (Z.ltb_spec ua ub), (Z.ltb_spec ub ua); try lia; cbn; try lia;
  destruct (Z.ltb_spec nb na), (Z.ltb_spec na nb); try lia; 
    lazymatch goal with
    | |- context [SYMBOL_A =? SYMBOL_A] => change (SYMBOL_A =? SYMBOL_A) with true
    | |- context [SYMBOL_B =? SYMBOL_A] => change (SYMBOL_B =? SYMBOL_A) with false
    | _ => destruct (arch__choose_best_symbol a b =? SYMBOL_A)
    end; cbn iota; lia.
Qed.

(** [s'] is [s], but that it may be known as an alias of an ifunc. *)
Definition same_but_alias (s s' : symbol) : Prop := s' = s <| sym_ifunc_alias := sym_ifunc_alias s' |>.

Lemma same_but_alias_refl s : same_but_alias s s.
Proof. by destruct s. Qed.

Definition before_start (s t : symbol) : Prop := sym_start s < sym_start t.

(** [l'] keeps of [l], from [c] on, one of the best symbols at each address, in
    order. *)
Definition best_kept (c : symbol) (l l' : list symbol) : Prop :=
  StronglySorted before_start l' /\ Forall (in_order c) l' /\
  (forall s, In s l -> exists s', In s' l' /\ sym_start s' = sym_start s /\ lex_le (rank s) (rank s') = true) /\
  (forall s', In s' l' -> exists s, In s l /\ same_but_alias s s').

(** Of [w] and [v] at one address the better, [w], stays. *)
Lemma best_kept_turn c w v r l' (b : bool) : let w' := if b then w <| sym_ifunc_alias := true |> else w in
  sym_start w = sym_start c -> sym_start v = sym_start c -> lex_le (rank v) (rank w) = true ->
  best_kept w' (w' :: r) l' -> best_kept c (w :: v :: r) l'.
Proof.
  intros w' Hw Hv Hle (H1 & H2 & H3 & H4).
  assert (sym_start w' = sym_start c /\ rank w' = rank w /\ same_but_alias w w') as (Hw1 & Hw2 & Hw4).
  { subst w'. destruct b; (split; [done|]; split; [done|]; by apply same_but_alias_refl || done). }
  split; [done|]. split; [eapply List.Forall_impl; [|exact H2]; unfold in_order; intros y Hy; lia|]. split.
  - destruct (H3 w' ltac:(by left)) as (s' & Hin' & Es' & Hr'). rewrite Hw2 in Hr'. intros s [<-|[<-|Hin]].
    + exists s'. split; [done|]. split; [by rewrite Es', Hw1|done].
    + exists s'. split; [done|]. split; [by rewrite Es', Hw1|by apply lex_le_trans with (rank w)].
    + apply H3. by right.
  - intros s' Hin. destruct (H4 s' Hin) as (s & [<-|Hin'] & Hss).
    + exists w. split; [by left|]. unfold same_but_alias in *. rewrite Hw4 in Hss. rewrite Hss. by destruct w.
    + exists s. split; [right; by right|done].
Qed.

Lemma best_kept_swap c x y r l' : best_kept c (x :: y :: r) l' -> best_kept c (y :: x :: r) l'.
Proof.
  intros (H1 & H2 & H3 & H4). split; [done|]. split; [done|]. split; [intros s Hs; apply H3; cbn in *; tauto|].
  intros s' Hs'. destruct (H4 s' Hs') as (s & Hs & H). exists s. split; [cbn in *; tauto|done].
Qed.

Lemma dedup_ok r : forall c, StronglySorted in_order (c :: r) -> Forall sane (c :: r) -> best_kept c (c :: r) (dedup c r).
Proof.
  induction r as [|x r IH]; intros c Hs Hf.
  { cbn [dedup]. split; [by repeat constructor|]. split; [constructor; [unfold in_order; lia|constructor]|].
    split; intros s [<-|[]]; exists c; [split; [by left|]; split; [done|apply lex_le_refl]|split; [by left|apply same_but_alias_refl]]. }
  apply StronglySorted_inv in Hs as [Hs Hc]. apply List.Forall_cons_iff in Hc as [Hcx Hc]. apply List.Forall_cons_iff in Hf as [Hfc Hf].
  unfold in_order in Hcx. cbn [dedup]. destruct (Z.eqb_spec (sym_start c) (sym_start x)) as [Ex|Hne]; cbn [negb].
  - pose proof (choose_rank c x Hfc (List.Forall_inv Hf)) as Hrank. apply StronglySorted_inv in Hs as [Hs Hx].
    assert (forall w, sym_start w = sym_start c -> sane w -> best_kept w (w :: r) (dedup w r)) as Hgo.
    { intros w Hw Hsane. apply IH; constructor; [done| |done|by apply List.Forall_inv_tail in Hf].
      eapply List.Forall_impl; [|exact Hx]. unfold in_order. intros y Hy. lia. }
    destruct (choose_best_symbol c x =? SYMBOL_A).
    + apply (best_kept_turn c c x r _ (sym_type x =? STT_GNU_IFUNC)); [done..|]. apply Hgo; by destruct (_ =? _).
    + apply best_kept_swap, (best_kept_turn c x c r _ (sym_type c =? STT_GNU_IFUNC)); [done..|].
      apply Hgo; destruct (_ =? _); try done; by apply List.Forall_inv in Hf.
  - destruct (IH x Hs Hf) as (H1 & H2 & H3 & H4). split; [|split; [|split]].
    + constructor; [done|]. eapply List.Forall_impl; [|exact H2]. unfold in_order, before_start. intros y Hy. lia.
    + constructor; [unfold in_order; lia|]. eapply List.Forall_impl; [|exact H2]. unfold in_order. intros y Hy. lia.
    + intros s [<-|Hin]; [exists c; split; [by left|]; split; [done|apply lex_le_refl]|]. destruct (H3 s Hin) as (s' & Hin' & H). exists s'. split; [by right|done].
    + intros s' [<-|Hin]; [exists c; split; [by left|apply same_but_alias_refl]|]. destruct (H4 s' Hin) as (s & Hin' & H). exists s. split; [by right|done].
Qed.

(** ** Names *)

Lemma compare_refl a : String.compare a a = Eq.
Proof. induction a as [|x a IH]; [done|]. cbn [String.compare]. unfold Ascii.compare. by rewrite N.compare_refl. Qed.

Lemma str_lt_le a : forall b c, String.compare a b = Lt -> String.compare b c <> Gt -> String.compare a c = Lt.
Proof.
  induction a as [|x a IH]; intros [|y b] [|z c] Hab Hbc; try done. cbn [String.compare] in *. unfold Ascii.compare in *.
  destruct (N.compare_spec (N_of_ascii x) (N_of_ascii y)) as [Exy|Hxy|]; [..|done]; destruct (N.compare_spec (N_of_ascii y) (N_of_ascii z)) as [Eyz|Hyz|]; try done;
    destruct (N.compare_spec (N_of_ascii x) (N_of_ascii z)); try done; try lia. by apply (IH b).
Qed.

Definition by_name (s t : symbol) : Prop := String.compare (sym_name s) (sym_name t) <> Gt.
Definition named (name : string) (s : symbol) : bool := String.eqb (sym_name s) name.

Lemma not_lt_le a b : String.compare a b <> Lt -> String.compare b a <> Gt.
Proof. intros H E. apply H. rewrite String.compare_antisym, E. done. Qed.

Lemma insert_by_name_ok root l x : reps root l -> StronglySorted by_name l -> ~ In (sym_addr x) (addrs l) ->
  exists root' l', symbols__insert_by_name root x = Some root' /\ reps root' l' /\ StronglySorted by_name l' /\ Permutation (l ++ [x]) l' /\
    forall name, List.filter (named name) l' = List.filter (named name) (l ++ [x]).
Proof.
  intros Hr Hs Hx. unfold symbols__insert_by_name.
  set (left := fun s => match String.compare (sym_name x) (sym_name s) with Lt => true | _ => false end).
  assert (forall s, left s = true <-> String.compare (sym_name x) (sym_name s) = Lt) as Hleft by (intros s; unfold left; by destruct (String.compare _ _)).
  destruct (insert_left_ok left root l x Hr) as (root' & l1 & l2 & -> & -> & Hr' & H1 & H2); [|done|].
  - eapply StronglySorted_ind with (P := StronglySorted _); [constructor| |exact Hs]. intros y m _ IH Hy. constructor; [done|].
    eapply List.Forall_impl; [|exact Hy]. cbn beta. intros z Hz Hlt. apply Hleft in Hlt. apply Hleft. by apply str_lt_le with (sym_name y).
  - exists root', (l1 ++ x :: l2)%list. split; [done|]. split; [done|].
    assert (forall y, In y l1 -> String.compare (sym_name x) (sym_name y) <> Lt) as H1' by (intros y Hy E; apply Hleft in E; by rewrite H1 in E).
    assert (forall y, In y l2 -> String.compare (sym_name x) (sym_name y) = Lt) as H2' by (intros y Hy; by apply Hleft, H2).
    apply StronglySorted_app in Hs as (H12 & Hs1 & Hs2). split; [|split].
    + apply StronglySorted_app. split; [|split; [done|]].
      * intros y z Hy Hz. apply list_elem_of_In in Hy. apply elem_of_cons in Hz as [->|Hz]; [by apply not_lt_le, H1'|]. apply H12; [by apply list_elem_of_In|done].
      * constructor; [done|]. apply List.Forall_forall. intros y Hy. unfold by_name. by rewrite H2'.
    + rewrite <- app_assoc. apply Permutation_app_head. symmetry. apply Permutation_cons_append.
    + intros name. rewrite !List.filter_app. cbn [List.filter]. rewrite <- app_assoc. f_equal. destruct (named name x) eqn:Ex; [|by rewrite app_nil_r].
      rewrite (filter_nil (named name) l2); [done|]. intros y Hy. specialize (H2' y Hy). unfold named in *. apply String.eqb_eq in Ex. subst name.
      apply String.eqb_neq. intros E. by rewrite E, compare_refl in H2'.
Qed.

Lemma sort_loop_names_ok n : forall names l source done r, reps names l -> StronglySorted by_name l -> reps source (done ++ r) ->
  (forall a, In a (addrs r) -> ~ In a (addrs l)) -> (length r <= n)%nat ->
  exists names' l', sort_by_name_loop n names source (first_addr r) = Some names' /\ reps names' l' /\ StronglySorted by_name l' /\
    Permutation (l ++ r) l' /\ forall name, List.filter (named name) l' = List.filter (named name) (l ++ r).
Proof.
  induction n as [|n IH]; intros names l source dn r Hr Hs Hsrc Hfresh Hn; (destruct r as [|x r]; [exists names, l; rewrite app_nil_r; by repeat (split; [done|])|]); [cbn in Hn; lia|].
  cbn [sort_by_name_loop hd_error fmap option_fmap option_map]. rewrite (deref_ok _ _ _ _ Hsrc). cbn [mbind option_bind].
  destruct (insert_by_name_ok names l x Hr Hs) as (names1 & l1 & -> & Hr1 & Hs1 & Hp1 & Hf1); [apply Hfresh; by left|]. cbn [mbind option_bind].
  rewrite (next_sym_ok _ _ _ _ Hsrc). cbn [mbind option_bind].
  destruct (NoDup_split _ _ _ (re_addrs _ _ Hsrc)) as (_ & Hxr & _).
  destruct (IH names1 l1 source (dn ++ [x])%list r Hr1 Hs1) as (names' & l' & E & Hr' & Hs' & Hp' & Hf'); [by rewrite <- app_assoc| |cbn in Hn; lia|].
  { intros a Ha Hin. unfold addrs in Hin. apply (Permutation_in _ (Permutation_map sym_addr (Permutation_sym Hp1))) in Hin. rewrite List.map_app, in_app_iff in Hin.
    destruct Hin as [Hin|[<-|[]]]; [|done]. apply (Hfresh a); [by right|done]. }
  exists names', l'. split; [done|]. split; [done|]. split; [done|]. split; [rewrite <- Hp', <- Hp1, <- app_assoc; done|].
  intros name. rewrite Hf', !List.filter_app, Hf1, List.filter_app, <- app_assoc. f_equal. cbn [List.filter]. by destruct (named name x).
Qed.

Lemma find_name_ok name t : StronglySorted by_name (elements t) ->
  match find_name_loop name SYMBOL_TAG_INCLUDE__NONE t with
  | Some s => In s (elements t) /\ sym_name s = name
  | None => forall s, In s (elements t) -> sym_name s <> name
  end.
Proof.
  induction t as [|c l IHl x r IHr]; intros Hs; [by intros s []|]. cbn [find_name_loop elements] in *.
  apply StronglySorted_app in Hs as (Hlr & Hsl & Hsr). apply StronglySorted_inv in Hsr as [Hsr Hx]. rewrite List.Forall_forall in Hx.
  change (symbol__match_symbol_name (sym_name x) name SYMBOL_TAG_INCLUDE__NONE) with (String.compare (sym_name x) name).
  destruct (String.compare (sym_name x) name) eqn:E.
  - apply String.compare_eq_iff in E. split; [apply in_app_iff; right; by left|done].
  - specialize (IHr Hsr). destruct (find_name_loop name _ r) as [s|]; [split; [apply in_app_iff; right; right; apply IHr|apply IHr]|].
    intros s Hs <-. apply in_app_iff in Hs as [Hs|[<-|Hs]]; [|by rewrite compare_refl in E|by apply (IHr s Hs)].
    pose proof (Hlr s x (proj2 (list_elem_of_In _ _) Hs) ltac:(left)) as Hle. unfold by_name in Hle. apply Hle. by rewrite String.compare_antisym, E.
  - specialize (IHl Hsl). destruct (find_name_loop name _ l) as [s|]; [split; [apply in_app_iff; left; apply IHl|apply IHl]|].
    intros s Hs <-. apply in_app_iff in Hs as [Hs|[<-|Hs]]; [by apply (IHl s Hs)|by rewrite compare_refl in E|]. by apply (Hx s Hs).
Qed.

Lemma first_same_ok root n : forall l s r, reps root (l ++ s :: r) -> (length l < n)%nat -> exists l' s' r', first_same_name n root s = Some s' /\
  (l ++ s :: r = l' ++ s' :: r')%list /\ sym_name s' = sym_name s /\ forall y, list.last l' = Some y -> sym_name y <> sym_name s.
Proof.
  induction n as [|n IH]; intros l s r Hr Hn; [lia|]. cbn [first_same_name]. rewrite (prev_sym_ok _ _ _ _ Hr). cbn [mbind option_bind].
  destruct l as [|y l] using rev_ind; [by exists [], s, r|]. clear IHl. rewrite list.last_snoc. cbn [fmap option_fmap option_map].
  pose proof Hr as Hr'. rewrite <- app_assoc in Hr'. cbn [app] in Hr'. rewrite (deref_ok _ _ _ _ Hr'). cbn [mbind option_bind].
  destruct (arch__compare_symbol_names (sym_name y) (sym_name s)) eqn:E.
  - apply String.compare_eq_iff in E. rewrite length_app in Hn. cbn [length] in Hn.
    destruct (IH l y (s :: r) Hr' ltac:(lia)) as (l' & s' & r' & -> & Ee & En & Hl). exists l', s', r'. rewrite <- app_assoc. cbn [app]. by rewrite <- E.
  - exists (l ++ [y])%list, s, r. split; [done|]. split; [done|]. split; [done|]. intros z. rewrite list.last_snoc. intros [= <-] En. unfold arch__compare_symbol_names in E.
    by rewrite En, compare_refl in E.
  - exists (l ++ [y])%list, s, r. split; [done|]. split; [done|]. split; [done|]. intros z. rewrite list.last_snoc. intros [= <-] En. unfold arch__compare_symbol_names in E.
    by rewrite En, compare_refl in E.
Qed.

Lemma find_filter (f : symbol -> bool) l : List.find f l = hd_error (List.filter f l).
Proof. induction l as [|x l IH]; [done|]. cbn [List.find List.filter]. by destruct (f x). Qed.

(** In order of names, the first of a name is after a symbol of another name. *)
Lemma first_named l s r : StronglySorted by_name (l ++ s :: r) -> (forall y, list.last l = Some y -> sym_name y <> sym_name s) ->
  List.find (named (sym_name s)) (l ++ s :: r) = Some s.
Proof.
  intros Hs Hl. rewrite find_filter, List.filter_app. rewrite (filter_nil _ l).
  { cbn [app List.filter]. unfold named at 1. by rewrite String.eqb_refl. }
  intros y Hy. unfold named. apply String.eqb_neq. intros En. destruct l as [|z l] using rev_ind; [done|]. clear IHl.
  apply (Hl z); [apply list.last_snoc|]. rewrite <- app_assoc in Hs. cbn [app] in Hs. apply StronglySorted_app in Hs as (Hlz & _ & Hzr).
  apply StronglySorted_inv in Hzr as [_ Hz]. rewrite List.Forall_forall in Hz. pose proof (Hz s ltac:(by left)) as Hzs.
  apply in_app_iff in Hy as [Hy|[<-|[]]]; [|done].
  pose proof (Hlz y z (proj2 (list_elem_of_In _ _) Hy) ltac:(left)) as Hyz. unfold by_name in *. rewrite En in Hyz.
  apply String.compare_eq_iff. destruct (String.compare (sym_name z) (sym_name s)) eqn:E; [done| |done].
  rewrite String.compare_antisym, E in Hyz. done.
Qed.

(** ** Claims *)

(** C17: Of the symbols at one address just one is kept, and it is the best there:
    [symbols__fixup_duplicate] on a valid tree of symbols makes no bad access and
    leaves a valid tree with one symbol at each address there was one at, one of
    the symbols there but for its mark as an alias, and of those none has a
    better rank: a size, not weak, global, few underscores, a long name. *)
Theorem fixup_duplicate_exact root l : reps root l -> StronglySorted in_order l -> Forall sane l ->
  exists root' l', symbols__fixup_duplicate false root = Some root' /\ reps root' l' /\ StronglySorted before_start l' /\
    (forall s, In s l -> exists s', In s' l' /\ sym_start s' = sym_start s /\ lex_le (rank s) (rank s') = true) /\
    (forall s', In s' l' -> exists s, In s l /\ same_but_alias s s').
Proof.
  intros Hr Hs Hf. destruct (fixup_duplicate_ok root l Hr) as (root' & E & Hr'). exists root', (dedup_list l). split; [done|]. split; [done|].
  destruct l as [|c l]; [split; [constructor|split; by intros s []]|]. destruct (dedup_ok l c Hs Hf) as (H1 & _ & H2 & H3). done.
Qed.

(** C18: A function is found by its name: once the symbols of a file, in the order of
    their addresses, have been sorted by name, [dso__find_symbol_by_name] gives the
    one of that name with the lowest address, and nothing if there is none and the
    symbols carry no versions. *)
Theorem find_by_name_exact d l : reps (dso_symbols_root d) l -> dso_symbol_names d = RB_ROOT_CACHED ->
  exists d', dso__sort_by_name d = Some d' /\ forall name,
    match List.find (named name) l with
    | Some s => dso__find_symbol_by_name d' name = Some (Some s)
    | None => (forall s, In s l -> String.index 0 "@@" (sym_name s) = None) -> dso__find_symbol_by_name d' name = Some None
    end.
Proof.
  intros Hr Hn. unfold dso__sort_by_name, symbols__sort_by_name. rewrite Hn, (re_first _ _ Hr), (insert_cached_size _ _ Hr).
  destruct (sort_loop_names_ok (length l) RB_ROOT_CACHED [] (dso_symbols_root d) [] l) as (names & N & -> & HrN & HsN & HpN & HfN).
  { split; [by exists 0%nat; constructor|done|constructor|done]. } { constructor. } { done. } { by intros a _ []. } { done. }
  cbn [mbind option_bind app] in *. eexists. split; [done|]. intros name. unfold dso__find_symbol_by_name, symbols__find_by_name.
  cbn [dso_symbol_names]. rewrite find_filter, <- (HfN name), <- find_filter.
  pose proof (find_name_ok name (rb_root names)) as Hfind. rewrite (re_elements _ _ HrN) in Hfind. specialize (Hfind HsN).
  destruct (find_name_loop name SYMBOL_TAG_INCLUDE__NONE (rb_root names)) as [s|].
  - destruct Hfind as [Hin <-]. apply in_split in Hin as (l1 & l2 & ->).
    destruct (first_same_ok names (S (rb_size (rb_root names))) l1 s l2 HrN) as (l' & s' & r' & -> & E & En & Hl).
    { rewrite (insert_cached_size _ _ HrN), length_app. cbn [length]. lia. }
    cbn [mbind option_bind]. rewrite E in HsN |- *. rewrite <- En in Hl |- *. by rewrite first_named.
  - assert (List.find (named name) N = None) as ->.
    { rewrite find_filter, filter_nil; [done|]. intros s Hs. unfold named. by apply String.eqb_neq, Hfind. }
    intros Hver. cbn [mbind option_bind].
    assert (forall t, (forall s, In s (elements t) -> String.index 0 "@@" (sym_name s) = None) ->
      find_name_loop name SYMBOL_TAG_INCLUDE__DEFAULT_ONLY t = find_name_loop name SYMBOL_TAG_INCLUDE__NONE t) as Hsame.
    { induction t as [|c tl IHl x tr IHr]; intros Ht; [done|]. cbn [find_name_loop elements] in *.
      unfold symbol__match_symbol_name. rewrite (Ht x) by (apply in_app_iff; right; by left).
      rewrite IHl, IHr by (intros s Hs; apply Ht, in_app_iff; cbn; tauto). done. }
    rewrite Hsame; [|intros s Hs; apply Hver, (Permutation_in _ (Permutation_sym HpN)); by rewrite <- (re_elements _ _ HrN)].
    pose proof (find_name_ok name (rb_root names)) as Hno. rewrite (re_elements _ _ HrN) in Hno. specialize (Hno HsN).
    destruct (find_name_loop name SYMBOL_TAG_INCLUDE__NONE (rb_root names)) as [s|]; [|done]. destruct Hno as [Hin En]. by destruct (Hfind s Hin).
Qed.

(** ** Witnesses and examples *)

(** The kernel, and a module above it. *)
Definition kernel_lines : list kallsym :=
  [mkKs "_stext" "T" 0x1000 (Some 10); mkKs "fixed_data" "a" 0x0 None; mkKs "do_idle" "t" 0x1800 (Some 11); mkKs "$d" "d" 0x1900 None;
   mkKs "_text" "T" 0x1000 (Some 12); mkKs "idle_cpu" "T" 0x2345 (Some 13);
   mkKs "hdmi_init [snd]" "t" 0x9000 (Some 14); mkKs "hdmi_exit [snd]" "t" 0xb800 (Some 15)].
Definition found_at (lines : list kallsym) (ip : Z) : option (option string) :=
  r ← load_kallsyms_symbols false lines RB_ROOT_CACHED; root ← (r : option rb_root_cached); Some (sym_name <$> symbols__find root ip).

Example kernel_found : List.map (found_at kernel_lines)
    [0xfff; 0x1000; 0x17ff; 0x1800; 0x2344; 0x2345; 0x3fff; 0x4000; 0x8fff; 0x9000; 0xb7ff; 0xb800; 0xcfff; 0xd000] =
  [Some None; Some (Some "_text"); Some (Some "_text"); Some (Some "do_idle"); Some (Some "do_idle"); Some (Some "idle_cpu"); Some (Some "idle_cpu");
   Some None; Some None; Some (Some "hdmi_init [snd]"); Some (Some "hdmi_init [snd]"); Some (Some "hdmi_exit [snd]"); Some (Some "hdmi_exit [snd]"); Some None]%string.
Proof. by vm_compute. Qed.


(** Of symbols of kallsyms at one address the one read last has a size before the
    best is chosen, and is chosen whatever it is. *)
Example last_alias_chosen : found_at [mkKs "read" "T" 0x1000 (Some 10); mkKs "__weak_read" "W" 0x1000 (Some 11); mkKs "write" "T" 0x2000 (Some 12)] 0x1000 = Some (Some "__weak_read"%string).
Proof. by vm_compute. Qed.

(** Three symbols at 0x100, a global one with a size first, and one at 0x200. *)
Definition memcpy_sym : symbol := mkSym 1 0x100 0x140 6 STT_FUNC STB_GLOBAL false false "memcpy".
Definition memcpy_weak : symbol := mkSym 2 0x100 0x140 11 STT_GNU_IFUNC STB_WEAK false false "memcpy_weak".
Definition memcpy_plain : symbol := mkSym 3 0x100 0x140 12 STT_FUNC STB_GLOBAL false false "memcpy_plain".
Definition memset_sym : symbol := mkSym 4 0x200 0x210 6 STT_FUNC STB_GLOBAL false false "memset".
Definition mem_list : list symbol := [memcpy_sym; memcpy_weak; memset_sym].
Definition mem_root : rb_root_cached := mkRoot (Node RB_BLACK (Node RB_RED Leaf memcpy_sym Leaf) memcpy_weak (Node RB_RED Leaf memset_sym Leaf)) (Some 1).

Lemma mem_reps : reps mem_root mem_list.
Proof. split; [exists 1%nat; eapply wf_black; apply wf_red; apply wf_leaf|done|by apply (bool_decide_unpack _)|done]. Qed.

Lemma fixup_duplicate_witness : reps mem_root mem_list /\
  exists root' l', symbols__fixup_duplicate false mem_root = Some root' /\ reps root' l' /\ StronglySorted before_start l' /\
    (forall s, In s mem_list -> exists s', In s' l' /\ sym_start s' = sym_start s /\ lex_le (rank s) (rank s') = true) /\
    (forall s', In s' l' -> exists s, In s mem_list /\ same_but_alias s s').
Proof.
  split; [apply mem_reps|]. apply (fixup_duplicate_exact mem_root mem_list mem_reps).
  - by repeat constructor.
  - by repeat constructor.
Defined.

Definition mem_dso : dso_symbols := mkDso mem_root RB_ROOT_CACHED 0 None false false.
Lemma find_by_name_witness : exists d', dso__sort_by_name mem_dso = Some d' /\ dso__find_symbol_by_name d' "memset" = Some (Some memset_sym).
Proof. destruct (find_by_name_exact mem_dso mem_list mem_reps eq_refl) as (d' & E & Hf). exists d'. split; [exact E|]. exact (Hf "memset"%string). Defined.

(** The mark of an alias of an ifunc is lost when its symbol is dropped in turn. *)
Example alias_mark_kept : option_map (fun r => elements (rb_root r)) (r ← symbols__insert RB_ROOT_CACHED memcpy_sym; r ← symbols__insert r memcpy_weak; symbols__fixup_duplicate false r) =
  Some [memcpy_sym <| sym_ifunc_alias := true |>].
Proof. by vm_compute. Qed.
Example alias_mark_lost : option_map (fun r => elements (rb_root r))
  (r ← symbols__insert RB_ROOT_CACHED memcpy_sym; r ← symbols__insert r memcpy_weak; r ← symbols__insert r memcpy_plain; symbols__fixup_duplicate false r) = Some [memcpy_plain].
Proof. by vm_compute. Qed.

(** After an address has been looked up, inserting a symbol without a size anywhere
    below it makes that symbol the answer. *)
Example cache_misled : exists d, dso__insert_symbol (dso__find_symbol mem_dso 0x205).2 (mkSym 5 0x10 0x10 5 STT_FUNC STB_LOCAL false false "label") = Some d /\
  (dso__find_symbol mem_dso 0x205).1 = Some 4 /\ (dso__find_symbol d 0x205).1 = Some 5 /\ dso__find_symbol_nocache d 0x205 = Some 4.
Proof. eexists. by vm_compute. Qed.
