(* ===== verification/OrderedEvents.v ===== *)
(** Events in the order of their time: [struct ordered_events] of
    tools/perf/util/ordered-events.c.  The list [events] is a list of the objects
    on it; an object is known by the buffer it was allocated in and its place
    there, and [last] points to an object. *)
From Stdlib Require Import ZArith Lia List Bool.
From S2P Require Import Prelude Float64 PktDecoder PtStack PtState AuxHeap.
Open Scope Z_scope.
Open Scope c_scope.
Import ListNotations.

Definition ETIME : Z := 62.
Definition ULLONG_MAX : Z := 2 ^ 64 - 1.

Definition address : Type := nat * Z.

(** [event] is [None] for NULL. *)
Record ordered_event (E : Type) := mkOev {
  oev_addr : address;
  timestamp : Z;
  file_offset : Z;
  file_path : option (list byte);
  event : option E
}.
Arguments mkOev {E} _ _ _ _ _.
Arguments oev_addr {E} _.
Arguments timestamp {E} _.
Arguments file_offset {E} _.
Arguments file_path {E} _.
Arguments event {E} _.

Inductive oe_flush :=
| OE_FLUSH__NONE
| OE_FLUSH__FINAL
| OE_FLUSH__ROUND
| OE_FLUSH__HALF
| OE_FLUSH__TOP
| OE_FLUSH__TIME.

(** [to_free] holds the numbers of the buffers; [nr_buffers] is the number the
    next one gets. *)
Record ordered_events (E : Type) := mkOe {
  last_flush : Z;
  next_flush : Z;
  max_timestamp : Z;
  max_alloc_size : Z;
  cur_alloc_size : Z;
  events : list (ordered_event E);
  oe_cache : list (ordered_event E);
  to_free : list nat;
  oe_buffer : option nat;
  oe_last : option address;
  oe_data : option Z;
  buffer_idx : Z;
  nr_events : Z;
  last_flush_type : oe_flush;
  nr_unordered_events : Z;
  copy_on_queue : bool;
  nr_buffers : nat
}.
Arguments mkOe {E} _ _ _ _ _ _ _ _ _ _ _ _ _ _ _ _ _.
Arguments last_flush {E} _.
Arguments next_flush {E} _.
Arguments max_timestamp {E} _.
Arguments max_alloc_size {E} _.
Arguments cur_alloc_size {E} _.
Arguments events {E} _.
Arguments oe_cache {E} _.
Arguments to_free {E} _.
Arguments oe_buffer {E} _.
Arguments oe_last {E} _.
Arguments oe_data {E} _.
Arguments buffer_idx {E} _.
Arguments nr_events {E} _.
Arguments last_flush_type {E} _.
Arguments nr_unordered_events {E} _.
Arguments copy_on_queue {E} _.
Arguments nr_buffers {E} _.

#[export] Instance eta_oe {E} : Eta (ordered_events E) := fun o =>
  mkOe (last_flush o) (next_flush o) (max_timestamp o) (max_alloc_size o) (cur_alloc_size o) (events o)
    (oe_cache o) (to_free o) (oe_buffer o) (oe_last o) (oe_data o) (buffer_idx o) (nr_events o)
    (last_flush_type o) (nr_unordered_events o) (copy_on_queue o) (nr_buffers o).
#[export] Instance set_last_flush {E} : Setter (@last_flush E) := ltac:(solve_setter).
#[export] Instance set_next_flush {E} : Setter (@next_flush E) := ltac:(solve_setter).
#[export] Instance set_max_timestamp {E} : Setter (@max_timestamp E) := ltac:(solve_setter).
#[export] Instance set_max_alloc_size {E} : Setter (@max_alloc_size E) := ltac:(solve_setter).
#[export] Instance set_cur_alloc_size {E} : Setter (@cur_alloc_size E) := ltac:(solve_setter).
#[export] Instance set_events {E} : Setter (@events E) := ltac:(solve_setter).
#[export] Instance set_oe_cache {E} : Setter (@oe_cache E) := ltac:(solve_setter).
#[export] Instance set_to_free {E} : Setter (@to_free E) := ltac:(solve_setter).
#[export] Instance set_oe_buffer {E} : Setter (@oe_buffer E) := ltac:(solve_setter).
#[export] Instance set_oe_last {E} : Setter (@oe_last E) := ltac:(solve_setter).
#[export] Instance set_buffer_idx {E} : Setter (@buffer_idx E) := ltac:(solve_setter).
#[export] Instance set_nr_events {E} : Setter (@nr_events E) := ltac:(solve_setter).
#[export] Instance set_last_flush_type {E} : Setter (@last_flush_type E) := ltac:(solve_setter).
#[export] Instance set_nr_unordered_events {E} : Setter (@nr_unordered_events E) := ltac:(solve_setter).
#[export] Instance set_copy_on_queue {E} : Setter (@copy_on_queue E) := ltac:(solve_setter).
#[export] Instance set_nr_buffers {E} : Setter (@nr_buffers E) := ltac:(solve_setter).

Section ordered_events.
Context `{Platform} {E : Type}.
(** [event->header.size] *)
Context (header_size : E -> Z).
Notation oevent := (ordered_event E).
Notation oe_state := (ordered_events E).

(** ** The list *)

(** The events before [last], the nearest first, [last], and those after it. *)
Fixpoint find_last (obj : address) (before l : list oevent) : option (list oevent * oevent * list oevent) :=
  match l with
  | [] => None
  | e :: l => if bool_decide (oev_addr e = obj) then Some (before, e, l) else find_last obj (e :: before) l
  end.

(** The two loops of [queue_event]: the new list, and whether the new event is at
    its end. *)
Fixpoint walk_forward (new : oevent) (before : list oevent) (last : oevent) (after : list oevent)
    : list oevent * bool :=
  if timestamp last <=? timestamp new then
    match after with
    | [] => (rev before ++ [last; new], true)
    | next :: after => walk_forward new (last :: before) next after
    end
  else (rev before ++ new :: last :: after, false).
Fixpoint walk_back (new : oevent) (before : list oevent) (last : oevent) (after : list oevent)
    : list oevent :=
  if timestamp new <? timestamp last then
    match before with
    | [] => new :: last :: after
    | prev :: before => walk_back new before prev (last :: after)
    end
  else rev before ++ last :: new :: after.

(** [None]: [last] is not on the list, and the code goes astray. *)
Definition queue_event (oe : oe_state) (new : oevent) : option oe_state :=
  let last := oe_last oe in
  let oe := oe <| nr_events ::= fun n => u32 (n + 1) |> <| oe_last := Some (oev_addr new) |> in
  match last with
  | None => Some (oe <| events ::= fun l => new :: l |> <| max_timestamp := timestamp new |>)
  | Some obj =>
    '(before, last, after) ← find_last obj [] (events oe);
    if timestamp last <=? timestamp new then
      let '(l, at_end) := walk_forward new before last after in
      let oe := oe <| events := l |> in
      Some (if at_end then oe <| max_timestamp := timestamp new |> else oe)
    else Some (oe <| events := walk_back new before last after |>)
  end.

(** ** Allocation *)

(** Each may use one outcome of an allocation. *)
Definition __dup_event (a : allocs) (oe : oe_state) (e : E) : option E * oe_state * allocs :=
  if cur_alloc_size oe <? max_alloc_size oe then
    if a 0%nat then (Some e, oe <| cur_alloc_size ::= fun n => u64 (n + header_size e) |>, next_allocs a)
    else (None, oe, next_allocs a)
  else (None, oe, a).

Definition dup_event (a : allocs) (oe : oe_state) (e : E) : option E * oe_state * allocs :=
  if copy_on_queue oe then __dup_event a oe e else (Some e, oe, a).

Definition __free_dup_event (oe : oe_state) (e : option E) : oe_state :=
  match e with
  | Some e => oe <| cur_alloc_size ::= fun n => u64 (n - header_size e) |>
  | None => oe
  end.

Definition free_dup_event (oe : oe_state) (e : option E) : oe_state :=
  if copy_on_queue oe then __free_dup_event oe e else oe.

Definition sizeof_ordered_event : Z := if bits_per_long =? 32 then 32 else 48.
Definition MAX_SAMPLE_BUFFER : Z := 64 * 1024 / sizeof_ordered_event.
(** The size of a list head and of so many objects. *)
Definition sample_buffer_size : Z :=
  (if bits_per_long =? 32 then 8 else 16) + MAX_SAMPLE_BUFFER * sizeof_ordered_event.

(** The address of the object, and the event it is to hold. *)
Definition alloc_event (a : allocs) (oe : oe_state) (e : E)
    : option (address * E) * oe_state * allocs :=
  let '(new_event, oe, a) := dup_event a oe e in
  match new_event with
  | None => (None, oe, a)
  | Some new_event =>
    match oe_cache oe with
    | new :: cache => (Some (oev_addr new, new_event), oe <| oe_cache := cache |>, a)
    | [] =>
      match oe_buffer oe with
      | Some b =>
        let new := (b, buffer_idx oe) in
        let oe := oe <| buffer_idx ::= fun n => swrap 32 (n + 1) |> in
        let oe := if buffer_idx oe =? MAX_SAMPLE_BUFFER then oe <| oe_buffer := None |> else oe in
        (Some (new, new_event), oe, a)
      | None =>
        if u64 (cur_alloc_size oe + sample_buffer_size) <? max_alloc_size oe then
          if a 0%nat then
            let b := nr_buffers oe in
            let oe := oe <| oe_buffer := Some b |> <| nr_buffers ::= S |>
                        <| cur_alloc_size ::= fun n => u64 (n + sample_buffer_size) |>
                        <| to_free ::= fun l => b :: l |> <| buffer_idx := 1 |> in
            (Some ((b, 0), new_event), oe, next_allocs a)
          else (None, free_dup_event oe (Some new_event), next_allocs a)
        else (None, oe, a)
      end
    end
  end.

(** The new event has the offset and path that [ordered_events__queue] gives it
    afterwards. *)
Definition ordered_events__new_event (a : allocs) (oe : oe_state) (ts : Z) (e : E) (offset : Z)
    (path : option (list byte)) : option (bool * oe_state * allocs) :=
  let '(new, oe, a) := alloc_event a oe e in
  match new with
  | Some (obj, e) =>
    oe ← queue_event oe (mkOev obj ts offset path (Some e));
    Some (true, oe, a)
  | None => Some (false, oe, a)
  end.

Definition ordered_events__delete (oe : oe_state) (e : oevent) : oe_state :=
  let oe := oe <| events ::= List.filter (fun x => negb (bool_decide (oev_addr x = oev_addr e))) |>
               <| oe_cache ::= fun l => mkOev (oev_addr e) (timestamp e) (file_offset e) (file_path e) None :: l |>
               <| nr_events ::= fun n => u32 (n - 1) |> in
  free_dup_event oe (event e).

(** ** Flushing *)

(** What events are given to, and [session_done()]. *)
Context {W : Type} (deliver : oevent -> W -> Z * W) (session_done : W -> bool).

(** The loop of [do_flush]: [inl] is the return value. *)
Fixpoint flush_loop (limit : Z) (l : list oevent) (oe : oe_state) (w : W) : (Z + unit) * oe_state * W :=
  match l with
  | [] => (inr tt, oe, w)
  | iter :: l =>
    if session_done w then (inl 0, oe, w)
    else if limit <? timestamp iter then (inr tt, oe, w)
    else
      let '(ret, w) := deliver iter w in
      if negb (ret =? 0) then (inl ret, oe, w)
      else
        let oe := ordered_events__delete oe iter in
        flush_loop limit l (oe <| last_flush := timestamp iter |>) w
  end.

(** [last->timestamp]: the object is on the list, or was and is kept for reuse. *)
Definition timestamp_at (oe : oe_state) (obj : address) : option Z :=
  '(_, e, _) ← find_last obj [] (events oe ++ oe_cache oe);
  Some (timestamp e).

(** [head->prev] *)
Definition last_event (l : list oevent) : option oevent := head (rev l).

Definition do_flush (oe : oe_state) (w : W) : option (Z * oe_state * W) :=
  let limit := next_flush oe in
  last_ts ← (match oe_last oe with
             | Some obj => timestamp_at oe obj
             | None => Some 0
             end);
  if limit =? 0 then Some (0, oe, w)
  else
    match flush_loop limit (events oe) oe w with
    | (inl ret, oe, w) => Some (ret, oe, w)
    | (inr _, oe, w) =>
      let oe :=
        match last_event (events oe) with
        | None => oe <| oe_last := None |>
        | Some e => if last_ts <=? limit then oe <| oe_last := Some (oev_addr e) |> else oe
        end in
      Some (0, oe, w)
    end.

Definition __ordered_events__flush (oe : oe_state) (how : oe_flush) (ts : Z) (w : W)
    : option (Z * oe_state * W) :=
  if nr_events oe =? 0 then Some (0, oe, w)
  else
    let go (oe : oe_state) :=
      '(err, oe, w) ← do_flush oe w;
      if err =? 0 then
        let oe :=
          match how with OE_FLUSH__ROUND => oe <| next_flush := max_timestamp oe |> | _ => oe end in
        Some (0, oe <| last_flush_type := how |>, w)
      else Some (err, oe, w) in
    match how with
    | OE_FLUSH__FINAL | OE_FLUSH__TOP => go (oe <| next_flush := ULLONG_MAX |>)
    | OE_FLUSH__HALF =>
      match oe_last oe, events oe with
      | Some obj, first :: _ =>
        last_ts ← timestamp_at oe obj;
        go (oe <| next_flush := u64 (timestamp first + u64 (last_ts - timestamp first) / 2) |>)
      | _, _ => Some (0, oe, w)
      end
    | OE_FLUSH__TIME => go (oe <| next_flush := ts |>)
    | OE_FLUSH__ROUND | OE_FLUSH__NONE => go oe
    end.

Definition ordered_events__flush (oe : oe_state) (how : oe_flush) (w : W) : option (Z * oe_state * W) :=
  __ordered_events__flush oe how 0 w.

Definition ordered_events__flush_time (oe : oe_state) (ts : Z) (w : W) : option (Z * oe_state * W) :=
  __ordered_events__flush oe OE_FLUSH__TIME ts w.

Definition ordered_events__queue (a : allocs) (oe : oe_state) (w : W) (e : E) (ts offset : Z)
    (path : option (list byte)) : option (Z * oe_state * W * allocs) :=
  if (ts =? 0) || (ts =? 2 ^ 64 - 1) then Some (- ETIME, oe, w, a)
  else
    let oe :=
      if ts <? last_flush oe then oe <| nr_unordered_events ::= fun n => u32 (n + 1) |> else oe in
    '(new, oe, a) ← ordered_events__new_event a oe ts e offset path;
    if (new : bool) then Some (0, oe, w, a)
    else
      '(_, oe, w) ← ordered_events__flush oe OE_FLUSH__HALF w;
      '(new, oe, a) ← ordered_events__new_event a oe ts e offset path;
      Some (if (new : bool) then 0 else - ENOMEM, oe, w, a).

Definition ordered_events__first_time (oe : oe_state) : Z :=
  match events oe with
  | [] => 0
  | e :: _ => timestamp e
  end.

(** ** The structure as a whole *)

(** [memset(oe, 0)] *)
Definition zero_events : oe_state :=
  mkOe 0 0 0 0 0 [] [] [] None None None 0 0 OE_FLUSH__NONE 0 false 0.

Definition ordered_events__init (oe : oe_state) (data : option Z) : oe_state :=
  mkOe (last_flush oe) (next_flush oe) (max_timestamp oe) ULLONG_MAX 0 [] [] [] (oe_buffer oe) (oe_last oe)
    data (buffer_idx oe) (nr_events oe) (last_flush_type oe) (nr_unordered_events oe) (copy_on_queue oe)
    (nr_buffers oe).

(** The events of the first [max] objects of a buffer. *)
Definition events_of_buffer (oe : oe_state) (b : nat) (max : Z) : list E :=
  omap event (List.filter (fun x => bool_decide (fst (oev_addr x) = b) && (snd (oev_addr x) <? max))
    (events oe ++ oe_cache oe)).

Definition ordered_events_buffer__free (oe : oe_state) (b : nat) (max : Z) : oe_state :=
  if copy_on_queue oe then
    fold_left (fun oe e => __free_dup_event oe (Some e)) (events_of_buffer oe b max) oe
  else oe.

Definition ordered_events__free (oe : oe_state) : oe_state :=
  match to_free oe with
  | [] => oe
  | _ =>
    let oe :=
      match oe_buffer oe with
      | Some b =>
        ordered_events_buffer__free (oe <| to_free ::= List.filter (fun x => negb (Nat.eqb x b)) |>)
          b (buffer_idx oe)
      | None => oe
      end in
    fold_left (fun oe b => ordered_events_buffer__free (oe <| to_free ::= tail |>) b MAX_SAMPLE_BUFFER)
      (to_free oe) oe
  end.

Definition ordered_events__reinit (oe : oe_state) : oe_state :=
  ordered_events__init (zero_events <| nr_buffers := nr_buffers (ordered_events__free oe) |>) None.

Definition ordered_events__set_alloc_size (oe : oe_state) (size : Z) : oe_state :=
  oe <| max_alloc_size := size |>.
Definition ordered_events__set_copy_on_queue (oe : oe_state) (copy : bool) : oe_state :=
  oe <| copy_on_queue := copy |>.
Definition ordered_events__last_flush_time (oe : oe_state) : Z := last_flush oe.
End ordered_events.
