(* ===== verification/OrderedTheorems.v ===== *)
(** Theorems on [struct ordered_events]: the list stays sorted, and what is
    queued in rounds is delivered as a stable sort by time. *)
From Stdlib Require Import ZArith Lia List Bool Sorted Permutation.
From S2P Require Import Prelude Float64 PktDecoder PtStack PtState AuxHeap OrderedEvents PtExample.
Open Scope Z_scope.
Open Scope c_scope.
Import ListNotations.

(** ** Sorting by insertion *)

Section sorting.
Context {A : Type} (key : A -> Z).

(** After all that are not later. *)
Fixpoint insert_by (x : A) (l : list A) : list A :=
  match l with
  | [] => [x]
  | y :: l => if key y <=? key x then y :: insert_by x l else x :: y :: l
  end.

Definition sort_by (l : list A) : list A := fold_left (fun acc x => insert_by x acc) l [].

Definition sorted_by : list A -> Prop := StronglySorted (fun a b => key a <= key b).

(** Before the first that is later. *)
Definition before_later (x : A) (l : list A) : Prop :=
  match l with
  | [] => True
  | y :: _ => key x < key y
  end.

Lemma insert_at x l l' : Forall (fun y => key y <= key x) l -> before_later x l' ->
  insert_by x (l ++ l') = l ++ x :: l'.
Proof.
  induction 1 as [|y l Hy _ IH]; intros Hl'; cbn [app insert_by].
  - destruct l' as [|y l']; [done|]. cbn in *. by destruct (Z.leb_spec (key y) (key x)); [lia|].
  - destruct (Z.leb_spec (key y) (key x)); [|lia]. by rewrite IH.
Qed.

Lemma insert_after x l l' : Forall (fun y => key y <= key x) l ->
  insert_by x (l ++ l') = l ++ insert_by x l'.
Proof.
  induction 1 as [|y l Hy _ IH]; [done|]. cbn [app insert_by].
  destruct (Z.leb_spec (key y) (key x)); [|lia]. by rewrite IH.
Qed.

Lemma insert_permutation x l : insert_by x l ≡ₚ x :: l.
Proof.
  induction l as [|y l IH]; [done|]. cbn [insert_by]. destruct (_ <=? _); [|done].
  rewrite IH. constructor.
Qed.

Lemma insert_sorted x l : sorted_by l -> sorted_by (insert_by x l).
Proof.
  unfold sorted_by. induction 1 as [|y l Hs IH Hy]; cbn [insert_by]; [by repeat constructor|].
  destruct (Z.leb_spec (key y) (key x)).
  - constructor; [done|]. rewrite insert_permutation. by constructor.
  - constructor; [by constructor|]. constructor; [lia|]. eapply Forall_impl; [|exact Hy]. cbn. lia.
Qed.

(** Equal keys keep their order. *)
Lemma insert_filter t x l : sorted_by l ->
  List.filter (fun y => key y =? t) (insert_by x l) =
    List.filter (fun y => key y =? t) l ++ (if key x =? t then [x] else []).
Proof.
  unfold sorted_by. induction 1 as [|y l Hs IH Hy]; cbn [insert_by List.filter]; [by destruct (_ =? _)|].
  destruct (Z.leb_spec (key y) (key x)) as [Hle|Hlt]; cbn [List.filter].
  - rewrite IH. by destruct (key y =? t).
  - destruct (Z.eqb_spec (key x) t) as [Ex|Ex]; [|by rewrite app_nil_r].
    destruct (Z.eqb_spec (key y) t); [lia|].
    replace (List.filter (fun y => key y =? t) l) with (@nil A); [done|].
    clear - Hy Hlt Ex. induction Hy as [|z l Hz _ IH]; [done|]. cbn [List.filter].
    destruct (Z.eqb_spec (key z) t); [lia|done].
Qed.

Lemma sort_by_snoc l x : sort_by (l ++ [x]) = insert_by x (sort_by l).
Proof. unfold sort_by. by rewrite fold_left_app. Qed.

Lemma sort_by_ok l : sorted_by (sort_by l) /\ sort_by l ≡ₚ l /\
  forall t, List.filter (fun y => key y =? t) (sort_by l) = List.filter (fun y => key y =? t) l.
Proof.
  induction l as [|x l IH] using rev_ind; [by split; [constructor|]|].
  destruct IH as (Hs & Hp & Hf). rewrite sort_by_snoc. split; [by apply insert_sorted|]. split.
  - by rewrite insert_permutation, Hp, Permutation_cons_append.
  - intros t. rewrite insert_filter by done. rewrite Hf, List.filter_app. cbn [List.filter].
    by destruct (key x =? t).
Qed.

Lemma sorted_app_inv l l' : sorted_by (l ++ l') ->
  sorted_by l /\ sorted_by l' /\ forall x y, In x l -> In y l' -> key x <= key y.
Proof.
  unfold sorted_by. induction l as [|x l IH]; cbn [app]; intros Hs; [by split; [constructor|]|].
  apply StronglySorted_inv in Hs as [Hs Hx]. destruct (IH Hs) as (H1 & H2 & H3). rewrite Forall_forall in Hx.
  split; [constructor; [done|]|split; [done|]].
  - apply Forall_forall. intros y Hy. apply Hx, in_app_iff. by left.
  - intros z y [<-|Hz] Hy; [|by apply H3]. apply Hx, in_app_iff. by right.
Qed.
End sorting.

Lemma insert_by_map {A B} (f : A -> B) (key : B -> Z) x l :
  map f (insert_by (fun a => key (f a)) x l) = insert_by key (f x) (map f l).
Proof. induction l as [|y l IH]; [done|]. cbn [insert_by map]. destruct (_ <=? _); [|done]. cbn [map]. by rewrite IH. Qed.

(** ** Queueing *)

Section events.
Context `{Platform} {E : Type} (header_size : E -> Z).
Notation oevent := (ordered_event E).
Notation oe_state := (ordered_events E).
Notation insert := (insert_by (@timestamp E)).
Notation sorted := (sorted_by (@timestamp E)).

Lemma last_event_app (l : list oevent) x l' : last_event (l ++ x :: l') = last_event (x :: l').
Proof.
  unfold last_event. rewrite rev_app_distr. cbn [rev]. by destruct (rev l').
Qed.

Lemma last_event_cons (x y : oevent) l : last_event (x :: y :: l) = last_event (y :: l).
Proof. apply (last_event_app [x]). Qed.

Lemma walk_forward_ok (new : oevent) after : forall before last,
  Forall (fun y => timestamp y <= timestamp new) before ->
  exists at_end, walk_forward new before last after = (insert new (rev before ++ last :: after), at_end) /\
    last_event (insert new (rev before ++ last :: after)) = if at_end : bool then Some new else last_event (last :: after).
Proof.
  induction after as [|next after IH]; intros before last Hb; cbn [walk_forward];
    destruct (Z.leb_spec (timestamp last) (timestamp new)) as [Hle|Hlt].
  - exists true. assert (insert new (rev before ++ [last]) = rev before ++ [last; new]) as ->.
    { rewrite insert_after by by apply Forall_rev. cbn [insert_by]. by destruct (Z.leb_spec (timestamp last) (timestamp new)); [|lia]. }
    split; [done|]. by rewrite last_event_app, last_event_cons.
  - exists false. rewrite insert_at; [|by apply Forall_rev|done]. split; [done|]. by rewrite last_event_app, last_event_cons.
  - destruct (IH (last :: before) next) as (at_end & -> & El); [by constructor|]. exists at_end.
    cbn [rev] in *. rewrite <- (assoc_L (++)) in *. cbn [app] in *. split; [done|]. rewrite El. by rewrite last_event_cons.
  - exists false. rewrite insert_at; [|by apply Forall_rev|done]. split; [done|]. by rewrite last_event_app, last_event_cons.
Qed.

Lemma walk_back_ok (new : oevent) before : forall last after,
  sorted (rev before ++ last :: after) -> before_later timestamp new after ->
  (after = [] -> timestamp new < timestamp last) ->
  walk_back new before last after = insert new (rev before ++ last :: after) /\
  last_event (insert new (rev before ++ last :: after)) = last_event (last :: after).
Proof.
  induction before as [|prev before IH]; intros last after Hs Hb Hlt; cbn [walk_back];
    destruct (Z.ltb_spec (timestamp new) (timestamp last)) as [Hl|Hl].
  - change (rev [] ++ last :: after) with ([] ++ last :: after). rewrite insert_at by done. split; [done|].
    cbn [app]. by rewrite last_event_cons.
  - destruct after as [|e after]; [specialize (Hlt eq_refl); lia|].
    change (rev [] ++ last :: e :: after) with ([last] ++ e :: after). rewrite insert_at; [|by repeat constructor|done].
    split; [done|]. cbn [app]. by rewrite !last_event_cons.
  - cbn [rev] in *. rewrite <- (assoc_L (++)) in *. cbn [app] in *.
    destruct (IH prev (last :: after) Hs Hl ltac:(done)) as [-> El]. split; [done|]. rewrite El. by rewrite last_event_cons.
  - destruct after as [|e after]; [specialize (Hlt eq_refl); lia|].
    replace (rev (prev :: before) ++ last :: e :: after) with ((rev (prev :: before) ++ [last]) ++ e :: after) in *
      by by rewrite <- (assoc_L (++)).
    destruct (sorted_app_inv _ _ _ Hs) as [Hs1 _]. destruct (sorted_app_inv _ _ _ Hs1) as (_ & _ & Hle).
    rewrite insert_at; [|apply Forall_app; split; [|by repeat constructor]|done].
    + rewrite <- (assoc_L (++)). split; [done|]. cbn [app]. by rewrite last_event_app, !last_event_cons.
    + apply Forall_forall. intros y Hy. specialize (Hle y last Hy (or_introl eq_refl)). lia.
Qed.

Lemma find_last_ok (l : list oevent) obj : In obj (map oev_addr l) -> forall before,
  exists b e a, find_last obj before l = Some (b, e, a) /\ rev b ++ e :: a = rev before ++ l /\ oev_addr e = obj.
Proof.
  induction l as [|x l IH]; intros Hin before; [done|]. cbn [find_last]. case_bool_decide as Ex; [by exists before, x, l|].
  destruct Hin as [Hin|Hin]; [done|]. destruct (IH Hin (x :: before)) as (b & e & a & -> & Eb & Ee).
  exists b, e, a. split; [done|]. split; [|done]. rewrite Eb. cbn [rev]. by rewrite <- (assoc_L (++)).
Qed.

(** ** The invariant *)

(** Objects of the buffers up to the place in the current one. *)
Definition allocated (oe : oe_state) (obj : address) : Prop :=
  (obj.1 < nr_buffers oe)%nat /\ forall b, oe_buffer oe = Some b -> obj.1 = b -> obj.2 < buffer_idx oe.

Record oe_inv (oe : oe_state) : Prop := {
  oi_sorted : sorted (events oe);
  oi_distinct : NoDup (map oev_addr (events oe ++ oe_cache oe));
  oi_last : match oe_last oe with
    | None => events oe = []
    | Some obj => In obj (map oev_addr (events oe))
    end;
  oi_count : nr_events oe = u32 (Z.of_nat (length (events oe)));
  oi_max : forall e, last_event (events oe) = Some e -> max_timestamp oe = timestamp e;
  oi_objects : Forall (allocated oe) (map oev_addr (events oe ++ oe_cache oe));
  oi_buffer : forall b, oe_buffer oe = Some b -> (b < nr_buffers oe)%nat /\ 0 <= buffer_idx oe < MAX_SAMPLE_BUFFER
}.

(** An object that is neither on the list nor kept. *)
Definition fresh (oe : oe_state) (obj : address) : Prop :=
  ~ In obj (map oev_addr (events oe ++ oe_cache oe)) /\ allocated oe obj.

Lemma queue_event_ok oe (new : oevent) : oe_inv oe -> fresh oe (oev_addr new) ->
  exists oe' max, queue_event oe new = Some oe' /\ oe_inv oe' /\
    oe' = oe <| nr_events ::= fun n => u32 (n + 1) |> <| oe_last := Some (oev_addr new) |>
             <| events := insert new (events oe) |> <| max_timestamp := max |>.
Proof.
  intros Hi [Hnew Hal].
  assert (forall max, (forall e, last_event (insert new (events oe)) = Some e -> max = timestamp e) ->
    oe_inv (oe <| nr_events ::= fun n => u32 (n + 1) |> <| oe_last := Some (oev_addr new) |>
             <| events := insert new (events oe) |> <| max_timestamp := max |>)) as Hinv.
  { intros max Hmax. pose proof (insert_permutation timestamp new (events oe)) as Hp. split; cbn.
    - apply insert_sorted, Hi.
    - rewrite map_app, Hp. cbn. constructor; [by rewrite <- map_app, list_elem_of_In|].
      rewrite <- map_app. apply Hi.
    - rewrite Hp. by left.
    - rewrite Hp. cbn [length]. rewrite (oi_count _ Hi), u32_add_l. f_equal. lia.
    - done.
    - rewrite map_app, Hp. cbn. constructor; [done|]. rewrite <- map_app. apply Hi.
    - apply Hi. }
  unfold queue_event. pose proof (oi_last _ Hi) as Hlast. destruct (oe_last oe) as [obj|].
  - change (events (oe <| nr_events ::= _ |> <| oe_last := _ |>)) with (events oe).
    destruct (find_last_ok (events oe) obj Hlast []) as (b & e & a & -> & Eb & _). cbn [rev app] in Eb. cbn [mbind option_bind].
    pose proof (oi_sorted _ Hi) as Hs. rewrite <- Eb in Hs. destruct (sorted_app_inv _ _ _ Hs) as (_ & Hs2 & Hle).
    assert (last_event (events oe) = last_event (e :: a)) as El by (by rewrite <- Eb, last_event_app).
    destruct (Z.leb_spec (timestamp e) (timestamp new)) as [Hl|Hl].
    + destruct (walk_forward_ok new a b e) as (at_end & -> & Eend).
      { apply Forall_forall. intros y Hy. specialize (Hle y e ltac:(by apply in_rev in Hy) (or_introl eq_refl)). lia. }
      rewrite Eb in *. destruct at_end; eexists _, _; (split; [reflexivity|]); (split; [|by destruct oe]); apply Hinv.
      * rewrite Eend. by intros x [= <-].
      * rewrite Eend, <- El. apply Hi.
    + destruct (walk_back_ok new b e a Hs) as [-> Eend]; [| |].
      { destruct a as [|y a]; [done|]. cbn. apply StronglySorted_inv in Hs2 as [_ Hy]. inversion Hy; subst. lia. }
      { done. }
      rewrite Eb in *. eexists _, (max_timestamp oe). split; [reflexivity|]. split; [|by destruct oe]. apply (Hinv (max_timestamp oe)).
      rewrite Eend, <- El. apply Hi.
  - assert (forall s : oe_state, events s = events oe ->
      s <| events ::= fun l => new :: l |> = s <| events := insert new (events oe) |>) as Hset.
    { intros s Es. unfold upd, set_events. cbn. by rewrite Es, Hlast. }
    rewrite Hset by done. eexists _, _. split; [reflexivity|]. split; [|done]. apply Hinv. rewrite Hlast. by intros ? [= <-].
Qed.

(** ** Allocation *)

(** What allocation leaves as it is. *)
Definition same_list (oe oe' : oe_state) : Prop :=
  (events oe', oe_last oe', nr_events oe', max_timestamp oe', next_flush oe', last_flush oe', copy_on_queue oe',
   max_alloc_size oe') =
  (events oe, oe_last oe, nr_events oe, max_timestamp oe, next_flush oe, last_flush oe, copy_on_queue oe,
   max_alloc_size oe).

Lemma oe_inv_alloc_size oe f : oe_inv oe -> oe_inv (oe <| cur_alloc_size ::= f |>).
Proof. intros Hi. destruct Hi. by split. Qed.

Lemma max_sample_buffer : 1 < MAX_SAMPLE_BUFFER < 2 ^ 16.
Proof. unfold MAX_SAMPLE_BUFFER, sizeof_ordered_event. by destruct (bits_per_long =? 32). Qed.

Lemma dup_event_ok a oe (e : E) :
  exists r f a', dup_event header_size a oe e = (r, oe <| cur_alloc_size ::= f |>, a') /\ (r = Some e \/ r = None).
Proof.
  assert (oe = oe <| cur_alloc_size ::= fun n => n |>) as Eid by (by destruct oe).
  unfold dup_event, __dup_event. destruct (copy_on_queue oe).
  - destruct (_ <? _); [destruct (a 0%nat)|].
    + exists (Some e), (fun n => u64 (n + header_size e)), (next_allocs a). split; [done|by left].
    + exists None, (fun n => n), (next_allocs a). rewrite <- Eid. split; [done|by right].
    + exists None, (fun n => n), a. rewrite <- Eid. split; [done|by right].
  - exists (Some e), (fun n => n), a. rewrite <- Eid. split; [done|by left].
Qed.

(** An object taken from those kept, *)
Lemma take_cached oe x c : oe_inv oe -> oe_cache oe = x :: c ->
  oe_inv (oe <| oe_cache := c |>) /\ fresh (oe <| oe_cache := c |>) (oev_addr x).
Proof.
  intros Hi Ec. pose proof (oi_distinct _ Hi) as Hd. pose proof (oi_objects _ Hi) as Ho. rewrite Ec, map_app in Hd, Ho.
  cbn [map] in Hd, Ho. rewrite <- Permutation_middle in Hd, Ho. inversion Hd as [|? ? Hx Hd']; subst.
  inversion Ho as [|? ? Hx' Ho']; subst. rewrite list_elem_of_In in Hx. split.
  - destruct Hi. split; cbn; try done; by rewrite map_app.
  - split; cbn; [by rewrite map_app|done].
Qed.

(** from the current buffer, *)
Lemma take_current oe b : oe_inv oe -> oe_buffer oe = Some b ->
  let oe1 := oe <| buffer_idx ::= fun n => swrap 32 (n + 1) |> in
  let oe2 := if buffer_idx oe1 =? MAX_SAMPLE_BUFFER then oe1 <| oe_buffer := None |> else oe1 in
  oe_inv oe2 /\ fresh oe2 (b, buffer_idx oe).
Proof.
  intros Hi Eb oe1 oe2. destruct (oi_buffer _ Hi b Eb) as [Hb Hr]. pose proof max_sample_buffer as Hm.
  assert (buffer_idx oe1 = buffer_idx oe + 1) as Eidx by (apply s32_small; lia).
  assert (Hnew : ~ In (b, buffer_idx oe) (map oev_addr (events oe ++ oe_cache oe))).
  { intros Hin. pose proof (oi_objects _ Hi) as Ho. rewrite Forall_forall in Ho. destruct (Ho _ Hin) as [_ Hlt].
    specialize (Hlt b Eb eq_refl). cbn in Hlt. lia. }
  assert (Ho : Forall (allocated oe2) (map oev_addr (events oe ++ oe_cache oe)) /\ allocated oe2 (b, buffer_idx oe)).
  { split.
    - eapply Forall_impl; [|exact (oi_objects _ Hi)]. intros obj [Hlt Hidx]. subst oe2. unfold allocated.
      destruct (_ =? _); cbn [oe_buffer nr_buffers]; (split; [done|]); [done|].
      intros b' Eb' E'. rewrite Eidx. specialize (Hidx b' Eb' E'). lia.
    - subst oe2. unfold allocated. destruct (_ =? _); (split; [done|]); [done|]. intros b' Eb' E'. rewrite Eidx. cbn. lia. }
  destruct Ho as [Ho Hn]. assert (events oe2 = events oe /\ oe_cache oe2 = oe_cache oe) as [Ee Ec] by (subst oe2; by destruct (_ =? _)).
  split; [|by split; rewrite ?Ee, ?Ec].
  destruct Hi. split; rewrite ?Ee, ?Ec; try done; try (subst oe2; by destruct (_ =? _)).
  intros b' Eb'. subst oe2. destruct (Z.eqb_spec (buffer_idx oe1) MAX_SAMPLE_BUFFER); [done|].
  change (oe_buffer oe = Some b') in Eb'. rewrite Eb in Eb'. injection Eb' as <-. split; [done|]. lia.
Qed.

(** or from a new one. *)
Lemma take_new oe f : oe_inv oe -> oe_buffer oe = None ->
  let oe1 := oe <| oe_buffer := Some (nr_buffers oe) |> <| nr_buffers ::= S |> <| cur_alloc_size ::= f |>
               <| to_free ::= fun l => nr_buffers oe :: l |> <| buffer_idx := 1 |> in
  oe_inv oe1 /\ fresh oe1 (nr_buffers oe, 0).
Proof.
  intros Hi Eb oe1. pose proof max_sample_buffer as Hm.
  assert (Hold : forall obj, allocated oe obj -> allocated oe1 obj /\ obj <> (nr_buffers oe, 0)).
  { intros obj [Hlt _]. split; [split; cbn; [lia|]|]; [intros b' [= <-] E'; lia|]. intros ->. cbn in Hlt. lia. }
  split.
  - destruct Hi. split; try done.
    + eapply Forall_impl; [|exact oi_objects0]. intros obj Ho. by apply Hold.
    + intros b [= <-]. cbn. split; [lia|lia].
  - split; [|split; cbn; [lia|by intros b [= <-]]]. intros Hin. pose proof (oi_objects _ Hi) as Ho. rewrite Forall_forall in Ho.
    by destruct (Hold _ (Ho _ Hin)).
Qed.

Lemma alloc_event_ok a oe (e : E) : oe_inv oe ->
  exists r oe' a', alloc_event header_size a oe e = (r, oe', a') /\ oe_inv oe' /\ same_list oe oe' /\
    forall obj e', r = Some (obj, e') -> fresh oe' obj /\ e' = e.
Proof.
  intros Hi. unfold alloc_event. destruct (dup_event_ok a oe e) as (r & f & a' & -> & Hr).
  pose proof (oe_inv_alloc_size oe f Hi) as Hi1. set (oe1 := oe <| cur_alloc_size ::= f |>) in *.
  assert (same_list oe oe1) as Hs by done. clearbody oe1. destruct r as [e1|]; [|by exists None, oe1, a'].
  destruct Hr as [[= ->]|]; [|done]. destruct (oe_cache oe1) as [|x c] eqn:Ec.
  - destruct (oe_buffer oe1) as [b|] eqn:Eb.
    + destruct (take_current oe1 b Hi1 Eb) as [Hi2 Hf]. eexists _, _, a'. split; [reflexivity|]. split; [exact Hi2|].
      split; [by destruct (_ =? _)|]. by intros obj e' [= <- <-].
    + destruct (_ <? _); [|by exists None, oe1, a']. destruct (a' 0%nat).
      * destruct (take_new oe1 (fun n => u64 (n + sample_buffer_size)) Hi1 Eb) as [Hi2 Hf].
        eexists _, _, _. split; [reflexivity|]. split; [exact Hi2|]. split; [done|]. by intros obj e' [= <- <-].
      * eexists None, _, _. split; [reflexivity|]. unfold free_dup_event, __free_dup_event.
        destruct (copy_on_queue oe1) eqn:Ecp; [|by split_and!]. split; [by apply oe_inv_alloc_size|]. split; [|done].
        unfold same_list in *. by rewrite <- Hs.
  - destruct (take_cached oe1 x c Hi1 Ec) as [Hi2 Hf]. eexists _, _, a'. split; [reflexivity|]. split; [exact Hi2|].
    split; [done|]. by intros obj e' [= <- <-].
Qed.

Lemma new_event_ok a oe ts (e : E) offset path : oe_inv oe ->
  exists (r : bool) oe' a', ordered_events__new_event header_size a oe ts e offset path = Some (r, oe', a') /\ oe_inv oe' /\
    next_flush oe' = next_flush oe /\ last_flush oe' = last_flush oe /\
    if r then exists obj, events oe' = insert (mkOev obj ts offset path (Some e)) (events oe) else events oe' = events oe.
Proof.
  intros Hi. unfold ordered_events__new_event.
  destruct (alloc_event_ok a oe e Hi) as (r & oe1 & a' & -> & Hi1 & Hs & Hr). injection Hs as E1 E2 E3 E4 E5 E6 E7 E8.
  destruct r as [[obj e']|]; [|by exists false, oe1, a']. destruct (Hr obj e' eq_refl) as [Hf ->].
  destruct (queue_event_ok oe1 (mkOev obj ts offset path (Some e)) Hi1 Hf) as (oe2 & max & -> & Hi2 & ->).
  cbn [mbind option_bind]. eexists true, _, a'. split; [reflexivity|]. split; [exact Hi2|]. split; [exact E5|]. split; [exact E6|].
  exists obj. cbn. by rewrite E1.
Qed.

(** ** Flushing *)

Context {W : Type} (deliver : oevent -> W -> Z * W) (session_done : W -> bool).
(** No delivery fails, and the session is not over. *)
Context (Hdeliver : forall e w, fst (deliver e w) = 0) (Hsession : forall w, session_done w = false).

Definition give (l : list oevent) (w : W) : W := fold_left (fun w e => snd (deliver e w)) l w.

(** The object as it is kept. *)
Definition kept (e : oevent) : oevent := mkOev (oev_addr e) (timestamp e) (file_offset e) (file_path e) None.

Definition dup_sizes (oe : oe_state) (l : list oevent) : Z :=
  if copy_on_queue oe then foldr (fun e n => from_option header_size 0 (event e) + n) 0 l else 0.

Record flushed (oe oe' : oe_state) (d rest : list oevent) : Prop := {
  fl_events : events oe' = rest;
  fl_cache : oe_cache oe' = rev (map kept d) ++ oe_cache oe;
  fl_count : nr_events oe = u32 (nr_events oe) -> nr_events oe' = u32 (nr_events oe - Z.of_nat (length d));
  fl_size : cur_alloc_size oe = u64 (cur_alloc_size oe) ->
    cur_alloc_size oe' = u64 (cur_alloc_size oe - dup_sizes oe d);
  fl_same : (oe_last oe', max_timestamp oe', next_flush oe', copy_on_queue oe', max_alloc_size oe', oe_buffer oe',
             buffer_idx oe', nr_buffers oe') =
            (oe_last oe, max_timestamp oe, next_flush oe, copy_on_queue oe, max_alloc_size oe, oe_buffer oe,
             buffer_idx oe, nr_buffers oe)
}.

Lemma delete_ok oe e l : events oe = e :: l -> NoDup (map oev_addr (events oe)) ->
  let oe' := ordered_events__delete header_size oe e in
  flushed oe oe' [e] l.
Proof.
  intros Ee Hd oe'. rewrite Ee in Hd. cbn [map] in Hd. inversion Hd as [|? ? Hx Hd']; subst.
  assert (List.filter (fun x => negb (bool_decide (oev_addr x = oev_addr e))) (events oe) = l) as Ef.
  { rewrite Ee. cbn [List.filter]. rewrite bool_decide_true by done. cbn [negb].
    rewrite list_elem_of_In in Hx. clear - Hx. induction l as [|y l IH]; [done|]. cbn [List.filter map In] in *.
    rewrite bool_decide_false by tauto. cbn [negb]. f_equal. apply IH. tauto. }
  subst oe'. unfold ordered_events__delete, free_dup_event, dup_sizes.
  change (copy_on_queue (oe <| events ::= _ |> <| oe_cache ::= _ |> <| nr_events ::= _ |>)) with (copy_on_queue oe).
  unfold __free_dup_event.
  destruct (copy_on_queue oe) eqn:Ec, (event e) as [ev|] eqn:Eev; split; unfold dup_sizes; cbn;
    rewrite ?Ef, ?Eev, ?Ec; try done; cbn; by rewrite ?Z.add_0_r, ?Z.sub_0_r.
Qed.

Lemma flushed_nil oe : flushed oe oe [] (events oe).
Proof. split; cbn; try done; intros E1; unfold dup_sizes; cbn; destruct (copy_on_queue oe); by rewrite Z.sub_0_r. Qed.

Lemma flushed_cons oe1 oe2 oe3 e d rest : flushed oe1 oe2 [e] (d ++ rest) -> flushed oe2 oe3 d rest ->
  flushed oe1 oe3 (e :: d) rest.
Proof.
  intros [E1 E2 E3 E4 E6] [F1 F2 F3 F4 F6]. split.
  - done.
  - rewrite F2, E2. cbn [map rev app]. by rewrite <- (assoc_L (++)).
  - intros Hn. specialize (E3 Hn). rewrite F3 by by rewrite E3, wrap_idemp. rewrite E3, u32_sub_l. f_equal. cbn [length]. lia.
  - intros Hn. specialize (E4 Hn). rewrite F4 by by rewrite E4, wrap_idemp. rewrite E4, u64_sub_l.
    injection E6 as _ _ _ Ec _ _ _ _. unfold dup_sizes. rewrite Ec. destruct (copy_on_queue oe1); cbn; f_equal; lia.
  - by rewrite F6.
Qed.

Lemma flush_loop_ok limit l : forall oe w, events oe = l -> NoDup (map oev_addr l) -> sorted l ->
  exists d rest oe', flush_loop header_size deliver session_done limit l oe w = (inr tt, oe', give d w) /\
    l = d ++ rest /\ flushed oe oe' d rest /\ Forall (fun e => timestamp e <= limit) d /\
    Forall (fun e => limit < timestamp e) rest.
Proof.
  induction l as [|e l IH]; intros oe w Ee Hd Hs; pose proof (flushed_nil oe) as Hnil; rewrite Ee in Hnil; cbn [flush_loop].
  - by exists [], [], oe.
  - rewrite Hsession. apply StronglySorted_inv in Hs as [Hs He]. destruct (Z.ltb_spec limit (timestamp e)) as [Hlt|Hle].
    + exists [], (e :: l), oe. split_and!; try done. constructor; [done|].
      eapply Forall_impl; [|exact He]. cbn. lia.
    + pose proof (Hdeliver e w) as Hret. destruct (deliver e w) as [ret w1] eqn:Edel. cbn in Hret. subst ret. cbn [Z.eqb negb].
      rewrite <- Ee in Hd. pose proof (delete_ok oe e l Ee Hd) as Hdel. cbv zeta in Hdel.
      set (oe1 := ordered_events__delete header_size oe e) in *. clearbody oe1. rewrite Ee in Hd. inversion Hd as [|? ? _ Hd']; subst.
      destruct (IH (oe1 <| last_flush := timestamp e |>) w1) as (d & rest & oe' & -> & El & Hf & Hd1 & Hrest);
        [apply (fl_events _ _ _ _ Hdel)|done|done|].
      exists (e :: d), rest, oe'. split; [cbn; by rewrite Edel|]. split; [by rewrite El|]. split.
      * apply (flushed_cons oe (oe1 <| last_flush := timestamp e |>)); [|done]. rewrite <- El. destruct Hdel. by split.
      * split; [by constructor|done].
Qed.

Lemma timestamp_at_ok oe obj : oe_inv oe -> oe_last oe = Some obj ->
  exists e, In e (events oe) /\ oev_addr e = obj /\ timestamp_at oe obj = Some (timestamp e).
Proof.
  intros Hi El. pose proof (oi_last _ Hi) as Hin. rewrite El in Hin. unfold timestamp_at.
  destruct (find_last_ok (events oe ++ oe_cache oe) obj) with (before := @nil oevent) as (b & e & a & -> & Eb & Ee).
  { rewrite map_app. apply in_app_iff. by left. }
  exists e. cbn [mbind option_bind]. split; [|done]. pose proof (oi_distinct _ Hi) as Hd. rewrite map_app in Hd.
  assert (In e (events oe ++ oe_cache oe)) as He by (cbn [rev app] in Eb; rewrite <- Eb; apply in_app_iff; right; by left).
  apply in_app_iff in He as [He|He]; [done|]. exfalso. apply list.NoDup_app in Hd as (_ & Hd & _).
  apply (Hd obj); apply list_elem_of_In; [done|]. rewrite <- Ee. by apply in_map.
Qed.

Lemma flushed_inv oe oe' d rest last : oe_inv oe -> events oe = d ++ rest -> flushed oe oe' d rest ->
  match last with None => rest = [] | Some obj => In obj (map oev_addr rest) end ->
  oe_inv (oe' <| oe_last := last |>).
Proof.
  intros Hi Ee [F1 F2 F3 _ F6] Hlast. injection F6 as _ Emax _ _ _ Ebuf Eidx Enr.
  assert (map oev_addr (events oe' ++ oe_cache oe') ≡ₚ map oev_addr (events oe ++ oe_cache oe)) as Hp.
  { assert (map oev_addr (rev (map kept d)) ≡ₚ map oev_addr d) as Hd.
    { rewrite <- (Permutation_rev (map kept d)), map_map. done. }
    rewrite F1, F2, Ee, !map_app, Hd, (assoc_L (++)). apply Permutation_app; [apply Permutation_app_comm|done]. }
  pose proof (oi_sorted _ Hi) as Hs. rewrite Ee in Hs. split; cbn.
  - rewrite F1. by destruct (sorted_app_inv _ _ _ Hs) as (_ & ? & _).
  - rewrite Hp. apply Hi.
  - by rewrite F1.
  - rewrite F3 by (rewrite (oi_count _ Hi); by rewrite wrap_idemp).
    rewrite (oi_count _ Hi), u32_sub_l, F1, Ee, length_app. f_equal. lia.
  - rewrite F1, Emax. intros e El. apply (oi_max _ Hi). rewrite Ee. destruct rest as [|x rest]; [done|]. by rewrite last_event_app.
  - rewrite Hp. eapply Forall_impl; [|exact (oi_objects _ Hi)]. unfold allocated. cbn. by rewrite Enr, Ebuf, Eidx.
  - rewrite Enr, Ebuf, Eidx. apply Hi.
Qed.

Lemma last_event_some (e : oevent) l : exists x, last_event (e :: l) = Some x /\ In x (e :: l).
Proof.
  unfold last_event. destruct (rev (e :: l)) as [|x r] eqn:Er; [by apply (f_equal (@length _)) in Er; rewrite length_rev in Er|].
  exists x. split; [done|]. apply in_rev. rewrite Er. by left.
Qed.

(** A flush that comes to its end: what was due is delivered. *)
Record flush_done (oe oe' : oe_state) (d : list oevent) : Prop := {
  fd_inv : oe_inv oe';
  fd_events : events oe = d ++ events oe';
  fd_due : Forall (fun e => timestamp e <= next_flush oe) d;
  fd_rest : Forall (fun e => next_flush oe < timestamp e) (events oe') \/ next_flush oe = 0 /\ d = [];
  fd_size : cur_alloc_size oe = u64 (cur_alloc_size oe) -> cur_alloc_size oe' = u64 (cur_alloc_size oe - dup_sizes oe d);
  fd_same : (next_flush oe', max_timestamp oe', copy_on_queue oe', max_alloc_size oe', nr_buffers oe') =
            (next_flush oe, max_timestamp oe, copy_on_queue oe, max_alloc_size oe, nr_buffers oe)
}.

Lemma do_flush_ok oe w : oe_inv oe ->
  exists d oe', do_flush header_size deliver session_done oe w = Some (0, oe', give d w) /\ flush_done oe oe' d.
Proof.
  intros Hi. unfold do_flush.
  assert (exists ts, (match oe_last oe with Some obj => timestamp_at oe obj | None => Some 0 end) = Some ts /\
    forall obj, oe_last oe = Some obj -> exists e, In e (events oe) /\ oev_addr e = obj /\ ts = timestamp e) as (ts & -> & Hts).
  { destruct (oe_last oe) as [obj|] eqn:El; [|by exists 0].
    destruct (timestamp_at_ok oe obj Hi El) as (e & He & Ee & ->). exists (timestamp e). split; [done|]. intros ? [= <-]. by exists e. }
  cbn [mbind option_bind]. destruct (Z.eqb_spec (next_flush oe) 0) as [E0|E0].
  { exists [], oe. split; [done|]. split; try done; [by right|]. unfold dup_sizes. by destruct (copy_on_queue oe); rewrite Z.sub_0_r. }
  pose proof (oi_distinct _ Hi) as Hd. rewrite map_app in Hd. apply list.NoDup_app in Hd as (Hd & _ & _).
  destruct (flush_loop_ok (next_flush oe) (events oe) oe w eq_refl Hd (oi_sorted _ Hi)) as (d & rest & oe1 & -> & Ee & Hf & Hdue & Hrest).
  exists d. pose proof (fl_same _ _ _ _ Hf) as Hsame. injection Hsame as S1 S2 S3 S4 S5 S6 S7 S8.
  assert (forall last, match last with None => rest = [] | Some obj => In obj (map oev_addr rest) end ->
    flush_done oe (oe1 <| oe_last := last |>) d) as Hdone.
  { intros last Hlast. split; cbn.
    - by eapply flushed_inv.
    - by rewrite (fl_events _ _ _ _ Hf).
    - done.
    - left. by rewrite (fl_events _ _ _ _ Hf).
    - apply (fl_size _ _ _ _ Hf).
    - by rewrite S2, S3, S4, S5, S8. }
  assert (oe1 = oe1 <| oe_last := oe_last oe |>) as Eid by (rewrite <- S1; by destruct oe1).
  rewrite (fl_events _ _ _ _ Hf). destruct rest as [|e rest].
  { exists (oe1 <| oe_last := None |>). split; [done|]. by apply Hdone. }
  destruct (last_event_some e rest) as (x & -> & Hx). destruct (Z.leb_spec ts (next_flush oe)).
  - eexists. split; [reflexivity|]. apply Hdone. by apply in_map.
  - exists oe1. split; [done|]. rewrite Eid. apply Hdone. destruct (oe_last oe) as [obj|] eqn:El.
    + destruct (Hts obj eq_refl) as (y & Hy & <- & ->). apply in_map. rewrite Ee in Hy.
      apply in_app_iff in Hy as [Hy|Hy]; [|done]. rewrite Forall_forall in Hdue. specialize (Hdue y Hy). lia.
    + pose proof (oi_last _ Hi) as En. rewrite El in En. rewrite En in Ee. by destruct d.
Qed.

Notation flush := (__ordered_events__flush header_size deliver session_done).

Lemma oe_inv_scalars oe f g h : oe_inv oe ->
  oe_inv (oe <| next_flush ::= f |>) /\ oe_inv (oe <| last_flush_type ::= g |>) /\ oe_inv (oe <| nr_unordered_events ::= h |>).
Proof. intros Hi. destruct Hi. by split_and!; split. Qed.

(** A flush from the limit [limit]. *)
Lemma flush_from oe limit how w : oe_inv oe -> exists d oe1 oe2,
  ('(err, oe, w) ← do_flush header_size deliver session_done (oe <| next_flush := limit |>) w;
   if err =? 0 then
     let oe := match how with OE_FLUSH__ROUND => oe <| next_flush := max_timestamp oe |> | _ => oe end in
     Some (0, oe <| last_flush_type := how |>, w)
   else Some (err, oe, w)) = Some (0, oe2, give d w) /\
  flush_done (oe <| next_flush := limit |>) oe1 d /\ oe_inv oe2 /\
  oe2 = (if how is OE_FLUSH__ROUND then oe1 <| next_flush := max_timestamp oe1 |> else oe1) <| last_flush_type := how |>.
Proof.
  intros Hi. pose proof (oe_inv_scalars oe (fun _ => limit) id id Hi) as [Hi1 _].
  destruct (do_flush_ok (oe <| next_flush := limit |>) w Hi1) as (d & oe1 & -> & Hd). cbn [mbind option_bind Z.eqb].
  exists d, oe1. eexists. split; [reflexivity|]. split; [done|]. split; [|by destruct how].
  pose proof (fd_inv _ _ _ Hd) as Hi2. destruct how;
    first [apply (oe_inv_scalars oe1 id (fun _ => _) id Hi2)
          |apply (oe_inv_scalars (oe1 <| next_flush := max_timestamp oe1 |>) id (fun _ => _) id);
           apply (oe_inv_scalars oe1 (fun _ => max_timestamp oe1) id id Hi2)].
Qed.

Lemma flush_ok oe how ts w : oe_inv oe -> exists d oe',
  flush oe how ts w = Some (0, oe', give d w) /\ oe_inv oe' /\ events oe = d ++ events oe'.
Proof.
  intros Hi. unfold __ordered_events__flush. destruct (nr_events oe =? 0); [by exists [], oe|].
  assert (forall limit oe0, oe0 = oe <| next_flush := limit |> -> exists d oe',
    ('(err, oe, w) ← do_flush header_size deliver session_done oe0 w;
     if err =? 0 then
       let oe := match how with OE_FLUSH__ROUND => oe <| next_flush := max_timestamp oe |> | _ => oe end in
       Some (0, oe <| last_flush_type := how |>, w)
     else Some (err, oe, w)) = Some (0, oe', give d w) /\ oe_inv oe' /\ events oe = d ++ events oe') as Hgo.
  { intros limit oe0 ->. destruct (flush_from oe limit how w Hi) as (d & oe1 & oe2 & E2 & Hd & Hi2 & Eoe).
    exists d, oe2. split; [exact E2|]. split; [done|]. rewrite Eoe. pose proof (fd_events _ _ _ Hd) as Eev. cbn in Eev.
    by destruct how. }
  assert (oe = oe <| next_flush := next_flush oe |>) as Eid by (by destruct oe).
  destruct how; try (by eapply Hgo).
  destruct (oe_last oe) as [obj|] eqn:El; [|by exists [], oe]. destruct (events oe) as [|first l] eqn:Ee; [by exists [], oe|].
  destruct (timestamp_at_ok oe obj Hi El) as (e & _ & _ & ->). cbn [mbind option_bind]. by eapply Hgo.
Qed.

Lemma queue_ok a oe w (e : E) ts off path : oe_inv oe -> exists err oe' d a' obj,
  ordered_events__queue header_size deliver session_done a oe w e ts off path = Some (err, oe', give d w, a') /\ oe_inv oe' /\
  (err = 0 /\ 0 <> ts /\ ts <> 2 ^ 64 - 1 /\ (exists before, events oe = d ++ before /\ events oe' = insert (mkOev obj ts off path (Some e)) before) \/
   err = - ETIME /\ (ts = 0 \/ ts = 2 ^ 64 - 1) /\ d = [] /\ oe' = oe \/
   err = - ENOMEM /\ events oe = d ++ events oe').
Proof.
  intros Hi. unfold ordered_events__queue.
  destruct (Z.eqb_spec ts 0) as [->|Hne]; [exists (- ETIME), oe, [], a, (0%nat, 0); cbn; split_and!; [done|done|]; right; left; split_and!; auto|].
  destruct (Z.eqb_spec ts (2 ^ 64 - 1)) as [->|Hne']; [exists (- ETIME), oe, [], a, (0%nat, 0); cbn; split_and!; [done|done|]; right; left; split_and!; auto|].
  cbn [orb]. set (oe0 := if ts <? last_flush oe then _ else oe).
  assert (oe_inv oe0 /\ events oe0 = events oe) as [Hi0 E0].
  { subst oe0. destruct (_ <? _); [|done]. split; [|done]. by apply (oe_inv_scalars oe id id (fun n => u32 (n + 1))). }
  clearbody oe0. destruct (new_event_ok a oe0 ts e off path Hi0) as (r & oe1 & a1 & -> & Hi1 & _ & _ & Hr). cbn [mbind option_bind].
  destruct r.
  - destruct Hr as [obj Eev]. exists 0, oe1, [], a1, obj. split; [done|]. split; [done|]. left. split_and!; try done.
    exists (events oe). by rewrite <- E0.
  - unfold ordered_events__flush. destruct (flush_ok oe1 OE_FLUSH__HALF 0 w Hi1) as (d & oe2 & -> & Hi2 & Ed). cbn [mbind option_bind].
    destruct (new_event_ok a1 oe2 ts e off path Hi2) as (r & oe3 & a3 & -> & Hi3 & _ & _ & Hr3). cbn [mbind option_bind].
    rewrite Hr, E0 in Ed. destruct r.
    + destruct Hr3 as [obj Eev]. exists 0, oe3, d, a3, obj. split; [done|]. split; [done|]. left. split_and!; try done.
      by exists (events oe2).
    + exists (- ENOMEM), oe3, d, a3, (0%nat, 0). split; [done|]. split; [done|]. right. right. by rewrite Hr3.
Qed.
End events.

(** ** Memory *)

Section memory.
Context `{Platform} {E : Type} (header_size : E -> Z).
Notation oevent := (ordered_event E).
Notation oe_state := (ordered_events E).
(** [event->header.size] has 16 bits. *)
Context (Hsize : forall e, 0 <= header_size e < 2 ^ 16).

(** With no limit set, after [m] events at most. *)
Record accounted (oe : oe_state) (m : Z) : Prop := {
  ac_size : cur_alloc_size oe =
    dup_sizes header_size oe (events oe) + Z.of_nat (nr_buffers oe) * sample_buffer_size;
  ac_buffers : Z.of_nat (nr_buffers oe) <= m;
  ac_events : Z.of_nat (length (events oe)) <= m;
  ac_max : max_alloc_size oe = ULLONG_MAX
}.

Lemma sample_buffer_bound : 0 < sample_buffer_size < 2 ^ 17.
Proof. unfold sample_buffer_size, MAX_SAMPLE_BUFFER, sizeof_ordered_event. by destruct (bits_per_long =? 32). Qed.

Lemma dup_sizes_bound oe l : 0 <= dup_sizes header_size oe l <= Z.of_nat (length l) * 2 ^ 16.
Proof.
  unfold dup_sizes. destruct (copy_on_queue oe); [|lia]. induction l as [|e l IH]; [done|]. cbn [foldr length].
  destruct (event e) as [x|]; cbn [from_option]; [pose proof (Hsize x)|]; lia.
Qed.

Lemma dup_sizes_app oe l l' : dup_sizes header_size oe (l ++ l') = dup_sizes header_size oe l + dup_sizes header_size oe l'.
Proof.
  unfold dup_sizes. destruct (copy_on_queue oe); [|done]. induction l as [|e l IH]; [done|]. cbn [app foldr]. lia.
Qed.

Lemma dup_sizes_copy oe oe' l : copy_on_queue oe' = copy_on_queue oe -> dup_sizes header_size oe' l = dup_sizes header_size oe l.
Proof. unfold dup_sizes. by intros ->. Qed.

Lemma dup_sizes_insert oe obj ts off path e l :
  dup_sizes header_size oe (insert_by timestamp (mkOev obj ts off path (Some e)) l) =
    (if copy_on_queue oe then header_size e else 0) + dup_sizes header_size oe l.
Proof.
  unfold dup_sizes. destruct (copy_on_queue oe); [|done]. induction l as [|x l IH]; [done|]. cbn [insert_by].
  destruct (_ <=? _); [|done]. cbn [foldr]. rewrite IH. lia.
Qed.

Lemma accounted_range oe m : accounted oe m -> m < 2 ^ 31 -> 0 <= cur_alloc_size oe < 2 ^ 50.
Proof.
  intros Ha Hm. rewrite (ac_size _ _ Ha). pose proof (dup_sizes_bound oe (events oe)). pose proof sample_buffer_bound.
  pose proof (ac_buffers _ _ Ha). pose proof (ac_events _ _ Ha). nia.
Qed.

Definition dup_size (oe : oe_state) (e : E) : Z := if copy_on_queue oe then header_size e else 0.

(** Nothing fails; the bytes used are counted. *)
Lemma alloc_event_enough a oe (e : E) m : accounted oe m -> m < 2 ^ 31 -> all_true a ->
  exists obj oe' a', alloc_event header_size a oe e = (Some (obj, e), oe', a') /\ all_true a' /\
    cur_alloc_size oe' = cur_alloc_size oe + dup_size oe e +
      (Z.of_nat (nr_buffers oe') - Z.of_nat (nr_buffers oe)) * sample_buffer_size /\
    (nr_buffers oe' <= S (nr_buffers oe))%nat.
Proof.
  intros Hacc Hm Ha. pose proof (accounted_range oe m Hacc Hm) as Hc. pose proof (Hsize e). pose proof sample_buffer_bound.
  pose proof (ac_max _ _ Hacc) as Emax. unfold ULLONG_MAX in Emax.
  assert (exists oe1 a1, dup_event header_size a oe e = (Some e, oe1, a1) /\ all_true a1 /\
    cur_alloc_size oe1 = cur_alloc_size oe + dup_size oe e /\ nr_buffers oe1 = nr_buffers oe /\
    max_alloc_size oe1 = max_alloc_size oe) as (oe1 & a1 & Edup & Ha1 & Ec1 & En1 & Em1).
  { unfold dup_event, __dup_event, dup_size. destruct (copy_on_queue oe).
    - destruct (Z.ltb_spec (cur_alloc_size oe) (max_alloc_size oe)); [|lia]. rewrite (Ha 0%nat).
      eexists _, _. split; [reflexivity|]. split; [by apply next_all_true|]. split; [|done]. cbn. by rewrite u64_small by lia.
    - exists oe, a. split_and!; try done. lia. }
  unfold alloc_event. rewrite Edup. assert (0 <= dup_size oe e < 2 ^ 16) by (unfold dup_size; destruct (copy_on_queue oe); lia).
  destruct (oe_cache oe1) as [|x c].
  - destruct (oe_buffer oe1) as [b|].
    + eexists _, _, a1. split; [reflexivity|]. split; [done|]. destruct (_ =? _); cbn; rewrite Ec1, En1; split; lia.
    + destruct (Z.ltb_spec (u64 (cur_alloc_size oe1 + sample_buffer_size)) (max_alloc_size oe1)) as [_|Hlt].
      * rewrite (Ha1 0%nat). eexists _, _, _. split; [reflexivity|]. split; [by apply next_all_true|]. cbn -[Z.of_nat].
        rewrite Ec1, En1, u64_small by lia. split; lia.
      * rewrite Em1, Emax, u64_small in Hlt by lia. lia.
  - eexists _, _, a1. split; [reflexivity|]. split; [done|]. cbn. rewrite Ec1, En1. split; lia.
Qed.

Lemma new_event_enough a oe ts (e : E) off path m : oe_inv oe -> accounted oe m -> m + 1 < 2 ^ 31 -> all_true a ->
  exists obj oe' a', ordered_events__new_event header_size a oe ts e off path = Some (true, oe', a') /\ all_true a' /\
    oe_inv oe' /\ accounted oe' (m + 1) /\ next_flush oe' = next_flush oe /\ copy_on_queue oe' = copy_on_queue oe /\
    events oe' = insert_by timestamp (mkOev obj ts off path (Some e)) (events oe).
Proof.
  intros Hi Hacc Hm Ha. unfold ordered_events__new_event.
  destruct (alloc_event_enough a oe e m Hacc ltac:(lia) Ha) as (obj & oe1 & a1 & E1 & Ha1 & Ec & En).
  destruct (alloc_event_ok header_size a oe e Hi) as (r & oe1' & a1' & E1' & Hi1 & Hs & Hr).
  rewrite E1 in E1'. injection E1' as <- <- <-. destruct (Hr obj e eq_refl) as [Hf _]. injection Hs as S1 S2 S3 S4 S5 S6 S7 S8.
  rewrite E1. destruct (queue_event_ok oe1 (mkOev obj ts off path (Some e)) Hi1 Hf) as (oe2 & max & -> & Hi2 & ->).
  cbn [mbind option_bind]. eexists obj, _, a1. split; [reflexivity|]. split; [done|]. split; [exact Hi2|].
  pose proof (insert_permutation timestamp (mkOev obj ts off path (Some e)) (events oe1)) as Hp.
  split; [|split; [exact S5|split; [exact S7|cbn; by rewrite S1]]]. destruct Hacc as [A1 A2 A3 A4]. split; cbn -[Z.of_nat].
  - rewrite (dup_sizes_copy oe) by exact S7. rewrite dup_sizes_insert, S1. fold (dup_size oe e).
    change (nr_buffers (oe1 <| nr_events ::= _ |> <| oe_last := _ |> <| events := _ |> <| max_timestamp := _ |>)) with (nr_buffers oe1).
    rewrite Ec, A1. lia.
  - lia.
  - rewrite Hp. cbn [length]. rewrite S1. lia.
  - by rewrite S8.
Qed.
End memory.
