(* ===== verification/OrderedClaims.v ===== *)
(** Ordered events as a whole: no sequence of operations loses an event, and
    rounds of events are delivered as a stable sort by time. *)
From Stdlib Require Import ZArith Lia List Bool Sorted Permutation.
From S2P Require Import Prelude Float64 PktDecoder PtStack PtState AuxHeap PtExample OrderedEvents OrderedTheorems.
Open Scope Z_scope.
Open Scope c_scope.
Import ListNotations.

Section ops.
Context `{Platform} {E : Type} (header_size : E -> Z).
Notation oe_state := (ordered_events E).

(** What an event carries, and a delivery that writes it down. *)
Definition record : Type := Z * Z * option (list byte) * option E.
Definition time_of (r : record) : Z := r.1.1.1.
Definition record_of (e : ordered_event E) : record := (timestamp e, file_offset e, file_path e, event e).
Definition log (e : ordered_event E) (w : list record) : Z * list record := (0, w ++ [record_of e]).
Definition never (w : list record) : bool := false.

Lemma give_log d : forall w, give log d w = w ++ map record_of d.
Proof.
  unfold give. induction d as [|e d IH]; intros w; cbn [fold_left map]; [by rewrite app_nil_r|].
  rewrite IH. cbn. by rewrite <- (assoc_L (++)).
Qed.

Lemma insert_records x l :
  map record_of (insert_by timestamp x l) = insert_by time_of (record_of x) (map record_of l).
Proof. apply (insert_by_map record_of time_of). Qed.

(** ** Any operations *)

Inductive oe_op :=
| OpQueue (e : E) (ts off : Z) (path : option (list byte))
| OpFlush (how : oe_flush)
| OpFlushTime (ts : Z)
| OpAllocSize (size : Z)
| OpCopy (copy : bool).

Definition run_op (op : oe_op) (a : allocs) (oe : oe_state) (w : list record)
    : option (Z * oe_state * list record * allocs) :=
  match op with
  | OpQueue e ts off path => ordered_events__queue header_size log never a oe w e ts off path
  | OpFlush how => '(err, oe, w) ← ordered_events__flush header_size log never oe how w; Some (err, oe, w, a)
  | OpFlushTime ts => '(err, oe, w) ← ordered_events__flush_time header_size log never oe ts w; Some (err, oe, w, a)
  | OpAllocSize size => Some (0, ordered_events__set_alloc_size oe size, w, a)
  | OpCopy copy => Some (0, ordered_events__set_copy_on_queue oe copy, w, a)
  end.

(** The return values, the structure and what has been delivered. *)
Fixpoint run_ops (ops : list oe_op) (a : allocs) (oe : oe_state) (w : list record)
    : option (list Z * oe_state * list record) :=
  match ops with
  | [] => Some ([], oe, w)
  | op :: ops =>
    '(err, oe, w, a) ← run_op op a oe w;
    '(errs, oe, w) ← run_ops ops a oe w;
    Some (err :: errs, oe, w)
  end.

(** The events whose queueing returned 0. *)
Fixpoint accepted (ops : list oe_op) (errs : list Z) : list record :=
  match ops, errs with
  | OpQueue e ts off path :: ops, err :: errs =>
    (if err =? 0 then [(ts, off, path, Some e)] else []) ++ accepted ops errs
  | _ :: ops, _ :: errs => accepted ops errs
  | _, _ => []
  end.

Lemma flush_log oe how ts w : oe_inv oe -> exists d oe',
  __ordered_events__flush header_size log never oe how ts w = Some (0, oe', w ++ map record_of d) /\ oe_inv oe' /\
  events oe = d ++ events oe'.
Proof.
  intros Hi. destruct (flush_ok header_size log never (fun _ _ => eq_refl) (fun _ => eq_refl) oe how ts w Hi)
    as (d & oe' & Ef & Hr). rewrite give_log in Ef. by exists d, oe'.
Qed.

Lemma run_queue_op_ok op a oe w : oe_inv oe -> exists err oe' w' a',
  run_op op a oe w = Some (err, oe', w', a') /\ oe_inv oe' /\ In err [0; - ETIME; - ENOMEM] /\
  w' ++ map record_of (events oe') ≡ₚ accepted [op] [err] ++ w ++ map record_of (events oe).
Proof.
  intros Hi. destruct op as [e ts off path|how|ts|size|copy]; cbn [run_op].
  - destruct (queue_ok header_size log never (fun _ _ => eq_refl) (fun _ => eq_refl) a oe w e ts off path Hi)
      as (err & oe' & d & a' & obj & Eq & Hi' & Hcase). rewrite give_log in Eq. exists err, oe', (w ++ map record_of d), a'.
    split; [done|]. split; [done|]. destruct Hcase as [(-> & _ & _ & before & Eb & Ee)|[(-> & _ & -> & ->)|[-> Eb]]].
    + split; [by left|]. rewrite Ee, Eb, insert_records, insert_permutation, map_app. cbn [accepted Z.eqb app].
      rewrite <- (assoc_L (++)). by rewrite Permutation_middle, Permutation_middle.
    + split; [by right; left|]. cbn. by rewrite app_nil_r.
    + split; [by right; right; left|]. cbn. rewrite Eb, map_app. by rewrite <- (assoc_L (++)).
  - unfold ordered_events__flush. destruct (flush_log oe how 0 w Hi) as (d & oe' & -> & Hi' & Eb). cbn [mbind option_bind].
    eexists _, _, _, _. split; [reflexivity|]. split; [done|]. split; [by left|]. cbn. rewrite Eb, map_app. by rewrite <- (assoc_L (++)).
  - unfold ordered_events__flush_time. destruct (flush_log oe OE_FLUSH__TIME ts w Hi) as (d & oe' & -> & Hi' & Eb). cbn [mbind option_bind].
    eexists _, _, _, _. split; [reflexivity|]. split; [done|]. split; [by left|]. cbn. rewrite Eb, map_app. by rewrite <- (assoc_L (++)).
  - eexists _, _, _, _. split; [reflexivity|]. split; [destruct Hi; by split|]. split; [by left|done].
  - eexists _, _, _, _. split; [reflexivity|]. split; [destruct Hi; by split|]. split; [by left|done].
Qed.

Lemma accepted_cons op ops err errs : accepted (op :: ops) (err :: errs) = accepted [op] [err] ++ accepted ops errs.
Proof. destruct op; cbn; [|done..]. by rewrite app_nil_r. Qed.

Lemma run_queue_ops_ok ops : forall a oe w, oe_inv oe -> exists errs oe' w',
  run_ops ops a oe w = Some (errs, oe', w') /\ oe_inv oe' /\ length errs = length ops /\
  Forall (fun err => In err [0; - ETIME; - ENOMEM]) errs /\
  w' ++ map record_of (events oe') ≡ₚ accepted ops errs ++ w ++ map record_of (events oe).
Proof.
  induction ops as [|op ops IH]; intros a oe w Hi; cbn [run_ops].
  - exists [], oe, w. by split_and!.
  - destruct (run_queue_op_ok op a oe w Hi) as (err & oe1 & w1 & a1 & -> & Hi1 & Herr & Hp1). cbn [mbind option_bind].
    destruct (IH a1 oe1 w1 Hi1) as (errs & oe2 & w2 & -> & Hi2 & Hl & Herrs & Hp2). cbn [mbind option_bind].
    exists (err :: errs), oe2, w2. split; [done|]. split; [done|]. split; [cbn; by rewrite Hl|]. split; [by constructor|].
    rewrite accepted_cons, Hp2, Hp1. rewrite !(assoc_L (++)). apply Permutation_app; [|done]. apply Permutation_app; [|done].
    apply Permutation_app_comm.
Qed.

Lemma oe_init_inv data : oe_inv (ordered_events__init (zero_events (E := E)) data).
Proof. split; cbn; try done; constructor. Qed.
End ops.

(** ** Rounds *)

Section rounds.
Context `{Platform} {E : Type} (header_size : E -> Z).
Context (Hsize : forall e, 0 <= header_size e < 2 ^ 16).
Notation oe_state := (ordered_events E).
Notation queue := (ordered_events__queue header_size log never).
Notation flush := (ordered_events__flush header_size log never).

(** An event as it is queued. *)
Definition input : Type := Z * Z * option (list byte) * E.
Definition input_record (i : input) : @record E := let '(ts, off, path, e) := i in (ts, off, path, Some e).

(** Every call returns 0. *)
Fixpoint queue_all (l : list input) (a : allocs) (oe : oe_state) (w : list (@record E))
    : option (oe_state * list (@record E) * allocs) :=
  match l with
  | [] => Some (oe, w, a)
  | (ts, off, path, e) :: l =>
    '(err, oe, w, a) ← queue a oe w e ts off path;
    if err =? 0 then queue_all l a oe w else None
  end.

Fixpoint run_rounds (rounds : list (list input)) (a : allocs) (oe : oe_state) (w : list (@record E))
    : option (oe_state * list (@record E)) :=
  match rounds with
  | [] =>
    '(err, oe, w) ← flush oe OE_FLUSH__FINAL w;
    if err =? 0 then Some (oe, w) else None
  | l :: rounds =>
    '(oe, w, a) ← queue_all l a oe w;
    '(err, oe, w) ← flush oe OE_FLUSH__ROUND w;
    if err =? 0 then run_rounds rounds a oe w else None
  end.

(** What [perf record] promises: nothing in a pass is earlier than an event of
    the pass before the last. *)
Definition passes_ok (rounds : list (list input)) : Prop :=
  forall before l mid after, rounds = before ++ l :: mid :: after ->
    forall x y, In x l -> In y (concat after) -> time_of (input_record x) <= time_of (input_record y).

Definition time_ok (i : input) : Prop := 0 < time_of (input_record i) < 2 ^ 64 - 1.

(** ** The state between the calls *)

Definition times (l : list (@record E)) : list Z := map time_of l.

(** [all] has been queued; what is delivered is no later than some time in
    [early], and the next flush reaches some time in [recent]. *)
Record progress (oe : oe_state) (w all : list (@record E)) (early recent : list Z) : Prop := {
  pr_inv : oe_inv oe;
  pr_accounted : accounted header_size oe (Z.of_nat (length all));
  pr_sorted : w ++ map record_of (events oe) = sort_by time_of all;
  pr_given : Forall (fun r => exists t, In t early /\ time_of r <= t) w;
  pr_times : Forall (fun r => 0 < time_of r < 2 ^ 64 - 1) all;
  pr_next : next_flush oe = 0 \/ In (next_flush oe) recent
}.

Lemma queue_progress a oe w all early recent ts off path e :
  progress oe w all early recent -> all_true a -> Z.of_nat (length all) + 1 < 2 ^ 31 -> 0 < ts < 2 ^ 64 - 1 ->
  Forall (fun t => t <= ts) early ->
  exists oe' a', queue a oe w e ts off path = Some (0, oe', w, a') /\ all_true a' /\
    progress oe' w (all ++ [(ts, off, path, Some e)]) early recent.
Proof.
  intros [Hi Hacc Hs Hg Ht Hn] Ha Hlen Hts Hearly. unfold ordered_events__queue.
  destruct (Z.eqb_spec ts 0); [lia|]. destruct (Z.eqb_spec ts (2 ^ 64 - 1)); [lia|]. cbn [orb].
  set (oe0 := if ts <? last_flush oe then _ else oe).
  assert (oe_inv oe0 /\ accounted header_size oe0 (Z.of_nat (length all)) /\ events oe0 = events oe /\ next_flush oe0 = next_flush oe)
    as (Hi0 & Hacc0 & E0 & N0).
  { subst oe0. destruct (_ <? _); [|done]. split; [by apply (oe_inv_scalars oe id id (fun n => u32 (n + 1)))|].
    split; [destruct Hacc; by split|done]. }
  clearbody oe0. destruct (new_event_enough header_size Hsize a oe0 ts e off path _ Hi0 Hacc0 Hlen Ha)
    as (obj & oe1 & a1 & -> & Ha1 & Hi1 & Hacc1 & N1 & _ & E1). cbn [mbind option_bind]. exists oe1, a1. split; [done|]. split; [done|].
  split; [done| | |done| |by rewrite N1, N0].
  - replace (Z.of_nat (length (all ++ _))) with (Z.of_nat (length all) + 1) by (rewrite length_app; cbn; lia). done.
  - rewrite sort_by_snoc, <- Hs, E1, E0, insert_records. symmetry. apply (insert_after time_of (ts, off, path, Some e)).
    eapply Forall_impl; [|exact Hg]. intros r (t & Ht1 & Hle). rewrite Forall_forall in Hearly. specialize (Hearly t Ht1). cbn. lia.
  - apply Forall_app. split; [done|]. constructor; [exact Hts|constructor].
Qed.

Lemma queue_all_progress l : forall a oe w all early recent,
  progress oe w all early recent -> all_true a -> Z.of_nat (length all + length l) < 2 ^ 31 -> Forall time_ok l ->
  (forall t x, In t early -> In x l -> t <= time_of (input_record x)) ->
  exists oe' a', queue_all l a oe w = Some (oe', w, a') /\ all_true a' /\
    progress oe' w (all ++ map input_record l) early recent.
Proof.
  induction l as [|[[[ts off] path] e] l IH]; intros a oe w all early recent Hp Ha Hlen Ht Hearly; cbn [queue_all map].
  - exists oe, a. rewrite app_nil_r. by split_and!.
  - inversion Ht as [|? ? Hts Ht']; subst. cbn [length] in Hlen.
    destruct (queue_progress a oe w all early recent ts off path e Hp Ha ltac:(lia) Hts) as (oe1 & a1 & -> & Ha1 & Hp1).
    { apply Forall_forall. intros t Hin. apply (Hearly t (ts, off, path, e) Hin). by left. }
    cbn [mbind option_bind Z.eqb].
    destruct (IH a1 oe1 w _ early recent Hp1 Ha1) as (oe2 & a2 & -> & Ha2 & Hp2).
    + rewrite length_app. cbn [length]. lia.
    + done.
    + intros t x Hin Hx. apply Hearly; [done|by right].
    + exists oe2, a2. rewrite <- (assoc_L (++)) in Hp2. by split_and!.
Qed.

Lemma flushed_accounted oe oe' d m : accounted header_size oe m -> m < 2 ^ 31 -> flush_done header_size oe oe' d ->
  accounted header_size oe' m.
Proof.
  intros Hacc Hm Hd. pose proof (accounted_range header_size Hsize oe m Hacc Hm) as Hr.
  pose proof (fd_events _ _ _ _ Hd) as Ee. pose proof (fd_size _ _ _ _ Hd) as Es. pose proof (fd_same _ _ _ _ Hd) as Ec.
  injection Ec as _ _ Ec Em En. pose proof (dup_sizes_bound header_size Hsize oe d). pose proof (dup_sizes_bound header_size Hsize oe (events oe')).
  pose proof sample_buffer_bound. destruct Hacc as [A1 A2 A3 A4]. rewrite Ee, dup_sizes_app in A1.
  rewrite u64_small in Es by lia. specialize (Es eq_refl). split.
  - rewrite (dup_sizes_copy header_size oe) by done. rewrite Es, En, u64_small by nia. lia.
  - by rewrite En.
  - rewrite Ee, length_app in A3. lia.
  - by rewrite Em.
Qed.

Lemma nr_events_0 oe w all early recent : progress oe w all early recent -> Z.of_nat (length all) < 2 ^ 31 ->
  nr_events oe = 0 -> events oe = [].
Proof.
  intros Hp Hlen E0. rewrite (oi_count _ (pr_inv _ _ _ _ _ Hp)) in E0.
  pose proof (ac_events _ _ _ (pr_accounted _ _ _ _ _ Hp)). rewrite u32_small in E0 by lia. by destruct (events oe).
Qed.

(** A flush of what is due. *)
Lemma flush_progress oe oe' oe1 w all early recent d t :
  progress oe w all early recent -> Z.of_nat (length all) < 2 ^ 31 ->
  flush_done header_size (oe <| next_flush := t |>) oe1 d -> t = 0 \/ In t recent -> incl early recent ->
  (exists f g, oe' = oe1 <| next_flush ::= f |> <| last_flush_type ::= g |>) -> next_flush oe' = 0 \/ In (next_flush oe') (times all) ->
  progress oe' (w ++ map record_of d) all recent (times all).
Proof.
  intros [Hi Hacc Hs Hg Ht Hn] Hlen Hd Hdue Hincl (f & g & ->) Hnext.
  pose proof (fd_events _ _ _ _ Hd) as Ee. cbn in Ee. split.
  - apply (oe_inv_scalars _ id g id), (oe_inv_scalars _ f id id), (fd_inv _ _ _ _ Hd).
  - assert (accounted header_size oe1 (Z.of_nat (length all))) as Hacc1.
    { eapply flushed_accounted; [|exact Hlen|exact Hd]. destruct Hacc. by split. }
    destruct Hacc1. by split.
  - change (events (oe1 <| next_flush ::= f |> <| last_flush_type ::= g |>)) with (events oe1).
    rewrite <- (assoc_L (++)), <- map_app, <- Ee. exact Hs.
  - apply Forall_app. split; [eapply Forall_impl; [|exact Hg]; intros r (t' & Hin & Hle); exists t'; split; [by apply Hincl|done]|].
    apply Forall_forall. intros r Hr. apply in_map_iff in Hr as (e & <- & He). pose proof (fd_due _ _ _ _ Hd) as Hdd.
    rewrite Forall_forall in Hdd. specialize (Hdd e He). cbn in Hdd.
    assert (In (record_of e) all) as Hin.
    { apply (Permutation_in _ (proj1 (proj2 (sort_by_ok time_of all)))). rewrite <- Hs. apply in_app_iff. right.
      apply in_map. rewrite Ee. apply in_app_iff. by left. }
    rewrite Forall_forall in Ht. specialize (Ht _ Hin). change (time_of (record_of e)) with (timestamp e) in *.
    destruct Hdue as [->|Hdue]; [lia|]. by exists t.
  - done.
  - done.
Qed.

(** The event queued last, if there is one, is the latest; its time is in [all]. *)
Lemma max_in_times oe w all early recent : progress oe w all early recent -> events oe <> [] ->
  In (max_timestamp oe) (times all).
Proof.
  intros [Hi _ Hs _ _ _] Hne. destruct (events oe) as [|e l] eqn:Ee; [done|].
  destruct (last_event_some e l) as (x & El & Hx). rewrite <- Ee in El, Hx. rewrite (oi_max _ Hi x El).
  change (timestamp x) with (time_of (record_of x)). apply in_map.
  apply (Permutation_in _ (proj1 (proj2 (sort_by_ok time_of all)))). rewrite <- Hs, <- Ee. apply in_app_iff. right.
  by apply in_map.
Qed.

Lemma round_progress oe w all early recent : progress oe w all early recent ->
  Z.of_nat (length all) < 2 ^ 31 -> incl early recent -> incl recent (times all) ->
  exists oe' w', flush oe OE_FLUSH__ROUND w = Some (0, oe', w') /\ progress oe' w' all recent (times all).
Proof.
  intros Hp Hlen Hincl Hincl2. unfold ordered_events__flush, __ordered_events__flush.
  destruct (Z.eqb_spec (nr_events oe) 0) as [E0|E0].
  - exists oe, w. split; [done|]. destruct Hp as [Hi Hacc Hs Hg Ht Hn]. split; try done.
    + eapply Forall_impl; [|exact Hg]. intros r (t & Hin & Hle). exists t. split; [by apply Hincl|done].
    + destruct Hn as [Hn|Hn]; [by left|right; by apply Hincl2].
  - assert (events oe <> []) as Hne.
    { intros En. pose proof (oi_count _ (pr_inv _ _ _ _ _ Hp)) as Ec. by rewrite En in Ec. }
    destruct (flush_from header_size log never (fun _ _ => eq_refl) (fun _ => eq_refl) oe (next_flush oe) OE_FLUSH__ROUND w
      (pr_inv _ _ _ _ _ Hp)) as (d & oe1 & oe2 & Ef & Hd & Hi2 & Eoe).
    assert (oe = oe <| next_flush := next_flush oe |>) as Eid by (by destruct oe). rewrite <- Eid in Ef.
    rewrite give_log in Ef. exists oe2, (w ++ map record_of d). split; [exact Ef|]. pose proof (fd_same _ _ _ _ Hd) as Hsame. injection Hsame as _ Em _ _ _.
    eapply flush_progress; [exact Hp|exact Hlen|exact Hd|apply Hp|done|by eexists (fun _ => _), (fun _ => _)|].
    rewrite Eoe. right. change (In (max_timestamp oe1) (times all)). rewrite Em. by eapply max_in_times.
Qed.

Lemma final_progress oe w all early recent : progress oe w all early recent -> Z.of_nat (length all) < 2 ^ 31 ->
  exists oe', flush oe OE_FLUSH__FINAL w = Some (0, oe', sort_by time_of all) /\ events oe' = [].
Proof.
  intros Hp Hlen. unfold ordered_events__flush, __ordered_events__flush. pose proof (pr_sorted _ _ _ _ _ Hp) as Hs.
  destruct (Z.eqb_spec (nr_events oe) 0) as [E0|E0].
  - rewrite (nr_events_0 _ _ _ _ _ Hp Hlen E0), app_nil_r in Hs. exists oe. rewrite Hs. split; [done|].
    by eapply nr_events_0.
  - destruct (flush_from header_size log never (fun _ _ => eq_refl) (fun _ => eq_refl) oe ULLONG_MAX OE_FLUSH__FINAL w
      (pr_inv _ _ _ _ _ Hp)) as (d & oe1 & oe2 & Ef & Hd & _ & ->).
    pose proof (fd_events _ _ _ _ Hd) as Ee. cbn in Ee.
    assert (events oe1 = []) as E1.
    { destruct (fd_rest _ _ _ _ Hd) as [Hr|[? _]]; [|done]. destruct (events oe1) as [|x l]; [done|]. exfalso.
      inversion Hr as [|? ? Hx _]; subst. cbn in Hx. pose proof (pr_times _ _ _ _ _ Hp) as Ht. rewrite Forall_forall in Ht.
      specialize (Ht (record_of x)). change (time_of (record_of x)) with (timestamp x) in Ht. unfold ULLONG_MAX in Hx.
      assert (In (record_of x) all) as Hin; [|specialize (Ht Hin); lia].
      apply (Permutation_in _ (proj1 (proj2 (sort_by_ok time_of all)))). rewrite <- Hs, Ee. apply in_app_iff. right.
      apply in_map, in_app_iff. right. by left. }
    rewrite E1, app_nil_r in Ee. rewrite give_log, <- Ee, Hs in Ef. eexists. split; [exact Ef|done].
Qed.

Fixpoint rounds_ok (early recent : list Z) (rounds : list (list input)) : Prop :=
  match rounds with
  | [] => True
  | l :: rounds => (forall t x, In t early -> In x l -> t <= time_of (input_record x)) /\
      rounds_ok recent (recent ++ times (map input_record l)) rounds
  end.

Lemma passes_rounds_ok rounds : forall before, passes_ok (before ++ rounds) ->
  rounds_ok (times (map input_record (concat (removelast before)))) (times (map input_record (concat before))) rounds.
Proof.
  induction rounds as [|l rounds IH]; intros before Hp; cbn [rounds_ok]; [done|]. split.
  - intros t x Ht Hx. apply in_map_iff in Ht as (r & <- & Hr). apply in_map_iff in Hr as (i & <- & Hi).
    apply in_concat in Hi as (r & Hr & Hi). apply in_split in Hr as (b & a & Er).
    assert (exists m, before = b ++ r :: a ++ [m]) as (m & ->).
    { destruct before as [|m before _] using rev_ind; [by destruct b|]. rewrite removelast_last in Er. subst before.
      exists m. by rewrite <- (assoc_L (++)). }
    rewrite <- (assoc_L (++)) in Hp. cbn [app] in Hp. rewrite <- (assoc_L (++)) in Hp. cbn [app] in Hp.
    destruct a as [|m' a]; [apply (Hp b r m (l :: rounds) eq_refl i x Hi)|apply (Hp b r m' (a ++ m :: l :: rounds) eq_refl i x Hi)];
      apply in_concat; exists l; split; try done; [by left|apply in_app_iff; right; right; by left].
  - specialize (IH (before ++ [l])). rewrite removelast_last, concat_app, map_app in IH. cbn [concat] in IH.
    rewrite app_nil_r in IH. unfold times in *. rewrite map_app in IH. apply IH. by rewrite <- (assoc_L (++)).
Qed.

Lemma run_rounds_ok rounds : forall a oe w all early recent,
  progress oe w all early recent -> all_true a -> Z.of_nat (length all + length (concat rounds)) < 2 ^ 31 ->
  Forall time_ok (concat rounds) -> incl early recent -> recent = times all -> rounds_ok early recent rounds ->
  exists oe', run_rounds rounds a oe w = Some (oe', sort_by time_of (all ++ map input_record (concat rounds))) /\ events oe' = [].
Proof.
  induction rounds as [|l rounds IH]; intros a oe w all early recent Hp Ha Hlen Ht Hincl -> Hok; cbn [run_rounds].
  - destruct (final_progress oe w all early _ Hp) as (oe' & -> & En); [lia|]. exists oe'. cbn. by rewrite app_nil_r.
  - cbn [concat rounds_ok] in *. destruct Hok as [Hearly Hok]. rewrite length_app in Hlen. apply Forall_app in Ht as [Ht1 Ht2].
    destruct (queue_all_progress l a oe w all early (times all) Hp Ha ltac:(lia) Ht1 Hearly) as (oe1 & a1 & -> & Ha1 & Hp1). cbn [mbind option_bind].
    assert (length (all ++ map input_record l) = length all + length l)%nat as El by (by rewrite length_app, length_map).
    assert (times (all ++ map input_record l) = times all ++ times (map input_record l)) as Et by (unfold times; by rewrite map_app).
    destruct (round_progress oe1 w _ early (times all) Hp1) as (oe2 & w2 & -> & Hp2); [lia|done| |].
    { rewrite Et. apply incl_appl, incl_refl. }
    cbn [mbind option_bind Z.eqb]. rewrite map_app, (assoc_L (++)).
    eapply (IH a1 oe2 w2 _ (times all)); [exact Hp2|done|rewrite El; lia|done| |done|by rewrite Et].
    rewrite Et. apply incl_appl, incl_refl.
Qed.

Lemma init_progress data copy : progress (ordered_events__set_copy_on_queue (ordered_events__init zero_events data) copy) [] [] [] [].
Proof.
  split; try done; [| |by left].
  - destruct (oe_init_inv (E := E) data). by split.
  - split; cbn; try done. unfold dup_sizes. cbn. by destruct copy.
Qed.
End rounds.

(** C29: Whatever is queued and flushed in any order, and whichever allocations fail or
    limits are set, while each delivery succeeds and the session is not over, the list
    of ordered events stays well formed (sorted, with distinct objects, the last one
    queued on it, its length and latest time known), the code never goes astray, every
    call returns 0, -ETIME or -ENOMEM, and no event is lost or delivered twice: what
    has been delivered and what is on the list is just what was queued with success.
    (After a delivery that fails the list need not be well formed.) *)
Theorem ordered_events_kept `{Platform} {E : Type} (header_size : E -> Z) (data : option Z) (ops : list (oe_op (E := E))) (a : allocs) :
  exists errs oe delivered,
    run_ops header_size ops a (ordered_events__init zero_events data) [] = Some (errs, oe, delivered) /\ oe_inv oe /\
    length errs = length ops /\ Forall (fun err => In err [0; - ETIME; - ENOMEM]) errs /\
    delivered ++ map record_of (events oe) ≡ₚ accepted ops errs.
Proof.
  destruct (run_queue_ops_ok header_size ops a _ [] (oe_init_inv data)) as (errs & oe & w & Er & Hi & Hl & Herr & Hp).
  exists errs, oe, w. split_and!; try done. by rewrite app_nil_r in Hp.
Qed.

(** C13: Rounds come out sorted.  Let fewer than 2^31 events, with times other than 0
    and ~0 and headers below 2^16 bytes, be queued in passes, with a flush at the end
    of each pass, nothing in a pass earlier than an event of the pass before the last;
    let every allocation succeed, and every delivery, and the session not be over.  Then every call succeeds and
    the events delivered at the end are all the events queued, sorted by time, those
    of equal time in the order they were queued. *)
Theorem rounds_sorted `{Platform} {E : Type} (header_size : E -> Z) (data : option Z) (copy : bool) (a : allocs)
    (rounds : list (list (input (E := E)))) :
  (forall e, 0 <= header_size e < 2 ^ 16) -> all_true a -> Forall time_ok (concat rounds) ->
  Z.of_nat (length (concat rounds)) < 2 ^ 31 -> passes_ok rounds ->
  exists oe delivered,
    run_rounds header_size rounds a (ordered_events__set_copy_on_queue (ordered_events__init zero_events data) copy) []
      = Some (oe, delivered) /\
    events oe = [] /\ StronglySorted (fun r r' => time_of r <= time_of r') delivered /\
    delivered ≡ₚ map input_record (concat rounds) /\
    forall t, List.filter (fun r => time_of r =? t) delivered =
      List.filter (fun r => time_of r =? t) (map input_record (concat rounds)).
Proof.
  intros Hsize Ha Ht Hlen Hp.
  destruct (run_rounds_ok header_size Hsize rounds a _ [] [] [] [] (init_progress header_size data copy) Ha Hlen Ht)
    as (oe & Er & Ee); [apply incl_refl|done|by apply (passes_rounds_ok rounds [])|].
  exists oe. eexists. split; [exact Er|]. split; [done|]. cbn [app]. apply sort_by_ok.
Qed.

(** Two CPUs, three passes, events of equal time. *)
Definition example_rounds : list (list (input (E := Z))) :=
  [[(1, 0, None, 8); (3, 8, None, 8); (2, 16, None, 8)]; [(4, 24, None, 8); (3, 32, None, 8)]; [(5, 40, None, 8); (4, 48, None, 8)]].

Lemma rounds_sorted_witness : exists oe delivered,
  run_rounds (fun e => e mod 2 ^ 16) example_rounds (fun _ => true)
    (ordered_events__set_copy_on_queue (ordered_events__init zero_events None) true) [] = Some (oe, delivered) /\
  events oe = [] /\ StronglySorted (fun r r' => time_of r <= time_of r') delivered /\
  delivered ≡ₚ map input_record (concat example_rounds) /\
  forall t, List.filter (fun r => time_of r =? t) delivered =
    List.filter (fun r => time_of r =? t) (map input_record (concat example_rounds)).
Proof.
  apply (rounds_sorted (fun e => e mod 2 ^ 16) None true (fun _ => true) example_rounds).
  - intros e. by apply Z.mod_pos_bound.
  - by intros n.
  - by repeat constructor.
  - done.
  - intros before l mid after Er x y Hx Hy. destruct before as [|b1 [|b2 [|b3 [|b4 before]]]]; inversion Er; subst; clear Er; cbn in Hx, Hy;
      repeat destruct Hx as [<-|Hx]; repeat destruct Hy as [<-|Hy]; done.
Defined.
