(* ===== verification/ThreadStack.v ===== *)
(** The stack of calls of a thread, kept from its branches: tools/perf/util/
    thread-stack.c.  Here: the state, the stack of return addresses and the ring
    buffer of branches that [thread_stack__event] keeps for samples, and the
    samples taken from them.  A thread is never NULL here; a call path is known
    by its place (CallPath), a symbol and a comm by their address.  The call/
    return processor is one, its [process] a parameter, so a thread stack knows
    only whether it has it. *)
From Stdlib Require Import ZArith Lia List Bool String.
From S2P Require Import Prelude RbTree CallPath PtInsn.
Open Scope Z_scope.
Open Scope c_scope.
Import ListNotations.

(** ** A monad of state that can end in a bad access *)

Definition M (St A : Type) : Type := St -> option (A * St).
#[export] Instance M_ret {St} : MRet (M St) := fun A x s => Some (x, s).
#[export] Instance M_bind {St} : MBind (M St) := fun A B k m s =>
  match m s with Some (x, s) => k x s | None => None end.

Section monad.
Context {St : Type}.
Definition fault {A} : M St A := fun _ => None.
Definition gets {A} (f : St -> A) : M St A := fun s => Some (f s, s).
Definition modify (f : St -> St) : M St unit := fun s => Some (tt, f s).
Definition deref {A} (x : option A) : M St A := match x with Some x => mret x | None => fault end.
(** [if (err) return err;] *)
Definition on_ok (m k : M St Z) : M St Z := err ← m; if err =? 0 then k else mret err.
End monad.

(** ** State *)

Definition STACK_GROWTH : Z := 2048.

Inductive retpoline_state_t := RETPOLINE_NONE | X86_RETPOLINE_POSSIBLE | X86_RETPOLINE_DETECTED.
#[export] Instance retpoline_state_eq_dec : EqDecision retpoline_state_t.
Proof. solve_decision. Defined.

Record thread_stack_entry := mkTse {
  tse_ret_addr : Z;
  tse_timestamp : Z;
  tse_ref : Z;
  tse_branch_count : Z;
  tse_insn_count : Z;
  tse_cyc_count : Z;
  tse_db_id : Z;
  tse_cp : option nat;
  tse_no_call : bool;
  tse_trace_end : bool;
  tse_non_call : bool
}.
#[export] Instance eta_tse : Eta thread_stack_entry := fun e =>
  mkTse (tse_ret_addr e) (tse_timestamp e) (tse_ref e) (tse_branch_count e) (tse_insn_count e) (tse_cyc_count e)
    (tse_db_id e) (tse_cp e) (tse_no_call e) (tse_trace_end e) (tse_non_call e).
#[export] Instance set_tse_ret_addr : Setter tse_ret_addr := ltac:(solve_setter).
#[export] Instance set_tse_db_id : Setter tse_db_id := ltac:(solve_setter).
#[export] Instance set_tse_cp : Setter tse_cp := ltac:(solve_setter).
#[export] Instance set_tse_trace_end : Setter tse_trace_end := ltac:(solve_setter).
#[export] Instance set_tse_non_call : Setter tse_non_call := ltac:(solve_setter).

(** Of the flags of a branch those that are ever set. *)
Record branch_entry := mkBe {
  be_from : Z;
  be_to : Z;
  be_abort : bool;
  be_in_tx : bool;
  be_mispred : bool
}.
Record branch_stack := mkBs {
  bs_nr : Z;
  bs_entries : list branch_entry
}.
Definition zero_be : branch_entry := mkBe 0 0 false false false.

(** [ts_stack] is empty for NULL; [ts_crp] is whether it is not NULL. *)
Record thread_stack := mkTs {
  ts_stack : list thread_stack_entry;
  ts_cnt : Z;
  ts_sz : Z;
  ts_trace_nr : Z;
  ts_branch_count : Z;
  ts_insn_count : Z;
  ts_cyc_count : Z;
  ts_kernel_start : Z;
  ts_last_time : Z;
  ts_crp : bool;
  ts_comm : Z;
  ts_arr_sz : Z;
  ts_rstate : retpoline_state_t;
  ts_br_stack_rb : option branch_stack;
  ts_br_stack_sz : Z;
  ts_br_stack_pos : Z;
  ts_mispred_all : bool
}.
#[export] Instance eta_ts : Eta thread_stack := fun t =>
  mkTs (ts_stack t) (ts_cnt t) (ts_sz t) (ts_trace_nr t) (ts_branch_count t) (ts_insn_count t) (ts_cyc_count t)
    (ts_kernel_start t) (ts_last_time t) (ts_crp t) (ts_comm t) (ts_arr_sz t) (ts_rstate t) (ts_br_stack_rb t)
    (ts_br_stack_sz t) (ts_br_stack_pos t) (ts_mispred_all t).
#[export] Instance set_ts_stack : Setter ts_stack := ltac:(solve_setter).
#[export] Instance set_ts_cnt : Setter ts_cnt := ltac:(solve_setter).
#[export] Instance set_ts_sz : Setter ts_sz := ltac:(solve_setter).
#[export] Instance set_ts_trace_nr : Setter ts_trace_nr := ltac:(solve_setter).
#[export] Instance set_ts_branch_count : Setter ts_branch_count := ltac:(solve_setter).
#[export] Instance set_ts_insn_count : Setter ts_insn_count := ltac:(solve_setter).
#[export] Instance set_ts_cyc_count : Setter ts_cyc_count := ltac:(solve_setter).
#[export] Instance set_ts_kernel_start : Setter ts_kernel_start := ltac:(solve_setter).
#[export] Instance set_ts_last_time : Setter ts_last_time := ltac:(solve_setter).
#[export] Instance set_ts_crp : Setter ts_crp := ltac:(solve_setter).
#[export] Instance set_ts_comm : Setter ts_comm := ltac:(solve_setter).
#[export] Instance set_ts_arr_sz : Setter ts_arr_sz := ltac:(solve_setter).
#[export] Instance set_ts_rstate : Setter ts_rstate := ltac:(solve_setter).
#[export] Instance set_ts_br_stack_rb : Setter ts_br_stack_rb := ltac:(solve_setter).
#[export] Instance set_ts_br_stack_sz : Setter ts_br_stack_sz := ltac:(solve_setter).
#[export] Instance set_ts_br_stack_pos : Setter ts_br_stack_pos := ltac:(solve_setter).
#[export] Instance set_ts_mispred_all : Setter ts_mispred_all := ltac:(solve_setter).
Definition zero_ts : thread_stack :=
  mkTs [] 0 0 0 0 0 0 0 0 false 0 0 RETPOLINE_NONE None 0 0 false.

(** [perf_env__arch] and [machine__kernel_start] of a machine. *)
Record machine := mkMachine {
  m_arch : string;
  m_kernel_start : Z
}.
(** [th_machine] is [thread->maps->machine]; [th_ts] is the array [thread->ts],
    empty for NULL. *)
Record thread := mkThread {
  th_tid : Z;
  th_pid : Z;
  th_machine : option machine;
  th_ts : list thread_stack
}.
#[export] Instance eta_thread : Eta thread := fun t => mkThread (th_tid t) (th_pid t) (th_machine t) (th_ts t).
#[export] Instance set_th_ts : Setter th_ts := ltac:(solve_setter).

(** What the functions on one stack are given of the thread: [pid_] and [tid]. *)
Definition who (th : thread) : Z * Z := (th_pid th, th_tid th).

(** [struct call_return]; [cr_thread] stands for the pointer to the thread. *)
Record call_return := mkCr {
  cr_thread : Z * Z;
  cr_comm : Z;
  cr_cp : option nat;
  cr_call_time : Z;
  cr_return_time : Z;
  cr_branch_count : Z;
  cr_insn_count : Z;
  cr_cyc_count : Z;
  cr_call_ref : Z;
  cr_return_ref : Z;
  cr_db_id : Z;
  cr_flags : Z
}.
Definition CALL_RETURN_NO_CALL : Z := 1 .<< 0.
Definition CALL_RETURN_NO_RETURN : Z := 1 .<< 1.
Definition CALL_RETURN_NON_CALL : Z := 1 .<< 2.

(** The call paths of the call/return processor, the outcomes of allocations to
    come, and the data of the callback. *)
Record world (D : Type) := mkWorld {
  w_cpr : call_path_root;
  w_allocs : allocs;
  w_data : D
}.
Arguments mkWorld {D} _ _ _.
Arguments w_cpr {D} _.
Arguments w_allocs {D} _.
Arguments w_data {D} _.

Section thread_stack.
Context {D : Type}.
(** [crp->process]: the error, and what it leaves in the parent's db_id, which it
    is given unless the pointer is NULL. *)
Context (process : call_return -> option Z -> D -> Z * Z * D).
(** What realloc leaves in new entries. *)
Context (garbage : thread_stack_entry).

(** The state of a function on one thread stack, and on a thread. *)
Definition TS : Type := thread_stack * world D.
Definition TH : Type := thread * world D.

Definition the {A} (f : thread_stack -> A) : M TS A := gets (fun s => f s.1).
Definition update (f : thread_stack -> thread_stack) : M TS unit := modify (fun s => (f s.1, s.2)).
(** [ts->stack[i]] and its assignment. *)
Definition entry (i : Z) : M TS thread_stack_entry := stack ← the ts_stack; deref (idx stack i).
Definition set_entry (i : Z) (f : thread_stack_entry -> thread_stack_entry) : M TS unit :=
  e ← entry i;
  stack ← the ts_stack;
  stack ← deref (set_at stack i (f e));
  update (fun ts => ts <| ts_stack := stack |>).
(** Whether the next allocation succeeds. *)
Definition alloc {A} : M (A * world D) bool := fun '(s, w) =>
  Some (w_allocs w 0%nat, (s, mkWorld (w_cpr w) (next_allocs (w_allocs w)) (w_data w))).

(** A function on [thread->ts[pos]]. *)
Definition at_ts {A} (pos : Z) (m : M TS A) : M TH A := fun '(th, w) =>
  ts ← idx (th_ts th) pos;
  '(x, (ts, w)) ← m (ts, w);
  tss ← set_at (th_ts th) pos ts;
  Some (x, (th <| th_ts := tss |>, w)).

(** ** Memory *)

Definition thread_stack__per_cpu (th : thread) : bool := (th_tid th =? 0) && (th_pid th =? 0).

Definition thread_stack__grow : M TS Z :=
  sz ← the ts_sz;
  let new_sz := u64 (sz + STACK_GROWTH) in
  ok ← alloc;
  if negb ok then mret (- ENOMEM)
  else
    update (fun ts => ts <| ts_stack := ts_stack ts ++ replicate (Z.to_nat (new_sz - sz)) garbage |> <| ts_sz := new_sz |>);;
    mret 0.

Definition thread_stack__init (th : thread) (crp callstack : bool) (br_stack_sz : Z) : M TS Z :=
  on_ok (if callstack then thread_stack__grow else mret 0)
  (on_ok
    (if br_stack_sz =? 0 then mret 0
     else
       ok ← alloc;
       if negb ok then mret (- ENOMEM)
       else
         update (fun ts => ts <| ts_br_stack_rb := Some (mkBs 0 (replicate (Z.to_nat br_stack_sz) zero_be)) |>
           <| ts_br_stack_sz := br_stack_sz |>);;
         mret 0)
    (match th_machine th with
     | Some machine =>
       update (fun ts => ts <| ts_kernel_start := m_kernel_start machine |>);;
       if String.eqb (m_arch machine) "x86" then update (fun ts => ts <| ts_rstate := X86_RETPOLINE_POSSIBLE |>)
       else mret tt
     | None => update (fun ts => ts <| ts_kernel_start := 1 .<< 63 |>)
     end;;
     update (fun ts => ts <| ts_crp := crp |>);;
     mret 0)).

(** For [n] above 1: [fls_long(n - 1)] is one more than the place of the highest
    bit of [n - 1]. *)
Definition roundup_pow_of_two (n : Z) : Z := 1 .<< (Z.log2 (n - 1) + 1).

(** The array grows to [new_sz] elements; false when it cannot. *)
Definition grow_array (new_sz : Z) : M TH bool :=
  th ← gets fst;
  let old_sz := match th_ts th with ts :: _ => ts_arr_sz ts | [] => 0 end in
  if match th_ts th with [] => true | _ => old_sz <? new_sz end then
    ok ← alloc;
    if negb ok then mret false
    else
      (* memcpy of old_sz elements *)
      old ← deref (if old_sz <=? Z.of_nat (length (th_ts th)) then Some (take (Z.to_nat old_sz) (th_ts th)) else None);
      tss ← deref (set_at (old ++ replicate (Z.to_nat (new_sz - old_sz)) zero_ts) 0
                     (match old with ts :: _ => ts | [] => zero_ts end <| ts_arr_sz := new_sz |>));
      modify (fun s => (s.1 <| th_ts := tss |>, s.2));;
      mret true
  else mret true.

(** The position of the thread stack; NULL is [None]. *)
Definition thread_stack__new (cpu : Z) (crp callstack : bool) (br_stack_sz : Z) : M TH (option Z) :=
  th ← gets fst;
  ok ← grow_array (if thread_stack__per_cpu th && (0 <? cpu) then u32 (roundup_pow_of_two (cpu + 1)) else 1);
  if negb ok then mret None
  else
    arr_sz ← at_ts 0 (the ts_arr_sz);
    let pos := if thread_stack__per_cpu th && (0 <? cpu) && (cpu <? arr_sz) then cpu else 0 in
    stack ← at_ts pos (the ts_stack);
    match stack with
    | _ :: _ => mret (Some pos)
    | [] =>
      err ← at_ts pos (thread_stack__init th crp callstack br_stack_sz);
      mret (if negb (err =? 0) then None else Some pos)
    end.

Definition thread__cpu_stack (th : thread) (cpu : Z) : option (option Z) :=
  let cpu := if cpu <? 0 then 0 else cpu in
  match th_ts th with
  | [] => Some None
  | ts :: _ =>
    if ts_arr_sz ts <=? cpu then Some None
    else ts ← idx (th_ts th) cpu; Some (match ts_stack ts with [] => None | _ => Some cpu end)
  end.

Definition thread__stack (th : thread) (cpu : Z) : option (option Z) :=
  if thread_stack__per_cpu th then thread__cpu_stack th cpu
  else Some (match th_ts th with [] => None | _ => Some 0 end).

(** ** The stack *)

Definition thread_stack__push (ret_addr : Z) (trace_end : bool) : M TS Z :=
  cnt ← the ts_cnt;
  sz ← the ts_sz;
  err ← if cnt =? sz then
          err ← thread_stack__grow;
          if negb (err =? 0) then update (fun ts => ts <| ts_cnt := 0 |>);; mret err else mret err
        else mret 0;
  cnt ← the ts_cnt;
  set_entry cnt (fun e => e <| tse_trace_end := trace_end |> <| tse_ret_addr := ret_addr |>);;
  update (fun ts => ts <| ts_cnt ::= Z.add 1 |>);;
  mret err.

(** The loops run with [i] equal to [n]. *)
Fixpoint pop_loop (ret_addr : Z) (n : nat) : M TS unit :=
  match n with
  | O => mret tt
  | S n =>
    e ← entry (Z.of_nat n);
    if tse_ret_addr e =? ret_addr then update (fun ts => ts <| ts_cnt := Z.of_nat n |>) else pop_loop ret_addr n
  end.
Definition thread_stack__pop (ret_addr : Z) : M TS unit := cnt ← the ts_cnt; pop_loop ret_addr (Z.to_nat cnt).

Fixpoint pop_trace_end_loop (n : nat) : M TS unit :=
  match n with
  | O => mret tt
  | S n =>
    e ← entry (Z.of_nat n);
    if tse_trace_end e then update (fun ts => ts <| ts_cnt := Z.of_nat n |>);; pop_trace_end_loop n else mret tt
  end.
Definition thread_stack__pop_trace_end : M TS unit := cnt ← the ts_cnt; pop_trace_end_loop (Z.to_nat cnt).

(** [cp->...] *)
Definition call_path_at (cp : option nat) : M TS call_path :=
  cpr ← gets (fun s => w_cpr s.2);
  deref (n ← cp; cpr_paths cpr !! n).

Definition thread_stack__in_kernel : M TS bool :=
  cnt ← the ts_cnt;
  if cnt =? 0 then mret false
  else
    e ← entry (cnt - 1);
    cp ← call_path_at (tse_cp e);
    mret (cp_in_kernel cp).

Definition flag (b : bool) (f : Z) : Z := if b then f else 0.

Definition thread_stack__call_return (who : Z * Z) (i timestamp ref : Z) (no_return : bool) : M TS Z :=
  ts ← the (fun ts => ts);
  tse ← entry i;
  let cr := mkCr who (ts_comm ts) (tse_cp tse) (tse_timestamp tse) timestamp
    (u64 (ts_branch_count ts - tse_branch_count tse)) (u64 (ts_insn_count ts - tse_insn_count tse))
    (u64 (ts_cyc_count ts - tse_cyc_count tse)) (tse_ref tse) ref (tse_db_id tse)
    (flag (tse_no_call tse) CALL_RETURN_NO_CALL .| flag no_return CALL_RETURN_NO_RETURN
     .| flag (tse_non_call tse) CALL_RETURN_NON_CALL) in
  parent_db_id ← if i =? 0 then mret None else e ← entry (i - 1); mret (Some (tse_db_id e));
  w ← gets snd;
  let '(err, db_id, d) := process cr parent_db_id (w_data w) in
  (if i =? 0 then mret tt else set_entry (i - 1) (fun e => e <| tse_db_id := db_id |>));;
  modify (fun s => (s.1, mkWorld (w_cpr s.2) (w_allocs s.2) d));;
  mret err.

(** [--ts->cnt] and the record of that entry. *)
Definition return_top (who : Z * Z) (timestamp ref : Z) (no_return : bool) : M TS Z :=
  update (fun ts => ts <| ts_cnt ::= fun cnt => cnt - 1 |>);;
  cnt ← the ts_cnt;
  thread_stack__call_return who cnt timestamp ref no_return.

(** [n] is [ts->cnt]. *)
Fixpoint flush_loop (who : Z * Z) (n : nat) : M TS Z :=
  match n with
  | O => mret 0
  | S n =>
    last_time ← the ts_last_time;
    err ← return_top who last_time 0 true;
    if negb (err =? 0) then update (fun ts => ts <| ts_cnt := 0 |>);; mret err
    else flush_loop who n
  end.
Definition __thread_stack__flush (who : Z * Z) : M TS Z :=
  crp ← the ts_crp;
  if negb crp then
    update (fun ts => ts <| ts_cnt := 0 |> <| ts_br_stack_pos := 0 |>
      <| ts_br_stack_rb ::= fmap (fun bs => mkBs 0 (bs_entries bs)) |>);;
    mret 0
  else cnt ← the ts_cnt; flush_loop who (Z.to_nat cnt).

(** [n] positions are left. *)
Fixpoint thread_stack__flush_loop (n : nat) (pos err : Z) : M TH Z :=
  match n with
  | O => mret err
  | S n =>
    th ← gets fst;
    ret ← at_ts pos (__thread_stack__flush (who th));
    thread_stack__flush_loop n (pos + 1) (if negb (ret =? 0) then ret else err)
  end.
Definition thread_stack__flush : M TH Z :=
  th ← gets fst;
  match th_ts th with
  | [] => mret 0
  | ts :: _ => thread_stack__flush_loop (Z.to_nat (ts_arr_sz ts)) 0 0
  end.

(** ** Events *)

Definition has (flags f : Z) : bool := negb (flags .& f =? 0).

Definition thread_stack__update_br_stack (flags from_ip to_ip : Z) : M TS unit :=
  bs ← the ts_br_stack_rb;
  bs ← deref bs;
  pos ← the ts_br_stack_pos;
  br_stack_sz ← the ts_br_stack_sz;
  mispred_all ← the ts_mispred_all;
  let pos := u32 ((if pos =? 0 then br_stack_sz else pos) - 1) in
  entries ← deref (set_at (bs_entries bs) pos
    (mkBe from_ip to_ip (has flags PERF_IP_FLAG_TX_ABORT) (has flags PERF_IP_FLAG_IN_TX) mispred_all));
  update (fun ts => ts <| ts_br_stack_pos := pos |>
    <| ts_br_stack_rb := Some (mkBs (if bs_nr bs <? br_stack_sz then bs_nr bs + 1 else bs_nr bs) entries) |>).

(** The trace number of an event. *)
Definition check_trace_nr (who : Z * Z) (trace_nr : Z) : M TS unit :=
  nr ← the ts_trace_nr;
  if trace_nr =? nr then mret tt
  else
    (if nr =? 0 then mret 0 else __thread_stack__flush who);;
    update (fun ts => ts <| ts_trace_nr := trace_nr |>).

(** The rest of [thread_stack__event], on its thread stack. *)
Definition event_on_stack (who : Z * Z) (flags from_ip to_ip insn_len trace_nr : Z) (callstack : bool) (br_stack_sz : Z)
    : M TS Z :=
  check_trace_nr who trace_nr;;
  (if br_stack_sz =? 0 then mret tt else thread_stack__update_br_stack flags from_ip to_ip);;
  crp ← the ts_crp;
  if crp || negb callstack then mret 0
  else if has flags PERF_IP_FLAG_CALL then
    if to_ip =? 0 then mret 0
    else
      let ret_addr := u64 (from_ip + insn_len) in
      if ret_addr =? to_ip then mret 0
      else thread_stack__push ret_addr (has flags PERF_IP_FLAG_TRACE_END)
  else if has flags PERF_IP_FLAG_TRACE_BEGIN then
    thread_stack__pop to_ip;; thread_stack__pop_trace_end;; mret 0
  else if has flags PERF_IP_FLAG_RETURN && negb (from_ip =? 0) then thread_stack__pop to_ip;; mret 0
  else mret 0.

Definition thread_stack__event (cpu flags from_ip to_ip insn_len trace_nr : Z) (callstack : bool) (br_stack_sz : Z)
    (mispred_all : bool) : M TH Z :=
  th ← gets fst;
  ts ← deref (thread__stack th cpu);
  match ts with
  | Some pos => at_ts pos (event_on_stack (who th) flags from_ip to_ip insn_len trace_nr callstack br_stack_sz)
  | None =>
    ts ← thread_stack__new cpu false callstack br_stack_sz;
    match ts with
    | None => mret (- ENOMEM)
    | Some pos =>
      at_ts pos (update (fun ts => ts <| ts_trace_nr := trace_nr |> <| ts_mispred_all := mispred_all |>));;
      at_ts pos (event_on_stack (who th) flags from_ip to_ip insn_len trace_nr callstack br_stack_sz)
    end
  end.

Definition thread_stack__set_trace_nr (cpu trace_nr : Z) : M TH unit :=
  th ← gets fst;
  ts ← deref (thread__stack th cpu);
  match ts with
  | None => mret tt
  | Some pos => at_ts pos (check_trace_nr (who th) trace_nr)
  end.

Definition __thread_stack__free (who : Z * Z) : M TS unit :=
  __thread_stack__flush who;;
  update (fun ts => ts <| ts_stack := [] |> <| ts_br_stack_rb := None |>).

Definition thread_stack__reset (who : Z * Z) : M TS unit :=
  arr_sz ← the ts_arr_sz;
  __thread_stack__free who;;
  update (fun _ => zero_ts <| ts_arr_sz := arr_sz |>).

Fixpoint thread_stack__free_loop (n : nat) (pos : Z) : M TH unit :=
  match n with
  | O => mret tt
  | S n => th ← gets fst; at_ts pos (__thread_stack__free (who th));; thread_stack__free_loop n (pos + 1)
  end.
Definition thread_stack__free : M TH unit :=
  th ← gets fst;
  match th_ts th with
  | [] => mret tt
  | ts :: _ => thread_stack__free_loop (Z.to_nat (ts_arr_sz ts)) 0;; modify (fun s => (s.1 <| th_ts := [] |>, s.2))
  end.

Definition thread_stack__depth (th : thread) (cpu : Z) : option Z :=
  ts ← thread__stack th cpu;
  match ts with
  | None => Some 0
  | Some pos => ts ← idx (th_ts th) pos; Some (ts_cnt ts)
  end.
End thread_stack.
