(* ===== verification/ThreadSample.v ===== *)
(** Samples of a thread stack: the call chains and branch stacks that
    tools/perf/util/thread-stack.c makes for synthesised samples.  The caller's
    array is the list in the structure, which keeps its length; [None] is a bad
    access.  None of these functions changes the thread stack. *)
From Stdlib Require Import ZArith Lia List Bool.
From S2P Require Import Prelude ThreadStack.
Open Scope Z_scope.
Open Scope c_scope.
Import ListNotations.

Definition PERF_CONTEXT_KERNEL : Z := u64 (-128).
Definition PERF_CONTEXT_USER : Z := u64 (-512).

Record ip_callchain := mkChain {
  chain_nr : Z;
  chain_ips : list Z
}.

Definition callchain_context (ip kernel_start : Z) : Z :=
  if ip <? kernel_start then PERF_CONTEXT_USER else PERF_CONTEXT_KERNEL.

(** The thread stack, if any. *)
Definition stack_of (th : thread) (cpu : Z) : option (option thread_stack) :=
  ts ← thread__stack th cpu;
  match ts with
  | None => Some None
  | Some pos => ts ← idx (th_ts th) pos; Some (Some ts)
  end.

(** The loop of [thread_stack__sample]: [i] ips are there, and [n] entries are
    left, [ts->cnt + 1 - j].  The result is [i] after the loop. *)
Fixpoint sample_loop (stack : list thread_stack_entry) (sz kernel_start : Z) (n : nat) (ips : list Z) (i last_context : Z)
    : option (Z * list Z) :=
  match n with
  | O => Some (i, ips)
  | S n =>
    if sz <=? i then Some (i, ips)
    else
      e ← idx stack (Z.of_nat n);
      let ip := tse_ret_addr e in
      let context := callchain_context ip kernel_start in
      if negb (context =? last_context) then
        if sz - 1 <=? i then Some (i, ips)
        else
          ips ← set_at ips i context;
          ips ← set_at ips (i + 1) ip;
          sample_loop stack sz kernel_start n ips (i + 2) context
      else ips ← set_at ips i ip; sample_loop stack sz kernel_start n ips (i + 1) last_context
  end.

Definition thread_stack__sample (th : thread) (cpu : Z) (chain : ip_callchain) (sz ip kernel_start : Z)
    : option ip_callchain :=
  ts ← stack_of th cpu;
  let context := callchain_context ip kernel_start in
  if sz <? 2 then Some (mkChain 0 (chain_ips chain))
  else
    ips ← set_at (chain_ips chain) 0 context;
    ips ← set_at ips 1 ip;
    match ts with
    | None => Some (mkChain 2 ips)
    | Some ts =>
      '(nr, ips) ← sample_loop (ts_stack ts) sz kernel_start (Z.to_nat (ts_cnt ts)) ips 2 context;
      Some (mkChain nr ips)
    end.

(** The entries below those of the kernel made after the sample. *)
Fixpoint skip_kernel (stack : list thread_stack_entry) (sample_ip kernel_start : Z) (n : nat) : option nat :=
  match n with
  | O => Some O
  | S m =>
    e ← idx stack (Z.of_nat m);
    let context := callchain_context (tse_ret_addr e) kernel_start in
    if (context =? PERF_CONTEXT_USER)
       || ((context =? callchain_context sample_ip kernel_start) && (tse_ret_addr e =? sample_ip))
    then Some n
    else skip_kernel stack sample_ip kernel_start m
  end.

(** Its second loop is the loop of [thread_stack__sample], from no ips on. *)
Definition thread_stack__sample_late (th : thread) (cpu : Z) (chain : ip_callchain) (sz sample_ip kernel_start : Z)
    : option ip_callchain :=
  ts ← stack_of th cpu;
  if sz <? 2 then Some (mkChain 0 (chain_ips chain))
  else
    '(nr, ips) ←
      match ts with
      | None => Some (0, chain_ips chain)
      | Some ts =>
        n ← skip_kernel (ts_stack ts) sample_ip kernel_start (Z.to_nat (ts_cnt ts));
        sample_loop (ts_stack ts) sz kernel_start n (chain_ips chain) 0 sample_ip
      end;
    if negb (nr =? 0) then Some (mkChain nr ips)
    else
      ips ← set_at ips 0 (callchain_context sample_ip kernel_start);
      ips ← set_at ips 1 sample_ip;
      Some (mkChain 2 ips).

(** ** Branches *)

(** [memcpy(&dst[to], &src[from], nr * sizeof(src[0]))]. *)
Definition memcpy_at {A} (dst : list A) (to : Z) (src : list A) (from nr : Z) : option (list A) :=
  if (0 <=? to) && (to + nr <=? Z.of_nat (length dst)) && (0 <=? from) && (from + nr <=? Z.of_nat (length src)) then
    Some (take (Z.to_nat to) dst ++ take (Z.to_nat nr) (drop (Z.to_nat from) src) ++ drop (Z.to_nat (to + nr)) dst)
  else None.

(** The ring buffer; [None] within is a thread stack without branches. *)
Definition branches_of (ts : option thread_stack) : option (option (thread_stack * branch_stack)) :=
  match ts with
  | None => Some None
  | Some ts =>
    src ← ts_br_stack_rb ts;
    Some (if bs_nr src =? 0 then None else Some (ts, src))
  end.

Definition thread_stack__br_sample (th : thread) (cpu : Z) (dst : branch_stack) (sz : Z) : option branch_stack :=
  ts ← stack_of th cpu;
  src ← branches_of ts;
  match src with
  | None => Some (mkBs 0 (bs_entries dst))
  | Some (ts, src) =>
    let dst_nr := Z.min (u32 (bs_nr src)) sz in
    let pos := ts_br_stack_pos ts in
    let nr := Z.min (u32 (ts_br_stack_sz ts - pos)) dst_nr in
    entries ← memcpy_at (bs_entries dst) 0 (bs_entries src) pos nr;
    if ts_br_stack_sz ts <=? bs_nr src then
      entries ← memcpy_at entries nr (bs_entries src) 0 pos;
      Some (mkBs dst_nr entries)
    else Some (mkBs dst_nr entries)
  end.

Definition us_start (be : branch_entry) (kernel_start : Z) (start : bool) : bool :=
  if negb start then negb (be_to be =? 0) && (be_to be <? kernel_start) else start.

Definition ks_start (be : branch_entry) (sample_ip kernel_start : Z) (start : bool) (nb : option branch_entry) : bool :=
  if negb start then
    match nb with Some nb => (be_to be <=? sample_ip) && (sample_ip <=? be_from nb) | None => false end
    || (be_from be <? kernel_start) || (negb (be_to be =? 0) && (be_to be <? kernel_start))
  else start.

(** One of the loops: [n] entries from [s] on, of which those from the first one
    that [starts] on are stored. *)
Fixpoint late_loop (starts : branch_entry -> bool -> option branch_entry -> bool) (src : list branch_entry) (sz : Z) (n : nat)
    (s : Z) (entries : list branch_entry) (nr : Z) (start : bool) (nb : option branch_entry)
    : option (list branch_entry * Z * bool * option branch_entry) :=
  match n with
  | O => Some (entries, nr, start, nb)
  | S n =>
    if sz <=? nr then Some (entries, nr, start, nb)
    else
      be ← idx src s;
      if starts be start nb then
        entries ← set_at entries nr be;
        late_loop starts src sz n (s + 1) entries (nr + 1) true (Some be)
      else late_loop starts src sz n (s + 1) entries nr false (Some be)
  end.

Definition thread_stack__br_sample_late (th : thread) (cpu : Z) (dst : branch_stack) (sz ip kernel_start : Z)
    : option branch_stack :=
  ts ← stack_of th cpu;
  src ← branches_of ts;
  match src with
  | None => Some (mkBs 0 (bs_entries dst))
  | Some (ts, src) =>
    let pos := ts_br_stack_pos ts in
    let starts (be : branch_entry) (start : bool) (nb : option branch_entry) :=
      if ip <? kernel_start then us_start be kernel_start start else ks_start be ip kernel_start start nb in
    '(entries, nr, start, nb) ←
      late_loop starts (bs_entries src) sz (Z.to_nat (ts_br_stack_sz ts - pos)) pos (bs_entries dst) 0 false None;
    if ts_br_stack_sz ts <=? bs_nr src then
      '(entries, nr, _, _) ← late_loop starts (bs_entries src) sz (Z.to_nat pos) 0 entries nr start nb;
      Some (mkBs nr entries)
    else Some (mkBs nr entries)
  end.
