(* ===== verification/ThreadCalls.v ===== *)
(** Calls and returns of a thread: [thread_stack__process] of
    tools/perf/util/thread-stack.c and what it is made of.  Each entry of the
    stack has its call path, and what leaves the stack goes to the callback of
    the call/return processor. *)
From Stdlib Require Import ZArith Lia List Bool String.
From S2P Require Import Prelude RbTree CallPath PtInsn ThreadStack.
Open Scope Z_scope.
Open Scope c_scope.
Import ListNotations.

(** What is used of [struct perf_sample] and [struct addr_location]. *)
Record perf_sample := mkSample {
  s_ip : Z;
  s_addr : Z;
  s_time : Z;
  s_cpu : Z;
  s_insn_len : Z;
  s_insn_cnt : Z;
  s_cyc_cnt : Z;
  s_flags : Z
}.
Record addr_location := mkAl {
  al_sym : Z;
  al_addr : Z
}.

(** [symbol->start] and [symbol->name]. *)
Class Symbols := {
  sym_start : Z -> Z;
  sym_name : Z -> string
}.

Section calls.
Context {D : Type} (process : call_return -> option Z -> D -> Z * Z * D) (garbage : thread_stack_entry) `{Symbols}.
Abbreviation TS := (@TS D).
Abbreviation TH := (@TH D).
Abbreviation return_top := (return_top process).
Abbreviation thread_stack__grow := (@thread_stack__grow D garbage).

Definition find_call_path (parent : option nat) (sym ip ks : Z) : M TS (option nat) := fun '(ts, w) =>
  '(cp, cpr, a) ← call_path__findnew (w_allocs w) (w_cpr w) parent sym ip ks;
  Some (cp, (ts, mkWorld cpr a (w_data w))).
(** [&cpr->call_path] *)
Definition root : option nat := Some 0%nat.

Definition top_entry : M TS thread_stack_entry := cnt ← the ts_cnt; entry (cnt - 1).

Definition thread_stack__push_cp (ret_addr timestamp ref : Z) (cp : option nat) (no_call trace_end : bool) : M TS Z :=
  match cp with
  | None => mret (- ENOMEM)
  | Some _ =>
    ts ← the (fun ts => ts);
    on_ok (if ts_cnt ts =? ts_sz ts then thread_stack__grow else mret 0)
      (set_entry (ts_cnt ts) (fun _ =>
         mkTse ret_addr timestamp ref (ts_branch_count ts) (ts_insn_count ts) (ts_cyc_count ts) 0 cp no_call trace_end false);;
       update (fun ts => ts <| ts_cnt ::= Z.add 1 |>);;
       mret 0)
  end.

(** Down to [n] entries; [k] is how many to go. *)
Fixpoint return_loop (who : Z * Z) (timestamp ref : Z) (k : nat) : M TS Z :=
  match k with
  | O => mret 0
  | S k => on_ok (return_top who timestamp ref true) (return_loop who timestamp ref k)
  end.

(** The entry with this return address among the first [n]. *)
Fixpoint find_return (ret_addr : Z) (n : nat) : M TS (option nat) :=
  match n with
  | O => mret None
  | S n =>
    e ← entry (Z.of_nat n);
    if negb (tse_ret_addr e =? ret_addr) || tse_non_call e then find_return ret_addr n else mret (Some n)
  end.

(** The bottom of the stack, if the return is from its symbol; [None] when not. *)
Definition pop_bottom (who : Z * Z) (timestamp ref sym : Z) : M TS (option Z) :=
  cnt ← the ts_cnt;
  if cnt =? 1 then
    e ← entry 0;
    cp ← call_path_at (tse_cp e);
    if cp_sym cp =? sym then err ← return_top who timestamp ref false; mret (Some err) else mret None
  else mret None.

Definition thread_stack__pop_cp (who : Z * Z) (ret_addr timestamp ref sym : Z) : M TS Z :=
  cnt ← the ts_cnt;
  if cnt =? 0 then mret 1
  else
    r ← pop_bottom who timestamp ref sym;
    match r with
    | Some err => mret err
    | None =>
      e ← entry (cnt - 1);
      if (tse_ret_addr e =? ret_addr) && negb (tse_non_call e) then return_top who timestamp ref false
      else
        i ← find_return ret_addr (Z.to_nat (cnt - 1));
        match i with
        | None => mret 1
        | Some i =>
          on_ok (return_loop who timestamp ref (Z.to_nat cnt - (i + 1))) (return_top who timestamp ref false)
        end
    end.

Definition thread_stack__bottom (sample : perf_sample) (from_al to_al : addr_location) (ref : Z) : M TS Z :=
  let push (ip sym : Z) :=
    ks ← the ts_kernel_start;
    cp ← find_call_path root sym ip ks;
    thread_stack__push_cp ip (s_time sample) ref cp true false in
  if negb (s_ip sample =? 0) then push (s_ip sample) (al_sym from_al)
  else if negb (s_addr sample =? 0) then push (s_addr sample) (al_sym to_al)
  else mret 0.

(** [n] is [ts->cnt]. *)
Fixpoint pop_ks_loop (who : Z * Z) (tm ref : Z) (n : nat) : M TS Z :=
  in_kernel ← thread_stack__in_kernel;
  match in_kernel, n with
  | true, S n => on_ok (return_top who tm ref true) (pop_ks_loop who tm ref n)
  | _, _ => mret 0
  end.
Definition thread_stack__pop_ks (who : Z * Z) (sample : perf_sample) (ref : Z) : M TS Z :=
  cnt ← the ts_cnt;
  pop_ks_loop who (s_time sample) ref (Z.to_nat cnt).

Definition set_top (f : thread_stack_entry -> thread_stack_entry) : M TS unit :=
  cnt ← the ts_cnt; set_entry (cnt - 1) f.

(** The end of [thread_stack__no_call_return], when the stack is fit for it.
    First, the return is from the symbol of [parent]. *)
Definition push_target (who : Z * Z) (sample : perf_sample) (to_al : addr_location) (ref : Z) (parent : option nat) : M TS Z :=
  let tsym := al_sym to_al in
  let addr := s_addr sample in
  let tm := s_time sample in
  ks ← the ts_kernel_start;
  cnt ← the ts_cnt;
  on_ok (if cnt =? 1 then return_top who tm ref false else mret 0)
  (cnt ← the ts_cnt;
   if cnt =? 0 then
     cp ← find_call_path root tsym addr ks;
     thread_stack__push_cp addr tm ref cp true false
   else
     cp ← find_call_path parent tsym addr ks;
     on_ok (thread_stack__push_cp 0 tm ref cp true false)
       (set_top (fun e => e <| tse_non_call := true |>);; mret 0)).

(** Second, [parent] has not returned yet. *)
Definition push_and_pop_source (who : Z * Z) (sample : perf_sample) (from_al to_al : addr_location) (ref : Z) (parent : option nat) : M TS Z :=
  let tm := s_time sample in
  ks ← the ts_kernel_start;
  cp ← find_call_path parent (al_sym to_al) (s_addr sample) ks;
  on_ok (thread_stack__push_cp (s_addr sample) tm ref cp true false)
  (cp ← find_call_path cp (al_sym from_al) (s_ip sample) ks;
   on_ok (thread_stack__push_cp (s_ip sample) tm ref cp true false)
     (return_top who tm ref false)).

Definition push_missing (who : Z * Z) (sample : perf_sample) (from_al to_al : addr_location) (ref : Z) : M TS Z :=
  cnt ← the ts_cnt;
  parent ← if negb (cnt =? 0) then e ← top_entry; mret (tse_cp e) else mret root;
  par ← call_path_at parent;
  if cp_sym par =? al_sym from_al then push_target who sample to_al ref parent
  else push_and_pop_source who sample from_al to_al ref parent.

Definition thread_stack__no_call_return (who : Z * Z) (sample : perf_sample) (from_al to_al : addr_location) (ref : Z) : M TS Z :=
  let ip := s_ip sample in
  let addr := s_addr sample in
  ks ← the ts_kernel_start;
  if (ks <=? ip) && (addr <? ks) then
    on_ok (thread_stack__pop_ks who sample ref)
    (cnt ← the ts_cnt;
     if cnt =? 0 then
       cp ← find_call_path root (al_sym to_al) addr ks;
       thread_stack__push_cp 0 (s_time sample) ref cp true false
     else push_missing who sample from_al to_al ref)
  else
    in_kernel ← thread_stack__in_kernel;
    on_ok (if in_kernel && (ip <? ks) then thread_stack__pop_ks who sample ref else mret 0)
      (push_missing who sample from_al to_al ref).

Definition thread_stack__trace_begin (who : Z * Z) (timestamp ref : Z) : M TS Z :=
  cnt ← the ts_cnt;
  if cnt =? 0 then mret 0
  else
    e ← top_entry;
    if tse_trace_end e then return_top who timestamp ref false else mret 0.

Definition thread_stack__trace_end (sample : perf_sample) (ref : Z) : M TS Z :=
  cnt ← the ts_cnt;
  stop ← (if cnt =? 0 then mret true
          else if cnt =? 1 then e ← entry 0; mret (tse_ref e =? ref) else mret false);
  if (stop : bool) then mret 0
  else
    e ← top_entry;
    ks ← the ts_kernel_start;
    cp ← find_call_path (tse_cp e) 0 0 ks;
    thread_stack__push_cp (u64 (s_ip sample + s_insn_len sample)) (s_time sample) ref cp false true.

Definition is_x86_retpoline (name : string) : bool :=
  match String.index 0 "__x86_indirect_thunk_" name with
  | Some O => true
  | _ => String.eqb name "__indirect_thunk_start"
  end.

Definition drop_top : M TS unit := update (fun ts => ts <| ts_cnt ::= fun cnt => cnt - 1 |>).

Definition thread_stack__x86_retpoline (sample : perf_sample) (to_al : addr_location) : M TS Z :=
  let tsym := al_sym to_al in
  let below : M TS (option nat) := cnt ← the ts_cnt; e ← entry (cnt - 2); mret (tse_cp e) in
  tse ← top_entry;
  cp ← call_path_at (tse_cp tse);
  let sym := cp_sym cp in
  forget ←
    if negb (sym =? 0) && is_x86_retpoline (sym_name sym) then
      drop_top;;
      cp ← below;
      cp ← call_path_at cp;
      mret (negb (cp_sym cp =? 0) && (cp_sym cp =? tsym) && negb (al_addr to_al =? sym_start tsym))
    else mret (negb (sym =? 0) && (sym =? tsym));
  if (forget : bool) then drop_top;; mret 0
  else
    parent ← below;
    ks ← the ts_kernel_start;
    cp ← find_call_path parent tsym (s_addr sample) ks;
    match cp with
    | None => mret (- ENOMEM)
    | Some _ => set_top (fun e => e <| tse_cp := cp |>);; mret 0
    end.

(** The handling of the flags of a sample. *)
Definition process_branch (who : Z * Z) (rstate : retpoline_state_t) (sample : perf_sample)
    (from_al to_al : addr_location) (ref : Z) : M TS Z :=
  let flags := s_flags sample in
  let ip := s_ip sample in
  let addr := s_addr sample in
  let push_call (ret_addr : Z) (trace_end : bool) :=
    e ← top_entry;
    ks ← the ts_kernel_start;
    cp ← find_call_path (tse_cp e) (al_sym to_al) addr ks;
    thread_stack__push_cp ret_addr (s_time sample) ref cp false trace_end in
  if has flags PERF_IP_FLAG_CALL then
    if (ip =? 0) || (addr =? 0) then mret 0
    else
      let ret_addr := u64 (ip + s_insn_len sample) in
      if ret_addr =? addr then mret 0
      else
        on_ok (push_call ret_addr (has flags PERF_IP_FLAG_TRACE_END))
          ((if bool_decide (rstate = X86_RETPOLINE_POSSIBLE) && negb (al_sym to_al =? 0)
               && (al_sym from_al =? al_sym to_al) && negb (al_addr to_al =? sym_start (al_sym to_al))
            then update (fun ts => ts <| ts_rstate := X86_RETPOLINE_DETECTED |>) else mret tt);;
           mret 0)
  else if has flags PERF_IP_FLAG_RETURN then
    if addr =? 0 then
      if negb (has flags (PERF_IP_FLAG_SYSCALLRET .| PERF_IP_FLAG_INTERRUPT)) then mret 0
      else thread_stack__pop_ks who sample ref
    else if ip =? 0 then mret 0
    else
      cnt ← the ts_cnt;
      detour ← if bool_decide (rstate = X86_RETPOLINE_DETECTED) && (2 <? cnt)
               then e ← top_entry; mret (negb (tse_ret_addr e =? addr)) else mret false;
      if (detour : bool) then thread_stack__x86_retpoline sample to_al
      else
        err ← thread_stack__pop_cp who addr (s_time sample) ref (al_sym from_al);
        if err =? 0 then mret 0
        else if err <? 0 then mret err
        else thread_stack__no_call_return who sample from_al to_al ref
  else if has flags PERF_IP_FLAG_TRACE_BEGIN then thread_stack__trace_begin who (s_time sample) ref
  else if has flags PERF_IP_FLAG_TRACE_END then thread_stack__trace_end sample ref
  else if has flags PERF_IP_FLAG_BRANCH && negb (al_sym from_al =? al_sym to_al) && negb (al_sym to_al =? 0)
          && (al_addr to_al =? sym_start (al_sym to_al)) then
    on_ok (push_call 0 false) (set_top (fun e => e <| tse_non_call := true |>);; mret 0)
  else mret 0.

(** [thread_stack__process] in three parts, the last first.  The counts of the
    sample are added, and its flags handled. *)
Definition count_sample (sample : perf_sample) (ts : thread_stack) : thread_stack :=
  ts <| ts_branch_count ::= fun n => u64 (n + 1) |>
     <| ts_insn_count ::= fun n => u64 (n + s_insn_cnt sample) |>
     <| ts_cyc_count ::= fun n => u64 (n + s_cyc_cnt sample) |>
     <| ts_last_time := s_time sample |>.
Definition process_from_bottom (who : Z * Z) (rstate : retpoline_state_t) (sample : perf_sample)
    (from_al to_al : addr_location) (ref : Z) : M TS Z :=
  cnt ← the ts_cnt;
  on_ok (if cnt =? 0 then thread_stack__bottom sample from_al to_al ref else mret 0)
    (update (count_sample sample);; process_branch who rstate sample from_al to_al ref).

(** A new comm, after exec. *)
Definition flush_on_exec (who : Z * Z) (comm : Z) : M TS Z :=
  ts_comm ← the ts_comm;
  if negb (ts_comm =? comm) && (who.1 =? who.2) then
    on_ok (__thread_stack__flush process who) (update (fun ts => ts <| ThreadStack.ts_comm := comm |>);; mret 0)
  else mret 0.

Definition process_on_stack (who : Z * Z) (comm : Z) (sample : perf_sample) (from_al to_al : addr_location) (ref : Z) : M TS Z :=
  rstate ← the ts_rstate;
  (if bool_decide (rstate = X86_RETPOLINE_DETECTED) then update (fun ts => ts <| ts_rstate := X86_RETPOLINE_POSSIBLE |>)
   else mret tt);;
  on_ok (flush_on_exec who comm) (process_from_bottom who rstate sample from_al to_al ref).

(** The stack of calls of the thread on this CPU, a new one if need be. *)
Definition new_call_stack (comm cpu : Z) : M TH (option Z) :=
  ts ← thread_stack__new garbage cpu true true 0;
  match ts with
  | Some pos => at_ts pos (update (fun ts => ts <| ts_comm := comm |>));; mret (Some pos)
  | None => mret None
  end.
Definition call_stack (comm cpu : Z) : M TH (option Z) :=
  th ← gets fst;
  ts ← deref (thread__stack th cpu);
  match ts with
  | Some pos =>
    crp ← at_ts pos (the ts_crp);
    (* Supersede thread_stack__event() *)
    if negb crp then at_ts pos (thread_stack__reset process (who th));; new_call_stack comm cpu else mret (Some pos)
  | None => new_call_stack comm cpu
  end.

Definition thread_stack__process (comm : Z) (sample : perf_sample) (from_al to_al : addr_location) (ref : Z) : M TH Z :=
  ts ← call_stack comm (s32 (s_cpu sample));
  match ts with
  | None => mret (- ENOMEM)
  | Some pos => th ← gets fst; at_ts pos (process_on_stack (who th) comm sample from_al to_al ref)
  end.

Definition call_return_processor__new (alloc_crp alloc_root : bool) : option call_path_root :=
  if alloc_crp then call_path_root__new alloc_root else None.
End calls.
