(* ===== verification/ThreadSafe.v ===== *)
(** What each step of the stack of calls does: a weakest precondition for the
    monad of ThreadStack, the invariant of a thread stack in the hands of
    [thread_stack__process], and one lemma per operation, which says that it makes
    no bad access and what it does to the entries in use. *)
From Stdlib Require Import ZArith Lia List Bool String.
From S2P Require Import Prelude RbTree CallPath CallPathTheorems PtInsn ThreadStack ThreadCalls.
Open Scope Z_scope.
Open Scope c_scope.
Import ListNotations.

(** ** Weakest preconditions *)

Definition wp {St A} (m : M St A) (Q : A -> St -> Prop) (s : St) : Prop :=
  match m s with Some (x, s') => Q x s' | None => False end.

Section wp.
Context {St : Type}.

Lemma swp_ret {A} (x : A) (Q : A -> St -> Prop) s : Q x s -> wp (mret x) Q s.
Proof. done. Qed.

Lemma swp_bind {A B} (m : M St A) (k : A -> M St B) Q s : wp m (fun x => wp (k x) Q) s -> wp (m ≫= k) Q s.
Proof. unfold wp, mbind, M_bind. destruct (m s) as [[x s']|]; exact id. Qed.

Lemma swp_mono {A} (m : M St A) (P Q : A -> St -> Prop) s : wp m P s -> (forall x s', P x s' -> Q x s') -> wp m Q s.
Proof. unfold wp. destruct (m s) as [[x s']|]; [auto|done]. Qed.

Lemma swp_gets {A} (f : St -> A) (Q : A -> St -> Prop) s : Q (f s) s -> wp (gets f) Q s.
Proof. done. Qed.

Lemma swp_modify (f : St -> St) (Q : unit -> St -> Prop) s : Q tt (f s) -> wp (modify f) Q s.
Proof. done. Qed.

Lemma wp_deref {A} (x : A) (Q : A -> St -> Prop) s : Q x s -> wp (deref (Some x)) Q s.
Proof. done. Qed.

Lemma wp_on_ok (m k : M St Z) Q s :
  wp m (fun err s' => if err =? 0 then wp k Q s' else Q err s') s -> wp (on_ok m k) Q s.
Proof. intros Hm. apply swp_bind. eapply swp_mono; [exact Hm|]. intros err s'. cbv beta. by destruct (err =? 0). Qed.

Lemma wp_run {A} (m : M St A) Q s : wp m Q s -> exists x s', m s = Some (x, s') /\ Q x s'.
Proof. unfold wp. destruct (m s) as [[x s']|]; [|done]. by exists x, s'. Qed.

Lemma wp_if {A} (b : bool) (m k : M St A) Q s : (b = true -> wp m Q s) -> (b = false -> wp k Q s) -> wp (if b then m else k) Q s.
Proof. destruct b; auto. Qed.
End wp.

Lemma wp_the {D A} (f : thread_stack -> A) (Q : A -> @TS D -> Prop) s : Q (f s.1) s -> wp (the f) Q s.
Proof. done. Qed.

Lemma wp_update {D} (f : thread_stack -> thread_stack) (Q : unit -> @TS D -> Prop) s : Q tt (f s.1, s.2) -> wp (update f) Q s.
Proof. done. Qed.

Lemma wp_alloc {D A} (Q : bool -> A * world D -> Prop) (s : A * world D) :
  Q (w_allocs s.2 0%nat) (s.1, mkWorld (w_cpr s.2) (next_allocs (w_allocs s.2)) (w_data s.2)) -> wp alloc Q s.
Proof. by destruct s as [ts w]. Qed.

(** One step of a term that reads or writes the state. *)
Ltac wp_step :=
  lazymatch goal with
  | |- wp (mret _) _ _ => apply swp_ret
  | |- wp (mbind _ _) _ _ => apply swp_bind
  | |- wp (the _) _ _ => apply wp_the
  | |- wp (update _) _ _ => apply wp_update
  | |- wp (gets _) _ _ => apply swp_gets
  | |- wp (modify _) _ _ => apply swp_modify
  | |- wp alloc _ _ => apply wp_alloc
  | |- wp (on_ok _ _) _ _ => apply wp_on_ok
  end; cbv beta.
Ltac wp := repeat wp_step.

(** ** The entries in use *)

Section state.
Context {D : Type}.
Implicit Types (ts : thread_stack) (s : @TS D) (e : thread_stack_entry).

(** All but the db_id, which is the callback's. *)
Definition erase e : thread_stack_entry := e <| tse_db_id := 0 |>.
Definition live ts : list thread_stack_entry := map erase (take (Z.to_nat (ts_cnt ts)) (ts_stack ts)).

(** The scalars of a thread stack. *)
Definition scalars ts : thread_stack := ts <| ts_stack := [] |> <| ts_cnt := 0 |> <| ts_sz := 0 |>.

Definition entry_ok (cpr : call_path_root) e : Prop := exists n, tse_cp e = Some n /\ used cpr n.

(** [b] bounds the call paths and the growths of the stack. *)
Record stack_ok (b : Z) s : Prop := {
  so_cpr : cpr_ok (w_cpr s.2);
  so_next : cpr_next (w_cpr s.2) <= b;
  so_len : Z.of_nat (length (ts_stack s.1)) = ts_sz s.1;
  so_sz : ts_sz s.1 <= STACK_GROWTH * b;
  so_cnt : 0 <= ts_cnt s.1 <= ts_sz s.1;
  so_live : Forall (entry_ok (w_cpr s.2)) (live s.1);
  so_bound : b < 2 ^ 50
}.

Lemma length_live ts : 0 <= ts_cnt ts <= Z.of_nat (length (ts_stack ts)) -> Z.of_nat (length (live ts)) = ts_cnt ts.
Proof. intros Hc. unfold live. rewrite length_map, length_take. lia. Qed.

Lemma stack_ok_length b s : stack_ok b s -> Z.of_nat (length (live s.1)) = ts_cnt s.1.
Proof. intros [_ _ Hl _ Hc _ _]. apply length_live. lia. Qed.

Lemma idx_live ts i e : 0 <= i < ts_cnt ts -> idx (live ts) i = Some e ->
  exists e0, idx (ts_stack ts) i = Some e0 /\ e = erase e0.
Proof.
  intros Hi. unfold idx, live. destruct (Z.ltb_spec i 0); [lia|]. rewrite list_lookup_fmap, lookup_take_lt by lia.
  destruct (ts_stack ts !! Z.to_nat i) as [e0|]; [|done]. intros [= <-]. by exists e0.
Qed.

Lemma wp_entry i e (Q : thread_stack_entry -> @TS D -> Prop) s : 0 <= i < ts_cnt s.1 -> idx (live s.1) i = Some e ->
  (forall e0, e = erase e0 -> Q e0 s) -> wp (entry i) Q s.
Proof.
  intros Hi He HQ. destruct (idx_live _ _ _ Hi He) as (e0 & E & ->). unfold entry. wp.
  rewrite E. apply wp_deref. by apply HQ.
Qed.

Lemma live_insert stack cnt i e : (i < Z.to_nat cnt)%nat ->
  map erase (take (Z.to_nat cnt) (<[i := e]> stack)) = <[i := erase e]> (map erase (take (Z.to_nat cnt) stack)).
Proof. intros Hi. rewrite take_insert_lt by done. apply list_fmap_insert. Qed.

(** A write to an entry in use. *)
Lemma wp_set_entry i e f (Q : unit -> @TS D -> Prop) s : 0 <= i < ts_cnt s.1 -> idx (live s.1) i = Some e ->
  Z.of_nat (length (ts_stack s.1)) = ts_sz s.1 ->
  (forall ts e0, e = erase e0 -> live ts = <[Z.to_nat i := erase (f e0)]> (live s.1) -> ts_cnt ts = ts_cnt s.1 -> ts_sz ts = ts_sz s.1 ->
    Z.of_nat (length (ts_stack ts)) = ts_sz ts -> scalars ts = scalars s.1 -> Q tt (ts, s.2)) ->
  wp (set_entry i f) Q s.
Proof.
  intros Hi He Hl HQ. destruct (idx_live _ _ _ Hi He) as (e0 & E & Ee). apply idx_inv in E as Hlt. destruct Hlt as [Hlt _].
  unfold set_entry, entry. wp. rewrite E. apply wp_deref. wp. rewrite set_at_eq by done. apply wp_deref. wp.
  apply (HQ _ e0); [done| |done|done| |done].
  - unfold live. cbn. apply live_insert. lia.
  - cbn. rewrite length_insert. done.
Qed.

Lemma used_mono cpr cpr' : (forall m, used cpr m -> used cpr' m /\ path_of cpr' m = path_of cpr m) ->
  forall e, entry_ok cpr e -> entry_ok cpr' e.
Proof. intros Hm e (n & E & Hn). exists n. split; [done|]. by apply Hm. Qed.

Lemma stack_ok_weaken b b' s : stack_ok b s -> b <= b' < 2 ^ 50 -> stack_ok b' s.
Proof. intros [H1 H2 H3 H4 H5 H6 H7] Hb. unfold STACK_GROWTH in *. split; unfold STACK_GROWTH; try done; lia. Qed.

(** No call path becomes another one. *)
Definition cpr_grows (cpr cpr' : call_path_root) : Prop :=
  forall m, used cpr m -> used cpr' m /\ path_of cpr' m = path_of cpr m.

Lemma grows_refl cpr : cpr_grows cpr cpr.
Proof. by intros m Hm. Qed.

Lemma grows_trans c1 c2 c3 : cpr_grows c1 c2 -> cpr_grows c2 c3 -> cpr_grows c1 c3.
Proof. intros H1 H2 m Hm. destruct (H1 m Hm) as [Hm2 <-]. by apply H2. Qed.

(** What an operation on entries leaves alone. *)
Definition kept s s' : Prop :=
  scalars s'.1 = scalars s.1 /\ (all_true (w_allocs s.2) -> all_true (w_allocs s'.2)) /\ cpr_grows (w_cpr s.2) (w_cpr s'.2).

Lemma kept_refl s : kept s s.
Proof. split; [done|]. split; [done|apply grows_refl]. Qed.

Lemma kept_trans s1 s2 s3 : kept s1 s2 -> kept s2 s3 -> kept s1 s3.
Proof.
  intros (H1 & H2 & H3) (H4 & H5 & H6). split; [congruence|]. split; [auto|by eapply grows_trans].
Qed.

Lemma kept_stack s ts a d : scalars ts = scalars s.1 -> a = w_allocs s.2 \/ a = next_allocs (w_allocs s.2) ->
  kept s (ts, mkWorld (w_cpr s.2) a d).
Proof.
  intros Hs Ha. split; [done|]. split; [|apply grows_refl]. cbn. destruct Ha as [->| ->]; [done|by apply next_all_true].
Qed.

Lemma kept_the {A} (f : thread_stack -> A) s s' : kept s s' -> (forall ts, f (scalars ts) = f ts) -> f s'.1 = f s.1.
Proof. intros [Hs _] Hf. rewrite <- (Hf s'.1), Hs. apply Hf. Qed.

Lemma grows_entries cpr cpr' l : cpr_grows cpr cpr' -> Forall (entry_ok cpr) l -> Forall (entry_ok cpr') l.
Proof. intros Hg. apply Forall_impl. by apply used_mono. Qed.

(** ** Call paths *)

Lemma findnew_allocs a cpr parent sym ip ks r cpr' a' :
  call_path__findnew a cpr parent sym ip ks = Some (r, cpr', a') -> a' = a \/ a' = next_allocs a.
Proof.
  assert (forall p sy i k r cpr1 a', call_path__new a cpr p sy i k = Some (r, cpr1, a') -> a' = a \/ a' = next_allocs a) as Hnew.
  { intros p sy i k r1 cpr1 a1. unfold call_path__new. destruct (cpr_next cpr <? cpr_sz cpr).
    - destruct (set_at _ _ _); cbn [mbind option_bind]; [|done]. intros [= _ _ <-]. by left.
    - destruct (a 0%nat); [|intros [= _ _ <-]; by right].
      destruct (set_at _ _ _); cbn [mbind option_bind]; [|done]. intros [= _ _ <-]. by right. }
  unfold call_path__findnew. destruct parent as [k|]; [|apply Hnew].
  destruct (cpr_paths cpr !! k) as [par|]; cbn [mbind option_bind]; [|done].
  destruct (find_child _ _ _ _ _) as [[t p]|]; cbn [mbind option_bind]; [|done].
  destruct t as [|c l n rt]; [|intros [= _ _ <-]; by left].
  destruct (call_path__new _ _ _ _ _ _) as [[[n cpr1] a1]|] eqn:E; cbn [mbind option_bind]; [|done]. apply Hnew in E.
  destruct n as [n|]; [|by intros [= _ _ <-]].
  destruct (rb_insert_color n p); cbn [mbind option_bind]; [|done].
  destruct (cpr_paths cpr1 !! k); cbn [mbind option_bind]; [|done]. by intros [= _ _ <-].
Qed.

(** The key of a call path. *)
Definition call_key (sym ip : Z) : Z * Z := (sym, if sym =? 0 then ip else 0).

Lemma wp_find_call_path b parent sym ip ks (Q : option nat -> @TS D -> Prop) s : stack_ok b s -> b + 1 < 2 ^ 50 ->
  used (w_cpr s.2) parent ->
  (forall cp w, stack_ok (b + 1) (s.1, w) -> kept s (s.1, w) -> w_data w = w_data s.2 ->
     match cp with
     | None => w_allocs s.2 0%nat = false
     | Some n => used (w_cpr w) n /\ path_of (w_cpr w) n = path_of (w_cpr s.2) parent ++ [call_key sym ip] /\
         key_of (cpr_paths (w_cpr w)) n = call_key sym ip
     end -> Q cp (s.1, w)) ->
  wp (find_call_path (Some parent) sym ip ks) Q s.
Proof.
  intros Hs Hb Hu HQ. pose proof Hs as [H1 H2 H3 H4 H5 H6 H7].
  destruct (findnew_ok (w_allocs s.2) (w_cpr s.2) parent sym ip ks H1 Hu) as (r & cpr & a & E & Hc & Hn & Hg & Hr); [lia|].
  destruct s as [ts w]. unfold wp, find_call_path. cbn [fst snd] in *. rewrite E. cbn [mbind option_bind].
  apply HQ; [| |done|].
  - unfold STACK_GROWTH in *. split; unfold STACK_GROWTH; cbn; try done; [lia|lia|]. by eapply grows_entries.
  - split; [done|]. split; [|exact Hg]. cbn. intros Ha.
    destruct (findnew_allocs _ _ _ _ _ _ _ _ _ E) as [->| ->]; [done|by apply next_all_true].
  - destruct r as [n|]; [|apply Hr]. split_and!; apply Hr.
Qed.
End state.

Section steps.
Context {D : Type} (process : call_return -> option Z -> D -> Z * Z * D) (garbage : thread_stack_entry) `{Symbols}.
Implicit Types (s : @TS D) (e : thread_stack_entry).

(** ** Growing and pushing *)

Lemma live_app ts x : 0 <= ts_cnt ts <= Z.of_nat (length (ts_stack ts)) -> live (ts <| ts_stack ::= fun l => l ++ x |>) = live ts.
Proof. intros Hc. unfold live. cbn. by rewrite take_app_le by lia. Qed.

Lemma wp_grow b (Q : Z -> @TS D -> Prop) s : stack_ok b s -> b + 1 < 2 ^ 50 ->
  (forall err s', stack_ok (b + 1) s' -> kept s s' -> live s'.1 = live s.1 -> ts_cnt s'.1 = ts_cnt s.1 -> w_cpr s'.2 = w_cpr s.2 ->
     w_data s'.2 = w_data s.2 ->
     (err = 0 /\ ts_sz s'.1 = ts_sz s.1 + STACK_GROWTH \/ err = - ENOMEM /\ w_allocs s.2 0%nat = false) -> Q err s') ->
  wp (thread_stack__grow garbage) Q s.
Proof.
  intros [H1 H2 H3 H4 H5 H6 H7] Hb HQ. unfold thread_stack__grow. wp. unfold STACK_GROWTH in *.
  destruct (w_allocs s.2 0%nat) eqn:Ea; cbn [negb]; wp.
  - rewrite u64_small by lia. set (new := replicate _ _).
    assert (Z.of_nat (length new) = 2048) as Hl by (subst new; rewrite length_replicate; lia).
    assert (El : live (s.1 <| ts_stack := ts_stack s.1 ++ new |> <| ts_sz := ts_sz s.1 + 2048 |>) = live s.1)
      by (apply (live_app s.1); lia).
    apply HQ; [|apply kept_stack; [done|by right]|exact El|done|done|done|by left].
    split; unfold STACK_GROWTH; [done|cbn; lia|cbn; rewrite length_app; lia|cbn; lia|cbn; lia| |lia].
    cbn [fst snd]. rewrite El. exact H6.
  - apply HQ; [|apply kept_stack; [done|by right]|done|done|done|done|by right].
    split; unfold STACK_GROWTH; try done; cbn; lia.
Qed.

Lemma take_insert_snoc {A} (l : list A) n x : (n < length l)%nat -> take (S n) (<[n := x]> l) = take n l ++ [x].
Proof.
  intros Hn. rewrite (take_S_r _ _ x) by (by apply list_lookup_insert_eq). by rewrite take_insert_ge by done.
Qed.

(** The entry that is pushed. *)
Definition pushed (ts : thread_stack) (ret_addr timestamp ref : Z) (cp : option nat) (no_call trace_end : bool) : thread_stack_entry :=
  mkTse ret_addr timestamp ref (ts_branch_count ts) (ts_insn_count ts) (ts_cyc_count ts) 0 cp no_call trace_end false.

Lemma pushed_scalars ts ts' ra tm ref cp nc te : scalars ts' = scalars ts -> pushed ts' ra tm ref cp nc te = pushed ts ra tm ref cp nc te.
Proof. intros E. change (pushed (scalars ts') ra tm ref cp nc te = pushed ts ra tm ref cp nc te). by rewrite E. Qed.

Lemma wp_push_cp b ra tm ref n nc te (Q : Z -> @TS D -> Prop) s : stack_ok b s -> b + 1 < 2 ^ 50 -> used (w_cpr s.2) n ->
  (forall err s', stack_ok (b + 1) s' -> kept s s' -> w_cpr s'.2 = w_cpr s.2 -> w_data s'.2 = w_data s.2 ->
     (err = 0 /\ live s'.1 = live s.1 ++ [pushed s.1 ra tm ref (Some n) nc te] \/
      err = - ENOMEM /\ live s'.1 = live s.1 /\ w_allocs s.2 0%nat = false) -> Q err s') ->
  wp (thread_stack__push_cp garbage ra tm ref (Some n) nc te) Q s.
Proof.
  intros Hs Hb Hu HQ. unfold thread_stack__push_cp. wp.
  assert (Hpush : forall s', stack_ok (b + 1) s' -> kept s s' -> live s'.1 = live s.1 -> ts_cnt s'.1 = ts_cnt s.1 ->
    w_cpr s'.2 = w_cpr s.2 -> w_data s'.2 = w_data s.2 -> ts_cnt s'.1 < ts_sz s'.1 ->
    wp (set_entry (ts_cnt s.1) (fun _ => mkTse ra tm ref (ts_branch_count s.1) (ts_insn_count s.1) (ts_cyc_count s.1) 0 (Some n) nc te false);;
        update (fun ts => ts <| ts_cnt ::= Z.add 1 |>);; mret 0) Q s').
  { intros s' [H1 H2 H3 H4 H5 H6 H7] Hk El Ec Ecpr Ed Hlt. destruct (idx_range (ts_stack s'.1) (ts_cnt s.1)) as [x Ex]; [lia|].
    unfold set_entry, entry. wp. rewrite Ex. apply wp_deref. wp. rewrite set_at_eq by lia. apply wp_deref. wp.
    set (stack := <[_ := _]> _).
    assert (Ev : live (s'.1 <| ts_stack := stack |> <| ts_cnt ::= Z.add 1 |>) = live s.1 ++ [pushed s.1 ra tm ref (Some n) nc te]).
    { rewrite <- El. unfold live. cbn. replace (Z.to_nat (1 + ts_cnt s'.1)) with (S (Z.to_nat (ts_cnt s.1))) by lia.
      subst stack. rewrite take_insert_snoc by lia. rewrite Ec. by rewrite map_app. }
    apply HQ; [|destruct Hk as (Hk1 & Hk2); split; [exact Hk1|exact Hk2]|done|done|by left].
    split; [done|done|cbn; subst stack; rewrite length_insert; lia|cbn; lia|cbn; lia| |done].
    cbn [fst snd]. rewrite Ev. apply List.Forall_app. split; [by rewrite <- El|].
    constructor; [|done]. exists n. split; [done|]. by rewrite Ecpr. }
  destruct (Z.eqb_spec (ts_cnt s.1) (ts_sz s.1)) as [Efull|Hfree].
  - apply (wp_grow b); [done|done|]. intros err s' Hs' Hk El Ec Ecpr Ed [[-> Esz]|[-> Ea]].
    + cbn [Z.eqb]. apply Hpush; try done. unfold STACK_GROWTH in *. rewrite Esz, Ec. lia.
    + apply HQ; try done. by right.
  - wp. cbn [Z.eqb]. pose proof Hs as [_ _ _ _ Hc _ _]. apply Hpush; [|done|done|done|done|done|lia].
    apply (stack_ok_weaken b); [done|lia].
Qed.

(** ** Records of calls *)

Definition record_of (me : Z * Z) (ts : thread_stack) (e : thread_stack_entry) (timestamp ref : Z) (no_return : bool) : call_return :=
  mkCr me (ts_comm ts) (tse_cp e) (tse_timestamp e) timestamp
    (u64 (ts_branch_count ts - tse_branch_count e)) (u64 (ts_insn_count ts - tse_insn_count e))
    (u64 (ts_cyc_count ts - tse_cyc_count e)) (tse_ref e) ref (tse_db_id e)
    (flag (tse_no_call e) CALL_RETURN_NO_CALL .| flag no_return CALL_RETURN_NO_RETURN
     .| flag (tse_non_call e) CALL_RETURN_NON_CALL).

(** The callback was given the record of [e], with whatever db_ids. *)
Definition reported (me : Z * Z) (ts : thread_stack) (e : thread_stack_entry) (timestamp ref : Z) (no_return : bool)
    (d : D) (err : Z) (d' : D) : Prop :=
  exists e0 parent id, e = erase e0 /\ process (record_of me ts e0 timestamp ref no_return) parent d = (err, id, d').

Lemma live_snoc_lookup ts l e : Z.of_nat (length (live ts)) = ts_cnt ts -> live ts = l ++ [e] ->
  ts_cnt ts = Z.of_nat (length l) + 1 /\ idx (live ts) (ts_cnt ts - 1) = Some e.
Proof.
  intros Hl E. rewrite E, length_app in Hl. cbn in Hl. split; [lia|]. rewrite E. unfold idx.
  destruct (Z.ltb_spec (ts_cnt ts - 1) 0); [lia|]. rewrite lookup_app_r by lia.
  by replace (Z.to_nat (ts_cnt ts - 1) - length l)%nat with 0%nat by lia.
Qed.

Lemma erase_cp e e0 : e = erase e0 -> tse_cp e = tse_cp e0 /\ tse_ret_addr e = tse_ret_addr e0 /\ tse_non_call e = tse_non_call e0 /\
  tse_trace_end e = tse_trace_end e0 /\ tse_ref e = tse_ref e0.
Proof. by intros ->. Qed.

Lemma live_pop ts l e : 0 <= ts_cnt ts <= Z.of_nat (length (ts_stack ts)) -> live ts = l ++ [e] ->
  live (ts <| ts_cnt ::= fun cnt => cnt - 1 |>) = l.
Proof.
  intros Hc E. pose proof (length_live ts Hc) as Hl. destruct (live_snoc_lookup ts l e Hl E) as [El _].
  unfold live in *. cbn. replace (Z.to_nat (ts_cnt ts - 1)) with (Init.Nat.min (length l) (Z.to_nat (ts_cnt ts))) by lia.
  rewrite <- firstn_firstn. rewrite <- (firstn_map erase), E. by rewrite take_app_length.
Qed.

(** What is left after an entry has been reported. *)
Definition after_return (me : Z * Z) (tm ref : Z) (no_return : bool) (b : Z) (l : list thread_stack_entry) (e : thread_stack_entry)
    (s : @TS D) (err : Z) (s' : @TS D) : Prop :=
  stack_ok b s' /\ kept s s' /\ live s'.1 = l /\ w_cpr s'.2 = w_cpr s.2 /\
  reported me s.1 e tm ref no_return (w_data s.2) err (w_data s'.2).

Lemma wp_return_top b me tm ref nr l e s : stack_ok b s -> live s.1 = l ++ [e] ->
  wp (return_top process me tm ref nr) (after_return me tm ref nr b l e s) s.
Proof.
  intros Hs El. pose proof Hs as [H1 H2 H3 H4 H5 H6 H7]. pose proof (stack_ok_length _ _ Hs) as Hl.
  destruct (live_snoc_lookup _ _ _ Hl El) as [Ec Ee]. destruct (idx_live s.1 (ts_cnt s.1 - 1) e ltac:(lia) Ee) as (e0 & E0 & He0).
  unfold return_top, thread_stack__call_return. wp. set (ts' := s.1 <| ts_cnt ::= fun cnt => cnt - 1 |>). cbn [fst].
  assert (El' : live ts' = l) by (apply (live_pop s.1 l e); [lia|done]).
  assert (Ec' : ts_cnt ts' = ts_cnt s.1 - 1) by done. rewrite Ec'.
  assert (Hs' : stack_ok b (ts', s.2)).
  { split; try done; [cbn; lia|]. cbn [fst snd]. rewrite El'. rewrite El in H6. by apply List.Forall_app in H6 as [? _]. }
  unfold entry at 1. wp. cbn [fst]. change (ts_stack ts') with (ts_stack s.1). rewrite E0. apply wp_deref.
  set (i := ts_cnt s.1 - 1) in *. set (cr := mkCr _ _ _ _ _ _ _ _ _ _ _ _).
  assert (Hcr : cr = record_of me s.1 e0 tm ref nr) by done.
  assert (Hend : forall ts parent err id d, process cr parent (w_data s.2) = (err, id, d) ->
    stack_ok b (ts, s.2) -> scalars ts = scalars s.1 -> live ts = l ->
    wp (modify (fun s' : @TS D => (s'.1, mkWorld (w_cpr s'.2) (w_allocs s'.2) d)) ;; mret err) (after_return me tm ref nr b l e s) (ts, s.2)).
  { intros ts parent err id d Ep [K1 K2 K3 K4 K5 K6 K7] Ek Elv. wp. split; [|split; [apply (kept_stack s ts); [done|by left]|split; [done|split; [done|]]]].
    - by split.
    - exists e0, parent, id. split; [done|]. rewrite <- Hcr. done. }
  apply swp_bind. destruct (Z.eqb_spec i 0) as [Ei|Hi].
  - wp. cbn [snd]. destruct (process cr None (w_data s.2)) as [[err id] d] eqn:Ep. wp. by apply (Hend ts' None err id d).
  - wp. destruct (idx_range l (i - 1)) as [p0 Ep0]; [lia|].
    apply (wp_entry (i - 1) p0); [cbn; lia|by cbn; rewrite El'|]. intros p1 Ep1. wp. cbn [snd].
    destruct (process cr (Some (tse_db_id p1)) (w_data s.2)) as [[err id] d] eqn:Ep. wp.
    apply (wp_set_entry (i - 1) p0); [cbn; lia|by cbn; rewrite El'|done|]. cbn [fst snd].
    intros ts p2 Ep2 Elv Ecnt Esz Elen Esc.
    assert (Elv' : live ts = l).
    { rewrite Elv, El'. apply list_insert_id. apply idx_inv in Ep0 as [_ Ep0]. rewrite Ep0. by rewrite Ep2. }
    apply (Hend ts (Some (tse_db_id p1)) err id d); [done| |by rewrite Esc|done].
    destruct Hs' as [K1 K2 K3 K4 K5 K6 K7]. split; try done; cbn [fst snd] in *; [lia|lia|]. rewrite Elv', <- El'. done.
Qed.
End steps.
