(* ===== verification/ThreadSteps.v ===== *)
(** Safety of the handling of a branch: every operation of [thread_stack__process]
    keeps the invariant, makes no bad access, and fails only for want of memory
    or with an error of the callback. *)
From Stdlib Require Import ZArith Lia List Bool String.
From S2P Require Import Prelude RbTree CallPath CallPathTheorems PtInsn ThreadStack ThreadCalls ThreadSafe.
Open Scope Z_scope.
Open Scope c_scope.
Import ListNotations.

Section steps.
Context {D : Type} (process : call_return -> option Z -> D -> Z * Z * D) (garbage : thread_stack_entry) `{Symbols}.
Implicit Types (s : @TS D) (e : thread_stack_entry).

Definition callback_err (err : Z) : Prop := exists cr parent d, (process cr parent d).1.1 = err.

(** The errors there can be. *)
Definition fails (a : allocs) (err : Z) : Prop :=
  err = 0 \/ err = - ENOMEM /\ ~ all_true a \/ callback_err err.

Definition safe b s (err : Z) s' : Prop := stack_ok b s' /\ kept s s' /\ fails (w_allocs s.2) err.

Lemma fails_kept s s' err : kept s s' -> fails (w_allocs s'.2) err -> fails (w_allocs s.2) err.
Proof. intros (_ & Hk & _) [?|[[? Hn]|?]]; [by left| |by right; right]. right; left. split; [done|]. by intros Ha%Hk. Qed.

Lemma fails_alloc (a : allocs) : a 0%nat = false -> fails a (- ENOMEM).
Proof. intros Ha. right; left. split; [done|]. intros Hn. by rewrite (Hn 0%nat) in Ha. Qed.

Lemma safe_trans b s1 s2 err s3 : kept s1 s2 -> safe b s2 err s3 -> safe b s1 err s3.
Proof. intros Hk (H1 & H2 & H3). split; [done|]. split; [by eapply kept_trans|by eapply fails_kept]. Qed.

Lemma safe_weaken b b' s err s' : b <= b' < 2 ^ 50 -> safe b s err s' -> safe b' s err s'.
Proof. intros Hb (H1 & H2 & H3). split; [|done]. by apply (stack_ok_weaken b). Qed.

Lemma wp_safe_mono b b' (m : M (@TS D) Z) s s0 : b <= b' < 2 ^ 50 -> kept s0 s -> wp m (safe b s) s -> wp m (safe b' s0) s.
Proof.
  intros Hb Hk Hm. eapply swp_mono; [exact Hm|]. intros err s' Hs. apply (safe_weaken b); [done|]. by eapply safe_trans.
Qed.

(** [m], then [k] unless [m] fails. *)
Lemma wp_on_ok_safe b b1 (m k : M (@TS D) Z) s : b1 <= b < 2 ^ 50 -> wp m (safe b1 s) s ->
  (forall s', stack_ok b1 s' -> kept s s' -> wp k (safe b s') s') -> wp (on_ok m k) (safe b s) s.
Proof.
  intros Hb Hm Hk. apply wp_on_ok. eapply swp_mono; [exact Hm|]. intros err s' Hs. cbv beta.
  destruct (err =? 0) eqn:E; [|by apply (safe_weaken b1)]. destruct Hs as (H1 & H2 & _).
  eapply swp_mono; [by apply Hk|]. intros err' s'' Hs. by eapply safe_trans.
Qed.

Lemma after_return_safe b me tm ref nr l e s err s' : after_return process me tm ref nr b l e s err s' -> safe b s err s'.
Proof.
  intros (H1 & H2 & _ & _ & e0 & parent & id & _ & Ep). split; [done|]. split; [done|]. right; right.
  exists (record_of me s.1 e0 tm ref nr), parent, (w_data s.2). by rewrite Ep.
Qed.

Lemma nonempty_snoc b s : stack_ok b s -> 0 < ts_cnt s.1 -> exists l e, live s.1 = l ++ [e].
Proof.
  intros Hs Hc. pose proof (stack_ok_length _ _ Hs) as Hl. destruct (exists_last (l := live s.1)) as (l & e & E).
  - intros E. rewrite E in Hl. cbn in Hl. lia.
  - by exists l, e.
Qed.

(** Reporting the top of the stack, when there is one. *)
Lemma wp_return_top_safe b me tm ref nr s : stack_ok b s -> 0 < ts_cnt s.1 ->
  wp (return_top process me tm ref nr) (fun err s' => safe b s err s' /\ ts_cnt s'.1 = ts_cnt s.1 - 1) s.
Proof.
  intros Hs Hc. destruct (nonempty_snoc b s Hs Hc) as (l & e & E). eapply swp_mono; [by apply wp_return_top|].
  intros err s' Hr. split; [by eapply after_return_safe|]. destruct Hr as (H1 & _ & El & _).
  pose proof (stack_ok_length _ _ Hs) as L1. pose proof (stack_ok_length _ _ H1) as L2. rewrite E, length_app in L1. cbn in L1. rewrite El in L2. lia.
Qed.

(** An entry in use, and its call path. *)
Lemma wp_entry_ok b i (Q : thread_stack_entry -> @TS D -> Prop) s : stack_ok b s -> 0 <= i < ts_cnt s.1 ->
  (forall e n, tse_cp e = Some n -> used (w_cpr s.2) n -> idx (live s.1) i = Some (erase e) -> Q e s) -> wp (entry i) Q s.
Proof.
  intros Hs Hi HQ. pose proof (stack_ok_length _ _ Hs) as Hl. destruct (idx_range (live s.1) i ltac:(lia)) as [e0 E].
  apply (wp_entry i e0); [done|done|]. intros e ->. pose proof (so_live _ _ Hs) as Hf. apply idx_inv in E as E'. destruct E' as [_ E'].
  rewrite Forall_lookup in Hf. destruct (Hf _ _ E') as (n & En & Hu). by apply (HQ e n).
Qed.

Lemma wp_call_path_at b n (Q : call_path -> @TS D -> Prop) s : stack_ok b s -> used (w_cpr s.2) n ->
  (forall cp, cpr_paths (w_cpr s.2) !! n = Some cp -> Q cp s) -> wp (call_path_at (Some n)) Q s.
Proof.
  intros Hs Hu HQ. destruct (used_lookup _ n (ck_blocks _ (so_cpr _ _ Hs)) Hu) as [cp E].
  unfold call_path_at. wp. cbn. rewrite E. apply wp_deref. by apply HQ.
Qed.

Lemma wp_in_kernel b (Q : bool -> @TS D -> Prop) s : stack_ok b s ->
  (forall k : bool, (k = true -> 0 < ts_cnt s.1) -> Q k s) -> wp thread_stack__in_kernel Q s.
Proof.
  intros Hs HQ. unfold thread_stack__in_kernel. wp. pose proof (so_cnt _ _ Hs) as Hc. destruct (Z.eqb_spec (ts_cnt s.1) 0) as [|Hne]; wp.
  - by apply HQ.
  - apply (wp_entry_ok b); [done|lia|]. intros e n En Hu _. wp. rewrite En. apply (wp_call_path_at b); [done|done|].
    intros cp _. wp. apply HQ. intros _. lia.
Qed.

Lemma wp_return_loop b me tm ref k s : stack_ok b s -> Z.of_nat k <= ts_cnt s.1 ->
  wp (return_loop process me tm ref k) (fun err s' => safe b s err s' /\ (err = 0 -> ts_cnt s'.1 = ts_cnt s.1 - Z.of_nat k)) s.
Proof.
  revert s. induction k as [|k IH]; intros s Hs Hk; cbn [return_loop]; wp.
  - split; [|lia]. split; [done|]. split; [done|by left].
  - eapply swp_mono; [apply (wp_return_top_safe b); [done|lia]|]. intros err s' [Hr Ec]. cbv beta.
    destruct (Z.eqb_spec err 0); [|done]. eapply swp_mono; [apply IH; [apply Hr|lia]|]. intros err' s'' [Hr' Ec']. cbv beta.
    split; [eapply safe_trans; [apply Hr|done]|]. intros E. rewrite Ec' by done. lia.
Qed.

Lemma wp_pop_ks_loop b me tm ref n s : stack_ok b s -> wp (pop_ks_loop process me tm ref n) (safe b s) s.
Proof.
  revert s. induction n as [|n IH]; intros s Hs; cbn [pop_ks_loop]; wp.
  - apply (wp_in_kernel b); [done|]. intros [] _; wp; (split; [done|]; split; [done|by left]).
  - apply (wp_in_kernel b); [done|]. intros [] Hc; [|wp; split; [done|]; split; [done|by left]].
    apply (wp_on_ok_safe b b); [pose proof (so_bound _ _ Hs); lia| |].
    + eapply swp_mono; [apply (wp_return_top_safe b); [done|by apply Hc]|]. by intros err s' [Hr _].
    + intros s' Hs' Hk. by apply IH.
Qed.

Lemma wp_pop_ks b me sample ref s : stack_ok b s -> wp (thread_stack__pop_ks process me sample ref) (safe b s) s.
Proof. intros Hs. unfold thread_stack__pop_ks. wp. by apply wp_pop_ks_loop. Qed.

(** ** Call paths and pushing *)

Lemma safe_ok b s s' : stack_ok b s' -> kept s s' -> safe b s 0 s'.
Proof. intros H1 H2. split; [done|]. split; [done|by left]. Qed.

Lemma root_used b s : stack_ok b s -> used (w_cpr s.2) 0.
Proof. intros Hs. pose proof (bk_next _ (ck_blocks _ (so_cpr _ _ Hs))) as Hn. unfold used. lia. Qed.

Lemma pushed_cnt b s s' l e : stack_ok b s -> stack_ok b s' -> live s'.1 = live s.1 ++ [e] -> l = live s.1 -> ts_cnt s'.1 = ts_cnt s.1 + 1.
Proof.
  intros Hs Hs' E _. pose proof (stack_ok_length _ _ Hs) as L1. pose proof (stack_ok_length _ _ Hs') as L2.
  rewrite E, length_app in L2. cbn in L2. lia.
Qed.

(** Finding a call path and pushing an entry with it. *)
Lemma wp_push_found b parent sym ip ks ra tm ref nc te s : stack_ok b s -> b + 2 < 2 ^ 50 -> used (w_cpr s.2) parent ->
  wp (cp ← find_call_path (Some parent) sym ip ks; thread_stack__push_cp garbage ra tm ref cp nc te)
    (fun err s' => safe (b + 2) s err s' /\ (err = 0 -> ts_cnt s'.1 = ts_cnt s.1 + 1)) s.
Proof.
  intros Hs Hb Hu. wp. apply (wp_find_call_path b); [done|lia|done|]. intros cp w Hw Hk _ Hcp.
  destruct cp as [n|]; [|cbn [thread_stack__push_cp]; wp].
  - destruct Hcp as (Hn & _). apply (wp_push_cp garbage (b + 1)); [done|lia|done|]. intros err s' Hs' Hk' _ _ Hres.
    assert (kept s s') as Hkk by (by eapply kept_trans). replace (b + 1 + 1) with (b + 2) in Hs' by lia.
    pose proof (stack_ok_length _ _ Hs) as L1. pose proof (stack_ok_length _ _ Hs') as L2. cbn [fst] in Hres.
    destruct Hres as [[-> El]|(-> & El & Ea)].
    + split; [by apply safe_ok|]. rewrite El, length_app in L2. cbn in L2. lia.
    + split; [|done]. split; [done|]. split; [done|]. eapply fails_kept; [exact Hk|]. by apply fails_alloc.
  - split; [|done]. split; [apply (stack_ok_weaken (b + 1)); [done|lia]|]. split; [done|]. by apply fails_alloc.
Qed.

Lemma wp_bottom b sample from_al to_al ref s : stack_ok b s -> b + 2 < 2 ^ 50 ->
  wp (thread_stack__bottom garbage sample from_al to_al ref)
    (fun err s' => safe (b + 2) s err s' /\ (err = 0 -> ts_cnt s.1 <= ts_cnt s'.1 /\
       (s_ip sample <> 0 \/ s_addr sample <> 0 -> ts_cnt s'.1 = ts_cnt s.1 + 1))) s.
Proof.
  intros Hs Hb. unfold thread_stack__bottom.
  assert (forall ip sym tm r, wp (ks ← the ts_kernel_start; cp ← find_call_path root sym ip ks; thread_stack__push_cp garbage ip tm r cp true false)
    (fun err s' => safe (b + 2) s err s' /\ (err = 0 -> ts_cnt s'.1 = ts_cnt s.1 + 1)) s) as Hpush.
  { intros ip sym tm r. apply swp_bind, wp_the. by apply wp_push_found, (root_used b). }
  destruct (Z.eqb_spec (s_ip sample) 0) as [E1|]; cbn [negb].
  - destruct (Z.eqb_spec (s_addr sample) 0) as [E2|]; cbn [negb].
    + wp. split; [apply safe_ok; [by apply (stack_ok_weaken b); [|lia]|done]|]. intros _. split; [lia|]. by intros [].
    + eapply swp_mono; [apply Hpush|]. intros err s' [Hr Hc]. split; [done|]. intros E. specialize (Hc E). lia.
  - eapply swp_mono; [apply Hpush|]. intros err s' [Hr Hc]. split; [done|]. intros E. specialize (Hc E). lia.
Qed.

(** ** Returns *)

Lemma wp_find_return b ret_addr n (Q : option nat -> @TS D -> Prop) s : stack_ok b s -> Z.of_nat n <= ts_cnt s.1 ->
  (forall i, (match i with Some i => (i < n)%nat | None => True end) -> Q i s) -> wp (find_return ret_addr n) Q s.
Proof.
  revert Q. induction n as [|n IH]; intros Q Hs Hn HQ; cbn [find_return]; wp; [by apply HQ|].
  apply (wp_entry_ok b); [done|lia|]. intros e m _ _ _. destruct (_ || _).
  - apply IH; [done|lia|]. intros i Hi. apply HQ. destruct i; [lia|done].
  - wp. apply HQ. lia.
Qed.

(** [pop_cp] also returns 1, when the return matches no call. *)
Definition safe_or_1 b s (err : Z) s' : Prop := stack_ok b s' /\ kept s s' /\ (err = 1 \/ fails (w_allocs s.2) err).

Lemma wp_pop_cp b me ra tm ref sym s : stack_ok b s -> wp (thread_stack__pop_cp process me ra tm ref sym) (safe_or_1 b s) s.
Proof.
  intros Hs. pose proof (so_cnt _ _ Hs) as Hc. pose proof (so_bound _ _ Hs) as Hb. unfold thread_stack__pop_cp. wp.
  assert (forall err s', safe b s err s' -> safe_or_1 b s err s') as Hsafe by (intros err s' (K1 & K2 & K3); split; [done|]; split; [done|by right]).
  assert (H1 : safe_or_1 b s 1 s) by (split; [done|]; split; [done|by left]).
  destruct (Z.eqb_spec (ts_cnt s.1) 0) as [|Hne]; [by wp|]. wp.
  assert (Htop : forall no_return, wp (return_top process me tm ref no_return) (safe_or_1 b s) s).
  { intros no_return. eapply swp_mono; [apply (wp_return_top_safe b); [done|lia]|]. intros err s' [Hr _]. by apply Hsafe. }
  unfold pop_bottom. wp.
  assert (Hrest : wp (e ← entry (ts_cnt s.1 - 1);
    if (tse_ret_addr e =? ra) && negb (tse_non_call e) then return_top process me tm ref false
    else i ← find_return ra (Z.to_nat (ts_cnt s.1 - 1));
      match i with
      | None => mret 1
      | Some i => on_ok (return_loop process me tm ref (Z.to_nat (ts_cnt s.1) - (i + 1))) (return_top process me tm ref false)
      end) (safe_or_1 b s) s).
  { wp. apply (wp_entry_ok b); [done|lia|]. intros e n _ _ _. destruct (_ && _); [by apply Htop|]. wp.
    apply (wp_find_return b); [done|lia|]. intros [i|] Hi; [|by wp]. wp.
    eapply swp_mono; [apply (wp_return_loop b); [done|lia]|]. intros err s' [Hr Hcnt]. cbv beta.
    destruct (Z.eqb_spec err 0) as [E|]; [|by apply Hsafe]. specialize (Hcnt E).
    eapply swp_mono; [apply (wp_return_top_safe b); [apply Hr|lia]|]. intros err' s'' [Hr' _].
    apply Hsafe. eapply safe_trans; [apply Hr|done]. }
  destruct (Z.eqb_spec (ts_cnt s.1) 1) as [E1|]; [|apply swp_ret; exact Hrest].
  wp. apply (wp_entry_ok b); [done|lia|]. intros e n En Hu _. wp. rewrite En.
  apply (wp_call_path_at b); [done|done|]. intros cp _. destruct (cp_sym cp =? sym); [wp|apply swp_ret; exact Hrest].
  eapply swp_mono; [apply Htop|]. intros err s' Hr. by wp.
Qed.

(** A write to the top that keeps its call path in use. *)
Lemma wp_set_top b f s : stack_ok b s -> 0 < ts_cnt s.1 ->
  (forall e, entry_ok (w_cpr s.2) (erase e) -> entry_ok (w_cpr s.2) (erase (f e))) ->
  wp (set_top f) (fun _ s' => stack_ok b s' /\ kept s s' /\ ts_cnt s'.1 = ts_cnt s.1) s.
Proof.
  intros Hs Hc Hf. destruct (nonempty_snoc b s Hs Hc) as (l & e & El). pose proof Hs as [H1 H2 H3 H4 H5 H6 H7].
  destruct (live_snoc_lookup _ _ _ (stack_ok_length _ _ Hs) El) as [Ec Ee]. unfold set_top. wp.
  apply (wp_set_entry _ e); [lia|done|done|]. intros ts e0 -> Elv Ecnt Esz Elen Esc. split; [|done].
  split; try done; cbn [fst snd]; [lia|lia|]. rewrite Elv. apply Forall_insert; [done|]. apply Hf.
  apply idx_inv in Ee as [_ Ee]. by apply (Forall_lookup_1 _ _ _ _ H6 Ee).
Qed.

Lemma top_used b s n e : stack_ok b s -> 0 < ts_cnt s.1 -> idx (live s.1) (ts_cnt s.1 - 1) = Some (erase e) -> tse_cp e = Some n ->
  used (w_cpr s.2) n.
Proof.
  intros Hs Hc E En. apply idx_inv in E as [_ E]. destruct (Forall_lookup_1 _ _ _ _ (so_live _ _ Hs) E) as (m & Em & Hm).
  cbn in Em. congruence.
Qed.

(** Finding a call path, pushing an entry with it, and more. *)
Lemma wp_push_found_then b b' parent sym ip ks ra tm ref nc te k s : stack_ok b s -> b + 2 <= b' < 2 ^ 50 -> used (w_cpr s.2) parent ->
  (forall s', stack_ok (b + 2) s' -> kept s s' -> 0 < ts_cnt s'.1 -> wp k (safe b' s') s') ->
  wp (cp ← find_call_path (Some parent) sym ip ks; on_ok (thread_stack__push_cp garbage ra tm ref cp nc te) k) (safe b' s) s.
Proof.
  intros Hs Hb Hu Hk. pose proof (so_cnt _ _ Hs) as Hc.
  pose proof (wp_push_found b parent sym ip ks ra tm ref nc te s Hs ltac:(lia) Hu) as Hpush.
  unfold wp in Hpush |- *. unfold mbind, M_bind in Hpush |- *. destruct (find_call_path _ _ _ _ s) as [[cp s1]|]; [|done].
  change (wp (on_ok (thread_stack__push_cp garbage ra tm ref cp nc te) k) (safe b' s) s1).
  apply wp_on_ok. eapply swp_mono; [exact Hpush|]. intros err s' [Hr Hcnt]. cbv beta. destruct (Z.eqb_spec err 0) as [E|].
  - specialize (Hcnt E). destruct Hr as (K1 & K2 & _). eapply swp_mono; [apply Hk; [done|done|lia]|].
    intros err' s'' Hr. by eapply safe_trans.
  - apply (safe_weaken (b + 2)); [lia|done].
Qed.

Lemma wp_push_target b me sample to_al ref parent s : stack_ok b s -> b + 4 < 2 ^ 50 -> used (w_cpr s.2) parent ->
  wp (push_target process garbage me sample to_al ref (Some parent)) (safe (b + 4) s) s.
Proof.
  intros Hs Hb Hu. pose proof (so_cnt _ _ Hs) as Hc. unfold push_target. wp.
  destruct (Z.eqb_spec (ts_cnt s.1) 1) as [E1|].
  - eapply swp_mono; [apply (wp_return_top_safe b); [done|lia]|]. intros err s1 [Hr Hcnt]. cbv beta.
    destruct (Z.eqb_spec err 0) as [E|]; [|apply (safe_weaken b); [lia|done]]. destruct Hr as (K1 & K2 & _).
    apply swp_bind, wp_the. destruct (Z.eqb_spec (ts_cnt s1.1) 0); [|lia].
    eapply swp_mono; [apply (wp_push_found b); [done|lia|by apply (root_used b)]|]. intros err' s2 [Hr _].
    eapply safe_trans; [exact K2|]. apply (safe_weaken (b + 2)); [lia|done].
  - wp. cbn [Z.eqb]. apply swp_bind, wp_the. destruct (Z.eqb_spec (ts_cnt s.1) 0).
    + eapply swp_mono; [apply (wp_push_found b); [done|lia|by apply (root_used b)]|]. intros err' s2 [Hr _].
      apply (safe_weaken (b + 2)); [lia|done].
    + apply (wp_push_found_then b); [done|lia|done|]. intros s' Hs' Hk Hc'. apply swp_bind.
      eapply swp_mono; [apply (wp_set_top (b + 2)); [done|lia|by intros e]|]. intros _ s'' (K3 & K4 & _). wp.
      apply safe_ok; [|done]. apply (stack_ok_weaken (b + 2)); [done|lia].
Qed.

Lemma wp_push_and_pop_source b me sample from_al to_al ref parent s : stack_ok b s -> b + 4 < 2 ^ 50 -> used (w_cpr s.2) parent ->
  wp (push_and_pop_source process garbage me sample from_al to_al ref (Some parent)) (safe (b + 4) s) s.
Proof.
  intros Hs Hb Hu. unfold push_and_pop_source. apply swp_bind, wp_the. wp.
  apply (wp_find_call_path b); [done|lia|done|]. intros cp w Hw Hk _ Hcp. destruct cp as [m|].
  2: { cbn [thread_stack__push_cp]. wp. split; [apply (stack_ok_weaken (b + 1)); [done|lia]|]. split; [done|]. by apply fails_alloc. }
  destruct Hcp as (Hm & _). wp. apply (wp_push_cp garbage (b + 1)); [done|lia|done|]. intros err s1 Hs1 Hk1 Ecpr _ Hres.
  replace (b + 1 + 1) with (b + 2) in Hs1 by lia. assert (kept s s1) as Hk2 by (by eapply kept_trans).
  destruct Hres as [[-> El]|(-> & El & Ea)].
  - change (0 =? 0) with true. cbv beta iota. apply swp_mono with (P := safe (b + 4) s1); [|by intros err s' Hr; eapply safe_trans].
    apply (wp_push_found_then (b + 2)); [done|lia|by rewrite Ecpr|]. intros s2 Hs2 _ Hc2.
    eapply swp_mono; [apply (wp_return_top_safe (b + 4)); [apply (stack_ok_weaken (b + 2 + 2)); [done|lia]|done]|].
    by intros err' s3 [Hr _].
  - apply (safe_weaken (b + 2)); [lia|]. split; [done|]. split; [done|]. eapply fails_kept; [exact Hk|]. by apply fails_alloc.
Qed.

Lemma wp_push_missing b me sample from_al to_al ref s : stack_ok b s -> b + 4 < 2 ^ 50 ->
  wp (push_missing process garbage me sample from_al to_al ref) (safe (b + 4) s) s.
Proof.
  intros Hs Hb. pose proof (so_cnt _ _ Hs) as Hc. unfold push_missing.
  assert (Hbody : forall n, used (w_cpr s.2) n -> wp (call_path_at (Some n)) (fun par s' =>
    wp (if cp_sym par =? al_sym from_al then push_target process garbage me sample to_al ref (Some n)
        else push_and_pop_source process garbage me sample from_al to_al ref (Some n)) (safe (b + 4) s) s') s).
  { intros n Hn. apply (wp_call_path_at b); [done|done|]. intros par _. destruct (_ =? _).
    - by apply wp_push_target.
    - by apply wp_push_and_pop_source. }
  wp. destruct (Z.eqb_spec (ts_cnt s.1) 0); cbn [negb].
  - wp. exact (Hbody 0%nat (root_used b s Hs)).
  - unfold top_entry. wp. apply (wp_entry_ok b); [done|lia|]. intros e m Em Hm _. wp. rewrite Em. exact (Hbody m Hm).
Qed.

Lemma wp_no_call_return b me sample from_al to_al ref s : stack_ok b s -> b + 4 < 2 ^ 50 ->
  wp (thread_stack__no_call_return process garbage me sample from_al to_al ref) (safe (b + 4) s) s.
Proof.
  intros Hs Hb. unfold thread_stack__no_call_return. apply swp_bind, wp_the. destruct (_ && _).
  - apply (wp_on_ok_safe (b + 4) b); [lia|by apply wp_pop_ks|]. intros s' Hs' _. apply swp_bind, wp_the.
    destruct (_ =? _); [|by apply wp_push_missing].
    eapply swp_mono; [apply (wp_push_found b); [done|lia|by apply (root_used b)]|]. intros err s'' [Hr _].
    apply (safe_weaken (b + 2)); [lia|done].
  - apply swp_bind, (wp_in_kernel b); [done|]. intros k _. apply (wp_on_ok_safe (b + 4) b); [lia| |].
    + destruct (_ && _); [by apply wp_pop_ks|]. wp. by apply safe_ok.
    + intros s' Hs' _. by apply wp_push_missing.
Qed.

Lemma wp_trace_begin b me tm ref s : stack_ok b s -> wp (thread_stack__trace_begin process me tm ref) (safe b s) s.
Proof.
  intros Hs. unfold thread_stack__trace_begin, top_entry. pose proof (so_cnt _ _ Hs) as Hc. wp.
  destruct (Z.eqb_spec (ts_cnt s.1) 0); wp; [by apply safe_ok|].
  apply (wp_entry_ok b); [done|lia|]. intros e m _ _ _. destruct (tse_trace_end e); wp; [|by apply safe_ok].
  eapply swp_mono; [apply (wp_return_top_safe b); [done|lia]|]. by intros err s' [Hr _].
Qed.

Lemma wp_trace_end b sample ref s : stack_ok b s -> b + 2 < 2 ^ 50 -> wp (thread_stack__trace_end garbage sample ref) (safe (b + 2) s) s.
Proof.
  intros Hs Hb. unfold thread_stack__trace_end, top_entry. pose proof (so_cnt _ _ Hs) as Hc. apply swp_bind, wp_the, swp_bind.
  assert (Hstop : wp (mret 0 : M (@TS D) Z) (safe (b + 2) s) s) by (apply swp_ret, safe_ok; [apply (stack_ok_weaken b); [done|lia]|done]).
  destruct (Z.eqb_spec (ts_cnt s.1) 0) as [|Hne]; [by wp_step|].
  assert (Hgo : wp (e ← (cnt ← the ts_cnt; entry (cnt - 1)); ks ← the ts_kernel_start; cp ← find_call_path (tse_cp e) 0 0 ks;
    thread_stack__push_cp garbage (u64 (s_ip sample + s_insn_len sample)) (s_time sample) ref cp false true) (safe (b + 2) s) s).
  { apply swp_bind, swp_bind, wp_the. apply (wp_entry_ok b); [done|lia|]. intros e m Em Hm _. apply swp_bind, wp_the. rewrite Em.
    eapply swp_mono; [by apply (wp_push_found b)|]. by intros err s' [Hr _]. }
  destruct (Z.eqb_spec (ts_cnt s.1) 1) as [E1|]; [|by wp_step].
  wp_step. apply (wp_entry_ok b); [done|lia|]. intros e m _ _ _. apply swp_ret. by destruct (_ =? _).
Qed.

Lemma wp_drop_top b s : stack_ok b s -> 0 < ts_cnt s.1 ->
  wp drop_top (fun _ s' => stack_ok b s' /\ kept s s' /\ ts_cnt s'.1 = ts_cnt s.1 - 1) s.
Proof.
  intros Hs Hc. destruct (nonempty_snoc b s Hs Hc) as (l & e & El). pose proof Hs as [H1 H2 H3 H4 H5 H6 H7].
  unfold drop_top. wp. split; [|done]. pose proof (live_pop s.1 l e ltac:(lia) El) as Elv.
  split; try done; [cbn; lia|]. cbn [fst snd]. rewrite Elv. rewrite El in H6. by apply List.Forall_app in H6 as [? _].
Qed.

Lemma wp_retpoline_finish b sample tsym (forget : bool) s0 s : stack_ok b s -> b + 2 < 2 ^ 50 -> kept s0 s -> 2 <= ts_cnt s.1 ->
  wp (if forget then drop_top;; mret 0
      else
        parent ← (cnt ← the ts_cnt; e ← entry (cnt - 2); mret (tse_cp e));
        ks ← the ts_kernel_start;
        cp ← find_call_path parent tsym (s_addr sample) ks;
        match cp with
        | None => mret (- ENOMEM)
        | Some _ => set_top (fun e => e <| tse_cp := cp |>);; mret 0
        end) (safe (b + 2) s0) s.
Proof.
  intros Hs Hb Hk0 Hc. apply (wp_safe_mono (b + 2) (b + 2) _ s s0); [lia|done|]. destruct forget.
  - apply swp_bind. eapply swp_mono; [apply (wp_drop_top b); [done|lia]|]. intros _ s' (K1 & K2 & _). wp.
    apply safe_ok; [apply (stack_ok_weaken b); [done|lia]|done].
  - apply swp_bind, swp_bind, wp_the, swp_bind. apply (wp_entry_ok b); [done|lia|]. intros e m Em Hm _. wp. rewrite Em.
    apply (wp_find_call_path b); [done|lia|done|]. intros cp w Hw Hk _ Hcp. destruct cp as [n|].
    + destruct Hcp as (Hn & _). wp. eapply swp_mono; [apply (wp_set_top (b + 1)); [done|cbn; lia|]|].
      * intros e0 _. by exists n.
      * intros _ s' (K1 & K2 & _). wp. apply safe_ok; [apply (stack_ok_weaken (b + 1)); [done|lia]|by eapply kept_trans].
    + wp. split; [apply (stack_ok_weaken (b + 1)); [done|lia]|]. split; [done|]. by apply fails_alloc.
Qed.

Lemma wp_x86_retpoline b sample to_al s : stack_ok b s -> b + 2 < 2 ^ 50 -> 2 < ts_cnt s.1 ->
  wp (thread_stack__x86_retpoline sample to_al) (safe (b + 2) s) s.
Proof.
  intros Hs Hb Hc. unfold thread_stack__x86_retpoline, top_entry. apply swp_bind, swp_bind, wp_the.
  apply (wp_entry_ok b); [done|lia|]. intros e m Em Hm _. apply swp_bind. rewrite Em.
  apply (wp_call_path_at b); [done|done|]. intros cp _. apply swp_bind. destruct (_ && _).
  - apply swp_bind. eapply swp_mono; [apply (wp_drop_top b); [done|lia]|]. intros _ s1 (K1 & K2 & K3).
    apply swp_bind, swp_bind, wp_the, swp_bind. apply (wp_entry_ok b); [done|lia|]. intros e1 m1 Em1 Hm1 _. wp. rewrite Em1.
    apply (wp_call_path_at b); [done|done|]. intros cp1 _. apply swp_ret. apply (wp_retpoline_finish b); [done|done|done|lia].
  - apply swp_ret. apply (wp_retpoline_finish b); [done|done|done|lia].
Qed.

(** ** A branch *)

(** What the thread keeps of its stacks. *)
Definition slot_safe b s (err : Z) s' : Prop :=
  stack_ok b s' /\ ts_crp s'.1 = ts_crp s.1 /\ ts_arr_sz s'.1 = ts_arr_sz s.1 /\
  (all_true (w_allocs s.2) -> all_true (w_allocs s'.2)) /\ cpr_grows (w_cpr s.2) (w_cpr s'.2) /\ fails (w_allocs s.2) err.

Lemma safe_slot b s err s' : safe b s err s' -> slot_safe b s err s'.
Proof.
  intros (K1 & K2 & K3). split; [done|]. split; [by apply (kept_the ts_crp)|]. split; [by apply (kept_the ts_arr_sz)|].
  destruct K2 as (_ & K2 & K4). by split.
Qed.

Lemma slot_trans b b' s1 s2 err err' s3 : b <= b' < 2 ^ 50 -> slot_safe b s1 err s2 -> slot_safe b' s2 err' s3 -> slot_safe b' s1 err' s3.
Proof.
  intros Hb (_ & H2 & H3 & H4 & H5 & _) (K1 & K2 & K3 & K4 & K6 & K5). split; [done|]. split; [congruence|]. split; [congruence|]. split; [auto|].
  split; [by eapply grows_trans|].
  destruct K5 as [?|[[? Hn]|?]]; [by left| |by right; right]. right; left. split; [done|]. auto.
Qed.

Lemma slot_weaken b b' s err s' : b <= b' < 2 ^ 50 -> slot_safe b s err s' -> slot_safe b' s err s'.
Proof. intros Hb (K1 & K2). split; [by apply (stack_ok_weaken b)|done]. Qed.

(** A stack that differs in scalars a thread does not look at. *)
Lemma slot_ok b s ts : stack_ok b s -> ts_stack ts = ts_stack s.1 -> ts_cnt ts = ts_cnt s.1 -> ts_sz ts = ts_sz s.1 ->
  ts_crp ts = ts_crp s.1 -> ts_arr_sz ts = ts_arr_sz s.1 -> slot_safe b s 0 (ts, s.2).
Proof.
  intros [H1 H2 H3 H4 H5 H6 H7] E1 E2 E3 E4 E5. split; [|split; [done|split; [done|split; [done|split; [apply grows_refl|by left]]]]].
  split; cbn [fst snd]; try done; try congruence. unfold live in *. by rewrite E1, E2.
Qed.

(** A sample of no branch has no symbol at its target. *)
Definition target_ok (sample : perf_sample) (to_al : addr_location) : Prop :=
  s_ip sample = 0 -> s_addr sample = 0 -> al_sym to_al = 0.

(** Pushing a call or a jump on the top entry. *)
Lemma wp_push_on_top b sym addr ra tm ref te s : stack_ok b s -> b + 2 < 2 ^ 50 -> 0 < ts_cnt s.1 ->
  wp (e ← top_entry; ks ← the ts_kernel_start; cp ← find_call_path (tse_cp e) sym addr ks;
      thread_stack__push_cp garbage ra tm ref cp false te)
    (fun err s' => safe (b + 2) s err s' /\ (err = 0 -> 0 < ts_cnt s'.1)) s.
Proof.
  intros Hs Hb Hc. unfold top_entry. pose proof (so_cnt _ _ Hs) as Hcnt. apply swp_bind, swp_bind, wp_the.
  apply (wp_entry_ok b); [done|lia|]. intros e m Em Hm _. apply swp_bind, wp_the. rewrite Em.
  eapply swp_mono; [by apply (wp_push_found b)|]. intros err s' [Hr Ec]. split; [done|]. intros E. specialize (Ec E). lia.
Qed.

Lemma wp_process_branch b me rstate sample from_al to_al ref s : stack_ok b s -> b + 4 < 2 ^ 50 -> target_ok sample to_al ->
  (s_ip sample <> 0 \/ s_addr sample <> 0 -> 0 < ts_cnt s.1) ->
  wp (process_branch process garbage me rstate sample from_al to_al ref)
    (slot_safe (b + 4) s) s.
Proof.
  intros Hs Hb Ht Hc. pose proof (so_cnt _ _ Hs) as Hcnt.
  set (post := slot_safe (b + 4) s).
  assert (Hpost : forall b' err s', b <= b' <= b + 4 -> safe b' s err s' -> post err s').
  { intros b' err s' Hb' Hr. apply (slot_weaken b'); [lia|]. by apply safe_slot. }
  assert (Hself : post 0 s) by (apply (Hpost b); [lia|by apply safe_ok]).
  unfold process_branch. cbv zeta. destruct (has (s_flags sample) PERF_IP_FLAG_CALL).
  { destruct (Z.eqb_spec (s_ip sample) 0) as [|Hip]; cbn [orb]; [by wp|].
    destruct (Z.eqb_spec (s_addr sample) 0) as [|Haddr]; [by wp|]. destruct (_ =? _); [by wp|].
    apply wp_on_ok. specialize (Hc (or_introl Hip)).
    eapply swp_mono; [apply (wp_push_on_top b); [done|lia|done]|]. intros err s' [Hr _]. cbv beta.
    apply (Hpost (b + 2)) in Hr; [|lia].
    destruct (Z.eqb_spec err 0) as [->|]; [|done]. destruct (_ && _); wp; [|done].
    eapply slot_trans; [|exact Hr|apply slot_ok; try done; apply Hr]. lia. }
  destruct (has (s_flags sample) PERF_IP_FLAG_RETURN).
  { destruct (Z.eqb_spec (s_addr sample) 0) as [|Haddr].
    { destruct (negb _); [by wp|]. eapply swp_mono; [by apply (wp_pop_ks b)|]. intros err s' Hr. apply (Hpost b); [lia|done]. }
    destruct (Z.eqb_spec (s_ip sample) 0) as [|Hip]; [by wp|]. specialize (Hc (or_introl Hip)).
    apply swp_bind, wp_the, swp_bind.
    assert (Hgo : forall detour : bool, (detour = true -> 2 < ts_cnt s.1) -> wp (if detour then thread_stack__x86_retpoline sample to_al
      else
        err ← thread_stack__pop_cp process me (s_addr sample) (s_time sample) ref (al_sym from_al);
        if err =? 0 then mret 0 else if err <? 0 then mret err
        else thread_stack__no_call_return process garbage me sample from_al to_al ref) post s).
    { intros [] H2.
      - eapply swp_mono; [apply (wp_x86_retpoline b); [done|lia|by apply H2]|]. intros err s' Hr. apply (Hpost (b + 2)); [lia|done].
      - apply swp_bind. eapply swp_mono; [by apply (wp_pop_cp b)|]. intros err s' (K1 & K2 & K3). cbv beta.
        destruct (Z.eqb_spec err 0) as [->|Hne]; [apply swp_ret; apply (Hpost b); [lia|by apply safe_ok]|].
        destruct (Z.ltb_spec err 0) as [Hneg|].
        + apply swp_ret. apply (Hpost b); [lia|]. split; [done|]. split; [done|]. by destruct K3 as [->|?].
        + eapply swp_mono; [by apply (wp_no_call_return b)|]. intros err' s'' Hr. apply (Hpost (b + 4)); [lia|]. by eapply safe_trans. }
    destruct (bool_decide _); cbn [andb]; [|apply swp_ret; by apply (Hgo false)].
    destruct (Z.ltb_spec 2 (ts_cnt s.1)); [|apply swp_ret; by apply (Hgo false)].
    unfold top_entry. apply swp_bind, swp_bind, wp_the. apply (wp_entry_ok b); [done|lia|]. intros e m _ _ _. apply swp_ret. by apply Hgo. }
  destruct (has (s_flags sample) PERF_IP_FLAG_TRACE_BEGIN).
  { eapply swp_mono; [by apply (wp_trace_begin b)|]. intros err s' Hr. apply (Hpost b); [lia|done]. }
  destruct (has (s_flags sample) PERF_IP_FLAG_TRACE_END).
  { eapply swp_mono; [apply (wp_trace_end b); [done|lia]|]. intros err s' Hr. apply (Hpost (b + 2)); [lia|done]. }
  destruct (_ && _) eqn:Ecase; [|by wp].
  assert (0 < ts_cnt s.1) as Hc1.
  { destruct (Z.eq_dec (s_ip sample) 0) as [Ei|]; [|apply Hc; by left]. destruct (Z.eq_dec (s_addr sample) 0) as [Ea|]; [|apply Hc; by right].
    rewrite (Ht Ei Ea) in Ecase. cbn in Ecase. by rewrite andb_false_r in Ecase. }
  apply wp_on_ok. eapply swp_mono; [apply (wp_push_on_top b); [done|lia|done]|]. intros err s' [Hr Hc']. cbv beta.
  destruct (Z.eqb_spec err 0) as [E|]; [|apply (Hpost (b + 2)); [lia|done]]. destruct Hr as (K1 & K2 & _).
  apply swp_bind. eapply swp_mono; [apply (wp_set_top (b + 2)); [done|by apply Hc'|by intros e]|]. intros _ s'' (K3 & K4 & _). wp.
  apply (Hpost (b + 2)); [lia|]. apply safe_ok; [done|by eapply kept_trans].
Qed.

(** ** The whole of a stack *)

Lemma empty_ok b s : stack_ok b s -> stack_ok b (s.1 <| ts_cnt := 0 |>, s.2).
Proof. intros [H1 H2 H3 H4 H5 H6 H7]. split; try done. cbn. lia. Qed.

Lemma wp_flush_loop b me s : forall n, stack_ok b s -> Z.of_nat n <= ts_cnt s.1 -> wp (flush_loop process me n) (safe b s) s.
Proof.
  intros n. revert s. induction n as [|n IH]; intros s Hs Hn; cbn [flush_loop]; [wp; by apply safe_ok|].
  apply swp_bind, wp_the, swp_bind. eapply swp_mono; [apply (wp_return_top_safe b); [done|lia]|]. intros err s1 [Hr Ec]. cbv beta.
  destruct (negb (err =? 0)).
  - wp. destruct Hr as (K1 & K2 & K3). split; [by apply empty_ok|]. split; [|done]. by destruct K2.
  - destruct Hr as (K1 & K2 & _). eapply swp_mono; [apply IH; [done|lia]|]. intros err' s2 Hr. by eapply safe_trans.
Qed.

Lemma wp_flush b me s : stack_ok b s -> wp (__thread_stack__flush process me) (slot_safe b s) s.
Proof.
  intros Hs. unfold __thread_stack__flush. apply swp_bind, wp_the. destruct (ts_crp s.1) eqn:Ecrp; cbn [negb].
  - apply swp_bind, wp_the. pose proof (so_cnt _ _ Hs) as Hc. eapply swp_mono; [apply (wp_flush_loop b); [done|lia]|].
    intros err s' Hr. by apply safe_slot.
  - wp. split; [by destruct (empty_ok b s Hs)|]. split; [done|]. split; [done|]. split; [done|]. split; [apply grows_refl|by left].
Qed.

Lemma wp_flush_on_exec b me comm s : stack_ok b s -> wp (flush_on_exec process me comm) (slot_safe b s) s.
Proof.
  intros Hs. unfold flush_on_exec. apply swp_bind, wp_the. pose proof (so_bound _ _ Hs) as Hb.
  destruct (_ && _); [|wp; by apply safe_slot, safe_ok].
  apply wp_on_ok. eapply swp_mono; [by apply (wp_flush b)|]. intros err s' Hr. cbv beta. destruct (err =? 0); [|done].
  wp. eapply slot_trans; [|exact Hr|]; [lia|]. apply slot_ok; try done. apply Hr.
Qed.

Lemma wp_process_from_bottom b me rstate sample from_al to_al ref s : stack_ok b s -> b + 6 < 2 ^ 50 -> target_ok sample to_al ->
  wp (process_from_bottom process garbage me rstate sample from_al to_al ref) (slot_safe (b + 6) s) s.
Proof.
  intros Hs Hb Ht. unfold process_from_bottom. apply swp_bind, wp_the, wp_on_ok. pose proof (so_cnt _ _ Hs) as Hc.
  assert (Hbr : forall s2, safe (b + 2) s 0 s2 -> (s_ip sample <> 0 \/ s_addr sample <> 0 -> 0 < ts_cnt s2.1) ->
    wp (update (count_sample sample);; process_branch process garbage me rstate sample from_al to_al ref) (slot_safe (b + 6) s) s2).
  { intros s2 Hs2 Hc2. apply swp_bind, wp_update.
    assert (slot_safe (b + 2) s2 0 (count_sample sample s2.1, s2.2)) as Hcount by (apply slot_ok; try done; apply Hs2).
    eapply swp_mono; [apply (wp_process_branch (b + 2)); [apply Hcount|lia|done|exact Hc2]|].
    intros err s3 Hr. replace (b + 2 + 4) with (b + 6) in Hr by lia.
    eapply slot_trans; [|by apply safe_slot|eapply slot_trans; [|exact Hcount|exact Hr]]; lia. }
  destruct (Z.eqb_spec (ts_cnt s.1) 0) as [E0|Hne].
  - eapply swp_mono; [apply (wp_bottom b); [done|lia]|]. intros err s2 [Hr Hc']. cbv beta. destruct (Z.eqb_spec err 0) as [->|].
    + apply Hbr; [done|]. intros Hne. destruct (Hc' eq_refl) as [_ Hc2]. specialize (Hc2 Hne). lia.
    + apply (slot_weaken (b + 2)); [lia|]. by apply safe_slot.
  - apply swp_ret. change (0 =? 0) with true. cbv beta iota. apply Hbr; [|lia]. apply safe_ok; [apply (stack_ok_weaken b); [done|lia]|done].
Qed.

Lemma wp_process_on_stack b me comm sample from_al to_al ref s : stack_ok b s -> b + 6 < 2 ^ 50 -> target_ok sample to_al ->
  wp (process_on_stack process garbage me comm sample from_al to_al ref) (slot_safe (b + 6) s) s.
Proof.
  intros Hs Hb Ht. unfold process_on_stack. apply swp_bind, wp_the, swp_bind.
  assert (Hgo : forall rstate s1, slot_safe b s 0 s1 ->
    wp (on_ok (flush_on_exec process me comm) (process_from_bottom process garbage me rstate sample from_al to_al ref)) (slot_safe (b + 6) s) s1).
  { intros rstate s1 H1. apply wp_on_ok. eapply swp_mono; [apply (wp_flush_on_exec b); apply H1|]. intros err s2 H2. cbv beta.
    assert (slot_safe b s err s2) as H3 by (eapply slot_trans; [|exact H1|exact H2]; pose proof (so_bound _ _ Hs); lia).
    destruct (err =? 0); [|apply (slot_weaken b); [lia|done]].
    eapply swp_mono; [apply (wp_process_from_bottom b); [apply H3|done|done]|]. intros err' s4 H4. eapply slot_trans; [|exact H3|exact H4]. lia. }
  destruct (bool_decide _); wp_step; apply Hgo; [by apply slot_ok|by apply safe_slot, safe_ok].
Qed.
End steps.
