(* ===== verification/ThreadTheorems.v ===== *)
(** The stacks of calls of a thread: any run of [thread_stack__process] is safe. *)
From Stdlib Require Import ZArith Lia List Bool String.
From S2P Require Import Prelude RbTree CallPath CallPathTheorems PtInsn ThreadStack ThreadCalls ThreadSafe ThreadSteps.
Open Scope Z_scope.
Open Scope c_scope.
Import ListNotations.

(** ** The array of thread stacks *)

Section thread.
Context {D : Type} (process : call_return -> option Z -> D -> Z * Z * D) (garbage : thread_stack_entry) `{Symbols}.
Implicit Types (th : thread) (w : world D).

(** A thread stack that [thread_stack__process] may find: made by it, or by
    [thread_stack__event]. *)
Record ts_ok (b : Z) w (ts : thread_stack) : Prop := {
  to_len : Z.of_nat (length (ts_stack ts)) = ts_sz ts;
  to_sz : ts_sz ts <= STACK_GROWTH * b;
  to_cnt : 0 <= ts_cnt ts <= ts_sz ts;
  to_live : ts_crp ts = true -> Forall (entry_ok (w_cpr w)) (live ts)
}.

Record thread_ok (b : Z) (s : @TH D) : Prop := {
  th_cpr : cpr_ok (w_cpr s.2);
  th_next : cpr_next (w_cpr s.2) <= b;
  th_bound : b < 2 ^ 50;
  th_arr : match th_ts s.1 with [] => True | ts :: _ => ts_arr_sz ts = Z.of_nat (length (th_ts s.1)) end;
  th_slots : Forall (ts_ok b s.2) (th_ts s.1)
}.

Lemma ts_ok_weaken b b' w ts : b <= b' -> ts_ok b w ts -> ts_ok b' w ts.
Proof. intros Hb [H1 H2 H3 H4]. unfold STACK_GROWTH in *. split; unfold STACK_GROWTH; try done; lia. Qed.

Lemma ts_ok_grows b w w' ts : cpr_grows (w_cpr w) (w_cpr w') -> ts_ok b w ts -> ts_ok b w' ts.
Proof. intros Hg [H1 H2 H3 H4]. split; try done. intros Hc. by eapply grows_entries, H4. Qed.

Lemma zero_ts_ok b w n : 0 <= b -> ts_ok b w (zero_ts <| ts_arr_sz := n |>).
Proof. intros Hb. unfold STACK_GROWTH. split; unfold STACK_GROWTH; cbn; try done; lia. Qed.

Lemma thread_bound_nonneg b s : thread_ok b s -> 0 <= b.
Proof. intros [H1 H2 _ _ _]. pose proof (bk_next _ (ck_blocks _ H1)). lia. Qed.

Lemma thread_ok_world b th w w' : w_cpr w' = w_cpr w -> thread_ok b (th, w) -> thread_ok b (th, w').
Proof.
  intros E [H1 H2 H3 H4 H5]. cbn [fst snd] in *. split; cbn [fst snd]; rewrite ?E; try done.
  eapply List.Forall_impl; [|exact H5]. intros t. apply ts_ok_grows. rewrite E. apply grows_refl.
Qed.

Lemma thread_ok_weaken b b' s : thread_ok b s -> b <= b' < 2 ^ 50 -> thread_ok b' s.
Proof.
  intros [H1 H2 H3 H4 H5] Hb. split; try done; [lia|lia|]. eapply List.Forall_impl; [|exact H5]. intros t. apply ts_ok_weaken. lia.
Qed.

(** Only one slot changes. *)
Lemma thread_ok_slot b b' th w pos ts w' : thread_ok b (th, w) -> b <= b' < 2 ^ 50 -> 0 <= pos < Z.of_nat (length (th_ts th)) ->
  cpr_ok (w_cpr w') -> cpr_next (w_cpr w') <= b' -> cpr_grows (w_cpr w) (w_cpr w') -> ts_ok b' w' ts ->
  (forall ts0, idx (th_ts th) pos = Some ts0 -> ts_arr_sz ts = ts_arr_sz ts0) ->
  thread_ok b' (th <| th_ts := <[Z.to_nat pos := ts]> (th_ts th) |>, w').
Proof.
  intros [H1 H2 H3 H4 H5] Hb Hpos C1 C2 Hg Hts Harr. cbn [fst snd] in *. split; cbn [fst snd]; try done; [lia| |].
  - cbn. rewrite length_insert. destruct (th_ts th) as [|t0 r] eqn:E; [done|].
    destruct (Z.to_nat pos) as [|n] eqn:En; cbn; [|done]. rewrite (Harr t0); [done|]. unfold idx.
    destruct (Z.ltb_spec pos 0); [lia|]. by rewrite En.
  - cbn. apply Forall_insert; [|done]. eapply List.Forall_impl; [|exact H5]. intros t Ht. apply (ts_ok_weaken b); [lia|]. by eapply ts_ok_grows.
Qed.

Lemma wp_at_ts {A} pos (m : M (@TS D) A) (Q : A -> @TH D -> Prop) th w ts : idx (th_ts th) pos = Some ts ->
  wp m (fun x s' => Q x (th <| th_ts := <[Z.to_nat pos := s'.1]> (th_ts th) |>, s'.2)) (ts, w) -> wp (at_ts pos m) Q (th, w).
Proof.
  intros E Hm. apply idx_inv in E as Hlt. destruct Hlt as [Hlt _]. unfold wp, at_ts in *. rewrite E. cbn [mbind option_bind].
  destruct (m (ts, w)) as [[x [ts' w']]|]; [|done]. cbn [mbind option_bind]. by rewrite set_at_eq.
Qed.

(** Reading a slot. *)
Lemma wp_at_the {A} pos (f : thread_stack -> A) (Q : A -> @TH D -> Prop) th w ts : idx (th_ts th) pos = Some ts ->
  Q (f ts) (th, w) -> wp (at_ts pos (the f)) Q (th, w).
Proof.
  intros E HQ. apply (wp_at_ts _ _ _ _ _ ts); [done|]. apply wp_the. cbn.
  apply idx_inv in E as [Hlt E]. rewrite list_insert_id by done. by destruct th.
Qed.

Lemma wp_at_get {A} pos (f : thread_stack -> A) (Q : A -> @TH D -> Prop) th w : 0 <= pos < Z.of_nat (length (th_ts th)) ->
  (forall ts, idx (th_ts th) pos = Some ts -> Q (f ts) (th, w)) -> wp (at_ts pos (the f)) Q (th, w).
Proof. intros Hpos HQ. destruct (idx_range _ _ Hpos) as [ts E]. apply (wp_at_the _ _ _ _ _ ts); [done|]. by apply HQ. Qed.

(** The slot of a CPU. *)
Definition slot_pos th (cpu : Z) : Z := if thread_stack__per_cpu th then Z.max cpu 0 else 0.

Lemma thread__stack_ok b th w cpu : thread_ok b (th, w) -> exists r, thread__stack th cpu = Some r /\
  match r with
  | Some pos => pos = slot_pos th cpu /\ 0 <= pos < Z.of_nat (length (th_ts th))
  | None => forall ts, idx (th_ts th) (slot_pos th cpu) = Some ts -> ts_stack ts = []
  end.
Proof.
  intros [_ _ _ Harr _]. cbn [fst] in Harr. unfold thread__stack, slot_pos. destruct (thread_stack__per_cpu th).
  - unfold thread__cpu_stack. assert ((if cpu <? 0 then 0 else cpu) = Z.max cpu 0) as -> by (destruct (Z.ltb_spec cpu 0); lia).
    destruct (th_ts th) as [|t0 r] eqn:E.
    + exists None. split; [done|]. intros ts Ets. apply idx_inv in Ets as [Hlt _]. cbn in Hlt. lia.
    + destruct (Z.leb_spec (ts_arr_sz t0) (Z.max cpu 0)).
      * exists None. split; [done|]. intros ts Ets. apply idx_inv in Ets as [Hlt _]. lia.
      * destruct (idx_range (t0 :: r) (Z.max cpu 0)) as [ts Ets]; [lia|]. rewrite Ets. cbn [mbind option_bind].
        destruct (ts_stack ts) eqn:Est; (eexists; split; [done|]).
        -- intros ts' Ets'. congruence.
        -- split; [done|lia].
  - destruct (th_ts th) as [|t0 r] eqn:E.
    + exists None. split; [done|]. intros ts Ets. apply idx_inv in Ets as [Hlt _]. cbn in Hlt. lia.
    + exists (Some 0). split; [done|]. cbn [length]. lia.
Qed.

Lemma roundup_bounds cpu : 0 < cpu < 2 ^ 31 -> cpu < u32 (roundup_pow_of_two (cpu + 1)).
Proof.
  intros Hc. unfold roundup_pow_of_two. replace (cpu + 1 - 1) with cpu by lia. rewrite Z.shiftl_1_l.
  pose proof (Z.log2_nonneg cpu). pose proof (Z.log2_spec cpu ltac:(lia)) as [_ Hs].
  assert (Z.log2 cpu < 31) by (apply Z.log2_lt_pow2; lia).
  rewrite u32_small; [lia|]. split; [lia|]. apply Z.pow_lt_mono_r; lia.
Qed.

(** What growing the array leaves alone. *)
Definition same_thread (s s' : @TH D) : Prop :=
  th_tid s'.1 = th_tid s.1 /\ th_pid s'.1 = th_pid s.1 /\ th_machine s'.1 = th_machine s.1 /\
  (all_true (w_allocs s.2) -> all_true (w_allocs s'.2)) /\ cpr_grows (w_cpr s.2) (w_cpr s'.2).

(** The array with zeroed elements added. *)
Definition grown th (n : Z) : list thread_stack :=
  let old := th_ts th in
  <[0%nat := match old with ts :: _ => ts | [] => zero_ts end <| ts_arr_sz := n |>]>
    (old ++ replicate (Z.to_nat n - length old) zero_ts).

Lemma grown_ok b n th w : thread_ok b (th, w) -> Z.of_nat (length (th_ts th)) < n -> thread_ok b (th <| th_ts := grown th n |>, w).
Proof.
  intros Hth Hn. pose proof (thread_bound_nonneg _ _ Hth) as Hb. destruct Hth as [H1 H2 H3 H4 H5]. cbn [fst snd] in *.
  assert (length (grown th n) = Z.to_nat n) as El by (unfold grown; rewrite length_insert, length_app, length_replicate; lia).
  split; cbn [fst snd]; try done.
  - change (th_ts (th <| th_ts := grown th n |>)) with (grown th n). destruct (grown th n) as [|t r] eqn:E; [done|].
    assert (ts_arr_sz t = n) as ->; [|rewrite El; lia]. unfold grown in E.
    destruct (th_ts th) as [|t0 r0]; cbn in E; [|by injection E as <- _].
    destruct (Z.to_nat n - 0)%nat as [|k] eqn:Ek; [cbn in Hn; lia|]. cbn in E. by injection E as <- _.
  - change (Forall (ts_ok b w) (grown th n)). unfold grown. apply Forall_insert.
    + apply List.Forall_app. split; [done|]. apply Forall_replicate.
      exact (zero_ts_ok b w 0 Hb).
    + destruct (th_ts th) as [|t0 r]; [by apply zero_ts_ok|]. inversion H5 as [|? ? Hok ?]. subst. by destruct Hok.
Qed.

(** Its slots are zero, or as they were but for the size of the array. *)
Definition slot_from th (i : Z) (ts : thread_stack) : Prop :=
  exists ts0 k, ts = ts0 <| ts_arr_sz := k |> /\ (ts0 = zero_ts \/ idx (th_ts th) i = Some ts0).

Lemma grown_slot th n i ts : idx (grown th n) i = Some ts -> slot_from th i ts.
Proof.
  intros E. apply idx_inv in E as [Hi E]. unfold slot_from, idx. destruct (Z.ltb_spec i 0); [lia|]. unfold grown in E.
  apply list_lookup_insert_Some in E as [(<- & <- & _)|[_ E]].
  - destruct (th_ts th) as [|t0 r]; [by exists zero_ts, n; split; [|left]|]. exists t0, n. by split; [|right].
  - exists ts, (ts_arr_sz ts). split; [by destruct ts|].
    apply lookup_app_Some in E as [E|[_ E]]; [by right|]. apply lookup_replicate in E as [-> _]. by left.
Qed.

Lemma same_thread_refl s : same_thread s s.
Proof. done. Qed.

Lemma same_thread_ts th w tss : same_thread (th, w) (th <| th_ts := tss |>, mkWorld (w_cpr w) (next_allocs (w_allocs w)) (w_data w)).
Proof. split_and!; try done. apply next_all_true. Qed.

Lemma wp_grow_array b n (Q : bool -> @TH D -> Prop) th w : thread_ok b (th, w) -> 0 < n ->
  (forall th' w', thread_ok b (th', w') -> same_thread (th, w) (th', w') -> n <= Z.of_nat (length (th_ts th')) ->
     (forall i ts, idx (th_ts th') i = Some ts -> slot_from th i ts) -> w_data w' = w_data w ->
     Q true (th', w')) ->
  (forall w', w_allocs w 0%nat = false -> thread_ok b (th, w') -> same_thread (th, w) (th, w') -> Q false (th, w')) ->
  wp (grow_array n) Q (th, w).
Proof.
  intros Hth Hn HQ Hfail. unfold grow_array. apply swp_bind, swp_gets. cbv zeta. cbn [fst].
  set (old_sz := match th_ts th with ts :: _ => ts_arr_sz ts | [] => 0 end).
  assert (old_sz = Z.of_nat (length (th_ts th))) as Eold.
  { pose proof (th_arr _ _ Hth) as Harr. cbn [fst] in Harr. subst old_sz. by destruct (th_ts th). }
  destruct (match th_ts th with [] => true | _ => old_sz <? n end) eqn:Ego.
  - assert (Z.of_nat (length (th_ts th)) < n) as Hlt.
    { destruct (th_ts th) as [|t0 r] eqn:E; [cbn; lia|]. apply Z.ltb_lt in Ego. lia. }
    apply swp_bind, wp_alloc. cbn [fst snd].
    assert (thread_ok b (th, mkWorld (w_cpr w) (next_allocs (w_allocs w)) (w_data w))) as Hth' by (by apply (thread_ok_world b th w)).
    destruct (w_allocs w 0%nat) eqn:Ea; cbn [negb].
    + rewrite Eold, Z.leb_refl, Nat2Z.id, take_ge by done. apply swp_bind, wp_deref.
      replace (Z.to_nat (n - Z.of_nat (length (th_ts th)))) with (Z.to_nat n - length (th_ts th))%nat by lia.
      rewrite set_at_eq by (rewrite length_app, length_replicate; lia). apply swp_bind, wp_deref.
      apply swp_bind, swp_modify, swp_ret. cbn [fst snd].
      apply (HQ (th <| th_ts := grown th n |>)); [by apply grown_ok|apply same_thread_ts| |apply grown_slot|done].
      cbn. unfold grown. rewrite length_insert, length_app, length_replicate. lia.
    + apply swp_ret. apply Hfail; [done|done|]. split_and!; try done. apply next_all_true.
  - apply swp_ret. apply HQ; [done|apply same_thread_refl| | |done].
    2: { intros i ts E. exists ts, (ts_arr_sz ts). split; [by destruct ts|by right]. }
    destruct (th_ts th) as [|t0 r] eqn:E; [done|]. apply Z.ltb_ge in Ego. lia.
Qed.

Lemma s32_max z : s32 z < 2 ^ 31.
Proof.
  unfold swrap. pose proof (u32_range z) as Hr. destruct (Z.testbit (u32 z) (32 - 1)) eqn:E; [lia|].
  apply bits_bound; [lia|lia|]. intros i Hi. destruct (Z.eq_dec i 31) as [->|]; [exact E|]. apply (testbit_high 32); [done|lia].
Qed.

Lemma stack_ok_ts b ts w : stack_ok b (ts, w) -> ts_ok b w ts.
Proof. by intros [H1 H2 H3 H4 H5 H6 H7]. Qed.

Lemma ts_stack_ok b th w pos ts : thread_ok b (th, w) -> idx (th_ts th) pos = Some ts -> ts_crp ts = true \/ ts_stack ts = [] ->
  stack_ok b (ts, w).
Proof.
  intros [H1 H2 H3 H4 H5] E Hc. apply idx_inv in E as [_ E]. destruct (Forall_lookup_1 _ _ _ _ H5 E) as [K1 K2 K3 K4].
  split; try done. destruct Hc as [Hc|Hc]; [by apply K4|]. unfold live. cbn. rewrite Hc. by rewrite take_nil.
Qed.

(** A slot after a step on it. *)
Lemma thread_ok_step b b' th w pos ts s' : thread_ok b (th, w) -> b <= b' -> idx (th_ts th) pos = Some ts ->
  stack_ok b' s' -> cpr_grows (w_cpr w) (w_cpr s'.2) -> (all_true (w_allocs w) -> all_true (w_allocs s'.2)) -> ts_arr_sz s'.1 = ts_arr_sz ts ->
  thread_ok b' (th <| th_ts := <[Z.to_nat pos := s'.1]> (th_ts th) |>, s'.2) /\
  same_thread (th, w) (th <| th_ts := <[Z.to_nat pos := s'.1]> (th_ts th) |>, s'.2).
Proof.
  intros Hth Hb E Hs Hg Ha Harr. apply idx_inv in E as Hpos. destruct Hpos as [Hpos E']. pose proof Hs as [K1 K2 _ _ _ _ K7]. split.
  - apply (thread_ok_slot b b' th w pos); try done; [by destruct s'; apply stack_ok_ts|]. intros ts0 E0. congruence.
  - by split_and!.
Qed.

(** A new stack of calls. *)
Lemma wp_init b th w ts : stack_ok b (ts, w) -> b + 1 < 2 ^ 50 ->
  wp (thread_stack__init garbage th true true 0) (fun err s' => stack_ok (b + 1) s' /\ ts_arr_sz s'.1 = ts_arr_sz ts /\
    (all_true (w_allocs w) -> all_true (w_allocs s'.2)) /\ cpr_grows (w_cpr w) (w_cpr s'.2) /\
    w_data s'.2 = w_data w /\ live s'.1 = live ts /\ (ts_rstate ts <> X86_RETPOLINE_DETECTED -> ts_rstate s'.1 <> X86_RETPOLINE_DETECTED) /\
    (err = 0 /\ ts_crp s'.1 = true \/ err = - ENOMEM /\ w_allocs w 0%nat = false)) (ts, w).
Proof.
  intros Hs Hb. unfold thread_stack__init. apply wp_on_ok. change (0 =? 0) with true. cbv beta iota.
  apply (wp_grow garbage b); [done|done|]. intros err s' Hs' Hk El _ _ Ed Herr. pose proof Hk as (_ & Ha & Hg).
  pose proof (kept_the ts_rstate _ _ Hk ltac:(done)) as Hrst.
  pose proof (kept_the ts_arr_sz _ _ Hk ltac:(done)) as Harr. cbn [fst snd] in *.
  destruct Herr as [[-> _]|[-> Ea]]; [|split_and!; try done; [by rewrite Hrst|by right]].
  change (0 =? 0) with true. cbv beta iota. apply wp_on_ok, swp_ret. change (0 =? 0) with true. cbv beta iota. apply swp_bind.
  assert (forall ts', ts_stack ts' = ts_stack s'.1 -> ts_cnt ts' = ts_cnt s'.1 -> ts_sz ts' = ts_sz s'.1 ->
    ts_arr_sz ts' = ts_arr_sz s'.1 -> stack_ok (b + 1) (ts' <| ts_crp := true |>, s'.2)) as Hok.
  { intros ts' E1 E2 E3 E4. destruct Hs' as [H1 H2 H3 H4 H5 H6 H7].
    split; cbn [fst snd]; try done; unfold live in *; cbn; rewrite ?E1, ?E2, ?E3; done. }
  destruct (th_machine th) as [m|]; [destruct (String.eqb _ _)|]; wp;
    (split; [by apply Hok|]; split; [done|]; split; [done|]; split; [done|]; split; [done|]; split; [done|];
     split; [cbn; by rewrite ?Hrst|by left]).
Qed.

(** A stack just made, on a CPU. *)
Definition fresh_stack th (cpu : Z) (ts : thread_stack) : Prop :=
  live ts = [] /\ ((forall ts0, idx (th_ts th) (slot_pos th cpu) = Some ts0 -> ts_rstate ts0 <> X86_RETPOLINE_DETECTED) ->
    ts_rstate ts <> X86_RETPOLINE_DETECTED).

Lemma wp_new b cpu th w : thread_ok b (th, w) -> b + 1 < 2 ^ 50 -> cpu < 2 ^ 31 ->
  (forall ts, idx (th_ts th) (slot_pos th cpu) = Some ts -> ts_stack ts = []) ->
  wp (thread_stack__new garbage cpu true true 0) (fun r s' => thread_ok (b + 1) s' /\ same_thread (th, w) s' /\
    match r with
    | Some pos => w_data s'.2 = w_data w /\ pos = slot_pos th cpu /\
        exists ts, idx (th_ts s'.1) pos = Some ts /\ ts_crp ts = true /\ fresh_stack th cpu ts
    | None => ~ all_true (w_allocs w)
    end) (th, w).
Proof.
  intros Hth Hb Hcpu Hslot. unfold thread_stack__new. apply swp_bind, swp_gets, swp_bind. cbn [fst].
  set (n := if _ && _ then _ else 1).
  assert (slot_pos th cpu < n /\ 0 < n) as [Hn Hn0].
  { subst n. unfold slot_pos. destruct (thread_stack__per_cpu th); cbn [andb]; [|lia].
    destruct (Z.ltb_spec 0 cpu); [|lia]. pose proof (roundup_bounds cpu). lia. }
  apply (wp_grow_array b); [done|done| |].
  2: { intros w' Ea Hth' Hsame. apply swp_ret. split; [apply (thread_ok_weaken b); [done|lia]|]. split; [done|].
    intros Ht. by rewrite Ht in Ea. }
  intros th' w' Hth' Hsame Hlen Hslots Edata. cbn [negb]. apply swp_bind, wp_at_get; [lia|]. intros ts0 E0.
  assert (Earr : ts_arr_sz ts0 = Z.of_nat (length (th_ts th'))).
  { pose proof (th_arr _ _ Hth') as Harr. cbn [fst] in Harr. destruct (th_ts th') as [|t0 r]; [done|]. by injection E0 as ->. }
  assert ((if thread_stack__per_cpu th && (0 <? cpu) && (cpu <? ts_arr_sz ts0) then cpu else 0) = slot_pos th cpu) as ->.
  { unfold slot_pos in Hn |- *. destruct (thread_stack__per_cpu th); cbn [andb]; [|done]. destruct (Z.ltb_spec 0 cpu); cbn [andb]; [|lia].
    destruct (Z.ltb_spec cpu (ts_arr_sz ts0)); lia. }
  assert (0 <= slot_pos th cpu) as Hpos by (unfold slot_pos; destruct (thread_stack__per_cpu th); lia).
  destruct (idx_range (th_ts th') (slot_pos th cpu)) as [ts Ets]; [lia|].
  destruct (Hslots _ _ Ets) as (ts1 & k & Ets1 & Hts1).
  assert (ts_stack ts = []) as Est by (rewrite Ets1; destruct Hts1 as [->|E1]; [done|exact (Hslot _ E1)]).
  apply swp_bind, (wp_at_the _ _ _ _ _ ts); [done|]. rewrite Est. apply swp_bind, (wp_at_ts _ _ _ _ _ ts); [done|].
  pose proof (ts_stack_ok _ _ _ _ _ Hth' Ets (or_intror Est)) as Hs.
  eapply swp_mono; [apply (wp_init b); [exact Hs|done]|]. cbv beta. intros err s' (K1 & K2 & K3 & K4 & K6 & K7 & K8 & K5).
  destruct (thread_ok_step b (b + 1) th' w' _ ts s' Hth' ltac:(lia) Ets K1 K4 K3 K2) as [T1 T2].
  destruct Hsame as (S1 & S2 & S3 & S4 & S5), T2 as (U1 & U2 & U3 & U4 & U5). cbn [fst snd] in *.
  apply swp_ret. split; [done|]. split; [split_and!; cbn [fst snd]; try congruence; [auto|by eapply grows_trans]|].
  destruct K5 as [[-> Hc]|[-> Ea]].
  - change (negb (0 =? 0)) with false. split; [by cbn; rewrite K6|]. split; [done|]. exists s'.1. split; [|split; [done|split]].
    + cbn. rewrite idx_insert by (apply idx_inv in Ets as [? _]; lia). by rewrite Z.eqb_refl.
    + rewrite K7. unfold live. by rewrite Est, take_nil.
    + intros Hrst. apply K8. rewrite Ets1. destruct Hts1 as [->|E1]; [done|]. exact (Hrst ts1 E1).
  - change (negb (- ENOMEM =? 0)) with true. intros Ht. apply S4 in Ht. by rewrite Ht in Ea.
Qed.

Lemma same_thread_trans s1 s2 s3 : same_thread s1 s2 -> same_thread s2 s3 -> same_thread s1 s3.
Proof.
  intros (S1 & S2 & S3 & S4 & S5) (U1 & U2 & U3 & U4 & U5). split_and!; try congruence; [auto|by eapply grows_trans].
Qed.

(** [thread_stack__reset] of a stack kept by [thread_stack__event]. *)
Lemma wp_reset b th w pos ts (Q : unit -> @TH D -> Prop) : thread_ok b (th, w) -> idx (th_ts th) pos = Some ts -> ts_crp ts = false ->
  (forall th', thread_ok b (th', w) -> same_thread (th, w) (th', w) ->
     (forall ts', idx (th_ts th') pos = Some ts' -> ts_stack ts' = []) -> Q tt (th', w)) ->
  wp (at_ts pos (thread_stack__reset process (who th))) Q (th, w).
Proof.
  intros Hth E Hc HQ. pose proof (thread_bound_nonneg _ _ Hth) as Hb. apply idx_inv in E as Hpos. destruct Hpos as [Hpos _].
  apply (wp_at_ts _ _ _ _ _ ts); [done|].
  unfold thread_stack__reset, __thread_stack__free, __thread_stack__flush. apply swp_bind, wp_the, swp_bind, swp_bind, swp_bind, wp_the.
  cbn [fst]. rewrite Hc. cbn [negb]. wp. cbn [fst snd].
  apply (HQ (th <| th_ts := <[Z.to_nat pos := zero_ts <| ts_arr_sz := ts_arr_sz ts |>]> (th_ts th) |>)); [|done|].
  - destruct Hth as [H1 H2 H3 H4 H5]. apply (thread_ok_slot b b th w pos); try done; [by apply zero_ts_ok|].
    intros ts0 E0. cbn. congruence.
  - intros ts'. cbn. rewrite idx_insert by done. rewrite Z.eqb_refl. by intros [= <-].
Qed.

(** A thread stack with calls, at this position. *)
Definition calls_at s (r : option Z) (s' : @TH D) : Prop :=
  same_thread s s' /\
  match r with
  | Some pos => exists ts, idx (th_ts s'.1) pos = Some ts /\ ts_crp ts = true
  | None => ~ all_true (w_allocs s.2)
  end.

Lemma calls_at_trans s1 s2 r s3 : same_thread s1 s2 -> calls_at s2 r s3 -> calls_at s1 r s3.
Proof.
  intros Hs [H1 H2]. split; [by eapply same_thread_trans|]. destruct r; [done|]. destruct Hs as (_ & _ & _ & Ha & _). auto.
Qed.

Lemma wp_new_call_stack b comm cpu s : thread_ok b s -> b + 1 < 2 ^ 50 -> cpu < 2 ^ 31 ->
  (forall ts, idx (th_ts s.1) (slot_pos s.1 cpu) = Some ts -> ts_stack ts = []) ->
  wp (new_call_stack garbage comm cpu) (fun r s' => thread_ok (b + 1) s' /\ calls_at s r s' /\
    forall pos ts, r = Some pos -> idx (th_ts s'.1) pos = Some ts ->
      pos = slot_pos s.1 cpu /\ w_data s'.2 = w_data s.2 /\ ts_comm ts = comm /\ fresh_stack s.1 cpu ts) s.
Proof.
  destruct s as [th w]. intros Hth Hb Hcpu Hslot. unfold new_call_stack. apply swp_bind.
  eapply swp_mono; [by apply (wp_new b)|]. cbv beta. intros [pos|] [th' w'] (T1 & T2 & T3); [|by apply swp_ret].
  destruct T3 as (Ed & Epos & ts & E & Hc & Hfresh). cbn [fst] in E. apply swp_bind, (wp_at_ts _ _ _ _ _ ts); [done|]. apply wp_update. cbn [fst snd].
  apply idx_inv in E as Hpos. destruct Hpos as [Hpos _].
  pose proof (ts_stack_ok _ _ _ _ _ T1 E (or_introl Hc)) as Hs.
  destruct (thread_ok_step (b + 1) (b + 1) th' w' pos ts (ts <| ts_comm := comm |>, w') T1 ltac:(lia) E) as [U1 U2];
    [by destruct Hs|apply grows_refl|done|done|].
  apply swp_ret. assert (Enew : idx (<[Z.to_nat pos := ts <| ts_comm := comm |>]> (th_ts th')) pos = Some (ts <| ts_comm := comm |>))
    by (rewrite idx_insert by done; by rewrite Z.eqb_refl).
  split; [exact U1|]. split; [split; [by eapply same_thread_trans|by exists (ts <| ts_comm := comm |>)]|].
  intros pos' ts' [= <-]. cbn. rewrite Enew. by intros [= <-].
Qed.

Lemma wp_call_stack b comm cpu s : thread_ok b s -> b + 1 < 2 ^ 50 -> cpu < 2 ^ 31 ->
  wp (call_stack process garbage comm cpu) (fun r s' => thread_ok (b + 1) s' /\ calls_at s r s') s.
Proof.
  destruct s as [th w]. intros Hth Hb Hcpu. unfold call_stack. apply swp_bind, swp_gets, swp_bind. cbn [fst].
  destruct (thread__stack_ok b th w cpu Hth) as (r & -> & Hr). apply wp_deref. destruct r as [pos|].
  2: { eapply swp_mono; [by apply (wp_new_call_stack b)|]. by intros r s' (U1 & U2 & _). }
  destruct Hr as [Epos Hpos]. destruct (idx_range _ _ Hpos) as [ts E]. apply swp_bind, (wp_at_the _ _ _ _ _ ts); [done|].
  destruct (ts_crp ts) eqn:Hc; cbn [negb].
  - apply swp_ret. split; [apply (thread_ok_weaken b); [done|lia]|]. split; [done|]. by exists ts.
  - apply swp_bind. apply (wp_reset b _ _ _ ts); [done|done|done|]. intros th' T1 T2 T3.
    eapply swp_mono; [apply (wp_new_call_stack b); [done|done|done|]|].
    + intros ts' E'. apply T3. destruct T2 as (S1 & S2 & _). cbn [fst] in *. rewrite Epos.
      unfold slot_pos, thread_stack__per_cpu in *. by rewrite <- S1, <- S2.
    + intros r' s' (U1 & U2 & _). split; [done|]. by eapply calls_at_trans.
Qed.

Lemma wp_thread_process b comm sample from_al to_al ref s : thread_ok b s -> b + 7 < 2 ^ 50 -> target_ok sample to_al ->
  wp (thread_stack__process process garbage comm sample from_al to_al ref)
    (fun err s' => thread_ok (b + 7) s' /\ same_thread s s' /\ fails process (w_allocs s.2) err) s.
Proof.
  intros Hth Hb Ht. unfold thread_stack__process. apply swp_bind.
  eapply swp_mono; [apply (wp_call_stack b); [done|lia|apply s32_max]|]. cbv beta. intros r [th w] (T1 & T2 & T3). destruct r as [pos|].
  - destruct T3 as (ts & E & Hc). cbn [fst] in E. apply swp_bind, swp_gets. cbn [fst]. apply (wp_at_ts _ _ _ _ _ ts); [done|].
    pose proof (ts_stack_ok _ _ _ _ _ T1 E (or_introl Hc)) as Hs.
    eapply swp_mono; [apply (wp_process_on_stack process garbage (b + 1)); [exact Hs|lia|done]|]. intros err s' (K1 & K2 & K3 & K4 & K5 & K6).
    replace (b + 1 + 6) with (b + 7) in K1 by lia. cbv beta.
    destruct (thread_ok_step (b + 1) (b + 7) th w _ ts s' T1 ltac:(lia) E K1 K5 K4 K3) as [U1 U2].
    split; [done|]. split; [by eapply same_thread_trans|]. destruct T2 as (_ & _ & _ & S4 & _). cbn [fst snd] in *.
    destruct K6 as [?|[[? Hn]|?]]; [by left| |by right; right]. right; left. split; [done|]. auto.
  - apply swp_ret. split; [apply (thread_ok_weaken (b + 1)); [done|lia]|]. split; [done|]. right; left. by split.
Qed.

(** ** Runs *)

(** A sample with what goes with it. *)
Record branch_sample := mkBranch {
  br_comm : Z;
  br_sample : perf_sample;
  br_from : addr_location;
  br_to : addr_location;
  br_ref : Z
}.
Definition branch_ok (b : branch_sample) : Prop := target_ok (br_sample b) (br_to b).

(** The samples one after the other; the errors they end with. *)
Fixpoint process_all (l : list branch_sample) : M (@TH D) (list Z) :=
  match l with
  | [] => mret []
  | b :: l =>
    err ← thread_stack__process process garbage (br_comm b) (br_sample b) (br_from b) (br_to b) (br_ref b);
    errs ← process_all l;
    mret (err :: errs)
  end.

Lemma wp_process_all l : forall b s, thread_ok b s -> b + 7 * Z.of_nat (length l) < 2 ^ 50 -> Forall branch_ok l ->
  wp (process_all l) (fun errs s' => thread_ok (b + 7 * Z.of_nat (length l)) s' /\ same_thread s s' /\
    length errs = length l /\ Forall (fails process (w_allocs s.2)) errs) s.
Proof.
  induction l as [|x l IH]; intros b s Hth Hb Hl; cbn [process_all length].
  - apply swp_ret. replace (b + 7 * Z.of_nat 0) with b by lia. by split_and!.
  - inversion Hl as [|? ? Hx Hl']. subst. cbn [length] in Hb. apply swp_bind.
    eapply swp_mono; [apply (wp_thread_process b); [done|lia|done]|]. cbv beta. intros err s1 (T1 & T2 & T3).
    apply swp_bind. eapply swp_mono; [apply (IH (b + 7)); [done|lia|done]|]. cbv beta. intros errs s2 (U1 & U2 & U3 & U4).
    apply swp_ret. replace (b + 7 + 7 * Z.of_nat (length l)) with (b + 7 * Z.of_nat (S (length l))) in U1 by lia.
    split; [done|]. split; [by eapply same_thread_trans|]. split; [cbn; by rewrite U3|]. constructor; [done|].
    eapply List.Forall_impl; [|exact U4]. intros e. destruct T2 as (_ & _ & _ & S4 & _).
    intros [?|[[? Hn]|?]]; [by left| |by right; right]. right; left. split; [done|]. auto.
Qed.

(** ** Flushing all stacks *)

Lemma wp_flush_slot b th w pos ts (Q : Z -> @TH D -> Prop) : thread_ok b (th, w) -> idx (th_ts th) pos = Some ts ->
  (forall err th' w', thread_ok b (th', w') -> same_thread (th, w) (th', w') -> length (th_ts th') = length (th_ts th) ->
     fails process (w_allocs w) err -> Q err (th', w')) ->
  wp (at_ts pos (__thread_stack__flush process (who th))) Q (th, w).
Proof.
  intros Hth E HQ. apply (wp_at_ts _ _ _ _ _ ts); [done|]. apply idx_inv in E as Hpos. destruct Hpos as [Hpos E'].
  destruct (ts_crp ts) eqn:Hc.
  - pose proof (ts_stack_ok _ _ _ _ _ Hth E (or_introl Hc)) as Hs.
    eapply swp_mono; [by apply (wp_flush process b)|]. intros err s' (K1 & K2 & K3 & K4 & K5 & K6).
    destruct (thread_ok_step b b th w pos ts s' Hth ltac:(lia) E K1 K5 K4 K3) as [T1 T2].
    apply HQ; [done|done|cbn; by rewrite length_insert|done].
  - unfold __thread_stack__flush. apply swp_bind, wp_the. cbn [fst]. rewrite Hc. cbn [negb]. wp. cbn [fst snd].
    pose proof Hth as [H1 H2 H3 H4 H5]. pose proof (Forall_lookup_1 _ _ _ _ H5 E') as [K1 K2 K3 K4].
    apply HQ; [|done|cbn; by rewrite length_insert|by left].
    apply (thread_ok_slot b b th w pos); try done.
    + split; try done. cbn. lia.
    + intros ts0 E0. cbn. congruence.
Qed.

Lemma fails_same s s' err : same_thread s s' -> fails process (w_allocs s'.2) err -> fails process (w_allocs s.2) err.
Proof. intros (_ & _ & _ & Ha & _) [?|[[? He]|?]]; [by left| |by right; right]. right; left. split; [done|]. auto. Qed.

Lemma wp_flush_stacks b s0 : forall n pos err s, thread_ok b s -> same_thread s0 s -> 0 <= pos ->
  pos + Z.of_nat n = Z.of_nat (length (th_ts s.1)) -> fails process (w_allocs s0.2) err ->
  wp (thread_stack__flush_loop process n pos err) (fun err s' => thread_ok b s' /\ same_thread s0 s' /\ fails process (w_allocs s0.2) err) s.
Proof.
  induction n as [|n IH]; intros pos err s Hth Hs0 Hpos Hn Herr; cbn [thread_stack__flush_loop]; [by apply swp_ret|].
  apply swp_bind, swp_gets, swp_bind. destruct s as [th w]. cbn [fst] in *. destruct (idx_range (th_ts th) pos) as [ts E]; [lia|].
  apply (wp_flush_slot b _ _ _ ts); [done|done|]. intros ret th' w' H1 H2 H3 H4.
  apply IH; [done|by eapply same_thread_trans|lia|cbn [fst]; lia|]. destruct (negb (ret =? 0)); [|done]. by apply (fails_same s0 (th, w)).
Qed.

Lemma wp_thread_flush b s : thread_ok b s ->
  wp (thread_stack__flush process) (fun err s' => thread_ok b s' /\ same_thread s s' /\ fails process (w_allocs s.2) err) s.
Proof.
  intros Hth. unfold thread_stack__flush. apply swp_bind, swp_gets. pose proof (th_arr _ _ Hth) as Harr.
  destruct (th_ts s.1) as [|ts r] eqn:E; [apply swp_ret; split; [done|]; split; [apply same_thread_refl|by left]|].
  apply (wp_flush_stacks b s); [done|apply same_thread_refl|lia|rewrite E, Harr; lia|by left].
Qed.
End thread.
