(* ===== verification/ThreadRuns.v ===== *)
(** Samples that nest, and runs of thread_stack__process over them. *)
From Stdlib Require Import ZArith Lia List Bool String.
From S2P Require Import Prelude PtInsn RbTree CallPath CallPathTheorems ThreadStack ThreadCalls ThreadSafe.
From S2P Require Import ThreadSteps ThreadTheorems.
Open Scope Z_scope.
Open Scope c_scope.
Import ListNotations.

(** ** Well-nested samples *)

Section nested.
Context `{Symbols}.

Definition plain (b : branch_sample) : Prop :=
  let flags := s_flags (br_sample b) in
  has flags PERF_IP_FLAG_CALL = false /\ has flags PERF_IP_FLAG_RETURN = false /\
  has flags PERF_IP_FLAG_TRACE_BEGIN = false /\ has flags PERF_IP_FLAG_TRACE_END = false.

(** Whether a branch goes to the start of another function. *)
Definition to_function (b : branch_sample) : bool :=
  has (s_flags (br_sample b)) PERF_IP_FLAG_BRANCH && negb (al_sym (br_from b) =? al_sym (br_to b))
  && negb (al_sym (br_to b) =? 0) && (al_addr (br_to b) =? sym_start (al_sym (br_to b))).

Definition is_branch (b : branch_sample) : Prop := plain b /\ to_function b = false.
Definition is_jump (b : branch_sample) : Prop := plain b /\ to_function b = true.

Definition return_address (c : branch_sample) : Z := u64 (s_ip (br_sample c) + s_insn_len (br_sample c)).

(** A call that is not the start of a retpoline. *)
Definition is_call (c : branch_sample) : Prop :=
  has (s_flags (br_sample c)) PERF_IP_FLAG_CALL = true /\ has (s_flags (br_sample c)) PERF_IP_FLAG_TRACE_END = false /\
  s_ip (br_sample c) <> 0 /\ s_addr (br_sample c) <> 0 /\ return_address c <> s_addr (br_sample c) /\
  (al_sym (br_to c) = 0 \/ al_sym (br_from c) <> al_sym (br_to c) \/ al_addr (br_to c) = sym_start (al_sym (br_to c))).

(** The return of a call. *)
Definition is_return (c r : branch_sample) : Prop :=
  has (s_flags (br_sample r)) PERF_IP_FLAG_CALL = false /\ has (s_flags (br_sample r)) PERF_IP_FLAG_RETURN = true /\
  s_ip (br_sample r) <> 0 /\ s_addr (br_sample r) <> 0 /\ s_addr (br_sample r) = return_address c.

(** The function that a call or a jump goes to. *)
Definition callee (c : branch_sample) : key := call_key (al_sym (br_to c)) (s_addr (br_sample c)).

Record report := mkReport {
  r_path : list key;
  r_call_time : Z;
  r_return_time : Z;
  r_branch_count : Z;
  r_insn_count : Z;
  r_cyc_count : Z;
  r_call_ref : Z;
  r_return_ref : Z;
  r_flags : Z
}.

Definition sum (l : list Z) : Z := fold_right Z.add 0 l.

(** The report of a function with path [p], called by [c], that ran [l] and
    returned with [r]. *)
Definition report_of (p : list key) (c : branch_sample) (l : list branch_sample) (r : branch_sample) (flags : Z) : report :=
  mkReport p (s_time (br_sample c)) (s_time (br_sample r)) (u64 (Z.of_nat (length l) + 1))
    (u64 (sum (map (fun b => s_insn_cnt (br_sample b)) (l ++ [r]))))
    (u64 (sum (map (fun b => s_cyc_cnt (br_sample b)) (l ++ [r])))) (br_ref c) (br_ref r) flags.

(** A function that was jumped to: its path, the jump, and the samples since. *)
Definition jumped : Type := list key * branch_sample * list branch_sample.
Definition jump_report (r : branch_sample) (t : jumped) : report :=
  let '(p, j, l) := t in report_of p j l r (CALL_RETURN_NO_RETURN .| CALL_RETURN_NON_CALL).

(** [runs p l R]: in the function with path [p] come the samples [l], in which
    all calls return; their reports are [R].  [body p l R T]: the samples of one
    call, which may go on to other functions by the jumps [T] instead of calling
    them; they return together, the last first. *)
Inductive runs : list key -> list branch_sample -> list report -> Prop :=
| runs_nil p : runs p [] []
| runs_branch p b l R : is_branch b -> runs p l R -> runs p (b :: l) R
| runs_call p c l r l' R T R' : is_call c -> is_return c r -> body (p ++ [callee c]) l R T -> runs p l' R' ->
    runs p (c :: l ++ r :: l') (R ++ map (jump_report r) (rev T) ++ report_of (p ++ [callee c]) c l r 0 :: R')
with body : list key -> list branch_sample -> list report -> list jumped -> Prop :=
| body_last p l R : runs p l R -> body p l R []
| body_jump p l j l' R R' T : runs p l R -> is_jump j -> body (p ++ [callee j]) l' R' T ->
    body p (l ++ j :: l') (R ++ R') ((p ++ [callee j], j, l') :: T).

Scheme runs_mut := Induction for runs Sort Prop
with body_mut := Induction for body Sort Prop.
Combined Scheme runs_body_ind from runs_mut, body_mut.

(** ** Counts *)

Definition count_all (l : list branch_sample) (ts : thread_stack) : thread_stack :=
  fold_left (fun ts b => count_sample (br_sample b) ts) l ts.

Lemma count_all_app l l' ts : count_all (l ++ l') ts = count_all l' (count_all l ts).
Proof. apply fold_left_app. Qed.

(** The counts since an entry was pushed. *)
Definition since (e : thread_stack_entry) (l : list branch_sample) (ts : thread_stack) : Prop :=
  u64 (ts_branch_count ts - tse_branch_count e) = u64 (Z.of_nat (length l)) /\
  u64 (ts_insn_count ts - tse_insn_count e) = u64 (sum (map (fun b => s_insn_cnt (br_sample b)) l)) /\
  u64 (ts_cyc_count ts - tse_cyc_count e) = u64 (sum (map (fun b => s_cyc_cnt (br_sample b)) l)).

Lemma sum_snoc l x : sum (l ++ [x]) = sum l + x.
Proof. induction l as [|y l IH]; cbn; [lia|]. unfold sum in IH. rewrite IH. lia. Qed.

Lemma u64_step a e k n : u64 (a - e) = u64 n -> u64 (u64 (a + k) - e) = u64 (n + k).
Proof.
  intros E. rewrite u64_sub_l. replace (a + k - e) with (a - e + k) by lia. rewrite <- u64_add_l, E. apply u64_add_l.
Qed.

Lemma since_step e l b ts : since e l ts -> since e (l ++ [b]) (count_sample (br_sample b) ts).
Proof.
  intros (H1 & H2 & H3). unfold since. rewrite !map_app, length_app. cbn [map length]. rewrite !sum_snoc, Nat2Z.inj_add.
  split_and!; cbn; by apply u64_step.
Qed.

Lemma since_all e l l' ts : since e l ts -> since e (l ++ l') (count_all l' ts).
Proof.
  revert l ts. induction l' as [|b l' IH]; intros l ts Hs; cbn; [by rewrite app_nil_r|].
  replace (l ++ b :: l') with ((l ++ [b]) ++ l') by (by rewrite <- app_assoc). by apply IH, since_step.
Qed.

Lemma since_scalars e l ts ts' : scalars ts' = scalars ts -> since e l ts -> since e l ts'.
Proof. intros E. change (since e l (scalars ts) -> since e l (scalars ts')). by rewrite E. Qed.

Lemma count_scalars l ts : scalars (count_all l ts) = count_all l (scalars ts).
Proof. revert ts. induction l as [|b l IH]; intros ts; [done|]. cbn. by rewrite IH. Qed.
End nested.

(** ** Steps *)

Definition cr_erase (cr : call_return) : call_return :=
  mkCr (cr_thread cr) (cr_comm cr) (cr_cp cr) (cr_call_time cr) (cr_return_time cr) (cr_branch_count cr) (cr_insn_count cr)
    (cr_cyc_count cr) (cr_call_ref cr) (cr_return_ref cr) 0 (cr_flags cr).

Section steps.
Context `{Symbols} (garbage : thread_stack_entry) (ids : call_return -> option Z -> list call_return -> Z).

(** A callback that keeps all it is given, and may give the parent any db_id. *)
Definition log (cr : call_return) (parent : option Z) (d : list call_return) : Z * Z * list call_return :=
  (0, ids cr parent d, d ++ [cr]).
Abbreviation TS := (@TS (list call_return)).
Implicit Types (s : TS) (e : thread_stack_entry).

Definition logged s : list call_return := map cr_erase (w_data s.2).

(** A step that succeeds, leaves these entries and makes these records. *)
Definition done_with b s (l : list thread_stack_entry) (records : list call_return) (err : Z) s' : Prop :=
  err = 0 /\ stack_ok b s' /\ kept s s' /\ live s'.1 = l /\ logged s' = logged s ++ records.

Lemma done_trans b s1 l1 r1 s2 l2 r2 err s3 : done_with b s1 l1 r1 0 s2 -> done_with b s2 l2 r2 err s3 ->
  done_with b s1 l2 (r1 ++ r2) err s3.
Proof.
  intros (_ & H1 & H2 & H3 & H4) (K0 & K1 & K2 & K3 & K4). split_and!; try done; [by eapply kept_trans|].
  by rewrite K4, H4, app_assoc.
Qed.

Lemma record_scalars me ts ts' e tm ref nr : scalars ts' = scalars ts -> record_of me ts' e tm ref nr = record_of me ts e tm ref nr.
Proof. intros E. change (record_of me (scalars ts') e tm ref nr = record_of me (scalars ts) e tm ref nr). by rewrite E. Qed.

Lemma live_erased ts e : In e (live ts) -> erase e = e.
Proof. intros Hi. apply in_map_iff in Hi as (e0 & <- & _). done. Qed.

Lemma step_return_top b me tm ref nr l e s : stack_ok b s -> live s.1 = l ++ [e] ->
  wp (return_top log me tm ref nr) (done_with b s l [record_of me s.1 e tm ref nr]) s.
Proof.
  intros Hs El. eapply swp_mono; [by apply (wp_return_top log)|]. intros err s' (K1 & K2 & K3 & _ & e0 & parent & id & Ee & Ep).
  injection Ep as E1 _ E2. split_and!; try done. unfold logged. rewrite <- E2, map_app. cbn. by rewrite Ee.
Qed.

Lemma step_return_loop b me tm ref l : forall tl s, stack_ok b s -> live s.1 = l ++ tl ->
  wp (return_loop log me tm ref (length tl)) (done_with b s l (map (fun t => record_of me s.1 t tm ref true) (rev tl))) s.
Proof.
  intros tl. induction tl as [|t tl IH] using rev_ind; intros s Hs El.
  - apply swp_ret. split_and!; try done; [by rewrite app_nil_r in El|]. cbn. by rewrite app_nil_r.
  - rewrite length_app. cbn [length]. replace (length tl + 1)%nat with (S (length tl)) by lia. cbn [return_loop].
    apply wp_on_ok. eapply swp_mono; [apply (step_return_top b); [done|by rewrite El, app_assoc]|]. intros err s1 Hd.
    pose proof Hd as (-> & K1 & K2 & K3 & K4). change (0 =? 0) with true. cbv beta iota.
    eapply swp_mono; [by apply IH|]. intros err s2 Hd2. rewrite rev_app_distr. cbn [rev app map].
    eapply (done_trans b s _ _ s1) in Hd2; [|exact Hd]. destruct Hd2 as (D1 & D2 & D3 & D4 & D5). split_and!; try done.
    rewrite D5. cbn [app]. do 2 f_equal. apply map_ext. intros x. by apply record_scalars, K2.
Qed.

(** Down to the call, over the functions that were jumped to. *)
Lemma step_find_return b ra e l s (Q : option nat -> TS -> Prop) : forall tl rest, stack_ok b s -> live s.1 = l ++ e :: tl ++ rest ->
  tse_ret_addr e = ra -> tse_non_call e = false -> Forall (fun t => tse_non_call t = true) tl ->
  Q (Some (length l)) s -> wp (find_return ra (length (l ++ e :: tl))) Q s.
Proof.
  intros tl. induction tl as [|t tl IH] using rev_ind; intros rest Hs El Hra Hcall Hjump HQ; pose proof (stack_ok_length _ _ Hs) as Hlen.
  - rewrite length_app. cbn [length]. replace (length l + 1)%nat with (S (length l)) by lia. cbn [find_return].
    assert (idx (live s.1) (Z.of_nat (length l)) = Some e) as Ei.
    { rewrite El. unfold idx. destruct (Z.ltb_spec (Z.of_nat (length l)) 0); [lia|]. rewrite Nat2Z.id, lookup_app_r by lia. by rewrite Nat.sub_diag. }
    apply swp_bind, (wp_entry _ e); [apply idx_inv in Ei as [? _]; lia|done|]. intros e0 ->. cbn in Hra, Hcall. rewrite Hra, Hcall, Z.eqb_refl.
    by apply swp_ret.
  - apply List.Forall_app in Hjump as [Hj Ht]. inversion Ht as [|? ? Ht' _]. subst.
    assert (live s.1 = (l ++ e :: tl) ++ t :: rest) as El'
      by (rewrite El, <- (app_assoc l (e :: tl)); cbn; by rewrite <- (app_assoc tl)).
    replace (length (l ++ e :: tl ++ [t])) with (S (length (l ++ e :: tl))) by (rewrite !length_app; cbn; rewrite !length_app; cbn; lia).
    cbn [find_return].
    assert (idx (live s.1) (Z.of_nat (length (l ++ e :: tl))) = Some t) as Ei.
    { rewrite El'. unfold idx. destruct (Z.ltb_spec (Z.of_nat (length (l ++ e :: tl))) 0); [lia|]. rewrite Nat2Z.id, lookup_app_r by lia.
      by rewrite Nat.sub_diag. }
    apply swp_bind, (wp_entry _ t); [apply idx_inv in Ei as [? _]; lia|done|]. intros t0 ->. cbn in Ht'. rewrite Ht', orb_true_r.
    apply (IH (erase t0 :: rest)); try done. by rewrite El', <- app_assoc.
Qed.

(** A return pops what was jumped to, and the call. *)
Lemma step_pop_cp b me ra tm ref sym l e tl s : stack_ok b s -> live s.1 = l ++ e :: tl -> l <> [] ->
  tse_ret_addr e = ra -> tse_non_call e = false -> Forall (fun t => tse_non_call t = true) tl ->
  wp (thread_stack__pop_cp log me ra tm ref sym)
    (done_with b s l (map (fun t => record_of me s.1 t tm ref true) (rev tl) ++ [record_of me s.1 e tm ref false])) s.
Proof.
  intros Hs El Hl Hra Hcall Hjump. pose proof (stack_ok_length _ _ Hs) as Hlen. rewrite El, length_app in Hlen. cbn [length] in Hlen.
  assert (0 < Z.of_nat (length l)) as Hl0 by (destruct l; [done|cbn; lia]).
  unfold thread_stack__pop_cp. apply swp_bind, wp_the. destruct (Z.eqb_spec (ts_cnt s.1) 0); [lia|].
  unfold pop_bottom. apply swp_bind, swp_bind, wp_the. destruct (Z.eqb_spec (ts_cnt s.1) 1); [lia|]. apply swp_ret, swp_bind.
  destruct (exists_last (l := l ++ e :: tl)) as (l0 & x & Ex); [by destruct l|].
  destruct (live_snoc_lookup s.1 l0 x ltac:(by apply (stack_ok_length b)) ltac:(by rewrite El)) as [Ecnt Ei].
  apply (wp_entry _ x); [lia|done|]. intros x0 Ex0. subst x.
  destruct (decide (tl = [])) as [->|Htl].
  - assert (x0' : erase x0 = e /\ l0 = l) by (apply app_inj_tail in Ex as [? ?]; by split). destruct x0' as [<- ->].
    cbn in Hra, Hcall. rewrite Hra, Hcall, Z.eqb_refl. cbn [negb andb rev map app]. by apply step_return_top.
  - destruct (exists_last Htl) as (tl0 & t & ->).
    assert (Et : erase x0 = t /\ l0 = l ++ e :: tl0).
    { rewrite app_comm_cons, app_assoc in Ex. apply app_inj_tail in Ex as [? ?]. by split. }
    destruct Et as [<- ->]. apply List.Forall_app in Hjump as [Hj Ht]. inversion Ht as [|? ? Ht' _]. subst. cbn in Ht'.
    rewrite Ht', andb_false_r. apply swp_bind.
    assert (Z.to_nat (ts_cnt s.1 - 1) = length (l ++ e :: tl0)) as -> by lia.
    apply (step_find_return b (tse_ret_addr e) e l s _ tl0 [erase x0]); [done|done|done|done|done|].
    assert (Z.to_nat (ts_cnt s.1) - (length l + 1) = length (tl0 ++ [erase x0]))%nat as -> by (rewrite !length_app in *; cbn in *; lia).
    apply wp_on_ok. eapply swp_mono; [apply (step_return_loop b me tm ref (l ++ [e])); [done|by rewrite El, <- app_assoc]|].
    intros err s1 Hd. pose proof Hd as (-> & K1 & K2 & K3 & K4). change (0 =? 0) with true. cbv beta iota.
    eapply swp_mono; [by apply (step_return_top b)|]. intros err s2 Hd2. eapply done_trans; [exact Hd|].
    by rewrite (record_scalars me s1.1 s.1) by (symmetry; apply K2).
Qed.

(** A call or a jump pushes the function it goes to. *)
Definition pushes b x ra tm ref sym addr te (f : thread_stack_entry -> thread_stack_entry) (x' : TS) : Prop :=
  stack_ok b x' /\ kept x x' /\ logged x' = logged x /\
  exists l e n m, live x.1 = l ++ [e] /\ tse_cp e = Some n /\ used (w_cpr x.2) n /\
    live x'.1 = live x.1 ++ [f (pushed x.1 ra tm ref (Some m) false te)] /\ used (w_cpr x'.2) m /\
    path_of (w_cpr x'.2) m = path_of (w_cpr x.2) n ++ [call_key sym addr].

Lemma step_push b sym addr ra tm ref te x : stack_ok b x -> b + 2 < 2 ^ 50 -> live x.1 <> [] -> all_true (w_allocs x.2) ->
  wp (e ← top_entry; ks ← the ts_kernel_start; cp ← find_call_path (tse_cp e) sym addr ks;
      thread_stack__push_cp garbage ra tm ref cp false te)
    (fun err x' => err = 0 /\ pushes (b + 2) x ra tm ref sym addr te id x') x.
Proof.
  intros Hs Hb Hl Ha. destruct (exists_last Hl) as (l & e & El).
  destruct (live_snoc_lookup _ _ _ (stack_ok_length _ _ Hs) El) as [Ec Ei]. unfold top_entry. apply swp_bind, swp_bind, wp_the.
  apply (wp_entry_ok b); [done|lia|]. intros e0 n En Hu Ee0. rewrite Ei in Ee0. injection Ee0 as ->. apply swp_bind, wp_the, swp_bind. rewrite En.
  apply (wp_find_call_path b); [done|lia|done|]. intros cp w Hw Hk Ed Hcp. destruct cp as [m|]; [|by rewrite (Ha 0%nat) in Hcp].
  destruct Hcp as (Hm & Ep & _). apply (wp_push_cp garbage (b + 1)); [done|lia|done|]. intros err x' Hx' Hk' Ecpr Ed' Hres.
  replace (b + 1 + 1) with (b + 2) in Hx' by lia. cbn [fst snd] in *.
  destruct Hres as [[-> Elv]|(-> & _ & Ea)]; [|destruct Hk as (_ & Hk & _); cbn [snd] in Hk; by rewrite (Hk Ha 0%nat) in Ea].
  split; [done|]. split; [done|]. split; [by eapply kept_trans|]. split; [unfold logged; by rewrite Ed', Ed|].
  exists l, (erase e0), n, m. split_and!; try done; by rewrite Ecpr.
Qed.

Lemma step_set_non_call b x l e : stack_ok b x -> live x.1 = l ++ [e] ->
  wp (set_top (fun e => e <| tse_non_call := true |>))
    (fun _ x' => stack_ok b x' /\ kept x x' /\ w_cpr x'.2 = w_cpr x.2 /\ logged x' = logged x /\ live x'.1 = l ++ [e <| tse_non_call := true |>]) x.
Proof.
  intros Hs El. pose proof Hs as [H1 H2 H3 H4 H5 H6 H7].
  destruct (live_snoc_lookup _ _ _ (stack_ok_length _ _ Hs) El) as [Ec Ee]. unfold set_top. apply swp_bind, wp_the.
  apply (wp_set_entry _ e); [lia|done|done|]. intros ts e0 -> Elv Ecnt Esz Elen Esc. rewrite Ec, El in Elv.
  replace (Z.to_nat (Z.of_nat (length l) + 1 - 1)) with (length l) in Elv by lia. rewrite insert_app_r_alt in Elv by lia.
  rewrite Nat.sub_diag in Elv. cbn in Elv.
  split; [|split; [by split; [|split; [|apply grows_refl]]|split; [done|split; [done|exact Elv]]]].
  split; try done; cbn [fst snd]; [lia|lia|]. rewrite Elv. rewrite El in H6. apply List.Forall_app in H6 as [K1 K2].
  apply List.Forall_app. split; [done|]. constructor; [|done]. by inversion K2.
Qed.
End steps.

(** Runs of well-nested samples: the code reports just the calls there are. *)
Section runs.
Context `{Symbols} (garbage : thread_stack_entry) (ids : call_return -> option Z -> list call_return -> Z).
Abbreviation TS := (@TS (list call_return)).
Abbreviation TH := (@TH (list call_return)).
Abbreviation log := (log ids).
Implicit Types (x : TS) (s : TH) (c : branch_sample).

(** ** A sample on its stack *)

Lemma branch_plain th rstate c x : is_branch c ->
  wp (process_branch log garbage th rstate (br_sample c) (br_from c) (br_to c) (br_ref c)) (fun err x' => err = 0 /\ x' = x) x.
Proof.
  intros ((H1 & H2 & H3 & H4) & H5). unfold process_branch. cbv zeta. rewrite H1, H2, H3, H4.
  unfold to_function in H5. rewrite H5. by apply swp_ret.
Qed.

Lemma branch_call b th rstate c x : is_call c -> stack_ok b x -> b + 2 < 2 ^ 50 -> live x.1 <> [] -> all_true (w_allocs x.2) ->
  wp (process_branch log garbage th rstate (br_sample c) (br_from c) (br_to c) (br_ref c)) (fun err x' => err = 0 /\
    pushes (b + 2) x (return_address c) (s_time (br_sample c)) (br_ref c) (al_sym (br_to c)) (s_addr (br_sample c)) false id x') x.
Proof.
  intros (H1 & H2 & H3 & H4 & H5 & H6) Hs Hb Hl Ha. unfold process_branch. cbv zeta. rewrite H1, H2.
  apply Z.eqb_neq in H3, H4. rewrite H3, H4. cbn [orb]. fold (return_address c). apply Z.eqb_neq in H5. rewrite H5.
  apply wp_on_ok. eapply swp_mono; [by apply (step_push garbage b)|]. cbv beta. intros err x' [-> Hp]. change (0 =? 0) with true. cbv beta iota.
  assert (bool_decide (rstate = X86_RETPOLINE_POSSIBLE) && negb (al_sym (br_to c) =? 0) && (al_sym (br_from c) =? al_sym (br_to c))
    && negb (al_addr (br_to c) =? sym_start (al_sym (br_to c))) = false) as ->; [|by apply swp_bind, swp_ret, swp_ret].
  destruct (Z.eqb_spec (al_sym (br_to c)) 0) as [|Hn]; cbn [negb andb]; [by rewrite andb_false_r|].
  destruct (Z.eqb_spec (al_sym (br_from c)) (al_sym (br_to c))) as [|Hm]; [|by rewrite andb_false_r].
  destruct (Z.eqb_spec (al_addr (br_to c)) (sym_start (al_sym (br_to c)))); [by rewrite andb_false_r|].
  by destruct H6 as [?|[?|?]].
Qed.

Lemma branch_jump b th rstate c x : is_jump c -> stack_ok b x -> b + 2 < 2 ^ 50 -> live x.1 <> [] -> all_true (w_allocs x.2) ->
  wp (process_branch log garbage th rstate (br_sample c) (br_from c) (br_to c) (br_ref c)) (fun err x' => err = 0 /\
    pushes (b + 2) x 0 (s_time (br_sample c)) (br_ref c) (al_sym (br_to c)) (s_addr (br_sample c)) false
      (fun e => e <| tse_non_call := true |>) x') x.
Proof.
  intros ((H1 & H2 & H3 & H4) & H5) Hs Hb Hl Ha. unfold process_branch. cbv zeta. rewrite H1, H2, H3, H4.
  unfold to_function in H5. rewrite H5. apply wp_on_ok. eapply swp_mono; [by apply (step_push garbage b)|]. cbv beta. intros err x1 [-> Hp].
  change (0 =? 0) with true. cbv beta iota. destruct Hp as (P1 & P2 & P3 & l & e & n & m & P4 & P5 & P6 & P7 & P8 & P9).
  apply swp_bind. eapply swp_mono; [by apply (step_set_non_call (b + 2) x1 (live x.1) (pushed x.1 0 (s_time (br_sample c)) (br_ref c) (Some m) false false))|].
  cbv beta. intros _ x2 (K1 & K2 & K3 & K4 & K5). apply swp_ret. split; [done|]. split; [done|]. split; [by eapply kept_trans|].
  split; [by rewrite K4|]. exists l, e, n, m. split_and!; try done; by rewrite K3.
Qed.

Lemma branch_return b th rstate c r x l e tl : is_return c r -> rstate <> X86_RETPOLINE_DETECTED -> stack_ok b x ->
  live x.1 = l ++ e :: tl -> l <> [] -> tse_ret_addr e = return_address c -> tse_non_call e = false ->
  Forall (fun t => tse_non_call t = true) tl ->
  wp (process_branch log garbage th rstate (br_sample r) (br_from r) (br_to r) (br_ref r))
    (done_with b x l (map (fun t => record_of th x.1 t (s_time (br_sample r)) (br_ref r) true) (rev tl)
       ++ [record_of th x.1 e (s_time (br_sample r)) (br_ref r) false])) x.
Proof.
  intros (H1 & H2 & H3 & H4 & H5) Hr Hs El Hl Hra Hc Hj. unfold process_branch. cbv zeta. rewrite H1, H2.
  apply Z.eqb_neq in H3, H4. rewrite H4, H3. apply swp_bind, wp_the, swp_bind. rewrite bool_decide_eq_false_2 by done. cbn [andb].
  apply swp_ret. cbv beta iota. apply swp_bind. eapply swp_mono; [apply (step_pop_cp ids b); [done|exact El|done|by rewrite H5|done|done]|].
  intros err x' Hd. pose proof Hd as (-> & _). change (0 =? 0) with true. by apply swp_ret.
Qed.

(** ** A sample of the thread *)

Context (pos comm : Z) (me : Z * Z).

(** The state between samples: the stack of calls is [x], all is well, and no
    retpoline is under way. *)
Record calm (b : Z) s x : Prop := {
  calm_slot : idx (th_ts s.1) pos = Some x.1;
  calm_world : x.2 = s.2;
  calm_thread : thread_ok b s;
  calm_stack : stack_ok b x;
  calm_live : live x.1 <> [];
  calm_crp : ts_crp x.1 = true;
  calm_comm : ts_comm x.1 = comm;
  calm_rstate : ts_rstate x.1 <> X86_RETPOLINE_DETECTED;
  calm_allocs : all_true (w_allocs x.2);
  calm_who : who s.1 = me
}.

(** A sample of this stack. *)
Definition here (c : branch_sample) : Prop :=
  br_comm c = comm /\ (if (me.2 =? 0) && (me.1 =? 0) then Z.max (s32 (s_cpu (br_sample c))) 0 else 0) = pos.

Lemma find_calm b s x c : calm b s x -> here c -> thread__stack s.1 (s32 (s_cpu (br_sample c))) = Some (Some pos).
Proof.
  intros [H1 H2 H3 H4 H5 H6 H7 H8 H9 H10] [_ Hpos]. destruct s as [th w].
  destruct (thread__stack_ok b th w (s32 (s_cpu (br_sample c))) H3) as (r & E & Hr). cbn [fst] in *.
  assert (slot_pos th (s32 (s_cpu (br_sample c))) = pos) as Es.
  { rewrite <- Hpos, <- H10. unfold slot_pos, thread_stack__per_cpu. cbn. by destruct (_ && _). }
  destruct r as [p|]; [destruct Hr as [-> _]; by rewrite E, Es|]. rewrite Es in Hr.
  exfalso. apply H5. unfold live. by rewrite (Hr _ H1), take_nil.
Qed.

(** One sample, which the code handles with these effects. *)
Lemma wp_sample b c (G : TS -> Prop) s x : calm b s x -> here c -> b + 7 < 2 ^ 50 ->
  (forall th rstate x1, th = me -> rstate <> X86_RETPOLINE_DETECTED -> x1 = (count_sample (br_sample c) x.1, x.2) ->
     stack_ok b x1 -> wp (process_branch log garbage th rstate (br_sample c) (br_from c) (br_to c) (br_ref c))
       (fun err x' => err = 0 /\ stack_ok (b + 6) x' /\ kept x1 x' /\ live x'.1 <> [] /\ G x') x1) ->
  wp (thread_stack__process log garbage (br_comm c) (br_sample c) (br_from c) (br_to c) (br_ref c))
    (fun err s' => err = 0 /\ exists x', calm (b + 7) s' x' /\ scalars x'.1 = scalars (count_sample (br_sample c) x.1) /\
       cpr_grows (w_cpr x.2) (w_cpr x'.2) /\ G x') s.
Proof.
  intros Hcalm Hhere Hb Hstep. pose proof Hcalm as [H1 H2 H3 H4 H5 H6 H7 H8 H9 H10].
  unfold thread_stack__process. apply swp_bind. unfold call_stack. apply swp_bind, swp_gets, swp_bind.
  rewrite (find_calm b s x c) by done. apply wp_deref, swp_bind. destruct s as [th w]. cbn [fst snd] in *.
  apply (wp_at_the _ _ _ _ _ x.1); [done|]. rewrite H6. cbn [negb]. apply swp_ret, swp_bind, swp_gets. cbn [fst].
  apply (wp_at_ts _ _ _ _ _ x.1); [done|]. destruct Hhere as [Ecomm _]. unfold process_on_stack. apply swp_bind, wp_the, swp_bind. cbn [fst].
  rewrite bool_decide_eq_false_2 by done. apply swp_ret, wp_on_ok. unfold flush_on_exec. apply swp_bind, wp_the. cbn [fst].
  rewrite H7, Ecomm, Z.eqb_refl. cbn [negb andb]. apply swp_ret. change (0 =? 0) with true. cbv beta iota.
  unfold process_from_bottom. apply swp_bind, wp_the, wp_on_ok. cbn [fst].
  pose proof (stack_ok_length _ _ H4) as Hlen. destruct (Z.eqb_spec (ts_cnt x.1) 0) as [E0|_]; [destruct (live x.1); [done|cbn in Hlen; lia]|].
  apply swp_ret. change (0 =? 0) with true. cbv beta iota. apply swp_bind, wp_update. cbn [fst snd]. rewrite <- H2.
  assert (stack_ok b (count_sample (br_sample c) x.1, x.2)) as Hs1 by (by destruct H4).
  eapply swp_mono; [by apply Hstep|]. cbv beta. intros err x' (-> & K1 & K2 & K3 & K4). split; [done|].
  pose proof K2 as (K5 & K6 & K7). cbn [fst snd] in *.
  destruct (thread_ok_step b (b + 7) th w pos x.1 x' H3 ltac:(lia) H1) as [T1 T2];
    [by apply (stack_ok_weaken (b + 6)); [|lia]|by rewrite <- H2|by rewrite <- H2|by apply (f_equal ts_arr_sz) in K5|].
  exists x'. split; [|done]. split; cbn [fst snd]; try done.
  - cbn. apply idx_inv in H1 as [Hpos _]. rewrite idx_insert by done. by rewrite Z.eqb_refl.
  - apply (stack_ok_weaken (b + 6)); [done|lia].
  - apply (f_equal ts_crp) in K5. cbn in K5. congruence.
  - apply (f_equal ts_comm) in K5. cbn in K5. congruence.
  - apply (f_equal ts_rstate) in K5. cbn in K5. congruence.
  - by apply K6.
Qed.

(** ** Reports *)

(** The record is the report, but for the db_id. *)
Definition matches (cpr : call_path_root) (cr : call_return) (r : report) : Prop :=
  cr_thread cr = me /\ cr_comm cr = comm /\ (exists n, cr_cp cr = Some n /\ used cpr n /\ path_of cpr n = r_path r) /\
  cr_call_time cr = r_call_time r /\ cr_return_time cr = r_return_time r /\ cr_branch_count cr = r_branch_count r /\
  cr_insn_count cr = r_insn_count r /\ cr_cyc_count cr = r_cyc_count r /\ cr_call_ref cr = r_call_ref r /\
  cr_return_ref cr = r_return_ref r /\ cr_flags cr = r_flags r.

Lemma path_grows cpr cpr' p o : cpr_grows cpr cpr' -> (exists n, o = Some n /\ used cpr n /\ path_of cpr n = p) ->
  exists n, o = Some n /\ used cpr' n /\ path_of cpr' n = p.
Proof. intros Hg (n & E & Hu & Ep). destruct (Hg n Hu) as [Hu' Ep']. exists n. by rewrite Ep'. Qed.

Lemma matches_grows cpr cpr' recs R : cpr_grows cpr cpr' -> Forall2 (matches cpr) recs R -> Forall2 (matches cpr') recs R.
Proof.
  intros Hg. apply Forall2_impl. intros cr r (H1 & H2 & H3 & H4). split; [done|]. split; [done|]. split; [by eapply path_grows|done].
Qed.

(** An entry of the function with path [p], to which [c] went, [l] ago. *)
Record entry_for (cpr : call_path_root) (p : list key) c (l : list branch_sample) (ts : thread_stack) (non_call : bool)
    (e : thread_stack_entry) : Prop := {
  ef_path : exists n, tse_cp e = Some n /\ used cpr n /\ path_of cpr n = p;
  ef_time : tse_timestamp e = s_time (br_sample c);
  ef_ref : tse_ref e = br_ref c;
  ef_no_call : tse_no_call e = false;
  ef_non_call : tse_non_call e = non_call;
  ef_since : since e l ts
}.

Lemma entry_grows cpr cpr' p c l l' ts ts' nc e : cpr_grows cpr cpr' -> scalars ts' = scalars (count_all l' ts) ->
  entry_for cpr p c l ts nc e -> entry_for cpr' p c (l ++ l') ts' nc e.
Proof.
  intros Hg Hs [H1 H2 H3 H4 H5 H6]. split; try done; [by eapply path_grows|].
  by apply (since_scalars _ _ (count_all l' ts)), since_all.
Qed.

Lemma entry_report cpr p c l r th ts nc nr e : th = me -> ts_comm ts = comm ->
  entry_for cpr p c (l ++ [r]) ts nc e ->
  matches cpr (record_of th ts e (s_time (br_sample r)) (br_ref r) nr)
    (report_of p c l r (flag nr CALL_RETURN_NO_RETURN .| flag nc CALL_RETURN_NON_CALL)).
Proof.
  intros Hw Hc [H1 H2 H3 H4 H5 (H6 & H7 & H8)]. split_and!; try done.
  - cbn. rewrite H6, length_app. cbn [length]. f_equal. lia.
  - cbn. by rewrite H4, H5.
Qed.

(** The functions jumped to, when the call returns. *)
Definition jumps (cpr : call_path_root) (T : list jumped) (ts : thread_stack) (tl : list thread_stack_entry) : Prop :=
  Forall2 (fun e t => entry_for cpr t.1.1 t.1.2 t.2 ts true e) tl T.

Lemma jump_reports cpr r th ts T tl ts0 : th = me -> ts_comm ts = comm -> jumps cpr T ts0 tl ->
  scalars ts = scalars (count_sample (br_sample r) ts0) ->
  Forall2 (matches cpr) (map (fun e => record_of th ts e (s_time (br_sample r)) (br_ref r) true) (rev tl)) (map (jump_report r) (rev T)).
Proof.
  intros Hw Hc Hj Es. induction Hj as [|e [[p j] l] tl T He _ IH]; [constructor|]. cbn [rev]. rewrite !map_app.
  apply Forall2_app; [exact IH|]. constructor; [|constructor]. cbn [map fst snd] in *.
  apply (entry_report cpr p j l r th ts true true e); [done|done|].
  apply (entry_grows cpr cpr p j l [r] ts0); [apply grows_refl|exact Es|done].
Qed.

Lemma jumps_non_call cpr T ts tl : jumps cpr T ts tl -> Forall (fun e => tse_non_call e = true) tl.
Proof. induction 1 as [|e t tl T [] _ IH]; by constructor. Qed.

Lemma jumps_grow cpr cpr' T ts ts' tl l' : cpr_grows cpr cpr' -> scalars ts' = scalars (count_all l' ts) -> jumps cpr T ts tl ->
  jumps cpr' (map (fun t => (t.1, t.2 ++ l')) T) ts' tl.
Proof. intros Hg Es. induction 1; constructor; [by eapply entry_grows|done]. Qed.

(** ** Runs *)

Lemma wp_process_app l1 l2 (Q : list Z -> TH -> Prop) s :
  wp (process_all log garbage l1) (fun errs1 => wp (process_all log garbage l2) (fun errs2 => Q (errs1 ++ errs2))) s ->
  wp (process_all log garbage (l1 ++ l2)) Q s.
Proof.
  revert Q s. induction l1 as [|c l1 IH]; intros Q s Hq; cbn [process_all app] in *; [exact Hq|].
  apply swp_bind. unfold wp at 1. unfold wp at 1 in Hq. unfold mbind, M_bind in Hq. destruct (thread_stack__process _ _ _ _ _ _ _ s) as [[err s1]|]; [|done].
  apply swp_bind. apply IH. unfold wp at 1. unfold wp at 1 in Hq. destruct (process_all log garbage l1 s1) as [[errs s2]|]; [|done].
  eapply swp_mono; [exact Hq|]. intros errs2 s3 H3. by apply swp_ret.
Qed.

(** The samples [l] have been handled: the entries before are left, with those of
    the jumps [T] above, and the reports [R] have been made. *)
Definition ran b x l (R : list report) (T : list jumped) (errs : list Z) s' : Prop :=
  Forall (eq 0) errs /\ exists x' tl recs, calm (b + 7 * Z.of_nat (length l)) s' x' /\
    live x'.1 = live x.1 ++ tl /\ jumps (w_cpr x'.2) T x'.1 tl /\ scalars x'.1 = scalars (count_all l x.1) /\
    cpr_grows (w_cpr x.2) (w_cpr x'.2) /\ logged x' = logged x ++ recs /\ Forall2 (matches (w_cpr x'.2)) recs R.

(** In the function with path [p]. *)
Definition in_function (p : list key) x : Prop :=
  exists l e n, live x.1 = l ++ [e] /\ tse_cp e = Some n /\ used (w_cpr x.2) n /\ path_of (w_cpr x.2) n = p.

Definition runs_from (p : list key) (l : list branch_sample) (R : list report) (T : list jumped) : Prop :=
  forall b s x, calm b s x -> Forall here l -> b + 7 * Z.of_nat (length l) < 2 ^ 50 -> in_function p x ->
    wp (process_all log garbage l) (ran b x l R T) s.

Lemma in_function_same p x x' : live x'.1 = live x.1 -> cpr_grows (w_cpr x.2) (w_cpr x'.2) -> in_function p x -> in_function p x'.
Proof.
  intros El Hg (l & e & n & H1 & H2 & H3 & H4). destruct (Hg n H3) as [H5 H6]. exists l, e, n. rewrite El. split_and!; try done. congruence.
Qed.

(** More samples after some that left the stack as it was. *)
Lemma ran_app b x l1 R1 l2 R2 T errs1 errs2 x1 recs s2 : Forall (eq 0) errs1 ->
  live x1.1 = live x.1 -> scalars x1.1 = scalars (count_all l1 x.1) -> cpr_grows (w_cpr x.2) (w_cpr x1.2) ->
  logged x1 = logged x ++ recs -> Forall2 (matches (w_cpr x1.2)) recs R1 ->
  ran (b + 7 * Z.of_nat (length l1)) x1 l2 R2 T errs2 s2 -> ran b x (l1 ++ l2) (R1 ++ R2) T (errs1 ++ errs2) s2.
Proof.
  intros H1 H2 H3 H4 H5 H6 (K1 & x2 & tl & recs2 & K2 & K3 & K4 & K5 & K6 & K7 & K8).
  split; [by apply List.Forall_app|]. exists x2, tl, (recs ++ recs2). split_and!.
  - rewrite length_app, Nat2Z.inj_add. by replace (b + 7 * (Z.of_nat (length l1) + Z.of_nat (length l2)))
      with (b + 7 * Z.of_nat (length l1) + 7 * Z.of_nat (length l2)) by lia.
  - congruence.
  - done.
  - rewrite K5, count_all_app, !count_scalars, H3. by rewrite count_scalars.
  - by eapply grows_trans.
  - by rewrite K7, H5, app_assoc.
  - apply Forall2_app; [by eapply matches_grows|done].
Qed.

(** ** One sample in a function *)

Abbreviation process_one c := (thread_stack__process log garbage (br_comm c) (br_sample c) (br_from c) (br_to c) (br_ref c)).

(** What one sample leaves. *)
Definition went b x c (err : Z) s' x' (recs : list call_return) : Prop :=
  err = 0 /\ calm (b + 7) s' x' /\ scalars x'.1 = scalars (count_all [c] x.1) /\ cpr_grows (w_cpr x.2) (w_cpr x'.2) /\
  logged x' = logged x ++ recs.

Lemma sample_branch b s x c : calm b s x -> here c -> b + 7 < 2 ^ 50 -> is_branch c ->
  wp (process_one c) (fun err s' => exists x', went b x c err s' x' [] /\ live x'.1 = live x.1) s.
Proof.
  intros Hs Hh Hb Hc.
  eapply swp_mono; [apply (wp_sample b c (fun x' => live x'.1 = live x.1 /\ logged x' = logged x) s x); [done|done|done|]|].
  - intros th rstate x1 _ _ E1 Hs1. eapply swp_mono; [by apply branch_plain|]. cbv beta. intros err x' [-> ->]. split; [done|].
    split; [apply (stack_ok_weaken b); [done|lia]|]. split; [done|]. rewrite E1. split; [|done]. by apply (calm_live b s x).
  - cbv beta. intros err s' (-> & x' & H1 & H2 & H3 & H4 & H5). exists x'. split; [|done]. split_and!; try done. by rewrite app_nil_r.
Qed.

(** A call or a jump to the function with path [p]. *)
Definition enters b x c p (non_call : bool) (ra err : Z) s' : Prop :=
  exists x' e, went b x c err s' x' [] /\ live x'.1 = live x.1 ++ [e] /\ tse_ret_addr e = ra /\
    entry_for (w_cpr x'.2) p c [] x'.1 non_call e /\ in_function p x'.

Lemma pushes_enters b s x x1 c p ra f nc err s' x' :
  x1 = (count_sample (br_sample c) x.1, x.2) -> in_function p x -> err = 0 -> calm (b + 7) s' x' ->
  scalars x'.1 = scalars (count_sample (br_sample c) x.1) -> cpr_grows (w_cpr x.2) (w_cpr x'.2) -> calm b s x ->
  (forall e, f e = e <| tse_non_call := nc || tse_non_call e |>) ->
  pushes (b + 2) x1 ra (s_time (br_sample c)) (br_ref c) (al_sym (br_to c)) (s_addr (br_sample c)) false f x' ->
  enters b x c (p ++ [callee c]) nc ra err s'.
Proof.
  intros -> (l0 & e0 & n0 & F1 & F2 & F3 & F4) -> Hcalm Hsc Hg _ Hf (_ & _ & P3 & l & e & n & m & P4 & P5 & P6 & P7 & P8 & P9).
  rewrite Hf in P7. exists x'. eexists. split; [split; [done|]; split; [done|]; split; [done|]; split; [done|by rewrite app_nil_r]|].
  change (live (count_sample (br_sample c) x.1, x.2).1) with (live x.1) in *. cbn [snd] in *.
  rewrite F1 in P4. apply app_inj_tail in P4 as [_ <-]. rewrite F2 in P5. injection P5 as <-. rewrite F4 in P9.
  split; [exact P7|]. split; [done|]. split.
  - split; try done; [by exists m|cbn; by rewrite orb_false_r|]. apply (since_scalars _ _ (count_sample (br_sample c) x.1)); [done|].
    split_and!; cbn; by rewrite Z.sub_diag.
  - exists (live x.1). eexists. exists m. split; [exact P7|]. by split_and!.
Qed.

Lemma sample_call b s x c p : calm b s x -> here c -> b + 7 < 2 ^ 50 -> in_function p x -> is_call c ->
  wp (process_one c) (enters b x c (p ++ [callee c]) false (return_address c)) s.
Proof.
  intros Hs Hh Hb Hp Hc.
  eapply swp_mono; [apply (wp_sample b c (fun x' => pushes (b + 2) (count_sample (br_sample c) x.1, x.2) (return_address c)
    (s_time (br_sample c)) (br_ref c) (al_sym (br_to c)) (s_addr (br_sample c)) false id x') s x); [done|done|done|]|].
  - intros th rstate x1 _ _ E1 Hs1. eapply swp_mono; [apply (branch_call b); [done|done|lia| |]|].
    + rewrite E1. by apply (calm_live b s x).
    + rewrite E1. by apply (calm_allocs b s x).
    + cbv beta. intros err x' [-> Hpush]. rewrite <- E1. pose proof Hpush as (P1 & P2 & _ & l & e & n & m & _ & _ & _ & P7 & _).
      split; [done|]. split; [apply (stack_ok_weaken (b + 2)); [done|lia]|]. split; [done|]. split; [|done].
      rewrite P7. by destruct (live x1.1).
  - cbv beta. intros err s' (-> & x' & H1 & H2 & H3 & H4). eapply (pushes_enters b s x _ c p _ id false); try done.
    intros []. done.
Qed.

Lemma sample_jump b s x c p : calm b s x -> here c -> b + 7 < 2 ^ 50 -> in_function p x -> is_jump c ->
  wp (process_one c) (enters b x c (p ++ [callee c]) true 0) s.
Proof.
  intros Hs Hh Hb Hp Hc.
  eapply swp_mono; [apply (wp_sample b c (fun x' => pushes (b + 2) (count_sample (br_sample c) x.1, x.2) 0
    (s_time (br_sample c)) (br_ref c) (al_sym (br_to c)) (s_addr (br_sample c)) false (fun e => e <| tse_non_call := true |>) x') s x);
    [done|done|done|]|].
  - intros th rstate x1 _ _ E1 Hs1. eapply swp_mono; [apply (branch_jump b); [done|done|lia| |]|].
    + rewrite E1. by apply (calm_live b s x).
    + rewrite E1. by apply (calm_allocs b s x).
    + cbv beta. intros err x' [-> Hpush]. rewrite <- E1. pose proof Hpush as (P1 & P2 & _ & l & e & n & m & _ & _ & _ & P7 & _).
      split; [done|]. split; [apply (stack_ok_weaken (b + 2)); [done|lia]|]. split; [done|]. split; [|done].
      rewrite P7. by destruct (live x1.1).
  - cbv beta. intros err s' (-> & x' & H1 & H2 & H3 & H4). eapply (pushes_enters b s x _ c p _ (fun e => e <| tse_non_call := true |>) true); try done.
Qed.

Lemma sample_return b s x c r p l T L e tl : calm b s x -> here r -> b + 7 < 2 ^ 50 -> is_return c r ->
  live x.1 = L ++ e :: tl -> L <> [] -> tse_ret_addr e = return_address c ->
  entry_for (w_cpr x.2) p c l x.1 false e -> jumps (w_cpr x.2) T x.1 tl ->
  wp (process_one r) (fun err s' => exists x' recs, went b x r err s' x' recs /\ live x'.1 = L /\
    Forall2 (matches (w_cpr x'.2)) recs (map (jump_report r) (rev T) ++ [report_of p c l r 0])) s.
Proof.
  intros Hs Hh Hb Hr El HL Hra He Hj. set (x1 := (count_sample (br_sample r) x.1, x.2)).
  eapply swp_mono; [apply (wp_sample b r (fun x' => exists recs, logged x' = logged x ++ recs /\ live x'.1 = L /\
    Forall2 (matches (w_cpr x.2)) recs (map (jump_report r) (rev T) ++ [report_of p c l r 0])) s x); [done|done|done|]|].
  - intros th rstate x1' Hw Hrst -> Hs1. eapply swp_mono; [apply (branch_return b th rstate c r x1 L e tl); try done|].
    + by apply ef_non_call in He.
    + by eapply jumps_non_call.
    + cbv beta. intros err x' (-> & D1 & D2 & D3 & D4). split; [done|]. split; [apply (stack_ok_weaken b); [done|lia]|].
      split; [done|]. split; [by rewrite D3|]. eexists. split; [exact D4|]. split; [done|].
      assert (ts_comm (count_sample (br_sample r) x.1) = comm) as Hcomm by (by apply (calm_comm b s x)).
      apply Forall2_app; [by apply (jump_reports _ _ _ _ _ _ x.1)|]. constructor; [|constructor].
      apply (entry_report (w_cpr x.2) p c l r th x1.1 false false e); [done|done|].
      apply (entry_grows (w_cpr x.2) (w_cpr x.2) p c l [r] x.1); [apply grows_refl|done|done].
  - cbv beta. intros err s' (-> & x' & H1 & H2 & H3 & recs & H4 & H5 & H6). exists x', recs. split; [by split_and!|].
    split; [done|]. by eapply matches_grows.
Qed.

(** ** Any run *)

Lemma runs_from_nil p : runs_from p [] [] [].
Proof.
  intros b s x Hs _ Hb _. apply swp_ret. split; [done|]. exists x, [], []. replace (b + 7 * Z.of_nat (length [])) with b by (cbn; lia).
  split_and!; try done; [by rewrite app_nil_r|constructor|by rewrite app_nil_r].
Qed.

(** A sample that leaves the stack as it was, and more. *)
Lemma runs_from_cons p c l R T b s x (recs : list call_return) R0 err s1 x1 : Forall here l ->
  b + 7 * Z.of_nat (length (c :: l)) < 2 ^ 50 -> in_function p x -> went b x c err s1 x1 recs -> live x1.1 = live x.1 ->
  Forall2 (matches (w_cpr x1.2)) recs R0 -> runs_from p l R T ->
  wp (errs ← process_all log garbage l; mret (err :: errs)) (ran b x (c :: l) (R0 ++ R) T) s1.
Proof.
  intros Hl Hb Hp (-> & W1 & W2 & W3 & W4) El Hrecs Hrun. cbn [length] in Hb. apply swp_bind.
  eapply swp_mono; [apply (Hrun (b + 7) s1 x1); [done|done|lia|by eapply in_function_same]|]. intros errs s2 Hran. apply swp_ret.
  apply (ran_app b x [c] R0 l R T [0] errs x1 recs); try done.
  by constructor.
Qed.

Lemma runs_from_call p c l r l' R T R' : is_call c -> is_return c r -> runs_from (p ++ [callee c]) l R T -> runs_from p l' R' [] ->
  runs_from p (c :: l ++ r :: l') (R ++ map (jump_report r) (rev T) ++ report_of (p ++ [callee c]) c l r 0 :: R') [].
Proof.
  intros Hc Hr Hbody Hrest b s x Hs Hl Hb Hp. inversion Hl as [|? ? Hhc Hl']. subst. apply List.Forall_app in Hl' as [Hl1 Hl'].
  inversion Hl' as [|? ? Hhr Hl2]. subst. cbn [length] in Hb. rewrite length_app in Hb. cbn [length] in Hb.
  replace (c :: l ++ r :: l') with ((c :: l) ++ r :: l') by done. apply wp_process_app. cbn [process_all]. apply swp_bind.
  eapply swp_mono; [apply (sample_call b s x c p); [done|done|lia|done|done]|].
  intros err s1 (x1 & e & (-> & W1 & W2 & W3 & W4) & E1 & Era & Hentry & Hp1). apply swp_bind.
  eapply swp_mono; [apply (Hbody (b + 7) s1 x1); [done|done|lia|done]|].
  intros errs s2 (Herrs & x2 & tl & recs & V1 & V2 & V3 & V4 & V5 & V6 & V7). apply swp_ret. cbn [process_all]. apply swp_bind.
  eapply swp_mono; [apply (sample_return (b + 7 + 7 * Z.of_nat (length l)) s2 x2 c r (p ++ [callee c]) l T (live x.1) e tl);
    [done|done|lia|done| | |done| |done]|].
  - by rewrite V2, E1, <- app_assoc.
  - by apply (calm_live b s x).
  - apply (entry_grows (w_cpr x1.2) (w_cpr x2.2) (p ++ [callee c]) c [] l x1.1); done.
  - cbv beta. intros err s3 (x3 & recs3 & (-> & U1 & U2 & U3 & U4) & E3 & Hm3). apply swp_bind.
    eapply swp_mono; [apply (Hrest (b + 7 + 7 * Z.of_nat (length l) + 7) s3 x3); [done|done|lia|]|].
    + eapply in_function_same; [exact E3| |exact Hp]. eapply grows_trans; [exact W3|]. by eapply grows_trans.
    + intros errs4 s4 Hran. apply swp_ret.
      replace (0 :: errs) with ([0] ++ errs) by done.
      replace ((c :: l) ++ r :: l') with ((c :: l ++ [r]) ++ l') by (cbn; by rewrite <- app_assoc).
      replace (R ++ map (jump_report r) (rev T) ++ report_of (p ++ [callee c]) c l r 0 :: R')
        with ((R ++ map (jump_report r) (rev T) ++ [report_of (p ++ [callee c]) c l r 0]) ++ R') by (by rewrite <- !app_assoc).
      replace (([0] ++ errs) ++ 0 :: errs4) with ((0 :: errs ++ [0]) ++ errs4) by (cbn; by rewrite <- app_assoc).
      apply (ran_app b x (c :: l ++ [r]) _ l' R' [] _ errs4 x3 (recs ++ recs3)).
      * constructor; [done|]. apply List.Forall_app. by split; [|constructor].
      * done.
      * rewrite U2. cbn [count_all fold_left]. fold (count_all (l ++ [r]) (count_sample (br_sample c) x.1)).
        rewrite count_all_app. cbn. change (count_sample (br_sample r) (scalars x2.1) = count_sample (br_sample r) (scalars (count_all l (count_sample (br_sample c) x.1)))).
        f_equal. rewrite V4, !count_scalars. f_equal. exact W2.
      * eapply grows_trans; [exact W3|]. by eapply grows_trans.
      * by rewrite U4, V6, W4, app_nil_r, app_assoc.
      * apply Forall2_app; [by eapply matches_grows|done].
      * replace (b + 7 * Z.of_nat (length (c :: l ++ [r]))) with (b + 7 + 7 * Z.of_nat (length l) + 7); [done|].
        cbn [length]. rewrite length_app. cbn [length]. lia.
Qed.

Lemma runs_from_jump p l j l' R R' T : runs_from p l R [] -> is_jump j -> runs_from (p ++ [callee j]) l' R' T ->
  runs_from p (l ++ j :: l') (R ++ R') ((p ++ [callee j], j, l') :: T).
Proof.
  intros Hrun Hj Hbody b s x Hs Hl Hb Hp. apply List.Forall_app in Hl as [Hl1 Hl']. inversion Hl' as [|? ? Hhj Hl2]. subst.
  rewrite length_app in Hb. cbn [length] in Hb. apply wp_process_app.
  eapply swp_mono; [apply (Hrun b s x); [done|done|lia|done]|].
  intros errs1 s1 (Herrs & x1 & tl1 & recs1 & V1 & V2 & V3 & V4 & V5 & V6 & V7). inversion V3. subst. rewrite app_nil_r in V2.
  cbn [process_all]. apply swp_bind. set (b1 := b + 7 * Z.of_nat (length l)) in *.
  eapply swp_mono; [apply (sample_jump b1 s1 x1 j p); [done|done|lia|by eapply in_function_same|done]|].
  intros err s2 (x2 & e & (-> & W1 & W2 & W3 & W4) & E2 & _ & Hentry & Hp2). apply swp_bind.
  eapply swp_mono; [apply (Hbody (b1 + 7) s2 x2); [done|done|lia|done]|].
  intros errs s3 (Herrs3 & x3 & tl & recs3 & U1 & U2 & U3 & U4 & U5 & U6 & U7). apply swp_ret.
  apply (ran_app b x l R (j :: l') R' _ errs1 (0 :: errs) x1 recs1); try done. fold b1.
  split; [by constructor|]. exists x3, (e :: tl), recs3. split_and!.
  - replace (b1 + 7 * Z.of_nat (length (j :: l'))) with (b1 + 7 + 7 * Z.of_nat (length l')); [done|]. cbn [length]. lia.
  - by rewrite U2, E2, <- app_assoc.
  - constructor; [|done]. cbn [fst snd]. by apply (entry_grows (w_cpr x2.2) (w_cpr x3.2) (p ++ [callee j]) j [] l' x2.1).
  - rewrite U4, !count_scalars. cbn [count_all fold_left]. fold (count_all l' (count_sample (br_sample j) (scalars x1.1))).
    f_equal. exact W2.
  - by eapply grows_trans.
  - by rewrite U6, W4, app_nil_r.
  - done.
Qed.

Lemma runs_ok : (forall p l R, runs p l R -> runs_from p l R []) /\ (forall p l R T, body p l R T -> runs_from p l R T).
Proof.
  assert ((forall p l R (r : runs p l R), runs_from p l R []) /\ (forall p l R T (r : body p l R T), runs_from p l R T)) as [H1 H2];
    [|by split; intros; [apply H1|apply H2]].
  apply (runs_body_ind (fun p l R _ => runs_from p l R []) (fun p l R T _ => runs_from p l R T)).
  - exact runs_from_nil.
  - intros p c l R Hc _ IH b s x Hs Hl Hb Hp. inversion Hl as [|? ? Hh Hl']. subst. cbn [process_all]. apply swp_bind.
    eapply swp_mono; [apply (sample_branch b s x c); [done|done|cbn [length] in Hb; lia|done]|].
    intros err s1 (x1 & Hw & El). by apply (runs_from_cons p c l R [] b s x [] [] err s1 x1).
  - intros p c l r l' R T R' Hc Hr _ IH1 _ IH2. by apply runs_from_call.
  - intros p l R _ IH. exact IH.
  - intros p l j l' R R' T _ IH1 Hj _ IH2. by apply runs_from_jump.
Qed.
End runs.
