(* ===== verification/ThreadEvents.v ===== *)
(** The stacks that [thread_stack__event] keeps for samples, against an abstract
    history of the thread: a list of calls that have not returned and a list of
    the latest branches, both with the latest first. *)
From Stdlib Require Import ZArith Lia List Bool String.
From S2P Require Import Prelude CallPath PtInsn ThreadStack ThreadSample ThreadCalls ThreadSafe ThreadSteps ThreadTheorems.
Open Scope Z_scope.
Open Scope c_scope.
Import ListNotations.

(** ** The history *)

Record trace_event := mkEvent {
  ev_flags : Z;
  ev_from : Z;
  ev_to : Z;
  ev_insn_len : Z;
  ev_trace_nr : Z
}.

(** A call: its return address, and whether the trace ended with it. *)
Record history := mkHistory {
  h_trace_nr : Z;
  h_calls : list (Z * bool);
  h_branches : list branch_entry
}.

(** The calls left by a return to this address, if one returns there. *)
Fixpoint returned (addr : Z) (calls : list (Z * bool)) : option (list (Z * bool)) :=
  match calls with
  | [] => None
  | (ret_addr, _) :: calls => if ret_addr =? addr then Some calls else returned addr calls
  end.
Definition return_to (addr : Z) (calls : list (Z * bool)) : list (Z * bool) :=
  match returned addr calls with Some calls => calls | None => calls end.

Fixpoint drop_ended (calls : list (Z * bool)) : list (Z * bool) :=
  match calls with
  | (_, true) :: calls => drop_ended calls
  | _ => calls
  end.

Definition branch_of (mispred : bool) (ev : trace_event) : branch_entry :=
  mkBe (ev_from ev) (ev_to ev) (has (ev_flags ev) PERF_IP_FLAG_TX_ABORT) (has (ev_flags ev) PERF_IP_FLAG_IN_TX) mispred.

Definition calls_after (ev : trace_event) (calls : list (Z * bool)) : list (Z * bool) :=
  let ret_addr := u64 (ev_from ev + ev_insn_len ev) in
  if has (ev_flags ev) PERF_IP_FLAG_CALL then
    if (ev_to ev =? 0) || (ret_addr =? ev_to ev) then calls
    else (ret_addr, has (ev_flags ev) PERF_IP_FLAG_TRACE_END) :: calls
  else if has (ev_flags ev) PERF_IP_FLAG_TRACE_BEGIN then drop_ended (return_to (ev_to ev) calls)
  else if has (ev_flags ev) PERF_IP_FLAG_RETURN && negb (ev_from ev =? 0) then return_to (ev_to ev) calls
  else calls.

(** A new trace forgets all, but for trace number 0. *)
Definition new_trace (nr : Z) (h : history) : history :=
  if (nr =? h_trace_nr h) || (h_trace_nr h =? 0) then mkHistory nr (h_calls h) (h_branches h) else mkHistory nr [] [].

(** The last [n] branches are kept. *)
Definition h_event (callstack mispred : bool) (n : Z) (h : history) (ev : trace_event) : history :=
  let h := new_trace (ev_trace_nr ev) h in
  mkHistory (h_trace_nr h) (if callstack then calls_after ev (h_calls h) else h_calls h)
    (take (Z.to_nat n) (branch_of mispred ev :: h_branches h)).

Definition h_events (callstack mispred : bool) (n : Z) (evs : list trace_event) : history :=
  fold_left (h_event callstack mispred n) evs (mkHistory (match evs with ev :: _ => ev_trace_nr ev | [] => 0 end) [] []).

(** ** The ring buffer *)

(** The branches it holds, the latest first. *)
Definition ring (bs : branch_stack) (pos : Z) : list branch_entry :=
  take (Z.to_nat (bs_nr bs)) (drop (Z.to_nat pos) (bs_entries bs) ++ take (Z.to_nat pos) (bs_entries bs)).

Record ring_ok (n : Z) (bs : branch_stack) (pos : Z) : Prop := {
  rg_length : Z.of_nat (length (bs_entries bs)) = n;
  rg_size : 0 < n < 2 ^ 32;
  rg_pos : 0 <= pos < n;
  rg_nr : bs_nr bs = n \/ 0 < bs_nr bs < n /\ pos = n - bs_nr bs \/ bs_nr bs = 0 /\ pos = 0
}.

Lemma ring_empty n bs : Z.of_nat (length (bs_entries bs)) = n -> 0 < n < 2 ^ 32 ->
  ring_ok n (mkBs 0 (bs_entries bs)) 0 /\ ring (mkBs 0 (bs_entries bs)) 0 = [].
Proof. intros Hl Hn. split; [|done]. split; cbn; try done; [lia|]. right; right. done. Qed.

Lemma length_ring n bs pos : ring_ok n bs pos -> Z.of_nat (length (ring bs pos)) = bs_nr bs.
Proof. intros [H1 H2 H3 H4]. unfold ring. rewrite length_take, length_app, length_drop, length_take. lia. Qed.

(** A branch more. *)
Definition ring_push (n : Z) (bs : branch_stack) (pos : Z) (be : branch_entry) : branch_stack * Z :=
  let pos := (if pos =? 0 then n else pos) - 1 in
  (mkBs (if bs_nr bs <? n then bs_nr bs + 1 else bs_nr bs) (<[Z.to_nat pos := be]> (bs_entries bs)), pos).

Lemma ring_push_ok n bs pos be : ring_ok n bs pos ->
  ring_ok n (ring_push n bs pos be).1 (ring_push n bs pos be).2 /\
  ring (ring_push n bs pos be).1 (ring_push n bs pos be).2 = take (Z.to_nat n) (be :: ring bs pos).
Proof.
  intros [H1 H2 H3 H4]. unfold ring_push. set (p := (if pos =? 0 then n else pos) - 1).
  assert (0 <= p < n /\ (pos = 0 /\ p = n - 1 \/ p = pos - 1)) as [Hp Hcase] by (subst p; destruct (Z.eqb_spec pos 0); lia). clearbody p.
  cbn [fst snd]. set (entries := bs_entries bs) in *.
  assert (Hnr : (if bs_nr bs <? n then bs_nr bs + 1 else bs_nr bs) = Z.min n (bs_nr bs + 1)) by (destruct (Z.ltb_spec (bs_nr bs) n); lia).
  rewrite Hnr. split.
  - split; cbn; try done; [by rewrite length_insert|]. lia.
  - unfold ring. cbn. rewrite (drop_S _ be (Z.to_nat p)) by (apply list_lookup_insert_eq; lia).
    rewrite drop_insert_lt by lia. rewrite take_insert_ge by lia.
    assert (Z.to_nat (Z.min n (bs_nr bs + 1)) = S (Z.to_nat (Z.min (n - 1) (bs_nr bs)))) as -> by lia.
    assert (Z.to_nat n = S (Z.to_nat (n - 1))) as -> by lia. cbn [app take firstn]. f_equal.
    rewrite take_take. replace (Init.Nat.min (Z.to_nat (n - 1)) (Z.to_nat (bs_nr bs))) with (Z.to_nat (Z.min (n - 1) (bs_nr bs))) by lia.
    destruct Hcase as [[-> ->]| ->].
    + change (Z.to_nat 0) with 0%nat. rewrite drop_0, firstn_O, app_nil_r, drop_ge by lia. cbn [app].
      rewrite take_take. f_equal. lia.
    + fold entries. replace (S (Z.to_nat (pos - 1))) with (Z.to_nat pos) by lia. destruct (entries !! Z.to_nat (pos - 1)) as [x|] eqn:Ex.
      2: { apply lookup_ge_None in Ex. lia. }
      replace (take (Z.to_nat pos) entries) with (take (Z.to_nat (pos - 1)) entries ++ [x]).
      2: { rewrite <- (take_S_r _ _ _ Ex). f_equal. lia. }
      rewrite app_assoc. symmetry. apply take_app_le. rewrite length_app, length_drop, length_take. lia.
Qed.

(** ** The stack of return addresses *)

Definition call_of (e : thread_stack_entry) : Z * bool := (tse_ret_addr e, tse_trace_end e).
(** The first [n] entries, the latest first. *)
Definition calls_in (stack : list thread_stack_entry) (n : nat) : list (Z * bool) := rev (map call_of (take n stack)).

Lemma calls_in_S stack n e : stack !! n = Some e -> calls_in stack (S n) = call_of e :: calls_in stack n.
Proof. intros E. unfold calls_in. rewrite (take_S_r _ _ _ E), map_app, rev_app_distr. done. Qed.

Lemma length_calls_in stack n : (n <= length stack)%nat -> length (calls_in stack n) = n.
Proof. intros Hn. unfold calls_in. rewrite length_rev, length_map, length_take. lia. Qed.

Lemma returned_calls addr stack n calls : (n <= length stack)%nat -> returned addr (calls_in stack n) = Some calls ->
  calls = calls_in stack (length calls) /\ (length calls < n)%nat.
Proof.
  induction n as [|n IH]; intros Hn; [done|]. destruct (lookup_lt_is_Some_2 stack n) as [e E]; [lia|].
  rewrite (calls_in_S _ _ _ E). cbn. destruct (tse_ret_addr e =? addr).
  - intros [= <-]. rewrite length_calls_in by lia. split; [done|lia].
  - intros Er. destruct (IH ltac:(lia) Er). split; [done|lia].
Qed.

Lemma drop_ended_calls stack n : (n <= length stack)%nat ->
  drop_ended (calls_in stack n) = calls_in stack (length (drop_ended (calls_in stack n))) /\ (length (drop_ended (calls_in stack n)) <= n)%nat.
Proof.
  induction n as [|n IH]; intros Hn; [done|]. destruct (lookup_lt_is_Some_2 stack n) as [e E]; [lia|].
  rewrite (calls_in_S _ _ _ E). unfold call_of. cbn [drop_ended]. destruct (tse_trace_end e) eqn:Ete.
  - destruct (IH ltac:(lia)). split; [done|lia].
  - cbn [length]. rewrite length_calls_in by lia. rewrite (calls_in_S _ _ _ E). unfold call_of. rewrite Ete. split; [done|lia].
Qed.

Section events.
Context {D : Type} (process : call_return -> option Z -> D -> Z * Z * D) (garbage : thread_stack_entry).
Context (callstack mispred : bool) (n : Z).
Implicit Types (s : @TS D) (h : history).

(** The thread stack keeps this history. *)
Record keeps (b : Z) s h : Prop := {
  kp_len : Z.of_nat (length (ts_stack s.1)) = ts_sz s.1;
  kp_sz : ts_sz s.1 <= STACK_GROWTH * b;
  kp_cnt : 0 <= ts_cnt s.1 <= ts_sz s.1;
  kp_bound : b < 2 ^ 50;
  kp_crp : ts_crp s.1 = false;
  kp_allocs : all_true (w_allocs s.2);
  kp_nr : ts_trace_nr s.1 = h_trace_nr h;
  kp_mispred : ts_mispred_all s.1 = mispred;
  kp_calls : calls_in (ts_stack s.1) (Z.to_nat (ts_cnt s.1)) = h_calls h;
  kp_br_sz : ts_br_stack_sz s.1 = n;
  kp_ring : exists bs, ts_br_stack_rb s.1 = Some bs /\ ring_ok n bs (ts_br_stack_pos s.1) /\ ring bs (ts_br_stack_pos s.1) = h_branches h
}.

Definition set_calls (calls : list (Z * bool)) h : history := mkHistory (h_trace_nr h) calls (h_branches h).

Lemma set_calls_id h : set_calls (h_calls h) h = h.
Proof. by destruct h. Qed.

Lemma wp_keeps_entry b h i (Q : thread_stack_entry -> @TS D -> Prop) s : keeps b s h -> (Z.of_nat i < ts_sz s.1) ->
  (forall e, ts_stack s.1 !! i = Some e -> Q e s) -> wp (entry (Z.of_nat i)) Q s.
Proof.
  intros [K1 _ _ _ _ _ _ _ _ _ _] Hi HQ. destruct (lookup_lt_is_Some_2 (ts_stack s.1) i) as [e E]; [lia|]. unfold entry.
  apply swp_bind, wp_the. unfold idx. destruct (Z.ltb_spec (Z.of_nat i) 0); [lia|]. rewrite Nat2Z.id, E. apply wp_deref. by apply HQ.
Qed.

(** Fewer entries. *)
Lemma keeps_cnt b s h calls : keeps b s h -> calls = calls_in (ts_stack s.1) (length calls) -> (length calls <= Z.to_nat (ts_cnt s.1))%nat ->
  keeps b (s.1 <| ts_cnt := Z.of_nat (length calls) |>, s.2) (set_calls calls h).
Proof.
  intros [K1 K2 K3 K4 K5 K6 K7 K8 K9 K10 K11] Ec Hc. split; try done; cbn [fst snd]; [cbn; lia|]. cbn. by rewrite Nat2Z.id.
Qed.

Lemma wp_pop_loop b addr h m s : keeps b s h -> (m <= Z.to_nat (ts_cnt s.1))%nat ->
  wp (pop_loop addr m) (fun _ s' => exists calls, keeps b s' (set_calls calls h) /\
    calls = match returned addr (calls_in (ts_stack s.1) m) with Some calls => calls | None => h_calls h end) s.
Proof.
  intros Hk. pose proof Hk as [K1 _ K3 _ _ _ _ _ _ _ _]. induction m as [|m IH]; intros Hm; cbn [pop_loop].
  - apply swp_ret. exists (h_calls h). by rewrite set_calls_id.
  - apply swp_bind, (wp_keeps_entry b h); [done|lia|]. intros e E. rewrite (calls_in_S _ _ _ E). unfold call_of. cbn [returned].
    destruct (tse_ret_addr e =? addr); [|by apply IH; lia]. apply wp_update. eexists. split; [|reflexivity].
    assert (Hlen : length (calls_in (ts_stack s.1) m) = m) by (apply length_calls_in; lia).
    pose proof (keeps_cnt b s h (calls_in (ts_stack s.1) m) Hk ltac:(by rewrite Hlen) ltac:(lia)) as Hk'. by rewrite Hlen in Hk'.
Qed.

Lemma wp_pop b addr h s : keeps b s h ->
  wp (thread_stack__pop addr) (fun _ s' => keeps b s' (set_calls (return_to addr (h_calls h)) h)) s.
Proof.
  intros Hk. unfold thread_stack__pop. apply swp_bind, wp_the. eapply swp_mono; [by apply (wp_pop_loop b addr h)|].
  intros _ s' (calls & Hk' & ->). cbv beta. rewrite (kp_calls _ _ _ Hk) in Hk'. exact Hk'.
Qed.

Lemma wp_pop_trace_end_loop b : forall m h s, keeps b s h -> Z.of_nat m = ts_cnt s.1 ->
  wp (pop_trace_end_loop m) (fun _ s' => keeps b s' (set_calls (drop_ended (h_calls h)) h)) s.
Proof.
  induction m as [|m IH]; intros h s Hk Hm; cbn [pop_trace_end_loop]; pose proof Hk as [K1 _ K3 _ _ _ _ _ K9 _ _].
  - apply swp_ret. assert (h_calls h = []) as E0 by (by rewrite <- K9, <- Hm). rewrite E0. cbn [drop_ended]. by rewrite <- E0, set_calls_id.
  - apply swp_bind, (wp_keeps_entry b h); [done|lia|]. intros e E.
    rewrite <- K9, <- Hm, Nat2Z.id, (calls_in_S _ _ _ E). unfold call_of. cbn [drop_ended]. destruct (tse_trace_end e) eqn:Ete.
    + apply swp_bind, wp_update. assert (Hlen : length (calls_in (ts_stack s.1) m) = m) by (apply length_calls_in; lia).
      pose proof (keeps_cnt b s h (calls_in (ts_stack s.1) m) Hk ltac:(by rewrite Hlen) ltac:(lia)) as Hk'. rewrite Hlen in Hk'.
      eapply swp_mono; [by apply (IH _ _ Hk')|]. intros x s' Hx; exact Hx.
    + apply swp_ret. replace ((tse_ret_addr e, false) :: calls_in (ts_stack s.1) m) with (h_calls h); [by rewrite set_calls_id|].
      rewrite <- K9, <- Hm, Nat2Z.id, (calls_in_S _ _ _ E). unfold call_of. by rewrite Ete.
Qed.

Lemma wp_pop_trace_end b h s : keeps b s h ->
  wp thread_stack__pop_trace_end (fun _ s' => keeps b s' (set_calls (drop_ended (h_calls h)) h)) s.
Proof.
  intros Hk. pose proof (kp_cnt _ _ _ Hk). unfold thread_stack__pop_trace_end. apply swp_bind, wp_the. apply wp_pop_trace_end_loop; [done|lia].
Qed.

Lemma keeps_weaken b b' s h : keeps b s h -> b <= b' < 2 ^ 50 -> keeps b' s h.
Proof. intros [K1 K2 K3 K4 K5 K6 K7 K8 K9 K10 K11] Hb. unfold STACK_GROWTH in *. split; unfold STACK_GROWTH; try done; lia. Qed.

(** ** An event *)

Lemma wp_check_trace_nr b me nr h s : keeps b s h ->
  wp (check_trace_nr process me nr) (fun _ s' => keeps b s' (new_trace nr h)) s.
Proof.
  intros Hk. pose proof Hk as [K1 K2 K3 K4 K5 K6 K7 K8 K9 K10 (bs & R1 & R2 & R3)]. unfold check_trace_nr, new_trace.
  apply swp_bind, wp_the. rewrite <- K7. destruct (Z.eqb_spec nr (ts_trace_nr s.1)) as [->|Hne]; cbn [orb].
  - apply swp_ret. rewrite K7. by destruct h.
  - apply swp_bind. destruct (Z.eqb_spec (ts_trace_nr s.1) 0).
    + apply swp_ret, wp_update. split; try done. by exists bs.
    + unfold __thread_stack__flush. apply swp_bind, wp_the. rewrite K5. cbn [negb]. wp. split; try done; [cbn; lia|].
      exists (mkBs 0 (bs_entries bs)). cbn. rewrite R1. split; [done|]. destruct R2 as [H1 H2 _ _]. by apply (ring_empty n bs).
Qed.

Lemma wp_update_br_stack b ev h s : keeps b s h -> 
  wp (thread_stack__update_br_stack (ev_flags ev) (ev_from ev) (ev_to ev)) (fun _ s' =>
    keeps b s' (mkHistory (h_trace_nr h) (h_calls h) (take (Z.to_nat n) (branch_of mispred ev :: h_branches h)))) s.
Proof.
  intros Hk. pose proof Hk as [K1 K2 K3 K4 K5 K6 K7 K8 K9 K10 (bs & R1 & R2 & R3)]. unfold thread_stack__update_br_stack.
  apply swp_bind, wp_the, swp_bind. rewrite R1. apply wp_deref. apply swp_bind, wp_the, swp_bind, wp_the, swp_bind, wp_the. rewrite K8, K10.
  cbv zeta. set (pos := ts_br_stack_pos s.1) in *. destruct R2 as [H1 H2 H3 H4]. set (p := (if pos =? 0 then n else pos) - 1).
  assert (0 <= p < n) as Hp by (subst p; destruct (Z.eqb_spec pos 0); lia). rewrite u32_small by lia.
  rewrite set_at_eq by lia. apply swp_bind, wp_deref, wp_update. fold (branch_of mispred ev).
  destruct (ring_push_ok n bs pos (branch_of mispred ev)) as [P1 P2]; [by split|]. unfold ring_push in P1, P2. fold p in P1, P2. cbn [fst snd] in P1, P2.
  split; try done. eexists. split; [reflexivity|]. split; [exact P1|]. cbn. by rewrite <- R3.
Qed.

Lemma wp_push b ra te h s : keeps b s h -> b + 1 < 2 ^ 50 ->
  wp (thread_stack__push garbage ra te) (fun err s' => err = 0 /\ keeps (b + 1) s' (set_calls ((ra, te) :: h_calls h) h)) s.
Proof.
  intros Hk Hb. unfold thread_stack__push. apply swp_bind, wp_the, swp_bind, wp_the, swp_bind.
  assert (Hset : forall s', keeps (b + 1) s' h -> ts_cnt s'.1 < ts_sz s'.1 ->
    wp (cnt ← the ts_cnt; set_entry cnt (fun e => e <| tse_trace_end := te |> <| tse_ret_addr := ra |>);;
        update (fun ts => ts <| ts_cnt ::= Z.add 1 |>);; mret 0)
      (fun err s' => err = 0 /\ keeps (b + 1) s' (set_calls ((ra, te) :: h_calls h) h)) s').
  { intros s' Hk' Hlt. pose proof Hk' as [K1 K2 K3 K4 K5 K6 K7 K8 K9 K10 K11]. apply swp_bind, wp_the, swp_bind.
    destruct (idx_range (ts_stack s'.1) (ts_cnt s'.1)) as [e Ee]; [lia|]. unfold set_entry, entry. wp. rewrite Ee. apply wp_deref. wp.
    rewrite set_at_eq by lia. apply wp_deref. wp. split; [done|]. split; try done.
    - cbn. rewrite length_insert. done.
    - cbn. lia.
    - cbn. replace (Z.to_nat (1 + ts_cnt s'.1)) with (S (Z.to_nat (ts_cnt s'.1))) by lia.
      rewrite (calls_in_S _ _ (e <| tse_trace_end := te |> <| tse_ret_addr := ra |>)) by (apply list_lookup_insert_eq; lia).
      unfold calls_in in *. rewrite take_insert_ge by lia. by rewrite K9. }
  pose proof Hk as [K1 K2 K3 K4 K5 K6 K7 K8 K9 K10 K11].
  destruct (Z.eqb_spec (ts_cnt s.1) (ts_sz s.1)) as [Efull|].
  - apply swp_bind. unfold thread_stack__grow. apply swp_bind, wp_the, swp_bind, wp_alloc. rewrite (K6 0%nat). cbn [negb]. unfold STACK_GROWTH in *. wp.
    rewrite u64_small by lia. set (new := replicate _ _).
    assert (Z.of_nat (length new) = 2048) as Hl by (subst new; rewrite length_replicate; lia).
    change (negb (0 =? 0)) with false. cbv beta iota. apply swp_ret. cbn [fst snd]. apply Hset; [|cbn; lia].
    split; unfold STACK_GROWTH; try done; [cbn; rewrite length_app; lia|cbn; lia|cbn; lia|by apply next_all_true|].
    cbn. unfold calls_in in *. by rewrite take_app_le by lia.
  - apply swp_ret. apply Hset; [|lia]. apply (keeps_weaken b); [done|lia].
Qed.

Lemma wp_event_on_stack b me ev h s : keeps b s h -> b + 1 < 2 ^ 50 -> 0 < n ->
  wp (event_on_stack process garbage me (ev_flags ev) (ev_from ev) (ev_to ev) (ev_insn_len ev) (ev_trace_nr ev) callstack n)
    (fun err s' => err = 0 /\ keeps (b + 1) s' (h_event callstack mispred n h ev)) s.
Proof.
  intros Hk Hb Hn. unfold event_on_stack. apply swp_bind. eapply swp_mono; [by apply (wp_check_trace_nr b)|]. intros [] s1 Hk1. cbv beta in Hk1.
  apply swp_bind. destruct (Z.eqb_spec n 0); [lia|]. eapply swp_mono; [by apply (wp_update_br_stack b ev)|]. intros [] s2 Hk2. cbv beta in Hk2.
  unfold h_event. set (h1 := new_trace (ev_trace_nr ev) h) in *. set (h2 := mkHistory _ _ _) in Hk2.
  assert (Hend : forall s', keeps b s' h2 -> keeps (b + 1) s' h2) by (intros s' Hk'; apply (keeps_weaken b); [done|lia]).
  apply swp_bind, wp_the. rewrite (kp_crp _ _ _ Hk2). cbn [orb]. destruct callstack; cbn [negb]; [|apply swp_ret; by split; [|apply Hend]].
  unfold calls_after. cbv zeta. destruct (has (ev_flags ev) PERF_IP_FLAG_CALL).
  - destruct (ev_to ev =? 0); cbn [orb]; [apply swp_ret; by split; [|apply Hend]|]. destruct (_ =? ev_to ev); [apply swp_ret; by split; [|apply Hend]|].
    by apply (wp_push b _ _ h2).
  - destruct (has (ev_flags ev) PERF_IP_FLAG_TRACE_BEGIN).
    + apply swp_bind. eapply swp_mono; [by apply (wp_pop b (ev_to ev) h2)|]. intros [] s3 Hk3. cbv beta in Hk3. apply swp_bind.
      eapply swp_mono; [by apply (wp_pop_trace_end b _ s3 Hk3)|]. intros [] s4 Hk4. apply swp_ret. split; [done|]. apply (keeps_weaken b); [exact Hk4|lia].
    + destruct (_ && _); [|apply swp_ret; by split; [|apply Hend]]. apply swp_bind.
      eapply swp_mono; [by apply (wp_pop b (ev_to ev) h2)|]. intros [] s3 Hk3. apply swp_ret. split; [done|]. apply (keeps_weaken b); [exact Hk3|lia].
Qed.

(** ** The events of a thread *)

Definition no_history (nr : Z) : history := mkHistory nr [] [].

Lemma wp_init_event th w nr : all_true (w_allocs w) -> 0 < n < 2 ^ 32 ->
  wp (thread_stack__init garbage th false callstack n) (fun err s' => err = 0 /\
    keeps 1 (s'.1 <| ts_trace_nr := nr |> <| ts_mispred_all := mispred |>, s'.2) (no_history nr)) (zero_ts <| ts_arr_sz := 1 |>, w).
Proof.
  intros Ha Hn. unfold thread_stack__init. apply wp_on_ok.
  assert (Hrest : forall ts w', Z.of_nat (length (ts_stack ts)) = ts_sz ts -> ts_sz ts <= STACK_GROWTH -> ts_cnt ts = 0 ->
    ts_br_stack_pos ts = 0 -> all_true (w_allocs w') ->
    wp (on_ok (if n =? 0 then mret 0
       else
         ok ← alloc;
         if negb ok then mret (- ENOMEM)
         else
           update (fun ts => ts <| ts_br_stack_rb := Some (mkBs 0 (replicate (Z.to_nat n) zero_be)) |> <| ts_br_stack_sz := n |>);;
           mret 0)
      (match th_machine th with
       | Some machine =>
         update (fun ts => ts <| ts_kernel_start := m_kernel_start machine |>);;
         if String.eqb (m_arch machine) "x86" then update (fun ts => ts <| ts_rstate := X86_RETPOLINE_POSSIBLE |>)
         else mret tt
       | None => update (fun ts => ts <| ts_kernel_start := 1 .<< 63 |>)
       end;;
       update (fun ts => ts <| ts_crp := false |>);;
       mret 0)) (fun err s' => err = 0 /\
      keeps 1 (s'.1 <| ts_trace_nr := nr |> <| ts_mispred_all := mispred |>, s'.2) (no_history nr)) (ts, w' : world D)).
  { intros ts w' H1 H2 H3 H4 H5. apply wp_on_ok. destruct (Z.eqb_spec n 0); [lia|]. apply swp_bind, wp_alloc. cbn [snd]. rewrite (H5 0%nat). cbn [negb].
    apply swp_bind, wp_update, swp_ret. change (0 =? 0) with true. cbv beta iota.
    assert (Hk : forall ts' : thread_stack, ts_stack ts' = ts_stack ts -> ts_cnt ts' = ts_cnt ts -> ts_sz ts' = ts_sz ts ->
      ts_br_stack_rb ts' = Some (mkBs 0 (replicate (Z.to_nat n) zero_be)) -> ts_br_stack_sz ts' = n -> ts_br_stack_pos ts' = 0 ->
      keeps 1 (ts' <| ts_crp := false |> <| ts_trace_nr := nr |> <| ts_mispred_all := mispred |>,
        mkWorld (w_cpr w') (next_allocs (w_allocs w')) (w_data w')) (no_history nr)).
    { intros ts' E1 E2 E3 E4 E5 E6. unfold STACK_GROWTH in *. split; unfold STACK_GROWTH; try done; cbn; rewrite ?E1, ?E2, ?E3; try lia; try done.
      - by apply next_all_true.
      - by rewrite H3.
      - exists (mkBs 0 (replicate (Z.to_nat n) zero_be)). rewrite E4, E6. split; [done|].
        apply (ring_empty n (mkBs 0 (replicate (Z.to_nat n) zero_be))); [cbn; rewrite length_replicate; lia|done]. }
    destruct (th_machine th) as [m|]; [destruct (String.eqb _ _)|]; wp; (split; [done|]); by apply Hk. }
  destruct callstack.
  - unfold thread_stack__grow. apply swp_bind, wp_the, swp_bind, wp_alloc. cbn [snd]. rewrite (Ha 0%nat). cbn [negb]. apply swp_bind, wp_update, swp_ret.
    change (0 =? 0) with true. cbv beta iota. apply Hrest; try done. by apply next_all_true.
  - apply swp_ret. change (0 =? 0) with true. cbv beta iota. apply Hrest; try done.
Qed.

(** The thread keeps this history. *)
Definition thread_keeps b (s : @TH D) h : Prop :=
  thread_stack__per_cpu s.1 = false /\ exists ts, idx (th_ts s.1) 0 = Some ts /\ keeps b (ts, s.2) h.

Abbreviation event_of cpu ev := (thread_stack__event process garbage cpu (ev_flags ev) (ev_from ev) (ev_to ev) (ev_insn_len ev)
  (ev_trace_nr ev) callstack n mispred).

Lemma thread_keeps_stack b (s : @TH D) h cpu : thread_keeps b s h -> thread__stack s.1 cpu = Some (Some 0).
Proof. intros [Hc (ts & E & _)]. unfold thread__stack. rewrite Hc. by destruct (th_ts s.1). Qed.

Lemma wp_event_slot b th w ts ev h : thread_stack__per_cpu th = false -> idx (th_ts th) 0 = Some ts -> keeps b (ts, w) h ->
  b + 1 < 2 ^ 50 -> 0 < n -> forall me,
  wp (at_ts 0 (event_on_stack process garbage me (ev_flags ev) (ev_from ev) (ev_to ev) (ev_insn_len ev) (ev_trace_nr ev) callstack n))
    (fun err (s' : @TH D) => err = 0 /\ thread_keeps (b + 1) s' (h_event callstack mispred n h ev)) (th, w).
Proof.
  intros Hc E Hk Hb Hn me. apply (wp_at_ts _ _ _ _ _ ts); [done|]. eapply swp_mono; [by apply (wp_event_on_stack b me ev h)|].
  cbv beta. intros err s' [-> Hk']. split; [done|]. split; [done|]. exists s'.1. apply idx_inv in E as [? _]. cbn [fst].
  change (th_ts (th <| th_ts := <[Z.to_nat 0 := s'.1]> (th_ts th) |>)) with (<[Z.to_nat 0 := s'.1]> (th_ts th)).
  rewrite idx_insert by done. split; [done|]. by destruct s'.
Qed.

Lemma wp_event b (s : @TH D) h cpu ev : thread_keeps b s h -> b + 1 < 2 ^ 50 -> 0 < n ->
  wp (event_of cpu ev) (fun err (s' : @TH D) => err = 0 /\ thread_keeps (b + 1) s' (h_event callstack mispred n h ev)) s.
Proof.
  intros Hk Hb Hn. unfold thread_stack__event. apply swp_bind, swp_gets, swp_bind. rewrite (thread_keeps_stack b s h cpu Hk). apply wp_deref.
  destruct Hk as [Hc (ts & E & Hk)]. destruct s as [th w]. by apply (wp_event_slot b th w ts).
Qed.

Lemma wp_first_event th w cpu ev : th_ts th = [] -> thread_stack__per_cpu th = false -> all_true (w_allocs w) -> 0 < n < 2 ^ 32 ->
  wp (event_of cpu ev) (fun err (s' : @TH D) => err = 0 /\ thread_keeps 2 s' (h_event callstack mispred n (no_history (ev_trace_nr ev)) ev)) (th, w).
Proof.
  intros Ets Hc Ha Hn. unfold thread_stack__event. apply swp_bind, swp_gets, swp_bind. cbn [fst].
  assert (thread__stack th cpu = Some None) as -> by (unfold thread__stack; by rewrite Hc, Ets). apply wp_deref.
  unfold thread_stack__new. apply swp_bind, swp_bind, swp_gets, swp_bind. cbn [fst]. rewrite Hc. cbn [andb].
  unfold grow_array. apply swp_bind, swp_gets. cbv zeta. cbn [fst]. rewrite Ets. apply swp_bind, wp_alloc. cbn [snd]. rewrite (Ha 0%nat). cbn [negb].
  apply swp_bind, wp_deref, swp_bind, wp_deref, swp_bind, swp_modify, swp_ret. cbn [negb fst snd].
  set (ts0 := zero_ts <| ts_arr_sz := 1 |>). set (th1 := th <| th_ts := [ts0] |>).
  apply swp_bind, (wp_at_the _ _ _ _ _ ts0); [done|]. apply swp_bind, (wp_at_the _ _ _ _ _ ts0); [done|]. cbn [ts_stack].
  apply swp_bind, (wp_at_ts _ _ _ _ _ ts0); [done|]. eapply swp_mono; [apply (wp_init_event th _ (ev_trace_nr ev)); [by apply next_all_true|done]|].
  cbv beta. intros err s' [-> Hk]. apply swp_ret. change (negb (0 =? 0)) with false. cbv beta iota.
  apply swp_bind, (wp_at_ts _ _ _ _ _ s'.1); [done|]. apply wp_update. cbn [fst snd].
  apply (wp_event_slot 1 _ _ (s'.1 <| ts_trace_nr := ev_trace_nr ev |> <| ts_mispred_all := mispred |>)); [done|done|exact Hk|lia|lia].
Qed.

Fixpoint event_all (cpu : Z) (evs : list trace_event) : M (@TH D) (list Z) :=
  match evs with
  | [] => mret []
  | ev :: evs => err ← event_of cpu ev; errs ← event_all cpu evs; mret (err :: errs)
  end.

Lemma wp_event_all cpu evs : forall b (s : @TH D) h, thread_keeps b s h -> b + Z.of_nat (length evs) < 2 ^ 50 -> 0 < n ->
  wp (event_all cpu evs) (fun errs (s' : @TH D) => Forall (eq 0) errs /\
    thread_keeps (b + Z.of_nat (length evs)) s' (fold_left (h_event callstack mispred n) evs h)) s.
Proof.
  induction evs as [|ev evs IH]; intros b s h Hk Hb Hn; cbn [event_all length fold_left].
  - apply swp_ret. replace (b + Z.of_nat 0) with b by lia. by split.
  - cbn [length] in Hb. apply swp_bind. eapply swp_mono; [apply (wp_event b s h cpu ev); [done|lia|done]|]. cbv beta. intros err s1 [-> Hk1].
    apply swp_bind. eapply swp_mono; [apply (IH (b + 1)); [done|lia|done]|]. cbv beta. intros errs s2 [H1 H2]. apply swp_ret.
    split; [by constructor|]. by replace (b + Z.of_nat (S (length evs))) with (b + 1 + Z.of_nat (length evs)) by lia.
Qed.
End events.

(** ** Samples *)

(** The whole call chain, with a marker wherever the context changes. *)
Fixpoint chain_from (kernel_start last : Z) (addrs : list Z) : list Z :=
  match addrs with
  | [] => []
  | addr :: addrs =>
    let context := callchain_context addr kernel_start in
    if context =? last then addr :: chain_from kernel_start last addrs
    else context :: addr :: chain_from kernel_start context addrs
  end.
Definition call_chain (ip kernel_start : Z) (calls : list (Z * bool)) : list Z :=
  let context := callchain_context ip kernel_start in
  context :: ip :: chain_from kernel_start context (map fst calls).

(** Of [chain] the first [nr], for which there is room in [sz]: all, or as many as
    there is room for, but for a marker with nothing after it. *)
Definition fills (chain : list Z) (nr sz : Z) : Prop :=
  0 <= nr <= sz /\ nr <= Z.of_nat (length chain) /\
  (nr = Z.of_nat (length chain) \/ nr = sz \/
   nr = sz - 1 /\ exists marker, chain !! Z.to_nat nr = Some marker /\ (marker = PERF_CONTEXT_USER \/ marker = PERF_CONTEXT_KERNEL)).

Lemma context_marker addr ks : callchain_context addr ks = PERF_CONTEXT_USER \/ callchain_context addr ks = PERF_CONTEXT_KERNEL.
Proof. unfold callchain_context. destruct (_ <? _); auto. Qed.

Lemma set_at_here {A} (p : list A) rest x i : Z.of_nat (length p) = i -> rest <> [] ->
  exists rest', set_at (p ++ rest) i x = Some ((p ++ [x]) ++ rest') /\ length rest = S (length rest').
Proof.
  intros Hi Hr. destruct rest as [|y rest]; [done|]. exists rest. split; [|done]. rewrite set_at_eq by (rewrite length_app; cbn; lia).
  f_equal. rewrite insert_app_r_alt by lia. replace (Z.to_nat i - length p)%nat with 0%nat by lia. cbn. by rewrite <- app_assoc.
Qed.

Lemma fills_snoc pre chain nr sz k : fills chain (nr - k) (sz - k) -> k = Z.of_nat (length pre) -> fills (pre ++ chain) nr sz.
Proof.
  intros (H1 & H0 & H2) ->. split; [lia|]. rewrite length_app. split; [lia|]. destruct H2 as [H2|[H2|[H2 (m & H3 & H4)]]]; [left; lia|right; left; lia|].
  right; right. split; [lia|]. exists m. split; [|done]. rewrite lookup_app_r by lia. rewrite <- H3. f_equal. lia.
Qed.

Lemma sample_loop_ok stack sz ks : forall n p rest i last, (n <= length stack)%nat -> Z.of_nat (length p) = i -> i <= sz ->
  sz <= Z.of_nat (length (p ++ rest)) ->
  exists nr rest', sample_loop stack sz ks n (p ++ rest) i last =
      Some (nr, p ++ take (Z.to_nat (nr - i)) (chain_from ks last (map fst (calls_in stack n))) ++ rest') /\
    i <= nr /\ Z.of_nat (length rest') = Z.of_nat (length rest) - (nr - i) /\
    fills (chain_from ks last (map fst (calls_in stack n))) (nr - i) (sz - i).
Proof.
  induction n as [|n IH]; intros p rest i last Hn Hi Hsz Hlen; cbn [sample_loop]; rewrite length_app in Hlen.
  - exists i, rest. rewrite Z.sub_diag. cbn. split; [done|]. split; [lia|]. split; [lia|]. split; [lia|]. split; [cbn; lia|]. by left.
  - destruct (Z.leb_spec sz i).
    { exists i, rest. rewrite Z.sub_diag. cbn. split; [done|]. split; [lia|]. split; [lia|]. split; [lia|]. split; [lia|]. right; left. lia. }
    destruct (lookup_lt_is_Some_2 stack n) as [e E]; [lia|]. unfold idx. destruct (Z.ltb_spec (Z.of_nat n) 0); [lia|]. rewrite Nat2Z.id, E.
    cbn [mbind option_bind]. rewrite (calls_in_S _ _ _ E). unfold call_of. cbn [map fst chain_from].
    set (context := callchain_context (tse_ret_addr e) ks). destruct (context =? last) eqn:Ec; cbn [negb].
    + destruct (set_at_here p rest (tse_ret_addr e) i Hi) as (r1 & E1 & L1); [by intros ->; cbn in Hlen; lia|]. rewrite E1. cbn [mbind option_bind].
      destruct (IH (p ++ [tse_ret_addr e]) r1 (i + 1) last) as (nr & r2 & E2 & H2 & H3 & H4);
        [lia|rewrite length_app; cbn; lia|lia|rewrite !length_app; cbn; lia|].
      exists nr, r2. rewrite E2. replace (Z.to_nat (nr - i)) with (S (Z.to_nat (nr - (i + 1)))) by lia. cbn [take firstn].
      split; [by rewrite <- !app_assoc|]. split; [lia|]. split; [lia|].
      apply (fills_snoc [tse_ret_addr e] _ (nr - i) (sz - i) 1); [|done].
      by replace (nr - i - 1) with (nr - (i + 1)) by lia; replace (sz - i - 1) with (sz - (i + 1)) by lia.
    + destruct (Z.leb_spec (sz - 1) i).
      { exists i, rest. rewrite Z.sub_diag. cbn. split; [done|]. split; [lia|]. split; [lia|]. split; [lia|]. split; [lia|]. right; right. split; [lia|].
        exists context. split; [done|]. apply context_marker. }
      destruct (set_at_here p rest context i Hi) as (r1 & E1 & L1); [by intros ->; cbn in Hlen; lia|]. rewrite E1. cbn [mbind option_bind].
      destruct (set_at_here (p ++ [context]) r1 (tse_ret_addr e) (i + 1)) as (r2 & E2 & L2);
        [rewrite length_app; cbn; lia|by intros ->; cbn in L1; lia|]. rewrite E2. cbn [mbind option_bind].
      destruct (IH ((p ++ [context]) ++ [tse_ret_addr e]) r2 (i + 2) context) as (nr & r3 & E3 & H2 & H3 & H4);
        [lia|rewrite !length_app; cbn; lia|lia|rewrite !length_app; cbn; lia|].
      exists nr, r3. rewrite E3. replace (Z.to_nat (nr - i)) with (S (S (Z.to_nat (nr - (i + 2))))) by lia. cbn [take firstn].
      split; [by rewrite <- !app_assoc|]. split; [lia|]. split; [lia|].
      apply (fills_snoc [context; tse_ret_addr e] _ (nr - i) (sz - i) 2); [|done].
      by replace (nr - i - 2) with (nr - (i + 2)) by lia; replace (sz - i - 2) with (sz - (i + 2)) by lia.
Qed.

Section samples.
Context {D : Type} (mispred : bool) (n : Z).

Lemma stack_of_keeps b (s : @TH D) h cpu : thread_keeps mispred n b s h -> exists ts, stack_of s.1 cpu = Some (Some ts) /\ keeps mispred n b (ts, s.2) h.
Proof.
  intros Hk. pose proof (thread_keeps_stack mispred n b s h cpu Hk) as E. destruct Hk as [_ (ts & Ets & Hk)].
  exists ts. split; [|done]. unfold stack_of. rewrite E. cbn [mbind option_bind]. by rewrite Ets.
Qed.

Lemma sample_ok b (s : @TH D) h cpu chain sz ip ks : thread_keeps mispred n b s h -> 2 <= sz <= Z.of_nat (length (chain_ips chain)) ->
  exists nr ips, thread_stack__sample s.1 cpu chain sz ip ks = Some (mkChain nr ips) /\
    take (Z.to_nat nr) ips = take (Z.to_nat nr) (call_chain ip ks (h_calls h)) /\ fills (call_chain ip ks (h_calls h)) nr sz.
Proof.
  intros Hk Hsz. destruct (stack_of_keeps b s h cpu Hk) as (ts & E & Hts). unfold thread_stack__sample. rewrite E. cbn [mbind option_bind].
  destruct (Z.ltb_spec sz 2); [lia|]. destruct (chain_ips chain) as [|x [|y rest]]; [cbn in Hsz; lia|cbn in Hsz; lia|].
  set (context := callchain_context ip ks). rewrite set_at_eq by (cbn; lia). cbn [mbind option_bind].
  rewrite set_at_eq by (rewrite length_insert; cbn; lia). cbn [mbind option_bind].
  change (<[Z.to_nat 1:=ip]> (<[Z.to_nat 0:=context]> (x :: y :: rest))) with ([context; ip] ++ rest).
  pose proof Hts as [K1 _ K3 _ _ _ _ _ K9 _ _]. cbn [fst] in *.
  destruct (sample_loop_ok (ts_stack ts) sz ks (Z.to_nat (ts_cnt ts)) [context; ip] rest 2 context) as (nr & r & Er & H2 & H3 & H4);
    [lia|done|lia|cbn in *; lia|].
  rewrite Er. cbn [mbind option_bind]. exists nr. eexists. split; [reflexivity|]. rewrite K9. unfold call_chain. fold context.
  rewrite K9 in H4. set (full := chain_from ks context (map fst (h_calls h))) in *. split.
  - replace (Z.to_nat nr) with (S (S (Z.to_nat (nr - 2)))) by lia. cbn [app take firstn]. do 2 f_equal.
    destruct H4 as (_ & H4 & _). rewrite take_app_le by (rewrite length_take; lia). by rewrite take_take, Nat.min_id.
  - by apply (fills_snoc [context; ip] full nr sz 2).
Qed.

Lemma memcpy_at_ok {A} (p dst src : list A) from nr : 0 <= nr <= Z.of_nat (length dst) -> 0 <= from -> from + nr <= Z.of_nat (length src) ->
  exists rest, memcpy_at (p ++ dst) (Z.of_nat (length p)) src from nr = Some (p ++ take (Z.to_nat nr) (drop (Z.to_nat from) src) ++ rest) /\
    Z.of_nat (length rest) = Z.of_nat (length dst) - nr.
Proof.
  intros H1 H2 H3. unfold memcpy_at. rewrite length_app, Nat2Z.inj_add.
  destruct (Z.leb_spec 0 (Z.of_nat (length p))); [|lia].
  destruct (Z.leb_spec (Z.of_nat (length p) + nr) (Z.of_nat (length p) + Z.of_nat (length dst))); [|lia].
  destruct (Z.leb_spec 0 from); [|lia]. destruct (Z.leb_spec (from + nr) (Z.of_nat (length src))); [|lia]. cbn [andb].
  eexists. split; [rewrite Nat2Z.id, take_app_length; reflexivity|]. rewrite length_drop, length_app. lia.
Qed.

Lemma br_sample_ok b (s : @TH D) h cpu dst sz : thread_keeps mispred n b s h ->
  n <= sz \/ Z.of_nat (length (h_branches h)) < n -> 0 <= sz < 2 ^ 32 -> sz <= Z.of_nat (length (bs_entries dst)) ->
  let nr := Z.min (Z.of_nat (length (h_branches h))) sz in
  exists rest, thread_stack__br_sample s.1 cpu dst sz = Some (mkBs nr (take (Z.to_nat nr) (h_branches h) ++ rest)).
Proof.
  intros Hk Hroom Hsz Hdst. destruct (stack_of_keeps b s h cpu Hk) as (ts & E & Hts). unfold thread_stack__br_sample. rewrite E. cbn [mbind option_bind].
  pose proof Hts as [_ _ _ _ _ _ _ _ _ K10 (bs & R1 & R2 & R3)]. cbn [fst] in *. unfold branches_of. rewrite R1. cbn [mbind option_bind].
  set (pos := ts_br_stack_pos ts) in *. pose proof (length_ring _ _ _ R2) as Hlen. rewrite R3 in Hlen. pose proof R2 as [G1 G2 G3 G4].
  destruct (Z.eqb_spec (bs_nr bs) 0) as [E0|Hne].
  { rewrite Hlen, E0, Z.min_l by lia. by exists (bs_entries dst). }
  cbv zeta. fold pos. rewrite K10. assert (0 < bs_nr bs <= n) as Hnr by lia. rewrite (u32_small (bs_nr bs)) by lia. rewrite (u32_small (n - pos)) by lia.
  rewrite Hlen. set (nr := Z.min (bs_nr bs) sz) in *.
  destruct (memcpy_at_ok [] (bs_entries dst) (bs_entries bs) pos (Z.min (n - pos) nr)) as (r1 & E1 & L1); [lia|lia|lia|].
  cbn [app length] in E1. change (Z.of_nat 0) with 0 in E1. rewrite E1. cbn [mbind option_bind]. unfold ring in R3.
  destruct (Z.leb_spec n (bs_nr bs)).
  - assert (nr = bs_nr bs) as Enr by lia. rewrite Enr in *. replace (Z.min (n - pos) (bs_nr bs)) with (n - pos) in * by lia.
    set (first := take (Z.to_nat (n - pos)) (drop (Z.to_nat pos) (bs_entries bs))).
    assert (Z.of_nat (length first) = n - pos) as Lf by (subst first; rewrite length_take, length_drop; lia). rewrite <- Lf.
    destruct (memcpy_at_ok first r1 (bs_entries bs) 0 pos) as (r2 & E2 & L2); [lia|lia|lia|]. rewrite E2. cbn [mbind option_bind].
    exists r2. do 2 f_equal. rewrite (take_ge (h_branches h)) by lia. rewrite <- R3, app_assoc. f_equal. change (Z.to_nat 0) with 0%nat. rewrite drop_0.
    rewrite (take_ge (_ ++ _)) by (rewrite length_app, length_drop, length_take; lia). subst first. by rewrite take_ge by (rewrite length_drop; lia).
  - exists r1. do 2 f_equal. rewrite <- R3, take_take. replace (Z.min (n - pos) nr) with nr by lia. f_equal.
    by rewrite take_app_le, Nat.min_l by (rewrite ?length_drop; lia).
Qed.
End samples.
