(* ===== verification/ThreadClaims.v ===== *)
(** Claims on the stacks of calls of a thread. *)
From Stdlib Require Import ZArith Lia List Bool String.
From S2P Require Import Prelude RbTree CallPath CallPathTheorems PtInsn ThreadStack ThreadSample ThreadCalls ThreadSafe ThreadSteps.
From S2P Require Import ThreadTheorems ThreadRuns ThreadEvents.
Open Scope Z_scope.
Open Scope c_scope.
Import ListNotations.

(** ** The first sample *)

Section first.
Context `{Symbols} (garbage : thread_stack_entry) (ids : call_return -> option Z -> list call_return -> Z).
Abbreviation TH := (@TH (list call_return)).
Abbreviation log := (log ids).
Abbreviation process_one c := (thread_stack__process log garbage (br_comm c) (br_sample c) (br_from c) (br_to c) (br_ref c)).

(** The function that the first sample is in. *)
Definition first_function (c : branch_sample) : key := call_key (al_sym (br_from c)) (s_ip (br_sample c)).

(** On an empty stack the function is pushed first. *)
Lemma process_bottom me comm c s s1 : ts_comm s.1 = comm -> ts_rstate s.1 <> X86_RETPOLINE_DETECTED -> ts_cnt s.1 = 0 ->
  thread_stack__bottom garbage (br_sample c) (br_from c) (br_to c) (br_ref c) s = Some (0, s1) ->
  scalars s1.1 = scalars s.1 -> ts_cnt s1.1 <> 0 ->
  process_on_stack log garbage me comm (br_sample c) (br_from c) (br_to c) (br_ref c) s =
  process_on_stack log garbage me comm (br_sample c) (br_from c) (br_to c) (br_ref c) s1.
Proof.
  intros Ec Er E0 Eb Es Hn. destruct s as [ts w], s1 as [ts1 w1]. cbn [fst snd] in *.
  assert (ts_rstate ts1 = ts_rstate ts) as Er1 by exact (f_equal ts_rstate Es).
  assert (ts_comm ts1 = ts_comm ts) as Ec1 by exact (f_equal ts_comm Es).
  unfold process_on_stack, flush_on_exec, process_from_bottom, on_ok, the, gets, mbind, M_bind, mret, M_ret. cbn [fst snd].
  rewrite Er1, bool_decide_eq_false_2 by done. cbn [fst snd]. rewrite Ec1, Ec, Z.eqb_refl. cbn [negb andb]. change (0 =? 0) with true.
  cbn [fst snd]. rewrite E0. change (0 =? 0) with true. cbv beta iota. rewrite Eb. change (0 =? 0) with true. cbv beta iota.
  apply Z.eqb_neq in Hn. by rewrite Hn.
Qed.

(** A change of a slot that the next step on it does not see. *)
Lemma at_ts_same {A} pos (m : M (@TS (list call_return)) A) th w ts x : idx (th_ts th) pos = Some ts -> m (ts, w) = m x ->
  at_ts pos m (th, w) = at_ts pos m (th <| th_ts := <[Z.to_nat pos := x.1]> (th_ts th) |>, x.2).
Proof.
  intros E Em. apply idx_inv in E as Hpos. destruct Hpos as [Hpos _]. unfold at_ts. rewrite E. cbn [mbind option_bind]. rewrite Em.
  change (th_ts (th <| th_ts := <[Z.to_nat pos := x.1]> (th_ts th) |>)) with (<[Z.to_nat pos := x.1]> (th_ts th)).
  rewrite idx_insert by done. rewrite Z.eqb_refl. cbn [mbind option_bind].
  replace (x.1, x.2) with x by (by destruct x). destruct (m x) as [[a [ts' w']]|]; cbn [mbind option_bind]; [|done].
  rewrite !set_at_eq by (rewrite ?length_insert; done). cbn [mbind option_bind]. by rewrite list_insert_insert_eq.
Qed.

Lemma first_sample b th w c : thread_ok b (th, w) -> b + 3 < 2 ^ 50 -> th_ts th = [] -> all_true (w_allocs w) -> s_ip (br_sample c) <> 0 ->
  exists s x, calm (slot_pos th (s32 (s_cpu (br_sample c)))) (br_comm c) (who th) (b + 3) s x /\ in_function [first_function c] x /\
    logged x = map cr_erase (w_data w) /\ cpr_grows (w_cpr w) (w_cpr x.2) /\ length (live x.1) = 1%nat /\
    process_one c (th, w) = process_one c s.
Proof.
  intros Hth Hb Ets Ha Hip. set (cpu := s32 (s_cpu (br_sample c))).
  assert (Hempty : forall ts, idx (th_ts (th, w).1) (slot_pos (th, w).1 cpu) = Some ts -> False).
  { intros ts E. cbn [fst] in E. rewrite Ets in E. apply idx_inv in E as [Hlt _]. cbn in Hlt. lia. }
  destruct (wp_run _ _ _ (wp_new_call_stack garbage b (br_comm c) cpu (th, w) Hth ltac:(lia) (s32_max _) ltac:(intros ts E; by destruct (Hempty ts E))))
    as (r & [th2 w2] & Enew & T1 & (Hsame & Hr) & Hinfo). destruct Hsame as (S1 & S2 & S3 & S4 & S5). cbn [fst snd] in *.
  destruct r as [pos|]; [|by destruct (Hr Ha)]. destruct Hr as (ts2 & E2 & Hc2).
  destruct (Hinfo pos ts2 eq_refl E2) as (Epos & Ed2 & Ecomm & Hlive & Hrst).
  specialize (Hrst ltac:(intros ts E; by destruct (Hempty ts E))).
  pose proof (ts_stack_ok _ _ _ _ _ T1 E2 (or_introl Hc2)) as Hs2. specialize (S4 Ha).
  assert (ts_cnt ts2 = 0) as Ecnt by (pose proof (stack_ok_length _ _ Hs2) as Hl; cbn [fst] in Hl; rewrite Hlive in Hl; by rewrite <- Hl).
  (* the bottom of the stack *)
  assert (Hbottom : wp (thread_stack__bottom garbage (br_sample c) (br_from c) (br_to c) (br_ref c)) (fun err x => err = 0 /\
    stack_ok (b + 3) x /\ kept (ts2, w2) x /\ w_data x.2 = w_data w2 /\ exists e n, live x.1 = [e] /\ tse_cp e = Some n /\
      used (w_cpr x.2) n /\ path_of (w_cpr x.2) n = [first_function c]) (ts2, w2)).
  { unfold thread_stack__bottom. apply Z.eqb_neq in Hip. rewrite Hip. cbn [negb]. apply swp_bind, wp_the, swp_bind.
    apply (wp_find_call_path (b + 1)); [done|lia|by apply (root_used (b + 1) (ts2, w2))|]. intros cp w3 Hw3 Hk3 Ed3 Hcp.
    destruct cp as [n|]; [|cbn [snd] in Hcp; by rewrite (S4 0%nat) in Hcp]. destruct Hcp as (Hn & Ep & _).
    apply (wp_push_cp garbage (b + 1 + 1)); [done|lia|done|]. intros err x Hx Hk Ecpr Ed Hres. cbn [fst snd] in *.
    destruct Hres as [[-> El]|(_ & _ & Ea)]; [|destruct Hk3 as (_ & Ha3 & _); cbn [snd] in Ha3; by rewrite (Ha3 S4 0%nat) in Ea].
    split; [done|]. replace (b + 1 + 1 + 1) with (b + 3) in Hx by lia. split; [done|]. split; [by eapply kept_trans|].
    split; [congruence|]. rewrite Hlive in El. eexists _, n. split; [exact El|]. split; [done|]. rewrite Ecpr. split; [done|].
    by rewrite Ep, path_of_root. }
  destruct (wp_run _ _ _ Hbottom) as (err & x & Eb & -> & X1 & X2 & X3 & e & n & X4 & X5 & X6 & X7).
  pose proof X2 as (X8 & X9 & X10). cbn [fst snd] in *.
  assert (ts_cnt x.1 = 1) as Ecx by (pose proof (stack_ok_length _ _ X1) as Hl; rewrite X4 in Hl; by rewrite <- Hl).
  destruct (thread_ok_step (b + 1) (b + 3) th2 w2 pos ts2 x T1 ltac:(lia) E2 X1 X10 X9 ltac:(by apply (f_equal ts_arr_sz) in X8)) as [T2 _].
  set (s := (th2 <| th_ts := <[Z.to_nat pos := x.1]> (th_ts th2) |>, x.2)) in *.
  assert (Hslot : idx (th_ts s.1) pos = Some x.1).
  { cbn. apply idx_inv in E2 as [? _]. rewrite idx_insert by done. by rewrite Z.eqb_refl. }
  assert (Hwho : who s.1 = who th) by (unfold who; cbn; by rewrite S1, S2).
  assert (Hcalm : calm pos (br_comm c) (who th) (b + 3) s x).
  { split; try done; [by rewrite X4| | | |by apply X9].
    - apply (f_equal ts_crp) in X8. cbn in X8. congruence.
    - apply (f_equal ts_comm) in X8. cbn in X8. congruence.
    - apply (f_equal ts_rstate) in X8. cbn in X8. congruence. }
  exists s, x. rewrite <- Epos. split; [done|]. split; [by exists [], e, n|]. split; [unfold logged; congruence|].
  split; [by eapply grows_trans|]. split; [by rewrite X4|].
  (* the rest is the same *)
  assert (Hhere : here pos (br_comm c) (who th) c).
  { split; [done|]. rewrite Epos. unfold slot_pos, thread_stack__per_cpu, who. cbn. by destruct (_ && _). }
  pose proof (find_calm pos (br_comm c) (who th) (b + 3) s x c Hcalm Hhere) as Hfind.
  assert (call_stack log garbage (br_comm c) cpu (th, w) = Some (Some pos, (th2, w2))) as Ecs1.
  { unfold call_stack, gets, deref, mbind, M_bind, mret, M_ret. cbn [fst].
    assert (thread__stack th cpu = Some None) as -> by (unfold thread__stack, thread__cpu_stack; rewrite Ets; by destruct (thread_stack__per_cpu th)).
    exact Enew. }
  assert (call_stack log garbage (br_comm c) cpu s = Some (Some pos, s)) as Ecs2.
  { pose proof (calm_crp _ _ _ _ _ _ Hcalm) as Hcrp. 
    assert (wp (call_stack log garbage (br_comm c) cpu) (fun r s' => r = Some pos /\ s' = s) s) as Hw.
    { unfold call_stack. apply swp_bind, swp_gets, swp_bind. cbn [fst]. fold cpu in Hfind. rewrite Hfind. apply wp_deref, swp_bind.
      subst s. apply (wp_at_the _ _ _ _ _ x.1); [exact Hslot|]. rewrite Hcrp. by apply swp_ret. }
    by destruct (wp_run _ _ _ Hw) as (? & ? & -> & -> & ->). }
  unfold thread_stack__process. fold cpu. unfold mbind, M_bind, gets. rewrite Ecs1, Ecs2. cbn [fst]. rewrite Hwho.
  replace (who th2) with (who th) by (unfold who; by rewrite S1, S2).
  apply (at_ts_same pos _ th2 w2 ts2 x); [done|]. apply process_bottom; try done. by rewrite Ecx.
Qed.
End first.

(** ** Claims *)

(** C11: The stack of calls is safe: from any valid state of a thread, with stacks of its own or of thread_stack__event, on any CPU and whatever the callback, memory and the samples do, as long as a sample of no branch has no symbol at its target, thread_stack__process of any number of samples and thread_stack__flush after them make no bad access; stacks and call paths stay valid, and each call returns 0, -ENOMEM when an allocation has failed, or an error of the callback. *)
Theorem calls_safe {D} (process : call_return -> option Z -> D -> Z * Z * D) (garbage : thread_stack_entry) `{Symbols}
    (b : Z) (s : thread * world D) (l : list branch_sample) :
  thread_ok b s -> b + 7 * Z.of_nat (length l) < 2 ^ 50 -> Forall branch_ok l ->
  exists errs s1 err s2, process_all process garbage l s = Some (errs, s1) /\ length errs = length l /\
    thread_stack__flush process s1 = Some (err, s2) /\ thread_ok (b + 7 * Z.of_nat (length l)) s1 /\
    thread_ok (b + 7 * Z.of_nat (length l)) s2 /\ same_thread s s2 /\ Forall (fails process (w_allocs s.2)) (err :: errs).
Proof.
  intros Hs Hb Hl. destruct (wp_run _ _ _ (wp_process_all process garbage l b s Hs Hb Hl)) as (errs & s1 & E1 & T1 & T2 & T3 & T4).
  destruct (wp_run _ _ _ (wp_thread_flush process _ s1 T1)) as (err & s2 & E2 & U1 & U2 & U3).
  exists errs, s1, err, s2. split_and!; try done; [by eapply same_thread_trans|]. constructor; [|done]. by eapply fails_same.
Qed.

(** C10: Calls are reported: when the samples of a new thread nest, that is every call in them returns to its return address, from the function it called or from one reached from there by jumps, the records given to the callback are, in order, just those of these calls, each when it returns: with the chain of calls that led to it, the times and references of its call and its return, and the branches, instructions and cycles between them; functions left by a jump are reported with it, and only the function of the first sample is left on the stack. *)
Theorem calls_reported `{Symbols} (garbage : thread_stack_entry) (ids : call_return -> option Z -> list call_return -> Z)
    (th : thread) (a : allocs) (cpr : call_path_root) (c : branch_sample) (l : list branch_sample) (R : list report) :
  th_ts th = [] -> all_true a -> call_path_root__new true = Some cpr -> s_ip (br_sample c) <> 0 ->
  runs [first_function c] (c :: l) R ->
  Forall (fun b => br_comm b = br_comm c /\ slot_pos th (s32 (s_cpu (br_sample b))) = slot_pos th (s32 (s_cpu (br_sample c)))) l ->
  Z.of_nat (length l) < 2 ^ 40 ->
  exists errs th' w', process_all (log ids) garbage (c :: l) (th, mkWorld cpr a []) = Some (errs, (th', w')) /\
    Forall (eq 0) errs /\ Forall2 (matches (br_comm c) (who th) (w_cpr w')) (map cr_erase (w_data w')) R /\
    thread_stack__depth th' (s32 (s_cpu (br_sample c))) = Some 1.
Proof.
  intros Ets Ha Ecpr Hip Hrun Hl Hlen.
  assert (Hth : thread_ok 0 (th, mkWorld cpr a ([] : list call_return))).
  { split; cbn [fst snd]; rewrite ?Ets; try done; [by apply root_ok|by injection Ecpr as <-]. }
  destruct (first_sample garbage ids 0 th _ c Hth ltac:(lia) Ets Ha Hip) as (s & x & Hcalm & Hin & Hlog & Hg & Hx & E).
  set (pos := slot_pos th (s32 (s_cpu (br_sample c)))) in *.
  assert (Hhere : forall b, slot_pos th (s32 (s_cpu (br_sample b))) = pos -> br_comm b = br_comm c -> here pos (br_comm c) (who th) b).
  { intros b Hb Hc. split; [done|]. rewrite <- Hb. unfold slot_pos, thread_stack__per_cpu, who. cbn. by destruct (_ && _). }
  assert (Hall : Forall (here pos (br_comm c) (who th)) (c :: l)).
  { constructor; [by apply Hhere|]. eapply List.Forall_impl; [|exact Hl]. intros b [H1 H2]. by apply Hhere. }
  pose proof (proj1 (runs_ok garbage ids pos (br_comm c) (who th)) _ _ _ Hrun (0 + 3) s x Hcalm Hall) as Hw.
  destruct (wp_run _ _ _ (Hw ltac:(cbn [length]; lia) Hin)) as (errs & [th' w'] & Eall & Herrs & x' & tl & recs & V1 & V2 & V3 & _ & _ & V6 & V7).
  exists errs, th', w'. split; [|split; [done|split]].
  - etransitivity; [|exact Eall]. cbn [process_all]. unfold mbind, M_bind. by rewrite E.
  - pose proof (calm_world _ _ _ _ _ _ V1) as Ew. cbn [snd] in Ew. rewrite <- Ew. unfold logged in V6. rewrite V6.
    unfold logged in Hlog. rewrite Hlog. exact V7.
  - pose proof (find_calm _ _ _ _ _ _ c V1 (Hhere c eq_refl eq_refl)) as Hfind. cbn [fst] in Hfind.
    unfold thread_stack__depth. rewrite Hfind. cbn [mbind option_bind].
    pose proof (calm_slot _ _ _ _ _ _ V1) as Eslot. cbn [fst] in Eslot. rewrite Eslot. cbn [mbind option_bind]. f_equal.
    pose proof (stack_ok_length _ _ (calm_stack _ _ _ _ _ _ V1)) as Hlive. inversion V3. subst. rewrite V2, app_nil_r, Hx in Hlive. by rewrite <- Hlive.
Qed.

(** C12: Samples show the history.  After any events, fewer than 2^49, of a new
    thread that is not an idle task, with a ring of n > 0 branches and no allocation
    that fails, thread_stack__event has returned 0 for each.  A branch stack for
    which [sz] entries are asked, and which has them, gets the latest branches of
    the current trace, the latest first, as many as there are of the last n and no
    more than [sz]; this is where [sz >= n] or fewer than n branches have been seen:
    with less room and a full ring the code can write past the end.  A call chain of
    at least two entries gets the address of the sample and the return addresses of
    the calls that have not returned, the latest first, with a marker before the
    first and wherever the context changes, as far as there is room and never
    ending in a marker. *)
Theorem event_samples {D} (process : call_return -> option Z -> D -> Z * Z * D) (garbage : thread_stack_entry)
    (callstack mispred : bool) (n cpu : Z) (th : thread) (w : world D) (ev : trace_event) (evs : list trace_event) :
  th_ts th = [] -> thread_stack__per_cpu th = false -> all_true (w_allocs w) -> 0 < n < 2 ^ 32 -> Z.of_nat (length evs) < 2 ^ 49 ->
  let h := h_events callstack mispred n (ev :: evs) in
  exists errs th' w', event_all process garbage callstack mispred n cpu (ev :: evs) (th, w) = Some (errs, (th', w')) /\
    Forall (eq 0) errs /\
    (forall dst sz, n <= sz \/ Z.of_nat (length (h_branches h)) < n -> 0 <= sz < 2 ^ 32 -> sz <= Z.of_nat (length (bs_entries dst)) ->
       let nr := Z.min (Z.of_nat (length (h_branches h))) sz in exists rest,
       thread_stack__br_sample th' cpu dst sz = Some (mkBs nr (take (Z.to_nat nr) (h_branches h) ++ rest))) /\
    (forall chain sz ip ks, 2 <= sz <= Z.of_nat (length (chain_ips chain)) -> exists nr ips,
       thread_stack__sample th' cpu chain sz ip ks = Some (mkChain nr ips) /\
       take (Z.to_nat nr) ips = take (Z.to_nat nr) (call_chain ip ks (h_calls h)) /\ fills (call_chain ip ks (h_calls h)) nr sz).
Proof.
  intros Ets Hc Ha Hn Hlen h.
  assert (Hw : wp (event_all process garbage callstack mispred n cpu (ev :: evs)) (fun errs s' => Forall (eq 0) errs /\
    thread_keeps mispred n (2 + Z.of_nat (length evs)) s' h) (th, w)).
  { cbn [event_all]. apply swp_bind. eapply swp_mono; [by apply wp_first_event|]. cbv beta. intros err s1 [-> Hk].
    apply swp_bind. eapply swp_mono; [apply (wp_event_all process garbage callstack mispred n cpu evs 2); [done|lia|lia]|].
    cbv beta. intros errs s2 [H1 H2]. apply swp_ret. split; [by constructor|exact H2]. }
  destruct (wp_run _ _ _ Hw) as (errs & [th' w'] & E & Herrs & Hk). exists errs, th', w'. split; [done|]. split; [done|]. split.
  - intros dst sz. exact (br_sample_ok mispred n _ _ h cpu dst sz Hk).
  - intros chain sz ip ks. exact (sample_ok mispred n _ _ h cpu chain sz ip ks Hk).
Qed.

(** ** Examples *)

Definition no_garbage : thread_stack_entry := mkTse 0 0 0 0 0 0 0 None false false false.
#[local] Instance example_symbols : Symbols := { sym_start x := x; sym_name _ := "f"%string }.
Definition example_thread : thread := mkThread 5 5 (Some (mkMachine "x86" (2 ^ 63))) [].

(** At [ip] in the function at [f], a branch to [addr] in the function at [g]. *)
Definition example_branch (flags ip f addr g time : Z) : branch_sample :=
  mkBranch 77 (mkSample ip addr time 0 5 3 4 flags) (mkAl f ip) (mkAl g addr) time.

(** 100 calls 200, which calls 300 and then jumps to 400; this returns to 100. *)
Definition example_first : branch_sample := example_branch 3 110 100 200 200 1.
Definition example_rest : list branch_sample :=
  [example_branch 3 210 200 300 300 2; example_branch 5 305 300 215 200 3; example_branch 1 220 200 400 400 4;
   example_branch 5 410 400 115 100 5].
Definition example_reports : list report :=
  [mkReport [(100, 0); (200, 0); (300, 0)] 2 3 1 3 4 2 3 0;
   mkReport [(100, 0); (200, 0); (400, 0)] 4 5 1 3 4 4 5 6;
   mkReport [(100, 0); (200, 0)] 1 5 4 12 16 1 5 0].

Lemma example_runs : runs [first_function example_first] (example_first :: example_rest) example_reports.
Proof.
  apply (runs_call [(100, 0)] example_first
    [example_branch 3 210 200 300 300 2; example_branch 5 305 300 215 200 3; example_branch 1 220 200 400 400 4]
    (example_branch 5 410 400 115 100 5) [] [mkReport [(100, 0); (200, 0); (300, 0)] 2 3 1 3 4 2 3 0]
    [([(100, 0); (200, 0); (400, 0)], example_branch 1 220 200 400 400 4, [])] []); [| | |constructor].
  - split_and!; try done. by right; left.
  - by split_and!.
  - apply (body_jump [(100, 0); (200, 0)] [example_branch 3 210 200 300 300 2; example_branch 5 305 300 215 200 3] (example_branch 1 220 200 400 400 4) []
      [mkReport [(100, 0); (200, 0); (300, 0)] 2 3 1 3 4 2 3 0] [] []); [|by split_and!|by repeat constructor].
    apply (runs_call [(100, 0); (200, 0)] (example_branch 3 210 200 300 300 2) [] (example_branch 5 305 300 215 200 3) [] [] [] []);
      [|by split_and!|by repeat constructor|constructor].
    split_and!; try done. by right; left.
Qed.

Lemma calls_reported_witness : exists errs th' w',
  process_all (log (fun _ _ _ => 0)) no_garbage (example_first :: example_rest)
    (example_thread, mkWorld example_root (fun _ => true) []) = Some (errs, (th', w')) /\
  Forall (eq 0) errs /\ Forall2 (matches 77 (5, 5) (w_cpr w')) (map cr_erase (w_data w')) example_reports /\
  thread_stack__depth th' 0 = Some 1.
Proof.
  apply (calls_reported no_garbage (fun _ _ _ => 0) example_thread (fun _ => true) example_root example_first example_rest example_reports);
    [reflexivity|by intros n|reflexivity|done|exact example_runs|by repeat constructor|reflexivity].
Defined.

Lemma calls_safe_witness : exists errs s1 err s2,
  process_all (log (fun _ _ _ => 0)) no_garbage (example_first :: example_rest)
    (example_thread, mkWorld example_root (fun _ => true) []) = Some (errs, s1) /\ length errs = 5%nat /\
  thread_stack__flush (log (fun _ _ _ => 0)) s1 = Some (err, s2) /\ thread_ok 35 s1 /\ thread_ok 35 s2 /\
  same_thread (example_thread, mkWorld example_root (fun _ => true) []) s2 /\ Forall (fails (log (fun _ _ _ => 0)) (fun _ => true)) (err :: errs).
Proof.
  apply (calls_safe (log (fun _ _ _ => 0)) no_garbage 0 (example_thread, mkWorld example_root (fun _ => true) [])
    (example_first :: example_rest)); [|reflexivity|by repeat constructor].
  split; try done. by apply root_ok.
Defined.

(** 110 calls 200, which calls the kernel; the ring buffer holds one branch. *)
Definition example_event : trace_event := mkEvent 3 110 200 5 1.
Definition example_events : list trace_event := [mkEvent 19 210 (2 ^ 63 + 8) 2 1; mkEvent 1 (2 ^ 63 + 9) (2 ^ 63 + 16) 2 1].

Lemma event_samples_witness : let h := h_events true false 1 (example_event :: example_events) in
  exists errs th' w', event_all (log (fun _ _ _ => 0)) no_garbage true false 1 0 (example_event :: example_events)
      (example_thread, mkWorld example_root (fun _ => true) []) = Some (errs, (th', w')) /\
    Forall (eq 0) errs /\
    (forall dst sz, 1 <= sz \/ Z.of_nat (length (h_branches h)) < 1 -> 0 <= sz < 2 ^ 32 -> sz <= Z.of_nat (length (bs_entries dst)) ->
       let nr := Z.min (Z.of_nat (length (h_branches h))) sz in exists rest,
       thread_stack__br_sample th' 0 dst sz = Some (mkBs nr (take (Z.to_nat nr) (h_branches h) ++ rest))) /\
    (forall chain sz ip ks, 2 <= sz <= Z.of_nat (length (chain_ips chain)) -> exists nr ips,
       thread_stack__sample th' 0 chain sz ip ks = Some (mkChain nr ips) /\
       take (Z.to_nat nr) ips = take (Z.to_nat nr) (call_chain ip ks (h_calls h)) /\ fills (call_chain ip ks (h_calls h)) nr sz).
Proof.
  apply (event_samples (log (fun _ _ _ => 0)) no_garbage true false 1 0 example_thread (mkWorld example_root (fun _ => true) [])
    example_event example_events); [reflexivity|reflexivity|by intros n|lia|reflexivity].
Defined.

(** Its call chain. *)
Example example_chain : call_chain (2 ^ 63 + 16) (2 ^ 63) (h_calls (h_events true false 1 (example_event :: example_events))) =
  [PERF_CONTEXT_KERNEL; 2 ^ 63 + 16; PERF_CONTEXT_USER; 212; 115].
Proof. reflexivity. Qed.
