(* ===== verification/PtConfig.v ===== *)
(** What an Intel PT session is configured with: the fields of [struct intel_pt]
    of tools/perf/util/intel-pt.c that do not change while events are processed,
    what it reads from the recorded events, and the parameters of a decoder. *)
From Stdlib Require Import ZArith Lia List Bool String.
From S2P Require Import Prelude PtState PtTime PtTimeRange PtSession.
Open Scope Z_scope.
Open Scope c_scope.
Import ListNotations.

(** ** Recorded events and options *)

(** [struct perf_event_attr] and [struct evsel]; [es_id] is [evsel->core.id[0]]. *)
Record perf_event_attr := mkAttr {
  attr_type : Z;
  attr_config : Z;
  attr_exclude_kernel : bool;
  attr_sample_type : Z;
  attr_aux_sample_size : Z;
  attr_freq : bool;
  attr_sample_period : Z;
  attr_sample_regs_intr : Z
}.
Record evsel := mkEvsel {
  es_attr : perf_event_attr;
  es_id : Z
}.

Definition PERF_SAMPLE_TIME : Z := 1 .<< 2.
Definition PERF_SAMPLE_ADDR : Z := 1 .<< 3.
Definition PERF_SAMPLE_CALLCHAIN : Z := 1 .<< 5.
Definition PERF_SAMPLE_BRANCH_STACK : Z := 1 .<< 11.
Definition PERF_SAMPLE_WEIGHT : Z := 1 .<< 14.
Definition PERF_SAMPLE_TRANSACTION : Z := 1 .<< 17.
Definition PERF_SAMPLE_REGS_INTR : Z := 1 .<< 18.
Definition PERF_SAMPLE_AUX : Z := 1 .<< 20.
Definition PERF_SAMPLE_WEIGHT_STRUCT : Z := 1 .<< 24.
Definition PERF_SAMPLE_WEIGHT_TYPE : Z := PERF_SAMPLE_WEIGHT .| PERF_SAMPLE_WEIGHT_STRUCT.

Inductive itrace_period_type :=
| PERF_ITRACE_PERIOD_INSTRUCTIONS | PERF_ITRACE_PERIOD_TICKS | PERF_ITRACE_PERIOD_NANOSECS.

(** The options that decoding looks at. *)
Record itrace_synth_opts := mkOpts {
  so_inject : bool;
  so_instructions : bool;
  so_cycles : bool;
  so_other_events : bool;
  so_intr_events : bool;
  so_errors : bool;
  so_callchain : bool;
  so_add_callchain : bool;
  so_last_branch : bool;
  so_add_last_branch : bool;
  so_approx_ipc : bool;
  so_timeless_decoding : bool;
  so_vm_time_correlation : bool;
  so_vm_tm_corr_dry_run : bool;
  so_callchain_sz : Z;
  so_period : Z;
  so_period_type : itrace_period_type;
  so_initial_skip : Z;
  so_error_minus_flags : Z;
  so_quick : Z
}.

(** Per kind of sample: whether it is made, its sample type and its id. *)
Record synth_kind := mkKind {
  k_on : bool;
  k_sample_type : Z;
  k_id : Z
}.

(** The fields of [struct intel_pt].  [c_evlist] is the list of the session,
    [c_cpuid] its CPU, [c_ranges] is [time_ranges] with [range_cnt] entries. *)
Record session_config := mkConfig {
  c_evlist : list evsel;
  c_cpuid : option string;
  c_machine : Z;
  c_unknown_thread : Z;
  c_pmu_type : Z;
  c_have_sched_switch : Z;
  c_switch_evsel : option Z;
  c_timeless_decoding : bool;
  c_sampling_mode : bool;
  c_snapshot_mode : bool;
  c_per_cpu_mmaps : bool;
  c_est_tsc : bool;
  c_mispred_all : bool;
  c_use_thread_stack : bool;
  c_callstack : bool;
  c_cap_event_trace : bool;
  c_br_stack_sz : Z;
  c_br_stack_sz_plus : Z;
  c_tc : perf_tsc_conversion;
  c_cap_user_time_zero : bool;
  c_synth_opts : itrace_synth_opts;
  c_instructions : synth_kind;
  c_cycles : synth_kind;
  c_branches : synth_kind;
  c_branches_filter : Z;
  c_transactions : synth_kind;
  c_ptwrites : synth_kind;
  c_sample_pwr_events : bool;
  c_pwr_events_sample_type : Z;
  c_mwait_id : Z;
  c_pwre_id : Z;
  c_exstop_id : Z;
  c_pwrx_id : Z;
  c_cbr_id : Z;
  c_psb_id : Z;
  c_single_pebs : bool;
  c_sample_pebs : bool;
  c_pebs_evsel : option evsel;
  c_evt_sample_type : Z;
  c_evt_id : Z;
  c_iflag_chg_sample_type : Z;
  c_iflag_chg_id : Z;
  c_tsc_bit : Z;
  c_mtc_bit : Z;
  c_mtc_freq_bits : Z;
  c_tsc_ctc_ratio_n : Z;
  c_tsc_ctc_ratio_d : Z;
  c_noretcomp_bit : Z;
  c_max_non_turbo_ratio : Z;
  c_cbr2khz : Z;
  c_max_loops : Z;
  c_filts : list addr_filter;
  c_ranges : list range
}.

(** ** What the configuration of the events says *)

Definition INTEL_PT_CFG_PASS_THRU : Z := 1 .<< 0.
Definition INTEL_PT_CFG_BRANCH_EN : Z := 1 .<< 13.
Definition INTEL_PT_CFG_TNT_DIS : Z := 1 .<< 55.

Section config.
Context (pt : session_config).

(** [*config], if the event is an Intel PT one. *)
Definition intel_pt_get_config (attr : perf_event_attr) : option Z :=
  if attr_type attr =? c_pmu_type pt then Some (attr_config attr) else None.

(** The configurations of the Intel PT events, in order. *)
Definition configs : list Z := omap (fun e => intel_pt_get_config (es_attr e)) (c_evlist pt).

Definition set_in (config bits : Z) : bool := negb (config .& bits =? 0).

Definition intel_pt_exclude_kernel : bool :=
  negb (existsb (fun e => match intel_pt_get_config (es_attr e) with
                          | Some _ => negb (attr_exclude_kernel (es_attr e)) | None => false end) (c_evlist pt)).
Definition intel_pt_tracing_kernel : bool :=
  existsb (fun e => match intel_pt_get_config (es_attr e) with
                    | Some _ => negb (attr_exclude_kernel (es_attr e)) | None => false end) (c_evlist pt).

Definition intel_pt_return_compression : bool :=
  if c_noretcomp_bit pt =? 0 then true
  else negb (existsb (fun config => set_in config (c_noretcomp_bit pt)) configs).

Definition intel_pt_branch_enable : bool :=
  negb (existsb (fun config => set_in config INTEL_PT_CFG_PASS_THRU && negb (set_in config INTEL_PT_CFG_BRANCH_EN)) configs).

Definition intel_pt_disabled_tnt : bool := existsb (fun config => set_in config INTEL_PT_CFG_TNT_DIS) configs.

(** [for (shift = 0; !(config & 1); shift++) config >>= 1], for a 64-bit
    [config] that is not 0. *)
Fixpoint mtc_shift_loop (fuel : nat) (config shift : Z) : Z :=
  match fuel with
  | O => shift
  | S fuel => if config .& 1 =? 0 then mtc_shift_loop fuel (config .>> 1) (shift + 1) else shift
  end.
Definition intel_pt_mtc_period : Z :=
  if c_mtc_freq_bits pt =? 0 then 0
  else
    match configs with
    | config :: _ => u32 ((config .& c_mtc_freq_bits pt) .>> mtc_shift_loop 64 (c_mtc_freq_bits pt) 0)
    | [] => 0
    end.

(** The loop of [intel_pt_timeless_decoding]. *)
Fixpoint timeless_loop (evlist : list evsel) (timeless_decoding : bool) : bool :=
  match evlist with
  | [] => timeless_decoding
  | e :: evlist =>
    if negb (set_in (attr_sample_type (es_attr e)) PERF_SAMPLE_TIME) then true
    else
      match intel_pt_get_config (es_attr e) with
      | Some config => if set_in config (c_tsc_bit pt) then timeless_loop evlist false else true
      | None => timeless_loop evlist timeless_decoding
      end
  end.
Definition intel_pt_timeless_decoding : bool :=
  if (c_tsc_bit pt =? 0) || negb (c_cap_user_time_zero pt) || so_timeless_decoding (c_synth_opts pt) then true
  else timeless_loop (c_evlist pt) true.

Fixpoint have_tsc_loop (configs : list Z) (have_tsc : bool) : bool :=
  match configs with
  | [] => have_tsc
  | config :: configs => if set_in config (c_tsc_bit pt) then have_tsc_loop configs true else false
  end.
Definition intel_pt_have_tsc : bool := if c_tsc_bit pt =? 0 then false else have_tsc_loop configs false.

Definition intel_pt_have_mtc : bool := existsb (fun config => set_in config (c_mtc_bit pt)) configs.

Definition intel_pt_sampling_mode : bool :=
  existsb (fun e => set_in (attr_sample_type (es_attr e)) PERF_SAMPLE_AUX && negb (attr_aux_sample_size (es_attr e) =? 0))
    (c_evlist pt).

Definition intel_pt_ctl : Z := match configs with config :: _ => config | [] => 0 end.

Definition intel_pt_ns_to_ticks (ns : Z) : Z :=
  let quot := ns / time_mult (c_tc pt) in
  let rem := ns mod time_mult (c_tc pt) in
  u64 (u64 (quot .<< time_shift (c_tc pt)) + u64 (rem .<< time_shift (c_tc pt)) / time_mult (c_tc pt)).

(** ** The decoder of a queue *)

Definition sample_period_params : intel_pt_period_type * Z :=
  let o := c_synth_opts pt in
  if so_instructions o || so_cycles o then
    let '(type, period) :=
      if so_period o =? 0 then (INTEL_PT_PERIOD_NONE, 0)
      else
        match so_period_type o with
        | PERF_ITRACE_PERIOD_INSTRUCTIONS => (INTEL_PT_PERIOD_INSTRUCTIONS, so_period o)
        | PERF_ITRACE_PERIOD_TICKS => (INTEL_PT_PERIOD_TICKS, so_period o)
        | PERF_ITRACE_PERIOD_NANOSECS => (INTEL_PT_PERIOD_TICKS, intel_pt_ns_to_ticks (so_period o))
        end in
    if period =? 0 then (INTEL_PT_PERIOD_INSTRUCTIONS, 1) else (type, period)
  else (INTEL_PT_PERIOD_NONE, 0).

(** [params] in [intel_pt_alloc_queue], but for the callbacks. *)
Definition queue_params (first_timestamp : Z) : intel_pt_params :=
  let o := c_synth_opts pt in
  let '(period_type, period) := sample_period_params in
  let branch_enable := intel_pt_branch_enable in
  {| p_return_compression := intel_pt_return_compression;
     p_branch_enable := branch_enable;
     p_vm_time_correlation := so_vm_time_correlation o;
     p_vm_tm_corr_dry_run := so_vm_tm_corr_dry_run o;
     p_first_timestamp := first_timestamp;
     p_ctl := intel_pt_ctl;
     p_period := period;
     p_period_type := period_type;
     p_max_non_turbo_ratio := c_max_non_turbo_ratio pt;
     p_mtc_period := intel_pt_mtc_period;
     p_tsc_ctc_ratio_n := c_tsc_ctc_ratio_n pt;
     p_tsc_ctc_ratio_d := c_tsc_ctc_ratio_d pt;
     p_flags := match c_cpuid pt with
                | Some cpuid => if String.prefix "GenuineIntel,6,92," cpuid then INTEL_PT_FUP_WITH_NLIP else 0
                | None => 0
                end;
     p_quick := if branch_enable && intel_pt_disabled_tnt && (so_quick o =? 0) then 1 else so_quick o;
     p_max_loops := c_max_loops pt |}.
End config.
