(* ===== verification/PtSynth.v ===== *)
(** The state of an Intel PT session, and the samples it makes of what a decoder
    returns: [struct intel_pt], [struct intel_pt_queue] and the functions up to
    [intel_pt_sample] of tools/perf/util/intel-pt.c.  Pointers to threads and
    machines are handles of type [Z]; the priv pointer of a queue is its entry in
    [s_ptqs], which has none for NULL. *)
From Stdlib Require Import ZArith Lia List Bool String.
From stdpp Require Import gmap.
From S2P Require Import Prelude PktDecoder PtState PtTime PtInsn AuxHeap AuxQueues PtBatch PtTimeRange PtSession PtConfig.
From S2P Require Import ThreadStack ThreadSample.
Open Scope Z_scope.
Open Scope c_scope.
Import ListNotations.

(** ** State *)

(** [q_chain] is the room for addresses in [ptq->chain], and [q_last_branch] for
    branches in [ptq->last_branch], if they are allocated.  [ptq->state] points
    to the state in the decoder. *)
Record intel_pt_queue := mkQ {
  q_queue_nr : Z;
  q_decoder : intel_pt_decoder;
  q_chain : option Z;
  q_last_branch : option Z;
  q_on_heap : bool;
  q_stop : bool;
  q_step_through_buffers : bool;
  q_sync_switch : bool;
  q_sample_ipc : bool;
  q_pid : Z;
  q_tid : Z;
  q_cpu : Z;
  q_switch_state : switch_state;
  q_next_tid : Z;
  q_thread : option Z;
  q_guest_machine : option Z;
  q_guest_thread : option Z;
  q_unknown_guest_thread : option Z;
  q_guest_machine_pid : Z;
  q_guest_pid : Z;
  q_guest_tid : Z;
  q_vcpu : Z;
  q_exclude_kernel : bool;
  q_have_sample : bool;
  q_time : Z;
  q_timestamp : Z;
  q_sel_timestamp : Z;
  q_sel_start : bool;
  q_sel_idx : Z;
  q_flags : Z;
  q_insn_len : Z;
  q_last_insn_cnt : Z;
  q_ipc_insn_cnt : Z;
  q_ipc_cyc_cnt : Z;
  q_last_in_insn_cnt : Z;
  q_last_in_cyc_cnt : Z;
  q_last_cy_insn_cnt : Z;
  q_last_cy_cyc_cnt : Z;
  q_last_br_insn_cnt : Z;
  q_last_br_cyc_cnt : Z;
  q_cbr_seen : Z;
  q_insn : list byte;
  q_pebs : list (option (evsel * Z))
}.
#[export] Instance eta_q : Eta intel_pt_queue := fun q =>
  mkQ (q_queue_nr q) (q_decoder q) (q_chain q) (q_last_branch q) (q_on_heap q) (q_stop q) (q_step_through_buffers q)
  (q_sync_switch q) (q_sample_ipc q) (q_pid q) (q_tid q) (q_cpu q) (q_switch_state q) (q_next_tid q) (q_thread q)
  (q_guest_machine q) (q_guest_thread q) (q_unknown_guest_thread q) (q_guest_machine_pid q) (q_guest_pid q)
  (q_guest_tid q) (q_vcpu q) (q_exclude_kernel q) (q_have_sample q) (q_time q) (q_timestamp q) (q_sel_timestamp q)
  (q_sel_start q) (q_sel_idx q) (q_flags q) (q_insn_len q) (q_last_insn_cnt q) (q_ipc_insn_cnt q) (q_ipc_cyc_cnt q)
  (q_last_in_insn_cnt q) (q_last_in_cyc_cnt q) (q_last_cy_insn_cnt q) (q_last_cy_cyc_cnt q) (q_last_br_insn_cnt q)
  (q_last_br_cyc_cnt q) (q_cbr_seen q) (q_insn q) (q_pebs q).
#[export] Instance set_q_queue_nr : Setter q_queue_nr := ltac:(solve_setter).
#[export] Instance set_q_decoder : Setter q_decoder := ltac:(solve_setter).
#[export] Instance set_q_chain : Setter q_chain := ltac:(solve_setter).
#[export] Instance set_q_last_branch : Setter q_last_branch := ltac:(solve_setter).
#[export] Instance set_q_on_heap : Setter q_on_heap := ltac:(solve_setter).
#[export] Instance set_q_stop : Setter q_stop := ltac:(solve_setter).
#[export] Instance set_q_step_through_buffers : Setter q_step_through_buffers := ltac:(solve_setter).
#[export] Instance set_q_sync_switch : Setter q_sync_switch := ltac:(solve_setter).
#[export] Instance set_q_sample_ipc : Setter q_sample_ipc := ltac:(solve_setter).
#[export] Instance set_q_pid : Setter q_pid := ltac:(solve_setter).
#[export] Instance set_q_tid : Setter q_tid := ltac:(solve_setter).
#[export] Instance set_q_cpu : Setter q_cpu := ltac:(solve_setter).
#[export] Instance set_q_switch_state : Setter q_switch_state := ltac:(solve_setter).
#[export] Instance set_q_next_tid : Setter q_next_tid := ltac:(solve_setter).
#[export] Instance set_q_thread : Setter q_thread := ltac:(solve_setter).
#[export] Instance set_q_guest_machine : Setter q_guest_machine := ltac:(solve_setter).
#[export] Instance set_q_guest_thread : Setter q_guest_thread := ltac:(solve_setter).
#[export] Instance set_q_unknown_guest_thread : Setter q_unknown_guest_thread := ltac:(solve_setter).
#[export] Instance set_q_guest_machine_pid : Setter q_guest_machine_pid := ltac:(solve_setter).
#[export] Instance set_q_guest_pid : Setter q_guest_pid := ltac:(solve_setter).
#[export] Instance set_q_guest_tid : Setter q_guest_tid := ltac:(solve_setter).
#[export] Instance set_q_vcpu : Setter q_vcpu := ltac:(solve_setter).
#[export] Instance set_q_exclude_kernel : Setter q_exclude_kernel := ltac:(solve_setter).
#[export] Instance set_q_have_sample : Setter q_have_sample := ltac:(solve_setter).
#[export] Instance set_q_time : Setter q_time := ltac:(solve_setter).
#[export] Instance set_q_timestamp : Setter q_timestamp := ltac:(solve_setter).
#[export] Instance set_q_sel_timestamp : Setter q_sel_timestamp := ltac:(solve_setter).
#[export] Instance set_q_sel_start : Setter q_sel_start := ltac:(solve_setter).
#[export] Instance set_q_sel_idx : Setter q_sel_idx := ltac:(solve_setter).
#[export] Instance set_q_flags : Setter q_flags := ltac:(solve_setter).
#[export] Instance set_q_insn_len : Setter q_insn_len := ltac:(solve_setter).
#[export] Instance set_q_last_insn_cnt : Setter q_last_insn_cnt := ltac:(solve_setter).
#[export] Instance set_q_ipc_insn_cnt : Setter q_ipc_insn_cnt := ltac:(solve_setter).
#[export] Instance set_q_ipc_cyc_cnt : Setter q_ipc_cyc_cnt := ltac:(solve_setter).
#[export] Instance set_q_last_in_insn_cnt : Setter q_last_in_insn_cnt := ltac:(solve_setter).
#[export] Instance set_q_last_in_cyc_cnt : Setter q_last_in_cyc_cnt := ltac:(solve_setter).
#[export] Instance set_q_last_cy_insn_cnt : Setter q_last_cy_insn_cnt := ltac:(solve_setter).
#[export] Instance set_q_last_cy_cyc_cnt : Setter q_last_cy_cyc_cnt := ltac:(solve_setter).
#[export] Instance set_q_last_br_insn_cnt : Setter q_last_br_insn_cnt := ltac:(solve_setter).
#[export] Instance set_q_last_br_cyc_cnt : Setter q_last_br_cyc_cnt := ltac:(solve_setter).
#[export] Instance set_q_cbr_seen : Setter q_cbr_seen := ltac:(solve_setter).
#[export] Instance set_q_insn : Setter q_insn := ltac:(solve_setter).
#[export] Instance set_q_pebs : Setter q_pebs := ltac:(solve_setter).

Definition q_state (q : intel_pt_queue) : intel_pt_state := d_state (q_decoder q).

(** The members of [struct perf_sample] that are set here.  Of the call chain and
    the branch stack the entries in use, a branch with its flags as a number. *)
Record perf_sample := mkPs {
  ps_ip : Z;
  ps_pid : Z;
  ps_tid : Z;
  ps_time : Z;
  ps_addr : Z;
  ps_id : Z;
  ps_stream_id : Z;
  ps_period : Z;
  ps_weight : Z;
  ps_transaction : Z;
  ps_insn_cnt : Z;
  ps_cyc_cnt : Z;
  ps_cpu : Z;
  ps_flags : Z;
  ps_machine_pid : Z;
  ps_vcpu : Z;
  ps_insn_len : Z;
  ps_cpumode : Z;
  ps_ins_lat : Z;
  ps_insn : list byte;
  ps_raw_size : Z;
  ps_raw_data : list byte;
  ps_callchain : option (list Z);
  ps_branch_stack : option (list (Z * Z * Z));
  ps_regs_abi : Z;
  ps_regs_mask : Z;
  ps_regs : list Z
}.
#[export] Instance eta_ps : Eta perf_sample := fun s =>
  mkPs (ps_ip s) (ps_pid s) (ps_tid s) (ps_time s) (ps_addr s) (ps_id s) (ps_stream_id s) (ps_period s) (ps_weight s)
  (ps_transaction s) (ps_insn_cnt s) (ps_cyc_cnt s) (ps_cpu s) (ps_flags s) (ps_machine_pid s) (ps_vcpu s)
  (ps_insn_len s) (ps_cpumode s) (ps_ins_lat s) (ps_insn s) (ps_raw_size s) (ps_raw_data s) (ps_callchain s) (ps_branch_stack s)
  (ps_regs_abi s) (ps_regs_mask s) (ps_regs s).
#[export] Instance set_ps_ip : Setter ps_ip := ltac:(solve_setter).
#[export] Instance set_ps_pid : Setter ps_pid := ltac:(solve_setter).
#[export] Instance set_ps_tid : Setter ps_tid := ltac:(solve_setter).
#[export] Instance set_ps_time : Setter ps_time := ltac:(solve_setter).
#[export] Instance set_ps_addr : Setter ps_addr := ltac:(solve_setter).
#[export] Instance set_ps_id : Setter ps_id := ltac:(solve_setter).
#[export] Instance set_ps_stream_id : Setter ps_stream_id := ltac:(solve_setter).
#[export] Instance set_ps_period : Setter ps_period := ltac:(solve_setter).
#[export] Instance set_ps_weight : Setter ps_weight := ltac:(solve_setter).
#[export] Instance set_ps_transaction : Setter ps_transaction := ltac:(solve_setter).
#[export] Instance set_ps_insn_cnt : Setter ps_insn_cnt := ltac:(solve_setter).
#[export] Instance set_ps_cyc_cnt : Setter ps_cyc_cnt := ltac:(solve_setter).
#[export] Instance set_ps_cpu : Setter ps_cpu := ltac:(solve_setter).
#[export] Instance set_ps_flags : Setter ps_flags := ltac:(solve_setter).
#[export] Instance set_ps_machine_pid : Setter ps_machine_pid := ltac:(solve_setter).
#[export] Instance set_ps_vcpu : Setter ps_vcpu := ltac:(solve_setter).
#[export] Instance set_ps_insn_len : Setter ps_insn_len := ltac:(solve_setter).
#[export] Instance set_ps_cpumode : Setter ps_cpumode := ltac:(solve_setter).
#[export] Instance set_ps_ins_lat : Setter ps_ins_lat := ltac:(solve_setter).
#[export] Instance set_ps_insn : Setter ps_insn := ltac:(solve_setter).
#[export] Instance set_ps_raw_size : Setter ps_raw_size := ltac:(solve_setter).
#[export] Instance set_ps_raw_data : Setter ps_raw_data := ltac:(solve_setter).
#[export] Instance set_ps_callchain : Setter ps_callchain := ltac:(solve_setter).
#[export] Instance set_ps_branch_stack : Setter ps_branch_stack := ltac:(solve_setter).
#[export] Instance set_ps_regs_abi : Setter ps_regs_abi := ltac:(solve_setter).
#[export] Instance set_ps_regs_mask : Setter ps_regs_mask := ltac:(solve_setter).
#[export] Instance set_ps_regs : Setter ps_regs := ltac:(solve_setter).

(** What changes in [struct intel_pt] while events are processed.  [s_env] is the
    rest of perf, and what the callbacks of the decoders keep. *)
Record session (CR E : Type) := mkSession {
  s_kernel_start : Z;
  s_have_guest_sideband : bool;
  s_sync_switch : bool;
  s_sync_switch_not_supported : bool;
  s_switch_ip : Z;
  s_ptss_ip : Z;
  s_first_timestamp : Z;
  s_num_events : Z;
  s_heap : auxtrace_heap;
  s_queues : auxtrace_queues;
  s_ptqs : gmap Z intel_pt_queue;
  s_chain : ip_callchain;
  s_br_stack : branch_stack;
  s_world : world CR;
  s_env : E
}.
Arguments mkSession {CR E}.
Arguments s_kernel_start {CR E} _.
Arguments s_have_guest_sideband {CR E} _.
Arguments s_sync_switch {CR E} _.
Arguments s_sync_switch_not_supported {CR E} _.
Arguments s_switch_ip {CR E} _.
Arguments s_ptss_ip {CR E} _.
Arguments s_first_timestamp {CR E} _.
Arguments s_num_events {CR E} _.
Arguments s_heap {CR E} _.
Arguments s_queues {CR E} _.
Arguments s_ptqs {CR E} _.
Arguments s_chain {CR E} _.
Arguments s_br_stack {CR E} _.
Arguments s_world {CR E} _.
Arguments s_env {CR E} _.
#[export] Instance eta_session {CR E} : Eta (session CR E) := fun s =>
  mkSession (s_kernel_start s) (s_have_guest_sideband s) (s_sync_switch s) (s_sync_switch_not_supported s)
  (s_switch_ip s) (s_ptss_ip s) (s_first_timestamp s) (s_num_events s) (s_heap s) (s_queues s) (s_ptqs s) (s_chain s)
  (s_br_stack s) (s_world s) (s_env s).
#[export] Instance set_s_kernel_start {CR E} : Setter (@s_kernel_start CR E) := ltac:(solve_setter).
#[export] Instance set_s_have_guest_sideband {CR E} : Setter (@s_have_guest_sideband CR E) := ltac:(solve_setter).
#[export] Instance set_s_sync_switch {CR E} : Setter (@s_sync_switch CR E) := ltac:(solve_setter).
#[export] Instance set_s_sync_switch_not_supported {CR E} : Setter (@s_sync_switch_not_supported CR E) := ltac:(solve_setter).
#[export] Instance set_s_switch_ip {CR E} : Setter (@s_switch_ip CR E) := ltac:(solve_setter).
#[export] Instance set_s_ptss_ip {CR E} : Setter (@s_ptss_ip CR E) := ltac:(solve_setter).
#[export] Instance set_s_first_timestamp {CR E} : Setter (@s_first_timestamp CR E) := ltac:(solve_setter).
#[export] Instance set_s_num_events {CR E} : Setter (@s_num_events CR E) := ltac:(solve_setter).
#[export] Instance set_s_heap {CR E} : Setter (@s_heap CR E) := ltac:(solve_setter).
#[export] Instance set_s_queues {CR E} : Setter (@s_queues CR E) := ltac:(solve_setter).
#[export] Instance set_s_ptqs {CR E} : Setter (@s_ptqs CR E) := ltac:(solve_setter).
#[export] Instance set_s_chain {CR E} : Setter (@s_chain CR E) := ltac:(solve_setter).
#[export] Instance set_s_br_stack {CR E} : Setter (@s_br_stack CR E) := ltac:(solve_setter).
#[export] Instance set_s_world {CR E} : Setter (@s_world CR E) := ltac:(solve_setter).
#[export] Instance set_s_env {CR E} : Setter (@s_env CR E) := ltac:(solve_setter).

(** ** The monad of the session *)

Definition SM (CR E A : Type) : Type := session CR E -> outcome (A * session CR E).
#[export] Instance SM_ret {CR E} : MRet (SM CR E) := fun A a s => Ret (a, s).
#[export] Instance SM_bind {CR E} : MBind (SM CR E) := fun A B k m s =>
  match m s with
  | Ret (a, s) => k a s
  | Fault => Fault
  | OutOfFuel => OutOfFuel
  end.

Section session_monad.
Context {CR E : Type}.
Definition sfault {A} : SM CR E A := fun _ => Fault.
Definition sgets {A} (f : session CR E -> A) : SM CR E A := fun s => Ret (f s, s).
Definition smodify (f : session CR E -> session CR E) : SM CR E unit := fun s => Ret (tt, f s).
Definition snull {A} (x : option A) : SM CR E A := match x with Some x => mret x | None => sfault end.
(** A call to the rest of perf. *)
Definition scall {A} (f : E -> A * E) : SM CR E A := fun s =>
  let '(a, e) := f (s_env s) in Ret (a, s <| s_env := e |>).
(** [err = m; if (err) return err; k] *)
Definition s_ok (m k : SM CR E Z) : SM CR E Z := err ← m; if err =? 0 then k else mret err.
Definition s_when (b : bool) (m : SM CR E Z) : SM CR E Z := if b then m else mret 0.

(** [ptq->...], and an assignment. *)
Definition ptq (nr : Z) : SM CR E intel_pt_queue := ptqs ← sgets s_ptqs; snull (ptqs !! nr).
Definition upd_ptq (nr : Z) (f : intel_pt_queue -> intel_pt_queue) : SM CR E unit :=
  q ← ptq nr; smodify (fun s => s <| s_ptqs := <[nr := f q]> (s_ptqs s) |>).
End session_monad.

(** ** The rest of perf *)

Record perf_record_auxtrace_error := mkAuxErr {
  ae_type : Z;
  ae_code : Z;
  ae_cpu : Z;
  ae_pid : Z;
  ae_tid : Z;
  ae_fmt : Z;
  ae_ip : Z;
  ae_time : Z;
  ae_msg : string;
  ae_machine_pid : Z;
  ae_vcpu : Z
}.
(** What is delivered to the session: a sample, with the [misc] of its header, or
    an error. *)
Inductive synth_event :=
| SynthSample (misc : Z) (sample : perf_sample)
| SynthError (err : perf_record_auxtrace_error).

(** The kernel map of a machine, if it has one: whether loading it fails, its
    range, and of its symbols, in order, whether they are global, their names and
    addresses ([unmap_ip] of the start). *)
Record kernel_map := mkKmap {
  km_load_error : bool;
  km_start : Z;
  km_end : Z;
  km_symbols : list (bool * string * Z)
}.

Class SessionEnv (E : Type) := {
  (* [perf_event__synthesize_sample] into the event *)
  synthesize_sample : synth_event -> Z -> E -> Z * E;
  perf_session__deliver_synth_event : synth_event -> E -> Z * E;
  machine__get_current_tid : Z -> Z -> E -> Z;
  machine__set_current_tid : Z -> Z -> Z -> Z -> E -> Z * E;
  machine__find_thread : Z -> Z -> Z -> E -> option Z;
  machine__findnew_thread : Z -> Z -> Z -> E -> option Z * E;
  machines__find : Z -> E -> option Z;
  machine__kernel_start : Z -> E -> Z;
  machine__kernel_map : Z -> E -> option kernel_map;
  (* [thread->cpu], [thread->guest_cpu], and what the thread stacks use *)
  thread_cpu : Z -> E -> Z;
  thread_guest_cpu : Z -> E -> Z;
  get_thread : Z -> E -> ThreadStack.thread;
  put_thread : Z -> ThreadStack.thread -> E -> E;
  (* [map__find_symbol], of which the name, and [__map__is_kernel] *)
  map__find_symbol : map -> Z -> option string;
  __map__is_kernel : map -> bool;
  (* [sort__mode == SORT_MODE__BRANCH] *)
  sort_mode_branch : bool
}.

Definition zero_sample : perf_sample :=
  mkPs 0 0 0 0 0 0 0 0 0 0 0 0 0 0 0 0 0 0 0 [] 0 [] None None 0 0 [].

Section synth.
Context {CR E : Type} `{SessionEnv E} `{PerfEnv}.
Context (pt : session_config).
Abbreviation SM := (SM CR E).
Abbreviation session := (session CR E).
Abbreviation ptq := (@ptq CR E).

Definition pt_view (s : session) : PtSession.intel_pt :=
  mkPt (c_machine pt) (c_unknown_thread pt) (s_kernel_start s) (s_have_guest_sideband s) (c_filts pt).
Definition ptq_view (q : intel_pt_queue) : PtSession.intel_pt_queue :=
  mkPtq (st_to_nr (q_state q)) (q_pid q) (q_thread q) (q_guest_machine q) (q_guest_thread q)
    (q_unknown_guest_thread q) (q_guest_machine_pid q).
Definition set_view (v : PtSession.intel_pt_queue) (q : intel_pt_queue) : intel_pt_queue :=
  q <| q_guest_machine := ptq_guest_machine v |> <| q_guest_thread := ptq_guest_thread v |>
    <| q_unknown_guest_thread := ptq_unknown_guest_thread v |>.

Definition intel_pt_get_guest (nr : Z) : SM Z :=
  q ← ptq nr;
  let '(r, v) := PtSession.intel_pt_get_guest (ptq_view q) in
  upd_ptq nr (set_view v);;
  mret r.

(** ** Delivery *)

(** Counts the event, when the first events are to be skipped. *)
Definition intel_pt_skip_event : SM bool :=
  let skip := so_initial_skip (c_synth_opts pt) in
  if skip =? 0 then mret false
  else
    n ← sgets s_num_events;
    smodify (fun s => s <| s_num_events := u64 (n + 1) |>);;
    mret (n <? skip).

Definition intel_pt_skip_cbr_event : SM bool :=
  let skip := so_initial_skip (c_synth_opts pt) in
  n ← sgets s_num_events;
  mret (negb (skip =? 0) && (u64 (n + 4) <? skip)).

(** Unless the event is skipped. *)
Definition unless_skipped (k : SM Z) : SM Z := skip ← intel_pt_skip_event; if (skip : bool) then mret 0 else k.

Definition intel_pt_inject_event (event : synth_event) (type : Z) : SM Z := scall (synthesize_sample event type).
Definition intel_pt_opt_inject (event : synth_event) (type : Z) : SM Z :=
  if negb (so_inject (c_synth_opts pt)) then mret 0 else intel_pt_inject_event event type.
Definition intel_pt_deliver_synth_event (event : synth_event) (type : Z) : SM Z :=
  s_ok (intel_pt_opt_inject event type) (scall (perf_session__deliver_synth_event event)).
(** A sample whose header has the mode of the CPU. *)
Definition deliver_sample (sample : perf_sample) (type : Z) : SM Z :=
  intel_pt_deliver_synth_event (SynthSample (ps_cpumode sample) sample) type.

(** ** Preparing samples *)

Definition intel_pt_prep_a_sample (s : session) (q : intel_pt_queue) : perf_sample :=
  let st := q_state q in
  let sample := zero_sample <| ps_pid := u32 (q_pid q) |> <| ps_tid := u32 (q_tid q) |> in
  let sample :=
    if s_have_guest_sideband s && ((negb (st_from_ip st =? 0) && st_from_nr st) || (negb (st_to_ip st =? 0) && st_to_nr st)) then
      sample <| ps_pid := u32 (q_guest_pid q) |> <| ps_tid := u32 (q_guest_tid q) |>
        <| ps_machine_pid := u32 (q_guest_machine_pid q) |> <| ps_vcpu := u32 (q_vcpu q) |>
    else sample in
  sample <| ps_cpu := u32 (q_cpu q) |> <| ps_insn_len := q_insn_len q |> <| ps_insn := q_insn q |>.

Definition queue_cpumode (s : session) (q : intel_pt_queue) (from_ip to_ip : Z) : Z :=
  intel_pt_cpumode (pt_view s) (st_from_nr (q_state q)) (st_to_nr (q_state q)) from_ip to_ip.

Definition intel_pt_prep_b_sample (s : session) (q : intel_pt_queue) : perf_sample :=
  let st := q_state q in
  let sample := intel_pt_prep_a_sample s q in
  let sample := if c_timeless_decoding pt then sample else sample <| ps_time := tsc_to_perf_time (c_tc pt) (q_timestamp q) |> in
  sample <| ps_ip := st_from_ip st |> <| ps_addr := st_to_ip st |>
    <| ps_cpumode := queue_cpumode s q (st_from_ip st) (st_to_ip st) |>
    <| ps_period := 1 |> <| ps_flags := q_flags q |>.

Definition with_id (id : Z) (sample : perf_sample) : perf_sample := sample <| ps_id := id |> <| ps_stream_id := id |>.

(** The thread of a queue; NULL has no thread stacks. *)
Definition no_thread : ThreadStack.thread := mkThread (-1) (-1) None [].
Definition queue_thread (q : intel_pt_queue) : SM ThreadStack.thread :=
  match q_thread q with
  | Some th => sgets (fun s => get_thread th (s_env s))
  | None => mret no_thread
  end.

(** [thread_stack__sample] into [ptq->chain]. *)
Definition sample_chain (q : intel_pt_queue) (sz ip : Z) (sample : perf_sample) : SM perf_sample :=
  room ← snull (q_chain q);
  th ← queue_thread q;
  ks ← sgets s_kernel_start;
  chain ← snull (thread_stack__sample th (q_cpu q) (mkChain 0 (replicate (Z.to_nat room) 0)) sz ip ks);
  mret (sample <| ps_callchain := Some (take (Z.to_nat (chain_nr chain)) (chain_ips chain)) |>).

(** The flags of a branch as a number: [mispred], [in_tx] and [abort]. *)
Definition branch_triple (be : branch_entry) : Z * Z * Z :=
  (be_from be, be_to be, Z.b2z (be_mispred be) .| (Z.b2z (be_in_tx be) .<< 2) .| (Z.b2z (be_abort be) .<< 3)).
Definition branches_in_use (bs : branch_stack) : list (Z * Z * Z) :=
  List.map branch_triple (take (Z.to_nat (bs_nr bs)) (bs_entries bs)).
(** [thread_stack__br_sample] into [ptq->last_branch]. *)
Definition sample_branches (q : intel_pt_queue) (sample : perf_sample) : SM perf_sample :=
  room ← snull (q_last_branch q);
  th ← queue_thread q;
  bs ← snull (thread_stack__br_sample th (q_cpu q) (mkBs 0 (replicate (Z.to_nat room) zero_be)) (c_br_stack_sz pt));
  mret (sample <| ps_branch_stack := Some (branches_in_use bs) |>).

Definition intel_pt_prep_sample (q : intel_pt_queue) : SM perf_sample :=
  sample ← sgets (fun s => intel_pt_prep_b_sample s q);
  sample ← (if so_callchain (c_synth_opts pt) then sample_chain q (u32 (so_callchain_sz (c_synth_opts pt) + 1)) (ps_ip sample) sample
            else mret sample);
  if so_last_branch (c_synth_opts pt) then sample_branches q sample else mret sample.

(** Zero IP stands for the start of the trace, but not here. *)
Definition intel_pt_prep_p_sample (q : intel_pt_queue) : SM perf_sample :=
  sample ← intel_pt_prep_sample q;
  mret (if ps_ip sample =? 0 then sample <| ps_flags := 0 |> else sample).

(** ** Samples of each kind *)

(** [perf_synth__raw_size]: a structure without its padding of 4 bytes. *)
Definition raw_sample (size : Z) (data : list byte) (sample : perf_sample) : perf_sample :=
  sample <| ps_raw_size := size - 4 |> <| ps_raw_data := data |>.

Definition intel_pt_synth_branch_sample_low (nr : Z) : SM Z :=
  q ← ptq nr;
  if negb (c_branches_filter pt =? 0) && (c_branches_filter pt .& q_flags q =? 0) then mret 0
  else
    unless_skipped
      (sample ← sgets (fun s => with_id (k_id (c_branches pt)) (intel_pt_prep_b_sample s q));
       (* a dummy branch stack *)
       let sample :=
         if so_last_branch (c_synth_opts pt) && sort_mode_branch then
           sample <| ps_branch_stack := Some [(ps_ip sample, ps_addr sample, 0)] |>
         else sample in
       let cyc_cnt := if q_sample_ipc q then u64 (q_ipc_cyc_cnt q - q_last_br_cyc_cnt q) else 0 in
       let sample := sample <| ps_cyc_cnt := cyc_cnt |> in
       sample ←
         (if cyc_cnt =? 0 then mret sample
          else
            upd_ptq nr (fun q => q <| q_last_br_insn_cnt := q_ipc_insn_cnt q |> <| q_last_br_cyc_cnt := q_ipc_cyc_cnt q |>);;
            mret (sample <| ps_insn_cnt := u64 (q_ipc_insn_cnt q - q_last_br_insn_cnt q) |>));
       deliver_sample sample (k_sample_type (c_branches pt))).

Definition intel_pt_synth_instruction_sample (nr : Z) : SM Z :=
  unless_skipped
    (q ← ptq nr;
     sample ← intel_pt_prep_sample q;
     let cyc_cnt := if q_sample_ipc q then u64 (q_ipc_cyc_cnt q - q_last_in_cyc_cnt q) else 0 in
     let tot_insn_cnt := st_tot_insn_cnt (q_state q) in
     let sample := with_id (k_id (c_instructions pt)) sample
       <| ps_period := if negb (so_quick (c_synth_opts pt) =? 0) then 1 else u64 (tot_insn_cnt - q_last_insn_cnt q) |>
       <| ps_cyc_cnt := cyc_cnt |> in
     sample ←
       (if cyc_cnt =? 0 then mret sample
        else
          upd_ptq nr (fun q => q <| q_last_in_insn_cnt := q_ipc_insn_cnt q |> <| q_last_in_cyc_cnt := q_ipc_cyc_cnt q |>);;
          mret (sample <| ps_insn_cnt := u64 (q_ipc_insn_cnt q - q_last_in_insn_cnt q) |>));
     upd_ptq nr (fun q => q <| q_last_insn_cnt := tot_insn_cnt |>);;
     deliver_sample sample (k_sample_type (c_instructions pt))).

Definition intel_pt_synth_cycle_sample (nr : Z) : SM Z :=
  q ← ptq nr;
  let period := if q_sample_ipc q then u64 (q_ipc_cyc_cnt q - q_last_cy_cyc_cnt q) else 0 in
  if period =? 0 then mret 0
  else
    unless_skipped
      (sample ← intel_pt_prep_sample q;
       let sample := with_id (k_id (c_cycles pt)) sample <| ps_period := period |> <| ps_cyc_cnt := period |>
         <| ps_insn_cnt := u64 (q_ipc_insn_cnt q - q_last_cy_insn_cnt q) |> in
       upd_ptq nr (fun q => q <| q_last_cy_insn_cnt := q_ipc_insn_cnt q |> <| q_last_cy_cyc_cnt := q_ipc_cyc_cnt q |>);;
       deliver_sample sample (k_sample_type (c_cycles pt))).

Definition intel_pt_synth_transaction_sample (nr : Z) : SM Z :=
  unless_skipped
    (q ← ptq nr;
     sample ← intel_pt_prep_sample q;
     deliver_sample (with_id (k_id (c_transactions pt)) sample) (k_sample_type (c_transactions pt))).

(** A sample with raw data, the bytes of [raw], of a structure of [size]. *)
Definition synth_raw_sample (nr id size : Z) (raw : intel_pt_queue -> list byte) (change : perf_sample -> perf_sample)
    (type : Z) : SM Z :=
  q ← ptq nr;
  sample ← intel_pt_prep_p_sample q;
  deliver_sample (raw_sample size (raw q) (change (with_id id sample))) type.
Definition fup_ip (q : intel_pt_queue) : Z := Z.b2z (negb (st_flags (q_state q) .& INTEL_PT_FUP_IP =? 0)).

Definition intel_pt_synth_ptwrite_sample (nr : Z) : SM Z :=
  unless_skipped (synth_raw_sample nr (k_id (c_ptwrites pt)) 16
    (fun q => le_bytes 4 (fup_ip q) ++ le_bytes 8 (st_ptw_payload (q_state q))) id (k_sample_type (c_ptwrites pt))).

Definition intel_pt_synth_cbr_sample (nr : Z) : SM Z :=
  skip ← intel_pt_skip_cbr_event;
  if (skip : bool) then mret 0
  else
    upd_ptq nr (fun q => q <| q_cbr_seen := st_cbr (q_state q) |>);;
    synth_raw_sample nr (c_cbr_id pt) 16
      (fun q =>
         let flags := u32 (u16 (st_cbr_payload (q_state q)) .| u32 (c_max_non_turbo_ratio pt .<< 16)) in
         le_bytes 4 flags ++ le_bytes 4 (u32 ((flags .& 0xff) * c_cbr2khz pt)) ++ le_bytes 4 0)
      id (c_pwr_events_sample_type pt).

Definition intel_pt_synth_psb_sample (nr : Z) : SM Z :=
  unless_skipped (synth_raw_sample nr (c_psb_id pt) 16
    (fun q => le_bytes 4 0 ++ le_bytes 8 (st_psb_offset (q_state q))) (fun s => s <| ps_flags := 0 |>)
    (c_pwr_events_sample_type pt)).

Definition intel_pt_synth_mwait_sample (nr : Z) : SM Z :=
  unless_skipped (synth_raw_sample nr (c_mwait_id pt) 16
    (fun q => le_bytes 4 0 ++ le_bytes 8 (st_mwait_payload (q_state q))) id (c_pwr_events_sample_type pt)).

Definition intel_pt_synth_pwre_sample (nr : Z) : SM Z :=
  unless_skipped (synth_raw_sample nr (c_pwre_id pt) 16
    (fun q => le_bytes 4 0 ++ le_bytes 8 (st_pwre_payload (q_state q))) id (c_pwr_events_sample_type pt)).

Definition intel_pt_synth_exstop_sample (nr : Z) : SM Z :=
  unless_skipped (synth_raw_sample nr (c_exstop_id pt) 8
    (fun q => le_bytes 4 (fup_ip q)) id (c_pwr_events_sample_type pt)).

Definition intel_pt_synth_pwrx_sample (nr : Z) : SM Z :=
  unless_skipped (synth_raw_sample nr (c_pwrx_id pt) 16
    (fun q => le_bytes 4 0 ++ le_bytes 8 (st_pwrx_payload (q_state q))) id (c_pwr_events_sample_type pt)).

(** An event and its data.  The size counts the data twice: the structure has
    room for all there can be.  The data are those of the decoder's array. *)
Definition event_bytes (q : intel_pt_queue) : list byte :=
  let st := q_state q in
  le_bytes 4 ((st_cfe_type st .& 0x1f) .| (fup_ip q .<< 7) .| ((st_cfe_vector st .& 0xff) .<< 8)
              .| ((st_evd_cnt st .& 0xffff) .<< 16)) ++
  concat (List.map (fun evd => le_bytes 8 (evd_type evd .& 0xff) ++ le_bytes 8 (evd_payload evd))
    (take (Z.to_nat (st_evd_cnt st)) (d_evd (q_decoder q)))).
Definition intel_pt_synth_events_sample (nr : Z) : SM Z :=
  unless_skipped
    (q ← ptq nr;
     synth_raw_sample nr (c_evt_id pt) (8 + INTEL_PT_MAX_EVDS * 16 + st_evd_cnt (q_state q) * 16) event_bytes id
       (c_evt_sample_type pt)).

(** [branch_ip] is set only for a branch. *)
Definition intel_pt_synth_iflag_chg_sample (nr : Z) : SM Z :=
  unless_skipped
    (q ← ptq nr;
     let st := q_state q in
     let branch := negb (st_type st .& INTEL_PT_BRANCH =? 0) in
     synth_raw_sample nr (c_iflag_chg_id pt) 16
       (fun q => le_bytes 4 (Z.b2z (st_to_iflag st) .| (Z.b2z branch .<< 1)) ++ if branch then le_bytes 8 (st_to_ip st) else [])
       (fun s => (if branch then s else s <| ps_addr := 0 |>) <| ps_flags := q_flags q |>)
       (c_iflag_chg_sample_type pt)).

(** ** Errors *)

Definition AUXTRACE_ERR_FLG_OVERFLOW : Z := 1 .<< 14.
Definition AUXTRACE_ERR_FLG_DATA_LOST : Z := 1 .<< 11.
Definition MAX_AUXTRACE_ERROR_MSG : Z := 64.
Definition PERF_AUXTRACE_ERROR_ITRACE : Z := 1.

Definition auxtrace_synth_guest_error (type code cpu pid tid ip : Z) (msg : string) (timestamp machine_pid vcpu : Z)
    : perf_record_auxtrace_error :=
  let guest := negb (machine_pid =? 0) in
  mkAuxErr (u32 type) (u32 code) (u32 cpu) (u32 pid) (u32 tid) (if guest then 2 else 1) ip timestamp msg
    (if guest then u32 machine_pid else 0) (if guest then u32 vcpu else 0).

Definition intel_pt_synth_error (code cpu pid tid ip timestamp machine_pid vcpu : Z) : SM Z :=
  let flags := so_error_minus_flags (c_synth_opts pt) in
  if (code =? INTEL_PT_ERR_OVR) && negb (flags .& AUXTRACE_ERR_FLG_OVERFLOW =? 0) then mret 0
  else if (code =? INTEL_PT_ERR_LOST) && negb (flags .& AUXTRACE_ERR_FLG_DATA_LOST =? 0) then mret 0
  else
    msg ← snull (intel_pt__strerror code MAX_AUXTRACE_ERROR_MSG);
    scall (perf_session__deliver_synth_event (SynthError
      (auxtrace_synth_guest_error PERF_AUXTRACE_ERROR_ITRACE code cpu pid tid ip msg timestamp machine_pid vcpu))).

Definition intel_ptq_synth_error (nr : Z) : SM Z :=
  q ← ptq nr;
  sideband ← sgets s_have_guest_sideband;
  let st := q_state q in
  let tm := if c_timeless_decoding pt then 0 else tsc_to_perf_time (c_tc pt) (q_timestamp q) in
  let guest := sideband && st_from_nr st in
  intel_pt_synth_error (st_err st) (q_cpu q) (if guest then q_guest_pid q else q_pid q)
    (if guest then q_guest_tid q else q_tid q) (st_from_ip st) tm
    (if guest then q_guest_machine_pid q else 0) (if guest then q_vcpu q else -1).
End synth.
