(* ===== verification/PtPebs.v ===== *)
(** Samples of PEBS records that came with the trace: [intel_pt_synth_pebs_sample]
    of tools/perf/util/intel-pt.c. *)
From Stdlib Require Import ZArith Lia List Bool.
From stdpp Require Import gmap.
From S2P Require Import Prelude PktDecoder PtState PtTime PtTimeRange PtSession PtConfig ThreadStack ThreadSample PtSynth.
Open Scope Z_scope.
Open Scope c_scope.
Import ListNotations.

(** ** Items of a record *)

Definition INTEL_PT_GP_REGS_POS : Z := 0.
Definition INTEL_PT_PEBS_BASIC_POS : Z := 1.
Definition INTEL_PT_PEBS_MEM_POS : Z := 2.
Definition INTEL_PT_LBR_0_POS : Z := 3.
Definition INTEL_PT_LBR_1_POS : Z := 4.
Definition INTEL_PT_LBR_2_POS : Z := 5.
Definition INTEL_PT_XMM_POS : Z := 6.
Definition INTEL_PT_MAX_PEBS : Z := 64.

(** [items->mask[pos]], [items->val[pos]], and the members of the unions: bit [i]
    of a mask and value [i]. *)
Definition item_mask (items : intel_pt_blk_items) (pos : Z) : Z := nth (Z.to_nat pos) (bi_mask items) 0.
Definition item_val (items : intel_pt_blk_items) (pos : Z) : list Z := nth (Z.to_nat pos) (bi_val items) [].
Definition has_item (items : intel_pt_blk_items) (pos i : Z) : bool := Z.testbit (item_mask items pos) i.
Definition item (items : intel_pt_blk_items) (pos i : Z) : Z := nth (Z.to_nat i) (item_val items pos) 0.

Definition has_rip items := has_item items INTEL_PT_GP_REGS_POS 1.
Definition items_rip items := item items INTEL_PT_GP_REGS_POS 1.
Definition has_rax items := has_item items INTEL_PT_GP_REGS_POS 2.
Definition items_rax items := item items INTEL_PT_GP_REGS_POS 2.
Definition has_ip items := has_item items INTEL_PT_PEBS_BASIC_POS 0.
Definition items_ip items := item items INTEL_PT_PEBS_BASIC_POS 0.
Definition has_applicable_counters items := has_item items INTEL_PT_PEBS_BASIC_POS 1.
Definition items_applicable_counters items := item items INTEL_PT_PEBS_BASIC_POS 1.
Definition has_timestamp items := has_item items INTEL_PT_PEBS_BASIC_POS 2.
Definition items_timestamp items := item items INTEL_PT_PEBS_BASIC_POS 2.
Definition has_mem_access_address items := has_item items INTEL_PT_PEBS_MEM_POS 0.
Definition items_mem_access_address items := item items INTEL_PT_PEBS_MEM_POS 0.
Definition has_mem_access_latency items := has_item items INTEL_PT_PEBS_MEM_POS 2.
Definition items_mem_access_latency items := item items INTEL_PT_PEBS_MEM_POS 2.
Definition has_tsx_aux_info items := has_item items INTEL_PT_PEBS_MEM_POS 3.
Definition items_tsx_aux_info items := item items INTEL_PT_PEBS_MEM_POS 3.

(** ** Registers *)

(** For each register of perf, from 0, its place in the block plus 1; 0 is none. *)
Definition pebs_gp_regs : list Z := [3; 6; 4; 5; 9; 10; 8; 7; 2; 1; 0; 0; 0; 0; 0; 0; 11; 12; 13; 14; 15; 16; 17; 18].
Definition PERF_REG_X86_XMM0 : Z := 32.

(** The registers asked for and provided, and their mask.  [i] is the number of
    the next register. *)
Fixpoint add_gp_regs_loop (table : list Z) (i mask regs_mask : Z) (gp_regs : list Z) : list Z * Z :=
  match table with
  | [] => ([], 0)
  | n :: table =>
    let '(regs, intr_mask) := add_gp_regs_loop table (i + 1) mask regs_mask gp_regs in
    if negb (n =? 0) && Z.testbit mask (n - 1) && Z.testbit regs_mask i then
      (nth (Z.to_nat (n - 1)) gp_regs 0 :: regs, intr_mask .| (1 .<< i))
    else (regs, intr_mask)
  end.
Definition intel_pt_add_gp_regs (items : intel_pt_blk_items) (regs_mask : Z) : list Z * Z :=
  add_gp_regs_loop pebs_gp_regs 0 (item_mask items INTEL_PT_GP_REGS_POS) regs_mask (item_val items INTEL_PT_GP_REGS_POS).

(** The values whose bit of [mask] is set. *)
Fixpoint selected (mask : Z) (xmm : list Z) : list Z :=
  match xmm with
  | [] => []
  | x :: xmm => let rest := selected (mask .>> 1) xmm in if Z.testbit mask 0 then x :: rest else rest
  end.
Definition intel_pt_add_xmm (items : intel_pt_blk_items) (regs_mask : Z) : list Z * Z :=
  let mask := u32 (item_mask items INTEL_PT_XMM_POS .& (regs_mask .>> PERF_REG_X86_XMM0)) in
  (selected mask (item_val items INTEL_PT_XMM_POS), u64 (mask .<< PERF_REG_X86_XMM0)).

(** ** Branches *)

Definition LBR_INFO_MISPRED : Z := 1 .<< 63.
Definition LBR_INFO_IN_TX : Z := 1 .<< 62.
Definition LBR_INFO_ABORT : Z := 1 .<< 61.
Definition LBR_INFO_CYCLES : Z := 0xffff.

(** Bits of [struct branch_flags]. *)
Definition intel_pt_lbr_flags (info : Z) : Z :=
  let bit (flag i : Z) := Z.b2z (negb (info .& flag =? 0)) .<< i in
  bit LBR_INFO_MISPRED 0 .| (Z.b2z (info .& LBR_INFO_MISPRED =? 0) .<< 1) .| bit LBR_INFO_IN_TX 2 .| bit LBR_INFO_ABORT 3
  .| ((info .& LBR_INFO_CYCLES) .<< 4).

(** The triples of one block that are there. *)
Fixpoint lbr_loop (fuel : nat) (mask : Z) (from : list Z) : list (Z * Z * Z) :=
  match fuel with
  | O => []
  | S fuel =>
    if mask =? 0 then []
    else
      let rest := lbr_loop fuel (mask .>> 3) (drop 3 from) in
      if mask .& 7 =? 7 then (nth 0 from 0, nth 1 from 0, intel_pt_lbr_flags (nth 2 from 0)) :: rest else rest
  end.
Definition intel_pt_add_lbrs (items : intel_pt_blk_items) : list (Z * Z * Z) :=
  concat (List.map (fun pos => lbr_loop 11 (item_mask items pos) (item_val items pos))
    [INTEL_PT_LBR_0_POS; INTEL_PT_LBR_1_POS; INTEL_PT_LBR_2_POS]).

(** ** The sample *)

Definition PERF_RECORD_MISC_EXACT_IP : Z := 1 .<< 14.
Definition PERF_SAMPLE_REGS_ABI_32 : Z := 1.
Definition PERF_SAMPLE_REGS_ABI_64 : Z := 2.
Definition PERF_TXN_TRANSACTION : Z := 1 .<< 1.
Definition PERF_TXN_ABORT_SHIFT : Z := 32.

Definition pebs_weight (items : intel_pt_blk_items) (sample : perf_sample) : perf_sample :=
  let sample :=
    if has_mem_access_latency items then
      let latency := items_mem_access_latency items in
      let weight := latency .>> 32 in
      if 0 <? weight then sample <| ps_weight := weight .& 0xffff |> <| ps_ins_lat := latency .& 0xffff |>
      else sample <| ps_weight := latency |>
    else sample in
  if (ps_weight sample =? 0) && has_tsx_aux_info items then sample <| ps_weight := u32 (items_tsx_aux_info items) |> else sample.

Definition pebs_transaction (items : intel_pt_blk_items) : Z :=
  let ax := if has_rax items then items_rax items else 0 in
  let txn := u8 (items_tsx_aux_info items .>> 32) in
  if negb (txn .& PERF_TXN_TRANSACTION =? 0) && negb (ax .& 1 =? 0) then txn .| (((ax .>> 24) .& 0xff) .<< PERF_TXN_ABORT_SHIFT)
  else txn.

Section pebs.
Context {CR E : Type} `{SessionEnv E} `{PerfEnv}.
Context (pt : session_config).
Abbreviation SM := (SM CR E).
Abbreviation ptq := (@ptq CR E).

Definition pebs_ip (q : intel_pt_queue) : Z :=
  let items := st_items (q_state q) in
  if has_ip items then items_ip items else if has_rip items then items_rip items else st_from_ip (q_state q).

Definition pebs_time (q : intel_pt_queue) : Z :=
  let items := st_items (q_state q) in
  let timestamp :=
    if has_timestamp items then items_timestamp items else if c_timeless_decoding pt then 0 else q_timestamp q in
  if timestamp =? 0 then 0 else tsc_to_perf_time (c_tc pt) timestamp.

Definition pebs_regs (items : intel_pt_blk_items) (attr : perf_event_attr) (sample : perf_sample) : perf_sample :=
  let regs_mask := attr_sample_regs_intr attr in
  let '(regs, gp_mask) := intel_pt_add_gp_regs items regs_mask in
  let '(xmm, xmm_mask) := intel_pt_add_xmm items regs_mask in
  sample <| ps_regs_abi := if bi_is_32_bit items then PERF_SAMPLE_REGS_ABI_32 else PERF_SAMPLE_REGS_ABI_64 |>
    <| ps_regs := regs ++ xmm |> <| ps_regs_mask := gp_mask .| xmm_mask |>.

(** [ptq->last_branch] is written in every case. *)
Definition pebs_branches (q : intel_pt_queue) (sample : perf_sample) : SM perf_sample :=
  let items := st_items (q_state q) in
  room ← snull (q_last_branch q);
  if negb ((item_mask items INTEL_PT_LBR_0_POS =? 0) && (item_mask items INTEL_PT_LBR_1_POS =? 0)
           && (item_mask items INTEL_PT_LBR_2_POS =? 0)) then
    let branches := intel_pt_add_lbrs items in
    if Z.of_nat (length branches) <=? room then mret (sample <| ps_branch_stack := Some branches |>) else sfault
  else if so_last_branch (c_synth_opts pt) then sample_branches pt q sample
  else mret (sample <| ps_branch_stack := Some [] |>).

Definition intel_pt_do_synth_pebs_sample (nr : Z) (evsel : evsel) (id : Z) : SM Z :=
  let attr := es_attr evsel in
  let asked (bits : Z) := set_in (attr_sample_type attr) bits in
  unless_skipped pt
    (q ← ptq nr;
     let items := st_items (q_state q) in
     sample ← sgets (fun s =>
       let sample := with_id id (intel_pt_prep_a_sample s q) in
       let sample := if attr_freq attr then sample else sample <| ps_period := attr_sample_period attr |> in
       let sample := sample <| ps_ip := pebs_ip q |> <| ps_cpumode := queue_cpumode pt s q (pebs_ip q) 0 |> in
       if asked PERF_SAMPLE_TIME then sample <| ps_time := pebs_time q |> else sample);
     sample ←
       (if asked PERF_SAMPLE_CALLCHAIN && so_callchain (c_synth_opts pt)
        then sample_chain q (so_callchain_sz (c_synth_opts pt)) (ps_ip sample) sample else mret sample);
     let sample :=
       if asked PERF_SAMPLE_REGS_INTR
          && negb ((item_mask items INTEL_PT_GP_REGS_POS =? 0) && (item_mask items INTEL_PT_XMM_POS =? 0))
       then pebs_regs items attr sample else sample in
     sample ← (if asked PERF_SAMPLE_BRANCH_STACK then pebs_branches q sample else mret sample);
     let sample :=
       if asked PERF_SAMPLE_ADDR && has_mem_access_address items then sample <| ps_addr := items_mem_access_address items |>
       else sample in
     let sample := if asked PERF_SAMPLE_WEIGHT_TYPE then pebs_weight items sample else sample in
     let sample :=
       if asked PERF_SAMPLE_TRANSACTION && has_tsx_aux_info items then sample <| ps_transaction := pebs_transaction items |>
       else sample in
     intel_pt_deliver_synth_event pt (SynthSample (ps_cpumode sample .| PERF_RECORD_MISC_EXACT_IP) sample)
       (attr_sample_type attr)).

Definition intel_pt_synth_single_pebs_sample (nr : Z) : SM Z :=
  evsel ← snull (c_pebs_evsel pt);
  intel_pt_do_synth_pebs_sample nr evsel (es_id evsel).

(** [for_each_set_bit] over the counters, from [hw_id] on. *)
Fixpoint pebs_loop (nr counters : Z) (n : nat) (hw_id err : Z) : SM Z :=
  match n with
  | O => mret err
  | S n =>
    if Z.testbit counters hw_id then
      q ← ptq nr;
      pe ← snull (idx (q_pebs q) hw_id);
      match pe with
      | None => intel_pt_synth_single_pebs_sample nr
      | Some (evsel, id) =>
        err ← intel_pt_do_synth_pebs_sample nr evsel id;
        if negb (err =? 0) then mret err else pebs_loop nr counters n (hw_id + 1) err
      end
    else pebs_loop nr counters n (hw_id + 1) err
  end.
Definition intel_pt_synth_pebs_sample (nr : Z) : SM Z :=
  q ← ptq nr;
  let items := st_items (q_state q) in
  if negb (has_applicable_counters items) || (items_applicable_counters items =? 0) then intel_pt_synth_single_pebs_sample nr
  else pebs_loop nr (items_applicable_counters items) (Z.to_nat INTEL_PT_MAX_PEBS) 0 (- EINVAL).
End pebs.
