(* ===== verification/PtFilter.v ===== *)
(** The filter of branches by function that pt_perf adds to perf: the list of
    names ([func_filter_init] and [func_filter_match] of
    tools/perf/util/auxtrace.c) and the choice of branch samples in
    tools/perf/util/intel-pt.c. *)
From Stdlib Require Import ZArith Lia List Bool String Ascii.
From stdpp Require Import gmap.
From S2P Require Import Prelude PktDecoder PtState PtBatch PtSession PtConfig PtSynth.
Open Scope Z_scope.
Open Scope c_scope.
Import ListNotations.

(** ** The functions asked for *)

Definition MAX_FILTER_SYMBOL : Z := 1024.

(** [func_filter], the names; [fil_syms], the start and end of symbols; and
    whether [func_filter_str] is not empty. *)
Record func_filter := mkFf {
  ff_on : bool;
  ff_names : list string;
  ff_syms : list (Z * Z)
}.

(** The loop of [func_filter_init] cuts the string at its commas, but for one at
    its end; [cur] is the name begun, reversed. *)
Fixpoint rev_string (s acc : string) : string :=
  match s with
  | EmptyString => acc
  | String c s => rev_string s (String c acc)
  end.
Fixpoint split_names (s cur : string) : list string :=
  match s with
  | EmptyString => [rev_string cur EmptyString]
  | String c s' =>
    if Ascii.eqb c "," && negb (String.eqb s' EmptyString) then rev_string cur EmptyString :: split_names s' EmptyString
    else split_names s' (String c cur)
  end.

(** The loop over the symbols of the DSO given with the filter, in order. *)
Fixpoint add_syms (names : list string) (name : string) (start end_ : Z) (syms : list (Z * Z)) : list (Z * Z) :=
  match names with
  | [] => syms
  | f :: names =>
    add_syms names name start end_
      (if String.eqb f name && (Z.of_nat (length syms) <? MAX_FILTER_SYMBOL) then syms ++ [(start, end_)] else syms)
  end.
Fixpoint fil_sym_loop (names : list string) (symbols : list (string * Z * Z)) (syms : list (Z * Z)) : list (Z * Z) :=
  match symbols with
  | [] => syms
  | (name, start, end_) :: symbols => fil_sym_loop names symbols (add_syms names name start end_ syms)
  end.
(** [dso]: the symbols of the DSO, unless none is named. *)
Definition func_filter_generate_fil_sym (names : list string) (dso : option (list (string * Z * Z))) : list (Z * Z) :=
  match dso with
  | Some symbols => fil_sym_loop names symbols []
  | None => []
  end.

(** [None]: more names than [func_filter] has room for.  A comma at the start of
    the string is overwritten with its end. *)
Definition func_filter_init (func_filter_str : string) (dso : option (list (string * Z * Z))) : option func_filter :=
  match func_filter_str with
  | EmptyString => Some (mkFf false [] [])
  | String c s =>
    let names := split_names func_filter_str EmptyString in
    if Z.of_nat (length names) <=? MAX_FILTER_SYMBOL then
      Some (mkFf (negb (Ascii.eqb c "," && negb (String.eqb s EmptyString))) names (func_filter_generate_fil_sym names dso))
    else None
  end.

Definition func_filter_match (f : func_filter) (name : string) : bool := existsb (String.eqb name) (ff_names f).

(** ** Branches *)

(** The members of [struct addr_location] that are used; [al_map] is set when
    [al_addr] is. *)
Record addr_location := mkAl {
  al_addr : Z;
  al_map : option map;
  al_sym : option string
}.
Definition zero_al : addr_location := mkAl 0 None None.

Section filter.
Context {CR E : Type} `{SessionEnv E} `{PerfEnv}.
Context (pt : session_config) (filter : func_filter) (tid_list : option (list Z)).
Abbreviation SM := (SM CR E).
Abbreviation ptq := (@ptq CR E).

(** Whether the address is known, and its map.  It is that of [find_thread], which
    chooses the machine and thread the same way. *)
Definition intel_pt_parse_ip (nr ip : Z) (al : addr_location) : SM (Z * addr_location) :=
  if ip =? 0 then mret (- EINVAL, al)
  else
    q ← ptq nr;
    view ← sgets (pt_view pt);
    let '(r, v) := find_thread view (ptq_view q) ip in
    upd_ptq nr (set_view v);;
    match r with
    | inl err => mret (err, al)
    | inr (cpumode, _, thread) =>
      match thread__find_map thread cpumode ip with
      | None => mret (- EINVAL, mkAl ip None (al_sym al))
      | Some m =>
        let al := mkAl (map_ip m ip) (Some m) (al_sym al) in
        mret (match map_dso m with Some _ => 0 | None => - EINVAL end, al)
      end
    end.

Definition intel_pt_parse_sym (nr ip : Z) (al : addr_location) : SM (Z * addr_location) :=
  '(err, al) ← intel_pt_parse_ip nr ip al;
  if negb (err =? 0) then mret (- EINVAL, al)
  else
    match al_map al with
    | Some m => mret (0, mkAl (al_addr al) (al_map al) (map__find_symbol m (al_addr al)))
    | None => sfault
    end.

Definition intel_pt_is_schedule_func (al : addr_location) : bool :=
  match al_sym al with
  | None => false
  | Some name => String.eqb name "__schedule" || String.eqb name "__sched_text_start"
  end.

Definition intel_pt_is_target_func_name (al : addr_location) : bool :=
  match al_sym al with
  | None => false
  | Some name => func_filter_match filter name
  end.

Definition intel_pt_is_target_func_ip (al : addr_location) : bool :=
  existsb (fun sym => (sym.1 <=? al_addr al) && (al_addr al <=? sym.2)) (ff_syms filter).

(** [to_al->addr && to_al->map && __map__is_kernel(to_al->map)] *)
Definition to_kernel (al : addr_location) : bool :=
  negb (al_addr al =? 0) && match al_map al with Some m => __map__is_kernel m | None => false end.

(** Both return whether the branch is dropped. *)
Definition intel_pt_func_filter_by_sym (nr : Z) : SM bool :=
  q ← ptq nr;
  '(_, from_al) ← intel_pt_parse_sym nr (st_from_ip (q_state q)) zero_al;
  '(_, to_al) ← intel_pt_parse_sym nr (st_to_ip (q_state q)) zero_al;
  mret (if intel_pt_is_target_func_name from_al || intel_pt_is_target_func_name to_al then false
        else if to_kernel to_al && (intel_pt_is_schedule_func from_al || intel_pt_is_schedule_func to_al) then false
        else true).

Definition intel_pt_func_filter_by_ip (nr : Z) : SM bool :=
  q ← ptq nr;
  '(_, from_al) ← intel_pt_parse_ip nr (st_from_ip (q_state q)) zero_al;
  '(_, to_al) ← intel_pt_parse_ip nr (st_to_ip (q_state q)) zero_al;
  if intel_pt_is_target_func_ip from_al || intel_pt_is_target_func_ip to_al then mret false
  else if to_kernel to_al then
    '(_, from_al) ← intel_pt_parse_sym nr (st_from_ip (q_state q)) (mkAl (al_addr from_al) (al_map from_al) None);
    '(_, to_al) ← intel_pt_parse_sym nr (st_to_ip (q_state q)) (mkAl (al_addr to_al) (al_map to_al) None);
    mret (negb (intel_pt_is_schedule_func from_al || intel_pt_is_schedule_func to_al))
  else mret true.

(** A branch that passes the filter by address is put to the other as well. *)
Definition intel_pt_synth_branch_sample (nr : Z) : SM Z :=
  q ← ptq nr;
  if thread__is_filter_by_tid tid_list (q_tid q) then mret 0
  else if ff_on filter then
    drop ← (if negb (Z.of_nat (length (ff_syms filter)) =? 0) then intel_pt_func_filter_by_ip nr else mret false);
    if (drop : bool) then mret 0
    else
      drop ← intel_pt_func_filter_by_sym nr;
      if (drop : bool) then mret 0 else intel_pt_synth_branch_sample_low pt nr
  else intel_pt_synth_branch_sample_low pt nr.
End filter.
