(* ===== verification/PtSample.v ===== *)
(** What is made of one state of a decoder: [intel_pt_sample] of
    tools/perf/util/intel-pt.c, with the thread that a queue traces and the
    synchronisation with context switches. *)
From Stdlib Require Import ZArith Lia List Bool.
From stdpp Require Import gmap.
From S2P Require Import Prelude PktDecoder PtState PtTime PtInsn AuxHeap AuxQueues PtTimeRange PtSession PtConfig.
From S2P Require Import ThreadStack PtSynth PtPebs PtFilter.
Open Scope Z_scope.
Open Scope c_scope.
Import ListNotations.

Section sample.
Context {CR E : Type} `{SessionEnv E} `{PerfEnv}.
Context (pt : session_config) (filter : func_filter) (tid_list : option (list Z)).
(** The callback of the call/return processor, which a stack of
    [thread_stack__event] does not call, and the contents of new memory. *)
Context (process : call_return -> option Z -> CR -> Z * Z * CR) (garbage : thread_stack_entry).
Abbreviation SM := (SM CR E).
Abbreviation ptq := (@ptq CR E).
Abbreviation upd_ptq := (@upd_ptq CR E).

(** ** The thread of a queue *)

(** [&pt->queues.queue_array[nr]] *)
Definition queue_of (nr : Z) : SM auxtrace_queue := queues ← sgets s_queues; snull (idx (queue_array queues) nr).

Definition no_guest (q : intel_pt_queue) : intel_pt_queue :=
  q <| q_guest_machine := None |> <| q_guest_thread := None |> <| q_unknown_guest_thread := None |>.

(** After the machine of the guest: its thread. *)
Definition guest_thread_from_sideband (nr machine machine_pid : Z) : SM Z :=
  q ← ptq nr;
  env ← sgets s_env;
  let vcpu := match q_thread q with Some th => thread_guest_cpu th env | None => -1 end in
  if vcpu <? 0 then mret (-1)
  else
    let tid := machine__get_current_tid machine vcpu env in
    let thread :=
      match q_guest_thread q with
      | Some th => if th_tid (get_thread th env) =? tid then Some th else machine__find_thread machine (-1) tid env
      | None => machine__find_thread machine (-1) tid env
      end in
    upd_ptq nr (fun q => q <| q_guest_thread := thread |>);;
    match thread with
    | None => mret (-1)
    | Some th =>
      upd_ptq nr (fun q => q <| q_guest_machine_pid := machine_pid |> <| q_guest_pid := th_pid (get_thread th env) |>
        <| q_guest_tid := tid |> <| q_vcpu := vcpu |>);;
      mret 0
    end.

Definition intel_pt_get_guest_from_sideband (nr : Z) : SM Z :=
  q ← ptq nr;
  env ← sgets s_env;
  let machine_pid := q_pid q in
  if machine_pid <=? 0 then mret 0
  else
    match machines__find machine_pid env with
    | None => mret 0
    | Some machine =>
      if negb (bool_decide (q_guest_machine q = Some machine)) then
        match machine__find_thread machine 0 0 env with
        | None => upd_ptq nr no_guest;; mret (-1)
        | Some th =>
          upd_ptq nr (fun q => no_guest q <| q_unknown_guest_thread := Some th |> <| q_guest_machine := Some machine |>);;
          guest_thread_from_sideband nr machine machine_pid
        end
      else guest_thread_from_sideband nr machine machine_pid
    end.

Definition intel_pt_set_pid_tid_cpu (nr : Z) : SM unit :=
  queue ← queue_of nr;
  (if (aq_tid queue =? -1) || negb (c_have_sched_switch pt =? 0) then
     q ← ptq nr;
     tid ← sgets (fun s => machine__get_current_tid (c_machine pt) (q_cpu q) (s_env s));
     upd_ptq nr (fun q => q <| q_tid := tid |> <| q_pid := if tid =? -1 then -1 else q_pid q |> <| q_thread := None |>)
   else mret tt);;
  q ← ptq nr;
  (match q_thread q with
   | None =>
     if negb (q_tid q =? -1) then
       th ← sgets (fun s => machine__find_thread (c_machine pt) (-1) (q_tid q) (s_env s));
       upd_ptq nr (fun q => q <| q_thread := th |>)
     else mret tt
   | Some _ => mret tt
   end);;
  q ← ptq nr;
  (match q_thread q with
   | Some th =>
     env ← sgets s_env;
     upd_ptq nr (fun q => q <| q_pid := th_pid (get_thread th env) |>
       <| q_cpu := if aq_cpu queue =? -1 then thread_cpu th env else q_cpu q |>)
   | None => mret tt
   end);;
  sideband ← sgets s_have_guest_sideband;
  if (sideband : bool) then
    err ← intel_pt_get_guest_from_sideband nr;
    if negb (err =? 0) then
      upd_ptq nr (fun q => q <| q_guest_machine_pid := 0 |> <| q_guest_pid := -1 |> <| q_guest_tid := -1 |> <| q_vcpu := -1 |>)
    else mret tt
  else mret tt.

Definition intel_pt_next_tid (nr : Z) : SM Z :=
  q ← ptq nr;
  let tid := q_next_tid q in
  if tid =? -1 then mret 0
  else
    err ← scall (machine__set_current_tid (c_machine pt) (q_cpu q) (-1) tid);
    intel_pt_set_pid_tid_cpu (q_queue_nr q);;
    upd_ptq nr (fun q => q <| q_next_tid := -1 |>);;
    mret err.

(** ** Flags of a sample *)

Definition PERF_IP_FLAG_INTR_DISABLE : Z := 1 .<< 13.
Definition PERF_IP_FLAG_INTR_TOGGLE : Z := 1 .<< 14.

Definition branch_flags (st : intel_pt_state) : Z :=
  if negb (st_flags st .& INTEL_PT_ABORT_TX =? 0) then PERF_IP_FLAG_BRANCH .| PERF_IP_FLAG_TX_ABORT
  else if negb (st_flags st .& INTEL_PT_ASYNC =? 0) then
    if st_to_ip st =? 0 then PERF_IP_FLAG_BRANCH .| PERF_IP_FLAG_TRACE_END
    else if st_from_nr st && negb (st_to_nr st) then PERF_IP_FLAG_BRANCH .| PERF_IP_FLAG_CALL .| PERF_IP_FLAG_VMEXIT
    else PERF_IP_FLAG_BRANCH .| PERF_IP_FLAG_CALL .| PERF_IP_FLAG_ASYNC .| PERF_IP_FLAG_INTERRUPT
  else
    (if negb (st_from_ip st =? 0) then intel_pt_insn_type (st_insn_op st) else PERF_IP_FLAG_BRANCH .| PERF_IP_FLAG_TRACE_BEGIN)
    .| flag (negb (st_flags st .& INTEL_PT_IN_TX =? 0)) PERF_IP_FLAG_IN_TX.

Definition interrupt_flags (st : intel_pt_state) : Z :=
  if negb (c_cap_event_trace pt) then 0
  else if negb (st_type st .& INTEL_PT_IFLAG_CHG =? 0) then
    flag (negb (st_from_iflag st)) PERF_IP_FLAG_INTR_DISABLE
    .| flag (negb (Bool.eqb (st_from_iflag st) (st_to_iflag st))) PERF_IP_FLAG_INTR_TOGGLE
  else flag (negb (st_to_iflag st)) PERF_IP_FLAG_INTR_DISABLE.

Definition sample_flags (st : intel_pt_state) (q : intel_pt_queue) : intel_pt_queue :=
  let plain := (st_flags st .& INTEL_PT_ABORT_TX =? 0) && (st_flags st .& INTEL_PT_ASYNC =? 0) in
  q <| q_insn_len := if plain then st_insn_len st else 0 |> <| q_insn := if plain then st_insn st else q_insn q |>
    <| q_flags := branch_flags st
         .| flag (negb (st_type st .& INTEL_PT_TRACE_BEGIN =? 0)) PERF_IP_FLAG_TRACE_BEGIN
         .| flag (negb (st_type st .& INTEL_PT_TRACE_END =? 0)) PERF_IP_FLAG_TRACE_END
         .| interrupt_flags st |>.
Definition intel_pt_sample_flags (nr : Z) : SM unit := upd_ptq nr (fun q => sample_flags (q_state q) q).

Definition intel_pt_is_switch_ip (s : session CR E) (q : intel_pt_queue) (ip : Z) : bool :=
  (ip =? s_switch_ip s) && negb (q_flags q .& PERF_IP_FLAG_BRANCH =? 0)
  && (q_flags q .& (PERF_IP_FLAG_CONDITIONAL .| PERF_IP_FLAG_ASYNC .| PERF_IP_FLAG_INTERRUPT .| PERF_IP_FLAG_TX_ABORT) =? 0).

(** ** Samples of a state *)

(** A function on the thread stacks of the queue's thread; its result, unless the
    queue has no thread. *)
Definition on_thread_stack {A} (nr : Z) (m : ThreadStack.M (ThreadStack.thread * world CR) A) : SM (option A) :=
  q ← ptq nr;
  match q_thread q with
  | None => mret None
  | Some th =>
    x ← sgets (fun s => m (get_thread th (s_env s), s_world s));
    '(a, (t, w)) ← snull x;
    smodify (fun s => s <| s_env := put_thread th t (s_env s) |> <| s_world := w |>);;
    mret (Some a)
  end.

Definition sample_ipc (st : intel_pt_state) (q : intel_pt_queue) : intel_pt_queue :=
  let approx := so_approx_ipc (c_synth_opts pt) in
  q <| q_ipc_insn_cnt := st_tot_insn_cnt st |> <| q_ipc_cyc_cnt := if approx then st_cycles st else st_tot_cyc_cnt st |>
    <| q_sample_ipc := approx || negb (st_flags st .& INTEL_PT_SAMPLE_IPC =? 0) |>.

(** The samples of events, before those of instructions and branches. *)
Definition sample_events (nr : Z) : SM Z :=
  q ← ptq nr;
  let st := q_state q in
  let has_type (type : Z) := negb (st_type st .& type =? 0) in
  let intr := so_intr_events (c_synth_opts pt) in
  let pwr := c_sample_pwr_events pt in
  s_ok (s_when (c_sample_pebs pt && has_type INTEL_PT_BLK_ITEMS) (intel_pt_synth_pebs_sample pt nr))
  (s_ok (s_when (intr && has_type INTEL_PT_EVT) (intel_pt_synth_events_sample pt nr))
  (s_ok (s_when (intr && has_type INTEL_PT_IFLAG_CHG) (intel_pt_synth_iflag_chg_sample pt nr))
  (s_ok (s_when (pwr && has_type INTEL_PT_PSB_EVT) (intel_pt_synth_psb_sample pt nr))
  (s_ok (s_when (pwr && negb (st_cbr st =? q_cbr_seen q)) (intel_pt_synth_cbr_sample pt nr))
  (s_ok (s_when (pwr && has_type INTEL_PT_MWAIT_OP) (intel_pt_synth_mwait_sample pt nr))
  (s_ok (s_when (pwr && has_type INTEL_PT_PWR_ENTRY) (intel_pt_synth_pwre_sample pt nr))
  (s_ok (s_when (pwr && has_type INTEL_PT_EX_STOP) (intel_pt_synth_exstop_sample pt nr))
        (s_when (pwr && has_type INTEL_PT_PWR_EXIT) (intel_pt_synth_pwrx_sample pt nr))))))))).

Definition sample_instructions (nr : Z) : SM Z :=
  q ← ptq nr;
  let has_type (type : Z) := negb (st_type (q_state q) .& type =? 0) in
  s_ok (s_when (has_type INTEL_PT_INSTRUCTION && k_on (c_instructions pt)) (intel_pt_synth_instruction_sample pt nr))
  (s_ok (s_when (has_type INTEL_PT_INSTRUCTION && k_on (c_cycles pt)) (intel_pt_synth_cycle_sample pt nr))
  (s_ok (s_when (k_on (c_transactions pt) && has_type INTEL_PT_TRANSACTION) (intel_pt_synth_transaction_sample pt nr))
        (s_when (k_on (c_ptwrites pt) && has_type INTEL_PT_PTW) (intel_pt_synth_ptwrite_sample pt nr)))).

(** [st->from_ip], [st->to_ip]: the state is the decoder's. *)
Definition set_ips (from_ip to_ip : Z) (q : intel_pt_queue) : intel_pt_queue :=
  q <| q_decoder ::= fun d => d <| st st_from_ip := from_ip |> <| st st_to_ip := to_ip |> |>.

(** A branch between guest and host is two. *)
Definition sample_branch (nr : Z) : SM Z :=
  q ← ptq nr;
  let st := q_state q in
  let from_ip := st_from_ip st in
  let to_ip := st_to_ip st in
  let synth := intel_pt_synth_branch_sample pt filter tid_list nr in
  if negb (Bool.eqb (st_from_nr st) (st_to_nr st)) && negb (from_ip =? 0) && negb (to_ip =? 0) then
    upd_ptq nr (set_ips from_ip 0);;
    s_ok synth
      (upd_ptq nr (set_ips 0 to_ip);;
       err ← synth;
       upd_ptq nr (set_ips from_ip to_ip);;
       mret err)
  else synth.

Definition update_thread_stack (nr : Z) : SM unit :=
  q ← ptq nr;
  let st := q_state q in
  if c_use_thread_stack pt then
    on_thread_stack nr (thread_stack__event process garbage (q_cpu q) (q_flags q) (st_from_ip st) (st_to_ip st) (q_insn_len q)
      (st_trace_nr st) (c_callstack pt) (c_br_stack_sz_plus pt) (c_mispred_all pt));; mret tt
  else on_thread_stack nr (thread_stack__set_trace_nr process (q_cpu q) (st_trace_nr st));; mret tt.

Definition set_switch_state (nr : Z) (ss : switch_state) : SM unit := upd_ptq nr (fun q => q <| q_switch_state := ss |>).

(** Context switches in the trace; 1 stops the queue until the event comes. *)
Definition sample_switch (nr : Z) : SM Z :=
  q ← ptq nr;
  s ← sgets id;
  let to_ip := st_to_ip (q_state q) in
  if negb (q_sync_switch q) then mret 0
  else if intel_pt_is_switch_ip s q to_ip then
    match q_switch_state q with
    | INTEL_PT_SS_NOT_TRACING | INTEL_PT_SS_UNKNOWN | INTEL_PT_SS_EXPECTING_SWITCH_IP =>
      s_ok (intel_pt_next_tid nr) (set_switch_state nr INTEL_PT_SS_TRACING;; mret 0)
    | _ => set_switch_state nr INTEL_PT_SS_EXPECTING_SWITCH_EVENT;; mret 1
    end
  else if to_ip =? 0 then set_switch_state nr INTEL_PT_SS_NOT_TRACING;; mret 0
  else
    match q_switch_state q with
    | INTEL_PT_SS_NOT_TRACING => set_switch_state nr INTEL_PT_SS_UNKNOWN;; mret 0
    | INTEL_PT_SS_UNKNOWN =>
      if (to_ip =? s_ptss_ip s) && negb (q_flags q .& PERF_IP_FLAG_CALL =? 0) then set_switch_state nr INTEL_PT_SS_TRACING;; mret 0
      else mret 0
    | _ => mret 0
    end.

Definition intel_pt_sample (nr : Z) : SM Z :=
  q ← ptq nr;
  if negb (q_have_sample q) then mret 0
  else
    let st := q_state q in
    upd_ptq nr (fun q => sample_ipc st (q <| q_have_sample := false |>));;
    (if symbol_conf_guest_code && (st_from_nr st || st_to_nr st) then intel_pt_get_guest nr else mret 0);;
    s_ok (sample_events nr)
    (s_ok (sample_instructions nr)
    (if st_type st .& INTEL_PT_BRANCH =? 0 then mret 0
     else
       update_thread_stack nr;;
       s_ok (s_when (k_on (c_branches pt)) (sample_branch nr)) (sample_switch nr))).
End sample.
