(* ===== verification/PtQueues.v ===== *)
(** The session that decodes: the queues in the order of time, context switches
    and the handling of events of tools/perf/util/intel-pt.c. *)
From Stdlib Require Import ZArith Lia List Bool String.
From stdpp Require Import gmap.
From S2P Require Import Prelude Float64 PktDecoder PtStack PtState PtTime PtReader PtDecode AuxHeap AuxQueues PtTimeRange PtSession PtConfig.
From S2P Require Import ThreadStack ThreadSample PtSynth PtPebs PtFilter PtSample.
Open Scope Z_scope.
Open Scope c_scope.
Import ListNotations.

(** ** Decoders

    What a session asks of the decoder of a queue.  A callback is given the queue
    ([ptq] is its data) and the rest of the session. *)
Class Decoders (E : Type) := {
  decode : intel_pt_queue -> E -> outcome (intel_pt_queue * E);
  fast_forward : Z -> intel_pt_queue -> E -> outcome (Z * intel_pt_queue * E)
}.

(** The decoder of intel-pt-decoder.c, in a callback of which the decoder within
    the queue is that of before the call. *)
Section pt_decoders.
Context {E : Type} `{Platform} `{Callbacks (intel_pt_queue * E)} `{Fuel}.
Definition with_decoder {A} (m : PtState.M (intel_pt_queue * E) A) (q : intel_pt_queue) (e : E) : outcome (A * intel_pt_queue * E) :=
  match m (q_decoder q) (q, e) with
  | Ret (a, d, (q, e)) => Ret (a, q <| q_decoder := d |>, e)
  | Fault => Fault
  | OutOfFuel => OutOfFuel
  end.
Definition pt_decoders : Decoders E := {|
  decode q e := match with_decoder intel_pt_decode q e with
                | Ret (_, q, e) => Ret (q, e)
                | Fault => Fault
                | OutOfFuel => OutOfFuel
                end;
  fast_forward timestamp := with_decoder (intel_pt_fast_forward timestamp)
|}.
End pt_decoders.

(** ** Events *)

Definition PERF_RECORD_EXIT : Z := 4.
Definition PERF_RECORD_SAMPLE : Z := 9.
Definition PERF_RECORD_AUX : Z := 11.
Definition PERF_RECORD_ITRACE_START : Z := 12.
Definition PERF_RECORD_SWITCH : Z := 14.
Definition PERF_RECORD_SWITCH_CPU_WIDE : Z := 15.
Definition PERF_RECORD_TEXT_POKE : Z := 20.
Definition PERF_RECORD_AUX_OUTPUT_HW_ID : Z := 21.
Definition PERF_RECORD_MISC_SWITCH_OUT : Z := 1 .<< 13.
Definition PERF_RECORD_MISC_CPUMODE_MASK : Z := 7.
Definition PERF_AUX_FLAG_TRUNCATED : Z := 1.
Definition MAX_TIMESTAMP : Z := 2 ^ 64 - 1.
Definition LBRS_MAX : Z := INTEL_PT_BLK_ITEM_ID_CNT * 3.

(** [union perf_event]: the type and [misc] of the header, and of the members
    those that are read: the thread of an exit, the flags of a lost buffer, the
    thread switched to, the thread whose trace starts, a hardware id. *)
Record perf_event := mkPe {
  pe_type : Z;
  pe_misc : Z;
  pe_fork_tid : Z;
  pe_aux_flags : Z;
  pe_next_prev_pid : Z;
  pe_next_prev_tid : Z;
  pe_itrace_start_pid : Z;
  pe_itrace_start_tid : Z;
  pe_hw_id : Z
}.

(** The rest of what an event asks: its events by id, the thread of a
    sched_switch sample, and the size of trace sampled with an event. *)
Class EventEnv (E : Type) := {
  evlist__id2evsel : Z -> option Z;
  evlist__id2evsel_strict : Z -> option evsel;
  (* [sid->idx] *)
  evlist__id2sid : Z -> option Z;
  evsel__next_pid : perf_sample -> Z;
  aux_sample_size : perf_sample -> Z;
  set_current_decode : Z -> Z -> E -> E;
  (* [intel_pt_text_poke], as in PtCode *)
  text_poke : perf_event -> E -> Z * E;
  dump_trace : bool;
  tool_ordered_events : bool
}.

Definition perf_event__is_guest (event : perf_event) : bool :=
  let cpumode := pe_misc event .& PERF_RECORD_MISC_CPUMODE_MASK in
  (cpumode =? PERF_RECORD_MISC_GUEST_KERNEL) || (cpumode =? PERF_RECORD_MISC_GUEST_USER).

Section queues.
Context {CR E : Type} `{SessionEnv E} `{PerfEnv} `{Decoders E} `{EventEnv E}.
Context (pt : session_config) (filter : func_filter) (tid_list : option (list Z)).
Context (process : call_return -> option Z -> CR -> Z * Z * CR) (garbage : thread_stack_entry) (uninit : heap_item).
Context (fuel : nat).
Abbreviation SM := (SM CR E).
Abbreviation ptq := (@ptq CR E).
Abbreviation upd_ptq := (@upd_ptq CR E).
Abbreviation intel_pt_sample := (@intel_pt_sample CR E _ _ pt filter tid_list process garbage).
Abbreviation intel_pt_next_tid := (@intel_pt_next_tid CR E _ pt).
Abbreviation intel_pt_set_pid_tid_cpu := (@intel_pt_set_pid_tid_cpu CR E _ pt).

(** [thread__zput], calls of the decoder, allocations and the heap. *)
Definition run_decode (nr : Z) : SM intel_pt_state := fun s =>
  match s_ptqs s !! nr with
  | None => Fault
  | Some q =>
    match decode q (s_env s) with
    | Ret (q, e) => Ret (q_state q, s <| s_ptqs := <[nr := q]> (s_ptqs s) |> <| s_env := e |>)
    | Fault => Fault
    | OutOfFuel => OutOfFuel
    end
  end.
Definition run_fast_forward (nr timestamp : Z) : SM Z := fun s =>
  match s_ptqs s !! nr with
  | None => Fault
  | Some q =>
    match fast_forward timestamp q (s_env s) with
    | Ret (err, q, e) => Ret (err, s <| s_ptqs := <[nr := q]> (s_ptqs s) |> <| s_env := e |>)
    | Fault => Fault
    | OutOfFuel => OutOfFuel
    end
  end.
Definition alloc : SM bool := fun s =>
  let w := s_world s in
  Ret (w_allocs w 0%nat, s <| s_world := mkWorld (w_cpr w) (next_allocs (w_allocs w)) (w_data w) |>).
Definition heap_add (nr ordinal : Z) : SM Z :=
  heap ← sgets s_heap;
  ok ← (if heap_sz heap <=? nr then alloc else mret true);
  '(err, heap) ← snull (auxtrace_heap__add uninit ok heap nr ordinal);
  smodify (fun s => s <| s_heap := heap |>);;
  mret err.
Definition heap_pop : SM unit :=
  heap ← sgets s_heap;
  heap ← snull (auxtrace_heap__pop heap);
  smodify (fun s => s <| s_heap := heap |>).

(** The queues from [i] on, [n] of them, that have a [ptq]. *)
Fixpoint for_ptqs (f : Z -> SM unit) (n : nat) (i : Z) : SM unit :=
  match n with
  | O => mret tt
  | S n =>
    ptqs ← sgets s_ptqs;
    (if bool_decide (is_Some (ptqs !! i)) then f i else mret tt);;
    for_ptqs f n (i + 1)
  end.
Definition each_ptq (f : Z -> SM unit) : SM unit :=
  queues ← sgets s_queues; for_ptqs f (Z.to_nat (nr_queues queues)) 0.

(** ** Setting up queues *)

Definition zero_queue : intel_pt_queue :=
  mkQ 0 zero_decoder None None false false false false false 0 0 0 INTEL_PT_SS_NOT_TRACING 0 None None None None 0 0 0 0
    false false 0 0 0 false 0 0 0 0 0 0 0 0 0 0 0 0 0 (replicate 16 Byte.x00) (replicate 64 None).

(** The new [ptq], unless memory runs out. *)
Definition intel_pt_alloc_queue (nr : Z) : SM (option intel_pt_queue) :=
  let o := c_synth_opts pt in
  ok ← alloc;
  if negb ok then mret None
  else
    ok ← (if so_callchain o then alloc else mret true);
    if negb ok then mret None
    else
      ok ← (if so_last_branch o || so_other_events o then alloc else mret true);
      if negb ok then mret None
      else
        ok ← alloc;
        if negb ok then mret None
        else
          ok ← alloc;
          first_timestamp ← sgets s_first_timestamp;
          decoder ← snull (intel_pt_decoder_new ok (queue_params pt first_timestamp));
          mret (decoder ← decoder;
                Some (zero_queue <| q_decoder := decoder |> <| q_queue_nr := nr |>
                  <| q_chain := if so_callchain o then Some (u32 (so_callchain_sz o + 1)) else None |>
                  <| q_last_branch := if so_last_branch o || so_other_events o then Some (Z.max LBRS_MAX (c_br_stack_sz pt)) else None |>
                  <| q_exclude_kernel := intel_pt_exclude_kernel pt |>
                  <| q_pid := -1 |> <| q_tid := -1 |> <| q_cpu := -1 |> <| q_next_tid := -1 |>)).

Definition intel_pt_setup_time_range (q : intel_pt_queue) : intel_pt_queue :=
  match c_ranges pt with
  | [] => q
  | r :: _ =>
    if negb (r_start r =? 0) then q <| q_sel_timestamp := r_start r |> <| q_sel_idx := 0 |> <| q_sel_start := true |>
    else q <| q_sel_timestamp := r_end r |> <| q_sel_idx := 0 |> <| q_sel_start := false |>
  end.

(** Decodes up to the first state with a time; false when there is none. *)
Fixpoint first_time_loop (nr : Z) (n : nat) : SM bool :=
  match n with
  | O => fun _ => OutOfFuel
  | S n =>
    state ← run_decode nr;
    if negb (st_err state =? 0) then
      if st_err state =? INTEL_PT_ERR_NODATA then mret false else first_time_loop nr n
    else if negb (st_timestamp state =? 0) then mret true
    else first_time_loop nr n
  end.

Definition current_decode (nr : Z) : SM unit :=
  q ← ptq nr; smodify (fun s => s <| s_env ::= set_current_decode (q_cpu q) (q_tid q) |>).

(** Puts the queue on the heap. *)
Definition start_queue (nr : Z) : SM Z :=
  q ← ptq nr;
  s_ok (if q_sel_start q && negb (q_sel_timestamp q =? 0) then run_fast_forward nr (q_sel_timestamp q) else mret 0)
  (current_decode nr;;
   found ← first_time_loop nr fuel;
   if negb found then mret 0
   else
     upd_ptq nr (fun q =>
       let q := q <| q_timestamp := st_timestamp (q_state q) |> in
       q <| q_have_sample := negb (q_sel_start q && negb (q_sel_timestamp q =? 0) && (q_timestamp q <? q_sel_timestamp q)) |>);;
     intel_pt_sample_flags pt nr;;
     q ← ptq nr;
     s_ok (heap_add nr (q_timestamp q)) (upd_ptq nr (fun q => q <| q_on_heap := true |>);; mret 0)).

Definition intel_pt_setup_queue (nr : Z) : SM Z :=
  queue ← queue_of nr;
  ptqs ← sgets s_ptqs;
  if bool_decide (aq_head queue = []) then mret 0
  else
    s_ok (match ptqs !! nr with
          | Some _ => mret 0
          | None =>
            q ← intel_pt_alloc_queue nr;
            match q with
            | None => mret (- ENOMEM)
            | Some q =>
              sync_switch ← sgets s_sync_switch;
              let q := q <| q_cpu := if negb (aq_cpu queue =? -1) then aq_cpu queue else q_cpu q |>
                <| q_tid := aq_tid queue |> <| q_cbr_seen := 2 ^ 32 - 1 |>
                <| q_step_through_buffers := c_sampling_mode pt && negb (c_snapshot_mode pt) && c_timeless_decoding pt |>
                <| q_sync_switch := sync_switch |> in
              smodify (fun s => s <| s_ptqs := <[nr := intel_pt_setup_time_range q]> (s_ptqs s) |>);;
              mret 0
            end
          end)
    (q ← ptq nr;
     if negb (q_on_heap q)
        && (negb (q_sync_switch q) || match q_switch_state q with INTEL_PT_SS_EXPECTING_SWITCH_EVENT => false | _ => true end)
     then if c_timeless_decoding pt then mret 0 else start_queue nr
     else mret 0).

Fixpoint setup_loop (n : nat) (i : Z) : SM Z :=
  match n with
  | O => mret 0
  | S n => s_ok (intel_pt_setup_queue i) (setup_loop n (i + 1))
  end.
Definition intel_pt_setup_queues : SM Z := queues ← sgets s_queues; setup_loop (Z.to_nat (nr_queues queues)) 0.

Definition intel_pt_update_queues : SM Z :=
  queues ← sgets s_queues;
  if new_data queues then
    smodify (fun s => s <| s_queues := mkQueues (queue_array queues) (nr_queues queues) false (populated queues) (next_buffer_nr queues) |>);;
    intel_pt_setup_queues
  else mret 0.

Definition intel_pt_first_timestamp (timestamp : Z) : SM unit :=
  smodify (fun s => s <| s_first_timestamp := timestamp |>);;
  each_ptq (fun i => upd_ptq i (fun q => q <| q_decoder := intel_pt_set_first_timestamp (q_decoder q) timestamp |>)).

(** ** Running a decoder *)

Definition in_map (map : kernel_map) (ip : Z) : bool := (km_start map <=? ip) && (ip <? km_end map).
Fixpoint find_kernel_symbol (map : kernel_map) (wanted : bool -> string -> bool) (symbols : list (bool * string * Z)) : Z :=
  match symbols with
  | [] => 0
  | (global, name, ip) :: symbols => if wanted global name && in_map map ip then ip else find_kernel_symbol map wanted symbols
  end.
(** The address of [__switch_to], and [*ptss_ip]. *)
Definition intel_pt_switch_ip (map : option kernel_map) : Z * Z :=
  match map with
  | None => (0, 0)
  | Some map =>
    if km_load_error map then (0, 0)
    else
      let switch_ip := find_kernel_symbol map (fun global name => global && String.eqb name "__switch_to") (km_symbols map) in
      if switch_ip =? 0 then (0, 0)
      else
        let ptss := if c_have_sched_switch pt =? 1 then "perf_trace_sched_switch"%string else "__perf_event_task_sched_out"%string in
        (switch_ip, find_kernel_symbol map (fun _ name => String.eqb name ptss) (km_symbols map))
  end.

Definition intel_pt_enable_sync_switch : SM unit :=
  no ← sgets s_sync_switch_not_supported;
  if (no : bool) then mret tt
  else
    smodify (fun s => s <| s_sync_switch := true |>);;
    each_ptq (fun i => upd_ptq i (fun q => q <| q_sync_switch := true |>)).

Definition intel_pt_disable_sync_switch : SM unit :=
  smodify (fun s => s <| s_sync_switch := false |>);;
  each_ptq (fun i => upd_ptq i (fun q => q <| q_sync_switch := false |>);; intel_pt_next_tid i;; mret tt).

Definition time_view (q : intel_pt_queue) : time_queue :=
  mkTq (q_sync_switch q) (q_switch_state q) (q_have_sample q) (q_timestamp q) (q_sel_timestamp q) (q_sel_start q) (q_sel_idx q).
Definition set_time_view (v : time_queue) (q : intel_pt_queue) : intel_pt_queue :=
  q <| q_sel_timestamp := tq_sel_timestamp v |> <| q_sel_start := tq_sel_start v |> <| q_sel_idx := tq_sel_idx v |>.

(** The return value and [*ff_timestamp]. *)
Definition intel_pt_time_filter (nr ff_timestamp : Z) : SM (Z * Z) :=
  q ← ptq nr;
  '(end_, v) ← (fun s => match filter_loop (c_ranges pt) fuel (time_view q) with
                         | Ret r => Ret (r, s)
                         | Fault => Fault
                         | OutOfFuel => OutOfFuel
                         end);
  upd_ptq nr (set_time_view v);;
  match end_ with
  | FilterWithin => mret (0, ff_timestamp)
  | FilterBefore =>
    upd_ptq nr (fun q => q <| q_have_sample := false |>);;
    if ff_timestamp <? tq_sel_timestamp v then
      (if q_sync_switch q then
         intel_pt_next_tid nr;; upd_ptq nr (fun q => q <| q_switch_state := INTEL_PT_SS_UNKNOWN |>)
       else mret tt);;
      err ← run_fast_forward nr (tq_sel_timestamp v);
      mret (err, tq_sel_timestamp v)
    else mret (0, ff_timestamp)
  | FilterPast =>
    upd_ptq nr (fun q => q <| q_have_sample := false |> <| q_switch_state := INTEL_PT_SS_NOT_TRACING |>);;
    mret (1, ff_timestamp)
  end.

(** The first part of [intel_pt_run_decoder], done once. *)
Definition find_kernel : SM unit :=
  ks ← sgets s_kernel_start;
  if negb (ks =? 0) then mret tt
  else
    smodify (fun s => s <| s_kernel_start := machine__kernel_start (c_machine pt) (s_env s) |>);;
    if c_per_cpu_mmaps pt && ((c_have_sched_switch pt =? 1) || (c_have_sched_switch pt =? 3)) && negb (c_timeless_decoding pt)
       && intel_pt_tracing_kernel pt && negb (c_sampling_mode pt) && negb (so_vm_time_correlation (c_synth_opts pt))
    then
      map ← sgets (fun s => machine__kernel_map (c_machine pt) (s_env s));
      let '(switch_ip, ptss_ip) := intel_pt_switch_ip map in
      smodify (fun s => s <| s_switch_ip := switch_ip |> <| s_ptss_ip := ptss_ip |>);;
      if negb (switch_ip =? 0) then intel_pt_enable_sync_switch else mret tt
    else mret tt.

(** After an error of the decoder. *)
Definition decode_failed (nr : Z) : SM Z :=
  q ← ptq nr;
  ks ← sgets s_kernel_start;
  let state := q_state q in
  (if q_sync_switch q && (ks <=? st_from_ip state) then
     upd_ptq nr (fun q => q <| q_sync_switch := false |>);; intel_pt_next_tid nr;; mret tt
   else mret tt);;
  upd_ptq nr (fun q => q <| q_timestamp := st_est_timestamp state |>);;
  s_when (so_errors (c_synth_opts pt)) (intel_ptq_synth_error pt nr).

(** The time of the queue after a state. *)
Definition sample_time (s : session CR E) (state : intel_pt_state) (q : intel_pt_queue) : Z :=
  let ks := s_kernel_start s in
  if c_est_tsc pt && ((ks <=? st_from_ip state) || (st_from_ip state =? 0))
     && negb (st_to_ip state =? 0) && (st_to_ip state <? ks) then st_est_timestamp state
  else if q_sync_switch q && match q_switch_state q with INTEL_PT_SS_UNKNOWN => true | _ => false end
          && intel_pt_is_switch_ip s q (st_to_ip state) && (q_next_tid q =? -1) then st_est_timestamp state
  else Z.max (q_timestamp q) (st_timestamp state).

(** The loop; the result is the return value and [*timestamp]. *)
Fixpoint run_loop (nr timestamp ff_timestamp : Z) (n : nat) : SM (Z * Z) :=
  match n with
  | O => fun _ => OutOfFuel
  | S n =>
    err ← intel_pt_sample nr;
    if negb (err =? 0) then mret (err, timestamp)
    else
      state ← run_decode nr;
      if negb (st_err state =? 0) then
        if st_err state =? INTEL_PT_ERR_NODATA then mret (1, timestamp)
        else
          err ← decode_failed nr;
          if negb (err =? 0) then mret (err, timestamp) else run_loop nr timestamp ff_timestamp n
      else
        upd_ptq nr (fun q => q <| q_have_sample := true |>);;
        intel_pt_sample_flags pt nr;;
        s ← sgets id;
        upd_ptq nr (fun q => q <| q_timestamp := sample_time s state q |>);;
        q ← ptq nr;
        '(err, ff_timestamp) ←
          (if negb (q_sel_timestamp q =? 0) then intel_pt_time_filter nr ff_timestamp else mret (0, ff_timestamp));
        if negb (err =? 0) then mret (err, timestamp)
        else if negb (c_timeless_decoding pt) && (timestamp <=? q_timestamp q) then mret (0, q_timestamp q)
        else run_loop nr timestamp ff_timestamp n
  end.
Definition intel_pt_run_decoder (nr timestamp : Z) : SM (Z * Z) := find_kernel;; run_loop nr timestamp 0 fuel.

(** ** The queues in the order of time *)

(** One turn of the loop of [intel_pt_process_queues]: the queue that is first,
    up to [ts].  [None] goes on. *)
Definition process_first (timestamp : Z) : SM (option Z) :=
  heap ← sgets s_heap;
  if heap_cnt heap =? 0 then mret (Some 0)
  else
    top ← snull (idx (heap_array heap) 0);
    if timestamp <=? hi_ordinal top then mret (Some 0)
    else
      let nr := hi_queue_nr top in
      heap_pop;;
      heap ← sgets s_heap;
      ts ← (if negb (heap_cnt heap =? 0) then
              top ← snull (idx (heap_array heap) 0);
              mret (Z.min (u64 (hi_ordinal top + 1)) timestamp)
            else mret timestamp);
      intel_pt_set_pid_tid_cpu nr;;
      current_decode nr;;
      '(ret, ts) ← intel_pt_run_decoder nr ts;
      if ret <? 0 then heap_add nr ts;; mret (Some ret)
      else if ret =? 0 then
        ret ← heap_add nr ts;
        mret (if ret <? 0 then Some ret else None)
      else upd_ptq nr (fun q => q <| q_on_heap := false |>);; mret None.

Fixpoint process_loop (timestamp : Z) (n : nat) : SM Z :=
  match n with
  | O => fun _ => OutOfFuel
  | S n =>
    r ← process_first timestamp;
    match r with
    | Some ret => mret ret
    | None => process_loop timestamp n
    end
  end.
Definition intel_pt_process_queues (timestamp : Z) : SM Z := process_loop timestamp fuel.

Definition timeless_queue (tid time nr : Z) : SM unit :=
  q ← ptq nr;
  if (tid =? -1) || (q_tid q =? tid) then
    upd_ptq nr (fun q => q <| q_time := time |>);;
    intel_pt_set_pid_tid_cpu nr;;
    intel_pt_run_decoder nr 0;;
    mret tt
  else mret tt.
Definition intel_pt_process_timeless_queues (tid time : Z) : SM Z := each_ptq (timeless_queue tid time);; mret 0.

Definition auxtrace_queues__sample_queue (sample : perf_sample) : SM (option Z) :=
  queues ← sgets s_queues;
  mret (if ps_id sample =? 0 then None
        else match evlist__id2sid (ps_id sample) with
             | Some i => if nr_queues queues <=? i then None else Some i
             | None => None
             end).

Definition intel_pt_sample_set_pid_tid_cpu (nr : Z) (sample : perf_sample) : SM unit :=
  queue ← queue_of nr;
  let pid := s32 (ps_pid sample) in
  let tid := s32 (ps_tid sample) in
  upd_ptq nr (fun q => q <| q_pid := pid |> <| q_tid := tid |> <| q_cpu := aq_cpu queue |> <| q_thread := None |>);;
  if tid =? -1 then mret tt
  else if pid =? -1 then
    env ← sgets s_env;
    let th := machine__find_thread (c_machine pt) (-1) tid env in
    upd_ptq nr (fun q => q <| q_thread := th |>
      <| q_pid := match th with Some th => th_pid (get_thread th env) | None => pid end |>)
  else
    th ← scall (machine__findnew_thread (c_machine pt) pid tid);
    upd_ptq nr (fun q => q <| q_thread := th |>).

Definition intel_pt_process_timeless_sample (sample : perf_sample) : SM Z :=
  queue ← auxtrace_queues__sample_queue sample;
  ptqs ← sgets s_ptqs;
  match queue with
  | None => mret (- EINVAL)
  | Some nr =>
    match ptqs !! nr with
    | None => mret 0
    | Some _ =>
      upd_ptq nr (fun q => q <| q_stop := false |> <| q_time := ps_time sample |>);;
      intel_pt_sample_set_pid_tid_cpu nr sample;;
      intel_pt_run_decoder nr 0;;
      mret 0
    end
  end.

Definition intel_pt_lost (sample : perf_sample) : SM Z :=
  intel_pt_synth_error pt INTEL_PT_ERR_LOST (s32 (ps_cpu sample)) (s32 (ps_pid sample)) (s32 (ps_tid sample)) 0 (ps_time sample)
    (s32 (ps_machine_pid sample)) (s32 (ps_vcpu sample)).
End queues.
