(* ===== verification/PtEvents.v ===== *)
(** Events of a session: context switches, and [intel_pt_process_event] and
    [intel_pt_flush] of tools/perf/util/intel-pt.c. *)
From Stdlib Require Import ZArith Lia List Bool String.
From stdpp Require Import gmap.
From S2P Require Import Prelude PktDecoder PtState AuxHeap AuxQueues PtTimeRange PtSession PtConfig.
From S2P Require Import ThreadStack ThreadSample PtSynth PtPebs PtFilter PtSample PtQueues.
Open Scope Z_scope.
Open Scope c_scope.
Import ListNotations.

Section events.
Context {CR E : Type} `{SessionEnv E} `{PerfEnv} `{Decoders E} `{EventEnv E}.
Context (pt : session_config) (filter : func_filter) (tid_list : option (list Z)).
Context (process : call_return -> option Z -> CR -> Z * Z * CR) (garbage : thread_stack_entry) (uninit : heap_item).
Context (fuel : nat).
Abbreviation SM := (SM CR E).
Abbreviation ptq := (@ptq CR E).
Abbreviation upd_ptq := (@upd_ptq CR E).
Abbreviation heap_add := (@heap_add CR E uninit).
Abbreviation process_queues := (@intel_pt_process_queues CR E _ _ _ _ pt filter tid_list process garbage uninit fuel).
Abbreviation process_timeless_queues :=
  (@intel_pt_process_timeless_queues CR E _ _ _ pt filter tid_list process garbage fuel).
Abbreviation process_timeless_sample :=
  (@intel_pt_process_timeless_sample CR E _ _ _ _ pt filter tid_list process garbage fuel).
Abbreviation update_queues := (@intel_pt_update_queues CR E _ _ pt uninit fuel).

(** ** Context switches *)

(** The queue below [i] with this CPU, from [i - 1] down. *)
Fixpoint cpu_below (arr : list auxtrace_queue) (cpu : Z) (i : nat) : option Z :=
  match i with
  | O => None
  | S i => match arr !! i with
           | Some queue => if aq_cpu queue =? cpu then Some (Z.of_nat i) else cpu_below arr cpu i
           | None => None
           end
  end.
(** The first one with this CPU, from [j] up. *)
Fixpoint cpu_above (arr : list auxtrace_queue) (cpu j : Z) : option Z :=
  match arr with
  | [] => None
  | queue :: arr => if aq_cpu queue =? cpu then Some j else cpu_above arr cpu (j + 1)
  end.
(** The queue of a CPU, first where it should be.  [None] is no queue; the queue
    may have no [ptq]. *)
Definition cpu_to_queue (queues : auxtrace_queues) (cpu : Z) : option Z :=
  let nr := nr_queues queues in
  if (cpu <? 0) || (nr =? 0) then None
  else
    let i := if nr <=? cpu then nr - 1 else cpu in
    match idx (queue_array queues) i with
    | None => None
    | Some queue =>
      if aq_cpu queue =? cpu then Some i
      else
        match cpu_below (queue_array queues) cpu (Z.to_nat i) with
        | Some i => Some i
        | None => cpu_above (drop (Z.to_nat i) (queue_array queues)) cpu i
        end
    end.
(** The queue, if it has a [ptq]. *)
Definition intel_pt_cpu_to_ptq (cpu : Z) : SM (option Z) :=
  s ← sgets id;
  mret (nr ← cpu_to_queue (s_queues s) cpu; if bool_decide (is_Some (s_ptqs s !! nr)) then Some nr else None).

(** 1: the switch is to be made now. *)
Definition intel_pt_sync_switch (cpu tid timestamp : Z) : SM Z :=
  sync_switch ← sgets s_sync_switch;
  if negb sync_switch then mret 1
  else
    nr ← intel_pt_cpu_to_ptq cpu;
    match nr with
    | None => mret 1
    | Some nr =>
      q ← ptq nr;
      let done : SM Z := upd_ptq nr (fun q => q <| q_next_tid := -1 |>);; mret 1 in
      if negb (q_sync_switch q) then mret 1
      else
        match q_switch_state q with
        | INTEL_PT_SS_UNKNOWN | INTEL_PT_SS_TRACING =>
          upd_ptq nr (fun q => q <| q_next_tid := tid |> <| q_switch_state := INTEL_PT_SS_EXPECTING_SWITCH_IP |>);;
          mret 0
        | INTEL_PT_SS_EXPECTING_SWITCH_EVENT =>
          s_ok (if negb (q_on_heap q) then
                  let tsc := perf_time_to_tsc (c_tc pt) timestamp in
                  upd_ptq nr (fun q => q <| q_timestamp := tsc |>);;
                  s_ok (heap_add (q_queue_nr q) tsc) (upd_ptq nr (fun q => q <| q_on_heap := true |>);; mret 0)
                else mret 0)
            (set_switch_state nr INTEL_PT_SS_TRACING;; done)
        | INTEL_PT_SS_NOT_TRACING | INTEL_PT_SS_EXPECTING_SWITCH_IP => done
        end
    end.

(** [machine__set_current_tid], if the switch is to be made now. *)
Definition switch_now (cpu pid tid time : Z) : SM Z :=
  ret ← intel_pt_sync_switch cpu tid time;
  if ret <=? 0 then mret ret else scall (machine__set_current_tid (c_machine pt) cpu pid tid).

Definition intel_pt_process_switch (sample : perf_sample) : SM Z :=
  if negb (bool_decide (evlist__id2evsel (ps_id sample) = c_switch_evsel pt)) then mret 0
  else switch_now (s32 (ps_cpu sample)) (-1) (evsel__next_pid sample) (ps_time sample).

Definition intel_pt_context_switch_in (sample : perf_sample) : SM Z :=
  let pid := s32 (ps_pid sample) in
  let tid := s32 (ps_tid sample) in
  let cpu := s32 (ps_cpu sample) in
  sync_switch ← sgets s_sync_switch;
  (if (sync_switch : bool) then
     nr ← intel_pt_cpu_to_ptq cpu;
     match nr with
     | None => mret tt
     | Some nr =>
       q ← ptq nr;
       if q_sync_switch q then
         upd_ptq nr (fun q => q <| q_next_tid := -1 |>
           <| q_switch_state := match q_switch_state q with
                                | INTEL_PT_SS_EXPECTING_SWITCH_EVENT | INTEL_PT_SS_EXPECTING_SWITCH_IP => INTEL_PT_SS_TRACING
                                | ss => ss
                                end |>)
       else mret tt
     end
   else mret tt);;
  current ← sgets (fun s => machine__get_current_tid (c_machine pt) cpu (s_env s));
  if current =? tid then mret 0 else scall (machine__set_current_tid (c_machine pt) cpu pid tid).

Definition switch_out (event : perf_event) : bool := negb (pe_misc event .& PERF_RECORD_MISC_SWITCH_OUT =? 0).

Definition intel_pt_guest_context_switch (event : perf_event) (sample : perf_sample) : SM Z :=
  machine ← sgets (fun s => machines__find (s32 (ps_machine_pid sample)) (s_env s));
  smodify (fun s => s <| s_have_guest_sideband := true |> <| s_sync_switch_not_supported := true |>);;
  sync_switch ← sgets s_sync_switch;
  (if (sync_switch : bool) then intel_pt_disable_sync_switch pt else mret tt);;
  if switch_out event then mret 0
  else
    match machine with
    | None => mret (- EINVAL)
    | Some machine => scall (machine__set_current_tid machine (s32 (ps_vcpu sample)) (s32 (ps_pid sample)) (s32 (ps_tid sample)))
    end.

Definition intel_pt_context_switch (event : perf_event) (sample : perf_sample) : SM Z :=
  let cpu := s32 (ps_cpu sample) in
  if perf_event__is_guest event then intel_pt_guest_context_switch event sample
  else if c_have_sched_switch pt =? 3 then
    if negb (switch_out event) then intel_pt_context_switch_in sample
    else if negb (pe_type event =? PERF_RECORD_SWITCH_CPU_WIDE) then mret (- EINVAL)
    else switch_now cpu (s32 (pe_next_prev_pid event)) (s32 (pe_next_prev_tid event)) (ps_time sample)
  else if switch_out event then mret 0
  else switch_now cpu (s32 (ps_pid sample)) (s32 (ps_tid sample)) (ps_time sample).

(** ** The other events *)

Definition intel_pt_process_itrace_start (event : perf_event) (sample : perf_sample) : SM Z :=
  if negb (c_per_cpu_mmaps pt) then mret 0
  else scall (machine__set_current_tid (c_machine pt) (s32 (ps_cpu sample)) (s32 (pe_itrace_start_pid event))
                (s32 (pe_itrace_start_tid event))).

(** The check lets 64 pass, which is past the end of [ptq->pebs]. *)
Definition intel_pt_process_aux_output_hw_id (event : perf_event) (sample : perf_sample) : SM Z :=
  queue ← auxtrace_queues__sample_queue sample;
  ptqs ← sgets s_ptqs;
  match queue, evlist__id2evsel_strict (ps_id sample) with
  | Some nr, Some evsel =>
    match ptqs !! nr with
    | Some q =>
      if INTEL_PT_MAX_PEBS <? pe_hw_id event then mret (- EINVAL)
      else
        pebs ← snull (set_at (q_pebs q) (pe_hw_id event) (Some (evsel, ps_id sample)));
        upd_ptq nr (fun q => q <| q_pebs := pebs |>);;
        mret 0
    | None => mret (- EINVAL)
    end
  | _, _ => mret (- EINVAL)
  end.

(** The call chain and the branches of a sample of the recording. *)
Definition sample_thread (sample : perf_sample) : SM ThreadStack.thread :=
  th ← scall (machine__findnew_thread (c_machine pt) (s32 (ps_pid sample)) (s32 (ps_tid sample)));
  match th with
  | Some th => sgets (fun s => get_thread th (s_env s))
  | None => mret no_thread
  end.
Definition intel_pt_add_callchain (sample : perf_sample) : SM perf_sample :=
  th ← sample_thread sample;
  s ← sgets id;
  chain ← snull (thread_stack__sample_late th (s32 (ps_cpu sample)) (s_chain s) (u32 (so_callchain_sz (c_synth_opts pt) + 1))
                   (ps_ip sample) (s_kernel_start s));
  smodify (fun s => s <| s_chain := chain |>);;
  mret (sample <| ps_callchain := Some (take (Z.to_nat (chain_nr chain)) (chain_ips chain)) |>).
Definition intel_pt_add_br_stack (sample : perf_sample) : SM perf_sample :=
  th ← sample_thread sample;
  s ← sgets id;
  bs ← snull (thread_stack__br_sample_late th (s32 (ps_cpu sample)) (s_br_stack s) (c_br_stack_sz pt) (ps_ip sample)
                (s_kernel_start s));
  smodify (fun s => s <| s_br_stack := bs |>);;
  mret (sample <| ps_branch_stack := Some (branches_in_use bs) |>).
Definition add_to_sample (sample : perf_sample) : SM perf_sample :=
  let o := c_synth_opts pt in
  sample ← (if so_add_callchain o && bool_decide (ps_callchain sample = None) then intel_pt_add_callchain sample else mret sample);
  if so_add_last_branch o && bool_decide (ps_branch_stack sample = None) then intel_pt_add_br_stack sample else mret sample.

(** Decoding, up to the time of the event. *)
Definition decode_up_to (event : perf_event) (sample : perf_sample) (timestamp : Z) : SM Z :=
  if c_timeless_decoding pt then
    if c_sampling_mode pt then s_when (negb (aux_sample_size sample =? 0)) (process_timeless_sample sample)
    else s_when (pe_type event =? PERF_RECORD_EXIT) (process_timeless_queues (s32 (pe_fork_tid event)) (ps_time sample))
  else if negb (timestamp =? 0) then
    first ← sgets s_first_timestamp;
    (if first =? 0 then intel_pt_first_timestamp timestamp else mret tt);;
    process_queues timestamp
  else mret 0.

(** What the event itself changes. *)
Definition handle_event (event : perf_event) (sample : perf_sample) : SM Z :=
  let is_sample := pe_type event =? PERF_RECORD_SAMPLE in
  s_ok (s_when ((pe_type event =? PERF_RECORD_AUX) && negb (pe_aux_flags event .& PERF_AUX_FLAG_TRUNCATED =? 0)
                && so_errors (c_synth_opts pt)) (intel_pt_lost pt sample))
  (s_ok (if is_sample && bool_decide (is_Some (c_switch_evsel pt)) then intel_pt_process_switch sample
         else if pe_type event =? PERF_RECORD_ITRACE_START then intel_pt_process_itrace_start event sample
         else if pe_type event =? PERF_RECORD_AUX_OUTPUT_HW_ID then intel_pt_process_aux_output_hw_id event sample
         else if (pe_type event =? PERF_RECORD_SWITCH) || (pe_type event =? PERF_RECORD_SWITCH_CPU_WIDE)
              then intel_pt_context_switch event sample
         else mret 0)
        (if pe_type event =? PERF_RECORD_TEXT_POKE then scall (text_poke event) else mret 0)).

(** The error, and the sample with what was added to it. *)
Definition intel_pt_process_event (event : perf_event) (sample : perf_sample) : SM (Z * perf_sample) :=
  if dump_trace then mret (0, sample)
  else if negb tool_ordered_events then mret (- EINVAL, sample)
  else
    let timestamp :=
      if negb (ps_time sample =? 0) && negb (ps_time sample =? 2 ^ 64 - 1) then perf_time_to_tsc (c_tc pt) (ps_time sample) else 0 in
    err ← s_ok (if negb (timestamp =? 0) || c_timeless_decoding pt then update_queues else mret 0)
               (decode_up_to event sample timestamp);
    if negb (err =? 0) then mret (err, sample)
    else
      sample ← (if pe_type event =? PERF_RECORD_SAMPLE then add_to_sample sample else mret sample);
      err ← handle_event event sample;
      mret (err, sample).

Definition intel_pt_flush : SM Z :=
  if dump_trace then mret 0
  else if negb tool_ordered_events then mret (- EINVAL)
  else
    ret ← update_queues;
    if ret <? 0 then mret ret
    else if c_timeless_decoding pt then process_timeless_queues (-1) (MAX_TIMESTAMP - 1)
    else process_queues MAX_TIMESTAMP.
End events.
