(* ===== verification/PtMerge.v ===== *)
(** What a session promises of the order of its samples.  First what a function of [SM] yields, and
    which functions leave alone all that decides in which order queues are decoded; then the interface of the
    decoders and of the rest of perf, the times of the states of a queue, and what a run of one decoder does. *)
From Stdlib Require Import ZArith Lia List Bool Sorted.
From stdpp Require Import gmap.
From S2P Require Import Prelude PktDecoder PtState PtTime AuxHeap AuxHeapTheorems PtSession PtTimeRange.
From S2P Require Import AuxQueues PtBatch ThreadStack PtConfig PtSynth PtPebs PtFilter PtSample PtQueues.
Open Scope Z_scope.
Open Scope c_scope.
Import ListNotations.

(** ** What a function yields *)

Section yields.
Context {CR E : Type}.

(** The function returns, without a bad access. *)
Definition yields {A} (m : SM CR E A) (s : session CR E) (P : A -> session CR E -> Prop) : Prop :=
  exists a s', m s = Ret (a, s') /\ P a s'.

Lemma y_mono {A} (m : SM CR E A) s (P Q : A -> session CR E -> Prop) :
  yields m s P -> (forall a s', P a s' -> Q a s') -> yields m s Q.
Proof. intros (a & s' & E1 & HP) HPQ. exists a, s'. auto. Qed.

Lemma y_ret {A} (a : A) s (P : A -> session CR E -> Prop) : P a s -> yields (mret a) s P.
Proof. intros HP. by exists a, s. Qed.

Lemma y_bind {A B} (m : SM CR E A) (k : A -> SM CR E B) s P :
  yields m s (fun a s' => yields (k a) s' P) -> yields (mbind k m) s P.
Proof. intros (a & s' & E1 & b & s'' & E2 & HP). exists b, s''. split; [|done]. unfold mbind, SM_bind. by rewrite E1. Qed.

Lemma y_gets {A} (f : session CR E -> A) s (P : A -> session CR E -> Prop) : P (f s) s -> yields (sgets f) s P.
Proof. intros HP. by exists (f s), s. Qed.

Lemma y_modify f s (P : unit -> session CR E -> Prop) : P tt (f s) -> yields (smodify f) s P.
Proof. intros HP. by exists tt, (f s). Qed.

Lemma y_some {A} (x : option A) a s (P : A -> session CR E -> Prop) : x = Some a -> P a s -> yields (snull x) s P.
Proof. intros -> HP. by apply y_ret. Qed.

Lemma y_call {A} (f : E -> A * E) s (P : A -> session CR E -> Prop) :
  P (f (s_env s)).1 (s <| s_env := (f (s_env s)).2 |>) -> yields (scall f) s P.
Proof. intros HP. exists (f (s_env s)).1. eexists. split; [|exact HP]. unfold scall. by destruct (f (s_env s)). Qed.

Lemma y_ok (m k : SM CR E Z) s P :
  yields m s (fun r s' => r = 0 /\ yields k s' P) -> yields (s_ok m k) s P.
Proof. intros Hm. apply y_bind. eapply y_mono; [exact Hm|]. by intros r s' [-> Hk]. Qed.

Lemma y_when_off b (m : SM CR E Z) s (P : Z -> session CR E -> Prop) : b = false -> P 0 s -> yields (s_when b m) s P.
Proof. intros -> HP. by apply y_ret. Qed.

(** A step that is off. *)
Lemma y_skip b (m k : SM CR E Z) s P : b = false -> yields k s P -> yields (s_ok (s_when b m) k) s P.
Proof. intros Hb Hk. apply y_ok. by apply y_when_off. Qed.

Lemma y_ptq nr q s (P : intel_pt_queue -> session CR E -> Prop) : s_ptqs s !! nr = Some q -> P q s -> yields (ptq nr) s P.
Proof. intros Hq HP. apply y_bind, y_gets. by apply (y_some _ q). Qed.

(** The session with another [ptq]. *)
Definition put_ptq (nr : Z) (q : intel_pt_queue) (s : session CR E) : session CR E := s <| s_ptqs := <[nr := q]> (s_ptqs s) |>.

Lemma y_upd nr q f s (P : unit -> session CR E -> Prop) :
  s_ptqs s !! nr = Some q -> P tt (put_ptq nr (f q) s) -> yields (upd_ptq nr f) s P.
Proof. intros Hq HP. apply y_bind. apply (y_ptq _ q); [done|]. by apply y_modify. Qed.

Lemma put_ptq_lookup nr q s : s_ptqs (put_ptq nr q s) !! nr = Some q.
Proof. unfold put_ptq. rsimpl. by rewrite lookup_insert, decide_True. Qed.

Lemma put_ptq_other nr m q s : m <> nr -> s_ptqs (put_ptq nr q s) !! m = s_ptqs s !! m.
Proof. intros Hm. unfold put_ptq. rsimpl. by rewrite lookup_insert_ne by congruence. Qed.
End yields.

(** Putting a queue on a heap with room for its number. *)
Lemma heap_add_yields {CR E : Type} uninit (s : session CR E) nr t P :
  heap_wf (s_heap s) -> nr ∉ queue_nrs (items (s_heap s)) -> 0 <= nr < heap_sz (s_heap s) ->
  (forall h, heap_wf h -> (items h ≡ₚ mkItem nr t :: items (s_heap s)) -> P 0 (s <| s_heap := h |>)) ->
  yields (heap_add uninit nr t) s P.
Proof.
  intros Hw Hnew Hnr HP. destruct (insert_ok _ _ t Hw Hnew Hnr) as (arr & Ea & Hw' & Hi).
  apply y_bind, y_gets, y_bind. destruct (Z.leb_spec (heap_sz (s_heap s)) nr) as [|Hlt]; [lia|]. apply y_ret, y_bind.
  eapply y_some.
  { unfold auxtrace_heap__add. destruct (Z.leb_spec (heap_sz (s_heap s)) nr); [lia|]. rewrite Ea. done. }
  apply y_bind, y_modify, y_ret. by apply HP.
Qed.

(** ** Functions that keep to a relation *)

(** A relation between the sessions before and after, for sessions that are [ok]. *)
Class Frame {CR E : Type} (ok : session CR E -> Prop) (R : session CR E -> session CR E -> Prop) := {
  frame_refl s : ok s -> R s s;
  frame_trans s1 s2 s3 : R s1 s2 -> R s2 s3 -> R s1 s3;
  frame_ok s s' : R s s' -> ok s -> ok s'
}.

Section keeps.
Context {CR E : Type} (ok : session CR E -> Prop) (R : session CR E -> session CR E -> Prop) `{!Frame ok R}.

Definition keeps {A} (m : SM CR E A) : Prop := forall s, ok s -> yields m s (fun _ s' => R s s').

Lemma keeps_ret {A} (a : A) : keeps (mret a).
Proof. intros s Hs. by apply y_ret, frame_refl. Qed.

Lemma keeps_bind {A B} (m : SM CR E A) (k : A -> SM CR E B) : keeps m -> (forall a, keeps (k a)) -> keeps (mbind k m).
Proof.
  intros Hm Hk s Hs. apply y_bind. eapply y_mono; [by apply Hm|]. intros a s1 R1. cbn in R1.
  eapply y_mono; [by apply Hk, (frame_ok s)|]. intros b s2 R2. by apply frame_trans with s1.
Qed.

Lemma keeps_gets {A} (f : session CR E -> A) : keeps (sgets f).
Proof. intros s Hs. by apply y_gets, frame_refl. Qed.

Lemma keeps_if {A} (b : bool) (m k : SM CR E A) : keeps m -> keeps k -> keeps (if b then m else k).
Proof. by destruct b. Qed.

Lemma keeps_option {A B} (x : option B) (f : B -> SM CR E A) (m : SM CR E A) :
  (forall b, keeps (f b)) -> keeps m -> keeps (match x with Some b => f b | None => m end).
Proof. by destruct x. Qed.

Lemma keeps_some {A} (f : session CR E -> option A) : (forall s, ok s -> is_Some (f s)) -> keeps (x ← sgets f; snull x).
Proof. intros Hf s Hs. apply y_bind, y_gets. destruct (Hf s Hs) as [a Ha]. apply (y_some _ a); [done|]. by apply frame_refl. Qed.

Lemma keeps_ptq nr : (forall s, ok s -> is_Some (s_ptqs s !! nr)) -> keeps (ptq nr).
Proof. apply keeps_some. Qed.

(** A change of the [ptq]. *)
Lemma keeps_upd nr f : (forall s, ok s -> is_Some (s_ptqs s !! nr)) ->
  (forall s q, ok s -> s_ptqs s !! nr = Some q -> R s (put_ptq nr (f q) s)) -> keeps (upd_ptq nr f).
Proof. intros Hp Hf s Hs. destruct (Hp s Hs) as [q Hq]. apply (y_upd _ q); [done|]. by apply Hf. Qed.
End keeps.

Create HintDb keeps.
#[export] Hint Resolve keeps_ret keeps_gets : keeps.
(** Takes a function apart; the hints are about the smallest parts. *)
Ltac keep_step :=
  cbv zeta;
  lazymatch goal with
  | |- keeps _ _ (mbind _ _) => apply keeps_bind; [exact _| |intros ?]
  | |- keeps _ _ (match _ with Some _ => _ | None => _ end) => apply keeps_option; [intros ?|]
  | |- keeps _ _ (if _ then _ else _) => apply keeps_if
  | |- keeps _ _ (let '(_, _) := ?x in _) => destruct x
  | _ => solve [eauto with keeps typeclass_instances]
  end.
Ltac keep := repeat keep_step.

(** What a session promises of the order of its samples: the interface of the
    decoders and of the rest of perf that it needs, the times of the states of a
    queue, the parts of the session that leave them alone, and what a run of one
    decoder does to the session. *)
(** ** The interface

    What a queue's place in the order of time depends on, but for its flags and
    the state of its decoder. *)
Definition clockwork (q : intel_pt_queue) : Z * bool * bool * bool * Z * Z :=
  (q_queue_nr q, q_on_heap q, q_sync_switch q, q_have_sample q, q_timestamp q, q_sel_timestamp q).

(** A session's surroundings, observed: the events delivered so far, the states
    that the decoder of each queue has returned, and how many more there can be
    before each reports the end of its data.  Threads have no stacks, as none is
    asked for; the kernel starts at a fixed address. *)
Class ObservedEnv (E : Type) `{SessionEnv E} `{Decoders E} `{EventEnv E} := {
  delivered : E -> list synth_event;
  returned : E -> Z -> list intel_pt_state;
  steps_left : E -> nat;
  kernel : Z;
  kernel_start_fixed machine e : machine__kernel_start machine e = kernel;
  threads_bare th e : th_ts (get_thread th e) = [];
  put_thread_silent th t e :
    delivered (put_thread th t e) = delivered e /\ (forall nr, returned (put_thread th t e) nr = returned e nr) /\
    steps_left (put_thread th t e) = steps_left e;
  current_decode_silent cpu tid e :
    delivered (set_current_decode cpu tid e) = delivered e /\ (forall nr, returned (set_current_decode cpu tid e) nr = returned e nr) /\
    steps_left (set_current_decode cpu tid e) = steps_left e;
  deliver_ok ev e : exists e', perf_session__deliver_synth_event ev e = (0, e') /\
    delivered e' = delivered e ++ [ev] /\ (forall nr, returned e' nr = returned e nr) /\ steps_left e' = steps_left e;
  (* A decoder leaves the place of the queue alone. *)
  decode_ok q e : exists q' e', decode q e = Ret (q', e') /\ clockwork q' = clockwork q /\
    delivered e' = delivered e /\
    (forall nr, returned e' nr = if nr =? q_queue_nr q then returned e nr ++ [q_state q'] else returned e nr) /\
    (st_err (q_state q') = INTEL_PT_ERR_NODATA /\ steps_left e' = steps_left e \/
     st_err (q_state q') <> INTEL_PT_ERR_NODATA /\ (steps_left e' < steps_left e)%nat /\ 0 <= st_timestamp (q_state q') < 2 ^ 64 /\
     0 <= st_est_timestamp (q_state q') < 2 ^ 64)
}.

(** The configuration of pt_perf, which asks for branches only, and a trace with
    times but no events of context switches. *)
Record branches_only (pt : session_config) : Prop := {
  bo_timed : c_timeless_decoding pt = false;
  bo_switches : c_have_sched_switch pt = 0;
  bo_stack : c_use_thread_stack pt = false;
  bo_pebs : c_sample_pebs pt = false;
  bo_power : c_sample_pwr_events pt = false;
  bo_intr : so_intr_events (c_synth_opts pt) = false;
  bo_instructions : k_on (c_instructions pt) = false;
  bo_cycles : k_on (c_cycles pt) = false;
  bo_transactions : k_on (c_transactions pt) = false;
  bo_ptwrites : k_on (c_ptwrites pt) = false;
  bo_branches : k_on (c_branches pt) = true;
  bo_skip : so_initial_skip (c_synth_opts pt) = 0;
  bo_inject : so_inject (c_synth_opts pt) = false
}.

(** ** Times and branches *)

Section spec.
Context (pt : session_config) (kernel : Z).

(** The time of a queue after a state: on a return from the kernel to user space
    it is estimated. *)
Definition next_clock (t : Z) (st : intel_pt_state) : Z :=
  if c_est_tsc pt && ((kernel <=? st_from_ip st) || (st_from_ip st =? 0)) && negb (st_to_ip st =? 0) && (st_to_ip st <? kernel)
  then st_est_timestamp st else Z.max t (st_timestamp st).

(** The states that are not errors, each with the time of the queue, which is [t]
    before them. *)
Fixpoint timed (t : Z) (sts : list intel_pt_state) : list (Z * intel_pt_state) :=
  match sts with
  | [] => []
  | st :: sts =>
    if st_err st =? 0 then let t := next_clock t st in (t, st) :: timed t sts
    else timed (st_est_timestamp st) sts
  end.

(** The flags of the sample of a state. *)
Definition state_flags (st : intel_pt_state) : Z := q_flags (sample_flags pt st zero_queue).

(** A branch as it is reported: time, source, target and flags. *)
Definition branch : Type := Z * Z * Z * Z.
Definition state_branches (x : Z * intel_pt_state) : list branch :=
  let '(t, st) := x in
  let fl := state_flags st in
  let b from_ip to_ip := (tsc_to_perf_time (c_tc pt) t, from_ip, to_ip, fl) in
  if st_type st .& INTEL_PT_BRANCH =? 0 then []
  else if negb (c_branches_filter pt =? 0) && (c_branches_filter pt .& fl =? 0) then []
  else if negb (Bool.eqb (st_from_nr st) (st_to_nr st)) && negb (st_from_ip st =? 0) && negb (st_to_ip st =? 0)
  then [b (st_from_ip st) 0; b 0 (st_to_ip st)]
  else [b (st_from_ip st) (st_to_ip st)].
End spec.

(** The branches among events; of the events there are only those and errors. *)
Definition event_branch (ev : synth_event) : option branch :=
  match ev with
  | SynthSample _ s => Some (ps_time s, ps_ip s, ps_addr s, ps_flags s)
  | SynthError _ => None
  end.
Definition branches : list synth_event -> list branch := omap event_branch.

Lemma branches_app a b : branches (a ++ b) = branches a ++ branches b.
Proof. apply omap_app. Qed.

(** ** Steps of one queue *)

Section frame.
Context {CR E : Type} `{SessionEnv E} `{PerfEnv} `{Decoders E} `{EventEnv E} `{!ObservedEnv E}.
Context (pt : session_config) (Hpt : branches_only pt).

Definition silent (e e' : E) (bs : list branch) : Prop :=
  branches (delivered e') = branches (delivered e) ++ bs /\ (forall nr, returned e' nr = returned e nr) /\
  steps_left e' = steps_left e.

(** The parts of the session that its order depends on and that a step of queue
    [nr] leaves alone. *)
Definition elsewhere (nr : Z) (s s' : session CR E) : Prop :=
  s_heap s' = s_heap s /\ s_queues s' = s_queues s /\ s_kernel_start s' = s_kernel_start s /\
  (forall m, m <> nr -> s_ptqs s' !! m = s_ptqs s !! m).

Definition same (q q' : intel_pt_queue) : Prop :=
  clockwork q' = clockwork q /\ q_flags q' = q_flags q /\ q_state q' = q_state q.

(** A step of queue [nr] that reports [bs] and changes the queue as [R] says. *)
Definition stepped (R : intel_pt_queue -> intel_pt_queue -> Prop) (nr : Z) (bs : list branch) (s s' : session CR E) : Prop :=
  elsewhere nr s s' /\ silent (s_env s) (s_env s') bs /\
  exists q q', s_ptqs s !! nr = Some q /\ s_ptqs s' !! nr = Some q' /\ R q q'.
Abbreviation quiet := (stepped same).

Lemma same_refl q : same q q.
Proof. done. Qed.
Lemma same_trans q1 q2 q3 : same q1 q2 -> same q2 q3 -> same q1 q3.
Proof. intros (A1 & A2 & A3) (B1 & B2 & B3). repeat split; congruence. Qed.

Lemma elsewhere_refl nr s : elsewhere nr s s.
Proof. done. Qed.
Lemma elsewhere_trans nr s1 s2 s3 : elsewhere nr s1 s2 -> elsewhere nr s2 s3 -> elsewhere nr s1 s3.
Proof.
  intros (A1 & A2 & A3 & A4) (B1 & B2 & B3 & B4). repeat split; try congruence.
  intros m Hm. rewrite B4, A4 by done. done.
Qed.

Lemma silent_refl e : silent e e [].
Proof. split; [by rewrite app_nil_r|done]. Qed.
Lemma silent_trans e1 e2 e3 a b : silent e1 e2 a -> silent e2 e3 b -> silent e1 e3 (a ++ b).
Proof.
  intros (A1 & A2 & A3) (B1 & B2 & B3). split; [by rewrite B1, A1, app_assoc|]. split; [|congruence].
  intros nr. by rewrite B2, A2.
Qed.

Lemma stepped_trans (R1 R2 R3 : intel_pt_queue -> intel_pt_queue -> Prop) nr a b s1 s2 s3 :
  (forall q1 q2 q3, R1 q1 q2 -> R2 q2 q3 -> R3 q1 q3) ->
  stepped R1 nr a s1 s2 -> stepped R2 nr b s2 s3 -> stepped R3 nr (a ++ b) s1 s3.
Proof.
  intros HR (A1 & A2 & q1 & q2 & A3 & A4 & A5) (B1 & B2 & q2' & q3 & B3 & B4 & B5).
  rewrite B3 in A4. injection A4 as ->. split; [by apply elsewhere_trans with s2|]. split; [by apply silent_trans with (s_env s2)|].
  exists q1, q3. split; [done|]. split; [done|]. by apply HR with q2.
Qed.
Lemma quiet_trans nr a b s1 s2 s3 : quiet nr a s1 s2 -> quiet nr b s2 s3 -> quiet nr (a ++ b) s1 s3.
Proof. apply stepped_trans, same_trans. Qed.

Lemma quiet_refl nr q s : s_ptqs s !! nr = Some q -> quiet nr [] s s.
Proof. intros Hq. split; [done|]. split; [apply silent_refl|]. by exists q, q. Qed.

Lemma put_stepped R nr q q' s : s_ptqs s !! nr = Some q -> R q q' -> stepped R nr [] s (put_ptq nr q' s).
Proof.
  intros Hq HR. split; [|split; [apply silent_refl|]].
  - split; [done|]. split; [done|]. split; [done|]. intros m Hm. by apply put_ptq_other.
  - exists q, q'. split; [done|]. split; [apply put_ptq_lookup|done].
Qed.

(** ** Functions that leave the order alone *)

(** The queue is there. *)
Definition present (nr : Z) (s : session CR E) : Prop :=
  is_Some (s_ptqs s !! nr) /\ 0 <= nr < Z.of_nat (length (queue_array (s_queues s))).

Lemma present_stepped R nr bs s s' : stepped R nr bs s s' -> present nr s -> present nr s'.
Proof. intros ((_ & E1 & _) & _ & q & q' & _ & E2 & _) [_ Hr]. split; [by eexists|]. by rewrite E1. Qed.

#[export] Instance quiet_frame nr : Frame (present nr) (quiet nr []).
Proof.
  split.
  - intros s [[q Hq] _]. by apply quiet_refl with q.
  - intros s1 s2 s3. exact (quiet_trans nr [] [] s1 s2 s3).
  - intros s s' Q Hs. by apply (present_stepped same nr [] s).
Qed.

Lemma calm_ptq nr : keeps (present nr) (quiet nr []) (ptq nr).
Proof. apply keeps_ptq; [exact _|]. by intros s [Hs _]. Qed.

Lemma calm_upd nr f : (forall q, same q (f q)) -> keeps (present nr) (quiet nr []) (upd_ptq nr f).
Proof. intros Hf. apply keeps_upd; [by intros s [Hs _]|]. intros s q _ Hq. by apply put_stepped with q. Qed.

Lemma calm_queue_of nr : keeps (present nr) (quiet nr []) (queue_of nr).
Proof. apply keeps_some; [exact _|]. intros s [_ Hr]. by apply idx_range in Hr as [x ->]. Qed.
End frame.

(** A function that leaves the place of queue [nr] in the order of time alone. *)
Abbreviation calm nr := (keeps (present nr) (stepped same nr [])).

#[export] Hint Resolve calm_ptq calm_queue_of : keeps.
#[export] Hint Extern 1 (keeps _ (stepped same _ []) (upd_ptq _ _)) => apply calm_upd; intros ?; done : keeps.

(** One queue of a session that makes branches only: what [intel_pt_sample] and a
    run of its decoder do to the session. *)
Section steps.
Context {CR E : Type} `{SessionEnv E} `{PerfEnv} `{Decoders E} `{EventEnv E} `{!ObservedEnv E}.
Context (pt : session_config) (Hpt : branches_only pt).
Context (process : call_return -> option Z -> CR -> Z * Z * CR) (garbage : thread_stack_entry).
(** No function and no thread is singled out. *)
Context (filter : func_filter) (Hfilter : ff_on filter = false).
Abbreviation quiet := (stepped (CR := CR) (E := E) same).
Abbreviation sample := (@intel_pt_sample CR E _ _ pt filter None process garbage).

Lemma guest_from_sideband_calm nr : calm nr (@intel_pt_get_guest_from_sideband CR E _ nr).
Proof. unfold intel_pt_get_guest_from_sideband, guest_thread_from_sideband. keep. Qed.
#[local] Hint Resolve guest_from_sideband_calm : keeps.

Lemma set_pid_tid_cpu_calm nr : calm nr (@intel_pt_set_pid_tid_cpu CR E _ pt nr).
Proof. unfold intel_pt_set_pid_tid_cpu. keep. Qed.

Lemma get_guest_calm nr : calm nr (@intel_pt_get_guest CR E _ nr).
Proof. unfold intel_pt_get_guest. keep. Qed.

(** ** Branch samples *)

Lemma scall_quiet (f : E -> Z * E) nr q bs s :
  s_ptqs s !! nr = Some q -> (exists e', f (s_env s) = (0, e') /\ silent (s_env s) e' bs) ->
  yields (scall f) s (fun r s' => r = 0 /\ quiet nr bs s s').
Proof.
  intros Hq (e' & Ef & Hs). apply y_call. rewrite Ef. split; [done|]. split; [done|]. split; [exact Hs|]. by exists q, q.
Qed.

Lemma deliver_quiet nr q ev type s : s_ptqs s !! nr = Some q ->
  yields (@intel_pt_deliver_synth_event CR E _ pt ev type) s (fun r s' => r = 0 /\ quiet nr (branches [ev]) s s').
Proof.
  intros Hq. apply y_ok. unfold intel_pt_opt_inject. rewrite (bo_inject pt Hpt). apply y_ret. split; [done|].
  apply (scall_quiet _ _ q); [done|]. destruct (deliver_ok ev (s_env s)) as (e' & E1 & E2 & E3 & E4).
  exists e'. split; [done|]. split; [|done]. by rewrite E2, branches_app.
Qed.

Lemma low_quiet nr q s : s_ptqs s !! nr = Some q ->
  yields (@intel_pt_synth_branch_sample_low CR E _ pt nr) s (fun r s' => r = 0 /\
    quiet nr (if negb (c_branches_filter pt =? 0) && (c_branches_filter pt .& q_flags q =? 0) then []
              else [(tsc_to_perf_time (c_tc pt) (q_timestamp q), st_from_ip (q_state q), st_to_ip (q_state q), q_flags q)]) s s').
Proof.
  intros Hq. apply y_bind, (y_ptq _ q); [done|].
  destruct (negb (c_branches_filter pt =? 0) && (c_branches_filter pt .& q_flags q =? 0)).
  { apply y_ret. split; [done|]. by apply quiet_refl with q. }
  apply y_bind. unfold intel_pt_skip_event. rewrite (bo_skip pt Hpt). apply y_ret. apply y_bind, y_gets. cbv zeta.
  set (smp := upd ps_cyc_cnt _ _).
  assert (event_branch (SynthSample 0 smp)
    = Some (tsc_to_perf_time (c_tc pt) (q_timestamp q), st_from_ip (q_state q), st_to_ip (q_state q), q_flags q)) as Hb.
  { unfold smp, intel_pt_prep_b_sample, intel_pt_prep_a_sample. rewrite (bo_timed pt Hpt).
    by destruct (so_last_branch _ && _), (s_have_guest_sideband s && _). }
  apply y_bind. eapply y_mono with (P := fun smp' s' => event_branch (SynthSample 0 smp') = event_branch (SynthSample 0 smp) /\ quiet nr [] s s').
  { destruct (_ =? 0).
    - apply y_ret. split; [done|]. by apply quiet_refl with q.
    - apply y_bind, (y_upd _ q); [done|]. apply y_ret. split; [done|]. by apply put_stepped with q. }
  intros smp' s1 [Hb' Q1]. pose proof Q1 as (_ & _ & _ & q1 & _ & Hq1 & _).
  eapply y_mono; [apply (deliver_quiet nr q1); done|]. intros r s2 [-> Q2]. split; [done|].
  pose proof (quiet_trans _ _ _ _ _ _ Q1 Q2) as Q. cbn [app] in Q.
  enough (branches [SynthSample (ps_cpumode smp') smp'] = [(tsc_to_perf_time (c_tc pt) (q_timestamp q), st_from_ip (q_state q), st_to_ip (q_state q), q_flags q)]) as <- by done.
  transitivity [(ps_time smp', ps_ip smp', ps_addr smp', ps_flags smp')]; [done|]. unfold event_branch in Hb, Hb'. congruence.
Qed.

Lemma set_ips_back q q2 q4 : let st := q_state q in
  same (set_ips (st_from_ip st) 0 q) q2 -> same (set_ips 0 (st_to_ip st) q2) q4 ->
  same q (set_ips (st_from_ip st) (st_to_ip st) q4).
Proof.
  intros st (C2 & F2 & S2) (C4 & F4 & S4). split; [exact (eq_trans C4 C2)|]. split; [exact (eq_trans F4 F2)|].
  set (ips a b (x : intel_pt_state) := x <| st_from_ip := a |> <| st_to_ip := b |>).
  change (ips (st_from_ip st) (st_to_ip st) (q_state q4) = q_state q).
  change (q_state q4 = ips 0 (st_to_ip st) (q_state q2)) in S4.
  change (q_state q2 = ips (st_from_ip st) 0 (q_state q)) in S2.
  rewrite S4, S2. unfold ips, st. by destruct (q_state q).
Qed.

(** The two branches made of one between host and guest. *)
Lemma branch_quiet nr q s : s_ptqs s !! nr = Some q -> q_flags q = state_flags pt (q_state q) ->
  st_type (q_state q) .& INTEL_PT_BRANCH <> 0 ->
  yields (@sample_branch CR E _ _ pt filter None nr) s (fun r s' => r = 0 /\ quiet nr (state_branches pt (q_timestamp q, q_state q)) s s').
Proof.
  intros Hq Hfl Hty. apply y_bind, (y_ptq _ q); [done|]. cbv zeta. unfold state_branches. cbv zeta.
  apply Z.eqb_neq in Hty. rewrite Hty, <- Hfl.
  assert (forall q s, s_ptqs s !! nr = Some q ->
    yields (@intel_pt_synth_branch_sample CR E _ _ pt filter None nr) s (fun r s' => r = 0 /\
    quiet nr (if negb (c_branches_filter pt =? 0) && (c_branches_filter pt .& q_flags q =? 0) then []
              else [(tsc_to_perf_time (c_tc pt) (q_timestamp q), st_from_ip (q_state q), st_to_ip (q_state q), q_flags q)]) s s')) as Hsynth.
  { intros q0 s0 Hq0. apply y_bind, (y_ptq _ q0); [done|]. cbn [thread__is_filter_by_tid]. rewrite Hfilter. by apply low_quiet. }
  destruct (negb (Bool.eqb _ _) && _ && _).
  2:{ eapply y_mono; [by apply (Hsynth q)|]. intros r s' [-> Q]. split; [done|]. by destruct (negb _ && _). }
  apply y_bind, (y_upd _ q); [done|]. set (s1 := put_ptq _ _ _).
  assert (stepped (fun _ _ => True) nr [] s s1) as P1 by (by apply put_stepped with q).
  assert (s_ptqs s1 !! nr = Some (set_ips (st_from_ip (q_state q)) 0 q)) as Hq1 by apply put_ptq_lookup.
  apply y_ok. eapply y_mono; [by apply Hsynth|]. intros r s2 [-> Q2]. split; [done|].
  pose proof Q2 as (_ & _ & q1' & q2 & Hq1' & Hq2 & Same2). rewrite Hq1 in Hq1'. injection Hq1' as <-.
  apply y_bind, (y_upd _ q2); [done|]. set (s3 := put_ptq _ _ s2).
  assert (s_ptqs s3 !! nr = Some (set_ips 0 (st_to_ip (q_state q)) q2)) as Hq3 by apply put_ptq_lookup.
  apply y_bind. eapply y_mono; [by apply Hsynth|]. intros r s4 [-> Q4].
  pose proof Q4 as (_ & _ & q3' & q4 & Hq3' & Hq4 & Same4). rewrite Hq3 in Hq3'. injection Hq3' as <-.
  apply y_bind, (y_upd _ q4); [done|]. apply y_ret. split; [done|].
  destruct (stepped_trans _ _ (fun _ _ => True) _ _ _ _ _ _ (fun _ _ _ _ _ => I) P1 Q2) as (E2 & S2 & _).
  assert (stepped (CR := CR) (fun _ _ => True) nr [] s2 s3) as (E3 & S3 & _) by (by apply put_stepped with q2).
  assert (stepped (CR := CR) (fun _ _ => True) nr [] s4 (put_ptq nr (set_ips (st_from_ip (q_state q)) (st_to_ip (q_state q)) q4) s4)) as (E5 & S5 & _)
    by (by apply put_stepped with q4).
  destruct Q4 as (E4 & S4 & _).
  pose proof (silent_trans _ _ _ _ _ (silent_trans _ _ _ _ _ (silent_trans _ _ _ _ _ S2 S3) S4) S5) as Sil.
  pose proof (elsewhere_trans _ _ _ _ (elsewhere_trans _ _ _ _ (elsewhere_trans _ _ _ _ E2 E3) E4) E5) as El.
  split; [exact El|]. rewrite !app_nil_r in Sil. split.
  2:{ exists q. eexists. split; [done|]. split; [apply put_ptq_lookup|]. by apply set_ips_back with q2. }
  destruct Same2 as (C2 & F2 & _), Same4 as (C4 & F4 & _). 
  assert (q_timestamp q2 = q_timestamp q) as Ht by (unfold clockwork in C2; cbn in C2; congruence).
  cbn in Sil, F2. rewrite Ht, F2 in Sil. by destruct (negb (_ =? 0) && _).
Qed.

(** ** The sample of a state *)

Lemma thread_stack_calm nr : calm nr (@update_thread_stack CR E _ pt process garbage nr).
Proof.
  unfold update_thread_stack, on_thread_stack. rewrite (bo_stack pt Hpt). do 3 keep_step.
  { keep_step. }
  apply keeps_option; [|keep]. intros th s [[q0 Hq0] _]. apply y_bind, y_gets, y_bind.
  set (t := get_thread th (s_env s)). assert (th_ts t = []) as Ht by apply threads_bare.
  apply (y_some _ (tt, (t, s_world s))).
  { unfold thread_stack__set_trace_nr, ThreadStack.gets, mbind, ThreadStack.M_bind, ThreadStack.deref. cbn [fst].
    unfold thread__stack, thread__cpu_stack. rewrite Ht. by destruct (thread_stack__per_cpu t). }
  apply y_bind, y_modify, y_ret. destruct (put_thread_silent th t (s_env s)) as (E1 & E2 & E3).
  split; [done|]. split; [|by exists q0, q0]. split; [|done]. cbn [s_env]. by rewrite app_nil_r, <- E1.
Qed.

(** The queue has been sampled. *)
Definition sampled (q q' : intel_pt_queue) : Prop := same (q <| q_have_sample := false |>) q'.
Definition due (q : intel_pt_queue) : list (Z * intel_pt_state) := if q_have_sample q then [(q_timestamp q, q_state q)] else [].

Lemma no_events_sampled nr q s P : s_ptqs s !! nr = Some q -> P 0 s -> yields (@sample_events CR E _ pt nr) s P.
Proof.
  intros Hq HP. apply y_bind, (y_ptq _ q); [done|]. cbv zeta.
  rewrite (bo_pebs pt Hpt), (bo_intr pt Hpt), (bo_power pt Hpt).
  do 8 (apply y_skip; [done|]). by apply y_when_off.
Qed.

Lemma no_instructions_sampled nr q s P : s_ptqs s !! nr = Some q -> P 0 s -> yields (@sample_instructions CR E _ pt nr) s P.
Proof.
  intros Hq HP. apply y_bind, (y_ptq _ q); [done|]. cbv zeta.
  rewrite (bo_instructions pt Hpt), (bo_cycles pt Hpt), (bo_transactions pt Hpt), (bo_ptwrites pt Hpt).
  do 3 (apply y_skip; [by rewrite ?andb_false_r|]). by apply y_when_off.
Qed.

Lemma no_switch_sampled nr q s P : s_ptqs s !! nr = Some q -> q_sync_switch q = false -> P 0 s -> yields (@sample_switch CR E _ pt nr) s P.
Proof. intros Hq Hs HP. apply y_bind, (y_ptq _ q); [done|]. apply y_bind, y_gets. cbv zeta. rewrite Hs. by apply y_ret. Qed.

Lemma sample_step nr q s : present nr s -> s_ptqs s !! nr = Some q -> q_sync_switch q = false ->
  (q_have_sample q = true -> q_flags q = state_flags pt (q_state q)) ->
  yields (sample nr) s (fun r s' => r = 0 /\ stepped sampled nr (concat (List.map (state_branches pt) (due q))) s s').
Proof.
  intros Hp Hq Hsw Hfl. unfold due. apply y_bind, (y_ptq _ q); [done|].
  destruct (q_have_sample q) eqn:Hs; cbn [negb].
  2:{ apply y_ret. split; [done|]. split; [done|]. split; [apply silent_refl|]. exists q, q. split; [done|]. split; [done|].
      unfold sampled, same, clockwork. cbn. by rewrite Hs. }
  apply y_bind, (y_upd _ q); [done|]. set (s1 := put_ptq _ _ _).
  assert (stepped sampled nr [] s s1) as P1 by (by apply put_stepped with q). clearbody s1.
  apply y_bind. eapply y_mono.
  { apply (keeps_if (present nr) (quiet nr [])); [apply get_guest_calm|keep|]. by apply (present_stepped sampled nr [] s). }
  intros r1 s2 Q2. pose proof (stepped_trans sampled same sampled _ _ _ _ _ _ (fun _ _ _ => same_trans _ _ _) P1 Q2) as P2.
  clear P1 Q2. pose proof P2 as (_ & _ & q1 & q2 & Hq1 & Hq2 & HR2). rewrite Hq in Hq1. injection Hq1 as <-.
  destruct HR2 as (C2 & F2 & T2).
  apply y_ok, (no_events_sampled _ q2); [done|]. split; [done|]. apply y_ok, (no_instructions_sampled _ q2); [done|]. split; [done|].
  cbn [List.map concat]. rewrite app_nil_r. destruct (st_type (q_state q) .& INTEL_PT_BRANCH =? 0) eqn:Ety.
  { apply y_ret. split; [done|]. unfold state_branches. by rewrite Ety. }
  apply Z.eqb_neq in Ety.
  apply y_bind. eapply y_mono; [apply thread_stack_calm; by apply (present_stepped sampled nr [] s)|]. intros r3 s3 Q3.
  pose proof (stepped_trans sampled same sampled _ _ _ _ _ _ (fun _ _ _ => same_trans _ _ _) P2 Q3) as P3.
  pose proof P3 as (_ & _ & q1 & q3 & Hq1 & Hq3 & HR3). rewrite Hq in Hq1. injection Hq1 as <-.
  destruct HR3 as (C3 & F3 & T3). cbn in F3, T3.
  assert (q_timestamp q3 = q_timestamp q /\ q_sync_switch q3 = false) as [Ht3 Hs3] by (unfold clockwork in C3; cbn in C3; split; congruence).
  apply y_ok. rewrite (bo_branches pt Hpt). unfold s_when.
  eapply y_mono; [apply (branch_quiet nr q3 s3 Hq3); [by rewrite F3, T3; apply Hfl|by rewrite T3]|]. intros r s4 [-> Q4]. split; [done|].
  rewrite Ht3, T3 in Q4.
  pose proof (stepped_trans sampled same sampled _ _ _ _ _ _ (fun _ _ _ => same_trans _ _ _) P3 Q4) as P4. cbn [app] in P4.
  pose proof Q4 as (_ & _ & q3' & q4 & Hq3' & Hq4 & C4 & _). rewrite Hq3 in Hq3'. injection Hq3' as <-.
  apply (no_switch_sampled _ q4); [done| |by split]. unfold clockwork in C4. congruence.
Qed.

(** ** A run of the decoder *)

(** Queue [nr] has moved on: its decoder has returned [new], and [bs] have been
    reported. *)
Record ran (nr : Z) (new : list intel_pt_state) (bs : list branch) (s s' : session CR E) : Prop := {
  ran_elsewhere : elsewhere nr s s';
  ran_reported : branches (delivered (s_env s')) = branches (delivered (s_env s)) ++ bs;
  ran_returned m : returned (s_env s') m = if m =? nr then returned (s_env s) m ++ new else returned (s_env s) m;
  ran_steps : (steps_left (s_env s') <= steps_left (s_env s))%nat;
  ran_present : is_Some (s_ptqs s' !! nr)
}.

Lemma ran_trans nr new1 new2 bs1 bs2 s1 s2 s3 :
  ran nr new1 bs1 s1 s2 -> ran nr new2 bs2 s2 s3 -> ran nr (new1 ++ new2) (bs1 ++ bs2) s1 s3.
Proof.
  intros [A1 A2 A3 A4 A5] [B1 B2 B3 B4 B5]. split; [by apply elsewhere_trans with s2| | |lia|done].
  - by rewrite B2, A2, app_assoc.
  - intros m. rewrite B3, A3. destruct (m =? nr); [by rewrite app_assoc|done].
Qed.

Lemma stepped_ran R nr bs s s' : stepped R nr bs s s' -> ran nr [] bs s s'.
Proof.
  intros (El & (S1 & S2 & S3) & q & q' & _ & Hq' & _). split; [done|done| |by rewrite S3|by exists q'].
  intros m. rewrite S2, app_nil_r. by destruct (m =? nr).
Qed.

Lemma ran_queues nr new bs s s' : ran nr new bs s s' -> present nr s -> present nr s'.
Proof. intros [(_ & Eq & _) _ _ _ Hp] [_ Hr]. split; [done|]. by rewrite Eq. Qed.

Lemma decode_step nr q s : s_ptqs s !! nr = Some q -> q_queue_nr q = nr ->
  yields (@run_decode CR E _ nr) s (fun st s' => exists q',
    s_ptqs s' !! nr = Some q' /\ st = q_state q' /\ clockwork q' = clockwork q /\ ran nr [st] [] s s' /\
    (st_err st = INTEL_PT_ERR_NODATA \/
     st_err st <> INTEL_PT_ERR_NODATA /\ (steps_left (s_env s') < steps_left (s_env s))%nat /\ 0 <= st_timestamp st < 2 ^ 64 /\
     0 <= st_est_timestamp st < 2 ^ 64)).
Proof.
  intros Hq Hnr. destruct (decode_ok q (s_env s)) as (q' & e' & Ed & Ec & E1 & E2 & E3).
  exists (q_state q'). eexists. split; [unfold run_decode; by rewrite Hq, Ed|]. exists q'.
  rsimpl. split; [by rewrite lookup_insert, decide_True|]. split; [done|]. split; [done|]. rewrite Hnr in E2. split.
  - split; rsimpl; [|by rewrite E1, app_nil_r|done|lia|by rewrite lookup_insert, decide_True].
    split; [done|]. split; [done|]. split; [done|]. intros m Hm. rsimpl. by rewrite lookup_insert_ne by congruence.
  - destruct E3 as [[E3 _]|E3]; [by left|by right].
Qed.

(** An error is reported, and the time is estimated. *)
Lemma failed_step nr q s : s_ptqs s !! nr = Some q -> q_sync_switch q = false ->
  yields (@decode_failed CR E _ pt nr) s (fun r s' => r = 0 /\
    stepped (fun q q' => same (q <| q_timestamp := st_est_timestamp (q_state q) |>) q') nr [] s s').
Proof.
  intros Hq Hs. apply y_bind, (y_ptq _ q); [done|]. apply y_bind, y_gets. cbv zeta. rewrite Hs. cbn [andb].
  apply y_bind, y_ret, y_bind, (y_upd _ q); [done|]. set (s1 := put_ptq _ _ _).
  assert (stepped (fun q q' => same (q <| q_timestamp := st_est_timestamp (q_state q) |>) q') nr [] s s1) as P1 by (by apply put_stepped with q).
  pose proof P1 as (_ & _ & _ & q1 & _ & Hq1 & _).
  unfold s_when. destruct (so_errors _); [|by apply y_ret].
  apply y_bind, (y_ptq _ q1); [done|]. apply y_bind, y_gets. cbv zeta.
  eapply y_mono with (P := fun r s' => r = 0 /\ quiet nr [] s1 s').
  2:{ intros r s2 [-> Q2]. split; [done|]. exact (stepped_trans _ same _ _ _ _ _ _ _ (fun _ _ _ => same_trans _ _ _) P1 Q2). }
  unfold intel_pt_synth_error.
  do 2 (destruct (_ && _); [apply y_ret; split; [done|]; by apply quiet_refl with q1|]).
  apply y_bind. eapply y_some; [done|]. apply (scall_quiet _ _ q1); [done|].
  match goal with |- exists e', perf_session__deliver_synth_event ?ev _ = _ /\ _ => destruct (deliver_ok ev (s_env s1)) as (e' & E1 & E2 & E3 & E4) end.
  exists e'. split; [done|]. split; [|done]. by rewrite E2, branches_app.
Qed.

(** What a queue on the heap is: its flags are those of the state that is due. *)
Record ready (nr : Z) (q : intel_pt_queue) : Prop := {
  ready_nr : q_queue_nr q = nr;
  ready_on_heap : q_on_heap q = true;
  ready_sync : q_sync_switch q = false;
  ready_sel : q_sel_timestamp q = 0;
  ready_time : 0 <= q_timestamp q < 2 ^ 64;
  ready_flags : q_have_sample q = true -> q_flags q = state_flags pt (q_state q)
}.

Abbreviation timed := (timed pt kernel).
Abbreviation loop := (@run_loop CR E _ _ _ pt filter None process garbage).

(** The end of a run up to [ts]: after the state that was due, the states [ys] have
    been sampled; the queue waits with the next one, or its decoder has no more
    data. *)
Record run_end (nr ts : Z) (q q' : intel_pt_queue) (new : list intel_pt_state) (ys : list (Z * intel_pt_state)) (r t : Z) : Prop := {
  end_states more : r = 0 \/ more = [] -> timed (q_timestamp q) (new ++ more) = ys ++ due q' ++ timed (q_timestamp q') more;
  end_before : Forall (fun y => y.1 < ts) ys;
  end_how :
    r = 0 /\ t = q_timestamp q' /\ ts <= t /\ q_have_sample q' = true /\ ready nr q' \/
    r = 1 /\ due q' = [] /\ exists st pre, new = pre ++ [st] /\ st_err st = INTEL_PT_ERR_NODATA
}.

Lemma run_end_cons nr ts q q1 q' st new ys r t :
  run_end nr ts q1 q' new ys r t -> (forall new, timed (q_timestamp q) (st :: new) = due q1 ++ timed (q_timestamp q1) new) ->
  (q_have_sample q1 = true -> q_timestamp q1 < ts) ->
  run_end nr ts q q' (st :: new) (due q1 ++ ys) r t.
Proof.
  intros [E1 E3 E4] Est Hlt. split.
  - intros more Hm. cbn [app]. by rewrite Est, (E1 more Hm), app_assoc.
  - apply List.Forall_app. split; [|done]. unfold due. destruct (q_have_sample q1) eqn:Hs; [|constructor].
    repeat constructor; cbn. by apply Hlt.
  - destruct E4 as [?|(-> & Hd & st' & pre & -> & ?)]; [by left|]. right. split_and!; [done|done|]. by exists st', (st :: pre).
Qed.

Lemma clockwork_ready nr q q' : clockwork q' = clockwork q -> ready nr q ->
  (q_have_sample q' = true -> q_flags q' = state_flags pt (q_state q')) -> ready nr q'.
Proof. unfold clockwork. intros [= Ec1 Ec2 Ec3 Ec4 Ec5 Ec6] [R1 R2 R3 R4 R5 R6] Hf. split; (congruence || lia || done). Qed.

Lemma next_clock_range q st : ready (q_queue_nr q) q -> 0 <= st_timestamp st < 2 ^ 64 -> 0 <= st_est_timestamp st < 2 ^ 64 ->
  0 <= next_clock pt kernel (q_timestamp q) st < 2 ^ 64.
Proof. intros [_ _ _ _ Ht _] H1' H2'. unfold next_clock. destruct (_ && _); lia. Qed.

(** One turn of the loop: the queue goes on to [q1] with [st], to be sampled or,
    for an error, not. *)
Definition turned (nr : Z) (q : intel_pt_queue) (st : intel_pt_state) (q1 : intel_pt_queue) : Prop :=
  ready nr q1 /\ q_have_sample q1 = (st_err st =? 0) /\
  forall new, timed (q_timestamp q) (st :: new) = due q1 ++ timed (q_timestamp q1) new.

(** After a state that is not an error: the rest of the turn, up to the time
    filter. *)
Definition take_state {A} (nr : Z) (st : intel_pt_state) (k : intel_pt_queue -> SM CR E A) : SM CR E A :=
  upd_ptq nr (fun q => q <| q_have_sample := true |>);;
  intel_pt_sample_flags pt nr;;
  s ← sgets id;
  upd_ptq nr (fun q => q <| q_timestamp := sample_time pt s st q |>);;
  q ← ptq nr;
  k q.

Lemma taken {A} nr q q2 st s (k : intel_pt_queue -> SM CR E A) P :
  ready nr q -> s_kernel_start s = kernel -> s_ptqs s !! nr = Some q2 -> st = q_state q2 -> st_err st = 0 ->
  clockwork q2 = clockwork (q <| q_have_sample := false |>) ->
  0 <= st_timestamp st < 2 ^ 64 -> 0 <= st_est_timestamp st < 2 ^ 64 ->
  (forall q3 s3, s_ptqs s3 !! nr = Some q3 -> turned nr q st q3 -> ran nr [] [] s s3 -> steps_left (s_env s3) = steps_left (s_env s) ->
     yields (k q3) s3 P) ->
  yields (take_state nr st k) s P.
Proof.
  intros Hr Hk Hq -> Herr Hc Hts Hest HP. unfold take_state, intel_pt_sample_flags.
  apply y_bind, (y_upd _ q2); [done|]. apply y_bind. eapply y_upd; [apply put_ptq_lookup|]. apply y_bind, y_gets, y_bind.
  eapply y_upd; [apply put_ptq_lookup|]. apply y_bind. eapply y_ptq; [apply put_ptq_lookup|].
  pose proof (next_clock_range q (q_state q2) ltac:(by rewrite (ready_nr _ _ Hr)) Hts Hest) as Ht.
  injection Hc as C1 C2 C3 C4 C5 C6. cbn in C1, C2, C3, C4, C5, C6.
  match goal with |- context [sample_time pt ?s' ?st' ?q'] =>
    assert (sample_time pt s' st' q' = next_clock pt kernel (q_timestamp q) st') as Et end.
  { unfold sample_time, next_clock. cbn. by rewrite Hk, C3, C5, (ready_sync _ _ Hr). }
  rewrite Et. cbn [q_timestamp]. apply HP; [apply put_ptq_lookup| | |done].
  - destruct Hr as [R1 R2 R3 R4 R5 R6]. split; [|split].
    + split; [cbn; congruence..| |done]. pose proof R5. change (0 <= next_clock pt kernel (q_timestamp q) (q_state q2) < 2 ^ 64). lia.
    + by rewrite Herr.
    + intros new. cbn [PtMerge.timed]. by rewrite Herr.
  - split; cbn [s_env put_ptq]; [|by rewrite app_nil_r| |done|eexists; apply put_ptq_lookup].
    + split; [done|]. split; [done|]. split; [done|]. intros m Hm. by rewrite !put_ptq_other by done.
    + intros m. rewrite app_nil_r. by destruct (m =? nr).
Qed.

(** Where a queue stands after an error. *)
Lemma failed_turn nr q q2 q3 st : ready nr q -> clockwork q2 = clockwork (q <| q_have_sample := false |>) -> st = q_state q2 ->
  same (q2 <| q_timestamp := st_est_timestamp st |>) q3 -> st_err st <> 0 -> 0 <= st_est_timestamp st < 2 ^ 64 ->
  turned nr q st q3.
Proof.
  intros Hr Hc Hst (C3 & F3 & S3) Herr Hest. injection Hc as C1 C2 C4 C5 C6 C7. injection C3 as D1 D2 D4 D5 D6 D7.
  cbn in C1, C2, C4, C5, C6, C7, D1, D2, D4, D5, D6, D7. destruct Hr as [R1 R2 R3 R4 R5 R6].
  assert (q_have_sample q3 = false) as Hs by congruence. apply Z.eqb_neq in Herr.
  split; [|split; [congruence|]].
  - split; (congruence || lia).
  - intros new. cbn [PtMerge.timed]. rewrite Herr. unfold due. by rewrite Hs, D6.
Qed.

Definition run_post (nr ts : Z) (q : intel_pt_queue) (s : session CR E) (rt : Z * Z) (s' : session CR E) : Prop :=
  exists q' new ys, s_ptqs s' !! nr = Some q' /\ run_end nr ts q q' new ys rt.1 rt.2 /\
    ran nr new (concat (List.map (state_branches pt) (due q ++ ys))) s s' /\
    (rt.1 = 0 -> (steps_left (s_env s') < steps_left (s_env s))%nat).

Lemma run_post_cons nr ts q q1 st s s1 rt s' : turned nr q st q1 -> (q_have_sample q1 = true -> q_timestamp q1 < ts) ->
  ran nr [st] (concat (List.map (state_branches pt) (due q))) s s1 ->
  run_post nr ts q1 s1 rt s' -> run_post nr ts q s rt s'.
Proof.
  intros (Hr & _ & Htimed) Hlt Hran (q' & new & ys & Hq' & Hend & Hran' & Hst).
  exists q', (st :: new), (due q1 ++ ys). split; [done|]. split; [by apply run_end_cons|]. split.
  - rewrite List.map_app, concat_app. exact (ran_trans _ [st] _ _ _ _ _ _ Hran Hran').
  - intros Hr0. pose proof (ran_steps _ _ _ _ _ Hran). specialize (Hst Hr0). lia.
Qed.

Lemma run_loop_ok fuel nr ts n : forall s q ff,
  present nr s -> s_ptqs s !! nr = Some q -> ready nr q -> s_kernel_start s = kernel -> (steps_left (s_env s) < n)%nat ->
  yields (loop fuel nr ts ff n) s (run_post nr ts q s).
Proof.
  induction n as [|n IH]; intros s q ff Hp Hq Hr Hk Hn; [lia|]. cbn [run_loop].
  apply y_bind. eapply y_mono.
  { apply (sample_step nr q); [done|done|apply Hr|apply Hr]. }
  intros r s1 [-> P1]. cbn [Z.eqb negb]. pose proof P1 as (_ & _ & q0 & q1 & Hq0 & Hq1 & HR1). rewrite Hq in Hq0. injection Hq0 as <-.
  destruct HR1 as (C1 & _ & _). apply stepped_ran in P1.
  apply y_bind. eapply y_mono; [apply (decode_step nr q1)|].
  { done. }
  { injection C1 as C1. by rewrite C1, <- (ready_nr _ _ Hr). }
  intros st s2 (q2 & Hq2 & Est & C2 & P2 & Hst). rewrite C1 in C2. pose proof (ran_trans _ _ _ _ _ _ _ _ P1 P2) as P. cbn [app] in P.
  rewrite app_nil_r in P.
  destruct Hst as [Hend|(Hend & Hsteps & Hts & Hest)].
  - rewrite Hend. cbn. apply y_ret. exists q2, [st], []. split; [done|].
    assert (due q2 = []) as Hd by (unfold due; injection C2 as _ _ _ -> _ _; done).
    split; [split|]; rewrite ?Hd; [|constructor| |].
    + intros more [? | ->]; [done|]. cbn. by rewrite Hend.
    + right. split; [done|]. split; [done|]. by exists st, [].
    + rewrite app_nil_r. split; [done|]. cbn. lia.
  - apply Z.eqb_neq in Hend as Hend'. rewrite Hend'. pose proof (ran_steps _ _ _ _ _ P1) as Hs1.
    assert (s_kernel_start s2 = kernel) as Hk2 by (destruct (ran_elsewhere _ _ _ _ _ P) as (_ & _ & -> & _); done).
    destruct (Z.eqb_spec (st_err st) 0) as [Herr|Herr]; cbn [negb].
    + eapply (taken nr q q2); try done. intros q3 s3 Hq3 Hturn P3 Hs3.
      pose proof (ran_trans _ _ _ _ _ _ _ _ P P3) as P4. rewrite !app_nil_r in P4.
      pose proof Hturn as (Hr3 & Hh3 & _). rewrite (ready_sel _ _ Hr3). cbn [Z.eqb negb].
      apply y_bind, y_ret. cbn [Z.eqb negb]. rewrite (bo_timed pt Hpt). cbn [negb andb].
      destruct (Z.leb_spec ts (q_timestamp q3)).
      * apply y_ret. exists q3, [st], []. split; [done|]. rewrite app_nil_r. split; [|split; [done|lia]].
        destruct Hturn as (_ & _ & Htimed). split; [intros more _; cbn [app]; by rewrite Htimed|constructor|]. left.
        rewrite Herr in Hh3. by split_and!.
      * apply (y_mono _ _ (run_post nr ts q3 s3)).
        { apply IH; [exact (ran_queues _ _ _ _ _ P4 Hp)|done|done| |lia].
          destruct (ran_elsewhere _ _ _ _ _ P4) as (_ & _ & -> & _). done. }
        intros rt s'. by apply run_post_cons with st.
    + apply y_bind. eapply y_mono.
      { apply (failed_step nr q2); [done|]. injection C2 as _ _ -> _ _ _. apply Hr. }
      intros r s3 [-> P3]. cbn [Z.eqb negb]. pose proof P3 as (_ & (_ & _ & Hs3) & q2' & q3 & Hq2' & Hq3 & HR3).
      rewrite Hq2 in Hq2'. injection Hq2' as <-. rewrite <- Est in HR3.
      pose proof (failed_turn nr q q2 q3 st Hr C2 Est HR3 Herr Hest) as Hturn.
      pose proof (ran_trans _ _ _ _ _ _ _ _ P (stepped_ran _ _ _ _ _ P3)) as P4. rewrite !app_nil_r in P4.
      apply (y_mono _ _ (run_post nr ts q3 s3)).
      { apply IH; [exact (ran_queues _ _ _ _ _ P4 Hp)|done|apply Hturn| |lia].
        destruct (ran_elsewhere _ _ _ _ _ P4) as (_ & _ & -> & _). done. }
      intros rt s'. apply run_post_cons with st; [done| |done]. destruct Hturn as (_ & -> & _). intros Hh. by apply Z.eqb_eq in Hh.
Qed.
End steps.
