(* ===== verification/PtMergeExample.v ===== *)
(** A session with decoders that play back lists of branches: an instance of the
    interface of PtMerge.v, and two queues to merge. *)
From Stdlib Require Import ZArith Lia List Bool String.
From stdpp Require Import gmap.
From S2P Require Import Prelude PktDecoder PtState PtTime AuxHeap AuxHeapTheorems AuxQueues PtTimeRange PtSession PtConfig.
From S2P Require Import CallPath ThreadStack ThreadSample PtSynth PtPebs PtFilter PtSample PtQueues PtMerge.
Open Scope Z_scope.
Open Scope c_scope.
Import ListNotations.

(** The branches to come: queue, time, source and target; and what is observed. *)
Record playback := mkPlay {
  ahead : list (Z * (Z * Z * Z));
  played : list (Z * intel_pt_state);
  heard : list synth_event
}.

Definition play_state (q : intel_pt_queue) (b : Z * Z * Z) : intel_pt_state :=
  let '(t, from_ip, to_ip) := b in
  zero_state <| st_type := INTEL_PT_BRANCH |> <| st_timestamp := u64 t |> <| st_from_ip := from_ip |> <| st_to_ip := to_ip |>
    <| st_est_timestamp := u64 (q_timestamp q) |>.
Definition end_state : intel_pt_state := zero_state <| st_err := INTEL_PT_ERR_NODATA |>.

(** Takes the first branch of a queue out of the list. *)
Fixpoint take_branch (nr : Z) (l : list (Z * (Z * Z * Z))) : option ((Z * Z * Z) * list (Z * (Z * Z * Z))) :=
  match l with
  | [] => None
  | (m, b) :: l =>
    if m =? nr then Some (b, l)
    else '(b', l) ← take_branch nr l; Some (b', (m, b) :: l)
  end.

Definition play (q : intel_pt_queue) (e : playback) : intel_pt_state * playback :=
  let '(st, l) :=
    match take_branch (q_queue_nr q) (ahead e) with
    | Some (b, l) => (play_state q b, l)
    | None => (end_state, ahead e)
    end in
  (st, mkPlay l (played e ++ [(q_queue_nr q, st)]) (heard e)).

#[export] Instance play_env : SessionEnv playback := {|
  synthesize_sample := fun _ _ e => (0, e);
  perf_session__deliver_synth_event := fun ev e => (0, mkPlay (ahead e) (played e) (heard e ++ [ev]));
  machine__get_current_tid := fun _ _ _ => -1;
  machine__set_current_tid := fun _ _ _ _ e => (0, e);
  machine__find_thread := fun _ _ _ _ => None;
  machine__findnew_thread := fun _ _ _ e => (None, e);
  machines__find := fun _ _ => None;
  machine__kernel_start := fun _ _ => 2 ^ 63;
  machine__kernel_map := fun _ _ => None;
  thread_cpu := fun _ _ => -1;
  thread_guest_cpu := fun _ _ => -1;
  get_thread := fun _ _ => no_thread;
  put_thread := fun _ _ e => e;
  map__find_symbol := fun _ _ => None;
  __map__is_kernel := fun _ => false;
  sort_mode_branch := false
|}.

#[export] Instance play_decoders : Decoders playback := {|
  decode := fun q e => let '(st, e) := play q e in Ret (q <| q_decoder ::= fun d => d <| d_state := st |> |>, e);
  fast_forward := fun _ q e => Ret (0, q, e)
|}.

#[export] Instance play_events : EventEnv playback := {|
  evlist__id2evsel := fun _ => None;
  evlist__id2evsel_strict := fun _ => None;
  evlist__id2sid := fun _ => None;
  evsel__next_pid := fun _ => 0;
  aux_sample_size := fun _ => 0;
  set_current_decode := fun _ _ e => e;
  text_poke := fun _ e => (0, e);
  dump_trace := false;
  tool_ordered_events := true
|}.

#[export] Instance play_perf : PerfEnv := {|
  thread__find_map := fun _ _ _ => None;
  dso__is_64_bit := fun _ => true;
  dso__long_name := fun _ => "a.out"%string;
  dso__data_size := fun _ _ => 0;
  dso__status_error := fun _ => false;
  dso__data_read_offset := fun _ _ _ _ => (0, []);
  machine_pid := fun _ => 0;
  machines__find_guest := fun _ => None;
  machines__findnew_guest_code := fun _ => None;
  machine__idle_thread := fun _ => None;
  symbol_conf_guest_code := false;
  config_cache_divisor := 0
|}.

Definition played_by (e : playback) (nr : Z) : list intel_pt_state :=
  List.map snd (List.filter (fun x => x.1 =? nr) (played e)).

Lemma take_branch_shorter nr l b l' : take_branch nr l = Some (b, l') -> length l = S (length l').
Proof.
  revert b l'. induction l as [|[m b0] l IH]; intros b l'; cbn; [done|].
  destruct (m =? nr); [by intros [= <- <-]|]. destruct (take_branch nr l) as [[b1 l1]|]; [|done].
  intros [= <- <-]. cbn. by rewrite (IH b1 l1).
Qed.

Lemma play_decode_ok q e : exists q' e', decode q e = Ret (q', e') /\ clockwork q' = clockwork q /\
  heard e' = heard e /\
  (forall nr, played_by e' nr = if nr =? q_queue_nr q then played_by e nr ++ [q_state q'] else played_by e nr) /\
  (st_err (q_state q') = INTEL_PT_ERR_NODATA /\ length (ahead e') = length (ahead e) \/
   st_err (q_state q') <> INTEL_PT_ERR_NODATA /\ (length (ahead e') < length (ahead e))%nat /\ 0 <= st_timestamp (q_state q') < 2 ^ 64 /\
   0 <= st_est_timestamp (q_state q') < 2 ^ 64).
Proof.
  cbn [decode play_decoders]. unfold play.
  assert (forall st nr, played_by (mkPlay (ahead e) (played e ++ [(q_queue_nr q, st)]) (heard e)) nr
    = if nr =? q_queue_nr q then played_by e nr ++ [st] else played_by e nr) as Hplayed.
  { intros st nr. unfold played_by. cbn. rewrite List.filter_app, List.map_app. cbn. rewrite Z.eqb_sym.
    destruct (nr =? q_queue_nr q); [done|]. by rewrite app_nil_r. }
  destruct (take_branch (q_queue_nr q) (ahead e)) as [[[[t from_ip] to_ip] l]|] eqn:Et; cbn.
  - eexists _, _. split; [done|]. split; [done|]. split; [done|]. split; [by intros nr; rewrite <- Hplayed|]. right. cbn.
    split; [done|]. apply take_branch_shorter in Et. split; [lia|]. split; apply u64_range.
  - eexists _, _. split; [done|]. split; [done|]. split; [done|]. split; [by intros nr; rewrite <- Hplayed|]. by left.
Qed.

Lemma play_deliver_ok ev (e : playback) : exists e', perf_session__deliver_synth_event ev e = (0, e') /\
  heard e' = heard e ++ [ev] /\ (forall nr, played_by e' nr = played_by e nr) /\ length (ahead e') = length (ahead e).
Proof. by eexists. Qed.

#[export] Instance play_observed : ObservedEnv playback := {|
  delivered := heard;
  returned := played_by;
  steps_left e := length (ahead e);
  kernel := 2 ^ 63;
  kernel_start_fixed _ _ := eq_refl;
  threads_bare _ _ := eq_refl;
  put_thread_silent _ _ _ := conj eq_refl (conj (fun _ => eq_refl) eq_refl);
  current_decode_silent _ _ _ := conj eq_refl (conj (fun _ => eq_refl) eq_refl);
  deliver_ok := play_deliver_ok;
  decode_ok := play_decode_ok
|}.

(** ** Two queues *)

Definition play_options : itrace_synth_opts :=
  mkOpts false false false false false true false false false false false false false false 0 0 PERF_ITRACE_PERIOD_INSTRUCTIONS 0 0 0.
Definition off : synth_kind := mkKind false 0 0.
(** Time in ticks; estimates are used, as they are whenever there are times. *)
Definition play_config : session_config :=
  mkConfig [] None 0 0 8 0 None false false false true true false false false false 0 0 (mkTc 0 1 0 0 0 false) true
    play_options off off (mkKind true 0 7) 0 off off false 0 0 0 0 0 0 0 false false None 0 0 0 0 0 0 0 0 0 0 0 0 0 [] [].

Lemma play_branches_only : branches_only play_config.
Proof. by split. Qed.

(** A queue whose first branch is due. *)
Definition play_queue (nr t : Z) : intel_pt_queue :=
  let q := zero_queue <| q_queue_nr := nr |> <| q_on_heap := true |> <| q_timestamp := t |> <| q_have_sample := true |>
    <| q_decoder ::= fun d => d <| d_state := play_state zero_queue (t, 1000 + t, 2000 + t) |> |> in
  sample_flags play_config (q_state q) q.

Definition play_heap : auxtrace_heap := mkHeap ([mkItem 0 10; mkItem 1 12] ++ replicate 30 (mkItem 0 0)) 2 32.
Definition play_ahead : list (Z * (Z * Z * Z)) :=
  [(0, (11, 1, 2)); (0, (20, 3, 4)); (1, (12, 5, 6)); (1, (19, 7, 8)); (0, (18, 9, 10)); (1, (40, 11, 12))].
Definition play_session : session unit playback :=
  mkSession 0 false false false 0 0 0 0 play_heap
    (mkQueues (replicate 2 (mkQueue [] (-1) (-1) false None)) 2 false true 0)
    (<[0 := play_queue 0 10]> (<[1 := play_queue 1 12]> ∅)) (mkChain 0 []) (mkBs 0 [])
    (mkWorld (mkCpr [] 0 0 0) (fun _ => true) tt) (mkPlay play_ahead [] []).
