(* ===== verification/PtMergeClaims.v ===== *)
(** The samples of a session come out in the order of time: the loop over the
    queues, [intel_pt_process_queues], merges the states of all of them. *)
From Stdlib Require Import ZArith Lia List Bool Sorted Permutation.
From stdpp Require Import gmap.
From S2P Require Import Prelude PktDecoder PtState PtTime AuxHeap AuxHeapTheorems AuxQueues PtTimeRange PtSession PtConfig.
From S2P Require Import ThreadStack PtBatch PtSynth PtPebs PtFilter PtSample PtQueues PtMerge PtMergeExample.
Open Scope Z_scope.
Open Scope c_scope.
Import ListNotations.

Section merge.
Context {CR E : Type} `{SessionEnv E} `{PerfEnv} `{Decoders E} `{EventEnv E} `{!ObservedEnv E}.
Context (pt : session_config) (Hpt : branches_only pt).
Context (process : call_return -> option Z -> CR -> Z * Z * CR) (garbage : thread_stack_entry) (uninit : heap_item).
Context (filter : func_filter) (Hfilter : ff_on filter = false).

(** ** What is on the heap *)

(** Every item stands for a queue that is ready, at its time. *)
Definition waiting (s : session CR E) (x : heap_item) : Prop :=
  exists q, s_ptqs s !! hi_queue_nr x = Some q /\ ready pt (hi_queue_nr x) q /\ q_timestamp q = hi_ordinal x /\
    hi_queue_nr x < Z.of_nat (length (queue_array (s_queues s))).

Record merge_inv (s : session CR E) : Prop := {
  inv_heap : heap_wf (s_heap s);
  inv_waiting : Forall (waiting s) (items (s_heap s));
  inv_kernel : s_kernel_start s = 0 \/ s_kernel_start s = kernel
}.

Lemma find_kernel_yields s P : s_kernel_start s = 0 \/ s_kernel_start s = kernel ->
  P tt (s <| s_kernel_start := kernel |>) -> yields (@find_kernel CR E _ pt) s P.
Proof.
  intros Hk HP. apply y_bind, y_gets. destruct (Z.eqb_spec (s_kernel_start s) 0) as [E0|E0]; cbn [negb].
  - apply y_bind, y_modify. rewrite (bo_switches pt Hpt). cbn [Z.eqb orb]. rewrite andb_false_r. cbn [andb].
    apply y_ret. by rewrite kernel_start_fixed.
  - apply y_ret. destruct Hk as [Hk|Hk]; [done|]. rewrite <- Hk in HP. by destruct s.
Qed.

Lemma current_decode_calm nr : calm nr (@current_decode CR E _ nr).
Proof.
  apply keeps_bind; [exact _|keep|]. intros q s [[q0 Hq] _]. apply y_modify.
  destruct (current_decode_silent (q_cpu q) (q_tid q) (s_env s)) as (E1 & E2 & E3).
  split; [done|]. split; [|by exists q0, q0]. split; [|done]. cbn [s_env]. by rewrite app_nil_r, <- E1.
Qed.

Lemma run_post_same nr ts q q1 (s s1 : session CR E) rt s' : same q q1 -> ran nr [] [] s s1 ->
  run_post pt nr ts q1 s1 rt s' -> run_post pt nr ts q s rt s'.
Proof.
  intros (C & _ & Es) Hran (q' & new & ys & Hq' & [E1 E3 E4] & Hran' & Hst). injection C as _ _ _ C4 C5 _.
  assert (due q1 = due q) as Ed by (unfold due; by rewrite C4, C5, Es).
  exists q', new, ys. split; [done|]. rewrite C5 in *. rewrite <- Ed. split; [by split|]. split.
  - exact (ran_trans _ _ _ _ _ _ _ _ Hran Hran').
  - intros Hr0. specialize (Hst Hr0). pose proof (ran_steps _ _ _ _ _ Hran). lia.
Qed.

(** The run of the queue taken off the heap, after the quiet steps before it. *)
Lemma run_decoder_ok fuel nr q ts (s s1 : session CR E) : present nr s -> s_ptqs s !! nr = Some q -> ready pt nr q ->
  s_kernel_start s = 0 \/ s_kernel_start s = kernel -> (steps_left (s_env s) < fuel)%nat -> stepped same nr [] s s1 ->
  yields (@intel_pt_run_decoder CR E _ _ _ pt filter None process garbage fuel nr ts) s1
    (run_post pt nr ts q (s <| s_kernel_start := kernel |>)).
Proof.
  intros Hp Hq Hr Hk Hf Q1. pose proof Q1 as ((El1 & El2 & El3 & El4) & Sil & q0 & q1 & Hq0 & Hq1 & Same1).
  rewrite Hq in Hq0. injection Hq0 as <-.
  assert (stepped same nr [] (s <| s_kernel_start := kernel |>) (s1 <| s_kernel_start := kernel |>)) as Q2.
  { split; [by split_and!|]. split; [done|]. by exists q, q1. }
  apply y_bind, find_kernel_yields; [by rewrite El3|]. eapply y_mono.
  { apply run_loop_ok with (q := q1); try done.
    - exact (present_stepped _ _ _ _ _ Q1 Hp).
    - destruct Same1 as (C1 & F1 & S1). apply clockwork_ready with q; [done|done|]. rewrite F1, S1.
      injection C1 as _ _ _ -> _ _. apply Hr.
    - destruct Sil as (_ & _ & Est). change (steps_left (s_env s1) < fuel)%nat. by rewrite Est. }
  intros rt s'. apply run_post_same; [done|]. by apply (stepped_ran same).
Qed.

(** ** The heap *)

Lemma pop_sz h h' : auxtrace_heap__pop h = Some h' -> heap_sz h' = heap_sz h.
Proof.
  unfold auxtrace_heap__pop. destruct (heap_cnt h =? 0); [congruence|].
  destruct (AuxHeap.pop_loop _ _ _ _) as [[arr [pos|]]|]; [| |done]; [|by intros [= <-]].
  cbn [mbind option_bind]. destruct (idx arr _) as [x|]; [|done].
  cbn [mbind option_bind]. destruct (auxtrace_heapify _ _ _ _); [|done]. by intros [= <-].
Qed.

(** The item taken off, and the time up to which its queue may run. *)
Lemma u64_le z : 0 <= z -> u64 z <= z.
Proof. intros Hz. rewrite u64_mod. apply Z.mod_le; lia. Qed.

Definition run_until {A} (T : Z) (k : Z -> SM CR E A) : SM CR E A :=
  heap ← sgets s_heap;
  ts ← (if negb (heap_cnt heap =? 0) then
          top ← snull (idx (heap_array heap) 0);
          mret (Z.min (u64 (hi_ordinal top + 1)) T)
        else mret T);
  k ts.

Lemma heap_empty h : heap_wf h -> heap_cnt h = 0 -> items h = [].
Proof. intros _ Hc. unfold items. by rewrite Hc. Qed.

Lemma run_until_yields {A} T (k : Z -> SM CR E A) (s : session CR E) P : heap_wf (s_heap s) -> Forall (fun y => 0 <= hi_ordinal y) (items (s_heap s)) ->
  (forall ts, ts <= T -> Forall (fun y => ts <= hi_ordinal y + 1) (items (s_heap s)) -> yields (k ts) s P) ->
  yields (run_until T k) s P.
Proof.
  intros Hw Hpos HP. apply y_bind, y_gets, y_bind. destruct (Z.eqb_spec (heap_cnt (s_heap s)) 0) as [E0|E0]; cbn [negb].
  - apply y_ret, HP; [lia|]. by rewrite heap_empty.
  - destruct (pop_ok _ Hw) as (h' & _ & _ & [[? _]|(x & Ex & Hp & Hle)]); [lia|].
    apply y_bind, (y_some _ x); [done|]. apply y_ret, HP; [lia|].
    assert (x ∈ items (s_heap s)) as Hx by (rewrite Hp; left).
    rewrite List.Forall_forall in Hpos, Hle |- *. intros y Hy. specialize (Hle y Hy).
    specialize (Hpos x ltac:(by apply list_elem_of_In)). pose proof (u64_le (hi_ordinal x + 1)). lia.
Qed.

(** ** One turn *)

Abbreviation timed := (timed pt kernel).

Definition no_more_data (new : list intel_pt_state) : Prop :=
  exists st pre, new = pre ++ [st] /\ st_err st = INTEL_PT_ERR_NODATA.

(** A turn takes the first item, [x], off the heap, the states [xs] of its queue
    are sampled, and the queue is put back, or is done. *)
Record turn (T : Z) (s s' : session CR E) (x : heap_item) (rest : list heap_item) (q q' : intel_pt_queue)
    (new : list intel_pt_state) (xs : list (Z * intel_pt_state)) : Prop := {
  turn_first : items (s_heap s) ≡ₚ (x :: rest);
  turn_queue : s_ptqs s !! hi_queue_nr x = Some q /\ s_ptqs s' !! hi_queue_nr x = Some q';
  turn_others m : m <> hi_queue_nr x -> s_ptqs s' !! m = s_ptqs s !! m;
  turn_reported : branches (delivered (s_env s')) = branches (delivered (s_env s)) ++ concat (List.map (state_branches pt) xs);
  turn_returned m : returned (s_env s') m = returned (s_env s) m ++ (if m =? hi_queue_nr x then new else []);
  turn_times : Forall (fun y => y.1 < T /\ Forall (fun z => y.1 <= hi_ordinal z) rest) xs;
  turn_inv : merge_inv s';
  turn_end :
    (exists t, items (s_heap s') ≡ₚ (mkItem (hi_queue_nr x) t :: rest)) /\ (steps_left (s_env s') < steps_left (s_env s))%nat /\
      q_have_sample q' = true /\ (forall more, due q ++ timed (q_timestamp q) (new ++ more) = xs ++ due q' ++ timed (q_timestamp q') more) \/
    (items (s_heap s') ≡ₚ rest) /\ (steps_left (s_env s') <= steps_left (s_env s))%nat /\ due q ++ timed (q_timestamp q) new = xs /\
      q_on_heap q' = false /\ due q' = [] /\ no_more_data new
}.

Abbreviation first_turn := (@process_first CR E _ _ _ _ pt filter None process garbage uninit).

Lemma item_queue x rest (s : session CR E) : merge_inv s -> (items (s_heap s) ≡ₚ x :: rest) ->
  waiting s x /\ Forall (waiting s) rest /\ (hi_queue_nr x ∉ queue_nrs rest) /\ 0 <= hi_queue_nr x < heap_sz (s_heap s).
Proof.
  intros [Hw Hq _] Hp. rewrite Hp in Hq. apply List.Forall_cons_iff in Hq as [Hx Hrest].
  pose proof (wf_once _ Hw) as Hd. unfold queue_nrs in Hd. rewrite Hp in Hd. cbn in Hd. apply list.NoDup_cons in Hd as [Hd _].
  pose proof (wf_nrs _ Hw) as Hn. rewrite Hp in Hn. apply List.Forall_cons_iff in Hn as [Hn _]. done.
Qed.

(** A queue that has not been touched is still waiting. *)
Lemma waiting_kept (s s' : session CR E) nr rest : nr ∉ queue_nrs rest -> Forall (waiting s) rest ->
  s_queues s' = s_queues s -> (forall m, m <> nr -> s_ptqs s' !! m = s_ptqs s !! m) -> Forall (waiting s') rest.
Proof.
  intros Hnew Hf Eq Hkept. rewrite List.Forall_forall in Hf |- *. intros x Hx. destruct (Hf x Hx) as (q & Hq & ? & ? & ?).
  exists q. rewrite Eq, Hkept; [done|]. intros E'. apply Hnew. rewrite <- E'. apply list_elem_of_fmap. exists x.
  split; [done|]. by apply list_elem_of_In.
Qed.

(** The states sampled in a run are no later than the time of any other queue. *)
Lemma run_times T ts nr q q' new ys r t rest : run_end pt nr ts q q' new ys r t -> q_timestamp q < T -> ts <= T ->
  Forall (fun z => q_timestamp q <= hi_ordinal z) rest -> Forall (fun z => ts <= hi_ordinal z + 1) rest ->
  Forall (fun y => y.1 < T /\ Forall (fun z => y.1 <= hi_ordinal z) rest) (due q ++ ys).
Proof.
  intros [_ Hb _] HqT HtsT Hrest Hnext. apply List.Forall_app. split.
  - unfold due. destruct (q_have_sample q); [|done]. by repeat constructor.
  - eapply List.Forall_impl; [|exact Hb]. intros y Hy. cbn in Hy. split; [lia|].
    eapply List.Forall_impl; [|exact Hnext]. cbn. lia.
Qed.

Lemma first_turn_ok fuel T (s : session CR E) : merge_inv s -> (steps_left (s_env s) < fuel)%nat ->
  yields (first_turn fuel T) s (fun r s' =>
    r = Some 0 /\ s' = s /\ Forall (fun x => T <= hi_ordinal x) (items (s_heap s)) \/
    r = None /\ exists x rest q q' new xs, turn T s s' x rest q q' new xs).
Proof.
  intros Hinv Hfuel. pose proof Hinv as [Hw Hq Hk]. apply y_bind, y_gets.
  destruct (pop_ok _ Hw) as (h1 & Epop & Hw1 & Hpop). destruct (Z.eqb_spec (heap_cnt (s_heap s)) 0) as [E0|E0].
  { apply y_ret. left. split; [done|]. split; [done|]. by rewrite heap_empty. }
  destruct Hpop as [[? _]|(x & Ex & Hp & Hle)]; [lia|].
  destruct (item_queue x (items h1) s Hinv Hp) as ((q & Hqx & Hr & Ht & Hin) & Hrest & Hnew & Hnr).
  apply y_bind, (y_some _ x); [done|].
  destruct (Z.leb_spec T (hi_ordinal x)) as [HT|HT].
  { apply y_ret. left. split; [done|]. split; [done|]. eapply List.Forall_impl; [|exact Hle]. cbn. lia. }
  apply y_bind. apply y_bind, y_gets, y_bind, (y_some _ h1); [done|]. apply y_modify.
  set (s1 := s <| s_heap := h1 |>).
  assert (present (hi_queue_nr x) s1) as Hp1 by (split; [by exists q|cbn; lia]).
  apply run_until_yields; [done| |].
  { eapply List.Forall_impl; [|exact Hrest]. intros y (qy & _ & Hy & <- & _). apply Hy. }
  intros ts Hts Hnext. apply y_bind. eapply y_mono; [apply set_pid_tid_cpu_calm; exact Hp1|]. intros u2 s2 Q2.
  apply y_bind. eapply y_mono; [apply current_decode_calm; exact (present_stepped _ _ _ _ _ Q2 Hp1)|]. intros u3 s3 Q3.
  pose proof (quiet_trans _ _ _ _ _ _ Q2 Q3) as Q. cbn [app] in Q.
  apply y_bind. eapply y_mono; [by apply (run_decoder_ok fuel (hi_queue_nr x) q ts s1)|].
  intros [r t] s4 (q' & new & ys & Hq' & Hend & Hran & Hsteps). cbn [fst snd] in *.
  pose proof Hran as [(Eh & Eq & Ek & Hoth) Hrep Hret Hst _]. change (s_heap s4 = h1) in Eh. change (s_queues s4 = s_queues s) in Eq.
  change (s_kernel_start s4 = kernel) in Ek. change (forall m, m <> hi_queue_nr x -> s_ptqs s4 !! m = s_ptqs s !! m) in Hoth.
  rewrite Hp in Hle. apply List.Forall_cons_iff in Hle as [_ Hle]. rewrite <- Ht in Hle, HT.
  pose proof (run_times T ts _ q q' new ys r t (items h1) Hend HT Hts Hle Hnext) as Htimes. rewrite Ht in Hle, HT.
  assert (forall m, returned (s_env s4) m = returned (s_env s) m ++ (if m =? hi_queue_nr x then new else [])) as Hret'.
  { intros m. rewrite Hret. destruct (m =? hi_queue_nr x); [done|]. by rewrite app_nil_r. }
  destruct (end_how _ _ _ _ _ _ _ _ _ Hend) as [(-> & Et & Hlt & Hhs & Hr')|(-> & Hd & Hnm)].
  - cbn [Z.ltb Z.compare Z.eqb]. apply y_bind, heap_add_yields; rewrite ?Eh; [done|done|by rewrite (pop_sz _ _ Epop)|].
    intros h Hwh Hih. apply y_ret. right. split; [done|]. exists x, (items h1), q, q', new, (due q ++ ys).
    set (s5 := s4 <| s_heap := h |>).
    split; [done|done|done|done|done|done| |].
    + split; [done| |by right]. change (items (s_heap s5)) with (items h). rewrite Hih. constructor.
      * exists q'. change (s_queues s5) with (s_queues s4). rewrite Eq. cbn. by split_and!.
      * by apply (waiting_kept s s5 (hi_queue_nr x)).
    + left. split; [by exists t|]. split; [by apply Hsteps|]. split; [done|]. intros more.
      rewrite (end_states _ _ _ _ _ _ _ _ _ Hend) by (by left). by rewrite app_assoc.
  - cbn [Z.ltb Z.compare Z.eqb]. apply y_bind, (y_upd _ q'); [done|]. apply y_ret. right. split; [done|].
    set (q5 := q' <| q_on_heap := false |>). set (s5 := put_ptq (hi_queue_nr x) q5 s4).
    assert (forall m, m <> hi_queue_nr x -> s_ptqs s5 !! m = s_ptqs s !! m) as Hoth5.
    { intros m Hm. unfold s5. rewrite put_ptq_other by done. by apply Hoth. }
    exists x, (items h1), q, q5, new, (due q ++ ys). change (items (s_heap s5)) with (items (s_heap s4)).
    split; [done|split; [done|apply put_ptq_lookup]|done|done|done|done| |];
      change (s_heap s5) with (s_heap s4); rewrite ?Eh.
    + split; [by rewrite <- Eh in Hw1| |by right]. change (s_heap s5) with (s_heap s4). rewrite Eh. by apply (waiting_kept s s5 (hi_queue_nr x)).
    + right. split; [done|]. split; [done|]. split; [|done].
      pose proof (end_states _ _ _ _ _ _ _ _ _ Hend [] ltac:(by right)) as Hes. rewrite Hd, !app_nil_r in Hes. by rewrite Hes.
Qed.

(** ** All turns *)

(** The states sampled, in order, each with its queue and its time. *)
Definition samples : Type := list (Z * (Z * intel_pt_state)).
Definition of_queue (nr : Z) (l : samples) : list (Z * intel_pt_state) := List.map snd (List.filter (fun x => x.1 =? nr) l).
Definition times (l : samples) : list Z := List.map (fun x => x.2.1) l.
Definition of_one (nr : Z) (xs : list (Z * intel_pt_state)) : samples := List.map (pair nr) xs.

Lemma of_queue_app nr l1 l2 : of_queue nr (l1 ++ l2) = of_queue nr l1 ++ of_queue nr l2.
Proof. unfold of_queue. by rewrite List.filter_app, List.map_app. Qed.
Lemma of_queue_one nr m xs : of_queue nr (of_one m xs) = if nr =? m then xs else [].
Proof.
  induction xs as [|x xs IH]; [by destruct (nr =? m)|]. unfold of_queue, of_one in *. cbn. rewrite (Z.eqb_sym m nr).
  destruct (nr =? m); cbn; congruence.
Qed.
Lemma times_one nr xs : times (of_one nr xs) = List.map fst xs.
Proof. unfold times, of_one. by rewrite List.map_map. Qed.
Lemma snd_one nr xs : List.map snd (of_one nr xs) = xs.
Proof. unfold of_one. rewrite List.map_map. apply List.map_id. Qed.

(** What has become of queue [nr], of which the states [xs] were sampled: they are
    the states it was to sample first, with the times of the queue, and those left
    are still to come; it waits on the heap, or its decoder has no more data.
    ([more] stands for what the decoder will return.) *)
Definition queue_sampled (s s' : session CR E) (nr : Z) (xs : list (Z * intel_pt_state)) : Prop :=
  exists new, returned (s_env s') nr = returned (s_env s) nr ++ new /\
    if decide (nr ∈ queue_nrs (items (s_heap s))) then
      exists q q', s_ptqs s !! nr = Some q /\ s_ptqs s' !! nr = Some q' /\
        (nr ∈ queue_nrs (items (s_heap s')) /\
           (forall more, due q ++ timed (q_timestamp q) (new ++ more) = xs ++ due q' ++ timed (q_timestamp q') more) \/
         (nr ∉ queue_nrs (items (s_heap s'))) /\ due q ++ timed (q_timestamp q) new = xs /\
           q_on_heap q' = false /\ due q' = [] /\ no_more_data new)
    else new = [] /\ xs = [] /\ s_ptqs s' !! nr = s_ptqs s !! nr /\ (nr ∉ queue_nrs (items (s_heap s'))).

(** The times of each queue on the heap do not go back: not from the time it waits
    at, nor from sample to sample. *)
Definition in_order (s : session CR E) (l : samples) : Prop :=
  forall nr q, s_ptqs s !! nr = Some q -> nr ∈ queue_nrs (items (s_heap s)) ->
    StronglySorted Z.le (q_timestamp q :: List.map fst (of_queue nr l)).

Record merged (T : Z) (s s' : session CR E) (l : samples) : Prop := {
  merged_reported : branches (delivered (s_env s')) = branches (delivered (s_env s)) ++ concat (List.map (state_branches pt) (List.map snd l));
  merged_sorted : in_order s l -> StronglySorted Z.le (times l);
  merged_before : Forall (fun t => t < T) (times l);
  merged_queues nr : queue_sampled s s' nr (of_queue nr l);
  merged_waiting : Forall (fun x => T <= hi_ordinal x) (items (s_heap s'));
  merged_inv : merge_inv s'
}.

Lemma merged_done T s : merge_inv s -> Forall (fun x => T <= hi_ordinal x) (items (s_heap s)) -> merged T s s [].
Proof.
  intros Hinv HT. split; [by rewrite app_nil_r|intros _; constructor|constructor| |done|done]. intros nr. exists []. rewrite app_nil_r.
  split; [done|]. destruct (decide _) as [Hin|Hout]; [|done].
  apply list_elem_of_fmap in Hin as Hx. destruct Hx as (x & -> & Hx).
  pose proof (inv_waiting _ Hinv) as Hq. rewrite List.Forall_forall in Hq. destruct (Hq x) as (q & Hqx & _); [by apply list_elem_of_In|].
  exists q, q. split; [done|]. split; [done|]. by left.
Qed.

Lemma elem_nrs_perm nr l1 l2 : l1 ≡ₚ l2 -> nr ∈ queue_nrs l1 <-> nr ∈ queue_nrs l2.
Proof. intros Hp. unfold queue_nrs. by rewrite Hp. Qed.

Lemma turn_queue_sampled T s s1 s2 x rest q q1 new xs nr ys : turn T s s1 x rest q q1 new xs -> merge_inv s ->
  queue_sampled s1 s2 nr ys -> queue_sampled s s2 nr ((if nr =? hi_queue_nr x then xs else []) ++ ys).
Proof.
  intros [T1 [T2 T2'] T3 T4 T5 T6 T7 T8] Hinv (new2 & Hret & Hif).
  destruct (item_queue x rest s Hinv T1) as (_ & _ & Hnew & _).
  assert (forall y l, queue_nrs (y :: l) = hi_queue_nr y :: queue_nrs l) as Hcons by done.
  exists ((if nr =? hi_queue_nr x then new else []) ++ new2). rewrite T5 in Hret. rewrite Hret, app_assoc. split; [done|].
  pose proof (elem_nrs_perm nr _ _ T1) as Hin. rewrite Hcons, elem_of_cons in Hin.
  destruct (Z.eqb_spec nr (hi_queue_nr x)) as [-> |Hne].
  - rewrite decide_True by tauto. destruct T8 as [((t & Ht) & _ & _ & Hmore)|(Hr & _ & Hall & Hoh & Hd & Hnm)].
    + pose proof (elem_nrs_perm (hi_queue_nr x) _ _ Ht) as Hin1. rewrite Hcons, elem_of_cons in Hin1. cbn [hi_queue_nr] in Hin1.
      rewrite decide_True in Hif by tauto. destruct Hif as (q1' & q2 & Hq1 & Hq2 & Hcase). rewrite T2' in Hq1. injection Hq1 as <-.
      exists q, q2. split; [done|]. split; [done|]. destruct Hcase as [(Hi & Hm)|(Hi & Ha & ? & ? & st & pre & -> & ?)].
      * left. split; [done|]. intros more. by rewrite <- app_assoc, Hmore, Hm, !app_assoc.
      * right. split; [done|]. rewrite Hmore, Ha. split; [done|]. split; [done|]. split; [done|].
        exists st, (new ++ pre). by rewrite app_assoc.
    + rewrite decide_False in Hif by (rewrite (elem_nrs_perm _ _ _ Hr); done). destruct Hif as (-> & -> & Hsame & Hi).
      exists q, q1. split; [done|]. rewrite Hsame. split; [done|]. right. by rewrite !app_nil_r.
  - cbn [app]. destruct (decide (nr ∈ queue_nrs (items (s_heap s1)))) as [Hi1|Hi1].
    all: assert (nr ∈ queue_nrs (items (s_heap s1)) <-> nr ∈ queue_nrs rest) as Hir.
    1,3: destruct T8 as [((t & Ht) & _)|(Hr & _)]; [rewrite (elem_nrs_perm nr _ _ Ht), Hcons, elem_of_cons; cbn [hi_queue_nr]; tauto
           |by apply elem_nrs_perm].
    + rewrite decide_True by tauto. by rewrite <- T3 by done.
    + rewrite decide_False by tauto. by rewrite <- T3 by done.
Qed.

Lemma StronglySorted_app_parts l1 l2 : StronglySorted Z.le (l1 ++ l2) ->
  StronglySorted Z.le l1 /\ StronglySorted Z.le l2 /\ (forall a b, In a l1 -> In b l2 -> a <= b).
Proof.
  induction l1 as [|a l1 IH]; [split; [constructor|split; [done|by intros]]|]. cbn. intros Hs.
  apply StronglySorted_inv in Hs as [Hs Ha]. destruct (IH Hs) as (H1' & H2' & H3'). rewrite List.Forall_forall in Ha.
  split; [constructor; [done|]|split; [done|]].
  - apply List.Forall_forall. intros b Hb. apply Ha. apply List.in_app_iff. by left.
  - intros a' b [<-|Ha'] Hb; [|by apply H3']. apply Ha. apply List.in_app_iff. by right.
Qed.

Lemma StronglySorted_app_le l1 l2 : StronglySorted Z.le l1 -> StronglySorted Z.le l2 ->
  Forall (fun a => Forall (fun b => a <= b) l2) l1 -> StronglySorted Z.le (l1 ++ l2).
Proof.
  induction 1 as [|a l1 Hs IH Ha]; intros H2' Hall; [done|]. apply List.Forall_cons_iff in Hall as [Hal Hall].
  cbn. constructor; [by apply IH|]. by apply List.Forall_app.
Qed.

(** What is sampled later, of any queue on the heap, is in order after what is
    sampled in a turn. *)
Lemma turn_in_order T s s1 s2 x rest q q1 new xs l : turn T s s1 x rest q q1 new xs -> merge_inv s -> merged T s1 s2 l ->
  in_order s (of_one (hi_queue_nr x) xs ++ l) -> in_order s1 l.
Proof.
  intros Ht Hinv Hm Ho nr q2 Hq2 Hin. pose proof Ht as [T1 [T2 T2'] T3 _ _ _ _ T8].
  assert (nr = hi_queue_nr x \/ nr <> hi_queue_nr x /\ nr ∈ queue_nrs rest) as Hnr.
  { destruct (Z.eq_dec nr (hi_queue_nr x)) as [->|Hne]; [by left|right]. split; [done|].
    destruct T8 as [((t & Hp) & _)|(Hp & _)]; rewrite (elem_nrs_perm nr _ _ Hp) in Hin; [|done].
    cbn in Hin. by apply elem_of_cons in Hin as [->|]. }
  assert (forall m, m ∈ queue_nrs (x :: rest) -> m ∈ queue_nrs (items (s_heap s))) as Hs by (intros m; by rewrite (elem_nrs_perm m _ _ T1)).
  destruct Hnr as [->|[Hne Hr]].
  - specialize (Ho _ q T2 (Hs _ ltac:(left))). rewrite of_queue_app, of_queue_one, Z.eqb_refl, List.map_app in Ho.
    rewrite app_comm_cons in Ho. apply StronglySorted_app_parts in Ho as (_ & Ho & _).
    rewrite T2' in Hq2. injection Hq2 as <-.
    destruct (merged_queues _ _ _ _ Hm (hi_queue_nr x)) as (new2 & _ & Hif). rewrite decide_True in Hif by done.
    destruct Hif as (q1' & q2 & Hq1 & _ & Hcase). rewrite T2' in Hq1. injection Hq1 as <-.
    destruct T8 as [(_ & _ & Hhs & _)|(Hp & _)].
    2:{ rewrite (elem_nrs_perm _ _ _ Hp) in Hin. by destruct (item_queue x rest s Hinv T1) as (_ & _ & ? & _). }
    assert (forall a b, due q1 ++ a = of_queue (hi_queue_nr x) l ++ b ->
      StronglySorted Z.le (q_timestamp q1 :: List.map fst (of_queue (hi_queue_nr x) l))) as Hfirst.
    { unfold due. rewrite Hhs. intros a b Hab. destruct (of_queue (hi_queue_nr x) l) as [|y ys]; [by repeat constructor|].
      injection Hab as <- _. cbn in Ho |- *. apply StronglySorted_inv in Ho as [Ho1 Ho2]. repeat constructor; [done|done|lia|done]. }
    destruct Hcase as [(_ & He)|(_ & He & _)]; [|eapply (Hfirst _ []); by rewrite He, app_nil_r].
    eapply Hfirst. exact (He []).
  - rewrite T3 in Hq2 by done. specialize (Ho nr q2 Hq2 (Hs _ ltac:(by right))).
    rewrite of_queue_app, of_queue_one, (proj2 (Z.eqb_neq _ _) Hne) in Ho. exact Ho.
Qed.

Lemma turn_times_sorted T s s1 s2 x rest q q1 new xs l : turn T s s1 x rest q q1 new xs -> merge_inv s -> merged T s1 s2 l ->
  in_order s (of_one (hi_queue_nr x) xs ++ l) -> StronglySorted Z.le (List.map fst xs ++ times l).
Proof.
  intros Ht Hinv Hm Ho. pose proof Ht as [T1 [T2 T2'] T3 _ _ T6 _ T8].
  assert (forall m, m ∈ queue_nrs (x :: rest) -> m ∈ queue_nrs (items (s_heap s))) as Hs by (intros m; by rewrite (elem_nrs_perm m _ _ T1)).
  pose proof (Ho _ q T2 (Hs _ ltac:(left))) as Hx. rewrite of_queue_app, of_queue_one, Z.eqb_refl, List.map_app in Hx.
  apply StronglySorted_inv in Hx as [Hx _]. apply StronglySorted_app_parts in Hx as (Hx1 & _ & Hx2).
  apply StronglySorted_app_le; [done|by apply (merged_sorted _ _ _ _ Hm), (turn_in_order T s s1 s2 x rest q q1 new xs)|].
  apply List.Forall_forall. intros a Ha. apply List.Forall_forall. intros b Hb.
  unfold times in Hb. apply List.in_map_iff in Hb as ([nr y] & <- & Hy). cbn.
  assert (In y (of_queue nr l)) as Hyq.
  { unfold of_queue. apply List.in_map_iff. exists (nr, y). split; [done|]. apply List.filter_In. split; [done|]. cbn. apply Z.eqb_refl. }
  destruct (Z.eq_dec nr (hi_queue_nr x)) as [->|Hne].
  - apply Hx2; [done|]. by apply List.in_map.
  - destruct (merged_queues _ _ _ _ Hm nr) as (new2 & _ & Hif).
    destruct (decide (nr ∈ queue_nrs (items (s_heap s1)))) as [Hin|Hin].
    2:{ destruct Hif as (_ & Hnil & _). by rewrite Hnil in Hyq. }
    destruct Hif as (q2 & _ & Hq2 & _ & _).
    assert (nr ∈ queue_nrs rest) as Hr.
    { destruct T8 as [((t & Hp) & _)|(Hp & _)]; rewrite (elem_nrs_perm nr _ _ Hp) in Hin; [|done].
      cbn in Hin. by apply elem_of_cons in Hin as [->|]. }
    rewrite T3 in Hq2 by done. specialize (Ho nr q2 Hq2 (Hs _ ltac:(by right))).
    rewrite of_queue_app, of_queue_one, (proj2 (Z.eqb_neq _ _) Hne) in Ho. apply StronglySorted_inv in Ho as [_ Ho].
    rewrite List.Forall_forall in Ho. specialize (Ho y.1 ltac:(by apply List.in_map)).
    apply list_elem_of_fmap in Hr as (z & -> & Hz). destruct (item_queue x rest s Hinv T1) as (_ & Hw & _).
    rewrite List.Forall_forall in Hw, T6. destruct (Hw z ltac:(by apply list_elem_of_In)) as (qz & Hqz & _ & Hoz & _).
    rewrite Hq2 in Hqz. injection Hqz as <-. apply List.in_map_iff in Ha as (a' & <- & Ha).
    destruct (T6 a' Ha) as [_ Hrest]. rewrite List.Forall_forall in Hrest. specialize (Hrest z ltac:(by apply list_elem_of_In)). lia.
Qed.

Lemma merged_turn T s s1 s2 x rest q q1 new xs l : turn T s s1 x rest q q1 new xs -> merge_inv s ->
  merged T s1 s2 l -> merged T s s2 (of_one (hi_queue_nr x) xs ++ l).
Proof.
  intros Ht Hinv Hm. pose proof Hm as [M1 M2 M3 M4 M5 M6].
  assert (times (of_one (hi_queue_nr x) xs ++ l) = List.map fst xs ++ times l) as Et.
  { unfold times. rewrite List.map_app. f_equal. apply times_one. }
  split; rewrite ?Et.
  - rewrite M1, (turn_reported _ _ _ _ _ _ _ _ _ Ht), !List.map_app, concat_app, snd_one. by rewrite app_assoc.
  - intros Ho. by eapply turn_times_sorted.
  - apply List.Forall_app. split; [|done]. apply List.Forall_map. eapply List.Forall_impl; [|apply Ht]. cbn. tauto.
  - intros nr. rewrite of_queue_app, of_queue_one. by eapply turn_queue_sampled.
  - done.
  - done.
Qed.

Abbreviation loop := (@process_loop CR E _ _ _ _ pt filter None process garbage uninit).

Lemma process_loop_ok fuel T n : forall s : session CR E, merge_inv s -> (steps_left (s_env s) < fuel)%nat ->
  (steps_left (s_env s) + length (items (s_heap s)) < n)%nat ->
  yields (loop fuel T n) s (fun r s' => r = 0 /\ exists l, merged T s s' l).
Proof.
  induction n as [|n IH]; intros s Hinv Hf Hn; [lia|]. cbn [process_loop]. apply y_bind.
  eapply y_mono; [by apply (first_turn_ok fuel T)|]. intros r s1 [(-> & -> & HT)|(-> & x & rest & q & q1 & new & xs & Ht)].
  - apply y_ret. split; [done|]. exists []. by apply merged_done.
  - pose proof (Permutation_length (turn_first _ _ _ _ _ _ _ _ _ Ht)) as Hl. cbn [length] in Hl.
    assert (steps_left (s_env s1) <= steps_left (s_env s) /\
      steps_left (s_env s1) + length (items (s_heap s1)) < steps_left (s_env s) + length (items (s_heap s)))%nat as [Hs1 Hs2].
    { destruct (turn_end _ _ _ _ _ _ _ _ _ Ht) as [((t & Hp) & Hlt & _)|(Hp & Hle & _)];
        apply Permutation_length in Hp; cbn [length] in Hp; lia. }
    eapply y_mono; [apply IH; [apply Ht|lia|lia]|]. intros r s2 (-> & l & Hm). split; [done|].
    eexists. by eapply merged_turn.
Qed.
(** C3: Samples are merged in the order of time.  For a session that reports
    branches only, all of them and not to be injected, of a trace with times, without
    filters of functions or threads, stacks of calls or tracking of context switches,
    and with a kernel at a fixed address, given queues of which some wait on the
    heap at their times, decoders that return, in all after at most [steps_left]
    states before each reports the end of its data, deliveries that succeed, and
    enough fuel: intel_pt_process_queues up to [T] makes no bad access and returns 0,
    and the branches delivered are those of a sequence of states, all before [T].
    The part of each queue in it is what its decoder returned, at the times the queue
    reaches, in order, but for errors, without a gap: what is left is the state it
    waits with on the heap, at [T] or later; a queue is off the heap only when its
    decoder has reported the end of its data.  The sequence is in the order of time
    if the part of each queue is, and does not begin before the time the queue waited
    at; a queue's time goes back only where a decoder estimates a time before it. *)
Theorem queues_merged fuel T (s : session CR E) :
  merge_inv s -> (steps_left (s_env s) + length (items (s_heap s)) < fuel)%nat ->
  exists s' l, intel_pt_process_queues pt filter None process garbage uninit fuel T s = Ret (0, s') /\ merged T s s' l.
Proof.
  intros Hinv Hf. destruct (process_loop_ok fuel T fuel s Hinv ltac:(lia) Hf) as (r & s' & E1 & -> & l & Hm).
  by exists s', l.
Qed.
End merge.

(** Two queues up to 30: their branches come as they were made, but for the time
    18 of queue 0, which it has passed. *)
Lemma play_inv : merge_inv play_config play_session.
Proof.
  split; [|repeat constructor|by left].
  - split; try (cbn; lia); try reflexivity.
    + intros i Hi. cbn in Hi. assert (i = 1) as -> by lia. cbv. discriminate.
    + by repeat constructor; cbn; rewrite ?elem_of_cons, ?elem_of_nil; lia.
    + repeat constructor; cbn; lia.
  - eexists. split; [reflexivity|]. split; [|by split]. split; try reflexivity; cbn; lia.
  - eexists. split; [reflexivity|]. split; [|by split]. split; try reflexivity; cbn; lia.
Qed.

Definition no_callback (cr : call_return) (parent : option Z) (d : unit) : Z * Z * unit := (0, 0, d).
Definition play_memory : thread_stack_entry := mkTse 0 0 0 0 0 0 0 None false false false.
Definition play_run := intel_pt_process_queues (CR := unit) (E := playback) play_config (mkFf false [] []) None no_callback play_memory (mkItem 9 9) 20.

Lemma queues_merged_witness :
  (exists s' l, play_run 30 play_session = Ret (0, s') /\ merged play_config 30 play_session s' l) /\
  match play_run 30 play_session with
  | Ret (_, s) => List.map (fun b : branch => b.1.1) (branches (delivered (s_env s)))
  | _ => []
  end = [(10, 1010); (11, 1); (12, 1012); (12, 5); (19, 7); (20, 3); (20, 9)].
Proof.
  split; [|vm_compute; reflexivity]. unfold play_run.
  apply (queues_merged play_config play_branches_only no_callback play_memory (mkItem 9 9) (mkFf false [] []) eq_refl 20 30 play_session);
    [exact play_inv|by apply Nat.ltb_lt].
Defined.
