(* ===== verification/PtFilterClaims.v ===== *)
(** The filter of branches by function keeps just the branches that it is asked
    for. *)
From Stdlib Require Import ZArith Lia List Bool String Ascii.
From stdpp Require Import gmap.
From S2P Require Import Prelude PktDecoder PtState AuxHeap AuxQueues PtBatch PtSession PtConfig ThreadStack ThreadSample PtSynth PtFilter PtQueues.
From S2P Require Import PtMerge PtMergeExample.
Open Scope Z_scope.
Open Scope c_scope.
Import ListNotations.

(** ** The list of names *)

(** A name as it can be in the list: not empty, and without a comma. *)
Fixpoint no_comma (s : string) : bool :=
  match s with
  | EmptyString => true
  | String c s => negb (Ascii.eqb c ",") && no_comma s
  end.
Definition plain (s : string) : Prop := s <> EmptyString /\ no_comma s = true.

Fixpoint join_names (names : list string) : string :=
  match names with
  | [] => EmptyString
  | [f] => f
  | f :: names => (f ++ String "," (join_names names))%string
  end.

Lemma split_last n : forall cur, no_comma n = true -> split_names n cur = [rev_string cur n].
Proof.
  induction n as [|c n IH]; intros cur Hn; [done|]. cbn [no_comma] in Hn. apply andb_true_iff in Hn as [Hc Hn].
  cbn [split_names]. apply negb_true_iff in Hc. rewrite Hc. cbn [andb]. by rewrite IH.
Qed.

Lemma split_first n s : forall cur, no_comma n = true -> s <> EmptyString ->
  split_names (n ++ String "," s)%string cur = rev_string cur n :: split_names s EmptyString.
Proof.
  induction n as [|c n IH]; intros cur Hn Hs.
  - cbn. by destruct s.
  - cbn [no_comma] in Hn. apply andb_true_iff in Hn as [Hc Hn]. apply negb_true_iff in Hc.
    change (String c n ++ String "," s)%string with (String c (n ++ String "," s)). cbn [split_names]. rewrite Hc. cbn [andb]. by rewrite IH.
Qed.

Lemma join_not_empty f names : f <> EmptyString -> join_names (f :: names) <> EmptyString.
Proof. destruct names; [done|]. by destruct f. Qed.

Lemma split_join names : names <> [] -> Forall plain names -> split_names (join_names names) EmptyString = names.
Proof.
  intros Hne Hf. induction Hf as [|f names [Hf1 Hf2] Hf IH]; [done|]. destruct names as [|g names].
  - by apply split_last.
  - change (join_names (f :: g :: names)) with (f ++ String "," (join_names (g :: names)))%string.
    apply List.Forall_cons_iff in Hf as Hg. rewrite split_first; [|done|by apply join_not_empty, Hg].
    by rewrite IH.
Qed.

(** ** The symbols of the DSO *)

Definition named (names : list string) (name : string) : bool := existsb (String.eqb name) names.
Definition asked_symbols (names : list string) (symbols : list (string * Z * Z)) : list (Z * Z) :=
  flat_map (fun '(name, start, end_) => flat_map (fun f => if String.eqb f name then [(start, end_)] else []) names) symbols.

Lemma add_syms_all name start end_ names : forall syms,
  Z.of_nat (length (syms ++ flat_map (fun f => if String.eqb f name then [(start, end_)] else []) names)) <= MAX_FILTER_SYMBOL ->
  add_syms names name start end_ syms = syms ++ flat_map (fun f => if String.eqb f name then [(start, end_)] else []) names.
Proof.
  induction names as [|f names IH]; intros syms Hl; cbn in *; [by rewrite app_nil_r|].
  destruct (String.eqb f name); cbn [andb app] in *; [|by apply IH].
  rewrite length_app in Hl. cbn in Hl. destruct (Z.ltb_spec (Z.of_nat (length syms)) MAX_FILTER_SYMBOL); [|lia].
  rewrite IH; rewrite <- app_assoc; [done|]. rewrite length_app. cbn. lia.
Qed.

Lemma fil_sym_loop_all names symbols : forall syms,
  Z.of_nat (length (syms ++ asked_symbols names symbols)) <= MAX_FILTER_SYMBOL ->
  fil_sym_loop names symbols syms = syms ++ asked_symbols names symbols.
Proof.
  induction symbols as [|[[name start] end_] symbols IH]; intros syms Hl; cbn; [by rewrite app_nil_r|].
  cbn in Hl. rewrite app_assoc in Hl |- *. rewrite add_syms_all; [by apply IH|].
  rewrite length_app in Hl. lia.
Qed.

(** The filter as [func_filter_init] sets it up. *)
Definition asked (names : list string) (dso : option (list (string * Z * Z))) : func_filter :=
  mkFf true names (asked_symbols names (default [] dso)).

Lemma init_asked names dso : names <> [] -> Forall plain names -> Z.of_nat (length names) <= MAX_FILTER_SYMBOL ->
  Z.of_nat (length (asked_symbols names (default [] dso))) <= MAX_FILTER_SYMBOL ->
  func_filter_init (join_names names) dso = Some (asked names dso).
Proof.
  intros Hne Hf Hl Hs. pose proof (split_join names Hne Hf) as Hsplit. unfold func_filter_init, asked.
  destruct Hf as [|f names [Hf1 Hf2] Hf]; [done|].
  destruct (join_names (f :: names)) as [|c s] eqn:Ej; [by apply join_not_empty in Ej|]. rewrite Hsplit.
  destruct (Z.leb_spec (Z.of_nat (length (f :: names))) MAX_FILTER_SYMBOL); [|lia].
  assert (Ascii.eqb c "," = false) as ->.
  { destruct f as [|c' f]; [done|]. cbn [no_comma] in Hf2. apply andb_true_iff in Hf2 as [Hc _]. apply negb_true_iff in Hc.
    destruct names; cbn in Ej; by injection Ej as <- _. }
  cbn [andb negb]. do 2 f_equal. unfold func_filter_generate_fil_sym. destruct dso as [symbols|]; [|done].
  by apply fil_sym_loop_all.
Qed.

(** ** Where a branch goes *)

Section kept.
Context {CR E : Type} `{SessionEnv E} `{PerfEnv}.
Context (pt : session_config).

(** The map an address of the host is in. *)
Definition address_map (s : session CR E) (q : intel_pt_queue) (ip : Z) : option map :=
  if ip =? 0 then None
  else
    match (find_thread (pt_view pt s) (ptq_view q) ip).1 with
    | inl _ => None
    | inr (cpumode, _, thread) => thread__find_map thread cpumode ip
    end.

(** The function at an address. *)
Definition function_at (s : session CR E) (q : intel_pt_queue) (ip : Z) : option string :=
  m ← address_map s q ip; _ ← map_dso m; map__find_symbol m (map_ip m ip).
Definition in_functions (names : list string) (f : option string) : bool :=
  match f with Some f => named names f | None => false end.

(** A branch to kernel code, from or to the scheduler. *)
Definition kernel_schedule (s : session CR E) (q : intel_pt_queue) (from_ip to_ip : Z) : bool :=
  match address_map s q to_ip with
  | Some m =>
    let scheduler := in_functions ["__schedule"; "__sched_text_start"]%string in
    negb (map_ip m to_ip =? 0) && __map__is_kernel m && (scheduler (function_at s q from_ip) || scheduler (function_at s q to_ip))
  | None => false
  end.

(** [al->addr]: an address with a thread but no map stays as it is. *)
Definition file_address (s : session CR E) (q : intel_pt_queue) (ip : Z) : Z :=
  match address_map s q ip with
  | Some m => map_ip m ip
  | None => if ip =? 0 then 0 else match (find_thread (pt_view pt s) (ptq_view q) ip).1 with inl _ => 0 | inr _ => ip end
  end.
Definition in_symbols (names : list string) (symbols : list (string * Z * Z)) (addr : Z) : bool :=
  existsb (fun '(name, start, end_) => named names name && (start <=? addr) && (addr <=? end_)) symbols.

(** The branches to keep: from or to one of the functions, or to kernel code from
    or to the scheduler; given symbols of a DSO, they must also go from or to the
    addresses of these functions in it, if it has any. *)
Definition keep_branch (names : list string) (dso : option (list (string * Z * Z))) (s : session CR E) (q : intel_pt_queue) : bool :=
  let from_ip := st_from_ip (q_state q) in
  let to_ip := st_to_ip (q_state q) in
  let symbols := default [] dso in
  let by_address :=
    negb (existsb (fun sym => named names sym.1.1) symbols) ||
    in_symbols names symbols (file_address s q from_ip) || in_symbols names symbols (file_address s q to_ip) || kernel_schedule s q from_ip to_ip in
  by_address &&
  (in_functions names (function_at s q from_ip) || in_functions names (function_at s q to_ip) || kernel_schedule s q from_ip to_ip).

(** What [intel_pt_parse_ip] and [intel_pt_parse_sym] find, for code of the host. *)
Definition ip_result (s : session CR E) (q : intel_pt_queue) (ip : Z) (al : addr_location) : Z * addr_location :=
  if ip =? 0 then (- EINVAL, al)
  else
    match (find_thread (pt_view pt s) (ptq_view q) ip).1 with
    | inl err => (err, al)
    | inr (cpumode, _, thread) =>
      match thread__find_map thread cpumode ip with
      | None => (- EINVAL, mkAl ip None (al_sym al))
      | Some m => (match map_dso m with Some _ => 0 | None => - EINVAL end, mkAl (map_ip m ip) (Some m) (al_sym al))
      end
    end.

Lemma upd_same nr q (s : session CR E) : s_ptqs s !! nr = Some q -> s <| s_ptqs := <[nr := q]> (s_ptqs s) |> = s.
Proof. intros Hq. rsimpl. rewrite insert_id by done. by destruct s. Qed.

Lemma find_thread_host s q ip : st_to_nr (q_state q) = false ->
  find_thread (pt_view pt s) (ptq_view q) ip = ((find_thread (pt_view pt (CR := CR) (E := E) s) (ptq_view q) ip).1, ptq_view q).
Proof.
  intros Hnr. unfold find_thread. cbn [ptq_view ptq_to_nr]. rewrite Hnr. cbn [ptq_thread].
  destruct (ptq_thread (ptq_view q)); [done|]. by destruct (negb (intel_pt_nr_cpumode _ _ _ =? _)).
Qed.

Lemma find_thread_error v (s : session CR E) ip err : ptq_to_nr v = false -> (find_thread (pt_view pt s) v ip).1 = inl err -> err = - EINVAL.
Proof.
  intros Hnr. unfold find_thread. rewrite Hnr. destruct (ptq_thread v); [done|].
  by destruct (negb (intel_pt_nr_cpumode _ _ _ =? _)); [intros [= <-]|].
Qed.

Section host.
Context (nr : Z) (q : intel_pt_queue) (s : session CR E).
Context (Hq : s_ptqs s !! nr = Some q) (Hnr : st_to_nr (q_state q) = false).

Lemma parse_ip_host ip al : intel_pt_parse_ip pt nr ip al s = Ret (ip_result s q ip al, s).
Proof using Hq Hnr.
  unfold intel_pt_parse_ip, ip_result. destruct (ip =? 0); [done|].
  unfold ptq, upd_ptq, sgets, smodify, snull, mbind, SM_bind, mret, SM_ret. rewrite Hq. rewrite find_thread_host by done.
  cbn [fst]. unfold PtSynth.ptq, sgets, snull, mbind, SM_bind, mret, SM_ret. rewrite Hq.
  assert (set_view (ptq_view q) q = q) as -> by (by destruct q). rewrite upd_same by done.
  destruct ((find_thread (pt_view pt s) (ptq_view q) ip).1) as [err|[[cpumode machine] thread]]; [done|].
  by destruct (thread__find_map thread cpumode ip).
Qed.

(** The location that is found, with its symbol if it is looked up. *)
Definition sym_al (ip : Z) : addr_location := mkAl (file_address s q ip) (address_map s q ip) (function_at s q ip).
Definition ip_al (ip : Z) : addr_location := mkAl (file_address s q ip) (address_map s q ip) None.

Lemma ip_result_zero ip : (ip_result s q ip zero_al).2 = ip_al ip.
Proof using Type.
  unfold ip_result, ip_al, file_address, address_map. destruct (ip =? 0); [done|].
  destruct ((find_thread (pt_view pt s) (ptq_view q) ip).1) as [err|[[cpumode machine] thread]]; [done|].
  by destruct (thread__find_map thread cpumode ip).
Qed.

Lemma parse_sym_host ip al : al = zero_al \/ al = ip_al ip -> exists err, intel_pt_parse_sym pt nr ip al s = Ret ((err, sym_al ip), s).
Proof using Hq Hnr.
  intros Hal. unfold intel_pt_parse_sym, mbind, SM_bind. rewrite parse_ip_host.
  unfold ip_result, sym_al, ip_al, function_at, file_address, address_map in *. destruct (Z.eqb_spec ip 0).
  { exists (- EINVAL). by destruct Hal as [->| ->]. }
  destruct ((find_thread (pt_view pt s) (ptq_view q) ip).1) as [err|[[cpumode machine] thread]] eqn:Eth.
  { apply find_thread_error in Eth as ->; [|done]. exists (- EINVAL). by destruct Hal as [->| ->]. }
  destruct (thread__find_map thread cpumode ip) as [m|]; [|exists (- EINVAL); by destruct Hal as [->| ->]].
  cbn [mbind option_bind]. destruct (map_dso m); [exists 0|exists (- EINVAL)]; by destruct Hal as [->| ->].
Qed.

(** ** The two filters *)

Lemma named_match names f : in_functions names f = match f with Some f => existsb (String.eqb f) names | None => false end.
Proof using Type. done. Qed.

Lemma target_function names dso ip : intel_pt_is_target_func_name (asked names dso) (sym_al ip) = in_functions names (function_at s q ip).
Proof using Type. done. Qed.

Lemma schedule_function ip : intel_pt_is_schedule_func (sym_al ip) = in_functions ["__schedule"; "__sched_text_start"]%string (function_at s q ip).
Proof using Type.
  unfold intel_pt_is_schedule_func, in_functions, named. cbn [al_sym sym_al existsb]. destruct (function_at s q ip); [|done]. by rewrite orb_false_r.
Qed.

Lemma to_kernel_schedule from_ip to_ip al : al_map al = address_map s q to_ip -> al_addr al = file_address s q to_ip ->
  (if to_kernel al then in_functions ["__schedule"; "__sched_text_start"]%string (function_at s q from_ip)
     || in_functions ["__schedule"; "__sched_text_start"]%string (function_at s q to_ip) else false)
  = kernel_schedule s q from_ip to_ip.
Proof using Type.
  intros Em Ea. unfold to_kernel, kernel_schedule. rewrite Em, Ea. unfold file_address. destruct (address_map s q to_ip) as [m|].
  - by destruct (negb (map_ip m to_ip =? 0) && __map__is_kernel m).
  - by rewrite andb_false_r.
Qed.

Lemma existsb_asked_one (p : Z * Z -> bool) names name sym :
  existsb p (flat_map (fun f => if String.eqb f name then [sym] else []) names) = named names name && p sym.
Proof using Type.
  induction names as [|f names IH]; [done|]. cbn [flat_map named existsb]. rewrite existsb_app, IH, (String.eqb_sym f name). unfold named.
  destruct (String.eqb name f); cbn; [|done]. destruct (p sym); cbn; [done|]. by rewrite andb_false_r.
Qed.

Lemma existsb_asked (p : Z * Z -> bool) names symbols :
  existsb p (asked_symbols names symbols) = existsb (fun '(name, start, end_) => named names name && p (start, end_)) symbols.
Proof using Type.
  induction symbols as [|[[name start] end_] symbols IH]; [done|]. cbn [asked_symbols flat_map existsb].
  by rewrite existsb_app, existsb_asked_one, <- IH.
Qed.

Lemma target_address names dso al : intel_pt_is_target_func_ip (asked names dso) al = in_symbols names (default [] dso) (al_addr al).
Proof using Type.
  unfold intel_pt_is_target_func_ip, in_symbols, asked. cbn [ff_syms]. rewrite existsb_asked. 
  induction (default [] dso) as [|[[name start] end_] l IH]; [done|]. cbn [existsb]. f_equal; [|exact IH].
  cbn. by rewrite andb_assoc.
Qed.

Lemma no_symbols names dso : (Z.of_nat (length (ff_syms (asked names dso))) =? 0) = negb (existsb (fun sym => named names sym.1.1) (default [] dso)).
Proof using Type.
  unfold asked. cbn [ff_syms]. pose proof (existsb_asked (fun _ => true) names (default [] dso)) as He.
  assert (existsb (fun sym => named names sym.1.1) (default [] dso) = existsb (fun _ => true) (asked_symbols names (default [] dso))) as ->.
  { rewrite He. clear He. induction (default [] dso) as [|[[name start] end_] l IH]; [done|]. cbn. by rewrite IH, andb_true_r. }
  by destruct (asked_symbols names (default [] dso)).
Qed.

Lemma by_ip_host names dso : let from_ip := st_from_ip (q_state q) in let to_ip := st_to_ip (q_state q) in
  intel_pt_func_filter_by_ip pt (asked names dso) nr s =
  Ret (negb (in_symbols names (default [] dso) (file_address s q from_ip) || in_symbols names (default [] dso) (file_address s q to_ip)
             || kernel_schedule s q from_ip to_ip), s).
Proof using Hq Hnr.
  intros from_ip to_ip. unfold intel_pt_func_filter_by_ip, mbind, SM_bind. unfold PtSynth.ptq at 1. unfold sgets, snull, mbind, SM_bind, mret, SM_ret. rewrite Hq.
  fold from_ip to_ip. rewrite parse_ip_host. destruct (ip_result s q from_ip zero_al) as [err1 al1] eqn:E1.
  rewrite parse_ip_host. destruct (ip_result s q to_ip zero_al) as [err2 al2] eqn:E2.
  assert (al1 = ip_al from_ip) as -> by (by rewrite <- ip_result_zero, E1).
  assert (al2 = ip_al to_ip) as -> by (by rewrite <- ip_result_zero, E2).
  rewrite !target_address. cbn [al_addr ip_al]. destruct (in_symbols _ _ _ || in_symbols _ _ _); [done|]. cbn [orb].
  rewrite <- (to_kernel_schedule from_ip to_ip (ip_al to_ip)) by done. destruct (to_kernel (ip_al to_ip)); [|done].
  cbn [al_map al_addr ip_al].
  destruct (parse_sym_host from_ip (ip_al from_ip)) as (err3 & E3); [by right|]. unfold ip_al in E3. rewrite E3.
  destruct (parse_sym_host to_ip (ip_al to_ip)) as (err4 & E4); [by right|]. unfold ip_al in E4. rewrite E4.
  by rewrite !schedule_function.
Qed.

Lemma by_sym_host names dso : let from_ip := st_from_ip (q_state q) in let to_ip := st_to_ip (q_state q) in
  intel_pt_func_filter_by_sym pt (asked names dso) nr s =
  Ret (negb (in_functions names (function_at s q from_ip) || in_functions names (function_at s q to_ip) || kernel_schedule s q from_ip to_ip), s).
Proof using Hq Hnr.
  intros from_ip to_ip. unfold intel_pt_func_filter_by_sym, mbind, SM_bind. unfold PtSynth.ptq at 1. unfold sgets, snull, mbind, SM_bind, mret, SM_ret. rewrite Hq.
  destruct (parse_sym_host from_ip zero_al) as (err1 & E1); [by left|]. fold from_ip to_ip. rewrite E1.
  destruct (parse_sym_host to_ip zero_al) as (err2 & E2); [by left|]. rewrite E2.
  rewrite !target_function, !schedule_function, <- (to_kernel_schedule from_ip to_ip (sym_al to_ip)) by done.
  destruct (in_functions names _ || in_functions names _); [done|]. cbn [orb].
  by destruct (to_kernel _); [destruct (in_functions _ _ || in_functions _ _)|].
Qed.

Lemma branch_sample_kept names dso tids : intel_pt_synth_branch_sample pt (asked names dso) tids nr s =
  if negb (thread__is_filter_by_tid tids (q_tid q)) && keep_branch names dso s q
  then intel_pt_synth_branch_sample_low pt nr s else Ret (0, s).
Proof using Hq Hnr.
  unfold intel_pt_synth_branch_sample, mbind, SM_bind. unfold PtSynth.ptq at 1. unfold sgets, snull, mbind, SM_bind, mret, SM_ret. rewrite Hq.
  destruct (thread__is_filter_by_tid tids (q_tid q)); [done|]. cbn [ff_on asked negb andb]. rewrite no_symbols, negb_involutive. unfold keep_branch. cbv zeta.
  destruct (existsb _ _); cbn [negb orb].
  - rewrite by_ip_host. destruct (in_symbols _ _ _ || in_symbols _ _ _ || _); cbn [negb andb]; [|done].
    rewrite by_sym_host. by destruct (in_functions _ _ || in_functions _ _ || _).
  - rewrite by_sym_host. by destruct (in_functions _ _ || in_functions _ _ || _).
Qed.
End host.

(** The threads asked for: all of them where there is no list. *)
Definition thread_asked (tids : option (list Z)) (tid : Z) : bool :=
  match tids with Some l => bool_decide (tid ∈ l) | None => true end.
Lemma asked_thread tids tid : negb (thread__is_filter_by_tid tids tid) = thread_asked tids tid.
Proof. destruct tids as [l|]; [|done]. apply negb_involutive. Qed.

(** C14: The filter passes on just the branches asked for.  From at most 1024 names
    joined with commas, none of them empty or with a comma in it, func_filter_init
    makes the list of these names and, given the symbols of a DSO of which at most
    1024 have these names, the addresses of those.  With that filter and any filter
    of threads, a branch of host code is handed to intel_pt_synth_branch_sample_low,
    which reports it (or leaves it out for its type or as one of the first ones),
    exactly if the thread of its queue is asked for, it goes from or to a function
    of the list, or to kernel code from or to the scheduler, and, if the DSO has any
    of the functions, from or to addresses of those, or to kernel code in that way;
    a branch that is dropped changes nothing and is no error. *)
Theorem function_filter_exact names dso tids nr q (s : session CR E) :
  names <> [] -> Forall plain names -> Z.of_nat (length names) <= MAX_FILTER_SYMBOL ->
  Z.of_nat (length (asked_symbols names (default [] dso))) <= MAX_FILTER_SYMBOL ->
  s_ptqs s !! nr = Some q -> st_to_nr (q_state q) = false ->
  exists f, func_filter_init (join_names names) dso = Some f /\
    (forall name, func_filter_match f name = true <-> name ∈ names) /\
    intel_pt_synth_branch_sample pt f tids nr s =
      if thread_asked tids (q_tid q) && keep_branch names dso s q
      then intel_pt_synth_branch_sample_low pt nr s else Ret (0, s).
Proof.
  intros Hne Hf Hl Hs Hq Hnr. exists (asked names dso). split; [by apply init_asked|]. split; [|by rewrite (branch_sample_kept nr q s Hq Hnr), asked_thread].
  intros name. unfold func_filter_match. cbn [ff_names asked]. rewrite existsb_exists, list_elem_of_In. split.
  - intros (f & Hin & ->%String.eqb_eq). done.
  - intros Hin. exists name. split; [done|]. apply String.eqb_refl.
Qed.
End kept.

(** ** An example *)

(** One map of code: "main" in its first 256 bytes, then "work". *)
Definition example_map : map := mkMap 0x1000 0x2000 0 false (Some 1).
Definition example_perf : PerfEnv := {|
  thread__find_map := fun _ _ ip => if (0x1000 <=? ip) && (ip <? 0x2000) then Some example_map else None;
  dso__is_64_bit := fun _ => true;
  dso__long_name := fun _ => "a.out"%string;
  dso__data_size := fun _ _ => 0;
  dso__status_error := fun _ => false;
  dso__data_read_offset := fun _ _ _ _ => (0, []);
  machine_pid := fun _ => 0;
  machines__find_guest := fun _ => None;
  machines__findnew_guest_code := fun _ => None;
  machine__idle_thread := fun _ => None;
  symbol_conf_guest_code := false;
  config_cache_divisor := 0
|}.
Definition example_env : SessionEnv playback := {|
  synthesize_sample := synthesize_sample;
  perf_session__deliver_synth_event := perf_session__deliver_synth_event;
  machine__get_current_tid := machine__get_current_tid;
  machine__set_current_tid := machine__set_current_tid;
  machine__find_thread := machine__find_thread;
  machine__findnew_thread := machine__findnew_thread;
  machines__find := machines__find;
  machine__kernel_start := machine__kernel_start;
  machine__kernel_map := machine__kernel_map;
  thread_cpu := thread_cpu;
  thread_guest_cpu := thread_guest_cpu;
  get_thread := get_thread;
  put_thread := put_thread;
  map__find_symbol := fun _ addr => Some (if addr <? 0x100 then "main"%string else "work"%string);
  __map__is_kernel := fun _ => false;
  sort_mode_branch := false
|}.
Definition example_queue (from_ip to_ip : Z) : intel_pt_queue :=
  zero_queue <| q_thread := Some 1 |> <| q_decoder ::= fun d => d <| d_state := play_state zero_queue (5, from_ip, to_ip) |> |>.

(** A call of "work" from "main", and a branch within "main". *)
Definition example_session : session unit playback :=
  play_session <| s_ptqs := <[0 := example_queue 0x1010 0x1100]> (<[1 := example_queue 0x1010 0x1020]> ∅) |>.
Definition example_names : list string := ["work"; "worker"]%string.
Definition example_sample (f : func_filter) (tids : option (list Z)) := @intel_pt_synth_branch_sample unit playback example_env example_perf play_config f tids.
Definition example_low := @intel_pt_synth_branch_sample_low unit playback example_env play_config.
Definition example_filter (tids : option (list Z)) (nr : Z) (passed : bool) : Prop :=
  exists f, func_filter_init "work,worker" None = Some f /\
    (forall name, func_filter_match f name = true <-> name ∈ example_names) /\
    example_sample f tids nr example_session = if passed then example_low nr example_session else Ret (0, example_session).

(** The call is kept, also where its thread is asked for, and dropped where another
    thread is; the other branch is dropped. *)
Lemma function_filter_exact_witness :
  let tid := q_tid (example_queue 0 0) in
  example_filter None 0 true /\ example_filter (Some [tid]) 0 true /\ example_filter (Some [tid + 1]) 0 false /\ example_filter None 1 false.
Proof.
  split; [|split; [|split]]; unfold example_filter.
  - apply (@function_filter_exact unit playback example_env example_perf play_config example_names None None 0 (example_queue 0x1010 0x1100) example_session);
      [done|by repeat constructor|done|done|done|done].
  - apply (@function_filter_exact unit playback example_env example_perf play_config example_names None (Some [q_tid (example_queue 0 0)]) 0 (example_queue 0x1010 0x1100) example_session);
      [done|by repeat constructor|done|done|done|done].
  - apply (@function_filter_exact unit playback example_env example_perf play_config example_names None (Some [q_tid (example_queue 0 0) + 1]) 0 (example_queue 0x1010 0x1100) example_session);
      [done|by repeat constructor|done|done|done|done].
  - apply (@function_filter_exact unit playback example_env example_perf play_config example_names None None 1 (example_queue 0x1010 0x1020) example_session);
      [done|by repeat constructor|done|done|done|done].
Defined.
