(* ===== verification/PtSwitchClaims.v ===== *)
(** Context switches: the event of a switch and the branch to the code that makes
    it can come in either order. *)
From Stdlib Require Import ZArith Lia List Bool Permutation.
From stdpp Require Import gmap.
From S2P Require Import Prelude PktDecoder PtState AuxHeap AuxHeapTheorems AuxQueues PtTimeRange PtSession PtConfig.
From S2P Require Import PtInsn CallPath ThreadStack ThreadSample PtSynth PtPebs PtFilter PtSample PtQueues PtEvents PtMerge PtMergeExample.
Open Scope Z_scope.
Open Scope c_scope.
Import ListNotations.

(** ** The queue of a CPU *)

(** Queue [nr] has the CPU, and no other one has. *)
Record only_queue (queues : auxtrace_queues) (cpu nr : Z) : Prop := {
  only_all : nr_queues queues = Z.of_nat (length (queue_array queues));
  only_has : exists a, idx (queue_array queues) nr = Some a /\ aq_cpu a = cpu;
  only_one m a : idx (queue_array queues) m = Some a -> aq_cpu a = cpu -> m = nr
}.

Lemma cpu_below_sound arr cpu i n : cpu_below arr cpu i = Some n -> exists a, idx arr n = Some a /\ aq_cpu a = cpu.
Proof.
  induction i as [|i IH]; [done|]. cbn. destruct (arr !! i) as [a|] eqn:Ea; [|done].
  destruct (Z.eqb_spec (aq_cpu a) cpu) as [Ec|]; [|done]. intros [= <-]. exists a. split; [|done].
  unfold idx. destruct (Z.ltb_spec (Z.of_nat i) 0); [lia|]. by rewrite Nat2Z.id.
Qed.

Lemma cpu_below_found arr cpu i m a : (m < i <= length arr)%nat -> arr !! m = Some a -> aq_cpu a = cpu -> is_Some (cpu_below arr cpu i).
Proof.
  induction i as [|i IH]; intros Hm Ha Hc; [lia|]. cbn. destruct (lookup_lt_is_Some_2 arr i) as [b Hb]; [lia|]. rewrite Hb.
  destruct (Z.eqb_spec (aq_cpu b) cpu) as [|Hne]; [by eexists|]. destruct (decide (m = i)) as [->|]; [|by apply IH; [lia| |]].
  rewrite Ha in Hb. by injection Hb as ->.
Qed.

Lemma cpu_above_spec arr cpu : forall j,
  match cpu_above arr cpu j with
  | Some n => exists k a, n = j + Z.of_nat k /\ arr !! k = Some a /\ aq_cpu a = cpu
  | None => forall k a, arr !! k = Some a -> aq_cpu a <> cpu
  end.
Proof.
  induction arr as [|b arr IH]; intros j; cbn; [by intros k a; rewrite lookup_nil|].
  destruct (Z.eqb_spec (aq_cpu b) cpu) as [Eb|Hne]; [exists 0%nat, b; split; [lia|done]|].
  specialize (IH (j + 1)). destruct (cpu_above arr cpu (j + 1)) as [n|].
  - destruct IH as (k & a & -> & Ha & Hc). exists (S k), a. split; [lia|done].
  - intros [|k] a; cbn; [by intros [= <-]|]. apply IH.
Qed.

Lemma cpu_to_queue_only queues cpu nr : only_queue queues cpu nr -> 0 <= cpu -> cpu_to_queue queues cpu = Some nr.
Proof.
  intros [Hall (a & Ha & Hc) Hone] Hcpu. pose proof (idx_inv _ _ _ Ha) as [Hr Hl]. unfold cpu_to_queue. cbv zeta.
  destruct (Z.ltb_spec cpu 0); [lia|]. destruct (Z.eqb_spec (nr_queues queues) 0) as [|_]; [lia|]. cbn [orb].
  set (i := if nr_queues queues <=? cpu then _ else cpu).
  assert (0 <= i < Z.of_nat (length (queue_array queues))) as Hi by (unfold i; destruct (Z.leb_spec (nr_queues queues) cpu); lia).
  destruct (idx_range _ _ Hi) as [b Hb]. rewrite Hb. destruct (Z.eqb_spec (aq_cpu b) cpu) as [|Hne]; [by rewrite (Hone i b)|].
  destruct (cpu_below _ _ _) as [n|] eqn:Eb.
  { apply cpu_below_sound in Eb as (c & Hn & Hcc). by rewrite (Hone n c). }
  assert (i <= nr) as Hle.
  { destruct (Z.le_gt_cases i nr) as [|Hlt]; [done|].
    destruct (cpu_below_found (queue_array queues) cpu (Z.to_nat i) (Z.to_nat nr) a) as [n Hn]; [lia|done|done|]. congruence. }
  pose proof (cpu_above_spec (drop (Z.to_nat i) (queue_array queues)) cpu i) as Hab. destruct (cpu_above _ _ _) as [n|].
  - destruct Hab as (k & c & -> & Hk & Hcc). rewrite lookup_drop in Hk. f_equal. apply (Hone _ c); [|done].
    unfold idx. destruct (Z.ltb_spec (i + Z.of_nat k) 0); [lia|]. by replace (Z.to_nat (i + Z.of_nat k)) with (Z.to_nat i + k)%nat by lia.
  - exfalso. apply (Hab (Z.to_nat nr - Z.to_nat i)%nat a); [|done]. rewrite lookup_drop. by replace (Z.to_nat i + _)%nat with (Z.to_nat nr) by lia.
Qed.

(** ** Steps that leave the switch alone *)

Section switch.
Context {CR E : Type} `{SessionEnv E} `{PerfEnv} `{EventEnv E}.
Context (pt : session_config) (uninit : heap_item).
Abbreviation session := (session CR E).

Definition switch_view (q : intel_pt_queue) : switch_state * Z * bool * bool * Z :=
  (q_switch_state q, q_next_tid q, q_sync_switch q, q_on_heap q, q_queue_nr q).

Definition there (nr : Z) (s : session) : Prop := is_Some (s_ptqs s !! nr) /\ 0 <= nr < Z.of_nat (length (queue_array (s_queues s))).
Definition steady (nr : Z) (s s' : session) : Prop :=
  s_env s' = s_env s /\ s_queues s' = s_queues s /\ s_heap s' = s_heap s /\ (forall m, m <> nr -> s_ptqs s' !! m = s_ptqs s !! m) /\
  exists q q', s_ptqs s !! nr = Some q /\ s_ptqs s' !! nr = Some q' /\ switch_view q' = switch_view q.

#[export] Instance steady_frame nr : Frame (there nr) (steady nr).
Proof.
  split.
  - intros s [[q Hq] _]. split_and!; try done. by exists q, q.
  - intros s1 s2 s3 (A1 & A2 & A3 & A0 & q1 & q2 & A4 & A5 & A6) (B1 & B2 & B3 & B0 & q2' & q3 & B4 & B5 & B6).
    split_and!; try congruence; [intros m Hm; by rewrite B0, A0|]. exists q1, q3. split_and!; [done|done|]. congruence.
  - intros s s' (_ & Eq & _ & _ & q & q' & _ & Hq' & _) [_ Hr]. split; [by exists q'|]. by rewrite Eq.
Qed.

Lemma steady_upd nr f : (forall q, switch_view (f q) = switch_view q) -> keeps (there nr) (steady nr) (upd_ptq nr f).
Proof.
  intros Hf. apply keeps_upd; [by intros s [Hs _]|]. intros s q _ Hq. split_and!; [done|done|done|intros m Hm; by apply put_ptq_other|].
  exists q, (f q). split_and!; [done|apply put_ptq_lookup|apply Hf].
Qed.
Lemma steady_ptq nr : keeps (there nr) (steady nr) (ptq nr).
Proof. apply keeps_ptq; [exact _|]. by intros s [Hs _]. Qed.
Lemma steady_queue_of nr : keeps (there nr) (steady nr) (queue_of nr).
Proof. apply keeps_some; [exact _|]. intros s [_ Hr]. by apply idx_range in Hr as [x ->]. Qed.
#[local] Hint Resolve steady_ptq steady_queue_of : keeps.
#[local] Hint Extern 1 (keeps _ (steady _) (upd_ptq _ _)) => apply steady_upd; intros ?; done : keeps.

Lemma set_pid_tid_cpu_steady nr : keeps (there nr) (steady nr) (intel_pt_set_pid_tid_cpu pt nr).
Proof. unfold intel_pt_set_pid_tid_cpu, intel_pt_get_guest_from_sideband, guest_thread_from_sideband. keep. Qed.

(** ** Either order *)

(** A queue that has the CPU and is in step with context switches. *)
Record in_step (nr cpu : Z) (q : intel_pt_queue) (s : session) : Prop := {
  step_cpu : 0 <= cpu /\ only_queue (s_queues s) cpu nr;
  step_session : s_sync_switch s = true;
  step_queue : s_ptqs s !! nr = Some q;
  step_sync : q_sync_switch q = true;
  step_nr : q_queue_nr q = nr /\ q_cpu q = cpu
}.

(** The queue is at a branch to __switch_to. *)
Definition at_switch (s : session) (q : intel_pt_queue) : bool := intel_pt_is_switch_ip s q (st_to_ip (q_state q)).

(** A thread is to be switched to at the next such branch. *)
Definition pending (tid : Z) (q : intel_pt_queue) : Prop :=
  q_next_tid q = tid /\
  (q_switch_state q = INTEL_PT_SS_NOT_TRACING \/ q_switch_state q = INTEL_PT_SS_UNKNOWN \/ q_switch_state q = INTEL_PT_SS_EXPECTING_SWITCH_IP).

(** The switch of the CPU to a thread is made, once, with [r] for an error; no
    switch is pending, and the other queues are left alone. *)
Definition made (nr cpu pid tid : Z) (s : session) (r : Z) (s' : session) : Prop :=
  machine__set_current_tid (c_machine pt) cpu pid tid (s_env s) = (r, s_env s') /\
  (forall m, m <> nr -> s_ptqs s' !! m = s_ptqs s !! m) /\
  exists q', s_ptqs s' !! nr = Some q' /\ q_next_tid q' = -1 /\ (r = 0 -> q_switch_state q' = INTEL_PT_SS_TRACING).

Lemma cpu_to_ptq_yields cpu nr q s P : only_queue (s_queues s) cpu nr -> 0 <= cpu -> s_ptqs s !! nr = Some q ->
  P (Some nr) s -> yields (@intel_pt_cpu_to_ptq CR E cpu) s P.
Proof.
  intros Ho Hc Hq HP. apply y_bind, y_gets, y_ret. unfold id. rewrite (cpu_to_queue_only _ _ _ Ho Hc). cbn [mbind option_bind].
  by rewrite bool_decide_true by (by exists q).
Qed.

Lemma in_step_there nr cpu q s : in_step nr cpu q s -> there nr s.
Proof.
  intros [[_ Ho] _ Hq _ _]. split; [by exists q|]. destruct (only_has _ _ _ Ho) as (a & Ha & _). by apply idx_inv in Ha as [Hr _].
Qed.

(** Only the state of the switch, or whether it is on the heap, has changed. *)
Lemma in_step_put nr cpu q q' s : in_step nr cpu q s ->
  (q_sync_switch q', q_queue_nr q', q_cpu q') = (q_sync_switch q, q_queue_nr q, q_cpu q) -> in_step nr cpu q' (put_ptq nr q' s).
Proof. intros [H1' H2' H3' H4 H5] [= E1 E2 E3]. split; [done|done|apply put_ptq_lookup|congruence|by rewrite E2, E3]. Qed.

(** The event first: nothing is done but to note it. *)
Lemma event_noted nr cpu pid tid time q s : in_step nr cpu q s -> q_switch_state q = INTEL_PT_SS_TRACING ->
  yields (switch_now pt uninit cpu pid tid time) s (fun r s1 => r = 0 /\
    s1 = put_ptq nr (q <| q_next_tid := tid |> <| q_switch_state := INTEL_PT_SS_EXPECTING_SWITCH_IP |>) s).
Proof.
  intros [[Hc Ho] Hss Hq Hsy [Hn Hcpu]] Hst.
  apply y_bind. apply y_bind, y_gets. rewrite Hss. cbn [negb]. apply y_bind, (cpu_to_ptq_yields _ nr q); [done..|].
  apply y_bind, (y_ptq _ q); [done|]. cbv zeta. rewrite Hsy, Hst. cbn [negb].
  apply y_bind, (y_upd _ q); [done|]. apply y_ret. cbn [Z.leb Z.compare]. by apply y_ret.
Qed.

(** The branch, when a switch is pending. *)
Lemma branch_makes nr cpu tid q s : in_step nr cpu q s -> pending tid q -> tid <> -1 -> at_switch s q = true ->
  yields (sample_switch pt nr) s (fun r s' => made nr cpu (-1) tid s r s' /\ s_heap s' = s_heap s).
Proof.
  intros Hs [Ht Hst] Htid Hat. pose proof (in_step_there _ _ _ _ Hs) as Hth. destruct Hs as [[Hc Ho] Hss Hq Hsy [Hn Hcpu]].
  apply y_bind, (y_ptq _ q); [done|]. apply y_bind, y_gets. cbv zeta. unfold id. unfold at_switch in Hat. rewrite Hsy, Hat. cbn [negb].
  assert (yields (s_ok (intel_pt_next_tid pt nr) (set_switch_state nr INTEL_PT_SS_TRACING;; mret 0)) s
    (fun r s' => made nr cpu (-1) tid s r s' /\ s_heap s' = s_heap s)) as Hy; [|by destruct Hst as [->|[->| ->]]].
  apply y_bind. apply y_bind, (y_ptq _ q); [done|]. cbv zeta. rewrite Ht. destruct (Z.eqb_spec tid (-1)); [done|].
  apply y_bind, y_call. rewrite Hcpu. destruct (machine__set_current_tid (c_machine pt) cpu (-1) tid (s_env s)) as [err e] eqn:Eset.
  cbn [fst snd]. set (s1 := s <| s_env := e |>). rewrite Hn.
  assert (there nr s1) as Hth1 by (split; [by exists q|]; apply Hth).
  apply y_bind. eapply y_mono; [by apply set_pid_tid_cpu_steady|]. intros u s2 (E2 & _ & Eh & Eo & q' & q2 & Hq' & Hq2 & V2).
  apply y_bind, (y_upd _ q2); [done|]. set (q3 := q2 <| q_next_tid := -1 |>). set (s3 := put_ptq nr q3 s2). apply y_ret.
  assert (forall q4, q_next_tid q4 = -1 -> (err = 0 -> q_switch_state q4 = INTEL_PT_SS_TRACING) ->
    made nr cpu (-1) tid s err (put_ptq nr q4 s3) /\ s_heap (put_ptq nr q4 s3) = s_heap s) as Hmade.
  { intros q4 H4 H5. split; [|exact Eh]. split; [change (s_env (put_ptq nr q4 s3)) with (s_env s2); by rewrite E2, Eset|].
    split; [|exists q4; by rewrite put_ptq_lookup]. intros m Hm. unfold s3. rewrite !put_ptq_other by done. exact (Eo m Hm). }
  destruct (Z.eqb_spec err 0) as [->|Herr]; cbn [negb].
  - apply y_bind. eapply y_upd; [apply put_ptq_lookup|]. apply y_ret. by apply Hmade.
  - apply y_ret. assert (put_ptq nr q3 s3 = s3) as <-; [|by apply Hmade].
    unfold s3, put_ptq. cbn. by rewrite insert_insert_eq.
Qed.

(** Any other branch leaves the switch pending. *)
Lemma branch_leaves nr cpu tid q s : in_step nr cpu q s -> q_next_tid q = tid -> q_switch_state q = INTEL_PT_SS_EXPECTING_SWITCH_IP ->
  at_switch s q = false ->
  yields (sample_switch pt nr) s (fun r s' => r = 0 /\ exists q', s' = put_ptq nr q' s /\ pending tid q').
Proof.
  intros [_ _ Hq Hsy _] Ht Hst Hat. apply y_bind, (y_ptq _ q); [done|]. apply y_bind, y_gets. cbv zeta. unfold id. unfold at_switch in Hat.
  rewrite Hsy, Hat. cbn [negb]. destruct (Z.eqb_spec (st_to_ip (q_state q)) 0).
  - apply y_bind, (y_upd _ q); [done|]. apply y_ret. split; [done|]. eexists. split; [done|]. split; [done|by left].
  - rewrite Hst. apply y_ret. split; [done|]. exists q. split; [|split; [done|by right; right]].
    unfold put_ptq. rewrite insert_id by done. by destruct s.
Qed.

(** The branch first: the queue stops. *)
Lemma branch_stops nr cpu q s : in_step nr cpu q s -> q_switch_state q = INTEL_PT_SS_TRACING -> at_switch s q = true ->
  yields (sample_switch pt nr) s (fun r s1 => r = 1 /\ s1 = put_ptq nr (q <| q_switch_state := INTEL_PT_SS_EXPECTING_SWITCH_EVENT |>) s).
Proof.
  intros [_ _ Hq Hsy _] Hst Hat. apply y_bind, (y_ptq _ q); [done|]. apply y_bind, y_gets. cbv zeta. unfold id. unfold at_switch in Hat.
  rewrite Hsy, Hat, Hst. cbn [negb]. apply y_bind, (y_upd _ q); [done|]. by apply y_ret.
Qed.

(** What the event does to the heap: a queue that is off it is put back, at the time
    of the event. *)
Definition put_back (nr t : Z) (q : intel_pt_queue) (s s' : session) : Prop :=
  exists q', s_ptqs s' !! nr = Some q' /\ q_on_heap q' = true /\
  if q_on_heap q then s_heap s' = s_heap s /\ q_timestamp q' = q_timestamp q
  else heap_wf (s_heap s') /\ (items (s_heap s') ≡ₚ mkItem nr t :: items (s_heap s)) /\ q_timestamp q' = t.

(** Its queue is not on the heap unless it says so, and there is room for it. *)
Definition heap_ready (nr : Z) (q : intel_pt_queue) (s : session) : Prop :=
  q_on_heap q = false -> heap_wf (s_heap s) /\ (nr ∉ queue_nrs (items (s_heap s))) /\ nr < heap_sz (s_heap s).

Lemma event_makes nr cpu pid tid time q s : in_step nr cpu q s -> q_switch_state q = INTEL_PT_SS_EXPECTING_SWITCH_EVENT -> heap_ready nr q s ->
  yields (switch_now pt uninit cpu pid tid time) s (fun r s' =>
    made nr cpu pid tid s r s' /\ put_back nr (perf_time_to_tsc (c_tc pt) time) q s s').
Proof.
  intros Hs Hst Hheap. pose proof (in_step_there _ _ _ _ Hs) as [_ [Hnr _]]. destruct Hs as [[Hc Ho] Hss Hq Hsy [Hn Hcpu]].
  apply y_bind. apply y_bind, y_gets. rewrite Hss. cbn [negb]. apply y_bind, (cpu_to_ptq_yields _ nr q); [done..|].
  apply y_bind, (y_ptq _ q); [done|]. cbv zeta. rewrite Hsy, Hst. cbn [negb]. set (t := perf_time_to_tsc (c_tc pt) time).
  assert (forall q1 (s1 : session), s_ptqs s1 !! nr = Some q1 -> s_env s1 = s_env s -> (forall m, m <> nr -> s_ptqs s1 !! m = s_ptqs s !! m) ->
    (forall q2, q_on_heap q2 = q_on_heap q1 -> q_timestamp q2 = q_timestamp q1 -> put_back nr t q s (put_ptq nr q2 s1)) ->
    yields (set_switch_state nr INTEL_PT_SS_TRACING;; upd_ptq nr (fun q => q <| q_next_tid := -1 |>);; mret 1) s1
      (fun ret s2 => yields (if ret <=? 0 then mret ret else scall (machine__set_current_tid (c_machine pt) cpu pid tid)) s2 (fun r s' =>
         made nr cpu pid tid s r s' /\ put_back nr t q s s'))) as Hrest.
  { intros q1 s1 Hq1 He Ho1 Hback. apply y_bind, (y_upd _ q1); [done|]. apply y_bind. eapply y_upd; [apply put_ptq_lookup|].
    apply y_ret. change (1 <=? 0) with false. cbv iota. apply y_call. set (q3 := _ <| q_next_tid := -1 |>). set (s3 := put_ptq nr q3 _).
    change (s_env s3) with (s_env s1). rewrite He. destruct (machine__set_current_tid (c_machine pt) cpu pid tid (s_env s)) as [err e] eqn:Eset.
    cbn [fst snd]. split; [|].
    - split; [done|]. split; [|exists q3; split; [apply put_ptq_lookup|by split]].
      intros m Hm. change (s_ptqs s3 !! m = s_ptqs s !! m). unfold s3. rewrite !put_ptq_other by done. by apply Ho1.
    - destruct (Hback q3 eq_refl eq_refl) as (q' & Hq' & Hoh & Hb). rewrite put_ptq_lookup in Hq'. injection Hq' as <-.
      exists q3. split; [apply put_ptq_lookup|]. split; [done|]. exact Hb. }
  apply y_ok. destruct (q_on_heap q) eqn:Hoh; cbn [negb].
  - apply y_ret. split; [done|]. apply (Hrest q s); [done|done|done|]. intros q2 E1 E2. exists q2. split; [apply put_ptq_lookup|].
    rewrite Hoh. split; [congruence|]. by split.
  - destruct (Hheap Hoh) as (Hw & Hnew & Hsz). apply y_bind, (y_upd _ q); [done|]. set (q1 := q <| q_timestamp := t |>). set (s1 := put_ptq nr q1 s).
    rewrite Hn. apply y_ok. apply heap_add_yields; [done|done|split; [apply Hnr|done]|]. intros h Hwh Hih. split; [done|].
    set (s2 := s1 <| s_heap := h |>). assert (s_ptqs s2 !! nr = Some q1) as Hq2 by apply put_ptq_lookup.
    apply y_bind, (y_upd _ q1); [done|]. apply y_ret. split; [done|]. eapply Hrest; [apply put_ptq_lookup|done| |].
    + intros m Hm. rewrite put_ptq_other by done. change (s_ptqs s2 !! m) with (s_ptqs s1 !! m). by apply put_ptq_other.
    + intros q2 E1 E2. exists q2. split; [apply put_ptq_lookup|]. rewrite Hoh. by split_and!.
Qed.

(** C15: A context switch is made once, whichever of its two signs is seen first.
    Take the one queue of a CPU, in step with context switches and traced, and a
    switch of the CPU to thread [tid].  If the event of the switch comes before the
    branch to __switch_to, it is noted and nothing else changes, wherever the queue
    waits; and in any session after it in which it is still noted, a sample of
    another branch leaves it pending, and a sample of that branch makes the switch.
    If the branch comes first, decoding of the queue stops there (1), with nothing
    else changed, and in any session after it in which the queue still waits, the
    event makes the switch and puts the queue, if it is off the heap, back at the
    time of the event (the heap has room for it).  To make the switch is to call
    machine__set_current_tid for the CPU and [tid], once, and to return its result:
    no switch is pending then, and, if that is 0, the queue is traced again. *)
Theorem switch_either_order nr cpu pid tid time q s :
  in_step nr cpu q s -> q_switch_state q = INTEL_PT_SS_TRACING -> tid <> -1 ->
  let noted := q <| q_next_tid := tid |> <| q_switch_state := INTEL_PT_SS_EXPECTING_SWITCH_IP |> in
  switch_now pt uninit cpu pid tid time s = Ret (0, put_ptq nr noted s) /\
  (forall q1 s1, in_step nr cpu q1 s1 -> q_next_tid q1 = tid -> q_switch_state q1 = INTEL_PT_SS_EXPECTING_SWITCH_IP -> at_switch s1 q1 = false ->
     exists q2, sample_switch pt nr s1 = Ret (0, put_ptq nr q2 s1) /\ pending tid q2) /\
  (forall q1 s1, in_step nr cpu q1 s1 -> pending tid q1 -> at_switch s1 q1 = true ->
     exists r s2, sample_switch pt nr s1 = Ret (r, s2) /\ made nr cpu (-1) tid s1 r s2 /\ s_heap s2 = s_heap s1) /\
  (at_switch s q = true ->
     sample_switch pt nr s = Ret (1, put_ptq nr (q <| q_switch_state := INTEL_PT_SS_EXPECTING_SWITCH_EVENT |>) s)) /\
  (forall q1 s1, in_step nr cpu q1 s1 -> q_switch_state q1 = INTEL_PT_SS_EXPECTING_SWITCH_EVENT -> heap_ready nr q1 s1 ->
     exists r s2, switch_now pt uninit cpu pid tid time s1 = Ret (r, s2) /\ made nr cpu pid tid s1 r s2 /\
       put_back nr (perf_time_to_tsc (c_tc pt) time) q1 s1 s2).
Proof.
  intros Hs Hst Htid noted. split_and!.
  - destruct (event_noted nr cpu pid tid time q s Hs Hst) as (r & s1 & E1 & -> & ->). exact E1.
  - intros q1 s1 Hs1 Ht1 Hst1 Hat. destruct (branch_leaves nr cpu tid q1 s1 Hs1 Ht1 Hst1 Hat) as (r & s2 & E1 & -> & q2 & -> & Hp). by exists q2.
  - intros q1 s1 Hs1 Hp Hat. destruct (branch_makes nr cpu tid q1 s1 Hs1 Hp Htid Hat) as (r & s2 & E1 & Hm). by exists r, s2.
  - intros Hat. destruct (branch_stops nr cpu q s Hs Hst Hat) as (r & s1 & E1 & -> & ->). exact E1.
  - intros q1 s1 Hs1 Hst1 Hh. destruct (event_makes nr cpu pid tid time q1 s1 Hs1 Hst1 Hh) as (r & s2 & E1 & Hm). by exists r, s2.
Qed.
End switch.

(** ** An example: two CPUs, of which the second switches to thread 77 *)

Definition tids_env : SessionEnv (gmap Z Z) := {|
  synthesize_sample := fun _ _ e => (0, e);
  perf_session__deliver_synth_event := fun _ e => (0, e);
  machine__get_current_tid := fun _ cpu e => default (-1) (e !! cpu);
  machine__set_current_tid := fun _ cpu _ tid e => (0, <[cpu := tid]> e);
  machine__find_thread := fun _ _ _ _ => None;
  machine__findnew_thread := fun _ _ _ e => (None, e);
  machines__find := fun _ _ => None;
  machine__kernel_start := fun _ _ => 2 ^ 63;
  machine__kernel_map := fun _ _ => None;
  thread_cpu := fun _ _ => -1;
  thread_guest_cpu := fun _ _ => -1;
  get_thread := fun _ _ => no_thread;
  put_thread := fun _ _ e => e;
  map__find_symbol := fun _ _ => None;
  __map__is_kernel := fun _ => false;
  sort_mode_branch := false
|}.

Definition switch_ip : Z := 2 ^ 63 + 0x5000.
(** A jump to __switch_to. *)
Definition switching_queue : intel_pt_queue :=
  zero_queue <| q_queue_nr := 1 |> <| q_cpu := 1 |> <| q_on_heap := true |> <| q_sync_switch := true |> <| q_next_tid := -1 |>
    <| q_switch_state := INTEL_PT_SS_TRACING |> <| q_flags := PERF_IP_FLAG_BRANCH |>
    <| q_decoder ::= fun d => d <| d_state := play_state zero_queue (5, 2 ^ 63 + 0x100, switch_ip) |> |>.
Definition switching_session : session unit (gmap Z Z) :=
  mkSession (2 ^ 63) false true false switch_ip 0 0 0 (mkHeap (mkItem 0 10 :: replicate 31 (mkItem 0 0)) 1 32)
    (mkQueues [mkQueue [] (-1) 0 false None; mkQueue [] (-1) 1 false None] 2 false true 0)
    (<[1 := switching_queue]> ∅) (mkChain 0 []) (mkBs 0 []) (mkWorld (mkCpr [] 0 0 0) (fun _ => true) tt) ∅.

Lemma switching_in_step : in_step 1 1 switching_queue switching_session.
Proof.
  split; try done. split; [lia|]. split; [done| |].
  - eexists. split; reflexivity.
  - intros m a Ha Hc. apply idx_inv in Ha as [Hm Ha]. cbn in Hm. assert (m = 0 \/ m = 1) as [-> | ->] by lia; [|done].
    cbn in Ha. injection Ha as <-. done.
Qed.

(** After the event, and where the queue has stopped at the branch and is off the
    heap. *)
Definition noted_queue : intel_pt_queue :=
  switching_queue <| q_next_tid := 77 |> <| q_switch_state := INTEL_PT_SS_EXPECTING_SWITCH_IP |>.
Definition noted_session : session unit (gmap Z Z) := put_ptq 1 noted_queue switching_session.
Definition stopped_queue : intel_pt_queue :=
  switching_queue <| q_switch_state := INTEL_PT_SS_EXPECTING_SWITCH_EVENT |> <| q_on_heap := false |>.
Definition stopped_session : session unit (gmap Z Z) := put_ptq 1 stopped_queue switching_session.

Lemma noted_in_step : in_step 1 1 noted_queue noted_session.
Proof. unfold noted_session. apply in_step_put with switching_queue; [exact switching_in_step|]. by vm_compute. Qed.
Lemma stopped_in_step : in_step 1 1 stopped_queue stopped_session.
Proof. unfold stopped_session. apply in_step_put with switching_queue; [exact switching_in_step|]. by vm_compute. Qed.

Definition current_tid (s : session unit (gmap Z Z)) : Z := default (-1) (s_env s !! 1).
Definition example_switch := @switch_now unit _ tids_env play_config (mkItem 9 9) 1 70 77 25.
Definition example_branch := @sample_switch unit _ tids_env play_config 1.

Lemma example_made pid s r s' : @made unit _ tids_env play_config 1 1 pid 77 s r s' -> r = 0 /\ current_tid s' = 77.
Proof.
  intros (Eset & _). cbn in Eset. injection Eset as <- He. split; [done|]. unfold current_tid. rewrite <- He.
  by rewrite lookup_insert_eq.
Qed.

Lemma switch_either_order_witness :
  exists s2 s4,
    example_switch switching_session = Ret (0, noted_session) /\ current_tid noted_session = -1 /\
    example_branch noted_session = Ret (0, s2) /\ current_tid s2 = 77 /\
    (exists q, example_branch switching_session = Ret (1, put_ptq 1 q switching_session)) /\ current_tid stopped_session = -1 /\
    example_switch stopped_session = Ret (0, s4) /\ current_tid s4 = 77 /\
    (items (s_heap s4) ≡ₚ [mkItem 1 25; mkItem 0 10]).
Proof.
  assert (heap_ready 1 stopped_queue stopped_session) as Hheap.
  { intros _. split; [|split; [|reflexivity]].
    - split; try (cbn; lia); try reflexivity.
      + intros i Hi. cbn in Hi. lia.
      + repeat constructor; cbn; rewrite ?elem_of_nil; tauto.
      + repeat constructor; cbn; lia.
    - change (queue_nrs (items (s_heap stopped_session))) with [0]. rewrite list_elem_of_singleton. lia. }
  destruct (@switch_either_order unit (gmap Z Z) tids_env play_config (mkItem 9 9) 1 1 70 77 25 switching_queue switching_session
    switching_in_step eq_refl ltac:(lia)) as (E1 & _ & Hbranch & Hstop & Hevent).
  destruct (Hbranch noted_queue noted_session noted_in_step ltac:(split; [done|by right; right]) eq_refl)
    as (r2 & s2 & E2 & M2 & _).
  destruct (Hevent stopped_queue stopped_session stopped_in_step eq_refl Hheap)
    as (r4 & s4 & E4 & M4 & q4 & _ & _ & _ & Hitems & _).
  apply example_made in M2 as [-> T2], M4 as [-> T4].
  exists s2, s4. split; [exact E1|]. split; [done|]. split; [exact E2|]. split; [done|].
  split; [eexists; exact (Hstop eq_refl)|]. split; [done|]. split; [exact E4|]. split; [done|]. exact Hitems.
Defined.
