(* ===== verification/PtTimeTheorems.v ===== *)
(** Clocks and time: ticks, and the claims on addresses and time stamps. *)
From Stdlib Require Import ZArith Lia List Bool.
From S2P Require Import Prelude PktDecoder PktBounds PktStream PtStack Float64 PtState PtTime PtReader PtWalk.
From S2P Require Import PtTrace PtVmTime PtDecode PtSafe PtSafeReader PtExample.
Open Scope Z_scope.
Open Scope c_scope.
Import ListNotations.

(** The clock of the decoder: what MTC packets are turned into time with. *)
Definition clock (d : intel_pt_decoder) :=
  (d_timestamp d, d_ctc_timestamp d, d_ctc_delta d, d_last_mtc d, d_have_tma d,
   d_fixup_last_mtc d, d_mtc_shift d, d_tsc_ctc_mult d, d_tsc_ctc_ratio_n d,
   d_tsc_ctc_ratio_d d).

Definition keeps_clock (d' d : intel_pt_decoder) : Prop := keeps d' d /\ clock d' = clock d.

#[export] Instance keeps_clock_preorder : PreOrder keeps_clock.
Proof.
  split; [by split; [apply keeps_refl|]|].
  intros d1 d2 d3 [? ?] [? ?]. split; [by transitivity d2|congruence].
Qed.

Lemma calc_cyc_finish_clock ts d x : keeps_clock (calc_cyc_finish ts d x).1.2 d.
Proof.
  split; [apply calc_cyc_finish_keeps|]. unfold calc_cyc_finish.
  repeat case_match; reflexivity.
Qed.

Lemma calc_cyc_cb_clock info d x : keeps_clock (intel_pt_calc_cyc_cb info d x).1.2 d.
Proof.
  unfold intel_pt_calc_cyc_cb, calc_cyc_mtc, calc_cyc_tsc, calc_cyc_tma.
  destruct (pkt_type (pi_packet info)); try reflexivity; cbv zeta;
    repeat match goal with
    | |- keeps_clock (calc_cyc_finish _ _ _).1.2 _ => apply calc_cyc_finish_clock
    | |- context [if ?b then _ else _] => destruct b
    | |- keeps_clock ?x ?x => reflexivity
    | |- keeps_clock (?x, _).1.2 _ => cbn [fst snd]
    | _ => progress cbn [fst snd]
    end; reflexivity.
Qed.

Section ticks.
Context {D : Type} `{Platform} `{Callbacks D} `{Fuel}.
Implicit Types (d : intel_pt_decoder) (e : D).

Lemma restart_cyc_clock b d e :
  mem_ok d -> exists d', restart_cyc b d e = Ret (tt, d', e) /\ keeps_clock d' d.
Proof.
  intros Hd. unfold restart_cyc, mbind, M_bind, get, when, modify, mret, M_ret.
  destruct (bool_decide _); [|by exists d].
  unfold intel_pt_calc_cyc_to_tsc, mbind, M_bind, get, mret, M_ret.
  set (d1 := d <| d_cyc_ref_timestamp := _ |> <| d_cycle_cnt := 0 |> <| d_have_calc_cyc_to_tsc := false |>).
  assert (keeps_clock d1 d) as K by (split; [unfold d1; frame|reflexivity]).
  destruct (negb b); [by exists d1|].
  destruct (pkt_lookahead_rel intel_pt_calc_cyc_cb keeps_clock calc_cyc_cb_clock
    (mkCycInfo 0 0 (d_last_mtc d1) (d_ctc_timestamp d1) (d_ctc_delta d1) (d_tsc_timestamp d1)
       (d_timestamp d1) (d_have_tma d1) (d_fixup_last_mtc d1) b f64_zero) d1 e)
    as (r & d2 & E & K2); [eapply view_mem_ok; [apply K|done]|].
  rewrite E. exists d2. split; [done|]. by transitivity d1.
Qed.

(** One MTC packet, once the last MTC is known in full. *)
Lemma calc_mtc_clock d e :
  mem_ok d -> d_have_tma d = true -> d_mtc_shift d <= 8 \/ d_fixup_last_mtc d = false ->
  let mtc := u32 (pkt_payload (d_packet d)) in
  let delta := u64 (d_ctc_delta d + u32 (mtc_delta mtc (d_last_mtc d) .<< d_mtc_shift d)) in
  exists d', intel_pt_calc_mtc_timestamp d e = Ret (tt, d', e) /\ mem_ok d' /\
    clock d' = (Z.max (d_timestamp d) (add_ctc d (d_ctc_timestamp d) delta),
      d_ctc_timestamp d, delta, mtc, true, d_fixup_last_mtc d, d_mtc_shift d,
      d_tsc_ctc_mult d, d_tsc_ctc_ratio_n d, d_tsc_ctc_ratio_d d).
Proof.
  intros Hd Ht Hf mtc delta. unfold intel_pt_calc_mtc_timestamp, mbind, M_bind, get, modify.
  rewrite Ht. cbn [negb]. fold mtc.
  assert ((8 <? d_mtc_shift d) && d_fixup_last_mtc d = false) as ->.
  { destruct Hf as [Hf| ->]; [|apply andb_false_r]. apply andb_false_intro1. lia. }
  cbv zeta. fold delta. set (d1 := d <| d_ctc_delta := delta |>).
  change (add_ctc d1 (d_ctc_timestamp d1) (d_ctc_delta d1))
    with (add_ctc d (d_ctc_timestamp d) delta). set (ts := add_ctc _ _ _).
  set (d2 := if ts <? d_timestamp d1 then d1 else d1 <| d_timestamp := ts |>).
  set (d3 := (intel_pt_mtc_cyc_cnt_upd d2) <| d_timestamp_insn_cnt := 0 |> <| d_last_mtc := mtc |>).
  assert (keeps d3 d) as K by (unfold d3, d2, d1; frame).
  destruct (restart_cyc_clock true d3 e) as (d4 & -> & K4 & C4);
    [eapply view_mem_ok; [apply K|done]|].
  exists d4. split; [done|]. split; [eapply view_mem_ok; [|exact Hd]; etransitivity; [apply K4|apply K]|].
  rewrite C4. unfold d3, intel_pt_mtc_cyc_cnt_upd, d2, d1, clock. rsimpl.
  rewrite <- Ht. destruct (Z.ltb_spec ts (d_timestamp d)); rsimpl;
    [rewrite Z.max_l by lia|rewrite Z.max_r by lia];
    repeat case_match; rsimpl; reflexivity.
Qed.

(** The MTC packets with payloads [ms], one after the other. *)
Fixpoint mtc_run (ms : list Z) : M D unit :=
  match ms with
  | [] => mret tt
  | m :: ms' =>
    modify (fun d => d <| d_packet := mkPkt INTEL_PT_MTC 0 m |>) ;;
    intel_pt_calc_mtc_timestamp ;;
    mtc_run ms'
  end.
End ticks.

(** The 8-bit counters of two moments up to 256 ticks apart tell their distance. *)
Lemma mtc_delta_ticks k k' :
  0 <= k < k' -> k' - k <= 256 -> mtc_delta (k' mod 256) (k mod 256) = k' - k.
Proof.
  intros Hk Hd. unfold mtc_delta.
  pose proof (Z.div_mod k 256 ltac:(lia)). pose proof (Z.mod_pos_bound k 256 ltac:(lia)).
  pose proof (Z.div_mod k' 256 ltac:(lia)). pose proof (Z.mod_pos_bound k' 256 ltac:(lia)).
  destruct (Z.ltb_spec (k mod 256) (k' mod 256)); rewrite u32_small; lia.
Qed.

(** Each tick of [ks] comes after the one before, by at most 256. *)
Fixpoint tick_gaps (k : Z) (ks : list Z) : Prop :=
  match ks with
  | [] => True
  | k' :: ks' => k < k' <= k + 256 /\ tick_gaps k' ks'
  end.

(** The timestamp after [ks]: the latest of the times of the ticks, from the
    CTC count [delta] at tick [k]. *)
Fixpoint tick_time (d : intel_pt_decoder) (t k delta : Z) (ks : list Z) : Z :=
  match ks with
  | [] => t
  | k' :: ks' =>
    let delta' := u64 (delta + (k' - k) * 2 ^ d_mtc_shift d) in
    tick_time d (Z.max t (add_ctc d (d_ctc_timestamp d) delta')) k' delta' ks'
  end.

Lemma tick_time_ext d d' t k delta ks :
  d_ctc_timestamp d' = d_ctc_timestamp d -> d_mtc_shift d' = d_mtc_shift d ->
  d_tsc_ctc_mult d' = d_tsc_ctc_mult d -> d_tsc_ctc_ratio_n d' = d_tsc_ctc_ratio_n d ->
  d_tsc_ctc_ratio_d d' = d_tsc_ctc_ratio_d d ->
  tick_time d' t k delta ks = tick_time d t k delta ks.
Proof.
  intros E1 E2 E3 E4 E5. revert t k delta.
  induction ks as [|k' ks IH]; intros t k delta; cbn [tick_time]; [done|].
  rewrite IH. unfold add_ctc. by rewrite E1, E2, E3, E4, E5.
Qed.

Lemma tick_time_mono d t k delta ks : t <= tick_time d t k delta ks.
Proof.
  revert t k delta. induction ks as [|k' ks IH]; intros t k delta; cbn [tick_time]; [lia|].
  etransitivity; [|apply IH]. lia.
Qed.

(** The state between two MTC packets, [k] being the last tick. *)
Record ticking (k : Z) (d : intel_pt_decoder) : Prop := {
  tk_mem : mem_ok d;
  tk_tma : d_have_tma d = true;
  tk_known : d_mtc_shift d <= 8 \/ d_fixup_last_mtc d = false;
  tk_shift : 0 <= d_mtc_shift d <= 15;
  tk_mtc : d_last_mtc d = k mod 256
}.

Section run.
Context {D : Type} `{Platform} `{Callbacks D} `{Fuel}.

Lemma mtc_tick k k' d (e : D) :
  ticking k d -> 0 <= k < k' -> k' - k <= 256 ->
  let d0 := d <| d_packet := mkPkt INTEL_PT_MTC 0 (k' mod 256) |> in
  let delta := u64 (d_ctc_delta d + (k' - k) * 2 ^ d_mtc_shift d) in
  exists d', intel_pt_calc_mtc_timestamp d0 e = Ret (tt, d', e) /\ ticking k' d' /\
    clock d' = (Z.max (d_timestamp d) (add_ctc d (d_ctc_timestamp d) delta),
      d_ctc_timestamp d, delta, k' mod 256, true, d_fixup_last_mtc d, d_mtc_shift d,
      d_tsc_ctc_mult d, d_tsc_ctc_ratio_n d, d_tsc_ctc_ratio_d d).
Proof.
  intros [Hm Ht Hk Hs Hl] Hkk H256 d0 delta.
  pose proof (Z.mod_pos_bound k' 256 ltac:(lia)).
  destruct (calc_mtc_clock d0 e) as (d' & E & Hm' & C); [exact (view_mem_ok d d0 eq_refl Hm)|done|done|].
  unfold d0 in C. rsimpl_in C. cbn [pkt_payload] in C. rewrite (u32_small (k' mod 256)), Hl, mtc_delta_ticks in C by lia.
  assert (2 ^ d_mtc_shift d <= 2 ^ 15) by (apply Z.pow_le_mono_r; lia).
  assert (0 < 2 ^ d_mtc_shift d) by lia.
  rewrite (u32_small ((k' - k) .<< _)) in C by (rewrite Z.shiftl_mul_pow2 by lia; nia).
  rewrite Z.shiftl_mul_pow2 in C by lia.
  exists d'. split; [done|].
  assert (clock d' = (Z.max (d_timestamp d) (add_ctc d (d_ctc_timestamp d) delta),
      d_ctc_timestamp d, delta, k' mod 256, true, d_fixup_last_mtc d, d_mtc_shift d,
      d_tsc_ctc_mult d, d_tsc_ctc_ratio_n d, d_tsc_ctc_ratio_d d)) as C' by exact C.
  clear C. split; [|done]. unfold clock in C'. injection C' as ? ? ? C4 C5 C6 C7 ? ? ?.
  split; rewrite ?C4, ?C5, ?C6, ?C7; done.
Qed.

Lemma mtc_run_clock ks : forall k d (e : D),
  ticking k d -> 0 <= k -> tick_gaps k ks -> 0 <= d_ctc_delta d < 2 ^ 64 ->
  exists d', mtc_run (map (fun k => k mod 256) ks) d e = Ret (tt, d', e) /\
    d_timestamp d' = tick_time d (d_timestamp d) k (d_ctc_delta d) ks /\
    d_ctc_delta d' = u64 (d_ctc_delta d + (List.last ks k - k) * 2 ^ d_mtc_shift d) /\
    ticking (List.last ks k) d'.
Proof.
  induction ks as [|k' ks IH]; intros k d e Hd Hk Hg Hc.
  - exists d. cbn [map mtc_run tick_time List.last]. split; [done|]. split; [done|].
    split; [|done]. rewrite Z.sub_diag, Z.mul_0_l, Z.add_0_r, u64_small; done.
  - destruct Hg as [Hg Hgs]. cbn [map mtc_run].
    destruct (mtc_tick k k' d e Hd) as (d1 & E1 & Hd1 & C1); [lia|lia|].
    unfold mbind at 1, M_bind, modify, mbind. unfold M_bind. cbv beta. rewrite E1.
    unfold clock in C1. injection C1 as C1 C2 C3 C4 C5 C6 C7 C8 C9 C10.
    destruct (IH k' d1 e Hd1 ltac:(lia) Hgs) as (d2 & E2 & T2 & D2 & K2);
      [rewrite C3; apply u64_range|].
    exists d2. split; [exact E2|].
    assert (List.last (k' :: ks) k = List.last ks k') as ->.
    { clear. destruct ks as [|k'' ks]; [done|]. cbn. revert k''.
      induction ks as [|a ks IH]; intros b; [done|]. apply IH. }
    split; [|split; [|done]].
    + rewrite T2, C1, C3. cbn [tick_time]. by apply tick_time_ext.
    + rewrite D2, C3, C7, !u64_mod. rewrite Zplus_mod_idemp_l. f_equal. lia.
Qed.
End run.

(** The main theorems on construction, addresses and timestamps. *)
(** ** Sampling periods *)

Lemma lower_power_loop_spec fuel : forall x i,
  0 < x -> 0 <= i -> Z.log2 x + i < 64 -> Z.log2 x <= Z.of_nat fuel ->
  lower_power_loop fuel x i = Some (2 ^ (Z.log2 x + i)).
Proof.
  induction fuel as [|fuel IH]; intros x i Hx Hi H64 Hf; cbn [lower_power_loop];
    (destruct (Z.eqb_spec x 1) as [->|]; [cbn [Z.log2 Z.add];
       rewrite Z.shiftl_mul_pow2, Z.mul_1_l, u64_small; [done|split;
       [lia|apply Z.pow_lt_mono_r; cbn in *; lia]|done]|]).
  - assert (Z.log2 x = 0) as E by (pose proof (Z.log2_nonneg x); lia).
    apply Z.log2_null in E. lia.
  - assert (Z.log2 (x .>> 1) = Z.log2 x - 1) as E.
    { rewrite Z.log2_shiftr by lia. pose proof (Z.log2_pos x ltac:(lia)). lia. }
    rewrite IH; rewrite ?E; try lia; [f_equal; f_equal; lia|].
    rewrite Z.shiftr_div_pow2 by lia. change (2 ^ 1) with 2.
    apply Z.div_str_pos. lia.
Qed.

Lemma lower_power_of_2_spec x :
  0 < x < 2 ^ 64 -> intel_pt_lower_power_of_2 x = Some (2 ^ Z.log2 x).
Proof.
  intros Hx. assert (Z.log2 x < 64) by (apply Z.log2_lt_pow2; lia).
  unfold intel_pt_lower_power_of_2. rewrite lower_power_loop_spec by lia.
  by rewrite Z.add_0_r.
Qed.

(** The mask of a power of two rounds down to its multiples. *)
Lemma land_period_mask k t :
  0 <= k < 64 -> 0 <= t < 2 ^ 64 -> t .& u64 (.~ (2 ^ k - 1)) = t - t mod 2 ^ k.
Proof.
  intros Hk Ht. assert (0 < 2 ^ k) by lia.
  assert (t .& u64 (.~ (2 ^ k - 1)) = t .& .~ (Z.ones k)) as ->.
  { unfold wrap. replace (2 ^ k - 1) with (Z.ones k) by (rewrite Z.ones_equiv; lia).
    rewrite (Z.land_comm (.~ _)), Z.land_assoc, Z.land_ones, Z.mod_small by lia. done. }
  rewrite <- Z.ldiff_land, Z.ldiff_ones_r by lia.
  rewrite Z.shiftr_div_pow2, Z.shiftl_mul_pow2 by lia.
  pose proof (Z.div_mod t (2 ^ k) ltac:(lia)). lia.
Qed.

(** The distance to the next boundary. *)
Lemma period_tail k t :
  0 <= k < 64 -> 0 <= t < 2 ^ 64 ->
  let r := u64 (2 ^ k - u64 (t - (t - t mod 2 ^ k))) in
  1 <= r <= 2 ^ k /\ (t + r) mod 2 ^ k = 0.
Proof.
  intros Hk Ht. cbv zeta. assert (0 < 2 ^ k < 2 ^ 64) by (split; [lia|apply Z.pow_lt_mono_r; lia]).
  pose proof (Z.mod_pos_bound t (2 ^ k) ltac:(lia)).
  replace (t - (t - t mod 2 ^ k)) with (t mod 2 ^ k) by lia.
  rewrite (u64_small (t mod _)), u64_small by lia.
  split; [lia|]. pose proof (Z.div_mod t (2 ^ k) ltac:(lia)).
  replace (t + (2 ^ k - t mod 2 ^ k)) with (0 + (t / 2 ^ k + 1) * 2 ^ k) by lia.
  by rewrite Z.mod_add, Z.mod_0_l by lia.
Qed.

(** Tick periods.  [intel_pt_setup_period] takes the period down to a power
    of two and sets the mask that rounds timestamps down to its multiples; with
    these, [intel_pt_next_period] never asks for fewer than one or more than a
    period's worth of instructions, and when the timestamp [t] reached is in the
    period of the last sample, it asks for exactly those up to the next
    boundary. *)
Theorem next_period_boundary (d0 d : intel_pt_decoder) (r : Z) (d' : intel_pt_decoder) :
  d_period_type d0 = INTEL_PT_PERIOD_TICKS -> 0 < d_period d0 < 2 ^ 64 ->
  intel_pt_setup_period d0 = Some d ->
  0 <= d_timestamp d -> 0 <= d_timestamp_insn_cnt d ->
  d_timestamp d + d_timestamp_insn_cnt d + 1 < 2 ^ 64 ->
  intel_pt_next_period d = (r, d') ->
  let ticks := 2 ^ Z.log2 (d_period d0) in
  let t := d_timestamp d + d_timestamp_insn_cnt d + (if d_continuous_period d then 0 else 1) in
  1 <= r <= ticks /\
  (d_last_masked_timestamp d = t - t mod ticks -> (t + r) mod ticks = 0).
Proof.
  intros Ht Hp Hs H0 H1 H2. unfold intel_pt_setup_period in Hs. rewrite Ht in Hs.
  rewrite lower_power_of_2_spec in Hs by done. cbn [mbind option_bind] in Hs.
  assert (0 <= Z.log2 (d_period d0) < 64) as Hk
    by (split; [apply Z.log2_nonneg|apply Z.log2_lt_pow2; lia]).
  set (k := Z.log2 (d_period d0)) in *.
  assert (0 < 2 ^ k < 2 ^ 64) as H2k by (split; [lia|apply Z.pow_lt_mono_r; lia]).
  assert (d_period_mask d = u64 (.~ (2 ^ k - 1)) /\ d_period_ticks d = 2 ^ k) as [Em Et].
  { injection Hs as <-. rsimpl. done. }
  assert (forall t, 0 <= t < 2 ^ 64 -> _) as Htail by exact (fun t => period_tail k t Hk).
  unfold intel_pt_next_period.
  rewrite (u64_small (d_timestamp d + d_timestamp_insn_cnt d)) by lia.
  rewrite (u64_small (d_timestamp d + d_timestamp_insn_cnt d + 1)) by lia.
  rewrite Em, !land_period_mask by lia. rewrite Et.
  destruct (d_continuous_period d); cbv zeta; rewrite ?Z.add_0_r.
  - pose proof (Htail (d_timestamp d + d_timestamp_insn_cnt d) ltac:(lia)) as [R1 R2].
    destruct (Z.ltb_spec (d_last_masked_timestamp d)
      (d_timestamp d + d_timestamp_insn_cnt d
       - (d_timestamp d + d_timestamp_insn_cnt d) mod 2 ^ k)).
    + intros [= <- <-]. split; [lia|]. intros. lia.
    + destruct (Z.ltb_spec (d_timestamp d + d_timestamp_insn_cnt d
        - (d_timestamp d + d_timestamp_insn_cnt d) mod 2 ^ k) (d_last_masked_timestamp d));
        intros [= <- <-]; (split; [lia|]; intros; (done || lia)).
  - pose proof (Htail (d_timestamp d + d_timestamp_insn_cnt d + 1) ltac:(lia)) as [R1 R2].
    destruct (Z.ltb_spec (d_last_masked_timestamp d)
      (d_timestamp d + d_timestamp_insn_cnt d + 1
       - (d_timestamp d + d_timestamp_insn_cnt d + 1) mod 2 ^ k)); rsimpl.
    + rewrite Z.ltb_irrefl. rewrite Et. intros [= <- <-]. split; [lia|done].
    + rewrite Et. destruct (Z.ltb_spec (d_timestamp d + d_timestamp_insn_cnt d + 1
        - (d_timestamp d + d_timestamp_insn_cnt d + 1) mod 2 ^ k) (d_last_masked_timestamp d));
        intros [= <- <-]; (split; [lia|]; intros; (done || lia)).
Qed.

Definition example_period : intel_pt_decoder :=
  zero_decoder <| d_period_type := INTEL_PT_PERIOD_TICKS |> <| d_period := 1000 |>.

Lemma next_period_boundary_witness :
  1 <= 511 <= 512 /\ (0 = 1 - 1 mod 512 -> (1 + 511) mod 512 = 0).
Proof.
  set (d := example_period <| d_period_mask := u64 (.~ 511) |> <| d_period_ticks := 512 |>).
  assert (H := next_period_boundary example_period d 511
    (d <| d_continuous_period := false |>)
    ltac:(reflexivity) ltac:(cbn; lia) ltac:(vm_compute; reflexivity) ltac:(cbn; lia)
    ltac:(cbn; lia) ltac:(cbn; lia) ltac:(vm_compute; reflexivity)).
  vm_compute in H. vm_compute. exact H.
Defined.

(** ** Addresses *)

(** The addresses that the compression [count] can send after [last_ip]: those
    that share its upper bits, or, for 3, canonical addresses of 48 bits. *)
Definition ip_sendable (count last_ip ip : Z) : bool :=
  match count with
  | 1 => ip / 2 ^ 16 =? last_ip / 2 ^ 16
  | 2 => ip / 2 ^ 32 =? last_ip / 2 ^ 32
  | 3 => (ip <? 2 ^ 47) || (2 ^ 64 - 2 ^ 47 <=? ip)
  | 4 => ip / 2 ^ 48 =? last_ip / 2 ^ 48
  | 6 => true
  | _ => false
  end.

(** The packet that sends it: the low bytes of the address. *)
Definition ip_packet (t : intel_pt_pkt_type) (count ip : Z) : intel_pt_pkt :=
  mkPkt t count (ip mod 2 ^ (8 * Z.of_nat (ip_bytes count))).

(** The upper bits of [last_ip] with the lower bits of [ip]. *)
Lemma upper_or_lower n last_ip ip m :
  0 <= n -> ip / 2 ^ n = last_ip / 2 ^ n -> 0 <= last_ip < 2 ^ 64 -> 0 <= m ->
  m = Z.shiftl (Z.ones (64 - n)) n -> n <= 64 ->
  (last_ip .& m) .| (ip mod 2 ^ n) = ip.
Proof.
  intros Hn E Hl Hm -> H64. assert (0 < 2 ^ n) by lia.
  assert (last_ip .& Z.shiftl (Z.ones (64 - n)) n = Z.shiftl (last_ip / 2 ^ n) n) as ->.
  { rewrite <- Z.shiftr_div_pow2 by lia. apply Z.bits_inj'. intros i Hi. rewrite Z.land_spec.
    destruct (Z.lt_ge_cases i n); [rewrite !Z.shiftl_spec_low by done; apply andb_false_r|].
    rewrite !Z.shiftl_spec, Z.shiftr_spec by lia. replace (i - n + n) with i by lia.
    destruct (Z.lt_ge_cases i 64).
    - rewrite Z.ones_spec_low by lia. apply andb_true_r.
    - rewrite (testbit_high 64 last_ip i) by lia. done. }
  rewrite lor_shiftl_add' by (apply Z.mod_pos_bound; lia). rewrite <- E.
  pose proof (Z.div_mod ip (2 ^ n) ltac:(lia)). lia.
Qed.

(** Sign extension from bit 47. *)
Lemma sign_extend_48 ip :
  0 <= ip < 2 ^ 64 -> (ip < 2 ^ 47 \/ 2 ^ 64 - 2 ^ 47 <= ip) ->
  (if negb (ip mod 2 ^ 48 .& 0x800000000000 =? 0) then ip mod 2 ^ 48 .| 0xffff000000000000
   else ip mod 2 ^ 48) = ip.
Proof.
  intros Hi Hc. assert (ip mod 2 ^ 48 .& 0x800000000000 = 0 <-> ip < 2 ^ 47) as Hbit.
  { change 0x800000000000 with (1 .<< 47). split.
    - intros E. destruct Hc as [|Hc]; [done|]. exfalso.
      assert (Z.testbit (ip mod 2 ^ 48 .& (1 .<< 47)) 47 = false) as T
        by (rewrite E; apply Z.testbit_0_l).
      rewrite Z.land_spec, Z.mod_pow2_bits_low in T by lia.
      rewrite (Z.testbit_eqb ip), Z.shiftl_spec, Z.sub_diag in T by lia.
      assert (ip / 2 ^ 47 = 2 ^ 17 - 1) as E2 by (symmetry; apply (Z.div_unique _ _ _ (ip - (2 ^ 17 - 1) * 2 ^ 47)); lia).
      by rewrite E2 in T.
    - intros. rewrite Z.mod_small by lia. apply (land_shiftl_0 47). lia. }
  destruct (Z.eqb_spec (ip mod 2 ^ 48 .& 0x800000000000) 0) as [E|E]; cbn [negb].
  - apply Z.mod_small. apply Hbit in E. lia.
  - destruct Hc as [|Hc]; [by apply Hbit in H|].
    change 0xffff000000000000 with (0xffff .<< 48). rewrite lor_shiftl_add by (apply Z.mod_pos_bound; lia).
    rewrite <- (Z.mod_unique ip (2 ^ 48) 0xffff (ip - 0xffff * 2 ^ 48)); lia.
Qed.

Lemma calc_ip_sendable t count last_ip ip :
  0 <= last_ip < 2 ^ 64 -> 0 <= ip < 2 ^ 64 -> ip_sendable count last_ip ip = true ->
  intel_pt_calc_ip (ip_packet t count ip) last_ip = ip.
Proof.
  intros Hl Hi. unfold intel_pt_calc_ip, ip_packet, ip_sendable. cbn [pkt_count pkt_payload].
  destruct count as [|c|c]; try done. destruct_Zmatch; try done;
    cbn [ip_bytes Z.of_nat Pos.of_succ_nat Pos.succ]; rewrite ?Z.eqb_eq; intros E.
  - apply sign_extend_48; [done|]. apply orb_true_iff in E.
    rewrite Z.ltb_lt, Z.leb_le in E. exact E.
  - apply Z.mod_small. lia.
  - by apply (upper_or_lower 48).
  - by apply (upper_or_lower 32).
  - by apply (upper_or_lower 16).
Qed.

(** C21: addresses survive compression.  Whatever address the format can send
    after [last_ip] under a compression mode, the bytes of the TIP, TIP.PGE,
    TIP.PGD or FUP packet that sends it decode to a packet from which
    [intel_pt_set_ip] gives the decoder exactly that address, as the current
    one and as the reference for the next packet. *)
Theorem ip_compression_roundtrip (d : intel_pt_decoder) t count ip rest :
  is_ip_type t = true -> 0 <= d_last_ip d < 2 ^ 64 -> 0 <= ip < 2 ^ 64 ->
  ip_sendable count (d_last_ip d) ip = true ->
  Z.of_nat (length rest) < 2 ^ 63 ->
  let bytes := pkt_encode INTEL_PT_NO_CTX (ip_packet t count ip) in
  let buf := bytes ++ rest in
  exists p,
    intel_pt_do_get_packet buf (Z.of_nat (length buf)) INTEL_PT_NO_CTX =
      Some (Z.of_nat (length bytes), p) /\
    let d' := intel_pt_set_ip (d <| d_packet := p |>) in
    d_ip d' = ip /\ d_last_ip d' = ip /\ d_have_last_ip d' = true.
Proof.
  intros Ht Hl Hi Hs Hr bytes buf. exists (ip_packet t count ip).
  assert (0 < count <= 6) as Hc by (destruct count as [|c|]; try done; revert Hs;
    unfold ip_sendable; destruct_Zmatch; (done || lia)).
  split.
  - apply rt_ip; [done|apply Z.mod_pos_bound; lia| |].
    + revert Hs. unfold ip_sendable. destruct count as [|c|]; try done.
      destruct_Zmatch; try done; intros _; (eexists; split; [done|]);
        apply Z.mod_pos_bound; lia.
    + change (Z.of_nat (length (bytes ++ rest)) < 2 ^ 64). rewrite length_app. assert (length bytes <= 9)%nat; [|lia].
      unfold bytes, ip_packet, pkt_encode. cbn [pkt_type pkt_count pkt_payload].
      destruct t; try done; cbn [length]; rewrite length_le_bytes;
        (destruct count as [|c|]; try lia; unfold ip_bytes; destruct_Zmatch; lia).
  - unfold intel_pt_set_ip, intel_pt_set_last_ip. rsimpl.
    rewrite calc_ip_sendable by done. done.
Qed.

Lemma ip_compression_roundtrip_witness :
  let d := zero_decoder <| d_last_ip := 0xffffffff81000000 |> in
  let bytes := pkt_encode INTEL_PT_NO_CTX (ip_packet INTEL_PT_TIP 2 0xffffffff8167abcd) in
  let buf := bytes ++ [x00] in
  exists p,
    intel_pt_do_get_packet buf (Z.of_nat (length buf)) INTEL_PT_NO_CTX =
      Some (Z.of_nat (length bytes), p) /\
    let d' := intel_pt_set_ip (d <| d_packet := p |>) in
    d_ip d' = 0xffffffff8167abcd /\ d_last_ip d' = 0xffffffff8167abcd /\
    d_have_last_ip d' = true.
Proof.
  apply (ip_compression_roundtrip (zero_decoder <| d_last_ip := 0xffffffff81000000 |>)
    INTEL_PT_TIP 2 0xffffffff8167abcd [x00]); first [reflexivity | cbn; lia].
Defined.

(** ** Timestamps *)

(** The seven bytes of a TSC packet, put under the top byte of [ref]. *)
Lemma tsc_candidate t ref :
  0 <= t < 2 ^ 64 -> 0 <= ref < 2 ^ 64 ->
  t mod 2 ^ 56 .| (ref .& (0xff .<< 56)) = t mod 2 ^ 56 + (ref / 2 ^ 56) * 2 ^ 56.
Proof.
  intros Ht Hr.
  assert (ref .& (0xff .<< 56) = (ref / 2 ^ 56) .<< 56) as ->.
  { rewrite <- Z.shiftr_div_pow2 by lia. change 0xff with (Z.ones 8).
    apply Z.bits_inj'. intros i Hi. rewrite Z.land_spec.
    destruct (Z.lt_ge_cases i 56); [rewrite !Z.shiftl_spec_low by done; apply andb_false_r|].
    rewrite !Z.shiftl_spec, Z.shiftr_spec by lia. replace (i - 56 + 56) with i by lia.
    destruct (Z.lt_ge_cases i 64).
    - rewrite Z.ones_spec_low by lia. apply andb_true_r.
    - by rewrite (testbit_high 64 ref i) by lia. }
  apply lor_shiftl_add. apply Z.mod_pos_bound. lia.
Qed.

(** TSC reconstruction.  A TSC packet carries seven of the eight bytes of the
    time stamp counter.  From a reference within 2^55 ticks of it, on either
    side and across any carry into the top byte, [intel_pt_8b_tsc] gives back
    the full counter. *)
Theorem tsc_reconstructed t ref :
  0 <= t < 2 ^ 64 -> 0 <= ref < 2 ^ 64 -> Z.abs (t - ref) < 2 ^ 55 ->
  intel_pt_8b_tsc (t mod 2 ^ 56) ref = t.
Proof.
  intros Ht Hr Hd. unfold intel_pt_8b_tsc. rewrite tsc_candidate by done. cbv zeta.
  pose proof (Z.div_mod t (2 ^ 56) ltac:(lia)). pose proof (Z.mod_pos_bound t (2 ^ 56) ltac:(lia)).
  pose proof (Z.div_mod ref (2 ^ 56) ltac:(lia)).
  pose proof (Z.mod_pos_bound ref (2 ^ 56) ltac:(lia)).
  change (1 .<< 55) with (2 ^ 55). change (1 .<< 56) with (2 ^ 56).
  repeat match goal with |- context [?x <? ?y] => destruct (Z.ltb_spec x y) end;
    try rewrite u64_small; lia.
Qed.

Lemma tsc_reconstructed_witness :
  intel_pt_8b_tsc (0x0100000000000005 mod 2 ^ 56) 0x00fffffffffffff0 = 0x0100000000000005.
Proof. apply (tsc_reconstructed 0x0100000000000005 0x00fffffffffffff0); cbn; lia. Defined.

(** TSC comparison.  [intel_pt_tsc_cmp] orders the seven-byte counters of two
    moments less than 2^55 ticks apart as the moments, whether or not the
    counter wrapped between them. *)
Theorem tsc_cmp_orders t1 t2 :
  0 <= t1 -> 0 <= t2 -> Z.abs (t1 - t2) < 2 ^ 55 ->
  intel_pt_tsc_cmp (t1 mod 2 ^ 56) (t2 mod 2 ^ 56) = Z.sgn (t1 - t2).
Proof.
  intros H1 H2 Hd. unfold intel_pt_tsc_cmp. change (1 .<< 55) with (2 ^ 55).
  pose proof (Z.div_mod t1 (2 ^ 56) ltac:(lia)). pose proof (Z.mod_pos_bound t1 (2 ^ 56) ltac:(lia)).
  pose proof (Z.div_mod t2 (2 ^ 56) ltac:(lia)). pose proof (Z.mod_pos_bound t2 (2 ^ 56) ltac:(lia)).
  destruct (Z.eqb_spec (t1 mod 2 ^ 56) (t2 mod 2 ^ 56));
    repeat match goal with |- context [?x <? ?y] => destruct (Z.ltb_spec x y) end; lia.
Qed.

Lemma tsc_cmp_orders_witness :
  intel_pt_tsc_cmp ((2 ^ 56 + 3) mod 2 ^ 56) ((2 ^ 56 - 7) mod 2 ^ 56)
    = Z.sgn (2 ^ 56 + 3 - (2 ^ 56 - 7)).
Proof. apply (tsc_cmp_orders (2 ^ 56 + 3) (2 ^ 56 - 7)); cbn; lia. Defined.

(** Scaling without overflow.  [multdiv] is the exact quotient [t * n / d],
    computed without an intermediate result of more than 64 bits, for any
    64-bit [t] whose scaled value fits. *)
Theorem multdiv_exact t n d :
  0 <= t < 2 ^ 64 -> 0 <= n < 2 ^ 32 -> 0 < d < 2 ^ 32 -> t * n / d < 2 ^ 64 ->
  multdiv t n d = t * n / d.
Proof.
  intros Ht Hn Hd Hq. unfold multdiv. destruct (Z.eqb_spec d 0); [lia|].
  pose proof (Z.div_mod t d ltac:(lia)) as Ed. pose proof (Z.mod_pos_bound t d ltac:(lia)).
  assert (0 <= t / d) by (apply Z.div_pos; lia).
  assert (t * n / d = t / d * n + t mod d * n / d) as E.
  { rewrite <- Z.div_add_l by lia. f_equal. nia. }
  assert (0 <= t mod d * n < 2 ^ 64) by nia.
  assert (0 <= t mod d * n / d) by (apply Z.div_pos; lia).
  rewrite (u64_small (t mod d * n)), (u64_small (t / d * n)), u64_small; nia.
Qed.

Lemma multdiv_exact_witness : multdiv (2 ^ 62) 168 84 = 2 ^ 62 * 168 / 84.
Proof. apply (multdiv_exact (2 ^ 62) 168 84); [lia|lia|lia|by vm_compute]. Defined.

(** The missing MTC bits.  When [mtc_shift] is above 8 a TMA packet gives only
    the low [16 - mtc_shift] bits of the last MTC.  [intel_pt_fixup_last_mtc]
    keeps those bits and fills in the rest so that the current MTC comes after
    the last one by the least number of ticks, one at least. *)
Theorem fixup_last_mtc_least mtc_shift last_mtc mtc :
  9 <= mtc_shift <= 15 -> 0 <= last_mtc < 2 ^ (16 - mtc_shift) -> 0 <= mtc < 256 ->
  let r := intel_pt_fixup_last_mtc mtc mtc_shift last_mtc in
  0 <= r < 256 /\ r mod 2 ^ (16 - mtc_shift) = last_mtc /\
  1 <= mtc_delta mtc r <= 2 ^ (16 - mtc_shift).
Proof.
  intros Hs Hl Hm.
  set (f := fun s l m => let r := intel_pt_fixup_last_mtc m s l in
    (0 <=? r) && (r <? 256) && (r mod 2 ^ (16 - s) =? l) && (1 <=? mtc_delta m r)
    && (mtc_delta m r <=? 2 ^ (16 - s))).
  assert (forallb (fun s => if s <? 9 then true else
    forallb (fun l => forallb (f s l) (seqZ 0 256)) (seqZ 0 (2 ^ (16 - s)))) (seqZ 0 16) = true) as T by (vm_compute; reflexivity).
  pose proof (range_forall _ _ T mtc_shift ltac:(lia)) as Ts. cbv beta in Ts.
  destruct (Z.ltb_spec mtc_shift 9); [lia|].
  pose proof (range_forall _ _ (range_forall _ _ Ts last_mtc Hl) mtc Hm) as Tm.
  unfold f in Tm. cbv zeta in Tm |- *.
  rewrite !andb_true_iff, !Z.leb_le, Z.ltb_lt, Z.eqb_eq in Tm. tauto.
Qed.

Lemma fixup_last_mtc_least_witness :
  let r := intel_pt_fixup_last_mtc 0x42 12 0x5 in
  0 <= r < 256 /\ r mod 2 ^ (16 - 12) = 0x5 /\ 1 <= mtc_delta 0x42 r <= 2 ^ (16 - 12).
Proof. apply (fixup_last_mtc_least 12 0x5 0x42); cbn; lia. Defined.

(** C26: time from MTC packets.  An MTC packet carries eight bits of the crystal
    clock.  For ticks [ks] that follow tick [k] with at most 256 between each
    and the next, [intel_pt_calc_mtc_timestamp], called on their packets in
    turn, recovers the whole count: the CTC distance is that from [k] to the
    last tick, and the timestamp is the latest of the times that count gives,
    never earlier than before. *)
Theorem mtc_time {D} `{Platform} `{Callbacks D} `{Fuel} (d : intel_pt_decoder) (e : D) k ks :
  mem_ok d -> d_have_tma d = true -> d_mtc_shift d <= 8 \/ d_fixup_last_mtc d = false ->
  0 <= d_mtc_shift d <= 15 -> d_last_mtc d = k mod 256 -> 0 <= d_ctc_delta d < 2 ^ 64 ->
  0 <= k -> tick_gaps k ks ->
  exists d', mtc_run (map (fun k => k mod 256) ks) d e = Ret (tt, d', e) /\
    d_ctc_delta d' = u64 (d_ctc_delta d + (List.last ks k - k) * 2 ^ d_mtc_shift d) /\
    d_timestamp d' = tick_time d (d_timestamp d) k (d_ctc_delta d) ks /\
    d_timestamp d <= d_timestamp d' /\ mem_ok d'.
Proof.
  intros Hm Ht Hf Hs Hl Hc Hk Hg.
  destruct (mtc_run_clock ks k d e) as (d' & E & T & C & K); [by split|done|done|done|].
  exists d'. split; [done|]. split; [done|]. split; [done|].
  split; [rewrite T; apply tick_time_mono|apply K].
Qed.

Definition example_clock : intel_pt_decoder :=
  zero_decoder <| d_have_tma := true |> <| d_mtc_shift := 3 |> <| d_last_mtc := 250 |>
    <| d_tsc_ctc_mult := 84 |> <| d_ctc_timestamp := 1000 |> <| d_timestamp := 1000 |>.

Lemma mtc_time_witness :
  exists d', mtc_run [254; 3; 2] example_clock ([] : list intel_pt_buffer) =
      Ret (tt, d', []) /\
    d_ctc_delta d' = u64 (0 + (514 - 250) * 2 ^ 3) /\
    d_timestamp d' = tick_time example_clock 1000 250 0 [254; 259; 514] /\
    1000 <= d_timestamp d' /\ mem_ok d'.
Proof.
  apply (mtc_time example_clock ([] : list intel_pt_buffer) 250 [254; 259; 514]);
    try reflexivity; try (cbn; lia).
  - apply (view_mem_ok zero_decoder); [reflexivity|apply zero_mem_ok].
Defined.

(** The CYC packets with payloads [cs], one after the other. *)
Definition cyc_packet `{Platform} (d : intel_pt_decoder) (c : Z) : intel_pt_decoder :=
  intel_pt_calc_cyc_timestamp (d <| d_packet := mkPkt INTEL_PT_CYC 0 c |>).
Definition cyc_run `{Platform} (cs : list Z) (d : intel_pt_decoder) : intel_pt_decoder :=
  fold_left cyc_packet cs d.

Lemma cyc_step `{Platform} c d :
  d_pge (cyc_packet d c) = d_pge d /\ d_cycle_cnt (cyc_packet d c) = u64 (d_cycle_cnt d + c) /\
  d_tot_cyc_cnt (cyc_packet d c)
    = (if d_pge d then u64 (d_tot_cyc_cnt d + c) else d_tot_cyc_cnt d) /\
  d_timestamp d <= d_timestamp (cyc_packet d c).
Proof.
  unfold cyc_packet, intel_pt_calc_cyc_timestamp. cbv zeta. rsimpl. cbn [pkt_payload].
  repeat match goal with |- context [f64_to_u64 ?x] => generalize (f64_to_u64 x); intros ? end.
  destruct (d_pge d) eqn:Hpge; rsimpl; repeat case_match; rsimpl;
    rewrite ?Z.ltb_lt, ?Z.ltb_ge in *; rsimpl; repeat split; try done; try lia.
Qed.

Lemma fold_left_cons {A B} (f : A -> B -> A) b l a :
  fold_left f (b :: l) a = fold_left f l (f a b).
Proof. reflexivity. Qed.

(** What [cyc_time] states of the packets of total [s] between [d] and [d']. *)
Definition cyc_sum (d : intel_pt_decoder) (s : Z) (d' : intel_pt_decoder) : Prop :=
  u64 (d_cycle_cnt d') = u64 (d_cycle_cnt d + s) /\
  u64 (d_tot_cyc_cnt d') = u64 (d_tot_cyc_cnt d + (if d_pge d then s else 0)) /\
  d_timestamp d <= d_timestamp d'.

Lemma cyc_sum_cons c s d d1 d2 :
  cyc_sum d1 s d2 ->
  d_pge d1 = d_pge d /\ d_cycle_cnt d1 = u64 (d_cycle_cnt d + c) /\
  d_tot_cyc_cnt d1 = (if d_pge d then u64 (d_tot_cyc_cnt d + c) else d_tot_cyc_cnt d) /\
  d_timestamp d <= d_timestamp d1 ->
  cyc_sum d (c + s) d2.
Proof.
  intros (I1 & I2 & I3) (E1 & E2 & E3 & E4). unfold cyc_sum.
  rewrite I1, I2, E1, E2, E3, u64_add_l, <- Z.add_assoc.
  destruct (d_pge d); rewrite ?u64_add_l, <- ?Z.add_assoc; (split; [done|split; [done|lia]]).
Qed.

(** C27: time from CYC packets.  Whatever sequence of CYC packets
    [intel_pt_calc_cyc_timestamp] is called on, the cycle count since the last
    reference and, while tracing is enabled, the total cycle count grow by
    exactly the sum of the payloads, modulo 2^64, and the timestamp never goes
    back, whatever the rounding of the conversion does. *)
Theorem cyc_time `{Platform} cs d :
  let d' := cyc_run cs d in
  let sum := fold_right Z.add 0 cs in
  u64 (d_cycle_cnt d') = u64 (d_cycle_cnt d + sum) /\
  u64 (d_tot_cyc_cnt d') = u64 (d_tot_cyc_cnt d + (if d_pge d then sum else 0)) /\
  d_timestamp d <= d_timestamp d'.
Proof.
  cbv zeta. change (cyc_sum d (fold_right Z.add 0 cs) (cyc_run cs d)). revert d.
  induction cs as [|c cs IH]; intros d.
  - unfold cyc_sum. cbn [fold_right]. split; [|split; [|apply Z.le_refl]].
    + by rewrite Z.add_0_r.
    + destruct (d_pge d); by rewrite Z.add_0_r.
  - unfold cyc_run. rewrite fold_left_cons.
    exact (cyc_sum_cons _ _ _ _ _ (IH (cyc_packet d c)) (cyc_step c d)).
Qed.
