(* ===== verification/PtWalkTheorems.v ===== *)
(** The main theorems on the walks: the codes they return, loop detection,
    emulated PTWRITE, and branches taken from TNT packets. *)
From Stdlib Require Import ZArith Lia List Bool.
From S2P Require Import Prelude Float64 PktDecoder PktBounds PktStream PtStack PtState PtTime PtReader PtWalk PtTrace PtVmTime PtDecode PtSafe PtExample PtTotal PtTnt.
Open Scope Z_scope.
Open Scope c_scope.
Import ListNotations.

(** ** FUP and TIP walks *)

Section codes.
Context {D : Type} `{Callbacks D}.
Implicit Types (d : intel_pt_decoder) (e : D).

Lemma sample_fup_insn_total (Q : unit -> _ -> _ -> Prop) d e :
  (forall d' e', Q tt d' e') -> twp intel_pt_sample_fup_insn Q d e.
Proof.
  intros HQ. unfold intel_pt_sample_fup_insn. twps.
  destruct (_ || _); [by apply twp_ret|].
  apply twp_bind, next_sample_total. intros n d' _ _.
  destruct (negb (n =? 1)); [by apply twp_ret|].
  unfold call_walk_insn. twps. destruct (walk_insn _ _ _ _) as [w e']. cbn [fst snd].
  destruct (negb (w_err w =? 0)); [by apply twp_ret|].
  destruct (negb _); [by apply twp_ret|]. twps. apply HQ.
Qed.

Lemma fup_event_total b (Q : bool -> _ -> _ -> Prop) d e :
  (forall ev d' e', Q ev d' e') -> twp (intel_pt_fup_event b) Q d e.
Proof.
  intros HQ. unfold intel_pt_fup_event. apply twp_bind, twp_get. cbv zeta.
  destruct (fup_events b d) as [[ret sample] d1].
  destruct (d_overflow d1 && negb ret && negb (d_pge d1)); [twps; apply HQ|].
  destruct ret; [|twps; apply HQ].
  twps. apply twp_when; intros _; [|twps; apply HQ].
  apply sample_fup_insn_total. intros. twps. apply HQ.
Qed.

Lemma leaves_filter_total ip (Q : bool -> _ -> _ -> Prop) d e :
  (forall b, Q b d e) -> twp (leaves_filter ip) Q d e.
Proof. intros HQ. apply HQ. Qed.
End codes.

(** The errors that stop a walk: no instruction, memory, loop, mismatch. *)
Definition walk_error (err : Z) : bool :=
  bool_decide (err ∈ [- ENOLINK; - EILSEQ; - ENOMEM; - ELOOP; - ENOENT]).

(** The FUP walk ends, and its internal error is unreachable.  Whatever the
    instructions, [intel_pt_walk_fup] returns after one instruction walk: the
    loop around the internal error [intel_pt_bug] is never entered twice.  It
    returns 0, -EAGAIN when the FUP address was reached, or one of the errors a
    walk can meet; never the internal error -ENOSYS. *)
Theorem walk_fup_ends {D} `{Callbacks D} `{Fuel} (d : intel_pt_decoder) (e : D) :
  (0 < fuel)%nat -> stack_wf (d_stack d) ->
  exists err d' e', intel_pt_walk_fup d e = Ret (err, d', e') /\
    (err = 0 \/ err = - EAGAIN \/ walk_error err = true).
Proof.
  intros Hf Hs. apply twp_elim. unfold intel_pt_walk_fup. twps.
  generalize (d_last_ip d). intros ip.
  destruct fuel as [|n]; [lia|]. cbn [walk_fup_loop]. apply twp_bind.
  eapply twp_mono; [by apply walk_insn_total|]. clear d e Hs.
  intros [err insn] d e [_ Hp]. destruct (Z.eqb_spec err INTEL_PT_RETURN); [twps; auto|].
  twps. destruct (_ || _) eqn:Ea.
  { twps. apply fup_event_total. intros ev d' e'. twps. destruct (_ && _); auto. }
  apply orb_false_iff in Ea as [Ea _]. apply Z.eqb_neq in Ea. twps.
  destruct (Z.eqb_spec err 0) as [->|]; cbn [negb].
  - destruct Hp as [[? _]|[[_ Hb]|[[? _]|[?|[?|[?|?]]]]]]; try done.
    destruct Hb as [-> | ->]; twps; auto.
  - twps. destruct Hp as [[? _]|[[? _]|[[? _]|[->|[->|[->| ->]]]]]]; auto; done.
Qed.

Lemma walk_fup_ends_witness :
  exists err d' e', intel_pt_walk_fup zero_decoder ([] : list intel_pt_buffer) =
    Ret (err, d', e') /\ (err = 0 \/ err = - EAGAIN \/ walk_error err = true).
Proof.
  apply (walk_fup_ends zero_decoder ([] : list intel_pt_buffer)).
  - unfold fuel, fuel50. lia.
  - apply empty_stack_wf.
Defined.

(** C32: the TIP walk ends, and its internal error is unreachable: whatever the
    instructions, [intel_pt_walk_tip] returns 0 or one of the errors a walk can
    meet. *)
Theorem walk_tip_ends {D} `{Callbacks D} (d : intel_pt_decoder) (e : D) :
  stack_wf (d_stack d) ->
  exists err d' e', intel_pt_walk_tip d e = Ret (err, d', e') /\
    (err = 0 \/ walk_error err = true).
Proof.
  intros Hs. apply twp_elim. unfold intel_pt_walk_tip. apply twp_bind.
  eapply twp_mono; [by apply walk_insn_total|]. clear d e Hs.
  intros [err insn] d e [_ Hp]. twps. apply leaves_filter_total. intros b.
  destruct (Z.eqb_spec err INTEL_PT_RETURN) as [->|]; cbn [andb].
  { destruct (b && _); twps; auto. }
  destruct (Z.eqb_spec err 0) as [->|]; cbn [negb].
  - destruct Hp as [[? _]|[[_ Hb]|[[? _]|[?|[?|[?|?]]]]]]; try done. twps.
    destruct Hb as [-> | ->]; twps; [auto|]. apply leaves_filter_total.
    intros []; twps; auto.
  - twps. destruct Hp as [[? _]|[[? _]|[(_ & ? & _)|[->|[->|[->| ->]]]]]]; auto; done.
Qed.

Lemma walk_tip_ends_witness :
  exists err d' e', intel_pt_walk_tip zero_decoder ([] : list intel_pt_buffer) =
    Ret (err, d', e') /\ (err = 0 \/ walk_error err = true).
Proof. apply (walk_tip_ends zero_decoder ([] : list intel_pt_buffer)), empty_stack_wf. Defined.

(** ** Never-ending loops *)

Lemma fresh_stuck d : d_no_progress d = 0 -> forall ts, stuck_inv ts (d_max_loops d) 0 (stuck d).
Proof. intros E ts. unfold stuck. rewrite E. split; [done|]. split; [done|]. lia. Qed.

(** C30: a loop reported is a loop.  From the last sign of progress on,
    [intel_pt_walk_insn] reports a never-ending loop at an unconditional branch
    only when the same target was branched to before, or when there have been
    more branches than [max_loops]. *)
Theorem loop_report_sound (d : intel_pt_decoder) (bs : list branch) (i : nat) :
  d_no_progress d = 0 -> 0 <= d_max_loops d < 2 ^ 31 - 2 ->
  first_loop bs d = Some i ->
  d_max_loops d < Z.of_nat i \/
  exists j b b', (j < i)%nat /\ bs !! j = Some b /\ bs !! i = Some b' /\ target b = target b'.
Proof.
  intros H0 Hm Hi. rewrite first_loop_targets in Hi.
  destruct (loop_at_sound (map target bs) (d_max_loops d) Hm (length (map target bs)) 0 (stuck d) i)
    as [?|(j & t & Hj & Etj & Eti)]; [lia|by apply fresh_stuck|done|by left|].
  right. cbn [Nat.add] in *. rewrite !list_lookup_fmap in Etj, Eti.
  destruct (bs !! j) as [b|] eqn:Eb; [|done]. destruct (bs !! i) as [b'|] eqn:Eb'; [|done].
  exists j, b, b'. repeat split; [done..|]. cbn in Etj, Eti. congruence.
Qed.

(** An endless loop of one jump to itself. *)
Definition self_jump : branch :=
  (0x1000, mkInsn INTEL_PT_OP_JMP INTEL_PT_BR_UNCONDITIONAL false 2 (-2) no_bytes).

Definition loop_decoder : intel_pt_decoder := zero_decoder <| d_max_loops := 100000 |>.

Lemma loop_report_sound_witness :
  100000 < Z.of_nat 2 \/
  exists j b b', (j < 2)%nat /\ replicate 5 self_jump !! j = Some b /\
    replicate 5 self_jump !! 2%nat = Some b' /\ target b = target b'.
Proof.
  apply (loop_report_sound loop_decoder (replicate 5 self_jump) 2);
    [reflexivity|cbn; lia|vm_compute; reflexivity].
Defined.

(** C31: a loop is reported.  If unconditional branches go on without progress,
    [intel_pt_walk_insn] reports a never-ending loop by the branch that follows
    [max_loops] others, and, when the targets repeat with period [p], already
    by branch number 1 + p(p+1)/2, counted from 0. *)
Theorem loop_reported (d : intel_pt_decoder) (bs : list branch) (N : nat) :
  d_no_progress d = 0 -> 0 <= d_max_loops d < 2 ^ 31 - 2 -> (N < length bs)%nat ->
  Z.of_nat N = Z.max 2 (d_max_loops d + 1) \/
  (exists p, (1 <= p)%nat /\ (2 * N = 2 + p * (p + 1))%nat /\
     forall i, (i + p < length bs)%nat -> target <$> bs !! (i + p)%nat = target <$> bs !! i) ->
  exists i, first_loop bs d = Some i /\ (i <= N)%nat.
Proof.
  intros H0 Hm Hl Hcase. rewrite first_loop_targets.
  assert (length (map target bs) = length bs) as El by apply length_map.
  destruct Hcase as [HN|(p & Hp & HN & Hper)].
  - eapply loop_at_max; [done|by apply fresh_stuck|done|lia].
  - eapply (loop_at_period _ _ Hm _ p N); [by apply fresh_stuck|done|done|lia|].
    rewrite !list_lookup_fmap.
    assert (p <= N)%nat by nia. rewrite <- (Hper (N - p)%nat) by lia. do 2 f_equal. lia.
Qed.

Lemma loop_reported_witness :
  exists i, first_loop (replicate 5 self_jump) loop_decoder = Some i /\ (i <= 2)%nat.
Proof.
  apply (loop_reported loop_decoder (replicate 5 self_jump) 2); [reflexivity|cbn; lia|cbn; lia|].
  right. exists 1%nat. split; [lia|]. split; [lia|]. cbn [length replicate]. intros i Hi.
  destruct i as [|[|[|[|i]]]]; [reflexivity..|lia].
Defined.

(** ** Emulated PTWRITE *)

Lemma stream_tnt_ok ctx ps : stream_canon ctx ps -> Forall tnt_ok ps.
Proof.
  revert ctx. induction ps as [|p ps IH]; intros ctx; [done|]. intros [[Hw Hc] Hps].
  constructor; [|by eapply IH]. intros Ht. rewrite Ht in Hc. destruct Hw as [Hv Hw]. rewrite Ht in Hw.
  destruct Hc as (? & _). split; [lia|done].
Qed.

(** C28: emulated PTWRITE.  The payload [intel_pt_emulated_ptwrite] reports is made
    of 64 branch outcomes: those left of the current TNT packet, whose bytes [pre]
    are still in the buffer, then those of the TNT packets after it in the buffer,
    oldest in the highest bit, whatever packets that do not end the walk come
    between them.  When a packet that
    ends it, or the end of the buffer, comes too early, the function returns
    -ECONNRESET and reports no payload. *)
Theorem emulated_ptwrite_payload {D} `{Platform} (d : intel_pt_decoder) (e : D) pre ctx ps :
  stream_canon ctx ps -> Z.of_nat (length (d_buf d)) < 2 ^ 64 ->
  d_buf d = pre ++ stream_encode ctx ps -> d_len d = Z.of_nat (length (d_buf d)) ->
  d_pkt_step d = Z.of_nat (length pre) -> d_pkt_ctx d = ctx ->
  1 <= pkt_count (d_tnt d) <= 47 -> 0 <= pkt_payload (d_tnt d) < 2 ^ 64 ->
  let d' := d <| d_emulated_ptwrite := false |> in
  intel_pt_emulated_ptwrite d e =
    match gather (64 - length (tnt_bits (d_tnt d))) ps with
    | Some bs =>
      Ret (0, d' <| st st_type := INTEL_PT_PTW |> <| st st_from_ip := d_ip d |>
                 <| st st_to_ip := 0 |>
                 <| st st_ptw_payload := bits_val (tnt_bits (d_tnt d) ++ bs) |>, e)
    | None => Ret (- ECONNRESET, d', e)
    end.
Proof.
  intros Hc Hl Hb Hn Hs Hx Ht Hv d'. unfold intel_pt_emulated_ptwrite, mbind, M_bind, get, modify.
  pose proof (length_tnt_bits (d_tnt d) ltac:(lia)) as El.
  assert (shr64 (pkt_payload (d_tnt d)) (64 - pkt_count (d_tnt d)) = bits_val (tnt_bits (d_tnt d))) as ->.
  { unfold shr64. destruct (Z.leb_spec 0 (64 - pkt_count (d_tnt d))),
      (Z.ltb_spec (64 - pkt_count (d_tnt d)) 64); try lia. cbn [andb].
    rewrite <- (tnt_bits_val (d_tnt d) (pkt_count (d_tnt d))) by lia.
    by rewrite take_ge by lia. }
  replace (64 - pkt_count (d_tnt d)) with (Z.of_nat (64 - length (tnt_bits (d_tnt d)))) by lia.
  set (x := mkEptw _ _).
  pose proof (pkt_lookahead_stream eptw_packet pre ctx ps x d' e Hc Hl Hb Hn Hs Hx) as E.
  change (fun info => eptw_packet (pi_packet info)) with (intel_pt_eptw_lookahead_cb) in E.
  fold d'. rewrite E.
  destruct (eptw_feed ps (tnt_bits (d_tnt d)) d' (stream_tnt_ok _ _ Hc) ltac:(lia))
    as (ret & y & Ef & Hy). fold x in Ef. rewrite Ef.
  destruct (gather _ ps) as [bs|].
  - subst y. reflexivity.
  - destruct (Z.eqb_spec (bit_countdown y) 0); [done|]. reflexivity.
Qed.

(** A long TNT packet and then short ones, after one of which two outcomes are left. *)
Definition eptw_packets : list intel_pt_pkt :=
  mkPkt INTEL_PT_MTC 0 7 :: mkPkt INTEL_PT_TNT 9 (long_tnt_payload 0x2b5) ::
  replicate 10 (mkPkt INTEL_PT_TNT 6 0xa800000000000000).

Definition eptw_decoder : intel_pt_decoder :=
  zero_decoder <| d_buf := [xa8] ++ stream_encode INTEL_PT_NO_CTX eptw_packets |>
    <| d_len := 1 + Z.of_nat (length (stream_encode INTEL_PT_NO_CTX eptw_packets)) |> <| d_pkt_step := 1 |>
    <| d_tnt := mkPkt INTEL_PT_TNT 2 0x4000000000000000 |>.

Lemma emulated_ptwrite_payload_witness :
  let d' := eptw_decoder <| d_emulated_ptwrite := false |> in
  intel_pt_emulated_ptwrite eptw_decoder ([] : list intel_pt_buffer) =
    match gather (64 - length (tnt_bits (d_tnt eptw_decoder))) eptw_packets with
    | Some bs =>
      Ret (0, d' <| st st_type := INTEL_PT_PTW |> <| st st_from_ip := d_ip eptw_decoder |>
                 <| st st_to_ip := 0 |>
                 <| st st_ptw_payload := bits_val (tnt_bits (d_tnt eptw_decoder) ++ bs) |>, [])
    | None => Ret (- ECONNRESET, d', [])
    end.
Proof.
  apply (emulated_ptwrite_payload eptw_decoder ([] : list intel_pt_buffer) [xa8] INTEL_PT_NO_CTX
    eptw_packets); try (vm_compute; reflexivity); try (cbn; lia).
  cbn. unfold pkt_canon, pkt_wf. cbn. repeat split; try lia; first [left; vm_compute; reflexivity|right; vm_compute; reflexivity|by vm_compute].
Defined.

(** ** Branches of TNT packets *)

(** C20: TNT packets are followed outcome by outcome.  Let no instructions be
    sampled, neither periodically nor as one that is pending, and no PTWRITE be
    emulated.  In a program whose branches are all conditional, [intel_pt_walk_tnt],
    given the outcomes [bits] of a TNT packet, goes exactly where following them one
    by one goes: it reports the first branch taken, from its address to its target,
    keeping the outcomes after it for the next call, or, when no branch is taken,
    returns -EAGAIN past the last one; and it ends within as many steps as there are
    outcomes. *)
Theorem walk_tnt_follows {D} `{Platform} `{Callbacks D} `{Fuel} at_ip insn cnt ip bits
    (d : intel_pt_decoder) (e : D) :
  conditional_program at_ip insn cnt -> walking ip bits d ->
  bits <> [] -> (length bits <= fuel)%nat ->
  let '(fin, ip', rest) := follow at_ip insn ip bits in
  exists d', intel_pt_walk_tnt d e =
      Ret (match fin with Taken _ _ => 0 | UsedUp => - EAGAIN end, d', e) /\
    d_ip d' = ip' /\ tnt_bits (d_tnt d') = rest /\ pkt_count (d_tnt d') = Z.of_nat (length rest) /\
    d_pkt_state d' = match rest with [] => INTEL_PT_STATE_IN_SYNC | _ => INTEL_PT_STATE_TNT_CONT end /\
    match fin with
    | Taken from to => st_from_ip (d_state d') = from /\ st_to_ip (d_state d') = to
    | UsedUp => True
    end.
Proof. intros. by apply (walk_tnt_follow at_ip insn cnt). Qed.

(** A program of two-byte branches to 32 bytes further, one every 6 bytes. *)
Definition jcc_at (ip : Z) : intel_pt_insn :=
  mkInsn INTEL_PT_OP_JCC INTEL_PT_BR_CONDITIONAL false 2 32 no_bytes.

Definition jcc_callbacks : Callbacks unit := {|
  get_trace e := (0, mkBuffer [] 0 false 0 0, e);
  walk_insn e ip to_ip n := (mkWalk 0 (jcc_at ip) 3 (ip + 4), e);
  pgd_ip := None;
  lookahead X e cb x := (0, x);
  findnew_vmcs_info e v := (None, e);
  vmcs_read e h := mkVmcsInfo 0 0 false false;
  vmcs_write e h v := e;
  malloc_ok e := (true, e)
|}.

Definition tnt_decoder : intel_pt_decoder :=
  zero_decoder <| d_ip := 0x1000 |> <| d_tnt := mkPkt INTEL_PT_TNT 4 0x3000000000000000 |>.

Lemma walk_tnt_follows_witness :
  exists d', @intel_pt_walk_tnt unit _ jcc_callbacks _ tnt_decoder tt = Ret (0, d', tt) /\
    d_ip d' = 0x1032 /\ tnt_bits (d_tnt d') = [true] /\ pkt_count (d_tnt d') = 1 /\
    d_pkt_state d' = INTEL_PT_STATE_TNT_CONT /\
    st_from_ip (d_state d') = 0x1010 /\ st_to_ip (d_state d') = 0x1032.
Proof.
  apply (@walk_tnt_follows unit _ jcc_callbacks _ (fun ip => ip + 4) jcc_at (fun _ => 3)
    0x1000 [false; false; true; true] tnt_decoder tt).
  - split; [done|]. intros ip. split; [done|]. split; done.
  - split; [reflexivity|vm_compute; reflexivity|cbn; lia|cbn; lia|reflexivity|reflexivity|reflexivity].
  - done.
  - unfold fuel, fuel50. cbn. lia.
Defined.
