(* ===== verification/PtTheorems.v ===== *)
(** The main theorems on the whole decoder: memory safety. *)
From Stdlib Require Import ZArith Lia List Bool.
From S2P Require Import Prelude Float64 PktDecoder PktBounds PtStack PtState PtTime PtReader PtWalk PtTrace PtVmTime PtDecode PtSafe PtSafeReader PtSafeWalk PtExample PtTotal PtScan.
Open Scope Z_scope.
Open Scope c_scope.
Import ListNotations.

(** ** Runs of the decoder *)

(** [n] calls of [intel_pt_decode]. *)
Fixpoint decode_times {D} `{Platform} `{Callbacks D} `{Fuel} (n : nat)
    : M D (list intel_pt_state) :=
  match n with
  | O => mret []
  | S n' =>
    s ← intel_pt_decode;
    l ← decode_times n';
    mret (s :: l)
  end.

Lemma zero_ok d :
  view d = (d_buf zero_decoder, d_len zero_decoder, d_next_buf zero_decoder,
    d_next_len zero_decoder, d_temp_buf zero_decoder, d_stack zero_decoder,
    d_pkt_step zero_decoder, d_vm_time_correlation d, d_vm_tm_corr_dry_run d) ->
  d_pkt_state d = INTEL_PT_STATE_NO_PSB ->
  (d_vm_time_correlation d = true -> d_vm_tm_corr_dry_run d = true) -> ok d.
Proof.
  intros V Hs Hv. injection V as V1 V2 V3 V4 V5 V6 V7. split.
  - split; [split|..]; unfold next_ok; rewrite ?V1, ?V2, ?V3, ?V4, ?V5, ?V6, ?V7; try done.
    all: first [apply empty_stack_wf | by left].
  - unfold vm_safe. rewrite Hs. apply orb_true_r.
Qed.

Lemma decoder_new_ok p d :
  (p_vm_time_correlation p = true -> p_vm_tm_corr_dry_run p = true) ->
  intel_pt_decoder_new true p = Some (Some d) -> ok d.
Proof.
  intros Hv. unfold intel_pt_decoder_new. cbn [negb]. cbv zeta.
  match goal with |- context [intel_pt_setup_period ?d0] => set (d1 := d0) end.
  assert (ok d1) as Hd1 by (apply zero_ok; [reflexivity|reflexivity|exact Hv]).
  clearbody d1. destruct (intel_pt_setup_period d1) as [d2|] eqn:E; [|done].
  assert (keeps d2 d1) as K2.
  { revert E. unfold intel_pt_setup_period.
    destruct (intel_pt_lower_power_of_2 (d_period d1)) as [z|]; cbn [mbind option_bind];
      destruct (d_period_type d1); intros [= <-]; first [apply keeps_refl | frame]. }
  cbn [mbind option_bind]. intros [= <-]. eapply keeps_ok; [|exact Hd1].
  eapply keeps_trans; [|exact K2]. frame.
Qed.

Section safety.
Context {D : Type} `{Platform} `{Callbacks D} `{Fuel} `{!TraceEnv D}.

Lemma decode_times_safe n : safe (D:=D) (decode_times n).
Proof.
  induction n as [|n IH]; cbn [decode_times]; [apply safe_ret|].
  apply safe_bind; [apply decode_safe|]. intros s. apply safe_bind; [exact IH|].
  intros l. apply safe_ret.
Qed.

End safety.

(** C1: memory safety of the decoder.  Let every buffer of the trace be empty or
    hold at least 32 bytes, less than 2^63, and as many as its length says.  Then a
    decoder made by [intel_pt_decoder_new], without VM time correlation or with it
    as a dry run, makes no access outside the trace buffers, its temporary buffer
    and its return stack in any number of calls of [intel_pt_decode], whatever the
    bytes of the trace are, whatever the instructions walked are, and whether or not
    allocations fail; and it keeps the invariant of its buffers.  With a shorter
    buffer that ends a split PSB it does read outside ([split_psb_overrun]). *)
Theorem decode_memory_safe {D} `{Platform} `{Callbacks D} `{Fuel} `{!TraceEnv D}
    (p : intel_pt_params) (d : intel_pt_decoder) (n : nat) (e : D) :
  (p_vm_time_correlation p = true -> p_vm_tm_corr_dry_run p = true) ->
  intel_pt_decoder_new true p = Some (Some d) ->
  env_ok e ->
  wp (decode_times n) (fun _ d' e' => mem_ok d' /\ env_ok e') d e.
Proof.
  intros Hv Hn He. pose proof (decoder_new_ok p d Hv Hn) as Hd.
  eapply wp_mono; [by apply decode_times_safe|]. intros l d' e' ([] & ? & _). done.
Qed.

Lemma decode_memory_safe_witness :
  wp (decode_times 8) (fun _ d' e' => mem_ok d' /\ env_ok e') example_decoder [example_buffer].
Proof.
  apply (decode_memory_safe example_params example_decoder 8 [example_buffer]).
  - done.
  - vm_compute. reflexivity.
  - constructor; [|constructor]. vm_compute. split; [split; discriminate|reflexivity].
Defined.

(** The contract on buffer sizes is needed.  When a PSB is split between two
    buffers and the second holds exactly the rest of it, the second call of
    [intel_pt_decode] reads outside the buffer on a 64-bit host:
    [intel_pt_get_split_psb] leaves an empty [next_buf], whose missing packet
    makes [intel_pt_bad_packet] step over a byte that is not there. *)
Theorem split_psb_overrun :
  decode_times 1 example_decoder split_psb_trace <> Fault /\
  decode_times 2 example_decoder split_psb_trace = Fault.
Proof. split; [by vm_compute|]. vm_compute. reflexivity. Qed.

(** ** Reading a trace to its end *)

(** C33: reading a packet ends.  On a trace with finitely many bytes left, whose
    buffers are empty or hold at least 32 bytes, for a decoder whose buffers are
    valid and with more fuel than bytes left, [intel_pt_get_next_packet] returns,
    whatever the bytes are: with the error of the trace callback or of a bad packet,
    or with a packet that is not padding, having moved on by a byte at least. *)
Theorem next_packet_ends {D} `{Platform} `{Callbacks D} `{Fuel} `{!TraceEnv D} `{!FiniteTrace D}
    (d : intel_pt_decoder) (e : D) :
  mem_ok d -> env_ok e -> bytes_after d e < Z.of_nat fuel ->
  exists ret d' e', intel_pt_get_next_packet d e = Ret (ret, d', e') /\ mem_ok d' /\ env_ok e' /\
    (ret = 0 -> pkt_type (d_packet d') <> INTEL_PT_PAD /\ bytes_after d' e' < bytes_after d e).
Proof. intros Hd He Hf. apply twp_elim. by apply get_next_packet_total. Qed.

Lemma example_decoder_ok : mem_ok example_decoder.
Proof.
  assert (intel_pt_decoder_new true example_params = Some (Some example_decoder)) as E
    by (vm_compute; reflexivity).
  by destruct (decoder_new_ok example_params example_decoder ltac:(done) E).
Qed.

Lemma next_packet_ends_witness :
  exists ret d' e',
    intel_pt_get_next_packet (H1 := 80%nat) example_decoder [example_buffer] = Ret (ret, d', e') /\
    mem_ok d' /\ env_ok e' /\
    (ret = 0 -> pkt_type (d_packet d') <> INTEL_PT_PAD /\
       bytes_after d' e' < bytes_after example_decoder [example_buffer]).
Proof.
  apply (next_packet_ends (H1 := 80%nat) example_decoder [example_buffer]).
  - apply example_decoder_ok.
  - repeat constructor; vm_compute; done.
  - vm_compute. reflexivity.
Defined.

(** C23: the scan finds the first PSB.  Let the decoder's buffers be valid, no next
    buffer be held, and the buffers still to come follow on one another and hold at
    least 32 bytes each.  Wherever they are cut, within a PSB too,
    [intel_pt_scan_for_psb] stops on the first PSB of the bytes of all of them put
    together, at its position, with all the bytes from it on still ahead; where there
    is no PSB it returns the code the trace ends with.  It takes as many turns as
    there are buffers. *)
Theorem scan_finds_first_psb {D} `{Platform} `{Callbacks D} `{Fuel} `{!TraceEnv D}
    (d : intel_pt_decoder) (e : D) bs err :
  mem_ok d -> env_ok e -> d_next_buf d = None -> serves e bs err ->
  (length bs + 2 <= fuel)%nat ->
  let stream := current d ++ concat (map b_data bs) in
  exists ret d' e', intel_pt_scan_for_psb d e = Ret (ret, d', e') /\
    match memmem stream INTEL_PT_PSB_STR with
    | Some o => ret = 0 /\ d_packet d' = mkPkt INTEL_PT_PSB 0 0 /\ d_pos d' = u64 (d_pos d + o) /\
        exists cs, upcoming d' e' cs err /\ current d' ++ concat cs = drop (Z.to_nat o) stream
    | None => ret = err
    end.
Proof.
  intros [Hc _ _ _] He Hn Hs Hf stream. apply twp_elim.
  apply (scan_loop_first fuel d e (map b_data bs) err); [done|done| |by left|lia|].
  - exists bs. split; [done|]. unfold behind. by rewrite Hn.
  - unfold turns. rewrite length_map. destruct (d_len d =? 0); lia.
Qed.

(** A PSB that begins in the current buffer and ends in the next one. *)
Definition cut_psb_decoder : intel_pt_decoder :=
  example_decoder <| d_buf := [x00; x00; x82] ++ take 10 INTEL_PT_PSB_STR |> <| d_len := 13 |>.
Definition cut_psb_buffer : intel_pt_buffer :=
  mkBuffer (drop 10 INTEL_PT_PSB_STR ++ replicate 30 x00) 36 true 99 0.

Lemma cut_psb_decoder_ok : mem_ok cut_psb_decoder.
Proof.
  destruct example_decoder_ok as [[C1 C2 C3 C4 C5 C6] _ _ _].
  assert (d_next_buf example_decoder = None) as En by (vm_compute; reflexivity).
  assert (d_pkt_step example_decoder = 0) as Es by (vm_compute; reflexivity).
  unfold cut_psb_decoder. split; [split|left|..]; rsimpl; rewrite ?En, ?Es; try done.
  all: cbn; lia.
Qed.

Lemma scan_finds_first_psb_witness :
  exists ret d' e', intel_pt_scan_for_psb cut_psb_decoder [cut_psb_buffer] = Ret (ret, d', e') /\
    ret = 0 /\ d_packet d' = mkPkt INTEL_PT_PSB 0 0 /\ d_pos d' = 3 /\
    exists cs, upcoming d' e' cs (- ENODATA) /\
      current d' ++ concat cs = INTEL_PT_PSB_STR ++ replicate 30 x00.
Proof.
  assert (mem_ok cut_psb_decoder) as Hm by apply cut_psb_decoder_ok.
  assert (env_ok [cut_psb_buffer]) as He by (repeat constructor; vm_compute; done).
  assert (serves [cut_psb_buffer] [cut_psb_buffer] (- ENODATA)) as Hs.
  { eexists. split; [reflexivity|]. split; [by vm_compute|]. split; [done|].
    do 3 eexists. split; [reflexivity|]. by right. }
  apply (scan_finds_first_psb cut_psb_decoder [cut_psb_buffer] [cut_psb_buffer] (- ENODATA));
    [exact Hm|exact He|reflexivity|exact Hs|vm_compute; lia].
Defined.
